(* ===== verification/_CoqProject ===== *)
-Q . S2P
Prelude.v
FfxApi.v
FrameGenState.v
FrameGen.v
FrameGenConfigs.v
FrameGenSteps.v
FrameGenChain.v
FrameGenDemo.v
FrameGenModes.v
FrameGenBounds.v
FrameGenRefs.v
Upscaler.v
UpscalerProofs.v
Handle.v
HandleProofs.v
Sync.v
SyncProofs.v
NtdllSort.v
NtdllSortProofs.v
RtlBitmap.v
RtlBitmapProofs.v
RtlBitmapRuns.v
Region.v
RegionBands.v
RegionCoalesce.v
RegionOp.v
RegionProofs.v
RegionTheorems.v
RegionStore.v
RegionTransform.v
Atom.v
AtomProofs.v
AtomOps.v
AtomTheorems.v
Completion.v
CompletionProofs.v
CompletionOps.v
CompletionTheorems.v
StrText.v
StrTextProofs.v
StrTextTheorems.v
RegValue.v
RegValueProofs.v
RegValueTheorems.v
RegText.v
RegTextProofs.v
RegTextTheorems.v
Threads.v
Futex.v
Srw.v
SrwProofs.v
SrwTheorems.v
CritSect.v
CritSectProofs.v
CritSectTheorems.v
RunOnce.v
RunOnceTheorems.v
Timer.v
TimerProofs.v
TimerSteps.v
TimerTrace.v
TimerTheorems.v
Fallible.v
Security.v
Token.v
SecurityProofs.v
SecurityTheorems.v
TokenTheorems.v
TokenLabels.v
TokenPrivileges.v
RegKey.v
RegKeyProofs.v
RegKeyTree.v
RegKeyRefs.v
RegKeyChange.v
RegKeyLookup.v
RegKeyCreate.v
RegKeyRequests.v
RegKeyTheorems.v
RegKeyExamples.v
