(* ===== verification/Prelude.v ===== *)
(** * Wine 11.17 for D3DMetal: a verification library

    ** The program

    The repository is a Wine tree: the Windows programming interfaces as libraries
    ([src/dlls]), the server that owns all kernel objects ([src/server]), Windows
    programs, a loader and build tools.  This branch adds two builtin libraries that
    stand in for AMD's FidelityFX: [amd_fidelityfx_framegeneration_dx12] and
    [amd_fidelityfx_upscaler_dx12].  Each offers the [ffx*] entry points to a game on
    the Windows side and sends fixed-size packets to a translator on the Unix side
    ([src/include/yaagl_fsr_bridge.h], [src/include/yaagl_fsr_fg_bridge.h]); the
    frame-generation library decides per context between the translator (MetalFX) and
    the vendor's own provider.  Under them lie [ntdll], which every process links, and
    the wineserver, which processes reach by handles.

    ** Files and what they model

    - [Prelude]: machine integers as [Z] with their wrap-around, pointers as
      addresses, a state monad [M], the relations [keeps] and [triple] and the tactic
      [keeps_auto] with its hint database [c_db].
    - [FfxApi]: descriptors, return codes and packets of the FidelityFX interface.
    - [FrameGenState], [FrameGen]: [src/dlls/amd_fidelityfx_framegeneration_dx12/main.c].
      [FrameGenState] has the state ([world]: the context list, the contexts in a heap,
      locks, the trace of external calls) and the leaf functions: reference counting,
      frame-configuration lists, swapchain claims, callbacks bookkeeping.  [FrameGen]
      has translation packets, provider selection, dispatch, configuration and the
      five entry points, each the whole function with its guards and early returns.
      The other side of every external call (the vendor's functions, the translator,
      COM methods, memory, callbacks of the game) is a parameter that answers from the
      trace of the calls so far; nothing is assumed of it except where a theorem says
      so.
    - [FrameGenConfigs]: the frame-configuration list.  [FrameGenSteps]: what each
      function may do to the trace and the contexts, and steps of the API as a
      relation.  [FrameGenChain]: interfaces, as classes, for relations between states
      that all functions keep, and what application callbacks may do: use the entry points.  [FrameGenDemo]: a concrete environment for witnesses.
      [FrameGenModes]: provider selection.  [FrameGenBounds]: the bound on the list and
      its round trip.  [FrameGenRefs]: references to resources and swapchains.
    - [Upscaler], [UpscalerProofs]: [src/dlls/amd_fidelityfx_upscaler_dx12/main.c], the
      context list with threads interleaved, the jitter sequence with single-precision
      arithmetic, the bounded log.
    - [Handle], [HandleProofs]: [src/server/handle.c] with the reference counts of
      [src/server/object.c]: tables, allocation, closing, duplication, inheritance,
      flags and request handlers.  Reading memory never written, leaving a table or
      following a null pointer is recorded as a fault.
    - [Sync], [SyncProofs]: events, mutexes and semaphores ([src/server/event.c],
      [src/server/mutex.c], [src/server/semaphore.c]) with the waits of
      [src/server/thread.c]: wait structures, wait queues, waking, selecting, timeouts
      and suspension, as a step relation over requests.
    - [NtdllSort], [NtdllSortProofs]: [qsort] and [bsearch] of [src/dlls/ntdll/misc.c].
    - [RtlBitmap], [RtlBitmapProofs], [RtlBitmapRuns]: [src/dlls/ntdll/rtlbitmap.c],
      against a bitmap seen as a function from positions to booleans.
    - [Region]: [src/server/region.c] with the rectangle helpers of [src/server/user.h],
      regions in a heap so that the destination of an operation may be one of its
      sources.  [RegionBands]: the three functions on one band against intervals.
      [RegionCoalesce]: joining equal bands.  [RegionOp]: the sweep over both regions,
      proved once against the class [BandOps], which states what the functions on a
      band promise.  [RegionProofs], [RegionTheorems]: the operations against point
      sets.  [RegionStore]: all regions of the server over time, failing operations
      included, and the data exchanged with clients.  [RegionTransform]: mirroring and scaling.
    - [Atom]: [src/server/atom.c] with the string functions of [src/server/unicode.c].
      [AtomProofs]: the invariant of the linked hash lists.  [AtomOps]: adding and
      removing an entry.  [AtomTheorems]: tables against a map from atoms to names.
    - [Completion]: [src/server/completion.c].  [CompletionProofs]: the invariant on
      links and queues.  [CompletionOps]: each request keeps it.  [CompletionTheorems]:
      sequences of requests.
    - [StrText], [StrTextProofs], [StrTextTheorems]: the strings of registry files,
      [parse_strW] and [dump_strW] of [src/server/unicode.c].
    - [RegValue]: the values of registry keys in [src/server/registry.c].
      [RegValueProofs]: the search by halving.  [RegValueTheorems]: values against a map
      from names to values.
    - [RegText]: values written to registry files and loaded from them, in the same
      source file.  [RegTextProofs], [RegTextTheorems]: each form of data and each length
      of line is read back.
    - [Threads]: sums over the program points of threads, to tie counters in memory to
      the threads that account for them.  [Futex]: [RtlWaitOnAddress] and the wake
      functions of [src/dlls/ntdll/sync.c], with what they promise their callers.
    - [Srw], [SrwProofs], [SrwTheorems]: slim reader-writer locks and the condition
      variables used with them, from the same source file, as a transition system over
      any number of threads; one step is one access to shared memory or one futex
      operation.  [SrwProofs]: what the counters say.  [SrwTheorems]: exclusion, and that
      each sleeper is woken.
    - [CritSect], [CritSectProofs], [CritSectTheorems]: critical sections with recursion,
      spinning and waiting, in the same way.
    - [RunOnce], [RunOnceTheorems]: one-time initialisation, whose waiting threads form a
      list through their stacks.
    - [Timer]: the timeout lists of [src/server/fd.c] with the conversions of
      [src/server/file.h], and the waitable timers of [src/server/timer.c].
      [TimerProofs]: the pointers between timers and timeouts.  [TimerSteps]: every
      request and callback keeps them.  [TimerTrace]: what becomes of each timeout.
      [TimerTheorems]: sequences of requests and rounds of the main loop.
    - [Security]: SIDs, access control lists and security descriptors as bytes, their
      validation and the access check ([src/server/security.h], [src/server/token.c]).
      [Token]: the tokens of [src/server/token.c] with every operation that changes one,
      and how an object gets its descriptor ([set_sd_defaults_from_token] of
      [src/server/object.c]).  [SecurityProofs]: what validation promises of the bytes,
      and the loop over the entries of a list against the rules they state.
      [SecurityTheorems], [TokenTheorems], [TokenLabels], [TokenPrivileges]: access
      checks, derived tokens, labels and privileges.
    - [Fallible]: a state monad in which following a null or freed pointer and running
      out of fuel have no result, with [runs] (an operation ends without a fault and
      leaves this) and [along] (every step of it respects a relation).
    - [RegKey]: the keys of [src/server/registry.c] with the naming of objects in
      [src/server/object.c]: a heap of keys with reference and handle counts, sorted
      subkeys, links, shared keys of 32-bit programs and notifications; lookup, creation,
      deletion, renaming, enumeration, watching, and the requests on values carried out on
      a key of the tree.  [RegKeyProofs]: the invariant of tree and counts.  [RegKeyTree]:
      the search among subkeys and changes of the tree.  [RegKeyRefs]: references, handles
      and unlinking.  [RegKeyChange]: linking, renaming and deleting, and what other keys
      see of it.  [RegKeyLookup]:
      lookups end.  [RegKeyCreate], [RegKeyRequests]: each request keeps the invariant.
      [RegKeyTheorems]: sequences of requests, and what deletion, renaming and
      notification do exactly.  [RegKeyExamples]: a small registry, the keys made at
      startup, and two requests that go wrong.

    ** What the theorems show

    Frame generation: a frame finds the newest configuration not after it, and
    retiring completed frames does not change what later frames find; a context
    decides for one provider once; recorded work is never submitted twice; each
    context keeps at most 64 configurations; references to resources and swapchains taken and
    given back balance, when callbacks of the game use the entry points and create no context.
    Upscaler: no interleaving touches a freed context; after any calls the contexts in memory
    are those on the list, each with one reference; the jitter
    index stays in its sequence, the log is bounded.  Handles: encoding is injective,
    the lowest free slot is taken, closing frees exactly one slot, flag changes touch
    only their bits; closing a global handle is shown to leave the table.
    Synchronisation: semaphore counts and mutex ownership stay consistent through any
    sequence of requests, refused releases change nothing; a release can wake the wrong
    thread, and a wait for one semaphore twice can stop the server.  Bitmaps: the
    word-wise operations change and test exactly the bits asked for; searches are
    first fit; blocks taken never overlap; counts are exact; the table-driven bit
    searches are exact; runs are found exactly from byte-aligned starts, and misplaced
    from others.  Regions: the sweep over bands computes intersection, subtraction, union
    and exclusive or of point sets and leaves a canonical form when both sources have it, in
    which equality of the data is equality of the points; over any history, whatever data
    clients send, regions stay well-formed until an operation fails or overflows on them, and
    their arrays hold rectangles even then; mirroring a band of several rectangles and scaling negative
    coordinates are shown to go wrong.  Atoms: the hash table with its linked lists is a
    map from atoms to names up to case, with counts.  Completion ports: messages leave a
    port in the order they came, and removing the last one ends the signal; one request is shown to unlink an entry twice, and a
    port to stay signalled when it is empty.  Strings of text files: reading is memory
    safe on any bytes, what was written is read back, UTF-8 is decoded.  Registry: the
    sorted array of values is a map from names up to case, and every value survives being
    written to a file and loaded; no sequence of requests on keys makes the tree of keys
    inconsistent, loses a reference or makes the server fault, as long as links lead to
    keys and, for 32-bit programs, no link lies beside a shared key; deletion fails exactly
    for the reasons stated and takes out exactly a branch, renaming is refused exactly for the
    reasons stated and moves exactly one key, keys above only become dirty and tell who asked,
    and a change tells exactly those who asked; a key without a name is shown to make the
    server fault, and a link beside a shared key, in a registry made by startup and
    requests, to make a lookup go on for ever.  Sorting: memory safety, termination and the bound on
    the explicit stack for every comparison function, sortedness for consistent ones.
    Locks of [ntdll]: in every interleaving, with stray alerts and timeouts, exclusive
    ownership is exclusive and the counters are the owners and waiters; and no wake-up is
    lost: when nobody owns the lock and no thread can step, nobody waits; for critical
    sections this is outside of process shutdown, when the code lets every waiter in.  One-time
    initialisation has one initialiser, one result, and forgets no waiter.  Timers: each
    timer and its timeout point at each other through any history, a round of the main
    loop calls exactly what is due, absolute timeouts before relative ones, each kind in order
    and once, and sleeps until the next timeout;
    the state reported of an auto-reset timer is shown to stay signaled.  Security: descriptors
    from clients are read in bounds, except that an entry shorter than its header is shown
    to be accepted; the access check grants rights asked for by name exactly when entries allow
    them before any entry denies one of them, and all rights less the denied ones otherwise; tokens
    derived from a token never gain a group or a privilege, but a filtered group is shown to
    escape denials too; labels are replaced without touching other entries, the privileges
    of a token can be put back from the state reported when none is removed or named twice; and a token without default DACL is
    shown to stop the server.

    ** Bounds and fuel

    Loops whose recursion is not structural take fuel, and running out of it is an
    error value of the same type as a memory error; the theorems prove the successful
    result, so the fuel chosen is enough: the size of the bitmap plus one for searches,
    bytes plus one for runs, twice the number of elements for [quick_sort] (each
    segment taken from the stack either is sorted or is split into two smaller ones),
    the length plus one for [bsearch], 32 rounds for [radical_inverse], the number of
    wait structures for [wake_thread] and [wake_up] (each round ends a wait), the number
    of rectangles of both regions for the sweep (each round finishes a band of one of
    them) and of one region for mirroring, the number of entries for a walk along a hash
    list, the count of a table for its first free slot, the length of a text for the loops that
    parse it, the number of values for the search by halving, the bytes left in a file
    for the loops that read lines, the expired timeouts for the loop that calls them
    (callbacks only shorten the list), the bytes of a request for the SIDs in it, the
    number of keys for walks up the tree, chains of releases and the depth and rounds of a
    deletion, the code's own limit of 33 nested lookups, and twice the length of the name
    and the number of keys together for the rounds of one lookup (each round uses up a part
    of the name or moves up from a shared key).
    Descriptor chains are bounded by the code's own [MAX_DESCRIPTOR_CHAIN].  Integers keep their
    width: theorems state where a 32-bit sum must not wrap.  The locks are proved for fewer
    than 2^15 threads, the limit the source documents, and critical sections for a nesting
    of at most 4096, so that the 32-bit lock count does not wrap.

    ** Not modelled

    The Unix sides of the two builtins and the Objective-C++ translators (other
    languages; they only appear as answers to packets), the names of objects other than
    registry keys, the requests that only report what a token holds, keyed events and
    in-process syncs of the server, barriers, resources and interlocked lists of [ntdll],
    the files of whole registry branches, and the rest of
    Wine: libraries, programs, tools and vendored code, each of which is a program of its
    own.
    Memory is granted or refused by a parameter, the table of case mappings and the
    threads a wake-up of a completion wait finds are parameters too, as are, for registry
    keys, what the directory of the registry's name answers and which handles are refused
    for want of access, and what loading a registry file at startup does to a key; the number
    of rectangles of a region, the reference count of an upscaler context and the length of
    the line buffer of the file reader are counted without a bound.  Only the owner of a slim
    reader-writer lock releases it, a critical section has no semaphore handle stored in it, the write
    to the pipe that wakes a thread succeeds, and a comparison function of [qsort] answers
    for two elements always the same.  Memory is sequentially consistent:
    the locks use interlocked operations where it matters, and what a function does under
    the spin lock of a futex queue is one step.
    Left open: when a wait cannot be lost (no pending timeouts and APCs) and fairness of
    the wait queues; that a registry branch written to a file and loaded is the same
    branch, of which the values and the strings are proved here. *)

From stdpp Require Import base list gmap.
From Stdlib Require Import ZArith Lia.

Open Scope Z_scope.

(** ** Machine integers

    A [w]-bit unsigned C integer is a [Z] in [[0, 2^w)]; [uwrap w] is the
    reduction every unsigned operation performs.  A signed integer is the
    representative in [[-2^(w-1), 2^(w-1))]. *)

Definition uwrap (w x : Z) : Z := x mod 2 ^ w.

Definition swrap (w x : Z) : Z :=
  (x + 2 ^ (w - 1)) mod 2 ^ w - 2 ^ (w - 1).

Abbreviation u8 := (uwrap 8).
Abbreviation u16 := (uwrap 16).
Abbreviation u32 := (uwrap 32).
Abbreviation u64 := (uwrap 64).
Abbreviation i32 := (swrap 32).
Abbreviation i64 := (swrap 64).

Lemma uwrap_range w x : 0 <= w -> 0 <= uwrap w x < 2 ^ w.
Proof. intros. unfold uwrap. apply Z.mod_pos_bound. by apply Z.pow_pos_nonneg. Qed.

Lemma uwrap_small w x : 0 <= x < 2 ^ w -> uwrap w x = x.
Proof. apply Z.mod_small. Qed.

Lemma swrap_range w x :
  1 <= w -> - 2 ^ (w - 1) <= swrap w x < 2 ^ (w - 1).
Proof.
  intros Hw. unfold swrap.
  assert (H2 : 2 ^ w = 2 * 2 ^ (w - 1)).
  { rewrite <- Z.pow_succ_r by lia. f_equal. lia. }
  pose proof (Z.mod_pos_bound (x + 2 ^ (w - 1)) (2 ^ w)) as Hb.
  assert (0 < 2 ^ (w - 1)) by (apply Z.pow_pos_nonneg; lia). lia.
Qed.

Lemma swrap_small w x :
  1 <= w -> - 2 ^ (w - 1) <= x < 2 ^ (w - 1) -> swrap w x = x.
Proof.
  intros Hw Hx. unfold swrap.
  assert (H2 : 2 ^ w = 2 * 2 ^ (w - 1)).
  { rewrite <- Z.pow_succ_r by lia. f_equal. lia. }
  rewrite Z.mod_small; lia.
Qed.

(** [~x] on 32 bits. *)
Definition not32 (x : Z) : Z := u32 (Z.lnot x).

(** [C] booleans stored into integer fields. *)
Definition b2z (b : bool) : Z := if b then 1 else 0.

(** [flags & mask] read as a condition. *)
Definition has_flag (flags mask : Z) : bool := negb (Z.land flags mask =? 0).

(** A pointer is an address; [0] is [NULL]. *)
Abbreviation ptr := Z (only parsing).
Abbreviation NULL := 0 (only parsing).

(** ** A state monad

    Stateful C functions are translated to [M S A]: a function from the state
    before to the value returned and the state after. *)

Definition M (S A : Type) : Type := S -> A * S.

Definition mreturn {S A} (a : A) : M S A := fun s => (a, s).

Definition mbind' {S A B} (m : M S A) (k : A -> M S B) : M S B :=
  fun s => let r := m s in k r.1 r.2.

Definition mget {S} : M S S := fun s => (s, s).
Definition mgets {S A} (f : S -> A) : M S A := fun s => (f s, s).
Definition mmodify {S} (f : S -> S) : M S unit := fun s => (tt, f s).

Declare Scope c_scope.
Delimit Scope c_scope with C.

Notation "'let!' x ':=' m 'in' k" := (mbind' m (fun x => k))
  (at level 10, x name, m at level 200, k at level 200,
   format "'[hv' 'let!'  x  ':='  m  'in'  '//' k ']'") : c_scope.
Notation "'let!' ' p ':=' m 'in' k" := (mbind' m (fun x => match x with p => k end))
  (at level 10, p pattern, m at level 200, k at level 200) : c_scope.
Notation "m ';;;' k" := (mbind' m (fun _ => k))
  (at level 100, k at level 200, right associativity,
   format "'[hv' m  ';;;'  '//' k ']'") : c_scope.

Open Scope c_scope.

(** [mwhen b m] is [if (b) m;]. *)
Definition mwhen {S} (b : bool) (m : M S unit) : M S unit :=
  if b then m else mreturn tt.

(** [for (x in l) f(x)]: the calls in list order. *)
Fixpoint mfor {S A} (f : A -> M S unit) (l : list A) : M S unit :=
  match l with
  | [] => mreturn tt
  | x :: l' => f x ;;; mfor f l'
  end.

(** ** Reasoning about [M]

    [keeps R m]: every run of [m] takes the state along [R].  [triple P m Q]:
    a run of [m] from a state in [P] returns a value and a state in [Q]. *)

Definition keeps {S A} (R : S -> S -> Prop) (m : M S A) : Prop :=
  forall s, R s (m s).2.

Definition triple {S A} (P : S -> Prop) (m : M S A) (Q : A -> S -> Prop) : Prop :=
  forall s, P s -> Q (m s).1 (m s).2.

Lemma bind_run {S A B} (m : M S A) (k : A -> M S B) s :
  mbind' m k s = k (m s).1 (m s).2.
Proof. reflexivity. Qed.

(** Run the binds at the head of the program. *)
Ltac run := repeat (rewrite bind_run; cbv beta).

Create HintDb c_db.

Section Logic.
Context {S : Type} (R : S -> S -> Prop) `{!PreOrder R}.

Lemma keeps_return {A} (a : A) : keeps R (mreturn a).
Proof. intros s. simpl. reflexivity. Qed.

Lemma keeps_bind {A B} (m : M S A) (k : A -> M S B) :
  keeps R m -> (forall a, keeps R (k a)) -> keeps R (mbind' m k).
Proof. intros Hm Hk s. unfold mbind'. etransitivity; [apply Hm | apply Hk]. Qed.

Lemma keeps_gets {A} (f : S -> A) : keeps R (mgets f).
Proof. intros s. simpl. reflexivity. Qed.

Lemma keeps_modify f : (forall s, R s (f s)) -> keeps R (mmodify f).
Proof. intros Hf s. apply Hf. Qed.

Lemma keeps_mwhen b m : keeps R m -> keeps R (mwhen b m).
Proof. intros H. destruct b; [exact H | apply keeps_return]. Qed.

Lemma keeps_mfor {A} (f : A -> M S unit) l :
  (forall x, keeps R (f x)) -> keeps R (mfor f l).
Proof.
  intros Hf. induction l as [| x l IH]; [apply keeps_return |].
  apply keeps_bind; [apply Hf | intros _; exact IH].
Qed.
End Logic.

Section Triples.
Context {S : Type}.

Lemma triple_return {A} (a : A) (P : S -> Prop) (Q : A -> S -> Prop) :
  (forall s, P s -> Q a s) -> triple P (mreturn a) Q.
Proof. intros H s Hs. by apply H. Qed.

Lemma triple_bind {A B} (P : S -> Prop) (Q : A -> S -> Prop) (T : B -> S -> Prop)
    (m : M S A) (k : A -> M S B) :
  triple P m Q -> (forall a, triple (Q a) (k a) T) -> triple P (mbind' m k) T.
Proof. intros Hm Hk s Hs. unfold mbind'. by apply Hk, Hm. Qed.

Lemma triple_weaken {A} (P P' : S -> Prop) (Q Q' : A -> S -> Prop) (m : M S A) :
  triple P' m Q' -> (forall s, P s -> P' s) -> (forall a s, Q' a s -> Q a s) ->
  triple P m Q.
Proof. intros Hm HP HQ s Hs. by apply HQ, Hm, HP. Qed.

Lemma triple_keeps {A} (R : S -> S -> Prop) (P : S -> Prop) (Q : A -> S -> Prop)
    (m : M S A) :
  (forall s0, P s0 -> triple (eq s0) m (fun a s => R s0 s /\ Q a s)) ->
  triple P m (fun a s => exists s0, P s0 /\ R s0 s /\ Q a s).
Proof. intros H s Hs. exists s. split; [done |]. by apply (H s Hs s). Qed.
End Triples.

(** [keeps_step] takes a [keeps] goal apart along the program; [c_db] holds the
    lemmas on the functions already treated. *)
Ltac keeps_step :=
  match goal with
  | |- keeps _ (mbind' _ _) => apply keeps_bind; [try apply _ | | intros ?]
  | |- keeps _ (mreturn _) => apply keeps_return; apply _
  | |- keeps _ (mgets _) => apply keeps_gets; apply _
  | |- keeps _ (mwhen _ _) => apply keeps_mwhen; [try apply _ |]
  | |- keeps _ (mfor _ _) => apply keeps_mfor; [try apply _ | intros ?]
  | |- keeps _ _ => solve [eauto with c_db]
  | |- keeps _ (match ?x with _ => _ end) => destruct x eqn:?
  | |- keeps _ (let _ := _ in _) => cbv zeta
  end.

Ltac keeps_auto := repeat keeps_step.
