(* ===== verification/FfxApi.v ===== *)
(** * The FidelityFX API as the two Wine builtins see it

    The descriptors an application passes to [ffxCreateContext], [ffxConfigure],
    [ffxQuery] and [ffxDispatch], the return codes, and the packets the builtins
    send over the Unix call to the native translator
    ([include/yaagl_fsr_fg_bridge.h]).  A [pNext] chain of descriptors is the
    list of the entries a walk along it meets. *)

From stdpp Require Import base list.
From Stdlib Require Import ZArith SpecFloat.
From S2P Require Import Prelude.

Open Scope Z_scope.

(** ** Return codes *)

Definition FFX_API_RETURN_OK := 0.
Definition FFX_API_RETURN_ERROR := 1.
Definition FFX_API_RETURN_ERROR_UNKNOWN_DESCTYPE := 2.
Definition FFX_API_RETURN_ERROR_RUNTIME_ERROR := 3.
Definition FFX_API_RETURN_NO_PROVIDER := 4.
Definition FFX_API_RETURN_ERROR_MEMORY := 5.
Definition FFX_API_RETURN_ERROR_PARAMETER := 6.

(** ** Single precision floats

    [float] values are IEEE-754 binary32 data; comparisons are the quiet C
    operators, false on a NaN. *)

Abbreviation f32 := spec_float.

Definition isfinite (x : f32) : bool :=
  match x with
  | S754_zero _ | S754_finite _ _ _ => true
  | S754_infinity _ | S754_nan => false
  end.

Definition f32_zero : f32 := S754_zero false.

(** [3.141592654f] is the binary32 number [13176795 * 2^-22]. *)
Definition f32_pi : f32 := S754_finite false 13176795 (-22).

(** [a > b], [a >= b] in C. *)
Definition SFgtb (a b : f32) : bool := SFltb b a.
Definition SFgeb (a b : f32) : bool := SFleb b a.

(** ** Structure types *)

Definition FFX_API_EFFECT_MASK := 0x00ff0000.
Definition FFX_API_EFFECT_ID_UPSCALE := 0x00010000.
Definition FFX_API_EFFECT_ID_FRAMEGENERATION := 0x00020000.
Definition FFX_API_EFFECT_ID_FRAMEGENERATIONSWAPCHAIN := 0x00030000.

(** [FFX_API_MAKE_EFFECT_SUB_ID] on 32-bit operands. *)
Definition FFX_API_MAKE_EFFECT_SUB_ID (effect sub : Z) : Z :=
  Z.lor (Z.land effect FFX_API_EFFECT_MASK)
        (Z.land sub (u32 (Z.lnot FFX_API_EFFECT_MASK))).

Definition fg_type := FFX_API_MAKE_EFFECT_SUB_ID FFX_API_EFFECT_ID_FRAMEGENERATION.
Definition fgsc_type := FFX_API_MAKE_EFFECT_SUB_ID FFX_API_EFFECT_ID_FRAMEGENERATIONSWAPCHAIN.

Definition FFX_API_CONFIGURE_DESC_TYPE_GLOBALDEBUG1 := 1.
Definition BACKEND_DX12_DESC_TYPE := 2.
Definition FFX_API_QUERY_DESC_TYPE_GET_VERSIONS := 4.
Definition FFX_API_DESC_TYPE_OVERRIDE_VERSION := 5.
Definition FFX_API_QUERY_DESC_TYPE_GET_PROVIDER_VERSION := 6.

Definition FFX_API_CREATE_CONTEXT_DESC_TYPE_FRAMEGENERATION := fg_type 1.
Definition FFX_API_CONFIGURE_DESC_TYPE_FRAMEGENERATION := fg_type 2.
Definition FFX_API_DISPATCH_DESC_TYPE_FRAMEGENERATION := fg_type 3.
Definition FFX_API_DISPATCH_DESC_TYPE_FRAMEGENERATION_PREPARE := fg_type 4.
Definition FFX_API_QUERY_DESC_TYPE_FRAMEGENERATION_GPU_MEMORY_USAGE := fg_type 7.
Definition FFX_API_CREATE_CONTEXT_DESC_TYPE_FRAMEGENERATION_HUDLESS := fg_type 9.
Definition FFX_API_DISPATCH_DESC_TYPE_FRAMEGENERATION_PREPARE_CAMERAINFO := fg_type 0xa.
Definition FFX_API_QUERY_DESC_TYPE_FRAMEGENERATION_GPU_MEMORY_USAGE_V2 := fg_type 0xb.
Definition FFX_API_DISPATCH_DESC_TYPE_FRAMEGENERATION_PREPARE_V2 := fg_type 0xc.
Definition FFX_API_CREATE_CONTEXT_DESC_TYPE_FRAMEGENERATION_VERSION := fg_type 0xe.
Definition FFX_API_FRAME_GENERATION_CONFIG := fg_type 0xf.
Definition FFX_API_CREATE_CONTEXT_DESC_TYPE_FRAMEGENERATIONSWAPCHAIN_WRAP_DX12 := fgsc_type 1.
Definition FFX_API_CREATE_CONTEXT_DESC_TYPE_FRAMEGENERATIONSWAPCHAIN_NEW_DX12 := fgsc_type 5.
Definition FFX_API_CREATE_CONTEXT_DESC_TYPE_FRAMEGENERATIONSWAPCHAIN_FOR_HWND_DX12 := fgsc_type 6.
Definition FFX_API_DISPATCH_DESC_TYPE_FRAMEGENERATIONSWAPCHAIN_WAIT_FOR_PRESENTS_DX12 := fgsc_type 7.

(** ** Flags *)

Definition FFX_API_CONFIGURE_GLOBALDEBUG_LEVEL_SILENCE := 0.
Definition FFX_API_CONFIGURE_GLOBALDEBUG_LEVEL_ERRORS := 1.
Definition FFX_API_CONFIGURE_GLOBALDEBUG_LEVEL_WARNINGS := 2.
Definition FFX_API_CONFIGURE_GLOBALDEBUG_LEVEL_VERBOSE := 0xfffffff.
Definition FFX_API_MESSAGE_TYPE_ERROR := 0.
Definition FFX_API_MESSAGE_TYPE_WARNING := 1.

Definition FFX_FRAMEGENERATION_ENABLE_ASYNC_WORKLOAD_SUPPORT := 1.
Definition FFX_FRAMEGENERATION_ENABLE_DISPLAY_RESOLUTION_MOTION_VECTORS := 2.
Definition FFX_FRAMEGENERATION_ENABLE_MOTION_VECTORS_JITTER_CANCELLATION := 4.
Definition FFX_FRAMEGENERATION_ENABLE_DEPTH_INVERTED := 8.
Definition FFX_FRAMEGENERATION_ENABLE_DEPTH_INFINITE := 16.
Definition FFX_FRAMEGENERATION_ENABLE_HIGH_DYNAMIC_RANGE := 32.
Definition FFX_FRAMEGENERATION_ENABLE_DEBUG_CHECKING := 64.

Definition FFX_FRAMEGENERATION_FLAG_DRAW_DEBUG_TEAR_LINES := 1.
Definition FFX_FRAMEGENERATION_FLAG_DRAW_DEBUG_RESET_INDICATORS := 2.
Definition FFX_FRAMEGENERATION_FLAG_DRAW_DEBUG_VIEW := 4.
Definition FFX_FRAMEGENERATION_FLAG_NO_SWAPCHAIN_CONTEXT_NOTIFY := 8.
Definition FFX_FRAMEGENERATION_FLAG_DRAW_DEBUG_PACING_LINES := 16.
Definition FFX_FRAMEGENERATION_FLAG_RESERVED_1 := 32.
Definition FFX_FRAMEGENERATION_FLAG_RESERVED_2 := 64.

Definition FFX_API_BACKBUFFER_TRANSFER_FUNCTION_SRGB := 0.
Definition FFX_API_BACKBUFFER_TRANSFER_FUNCTION_PQ := 1.
Definition FFX_API_BACKBUFFER_TRANSFER_FUNCTION_SCRGB := 2.

(** [FFX_FRAMEGENERATION_MAKE_VERSION(4, 0, 0)] *)
Definition FFX_FRAMEGENERATION_VERSION :=
  Z.lor (Z.lor (Z.shiftl 4 22) (Z.shiftl 0 12)) 0.

(** ** Resources and allocation callbacks *)

Record FfxApiResourceDescription := mkDescription {
  rd_type : Z; rd_format : Z; rd_width : Z; rd_height : Z;
  rd_depth : Z; rd_mipCount : Z; rd_flags : Z; rd_usage : Z }.

Record FfxApiResource := mkResource {
  resource : ptr;
  description : FfxApiResourceDescription;
  rstate : Z }.

(** What [memset(.., 0, ..)] leaves. *)
Definition null_description := mkDescription 0 0 0 0 0 0 0 0.
Definition null_resource := mkResource NULL null_description 0.

Record FfxApiRect2D := mkRect2D { left : Z; top : Z; width : Z; height : Z }.
Definition null_rect := mkRect2D 0 0 0 0.

Record ffxAllocationCallbacks := mkAllocation {
  pUserData : ptr; alloc : ptr; dealloc : ptr }.
Definition null_allocation := mkAllocation NULL NULL NULL.

(** ** Descriptors *)

Record ffxCreateContextDescFrameGeneration := mkCreateFG {
  cfg_flags : Z;
  displaySize_width : Z; displaySize_height : Z;
  maxRenderSize_width : Z; maxRenderSize_height : Z;
  backBufferFormat : Z }.

(** The twelve floats of the camera extension, three per vector. *)
Record camera_info := mkCamera {
  cameraPosition : list f32; cameraUp : list f32;
  cameraRight : list f32; cameraForward : list f32 }.

(** An entry of a [pNext] chain, with the structure its [type] announces. *)
Inductive entry :=
| E_FrameGeneration (d : ffxCreateContextDescFrameGeneration)
| E_Backend (device : ptr)
| E_Version (version : Z)
| E_Hudless (hudlessBackBufferFormat : Z)
| E_Override (versionId : Z)
| E_SwapchainWrap
| E_SwapchainNew
| E_SwapchainForHwnd
| E_Camera (c : camera_info)
| E_Other (type : Z).

Definition entry_type (e : entry) : Z :=
  match e with
  | E_FrameGeneration _ => FFX_API_CREATE_CONTEXT_DESC_TYPE_FRAMEGENERATION
  | E_Backend _ => BACKEND_DX12_DESC_TYPE
  | E_Version _ => FFX_API_CREATE_CONTEXT_DESC_TYPE_FRAMEGENERATION_VERSION
  | E_Hudless _ => FFX_API_CREATE_CONTEXT_DESC_TYPE_FRAMEGENERATION_HUDLESS
  | E_Override _ => FFX_API_DESC_TYPE_OVERRIDE_VERSION
  | E_SwapchainWrap => FFX_API_CREATE_CONTEXT_DESC_TYPE_FRAMEGENERATIONSWAPCHAIN_WRAP_DX12
  | E_SwapchainNew => FFX_API_CREATE_CONTEXT_DESC_TYPE_FRAMEGENERATIONSWAPCHAIN_NEW_DX12
  | E_SwapchainForHwnd => FFX_API_CREATE_CONTEXT_DESC_TYPE_FRAMEGENERATIONSWAPCHAIN_FOR_HWND_DX12
  | E_Camera _ => FFX_API_DISPATCH_DESC_TYPE_FRAMEGENERATION_PREPARE_CAMERAINFO
  | E_Other t => t
  end.

Record ffxConfigureDescFrameGeneration := mkConfigureFG {
  cf_pNext : list entry;
  swapChain : ptr;
  presentCallback : ptr; presentCallbackUserContext : ptr;
  frameGenerationCallback : ptr; frameGenerationCallbackUserContext : ptr;
  frameGenerationEnabled : bool; allowAsyncWorkloads : bool;
  HUDLessColor : FfxApiResource;
  cf_flags : Z;
  onlyPresentGenerated : bool;
  generationRect : FfxApiRect2D;
  frameID : Z }.

Definition null_configure :=
  mkConfigureFG [] NULL NULL NULL NULL NULL false false null_resource 0 false null_rect 0.

Record ffxDispatchDescFrameGeneration := mkDispatchFG {
  df_commandList : ptr;
  presentColor : FfxApiResource;
  outputs : list FfxApiResource;           (* four entries *)
  numGeneratedFrames : Z;
  df_reset : bool;
  backbufferTransferFunction : Z;
  minLuminance : f32; maxLuminance : f32;
  df_generationRect : FfxApiRect2D;
  df_frameID : Z }.

(** [desc->outputs[i].resource] *)
Definition output_at (d : ffxDispatchDescFrameGeneration) (i : nat) : FfxApiResource :=
  default null_resource (outputs d !! i).

(** The members Prepare V1 and Prepare V2 share, in the order of the SDK. *)
Record prepare_fields := mkPrepare {
  pf_frameID : Z; pf_flags : Z; pf_commandList : ptr;
  renderSize_width : Z; renderSize_height : Z;
  jitterOffset_x : f32; jitterOffset_y : f32;
  motionVectorScale_x : f32; motionVectorScale_y : f32;
  frameTimeDelta : f32; pf_reset : bool;
  cameraNear : f32; cameraFar : f32;
  cameraFovAngleVertical : f32; viewSpaceToMetersFactor : f32;
  depth : FfxApiResource; motionVectors : FfxApiResource }.

(** What [ffxDispatch] can be given: a header with its structure and its chain. *)
Inductive dispatch_desc :=
| D_Generate (d : ffxDispatchDescFrameGeneration) (pNext : list entry)
| D_Prepare (d : prepare_fields) (pNext : list entry)
| D_PrepareV2 (d : prepare_fields) (c : camera_info) (pNext : list entry)
| D_Other (type : Z) (pNext : list entry).

Definition dispatch_type (d : dispatch_desc) : Z :=
  match d with
  | D_Generate _ _ => FFX_API_DISPATCH_DESC_TYPE_FRAMEGENERATION
  | D_Prepare _ _ => FFX_API_DISPATCH_DESC_TYPE_FRAMEGENERATION_PREPARE
  | D_PrepareV2 _ _ _ => FFX_API_DISPATCH_DESC_TYPE_FRAMEGENERATION_PREPARE_V2
  | D_Other t _ => t
  end.

Definition dispatch_pNext (d : dispatch_desc) : list entry :=
  match d with
  | D_Generate _ n | D_Prepare _ n | D_PrepareV2 _ _ n | D_Other _ n => n
  end.

(** ** Bridge packets, [include/yaagl_fsr_fg_bridge.h] *)

Definition YAAGL_FSR_FG_BRIDGE_VERSION := 3.
Definition YAAGL_FSR_FG_DEPTH_INVERTED := 1.
Definition YAAGL_FSR_FG_DEPTH_INFINITE := 2.
Definition YAAGL_FSR_FG_DISPLAY_RESOLUTION_MOTION_VECTORS := 4.
Definition YAAGL_FSR_FG_MOTION_VECTORS_JITTERED := 8.

Inductive yaagl_fsr_fg_operation :=
| YAAGL_FSR_FG_PROBE | YAAGL_FSR_FG_CREATE | YAAGL_FSR_FG_PREPARE
| YAAGL_FSR_FG_DISPATCH | YAAGL_FSR_FG_DESTROY | YAAGL_FSR_FG_CONFIGURE.

Record packet_header := mkHeader {
  ph_size : Z; ph_version : Z; ph_operation : yaagl_fsr_fg_operation;
  ph_result : Z; ph_context : Z }.

Record create_packet := mkCreatePacket {
  cp_device : Z; cp_display_width : Z; cp_display_height : Z;
  cp_max_render_width : Z; cp_max_render_height : Z;
  cp_backbuffer_format : Z; cp_flags : Z }.

Record prepare_packet := mkPreparePacket {
  pp_command_list : Z; pp_frame_id : Z; pp_depth : Z; pp_motion_vectors : Z;
  pp_depth_state : Z; pp_motion_vectors_state : Z;
  pp_render_width : Z; pp_render_height : Z; pp_flags : Z; pp_reset : bool;
  pp_jitter_x : f32; pp_jitter_y : f32;
  pp_motion_scale_x : f32; pp_motion_scale_y : f32;
  pp_frame_time_delta_ms : f32; pp_camera_near : f32; pp_camera_far : f32;
  pp_camera_fov : f32; pp_view_space_to_meters : f32;
  pp_camera : camera_info; pp_camera_info_present : bool }.

Record dispatch_packet := mkDispatchPacket {
  dp_command_list : Z; dp_frame_id : Z; dp_present_color : Z; dp_output : Z;
  dp_hudless_color : Z; dp_present_color_state : Z; dp_output_state : Z;
  dp_hudless_color_state : Z; dp_num_generated_frames : Z; dp_reset : bool;
  dp_backbuffer_transfer_function : Z; dp_generation_rect : FfxApiRect2D;
  dp_min_luminance : f32; dp_max_luminance : f32 }.

Inductive packet :=
| P_Create (h : packet_header) (p : create_packet)
| P_Prepare (h : packet_header) (p : prepare_packet)
| P_Dispatch (h : packet_header) (p : dispatch_packet)
| P_Configure (h : packet_header) (enabled : Z)
| P_Destroy (h : packet_header).

Definition packet_head (p : packet) : packet_header :=
  match p with
  | P_Create h _ | P_Prepare h _ | P_Dispatch h _ | P_Configure h _ | P_Destroy h => h
  end.

(** [sizeof] of the packets: the fields of the header, in order, without
    internal padding, rounded up to the eight-byte alignment of the context. *)
Definition packet_size (op : yaagl_fsr_fg_operation) : Z :=
  match op with
  | YAAGL_FSR_FG_PROBE => 56
  | YAAGL_FSR_FG_CREATE => 56
  | YAAGL_FSR_FG_PREPARE => 168
  | YAAGL_FSR_FG_DISPATCH => 112
  | YAAGL_FSR_FG_CONFIGURE => 32
  | YAAGL_FSR_FG_DESTROY => 24
  end.
