(* ===== verification/FrameGenState.v ===== *)
(** * Frame generation: the state of the builtin and its environment

    [dlls/amd_fidelityfx_framegeneration_dx12/main.c].  The process state is a
    [world]: the [contexts] list, the [fg_context] objects by address, the two
    process-wide locks, the [native] function table, the thread's callback
    scopes, and the trace of the calls that leave the module.  Everything the
    module calls but does not contain (the vendor's frame-generation DLL, the
    Unix-side translator, [malloc] and the application's allocator, COM
    [AddRef]/[Release], the swapchain object) answers through [respond], an
    arbitrary function of the calls made so far.

    [w_fault] records an operation the C code must never perform: touching a
    context that is not allocated, calling through the empty [native] table,
    taking a non-recursive lock the thread already holds, or releasing a lock it
    does not hold. *)

From stdpp Require Import base list gmap.
From Stdlib Require Import ZArith SpecFloat.
From S2P Require Import Prelude.
From S2P Require Import FfxApi.

Open Scope Z_scope.

Definition AUTOMATIC_PROVIDER_ID := 0x5941474647000001.
Definition METALFX_PROVIDER_ID := 0x4d46584647000001.
Definition BRIDGE_INELIGIBLE := 4.
Definition MAX_DESCRIPTOR_CHAIN := 64.

Inductive context_mode :=
| CONTEXT_NATIVE | MODE_PENDING | CONTEXT_METALFX | CONTEXT_SWAPCHAIN.

#[export] Instance context_mode_eq_dec : EqDecision context_mode.
Proof. solve_decision. Defined.

(** [struct callback_binding], with the address it was allocated at. *)
Record callback_binding := mkBinding {
  cb_addr : ptr;
  cb_context : ptr;
  cb_present : ptr; cb_present_user : ptr;
  cb_generate : ptr; cb_generate_user : ptr }.

(** [struct frame_config_snapshot], with its address; [next] is the list order. *)
Record frame_config_snapshot := mkSnapshot {
  fs_addr : ptr;
  fs_frame_id : Z;
  fs_hudless : FfxApiResource }.

(** [struct fg_context].  A held [configure_lock] is [true]; the critical
    section [dispatch_lock] is recursive and counts its entries. *)
Record fg_context := mkContext {
  allocation : ffxAllocationCallbacks;
  custom_allocation : bool;
  mode : context_mode;
  original : ptr;
  translated : Z;
  device : ptr;
  configure_lock : bool;
  dispatch_lock : nat;
  references : Z;
  closing : bool;
  swapchain : ptr;
  binding : option callback_binding;
  native_config : ffxConfigureDescFrameGeneration;
  native_config_valid : bool;
  hudless : FfxApiResource;
  frame_configs : list frame_config_snapshot;
  display_width : Z;
  display_height : Z;
  max_render_width : Z;
  max_render_height : Z;
  hudless_format : Z;
  last_prepare_frame_id : Z;
  message : ptr;
  debug_level : Z;
  have_last_prepare_frame_id : bool;
  debug_checking : bool;
  depth_infinite : bool;
  enabled : bool }.

(** [memset(context, 0, sizeof *context)] *)
Definition zero_context : fg_context :=
  mkContext null_allocation false CONTEXT_NATIVE NULL 0 NULL false 0%nat 0 false
    NULL None null_configure false null_resource [] 0 0 0 0 0 0 NULL 0
    false false false false.

#[export] Instance fg_context_inhabited : Inhabited fg_context := populate zero_context.

Definition set_mode (v : context_mode) (x : fg_context) : fg_context :=
  mkContext
    (allocation x) (custom_allocation x) v (original x) (translated x) (device x)
    (configure_lock x) (dispatch_lock x) (references x) (closing x) (swapchain x)
    (binding x) (native_config x) (native_config_valid x) (hudless x) (frame_configs x)
    (display_width x) (display_height x) (max_render_width x) (max_render_height x)
    (hudless_format x) (last_prepare_frame_id x) (message x) (debug_level x)
    (have_last_prepare_frame_id x) (debug_checking x) (depth_infinite x) (enabled x).
Definition set_original (v : ptr) (x : fg_context) : fg_context :=
  mkContext
    (allocation x) (custom_allocation x) (mode x) v (translated x) (device x)
    (configure_lock x) (dispatch_lock x) (references x) (closing x) (swapchain x)
    (binding x) (native_config x) (native_config_valid x) (hudless x) (frame_configs x)
    (display_width x) (display_height x) (max_render_width x) (max_render_height x)
    (hudless_format x) (last_prepare_frame_id x) (message x) (debug_level x)
    (have_last_prepare_frame_id x) (debug_checking x) (depth_infinite x) (enabled x).
Definition set_translated (v : Z) (x : fg_context) : fg_context :=
  mkContext
    (allocation x) (custom_allocation x) (mode x) (original x) v (device x)
    (configure_lock x) (dispatch_lock x) (references x) (closing x) (swapchain x)
    (binding x) (native_config x) (native_config_valid x) (hudless x) (frame_configs x)
    (display_width x) (display_height x) (max_render_width x) (max_render_height x)
    (hudless_format x) (last_prepare_frame_id x) (message x) (debug_level x)
    (have_last_prepare_frame_id x) (debug_checking x) (depth_infinite x) (enabled x).
Definition set_configure_lock (v : bool) (x : fg_context) : fg_context :=
  mkContext
    (allocation x) (custom_allocation x) (mode x) (original x) (translated x) (device x) v
    (dispatch_lock x) (references x) (closing x) (swapchain x) (binding x)
    (native_config x) (native_config_valid x) (hudless x) (frame_configs x)
    (display_width x) (display_height x) (max_render_width x) (max_render_height x)
    (hudless_format x) (last_prepare_frame_id x) (message x) (debug_level x)
    (have_last_prepare_frame_id x) (debug_checking x) (depth_infinite x) (enabled x).
Definition set_dispatch_lock (v : nat) (x : fg_context) : fg_context :=
  mkContext
    (allocation x) (custom_allocation x) (mode x) (original x) (translated x) (device x)
    (configure_lock x) v (references x) (closing x) (swapchain x) (binding x)
    (native_config x) (native_config_valid x) (hudless x) (frame_configs x)
    (display_width x) (display_height x) (max_render_width x) (max_render_height x)
    (hudless_format x) (last_prepare_frame_id x) (message x) (debug_level x)
    (have_last_prepare_frame_id x) (debug_checking x) (depth_infinite x) (enabled x).
Definition set_references (v : Z) (x : fg_context) : fg_context :=
  mkContext
    (allocation x) (custom_allocation x) (mode x) (original x) (translated x) (device x)
    (configure_lock x) (dispatch_lock x) v (closing x) (swapchain x) (binding x)
    (native_config x) (native_config_valid x) (hudless x) (frame_configs x)
    (display_width x) (display_height x) (max_render_width x) (max_render_height x)
    (hudless_format x) (last_prepare_frame_id x) (message x) (debug_level x)
    (have_last_prepare_frame_id x) (debug_checking x) (depth_infinite x) (enabled x).
Definition set_closing (v : bool) (x : fg_context) : fg_context :=
  mkContext
    (allocation x) (custom_allocation x) (mode x) (original x) (translated x) (device x)
    (configure_lock x) (dispatch_lock x) (references x) v (swapchain x) (binding x)
    (native_config x) (native_config_valid x) (hudless x) (frame_configs x)
    (display_width x) (display_height x) (max_render_width x) (max_render_height x)
    (hudless_format x) (last_prepare_frame_id x) (message x) (debug_level x)
    (have_last_prepare_frame_id x) (debug_checking x) (depth_infinite x) (enabled x).
Definition set_swapchain (v : ptr) (x : fg_context) : fg_context :=
  mkContext
    (allocation x) (custom_allocation x) (mode x) (original x) (translated x) (device x)
    (configure_lock x) (dispatch_lock x) (references x) (closing x) v (binding x)
    (native_config x) (native_config_valid x) (hudless x) (frame_configs x)
    (display_width x) (display_height x) (max_render_width x) (max_render_height x)
    (hudless_format x) (last_prepare_frame_id x) (message x) (debug_level x)
    (have_last_prepare_frame_id x) (debug_checking x) (depth_infinite x) (enabled x).
Definition set_binding (v : option callback_binding) (x : fg_context) : fg_context :=
  mkContext
    (allocation x) (custom_allocation x) (mode x) (original x) (translated x) (device x)
    (configure_lock x) (dispatch_lock x) (references x) (closing x) (swapchain x) v
    (native_config x) (native_config_valid x) (hudless x) (frame_configs x)
    (display_width x) (display_height x) (max_render_width x) (max_render_height x)
    (hudless_format x) (last_prepare_frame_id x) (message x) (debug_level x)
    (have_last_prepare_frame_id x) (debug_checking x) (depth_infinite x) (enabled x).
Definition set_native_config (v : ffxConfigureDescFrameGeneration) (x : fg_context) : fg_context :=
  mkContext
    (allocation x) (custom_allocation x) (mode x) (original x) (translated x) (device x)
    (configure_lock x) (dispatch_lock x) (references x) (closing x) (swapchain x)
    (binding x) v (native_config_valid x) (hudless x) (frame_configs x) (display_width x)
    (display_height x) (max_render_width x) (max_render_height x) (hudless_format x)
    (last_prepare_frame_id x) (message x) (debug_level x) (have_last_prepare_frame_id x)
    (debug_checking x) (depth_infinite x) (enabled x).
Definition set_native_config_valid (v : bool) (x : fg_context) : fg_context :=
  mkContext
    (allocation x) (custom_allocation x) (mode x) (original x) (translated x) (device x)
    (configure_lock x) (dispatch_lock x) (references x) (closing x) (swapchain x)
    (binding x) (native_config x) v (hudless x) (frame_configs x) (display_width x)
    (display_height x) (max_render_width x) (max_render_height x) (hudless_format x)
    (last_prepare_frame_id x) (message x) (debug_level x) (have_last_prepare_frame_id x)
    (debug_checking x) (depth_infinite x) (enabled x).
Definition set_hudless (v : FfxApiResource) (x : fg_context) : fg_context :=
  mkContext
    (allocation x) (custom_allocation x) (mode x) (original x) (translated x) (device x)
    (configure_lock x) (dispatch_lock x) (references x) (closing x) (swapchain x)
    (binding x) (native_config x) (native_config_valid x) v (frame_configs x)
    (display_width x) (display_height x) (max_render_width x) (max_render_height x)
    (hudless_format x) (last_prepare_frame_id x) (message x) (debug_level x)
    (have_last_prepare_frame_id x) (debug_checking x) (depth_infinite x) (enabled x).
Definition set_frame_configs (v : list frame_config_snapshot) (x : fg_context) : fg_context :=
  mkContext
    (allocation x) (custom_allocation x) (mode x) (original x) (translated x) (device x)
    (configure_lock x) (dispatch_lock x) (references x) (closing x) (swapchain x)
    (binding x) (native_config x) (native_config_valid x) (hudless x) v (display_width x)
    (display_height x) (max_render_width x) (max_render_height x) (hudless_format x)
    (last_prepare_frame_id x) (message x) (debug_level x) (have_last_prepare_frame_id x)
    (debug_checking x) (depth_infinite x) (enabled x).
Definition set_last_prepare_frame_id (v : Z) (x : fg_context) : fg_context :=
  mkContext
    (allocation x) (custom_allocation x) (mode x) (original x) (translated x) (device x)
    (configure_lock x) (dispatch_lock x) (references x) (closing x) (swapchain x)
    (binding x) (native_config x) (native_config_valid x) (hudless x) (frame_configs x)
    (display_width x) (display_height x) (max_render_width x) (max_render_height x)
    (hudless_format x) v (message x) (debug_level x) (have_last_prepare_frame_id x)
    (debug_checking x) (depth_infinite x) (enabled x).
Definition set_message (v : ptr) (x : fg_context) : fg_context :=
  mkContext
    (allocation x) (custom_allocation x) (mode x) (original x) (translated x) (device x)
    (configure_lock x) (dispatch_lock x) (references x) (closing x) (swapchain x)
    (binding x) (native_config x) (native_config_valid x) (hudless x) (frame_configs x)
    (display_width x) (display_height x) (max_render_width x) (max_render_height x)
    (hudless_format x) (last_prepare_frame_id x) v (debug_level x)
    (have_last_prepare_frame_id x) (debug_checking x) (depth_infinite x) (enabled x).
Definition set_debug_level (v : Z) (x : fg_context) : fg_context :=
  mkContext
    (allocation x) (custom_allocation x) (mode x) (original x) (translated x) (device x)
    (configure_lock x) (dispatch_lock x) (references x) (closing x) (swapchain x)
    (binding x) (native_config x) (native_config_valid x) (hudless x) (frame_configs x)
    (display_width x) (display_height x) (max_render_width x) (max_render_height x)
    (hudless_format x) (last_prepare_frame_id x) (message x) v
    (have_last_prepare_frame_id x) (debug_checking x) (depth_infinite x) (enabled x).
Definition set_have_last_prepare_frame_id (v : bool) (x : fg_context) : fg_context :=
  mkContext
    (allocation x) (custom_allocation x) (mode x) (original x) (translated x) (device x)
    (configure_lock x) (dispatch_lock x) (references x) (closing x) (swapchain x)
    (binding x) (native_config x) (native_config_valid x) (hudless x) (frame_configs x)
    (display_width x) (display_height x) (max_render_width x) (max_render_height x)
    (hudless_format x) (last_prepare_frame_id x) (message x) (debug_level x) v
    (debug_checking x) (depth_infinite x) (enabled x).
Definition set_enabled (v : bool) (x : fg_context) : fg_context :=
  mkContext
    (allocation x) (custom_allocation x) (mode x) (original x) (translated x) (device x)
    (configure_lock x) (dispatch_lock x) (references x) (closing x) (swapchain x)
    (binding x) (native_config x) (native_config_valid x) (hudless x) (frame_configs x)
    (display_width x) (display_height x) (max_render_width x) (max_render_height x)
    (hudless_format x) (last_prepare_frame_id x) (message x) (debug_level x)
    (have_last_prepare_frame_id x) (debug_checking x) (depth_infinite x) v.

(** ** What leaves the module *)

(** The objects the module allocates. *)
Inductive alloc_kind := SzContext | SzSnapshot | SzBinding | SzPath.

(** The configuration handed to the native swapchain. *)
Record FfxFrameGenerationConfig := mkSwapConfig {
  sc_type : Z;
  sc_swapChain : ptr;
  sc_presentCallback : ptr; sc_presentCallbackContext : ptr;
  sc_frameGenerationCallback : ptr; sc_frameGenerationCallbackContext : ptr;
  sc_frameGenerationEnabled : bool; sc_allowAsyncWorkloads : bool;
  sc_allowAsyncPresent : bool;
  sc_HUDLessColor : FfxApiResource; sc_flags : Z;
  sc_onlyPresentInterpolated : bool; sc_interpolationRect : FfxApiRect2D;
  sc_frameID : Z; sc_drawDebugPacingLines : bool }.

(** A configure descriptor of a type the module does not interpret. *)
Inductive configure_desc :=
| C_FrameGeneration (d : ffxConfigureDescFrameGeneration)
| C_GlobalDebug (fpMessage : ptr) (debugLevel : Z) (pNext : list entry)
| C_Other (type : Z) (pNext : list entry).

Inductive query_desc :=
| Q_GetVersions (createDescType : Z) (outputCount : option Z)
    (versionIds : option (list Z)) (versionNames : option (list Z)) (pNext : list entry)
| Q_GetProviderVersion (pNext : list entry)
| Q_Other (type : Z) (pNext : list entry).

Inductive event :=
| Ev_getenv                                            (* YAAGL_FSR_FG_NATIVE_DLL *)
| Ev_LoadLibrary (path : list Z)
| Ev_FreeLibrary (module : Z)
| Ev_GetProcAddress (module : Z) (index : nat)
| Ev_bridge (p : packet)
| Ev_native_create (desc : list entry) (callbacks : option ffxAllocationCallbacks)
| Ev_native_destroy (original : ptr) (callbacks : option ffxAllocationCallbacks)
| Ev_native_configure (original : ptr) (desc : configure_desc)
| Ev_native_query (original : ptr) (desc : query_desc)
| Ev_native_dispatch (original : ptr) (desc : dispatch_desc)
| Ev_callback_alloc (user fn : ptr) (k : alloc_kind)
| Ev_callback_free (user fn : ptr) (p : ptr)
| Ev_malloc (k : alloc_kind)
| Ev_free (p : ptr)
| Ev_AddRef (p : ptr)
| Ev_Release (p : ptr)
| Ev_QueryInterface (object : ptr)
| Ev_swapchain_Release (s : ptr)
| Ev_set_config (s : ptr) (c : FfxFrameGenerationConfig)
| Ev_wait_for_presents (s : ptr)
| Ev_message (callback : ptr) (type : Z)
| Ev_sleep (context : ptr).

(** What such a call gives back: a status or result code, a value (a pointer, a
    count, a context), and data written to the caller's buffers. *)
Record response := mkResponse { rs_code : Z; rs_value : Z; rs_data : list Z }.

Record world := mkWorld {
  w_contexts : list ptr;
  w_heap : gmap Z fg_context;
  w_contexts_lock : bool;
  w_debug_lock : bool;
  w_global_message : ptr;
  w_global_debug_level : Z;
  w_native : bool;
  w_callback_tls : option (list ptr);
  w_fault : bool;
  w_trace : list (event * response) }.

Definition set_w_contexts (v : list ptr) (w : world) : world :=
  mkWorld
    v (w_heap w) (w_contexts_lock w) (w_debug_lock w) (w_global_message w)
    (w_global_debug_level w) (w_native w) (w_callback_tls w) (w_fault w) (w_trace w).
Definition set_w_heap (v : gmap Z fg_context) (w : world) : world :=
  mkWorld
    (w_contexts w) v (w_contexts_lock w) (w_debug_lock w) (w_global_message w)
    (w_global_debug_level w) (w_native w) (w_callback_tls w) (w_fault w) (w_trace w).
Definition set_w_contexts_lock (v : bool) (w : world) : world :=
  mkWorld
    (w_contexts w) (w_heap w) v (w_debug_lock w) (w_global_message w)
    (w_global_debug_level w) (w_native w) (w_callback_tls w) (w_fault w) (w_trace w).
Definition set_w_debug_lock (v : bool) (w : world) : world :=
  mkWorld
    (w_contexts w) (w_heap w) (w_contexts_lock w) v (w_global_message w)
    (w_global_debug_level w) (w_native w) (w_callback_tls w) (w_fault w) (w_trace w).
Definition set_w_global_message (v : ptr) (w : world) : world :=
  mkWorld
    (w_contexts w) (w_heap w) (w_contexts_lock w) (w_debug_lock w) v
    (w_global_debug_level w) (w_native w) (w_callback_tls w) (w_fault w) (w_trace w).
Definition set_w_global_debug_level (v : Z) (w : world) : world :=
  mkWorld
    (w_contexts w) (w_heap w) (w_contexts_lock w) (w_debug_lock w) (w_global_message w) v
    (w_native w) (w_callback_tls w) (w_fault w) (w_trace w).
Definition set_w_native (v : bool) (w : world) : world :=
  mkWorld
    (w_contexts w) (w_heap w) (w_contexts_lock w) (w_debug_lock w) (w_global_message w)
    (w_global_debug_level w) v (w_callback_tls w) (w_fault w) (w_trace w).
Definition set_w_callback_tls (v : option (list ptr)) (w : world) : world :=
  mkWorld
    (w_contexts w) (w_heap w) (w_contexts_lock w) (w_debug_lock w) (w_global_message w)
    (w_global_debug_level w) (w_native w) v (w_fault w) (w_trace w).
Definition set_w_fault (v : bool) (w : world) : world :=
  mkWorld
    (w_contexts w) (w_heap w) (w_contexts_lock w) (w_debug_lock w) (w_global_message w)
    (w_global_debug_level w) (w_native w) (w_callback_tls w) v (w_trace w).
Definition set_w_trace (v : list (event * response)) (w : world) : world :=
  mkWorld
    (w_contexts w) (w_heap w) (w_contexts_lock w) (w_debug_lock w) (w_global_message w)
    (w_global_debug_level w) (w_native w) (w_callback_tls w) (w_fault w) v.

Abbreviation W := (M world).

(** ** Primitive steps *)

Section Primitives.
Variable respond : list (event * response) -> event -> response.

(** A call that leaves the module: it is answered and recorded. *)
Definition ext (e : event) : W response :=
  fun w => let r := respond (w_trace w) e in (r, set_w_trace ((e, r) :: w_trace w) w).

Definition fault : W unit := mmodify (set_w_fault true).

(** [*context] *)
Definition getc (c : ptr) : W fg_context :=
  fun w => match w_heap w !! c with
           | Some x => (x, w)
           | None => (zero_context, set_w_fault true w)
           end.

(** [context->field = ...] *)
Definition modc (c : ptr) (f : fg_context -> fg_context) : W unit :=
  fun w => match w_heap w !! c with
           | Some x => (tt, set_w_heap (<[c := f x]> (w_heap w)) w)
           | None => (tt, set_w_fault true w)
           end.

(** [AcquireSRWLockExclusive] and [ReleaseSRWLockExclusive] on the process-wide
    locks. *)
Definition acquire_contexts : W unit :=
  fun w => (tt, if w_contexts_lock w then set_w_fault true w else set_w_contexts_lock true w).
Definition release_contexts : W unit :=
  fun w => (tt, if w_contexts_lock w then set_w_contexts_lock false w else set_w_fault true w).
Definition acquire_debug : W unit :=
  fun w => (tt, if w_debug_lock w then set_w_fault true w else set_w_debug_lock true w).
Definition release_debug : W unit :=
  fun w => (tt, if w_debug_lock w then set_w_debug_lock false w else set_w_fault true w).

(** The same for [context->configure_lock]. *)
Definition acquire_configure (c : ptr) : W unit :=
  let! x := getc c in
  if configure_lock x then fault else modc c (set_configure_lock true).
Definition release_configure (c : ptr) : W unit :=
  let! x := getc c in
  if configure_lock x then modc c (set_configure_lock false) else fault.

(** [EnterCriticalSection], [LeaveCriticalSection] on [dispatch_lock]. *)
Definition enter_dispatch (c : ptr) : W unit :=
  modc c (fun x => set_dispatch_lock (S (dispatch_lock x)) x).
Definition leave_dispatch (c : ptr) : W unit :=
  let! x := getc c in
  match dispatch_lock x with
  | O => fault
  | S n => modc c (set_dispatch_lock n)
  end.

(** A call through the [native] table. *)
Definition call_native (e : event) : W response :=
  let! ok := mgets w_native in
  if ok then ext e else fault ;;; mreturn (mkResponse 0 0 []).

(** [initialize_native]: the vendor DLL named by the environment, with its five
    entry points. *)
Variable builtin_instance : Z.

Definition initialize_native : W bool :=
  let! buffer := ext (Ev_malloc SzPath) in
  if rs_value buffer =? NULL then mreturn false
  else
  let! env := ext Ev_getenv in
  let length := rs_value env in
  let path := rs_data env in
  if (length <? 3) || (32768 <=? length)
     || negb (default 0 (path !! 1%nat) =? 58)
     || (negb (default 0 (path !! 2%nat) =? 92) && negb (default 0 (path !! 2%nat) =? 47))
  then ext (Ev_free (rs_value buffer)) ;;; mreturn false
  else
  let! r := ext (Ev_LoadLibrary path) in
  ext (Ev_free (rs_value buffer)) ;;;
  let module := rs_value r in
  if (module =? 0) || (module =? builtin_instance)
  then mwhen (negb (module =? 0)) (ext (Ev_FreeLibrary module) ;;; mreturn tt) ;;;
       mreturn false
  else
  let! create := ext (Ev_GetProcAddress module 0) in
  let! destroy := ext (Ev_GetProcAddress module 1) in
  let! configure := ext (Ev_GetProcAddress module 2) in
  let! query := ext (Ev_GetProcAddress module 3) in
  let! dispatch := ext (Ev_GetProcAddress module 4) in
  if (rs_value create =? NULL) || (rs_value destroy =? NULL)
     || (rs_value configure =? NULL) || (rs_value query =? NULL)
     || (rs_value dispatch =? NULL)
  then ext (Ev_FreeLibrary module) ;;; mreturn false
  else mmodify (set_w_native true) ;;; mreturn true.

(** [InitOnceExecuteOnce]: a completed initialisation is not run again, a
    failed one is. *)
Definition have_native : W bool :=
  let! done := mgets w_native in
  if done then mreturn true else initialize_native.

(** [valid_chain]: the walk gives up at entry 65. *)
Fixpoint valid_chain_from (count : Z) (header : list entry) : bool :=
  match header with
  | [] => true
  | _ :: pNext =>
      let count := count + 1 in
      if MAX_DESCRIPTOR_CHAIN <? count then false else valid_chain_from count pNext
  end.
Definition valid_chain (header : list entry) : bool := valid_chain_from 0 header.

(** ** The bridge *)

Definition initialize_packet (operation : yaagl_fsr_fg_operation) (context : Z) :
    packet_header :=
  mkHeader (packet_size operation) YAAGL_FSR_FG_BRIDGE_VERSION operation
    FFX_API_RETURN_ERROR_RUNTIME_ERROR context.

(** [WINE_UNIX_CALL]: the answer's [rs_code] is the NTSTATUS, its [rs_data] the
    [result] and [context] members the translator leaves in the header. *)
Definition bridge_result (r : response) : Z := default 0 (rs_data r !! 0%nat).
Definition bridge_context (r : response) : Z := default 0 (rs_data r !! 1%nat).

Definition bridge_call (p : packet) : W (Z * Z) :=
  let! r := ext (Ev_bridge p) in
  mreturn (if negb (rs_code r =? 0) then FFX_API_RETURN_ERROR_RUNTIME_ERROR
           else bridge_result r, bridge_context r).

Definition configure_translation (context : Z) (enable : bool) : W Z :=
  let! r := bridge_call (P_Configure (initialize_packet YAAGL_FSR_FG_CONFIGURE context)
                                     (b2z enable)) in
  mreturn r.1.

Definition destroy_translation (context : Z) : W Z :=
  let! r := bridge_call (P_Destroy (initialize_packet YAAGL_FSR_FG_DESTROY context)) in
  mreturn r.1.

(** ** Memory and resources *)

Definition allocate_memory (callbacks : option ffxAllocationCallbacks) (k : alloc_kind) : W ptr :=
  match callbacks with
  | Some a => if negb (alloc a =? NULL)
              then let! r := ext (Ev_callback_alloc (pUserData a) (alloc a) k) in
                   mreturn (rs_value r)
              else let! r := ext (Ev_malloc k) in mreturn (rs_value r)
  | None => let! r := ext (Ev_malloc k) in mreturn (rs_value r)
  end.

Definition free_memory (callbacks : option ffxAllocationCallbacks) (memory : ptr) : W unit :=
  if memory =? NULL then mreturn tt
  else match callbacks with
       | Some a => if negb (dealloc a =? NULL)
                   then ext (Ev_callback_free (pUserData a) (dealloc a) memory) ;;; mreturn tt
                   else ext (Ev_free memory) ;;; mreturn tt
       | None => ext (Ev_free memory) ;;; mreturn tt
       end.

Definition context_allocator (x : fg_context) : option ffxAllocationCallbacks :=
  if custom_allocation x then Some (allocation x) else None.

Definition matching_allocator (x : fg_context) (callbacks : option ffxAllocationCallbacks) : bool :=
  match callbacks with
  | None => (alloc (allocation x) =? NULL) && (dealloc (allocation x) =? NULL)
  | Some a => (alloc (allocation x) =? alloc a) && (dealloc (allocation x) =? dealloc a)
              && (pUserData (allocation x) =? pUserData a)
  end.

(** [release_resource(&r)]: the reference is dropped; the caller stores the
    cleared resource. *)
Definition release_resource (r : FfxApiResource) : W FfxApiResource :=
  mwhen (negb (resource r =? NULL)) (ext (Ev_Release (resource r)) ;;; mreturn tt) ;;;
  mreturn null_resource.

Definition retain_resource (input : FfxApiResource) : W FfxApiResource :=
  mwhen (negb (resource input =? NULL)) (ext (Ev_AddRef (resource input)) ;;; mreturn tt) ;;;
  mreturn input.

(** ** Frame configurations *)

Definition release_frame_config (c : ptr) (s : frame_config_snapshot) : W unit :=
  release_resource (fs_hudless s) ;;;
  let! x := getc c in
  free_memory (context_allocator x) (fs_addr s).

(** The loop of [snapshot_frame_config]: the entry with the same frame ID is
    replaced in place, or the entries are counted. *)
Fixpoint replace_frame_config (s : frame_config_snapshot) (l : list frame_config_snapshot) :
    option (frame_config_snapshot * list frame_config_snapshot) :=
  match l with
  | [] => None
  | old :: l' =>
      if fs_frame_id old =? fs_frame_id s then Some (old, s :: l')
      else match replace_frame_config s l' with
           | Some (o, l'') => Some (o, old :: l'')
           | None => None
           end
  end.

Definition snapshot_frame_config (c : ptr) (desc : ffxConfigureDescFrameGeneration) : W Z :=
  if negb (frameGenerationEnabled desc) then mreturn FFX_API_RETURN_OK
  else
  let! x := getc c in
  let! p := allocate_memory (context_allocator x) SzSnapshot in
  if p =? NULL then mreturn FFX_API_RETURN_ERROR_MEMORY
  else
  let! h := retain_resource (HUDLessColor desc) in
  let snapshot := mkSnapshot p (frameID desc) h in
  enter_dispatch c ;;;
  let! x := getc c in
  match replace_frame_config snapshot (frame_configs x) with
  | Some (old, l) =>
      modc c (set_frame_configs l) ;;;
      leave_dispatch c ;;;
      release_frame_config c old ;;;
      mreturn FFX_API_RETURN_OK
  | None =>
      if 64 <=? Z.of_nat (length (frame_configs x))
      then leave_dispatch c ;;;
           release_frame_config c snapshot ;;;
           mreturn FFX_API_RETURN_ERROR_RUNTIME_ERROR
      else modc c (set_frame_configs (snapshot :: frame_configs x)) ;;;
           leave_dispatch c ;;;
           mreturn FFX_API_RETURN_OK
  end.

(** [find_frame_config]: the loop with its running [best]. *)
Fixpoint find_frame_config_from (best : option frame_config_snapshot)
    (l : list frame_config_snapshot) (frame_id : Z) : option frame_config_snapshot :=
  match l with
  | [] => best
  | s :: l' =>
      if fs_frame_id s =? frame_id then Some s
      else if (fs_frame_id s <? frame_id)
              && match best with None => true | Some b => fs_frame_id b <? fs_frame_id s end
           then find_frame_config_from (Some s) l' frame_id
           else find_frame_config_from best l' frame_id
  end.
Definition find_frame_config (l : list frame_config_snapshot) (frame_id : Z) :
    option frame_config_snapshot :=
  find_frame_config_from None l frame_id.

(** The two loops of [retire_frame_configs]. *)
Fixpoint retire_floor (floor : option frame_config_snapshot)
    (l : list frame_config_snapshot) (frame_id : Z) : option frame_config_snapshot :=
  match l with
  | [] => floor
  | s :: l' =>
      if (fs_frame_id s <=? frame_id)
         && match floor with None => true | Some b => fs_frame_id b <? fs_frame_id s end
      then retire_floor (Some s) l' frame_id
      else retire_floor floor l' frame_id
  end.

(** Kept entries in order, discarded ones pushed on [discard]. *)
Fixpoint retire_split (floor_id : Z) (discard : list frame_config_snapshot)
    (l : list frame_config_snapshot) :
    list frame_config_snapshot * list frame_config_snapshot :=
  match l with
  | [] => ([], discard)
  | s :: l' =>
      if floor_id <=? fs_frame_id s
      then let r := retire_split floor_id discard l' in (s :: r.1, r.2)
      else retire_split floor_id (s :: discard) l'
  end.

Definition retire_lists (l : list frame_config_snapshot) (frame_id : Z) :
    list frame_config_snapshot * list frame_config_snapshot :=
  match retire_floor None l frame_id with
  | Some floor => retire_split (fs_frame_id floor) [] l
  | None => (l, [])
  end.

Definition retire_frame_configs (c : ptr) (frame_id : Z) : W unit :=
  enter_dispatch c ;;;
  let! x := getc c in
  let r := retire_lists (frame_configs x) frame_id in
  modc c (set_frame_configs r.1) ;;;
  leave_dispatch c ;;;
  mfor (release_frame_config c) r.2.

Definition clear_frame_configs (c : ptr) : W unit :=
  enter_dispatch c ;;;
  let! x := getc c in
  let snapshots := frame_configs x in
  modc c (set_frame_configs []) ;;;
  modc c (set_have_last_prepare_frame_id false) ;;;
  leave_dispatch c ;;;
  mfor (release_frame_config c) snapshots.

(** [config = *desc] with its chain cut and its resource replaced. *)
Definition stored_config (desc : ffxConfigureDescFrameGeneration) (h : FfxApiResource) :
    ffxConfigureDescFrameGeneration :=
  mkConfigureFG [] (swapChain desc) (presentCallback desc) (presentCallbackUserContext desc)
    (frameGenerationCallback desc) (frameGenerationCallbackUserContext desc)
    (frameGenerationEnabled desc) (allowAsyncWorkloads desc) h (cf_flags desc)
    (onlyPresentGenerated desc) (generationRect desc) (frameID desc).

Definition store_native_config (c : ptr) (desc : ffxConfigureDescFrameGeneration) : W unit :=
  let! h := retain_resource (HUDLessColor desc) in
  let! x := getc c in
  release_resource (hudless x) ;;;
  modc c (set_hudless h) ;;;
  modc c (set_native_config (stored_config desc h)) ;;;
  modc c (set_native_config_valid true).

(** ** The context list *)

(** [acquire_context(&handle)]; [None] is a null [ffxContext *]. *)
Definition acquire_context (handle : option ptr) : W ptr :=
  match handle with
  | None => mreturn NULL
  | Some c =>
      if c =? NULL then mreturn NULL
      else
      acquire_contexts ;;;
      let! listed := mgets (fun w => bool_decide (c ∈ w_contexts w)) in
      let! found :=
        (if listed
         then let! x := getc c in
              if negb (closing x)
              then modc c (set_references (references x + 1)) ;;; mreturn c
              else mreturn NULL
         else mreturn NULL) in
      release_contexts ;;;
      mreturn found
  end.

(** [WakeAllConditionVariable] only wakes waiters. *)
Definition release_context (c : ptr) : W unit :=
  acquire_contexts ;;;
  modc c (fun x => set_references (references x - 1) x) ;;;
  release_contexts.

Definition report_validation (c : ptr) : W unit :=
  if c =? NULL then mreturn tt
  else
  let! x := getc c in
  if negb (debug_checking x) then mreturn tt
  else
  acquire_debug ;;;
  let! w := mget in
  let callback := if negb (message x =? NULL) then message x else w_global_message w in
  let level := if negb (message x =? NULL) then debug_level x else w_global_debug_level w in
  release_debug ;;;
  mwhen (negb (callback =? NULL)
         && has_flag level FFX_API_CONFIGURE_GLOBALDEBUG_LEVEL_ERRORS)
        (ext (Ev_message callback FFX_API_MESSAGE_TYPE_ERROR) ;;; mreturn tt).

Definition in_callback : W bool :=
  mgets (fun w => match w_callback_tls w with
                  | Some (_ :: _) => true
                  | _ => false
                  end).

(** The scope is pushed on the thread's slot and holds a reference. *)
Definition enter_callback (c : ptr) : W unit :=
  mmodify (fun w => set_w_callback_tls (cons c <$> w_callback_tls w) w) ;;;
  acquire_contexts ;;;
  modc c (fun x => set_references (references x + 1) x) ;;;
  release_contexts.

Definition leave_callback (c : ptr) : W unit :=
  mmodify (fun w => set_w_callback_tls (tail <$> w_callback_tls w) w) ;;;
  release_context c.

Definition release_swapchain (s : ptr) : W unit :=
  mwhen (negb (s =? NULL)) (ext (Ev_swapchain_Release s) ;;; mreturn tt).

(** [QueryInterface] for the stable interface; a failure gives [NULL]. *)
Definition get_stable_swapchain (object : ptr) : W ptr :=
  if object =? NULL then mreturn NULL
  else
  let! r := ext (Ev_QueryInterface object) in
  mreturn (if 0 <=? rs_code r then rs_value r else NULL).

(** Is another interpolation context attached to the swapchain? *)
Definition swapchain_taken (w : world) (c s : ptr) : bool :=
  existsb (fun other =>
             negb (other =? c)
             && match w_heap w !! other with
                | Some x => negb (bool_decide (mode x = CONTEXT_SWAPCHAIN))
                            && (swapchain x =? s)
                | None => false
                end) (w_contexts w).

Definition claim_swapchain (c s : ptr) : W bool :=
  acquire_contexts ;;;
  let! available := mgets (fun w => negb (swapchain_taken w c s)) in
  mwhen available (modc c (set_swapchain s)) ;;;
  release_contexts ;;;
  mreturn available.

Definition clear_swapchain_claim (c : ptr) : W unit :=
  acquire_contexts ;;;
  modc c (set_swapchain NULL) ;;;
  release_contexts.

(** [binding_matches] *)
Definition binding_matches (b : option callback_binding)
    (desc : ffxConfigureDescFrameGeneration) : bool :=
  match b with
  | None => false
  | Some b => (cb_present b =? presentCallback desc)
              && (cb_present_user b =? presentCallbackUserContext desc)
              && (cb_generate b =? frameGenerationCallback desc)
              && (cb_generate_user b =? frameGenerationCallbackUserContext desc)
  end.
End Primitives.
