(* ===== verification/FrameGen.v ===== *)
(** * Frame generation: the translated path and the API entry points

    [dlls/amd_fidelityfx_framegeneration_dx12/main.c].  Every function of the
    module that changes state, in the order of the source.  A context starts on
    the native provider or pending; the first accepted Prepare moves a pending
    context to MetalFX, anything the translation does not cover moves it to the
    native provider. *)

From stdpp Require Import base list gmap.
From Stdlib Require Import ZArith SpecFloat.
From S2P Require Import Prelude.
From S2P Require Import FfxApi.
From S2P Require Import FrameGenState.

Open Scope Z_scope.

(** ** Shared checks *)

(** The luminance and transfer-function conditions of a Generate descriptor. *)
Definition bad_luminance (d : ffxDispatchDescFrameGeneration) : bool :=
  (FFX_API_BACKBUFFER_TRANSFER_FUNCTION_SCRGB <? backbufferTransferFunction d)
  || negb (isfinite (minLuminance d))
  || negb (isfinite (maxLuminance d))
  || SFgtb (minLuminance d) (maxLuminance d)
  || ((backbufferTransferFunction d =? FFX_API_BACKBUFFER_TRANSFER_FUNCTION_PQ)
      && SFleb (maxLuminance d) f32_zero)
  || ((backbufferTransferFunction d =? FFX_API_BACKBUFFER_TRANSFER_FUNCTION_SCRGB)
      && SFleb (maxLuminance d) (minLuminance d)).

(** The generation rectangle: width and height both zero select the display, any
    other rectangle lies inside it.  The sums are taken in [int64_t]. *)
Definition bad_rect (x : fg_context) (r : FfxApiRect2D) : bool :=
  if negb (width r =? 0) || negb (height r =? 0)
  then let right := i64 (left r + width r) in
       let bottom := i64 (top r + height r) in
       (left r <? 0) || (top r <? 0) || (width r <=? 0) || (height r <=? 0)
       || (display_width x <? right) || (display_height x <? bottom)
  else false.

Section FrameGeneration.
Variable respond : list (event * response) -> event -> response.
Variable builtin_instance : Z.

(** The application's callbacks: any program over the state. *)
Variable app_present : ptr -> ptr -> Z -> W Z.
Variable app_generate : ptr -> ptr -> ffxDispatchDescFrameGeneration ->
                        W (Z * ffxDispatchDescFrameGeneration).

(** The addresses of the module's own callbacks. *)
Variable present_callback_addr generation_callback_addr : ptr.

Local Abbreviation ext := (ext respond).
Local Abbreviation call_native := (call_native respond).
Local Abbreviation have_native := (have_native respond builtin_instance).
Local Abbreviation bridge_call := (bridge_call respond).
Local Abbreviation configure_translation := (configure_translation respond).
Local Abbreviation destroy_translation := (destroy_translation respond).
Local Abbreviation allocate_memory := (allocate_memory respond).
Local Abbreviation free_memory := (free_memory respond).
Local Abbreviation release_resource := (release_resource respond).
Local Abbreviation snapshot_frame_config := (snapshot_frame_config respond).
Local Abbreviation retire_frame_configs := (retire_frame_configs respond).
Local Abbreviation clear_frame_configs := (clear_frame_configs respond).
Local Abbreviation store_native_config := (store_native_config respond).
Local Abbreviation report_validation := (report_validation respond).
Local Abbreviation release_swapchain := (release_swapchain respond).
Local Abbreviation get_stable_swapchain := (get_stable_swapchain respond).

(** ** Dispatch on the translated path *)

(** The packet of [translated_dispatch]. *)
Definition dispatch_packet_of (x : fg_context) (d : ffxDispatchDescFrameGeneration) :
    dispatch_packet :=
  let config := find_frame_config (frame_configs x) (df_frameID d) in
  mkDispatchPacket (df_commandList d) (df_frameID d)
    (resource (presentColor d)) (resource (output_at d 0))
    (match config with Some s => resource (fs_hudless s) | None => 0 end)
    (rstate (presentColor d)) (rstate (output_at d 0))
    (match config with Some s => rstate (fs_hudless s) | None => 0 end)
    (numGeneratedFrames d)
    (df_reset d || (have_last_prepare_frame_id x
                    && negb (df_frameID d =? last_prepare_frame_id x)))
    (backbufferTransferFunction d) (df_generationRect d)
    (minLuminance d) (maxLuminance d).

Definition translated_dispatch (c : ptr) (d : ffxDispatchDescFrameGeneration)
    (pNext : list entry) : W Z :=
  let! x := getc c in
  if negb (bool_decide (pNext = [])) then mreturn FFX_API_RETURN_ERROR_UNKNOWN_DESCTYPE
  else if (df_commandList d =? NULL) || (resource (presentColor d) =? NULL)
       || negb (numGeneratedFrames d =? 1) || (resource (output_at d 0) =? NULL)
       || (resource (output_at d 0) =? resource (presentColor d))
       || bad_luminance d
  then mreturn FFX_API_RETURN_ERROR_PARAMETER
  else if bad_rect x (df_generationRect d)
  then mreturn FFX_API_RETURN_ERROR_PARAMETER
  else if match find_frame_config (frame_configs x) (df_frameID d) with
          | Some s => resource (output_at d 0) =? resource (fs_hudless s)
          | None => false
          end
  then mreturn FFX_API_RETURN_ERROR_PARAMETER
  else
  let! r := bridge_call (P_Dispatch (initialize_packet YAAGL_FSR_FG_DISPATCH (translated x))
                                    (dispatch_packet_of x d)) in
  mreturn r.1.

Definition no_camera : camera_info :=
  mkCamera [f32_zero; f32_zero; f32_zero] [f32_zero; f32_zero; f32_zero]
           [f32_zero; f32_zero; f32_zero] [f32_zero; f32_zero; f32_zero].

(** [COPY_PREPARE_FIELDS] and [COPY_CAMERA_FIELDS] into a cleared packet. *)
Definition prepare_packet_of (d : prepare_fields) (reset : bool) (cam : camera_info)
    (have_camera : bool) : prepare_packet :=
  mkPreparePacket (pf_commandList d) (pf_frameID d) (resource (depth d))
    (resource (motionVectors d)) (rstate (depth d)) (rstate (motionVectors d))
    (renderSize_width d) (renderSize_height d) (pf_flags d) reset
    (jitterOffset_x d) (jitterOffset_y d) (motionVectorScale_x d) (motionVectorScale_y d)
    (frameTimeDelta d) (cameraNear d) (cameraFar d) (cameraFovAngleVertical d)
    (viewSpaceToMetersFactor d) cam have_camera.

(** The walk over the extensions of a Prepare V1 in [translated_prepare]: one
    camera at most, and nothing else. *)
Fixpoint prepare_extensions (have : option camera_info) (l : list entry) :
    Z + option camera_info :=
  match l with
  | [] => inr have
  | E_Camera cam :: l' =>
      match have with
      | Some _ => inl FFX_API_RETURN_ERROR_PARAMETER
      | None => prepare_extensions (Some cam) l'
      end
  | _ :: _ => inl FFX_API_RETURN_ERROR_UNKNOWN_DESCTYPE
  end.

(** The parameter test both [translated_prepare] and
    [validate_public_dispatch] make on a packet. *)
Definition bad_prepare_packet (x : fg_context) (p : prepare_packet) : bool :=
  (pp_command_list p =? 0) || (pp_depth p =? 0) || (pp_motion_vectors p =? 0)
  || (pp_depth p =? pp_motion_vectors p)
  || (pp_render_width p =? 0) || (pp_render_height p =? 0)
  || negb (isfinite (pp_jitter_x p)) || negb (isfinite (pp_jitter_y p))
  || negb (isfinite (pp_motion_scale_x p)) || negb (isfinite (pp_motion_scale_y p))
  || negb (isfinite (pp_frame_time_delta_ms p))
  || SFltb (pp_frame_time_delta_ms p) f32_zero
  || negb (isfinite (pp_camera_near p))
  || (negb (depth_infinite x) && negb (isfinite (pp_camera_far p)))
  || negb (isfinite (pp_camera_fov p))
  || SFleb (pp_camera_fov p) f32_zero
  || SFgeb (pp_camera_fov p) f32_pi
  || negb (isfinite (pp_view_space_to_meters p))
  || (max_render_width x <? pp_render_width p)
  || (max_render_height x <? pp_render_height p).

(** The finite test on the three components of each camera vector. *)
Definition bad_camera (cam : camera_info) : bool :=
  negb (forallb isfinite (take 3 (cameraPosition cam))
        && forallb isfinite (take 3 (cameraUp cam))
        && forallb isfinite (take 3 (cameraRight cam))
        && forallb isfinite (take 3 (cameraForward cam))).

(** The part of [translated_prepare] before the packet is checked. *)
Definition prepare_packet_from (desc : dispatch_desc) : Z + prepare_packet :=
  match desc with
  | D_PrepareV2 d cam pNext =>
      if negb (bool_decide (pNext = [])) then inl FFX_API_RETURN_ERROR_UNKNOWN_DESCTYPE
      else inr (prepare_packet_of d (pf_reset d) cam true)
  | D_Prepare d pNext =>
      match prepare_extensions None pNext with
      | inl e => inl e
      | inr (Some cam) => inr (prepare_packet_of d false cam true)
      | inr None => inr (prepare_packet_of d false no_camera false)
      end
  | D_Generate _ _ | D_Other _ _ => inl FFX_API_RETURN_ERROR_UNKNOWN_DESCTYPE
  end.

Definition set_pp_reset (p : prepare_packet) : prepare_packet :=
  mkPreparePacket (pp_command_list p) (pp_frame_id p) (pp_depth p) (pp_motion_vectors p)
    (pp_depth_state p) (pp_motion_vectors_state p) (pp_render_width p) (pp_render_height p)
    (pp_flags p) true (pp_jitter_x p) (pp_jitter_y p) (pp_motion_scale_x p)
    (pp_motion_scale_y p) (pp_frame_time_delta_ms p) (pp_camera_near p) (pp_camera_far p)
    (pp_camera_fov p) (pp_view_space_to_meters p) (pp_camera p) (pp_camera_info_present p).

(** A frame that does not follow the last accepted one resets the history. *)
Definition prepare_reset (x : fg_context) (p : prepare_packet) : prepare_packet :=
  if have_last_prepare_frame_id x
     && negb (pp_frame_id p =? u64 (last_prepare_frame_id x + 1))
  then set_pp_reset p else p.

Definition translated_prepare (c : ptr) (desc : dispatch_desc) : W Z :=
  match prepare_packet_from desc with
  | inl e => mreturn e
  | inr p =>
      let! x := getc c in
      if bad_prepare_packet x p then mreturn FFX_API_RETURN_ERROR_PARAMETER
      else if pp_camera_info_present p && bad_camera (pp_camera p)
      then mreturn FFX_API_RETURN_ERROR_PARAMETER
      else
      let p := prepare_reset x p in
      let! r := bridge_call (P_Prepare (initialize_packet YAAGL_FSR_FG_PREPARE (translated x)) p) in
      if r.1 =? FFX_API_RETURN_OK
      then modc c (set_last_prepare_frame_id (pp_frame_id p)) ;;;
           modc c (set_have_last_prepare_frame_id true) ;;;
           mreturn r.1
      else mreturn r.1
  end.

(** ** Public validation *)

Definition known_prepare_flags : Z :=
  Z.lor FFX_FRAMEGENERATION_FLAG_DRAW_DEBUG_TEAR_LINES
  (Z.lor FFX_FRAMEGENERATION_FLAG_DRAW_DEBUG_RESET_INDICATORS
  (Z.lor FFX_FRAMEGENERATION_FLAG_DRAW_DEBUG_VIEW
  (Z.lor FFX_FRAMEGENERATION_FLAG_NO_SWAPCHAIN_CONTEXT_NOTIFY
  (Z.lor FFX_FRAMEGENERATION_FLAG_DRAW_DEBUG_PACING_LINES
  (Z.lor FFX_FRAMEGENERATION_FLAG_RESERVED_1 FFX_FRAMEGENERATION_FLAG_RESERVED_2))))).

(** Flags only the native provider can honour. *)
Definition unsupported_generation_flags : Z :=
  Z.lor FFX_FRAMEGENERATION_FLAG_DRAW_DEBUG_TEAR_LINES
  (Z.lor FFX_FRAMEGENERATION_FLAG_DRAW_DEBUG_RESET_INDICATORS
  (Z.lor FFX_FRAMEGENERATION_FLAG_DRAW_DEBUG_VIEW
  (Z.lor FFX_FRAMEGENERATION_FLAG_RESERVED_1 FFX_FRAMEGENERATION_FLAG_RESERVED_2))).

(** The extension walk of [validate_public_dispatch]: off the translated path
    an unknown extension ends the walk instead of failing it. *)
Fixpoint validate_extensions (metalfx : bool) (have : option camera_info)
    (l : list entry) : Z + option camera_info :=
  match l with
  | [] => inr have
  | E_Camera cam :: l' =>
      match have with
      | Some _ => inl FFX_API_RETURN_ERROR_PARAMETER
      | None => validate_extensions metalfx (Some cam) l'
      end
  | _ :: _ => if metalfx then inl FFX_API_RETURN_ERROR_UNKNOWN_DESCTYPE else inr have
  end.

Definition validate_prepare (x : fg_context) (d : prepare_fields)
    (cam : Z + option camera_info) : Z :=
  if negb (Z.land (pf_flags d) (u32 (Z.lnot known_prepare_flags)) =? 0)
  then FFX_API_RETURN_ERROR_PARAMETER
  else match cam with
       | inl e => e
       | inr oc =>
           let p := prepare_packet_of d false (default no_camera oc) (bool_decide (is_Some oc)) in
           if bad_prepare_packet x p then FFX_API_RETURN_ERROR_PARAMETER
           else match oc with
                | Some cam => if bad_camera cam then FFX_API_RETURN_ERROR_PARAMETER
                              else FFX_API_RETURN_OK
                | None => FFX_API_RETURN_OK
                end
       end.

Definition validate_public_dispatch (x : fg_context) (desc : dispatch_desc) : Z :=
  let metalfx := bool_decide (mode x = CONTEXT_METALFX) in
  match desc with
  | D_Generate d pNext =>
      if metalfx && negb (bool_decide (pNext = [])) then FFX_API_RETURN_ERROR_UNKNOWN_DESCTYPE
      else if (df_commandList d =? NULL) || (resource (presentColor d) =? NULL)
           || (numGeneratedFrames d =? 0) || (4 <? numGeneratedFrames d)
           || bad_luminance d
      then FFX_API_RETURN_ERROR_PARAMETER
      else if existsb (fun i => resource (output_at d i) =? NULL)
                      (seq 0 (Z.to_nat (numGeneratedFrames d)))
      then FFX_API_RETURN_ERROR_PARAMETER
      else if metalfx && (negb (numGeneratedFrames d =? 1)
                          || (resource (output_at d 0) =? resource (presentColor d)))
      then FFX_API_RETURN_ERROR_PARAMETER
      else if bad_rect x (df_generationRect d) then FFX_API_RETURN_ERROR_PARAMETER
      else FFX_API_RETURN_OK
  | D_PrepareV2 d cam pNext =>
      validate_prepare x d
        (if metalfx && negb (bool_decide (pNext = []))
         then inl FFX_API_RETURN_ERROR_UNKNOWN_DESCTYPE else inr (Some cam))
  | D_Prepare d pNext => validate_prepare x d (validate_extensions metalfx None pNext)
  | D_Other _ _ => FFX_API_RETURN_OK
  end.

Definition prepare_has_native_only_flags (flags : Z) : bool :=
  has_flag flags unsupported_generation_flags.

Definition is_camera (e : entry) : bool :=
  match e with E_Camera _ => true | _ => false end.

Definition prepare_requires_native (desc : dispatch_desc) : bool :=
  match desc with
  | D_PrepareV2 _ _ pNext => negb (bool_decide (pNext = []))
  | D_Prepare _ pNext => existsb (fun e => negb (is_camera e)) pNext
  | D_Generate _ _ | D_Other _ _ => false
  end.

(** ** Configuration *)

(** [build_swapchain_config]: the application's own callbacks, or the module's
    with the binding as their context. *)
Definition build_swapchain_config (input : ffxConfigureDescFrameGeneration)
    (b : option callback_binding) : FfxFrameGenerationConfig :=
  mkSwapConfig FFX_API_FRAME_GENERATION_CONFIG (swapChain input)
    (match b with
     | Some b => if negb (cb_present b =? NULL) then present_callback_addr else NULL
     | None => presentCallback input end)
    (match b with
     | Some b => if negb (cb_present b =? NULL) then cb_addr b else NULL
     | None => presentCallbackUserContext input end)
    (match b with Some _ => generation_callback_addr | None => frameGenerationCallback input end)
    (match b with Some b => cb_addr b | None => frameGenerationCallbackUserContext input end)
    (frameGenerationEnabled input) (allowAsyncWorkloads input) false
    (HUDLessColor input) (cf_flags input)
    (onlyPresentGenerated input) (generationRect input) (frameID input)
    (has_flag (cf_flags input) FFX_FRAMEGENERATION_FLAG_DRAW_DEBUG_PACING_LINES).

(** The disabling configuration [detach_swapchain] sends to a native context. *)
Definition detached_config (d : ffxConfigureDescFrameGeneration) :
    ffxConfigureDescFrameGeneration :=
  mkConfigureFG [] (swapChain d) NULL NULL NULL NULL false (allowAsyncWorkloads d)
    (mkResource NULL (description (HUDLessColor d)) (rstate (HUDLessColor d)))
    (Z.land (cf_flags d) (u32 (Z.lnot FFX_FRAMEGENERATION_FLAG_NO_SWAPCHAIN_CONTEXT_NOTIFY)))
    (onlyPresentGenerated d) (generationRect d) (frameID d).

Definition disabled_swapchain_config (s : ptr) : FfxFrameGenerationConfig :=
  mkSwapConfig FFX_API_FRAME_GENERATION_CONFIG s NULL NULL NULL NULL false false false
    null_resource 0 false null_rect 0 false.

Definition binding_addr (b : option callback_binding) : ptr :=
  match b with Some b => cb_addr b | None => NULL end.

(** The native half of [detach_swapchain]: callbacks and generation are switched
    off in the vendor's context. *)
Definition detach_native (x : fg_context) : W Z :=
  if bool_decide (mode x = CONTEXT_NATIVE) && native_config_valid x
  then let! r := call_native (Ev_native_configure (original x)
                    (C_FrameGeneration (detached_config (native_config x)))) in
       mreturn (if negb (rs_code r =? FFX_API_RETURN_OK) then rs_code r
                else FFX_API_RETURN_OK)
  else mreturn FFX_API_RETURN_OK.

(** What [detach_swapchain] does once the presenter has drained. *)
Definition detach_drained (c s : ptr) (result : Z) : W Z :=
  clear_swapchain_claim c ;;;
  release_swapchain s ;;;
  let! x := getc c in
  free_memory (context_allocator x) (binding_addr (binding x)) ;;;
  modc c (set_binding None) ;;;
  modc c (set_native_config_valid false) ;;;
  let! x := getc c in
  let! h := release_resource (hudless x) in
  modc c (set_hudless h) ;;;
  clear_frame_configs c ;;;
  let! x := getc c in
  let! result :=
    (if bool_decide (mode x = CONTEXT_METALFX)
     then let! r := configure_translation (translated x) false in
          mreturn (if negb (r =? FFX_API_RETURN_OK) then r else result)
     else mreturn result) in
  modc c (set_enabled false) ;;;
  modc c (set_native_config null_configure) ;;;
  mreturn result.

Definition detach_swapchain (c : ptr) : W Z :=
  let! x := getc c in
  let s := swapchain x in
  if s =? NULL then mreturn FFX_API_RETURN_OK
  else
  let! result := detach_native x in
  ext (Ev_set_config s (disabled_swapchain_config s)) ;;;
  let! waited := ext (Ev_wait_for_presents s) in
  if rs_value waited =? 0 then mreturn FFX_API_RETURN_ERROR_RUNTIME_ERROR
  else detach_drained c s result.

(** The [!notify] branch of [configure_frame_generation]: generation without a
    swapchain. *)
Definition configure_without_swapchain (c : ptr) (desc : ffxConfigureDescFrameGeneration) : W Z :=
  let! x := getc c in
  if bool_decide (mode x = CONTEXT_NATIVE)
  then let! r := call_native (Ev_native_configure (original x) (C_FrameGeneration desc)) in
       mreturn (rs_code r)
  else
  let! result :=
    (if frameGenerationEnabled desc then configure_translation (translated x) true
     else mreturn FFX_API_RETURN_OK) in
  if negb (result =? FFX_API_RETURN_OK) then mreturn result
  else
  let! result := snapshot_frame_config c desc in
  if negb (result =? FFX_API_RETURN_OK)
  then mwhen (frameGenerationEnabled desc)
             (configure_translation (translated x) (enabled x) ;;; mreturn tt) ;;;
       mreturn result
  else
  let! result :=
    (if negb (frameGenerationEnabled desc)
     then let! r := configure_translation (translated x) false in
          if negb (r =? FFX_API_RETURN_OK) then mreturn r
          else clear_frame_configs c ;;; mreturn FFX_API_RETURN_OK
     else mreturn FFX_API_RETURN_OK) in
  if negb (result =? FFX_API_RETURN_OK) then mreturn result
  else
  store_native_config c desc ;;;
  modc c (set_enabled (frameGenerationEnabled desc)) ;;;
  mreturn FFX_API_RETURN_OK.

(** Undo the claim made by the running [configure_frame_generation]. *)
Definition drop_claim (c s : ptr) (newly_claimed : bool) : W unit :=
  mwhen newly_claimed (clear_swapchain_claim c ;;; release_swapchain s).

(** Free a binding the running call allocated and did not install. *)
Definition drop_binding (c : ptr) (binding_changed : bool) (b : option callback_binding) : W unit :=
  mwhen binding_changed
    (let! x := getc c in free_memory (context_allocator x) (binding_addr b)).

(** The tail of [configure_frame_generation] on the translated path, from the
    enabling bridge call on. *)
Definition configure_translated (c s : ptr) (desc : ffxConfigureDescFrameGeneration)
    (b : option callback_binding) (binding_changed newly_claimed : bool) : W Z :=
  let! x := getc c in
  let! result :=
    (if frameGenerationEnabled desc then configure_translation (translated x) true
     else mreturn FFX_API_RETURN_OK) in
  if negb (result =? FFX_API_RETURN_OK)
  then drop_binding c binding_changed b ;;;
       drop_claim c s newly_claimed ;;;
       mreturn result
  else
  let! result := snapshot_frame_config c desc in
  if negb (result =? FFX_API_RETURN_OK)
  then mwhen (frameGenerationEnabled desc)
             (configure_translation (translated x) (enabled x) ;;; mreturn tt) ;;;
       drop_binding c binding_changed b ;;;
       drop_claim c s newly_claimed ;;;
       mreturn result
  else
  let! x := getc c in
  let old_binding := binding x in
  ext (Ev_set_config s (build_swapchain_config desc b)) ;;;
  modc c (set_binding b) ;;;
  modc c (set_enabled (frameGenerationEnabled desc)) ;;;
  store_native_config c desc ;;;
  drop_binding c binding_changed old_binding ;;;
  if negb (frameGenerationEnabled desc)
  then let! waited := ext (Ev_wait_for_presents s) in
       if rs_value waited =? 0 then mreturn FFX_API_RETURN_ERROR_RUNTIME_ERROR
       else
       clear_frame_configs c ;;;
       configure_translation (translated x) false
  else mwhen binding_changed (retire_frame_configs c (frameID desc)) ;;;
       mreturn FFX_API_RETURN_OK.

(** The middle of [configure_frame_generation]: with a checked swapchain in
    hand, the binding, the claim, and the provider's own configuration. *)
Definition configure_with_swapchain (c s : ptr) (desc : ffxConfigureDescFrameGeneration) : W Z :=
  let! x := getc c in
  let metalfx := bool_decide (mode x = CONTEXT_METALFX) in
  let binding_changed := metalfx && negb (binding_matches (binding x) desc) in
  let! b :=
    (if metalfx
     then if binding_changed
          then let! p := allocate_memory (context_allocator x) SzBinding in
               mreturn (if p =? NULL then None
                        else Some (Some (mkBinding p c (presentCallback desc)
                               (presentCallbackUserContext desc)
                               (frameGenerationCallback desc)
                               (frameGenerationCallbackUserContext desc))))
          else mreturn (Some (binding x))
     else mreturn (Some None)) in
  match b with
  | None => release_swapchain s ;;; mreturn FFX_API_RETURN_ERROR_MEMORY
  | Some b =>
      let! claim :=
        (if swapchain x =? NULL
         then let! ok := claim_swapchain c s in
              if ok then mreturn (Some (s, true))
              else drop_binding c binding_changed b ;;;
                   release_swapchain s ;;;
                   mreturn None
         else release_swapchain s ;;; mreturn (Some (swapchain x, false))) in
      match claim with
      | None => mreturn FFX_API_RETURN_ERROR_PARAMETER
      | Some (s, newly_claimed) =>
          if bool_decide (mode x = CONTEXT_NATIVE)
          then let! r := call_native (Ev_native_configure (original x) (C_FrameGeneration desc)) in
               if rs_code r =? FFX_API_RETURN_OK
               then store_native_config c desc ;;;
                    modc c (set_enabled (frameGenerationEnabled desc)) ;;;
                    mreturn (rs_code r)
               else mreturn (rs_code r)
          else configure_translated c s desc b binding_changed newly_claimed
      end
  end.

(** [configure_frame_generation] past the pending-mode decision. *)
Definition configure_decided (c : ptr) (desc : ffxConfigureDescFrameGeneration) : W Z :=
  let! x := getc c in
  let notify := negb (has_flag (cf_flags desc) FFX_FRAMEGENERATION_FLAG_NO_SWAPCHAIN_CONTEXT_NOTIFY) in
  if bool_decide (mode x = CONTEXT_METALFX)
     && (negb (bool_decide (cf_pNext desc = []))
         || has_flag (cf_flags desc) unsupported_generation_flags)
  then mreturn FFX_API_RETURN_ERROR_UNKNOWN_DESCTYPE
  else if negb notify then configure_without_swapchain c desc
  else if swapChain desc =? NULL then mreturn FFX_API_RETURN_ERROR_PARAMETER
  else
  let! s := get_stable_swapchain (swapChain desc) in
  if s =? NULL then mreturn FFX_API_RETURN_ERROR_PARAMETER
  else if negb (swapchain x =? NULL) && negb (swapchain x =? s)
  then if enabled x
       then release_swapchain s ;;; mreturn FFX_API_RETURN_ERROR_PARAMETER
       else
       let! result := detach_swapchain c in
       if negb (result =? FFX_API_RETURN_OK)
       then release_swapchain s ;;; mreturn result
       else configure_with_swapchain c s desc
  else configure_with_swapchain c s desc.

(** The whole function, with [select_native] as the argument that closes the
    recursion between the two. *)
Definition configure_body (select_native : ptr -> W Z) (c : ptr)
    (desc : ffxConfigureDescFrameGeneration) : W Z :=
  let! x := getc c in
  let notify := negb (has_flag (cf_flags desc) FFX_FRAMEGENERATION_FLAG_NO_SWAPCHAIN_CONTEXT_NOTIFY) in
  if negb (Z.land (cf_flags desc) (u32 (Z.lnot known_prepare_flags)) =? 0)
  then mreturn FFX_API_RETURN_ERROR_PARAMETER
  else if negb (resource (HUDLessColor desc) =? NULL)
          && negb (rd_format (description (HUDLessColor desc)) =? hudless_format x)
  then mreturn FFX_API_RETURN_ERROR_PARAMETER
  else if bad_rect x (generationRect desc) then mreturn FFX_API_RETURN_ERROR_PARAMETER
  else if bool_decide (mode x = MODE_PENDING)
  then if negb (bool_decide (cf_pNext desc = []))
          || has_flag (cf_flags desc) unsupported_generation_flags
       then let! result := select_native c in
            if negb (result =? FFX_API_RETURN_OK) then mreturn result
            else configure_decided c desc
       else if notify && (swapChain desc =? NULL) then mreturn FFX_API_RETURN_ERROR_PARAMETER
       else store_native_config c desc ;;; mreturn FFX_API_RETURN_OK
  else configure_decided c desc.

(** [select_native], given the [configure_frame_generation] it calls. *)
Definition select_native_body (configure : ptr -> ffxConfigureDescFrameGeneration -> W Z)
    (c : ptr) : W Z :=
  modc c (set_mode CONTEXT_NATIVE) ;;;
  let! x := getc c in
  if native_config_valid x then configure c (native_config x)
  else mreturn FFX_API_RETURN_OK.

(** The recursion is two calls deep: [select_native] leaves the pending mode
    before it configures, and only a pending context calls [select_native]. *)
Definition configure_selected : ptr -> ffxConfigureDescFrameGeneration -> W Z :=
  configure_body (fun _ => fault ;;; mreturn 0).
Definition select_native : ptr -> W Z := select_native_body configure_selected.
Definition configure_frame_generation : ptr -> ffxConfigureDescFrameGeneration -> W Z :=
  configure_body select_native.

(** ** Dispatch *)

Definition desc_flags (desc : dispatch_desc) : Z :=
  match desc with
  | D_Prepare d _ | D_PrepareV2 d _ _ => pf_flags d
  | D_Generate _ _ | D_Other _ _ => 0
  end.

Definition is_prepare (desc : dispatch_desc) : bool :=
  match desc with
  | D_Prepare _ _ | D_PrepareV2 _ _ _ => true
  | D_Generate _ _ | D_Other _ _ => false
  end.

Definition native_dispatch (c : ptr) (desc : dispatch_desc) : W Z :=
  let! x := getc c in
  let! r := call_native (Ev_native_dispatch (original x) desc) in
  mreturn (rs_code r).

(** Fall back to the vendor's provider and give it the same Prepare. *)
Definition select_native_and_dispatch (c : ptr) (desc : dispatch_desc) : W Z :=
  let! result := select_native c in
  if result =? FFX_API_RETURN_OK then native_dispatch c desc else mreturn result.

(** The first Prepare of a pending context decides its provider. *)
Definition dispatch_pending (c : ptr) (desc : dispatch_desc) : W Z :=
  if negb (is_prepare desc) then mreturn FFX_API_RETURN_ERROR_UNKNOWN_DESCTYPE
  else if prepare_has_native_only_flags (desc_flags desc) || prepare_requires_native desc
  then select_native_and_dispatch c desc
  else
  enter_dispatch c ;;;
  let! result := translated_prepare c desc in
  leave_dispatch c ;;;
  if result =? BRIDGE_INELIGIBLE then select_native_and_dispatch c desc
  else if result =? FFX_API_RETURN_OK
  then modc c (set_mode CONTEXT_METALFX) ;;;
       let! x := getc c in
       if native_config_valid x then configure_frame_generation c (native_config x)
       else mreturn result
  else mreturn result.

(** The decided part of [dispatch_context]; the second component is the frame
    whose configurations a direct dispatch retires. *)
Definition dispatch_selected (c : ptr) (desc : dispatch_desc) : W (Z * option Z) :=
  let! x := getc c in
  if negb (bool_decide (mode x = CONTEXT_METALFX))
  then let! r := native_dispatch c desc in mreturn (r, None)
  else match desc with
       | D_Prepare _ _ | D_PrepareV2 _ _ _ =>
           if prepare_has_native_only_flags (desc_flags desc)
           then mreturn (FFX_API_RETURN_ERROR_UNKNOWN_DESCTYPE, None)
           else let! r := translated_prepare c desc in mreturn (r, None)
       | D_Generate d pNext =>
           let! r := translated_dispatch c d pNext in
           let! x := getc c in
           mreturn (r, if (r =? FFX_API_RETURN_OK) && native_config_valid x
                          && has_flag (cf_flags (native_config x))
                               FFX_FRAMEGENERATION_FLAG_NO_SWAPCHAIN_CONTEXT_NOTIFY
                       then Some (df_frameID d) else None)
       | D_Other _ _ => mreturn (FFX_API_RETURN_ERROR_UNKNOWN_DESCTYPE, None)
       end.

Definition dispatch_decided (c : ptr) (desc : dispatch_desc) : W Z :=
  enter_dispatch c ;;;
  let! r := dispatch_selected c desc in
  leave_dispatch c ;;;
  match r.2 with
  | Some frame => retire_frame_configs c frame ;;; mreturn r.1
  | None => mreturn r.1
  end.

Definition dispatch_context (c : ptr) (desc : dispatch_desc) : W Z :=
  let! inside := in_callback in
  if inside then dispatch_decided c desc
  else
  acquire_configure c ;;;
  let! x := getc c in
  if bool_decide (mode x = MODE_PENDING)
  then let! result := dispatch_pending c desc in
       release_configure c ;;;
       mreturn result
  else release_configure c ;;;
       dispatch_decided c desc.

(** ** Callbacks from the native swapchain *)

Definition present_callback (b : option callback_binding) (frame : option Z) : W Z :=
  match b, frame with
  | Some b, Some frame =>
      if cb_present b =? NULL then mreturn FFX_API_RETURN_ERROR_PARAMETER
      else
      enter_callback (cb_context b) ;;;
      let! result := app_present (cb_present b) (cb_present_user b) frame in
      leave_callback (cb_context b) ;;;
      mreturn result
  | _, _ => mreturn FFX_API_RETURN_ERROR_PARAMETER
  end.

Definition set_numGeneratedFrames (n : Z) (d : ffxDispatchDescFrameGeneration) :=
  mkDispatchFG (df_commandList d) (presentColor d) (outputs d) n (df_reset d)
    (backbufferTransferFunction d) (minLuminance d) (maxLuminance d)
    (df_generationRect d) (df_frameID d).

(** The result and the descriptor as the swapchain reads it back. *)
Definition generation_callback (b : option callback_binding)
    (desc : option ffxDispatchDescFrameGeneration) (pNext : list entry) :
    W (Z * option ffxDispatchDescFrameGeneration) :=
  match b, desc with
  | Some b, Some d =>
      enter_callback (cb_context b) ;;;
      let! r :=
        (if negb (cb_generate b =? NULL)
         then app_generate (cb_generate b) (cb_generate_user b) d
         else let! res := dispatch_context (cb_context b) (D_Generate d pNext) in
              mreturn (res, d)) in
      let d := if negb (r.1 =? FFX_API_RETURN_OK) then set_numGeneratedFrames 0 r.2 else r.2 in
      retire_frame_configs (cb_context b) (df_frameID d) ;;;
      leave_callback (cb_context b) ;;;
      mreturn (r.1, Some d)
  | _, _ => mreturn (FFX_API_RETURN_ERROR_PARAMETER, desc)
  end.

(** ** Context creation and destruction *)

Definition free_context_storage (c : ptr) : W unit :=
  let! x := getc c in
  let callbacks := if custom_allocation x then Some (allocation x) else None in
  clear_frame_configs c ;;;
  let! x := getc c in
  let! h := release_resource (hudless x) in
  modc c (set_hudless h) ;;;
  mwhen (negb (device x =? NULL)) (ext (Ev_Release (device x)) ;;; mreturn tt) ;;;
  mmodify (fun w => set_w_heap (delete c (w_heap w)) w) ;;;
  free_memory callbacks c.

(** The flags of the create packet. *)
Definition create_flags (flags : Z) : Z :=
  Z.lor (if has_flag flags FFX_FRAMEGENERATION_ENABLE_DEPTH_INVERTED
         then YAAGL_FSR_FG_DEPTH_INVERTED else 0)
  (Z.lor (if has_flag flags FFX_FRAMEGENERATION_ENABLE_DEPTH_INFINITE
          then YAAGL_FSR_FG_DEPTH_INFINITE else 0)
  (Z.lor (if has_flag flags FFX_FRAMEGENERATION_ENABLE_DISPLAY_RESOLUTION_MOTION_VECTORS
          then YAAGL_FSR_FG_DISPLAY_RESOLUTION_MOTION_VECTORS else 0)
         (if has_flag flags FFX_FRAMEGENERATION_ENABLE_MOTION_VECTORS_JITTER_CANCELLATION
          then YAAGL_FSR_FG_MOTION_VECTORS_JITTERED else 0))).

Definition select_translation (c : ptr) (desc : ffxCreateContextDescFrameGeneration)
    (backend_device : ptr) : W Z :=
  let p := mkCreatePacket backend_device (displaySize_width desc) (displaySize_height desc)
             (maxRenderSize_width desc) (maxRenderSize_height desc)
             (backBufferFormat desc) (create_flags (cfg_flags desc)) in
  let! r := bridge_call (P_Create (initialize_packet YAAGL_FSR_FG_CREATE 0) p) in
  if negb (r.1 =? FFX_API_RETURN_OK)
  then if negb (r.2 =? 0)
       then let! cleanup := destroy_translation r.2 in
            if negb (cleanup =? FFX_API_RETURN_OK) then mreturn cleanup else mreturn r.1
       else mreturn r.1
  else if r.2 =? 0 then mreturn FFX_API_RETURN_ERROR_RUNTIME_ERROR
  else
  modc c (set_translated r.2) ;;;
  modc c (set_mode MODE_PENDING) ;;;
  mreturn FFX_API_RETURN_OK.

(** The chain with its override entry spliced out. *)
Fixpoint without_override (l : list entry) : list entry :=
  match l with
  | [] => []
  | E_Override _ :: l' => l'
  | e :: l' => e :: without_override l'
  end.

Definition is_own_provider (v : Z) : bool :=
  (v =? AUTOMATIC_PROVIDER_ID) || (v =? METALFX_PROVIDER_ID).

Definition native_create (c : ptr) (desc : list entry)
    (callbacks : option ffxAllocationCallbacks) : W Z :=
  let! r := call_native (Ev_native_create desc callbacks) in
  modc c (set_original (rs_value r)) ;;;
  mreturn (rs_code r).

Definition create_original (c : ptr) (desc : list entry) (override : option Z)
    (callbacks : option ffxAllocationCallbacks) : W Z :=
  let! ok := have_native in
  if negb ok then mreturn FFX_API_RETURN_NO_PROVIDER
  else match override with
       | Some v => if is_own_provider v
                   then native_create c (without_override desc) callbacks
                   else native_create c desc callbacks
       | None => native_create c desc callbacks
       end.

(** The first walk of [ffxCreateContext]. *)
Fixpoint scan_effect (fg : option ffxCreateContextDescFrameGeneration) (is_swapchain : bool)
    (l : list entry) : Z + option ffxCreateContextDescFrameGeneration * bool :=
  match l with
  | [] => inr (fg, is_swapchain)
  | E_FrameGeneration d :: l' =>
      match fg with
      | Some _ => inl FFX_API_RETURN_ERROR_PARAMETER
      | None => scan_effect (Some d) is_swapchain l'
      end
  | (E_SwapchainWrap | E_SwapchainNew | E_SwapchainForHwnd) :: l' =>
      if is_swapchain then inl FFX_API_RETURN_ERROR_PARAMETER
      else scan_effect fg true l'
  | _ :: l' => scan_effect fg is_swapchain l'
  end.

(** What the second walk collects. *)
Record create_scan := mkScan {
  sc_backend : option ptr; sc_version : option Z; sc_hudless : option Z;
  sc_override : option Z; sc_native_only : bool }.

Fixpoint scan_options (s : create_scan) (l : list entry) : Z + create_scan :=
  match l with
  | [] => inr s
  | E_FrameGeneration _ :: l' => scan_options s l'
  | E_Backend dev :: l' =>
      match sc_backend s with
      | Some _ => inl FFX_API_RETURN_ERROR_PARAMETER
      | None => scan_options (mkScan (Some dev) (sc_version s) (sc_hudless s)
                                (sc_override s) (sc_native_only s)) l'
      end
  | E_Version v :: l' =>
      match sc_version s with
      | Some _ => inl FFX_API_RETURN_ERROR_PARAMETER
      | None => scan_options (mkScan (sc_backend s) (Some v) (sc_hudless s) (sc_override s)
                                (sc_native_only s || negb (v =? FFX_FRAMEGENERATION_VERSION))) l'
      end
  | E_Hudless f :: l' =>
      match sc_hudless s with
      | Some _ => inl FFX_API_RETURN_ERROR_PARAMETER
      | None => scan_options (mkScan (sc_backend s) (sc_version s) (Some f)
                                (sc_override s) (sc_native_only s)) l'
      end
  | E_Override v :: l' =>
      match sc_override s with
      | Some _ => inl FFX_API_RETURN_ERROR_PARAMETER
      | None => scan_options (mkScan (sc_backend s) (sc_version s) (sc_hudless s) (Some v)
                                (sc_native_only s || negb (is_own_provider v))) l'
      end
  | (E_SwapchainWrap | E_SwapchainNew | E_SwapchainForHwnd | E_Camera _ | E_Other _) :: l' =>
      scan_options (mkScan (sc_backend s) (sc_version s) (sc_hudless s) (sc_override s) true) l'
  end.

Definition create_flag_mask : Z :=
  Z.lor FFX_FRAMEGENERATION_ENABLE_ASYNC_WORKLOAD_SUPPORT
  (Z.lor FFX_FRAMEGENERATION_ENABLE_DISPLAY_RESOLUTION_MOTION_VECTORS
  (Z.lor FFX_FRAMEGENERATION_ENABLE_MOTION_VECTORS_JITTER_CANCELLATION
  (Z.lor FFX_FRAMEGENERATION_ENABLE_DEPTH_INVERTED
  (Z.lor FFX_FRAMEGENERATION_ENABLE_DEPTH_INFINITE
  (Z.lor FFX_FRAMEGENERATION_ENABLE_HIGH_DYNAMIC_RANGE
         FFX_FRAMEGENERATION_ENABLE_DEBUG_CHECKING))))).

Definition bad_create (fg : ffxCreateContextDescFrameGeneration) (backend : option ptr) : bool :=
  match backend with None => true | Some d => d =? NULL end
  || (displaySize_width fg =? 0) || (displaySize_height fg =? 0)
  || (maxRenderSize_width fg =? 0) || (maxRenderSize_height fg =? 0)
  || (displaySize_width fg <? maxRenderSize_width fg)
  || (displaySize_height fg <? maxRenderSize_height fg)
  || negb (Z.land (cfg_flags fg) (u32 (Z.lnot create_flag_mask)) =? 0).

(** What the descriptor chain asks for: an error, a swapchain context, or an
    interpolation context with its options. *)
Inductive create_request :=
| R_Error (e : Z)
| R_Swapchain
| R_FrameGeneration (fg : ffxCreateContextDescFrameGeneration) (s : create_scan).

Definition classify_create (desc : list entry) : create_request :=
  match scan_effect None false desc with
  | inl e => R_Error e
  | inr (Some _, true) => R_Error FFX_API_RETURN_ERROR_PARAMETER
  | inr (None, false) => R_Error FFX_API_RETURN_NO_PROVIDER
  | inr (None, true) => R_Swapchain
  | inr (Some fg, false) =>
      match scan_options (mkScan None None None None false) desc with
      | inl e => R_Error e
      | inr s => if bad_create fg (sc_backend s) then R_Error FFX_API_RETURN_ERROR_PARAMETER
                 else R_FrameGeneration fg s
      end
  end.

(** The members a new context is given before the providers are asked. *)
Definition new_context (callbacks : option ffxAllocationCallbacks) : fg_context :=
  mkContext (default null_allocation callbacks) (bool_decide (is_Some callbacks))
    CONTEXT_NATIVE NULL 0 NULL false 0%nat 1 false NULL None null_configure false
    null_resource [] 0 0 0 0 0 0 NULL 0 false false false false.

Definition new_swapchain_context (callbacks : option ffxAllocationCallbacks) : fg_context :=
  set_mode CONTEXT_SWAPCHAIN (new_context callbacks).

Definition new_fg_context (callbacks : option ffxAllocationCallbacks)
    (fg : ffxCreateContextDescFrameGeneration) (s : create_scan) : fg_context :=
  mkContext (default null_allocation callbacks) (bool_decide (is_Some callbacks))
    CONTEXT_NATIVE NULL 0 (default NULL (sc_backend s)) false 0%nat 1 false NULL None
    null_configure false null_resource []
    (displaySize_width fg) (displaySize_height fg)
    (maxRenderSize_width fg) (maxRenderSize_height fg)
    (match sc_hudless s with
     | Some f => if negb (f =? 0) then f else backBufferFormat fg
     | None => backBufferFormat fg end)
    0 NULL 0 false
    (has_flag (cfg_flags fg) FFX_FRAMEGENERATION_ENABLE_DEBUG_CHECKING)
    (has_flag (cfg_flags fg) FFX_FRAMEGENERATION_ENABLE_DEPTH_INFINITE) false.

Definition putc (c : ptr) (x : fg_context) : W unit :=
  mmodify (fun w => set_w_heap (<[c := x]> (w_heap w)) w).

(** The provider part of [ffxCreateContext] for an interpolation context. *)
Definition create_providers (c : ptr) (desc : list entry)
    (fg : ffxCreateContextDescFrameGeneration) (s : create_scan)
    (callbacks : option ffxAllocationCallbacks) : W Z :=
  let! result := create_original c desc (sc_override s) callbacks in
  let! x := getc c in
  let result := if (result =? FFX_API_RETURN_OK) && (original x =? NULL)
                then FFX_API_RETURN_ERROR_RUNTIME_ERROR else result in
  if (result =? FFX_API_RETURN_OK) && negb (sc_native_only s)
  then let! r := select_translation c fg (default NULL (sc_backend s)) in
       mreturn (if r =? BRIDGE_INELIGIBLE then FFX_API_RETURN_OK else r)
  else mreturn result.

(** The common end: a context without a provider is taken down again, any other
    is published. *)
Definition finish_create (c : ptr) (result : Z)
    (callbacks : option ffxAllocationCallbacks) : W (Z * ptr) :=
  let! x := getc c in
  let result := if (result =? FFX_API_RETURN_OK)
                   && negb (bool_decide (mode x = CONTEXT_METALFX)) && (original x =? NULL)
                then FFX_API_RETURN_ERROR_RUNTIME_ERROR else result in
  if negb (result =? FFX_API_RETURN_OK)
  then mwhen (negb (translated x =? 0)) (destroy_translation (translated x) ;;; mreturn tt) ;;;
       let! native := mgets w_native in
       mwhen (negb (original x =? NULL) && native)
             (let! r := ext (Ev_native_destroy (original x) callbacks) in
              modc c (set_original (rs_value r))) ;;;
       free_context_storage c ;;;
       mreturn (result, NULL)
  else
  acquire_contexts ;;;
  mmodify (fun w => set_w_contexts (c :: w_contexts w) w) ;;;
  release_contexts ;;;
  mreturn (FFX_API_RETURN_OK, c).

(** [ffxCreateContext]: the return code and the value left in [*output].
    [has_output] is false for a null [output], [desc] is [None] for a null
    descriptor. *)
Definition ffxCreateContext (has_output : bool) (desc : option (list entry))
    (callbacks : option ffxAllocationCallbacks) : W (Z * ptr) :=
  if negb has_output then mreturn (FFX_API_RETURN_ERROR_PARAMETER, NULL)
  else match desc with
  | None => mreturn (FFX_API_RETURN_ERROR_PARAMETER, NULL)
  | Some desc =>
    if negb (valid_chain desc)
       || match callbacks with
          | Some a => xorb (negb (alloc a =? NULL)) (negb (dealloc a =? NULL))
          | None => false
          end
    then mreturn (FFX_API_RETURN_ERROR_PARAMETER, NULL)
    else match classify_create desc with
    | R_Error e => mreturn (e, NULL)
    | R_Swapchain =>
        let! c := allocate_memory callbacks SzContext in
        if c =? NULL then mreturn (FFX_API_RETURN_ERROR_MEMORY, NULL)
        else
        putc c (new_swapchain_context callbacks) ;;;
        let! ok := have_native in
        if negb ok
        then free_context_storage c ;;; mreturn (FFX_API_RETURN_NO_PROVIDER, NULL)
        else
        let! result := native_create c desc callbacks in
        finish_create c result callbacks
    | R_FrameGeneration fg s =>
        let! c := allocate_memory callbacks SzContext in
        if c =? NULL then mreturn (FFX_API_RETURN_ERROR_MEMORY, NULL)
        else
        putc c (new_fg_context callbacks fg s) ;;;
        ext (Ev_AddRef (default NULL (sc_backend s))) ;;;
        let! result := create_providers c desc fg s callbacks in
        finish_create c result callbacks
    end
  end.

(** [while (context->references != 1) SleepConditionVariableSRW(...)]: when the
    loop ends the other threads have dropped their references. *)
Definition wait_references (c : ptr) : W unit :=
  acquire_contexts ;;;
  let! x := getc c in
  mwhen (negb (references x =? 1))
        (ext (Ev_sleep c) ;;; modc c (set_references 1)) ;;;
  release_contexts.

Definition reopen_context (c : ptr) : W unit :=
  acquire_contexts ;;; modc c (set_closing false) ;;; release_contexts.

(** The providers of a context being destroyed. *)
Definition destroy_providers (c : ptr) : W Z :=
  let! x := getc c in
  let! result :=
    (if negb (translated x =? 0)
     then let! r := destroy_translation (translated x) in
          mwhen (r =? FFX_API_RETURN_OK) (modc c (set_translated 0)) ;;;
          mreturn r
     else mreturn FFX_API_RETURN_OK) in
  if (result =? FFX_API_RETURN_OK) && negb (original x =? NULL)
  then let! r := call_native (Ev_native_destroy (original x) (context_allocator x)) in
       modc c (set_original (rs_value r)) ;;;
       mreturn (rs_code r)
  else mreturn result.

Fixpoint unlink_context (c : ptr) (l : list ptr) : list ptr :=
  match l with
  | [] => []
  | x :: l' => if x =? c then l' else x :: unlink_context c l'
  end.

(** [ffxDestroyContext]: the return code and the handle as it is left. *)
Definition ffxDestroyContext (handle : option ptr)
    (callbacks : option ffxAllocationCallbacks) : W (Z * option ptr) :=
  let! inside := in_callback in
  match handle with
  | None => mreturn (FFX_API_RETURN_ERROR_PARAMETER, handle)
  | Some c =>
    if (c =? NULL) || inside then mreturn (FFX_API_RETURN_ERROR_PARAMETER, handle)
    else
    acquire_contexts ;;;
    let! listed := mgets (fun w => bool_decide (c ∈ w_contexts w)) in
    let! ok := (if listed
                then let! x := getc c in
                     mreturn (negb (closing x) && matching_allocator x callbacks)
                else mreturn false) in
    if negb ok
    then release_contexts ;;; mreturn (FFX_API_RETURN_ERROR_PARAMETER, handle)
    else
    modc c (set_closing true) ;;;
    release_contexts ;;;
    acquire_configure c ;;;
    let! detach_result := detach_swapchain c in
    release_configure c ;;;
    let! x := getc c in
    if negb (swapchain x =? NULL)
    then reopen_context c ;;; mreturn (detach_result, handle)
    else
    wait_references c ;;;
    let! result := destroy_providers c in
    if negb (result =? FFX_API_RETURN_OK)
    then reopen_context c ;;; mreturn (result, handle)
    else
    acquire_contexts ;;;
    mmodify (fun w => set_w_contexts (unlink_context c (w_contexts w)) w) ;;;
    release_contexts ;;;
    free_context_storage c ;;;
    mreturn (detach_result, Some NULL)
  end.

(** ** Configure, query and dispatch entry points *)

Definition bad_debug_level (level : Z) : bool :=
  negb (level =? FFX_API_CONFIGURE_GLOBALDEBUG_LEVEL_SILENCE)
  && negb (level =? FFX_API_CONFIGURE_GLOBALDEBUG_LEVEL_ERRORS)
  && negb (level =? FFX_API_CONFIGURE_GLOBALDEBUG_LEVEL_WARNINGS)
  && negb (level =? FFX_API_CONFIGURE_GLOBALDEBUG_LEVEL_VERBOSE).

Definition configure_debug (handle : option ptr) (fpMessage : ptr) (debugLevel : Z)
    (pNext : list entry) : W Z :=
  if negb (bool_decide (pNext = [])) || bad_debug_level debugLevel
  then mreturn FFX_API_RETURN_ERROR_PARAMETER
  else
  let! c := acquire_context handle in
  if bool_decide (is_Some handle) && (c =? NULL) then mreturn FFX_API_RETURN_ERROR_PARAMETER
  else
  let! ok := have_native in
  let! result :=
    (if ok
     then let! orig := (if c =? NULL then mreturn NULL
                        else let! x := getc c in mreturn (original x)) in
          let! r := call_native (Ev_native_configure orig
                                   (C_GlobalDebug fpMessage debugLevel pNext)) in
          mreturn (rs_code r)
     else mreturn FFX_API_RETURN_OK) in
  mwhen (result =? FFX_API_RETURN_OK)
    (acquire_debug ;;;
     (if negb (c =? NULL)
      then modc c (set_message fpMessage) ;;; modc c (set_debug_level debugLevel)
      else mmodify (set_w_global_message fpMessage) ;;;
           mmodify (set_w_global_debug_level debugLevel)) ;;;
     release_debug) ;;;
  mwhen (negb (c =? NULL)) (release_context c) ;;;
  mreturn result.

Definition configure_chain (desc : configure_desc) : list entry :=
  match desc with
  | C_FrameGeneration d => cf_pNext d
  | C_GlobalDebug _ _ n | C_Other _ n => n
  end.

(** The provider switch of [ffxConfigure], under [configure_lock]. *)
Definition configure_context (c : ptr) (desc : configure_desc) : W Z :=
  let! x := getc c in
  if closing x then mreturn FFX_API_RETURN_ERROR_PARAMETER
  else if bool_decide (mode x = CONTEXT_SWAPCHAIN)
  then let! r := call_native (Ev_native_configure (original x) desc) in mreturn (rs_code r)
  else match desc with
  | C_FrameGeneration d => configure_frame_generation c d
  | _ =>
      if bool_decide (mode x = CONTEXT_NATIVE) || bool_decide (mode x = MODE_PENDING)
      then let! r := call_native (Ev_native_configure (original x) desc) in
           if (rs_code r =? FFX_API_RETURN_OK) && bool_decide (mode x = MODE_PENDING)
           then select_native c else mreturn (rs_code r)
      else mreturn FFX_API_RETURN_ERROR_UNKNOWN_DESCTYPE
  end.

(** [valid_chain] counts the descriptor itself. *)
Definition header_entry (t : Z) : entry := E_Other t.

Definition ffxConfigure (handle : option ptr) (desc : option configure_desc) : W Z :=
  match desc with
  | None => mreturn FFX_API_RETURN_ERROR_PARAMETER
  | Some desc =>
    if negb (valid_chain (header_entry 0 :: configure_chain desc))
    then mreturn FFX_API_RETURN_ERROR_PARAMETER
    else
    let! inside := in_callback in
    if inside then mreturn FFX_API_RETURN_ERROR_PARAMETER
    else match desc with
    | C_GlobalDebug m l n => configure_debug handle m l n
    | _ =>
      match handle with
      | None =>
          let! ok := have_native in
          if negb ok then mreturn FFX_API_RETURN_NO_PROVIDER
          else let! r := call_native (Ev_native_configure NULL desc) in mreturn (rs_code r)
      | Some _ =>
          let! c := acquire_context handle in
          if c =? NULL then mreturn FFX_API_RETURN_ERROR_PARAMETER
          else
          acquire_configure c ;;;
          let! result := configure_context c desc in
          release_configure c ;;;
          mwhen (negb (result =? FFX_API_RETURN_OK)) (report_validation c) ;;;
          release_context c ;;;
          mreturn result
      end
    end
  end.

Definition ffxDispatch (handle : option ptr) (desc : option dispatch_desc) : W Z :=
  match desc with
  | None => mreturn FFX_API_RETURN_ERROR_PARAMETER
  | Some desc =>
    if negb (valid_chain (header_entry (dispatch_type desc) :: dispatch_pNext desc))
    then mreturn FFX_API_RETURN_ERROR_PARAMETER
    else
    let! c := acquire_context handle in
    if c =? NULL then mreturn FFX_API_RETURN_ERROR_PARAMETER
    else
    let! x := getc c in
    let result := validate_public_dispatch x desc in
    let! result :=
      (if result =? FFX_API_RETURN_OK
       then let! inside := in_callback in
            if inside && (dispatch_type desc =?
                FFX_API_DISPATCH_DESC_TYPE_FRAMEGENERATIONSWAPCHAIN_WAIT_FOR_PRESENTS_DX12)
            then mreturn FFX_API_RETURN_ERROR_PARAMETER
            else dispatch_context c desc
       else mreturn result) in
    mwhen (negb (result =? FFX_API_RETURN_OK)) (report_validation c) ;;;
    release_context c ;;;
    mreturn result
  end.

(** ** Queries *)

(** The addresses of the two provider names. *)
Variable automatic_provider_name metalfx_provider_name : ptr.

(** What a query leaves with the caller. *)
Inductive query_result :=
| QR_none
| QR_versions (outputCount : Z) (versionIds versionNames : option (list Z))
| QR_provider (versionId : Z) (versionName : ptr)
| QR_native (data : list Z).

Definition native_query (orig : ptr) (desc : query_desc) : W (Z * query_result) :=
  let! r := call_native (Ev_native_query orig desc) in
  mreturn (rs_code r, QR_native (rs_data r)).

(** [array + 1], when there is room behind the first cell. *)
Definition array_tail (capacity : Z) (a : option (list Z)) : option (list Z) :=
  if 1 <? capacity then tail <$> a else None.

(** The caller's array after the native provider filled the cells behind the
    first and the module its own entry into the first. *)
Definition array_after (capacity own : Z) (native : list Z) (a : option (list Z)) :
    option (list Z) :=
  match a with
  | None => None
  | Some cells =>
      let behind := if 1 <? capacity then native else tail cells in
      Some (if negb (capacity =? 0) then own :: behind
            else match cells with [] => [] | h :: _ => h :: behind end)
  end.

(** The native provider is asked for its own versions with the array space
    behind the first cell; its answer carries the count and the two arrays of
    [native_capacity] cells. *)
Definition query_versions (createDescType : Z) (outputCount : option Z)
    (versionIds versionNames : option (list Z)) (pNext : list entry) :
    W (Z * query_result) :=
  if negb (createDescType =? FFX_API_CREATE_CONTEXT_DESC_TYPE_FRAMEGENERATION)
  then let! ok := have_native in
       if negb ok then mreturn (FFX_API_RETURN_NO_PROVIDER, QR_none)
       else native_query NULL (Q_GetVersions createDescType outputCount versionIds versionNames pNext)
  else if negb (bool_decide (pNext = []))
  then mreturn (FFX_API_RETURN_ERROR_UNKNOWN_DESCTYPE, QR_none)
  else match outputCount with
  | None => mreturn (FFX_API_RETURN_OK, QR_none)
  | Some capacity =>
      let! ok := have_native in
      if negb ok then mreturn (FFX_API_RETURN_NO_PROVIDER, QR_none)
      else
      let native_capacity := if 1 <? capacity then capacity - 1 else 0 in
      let! r := call_native (Ev_native_query NULL
                  (Q_GetVersions createDescType (Some native_capacity)
                     (array_tail capacity versionIds) (array_tail capacity versionNames) pNext)) in
      if negb (rs_code r =? FFX_API_RETURN_OK) then mreturn (rs_code r, QR_none)
      else
      let ids := take (Z.to_nat native_capacity) (rs_data r) in
      let names := drop (Z.to_nat native_capacity) (rs_data r) in
      mreturn (FFX_API_RETURN_OK,
               QR_versions (u64 (rs_value r + 1))
                 (array_after capacity AUTOMATIC_PROVIDER_ID ids versionIds)
                 (array_after capacity automatic_provider_name names versionNames))
  end.

Definition query_type (q : query_desc) : Z :=
  match q with
  | Q_GetVersions _ _ _ _ _ => FFX_API_QUERY_DESC_TYPE_GET_VERSIONS
  | Q_GetProviderVersion _ => FFX_API_QUERY_DESC_TYPE_GET_PROVIDER_VERSION
  | Q_Other t _ => t
  end.

Definition query_chain (q : query_desc) : list entry :=
  match q with
  | Q_GetVersions _ _ _ _ n | Q_GetProviderVersion n | Q_Other _ n => n
  end.

Definition is_memory_query (t : Z) : bool :=
  (t =? FFX_API_QUERY_DESC_TYPE_FRAMEGENERATION_GPU_MEMORY_USAGE)
  || (t =? FFX_API_QUERY_DESC_TYPE_FRAMEGENERATION_GPU_MEMORY_USAGE_V2).

(** A query on a context. *)
Definition query_context (c : ptr) (desc : query_desc) : W (Z * query_result) :=
  let! x := getc c in
  if negb (bool_decide (mode x = CONTEXT_METALFX)) && negb (bool_decide (mode x = MODE_PENDING))
  then native_query (original x) desc
  else match desc with
  | Q_GetProviderVersion pNext =>
      if negb (bool_decide (pNext = []))
      then mreturn (FFX_API_RETURN_ERROR_UNKNOWN_DESCTYPE, QR_none)
      else if bool_decide (mode x = MODE_PENDING)
      then mreturn (FFX_API_RETURN_OK, QR_provider AUTOMATIC_PROVIDER_ID automatic_provider_name)
      else mreturn (FFX_API_RETURN_OK, QR_provider METALFX_PROVIDER_ID metalfx_provider_name)
  | Q_GetVersions t n i s p => query_versions t n i s p
  | Q_Other t _ =>
      if is_memory_query t then mreturn (FFX_API_RETURN_ERROR_RUNTIME_ERROR, QR_none)
      else mreturn (FFX_API_RETURN_ERROR_UNKNOWN_DESCTYPE, QR_none)
  end.

Definition ffxQuery (handle : option ptr) (desc : option query_desc) : W (Z * query_result) :=
  match desc with
  | None => mreturn (FFX_API_RETURN_ERROR_PARAMETER, QR_none)
  | Some desc =>
    if negb (valid_chain (header_entry (query_type desc) :: query_chain desc))
    then mreturn (FFX_API_RETURN_ERROR_PARAMETER, QR_none)
    else match handle with
    | None =>
        match desc with
        | Q_GetVersions t n i s p => query_versions t n i s p
        | Q_GetProviderVersion _ => mreturn (FFX_API_RETURN_ERROR_PARAMETER, QR_none)
        | Q_Other t _ =>
            if is_memory_query t then mreturn (FFX_API_RETURN_ERROR_RUNTIME_ERROR, QR_none)
            else
            let! ok := have_native in
            if negb ok then mreturn (FFX_API_RETURN_NO_PROVIDER, QR_none)
            else native_query NULL desc
        end
    | Some _ =>
        let! c := acquire_context handle in
        if c =? NULL then mreturn (FFX_API_RETURN_ERROR_PARAMETER, QR_none)
        else
        let! r := query_context c desc in
        release_context c ;;;
        mreturn r
    end
  end.
End FrameGeneration.
