(* ===== verification/FrameGenConfigs.v ===== *)
(** * Frame configurations: selection, retirement, bounds

    The abstract contract of the per-context list of frame configurations: a
    frame uses the newest configuration at or below its ID; retiring a completed
    frame never changes what a later frame finds; the list holds one entry per
    frame ID and at most 64. *)

From stdpp Require Import base list gmap.
From Stdlib Require Import ZArith Lia.
From S2P Require Import Prelude.
From S2P Require Import FfxApi.
From S2P Require Import FrameGenState.

Open Scope Z_scope.

(** ** The abstract selection *)

(** [selects l id s]: [s] is the first entry of [l] with the greatest frame ID
    not above [id]. *)
Definition selects (l : list frame_config_snapshot) (id : Z) (s : frame_config_snapshot) : Prop :=
  exists l1 l2, l = l1 ++ s :: l2 /\ fs_frame_id s <= id
    /\ Forall (fun t => fs_frame_id t <= id -> fs_frame_id t < fs_frame_id s) l1
    /\ Forall (fun t => fs_frame_id t <= id -> fs_frame_id t <= fs_frame_id s) l2.

Definition selects_none (l : list frame_config_snapshot) (id : Z) : Prop :=
  Forall (fun t => id < fs_frame_id t) l.

(** The specification of a lookup. *)
Definition select_spec (l : list frame_config_snapshot) (id : Z)
    (r : option frame_config_snapshot) : Prop :=
  match r with
  | Some s => selects l id s
  | None => selects_none l id
  end.

Lemma selects_unique l id s t : selects l id s -> selects l id t -> s = t.
Proof.
  intros (l1 & l2 & -> & Hs & H1 & H2) (k1 & k2 & Heq & Ht & K1 & K2).
  rewrite Forall_forall in H1, H2, K1, K2.
  revert k1 Heq K1. induction l1 as [| a l1 IH]; intros [| b k1] Heq K1;
    injection Heq as Ha Heq; subst.
  - done.
  - assert (fs_frame_id b < fs_frame_id t) by (apply K1; [set_solver | done]).
    assert (fs_frame_id t <= fs_frame_id b) by (apply H2; [set_solver | done]). lia.
  - assert (fs_frame_id t < fs_frame_id s) by (apply H1; [set_solver | done]).
    assert (fs_frame_id s <= fs_frame_id t) by (apply K2; [set_solver | done]). lia.
  - apply (IH ltac:(set_solver) k1 Heq). set_solver.
Qed.

Lemma selects_not_none l id s : selects l id s -> selects_none l id -> False.
Proof.
  intros (l1 & l2 & -> & Hs & _) Hn. unfold selects_none in Hn.
  rewrite Forall_forall in Hn. specialize (Hn s). set_solver by lia.
Qed.

Lemma select_spec_unique l id r r' : select_spec l id r -> select_spec l id r' -> r = r'.
Proof.
  destruct r as [s|], r' as [t|]; simpl; intros H H'.
  - f_equal. by eapply selects_unique.
  - exfalso. by eapply selects_not_none.
  - exfalso. by eapply selects_not_none.
  - done.
Qed.

(** ** [find_frame_config] meets the specification *)

(** [best] is a valid running candidate for the prefix [pre]. *)
Lemma find_frame_config_from_spec pre best l id :
  Forall (fun t => fs_frame_id t <> id) pre ->
  select_spec pre id best ->
  select_spec (pre ++ l) id (find_frame_config_from best l id).
Proof.
  revert pre best. induction l as [| s l IH]; intros pre best Hne Hb; simpl.
  - by rewrite app_nil_r.
  - destruct (Z.eqb_spec (fs_frame_id s) id) as [E | E].
    + simpl. exists pre, l. repeat split; [lia | | by apply Forall_forall; lia].
      eapply Forall_impl; [exact Hne | simpl; lia].
    + replace (pre ++ s :: l) with ((pre ++ [s]) ++ l) by (by rewrite <- app_assoc).
      destruct (Z.ltb_spec (fs_frame_id s) id) as [L | L]; simpl.
      * destruct best as [b|]; simpl in *.
        -- destruct Hb as (p1 & p2 & -> & Hb & H1 & H2).
           destruct (Z.ltb_spec (fs_frame_id b) (fs_frame_id s)).
           ++ apply IH; [apply Forall_app; auto |]. simpl.
              exists (p1 ++ b :: p2), []. repeat split; [lia | | constructor].
              apply Forall_app; split; [eapply Forall_impl; [exact H1 | simpl; lia] |].
              constructor; [lia |]. eapply Forall_impl; [exact H2 | simpl; lia].
           ++ apply IH; [apply Forall_app; auto |]. simpl.
              exists p1, (p2 ++ [s]). rewrite <- app_assoc. repeat split; [done | done |].
              apply Forall_app; split; [done |]. constructor; [lia | constructor].
        -- apply IH; [apply Forall_app; auto |]. simpl.
           exists pre, []. repeat split; [lia | | constructor].
           unfold selects_none in Hb. eapply Forall_impl; [exact Hb | simpl; lia].
      * apply IH; [apply Forall_app; auto |]. destruct best as [b|]; simpl in *.
        -- destruct Hb as (p1 & p2 & -> & Hb & H1 & H2).
           exists p1, (p2 ++ [s]). rewrite <- app_assoc. repeat split; [done | done |].
           apply Forall_app; split; [done |]. constructor; [lia | constructor].
        -- apply Forall_app; split; [done |]. constructor; [lia | constructor].
Qed.

Lemma find_frame_config_selects l id : select_spec l id (find_frame_config l id).
Proof.
  apply (find_frame_config_from_spec [] None l id); simpl; constructor.
Qed.

Lemma find_frame_config_iff l id r : find_frame_config l id = r <-> select_spec l id r.
Proof.
  split; [intros <-; apply find_frame_config_selects |].
  intros H. eapply select_spec_unique; [apply find_frame_config_selects | done].
Qed.

(** ** Retirement *)

(** The floor of a retirement is what the completed frame selects. *)
Lemma retire_floor_spec pre floor l id :
  select_spec pre id floor -> select_spec (pre ++ l) id (retire_floor floor l id).
Proof.
  revert pre floor. induction l as [| s l IH]; intros pre floor Hf; simpl.
  - by rewrite app_nil_r.
  - replace (pre ++ s :: l) with ((pre ++ [s]) ++ l) by (by rewrite <- app_assoc).
    destruct (Z.leb_spec (fs_frame_id s) id) as [L | L]; simpl.
    + destruct floor as [b|]; simpl in *.
      * destruct Hf as (p1 & p2 & -> & Hb & H1 & H2).
        destruct (Z.ltb_spec (fs_frame_id b) (fs_frame_id s)); apply IH; simpl.
        -- exists (p1 ++ b :: p2), []. repeat split; [lia | | constructor].
           apply Forall_app; split; [eapply Forall_impl; [exact H1 | simpl; lia] |].
           constructor; [lia |]. eapply Forall_impl; [exact H2 | simpl; lia].
        -- exists p1, (p2 ++ [s]). rewrite <- app_assoc. repeat split; [done | done |].
           apply Forall_app; split; [done |]. constructor; [lia | constructor].
      * apply IH. exists pre, []. repeat split; [lia | | constructor].
        unfold selects_none in Hf. eapply Forall_impl; [exact Hf | simpl; lia].
    + apply IH. destruct floor as [b|]; simpl in *.
      * destruct Hf as (p1 & p2 & -> & Hb & H1 & H2).
        exists p1, (p2 ++ [s]). rewrite <- app_assoc. repeat split; [done | done |].
        apply Forall_app; split; [done |]. constructor; [lia | constructor].
      * apply Forall_app; split; [done |]. constructor; [lia | constructor].
Qed.

Lemma retire_floor_is_find l id : retire_floor None l id = find_frame_config l id.
Proof.
  eapply select_spec_unique; [| apply find_frame_config_selects].
  apply (retire_floor_spec [] None). constructor.
Qed.

Lemma retire_split_filter floor d l :
  retire_split floor d l =
  (filter (fun s => floor <= fs_frame_id s) l,
   reverse (filter (fun s => ~ floor <= fs_frame_id s) l) ++ d).
Proof.
  revert d. induction l as [| s l IH]; intros d; simpl; [done |].
  destruct (Z.leb_spec floor (fs_frame_id s)).
  - rewrite IH. simpl. rewrite filter_cons_True, filter_cons_False by lia. done.
  - rewrite IH, filter_cons_False, filter_cons_True by lia.
    rewrite reverse_cons, <- app_assoc. done.
Qed.

(** Everything older than what the completed frame selects goes; the rest stays
    in order. *)
Lemma retire_lists_spec l id :
  retire_lists l id =
  match find_frame_config l id with
  | Some f => (filter (fun s => fs_frame_id f <= fs_frame_id s) l,
               reverse (filter (fun s => ~ fs_frame_id f <= fs_frame_id s) l))
  | None => (l, [])
  end.
Proof.
  unfold retire_lists. rewrite retire_floor_is_find.
  destruct (find_frame_config l id); [| done].
  rewrite retire_split_filter, app_nil_r. done.
Qed.

Lemma retire_lists_permutation l id :
  (retire_lists l id).1 ++ (retire_lists l id).2 ≡ₚ l.
Proof.
  rewrite retire_lists_spec. destruct (find_frame_config l id) as [f|]; simpl.
  - rewrite reverse_Permutation. induction l as [| s l IH]; [done |].
    destruct (decide (fs_frame_id f <= fs_frame_id s)).
    + rewrite filter_cons_True, filter_cons_False by (done || tauto).
      simpl. by rewrite IH.
    + rewrite filter_cons_False, filter_cons_True by done.
      rewrite <- Permutation_middle. by rewrite IH.
  - by rewrite app_nil_r.
Qed.

(** Filtering away smaller entries keeps the selected one selected. *)
Lemma selects_filter f l id s :
  f <= fs_frame_id s -> selects l id s ->
  selects (filter (fun t => f <= fs_frame_id t) l) id s.
Proof.
  intros Hf (l1 & l2 & -> & Hs & H1 & H2).
  rewrite filter_app, filter_cons_True by done.
  eexists _, _. split; [done |]. split; [done |].
  split; apply Forall_forall; intros t [_ Ht]%list_elem_of_filter;
    rewrite Forall_forall in H1, H2; auto.
Qed.

(** ** The list in the context *)

(** [quiet w w']: only calls that leave the module happened. *)
Definition quiet (w w' : world) : Prop := exists t, w' = set_w_trace t w.

#[export] Instance quiet_preorder : PreOrder quiet.
Proof.
  split; [intros w; exists (w_trace w); by destruct w |].
  intros w1 w2 w3 [t1 ->] [t2 ->]. by exists t2.
Qed.

Lemma quiet_heap w w' : quiet w w' -> w_heap w' = w_heap w.
Proof. by intros [t ->]. Qed.
Lemma quiet_fault w w' : quiet w w' -> w_fault w' = w_fault w.
Proof. by intros [t ->]. Qed.

Section Store.
Variable respond : list (event * response) -> event -> response.

Lemma q_ext e : keeps quiet (ext respond e).
Proof. intros w. by eexists. Qed.
Hint Resolve q_ext : c_db.
Lemma q_release_resource r : keeps quiet (release_resource respond r).
Proof. unfold release_resource. keeps_auto. Qed.
Lemma q_retain_resource r : keeps quiet (retain_resource respond r).
Proof. unfold retain_resource. keeps_auto. Qed.
Lemma q_free_memory cb q : keeps quiet (free_memory respond cb q).
Proof. unfold free_memory. keeps_auto. Qed.
Lemma q_allocate_memory cb k : keeps quiet (allocate_memory respond cb k).
Proof. unfold allocate_memory. keeps_auto. Qed.
Lemma q_bridge_call pk : keeps quiet (bridge_call respond pk).
Proof. unfold bridge_call. keeps_auto. Qed.
Hint Resolve q_release_resource q_retain_resource q_free_memory q_allocate_memory
  q_bridge_call : c_db.
Lemma q_configure_translation x b : keeps quiet (configure_translation respond x b).
Proof. unfold configure_translation. keeps_auto. Qed.

Lemma getc_at c x w : w_heap w !! c = Some x -> getc c w = (x, w).
Proof. unfold getc. by intros ->. Qed.

Lemma modc_at c f x w :
  w_heap w !! c = Some x -> modc c f w = (tt, set_w_heap (<[c := f x]> (w_heap w)) w).
Proof. unfold modc. by intros ->. Qed.

Lemma release_frame_config_quiet c s x w :
  w_heap w !! c = Some x -> quiet w (release_frame_config respond c s w).2.
Proof.
  intros Hx. unfold release_frame_config. rewrite bind_run.
  pose proof (q_release_resource (fs_hudless s) w) as Q.
  etransitivity; [exact Q |]. apply quiet_heap in Q.
  rewrite bind_run, (getc_at c x) by (by rewrite Q). apply q_free_memory.
Qed.

Lemma release_frame_configs_quiet c l x w :
  w_heap w !! c = Some x -> quiet w (mfor (release_frame_config respond c) l w).2.
Proof.
  revert w. induction l as [| s l IH]; intros w Hx; simpl; [reflexivity |].
  rewrite bind_run. pose proof (release_frame_config_quiet c s x w Hx) as Q.
  etransitivity; [exact Q |]. apply IH. by rewrite (quiet_heap _ _ Q).
Qed.

(** The critical section: enter, read the context, update it, leave. *)
Definition lock_free (f : fg_context -> fg_context) : Prop :=
  forall v y, dispatch_lock (f y) = dispatch_lock y
              /\ f (set_dispatch_lock v y) = set_dispatch_lock v (f y).

Lemma enter_read {A} c x (h : fg_context -> W A) w :
  w_heap w !! c = Some x ->
  (enter_dispatch c ;;; mbind' (getc c) h) w
  = h (set_dispatch_lock (S (dispatch_lock x)) x) (enter_dispatch c w).2.
Proof.
  intros Hx. rewrite !bind_run. unfold enter_dispatch. rewrite (modc_at c _ x) by done.
  cbn [fst snd]. erewrite getc_at by (simpl; apply lookup_insert_eq). done.
Qed.

Lemma update_leave {A} c x f (k : W A) w :
  lock_free f -> w_heap w !! c = Some x ->
  (modc c f ;;; leave_dispatch c ;;; k) (enter_dispatch c w).2
  = k (set_w_heap (<[c := f x]> (w_heap w)) w).
Proof.
  intros Hf Hx. unfold enter_dispatch. rewrite (modc_at c _ x) by done.
  cbn [fst snd]. rewrite bind_run. erewrite modc_at by (simpl; apply lookup_insert_eq).
  cbn [fst snd]. simpl. rewrite insert_insert_eq, bind_run. unfold leave_dispatch.
  rewrite bind_run.
  rewrite (getc_at c (f (set_dispatch_lock (S (dispatch_lock x)) x)))
    by (simpl; apply lookup_insert_eq).
  cbn [fst snd]. rewrite (proj2 (Hf _ _)). cbn [dispatch_lock set_dispatch_lock].
  erewrite modc_at by (simpl; apply lookup_insert_eq). simpl. rewrite insert_insert_eq.
  replace (set_dispatch_lock (dispatch_lock x) (set_dispatch_lock (S (dispatch_lock x)) (f x)))
    with (f x); [by destruct w |].
  rewrite <- (proj1 (Hf 0%nat x)). by destruct (f x).
Qed.

Lemma updated_same c x w : w_heap w !! c = Some x -> set_w_heap (<[c := x]> (w_heap w)) w = w.
Proof. intros Hx. rewrite insert_id by done. by destruct w. Qed.

Lemma just_leave {A} c x (k : W A) w :
  w_heap w !! c = Some x -> (leave_dispatch c ;;; k) (enter_dispatch c w).2 = k w.
Proof.
  intros Hx. rewrite <- (updated_same c x w Hx) at 2.
  etransitivity; [| exact (update_leave c x id k w ltac:(done) Hx)].
  rewrite bind_run, (bind_run (modc c id)).
  replace (modc c id (enter_dispatch c w).2).2 with (enter_dispatch c w).2; [done |].
  unfold enter_dispatch. rewrite (modc_at c _ x w) by done.
  erewrite modc_at by (simpl; apply lookup_insert_eq). simpl. by rewrite insert_insert_eq.
Qed.

(** Two assignments in a row are one. *)
Lemma modc_modc {A} c f g (k : W A) w :
  (modc c f ;;; modc c g ;;; k) w = (modc c (fun x => g (f x)) ;;; k) w.
Proof.
  rewrite !bind_run. unfold modc. destruct (w_heap w !! c) as [x|] eqn:E; simpl.
  - rewrite lookup_insert_eq. simpl. rewrite insert_insert_eq. by destruct w.
  - rewrite E. by destruct w.
Qed.

Lemma quiet_updated c y w w1 :
  quiet w w1 ->
  quiet (set_w_heap (<[c := y]> (w_heap w)) w) (set_w_heap (<[c := y]> (w_heap w1)) w1).
Proof. intros [t ->]. by exists t. Qed.

(** A context whose frame configurations have been dropped. *)
Definition cleared (x : fg_context) : fg_context :=
  set_have_last_prepare_frame_id false (set_frame_configs [] x).

Definition updated (c : ptr) (x : fg_context) (w : world) : world :=
  set_w_heap (<[c := x]> (w_heap w)) w.

Lemma updated_lookup c x w : w_heap (updated c x w) !! c = Some x.
Proof. apply lookup_insert_eq. Qed.

Lemma clear_effect c x w :
  w_heap w !! c = Some x ->
  quiet (updated c (cleared x) w) (clear_frame_configs respond c w).2.
Proof.
  intros Hx. unfold clear_frame_configs. rewrite (enter_read c x) by done.
  rewrite modc_modc, (update_leave c x) by (done || by intros).
  apply (release_frame_configs_quiet _ _ (cleared x)), updated_lookup.
Qed.

Definition retired (id : Z) (x : fg_context) : fg_context :=
  set_frame_configs (retire_lists (frame_configs x) id).1 x.

Lemma retire_effect c id x w :
  w_heap w !! c = Some x ->
  quiet (updated c (retired id x) w) (retire_frame_configs respond c id w).2.
Proof.
  intros Hx. unfold retire_frame_configs. rewrite (enter_read c x) by done.
  cbv zeta. cbn [frame_configs set_dispatch_lock]. rewrite (update_leave c x) by (done || by intros).
  apply (release_frame_configs_quiet _ _ (retired id x)), updated_lookup.
Qed.

(** What [snapshot_frame_config] returns and the list it leaves, given the block the
    allocator hands out. *)
Definition snapshot_outcome (l : list frame_config_snapshot)
    (d : ffxConfigureDescFrameGeneration) (p : ptr) : Z * list frame_config_snapshot :=
  if negb (frameGenerationEnabled d) then (FFX_API_RETURN_OK, l)
  else if p =? NULL then (FFX_API_RETURN_ERROR_MEMORY, l)
  else let s := mkSnapshot p (frameID d) (HUDLessColor d) in
       match replace_frame_config s l with
       | Some (_, l') => (FFX_API_RETURN_OK, l')
       | None => if 64 <=? Z.of_nat (length l) then (FFX_API_RETURN_ERROR_RUNTIME_ERROR, l)
                 else (FFX_API_RETURN_OK, s :: l)
       end.

Lemma set_frame_configs_same x : set_frame_configs (frame_configs x) x = x.
Proof. by destruct x. Qed.

Lemma quiet_unchanged c x w w' :
  w_heap w !! c = Some x -> quiet w w' ->
  quiet (updated c (set_frame_configs (frame_configs x) x) w) w'.
Proof. intros Hx H. rewrite set_frame_configs_same. unfold updated. by rewrite updated_same. Qed.

Lemma retain_resource_fst r w : (retain_resource respond r w).1 = r.
Proof. done. Qed.

Definition snapshot_block (x : fg_context) (w : world) : ptr :=
  (allocate_memory respond (context_allocator x) SzSnapshot w).1.

Lemma snapshot_effect c d x w :
  w_heap w !! c = Some x ->
  let o := snapshot_outcome (frame_configs x) d (snapshot_block x w) in
  (snapshot_frame_config respond c d w).1 = o.1
  /\ quiet (updated c (set_frame_configs o.2 x) w) (snapshot_frame_config respond c d w).2.
Proof.
  intros Hx. unfold snapshot_frame_config, snapshot_outcome, snapshot_block.
  destruct (negb (frameGenerationEnabled d));
    [split; [done |]; by apply quiet_unchanged |].
  rewrite bind_run, (getc_at c x) by done. cbn [fst snd]. rewrite bind_run.
  pose proof (q_allocate_memory (context_allocator x) SzSnapshot w) as Q.
  set (r := allocate_memory _ _ _ w) in *.
  destruct (r.1 =? NULL); [split; [done |]; by apply quiet_unchanged |].
  rewrite bind_run, retain_resource_fst.
  assert (Q1 : quiet w (retain_resource respond (HUDLessColor d) r.2).2)
    by (etransitivity; [exact Q | apply q_retain_resource]).
  set (w1 := (retain_resource respond (HUDLessColor d) r.2).2) in *.
  assert (H1 : w_heap w1 !! c = Some x) by (by rewrite (quiet_heap _ _ Q1)).
  rewrite (enter_read c x) by done. cbn [frame_configs set_dispatch_lock].
  destruct (replace_frame_config _ _) as [[old l]|].
  - rewrite (update_leave c x) by (done || by intros). split; [done |].
    etransitivity; [apply (quiet_updated c _ w w1 Q1) |].
    rewrite bind_run. by eapply release_frame_config_quiet, updated_lookup.
  - destruct (64 <=? _).
    + rewrite (just_leave c x) by done. split; [done |]. apply quiet_unchanged; [done |].
      etransitivity; [exact Q1 |]. rewrite bind_run. by eapply release_frame_config_quiet.
    + rewrite (update_leave c x) by (done || by intros). split; [done |].
      apply (quiet_updated c _ w w1 Q1).
Qed.
End Store.

(** C1: [find_frame_config] returns the first entry with the greatest frame ID
    not above the one asked for, and nothing exactly when every entry is newer. *)
Theorem find_frame_config_correct (l : list frame_config_snapshot) (id : Z)
    (r : option frame_config_snapshot) :
  find_frame_config l id = r <-> select_spec l id r.
Proof. apply find_frame_config_iff. Qed.

(** C2: [retire_frame_configs] keeps every later selection: after the
    configurations of a completed frame are retired, any frame ID at or above it
    still finds the configuration it would have found before. *)
Theorem retire_preserves_later_selection (l : list frame_config_snapshot) (id id' : Z)
    (Hle : id <= id') :
  find_frame_config (retire_lists l id).1 id' = find_frame_config l id'.
Proof.
  rewrite retire_lists_spec. destruct (find_frame_config l id) as [f|] eqn:Hf; [| done].
  simpl. apply find_frame_config_iff in Hf. simpl in Hf.
  pose proof (find_frame_config_selects l id') as Hs.
  destruct (find_frame_config l id') as [s|]; simpl in Hs.
  - apply find_frame_config_iff. simpl. apply selects_filter; [| done].
    destruct Hs as (l1 & l2 & Hl & Hs & H1 & H2), Hf as (k1 & k2 & -> & Hf & _ & _).
    assert (Hin : f ∈ l1 ++ s :: l2) by (rewrite <- Hl; set_solver).
    rewrite Forall_forall in H1, H2.
    apply elem_of_app in Hin as [Hin | Hin]; [specialize (H1 _ Hin); lia |].
    apply elem_of_cons in Hin as [-> | Hin]; [lia | specialize (H2 _ Hin); lia].
  - exfalso. destruct Hf as (k1 & k2 & -> & Hf & _ & _).
    unfold selects_none in Hs. rewrite Forall_forall in Hs.
    specialize (Hs f ltac:(set_solver)). lia.
Qed.

Definition example_configs : list frame_config_snapshot :=
  [mkSnapshot 1 9 null_resource; mkSnapshot 2 3 null_resource; mkSnapshot 3 5 null_resource].

Lemma retire_preserves_later_selection_witness :
  find_frame_config (retire_lists example_configs 6).1 7 = find_frame_config example_configs 7
  /\ (retire_lists example_configs 6).2 = [mkSnapshot 2 3 null_resource].
Proof.
  split; [apply (retire_preserves_later_selection example_configs 6 7); lia | reflexivity].
Defined.
