(* ===== verification/FrameGenSteps.v ===== *)
(** * Frame generation: footprints

    Every function of the module is a sequence of primitive steps: a call that
    leaves the module, an assignment to a context, a lock operation.  [steps P]
    is the reachability by steps whose label satisfies [P]; a lemma
    [keeps (steps P) f] bounds the footprint of [f], and the properties of the
    component follow from footprints by induction on the steps. *)

From stdpp Require Import base list gmap relations.
From Stdlib Require Import ZArith Lia.
From S2P Require Import Prelude.
From S2P Require Import FfxApi.
From S2P Require Import FrameGenState.
From S2P Require Import FrameGen.

Open Scope Z_scope.

Inductive label :=
| L_ext (e : event) (r : response)
| L_fault
| L_modc (c : ptr) (f : fg_context -> fg_context)
| L_putc (c : ptr) (x : fg_context)
| L_delc (c : ptr)
| L_contexts (f : list ptr -> list ptr)
| L_contexts_lock (b : bool)
| L_debug_lock (b : bool)
| L_tls (f : list ptr -> list ptr)
| L_native
| L_message (m : ptr)
| L_level (l : Z).

Definition effect (l : label) (w : world) : world :=
  match l with
  | L_ext e r => set_w_trace ((e, r) :: w_trace w) w
  | L_fault => set_w_fault true w
  | L_modc c f => match w_heap w !! c with
                  | Some x => set_w_heap (<[c := f x]> (w_heap w)) w
                  | None => w
                  end
  | L_putc c x => set_w_heap (<[c := x]> (w_heap w)) w
  | L_delc c => set_w_heap (delete c (w_heap w)) w
  | L_contexts f => set_w_contexts (f (w_contexts w)) w
  | L_contexts_lock b => set_w_contexts_lock b w
  | L_debug_lock b => set_w_debug_lock b w
  | L_tls f => set_w_callback_tls (f <$> w_callback_tls w) w
  | L_native => set_w_native true w
  | L_message m => set_w_global_message m w
  | L_level l => set_w_global_debug_level l w
  end.

Definition step (P : label -> Prop) (w w' : world) : Prop :=
  exists l, P l /\ w' = effect l w.

Definition steps (P : label -> Prop) : world -> world -> Prop := rtc (step P).

#[export] Instance steps_preorder P : PreOrder (steps P).
Proof. unfold steps. apply _. Qed.

Lemma steps_one (P : label -> Prop) l w : P l -> steps P w (effect l w).
Proof. intros H. apply rtc_once. by exists l. Qed.

Lemma steps_mono (P Q : label -> Prop) w w' :
  (forall l, P l -> Q l) -> steps P w w' -> steps Q w w'.
Proof.
  intros HPQ. induction 1 as [| ? ? ? (l & Hl & ->) _ IH]; [reflexivity |].
  etransitivity; [| exact IH]. apply steps_one. auto.
Qed.

(** An invariant of every allowed step is an invariant of [steps]. *)
Lemma steps_invariant (P : label -> Prop) (I : world -> Prop) w w' :
  (forall l w, P l -> I w -> I (effect l w)) -> steps P w w' -> I w -> I w'.
Proof.
  intros HI. induction 1 as [| ? ? ? (l & Hl & ->) _ IH]; [done | eauto].
Qed.

(** A relation that contains every allowed step contains [steps]. *)
Lemma steps_relation (P : label -> Prop) (R : world -> world -> Prop) `{!PreOrder R} w w' :
  (forall l w, P l -> R w (effect l w)) -> steps P w w' -> R w w'.
Proof.
  intros HR. induction 1 as [| ? ? ? (l & Hl & ->) _ IH]; [reflexivity |].
  etransitivity; [by apply HR | done].
Qed.

Lemma keeps_mono {A} (P Q : label -> Prop) (m : W A) :
  (forall l, P l -> Q l) -> keeps (steps P) m -> keeps (steps Q) m.
Proof. intros H K w. by apply (steps_mono P Q), K. Qed.

(** ** Kinds of labels *)

(** Memory, COM references and the swapchain object. *)
Definition mem_event (e : event) : Prop :=
  match e with
  | Ev_callback_alloc _ _ _ | Ev_callback_free _ _ _ | Ev_malloc _ | Ev_free _
  | Ev_AddRef _ | Ev_Release _ | Ev_swapchain_Release _ | Ev_QueryInterface _
  | Ev_set_config _ _ | Ev_wait_for_presents _ | Ev_message _ _ | Ev_sleep _ => True
  | _ => False
  end.

(** Loading the vendor DLL. *)
Definition load_event (e : event) : Prop :=
  match e with
  | Ev_getenv | Ev_LoadLibrary _ | Ev_FreeLibrary _ | Ev_GetProcAddress _ _ => True
  | _ => False
  end.

(** Calls into the vendor DLL, other than dispatches. *)
Definition vendor_event (e : event) : Prop :=
  match e with
  | Ev_native_create _ _ | Ev_native_destroy _ _ | Ev_native_configure _ _
  | Ev_native_query _ _ => True
  | _ => False
  end.

Definition vendor_dispatch (e : event) : Prop :=
  match e with Ev_native_dispatch _ _ => True | _ => False end.

Definition bridge_event (e : event) : Prop :=
  match e with Ev_bridge _ => True | _ => False end.

(** An assignment that does not select a provider. *)
Definition plain (f : fg_context -> fg_context) : Prop := forall x, mode (f x) = mode x.

Section Footprints.
Variable respond : list (event * response) -> event -> response.
Variable builtin_instance : Z.
Variable present_callback_addr generation_callback_addr : ptr.

(** A set of labels that has the steps every function may take. *)
Variable P : label -> Prop.
Hypothesis P_fault : P L_fault.
Hypothesis P_clock : forall b, P (L_contexts_lock b).
Hypothesis P_dlock : forall b, P (L_debug_lock b).
Hypothesis P_modc : forall c f, plain f -> P (L_modc c f).
Hypothesis P_mem : forall e r, mem_event e -> P (L_ext e r).

Lemma k_ext e : (forall r, P (L_ext e r)) -> keeps (steps P) (ext respond e).
Proof. intros H w. unfold ext. simpl. by apply (steps_one P (L_ext e _)). Qed.

Lemma k_ext_mem e : mem_event e -> keeps (steps P) (ext respond e).
Proof. intros H. apply k_ext. auto. Qed.

Lemma k_fault : keeps (steps P) fault.
Proof. intros w. by apply (steps_one P L_fault). Qed.

Lemma k_getc c : keeps (steps P) (getc c).
Proof.
  intros w. unfold getc. destruct (w_heap w !! c); simpl; [reflexivity |].
  by apply (steps_one P L_fault).
Qed.

Lemma k_modc_label c f : P (L_modc c f) -> keeps (steps P) (modc c f).
Proof.
  intros H w. unfold modc. destruct (w_heap w !! c) eqn:E; simpl.
  - pose proof (steps_one P (L_modc c f) w H) as K. simpl in K. by rewrite E in K.
  - by apply (steps_one P L_fault).
Qed.

Lemma k_modc c f : plain f -> keeps (steps P) (modc c f).
Proof. intros H. apply k_modc_label. auto. Qed.

Lemma k_acquire_contexts : keeps (steps P) acquire_contexts.
Proof.
  intros w. unfold acquire_contexts. simpl. destruct (w_contexts_lock w).
  - by apply (steps_one P L_fault).
  - by apply (steps_one P (L_contexts_lock true)).
Qed.

Lemma k_release_contexts : keeps (steps P) release_contexts.
Proof.
  intros w. unfold release_contexts. simpl. destruct (w_contexts_lock w).
  - by apply (steps_one P (L_contexts_lock false)).
  - by apply (steps_one P L_fault).
Qed.

Lemma k_acquire_debug : keeps (steps P) acquire_debug.
Proof.
  intros w. unfold acquire_debug. simpl. destruct (w_debug_lock w).
  - by apply (steps_one P L_fault).
  - by apply (steps_one P (L_debug_lock true)).
Qed.

Lemma k_release_debug : keeps (steps P) release_debug.
Proof.
  intros w. unfold release_debug. simpl. destruct (w_debug_lock w).
  - by apply (steps_one P (L_debug_lock false)).
  - by apply (steps_one P L_fault).
Qed.

Hint Resolve k_ext_mem k_fault k_getc k_modc k_acquire_contexts k_release_contexts
  k_acquire_debug k_release_debug : c_db.
Hint Extern 1 (plain _) => intros ?; reflexivity : c_db.
Hint Extern 1 (mem_event _) => exact I : c_db.

Ltac k_fun f := intros; unfold f; keeps_auto.

Lemma k_acquire_configure c : keeps (steps P) (acquire_configure c).
Proof. k_fun acquire_configure. Qed.
Lemma k_release_configure c : keeps (steps P) (release_configure c).
Proof. k_fun release_configure. Qed.
Lemma k_enter_dispatch c : keeps (steps P) (enter_dispatch c).
Proof. k_fun enter_dispatch. Qed.
Lemma k_leave_dispatch c : keeps (steps P) (leave_dispatch c).
Proof. k_fun leave_dispatch. Qed.
Hint Resolve k_acquire_configure k_release_configure k_enter_dispatch k_leave_dispatch : c_db.

Lemma k_allocate_memory cb k : keeps (steps P) (allocate_memory respond cb k).
Proof. k_fun allocate_memory. Qed.
Lemma k_free_memory cb p : keeps (steps P) (free_memory respond cb p).
Proof. k_fun free_memory. Qed.
Lemma k_release_resource r : keeps (steps P) (release_resource respond r).
Proof. k_fun release_resource. Qed.
Lemma k_retain_resource r : keeps (steps P) (retain_resource respond r).
Proof. k_fun retain_resource. Qed.
Hint Resolve k_allocate_memory k_free_memory k_release_resource k_retain_resource : c_db.

Lemma k_release_frame_config c s : keeps (steps P) (release_frame_config respond c s).
Proof. k_fun release_frame_config. Qed.
Hint Resolve k_release_frame_config : c_db.

Lemma k_snapshot c d : keeps (steps P) (snapshot_frame_config respond c d).
Proof. k_fun snapshot_frame_config. Qed.
Lemma k_retire c id : keeps (steps P) (retire_frame_configs respond c id).
Proof. k_fun retire_frame_configs. Qed.
Lemma k_clear c : keeps (steps P) (clear_frame_configs respond c).
Proof. k_fun clear_frame_configs. Qed.
Lemma k_store c d : keeps (steps P) (store_native_config respond c d).
Proof. k_fun store_native_config. Qed.
Lemma k_report c : keeps (steps P) (report_validation respond c).
Proof. k_fun report_validation. intros w. reflexivity. Qed.
Lemma k_acquire_context h : keeps (steps P) (acquire_context h).
Proof. k_fun acquire_context. Qed.
Lemma k_release_context c : keeps (steps P) (release_context c).
Proof. k_fun release_context. Qed.
Lemma k_release_swapchain s : keeps (steps P) (release_swapchain respond s).
Proof. k_fun release_swapchain. Qed.
Lemma k_get_stable_swapchain s : keeps (steps P) (get_stable_swapchain respond s).
Proof. k_fun get_stable_swapchain. Qed.
Lemma k_claim_swapchain c s : keeps (steps P) (claim_swapchain c s).
Proof. k_fun claim_swapchain. Qed.
Lemma k_clear_claim c : keeps (steps P) (clear_swapchain_claim c).
Proof. k_fun clear_swapchain_claim. Qed.
Lemma k_in_callback : keeps (steps P) in_callback.
Proof. k_fun in_callback. Qed.
Hint Resolve k_snapshot k_retire k_clear k_store k_report k_acquire_context
  k_release_context k_release_swapchain k_get_stable_swapchain k_claim_swapchain
  k_clear_claim k_in_callback : c_db.

Lemma k_drop_claim c s b : keeps (steps P) (drop_claim respond c s b).
Proof. k_fun drop_claim. Qed.
Lemma k_drop_binding c ch b : keeps (steps P) (drop_binding respond c ch b).
Proof. k_fun drop_binding. Qed.
Hint Resolve k_drop_claim k_drop_binding : c_db.

Ltac k_ext_by H := apply k_ext; intros; apply H; try exact I; eauto.

Lemma k_bridge_call p :
  (forall r, P (L_ext (Ev_bridge p) r)) -> keeps (steps P) (bridge_call respond p).
Proof. intros H. unfold bridge_call. keeps_step; [by apply k_ext |]. keeps_auto. Qed.

(** Prepare and Generate packets. *)
Lemma k_translated_dispatch c d n :
  (forall h p r, P (L_ext (Ev_bridge (P_Dispatch h p)) r)) ->
  keeps (steps P) (translated_dispatch respond c d n).
Proof. intros H. unfold translated_dispatch. keeps_auto. apply k_bridge_call. auto. Qed.

Lemma k_translated_prepare c d :
  (forall h p r, P (L_ext (Ev_bridge (P_Prepare h p)) r)) ->
  keeps (steps P) (translated_prepare respond c d).
Proof. intros H. unfold translated_prepare. keeps_auto. apply k_bridge_call. auto. Qed.

Lemma k_destroy_translation x :
  (forall h r, P (L_ext (Ev_bridge (P_Destroy h)) r)) ->
  keeps (steps P) (destroy_translation respond x).
Proof. intros H. unfold destroy_translation. keeps_auto. apply k_bridge_call. auto. Qed.

Lemma k_call_native e :
  (forall r, P (L_ext e r)) -> keeps (steps P) (call_native respond e).
Proof. intros H. unfold call_native. keeps_auto. by apply k_ext. Qed.

(** Loading the vendor DLL. *)
Lemma k_have_native :
  P L_native -> (forall e r, load_event e -> P (L_ext e r)) ->
  keeps (steps P) (have_native respond builtin_instance).
Proof.
  intros Hn Hl. unfold have_native, initialize_native. keeps_auto; try (k_ext_by Hl).
  intros w. by apply (steps_one P L_native).
Qed.

(** Configuration: Configure packets, and the vendor's own configuration. *)
Section Configure.
Hypothesis P_bconf : forall h b r, P (L_ext (Ev_bridge (P_Configure h b)) r).
Hypothesis P_vconf : forall o d r, P (L_ext (Ev_native_configure o d) r).

Lemma k_configure_translation x b : keeps (steps P) (configure_translation respond x b).
Proof. unfold configure_translation. keeps_auto. apply k_bridge_call. auto. Qed.
Lemma k_vendor_configure o d : keeps (steps P) (call_native respond (Ev_native_configure o d)).
Proof. apply k_call_native. auto. Qed.
Hint Resolve k_configure_translation k_vendor_configure : c_db.

Lemma k_configure_translated c s d b ch nc :
  keeps (steps P) (configure_translated respond present_callback_addr
                     generation_callback_addr c s d b ch nc).
Proof. k_fun configure_translated. Qed.
Lemma k_detach_native x : keeps (steps P) (detach_native respond x).
Proof. k_fun detach_native. Qed.
Lemma k_detach_drained c s r : keeps (steps P) (detach_drained respond c s r).
Proof. k_fun detach_drained. Qed.
Hint Resolve k_configure_translated k_detach_native k_detach_drained : c_db.
Lemma k_detach_swapchain c : keeps (steps P) (detach_swapchain respond c).
Proof. k_fun detach_swapchain. Qed.
Hint Resolve k_detach_swapchain : c_db.
Lemma k_configure_without_swapchain c d :
  keeps (steps P) (configure_without_swapchain respond c d).
Proof. k_fun configure_without_swapchain. Qed.
Lemma k_configure_with_swapchain c s d :
  keeps (steps P) (configure_with_swapchain respond present_callback_addr
                     generation_callback_addr c s d).
Proof. k_fun configure_with_swapchain. Qed.
Hint Resolve k_configure_without_swapchain k_configure_with_swapchain : c_db.
Lemma k_configure_decided c d :
  keeps (steps P) (configure_decided respond present_callback_addr
                     generation_callback_addr c d).
Proof. k_fun configure_decided. Qed.
Hint Resolve k_configure_decided : c_db.

Lemma k_configure_body sel c d :
  (forall c, keeps (steps P) (sel c)) ->
  keeps (steps P) (configure_body respond present_callback_addr
                     generation_callback_addr sel c d).
Proof. k_fun configure_body. Qed.

Lemma k_configure_selected c d :
  keeps (steps P) (configure_selected respond present_callback_addr
                     generation_callback_addr c d).
Proof. apply k_configure_body. intros. keeps_auto. Qed.
Hint Resolve k_configure_selected : c_db.

(** With provider selection among the steps, the whole configuration. *)
Section Select.
Hypothesis P_select : forall c m, P (L_modc c (set_mode m)).

Lemma k_select_native c :
  keeps (steps P) (select_native respond present_callback_addr
                     generation_callback_addr c).
Proof.
  unfold select_native, select_native_body. keeps_auto. by apply k_modc_label.
Qed.
Lemma k_configure_frame_generation c d :
  keeps (steps P) (configure_frame_generation respond present_callback_addr
                     generation_callback_addr c d).
Proof. apply k_configure_body. intros. apply k_select_native. Qed.
End Select.
End Configure.
End Footprints.

(** ** What footprints say about the trace and the contexts *)

(** The calls made between two states, newest first. *)
Definition calls_between (w w' : world) (l : list (event * response)) : Prop :=
  w_trace w' = l ++ w_trace w.

Lemma steps_calls (P : label -> Prop) w w' :
  steps P w w' ->
  exists l, calls_between w w' l /\ Forall (fun er => P (L_ext er.1 er.2)) l.
Proof.
  induction 1 as [| w1 w2 w3 (l & Hl & ->) _ (k & Hk & IH)]; [by exists [] |].
  unfold calls_between in *.
  destruct l; simpl in *; try (by exists k).
  - exists (k ++ [(e, r)]). rewrite <- app_assoc. split; [done |].
    apply Forall_app. auto.
  - destruct (w_heap w1 !! c); simpl in *; by exists k.
Qed.

Lemma calls_between_trans w1 w2 w3 l l' :
  calls_between w1 w2 l -> calls_between w2 w3 l' -> calls_between w1 w3 (l' ++ l).
Proof. unfold calls_between. intros H1 H2. rewrite <- app_assoc, <- H1. exact H2. Qed.

(** ** Goals at one state *)

Lemma goes_bind {A B} (R : world -> world -> Prop) `{!Transitive R} (m : W A) (k : A -> W B) w :
  R w (m w).2 -> R (m w).2 (k (m w).1 (m w).2).2 -> R w (mbind' m k w).2.
Proof. intros H1 H2. unfold mbind'. by transitivity (m w).2. Qed.

Lemma getc_some c x w : w_heap w !! c = Some x -> getc c w = (x, w).
Proof. intros H. unfold getc. by rewrite H. Qed.

Lemma modc_some c f x w :
  w_heap w !! c = Some x -> modc c f w = (tt, set_w_heap (<[c := f x]> (w_heap w)) w).
Proof. intros H. unfold modc. by rewrite H. Qed.
