(* ===== verification/FrameGenChain.v ===== *)
(** * Frame generation: properties of every operation

    A relation between the states before and after that holds of each part the
    module is composed of holds of each API call.  [plain_parts R] lists the primitives that
    leave the swapchains of contexts alone, [composes R] adds the three functions that
    do not; the rest of the file carries [R] through the functions of [main.c] once and
    for all.  [fine_parts R] lists what makes those three functions keep a relation that does
    not look at swapchains. *)

From stdpp Require Import base list gmap relations.
From Stdlib Require Import ZArith Lia.
From S2P Require Import Prelude.
From S2P Require Import FfxApi.
From S2P Require Import FrameGenState.
From S2P Require Import FrameGen.

Open Scope Z_scope.

(** An assignment that leaves the referenced objects of a context alone. *)
Definition benign (f : fg_context -> fg_context) : Prop :=
  forall x, frame_configs (f x) = frame_configs x /\ hudless (f x) = hudless x
            /\ device (f x) = device x /\ swapchain (f x) = swapchain x.

(** A call that changes no reference count of an application object. *)
Definition neutral (e : event) : Prop :=
  match e with
  | Ev_AddRef _ | Ev_Release _ | Ev_QueryInterface _ | Ev_swapchain_Release _ => False
  | _ => True
  end.

(** Assignments to the process-wide variables. *)
Definition global_update (f : world -> world) : Prop :=
  forall w, w_trace (f w) = w_trace w /\ w_heap (f w) = w_heap w /\ w_fault (f w) = w_fault w.

(** A proposition the positivity check of a record does not unfold. *)
Inductive sealed (P : Prop) : Prop := Sealed : P -> sealed P.

Lemma unseal P : sealed P -> P.
Proof. by intros []. Qed.

(** A new block is not one of the live contexts. *)
Definition fresh_block (respond : list (event * response) -> event -> response)
    (cb : option ffxAllocationCallbacks) (w : world) : Prop :=
  w_heap w !! (allocate_memory respond cb SzContext w).1 = None.

Class plain_parts (respond : list (event * response) -> event -> response)
    (R : world -> world -> Prop) : Prop := {
  co_preorder : PreOrder R;
  co_ext : forall e, neutral e -> keeps R (ext respond e);
  co_fault : keeps R fault;
  co_getc : forall c, keeps R (getc c);
  co_modc : forall c f, benign f -> keeps R (modc c f);
  co_global : forall f, global_update f -> keeps R (mmodify f);
  co_acquire_contexts : keeps R acquire_contexts;
  co_release_contexts : keeps R release_contexts;
  co_acquire_debug : keeps R acquire_debug;
  co_release_debug : keeps R release_debug;
  co_snapshot : forall c d, keeps R (snapshot_frame_config respond c d);
  co_retire : forall c id, keeps R (retire_frame_configs respond c id);
  co_clear : forall c, keeps R (clear_frame_configs respond c);
  co_store : forall c d, keeps R (store_native_config respond c d) }.

#[export] Existing Instance co_preorder.

Class composes (respond : list (event * response) -> event -> response)
    (R : world -> world -> Prop) : Prop := {
  co_plain :: plain_parts respond R;
  co_configure_decided_sealed : forall pa ga c d,
    sealed (keeps R (configure_decided respond pa ga c d));
  co_create_sealed : forall instance out desc cb w, fresh_block respond cb w ->
    sealed (R w (ffxCreateContext respond instance out desc cb w).2);
  co_destroy_sealed : forall h cb, sealed (keeps R (ffxDestroyContext respond h cb)) }.

Class fine_parts (respond : list (event * response) -> event -> response)
    (R : world -> world -> Prop) : Prop := {
  fi_plain :: plain_parts respond R;
  fi_query : forall o, keeps R (ext respond (Ev_QueryInterface o));
  fi_release : forall s, keeps R (ext respond (Ev_swapchain_Release s));
  fi_set_swapchain : forall c s, keeps R (modc c (set_swapchain s));
  fi_detach_drained_sealed : forall c s r, sealed (keeps R (detach_drained respond c s r));
  fi_free_storage : forall c, keeps R (free_context_storage respond c);
  fi_new_swapchain : forall (c : ptr) cb w, w_heap w !! c = None ->
    R w (putc c (new_swapchain_context cb) w).2;
  fi_new_fg : forall (c : ptr) cb fg s w, w_heap w !! c = None ->
    R w ((putc c (new_fg_context cb fg s) ;;;
          ext respond (Ev_AddRef (default NULL (sc_backend s)))) w).2 }.

Lemma fi_detach_drained respond R `{!fine_parts respond R} c s r :
  keeps R (detach_drained respond c s r).
Proof. apply unseal, fi_detach_drained_sealed. Qed.

(** ** Functions that leave swapchains alone *)

#[export] Hint Extern 0 (plain_parts _ _) => typeclasses eauto : c_db.

Section Plain.
Context {respond : list (event * response) -> event -> response}.
Context {R : world -> world -> Prop} `{!plain_parts respond R}.
Variable builtin_instance : Z.
Variable present_callback_addr generation_callback_addr : ptr.
Variable automatic_provider_name metalfx_provider_name : ptr.

Hint Resolve co_ext co_fault co_getc co_modc co_global co_acquire_contexts co_release_contexts
  co_acquire_debug co_release_debug co_snapshot co_retire co_clear co_store : c_db.
Hint Extern 1 (benign _) => (intros ?; repeat split; reflexivity) : c_db.
Hint Extern 1 (neutral _) => exact I : c_db.
Hint Extern 1 (global_update _) => (intros w; by destruct w) : c_db.

Ltac chain f := intros; unfold f; keeps_auto.

Lemma c_allocate_memory cb k : keeps R (allocate_memory respond cb k).
Proof. chain allocate_memory. Qed.
Lemma c_free_memory cb q : keeps R (free_memory respond cb q).
Proof. chain free_memory. Qed.
Lemma c_bridge_call q : keeps R (bridge_call respond q).
Proof. chain bridge_call. Qed.
Hint Resolve c_allocate_memory c_free_memory c_bridge_call : c_db.
Lemma c_configure_translation x b : keeps R (configure_translation respond x b).
Proof. chain configure_translation. Qed.
Lemma c_destroy_translation x : keeps R (destroy_translation respond x).
Proof. chain destroy_translation. Qed.
Lemma c_acquire_configure c : keeps R (acquire_configure c).
Proof. chain acquire_configure. Qed.
Lemma c_release_configure c : keeps R (release_configure c).
Proof. chain release_configure. Qed.
Lemma c_enter_dispatch c : keeps R (enter_dispatch c).
Proof. chain enter_dispatch. Qed.
Lemma c_leave_dispatch c : keeps R (leave_dispatch c).
Proof. chain leave_dispatch. Qed.
Lemma c_call_native e : neutral e -> keeps R (call_native respond e).
Proof. chain call_native. Qed.
Hint Resolve c_configure_translation c_destroy_translation c_acquire_configure c_release_configure c_enter_dispatch c_leave_dispatch c_call_native : c_db.
Lemma c_acquire_context h : keeps R (acquire_context h).
Proof. chain acquire_context. Qed.
Lemma c_release_context c : keeps R (release_context c).
Proof. chain release_context. Qed.
Hint Resolve c_acquire_context c_release_context : c_db.
Lemma c_report c : keeps R (report_validation respond c).
Proof. chain report_validation. intros w. reflexivity. Qed.
Lemma c_enter_callback c : keeps R (enter_callback c).
Proof. chain enter_callback. Qed.
Lemma c_leave_callback c : keeps R (leave_callback c).
Proof. chain leave_callback. Qed.
Lemma c_have_native : keeps R (have_native respond builtin_instance).
Proof. unfold have_native, initialize_native. keeps_auto. Qed.
Lemma c_in_callback : keeps R in_callback.
Proof. chain in_callback. Qed.
Lemma c_translated_prepare c d : keeps R (translated_prepare respond c d).
Proof. chain translated_prepare. Qed.
Lemma c_translated_dispatch c d n : keeps R (translated_dispatch respond c d n).
Proof. chain translated_dispatch. Qed.
Lemma c_drop_binding c b o : keeps R (drop_binding respond c b o).
Proof. chain drop_binding. Qed.
Hint Resolve c_report c_enter_callback c_leave_callback c_have_native c_in_callback c_translated_prepare c_translated_dispatch c_drop_binding : c_db.
Lemma c_configure_without c d : keeps R (configure_without_swapchain respond c d).
Proof. chain configure_without_swapchain. Qed.
Lemma c_native_dispatch c d : keeps R (native_dispatch respond c d).
Proof. chain native_dispatch. Qed.
Hint Resolve c_native_dispatch : c_db.
Lemma c_dispatch_decided c d : keeps R (dispatch_decided respond c d).
Proof. unfold dispatch_decided, dispatch_selected. keeps_auto. Qed.
Lemma c_configure_debug h m l n :
  keeps R (configure_debug respond builtin_instance h m l n).
Proof. chain configure_debug. Qed.
Lemma c_query_versions t n i s q :
  keeps R (query_versions respond builtin_instance automatic_provider_name t n i s q).
Proof. unfold query_versions, native_query. keeps_auto. Qed.
Hint Resolve c_configure_without c_native_dispatch c_dispatch_decided c_configure_debug c_query_versions : c_db.
Lemma c_query_context c d :
  keeps R (query_context respond builtin_instance automatic_provider_name
                        metalfx_provider_name c d).
Proof. unfold query_context, native_query. keeps_auto. Qed.
Lemma c_native_create c d cb : keeps R (native_create respond c d cb).
Proof. chain native_create. Qed.
Hint Resolve c_query_context c_native_create : c_db.
Lemma c_create_original c d o cb : keeps R (create_original respond builtin_instance c d o cb).
Proof. chain create_original. Qed.
Lemma c_select_translation c d b : keeps R (select_translation respond c d b).
Proof. chain select_translation. Qed.
Hint Resolve c_create_original c_select_translation : c_db.
Lemma c_create_providers c d fg s cb :
  keeps R (create_providers respond builtin_instance c d fg s cb).
Proof. chain create_providers. Qed.
Lemma c_wait_references c : keeps R (wait_references respond c).
Proof. chain wait_references. Qed.
Lemma c_reopen_context c : keeps R (reopen_context c).
Proof. chain reopen_context. Qed.
Lemma c_destroy_providers c : keeps R (destroy_providers respond c).
Proof. chain destroy_providers. Qed.
Hint Resolve c_create_providers c_wait_references c_reopen_context c_destroy_providers : c_db.

Lemma run_bind {A B} (m : W A) (k : A -> W B) w :
  R w (m w).2 -> (forall a, keeps R (k a)) -> R w (mbind' m k w).2.
Proof. intros Hm Hk. rewrite bind_run. etransitivity; [exact Hm | apply Hk]. Qed.

Lemma run_bind2 {A B C} (m : W A) (n : W B) (k : B -> W C) w :
  R w ((m ;;; n) w).2 -> (forall b, keeps R (k b)) -> R w ((m ;;; mbind' n k) w).2.
Proof. intros Hm Hk. exact (run_bind (m ;;; n) k w Hm Hk). Qed.
End Plain.

Lemma allocate_heap respond cb k w : w_heap (allocate_memory respond cb k w).2 = w_heap w.
Proof. unfold allocate_memory. by repeat case_match. Qed.

(** ** Relations that do not look at swapchains *)

Section Fine.
Context {respond : list (event * response) -> event -> response}.
Context {R : world -> world -> Prop} `{!fine_parts respond R}.
Variable builtin_instance : Z.
Variable present_callback_addr generation_callback_addr : ptr.
Variable automatic_provider_name metalfx_provider_name : ptr.

Hint Resolve co_ext co_fault co_getc co_modc co_global co_acquire_contexts co_release_contexts
  co_acquire_debug co_release_debug co_snapshot co_retire co_clear co_store : c_db.
Hint Resolve fi_query fi_release fi_set_swapchain fi_detach_drained fi_free_storage : c_db.
Hint Extern 1 (benign _) => (intros ?; repeat split; reflexivity) : c_db.
Hint Extern 1 (neutral _) => exact I : c_db.
Hint Extern 1 (global_update _) => (intros w; by destruct w) : c_db.
Hint Resolve c_allocate_memory c_free_memory c_bridge_call c_configure_translation
  c_destroy_translation c_acquire_configure c_release_configure c_enter_dispatch
  c_leave_dispatch c_call_native c_acquire_context c_release_context c_report c_enter_callback
  c_leave_callback c_have_native c_in_callback c_translated_prepare c_translated_dispatch
  c_drop_binding c_configure_without c_native_dispatch c_dispatch_decided c_configure_debug
  c_query_versions c_query_context c_native_create c_create_original c_select_translation
  c_create_providers c_wait_references c_reopen_context c_destroy_providers : c_db.

Ltac chain f := intros; unfold f; keeps_auto.

Lemma c_release_swapchain s : keeps R (release_swapchain respond s).
Proof. chain release_swapchain. Qed.
Lemma c_get_stable_swapchain s : keeps R (get_stable_swapchain respond s).
Proof. chain get_stable_swapchain. Qed.
Lemma c_clear_claim c : keeps R (clear_swapchain_claim c).
Proof. chain clear_swapchain_claim. Qed.
Lemma c_claim c s : keeps R (claim_swapchain c s).
Proof. chain claim_swapchain. Qed.
Hint Resolve c_release_swapchain c_get_stable_swapchain c_clear_claim c_claim : c_db.
Lemma c_detach c : keeps R (detach_swapchain respond c).
Proof. unfold detach_swapchain, detach_native. keeps_auto. Qed.
Lemma c_drop_claim c s b : keeps R (drop_claim respond c s b).
Proof. chain drop_claim. Qed.
Hint Resolve c_detach c_drop_claim : c_db.
Lemma c_configure_translated c s d b o n :
  keeps R (configure_translated respond present_callback_addr
                        generation_callback_addr c s d b o n).
Proof. chain configure_translated. Qed.
Hint Resolve c_configure_translated : c_db.
Lemma c_configure_with c s d :
  keeps R (configure_with_swapchain respond present_callback_addr
                        generation_callback_addr c s d).
Proof. chain configure_with_swapchain. Qed.
Hint Resolve c_configure_with : c_db.
Lemma fine_configure_decided c d :
  keeps R (configure_decided respond present_callback_addr
                        generation_callback_addr c d).
Proof. chain configure_decided. Qed.
Lemma c_finish_create c r cb : keeps R (finish_create respond c r cb).
Proof. chain finish_create. Qed.
Hint Resolve c_finish_create : c_db.
Lemma fine_create out desc cb w :
  fresh_block respond cb w -> R w (ffxCreateContext respond builtin_instance out desc cb w).2.
Proof.
  intros Hfresh. unfold ffxCreateContext, fresh_block in *.
  destruct (negb out); [reflexivity |]. destruct desc as [desc|]; [| reflexivity].
  destruct (_ || _); [reflexivity |]. destruct (classify_create desc) as [e | | fg s];
    [reflexivity | |]; rewrite bind_run;
    (etransitivity; [apply (c_allocate_memory cb SzContext) |]);
    (destruct (_ =? NULL); [reflexivity |]);
    rewrite <- (allocate_heap respond cb SzContext w) in Hfresh.
  - apply run_bind; [by apply fi_new_swapchain |]. intros _. keeps_auto.
  - apply run_bind2; [by apply fi_new_fg |]. intros _. keeps_auto.
Qed.
Lemma fine_destroy h cb : keeps R (ffxDestroyContext respond h cb).
Proof. chain ffxDestroyContext. Qed.

End Fine.

#[export] Instance fine_composes respond R `{!fine_parts respond R} : composes respond R.
Proof.
  split; [apply _ | | |]; intros; apply Sealed;
    [apply fine_configure_decided | by apply fine_create | apply fine_destroy].
Qed.

(** ** The functions of the module *)

Section Chain.
Context {respond : list (event * response) -> event -> response}.
Context {R : world -> world -> Prop} `{!composes respond R}.
Variable builtin_instance : Z.
Variable present_callback_addr generation_callback_addr : ptr.
Variable automatic_provider_name metalfx_provider_name : ptr.

Hint Resolve co_ext co_fault co_getc co_modc co_global co_acquire_contexts co_release_contexts
  co_acquire_debug co_release_debug co_snapshot co_retire co_clear co_store : c_db.
Hint Extern 1 (benign _) => (intros ?; repeat split; reflexivity) : c_db.
Hint Extern 1 (neutral _) => exact I : c_db.
Hint Extern 1 (global_update _) => (intros w; by destruct w) : c_db.
Hint Resolve c_allocate_memory c_free_memory c_bridge_call c_configure_translation
  c_destroy_translation c_acquire_configure c_release_configure c_enter_dispatch
  c_leave_dispatch c_call_native c_acquire_context c_release_context c_report c_enter_callback
  c_leave_callback c_have_native c_in_callback c_translated_prepare c_translated_dispatch
  c_drop_binding c_configure_without c_native_dispatch c_dispatch_decided c_configure_debug
  c_query_versions c_query_context c_native_create c_create_original c_select_translation
  c_create_providers c_wait_references c_reopen_context c_destroy_providers : c_db.

Ltac chain f := intros; unfold f; keeps_auto.

Lemma c_configure_decided c d :
  keeps R (configure_decided respond present_callback_addr
                        generation_callback_addr c d).
Proof. apply unseal, co_configure_decided_sealed. Qed.
Lemma c_ffxCreateContext out desc cb w :
  fresh_block respond cb w -> R w (ffxCreateContext respond builtin_instance out desc cb w).2.
Proof. intros H. by apply unseal, co_create_sealed. Qed.
Lemma c_ffxDestroyContext h cb : keeps R (ffxDestroyContext respond h cb).
Proof. apply unseal, co_destroy_sealed. Qed.
Hint Resolve c_configure_decided : c_db.

Lemma c_configure_body sel c d :
  (forall c, keeps R (sel c)) ->
  keeps R (configure_body respond present_callback_addr
                        generation_callback_addr sel c d).
Proof. intros Hsel. unfold configure_body. keeps_auto. Qed.
Lemma c_select_native c :
  keeps R (select_native respond present_callback_addr generation_callback_addr c).
Proof.
  unfold select_native, select_native_body, configure_selected. keeps_auto.
  apply c_configure_body. intros. keeps_auto.
Qed.
Hint Resolve c_select_native : c_db.
Lemma c_configure c d :
  keeps R (configure_frame_generation respond present_callback_addr
                        generation_callback_addr c d).
Proof. apply c_configure_body. apply c_select_native. Qed.
Hint Resolve c_configure : c_db.
Lemma c_select_dispatch c d :
  keeps R (select_native_and_dispatch respond present_callback_addr
                        generation_callback_addr c d).
Proof. chain select_native_and_dispatch. Qed.
Hint Resolve c_select_dispatch : c_db.
Lemma c_dispatch_pending c d :
  keeps R (dispatch_pending respond present_callback_addr
                        generation_callback_addr c d).
Proof. chain dispatch_pending. Qed.
Hint Resolve c_dispatch_pending : c_db.
Lemma c_dispatch_context c d :
  keeps R (dispatch_context respond present_callback_addr
                        generation_callback_addr c d).
Proof. chain dispatch_context. Qed.
Hint Resolve c_dispatch_context : c_db.
Lemma c_configure_context c d :
  keeps R (configure_context respond present_callback_addr
                        generation_callback_addr c d).
Proof. chain configure_context. Qed.
Hint Resolve c_configure_context : c_db.
Lemma c_ffxConfigure h d :
  keeps R (ffxConfigure respond builtin_instance present_callback_addr
                        generation_callback_addr h d).
Proof. chain ffxConfigure. Qed.
Lemma c_ffxDispatch h d :
  keeps R (ffxDispatch respond present_callback_addr generation_callback_addr h d).
Proof. chain ffxDispatch. Qed.
Lemma c_ffxQuery h d :
  keeps R (ffxQuery respond builtin_instance automatic_provider_name
                        metalfx_provider_name h d).
Proof. unfold ffxQuery, native_query. keeps_auto. Qed.
Hint Resolve c_ffxConfigure c_ffxDispatch c_ffxQuery : c_db.

(** What a callback of the application may do: call the entry points, in any order and
    depending on their answers.  (It creates no context.) *)
Inductive through_api {A} : W A -> Prop :=
| through_return a : through_api (mreturn a)
| through_configure h d k : (forall r, through_api (k r)) ->
    through_api (mbind' (ffxConfigure respond builtin_instance present_callback_addr
                           generation_callback_addr h d) k)
| through_dispatch h d k : (forall r, through_api (k r)) ->
    through_api (mbind' (ffxDispatch respond present_callback_addr generation_callback_addr
                           h d) k)
| through_query h d k : (forall r, through_api (k r)) ->
    through_api (mbind' (ffxQuery respond builtin_instance automatic_provider_name
                           metalfx_provider_name h d) k)
| through_destroy h cb k : (forall r, through_api (k r)) ->
    through_api (mbind' (ffxDestroyContext respond h cb) k).

Lemma c_through_api {A} (m : W A) : through_api m -> keeps R m.
Proof.
  induction 1; (apply keeps_bind || apply keeps_return); try apply _; try done;
    eauto using c_ffxDestroyContext with c_db.
Qed.

(** ** The callbacks of the swapchain *)

Section Callbacks.
Variable app_present : ptr -> ptr -> Z -> W Z.
Variable app_generate : ptr -> ptr -> ffxDispatchDescFrameGeneration ->
                        W (Z * ffxDispatchDescFrameGeneration).
Hypothesis present_keeps : forall f u n, keeps R (app_present f u n).
Hypothesis generate_keeps : forall f u d, keeps R (app_generate f u d).

Lemma c_present_callback b n : keeps R (present_callback app_present b n).
Proof. chain present_callback. Qed.

Lemma c_generation_callback b d n :
  keeps R (generation_callback respond app_generate present_callback_addr
             generation_callback_addr b d n).
Proof. chain generation_callback. Qed.

(** ** Sequences of calls *)

Inductive api_op :=
| Op_create (has_output : bool) (desc : option (list entry))
    (callbacks : option ffxAllocationCallbacks)
| Op_destroy (handle : option ptr) (callbacks : option ffxAllocationCallbacks)
| Op_configure (handle : option ptr) (desc : option configure_desc)
| Op_query (handle : option ptr) (desc : option query_desc)
| Op_dispatch (handle : option ptr) (desc : option dispatch_desc)
| Op_generation (b : option callback_binding)
    (desc : option ffxDispatchDescFrameGeneration) (pNext : list entry)
| Op_present (b : option callback_binding) (frame : option Z).

Definition run_op (o : api_op) : W unit :=
  match o with
  | Op_create out desc cb => ffxCreateContext respond builtin_instance out desc cb ;;; mreturn tt
  | Op_destroy h cb => ffxDestroyContext respond h cb ;;; mreturn tt
  | Op_configure h d => ffxConfigure respond builtin_instance present_callback_addr
                          generation_callback_addr h d ;;; mreturn tt
  | Op_query h d => ffxQuery respond builtin_instance automatic_provider_name
                      metalfx_provider_name h d ;;; mreturn tt
  | Op_dispatch h d => ffxDispatch respond present_callback_addr generation_callback_addr h d ;;;
                       mreturn tt
  | Op_generation b d n => generation_callback respond app_generate present_callback_addr
                             generation_callback_addr b d n ;;; mreturn tt
  | Op_present b n => present_callback app_present b n ;;; mreturn tt
  end.

(** Whenever a context is created, its block is not a live context. *)
Fixpoint fresh_ops (l : list api_op) (w : world) : Prop :=
  match l with
  | [] => True
  | o :: l' => match o with Op_create _ _ cb => fresh_block respond cb w | _ => True end
               /\ fresh_ops l' (run_op o w).2
  end.

Lemma c_run_op o w :
  match o with Op_create _ _ cb => fresh_block respond cb w | _ => True end -> R w (run_op o w).2.
Proof.
  destruct o; intros H; unfold run_op;
    (apply run_bind; [| intros ?; apply keeps_return; apply _]).
  - by apply c_ffxCreateContext.
  - apply c_ffxDestroyContext.
  - apply c_ffxConfigure.
  - apply c_ffxQuery.
  - apply c_ffxDispatch.
  - by apply c_generation_callback.
  - by apply c_present_callback.
Qed.

Lemma c_run_ops l w : fresh_ops l w -> R w (mfor run_op l w).2.
Proof.
  revert w. induction l as [| o l IH]; intros w H; simpl; [reflexivity |]. destruct H as [H1 H2].
  rewrite bind_run. etransitivity; [by apply c_run_op | by apply IH].
Qed.
End Callbacks.
End Chain.
