(* ===== verification/FrameGenDemo.v ===== *)
(** * Frame generation: a concrete environment

    A vendor DLL, a translator and an allocator that answer every call, and a
    session of an application with them: the concrete inputs at which the theorems
    with hypotheses are instantiated. *)

From stdpp Require Import base list gmap.
From Stdlib Require Import ZArith SpecFloat.
From S2P Require Import Prelude.
From S2P Require Import FfxApi.
From S2P Require Import FrameGenState.
From S2P Require Import FrameGen.
From S2P Require Import FrameGenChain.

Open Scope Z_scope.

(** Every allocation gets an address of its own; the translator accepts all work. *)
Definition demo_respond (t : list (event * response)) (e : event) : response :=
  match e with
  | Ev_getenv => mkResponse 0 3 [67; 58; 92]
  | Ev_LoadLibrary _ => mkResponse 0 7 []
  | Ev_GetProcAddress _ i => mkResponse 0 (100 + Z.of_nat i) []
  | Ev_malloc _ | Ev_callback_alloc _ _ _ => mkResponse 0 (4096 + 16 * Z.of_nat (length t)) []
  | Ev_native_create _ _ => mkResponse 0 77 []
  | Ev_bridge _ => mkResponse 0 0 [0; 5]
  | Ev_QueryInterface o => mkResponse 0 (o + 1) []
  | Ev_wait_for_presents _ => mkResponse 0 1 []
  | _ => mkResponse 0 0 []
  end.

Definition demo_present (f u n : Z) : W Z := mreturn 0.
Definition demo_generate (f u : Z) (d : ffxDispatchDescFrameGeneration) :
  W (Z * ffxDispatchDescFrameGeneration) := mreturn (0, d).

(** The process before the first call. *)
Definition initial_world : world := mkWorld [] ∅ false false NULL 0 false (Some []) false [].

Definition demo_create : list entry :=
  [E_FrameGeneration (mkCreateFG 0 1920 1080 1280 720 28); E_Backend 900].

(** The address of the first context. *)
Definition demo_handle : ptr := 4096.

Definition demo_resource (p : ptr) : FfxApiResource :=
  mkResource p (mkDescription 0 28 1920 1080 1 1 0 0) 0.

Definition demo_config (enable : bool) (id : Z) : ffxConfigureDescFrameGeneration :=
  mkConfigureFG [] 300 0 0 0 0 enable false (demo_resource 901) 0 false null_rect id.

Definition f32_one : f32 := S754_finite false 8388608 (-23).

Definition demo_prepare (id : Z) : dispatch_desc :=
  D_Prepare (mkPrepare id 0 600 1280 720 f32_zero f32_zero f32_one f32_one f32_one false
               f32_one f32_one f32_one f32_one (demo_resource 902) (demo_resource 903)) [].

Definition demo_frame (id : Z) : dispatch_desc :=
  D_Generate (mkDispatchFG 600 (demo_resource 904) [demo_resource 905] 1 false 0
                f32_zero f32_one null_rect id) [].

(** Create, configure, prepare, generate. *)
Definition demo_session : list api_op :=
  [Op_create true (Some demo_create) None;
   Op_configure (Some demo_handle) (Some (C_FrameGeneration (demo_config true 1)));
   Op_dispatch (Some demo_handle) (Some (demo_prepare 1));
   Op_dispatch (Some demo_handle) (Some (demo_frame 1));
   Op_configure (Some demo_handle) (Some (C_FrameGeneration (demo_config true 2)));
   Op_dispatch (Some demo_handle) (Some (demo_prepare 2))].

Abbreviation demo_run :=
  (mfor (run_op (respond := demo_respond) 1 10 11 12 13 demo_present demo_generate)).

Definition demo_world : world := (demo_run demo_session initial_world).2.
Definition demo_context : fg_context := default zero_context (w_heap demo_world !! demo_handle).
