(* ===== verification/FrameGenModes.v ===== *)
(** * Frame generation: provider selection

    The provider state machine of a context: pending contexts are decided once,
    a decided context never changes its provider, and a frame MetalFX has
    recorded is never interpolated a second time by the vendor's provider. *)

From stdpp Require Import base list gmap relations.
From Stdlib Require Import ZArith Lia.
From S2P Require Import Prelude.
From S2P Require Import FfxApi.
From S2P Require Import FrameGenState.
From S2P Require Import FrameGen.
From S2P Require Import FrameGenSteps.
From S2P Require Import FrameGenChain.
From S2P Require Import FrameGenDemo.

Open Scope Z_scope.

(** ** The mode order *)

(** [mode_le m m']: a context in mode [m] may later be found in mode [m']. *)
Definition mode_le (m m' : context_mode) : bool :=
  match m, m' with
  | MODE_PENDING, (MODE_PENDING | CONTEXT_NATIVE | CONTEXT_METALFX) => true
  | CONTEXT_NATIVE, CONTEXT_NATIVE => true
  | CONTEXT_METALFX, CONTEXT_METALFX => true
  | CONTEXT_SWAPCHAIN, CONTEXT_SWAPCHAIN => true
  | _, _ => false
  end.

Lemma mode_le_refl m : mode_le m m = true.
Proof. by destruct m. Qed.

Lemma mode_le_trans m1 m2 m3 :
  mode_le m1 m2 = true -> mode_le m2 m3 = true -> mode_le m1 m3 = true.
Proof. by destruct m1, m2, m3. Qed.

Definition mode_of (w : world) (c : ptr) : option context_mode := mode <$> w_heap w !! c.

Definition modes_advance (w w' : world) : Prop :=
  forall c m, mode_of w c = Some m -> exists m', mode_of w' c = Some m' /\ mode_le m m' = true.

Definition same_modes (w w' : world) : Prop := forall c, mode_of w' c = mode_of w c.

#[export] Instance same_modes_preorder : PreOrder same_modes.
Proof.
  split; [by intros ? |]. intros w1 w2 w3 H1 H2 c. by rewrite H2, H1.
Qed.

#[export] Instance modes_advance_preorder : PreOrder modes_advance.
Proof.
  split.
  - intros w c m H. exists m. split; [done | apply mode_le_refl].
  - intros w1 w2 w3 H1 H2 c m H. destruct (H1 c m H) as (m2 & E2 & L2).
    destruct (H2 c m2 E2) as (m3 & E3 & L3). exists m3. split; [done |].
    by apply (mode_le_trans m m2).
Qed.

Lemma same_modes_advance w w' : same_modes w w' -> modes_advance w w'.
Proof. intros H c m E. exists m. rewrite H. split; [done | apply mode_le_refl]. Qed.

(** The labels of functions that select no provider and free no context. *)
Definition frame_label (l : label) : Prop :=
  match l with
  | L_modc _ f => plain f
  | L_putc _ _ | L_delc _ => False
  | _ => True
  end.

Lemma frame_same_modes w w' : steps frame_label w w' -> same_modes w w'.
Proof.
  apply steps_relation; [apply _ |]. clear. intros l w Hl c. unfold mode_of.
  destruct l as [| | c' f | | | | | | | | |]; simpl in *; try done.
  destruct (w_heap w !! c') as [x|] eqn:E; simpl; [| done].
  destruct (decide (c' = c)) as [-> | Hne].
  - rewrite lookup_insert_eq, E. simpl. by rewrite Hl.
  - by rewrite lookup_insert_ne by done.
Qed.

(** Labels that do not call into the vendor's dispatch. *)
Definition no_vendor_dispatch (l : label) : Prop :=
  match l with L_ext e _ => ~ vendor_dispatch e | _ => True end.

(** A packet that makes the translator record GPU work. *)
Definition work_packet (p : packet) : bool :=
  match p with P_Prepare _ _ | P_Dispatch _ _ => true | _ => false end.

(** The translator accepted work: the Unix call succeeded with result OK. *)
Definition recorded_work (er : event * response) : bool :=
  match er.1 with
  | Ev_bridge p => work_packet p && (rs_code er.2 =? 0)
                   && (bridge_result er.2 =? FFX_API_RETURN_OK)
  | _ => false
  end.

Definition is_vendor_dispatch (er : event * response) : bool :=
  match er.1 with Ev_native_dispatch _ _ => true | _ => false end.

(** Labels without accepted work. *)
Definition no_recorded_work (l : label) : Prop :=
  match l with L_ext e r => recorded_work (e, r) = false | _ => True end.

Lemma existsb_all_false {A} (f : A -> bool) l :
  Forall (fun x => f x = false) l -> existsb f l = false.
Proof. induction 1 as [| x l Hx _ IH]; simpl; [done |]. by rewrite Hx, IH. Qed.

Section Modes.
Variable respond : list (event * response) -> event -> response.
Variable builtin_instance : Z.
Variable app_present : ptr -> ptr -> Z -> W Z.
Variable app_generate : ptr -> ptr -> ffxDispatchDescFrameGeneration ->
                        W (Z * ffxDispatchDescFrameGeneration).
Variable present_callback_addr generation_callback_addr : ptr.
Variable automatic_provider_name metalfx_provider_name : ptr.

Local Abbreviation select_native :=
  (select_native respond present_callback_addr generation_callback_addr).
Local Abbreviation configure_frame_generation :=
  (configure_frame_generation respond present_callback_addr generation_callback_addr).
Local Abbreviation dispatch_pending :=
  (dispatch_pending respond present_callback_addr generation_callback_addr).
Local Abbreviation dispatch_context :=
  (dispatch_context respond present_callback_addr generation_callback_addr).
Local Abbreviation dispatch_decided := (dispatch_decided respond).

Hint Extern 0 (frame_label _) => first [exact I | (intros; assumption)] : c_db.

(** [frame m]: [m] only takes frame steps. *)
Local Abbreviation frame := (keeps (steps frame_label)).

Ltac frame_by L := intros; eapply L; intros; simpl; auto.

Lemma f_getc c : frame (getc c).
Proof. frame_by k_getc. Qed.
Lemma f_modc c f : plain f -> frame (modc c f).
Proof. frame_by k_modc. Qed.
Lemma f_enter c : frame (enter_dispatch c).
Proof. frame_by k_enter_dispatch. Qed.
Lemma f_leave c : frame (leave_dispatch c).
Proof. frame_by k_leave_dispatch. Qed.
Lemma f_acquire_configure c : frame (acquire_configure c).
Proof. frame_by k_acquire_configure. Qed.
Lemma f_release_configure c : frame (release_configure c).
Proof. frame_by k_release_configure. Qed.
Lemma f_call_native e : frame (call_native respond e).
Proof. frame_by k_call_native. Qed.
Lemma f_ext e : frame (ext respond e).
Proof. frame_by k_ext. Qed.
Lemma f_have_native : frame (have_native respond builtin_instance).
Proof. frame_by k_have_native. Qed.
Lemma f_translated_prepare c d : frame (translated_prepare respond c d).
Proof. frame_by k_translated_prepare. Qed.
Lemma f_translated_dispatch c d n : frame (translated_dispatch respond c d n).
Proof. frame_by k_translated_dispatch. Qed.
Lemma f_retire c id : frame (retire_frame_configs respond c id).
Proof. frame_by k_retire. Qed.
Lemma f_store c d : frame (store_native_config respond c d).
Proof. frame_by k_store. Qed.
Lemma f_report c : frame (report_validation respond c).
Proof. frame_by k_report. Qed.
Lemma f_acquire_context h : frame (acquire_context h).
Proof. frame_by k_acquire_context. Qed.
Lemma f_release_context c : frame (release_context c).
Proof. frame_by k_release_context. Qed.
Lemma f_acquire_debug : frame acquire_debug.
Proof. frame_by k_acquire_debug. Qed.
Lemma f_release_debug : frame release_debug.
Proof. frame_by k_release_debug. Qed.
Lemma f_acquire_contexts : frame acquire_contexts.
Proof. frame_by k_acquire_contexts. Qed.
Lemma f_release_contexts : frame release_contexts.
Proof. frame_by k_release_contexts. Qed.
Lemma f_in_callback : frame in_callback.
Proof. frame_by k_in_callback. Qed.
Lemma f_configure_selected c d :
  frame (configure_selected respond present_callback_addr generation_callback_addr c d).
Proof. frame_by k_configure_selected. Qed.
Lemma f_configure_decided c d :
  frame (configure_decided respond present_callback_addr generation_callback_addr c d).
Proof. frame_by k_configure_decided. Qed.
Hint Resolve f_getc f_modc f_enter f_leave f_acquire_configure f_release_configure
  f_call_native f_ext f_have_native f_translated_prepare f_translated_dispatch f_retire
  f_store f_report f_acquire_context f_release_context f_acquire_debug f_release_debug
  f_acquire_contexts f_release_contexts f_in_callback f_configure_selected
  f_configure_decided : c_db.
Hint Extern 1 (plain _) => intros ?; reflexivity : c_db.

Lemma f_native_dispatch c d : frame (native_dispatch respond c d).
Proof. unfold native_dispatch. keeps_auto. Qed.
Hint Resolve f_native_dispatch : c_db.
Lemma f_dispatch_decided c d : frame (dispatch_decided c d).
Proof. unfold dispatch_decided, dispatch_selected. keeps_auto. Qed.
Hint Resolve f_dispatch_decided : c_db.
Lemma f_enter_callback c : frame (enter_callback c).
Proof.
  unfold enter_callback. keeps_auto.
  intros w. by apply (steps_one frame_label (L_tls (cons c))).
Qed.
Lemma f_leave_callback c : frame (leave_callback c).
Proof.
  unfold leave_callback. keeps_auto.
  intros w. by apply (steps_one frame_label (L_tls tail)).
Qed.
Hint Resolve f_enter_callback f_leave_callback : c_db.

(** ** Advancing modes *)

Local Abbreviation advances := (keeps modes_advance).

Lemma advances_frame {A} (m : W A) : frame m -> advances m.
Proof. intros H w. apply same_modes_advance, frame_same_modes, H. Qed.

Lemma pending_after {A} (m : W A) c w :
  frame m -> mode_of w c = Some MODE_PENDING -> mode_of (m w).2 c = Some MODE_PENDING.
Proof. intros H E. rewrite (frame_same_modes _ _ (H w)). done. Qed.

Lemma set_mode_advances c m w :
  mode_of w c = Some MODE_PENDING -> m <> CONTEXT_SWAPCHAIN ->
  modes_advance w (modc c (set_mode m) w).2.
Proof.
  unfold mode_of. intros E Hm. destruct (w_heap w !! c) as [x|] eqn:Ex; [| done].
  rewrite (modc_some _ _ _ _ Ex). intros c' m' E'. unfold mode_of in *. simpl.
  destruct (decide (c = c')) as [-> | Hne].
  - rewrite lookup_insert_eq. rewrite Ex in E'. simpl in *.
    injection E as E. injection E' as E'. rewrite E in E'. subst m'.
    exists m. split; [done |]. by destruct m.
  - rewrite lookup_insert_ne by done. exists m'. split; [done | apply mode_le_refl].
Qed.

Lemma select_native_advances c w :
  mode_of w c = Some MODE_PENDING -> modes_advance w (select_native c w).2.
Proof.
  intros E. unfold select_native, select_native_body.
  apply goes_bind; [apply _ | by apply set_mode_advances |].
  apply advances_frame. keeps_auto.
Qed.

(** A context read as pending is pending. *)
Lemma getc_pending c w :
  mode (getc c w).1 = MODE_PENDING -> mode_of (getc c w).2 c = Some MODE_PENDING.
Proof.
  unfold getc, mode_of. destruct (w_heap w !! c) as [x|] eqn:E; simpl; [| done].
  rewrite E. simpl. by intros ->.
Qed.

Lemma configure_frame_generation_advances c d : advances (configure_frame_generation c d).
Proof.
  intros w. unfold configure_frame_generation, configure_body.
  apply goes_bind; [apply _ | apply advances_frame; eauto with c_db |].
  repeat case_match; try (apply advances_frame; keeps_auto; fail).
  apply goes_bind; [apply _ | |].
  - apply select_native_advances, getc_pending. by eapply bool_decide_eq_true_1.
  - apply advances_frame. keeps_auto.
Qed.

Lemma select_native_and_dispatch_advances c d w :
  mode_of w c = Some MODE_PENDING ->
  modes_advance w (select_native_and_dispatch respond present_callback_addr
                     generation_callback_addr c d w).2.
Proof.
  intros E. unfold select_native_and_dispatch.
  apply goes_bind; [apply _ | by apply select_native_advances |].
  apply advances_frame. keeps_auto.
Qed.

Lemma dispatch_pending_advances c d w :
  mode_of w c = Some MODE_PENDING -> modes_advance w (dispatch_pending c d w).2.
Proof.
  intros E. unfold dispatch_pending.
  case_match; [apply advances_frame; keeps_auto |].
  case_match; [by apply select_native_and_dispatch_advances |].
  apply goes_bind; [apply _ | apply advances_frame; eauto with c_db |].
  apply (pending_after (enter_dispatch c)) in E; [| eauto with c_db].
  apply goes_bind; [apply _ | apply advances_frame; eauto with c_db |].
  apply (pending_after (translated_prepare respond c d)) in E; [| eauto with c_db].
  apply goes_bind; [apply _ | apply advances_frame; eauto with c_db |].
  apply (pending_after (leave_dispatch c)) in E; [| eauto with c_db].
  case_match; [by apply select_native_and_dispatch_advances |].
  case_match; [| apply advances_frame; keeps_auto].
  apply goes_bind; [apply _ | by apply set_mode_advances |].
  apply goes_bind; [apply _ | apply advances_frame; eauto with c_db |].
  case_match; [apply configure_frame_generation_advances | apply advances_frame; keeps_auto].
Qed.

Lemma dispatch_context_advances c d : advances (dispatch_context c d).
Proof.
  intros w. unfold dispatch_context.
  apply goes_bind; [apply _ | apply advances_frame; eauto with c_db |].
  case_match; [apply advances_frame; eauto with c_db |].
  apply goes_bind; [apply _ | apply advances_frame; eauto with c_db |].
  apply goes_bind; [apply _ | apply advances_frame; eauto with c_db |].
  case_match; [| apply advances_frame; keeps_auto].
  apply goes_bind; [apply _ | |].
  - apply dispatch_pending_advances, getc_pending. by eapply bool_decide_eq_true_1.
  - apply advances_frame. keeps_auto.
Qed.
Hint Resolve advances_frame dispatch_context_advances configure_frame_generation_advances : c_db.

Lemma configure_context_advances c d :
  advances (configure_context respond present_callback_addr generation_callback_addr c d).
Proof.
  intros w. unfold configure_context.
  apply goes_bind; [apply _ | apply advances_frame; eauto with c_db |].
  repeat case_match; try (apply advances_frame; keeps_auto; fail);
    try apply configure_frame_generation_advances.
  all: apply goes_bind; [apply _ | apply advances_frame; eauto with c_db |];
    case_match; try (apply advances_frame; keeps_auto; fail).
  all: apply select_native_advances, pending_after; [eauto with c_db |];
    apply getc_pending; eapply bool_decide_eq_true_1; by eapply andb_prop.
Qed.
Hint Resolve configure_context_advances : c_db.

Lemma f_query_versions t n i s p :
  frame (query_versions respond builtin_instance automatic_provider_name t n i s p).
Proof. unfold query_versions, native_query. keeps_auto. Qed.
Hint Resolve f_query_versions : c_db.

Lemma f_query_context c d :
  frame (query_context respond builtin_instance automatic_provider_name
           metalfx_provider_name c d).
Proof. unfold query_context, native_query. keeps_auto. Qed.
Hint Resolve f_query_context : c_db.

Lemma f_configure_debug h m l n :
  frame (configure_debug respond builtin_instance h m l n).
Proof.
  unfold configure_debug. keeps_auto; intros w.
  - by apply (steps_one frame_label (L_message m)).
  - by apply (steps_one frame_label (L_level l)).
Qed.
Hint Resolve f_configure_debug : c_db.

(** ** Sequences of API calls and callbacks on existing contexts *)

Inductive api_call :=
| Call_configure (handle : option ptr) (desc : option configure_desc)
| Call_query (handle : option ptr) (desc : option query_desc)
| Call_dispatch (handle : option ptr) (desc : option dispatch_desc)
| Call_generation (b : option callback_binding)
    (desc : option ffxDispatchDescFrameGeneration) (pNext : list entry)
| Call_present (b : option callback_binding) (frame : option Z).

Definition run_call (a : api_call) : W unit :=
  match a with
  | Call_configure h d =>
      ffxConfigure respond builtin_instance present_callback_addr generation_callback_addr h d ;;;
      mreturn tt
  | Call_query h d =>
      ffxQuery respond builtin_instance automatic_provider_name metalfx_provider_name h d ;;;
      mreturn tt
  | Call_dispatch h d =>
      ffxDispatch respond present_callback_addr generation_callback_addr h d ;;; mreturn tt
  | Call_generation b d n =>
      generation_callback respond app_generate present_callback_addr
        generation_callback_addr b d n ;;; mreturn tt
  | Call_present b f => present_callback app_present b f ;;; mreturn tt
  end.

Section Sequences.
(** The application's callbacks act on contexts through the API only. *)
Hypothesis app_generate_advances : forall f u d, advances (app_generate f u d).
Hypothesis app_present_advances : forall f u n, advances (app_present f u n).
Hint Resolve app_generate_advances app_present_advances : c_db.

Lemma run_call_advances a : advances (run_call a).
Proof.
  destruct a; simpl.
  - unfold ffxConfigure. keeps_auto; apply advances_frame; keeps_auto.
  - unfold ffxQuery, native_query. keeps_auto; apply advances_frame; keeps_auto.
  - unfold ffxDispatch. keeps_auto; apply advances_frame; keeps_auto.
  - unfold generation_callback. keeps_auto; apply advances_frame; keeps_auto.
  - unfold present_callback. keeps_auto; apply advances_frame; keeps_auto.
Qed.

Lemma run_calls_advances l : advances (mfor run_call l).
Proof. apply keeps_mfor; [apply _ | apply run_call_advances]. Qed.
End Sequences.

(** ** Recorded work and the vendor's dispatch *)

Local Abbreviation quiet := (keeps (steps no_vendor_dispatch)).
Local Abbreviation idle := (keeps (steps no_recorded_work)).

Lemma mem_event_quiet e : mem_event e -> ~ vendor_dispatch e.
Proof. destruct e; simpl; tauto. Qed.
Lemma mem_event_idle e r : mem_event e -> recorded_work (e, r) = false.
Proof. destruct e; done. Qed.
Hint Resolve mem_event_quiet mem_event_idle : c_db.

Ltac quiet_by L := intros; eapply L; intros; simpl; auto with c_db.

Lemma q_getc c : quiet (getc c).
Proof. quiet_by k_getc. Qed.
Lemma q_enter c : quiet (enter_dispatch c).
Proof. quiet_by k_enter_dispatch. Qed.
Lemma q_leave c : quiet (leave_dispatch c).
Proof. quiet_by k_leave_dispatch. Qed.
Lemma q_acquire_configure c : quiet (acquire_configure c).
Proof. quiet_by k_acquire_configure. Qed.
Lemma q_release_configure c : quiet (release_configure c).
Proof. quiet_by k_release_configure. Qed.
Lemma q_in_callback : quiet in_callback.
Proof. quiet_by k_in_callback. Qed.
Lemma q_translated_prepare c d : quiet (translated_prepare respond c d).
Proof. quiet_by k_translated_prepare. Qed.
Lemma q_translated_dispatch c d n : quiet (translated_dispatch respond c d n).
Proof. quiet_by k_translated_dispatch. Qed.
Lemma q_retire c id : quiet (retire_frame_configs respond c id).
Proof. quiet_by k_retire. Qed.
Lemma q_configure c d : quiet (configure_frame_generation c d).
Proof. quiet_by k_configure_frame_generation. Qed.
Hint Resolve q_getc q_enter q_leave q_acquire_configure q_release_configure q_in_callback
  q_translated_prepare q_translated_dispatch q_retire q_configure : c_db.

Lemma i_getc c : idle (getc c).
Proof. quiet_by k_getc. Qed.
Lemma i_enter c : idle (enter_dispatch c).
Proof. quiet_by k_enter_dispatch. Qed.
Lemma i_leave c : idle (leave_dispatch c).
Proof. quiet_by k_leave_dispatch. Qed.
Lemma i_acquire_configure c : idle (acquire_configure c).
Proof. quiet_by k_acquire_configure. Qed.
Lemma i_release_configure c : idle (release_configure c).
Proof. quiet_by k_release_configure. Qed.
Lemma i_in_callback : idle in_callback.
Proof. quiet_by k_in_callback. Qed.
Lemma i_retire c id : idle (retire_frame_configs respond c id).
Proof. quiet_by k_retire. Qed.
Lemma i_call_native e :
  (forall r, recorded_work (e, r) = false) -> idle (call_native respond e).
Proof. quiet_by k_call_native. Qed.
Lemma i_select_native c : idle (select_native c).
Proof. quiet_by k_select_native. Qed.
Hint Resolve i_getc i_enter i_leave i_acquire_configure i_release_configure i_in_callback
  i_retire i_call_native i_select_native : c_db.

Lemma i_native_dispatch c d : idle (native_dispatch respond c d).
Proof. unfold native_dispatch. keeps_auto. Qed.
Hint Resolve i_native_dispatch : c_db.
Lemma i_select_native_and_dispatch c d :
  idle (select_native_and_dispatch respond present_callback_addr generation_callback_addr c d).
Proof. unfold select_native_and_dispatch. keeps_auto. Qed.

(** A packet the translator did not accept recorded nothing. *)
Lemma bridge_call_refused p w :
  (bridge_call respond p w).1.1 <> FFX_API_RETURN_OK ->
  steps no_recorded_work w (bridge_call respond p w).2.
Proof.
  unfold bridge_call, ext. rewrite !bind_run. simpl. set (r := respond _ _). intros H.
  apply (steps_one no_recorded_work (L_ext (Ev_bridge p) r)). simpl.
  unfold recorded_work. simpl. apply Z.eqb_neq in H.
  destruct (rs_code r =? 0); simpl in *; [rewrite H |]; by rewrite ?andb_false_r.
Qed.

Lemma translated_prepare_refused c d w :
  (translated_prepare respond c d w).1 <> FFX_API_RETURN_OK ->
  steps no_recorded_work w (translated_prepare respond c d w).2.
Proof.
  unfold translated_prepare. destruct (prepare_packet_from d) as [e | p]; [reflexivity |].
  rewrite bind_run. intros H. etransitivity; [apply (i_getc c w) |]. revert H.
  destruct (getc c w) as [x w1]; simpl.
  case_match; [intros; reflexivity |]. case_match; [intros; reflexivity |].
  rewrite bind_run. case_match.
  - intros Hne. exfalso. apply Hne. rewrite !bind_run. simpl. by apply Z.eqb_eq.
  - intros _. apply bridge_call_refused. by apply Z.eqb_neq.
Qed.

Lemma prepare_stays_metalfx {A} (m : W A) c w :
  frame m -> mode_of w c = Some CONTEXT_METALFX -> mode_of (m w).2 c = Some CONTEXT_METALFX.
Proof. intros H E. rewrite (frame_same_modes _ _ (H w)). done. Qed.

Lemma dispatch_decided_metalfx c d w :
  mode_of w c = Some CONTEXT_METALFX -> steps no_vendor_dispatch w (dispatch_decided c d w).2.
Proof.
  intros E. unfold dispatch_decided.
  apply (goes_bind (steps _)); [apply q_enter |].
  apply (prepare_stays_metalfx (enter_dispatch c)) in E; [| eauto with c_db].
  apply (goes_bind (steps _)); [|].
  - unfold dispatch_selected. apply (goes_bind (steps _)); [apply q_getc |].
    revert E. set (w1 := (enter_dispatch c w).2). clearbody w1.
    unfold mode_of, getc. destruct (w_heap w1 !! c) as [x|]; simpl; [| done].
    intros [= ->]. simpl.
    match goal with |- steps _ _ (?m w1).2 => enough (quiet m) as K by apply K end.
    keeps_auto.
  - match goal with |- steps _ _ (?m _).2 => enough (quiet m) as K by apply K end.
    keeps_auto.
Qed.

Lemma dispatch_decided_other c d w :
  mode_of w c <> Some CONTEXT_METALFX ->
  steps no_recorded_work w (dispatch_decided c d w).2.
Proof.
  intros E. unfold dispatch_decided.
  apply (goes_bind (steps _)); [apply i_enter |].
  rewrite <- (frame_same_modes _ _ (f_enter c w)) in E.
  apply (goes_bind (steps _)); [|].
  - unfold dispatch_selected. apply (goes_bind (steps _)); [apply i_getc |].
    revert E. set (w1 := (enter_dispatch c w).2). clearbody w1.
    unfold mode_of, getc. destruct (w_heap w1 !! c) as [x|]; cbn [fmap option_fmap option_map fst snd]; intros E.
    + rewrite bool_decide_eq_false_2 by congruence. cbn [negb fst snd].
      match goal with |- steps _ _ (?m w1).2 => enough (idle m) as K by apply K end.
      keeps_auto.
    + rewrite bool_decide_eq_false_2 by done. cbn [negb].
      match goal with |- steps _ _ (?m _).2 => enough (idle m) as K by apply K end.
      keeps_auto.
  - match goal with |- steps _ _ (?m _).2 => enough (idle m) as K by apply K end.
    keeps_auto.
Qed.

Lemma dispatch_pending_once c d w :
  steps no_vendor_dispatch w (dispatch_pending c d w).2
  \/ steps no_recorded_work w (dispatch_pending c d w).2.
Proof.
  unfold dispatch_pending. case_match; [left; reflexivity |].
  case_match; [right; apply i_select_native_and_dispatch |].
  run. set (w1 := (enter_dispatch c w).2).
  destruct (Z.eqb_spec (translated_prepare respond c d w1).1 BRIDGE_INELIGIBLE) as [E | E].
  - right. etransitivity; [apply (i_enter c w) |]. fold w1.
    etransitivity; [apply (translated_prepare_refused c d w1); by rewrite E |].
    etransitivity; [apply i_leave |]. apply i_select_native_and_dispatch.
  - left. etransitivity; [apply (q_enter c w) |]. fold w1.
    etransitivity; [apply (q_translated_prepare c d w1) |].
    etransitivity; [apply q_leave |].
    match goal with |- steps _ _ (?m _).2 => enough (quiet m) as K by apply K end.
    keeps_auto. quiet_by k_modc_label.
Qed.

Lemma dispatch_context_once c d w :
  steps no_vendor_dispatch w (dispatch_context c d w).2
  \/ steps no_recorded_work w (dispatch_context c d w).2.
Proof.
  assert (Hdec : forall w, steps no_vendor_dispatch w (dispatch_decided c d w).2
                      \/ steps no_recorded_work w (dispatch_decided c d w).2).
  { intros w'. destruct (decide (mode_of w' c = Some CONTEXT_METALFX));
      [left; by apply dispatch_decided_metalfx | right; by apply dispatch_decided_other]. }
  unfold dispatch_context. rewrite bind_run. cbv beta.
  change (in_callback w).2 with w. destruct (in_callback w).1; [apply Hdec |].
  run. set (w1 := (acquire_configure c w).2).
  destruct (bool_decide (mode (getc c w1).1 = MODE_PENDING)); run.
  - destruct (dispatch_pending_once c d (getc c w1).2) as [K | K]; [left | right];
      (etransitivity; [| etransitivity; [exact K |]]).
    + etransitivity; [apply q_acquire_configure | apply q_getc].
    + apply q_release_configure.
    + etransitivity; [apply i_acquire_configure | apply i_getc].
    + apply i_release_configure.
  - destruct (Hdec (release_configure c (getc c w1).2).2) as [K | K]; [left | right];
      (etransitivity; [| exact K]).
    + etransitivity; [apply q_acquire_configure |]. etransitivity; [apply q_getc |].
      apply q_release_configure.
    + etransitivity; [apply i_acquire_configure |]. etransitivity; [apply i_getc |].
      apply i_release_configure.
Qed.

Lemma dispatch_context_metalfx c d w :
  mode_of w c = Some CONTEXT_METALFX -> steps no_vendor_dispatch w (dispatch_context c d w).2.
Proof.
  intros E. unfold dispatch_context. rewrite bind_run. cbv beta.
  change (in_callback w).2 with w.
  destruct (in_callback w).1; [by apply dispatch_decided_metalfx |]. run.
  apply (prepare_stays_metalfx (acquire_configure c)) in E; [| eauto with c_db].
  set (w1 := (acquire_configure c w).2) in *.
  apply (prepare_stays_metalfx (getc c)) in E as E2; [| eauto with c_db].
  etransitivity; [apply q_acquire_configure |]. fold w1.
  etransitivity; [apply (q_getc c w1) |].
  destruct (bool_decide (mode (getc c w1).1 = MODE_PENDING)) eqn:Hm; run.
  - exfalso. apply bool_decide_eq_true_1 in Hm. unfold mode_of in E. revert E Hm.
    unfold getc. destruct (w_heap w1 !! c); simpl; congruence.
  - etransitivity; [apply (q_release_configure c (getc c w1).2) |].
    apply dispatch_decided_metalfx. apply prepare_stays_metalfx; [eauto with c_db | done].
Qed.

(** C3: across any sequence of Configure, Query and Dispatch calls and of
    swapchain callbacks, a context only moves from pending to native or from
    pending to MetalFX; native, MetalFX and swapchain contexts keep their
    provider for ever. *)
Theorem provider_never_changes_once_selected
    (Hgen : forall f u d, keeps modes_advance (app_generate f u d))
    (Hpres : forall f u n, keeps modes_advance (app_present f u n))
    (l : list api_call) (w : world) (c : ptr) (m : context_mode)
    (Hm : mode_of w c = Some m) :
  exists m', mode_of (mfor run_call l w).2 c = Some m' /\ mode_le m m' = true.
Proof. by apply (run_calls_advances Hgen Hpres l w). Qed.

(** C4: in one dispatch, on a context of any provider, work accepted by the
    MetalFX translator and a dispatch to the vendor's provider exclude each
    other: a frame MetalFX has recorded is never interpolated a second time. *)
Theorem recorded_work_is_not_repeated (c : ptr) (desc : dispatch_desc) (w : world) :
  exists l, calls_between w (dispatch_context c desc w).2 l
    /\ existsb recorded_work l && existsb is_vendor_dispatch l = false.
Proof.
  destruct (dispatch_context_once c desc w) as [K | K];
    apply steps_calls in K as (l & Hl & K); exists l; (split; [done |]);
    rewrite Forall_forall in K.
  - apply andb_false_intro2, existsb_all_false. apply Forall_forall.
    intros [e r] Hin. specialize (K _ Hin). destruct e; simpl in *; done || tauto.
  - apply andb_false_intro1, existsb_all_false. apply Forall_forall.
    intros [e r] Hin. by specialize (K _ Hin).
Qed.

(** A dispatch on a context that has selected MetalFX never reaches the
    vendor's provider, whatever the translator answers. *)
Theorem metalfx_dispatch_never_native (c : ptr) (desc : dispatch_desc) (w : world)
    (Hm : mode_of w c = Some CONTEXT_METALFX) :
  exists l, calls_between w (dispatch_context c desc w).2 l
    /\ existsb is_vendor_dispatch l = false.
Proof.
  apply (dispatch_context_metalfx c desc) in Hm.
  apply steps_calls in Hm as (l & Hl & K). exists l. split; [done |].
  apply existsb_all_false, Forall_forall. rewrite Forall_forall in K.
  intros [e r] Hin. specialize (K _ Hin). destruct e; simpl in *; done || tauto.
Qed.
End Modes.

Lemma provider_never_changes_once_selected_witness :
  exists m', mode_of (mfor (run_call demo_respond 1 demo_present demo_generate 10 11 12 13)
                        [Call_dispatch (Some demo_handle) (Some (demo_frame 3));
                         Call_configure (Some demo_handle)
                           (Some (C_FrameGeneration (demo_config false 4)))] demo_world).2
                     demo_handle = Some m' /\ mode_le CONTEXT_METALFX m' = true.
Proof.
  apply (provider_never_changes_once_selected demo_respond 1 demo_present demo_generate 10 11 12 13
           (fun f u d => keeps_return modes_advance (0, d))
           (fun f u n => keeps_return modes_advance 0)).
  vm_compute. reflexivity.
Defined.

Lemma metalfx_dispatch_never_native_witness :
  exists l, calls_between demo_world
              (dispatch_context demo_respond 10 11 demo_handle (demo_frame 3) demo_world).2 l
    /\ existsb is_vendor_dispatch l = false.
Proof.
  apply (metalfx_dispatch_never_native demo_respond 1 demo_present demo_generate 10 11 demo_handle (demo_frame 3) demo_world).
  vm_compute. reflexivity.
Defined.
