(* ===== verification/FrameGenBounds.v ===== *)
(** * Frame generation: the frame configurations stay bounded

    Each context keeps at most 64 frame configurations, one per frame ID, through
    every sequence of API calls; a configured frame is found again, and an error
    leaves the list as it was. *)

From stdpp Require Import base list gmap.
From Stdlib Require Import ZArith Lia.
From S2P Require Import Prelude.
From S2P Require Import FfxApi.
From S2P Require Import FrameGenState.
From S2P Require Import FrameGen.
From S2P Require Import FrameGenConfigs.
From S2P Require Import FrameGenChain.
From S2P Require Import FrameGenDemo.

Open Scope Z_scope.

(** ** The invariant *)

Definition configs_ok (l : list frame_config_snapshot) : Prop :=
  NoDup (fs_frame_id <$> l) /\ (length l <= 64)%nat.

Definition world_ok (w : world) : Prop :=
  map_Forall (fun _ x => configs_ok (frame_configs x)) (w_heap w).

Definition stays_ok (w w' : world) : Prop := world_ok w -> world_ok w'.

#[export] Instance stays_ok_preorder : PreOrder stays_ok.
Proof. split; [intros w H; exact H | intros w1 w2 w3 H1 H2 H; exact (H2 (H1 H))]. Qed.

(** ** The list operations *)

Lemma replace_frame_config_ids s l o l' :
  replace_frame_config s l = Some (o, l') -> fs_frame_id <$> l' = fs_frame_id <$> l.
Proof.
  revert l'. induction l as [| t l IH]; simpl; intros l' H; [done |].
  destruct (Z.eqb_spec (fs_frame_id t) (fs_frame_id s)).
  - injection H as <- <-. simpl. by rewrite e.
  - destruct (replace_frame_config s l) as [[? k]|]; [| done]. injection H as <- <-.
    csimpl. f_equal. exact (IH k eq_refl).
Qed.

Lemma replace_frame_config_none s l :
  replace_frame_config s l = None -> fs_frame_id s ∉ (fs_frame_id <$> l).
Proof.
  induction l as [| t l IH]; simpl; intros H; [set_solver |].
  destruct (Z.eqb_spec (fs_frame_id t) (fs_frame_id s)); [done |].
  destruct (replace_frame_config s l) as [[? ?]|]; [done |].
  apply not_elem_of_cons. split; [congruence | by apply IH].
Qed.

Lemma configs_ok_replace s l o l' :
  replace_frame_config s l = Some (o, l') -> configs_ok l -> configs_ok l'.
Proof.
  intros H%replace_frame_config_ids [H1 H2]. split; [by rewrite H |].
  rewrite <- (length_fmap fs_frame_id l'), H, length_fmap. done.
Qed.

Lemma configs_ok_cons s l :
  replace_frame_config s l = None -> (length l < 64)%nat -> configs_ok l -> configs_ok (s :: l).
Proof.
  intros H%replace_frame_config_none Hl [H1 H2]. split; [by constructor | simpl; lia].
Qed.

Lemma configs_ok_retire l id : configs_ok l -> configs_ok (retire_lists l id).1.
Proof.
  intros [H1 H2]. rewrite retire_lists_spec.
  destruct (find_frame_config l id) as [f|]; [simpl | by split].
  split.
  - eapply sublist_NoDup; [exact H1 |]. apply fmap_sublist, sublist_filter.
  - etransitivity; [apply length_filter | done].
Qed.

(** ** The invariant is kept *)

(** An update that turns a good list into a good one. *)
Lemma ok_updated c x y w :
  w_heap w !! c = Some x -> (configs_ok (frame_configs x) -> configs_ok (frame_configs y)) ->
  stays_ok w (updated c y w).
Proof.
  intros Hx Hy Hw. unfold world_ok, updated. simpl. apply map_Forall_insert_2; [| done].
  apply Hy, (Hw c x Hx).
Qed.

Lemma ok_heap w w' : w_heap w' = w_heap w -> stays_ok w w'.
Proof. intros E. unfold stays_ok, world_ok. by rewrite E. Qed.

Lemma ok_quiet w w' : quiet w w' -> stays_ok w w'.
Proof. intros H. by apply ok_heap, quiet_heap. Qed.

(** [absent c w w']: while [c] is not allocated, nothing is. *)
Definition absent (c : ptr) (w w' : world) : Prop :=
  w_heap w !! c = None -> w_heap w' = w_heap w.

#[local] Instance absent_preorder c : PreOrder (absent c).
Proof.
  split; [by intros w |]. intros w1 w2 w3 H1 H2 H. rewrite H2; [by apply H1 |].
  by rewrite (H1 H).
Qed.

Section Bounds.
Variable respond : list (event * response) -> event -> response.

Lemma ab_quiet {A} c (m : W A) : keeps quiet m -> keeps (absent c) m.
Proof. intros H w _. by apply quiet_heap. Qed.
Lemma ab_getc c : keeps (absent c) (getc c).
Proof. intros w H. unfold getc. by rewrite H. Qed.
Lemma ab_modc c f : keeps (absent c) (modc c f).
Proof. intros w H. unfold modc. by rewrite H. Qed.
Lemma ab_fault c : keeps (absent c) fault.
Proof. by intros w H. Qed.
Hint Resolve ab_getc ab_modc ab_fault : c_db.
Hint Extern 5 (keeps (absent _) _) => apply ab_quiet : c_db.
Hint Resolve q_ext q_release_resource q_retain_resource q_free_memory q_allocate_memory
  q_bridge_call q_configure_translation : c_db.
Lemma ab_enter c : keeps (absent c) (enter_dispatch c).
Proof. apply ab_modc. Qed.
Lemma ab_leave c : keeps (absent c) (leave_dispatch c).
Proof. unfold leave_dispatch. keeps_auto. Qed.
Lemma ab_release_config c s : keeps (absent c) (release_frame_config respond c s).
Proof. unfold release_frame_config. keeps_auto. Qed.
Hint Resolve ab_enter ab_leave ab_release_config : c_db.
Lemma ab_clear c : keeps (absent c) (clear_frame_configs respond c).
Proof. unfold clear_frame_configs. keeps_auto. Qed.
Lemma ab_retire c id : keeps (absent c) (retire_frame_configs respond c id).
Proof. unfold retire_frame_configs. keeps_auto. Qed.
Lemma ab_snapshot c d : keeps (absent c) (snapshot_frame_config respond c d).
Proof. unfold snapshot_frame_config. keeps_auto. Qed.
Lemma ab_store c d : keeps (absent c) (store_native_config respond c d).
Proof. unfold store_native_config. keeps_auto. Qed.
Hint Resolve ab_clear ab_store : c_db.

(** A function of one context keeps the invariant if it does when the context is
    allocated. *)
Lemma ok_allocated {A} c (m : W A) w :
  keeps (absent c) m -> (forall x, w_heap w !! c = Some x -> stays_ok w (m w).2) ->
  stays_ok w (m w).2.
Proof.
  intros Ha Hm. destruct (w_heap w !! c) as [x|] eqn:E; [by apply (Hm x) |].
  by apply ok_heap, Ha.
Qed.

Lemma ok_clear c : keeps stays_ok (clear_frame_configs respond c).
Proof.
  intros w. apply (ok_allocated c); [apply ab_clear |]. intros x Hx.
  etransitivity; [apply (ok_updated c x (cleared x)); [done |] |
                  by apply ok_quiet, clear_effect].
  intros _. split; [constructor | simpl; lia].
Qed.

Lemma ok_retire c id : keeps stays_ok (retire_frame_configs respond c id).
Proof.
  intros w. apply (ok_allocated c); [apply ab_retire |]. intros x Hx.
  etransitivity; [apply (ok_updated c x (retired id x)); [done |] |
                  by apply ok_quiet, retire_effect].
  apply configs_ok_retire.
Qed.

Lemma ok_modc c f :
  (forall x, frame_configs (f x) = frame_configs x) -> keeps stays_ok (modc c f).
Proof.
  intros Hf w. unfold modc. destruct (w_heap w !! c) as [x|] eqn:E; [| by apply ok_heap].
  apply (ok_updated c x (f x)); [done |]. by rewrite Hf.
Qed.

Lemma ok_snapshot c d : keeps stays_ok (snapshot_frame_config respond c d).
Proof.
  intros w. apply (ok_allocated c); [apply ab_snapshot |]. intros x Hx.
  destruct (snapshot_effect respond c d x w Hx) as [_ Q].
  etransitivity; [| apply ok_quiet, Q]. apply (ok_updated c x); [done |].
  cbn [frame_configs set_frame_configs]. unfold snapshot_outcome.
  destruct (negb _); [done |]. destruct (_ =? NULL); [done |].
  destruct (replace_frame_config _ _) as [[o l]|] eqn:E; [by apply (configs_ok_replace _ _ _ _ E) |].
  destruct (Z.leb_spec 64 (Z.of_nat (length (frame_configs x)))); [done |].
  apply configs_ok_cons; [done | lia].
Qed.

Lemma ok_of_quiet {A} (m : W A) : keeps quiet m -> keeps stays_ok m.
Proof. intros H w. apply ok_quiet, H. Qed.
Lemma ok_getc c : keeps stays_ok (getc c).
Proof. intros w. apply ok_heap. unfold getc. by destruct (w_heap w !! c). Qed.
Lemma ok_locks (m : W unit) :
  m = acquire_contexts \/ m = release_contexts \/ m = acquire_debug \/ m = release_debug ->
  keeps stays_ok m.
Proof.
  intros H w. apply ok_heap. destruct H as [-> | [-> | [-> | ->]]]; simpl; by case_match.
Qed.
Hint Resolve ok_getc ok_clear : c_db.
Hint Extern 1 (keeps stays_ok (modc _ _)) => apply ok_modc; reflexivity : c_db.
Hint Extern 5 (keeps stays_ok _) => apply ok_of_quiet : c_db.

Lemma ok_store c d : keeps stays_ok (store_native_config respond c d).
Proof. unfold store_native_config. keeps_auto. Qed.

Lemma ok_detach_drained c s r : keeps stays_ok (detach_drained respond c s r).
Proof.
  unfold detach_drained, clear_swapchain_claim, release_swapchain. keeps_auto; apply ok_locks; auto.
Qed.

Lemma ok_delete c : keeps stays_ok (mmodify (fun w => set_w_heap (delete c (w_heap w)) w)).
Proof. intros w H. unfold world_ok. simpl. by apply map_Forall_delete. Qed.
Hint Resolve ok_delete : c_db.

Lemma ok_free_storage c : keeps stays_ok (free_context_storage respond c).
Proof. unfold free_context_storage. keeps_auto. Qed.

Lemma ok_putc c x w : configs_ok (frame_configs x) -> stays_ok w (putc c x w).2.
Proof. intros Hx Hw. unfold world_ok. simpl. by apply map_Forall_insert_2. Qed.

#[export] Instance bounds_plain : plain_parts respond stays_ok.
Proof.
  constructor; intros; try apply _; try (by apply ok_locks; auto).
  - apply ok_of_quiet, q_ext.
  - intros w. by apply ok_heap.
  - apply ok_getc.
  - apply ok_modc. intros x. by destruct (H x).
  - intros w. apply ok_heap. destruct (H w) as (_ & E & _). exact E.
  - apply ok_snapshot.
  - apply ok_retire.
  - apply ok_clear.
  - apply ok_store.
Qed.

#[export] Instance bounds_fine : fine_parts respond stays_ok.
Proof.
  constructor; intros; try apply _; try (apply ok_of_quiet, q_ext).
  - by apply ok_modc.
  - apply Sealed, ok_detach_drained.
  - apply ok_free_storage.
  - apply ok_putc. split; [constructor | simpl; lia].
  - rewrite bind_run. etransitivity; [| apply (ok_of_quiet _ (q_ext respond _))].
    apply ok_putc. split; [constructor | simpl; lia].
Qed.
End Bounds.

(** ** Insert and look up *)

(** Entries at other frame IDs: what a list holds for the frames below [id]. *)
Lemma find_below_cons s l id : id < fs_frame_id s -> find_frame_config (s :: l) id = find_frame_config l id.
Proof.
  intros H. unfold find_frame_config. simpl.
  destruct (Z.eqb_spec (fs_frame_id s) id); [lia |]. destruct (Z.ltb_spec (fs_frame_id s) id); [lia | done].
Qed.

Lemma find_from_replace s l o l' best id :
  replace_frame_config s l = Some (o, l') -> id < fs_frame_id s ->
  find_frame_config_from best l' id = find_frame_config_from best l id.
Proof.
  intros H Hid. revert best l' H. induction l as [| t l IH]; simpl; intros best l' H; [done |].
  destruct (Z.eqb_spec (fs_frame_id t) (fs_frame_id s)) as [E | E].
  - injection H as <- <-. simpl.
    destruct (Z.eqb_spec (fs_frame_id s) id), (Z.eqb_spec (fs_frame_id t) id); try lia.
    destruct (Z.ltb_spec (fs_frame_id s) id), (Z.ltb_spec (fs_frame_id t) id); lia || done.
  - destruct (replace_frame_config s l) as [[? k]|]; [| done]. injection H as <- <-. simpl.
    by rewrite !(IH _ k eq_refl).
Qed.

Lemma find_from_replaced s l o l' best :
  replace_frame_config s l = Some (o, l') ->
  find_frame_config_from best l' (fs_frame_id s) = Some s.
Proof.
  revert best l'. induction l as [| t l IH]; simpl; intros best l' H; [done |].
  destruct (Z.eqb_spec (fs_frame_id t) (fs_frame_id s)) as [E | E].
  - injection H as <- <-. simpl. by rewrite Z.eqb_refl.
  - destruct (replace_frame_config s l) as [[? k]|]; [| done]. injection H as <- <-. simpl.
    rewrite (proj2 (Z.eqb_neq _ _) E). case_match; by apply IH.
Qed.

Lemma snapshot_outcome_find l d p s0 :
  frameGenerationEnabled d = true -> (snapshot_outcome l d p).1 = FFX_API_RETURN_OK ->
  s0 = mkSnapshot p (frameID d) (HUDLessColor d) ->
  find_frame_config (snapshot_outcome l d p).2 (frameID d) = Some s0
  /\ forall id, id < frameID d -> find_frame_config (snapshot_outcome l d p).2 id = find_frame_config l id.
Proof.
  unfold snapshot_outcome. intros -> H ->. cbn [negb] in *.
  destruct (p =? NULL); [done |]. destruct (replace_frame_config _ _) as [[o l']|] eqn:E.
  - split; [exact (find_from_replaced _ _ _ _ None E) |].
    intros id Hid. exact (find_from_replace _ _ _ _ None id E Hid).
  - destruct (64 <=? _); [done |]. cbn [snd]. split.
    + unfold find_frame_config. simpl. by rewrite Z.eqb_refl.
    + intros id Hid. by apply find_below_cons.
Qed.

(** Configuring a frame succeeds by recording exactly that frame: a later lookup
    of the frame ID finds the HUD-less resource just configured, and every earlier
    frame still finds what it found before; a failure leaves the list untouched. *)
Theorem snapshot_frame_config_roundtrip
    (respond : list (event * response) -> event -> response) (c : ptr)
    (d : ffxConfigureDescFrameGeneration) (x : fg_context) (w : world)
    (Hx : w_heap w !! c = Some x) (Hen : frameGenerationEnabled d = true) :
  let r := snapshot_frame_config respond c d w in
  exists y, w_heap r.2 !! c = Some y
    /\ if r.1 =? FFX_API_RETURN_OK
       then (exists s, find_frame_config (frame_configs y) (frameID d) = Some s
                       /\ fs_hudless s = HUDLessColor d)
            /\ (forall id, id < frameID d ->
                 find_frame_config (frame_configs y) id = find_frame_config (frame_configs x) id)
       else frame_configs y = frame_configs x.
Proof.
  destruct (snapshot_effect respond c d x w Hx) as [E Q]. simpl.
  eexists. split; [rewrite (quiet_heap _ _ Q); apply updated_lookup |].
  cbn [frame_configs set_frame_configs]. rewrite E.
  destruct (Z.eqb_spec (snapshot_outcome (frame_configs x) d (snapshot_block respond x w)).1
              FFX_API_RETURN_OK) as [Hok | Hbad].
  - destruct (snapshot_outcome_find _ _ _ _ Hen Hok eq_refl) as [F1 F2].
    split; [| exact F2]. eexists. split; [exact F1 | done].
  - unfold snapshot_outcome in *. rewrite Hen in *. cbn [negb] in *.
    repeat case_match; done.
Qed.

Lemma snapshot_frame_config_roundtrip_witness :
  exists y, w_heap (snapshot_frame_config demo_respond demo_handle (demo_config true 5) demo_world).2
              !! demo_handle = Some y
    /\ length (frame_configs y) = 3%nat.
Proof.
  pose proof (snapshot_frame_config_roundtrip demo_respond demo_handle (demo_config true 5)
                demo_context demo_world ltac:(vm_compute; reflexivity) eq_refl) as (y & Hy & _).
  exists y. split; [exact Hy |]. revert Hy. vm_compute. by intros [= <-].
Defined.

(** C6: the frame configurations of a context never outgrow their bound: from process
    start, through any sequence of API calls and swapchain callbacks, each context
    keeps at most 64 of them, with pairwise different frame IDs. *)
Theorem frame_configs_bounded (respond : list (event * response) -> event -> response)
    (builtin_instance : Z) (app_present : ptr -> ptr -> Z -> W Z)
    (app_generate : ptr -> ptr -> ffxDispatchDescFrameGeneration ->
                    W (Z * ffxDispatchDescFrameGeneration))
    (present_addr generation_addr automatic_name metalfx_name : ptr)
    (Hpres : forall f u n, keeps stays_ok (app_present f u n))
    (Hgen : forall f u d, keeps stays_ok (app_generate f u d))
    (l : list api_op)
    (Hfresh : fresh_ops (respond := respond) builtin_instance present_addr generation_addr
                automatic_name metalfx_name app_present app_generate l initial_world)
    (c : ptr) (x : fg_context)
    (Hx : w_heap (mfor (run_op (respond := respond) builtin_instance present_addr
                    generation_addr automatic_name metalfx_name app_present app_generate) l
                    initial_world).2 !! c = Some x) :
  NoDup (fs_frame_id <$> frame_configs x) /\ (length (frame_configs x) <= 64)%nat.
Proof.
  assert (K : world_ok initial_world) by (intros i y H; done).
  apply (c_run_ops (R := stays_ok) builtin_instance present_addr generation_addr
           automatic_name metalfx_name app_present app_generate Hpres Hgen l _ Hfresh) in K.
  exact (K c x Hx).
Qed.

Lemma frame_configs_bounded_witness :
  NoDup (fs_frame_id <$> frame_configs demo_context) /\ length (frame_configs demo_context) = 2%nat.
Proof.
  split; [| vm_compute; reflexivity].
  apply (frame_configs_bounded demo_respond 1 demo_present demo_generate 10 11 12 13
           (fun f u n => keeps_return stays_ok 0)
           (fun f u d => keeps_return stays_ok (0, d))
           demo_session ltac:(repeat split) demo_handle demo_context).
  vm_compute. reflexivity.
Defined.
