(* ===== verification/FrameGenRefs.v ===== *)
(** * Frame generation: COM reference accounting

    Every reference the module takes on an object of the application, by [AddRef] or
    by asking a swapchain for its stable interface, is given back exactly once: at every
    API boundary the references taken so far, minus those given back, are the references
    the live contexts hold. *)

From stdpp Require Import base list gmap relations.
From Stdlib Require Import ZArith Lia.
From S2P Require Import Prelude.
From S2P Require Import FfxApi.
From S2P Require Import FrameGenState.
From S2P Require Import FrameGen.
From S2P Require Import FrameGenConfigs.
From S2P Require Import FrameGenSteps.
From S2P Require Import FrameGenChain.
From S2P Require Import FrameGenDemo.

Open Scope Z_scope.

(** ** Counting *)

(** The references a call takes on object [p]; a successful [QueryInterface] takes one on
    the interface it returns. *)
Definition ref_delta (p : ptr) (e : event) (r : response) : Z :=
  match e with
  | Ev_AddRef q => b2z (q =? p)
  | Ev_Release q | Ev_swapchain_Release q => - b2z (q =? p)
  | Ev_QueryInterface _ => b2z ((0 <=? rs_code r) && (rs_value r =? p))
  | _ => 0
  end.

Fixpoint net_refs (p : ptr) (t : list (event * response)) : Z :=
  match t with
  | [] => 0
  | er :: t => ref_delta p er.1 er.2 + net_refs p t
  end.

Definition res_refs (p : ptr) (r : FfxApiResource) : Z := b2z (resource r =? p).

Fixpoint snapshot_refs (p : ptr) (l : list frame_config_snapshot) : Z :=
  match l with
  | [] => 0
  | s :: l => res_refs p (fs_hudless s) + snapshot_refs p l
  end.

(** The references a context holds on [p]. *)
Definition held (p : ptr) (x : fg_context) : Z :=
  res_refs p (hudless x) + snapshot_refs p (frame_configs x) + b2z (device x =? p)
  + b2z (swapchain x =? p).

Definition held_total (p : ptr) (h : gmap Z fg_context) : Z :=
  map_fold (fun _ x acc => held p x + acc) 0 h.

(** References taken and neither given back nor held by a context. *)
Definition unaccounted (p : ptr) (w : world) : Z :=
  net_refs p (w_trace w) - held_total p (w_heap w).

Lemma held_total_insert_new p c x h :
  h !! c = None -> held_total p (<[c := x]> h) = held p x + held_total p h.
Proof.
  intros H. unfold held_total.
  rewrite (map_fold_insert_L (fun _ x acc => held p x + acc)); [done | | done].
  intros. lia.
Qed.

Lemma held_total_delete p c x h :
  h !! c = Some x -> held_total p h = held p x + held_total p (delete c h).
Proof.
  intros H. rewrite <- (insert_delete_id h c x H) at 1.
  apply held_total_insert_new, lookup_delete_eq.
Qed.

Lemma held_total_insert p c x y h :
  h !! c = Some x -> held_total p (<[c := y]> h) = held_total p h + held p y - held p x.
Proof.
  intros H. rewrite (held_total_delete p c x h H).
  rewrite <- (insert_delete_eq h c y), held_total_insert_new by apply lookup_delete_eq. lia.
Qed.

Lemma snapshot_refs_app p l k :
  snapshot_refs p (l ++ k) = snapshot_refs p l + snapshot_refs p k.
Proof. induction l; simpl; lia. Qed.

Lemma snapshot_refs_perm p l k : l ≡ₚ k -> snapshot_refs p l = snapshot_refs p k.
Proof. induction 1; simpl; lia. Qed.

Lemma snapshot_refs_retire p l id :
  snapshot_refs p (retire_lists l id).1 + snapshot_refs p (retire_lists l id).2
  = snapshot_refs p l.
Proof. rewrite <- snapshot_refs_app. apply snapshot_refs_perm, retire_lists_permutation. Qed.

Lemma replace_frame_config_refs p s l old l' :
  replace_frame_config s l = Some (old, l') ->
  snapshot_refs p l' + res_refs p (fs_hudless old)
  = snapshot_refs p l + res_refs p (fs_hudless s).
Proof.
  revert l'. induction l as [| t l IH]; simpl; intros l' H; [done |].
  case_match; [simplify_eq; simpl; lia |].
  case_match; [| done]. destruct p0 as [o k]. simplify_eq. simpl.
  specialize (IH k eq_refl). lia.
Qed.

(** ** The accounting relation *)

(** Along [moves p d], an execution that does not fault changes the unaccounted
    references by [d]. *)
Definition moves (p : ptr) (d : Z) (w w' : world) : Prop :=
  w_fault w' = false -> w_fault w = false /\ unaccounted p w' = unaccounted p w + d.

Abbreviation accounts p := (moves p 0).

#[export] Instance accounts_preorder p : PreOrder (accounts p).
Proof.
  split.
  - intros w H. split; [done | lia].
  - intros w1 w2 w3 H1 H2 H. destruct (H2 H) as [H2' E2], (H1 H2') as [H1' E1].
    split; [done | lia].
Qed.

Lemma moves_trans p d1 d2 w1 w2 w3 :
  moves p d1 w1 w2 -> moves p d2 w2 w3 -> moves p (d1 + d2) w1 w3.
Proof.
  intros H1 H2 H. destruct (H2 H) as [H2' E2], (H1 H2') as [H1' E1]. split; [done | lia].
Qed.

Lemma moves_fault p d w w' : w_fault w' = true -> moves p d w w'.
Proof. intros H E. congruence. Qed.

Section Refs.
Variable respond : list (event * response) -> event -> response.
Variable builtin_instance : Z.
Variable present_callback_addr generation_callback_addr : ptr.
Variable automatic_provider_name metalfx_provider_name : ptr.
Variable p : ptr.
Hypothesis p_not_null : p <> NULL.

(** [traced d m]: [m] only makes calls, which take [d] references. *)
Definition traced {A} (d : Z) (m : W A) : Prop :=
  forall w, exists t, (m w).2 = set_w_trace t w
                      /\ net_refs p t = net_refs p (w_trace w) + d.

Lemma traced_moves {A} d (m : W A) w : traced d m -> moves p d w (m w).2.
Proof.
  intros H E. destruct (H w) as (t & Ht & Hn). rewrite Ht in E |- *. simpl in *.
  split; [done |]. unfold unaccounted. simpl. lia.
Qed.

Lemma traced_heap {A} d (m : W A) w : traced d m -> w_heap (m w).2 = w_heap w.
Proof. intros H. destruct (H w) as (t & -> & _). done. Qed.

Lemma traced_fault {A} d (m : W A) w : traced d m -> w_fault (m w).2 = w_fault w.
Proof. intros H. destruct (H w) as (t & -> & _). done. Qed.

Lemma traced_return {A} (a : A) : traced 0 (mreturn a).
Proof. intros w. exists (w_trace w). split; [by destruct w | simpl; lia]. Qed.

Lemma traced_bind {A B} d1 d2 (m : W A) (k : A -> W B) :
  traced d1 m -> (forall a, traced d2 (k a)) -> traced (d1 + d2) (mbind' m k).
Proof.
  intros Hm Hk w. rewrite bind_run. destruct (Hm w) as (t & Ht & Hn).
  destruct (Hk (m w).1 (m w).2) as (t' & Ht' & Hn'). exists t'.
  rewrite Ht', Ht in *. simpl in *. split; [done | lia].
Qed.

Lemma traced_ext d e : (forall r, ref_delta p e r = d) -> traced d (ext respond e).
Proof. intros H w. eexists. split; [reflexivity |]. simpl. rewrite H. lia. Qed.

Lemma traced_ext_0 e : (forall r, ref_delta p e r = 0) -> traced 0 (ext respond e).
Proof. apply traced_ext. Qed.

Lemma traced_eq {A} d d' (m : W A) : d = d' -> traced d m -> traced d' m.
Proof. by intros ->. Qed.

Ltac traced_step :=
  match goal with
  | |- traced 0 (mbind' _ _) => eapply (traced_bind 0 0); [| intros ?]
  | |- traced 0 (mreturn _) => apply traced_return
  | |- traced 0 (ext _ _) => by apply traced_ext_0
  | |- traced 0 (match ?x with _ => _ end) => destruct x
  | |- traced 0 _ => solve [eauto with c_db]
  end.
Ltac traced_auto := repeat traced_step.

Lemma t_allocate_memory cb k : traced 0 (allocate_memory respond cb k).
Proof. unfold allocate_memory. traced_auto. Qed.
Lemma t_free_memory cb q : traced 0 (free_memory respond cb q).
Proof. unfold free_memory. traced_auto. Qed.
Lemma t_bridge_call q : traced 0 (bridge_call respond q).
Proof. unfold bridge_call. traced_auto. Qed.
Hint Resolve t_allocate_memory t_free_memory t_bridge_call : c_db.
Lemma t_configure_translation x b : traced 0 (configure_translation respond x b).
Proof. unfold configure_translation. traced_auto. Qed.
Lemma t_destroy_translation x : traced 0 (destroy_translation respond x).
Proof. unfold destroy_translation. traced_auto. Qed.

Lemma res_refs_null r : resource r = NULL -> res_refs p r = 0.
Proof. unfold res_refs. intros ->. by destruct (Z.eqb_spec 0 p). Qed.

Lemma t_release_resource r : traced (- res_refs p r) (release_resource respond r).
Proof.
  unfold release_resource, mwhen. destruct (Z.eqb_spec (resource r) NULL) as [E | E]; simpl.
  - rewrite (res_refs_null r E). change (-0) with 0. traced_auto.
  - eapply traced_eq; [| eapply traced_bind; [eapply traced_bind;
      [apply traced_ext; intros ?; cbn; reflexivity | intros ?; apply traced_return] | intros ?; apply traced_return]].
    unfold res_refs. simpl. lia.
Qed.

Lemma t_retain_resource r : traced (res_refs p r) (retain_resource respond r).
Proof.
  unfold retain_resource, mwhen. destruct (Z.eqb_spec (resource r) NULL) as [E | E]; simpl.
  - rewrite (res_refs_null r E). traced_auto.
  - eapply traced_eq; [| eapply traced_bind; [eapply traced_bind;
      [apply traced_ext; intros ?; cbn; reflexivity | intros ?; apply traced_return] | intros ?; apply traced_return]].
    unfold res_refs. simpl. lia.
Qed.

Lemma retain_resource_value r w : (retain_resource respond r w).1 = r.
Proof. unfold retain_resource. by rewrite bind_run. Qed.

Lemma release_resource_value r w : (release_resource respond r w).1 = null_resource.
Proof. unfold release_resource. by rewrite bind_run. Qed.

(** ** Assignments *)

Lemma getc_moves c w : accounts p w (getc c w).2.
Proof.
  unfold getc. destruct (w_heap w !! c); simpl; [reflexivity | by apply moves_fault].
Qed.

Lemma modc_moves c f d w :
  (forall x, w_heap w !! c = Some x -> held p (f x) = held p x - d) ->
  moves p d w (modc c f w).2.
Proof.
  intros H. unfold modc. destruct (w_heap w !! c) as [x|] eqn:E; simpl;
    [| by apply moves_fault].
  intros Hf. simpl in *. split; [done |]. unfold unaccounted. simpl.
  rewrite (held_total_insert p c x (f x) _ E), (H x eq_refl). lia.
Qed.

Definition keeps_held (f : fg_context -> fg_context) : Prop := forall x, held p (f x) = held p x.

Lemma a_getc c : keeps (accounts p) (getc c).
Proof. intros w. apply getc_moves. Qed.

Lemma a_modc c f : keeps_held f -> keeps (accounts p) (modc c f).
Proof. intros H w. apply modc_moves. intros x _. rewrite H. lia. Qed.

Lemma a_traced {A} (m : W A) : traced 0 m -> keeps (accounts p) m.
Proof. intros H w. by apply traced_moves. Qed.

Lemma a_ext e : (forall r, ref_delta p e r = 0) -> keeps (accounts p) (ext respond e).
Proof. intros H. by apply a_traced, traced_ext_0. Qed.

Lemma a_modify f :
  (forall w, w_trace (f w) = w_trace w /\ w_heap (f w) = w_heap w) ->
  (forall w, w_fault (f w) = false -> w_fault w = false) ->
  keeps (accounts p) (mmodify f).
Proof.
  intros H Hf w E. simpl in *. split; [auto |]. unfold unaccounted.
  destruct (H w) as [-> ->]. lia.
Qed.

Lemma a_fault : keeps (accounts p) fault.
Proof. intros w. by apply moves_fault. Qed.

Ltac lock_tac := intros w; unfold acquire_contexts, release_contexts, acquire_debug,
  release_debug; simpl; case_match; [try by apply moves_fault | try by apply moves_fault];
  intros E; simpl in *; (split; [done | unfold unaccounted; simpl; lia]).

Lemma a_acquire_contexts : keeps (accounts p) acquire_contexts.
Proof. lock_tac. Qed.
Lemma a_release_contexts : keeps (accounts p) release_contexts.
Proof. lock_tac. Qed.
Lemma a_acquire_debug : keeps (accounts p) acquire_debug.
Proof. lock_tac. Qed.
Lemma a_release_debug : keeps (accounts p) release_debug.
Proof. lock_tac. Qed.

Hint Resolve a_getc a_modc a_traced a_ext a_fault a_acquire_contexts a_release_contexts
  a_acquire_debug a_release_debug t_configure_translation t_destroy_translation : c_db.
Hint Extern 1 (keeps_held _) => intros ?; reflexivity : c_db.
Hint Extern 1 (forall r, ref_delta _ _ r = 0) => (intros ?; reflexivity) : c_db.

Ltac a_fun f := intros; unfold f; keeps_auto.

Lemma a_acquire_configure c : keeps (accounts p) (acquire_configure c).
Proof. a_fun acquire_configure. Qed.
Lemma a_release_configure c : keeps (accounts p) (release_configure c).
Proof. a_fun release_configure. Qed.
Lemma a_enter_dispatch c : keeps (accounts p) (enter_dispatch c).
Proof. a_fun enter_dispatch. Qed.
Lemma a_leave_dispatch c : keeps (accounts p) (leave_dispatch c).
Proof. a_fun leave_dispatch. Qed.
Lemma a_call_native e : (forall r, ref_delta p e r = 0) -> keeps (accounts p) (call_native respond e).
Proof. a_fun call_native. Qed.
Hint Resolve a_acquire_configure a_release_configure a_enter_dispatch a_leave_dispatch
  a_call_native : c_db.

(** ** The list of frame configurations *)

Lemma release_frame_config_moves c s w :
  moves p (- res_refs p (fs_hudless s)) w (release_frame_config respond c s w).2.
Proof.
  unfold release_frame_config. rewrite bind_run.
  replace (- res_refs p (fs_hudless s)) with (- res_refs p (fs_hudless s) + 0) by lia.
  eapply moves_trans; [apply (traced_moves _ _ w (t_release_resource (fs_hudless s))) |].
  match goal with |- moves _ _ _ (?m _).2 => enough (keeps (accounts p) m) as K by apply K end.
  keeps_auto.
Qed.

Lemma release_frame_configs_moves c l w :
  moves p (- snapshot_refs p l) w (mfor (release_frame_config respond c) l w).2.
Proof.
  revert w. induction l as [| s l IH]; intros w; simpl.
  - replace (-0) with 0 by lia. reflexivity.
  - rewrite bind_run.
    replace (- (res_refs p (fs_hudless s) + snapshot_refs p l))
      with (- res_refs p (fs_hudless s) + - snapshot_refs p l) by lia.
    eapply moves_trans; [apply release_frame_config_moves | apply IH].
Qed.

(** A faulted execution stays faulted, whatever it moves. *)
Lemma moves_faulted d d' w w' : w_fault w = true -> moves p d w w' -> moves p d' w w'.
Proof. intros Hw H E. destruct (H E). congruence. Qed.

Lemma accounts_at {A} (m : W A) w : keeps (accounts p) m -> moves p 0 w (m w).2.
Proof. intros H. apply H. Qed.

Lemma moves_0_l d w1 w2 w3 : moves p 0 w1 w2 -> moves p d w2 w3 -> moves p d w1 w3.
Proof. intros H1 H2. replace d with (0 + d) by lia. by eapply moves_trans. Qed.

Lemma moves_0_r d w1 w2 w3 : moves p d w1 w2 -> moves p 0 w2 w3 -> moves p d w1 w3.
Proof. intros H1 H2. replace d with (d + 0) by lia. by eapply moves_trans. Qed.

(** Skip a balanced first command. *)
Lemma moves_skip {A B} (m : W A) (k : A -> W B) d w :
  keeps (accounts p) m -> moves p d (m w).2 (k (m w).1 (m w).2).2 ->
  moves p d w (mbind' m k w).2.
Proof. intros Hm Hk. rewrite bind_run. eapply moves_0_l; [apply Hm | exact Hk]. Qed.

(** Faults stick. *)
Definition sticky (w w' : world) : Prop := w_fault w = true -> w_fault w' = true.

#[local] Instance sticky_preorder : PreOrder sticky.
Proof. split; [intros w H; exact H | intros w1 w2 w3 H1 H2 H; exact (H2 (H1 H))]. Qed.

Lemma moves_sticky d w w' : moves p d w w' -> sticky w w'.
Proof. intros H Hw. destruct (w_fault w') eqn:E; [done |]. destruct (H E). congruence. Qed.

Lemma s_accounts {A} (m : W A) : keeps (accounts p) m -> keeps sticky m.
Proof. intros H w. eapply moves_sticky, H. Qed.
Lemma s_modc c f : keeps sticky (modc c f).
Proof. intros w H. unfold modc. by destruct (w_heap w !! c). Qed.
Lemma s_release_resource r : keeps sticky (release_resource respond r).
Proof. intros w. exact (moves_sticky _ _ _ (traced_moves _ _ w (t_release_resource r))). Qed.
Lemma s_retain_resource r : keeps sticky (retain_resource respond r).
Proof. intros w. exact (moves_sticky _ _ _ (traced_moves _ _ w (t_retain_resource r))). Qed.
Lemma s_release_frame_config c s : keeps sticky (release_frame_config respond c s).
Proof. intros w. eapply moves_sticky, release_frame_config_moves. Qed.
Hint Resolve s_modc s_release_resource s_retain_resource s_release_frame_config : c_db.
Hint Resolve s_accounts | 5 : c_db.

(** A read of [*c]: either [c] is allocated, or the execution has faulted. *)
Lemma moves_getc {B} (k : fg_context -> W B) c d w :
  keeps sticky (k zero_context) ->
  (forall x, w_heap w !! c = Some x -> moves p d w (k x w).2) ->
  moves p d w (mbind' (getc c) k w).2.
Proof.
  intros Hf H. rewrite bind_run. unfold getc. destruct (w_heap w !! c) as [x|]; simpl; [auto |].
  apply moves_fault, Hf. done.
Qed.

Lemma modc_moves_at c f x d w :
  w_heap w !! c = Some x -> held p (f x) = held p x - d -> moves p d w (modc c f w).2.
Proof. intros Hx Hd. apply modc_moves. intros y Hy. congruence. Qed.

Lemma moves_cancel {A B} d (m : W A) (k : A -> W B) w :
  moves p d w (m w).2 -> moves p (- d) (m w).2 (k (m w).1 (m w).2).2 ->
  moves p 0 w (mbind' m k w).2.
Proof.
  intros H1 H2. rewrite bind_run. replace 0 with (d + - d) by lia. by eapply moves_trans.
Qed.

Lemma moves_bind {A B} d1 d2 d (m : W A) (k : A -> W B) w :
  d1 + d2 = d ->
  moves p d1 w (m w).2 -> moves p d2 (m w).2 (k (m w).1 (m w).2).2 ->
  moves p d w (mbind' m k w).2.
Proof. intros <- H1 H2. rewrite bind_run. by eapply moves_trans. Qed.

Lemma a_retire c id : keeps (accounts p) (retire_frame_configs respond c id).
Proof.
  intros w. unfold retire_frame_configs. apply moves_skip; [eauto with c_db |].
  apply moves_getc; [keeps_auto |]. intros x Hx.
  eapply (moves_cancel (snapshot_refs p (retire_lists (frame_configs x) id).2)).
  - apply (modc_moves_at _ _ x); [done |]. unfold held. simpl.
    rewrite <- (snapshot_refs_retire p (frame_configs x) id). lia.
  - apply moves_skip; [eauto with c_db | apply release_frame_configs_moves].
Qed.

Lemma a_clear c : keeps (accounts p) (clear_frame_configs respond c).
Proof.
  intros w. unfold clear_frame_configs. apply moves_skip; [eauto with c_db |].
  apply moves_getc; [keeps_auto |]. intros x Hx.
  eapply (moves_cancel (snapshot_refs p (frame_configs x))).
  - apply (modc_moves_at _ _ x); [done |]. unfold held. simpl. lia.
  - do 2 (apply moves_skip; [eauto with c_db |]). apply release_frame_configs_moves.
Qed.

Lemma a_store c d : keeps (accounts p) (store_native_config respond c d).
Proof.
  intros w. unfold store_native_config.
  eapply moves_cancel; [apply (traced_moves _ _ _ (t_retain_resource _)) |].
  rewrite retain_resource_value. apply moves_getc; [keeps_auto |]. intros x Hx.
  rewrite bind_run.
  replace (- res_refs p (HUDLessColor d)) with
    (- res_refs p (hudless x) + (res_refs p (hudless x) - res_refs p (HUDLessColor d))) by lia.
  eapply moves_trans; [apply (traced_moves _ _ _ (t_release_resource _)) |].
  rewrite bind_run. eapply moves_0_r; [| match goal with |- moves _ _ _ (?m _).2 =>
    enough (keeps (accounts p) m) as K by apply K end; keeps_auto].
  apply (modc_moves_at _ _ x); [by erewrite traced_heap by apply t_release_resource |].
  unfold held. simpl. lia.
Qed.
Hint Resolve a_retire a_clear a_store : c_db.

Lemma a_snapshot c d : keeps (accounts p) (snapshot_frame_config respond c d).
Proof.
  intros w. unfold snapshot_frame_config. case_match; [apply accounts_at; keeps_auto |].
  apply moves_skip; [eauto with c_db |]. apply moves_skip; [eauto with c_db |].
  case_match; [apply accounts_at; keeps_auto |].
  eapply moves_cancel; [apply (traced_moves _ _ _ (t_retain_resource _)) |].
  rewrite retain_resource_value. apply moves_skip; [eauto with c_db |].
  apply moves_getc; [keeps_auto |]. intros x Hx.
  destruct (replace_frame_config _ _) as [[old l]|] eqn:R.
  - apply (replace_frame_config_refs p) in R. simpl in R. 
    apply (moves_bind (snapshot_refs p (frame_configs x) - snapshot_refs p l)
                      (- res_refs p (fs_hudless old))); [lia | |].
    + apply (modc_moves_at _ _ x); [done |]. unfold held. simpl. lia.
    + apply moves_skip; [eauto with c_db |].
      apply (moves_bind (- res_refs p (fs_hudless old)) 0); [lia | |].
      * apply release_frame_config_moves.
      * reflexivity.
  - case_match.
    + apply moves_skip; [eauto with c_db |].
      apply (moves_bind (- res_refs p (HUDLessColor d)) 0); [lia | |].
      * match goal with |- context [release_frame_config _ _ ?s] =>
          apply (release_frame_config_moves c s) end.
      * reflexivity.
    + apply (moves_bind (- res_refs p (HUDLessColor d)) 0); [lia | |].
      * apply (modc_moves_at _ _ x); [done |]. unfold held. simpl. lia.
      * apply accounts_at. keeps_auto.
Qed.
Hint Resolve a_snapshot : c_db.

(** Releasing the configured resource and clearing the member. *)
Lemma a_drop_hudless {B} c x (k : W B) w :
  w_heap w !! c = Some x -> keeps (accounts p) k ->
  moves p 0 w (mbind' (release_resource respond (hudless x))
                      (fun h => modc c (set_hudless h) ;;; k) w).2.
Proof.
  intros Hx Hk. eapply (moves_cancel (- res_refs p (hudless x)));
    [apply (traced_moves _ _ _ (t_release_resource _)) |].
  rewrite release_resource_value.
  apply (moves_bind (res_refs p (hudless x)) 0); [lia | | by apply accounts_at].
  apply (modc_moves_at _ _ x); [by erewrite traced_heap by apply t_release_resource |].
  unfold held. simpl. rewrite (res_refs_null null_resource) by done. lia.
Qed.

Lemma delete_moves c x w :
  w_heap w !! c = Some x ->
  moves p (held p x) w (set_w_heap (delete c (w_heap w)) w).
Proof.
  intros Hx E. simpl in *. split; [done |]. unfold unaccounted. simpl.
  rewrite (held_total_delete p c x (w_heap w) Hx). lia.
Qed.

(** [if (device) device->Release()] *)
Lemma t_release_device d :
  traced (- b2z (d =? p)) (mwhen (negb (d =? NULL)) (ext respond (Ev_Release d) ;;; mreturn tt)).
Proof.
  unfold mwhen. destruct (Z.eqb_spec d NULL) as [-> | E]; cbn [negb].
  - eapply traced_eq; [| apply traced_return]. by destruct (Z.eqb_spec NULL p).
  - eapply traced_eq; [| eapply traced_bind; [apply traced_ext; intros ?; cbn; reflexivity | intros ?; apply traced_return]].
    simpl. lia.
Qed.

Lemma s_release_device d :
  keeps sticky (mwhen (negb (d =? NULL)) (ext respond (Ev_Release d) ;;; mreturn tt)).
Proof. intros w. exact (moves_sticky _ _ _ (traced_moves _ _ w (t_release_device d))). Qed.

Lemma s_modify f : (forall w, w_fault (f w) = w_fault w) -> keeps sticky (mmodify f).
Proof. intros H w. simpl. unfold sticky. by rewrite H. Qed.

#[export] Instance accounts_plain : plain_parts respond (accounts p).
Proof.
  constructor; intros; try apply _; try (eauto with c_db; fail).
  - apply a_ext. by destruct e.
  - apply a_modc. intros x. destruct (H x) as (E1 & E2 & E3 & E4). unfold held.
    by rewrite E1, E2, E3, E4.
  - apply a_modify; intros w; destruct (H w) as (E1 & E2 & E3); [done | by rewrite E3].
Qed.

(** ** References to swapchains *)

(** No context gets another swapchain. *)
Definition same_swapchains (w w' : world) : Prop :=
  forall c x', w_heap w' !! c = Some x' ->
    exists x, w_heap w !! c = Some x /\ swapchain x' = swapchain x.

#[local] Instance same_swapchains_preorder : PreOrder same_swapchains.
Proof.
  split; [intros w c x Hx; eauto |]. intros w1 w2 w3 H1 H2 c x Hx.
  destruct (H2 c x Hx) as (y & Hy & E2), (H1 c y Hy) as (z & Hz & E1). exists z.
  split; [done | congruence].
Qed.

Lemma same_swapchains_heap w w' : w_heap w' = w_heap w -> same_swapchains w w'.
Proof. intros E c x Hx. rewrite E in Hx. eauto. Qed.

Lemma y_modc c f : (forall x, swapchain (f x) = swapchain x) -> keeps same_swapchains (modc c f).
Proof.
  intros Hf w. unfold modc. destruct (w_heap w !! c) as [x |] eqn:E; simpl;
    [| by apply same_swapchains_heap].
  intros d y. simpl. rewrite lookup_insert_Some. intros [[<- <-] | [_ Hy]]; eauto.
Qed.

Lemma y_ext e : keeps same_swapchains (ext respond e).
Proof. intros w. by apply same_swapchains_heap. Qed.
Lemma y_getc c : keeps same_swapchains (getc c).
Proof. intros w. apply same_swapchains_heap. unfold getc. by destruct (w_heap w !! c). Qed.
Lemma y_locks (m : W unit) :
  m = acquire_contexts \/ m = release_contexts \/ m = acquire_debug \/ m = release_debug ->
  keeps same_swapchains m.
Proof.
  intros H w. apply same_swapchains_heap.
  destruct H as [-> | [-> | [-> | ->]]]; simpl; by case_match.
Qed.
Lemma y_fault : keeps same_swapchains fault.
Proof. intros w. by apply same_swapchains_heap. Qed.
Hint Resolve y_ext y_getc y_fault : c_db.
Hint Extern 1 (keeps same_swapchains (modc _ _)) => (apply y_modc; reflexivity) : c_db.

Ltac y_unfold f :=
  unfold f, release_frame_config, retain_resource, release_resource, enter_dispatch,
    leave_dispatch, allocate_memory, free_memory; keeps_auto.

#[local] Instance swapchains_plain : plain_parts respond same_swapchains.
Proof.
  constructor; intros; try apply _; try (by apply y_locks; auto); eauto with c_db.
  - apply y_modc. intros x. by destruct (H x) as (_ & _ & _ & E).
  - intros w. apply same_swapchains_heap. by destruct (H w) as (_ & E & _).
  - y_unfold snapshot_frame_config.
  - y_unfold retire_frame_configs.
  - y_unfold clear_frame_configs.
  - y_unfold store_native_config.
Qed.

(** Whatever a faulted execution does, it stays faulted. *)
#[local] Instance sticky_fine : fine_parts respond sticky.
Proof.
  assert (Hacc : forall (m : W unit), keeps (accounts p) m -> keeps sticky m) by (intros; by apply s_accounts).
  assert (Hplain : plain_parts respond sticky).
  { constructor; intros; try apply _; try (apply s_accounts; eauto with c_db; fail).
    - by intros w Hw.
    - apply s_modc.
    - apply s_modify. intros w. by destruct (H w) as (_ & _ & E). }
  constructor; intros; try apply _.
  - by intros w Hw.
  - by intros w Hw.
  - apply s_modc.
  - apply Sealed. unfold detach_drained, clear_swapchain_claim, release_swapchain.
    keeps_auto; by intros w Hw.
  - unfold free_context_storage. keeps_auto; (apply s_release_device || by apply s_modify).
  - by intros Hw.
  - by intros Hw.
Qed.

(** Context [c], while it is allocated, is attached to [s]. *)
Definition attached (c s : ptr) (w : world) : Prop :=
  forall x, w_heap w !! c = Some x -> swapchain x = s.

Lemma attached_same c s w w' : same_swapchains w w' -> attached c s w -> attached c s w'.
Proof. intros H Ha x' Hx'. destruct (H c x' Hx') as (x & Hx & ->). by apply Ha. Qed.

Lemma attached_at c x w : w_heap w !! c = Some x -> attached c (swapchain x) w.
Proof. intros Hx y Hy. congruence. Qed.

(** Skip a balanced first command that changes no swapchain. *)
Lemma moves_keep {A B} (m : W A) (k : A -> W B) (Q : Prop) c s d w :
  keeps (accounts p) m -> keeps same_swapchains m -> (Q -> attached c s w) ->
  ((Q -> attached c s (m w).2) -> moves p d (m w).2 (k (m w).1 (m w).2).2) ->
  moves p d w (mbind' m k w).2.
Proof.
  intros Hm Hs Ha Hk. apply moves_skip; [done |]. apply Hk. intros q.
  by eapply attached_same; [apply Hs | apply Ha].
Qed.

Lemma null_not_p : b2z (NULL =? p) = 0.
Proof. by destruct (Z.eqb_spec NULL p). Qed.

Lemma release_swapchain_moves s w : moves p (- b2z (s =? p)) w (release_swapchain respond s w).2.
Proof.
  unfold release_swapchain, mwhen. destruct (Z.eqb_spec s NULL) as [-> | E]; cbn [negb].
  - rewrite null_not_p. reflexivity.
  - apply traced_moves. eapply traced_eq;
      [| eapply traced_bind; [apply traced_ext; intros ?; cbn; reflexivity | intros ?; apply traced_return]]. lia.
Qed.

Lemma get_stable_moves o w :
  moves p (b2z ((get_stable_swapchain respond o w).1 =? p)) w (get_stable_swapchain respond o w).2.
Proof.
  unfold get_stable_swapchain. destruct (o =? NULL); [change (moves p (b2z (NULL =? p)) w w); rewrite null_not_p; reflexivity |].
  rewrite bind_run. cbn [fst snd mreturn]. set (r := respond (w_trace w) (Ev_QueryInterface o)).
  intros E. simpl in E. split; [done |]. unfold unaccounted. simpl. fold r.
  destruct (0 <=? rs_code r); cbn [andb]; [lia |]. rewrite null_not_p. simpl. lia.
Qed.

Lemma set_swapchain_moves c s t w :
  attached c s w -> moves p (b2z (s =? p) - b2z (t =? p)) w (modc c (set_swapchain t) w).2.
Proof.
  intros Ha. apply modc_moves. intros x Hx. unfold held. simpl. rewrite (Ha x Hx). lia.
Qed.

Lemma clear_claim_moves c s w :
  attached c s w -> moves p (b2z (s =? p)) w (clear_swapchain_claim c w).2.
Proof.
  intros Ha. unfold clear_swapchain_claim.
  apply (moves_keep _ _ True c s); [eauto with c_db | by apply y_locks; auto | done |]. intros Hb.
  apply (moves_bind (b2z (s =? p)) 0); [lia | | apply accounts_at; eauto with c_db].
  replace (b2z (s =? p)) with (b2z (s =? p) - b2z (NULL =? p)) by (rewrite null_not_p; lia).
  by apply set_swapchain_moves, Hb.
Qed.

Lemma claim_moves c s w :
  attached c NULL w ->
  moves p (- b2z ((claim_swapchain c s w).1 && (s =? p))) w (claim_swapchain c s w).2
  /\ ((claim_swapchain c s w).1 = true -> attached c s (claim_swapchain c s w).2).
Proof.
  intros Ha. unfold claim_swapchain. rewrite !bind_run. cbn [fst snd mgets mreturn].
  set (w1 := (acquire_contexts w).2). assert (Ha1 : attached c NULL w1).
  { eapply attached_same; [apply y_locks; auto | exact Ha]. }
  assert (M1 : accounts p w w1) by apply a_acquire_contexts.
  destruct (negb (swapchain_taken w1 c s)) eqn:Hav; cbn [mwhen andb].
  - split.
    + eapply moves_0_l; [exact M1 |]. eapply moves_0_r; [| apply a_release_contexts].
      replace (- b2z (s =? p)) with (b2z (NULL =? p) - b2z (s =? p)) by (rewrite null_not_p; lia).
      by apply set_swapchain_moves.
    + intros _. eapply attached_same; [apply y_locks; auto |]. intros y. unfold modc.
      destruct (w_heap w1 !! c) as [x |] eqn:Hx; simpl; [| by rewrite Hx]. rewrite lookup_insert_eq. by intros [= <-].
  - split; [| done]. eapply moves_0_l; [exact M1 |]. eapply moves_0_r; [reflexivity | apply a_release_contexts].
Qed.

Lemma detach_drained_moves c s r w :
  attached c s w -> moves p 0 w (detach_drained respond c s r w).2.
Proof.
  intros Ha. unfold detach_drained.
  eapply moves_cancel; [by apply clear_claim_moves |].
  apply (moves_bind (- b2z (s =? p)) 0); [lia | apply release_swapchain_moves |].
  do 4 (apply moves_skip; [eauto with c_db |]).
  apply moves_getc; [keeps_auto |]. intros x Hx. apply a_drop_hudless; [done | keeps_auto].
Qed.

Lemma a_detach_native x : keeps (accounts p) (detach_native respond x).
Proof. a_fun detach_native. Qed.
Lemma y_detach_native x : keeps same_swapchains (detach_native respond x).
Proof. unfold detach_native. keeps_auto. apply c_call_native. exact I. Qed.
Hint Resolve a_detach_native y_detach_native : c_db.

Lemma a_detach c : keeps (accounts p) (detach_swapchain respond c).
Proof.
  intros w. unfold detach_swapchain.
  apply moves_getc; [simpl; keeps_auto |]. intros x Hx. cbv zeta.
  destruct (swapchain x =? NULL); [reflexivity |].
  pose proof (attached_at _ _ _ Hx) as Ha.
  do 3 (apply (moves_keep _ _ True c (swapchain x)); [eauto with c_db | eauto with c_db | auto |]; intros ?).
  destruct (_ =? 0); [reflexivity |]. apply detach_drained_moves. auto.
Qed.
Hint Resolve a_detach : c_db.

(** ** Configuration with a swapchain *)

Lemma drop_claim_moves c s n w :
  (n = true -> attached c s w) -> moves p 0 w (drop_claim respond c s n w).2.
Proof.
  intros Ha. unfold drop_claim. destruct n; [| reflexivity]. cbn [mwhen].
  eapply moves_cancel; [by apply clear_claim_moves, Ha | apply release_swapchain_moves].
Qed.

Hint Resolve c_configure_translation c_drop_binding c_acquire_configure c_release_configure
  c_allocate_memory co_snapshot co_retire co_clear co_store : c_db.
Ltac keep_step c s Q :=
  apply (moves_keep _ _ Q c s); [eauto with c_db; keeps_auto | eauto with c_db; keeps_auto | done |]; intros ?.

Lemma configure_translated_moves c s d b changed newly w :
  (newly = true -> attached c s w) ->
  moves p 0 w (configure_translated respond present_callback_addr generation_callback_addr
                 c s d b changed newly w).2.
Proof.
  intros Ha. unfold configure_translated. do 2 keep_step c s (newly = true).
  destruct (negb _).
  { keep_step c s (newly = true).
    apply (moves_bind 0 0); [done | by apply drop_claim_moves | reflexivity]. }
  keep_step c s (newly = true). destruct (negb _); [| apply accounts_at; keeps_auto].
  do 2 keep_step c s (newly = true).
  apply (moves_bind 0 0); [done | by apply drop_claim_moves | reflexivity].
Qed.

(** The reference in hand goes to the context or is given back. *)
Lemma claim_block_moves c s x (changed : bool) b w :
  attached c (swapchain x) w ->
  let m := (if swapchain x =? NULL
            then let! ok := claim_swapchain c s in
                 if ok then mreturn (Some (s, true))
                 else drop_binding respond c changed b ;;;
                      release_swapchain respond s ;;;
                      mreturn None
            else release_swapchain respond s ;;; mreturn (Some (swapchain x, false))) in
  moves p (- b2z (s =? p)) w (m w).2
  /\ forall t newly, (m w).1 = Some (t, newly) -> newly = true -> attached c t (m w).2.
Proof.
  intros Ha m. unfold m. clear m. destruct (Z.eqb_spec (swapchain x) NULL) as [E | E].
  - rewrite E in Ha. destruct (claim_moves c s w Ha) as [Hm Hc]. rewrite bind_run.
    destruct (claim_swapchain c s w).1.
    + split; [exact Hm |]. intros t n [= <- <-] _. by apply Hc.
    + split; [| done]. eapply moves_0_l; [exact Hm |]. apply moves_skip; [eauto with c_db |].
      apply (moves_bind (- b2z (s =? p)) 0); [lia | apply release_swapchain_moves | reflexivity].
  - split; [| by intros t n [= <- <-]].
    apply (moves_bind (- b2z (s =? p)) 0); [lia | apply release_swapchain_moves | reflexivity].
Qed.

Hint Extern 0 (fine_parts _ _) => typeclasses eauto : c_db.
Hint Resolve c_claim c_release_swapchain c_get_stable_swapchain c_configure_translated
  c_configure_with c_detach c_configure_without c_call_native : c_db.
Hint Extern 1 (neutral _) => exact I : c_db.

Lemma configure_with_moves c s d w :
  moves p (- b2z (s =? p)) w
    (configure_with_swapchain respond present_callback_addr generation_callback_addr c s d w).2.
Proof.
  unfold configure_with_swapchain. apply moves_getc; [cbv zeta; keeps_auto |]. intros x Hx.
  cbv zeta. pose proof (attached_at _ _ _ Hx) as Ha. keep_step c (swapchain x) True.
  match goal with |- context [match ?o with Some _ => _ | None => _ end] => destruct o as [b |] end;
    [| apply (moves_bind (- b2z (s =? p)) 0); [lia | apply release_swapchain_moves | reflexivity]].
  match goal with |- moves _ _ ?w0 _ => set (w1 := w0) in * end.
  destruct (claim_block_moves c s x (bool_decide (mode x = CONTEXT_METALFX) && negb (binding_matches (binding x) d))
              b w1 (H I)) as [Hm Hc].
  apply (moves_bind (- b2z (s =? p)) 0); [lia | exact Hm |].
  destruct (_ w1).1 as [[t newly] |] eqn:Ecl; [| reflexivity].
  destruct (bool_decide (mode x = CONTEXT_NATIVE)); [apply accounts_at; keeps_auto |].
  apply configure_translated_moves. by apply Hc.
Qed.

Lemma a_configure_decided c d :
  keeps (accounts p) (configure_decided respond present_callback_addr generation_callback_addr c d).
Proof.
  intros w. unfold configure_decided. apply moves_getc; [cbv zeta; keeps_auto |]. intros x Hx. cbv zeta.
  destruct (_ && _); [reflexivity |]. destruct (negb (negb _)); [apply accounts_at; eauto with c_db |].
  destruct (_ =? NULL); [reflexivity |].
  eapply moves_cancel; [apply get_stable_moves |].
  set (s := (get_stable_swapchain respond _ _).1). set (w1 := (get_stable_swapchain respond _ _).2).
  assert (Hrel : forall (r : Z) w0, moves p (- b2z (s =? p)) w0 ((release_swapchain respond s ;;; mreturn r) w0).2).
  { intros r w0. apply (moves_bind (- b2z (s =? p)) 0); [lia | apply release_swapchain_moves | reflexivity]. }
  destruct (Z.eqb_spec s NULL) as [-> | _]; [rewrite null_not_p; reflexivity |].
  destruct (_ && _); [| apply configure_with_moves].
  destruct (enabled x); [apply Hrel |].
  apply moves_skip; [eauto with c_db |]. destruct (negb _); [apply Hrel | apply configure_with_moves].
Qed.

(** ** Creation and destruction *)


Lemma free_storage_moves c w : attached c NULL w -> moves p 0 w (free_context_storage respond c w).2.
Proof.
  intros Ha. unfold free_context_storage.
  apply moves_getc; [keeps_auto; (apply s_release_device || by apply s_modify) |].
  intros x Hx. apply moves_skip; [eauto with c_db |].
  assert (Hc : w_heap (clear_frame_configs respond c w).2 !! c = Some (cleared x)).
  { rewrite (quiet_heap _ _ (clear_effect respond c x w Hx)). apply updated_lookup. }
  apply moves_getc; [keeps_auto; (apply s_release_device || by apply s_modify) |].
  intros y Hy. rewrite Hc in Hy. injection Hy as <-.
  apply (moves_cancel (- res_refs p (hudless x)));
    [apply (traced_moves _ _ _ (t_release_resource (hudless x))) |].
  rewrite release_resource_value.
  set (w1 := (release_resource respond _ _).2).
  assert (H1 : w_heap w1 !! c = Some (cleared x)).
  { unfold w1. erewrite traced_heap by apply t_release_resource. done. }
  apply (moves_bind (res_refs p (hudless x)) 0); [lia | |].
  { apply (modc_moves_at _ _ (cleared x)); [done |].
    unfold held. simpl. rewrite (res_refs_null null_resource) by done. lia. }
  rewrite (modc_at c _ (cleared x)) by done. cbn [fst snd].
  apply (moves_cancel (- b2z (device x =? p)));
    [apply (traced_moves _ _ _ (t_release_device (device x))) |].
  apply (moves_bind (b2z (device x =? p)) 0); [lia | | apply accounts_at; eauto with c_db].
  replace (b2z (device x =? p)) with (held p (set_hudless null_resource (cleared x))) at 1.
  - apply delete_moves. erewrite traced_heap by apply t_release_device. apply updated_lookup.
  - unfold held. cbn [set_hudless cleared set_frame_configs set_have_last_prepare_frame_id hudless
      frame_configs device swapchain snapshot_refs].
    rewrite (res_refs_null null_resource), (Ha x Hx), null_not_p by done. lia.
Qed.

Lemma putc_moves c x w :
  w_heap w !! c = None -> moves p (- held p x) w (putc c x w).2.
Proof.
  intros Hc E. simpl in *. split; [done |]. unfold unaccounted. simpl.
  rewrite held_total_insert_new by done. lia.
Qed.

Lemma putc_attached c x w : attached c (swapchain x) (putc c x w).2.
Proof. intros y. simpl. rewrite lookup_insert_eq. by intros [= <-]. Qed.

Hint Resolve c_destroy_translation c_have_native c_native_create c_create_providers
  c_wait_references c_reopen_context c_destroy_providers c_in_callback co_global fi_free_storage : c_db.
Hint Extern 1 (global_update _) => (intros []; repeat split) : c_db.
Hint Extern 1 (keeps same_swapchains acquire_contexts) => (apply y_locks; auto) : c_db.
Hint Extern 1 (keeps same_swapchains release_contexts) => (apply y_locks; auto) : c_db.

Lemma finish_create_moves c r cb w :
  attached c NULL w -> moves p 0 w (finish_create respond c r cb w).2.
Proof.
  intros Ha. unfold finish_create. keep_step c NULL True. cbv zeta.
  destruct (negb _); [| apply accounts_at; keeps_auto].
  do 3 keep_step c NULL True.
  apply (moves_bind 0 0); [done | by apply free_storage_moves, H2 | reflexivity].
Qed.

Lemma create_moves instance out desc cb w :
  fresh_block respond cb w -> moves p 0 w (ffxCreateContext respond instance out desc cb w).2.
Proof.
  intros Hfresh. unfold ffxCreateContext, fresh_block in *.
  destruct (negb out); [reflexivity |]. destruct desc as [desc|]; [| reflexivity].
  destruct (_ || _); [reflexivity |]. destruct (classify_create desc) as [e | | fg s];
    [reflexivity | |]; (apply moves_skip; [eauto with c_db |]);
    (destruct (_ =? NULL); [reflexivity |]);
    rewrite <- (allocate_heap respond cb SzContext w) in Hfresh.
  - apply (moves_bind (- held p (new_swapchain_context cb)) 0).
    { unfold held. simpl. rewrite (res_refs_null null_resource) by done. pose proof null_not_p. simpl in *. lia. }
    { by apply putc_moves. }
    pose proof (putc_attached (allocate_memory respond cb SzContext w).1 (new_swapchain_context cb)
                  (allocate_memory respond cb SzContext w).2) as Ha.
    keep_step (allocate_memory respond cb SzContext w).1 NULL True.
    destruct (negb _); [apply (moves_bind 0 0); [done | by apply free_storage_moves, H | reflexivity] |].
    keep_step (allocate_memory respond cb SzContext w).1 NULL True. by apply finish_create_moves, H0.
  - apply (moves_cancel (- held p (new_fg_context cb fg s))); [by apply putc_moves |].
    set (c := (allocate_memory respond cb SzContext w).1) in *.
    pose proof (putc_attached c (new_fg_context cb fg s) (allocate_memory respond cb SzContext w).2) as Ha.
    apply (moves_bind (- - held p (new_fg_context cb fg s)) 0); [lia | |].
    { apply traced_moves, traced_ext. intros r. unfold held. simpl.
      rewrite (res_refs_null null_resource) by done. pose proof null_not_p. simpl in *. lia. }
    match goal with |- moves _ _ ?w0 _ => assert (Ha1 : attached c NULL w0) end.
    { eapply attached_same; [apply y_ext | exact Ha]. }
    keep_step c NULL True. by apply finish_create_moves, H.
Qed.

Lemma a_destroy h cb : keeps (accounts p) (ffxDestroyContext respond h cb).
Proof.
  intros w. unfold ffxDestroyContext. apply moves_skip; [eauto with c_db |].
  destruct h as [c |]; [| reflexivity]. destruct (_ || _); [reflexivity |].
  do 3 (apply moves_skip; [keeps_auto |]). destruct (negb _); [apply accounts_at; keeps_auto |].
  do 5 (apply moves_skip; [keeps_auto |]). apply moves_getc; [keeps_auto |].
  intros x Hx. destruct (Z.eqb_spec (swapchain x) NULL) as [E | E]; cbn [negb]; [| apply accounts_at; keeps_auto].
  pose proof (attached_at _ _ _ Hx) as Ha. rewrite E in Ha.
  do 2 keep_step c NULL True. destruct (negb _); [apply accounts_at; keeps_auto |].
  do 3 keep_step c NULL True.
  apply (moves_bind 0 0); [done | by apply free_storage_moves, H3 | reflexivity].
Qed.
End Refs.

Lemma accounts_composes respond p : p <> NULL -> composes respond (accounts p).
Proof.
  intros Hp. split; [by apply accounts_plain | | |]; intros; apply Sealed.
  - by apply a_configure_decided.
  - by apply create_moves.
  - by apply a_destroy.
Qed.


