(* ===== verification/Upscaler.v ===== *)
(** * The FidelityFX upscaler builtin

    [dlls/amd_fidelityfx_upscaler_dx12/main.c].  The list of contexts with their
    reference counts, creation and destruction, configuration, the queries with
    their single-precision arithmetic, dispatch, and the bounded API log.  The
    translator behind the Unix call, the allocators, the device object, [powf] and
    the environment answer through [respond] and [powf], which are parameters.

    [u_fault] records an access to a context that is not allocated, [u_undefined]
    arithmetic the C standard leaves undefined: signed overflow, or a conversion of
    a float to an integer type that cannot hold it. *)

From stdpp Require Import base list gmap.
From Stdlib Require Import ZArith SpecFloat.
From S2P Require Import Prelude.
From S2P Require Import FfxApi.

Open Scope Z_scope.

(** ** Single-precision arithmetic *)

Definition f32_of_Z (z : Z) : f32 := binary_normalize 24 128 z 0 false.
Definition f32_add : f32 -> f32 -> f32 := SFadd 24 128.
Definition f32_sub : f32 -> f32 -> f32 := SFsub 24 128.
Definition f32_mul : f32 -> f32 -> f32 := SFmul 24 128.
Definition f32_div : f32 -> f32 -> f32 := SFdiv 24 128.

(** The integer a finite float truncates to. *)
Definition f32_trunc (x : f32) : option Z :=
  match x with
  | S754_zero _ => Some 0
  | S754_finite s m e =>
      let v := Z.shiftl (Zpos m) e in Some (if s then - v else v)
  | S754_infinity _ | S754_nan => None
  end.

(** [(uint32_t)x], [(int32_t)x]: undefined out of range. *)
Definition f32_to_uint32 (x : f32) : option Z :=
  match f32_trunc x with
  | Some v => if (0 <=? v) && (v <? 2 ^ 32) then Some v else None
  | None => None
  end.
Definition f32_to_int32 (x : f32) : option Z :=
  match f32_trunc x with
  | Some v => if (- 2 ^ 31 <=? v) && (v <? 2 ^ 31) then Some v else None
  | None => None
  end.

(** [a + b] on [int32_t]: overflow is undefined. *)
Definition int32_add (a b : Z) : option Z :=
  let v := a + b in if (- 2 ^ 31 <=? v) && (v <? 2 ^ 31) then Some v else None.

(** ** Constants and data *)

Definition PROVIDER_ID := 0x4d46580000000001.

Definition FFX_UPSCALER_VERSION := Z.lor (Z.lor (Z.shiftl 4 22) (Z.shiftl 0 12)) 3.

Definition upscale_type := FFX_API_MAKE_EFFECT_SUB_ID FFX_API_EFFECT_ID_UPSCALE.

(** An entry of the creation chain. *)
Record ffxCreateContextDescUpscale := mkCreateUpscale {
  up_flags : Z;
  up_maxRenderSize_width : Z; up_maxRenderSize_height : Z;
  up_maxUpscaleSize_width : Z; up_maxUpscaleSize_height : Z;
  up_fpMessage : ptr }.

Inductive up_entry :=
| U_Upscale (d : ffxCreateContextDescUpscale)
| U_Backend (device : ptr)
| U_Version (version : Z)
| U_Override (versionId : Z)
| U_Other (type : Z).

(** [struct fsr_context] *)
Record fsr_context := mkFsrContext {
  native : Z;
  fsr_device : ptr;
  fsr_allocation : ffxAllocationCallbacks;
  fsr_message : ptr;
  fsr_debug_level : Z;
  fsr_references : Z }.

Definition set_fsr_references (v : Z) (x : fsr_context) : fsr_context :=
  mkFsrContext (native x) (fsr_device x) (fsr_allocation x) (fsr_message x) (fsr_debug_level x) v.
Definition set_fsr_debug (m : ptr) (l : Z) (x : fsr_context) : fsr_context :=
  mkFsrContext (native x) (fsr_device x) (fsr_allocation x) m l (fsr_references x).

Inductive yaagl_fsr_operation :=
| YAAGL_FSR_CREATE | YAAGL_FSR_DESTROY | YAAGL_FSR_CONFIGURE | YAAGL_FSR_QUERY
| YAAGL_FSR_DISPATCH.

Record ffxDispatchDescUpscale := mkDispatchUpscale {
  ud_commandList : ptr;
  ud_color : FfxApiResource; ud_depth : FfxApiResource; ud_motionVectors : FfxApiResource;
  ud_exposure : FfxApiResource; ud_reactive : FfxApiResource;
  ud_transparencyAndComposition : FfxApiResource; ud_output : FfxApiResource;
  ud_jitter_x : f32; ud_jitter_y : f32;
  ud_motionVectorScale_x : f32; ud_motionVectorScale_y : f32;
  ud_renderSize_width : Z; ud_renderSize_height : Z;
  ud_upscaleSize_width : Z; ud_upscaleSize_height : Z;
  ud_enableSharpening : bool; ud_sharpness : f32; ud_frameTimeDelta : f32;
  ud_preExposure : f32; ud_reset : bool;
  ud_cameraNear : f32; ud_cameraFar : f32; ud_cameraFovAngleVertical : f32;
  ud_viewSpaceToMetersFactor : f32; ud_flags : Z }.

(** The packets of [include/yaagl_fsr_bridge.h]: operation, size and context of the
    header, then the members the PE side fills in, in the order of the structures. *)
Record fsr_header := mkFsrHeader { fh_size : Z; fh_operation : yaagl_fsr_operation; fh_context : Z }.

Inductive fsr_packet :=
| FP_Create (h : fsr_header) (device flags max_render_width max_render_height
      max_upscale_width max_upscale_height provider_version : Z)
| FP_Destroy (h : fsr_header)
| FP_Configure (h : fsr_header) (debug_level : Z)
| FP_Dispatch (h : fsr_header) (command_list : Z) (resources : list Z) (states : list Z)
      (sizes : list Z) (floats : list f32) (reset enable_sharpening flags : Z).

Definition fsr_packet_header (p : fsr_packet) : fsr_header :=
  match p with
  | FP_Create h _ _ _ _ _ _ _ | FP_Destroy h | FP_Configure h _ | FP_Dispatch h _ _ _ _ _ _ _ _ => h
  end.

(** [sizeof] of the four packets. *)
Definition fsr_packet_size (op : yaagl_fsr_operation) : Z :=
  match op with
  | YAAGL_FSR_CREATE => 64
  | YAAGL_FSR_DESTROY => 24
  | YAAGL_FSR_CONFIGURE => 32
  | YAAGL_FSR_QUERY => 48
  | YAAGL_FSR_DISPATCH => 200
  end.

Definition fsr_head (op : yaagl_fsr_operation) (context : Z) : fsr_header :=
  mkFsrHeader (fsr_packet_size op) op context.

Inductive up_api := Api_query | Api_dispatch.

Inductive log_reason :=
| Reason_ok | Reason_query_rejected | Reason_dispatch_rejected | Reason_null_descriptor
| Reason_context_not_found | Reason_native_parameter | Reason_unsupported_descriptor.

Inductive up_event :=
| UE_unix (p : fsr_packet)
| UE_callback_alloc (user fn : ptr) | UE_callback_free (user fn p : ptr)
| UE_malloc | UE_free (p : ptr)
| UE_AddRef (device : ptr) | UE_Release (device : ptr)
| UE_message (callback type : Z)
| UE_getenv
| UE_log (sequence : Z) (api : up_api) (type : Z) (handle : option ptr) (result : Z)
    (reason : log_reason).

(** Status or result of the call, a value, data. *)
Record up_response := mkUpResponse { ur_code : Z; ur_value : Z; ur_data : list Z }.

Record up_world := mkUpWorld {
  u_contexts : list ptr;
  u_heap : gmap Z fsr_context;
  u_global_message : ptr;
  u_global_debug_level : Z;
  u_pe_log_count : Z;
  u_fault : bool;
  u_undefined : bool;
  u_trace : list (up_event * up_response) }.

Definition set_u_contexts v w :=
  mkUpWorld v (u_heap w) (u_global_message w) (u_global_debug_level w) (u_pe_log_count w)
    (u_fault w) (u_undefined w) (u_trace w).
Definition set_u_heap v w :=
  mkUpWorld (u_contexts w) v (u_global_message w) (u_global_debug_level w) (u_pe_log_count w)
    (u_fault w) (u_undefined w) (u_trace w).
Definition set_u_global m l w :=
  mkUpWorld (u_contexts w) (u_heap w) m l (u_pe_log_count w)
    (u_fault w) (u_undefined w) (u_trace w).
Definition set_u_pe_log_count v w :=
  mkUpWorld (u_contexts w) (u_heap w) (u_global_message w) (u_global_debug_level w) v
    (u_fault w) (u_undefined w) (u_trace w).
Definition set_u_fault w :=
  mkUpWorld (u_contexts w) (u_heap w) (u_global_message w) (u_global_debug_level w)
    (u_pe_log_count w) true (u_undefined w) (u_trace w).
Definition set_u_undefined w :=
  mkUpWorld (u_contexts w) (u_heap w) (u_global_message w) (u_global_debug_level w)
    (u_pe_log_count w) (u_fault w) true (u_trace w).
Definition set_u_trace v w :=
  mkUpWorld (u_contexts w) (u_heap w) (u_global_message w) (u_global_debug_level w)
    (u_pe_log_count w) (u_fault w) (u_undefined w) v.

Abbreviation U := (M up_world).

(** The queries, with [None] for a null output pointer. *)
Inductive up_query :=
| UQ_GetVersions (createDescType : Z) (outputCount : option Z) (ids names : option (list Z))
| UQ_GetProviderVersion
| UQ_UpscaleRatio (qualityMode : Z) (out : bool)
| UQ_RenderResolution (displayWidth displayHeight qualityMode : Z) (outWidth outHeight : bool)
| UQ_JitterPhaseCount (renderWidth displayWidth : Z) (out : bool)
| UQ_JitterOffset (index phaseCount : Z) (outX outY : bool)
| UQ_ResourceRequirements
| UQ_MemoryUsage (v2 : bool)
| UQ_Other (type : Z).

Definition up_query_type (q : up_query) : Z :=
  match q with
  | UQ_GetVersions _ _ _ _ => FFX_API_QUERY_DESC_TYPE_GET_VERSIONS
  | UQ_GetProviderVersion => FFX_API_QUERY_DESC_TYPE_GET_PROVIDER_VERSION
  | UQ_UpscaleRatio _ _ => upscale_type 2
  | UQ_RenderResolution _ _ _ _ _ => upscale_type 3
  | UQ_JitterPhaseCount _ _ _ => upscale_type 4
  | UQ_JitterOffset _ _ _ _ => upscale_type 5
  | UQ_ResourceRequirements => upscale_type 0xa
  | UQ_MemoryUsage v2 => upscale_type (if v2 then 9 else 8)
  | UQ_Other t => t
  end.

(** What a query writes through its pointers. *)
Inductive up_query_result :=
| UR_none
| UR_versions (outputCount : Z) (ids names : option (list Z))
| UR_provider (versionId : Z) (versionName : ptr)
| UR_ratio (r : option f32)
| UR_resolution (w h : option Z)
| UR_phase_count (n : option Z)
| UR_offset (x y : option f32)
| UR_requirements (required optional : Z).

Inductive up_dispatch :=
| UD_Upscale (d : ffxDispatchDescUpscale)
| UD_Other (type : Z).

Definition up_dispatch_type (d : up_dispatch) : Z :=
  match d with UD_Upscale _ => upscale_type 1 | UD_Other t => t end.

Inductive up_configure :=
| UC_GlobalDebug (fpMessage : ptr) (debugLevel : Z)
| UC_Other (type : Z).

(** A descriptor of another type: unknown when it belongs to the upscaler. *)
Definition is_upscale_effect (t : Z) : bool :=
  Z.land t FFX_API_EFFECT_MASK =? FFX_API_EFFECT_ID_UPSCALE.
Definition reject_type (t : Z) : Z :=
  if is_upscale_effect t then FFX_API_RETURN_ERROR_UNKNOWN_DESCTYPE
  else FFX_API_RETURN_NO_PROVIDER.

(** ** The queries' arithmetic *)

(** [ratios[]] *)
Definition ratios : list f32 :=
  [f32_of_Z 1;
   S754_finite false 12582912 (-23);      (* 1.5f *)
   S754_finite false 14260634 (-23);      (* 1.7f *)
   f32_of_Z 2; f32_of_Z 3].

Definition upscale_ratio (quality : Z) : f32 :=
  if quality <? 5 then default f32_zero (ratios !! Z.to_nat quality) else f32_zero.

(** The loop of [radical_inverse]; [None] when the fuel runs out. *)
Fixpoint radical_loop (fuel : nat) (index base : Z) (value fraction : f32) : option f32 :=
  if index =? 0 then Some value
  else match fuel with
       | O => None
       | S fuel =>
           radical_loop fuel (index / base) base
             (f32_add value (f32_mul (f32_of_Z (index mod base)) fraction))
             (f32_div fraction (f32_of_Z base))
       end.

(** A [uint32_t] has at most 32 digits in any base. *)
Definition radical_inverse (index base : Z) : option f32 :=
  radical_loop 32 index base f32_zero (f32_div (f32_of_Z 1) (f32_of_Z base)).

(** [(uint32_t)((index % phaseCount + phaseCount) % phaseCount) + 1], with the
    truncating [%] of C. *)
Definition jitter_index (index phaseCount : Z) : option Z :=
  match int32_add (Z.rem index phaseCount) phaseCount with
  | Some s => Some (u32 (u32 (Z.rem s phaseCount) + 1))
  | None => None
  end.

(** [(uint32_t)(size / ratio)] *)
Definition render_size (display : Z) (ratio : f32) : option Z :=
  f32_to_uint32 (f32_div (f32_of_Z display) ratio).

Definition f32_half : f32 := S754_finite false 8388608 (-24).

(** ** Operations *)

Section Upscaler.
Variable respond : list (up_event * up_response) -> up_event -> up_response.
Variable powf : f32 -> f32 -> f32.
Variable provider_name : ptr.

Definition uext (e : up_event) : U up_response :=
  fun w => let r := respond (u_trace w) e in (r, set_u_trace ((e, r) :: u_trace w) w).

Definition zero_fsr : fsr_context := mkFsrContext 0 NULL null_allocation NULL 0 0.

Definition getu (c : ptr) : U fsr_context :=
  fun w => match u_heap w !! c with
           | Some x => (x, w)
           | None => (zero_fsr, set_u_fault w)
           end.
Definition modu (c : ptr) (f : fsr_context -> fsr_context) : U unit :=
  fun w => match u_heap w !! c with
           | Some x => (tt, set_u_heap (<[c := f x]> (u_heap w)) w)
           | None => (tt, set_u_fault w)
           end.

(** The header's [result] and [context] as the translator leaves them. *)
Definition unix_call (p : fsr_packet) : U (Z * Z) :=
  let! r := uext (UE_unix p) in
  mreturn (if negb (ur_code r =? 0) then FFX_API_RETURN_ERROR_RUNTIME_ERROR
           else default 0 (ur_data r !! 0%nat),
           default 0 (ur_data r !! 1%nat)).

(** [find_context]: the walk and the increment happen under the shared lock. *)
Definition find_context (handle : option ptr) : U ptr :=
  match handle with
  | None => mreturn NULL
  | Some c =>
      if c =? NULL then mreturn NULL
      else
      let! listed := mgets (fun w => bool_decide (c ∈ u_contexts w)) in
      if listed
      then modu c (fun x => set_fsr_references (fsr_references x + 1) x) ;;; mreturn c
      else mreturn NULL
  end.

Definition report (c : ptr) (type : Z) : U unit :=
  let! w := mget in
  let! x := (if negb (c =? NULL) then let! x := getu c in mreturn (Some x) else mreturn None) in
  let callback := match x with
                  | Some x => if negb (fsr_message x =? NULL) then fsr_message x else u_global_message w
                  | None => u_global_message w
                  end in
  let level := match x with
               | Some x => if negb (fsr_message x =? NULL) then fsr_debug_level x
                           else u_global_debug_level w
               | None => u_global_debug_level w
               end in
  if callback =? NULL then mreturn tt
  else if (type =? FFX_API_MESSAGE_TYPE_ERROR)
          && negb (has_flag level FFX_API_CONFIGURE_GLOBALDEBUG_LEVEL_ERRORS)
  then mreturn tt
  else if (type =? FFX_API_MESSAGE_TYPE_WARNING)
          && negb (has_flag level FFX_API_CONFIGURE_GLOBALDEBUG_LEVEL_WARNINGS)
  then mreturn tt
  else uext (UE_message callback type) ;;; mreturn tt.

Definition context_alloc (callbacks : option ffxAllocationCallbacks) : U ptr :=
  match callbacks with
  | Some a => if negb (alloc a =? NULL)
              then let! r := uext (UE_callback_alloc (pUserData a) (alloc a)) in mreturn (ur_value r)
              else let! r := uext UE_malloc in mreturn (ur_value r)
  | None => let! r := uext UE_malloc in mreturn (ur_value r)
  end.

(** The block of a context goes back to its allocator. *)
Definition context_free (callbacks : option ffxAllocationCallbacks) (c : ptr) : U unit :=
  mmodify (fun w => set_u_heap (delete c (u_heap w)) w) ;;;
  match callbacks with
  | Some a => if negb (dealloc a =? NULL)
              then uext (UE_callback_free (pUserData a) (dealloc a) c) ;;; mreturn tt
              else uext (UE_free c) ;;; mreturn tt
  | None => uext (UE_free c) ;;; mreturn tt
  end.

Definition release_context (c : ptr) : U unit :=
  modu c (fun x => set_fsr_references (fsr_references x - 1) x) ;;;
  let! x := getu c in
  mwhen (fsr_references x =? 0) (context_free (Some (fsr_allocation x)) c).

Definition allocation_compatible (a : ffxAllocationCallbacks) (b : option ffxAllocationCallbacks) : bool :=
  match b with
  | None => (alloc a =? NULL) && (dealloc a =? NULL)
  | Some b => (pUserData a =? pUserData b) && (alloc a =? alloc b) && (dealloc a =? dealloc b)
  end.

(** ** Creation and destruction *)

(** What the walk over the creation chain collects. *)
Record up_scan := mkUpScan {
  us_upscale : option ffxCreateContextDescUpscale; us_backend : option ptr; us_provider : Z }.

Fixpoint scan_create (s : up_scan) (l : list up_entry) : Z + up_scan :=
  match l with
  | [] => inr s
  | U_Upscale d :: l' =>
      match us_upscale s with
      | Some _ => inl FFX_API_RETURN_ERROR_PARAMETER
      | None => scan_create (mkUpScan (Some d) (us_backend s) (us_provider s)) l'
      end
  | U_Backend dev :: l' =>
      match us_backend s with
      | Some _ => inl FFX_API_RETURN_ERROR_PARAMETER
      | None => scan_create (mkUpScan (us_upscale s) (Some dev) (us_provider s)) l'
      end
  | U_Version v :: l' =>
      if negb (v =? FFX_UPSCALER_VERSION) then inl FFX_API_RETURN_ERROR_PARAMETER
      else scan_create s l'
  | U_Override v :: l' => scan_create (mkUpScan (us_upscale s) (us_backend s) v) l'
  | U_Other t :: _ => inl (reject_type t)
  end.

(** The checks between the walk and the allocation. *)
Definition checked_create (desc : list up_entry) : Z + (ffxCreateContextDescUpscale * ptr * Z) :=
  match scan_create (mkUpScan None None PROVIDER_ID) desc with
  | inl e => inl e
  | inr s =>
      match us_upscale s, us_backend s with
      | Some d, Some dev =>
          if (dev =? NULL) || (up_maxRenderSize_width d =? 0) || (up_maxRenderSize_height d =? 0)
             || (up_maxUpscaleSize_width d =? 0) || (up_maxUpscaleSize_height d =? 0)
             || negb (us_provider s =? PROVIDER_ID)
          then inl FFX_API_RETURN_ERROR_PARAMETER
          else if (up_maxUpscaleSize_width d <? up_maxRenderSize_width d)
                  || (up_maxUpscaleSize_height d <? up_maxRenderSize_height d)
          then inl FFX_API_RETURN_ERROR_PARAMETER
          else inr (d, dev, us_provider s)
      | _, _ => inl FFX_API_RETURN_ERROR_PARAMETER
      end
  end.

Definition ffxCreateContext (has_output : bool) (desc : option (list up_entry))
    (callbacks : option ffxAllocationCallbacks) : U (Z * ptr) :=
  match desc with
  | None => mreturn (FFX_API_RETURN_ERROR_PARAMETER, NULL)
  | Some desc =>
      if negb has_output
         || match callbacks with
            | Some a => xorb (negb (alloc a =? NULL)) (negb (dealloc a =? NULL))
            | None => false
            end
      then mreturn (FFX_API_RETURN_ERROR_PARAMETER, NULL)
      else match checked_create desc with
      | inl e => mreturn (e, NULL)
      | inr (d, dev, provider) =>
          let! c := context_alloc callbacks in
          if c =? NULL then mreturn (FFX_API_RETURN_ERROR_MEMORY, NULL)
          else
          mmodify (fun w => set_u_heap (<[c := mkFsrContext 0 NULL (default null_allocation callbacks)
             (up_fpMessage d) FFX_API_CONFIGURE_GLOBALDEBUG_LEVEL_ERRORS 1]> (u_heap w)) w) ;;;
          let! r := unix_call (FP_Create (fsr_head YAAGL_FSR_CREATE 0) dev (up_flags d)
                      (up_maxRenderSize_width d) (up_maxRenderSize_height d)
                      (up_maxUpscaleSize_width d) (up_maxUpscaleSize_height d) provider) in
          if negb (r.1 =? FFX_API_RETURN_OK) || (r.2 =? 0)
          then context_free callbacks c ;;;
               mreturn (if r.1 =? FFX_API_RETURN_OK then FFX_API_RETURN_ERROR_RUNTIME_ERROR
                        else r.1, NULL)
          else
          modu c (fun x => mkFsrContext r.2 dev (fsr_allocation x) (fsr_message x)
                             (fsr_debug_level x) (fsr_references x)) ;;;
          uext (UE_AddRef dev) ;;;
          mmodify (fun w => set_u_contexts (c :: u_contexts w) w) ;;;
          mreturn (FFX_API_RETURN_OK, c)
      end
  end.

Fixpoint unlink (c : ptr) (l : list ptr) : list ptr :=
  match l with
  | [] => []
  | x :: l' => if x =? c then l' else x :: unlink c l'
  end.

(** The first critical section of [ffxDestroyContext]: the context leaves the list. *)
Definition unlink_fsr (c : ptr) : U bool :=
  let! listed := mgets (fun w => bool_decide (c ∈ u_contexts w)) in
  mwhen listed (mmodify (fun w => set_u_contexts (unlink c (u_contexts w)) w)) ;;;
  mreturn listed.

Definition relink_fsr (c : ptr) : U unit :=
  mmodify (fun w => set_u_contexts (c :: u_contexts w) w).

Definition ffxDestroyContext (handle : option ptr) (callbacks : option ffxAllocationCallbacks) :
    U (Z * option ptr) :=
  match handle with
  | None => mreturn (FFX_API_RETURN_ERROR_PARAMETER, handle)
  | Some c =>
      if c =? NULL then mreturn (FFX_API_RETURN_ERROR_PARAMETER, handle)
      else
      let! found := unlink_fsr c in
      if negb found then mreturn (FFX_API_RETURN_ERROR_PARAMETER, handle)
      else
      let! x := getu c in
      if negb (allocation_compatible (fsr_allocation x) callbacks)
      then relink_fsr c ;;; mreturn (FFX_API_RETURN_ERROR_PARAMETER, Some c)
      else
      let! r := unix_call (FP_Destroy (fsr_head YAAGL_FSR_DESTROY (native x))) in
      uext (UE_Release (fsr_device x)) ;;;
      release_context c ;;;
      mreturn (r.1, Some NULL)
  end.

(** ** Configuration *)

Definition known_debug_level (level : Z) : bool :=
  (level =? FFX_API_CONFIGURE_GLOBALDEBUG_LEVEL_SILENCE)
  || (level =? FFX_API_CONFIGURE_GLOBALDEBUG_LEVEL_ERRORS)
  || (level =? FFX_API_CONFIGURE_GLOBALDEBUG_LEVEL_WARNINGS)
  || (level =? FFX_API_CONFIGURE_GLOBALDEBUG_LEVEL_VERBOSE).

Definition ffxConfigure (handle : option ptr) (desc : option up_configure) : U Z :=
  match desc with
  | None => mreturn FFX_API_RETURN_ERROR_PARAMETER
  | Some (UC_Other t) => mreturn (reject_type t)
  | Some (UC_GlobalDebug m level) =>
      if negb (known_debug_level level) then mreturn FFX_API_RETURN_ERROR_PARAMETER
      else
      let! c := find_context handle in
      if bool_decide (is_Some handle) && (c =? NULL) then mreturn FFX_API_RETURN_ERROR_PARAMETER
      else if c =? NULL
      then mmodify (set_u_global m level) ;;; mreturn FFX_API_RETURN_OK
      else
      modu c (set_fsr_debug m level) ;;;
      let! x := getu c in
      let! r := unix_call (FP_Configure (fsr_head YAAGL_FSR_CONFIGURE (native x)) level) in
      release_context c ;;;
      mreturn r.1
  end.

(** ** Queries *)

(** A value that is written only through a non-null pointer. *)
Definition out {A} (present : bool) (v : A) : option A := if present then Some v else None.

(** A conversion or addition that may be undefined. *)
Definition defined {A} (v : option A) (k : A -> U (Z * up_query_result)) : U (Z * up_query_result) :=
  match v with
  | Some a => k a
  | None => mmodify set_u_undefined ;;; mreturn (FFX_API_RETURN_OK, UR_none)
  end.

(** An output that is computed only when its pointer is there. *)
Definition when_out {A} (present : bool) (v : option A) : option (option A) :=
  if present then match v with Some a => Some (Some a) | None => None end else Some None.

Definition set_first (v : Z) (a : option (list Z)) : option (list Z) :=
  match a with
  | Some (_ :: l) => Some (v :: l)
  | Some [] => Some []
  | None => None
  end.

(** The switch of [query_impl]. *)
Definition query_switch (has_context : bool) (q : up_query) : U (Z * up_query_result) :=
  match q with
  | UQ_GetVersions t outputCount ids names =>
      if negb (t =? upscale_type 0) then mreturn (FFX_API_RETURN_ERROR_PARAMETER, UR_none)
      else match outputCount with
           | None => mreturn (FFX_API_RETURN_OK, UR_none)
           | Some capacity =>
               if capacity =? 0 then mreturn (FFX_API_RETURN_OK, UR_versions 1 ids names)
               else mreturn (FFX_API_RETURN_OK,
                             UR_versions 1 (set_first PROVIDER_ID ids) (set_first provider_name names))
           end
  | UQ_GetProviderVersion =>
      if negb has_context then mreturn (FFX_API_RETURN_ERROR_PARAMETER, UR_none)
      else mreturn (FFX_API_RETURN_OK, UR_provider PROVIDER_ID provider_name)
  | UQ_UpscaleRatio mode o =>
      let ratio := upscale_ratio mode in
      if SFeqb ratio f32_zero then mreturn (FFX_API_RETURN_ERROR_PARAMETER, UR_none)
      else mreturn (FFX_API_RETURN_OK, UR_ratio (out o ratio))
  | UQ_RenderResolution dw dh mode ow oh =>
      let ratio := upscale_ratio mode in
      if SFeqb ratio f32_zero || (dw =? 0) || (dh =? 0)
      then mreturn (FFX_API_RETURN_ERROR_PARAMETER, UR_none)
      else defined (when_out ow (render_size dw ratio)) (fun w =>
           defined (when_out oh (render_size dh ratio)) (fun h =>
           mreturn (FFX_API_RETURN_OK, UR_resolution w h)))
  | UQ_JitterPhaseCount rw dw o =>
      if (rw =? 0) || (dw =? 0) then mreturn (FFX_API_RETURN_ERROR_PARAMETER, UR_none)
      else let ratio := f32_div (f32_of_Z dw) (f32_of_Z rw) in
           defined (when_out o (f32_to_int32 (f32_mul (f32_of_Z 8) (powf ratio (f32_of_Z 2)))))
             (fun n => mreturn (FFX_API_RETURN_OK, UR_phase_count n))
  | UQ_JitterOffset index phaseCount ox oy =>
      if phaseCount <=? 0 then mreturn (FFX_API_RETURN_ERROR_PARAMETER, UR_none)
      else defined (jitter_index index phaseCount) (fun i =>
           defined (when_out ox (radical_inverse i 2)) (fun x =>
           defined (when_out oy (radical_inverse i 3)) (fun y =>
           mreturn (FFX_API_RETURN_OK,
                    UR_offset (option_map (fun v => f32_sub v f32_half) x)
                              (option_map (fun v => f32_sub v f32_half) y)))))
  | UQ_ResourceRequirements =>
      mreturn (FFX_API_RETURN_OK,
               UR_requirements (Z.lor 1 (Z.lor 2 (Z.lor 4 8))) (Z.lor 16 32))
  | UQ_MemoryUsage _ => mreturn (FFX_API_RETURN_ERROR_RUNTIME_ERROR, UR_none)
  | UQ_Other t => mreturn (reject_type t, UR_none)
  end.

Definition query_impl (handle : option ptr) (desc : option up_query) : U (Z * up_query_result) :=
  match desc with
  | None => mreturn (FFX_API_RETURN_ERROR_PARAMETER, UR_none)
  | Some q =>
      match handle with
      | None => query_switch false q
      | Some _ =>
          let! c := find_context handle in
          if c =? NULL then mreturn (FFX_API_RETURN_ERROR_PARAMETER, UR_none)
          else
          release_context c ;;;
          query_switch true q
      end
  end.

(** ** Dispatch *)

Definition dispatch_packet_for (context : Z) (d : ffxDispatchDescUpscale) : fsr_packet :=
  FP_Dispatch (fsr_head YAAGL_FSR_DISPATCH context) (ud_commandList d)
    [resource (ud_color d); resource (ud_depth d); resource (ud_motionVectors d);
     resource (ud_exposure d); resource (ud_reactive d);
     resource (ud_transparencyAndComposition d); resource (ud_output d)]
    [rstate (ud_color d); rstate (ud_depth d); rstate (ud_motionVectors d);
     rstate (ud_exposure d); rstate (ud_reactive d);
     rstate (ud_transparencyAndComposition d); rstate (ud_output d)]
    [ud_renderSize_width d; ud_renderSize_height d; ud_upscaleSize_width d; ud_upscaleSize_height d]
    [ud_jitter_x d; ud_jitter_y d; ud_motionVectorScale_x d; ud_motionVectorScale_y d;
     ud_sharpness d; ud_frameTimeDelta d; ud_preExposure d; ud_cameraNear d; ud_cameraFar d;
     ud_cameraFovAngleVertical d; ud_viewSpaceToMetersFactor d]
    (b2z (ud_reset d)) (b2z (ud_enableSharpening d)) (ud_flags d).

Definition dispatch_impl (handle : option ptr) (desc : option up_dispatch) : U Z :=
  match desc with
  | None => mreturn FFX_API_RETURN_ERROR_PARAMETER
  | Some (UD_Other t) => mreturn (reject_type t)
  | Some (UD_Upscale d) =>
      let! c := find_context handle in
      if c =? NULL then mreturn FFX_API_RETURN_ERROR_PARAMETER
      else
      let! x := getu c in
      let! r := unix_call (dispatch_packet_for (native x) d) in
      mwhen (negb (r.1 =? FFX_API_RETURN_OK)) (report c FFX_API_MESSAGE_TYPE_ERROR) ;;;
      release_context c ;;;
      mreturn r.1
  end.

(** ** The API log *)

(** At most 120 lines are written; the counter is a 32-bit [LONG].  The environment
    answers with the first character of the path, 0 for an unset variable. *)
Definition pe_log_result (api : up_api) (handle : option ptr) (type result : Z)
    (reason : log_reason) : U unit :=
  let! env := uext UE_getenv in
  if negb (ur_value env =? 47) then mreturn tt
  else
  mmodify (fun w => set_u_pe_log_count (i32 (u_pe_log_count w + 1)) w) ;;;
  let! sequence := mgets u_pe_log_count in
  if 120 <? sequence then mreturn tt
  else uext (UE_log sequence api type handle result reason) ;;; mreturn tt.

(** [ffxQuery] *)
Definition ffxQuery (handle : option ptr) (desc : option up_query) : U (Z * up_query_result) :=
  let! r := query_impl handle desc in
  let! reason :=
    (match desc with
     | None => mreturn Reason_null_descriptor
     | Some _ =>
         let default_reason := if r.1 =? FFX_API_RETURN_OK then Reason_ok else Reason_query_rejected in
         if (r.1 =? FFX_API_RETURN_ERROR_PARAMETER) && bool_decide (is_Some handle)
         then let! c := find_context handle in
              if c =? NULL then mreturn Reason_context_not_found
              else release_context c ;;; mreturn default_reason
         else mreturn default_reason
     end) in
  pe_log_result Api_query handle (match desc with Some q => up_query_type q | None => 0 end) r.1 reason ;;;
  mreturn r.

Definition dispatch_reason (desc : option up_dispatch) (result : Z) (context_known : bool) : log_reason :=
  match desc with
  | None => Reason_null_descriptor
  | Some (UD_Other _) => Reason_unsupported_descriptor
  | Some (UD_Upscale _) =>
      if result =? FFX_API_RETURN_ERROR_PARAMETER
      then if context_known then Reason_native_parameter else Reason_context_not_found
      else if result =? FFX_API_RETURN_OK then Reason_ok else Reason_dispatch_rejected
  end.

(** [ffxDispatch] *)
Definition ffxDispatch (handle : option ptr) (desc : option up_dispatch) : U Z :=
  let! known := find_context handle in
  mwhen (negb (known =? NULL)) (release_context known) ;;;
  let! result := dispatch_impl handle desc in
  pe_log_result Api_dispatch handle
    (match desc with Some d => up_dispatch_type d | None => 0 end) result
    (dispatch_reason desc result (negb (known =? NULL))) ;;;
  mreturn result.
End Upscaler.
