(* ===== verification/UpscalerProofs.v ===== *)
(** * The upscaler builtin: memory safety, reference counts, arithmetic

    Contexts are freed exactly when their last reference goes, in every
    interleaving of threads; the API leaves one reference per listed context;
    the queries' integer and float arithmetic is in range. *)

From stdpp Require Import base list gmap relations.
From Stdlib Require Import ZArith Lia SpecFloat.
From S2P Require Import Prelude.
From S2P Require Import FfxApi.
From S2P Require Import Upscaler.

Open Scope Z_scope.

(** ** Interleavings *)

(** How often [c] occurs. *)
Definition occurs (c : ptr) (l : list ptr) : Z :=
  Z.of_nat (length (filter (fun x => x = c) l)).

Lemma occurs_cons c x l : occurs c (x :: l) = b2z (bool_decide (x = c)) + occurs c l.
Proof.
  unfold occurs. rewrite filter_cons. case_decide; case_bool_decide; try done; simpl; lia.
Qed.

Lemma occurs_nonneg c l : 0 <= occurs c l.
Proof. unfold occurs. lia. Qed.

Lemma occurs_elem c l : c ∈ l <-> 0 < occurs c l.
Proof.
  unfold occurs. split.
  - intros H. assert (K : c ∈ filter (fun x => x = c) l) by (by apply list_elem_of_filter).
    destruct (filter _ l); [by apply not_elem_of_nil in K | simpl; lia].
  - intros H. destruct (filter (fun x => x = c) l) as [| y k] eqn:E; [simpl in H; lia |].
    assert (K : y ∈ filter (fun x => x = c) l) by (rewrite E; set_solver).
    apply list_elem_of_filter in K as [-> K]. done.
Qed.

Lemma occurs_nodup c l : NoDup l -> c ∈ l -> occurs c l = 1.
Proof.
  induction l as [| x l IH]; intros Hn Hin; [by apply not_elem_of_nil in Hin |].
  apply NoDup_cons in Hn as [Hx Hn]. rewrite occurs_cons. case_bool_decide as E.
  - subst x. simpl. destruct (Z.eq_dec (occurs c l) 0) as [-> | Hne]; [done |].
    exfalso. apply Hx, occurs_elem. pose proof (occurs_nonneg c l). lia.
  - simpl. apply elem_of_cons in Hin as [-> | Hin]; [done |]. by rewrite IH.
Qed.

(** [unlink] removes one occurrence. *)
Lemma occurs_unlink c d l :
  d ∈ l -> occurs c (unlink d l) = occurs c l - b2z (bool_decide (d = c)).
Proof.
  induction l as [| x l IH]; intros H; [by apply not_elem_of_nil in H |]. simpl.
  destruct (Z.eqb_spec x d) as [-> | Hne].
  - rewrite occurs_cons. lia.
  - rewrite !occurs_cons, IH; [lia |]. apply elem_of_cons in H as [-> | H]; done.
Qed.

(** The state of the process together with the references its threads own: each
    entry of [held] is a reference a thread took with [find_context] (or took over
    from the list when it unlinked the context) and has not released. *)
Record shared := mkShared { sh_world : up_world; sh_held : list ptr }.

(** The reference count of a context is the number of its owners, and exactly the
    contexts with an owner are allocated. *)
Definition counted (s : shared) : Prop :=
  u_fault (sh_world s) = false
  /\ (forall c, c ∈ u_contexts (sh_world s) \/ c ∈ sh_held s -> c <> NULL)
  /\ forall c, match u_heap (sh_world s) !! c with
               | Some x => fsr_references x = occurs c (u_contexts (sh_world s)) + occurs c (sh_held s)
                           /\ 0 < fsr_references x
               | None => occurs c (u_contexts (sh_world s)) + occurs c (sh_held s) = 0
               end.

Section Threads.
Variable respond : list (up_event * up_response) -> up_event -> up_response.
Variable powf : f32 -> f32 -> f32.
Variable provider_name : ptr.

(** What a thread may do next.  The critical sections of [main.c] are single steps;
    everything else a thread does with a context it does while it owns a reference. *)
Inductive ustep : shared -> shared -> Prop :=
| step_find w held handle :
    ustep (mkShared w held)
          (mkShared (find_context handle w).2
                    (if (find_context handle w).1 =? NULL then held
                     else (find_context handle w).1 :: held))
| step_read w held c :
    c ∈ held -> ustep (mkShared w held) (mkShared (getu c w).2 held)
| step_debug w held c m l :
    c ∈ held -> ustep (mkShared w held) (mkShared (modu c (set_fsr_debug m l) w).2 held)
| step_release w held c :
    c ∈ held -> ustep (mkShared w held) (mkShared (release_context respond c w).2 (unlink c held))
| step_unlink w held c :
    c <> NULL -> (unlink_fsr c w).1 = true ->
    ustep (mkShared w held) (mkShared (unlink_fsr c w).2 (c :: held))
| step_relink w held c :
    c ∈ held -> ustep (mkShared w held) (mkShared (relink_fsr c w).2 (unlink c held))
| step_create w held out desc cb :
    u_heap w !! (context_alloc respond cb w).1 = None ->
    ustep (mkShared w held) (mkShared (ffxCreateContext respond out desc cb w).2 held)
| step_outside w held w' :
    u_contexts w' = u_contexts w -> u_heap w' = u_heap w -> u_fault w' = u_fault w ->
    ustep (mkShared w held) (mkShared w' held).

(** ** The invariant *)

Lemma counted_outside w w' held :
  u_contexts w' = u_contexts w -> u_heap w' = u_heap w -> u_fault w' = u_fault w ->
  counted (mkShared w held) -> counted (mkShared w' held).
Proof. unfold counted. simpl. by intros -> -> ->. Qed.

(** Owned contexts are allocated. *)
Lemma counted_owned w held c :
  counted (mkShared w held) -> c ∈ u_contexts w \/ c ∈ held ->
  exists x, u_heap w !! c = Some x
    /\ fsr_references x = occurs c (u_contexts w) + occurs c held.
Proof.
  intros (_ & _ & H) Hin. specialize (H c). simpl in H.
  pose proof (occurs_nonneg c (u_contexts w)). pose proof (occurs_nonneg c held).
  destruct (u_heap w !! c) as [x|]; [exists x; tauto |].
  exfalso. destruct Hin as [K | K]; apply occurs_elem in K; lia.
Qed.

(** Change the entry of one context together with its owners. *)
Lemma counted_update w held w' held' c x :
  counted (mkShared w held) -> u_fault w' = u_fault w ->
  u_heap w' = <[c := x]> (u_heap w) ->
  (forall d, d ∈ u_contexts w' \/ d ∈ held' -> d <> NULL) ->
  (forall d, d <> c -> occurs d (u_contexts w') + occurs d held'
                       = occurs d (u_contexts w) + occurs d held) ->
  fsr_references x = occurs c (u_contexts w') + occurs c held' -> 0 < fsr_references x ->
  counted (mkShared w' held').
Proof.
  intros (Hf & Hn & H) Hf' Hh Hn' Ho Hx Hpos. split; [simpl in *; congruence |].
  split; [done |]. intros d. simpl. rewrite Hh.
  destruct (decide (c = d)) as [<- | Hne]; [by rewrite lookup_insert_eq |].
  rewrite lookup_insert_ne by done. specialize (H d). simpl in H.
  destruct (u_heap w !! d); rewrite Ho by done; done.
Qed.

Lemma counted_delete w held w' held' c :
  counted (mkShared w held) -> u_fault w' = u_fault w ->
  u_heap w' = delete c (u_heap w) ->
  (forall d, d ∈ u_contexts w' \/ d ∈ held' -> d <> NULL) ->
  (forall d, d <> c -> occurs d (u_contexts w') + occurs d held'
                       = occurs d (u_contexts w) + occurs d held) ->
  occurs c (u_contexts w') + occurs c held' = 0 ->
  counted (mkShared w' held').
Proof.
  intros (Hf & Hn & H) Hf' Hh Hn' Ho Hx. split; [simpl in *; congruence |].
  split; [done |]. intros d. simpl. rewrite Hh.
  destruct (decide (c = d)) as [<- | Hne]; [by rewrite lookup_delete_eq |].
  rewrite lookup_delete_ne by done. specialize (H d). simpl in H.
  destruct (u_heap w !! d); rewrite Ho by done; done.
Qed.

Lemma unlink_subset c l d : d ∈ unlink c l -> d ∈ l.
Proof.
  induction l as [| x l IH]; simpl; [done |]. destruct (x =? c); [set_solver |].
  intros [-> | H]%elem_of_cons; set_solver.
Qed.

Lemma find_context_run handle w :
  find_context handle w =
  match handle with
  | Some c => if negb (c =? NULL) && bool_decide (c ∈ u_contexts w)
              then (c, (modu c (fun x => set_fsr_references (fsr_references x + 1) x) w).2)
              else (NULL, w)
  | None => (NULL, w)
  end.
Proof.
  destruct handle as [c|]; [| done]. unfold find_context.
  destruct (c =? NULL); [done |]. cbn [negb andb]. rewrite bind_run. cbn [fst snd mgets].
  by destruct (bool_decide _).
Qed.

Lemma modu_at c f x w :
  u_heap w !! c = Some x -> modu c f w = (tt, set_u_heap (<[c := f x]> (u_heap w)) w).
Proof. unfold modu. by intros ->. Qed.
Lemma getu_at c x w : u_heap w !! c = Some x -> getu c w = (x, w).
Proof. unfold getu. by intros ->. Qed.

Lemma counted_find w held handle :
  counted (mkShared w held) ->
  counted (mkShared (find_context handle w).2
             (if (find_context handle w).1 =? NULL then held
              else (find_context handle w).1 :: held)).
Proof.
  intros H. rewrite find_context_run. destruct handle as [c|]; [| done].
  destruct (Z.eqb_spec c NULL) as [| Hc]; cbn [negb andb fst snd]; [done |].
  destruct (bool_decide_reflect (c ∈ u_contexts w)) as [Hin | Hin]; cbn [fst snd]; [| done].
  rewrite (proj2 (Z.eqb_neq c NULL) Hc).
  destruct (counted_owned w held c H (or_introl Hin)) as (x & Hx & Hr).
  rewrite (modu_at c _ x) by done. cbn [snd].
  pose proof (occurs_nonneg c held). apply occurs_elem in Hin as Hpos.
  eapply (counted_update w held _ _ c); [done | done | done | | | |]; simpl.
  - intros d [K | K]; [apply H; by left |]. apply elem_of_cons in K as [-> | K]; [done |].
    apply H. by right.
  - intros d Hd. rewrite occurs_cons. case_bool_decide; [congruence | simpl; lia].
  - rewrite occurs_cons. case_bool_decide; [simpl; lia | done].
  - lia.
Qed.

(** Dropping a reference: the block goes with the last one. *)
Lemma release_context_heap c x w :
  u_heap w !! c = Some x ->
  let w' := (release_context respond c w).2 in
  u_contexts w' = u_contexts w /\ u_fault w' = u_fault w
  /\ u_heap w' = if fsr_references x =? 1 then delete c (u_heap w)
                 else <[c := set_fsr_references (fsr_references x - 1) x]> (u_heap w).
Proof.
  intros Hx. unfold release_context. rewrite bind_run, (modu_at c _ x) by done. cbn [fst snd].
  rewrite bind_run. erewrite getu_at by (simpl; apply lookup_insert_eq). cbn [fst snd].
  cbn [fsr_references set_fsr_references].
  replace (fsr_references x - 1 =? 0) with (fsr_references x =? 1)
    by (destruct (Z.eqb_spec (fsr_references x) 1), (Z.eqb_spec (fsr_references x - 1) 0); lia).
  destruct (fsr_references x =? 1); [| done]. unfold mwhen, context_free. rewrite bind_run.
  simpl. rewrite delete_insert_eq. by case_match.
Qed.

Lemma counted_release w held c :
  counted (mkShared w held) -> c ∈ held ->
  counted (mkShared (release_context respond c w).2 (unlink c held)).
Proof.
  intros H Hin. destruct (counted_owned w held c H (or_intror Hin)) as (x & Hx & Hr).
  destruct (release_context_heap c x w Hx) as (Ec & Ef & Eh).
  pose proof (occurs_unlink c c held Hin) as Hu. rewrite bool_decide_true in Hu by done.
  pose proof (occurs_nonneg c (u_contexts w)). pose proof (occurs_nonneg c (unlink c held)).
  simpl in Hu.
  assert (Hn : forall d, d ∈ u_contexts w \/ d ∈ unlink c held -> d <> NULL).
  { intros d [K | K]; apply H; [by left | right; by eapply unlink_subset]. }
  assert (Ho : forall d, d <> c -> occurs d (u_contexts w) + occurs d (unlink c held)
                                   = occurs d (u_contexts w) + occurs d held).
  { intros d Hd. rewrite occurs_unlink by done. rewrite bool_decide_false by done. simpl. lia. }
  destruct (Z.eqb_spec (fsr_references x) 1) as [E1 | E1].
  - eapply (counted_delete w held _ _ c); rewrite ?Ec; try done. lia.
  - eapply (counted_update w held _ _ c); rewrite ?Ec; try done; simpl; lia.
Qed.

Lemma unlink_fsr_run c w :
  unlink_fsr c w =
  (bool_decide (c ∈ u_contexts w),
   if bool_decide (c ∈ u_contexts w) then set_u_contexts (unlink c (u_contexts w)) w else w).
Proof. unfold unlink_fsr. rewrite !bind_run. cbn [fst snd mgets]. by destruct (bool_decide _). Qed.

(** Moving a reference between the list and a thread keeps the counts. *)
Lemma counted_move w held l held' :
  counted (mkShared w held) ->
  (forall d, d ∈ l \/ d ∈ held' -> d <> NULL) ->
  (forall d, occurs d l + occurs d held' = occurs d (u_contexts w) + occurs d held) ->
  counted (mkShared (set_u_contexts l w) held').
Proof.
  intros (Hf & _ & H) Hn Ho. split; [done |]. split; [done |]. intros d. specialize (H d).
  simpl in *. by rewrite Ho.
Qed.

Lemma counted_unlink w held c :
  counted (mkShared w held) -> c <> NULL -> (unlink_fsr c w).1 = true ->
  counted (mkShared (unlink_fsr c w).2 (c :: held)).
Proof.
  rewrite unlink_fsr_run. cbn [fst snd]. intros H Hc Hl. rewrite Hl.
  apply bool_decide_eq_true in Hl. apply (counted_move w held); [done | |].
  - intros d [K | K]; [apply H; left; by eapply unlink_subset |].
    apply elem_of_cons in K as [-> | K]; [done | apply H; by right].
  - intros d. rewrite occurs_cons, occurs_unlink by done. lia.
Qed.

Lemma counted_relink w held c :
  counted (mkShared w held) -> c ∈ held ->
  counted (mkShared (relink_fsr c w).2 (unlink c held)).
Proof.
  intros H Hin. apply (counted_move w held); [done | |].
  - intros d [K | K]; [| apply H; right; by eapply unlink_subset].
    apply elem_of_cons in K as [-> | K]; apply H; [by right | by left].
  - intros d. rewrite occurs_cons, occurs_unlink by done. lia.
Qed.

(** ** Creation *)

Lemma context_alloc_heap cb w :
  u_heap (context_alloc respond cb w).2 = u_heap w
  /\ u_contexts (context_alloc respond cb w).2 = u_contexts w
  /\ u_fault (context_alloc respond cb w).2 = u_fault w.
Proof. unfold context_alloc. by repeat case_match. Qed.

Lemma unix_call_heap p w :
  u_heap (unix_call respond p w).2 = u_heap w
  /\ u_contexts (unix_call respond p w).2 = u_contexts w
  /\ u_fault (unix_call respond p w).2 = u_fault w.
Proof. done. Qed.

Lemma context_free_heap cb c w :
  u_heap (context_free respond cb c w).2 = delete c (u_heap w)
  /\ u_contexts (context_free respond cb c w).2 = u_contexts w
  /\ u_fault (context_free respond cb c w).2 = u_fault w.
Proof. unfold context_free. rewrite bind_run. by repeat case_match. Qed.

Lemma scan_create_error s l e : scan_create s l = inl e -> e <> FFX_API_RETURN_OK.
Proof.
  revert s. induction l as [| a l IH]; intros s; simpl; [done |].
  destruct a; repeat case_match; try (by eauto); intros [= <-]; try done.
  unfold reject_type. by case_match.
Qed.

Lemma checked_create_error l e : checked_create l = inl e -> e <> FFX_API_RETURN_OK.
Proof.
  unfold checked_create. destruct (scan_create _ l) as [e' | s] eqn:E.
  - intros [= <-]. by eapply scan_create_error.
  - repeat case_match; by intros [= <-].
Qed.

(** A creation fails and changes nothing, or adds one context with one reference. *)
Lemma create_context_cases out desc cb w :
  u_heap w !! (context_alloc respond cb w).1 = None ->
  let r := ffxCreateContext respond out desc cb w in
  u_fault r.2 = u_fault w
  /\ ((r.1.1 <> FFX_API_RETURN_OK /\ u_heap r.2 = u_heap w /\ u_contexts r.2 = u_contexts w)
      \/ exists x, r.1 = (FFX_API_RETURN_OK, (context_alloc respond cb w).1)
         /\ (context_alloc respond cb w).1 <> NULL
         /\ fsr_references x = 1
         /\ u_heap r.2 = <[(context_alloc respond cb w).1 := x]> (u_heap w)
         /\ u_contexts r.2 = (context_alloc respond cb w).1 :: u_contexts w).
Proof.
  intros Hfresh. unfold ffxCreateContext. destruct desc as [desc|]; [| simpl; auto].
  destruct (_ || _); [simpl; auto |].
  destruct (checked_create desc) as [e | [[d dev] provider]] eqn:Hd.
  { simpl. split; [done |]. left. split; [by eapply checked_create_error | done]. }
  rewrite bind_run. destruct (context_alloc_heap cb w) as (Eh & Ec & Ef).
  set (a := context_alloc respond cb w) in *.
  destruct (Z.eqb_spec a.1 NULL) as [En | En]; [simpl; rewrite Ef; auto |].
  rewrite bind_run, (bind_run (unix_call respond _)). cbn [fst snd mmodify].
  set (w1 := set_u_heap _ a.2).
  set (p := FP_Create _ _ _ _ _ _ _ _).
  destruct (unix_call_heap p w1) as (Gh & Gc & Gf).
  set (r := unix_call respond p w1) in *.
  destruct (Z.eqb_spec r.1.1 FFX_API_RETURN_OK) as [E1 | E1]; cbn [negb orb].
  - destruct (Z.eqb_spec r.1.2 0) as [E2 | E2].
    + rewrite bind_run. cbn [fst snd mreturn].
      destruct (context_free_heap cb a.1 r.2) as (Fh & Fc & Ff). rewrite Ff, Fh, Fc, Gf, Gh, Gc.
      split; [done |]. left. split; [done |]. split; [| done].
      unfold w1. simpl. rewrite Eh. by rewrite delete_insert_id.
    + assert (Hx : exists x, u_heap r.2 !! a.1 = Some x /\ fsr_references x = 1).
      { rewrite Gh. unfold w1. simpl. rewrite lookup_insert_eq. by eexists. }
      destruct Hx as (x & Hx & Hr). rewrite bind_run, (modu_at _ _ x) by done.
      split; [exact (eq_trans Gf Ef) |]. right.
      exists (mkFsrContext r.1.2 dev (fsr_allocation x) (fsr_message x) (fsr_debug_level x)
                (fsr_references x)).
      split; [done |]. split; [done |]. split; [exact Hr |]. split.
      * simpl. by rewrite insert_insert_eq, Eh.
      * simpl. by rewrite Ec.
  - rewrite bind_run. cbn [fst snd mreturn].
    destruct (context_free_heap cb a.1 r.2) as (Fh & Fc & Ff). rewrite Ff, Fh, Fc, Gf, Gh, Gc.
    split; [done |]. left. split; [done |]. split; [| done].
    unfold w1. simpl. rewrite Eh. by rewrite delete_insert_id.
Qed.

Lemma counted_create w held out desc cb :
  u_heap w !! (context_alloc respond cb w).1 = None ->
  counted (mkShared w held) ->
  counted (mkShared (ffxCreateContext respond out desc cb w).2 held).
Proof.
  intros Hfresh H. destruct (create_context_cases out desc cb w Hfresh) as [Ef [K | K]].
  - destruct K as (_ & Eh & Ec). by apply (counted_outside w).
  - destruct K as (x & _ & Hn & Hr & Eh & Ec).
    pose proof (proj2 (proj2 H) (context_alloc respond cb w).1) as Hz. simpl in Hz.
    rewrite Hfresh in Hz.
    pose proof (occurs_nonneg (context_alloc respond cb w).1 (u_contexts w)).
    pose proof (occurs_nonneg (context_alloc respond cb w).1 held).
    apply (counted_update w held _ _ (context_alloc respond cb w).1 x); try done.
    + rewrite Ec. intros d [K | K]; [| apply H; by right].
      apply elem_of_cons in K as [-> | K]; [done | apply H; by left].
    + intros d Hd. rewrite Ec, occurs_cons. rewrite bool_decide_false by done. simpl. lia.
    + rewrite Ec, occurs_cons, bool_decide_true by done. simpl. lia.
    + lia.
Qed.

Lemma counted_step s s' : ustep s s' -> counted s -> counted s'.
Proof.
  destruct 1; intros H'.
  - by apply counted_find.
  - destruct (counted_owned w held c H' (or_intror H)) as (x & Hx & _).
    by rewrite (getu_at c x).
  - destruct (counted_owned w held c H' (or_intror H)) as (x & Hx & Hr).
    rewrite (modu_at c _ x) by done.
    pose proof (proj2 (proj2 H') c) as Hc. simpl in Hc. rewrite Hx in Hc.
    apply (counted_update w held _ _ c (set_fsr_debug m l x)); try done; simpl.
    + apply H'.
    + tauto.
  - by apply counted_release.
  - by apply counted_unlink.
  - by apply counted_relink.
  - by apply counted_create.
  - by apply (counted_outside w).
Qed.

Lemma counted_steps s s' : rtc ustep s s' -> counted s -> counted s'.
Proof. induction 1 as [| s1 s2 s3 Hs _ IH]; intros H; [done |]. by apply IH, (counted_step s1). Qed.

(** ** Every API call is a sequence of such steps *)

Definition up_quiet (w w' : up_world) : Prop :=
  u_contexts w' = u_contexts w /\ u_heap w' = u_heap w /\ u_fault w' = u_fault w.

#[local] Instance up_quiet_preorder : PreOrder up_quiet.
Proof.
  split; [by intros w |]. intros w1 w2 w3 (A1 & A2 & A3) (B1 & B2 & B3).
  repeat split; congruence.
Qed.

Lemma uq_ext e : keeps up_quiet (uext respond e).
Proof. by intros w. Qed.
Lemma uq_modify f : (forall w, up_quiet w (f w)) -> keeps up_quiet (mmodify f).
Proof. intros H w. apply H. Qed.
Lemma uq_unix p : keeps up_quiet (unix_call respond p).
Proof. by intros w. Qed.
Hint Resolve uq_ext uq_modify uq_unix : c_db.
Hint Extern 1 (up_quiet _ _) => repeat split; reflexivity : c_db.

Lemma uq_query_switch b q : keeps up_quiet (query_switch powf provider_name b q).
Proof. destruct q; simpl; unfold defined; keeps_auto. Qed.
Lemma uq_log a h t r x : keeps up_quiet (pe_log_result respond a h t r x).
Proof. unfold pe_log_result. keeps_auto. Qed.

Local Abbreviation usteps := (rtc ustep).

Lemma steps_quiet {A} (m : U A) w held :
  keeps up_quiet m -> usteps (mkShared w held) (mkShared (m w).2 held).
Proof. intros H. destruct (H w) as (E1 & E2 & E3). apply rtc_once. by constructor. Qed.

Lemma steps_bind {A B} (m : U A) (k : A -> U B) w h1 h2 h3 :
  usteps (mkShared w h1) (mkShared (m w).2 h2) ->
  usteps (mkShared (m w).2 h2) (mkShared (k (m w).1 (m w).2).2 h3) ->
  usteps (mkShared w h1) (mkShared (mbind' m k w).2 h3).
Proof. intros H1 H2. rewrite bind_run. by etransitivity; [exact H1 | exact H2]. Qed.

Lemma steps_find handle w held :
  usteps (mkShared w held)
    (mkShared (find_context handle w).2
       (if (find_context handle w).1 =? NULL then held else (find_context handle w).1 :: held)).
Proof. apply rtc_once. constructor. Qed.

(** Release the reference taken last. *)
Lemma steps_release c w held :
  usteps (mkShared w (c :: held)) (mkShared (release_context respond c w).2 held).
Proof.
  apply rtc_once. replace held with (unlink c (c :: held)) at 2
    by (simpl; by rewrite Z.eqb_refl). constructor. set_solver.
Qed.

Lemma steps_read c w held :
  usteps (mkShared w (c :: held)) (mkShared (getu c w).2 (c :: held)).
Proof. apply rtc_once. constructor. set_solver. Qed.

Lemma steps_report c t w held :
  usteps (mkShared w (c :: held)) (mkShared (report respond c t w).2 (c :: held)).
Proof.
  unfold report. eapply steps_bind; [by apply (steps_quiet mget) |].
  eapply steps_bind; [| apply steps_quiet; keeps_auto].
  case_match; [| by apply (steps_quiet (mreturn None))].
  eapply steps_bind; [apply steps_read | by apply (steps_quiet (mreturn _))].
Qed.

(** Find a context, use it, release it. *)
Lemma steps_with_context {A} handle (k : ptr -> U A) w held :
  (forall w, usteps (mkShared w held) (mkShared (k NULL w).2 held)) ->
  (forall c w, c <> NULL -> usteps (mkShared w (c :: held)) (mkShared (k c w).2 held)) ->
  usteps (mkShared w held) (mkShared (mbind' (find_context handle) k w).2 held).
Proof.
  intros H0 Hc. eapply steps_bind; [apply steps_find |].
  destruct (Z.eqb_spec (find_context handle w).1 NULL) as [-> | E]; [apply H0 | by apply Hc].
Qed.

Ltac not_null c := rewrite (proj2 (Z.eqb_neq c NULL)) by done.
Ltac quietly := apply steps_quiet; keeps_auto.

Lemma steps_query_impl h d w held :
  usteps (mkShared w held) (mkShared (query_impl respond powf provider_name h d w).2 held).
Proof.
  unfold query_impl. destruct d as [q|]; [| quietly].
  destruct h as [c0|]; [| apply steps_quiet, uq_query_switch].
  apply steps_with_context; [intros; apply rtc_refl |]. intros c v Hc. not_null c.
  eapply steps_bind; [apply steps_release | apply steps_quiet, uq_query_switch].
Qed.

Lemma steps_dispatch_impl h d w held :
  usteps (mkShared w held) (mkShared (dispatch_impl respond h d w).2 held).
Proof.
  unfold dispatch_impl. destruct d as [[d|t]|]; [| quietly | quietly].
  apply steps_with_context; [intros; apply rtc_refl |]. intros c v Hc. not_null c.
  eapply steps_bind; [apply steps_read |]. eapply steps_bind; [quietly |].
  eapply (steps_bind _ _ _ _ (c :: held)).
  - unfold mwhen. case_match; [apply steps_report | quietly].
  - eapply steps_bind; [apply steps_release | quietly].
Qed.

Lemma steps_configure h d w held :
  usteps (mkShared w held) (mkShared (ffxConfigure respond h d w).2 held).
Proof.
  unfold ffxConfigure. destruct d as [[m l|t]|]; [| quietly | quietly].
  destruct (negb (known_debug_level l)); [quietly |].
  apply steps_with_context.
  - intros v. rewrite Z.eqb_refl. case_match; quietly.
  - intros c v Hc. not_null c. rewrite andb_false_r.
    eapply (steps_bind _ _ _ _ (c :: held)); [apply rtc_once; constructor; set_solver |].
    eapply steps_bind; [apply steps_read |]. eapply steps_bind; [quietly |].
    eapply steps_bind; [apply steps_release | quietly].
Qed.

Lemma steps_destroy h cb w held :
  usteps (mkShared w held) (mkShared (ffxDestroyContext respond h cb w).2 held).
Proof.
  unfold ffxDestroyContext. destruct h as [c|]; [| quietly].
  destruct (Z.eqb_spec c NULL) as [| Hc]; [quietly |]. rewrite bind_run.
  destruct (unlink_fsr c w).1 eqn:E; cbn [negb].
  - etransitivity; [apply rtc_once; by apply step_unlink |].
    eapply steps_bind; [apply steps_read |]. case_match.
    + eapply steps_bind; [| quietly]. apply rtc_once.
      replace held with (unlink c (c :: held)) at 2 by (simpl; by rewrite Z.eqb_refl).
      apply step_relink. set_solver.
    + eapply steps_bind; [quietly |]. eapply steps_bind; [quietly |].
      eapply steps_bind; [apply steps_release | quietly].
  - rewrite unlink_fsr_run in *. cbn [fst snd] in *. rewrite E. apply rtc_refl.
Qed.

(** The calls of the API. *)
Inductive up_op :=
| Up_create (has_output : bool) (desc : option (list up_entry))
    (callbacks : option ffxAllocationCallbacks)
| Up_destroy (handle : option ptr) (callbacks : option ffxAllocationCallbacks)
| Up_configure (handle : option ptr) (desc : option up_configure)
| Up_query (handle : option ptr) (desc : option up_query)
| Up_dispatch (handle : option ptr) (desc : option up_dispatch).

Definition run_up (o : up_op) : U unit :=
  match o with
  | Up_create out d cb => ffxCreateContext respond out d cb ;;; mreturn tt
  | Up_destroy h cb => ffxDestroyContext respond h cb ;;; mreturn tt
  | Up_configure h d => ffxConfigure respond h d ;;; mreturn tt
  | Up_query h d => ffxQuery respond powf provider_name h d ;;; mreturn tt
  | Up_dispatch h d => ffxDispatch respond h d ;;; mreturn tt
  end.

(** A creation is handed a block that is not a live context. *)
Definition fresh_up (o : up_op) (w : up_world) : Prop :=
  match o with
  | Up_create _ _ cb => u_heap w !! (context_alloc respond cb w).1 = None
  | _ => True
  end.

Lemma steps_ffxQuery h d w held :
  usteps (mkShared w held) (mkShared (ffxQuery respond powf provider_name h d w).2 held).
Proof.
  unfold ffxQuery. eapply steps_bind; [apply steps_query_impl |].
  eapply (steps_bind _ _ _ _ held).
  - destruct d as [q|]; [| quietly]. case_match; [| quietly].
    apply steps_with_context; [intros; apply rtc_refl |]. intros c v Hc. not_null c.
    eapply steps_bind; [apply steps_release | quietly].
  - eapply steps_bind; [apply steps_quiet, uq_log | quietly].
Qed.

Lemma steps_ffxDispatch h d w held :
  usteps (mkShared w held) (mkShared (ffxDispatch respond h d w).2 held).
Proof.
  unfold ffxDispatch. apply steps_with_context.
  - intros v. eapply steps_bind; [apply rtc_refl |]. eapply steps_bind; [apply steps_dispatch_impl |].
    eapply steps_bind; [apply steps_quiet, uq_log | quietly].
  - intros c v Hc. not_null c. eapply steps_bind; [apply steps_release |].
    eapply steps_bind; [apply steps_dispatch_impl |].
    eapply steps_bind; [apply steps_quiet, uq_log | quietly].
Qed.

Lemma run_up_steps o w held :
  fresh_up o w -> usteps (mkShared w held) (mkShared (run_up o w).2 held).
Proof.
  intros Hf. destruct o; unfold run_up; (eapply steps_bind; [| quietly]).
  - apply rtc_once. by constructor.
  - apply steps_destroy.
  - apply steps_configure.
  - apply steps_ffxQuery.
  - apply steps_ffxDispatch.
Qed.

Fixpoint fresh_ups (l : list up_op) (w : up_world) : Prop :=
  match l with
  | [] => True
  | o :: l' => fresh_up o w /\ fresh_ups l' (run_up o w).2
  end.

Lemma run_ups_steps l w held :
  fresh_ups l w -> usteps (mkShared w held) (mkShared (mfor run_up l w).2 held).
Proof.
  revert w. induction l as [| o l IH]; intros w Hf; simpl; [apply rtc_refl |].
  destruct Hf as [H1 H2]. eapply steps_bind; [by apply run_up_steps | by apply IH].
Qed.

(** ** The list of contexts *)

(** Creation adds a block that was no live context, destruction takes a context out or
    leaves the list as it was up to order, and nothing else changes the list. *)
Definition same_list (w w' : up_world) : Prop := u_contexts w' = u_contexts w.

#[local] Instance same_list_preorder : PreOrder same_list.
Proof. split; [done |]. intros a b c H1 H2. unfold same_list in *. congruence. Qed.

Lemma l_quiet {A} (m : U A) : keeps up_quiet m -> keeps same_list m.
Proof. intros H w. apply H. Qed.
Lemma l_getu c : keeps same_list (getu c).
Proof. intros w. unfold getu. by destruct (u_heap w !! c). Qed.
Lemma l_modu c f : keeps same_list (modu c f).
Proof. intros w. unfold modu. by destruct (u_heap w !! c). Qed.
Lemma l_heap f : keeps same_list (mmodify (fun w => set_u_heap (f w) w)).
Proof. by intros w. Qed.
Lemma l_ext e : keeps same_list (uext respond e).
Proof. by intros w. Qed.
Lemma l_unix q : keeps same_list (unix_call respond q).
Proof. by intros w. Qed.
Lemma l_global m l : keeps same_list (mmodify (set_u_global m l)).
Proof. by intros w. Qed.
Lemma l_get : keeps same_list mget.
Proof. by intros w. Qed.
Hint Resolve l_getu l_modu l_heap l_ext l_unix l_global l_get : c_db.
Lemma l_find h : keeps same_list (find_context h).
Proof. unfold find_context. keeps_auto. Qed.
Lemma l_release c : keeps same_list (release_context respond c).
Proof. unfold release_context, context_free. keeps_auto. Qed.
Lemma l_alloc cb : keeps same_list (context_alloc respond cb).
Proof. unfold context_alloc. keeps_auto. Qed.
Lemma l_report c t : keeps same_list (report respond c t).
Proof. unfold report. keeps_auto. Qed.
Lemma l_query_switch b q : keeps same_list (query_switch powf provider_name b q).
Proof. apply l_quiet, uq_query_switch. Qed.
Lemma l_log a h t r x : keeps same_list (pe_log_result respond a h t r x).
Proof. apply l_quiet, uq_log. Qed.
Hint Resolve l_find l_release l_alloc l_report l_query_switch l_log : c_db.

Lemma create_list out desc cb w :
  u_contexts (ffxCreateContext respond out desc cb w).2 = u_contexts w
  \/ u_contexts (ffxCreateContext respond out desc cb w).2
     = (context_alloc respond cb w).1 :: u_contexts w /\ (context_alloc respond cb w).1 <> NULL.
Proof.
  unfold ffxCreateContext. destruct desc as [desc|]; [| by left]. case_match; [by left |].
  destruct (checked_create desc) as [e | [[d dev] provider]]; [by left |]. rewrite bind_run.
  pose proof (l_alloc cb w) as Ha. unfold same_list in Ha. set (c := (context_alloc respond cb w).1).
  destruct (Z.eqb_spec c NULL) as [E | E]; [by left |]. rewrite !bind_run.
  match goal with |- context [if ?b then mbind' (context_free _ _ _) _ else _] => destruct b end.
  - left. rewrite bind_run. etransitivity; [| exact Ha]. unfold context_free. cbn. by repeat case_match.
  - right. split; [| done]. rewrite !bind_run. cbn. f_equal. etransitivity; [| exact Ha].
    by rewrite l_modu.
Qed.

Lemma nodup_unlink c l : NoDup l -> NoDup (unlink c l) /\ ~ c ∈ unlink c l.
Proof.
  induction l as [| x l IH]; intros H; simpl; [split; [constructor | by apply not_elem_of_nil] |].
  apply NoDup_cons in H as [Hx H]. destruct (IH H) as [H1 H2].
  destruct (Z.eqb_spec x c) as [-> | Hne]; [done |]. split.
  - constructor; [| done]. intros Hin. apply Hx. clear -Hin. induction l as [| y l IH]; simpl in *; [done |].
    destruct (y =? c); [by right |]. apply elem_of_cons in Hin as [-> | Hin]; [by left | right; auto].
  - intros [-> | Hin]%elem_of_cons; done.
Qed.

Lemma destroy_list h cb w :
  NoDup (u_contexts w) -> NoDup (u_contexts (ffxDestroyContext respond h cb w).2).
Proof.
  intros Hn. unfold ffxDestroyContext. destruct h as [c|]; [| done]. destruct (c =? NULL); [done |].
  rewrite bind_run, unlink_fsr_run. cbn [fst snd]. case_match; [by case_match |].
  case_bool_decide; [| done]. destruct (nodup_unlink c _ Hn) as [H1 H2]. rewrite bind_run.
  match goal with |- context [getu c ?w0] => pose proof (l_getu c w0) as Hg end. case_match.
  - cbn. rewrite Hg. by constructor.
  - match goal with |- NoDup (u_contexts (?m ?w0).2) => enough (same_list w0 (m w0).2) as -> end.
    + by rewrite Hg.
    + match goal with |- same_list _ (?m _).2 => enough (keeps same_list m) as K by apply K end. keeps_auto.
Qed.

Lemma run_up_nodup o w :
  fresh_up o w -> counted (mkShared w []) -> NoDup (u_contexts w) -> NoDup (u_contexts (run_up o w).2).
Proof.
  intros Hf Hc Hn. destruct o as [out d cb | h cb | h d | h d | h d]; unfold run_up; rewrite bind_run; cbn [mreturn snd].
  - destruct (create_list out d cb w) as [-> | [-> _]]; [done |]. constructor; [| done]. intros Hin.
    destruct (counted_owned w [] _ Hc (or_introl Hin)) as (x & Hx & _). simpl in Hf. congruence.
  - by apply destroy_list.
  - enough (keeps same_list (ffxConfigure respond h d)) as -> by done. unfold ffxConfigure. keeps_auto.
  - enough (keeps same_list (ffxQuery respond powf provider_name h d)) as -> by done.
    unfold ffxQuery, query_impl. keeps_auto.
  - enough (keeps same_list (ffxDispatch respond h d)) as -> by done. unfold ffxDispatch, dispatch_impl. keeps_auto.
Qed.

Lemma run_ups_nodup l w :
  fresh_ups l w -> counted (mkShared w []) -> NoDup (u_contexts w) -> NoDup (u_contexts (mfor run_up l w).2).
Proof.
  revert w. induction l as [| o l IH]; intros w Hf Hc Hn; simpl; [done |]. destruct Hf as [H1 H2].
  rewrite bind_run. apply IH; [done | | by apply run_up_nodup].
  eapply counted_steps; [by apply run_up_steps | done].
Qed.
End Threads.

(** The process before the first call. *)
Definition up_initial : up_world := mkUpWorld [] ∅ NULL 0 0 false false [].

Lemma counted_initial : counted (mkShared up_initial []).
Proof.
  split; [done |]. split; [intros c [H | H]; by apply not_elem_of_nil in H |].
  intros c. simpl. by rewrite lookup_empty.
Qed.

(** C7: no interleaving of threads that create, look up, use, release and destroy
    upscaler contexts ever touches a freed context, and a context's reference count
    is always the number of its owners: the list, while it is listed, and each thread
    between [find_context] and [release_context]. *)
Theorem contexts_safe_in_any_interleaving
    (respond : list (up_event * up_response) -> up_event -> up_response) (s : shared)
    (Hs : rtc (ustep respond) (mkShared up_initial []) s) :
  u_fault (sh_world s) = false
  /\ forall c, c ∈ u_contexts (sh_world s) \/ c ∈ sh_held s ->
     exists x, u_heap (sh_world s) !! c = Some x
       /\ fsr_references x = occurs c (u_contexts (sh_world s)) + occurs c (sh_held s).
Proof.
  pose proof (counted_steps respond _ _ Hs counted_initial) as H.
  split; [apply H |]. intros c Hc. destruct s as [w held]. by apply counted_owned.
Qed.

(** A translator that accepts everything and an allocator with distinct blocks. *)
Definition up_demo (t : list (up_event * up_response)) (e : up_event) : up_response :=
  match e with
  | UE_unix _ => mkUpResponse 0 0 [0; 5]
  | UE_malloc => mkUpResponse 0 (4096 + Z.of_nat (length t)) []
  | UE_getenv => mkUpResponse 0 47 []
  | _ => mkUpResponse 0 0 []
  end.

Definition up_demo_create : up_op :=
  Up_create true (Some [U_Upscale (mkCreateUpscale 0 1280 720 1920 1080 NULL); U_Backend 900]) None.

Definition up_demo_world : up_world :=
  (mfor (run_up up_demo (fun x _ => x) 0) [up_demo_create] up_initial).2.

Lemma contexts_safe_in_any_interleaving_witness :
  u_fault (sh_world (mkShared (find_context (Some 4096) up_demo_world).2 [4096])) = false
  /\ u_contexts up_demo_world = [4096].
Proof.
  split; [| vm_compute; reflexivity].
  eapply (contexts_safe_in_any_interleaving up_demo). etransitivity.
  - apply (run_ups_steps up_demo (fun x _ => x) 0 [up_demo_create]). repeat split.
  - apply rtc_once. apply (step_find up_demo up_demo_world [] (Some 4096)).
Defined.

(** C8: across any sequence of API calls no context is leaked and none is used after
    it was freed: afterwards no context is listed twice, the contexts that are allocated
    are exactly the listed ones, and each has one reference. *)
Theorem api_leaves_listed_contexts
    (respond : list (up_event * up_response) -> up_event -> up_response)
    (powf : f32 -> f32 -> f32) (provider_name : ptr) (l : list up_op)
    (Hfresh : fresh_ups respond powf provider_name l up_initial) :
  let w := (mfor (run_up respond powf provider_name) l up_initial).2 in
  u_fault w = false /\ NoDup (u_contexts w)
  /\ (forall c, c ∈ u_contexts w <-> is_Some (u_heap w !! c))
  /\ (forall c x, u_heap w !! c = Some x -> fsr_references x = 1).
Proof.
  intros w. pose proof (run_ups_steps respond powf provider_name l up_initial [] Hfresh) as K.
  pose proof (counted_steps respond _ _ K counted_initial) as H. fold w in H.
  pose proof (run_ups_nodup respond powf provider_name l up_initial Hfresh counted_initial
                ltac:(constructor)) as Hn. fold w in Hn.
  assert (Hx : forall c x, u_heap w !! c = Some x -> c ∈ u_contexts w /\ fsr_references x = 1).
  { intros c x Hx. pose proof (proj2 (proj2 H) c) as Hc. simpl in Hc. rewrite Hx in Hc.
    replace (occurs c []) with 0 in Hc by done. assert (Hin : c ∈ u_contexts w) by (apply occurs_elem; lia).
    split; [done |]. rewrite (occurs_nodup c _ Hn Hin) in Hc. lia. }
  split; [apply H |]. split; [done |]. split; [| by intros c x Hc; apply (Hx c x)].
  intros c. split; [| by intros [x Hc]; apply (Hx c x)].
  intros Hc. destruct (counted_owned w [] c H (or_introl Hc)) as (x & E & _). eauto.
Qed.

Lemma api_leaves_listed_contexts_witness :
  u_fault up_demo_world = false
  /\ u_heap (mfor (run_up up_demo (fun x _ => x) 0)
               [up_demo_create; Up_destroy (Some 4096) None] up_initial).2 !! 4096 = None.
Proof.
  split; [| vm_compute; reflexivity].
  apply (api_leaves_listed_contexts up_demo (fun x _ => x) 0 [up_demo_create]). repeat split.
Defined.

(** ** Arithmetic of the queries *)

Lemma rem_shift_mod index p :
  0 < p -> Z.rem (Z.rem index p + p) p = index mod p.
Proof.
  intros Hp. pose proof (Z.rem_bound_abs index p ltac:(lia)) as Hb.
  rewrite Z.rem_mod_nonneg by lia. rewrite <- Z.add_mod_idemp_r, Z.mod_same, Z.add_0_r by lia.
  pose proof (Z.quot_rem' index p) as Hq.
  replace (Z.rem index p) with (index + (- (Z.quot index p)) * p) by lia.
  by rewrite Z.mod_add by lia.
Qed.

Lemma jitter_index_euclid i p : 0 < p <= 2 ^ 30 -> jitter_index i p = Some (i mod p + 1).
Proof.
  intros Hp. unfold jitter_index, int32_add. pose proof (Z.rem_bound_abs i p ltac:(lia)).
  replace ((- 2 ^ 31 <=? Z.rem i p + p) && _) with true
    by (symmetry; apply andb_true_intro; split; [apply Z.leb_le | apply Z.ltb_lt]; lia).
  rewrite rem_shift_mod by lia. pose proof (Z.mod_pos_bound i p ltac:(lia)).
  rewrite (uwrap_small 32 (i mod p)) by lia. by rewrite uwrap_small by lia.
Qed.

(** The jitter index stays in the sequence: for every 32-bit index, negative ones
    included, and every phase count up to 2^30, the index handed to the radical inverse
    is the Euclidean remainder plus one, hence between 1 and the phase count, and equal
    for indices one period apart. *)
Theorem jitter_index_in_phase (index phaseCount : Z)
    (Hi : - 2 ^ 31 <= index < 2 ^ 31) (Hp : 0 < phaseCount <= 2 ^ 30) :
  jitter_index index phaseCount = Some (index mod phaseCount + 1)
  /\ 1 <= index mod phaseCount + 1 <= phaseCount
  /\ (forall k, jitter_index (index + k * phaseCount) phaseCount = jitter_index index phaseCount).
Proof.
  pose proof (Z.mod_pos_bound index phaseCount ltac:(lia)).
  rewrite !jitter_index_euclid by lia. split; [done |]. split; [lia |].
  intros k. by rewrite jitter_index_euclid, Z.mod_add by lia.
Qed.

Lemma jitter_index_in_phase_witness :
  jitter_index (-3) 8 = Some 6 /\ jitter_index (2 ^ 31 - 2) (2 ^ 31 - 1) = None.
Proof.
  split; [| vm_compute; reflexivity].
  exact (proj1 (jitter_index_in_phase (-3) 8 ltac:(lia) ltac:(lia))).
Defined.

Lemma radical_loop_total fuel index base value fraction :
  2 <= base -> 0 <= index < 2 ^ Z.of_nat fuel ->
  is_Some (radical_loop fuel index base value fraction).
Proof.
  intros Hb. revert index value fraction. induction fuel as [| n IH]; intros index value fraction Hi.
  - simpl in *. rewrite (proj2 (Z.eqb_eq index 0)) by lia. by eexists.
  - simpl. destruct (Z.eqb_spec index 0); [by eexists |]. apply IH.
    rewrite Nat2Z.inj_succ, Z.pow_succ_r in Hi by lia.
    split; [apply Z.div_pos; lia | apply Z.div_lt_upper_bound; nia].
Qed.

(** C38: the loop of [radical_inverse] ends on every 32-bit index and base of at least
    two within 32 rounds, so the whole jitter query, asked for both offsets, answers on every
    32-bit index and phase count from 1 to 2^30. *)
Theorem jitter_offset_total (powf : f32 -> f32 -> f32) (name : ptr) (b : bool)
    (index phaseCount : Z) (w : up_world)
    (Hi : - 2 ^ 31 <= index < 2 ^ 31) (Hp : 0 < phaseCount <= 2 ^ 30) :
  exists x y, query_switch powf name b (UQ_JitterOffset index phaseCount true true) w
    = ((FFX_API_RETURN_OK, UR_offset (Some (f32_sub x f32_half)) (Some (f32_sub y f32_half))), w)
    /\ radical_inverse (index mod phaseCount + 1) 2 = Some x
    /\ radical_inverse (index mod phaseCount + 1) 3 = Some y.
Proof.
  pose proof (Z.mod_pos_bound index phaseCount ltac:(lia)) as Hm.
  assert (T : forall base, 2 <= base ->
    is_Some (radical_inverse (index mod phaseCount + 1) base)).
  { intros base Hb. apply radical_loop_total; [done |]. simpl. lia. }
  destruct (T 2 ltac:(lia)) as [x Hx], (T 3 ltac:(lia)) as [y Hy].
  exists x, y. split; [| done]. unfold query_switch.
  rewrite (proj2 (Z.leb_gt phaseCount 0)), jitter_index_euclid by lia. unfold defined.
  by rewrite Hx, Hy.
Qed.

Lemma jitter_offset_total_witness :
  exists x y, query_switch (fun x _ => x) 0 false (UQ_JitterOffset (-5) 32 true true) up_initial
    = ((FFX_API_RETURN_OK, UR_offset (Some (f32_sub x f32_half)) (Some (f32_sub y f32_half))), up_initial)
    /\ radical_inverse ((-5) mod 32 + 1) 2 = Some x
    /\ radical_inverse ((-5) mod 32 + 1) 3 = Some y.
Proof. apply (jitter_offset_total (fun x _ => x) 0 false (-5) 32 up_initial); lia. Defined.

(** ** The API log is bounded *)

Definition is_log (er : up_event * up_response) : bool :=
  match er.1 with UE_log _ _ _ _ _ _ => true | _ => false end.

Definition log_lines (w : up_world) : Z := Z.of_nat (length (List.filter is_log (u_trace w))).

Record log_call := mkLogCall {
  lc_api : up_api; lc_handle : option ptr; lc_type : Z; lc_result : Z; lc_reason : log_reason }.

Section Log.
Variable respond : list (up_event * up_response) -> up_event -> up_response.

Definition run_log (c : log_call) : U unit :=
  pe_log_result respond (lc_api c) (lc_handle c) (lc_type c) (lc_result c) (lc_reason c).

Lemma run_log_step c w :
  - 2 ^ 31 <= u_pe_log_count w + 1 < 2 ^ 31 ->
  let on := ur_value (respond (u_trace w) UE_getenv) =? 47 in
  u_pe_log_count (run_log c w).2 = u_pe_log_count w + b2z on
  /\ log_lines (run_log c w).2
     = log_lines w + b2z (on && negb (120 <? u_pe_log_count w + 1)).
Proof.
  intros Hc. unfold run_log, pe_log_result. rewrite bind_run. cbn [uext fst snd].
  destruct (ur_value _ =? 47); cbn [negb andb].
  - rewrite !bind_run. cbn [fst snd mmodify mgets u_pe_log_count set_u_pe_log_count set_u_trace].
    rewrite (swrap_small 32) by lia.
    destruct (120 <? u_pe_log_count w + 1); cbn [negb]; unfold log_lines; simpl; lia.
  - unfold log_lines. simpl. lia.
Qed.

Lemma run_logs_bounded l w :
  0 <= u_pe_log_count w -> u_pe_log_count w + Z.of_nat (length l) < 2 ^ 31 ->
  log_lines w <= Z.min 120 (u_pe_log_count w) ->
  let w' := (mfor run_log l w).2 in
  u_pe_log_count w <= u_pe_log_count w' <= u_pe_log_count w + Z.of_nat (length l)
  /\ log_lines w' <= Z.min 120 (u_pe_log_count w').
Proof.
  revert w. induction l as [| c l IH]; intros w H0 Hn Hl; simpl; [lia |].
  rewrite bind_run. destruct (run_log_step c w) as [E1 E2]; [simpl in Hn; lia |].
  simpl in Hn. destruct (IH (run_log c w).2) as [K1 K2].
  - rewrite E1. unfold b2z. case_match; lia.
  - rewrite E1. unfold b2z. case_match; lia.
  - rewrite E1, E2. destruct (_ =? 47); cbn [b2z andb]; [| lia].
    destruct (Z.ltb_spec 120 (u_pe_log_count w + 1)); cbn [negb b2z]; lia.
  - split; [| exact K2]. rewrite E1 in K1. unfold b2z in K1. case_match; lia.
Qed.
End Log.

(** However often the API is called (below the 2^31 calls at which the 32-bit
    sequence number wraps), the log file gets at most 120 lines. *)
Theorem pe_log_bounded
    (respond : list (up_event * up_response) -> up_event -> up_response) (l : list log_call)
    (Hl : Z.of_nat (length l) < 2 ^ 31) :
  log_lines (mfor (run_log respond) l up_initial).2 <= 120.
Proof.
  destruct (run_logs_bounded respond l up_initial) as [_ K]; simpl; try lia.
  unfold log_lines. simpl. lia.
Qed.

Lemma pe_log_bounded_witness :
  log_lines (mfor (run_log up_demo)
               (repeat (mkLogCall Api_query None 0 0 Reason_ok) 130) up_initial).2 <= 120
  /\ log_lines (mfor (run_log up_demo)
               (repeat (mkLogCall Api_query None 0 0 Reason_ok) 130) up_initial).2 = 120.
Proof.
  split; [| vm_compute; reflexivity].
  apply (pe_log_bounded up_demo). vm_compute. reflexivity.
Defined.
