(* ===== verification/Handle.v ===== *)
(** * Wineserver: handle tables

    [server/handle.c].  A process has a table of handle entries; a handle is an
    index shifted left by two, and a global handle the same number exclusive-ored
    with a constant.  Tables grow by doubling, shrink by halving, and are copied to
    child processes.  Memory the server has not written yet is [None]; reading it,
    leaving a table, following a null pointer or failing an assertion sets
    [s_fault].

    The virtual methods of an object ([map_access], [close_handle]) and the
    security check [check_object_access] of [server/token.c] are parameters, as is
    the outcome of each memory allocation. *)

From stdpp Require Import base list gmap.
From Stdlib Require Import ZArith.
From S2P Require Import Prelude.

Open Scope Z_scope.

(** ** Status codes and flags *)

Definition STATUS_SUCCESS := 0.
Definition STATUS_INVALID_HANDLE := 0xC0000008.
Definition STATUS_NO_MEMORY := 0xC0000017.
Definition STATUS_ACCESS_DENIED := 0xC0000022.
Definition STATUS_OBJECT_TYPE_MISMATCH := 0xC0000024.
Definition STATUS_INSUFFICIENT_RESOURCES := 0xC000009A.
Definition STATUS_PROCESS_IS_TERMINATING := 0xC000010A.
Definition STATUS_NOT_SAME_OBJECT := 0xC00001AC.
Definition STATUS_HANDLE_NOT_CLOSABLE := 0xC0000235.

Definition GENERIC_READ := 0x80000000.
Definition GENERIC_WRITE := 0x40000000.
Definition GENERIC_EXECUTE := 0x20000000.
Definition GENERIC_ALL := 0x10000000.
Definition MAXIMUM_ALLOWED := 0x02000000.
Definition OBJ_PROTECT_CLOSE := 1.
Definition OBJ_INHERIT := 2.
Definition DUPLICATE_CLOSE_SOURCE := 1.
Definition DUPLICATE_SAME_ACCESS := 2.
Definition DUPLICATE_SAME_ATTRIBUTES := 4.
Definition DUPLICATE_MAKE_GLOBAL := 0x80000000.
Definition PROCESS_DUP_HANDLE := 0x40.
Definition DELETE := 0x00010000.

Definition RESERVED_SHIFT := 26.
Definition RESERVED_INHERIT := Z.shiftl 1 RESERVED_SHIFT.
Definition RESERVED_CLOSE_PROTECT := Z.shiftl 2 RESERVED_SHIFT.
Definition RESERVED_ALL := Z.lor RESERVED_INHERIT RESERVED_CLOSE_PROTECT.

Definition MIN_HANDLE_ENTRIES := 32.
Definition MAX_HANDLE_ENTRIES := 0x00ffffff.
Definition HANDLE_OBFUSCATOR := 0x544a4def.

(** ** Handles and indices *)

Definition index_to_handle (index : Z) : Z := u32 (Z.shiftl (index + 1) 2).

Definition handle_to_index (handle : Z) : Z := i32 (u32 (Z.shiftr handle 2 - 1)).

Definition handle_is_global (handle : Z) : bool :=
  Z.lxor handle HANDLE_OBFUSCATOR <=? Z.shiftl MAX_HANDLE_ENTRIES 2.

Definition handle_local_to_global (handle : Z) : Z :=
  if handle =? 0 then 0 else Z.lxor handle HANDLE_OBFUSCATOR.

Definition handle_global_to_local (handle : Z) : Z := Z.lxor handle HANDLE_OBFUSCATOR.

(** ** Data *)

(** [struct handle_entry]; a null [he_ptr] is a free entry. *)
Record handle_entry := mkEntry { he_ptr : ptr; he_access : Z }.

(** A slot of the entries array: [None] before its first write. *)
Abbreviation slot := (option handle_entry).

(** [struct handle_table] *)
Record handle_table := mkTable {
  t_process : option Z; t_count : Z; t_last : Z; t_free : Z; t_entries : list slot }.

Definition set_t_last v t := mkTable (t_process t) (t_count t) v (t_free t) (t_entries t).
Definition set_t_free v t := mkTable (t_process t) (t_count t) (t_last t) v (t_entries t).
Definition set_t_entries v t := mkTable (t_process t) (t_count t) (t_last t) (t_free t) v.
Definition set_t_array n v t := mkTable (t_process t) n (t_last t) (t_free t) v.

(** The header of an object: its counts, its operations and its type. *)
Record object := mkObject {
  o_refcount : Z; o_handle_count : Z; o_ops : Z; o_type : Z; o_permanent : bool }.

Record type_descr := mkType { ty_handle_count : Z; ty_handle_max : Z }.

Record generic_map := mkMapping { gm_read : Z; gm_write : Z; gm_exec : Z; gm_all : Z }.

Record process := mkProcess { p_handles : option handle_table; p_token : Z }.

Record server := mkServer {
  s_objects : gmap Z object;
  s_types : gmap Z type_descr;
  s_procs : gmap Z process;
  s_global : option handle_table;
  s_error : Z;
  s_allocs : Z;
  s_fault : bool }.

Definition set_s_objects v s := mkServer v (s_types s) (s_procs s) (s_global s) (s_error s) (s_allocs s) (s_fault s).
Definition set_s_types v s := mkServer (s_objects s) v (s_procs s) (s_global s) (s_error s) (s_allocs s) (s_fault s).
Definition set_s_procs v s := mkServer (s_objects s) (s_types s) v (s_global s) (s_error s) (s_allocs s) (s_fault s).
Definition set_s_global v s := mkServer (s_objects s) (s_types s) (s_procs s) v (s_error s) (s_allocs s) (s_fault s).
Definition set_s_error v s := mkServer (s_objects s) (s_types s) (s_procs s) (s_global s) v (s_allocs s) (s_fault s).
Definition set_s_allocs v s := mkServer (s_objects s) (s_types s) (s_procs s) (s_global s) (s_error s) v (s_fault s).
Definition set_s_fault s := mkServer (s_objects s) (s_types s) (s_procs s) (s_global s) (s_error s) (s_allocs s) true.

Abbreviation SV := (M server).

(** Which table a handle lives in. *)
Inductive table_ref := T_process (p : Z) | T_global.

(** ** Pure parts of the table operations *)

(** [alloc_handle_table]'s initial contents. *)
Definition new_table (p : option Z) (count : Z) : handle_table :=
  mkTable p count (-1) 0 (repeat None (Z.to_nat count)).

(** The scan of [alloc_entry] for a free slot. *)
Inductive scan_result := SR_found (i : Z) | SR_end (i : Z) | SR_fault.

Fixpoint scan_free (l : list slot) (i last : Z) : scan_result :=
  if last <? i then SR_end i
  else match l with
       | Some e :: l' => if he_ptr e =? NULL then SR_found i else scan_free l' (i + 1) last
       | _ => SR_fault
       end.

(** The loop of [shrink_handle_table]; the argument is [last + 1]. *)
Fixpoint shrink_last (entries : list slot) (n : nat) : option Z :=
  match n with
  | O => Some (-1)
  | S k => match entries !! k with
           | Some (Some e) => if negb (he_ptr e =? NULL) then Some (Z.of_nat k)
                              else shrink_last entries k
           | _ => None
           end
  end.

(** [entries[i]] for a signed index. *)
Definition slot_at (t : handle_table) (i : Z) : option slot :=
  if (0 <=? i) then t_entries t !! Z.to_nat i else None.

Definition put_slot (i : Z) (e : handle_entry) (t : handle_table) : handle_table :=
  set_t_entries (<[Z.to_nat i := Some e]> (t_entries t)) t.

(** [map_access] of [object.h]. *)
Definition map_access (access : Z) (m : generic_map) : Z :=
  let access := if has_flag access GENERIC_READ then Z.lor access (gm_read m) else access in
  let access := if has_flag access GENERIC_WRITE then Z.lor access (gm_write m) else access in
  let access := if has_flag access GENERIC_EXECUTE then Z.lor access (gm_exec m) else access in
  let access := if has_flag access GENERIC_ALL then Z.lor access (gm_all m) else access in
  Z.land access (not32 (Z.lor GENERIC_READ (Z.lor GENERIC_WRITE (Z.lor GENERIC_EXECUTE GENERIC_ALL)))).

Section Handles.
(** Does allocation number [n] succeed? *)
Variable alloc_ok : Z -> bool.
(** The virtual methods, by the identity of the operations table. *)
Variable ops_map_access : Z -> option (ptr -> Z -> Z).
Variable ops_close_handle : Z -> option (ptr -> Z -> Z -> bool).
Variable type_mapping : Z -> generic_map.
(** [check_object_access(token, obj, &access)]: the access granted, or nothing. *)
Variable check_object_access : option Z -> ptr -> Z -> option Z.
(** The operations of process objects, and the running request. *)
Variable process_ops : Z.
Variable current_process : Z.
Variable current_token : option Z.
Variable magic_object : Z -> ptr.

(** ** Primitive steps *)

Definition sfault {A} (a : A) : SV A := fun s => (a, set_s_fault s).
Definition set_error (e : Z) : SV unit := mmodify (set_s_error e).

Definition try_alloc : SV bool :=
  fun s => (alloc_ok (s_allocs s), set_s_allocs (s_allocs s + 1) s).

Definition null_object : object := mkObject 0 0 0 0 false.
Definition get_object (o : ptr) : SV object :=
  fun s => match s_objects s !! o with
           | Some x => (x, s)
           | None => (null_object, set_s_fault s)
           end.
Definition put_object (o : ptr) (x : object) : SV unit :=
  mmodify (fun s => set_s_objects (<[o := x]> (s_objects s)) s).

Definition get_type (t : Z) : SV type_descr :=
  mgets (fun s => default (mkType 0 0) (s_types s !! t)).
Definition put_type (t : Z) (x : type_descr) : SV unit :=
  mmodify (fun s => set_s_types (<[t := x]> (s_types s)) s).

(** [process->handles]; following a null process faults. *)
Definition process_table (p : option Z) : SV (option handle_table) :=
  match p with
  | None => sfault None
  | Some p => fun s => match s_procs s !! p with
                       | Some x => (p_handles x, s)
                       | None => (None, set_s_fault s)
                       end
  end.

Definition get_table (r : table_ref) : SV (option handle_table) :=
  match r with
  | T_process p => process_table (Some p)
  | T_global => mgets s_global
  end.

Definition put_table (r : table_ref) (t : handle_table) : SV unit :=
  match r with
  | T_process p =>
      fun s => match s_procs s !! p with
               | Some x => (tt, set_s_procs (<[p := mkProcess (Some t) (p_token x)]> (s_procs s)) s)
               | None => (tt, set_s_fault s)
               end
  | T_global => mmodify (set_s_global (Some t))
  end.

(** ** Object counts *)

Definition grab_object (o : ptr) : SV unit :=
  let! x := get_object o in
  if negb (o_refcount x <? 2 ^ 31 - 1) then sfault tt
  else put_object o (mkObject (o_refcount x + 1) (o_handle_count x) (o_ops x) (o_type x) (o_permanent x)).

(** The object goes away with its last reference. *)
Definition release_object (o : ptr) : SV unit :=
  let! x := get_object o in
  if o_refcount x =? 0 then sfault tt
  else if o_refcount x - 1 =? 0
  then if negb (o_handle_count x =? 0) then sfault tt
       else mmodify (fun s => set_s_objects (delete o (s_objects s)) s)
  else put_object o (mkObject (o_refcount x - 1) (o_handle_count x) (o_ops x) (o_type x) (o_permanent x)).

Definition grab_object_for_handle (o : ptr) : SV unit :=
  let! x := get_object o in
  put_object o (mkObject (o_refcount x) (o_handle_count x + 1) (o_ops x) (o_type x) (o_permanent x)) ;;;
  let! t := get_type (o_type x) in
  put_type (o_type x) (mkType (ty_handle_count t + 1)
                              (Z.max (ty_handle_max t) (ty_handle_count t + 1))) ;;;
  grab_object o.

Definition release_object_from_handle (o : ptr) : SV unit :=
  let! x := get_object o in
  if o_handle_count x =? 0 then sfault tt
  else
  let! t := get_type (o_type x) in
  put_type (o_type x) (mkType (ty_handle_count t - 1) (ty_handle_max t)) ;;;
  put_object o (mkObject (o_refcount x) (o_handle_count x - 1) (o_ops x) (o_type x) (o_permanent x)) ;;;
  release_object o.

Definition map_obj_access (o : ptr) (access : Z) : SV Z :=
  let! x := get_object o in
  mreturn (match ops_map_access (o_ops x) with
           | Some f => f o access
           | None => map_access access (type_mapping (o_type x))
           end).

(** ** Tables *)

Definition alloc_handle_table (p : option Z) (count : Z) : SV (option handle_table) :=
  let count := if count <? MIN_HANDLE_ENTRIES then MIN_HANDLE_ENTRIES else count in
  let! ok := try_alloc in
  if negb ok then set_error STATUS_NO_MEMORY ;;; mreturn None
  else
  let! ok := try_alloc in
  if negb ok then set_error STATUS_NO_MEMORY ;;; mreturn None
  else mreturn (Some (new_table p count)).

(** The grown table, or nothing. *)
Definition grow_handle_table (t : handle_table) : SV (option handle_table) :=
  let count := Z.min (t_count t * 2) MAX_HANDLE_ENTRIES in
  if count =? t_count t then set_error STATUS_INSUFFICIENT_RESOURCES ;;; mreturn None
  else
  let! ok := try_alloc in
  if negb ok then set_error STATUS_INSUFFICIENT_RESOURCES ;;; mreturn None
  else mreturn (Some (set_t_array count
                        (t_entries t ++ repeat None (Z.to_nat (count - t_count t))) t)).

(** The end of [alloc_entry]: fill slot [i]. *)
Definition fill_entry (r : table_ref) (t : handle_table) (i : Z) (o : ptr) (access : Z) : SV Z :=
  grab_object_for_handle o ;;;
  match slot_at t i with
  | Some _ => put_table r (put_slot i (mkEntry o access) (set_t_free (i + 1) t)) ;;;
              mreturn (index_to_handle i)
  | None => sfault 0
  end.

Definition alloc_entry (r : table_ref) (o : ptr) (access : Z) : SV Z :=
  let! ot := get_table r in
  match ot with
  | None => sfault 0
  | Some t =>
      match scan_free (drop (Z.to_nat (t_free t)) (t_entries t)) (t_free t) (t_last t) with
      | SR_fault => sfault 0
      | SR_found i => fill_entry r t i o access
      | SR_end i =>
          if t_count t <=? i
          then let! g := grow_handle_table t in
               match g with
               | None => mreturn 0
               | Some t' => fill_entry r (set_t_last i t') i o access
               end
          else fill_entry r (set_t_last i t) i o access
      end
  end.

Definition alloc_handle_entry (p : Z) (o : ptr) (access attr : Z) : SV Z :=
  if negb (Z.land access RESERVED_ALL =? 0) then sfault 0
  else
  let access := if has_flag attr OBJ_INHERIT then Z.lor access RESERVED_INHERIT else access in
  let! t := process_table (Some p) in
  match t with
  | None => set_error STATUS_PROCESS_IS_TERMINATING ;;; mreturn 0
  | Some _ => alloc_entry (T_process p) o access
  end.

Definition alloc_handle_no_access_check (p : option Z) (o : ptr) (access attr : Z) : SV Z :=
  let access := if has_flag access MAXIMUM_ALLOWED then GENERIC_ALL else access in
  let! access := map_obj_access o access in
  match p with
  | Some p => alloc_handle_entry p o (Z.land access (not32 RESERVED_ALL)) attr
  | None => sfault 0
  end.

Definition alloc_handle (p : Z) (o : ptr) (access attr : Z) : SV Z :=
  let! access := map_obj_access o access in
  let access := Z.land access (not32 RESERVED_ALL) in
  if access =? 0 then set_error STATUS_ACCESS_DENIED ;;; mreturn 0
  else match check_object_access None o access with
       | None => set_error STATUS_ACCESS_DENIED ;;; mreturn 0
       | Some access => alloc_handle_entry p o access attr
       end.

Definition alloc_global_handle_no_access_check (o : ptr) (access : Z) : SV Z :=
  let! g := mgets s_global in
  let! ok := (match g with
              | Some _ => mreturn true
              | None => let! t := alloc_handle_table None 0 in
                        match t with
                        | Some t => mmodify (set_s_global (Some t)) ;;; mreturn true
                        | None => mreturn false
                        end
              end) in
  if negb ok then mreturn 0
  else let! h := alloc_entry T_global o access in mreturn (handle_local_to_global h).

Definition alloc_global_handle (o : ptr) (access : Z) : SV Z :=
  if negb (access =? 0)
  then match check_object_access None o access with
       | None => set_error STATUS_ACCESS_DENIED ;;; mreturn 0
       | Some access => alloc_global_handle_no_access_check o access
       end
  else alloc_global_handle_no_access_check o access.

(** [get_handle]: the table, the index and the entry. *)
Definition get_handle (p : option Z) (handle : Z) : SV (option (table_ref * Z * handle_entry)) :=
  let! own := process_table p in
  let r := if handle_is_global handle then T_global
           else match p with Some p => T_process p | None => T_global end in
  let handle' := if handle_is_global handle then handle_global_to_local handle else handle in
  let! g := mgets s_global in
  let table := if handle_is_global handle then g else own in
  match table with
  | None => mreturn None
  | Some t =>
      let index := handle_to_index handle' in
      if index <? 0 then mreturn None
      else if t_last t <? index then mreturn None
      else match slot_at t index with
           | Some (Some e) => if he_ptr e =? NULL then mreturn None
                              else mreturn (Some (r, index, e))
           | _ => sfault None
           end
  end.

(** [shrink_handle_table] *)
Definition shrink_handle_table (t : handle_table) : SV handle_table :=
  match shrink_last (t_entries t) (Z.to_nat (t_last t + 1)) with
  | None => sfault t
  | Some last =>
      let t := set_t_last last t in
      if t_count t / 4 <=? last then mreturn t
      else if t_count t <? MIN_HANDLE_ENTRIES * 2 then mreturn t
      else
      let count := t_count t / 2 in
      let! ok := try_alloc in
      if negb ok then mreturn t
      else mreturn (set_t_array count (take (Z.to_nat count) (t_entries t)) t)
  end.

(** ** Inheritance *)

(** [inherit_handle] into the table under construction: the index is taken from the
    handle as given. *)
Definition inherit_handle (parent : Z) (handle : Z) (t : handle_table) : SV handle_table :=
  let! src := get_handle (Some parent) handle in
  match src with
  | None => mreturn t
  | Some (_, _, e) =>
      if Z.land (he_access e) RESERVED_INHERIT =? 0 then mreturn t
      else
      let index := handle_to_index handle in
      match slot_at t index with
      | Some (Some d) =>
          if negb (he_ptr d =? NULL) then mreturn t
          else grab_object_for_handle (he_ptr e) ;;;
               mreturn (set_t_last (Z.max (t_last t) index) (put_slot index e t))
      | _ => sfault t
      end
  end.

Fixpoint inherit_handles (parent : Z) (handles : list Z) (t : handle_table) : SV handle_table :=
  match handles with
  | [] => mreturn t
  | h :: l => let! t' := inherit_handle parent h t in inherit_handles parent l t'
  end.

(** The copy loop over the parent's entries. *)
Fixpoint copy_entries (n : nat) (l : list slot) : SV (list slot) :=
  match n, l with
  | O, _ => mreturn l
  | S n', Some e :: l' =>
      let! e' :=
        (if he_ptr e =? NULL then mreturn e
         else if has_flag (he_access e) RESERVED_INHERIT
         then grab_object_for_handle (he_ptr e) ;;; mreturn e
         else mreturn (mkEntry NULL (he_access e))) in
      let! r := copy_entries n' l' in
      mreturn (Some e' :: r)
  | S _, _ => sfault l
  end.

(** [handles] is [None] for a null array; the standard handles come after it. *)
Definition copy_handle_table (p parent : Z) (handles : option (list Z)) (std_handles : list Z) :
    SV (option handle_table) :=
  let! pt := process_table (Some parent) in
  match pt with
  | None => sfault None
  | Some pt =>
      let! nt := alloc_handle_table (Some p) (t_count pt) in
      match nt with
      | None => mreturn None
      | Some t =>
          let! t :=
            (match handles with
             | Some hs =>
                 let zeroed := set_t_entries
                   (repeat (Some (mkEntry NULL 0)) (Z.to_nat (t_count pt))
                    ++ drop (Z.to_nat (t_count pt)) (t_entries t)) t in
                 let! t := inherit_handles parent hs zeroed in
                 inherit_handles parent (take 3 std_handles) t
             | None =>
                 let n := Z.to_nat (t_last pt + 1) in
                 let! copied := copy_entries n (take n (t_entries pt)) in
                 mreturn (set_t_last (t_last pt)
                            (set_t_entries (copied ++ drop n (t_entries t)) t))
             end) in
          let! t := shrink_handle_table t in
          mreturn (Some t)
      end
  end.

(** ** Closing *)

(** [close_handle]: the slot is found again by the index of the handle as given. *)
Definition close_handle (p : Z) (handle : Z) : SV Z :=
  let! entry := get_handle (Some p) handle in
  match entry with
  | None => mreturn STATUS_INVALID_HANDLE
  | Some (_, _, e) =>
      if has_flag (he_access e) RESERVED_CLOSE_PROTECT then mreturn STATUS_HANDLE_NOT_CLOSABLE
      else
      let o := he_ptr e in
      let! x := get_object o in
      if match ops_close_handle (o_ops x) with Some f => negb (f o p handle) | None => false end
      then mreturn STATUS_HANDLE_NOT_CLOSABLE
      else
      let index := handle_to_index handle in
      let r := if handle_is_global handle then T_global else T_process p in
      let! ot := get_table r in
      match ot with
      | None => sfault STATUS_SUCCESS
      | Some t =>
          match slot_at t index with
          | Some (Some old) =>
              let t := put_slot index (mkEntry NULL (he_access old)) t in
              let t := if index <? t_free t then set_t_free index t else t in
              let! t := (if index =? t_last t then shrink_handle_table t else mreturn t) in
              put_table r t ;;;
              release_object_from_handle o ;;;
              mreturn STATUS_SUCCESS
          | _ => sfault STATUS_SUCCESS
          end
      end
  end.

(** [handle_table_destroy]: every used entry is released; the answer of the
    [close_handle] method is ignored there. *)
Fixpoint destroy_entries (n : nat) (l : list slot) : SV unit :=
  match n, l with
  | O, _ => mreturn tt
  | S n', Some e :: l' =>
      mwhen (negb (he_ptr e =? NULL)) (release_object_from_handle (he_ptr e)) ;;;
      destroy_entries n' l'
  | S _, _ => sfault tt
  end.

Definition handle_table_destroy (t : handle_table) : SV unit :=
  destroy_entries (Z.to_nat (t_last t + 1)) (t_entries t).

Definition close_process_handles (p : Z) : SV unit :=
  let! t := process_table (Some p) in
  mmodify (fun s => match s_procs s !! p with
                    | Some x => set_s_procs (<[p := mkProcess None (p_token x)]> (s_procs s)) s
                    | None => s
                    end) ;;;
  match t with
  | Some t => handle_table_destroy t
  | None => mreturn tt
  end.

(** ** Access to objects *)

Definition is_magic (handle : Z) : bool :=
  (handle =? 0xfffffffa) || (handle =? 0xfffffffb) || (handle =? 0xfffffffc)
  || (handle =? 0xfffffffe) || (handle =? 0x7fffffff) || (handle =? 0xffffffff).

(** The object of a pseudo-handle; the tokens may be absent. *)
Definition get_magic_handle (handle : Z) : ptr :=
  if is_magic handle then magic_object handle else NULL.

(** [get_handle_obj]; [ops] is [None] for any type, and 0 is a null result. *)
Definition get_handle_obj (p : option Z) (handle access : Z) (ops : option Z) : SV ptr :=
  let wrong x := match ops with Some k => negb (o_ops x =? k) | None => false end in
  let m := get_magic_handle handle in
  if m =? NULL
  then let! entry := get_handle p handle in
       match entry with
       | None => set_error STATUS_INVALID_HANDLE ;;; mreturn NULL
       | Some (_, _, e) =>
           let! x := get_object (he_ptr e) in
           if wrong x then set_error STATUS_OBJECT_TYPE_MISMATCH ;;; mreturn NULL
           else if negb (Z.land (he_access e) access =? access)
           then set_error STATUS_ACCESS_DENIED ;;; mreturn NULL
           else grab_object (he_ptr e) ;;; mreturn (he_ptr e)
       end
  else let! x := get_object m in
       if wrong x then set_error STATUS_OBJECT_TYPE_MISMATCH ;;; mreturn NULL
       else grab_object m ;;; mreturn m.

Definition get_handle_access (p : Z) (handle : Z) : SV Z :=
  if negb (get_magic_handle handle =? NULL) then mreturn (not32 RESERVED_ALL)
  else
  let! entry := get_handle (Some p) handle in
  match entry with
  | None => mreturn 0
  | Some (_, _, e) => mreturn (Z.land (he_access e) (not32 RESERVED_ALL))
  end.

Fixpoint find_inherited_from (ops : Z) (i : Z) (n : nat) (l : list slot) : SV Z :=
  match n, l with
  | O, _ => mreturn 0
  | S n', Some e :: l' =>
      if he_ptr e =? NULL then find_inherited_from ops (i + 1) n' l'
      else
      let! x := get_object (he_ptr e) in
      if negb (o_ops x =? ops) then find_inherited_from ops (i + 1) n' l'
      else if has_flag (he_access e) RESERVED_INHERIT then mreturn (index_to_handle i)
      else find_inherited_from ops (i + 1) n' l'
  | S _, _ => sfault 0
  end.

Definition find_inherited_handle (p ops : Z) : SV Z :=
  let! t := process_table (Some p) in
  match t with
  | None => mreturn 0
  | Some t => find_inherited_from ops 0 (Z.to_nat (t_last t + 1)) (t_entries t)
  end.

(** Entries of the table that point at [o]. *)
Fixpoint count_entries (o : ptr) (l : list slot) : Z :=
  match l with
  | [] => 0
  | Some e :: l' => b2z (he_ptr e =? o) + count_entries o l'
  | None :: l' => count_entries o l'
  end.

Definition get_obj_handle_count (p : Z) (o : ptr) : SV Z :=
  let! t := process_table (Some p) in
  match t with
  | None => mreturn 0
  | Some t => mreturn (count_entries o (take (Z.to_nat (t_last t + 1)) (t_entries t)))
  end.

Definition put_access (r : table_ref) (index access : Z) (o : ptr) : SV unit :=
  let! ot := get_table r in
  match ot with
  | Some t => put_table r (put_slot index (mkEntry o access) t)
  | None => sfault tt
  end.

(** The access word after [set_handle_flags]. *)
Definition flagged_access (access mask flags : Z) : Z :=
  let mask := Z.land (u32 (Z.shiftl mask RESERVED_SHIFT)) RESERVED_ALL in
  let flags := Z.land (u32 (Z.shiftl flags RESERVED_SHIFT)) mask in
  Z.lor (Z.land access (not32 mask)) flags.

Definition reserved_flags (access : Z) : Z :=
  Z.shiftr (Z.land access RESERVED_ALL) RESERVED_SHIFT.

Definition set_handle_flags (p : option Z) (handle mask flags : Z) : SV Z :=
  if negb (get_magic_handle handle =? NULL)
  then mwhen (negb (mask =? 0)) (set_error STATUS_ACCESS_DENIED) ;;; mreturn 0
  else
  let! entry := get_handle p handle in
  match entry with
  | None => set_error STATUS_INVALID_HANDLE ;;; mreturn (-1)
  | Some (r, index, e) =>
      put_access r index (flagged_access (he_access e) mask flags) (he_ptr e) ;;;
      mreturn (reserved_flags (he_access e))
  end.

(** ** Duplication *)

Definition duplicate_access (o : ptr) (access options src_access : Z) : SV Z :=
  if has_flag options DUPLICATE_SAME_ACCESS then mreturn src_access
  else let! a := map_obj_access o access in mreturn (Z.land a (not32 RESERVED_ALL)).

(** [dst->token] *)
Definition token_of (p : option Z) : SV (option Z) :=
  match p with
  | None => sfault None
  | Some p => mgets (fun s => option_map p_token (s_procs s !! p))
  end.

(** The access checks for a duplicate with more rights than its source. *)
Definition recheck_access (o : ptr) (dst : option Z) (access : Z) : SV (option Z) :=
  match (match current_token with
         | Some t => check_object_access (Some t) o access
         | None => Some access
         end) with
  | None => set_error STATUS_ACCESS_DENIED ;;; mreturn None
  | Some access =>
      let! tok := token_of dst in
      match check_object_access tok o access with
      | None => set_error STATUS_ACCESS_DENIED ;;; mreturn None
      | Some access => mreturn (Some access)
      end
  end.

Definition duplicate_handle (src : Z) (src_handle : Z) (dst : option Z)
    (access attr options : Z) : SV Z :=
  let! o := get_handle_obj (Some src) src_handle 0 None in
  if o =? NULL then mreturn 0
  else
  let! entry := get_handle (Some src) src_handle in
  let! src_word := (match entry with
                    | Some (_, _, e) => mreturn (he_access e)
                    | None => map_obj_access o GENERIC_ALL
                    end) in
  let src_flags := reserved_flags src_word in
  let src_access := Z.land src_word (not32 RESERVED_ALL) in
  let! access := duplicate_access o access options src_access in
  let! res :=
    (if negb (Z.land access (not32 src_access) =? 0)
     then let! granted := recheck_access o dst access in
          match granted with
          | None => mreturn None
          | Some access =>
              let! h := (if has_flag options DUPLICATE_MAKE_GLOBAL
                         then alloc_global_handle o access
                         else alloc_handle_no_access_check dst o access attr) in
              mreturn (Some h)
          end
     else if has_flag options DUPLICATE_MAKE_GLOBAL
     then let! h := alloc_global_handle_no_access_check o access in mreturn (Some h)
     else match entry with
     | Some (r, index, e) =>
         if has_flag options DUPLICATE_CLOSE_SOURCE && bool_decide (Some src = dst)
            && negb (has_flag (he_access e) RESERVED_CLOSE_PROTECT)
         then let access := if has_flag attr OBJ_INHERIT then Z.lor access RESERVED_INHERIT
                            else access in
              put_access r index access (he_ptr e) ;;; mreturn (Some src_handle)
         else match dst with
              | Some d => let! h := alloc_handle_entry d o access attr in mreturn (Some h)
              | None => sfault None
              end
     | None => match dst with
               | Some d => let! h := alloc_handle_entry d o access attr in mreturn (Some h)
               | None => sfault None
               end
     end) in
  match res with
  | None => release_object o ;;; mreturn 0
  | Some h =>
      mwhen (negb (h =? 0) && has_flag options DUPLICATE_SAME_ATTRIBUTES)
            (set_handle_flags dst h 0xffffffff src_flags ;;; mreturn tt) ;;;
      release_object o ;;;
      mreturn h
  end.

Definition get_handle_table_count (p : Z) : SV Z :=
  let! t := process_table (Some p) in
  mreturn (match t with Some t => t_count t | None => 0 end).

(** ** Requests *)

Definition req_close_handle (handle : Z) : SV unit :=
  let! err := close_handle current_process handle in set_error err.

Definition req_set_handle_info (handle mask flags : Z) : SV Z :=
  set_handle_flags (Some current_process) handle mask flags.

Definition get_process_from_handle (handle access : Z) : SV ptr :=
  get_handle_obj (Some current_process) handle access (Some process_ops).

Definition req_dup_handle (src_process src_handle dst_process access attributes options : Z) : SV Z :=
  let! src := get_process_from_handle src_process PROCESS_DUP_HANDLE in
  if src =? NULL then mreturn 0
  else
  let! r :=
    (if has_flag options DUPLICATE_MAKE_GLOBAL
     then let! h := duplicate_handle src src_handle None access attributes options in
          mreturn (h, None)
     else let! dst := get_process_from_handle dst_process PROCESS_DUP_HANDLE in
          if dst =? NULL then mreturn (0, None)
          else let! h := duplicate_handle src src_handle (Some dst) access attributes options in
               release_object dst ;;;
               mreturn (h, Some dst)) in
  mwhen (has_flag options DUPLICATE_CLOSE_SOURCE
         && (negb (bool_decide (Some src = r.2)) || negb (src_handle =? r.1)))
        (close_handle src src_handle ;;; mreturn tt) ;;;
  release_object src ;;;
  mreturn r.1.

(** The access, the reference count and the handle count of an object. *)
Definition req_get_object_info (handle : Z) : SV (option (Z * Z * Z)) :=
  let! o := get_handle_obj (Some current_process) handle 0 None in
  if o =? NULL then mreturn None
  else
  let! access := get_handle_access current_process handle in
  let! x := get_object o in
  release_object o ;;;
  mreturn (Some (access, o_refcount x, o_handle_count x)).

Definition set_permanent (o : ptr) (b : bool) : SV unit :=
  let! x := get_object o in
  put_object o (mkObject (o_refcount x) (o_handle_count x) (o_ops x) (o_type x) b).

Definition req_set_object_permanence (handle : Z) (permanent : bool) : SV unit :=
  let! o := get_handle_obj (Some current_process) handle (if permanent then 0 else DELETE) None in
  if o =? NULL then mreturn tt
  else
  let! x := get_object o in
  (if permanent && negb (o_permanent x)
   then grab_object o ;;; set_permanent o true
   else if negb permanent && o_permanent x
   then set_permanent o false ;;; release_object o
   else mreturn tt) ;;;
  release_object o.

Definition req_compare_objects (first second : Z) : SV unit :=
  let! o1 := get_handle_obj (Some current_process) first 0 None in
  if o1 =? NULL then mreturn tt
  else
  let! o2 := get_handle_obj (Some current_process) second 0 None in
  if o2 =? NULL then release_object o1
  else
  mwhen (negb (o1 =? o2)) (set_error STATUS_NOT_SAME_OBJECT) ;;;
  release_object o2 ;;;
  release_object o1.
End Handles.
