(* ===== verification/HandleProofs.v ===== *)
(** * Wineserver handle tables: encoding, allocation, closing

    Handles and indices convert back and forth without collisions; a new handle
    takes the lowest free slot; closing frees exactly one slot and keeps the table
    well formed.  Three theorems pin down where the code leaves its tables or
    follows a null pointer. *)

From stdpp Require Import base list gmap.
From Stdlib Require Import ZArith Lia Bool.
From S2P Require Import Prelude.
From S2P Require Import Handle.

Open Scope Z_scope.

(** ** Encoding *)

Lemma index_to_handle_value i : 0 <= i < MAX_HANDLE_ENTRIES -> index_to_handle i = 4 * (i + 1).
Proof.
  intros H. unfold index_to_handle, MAX_HANDLE_ENTRIES in *.
  rewrite Z.shiftl_mul_pow2 by lia. rewrite uwrap_small by lia. lia.
Qed.

Lemma handle_to_index_value h : 4 <= h < 2 ^ 32 -> handle_to_index h = h / 4 - 1.
Proof.
  intros H. unfold handle_to_index. rewrite Z.shiftr_div_pow2 by lia.
  change (2 ^ 2) with 4. assert (1 <= h / 4 < 2 ^ 30) by (split; [apply Z.div_le_lower_bound | apply Z.div_lt_upper_bound]; lia).
  rewrite uwrap_small by lia. rewrite swrap_small by lia. lia.
Qed.

Lemma handle_index_roundtrip i :
  0 <= i < MAX_HANDLE_ENTRIES -> handle_to_index (index_to_handle i) = i.
Proof.
  intros H. rewrite index_to_handle_value by done. unfold MAX_HANDLE_ENTRIES in H.
  rewrite handle_to_index_value by lia. replace (4 * (i + 1) / 4) with (i + 1); [lia |].
  rewrite Z.mul_comm, Z.div_mul by lia. done.
Qed.

(** The obfuscator differs from a local handle above bit 26. *)
Lemma lxor_obfuscator_range h :
  0 <= h < 2 ^ 26 ->
  0x54000000 <= Z.lxor h HANDLE_OBFUSCATOR < 0x58000000.
Proof.
  intros H. assert (E : Z.shiftr (Z.lxor h HANDLE_OBFUSCATOR) 26 = 21).
  { rewrite Z.shiftr_lxor. replace (Z.shiftr h 26) with 0; [reflexivity |].
    rewrite Z.shiftr_div_pow2 by lia. by rewrite Z.div_small by lia. }
  rewrite Z.shiftr_div_pow2 in E by lia. change (2 ^ 26) with 67108864 in E.
  pose proof (Z.div_mod (Z.lxor h HANDLE_OBFUSCATOR) 67108864 ltac:(lia)).
  pose proof (Z.mod_pos_bound (Z.lxor h HANDLE_OBFUSCATOR) 67108864 ltac:(lia)). lia.
Qed.

Lemma lxor_obfuscator_twice h : Z.lxor (Z.lxor h HANDLE_OBFUSCATOR) HANDLE_OBFUSCATOR = h.
Proof. by rewrite Z.lxor_assoc, Z.lxor_nilpotent, Z.lxor_0_r. Qed.

Lemma lxor_nonneg_32 h : 0 <= h -> 0 <= Z.lxor h HANDLE_OBFUSCATOR.
Proof. intros H. apply Z.lxor_nonneg. unfold HANDLE_OBFUSCATOR. lia. Qed.

(** A global handle, as a number. *)
Lemma handle_is_global_range h :
  0 <= h -> handle_is_global h = true -> 0x54000000 <= h < 0x58000000.
Proof.
  intros H0 Hg. unfold handle_is_global in Hg. apply Z.leb_le in Hg.
  change (Z.shiftl MAX_HANDLE_ENTRIES 2) with 67108860 in Hg.
  pose proof (lxor_nonneg_32 h H0).
  rewrite <- (lxor_obfuscator_twice h). apply lxor_obfuscator_range. lia.
Qed.

(** Handles encode table slots without collisions: every slot index up to the
    table limit comes back from its handle, no local handle is taken for a global one,
    and every slot of the global table has a handle that is recognised as global and
    decodes to the same slot. *)
Theorem handle_encoding (i : Z) (Hi : 0 <= i < MAX_HANDLE_ENTRIES) :
  let h := index_to_handle i in
  handle_to_index h = i
  /\ handle_is_global h = false
  /\ handle_is_global (handle_local_to_global h) = true
  /\ handle_to_index (handle_global_to_local (handle_local_to_global h)) = i.
Proof.
  simpl. split; [by apply handle_index_roundtrip |].
  pose proof (index_to_handle_value i Hi) as E. unfold MAX_HANDLE_ENTRIES in Hi.
  assert (R : 0 <= index_to_handle i < 2 ^ 26) by lia.
  split; [| split].
  - unfold handle_is_global. apply Z.leb_gt. pose proof (lxor_obfuscator_range _ R).
    change (Z.shiftl MAX_HANDLE_ENTRIES 2) with 67108860. lia.
  - unfold handle_is_global, handle_local_to_global. rewrite (proj2 (Z.eqb_neq _ _)) by lia.
    rewrite lxor_obfuscator_twice. apply Z.leb_le.
    change (Z.shiftl MAX_HANDLE_ENTRIES 2) with 67108860. lia.
  - unfold handle_global_to_local, handle_local_to_global. rewrite (proj2 (Z.eqb_neq _ _)) by lia.
    rewrite lxor_obfuscator_twice. by apply handle_index_roundtrip.
Qed.

Lemma handle_encoding_witness :
  handle_to_index (index_to_handle 5) = 5 /\ index_to_handle 5 = 24
  /\ handle_local_to_global 24 = 0x544a4df7.
Proof.
  split; [exact (proj1 (handle_encoding 5 ltac:(unfold MAX_HANDLE_ENTRIES; lia))) |].
  split; vm_compute; reflexivity.
Defined.

(** ** Well-formed tables *)

Definition used (t : handle_table) (i : Z) : Prop :=
  exists e, slot_at t i = Some (Some e) /\ he_ptr e <> NULL.

Record table_ok (t : handle_table) : Prop := mkTableOk {
  ok_count : MIN_HANDLE_ENTRIES <= t_count t <= MAX_HANDLE_ENTRIES;
  ok_length : Z.of_nat (length (t_entries t)) = t_count t;
  ok_last : -1 <= t_last t < t_count t;
  ok_init : forall i, 0 <= i <= t_last t -> exists e, slot_at t i = Some (Some e);
  ok_top : 0 <= t_last t -> used t (t_last t);
  ok_free : 0 <= t_free t <= t_last t + 1;
  ok_below : forall i, 0 <= i < t_free t -> used t i }.

Lemma slot_at_range t i : is_Some (slot_at t i) <-> 0 <= i < Z.of_nat (length (t_entries t)).
Proof.
  unfold slot_at. destruct (Z.leb_spec 0 i); [| split; [intros [? ?]; done | lia]].
  rewrite lookup_lt_is_Some. lia.
Qed.

Lemma slot_at_put t i j e :
  0 <= i < Z.of_nat (length (t_entries t)) ->
  slot_at (put_slot i e t) j = if decide (i = j) then Some (Some e) else slot_at t j.
Proof.
  intros H. unfold slot_at, put_slot. simpl. destruct (decide (i = j)) as [<- | Hne].
  - destruct (Z.leb_spec 0 i); [| lia]. apply list_lookup_insert_eq. lia.
  - destruct (Z.leb_spec 0 j); [| done]. apply list_lookup_insert_ne. lia.
Qed.

Lemma slot_at_nonneg t i s : slot_at t i = Some s -> 0 <= i.
Proof. unfold slot_at. destruct (Z.leb_spec 0 i); [done | done]. Qed.

(** The scan of [alloc_entry] finds the lowest free slot. *)
Lemma scan_free_spec t n i :
  (forall j, 0 <= j <= t_last t -> exists e, slot_at t j = Some (Some e)) ->
  0 <= i -> n = Z.to_nat (t_last t + 1 - i) -> i <= t_last t + 1 ->
  match scan_free (drop (Z.to_nat i) (t_entries t)) i (t_last t) with
  | SR_found k => i <= k <= t_last t /\ (forall j, i <= j < k -> used t j) /\ ~ used t k
  | SR_end k => k = t_last t + 1 /\ (forall j, i <= j < k -> used t j)
  | SR_fault => False
  end.
Proof.
  intros Hinit. revert i. induction n as [| n IH]; intros i Hi Hn Hle.
  - destruct (drop _ _); simpl; rewrite (proj2 (Z.ltb_lt (t_last t) i)) by lia; split; intros; lia.
  - destruct (Hinit i) as [e He]; [lia |].
    assert (Hd : drop (Z.to_nat i) (t_entries t) = Some e :: drop (Z.to_nat (i + 1)) (t_entries t)).
    { unfold slot_at in He. destruct (Z.leb_spec 0 i); [| lia].
      rewrite (drop_S _ _ _ He). f_equal. f_equal. lia. }
    rewrite Hd. simpl. rewrite (proj2 (Z.ltb_ge (t_last t) i)) by lia.
    destruct (Z.eqb_spec (he_ptr e) NULL) as [E | E].
    + split; [lia |]. split; [intros; lia |]. intros (e' & He' & Hp). congruence.
    + specialize (IH (i + 1) ltac:(lia) ltac:(lia) ltac:(lia)).
      assert (U : used t i) by (by exists e).
      destruct (scan_free _ _ _) as [k | k |]; [| | done].
      * destruct IH as (Hk & Hb & Hn'). split; [lia |]. split; [| done].
        intros j Hj. destruct (decide (j = i)) as [-> | ?]; [done | apply Hb; lia].
      * destruct IH as (Hk & Hb). split; [done |].
        intros j Hj. destruct (decide (j = i)) as [-> | ?]; [done | apply Hb; lia].
Qed.

(** Slot [i] filled with [e]. *)
Definition filled (t : handle_table) (i : Z) (e : handle_entry) : handle_table :=
  put_slot i e (set_t_free (i + 1) t).

Lemma slot_at_filled t i j e :
  0 <= i < Z.of_nat (length (t_entries t)) ->
  slot_at (filled t i e) j = if decide (i = j) then Some (Some e) else slot_at t j.
Proof. intros H. by apply (slot_at_put (set_t_free (i + 1) t)). Qed.

Lemma used_filled t i j e :
  0 <= i < Z.of_nat (length (t_entries t)) -> he_ptr e <> NULL ->
  used t j \/ j = i -> used (filled t i e) j.
Proof.
  intros Hi He [(e' & Hj & Hp) | ->]; unfold used; rewrite slot_at_filled by done;
    case_decide; try done; by eexists.
Qed.

(** Filling the slot at or just above [last] keeps a table well formed. *)
Lemma filled_ok t i e :
  table_ok t -> he_ptr e <> NULL -> 0 <= i <= t_last t + 1 -> i < t_count t ->
  (forall j, 0 <= j < i -> used t j) ->
  table_ok (filled (set_t_last (Z.max i (t_last t)) t) i e).
Proof.
  intros [Hc Hl Hlast Hinit Htop Hfree Hbelow] He Hi Hc' Hb.
  set (t1 := set_t_last (Z.max i (t_last t)) t).
  assert (R : 0 <= i < Z.of_nat (length (t_entries t1))) by (simpl; lia).
  assert (S : forall j, slot_at t1 j = slot_at t j) by done.
  assert (U : forall j, used t j \/ j = i -> used (filled t1 i e) j).
  { intros j Hj. by apply used_filled. }
  split; simpl.
  - done.
  - rewrite length_insert. done.
  - lia.
  - intros j Hj. rewrite slot_at_filled, S by done. case_decide; [by eexists |].
    apply Hinit. lia.
  - intros _. apply U. destruct (decide (i <= t_last t)).
    + rewrite Z.max_r by lia. left. apply Htop. lia.
    + right. lia.
  - lia.
  - intros j Hj. apply U. destruct (decide (j = i)); [by right | left; apply Hb; lia].
Qed.

Definition grown (t : handle_table) : handle_table :=
  let count := Z.min (t_count t * 2) MAX_HANDLE_ENTRIES in
  set_t_array count (t_entries t ++ repeat None (Z.to_nat (count - t_count t))) t.

Lemma grown_count t : t_count (grown t) = Z.min (t_count t * 2) MAX_HANDLE_ENTRIES.
Proof. reflexivity. Qed.

Lemma slot_at_grown t j s : slot_at t j = Some s -> slot_at (grown t) j = Some s.
Proof.
  unfold slot_at. destruct (0 <=? j); [| done]. simpl. intros H. by apply lookup_app_l_Some.
Qed.

Lemma grown_ok t : table_ok t -> table_ok (grown t).
Proof.
  intros [Hc Hl Hlast Hinit Htop Hfree Hbelow]. unfold MIN_HANDLE_ENTRIES, MAX_HANDLE_ENTRIES in *.
  assert (U : forall j, used t j -> used (grown t) j).
  { intros j (e & He & Hp). exists e. split; [by apply slot_at_grown | done]. }
  split; simpl; unfold MIN_HANDLE_ENTRIES, MAX_HANDLE_ENTRIES in *.
  - lia.
  - rewrite length_app, repeat_length. lia.
  - lia.
  - intros j Hj. destruct (Hinit j Hj) as [e He]. exists e. by apply slot_at_grown.
  - auto.
  - lia.
  - auto.
Qed.

(** ** The state *)

Definition lookup_table (r : table_ref) (s : server) : option handle_table :=
  match r with
  | T_process p => match s_procs s !! p with Some x => p_handles x | None => None end
  | T_global => s_global s
  end.

Section Proofs.
Variable alloc_ok : Z -> bool.
Variable ops_close_handle : Z -> option (ptr -> Z -> Z -> bool).

Local Abbreviation alloc_entry := (alloc_entry alloc_ok).
Local Abbreviation shrink_handle_table := (shrink_handle_table alloc_ok).
Local Abbreviation close_handle := (close_handle alloc_ok ops_close_handle).

Lemma get_table_found r s t : lookup_table r s = Some t -> get_table r s = (Some t, s).
Proof.
  destruct r as [p|]; simpl; [| by intros <-]. destruct (s_procs s !! p); [| done]. by intros <-.
Qed.

(** [same_tables]: only objects, types, errors and the allocation count changed. *)
Definition same_tables (s s' : server) : Prop :=
  s_procs s' = s_procs s /\ s_global s' = s_global s /\ s_fault s' = s_fault s.

Lemma same_tables_lookup r s s' : same_tables s s' -> lookup_table r s' = lookup_table r s.
Proof. intros (E1 & E2 & _). destruct r; simpl; by rewrite ?E1, ?E2. Qed.

Lemma put_table_found r s t t' :
  lookup_table r s = Some t ->
  let s' := (put_table r t' s).2 in
  lookup_table r s' = Some t' /\ s_fault s' = s_fault s /\ s_objects s' = s_objects s.
Proof.
  destruct r as [p|]; simpl; [| by intros]. destruct (s_procs s !! p) as [x|] eqn:E; [| done].
  intros Hx. simpl. by rewrite lookup_insert_eq.
Qed.

(** [grab_object_for_handle] counts one more handle and one more reference. *)
Lemma grab_for_handle_found o x s :
  s_objects s !! o = Some x -> o_refcount x < 2 ^ 31 - 1 ->
  let s' := (grab_object_for_handle o s).2 in
  same_tables s s'
  /\ s_objects s' = <[o := mkObject (o_refcount x + 1) (o_handle_count x + 1) (o_ops x) (o_type x)
                            (o_permanent x)]> (s_objects s).
Proof.
  intros Hx Hr. unfold grab_object_for_handle, get_object. rewrite bind_run, Hx. cbn [fst snd].
  rewrite !bind_run. cbn [fst snd put_object mmodify get_type mgets put_type].
  unfold grab_object, get_object. rewrite bind_run. cbn [s_objects set_s_types set_s_objects].
  rewrite lookup_insert_eq. cbn [fst snd o_refcount].
  rewrite (proj2 (Z.ltb_lt _ _) Hr). cbn [negb put_object mmodify snd].
  split; [done |]. simpl. by rewrite insert_insert_eq.
Qed.

Definition counted_up (x : object) : object :=
  mkObject (o_refcount x + 1) (o_handle_count x + 1) (o_ops x) (o_type x) (o_permanent x).

Lemma fill_entry_found r s t0 t i o x access :
  lookup_table r s = Some t0 -> is_Some (slot_at t i) ->
  s_objects s !! o = Some x -> o_refcount x < 2 ^ 31 - 1 ->
  let res := fill_entry r t i o access s in
  res.1 = index_to_handle i
  /\ lookup_table r res.2 = Some (filled t i (mkEntry o access))
  /\ s_fault res.2 = s_fault s
  /\ s_objects res.2 = <[o := counted_up x]> (s_objects s).
Proof.
  intros Ht [sl Hs] Hx Hr. unfold fill_entry. rewrite bind_run.
  destruct (grab_for_handle_found o x s Hx Hr) as (Hsame & Ho).
  set (s1 := (grab_object_for_handle o s).2) in *. rewrite Hs, bind_run. cbn [fst snd mreturn].
  destruct (put_table_found r s1 t0 (filled t i (mkEntry o access))) as (E1 & E2 & E3).
  { by rewrite (same_tables_lookup r s s1 Hsame). }
  split; [done |]. split; [exact E1 |]. split; [exact (eq_trans E2 (proj2 (proj2 Hsame))) |].
  exact (eq_trans E3 Ho).
Qed.

(** Growing: refused at the limit or by the allocator, otherwise doubled. *)
Lemma grow_handle_table_cases t s :
  let r := grow_handle_table alloc_ok t s in
  same_tables s r.2 /\ s_objects r.2 = s_objects s
  /\ ((r.1 = None /\ s_error r.2 = STATUS_INSUFFICIENT_RESOURCES)
      \/ (r.1 = Some (grown t) /\ t_count (grown t) <> t_count t)).
Proof.
  unfold grow_handle_table, grown. destruct (Z.eqb_spec (Z.min (t_count t * 2) MAX_HANDLE_ENTRIES) (t_count t)).
  - simpl. split; [done |]. split; [done |]. by left.
  - rewrite bind_run. cbn [fst snd try_alloc]. destruct (alloc_ok (s_allocs s)); simpl.
    + split; [done |]. split; [done |]. by right.
    + split; [done |]. split; [done |]. by left.
Qed.

(** What a successful allocation of slot [i] for object [o] does to table [t]. *)
Definition allocates (r : table_ref) (s : server) (t : handle_table) (o : ptr) (x : object)
    (access : Z) (res : Z * server) : Prop :=
  exists i t', res.1 = index_to_handle i /\ 0 <= i < MAX_HANDLE_ENTRIES
    /\ lookup_table r res.2 = Some t' /\ table_ok t'
    /\ (forall j, 0 <= j < i -> used t j)
    /\ ~ (i <= t_last t /\ used t i)
    /\ slot_at t' i = Some (Some (mkEntry o access))
    /\ (forall j sl, j <> i -> slot_at t j = Some sl -> slot_at t' j = Some sl)
    /\ s_objects res.2 = <[o := counted_up x]> (s_objects s).

Lemma fill_allocates r s t t1 i o x access :
  lookup_table r s = Some t -> table_ok t1 -> o <> NULL ->
  s_objects s !! o = Some x -> o_refcount x < 2 ^ 31 - 1 ->
  t_last t1 = t_last t -> 0 <= i <= t_last t + 1 -> i < t_count t1 ->
  (forall j sl, slot_at t j = Some sl -> slot_at t1 j = Some sl) ->
  (forall j, 0 <= j < i -> used t j) -> ~ (i <= t_last t /\ used t i) ->
  let res := fill_entry r (set_t_last (Z.max i (t_last t)) t1) i o access s in
  s_fault res.2 = s_fault s /\ allocates r s t o x access res.
Proof.
  intros Ht Hok Ho Hx Hr El Hi Hc Hs Hb Hn.
  set (t2 := set_t_last (Z.max i (t_last t)) t1).
  assert (L : 0 <= i < Z.of_nat (length (t_entries t2))).
  { simpl. rewrite (ok_length _ Hok). lia. }
  destruct (fill_entry_found r s t t2 i o x access Ht) as (E1 & E2 & E3 & E4); try done.
  { by apply slot_at_range. }
  split; [done |]. exists i, (filled t2 i (mkEntry o access)).
  pose proof (ok_count _ Hok). split; [done |]. split; [lia |]. split; [done |].
  split.
  { unfold t2. rewrite <- El. apply filled_ok; try done; [rewrite El; lia |].
    intros j Hj. destruct (Hb j Hj) as (e & He & Hp). exists e. split; [by apply Hs | done]. }
  split; [done |]. split; [done |]. split; [| split; [| done]].
  - rewrite slot_at_filled by done. by rewrite decide_True.
  - intros j sl Hj Hsl. rewrite slot_at_filled by done. rewrite decide_False by done. by apply Hs.
Qed.

(** A full table: grow it and use the first new slot, or fail. *)
Lemma alloc_grown_cases r s t o x access :
  lookup_table r s = Some t -> table_ok t -> o <> NULL ->
  s_objects s !! o = Some x -> o_refcount x < 2 ^ 31 - 1 ->
  t_count t <= t_last t + 1 -> (forall j, 0 <= j < t_last t + 1 -> used t j) ->
  let res := (let! g := grow_handle_table alloc_ok t in
              match g with
              | None => mreturn 0
              | Some t' => fill_entry r (set_t_last (t_last t + 1) t') (t_last t + 1) o access
              end) s in
  s_fault res.2 = s_fault s
  /\ ((res.1 = 0 /\ lookup_table r res.2 = Some t /\ s_error res.2 = STATUS_INSUFFICIENT_RESOURCES
       /\ s_objects res.2 = s_objects s)
      \/ allocates r s t o x access res).
Proof.
  intros Ht Hok Ho Hx Hr Hfull Hall. rewrite bind_run.
  pose proof (ok_last _ Hok). pose proof (grown_ok t Hok) as Hg. pose proof (ok_count _ Hg).
  destruct (grow_handle_table_cases t s) as (Hsame & Hobj & [[-> He] | [-> Hgrow]]).
  { cbn [fst snd mreturn]. split; [apply Hsame |]. left. split; [done |].
    by rewrite (same_tables_lookup r s _ Hsame). }
  set (s1 := (grow_handle_table alloc_ok t s).2) in *.
  replace (set_t_last (t_last t + 1) (grown t))
    with (set_t_last (Z.max (t_last t + 1) (t_last t)) (grown t)) by (rewrite Z.max_l by lia; done).
  destruct (fill_allocates r s1 t (grown t) (t_last t + 1) o x access) as [F A]; try done.
  - by rewrite (same_tables_lookup r s s1 Hsame).
  - by rewrite Hobj.
  - lia.
  - pose proof (ok_count _ Hok). rewrite grown_count in *.
    unfold MIN_HANDLE_ENTRIES, MAX_HANDLE_ENTRIES in *. lia.
  - intros j sl. apply slot_at_grown.
  - lia.
  - split; [rewrite F; apply Hsame |]. right. destruct A as (i' & t' & A). exists i', t'.
    rewrite Hobj in A. exact A.
Qed.

Lemma alloc_entry_cases r s t o x access :
  lookup_table r s = Some t -> table_ok t -> o <> NULL ->
  s_objects s !! o = Some x -> o_refcount x < 2 ^ 31 - 1 ->
  let res := alloc_entry r o access s in
  s_fault res.2 = s_fault s
  /\ ((res.1 = 0 /\ lookup_table r res.2 = Some t /\ s_error res.2 = STATUS_INSUFFICIENT_RESOURCES
       /\ s_objects res.2 = s_objects s)
      \/ allocates r s t o x access res).
Proof.
  intros Ht Hok Ho Hx Hr. unfold alloc_entry. rewrite bind_run, (get_table_found r s t Ht).
  cbn [fst snd]. pose proof Hok as [Hc Hl Hlast Hinit Htop Hfree Hbelow].
  pose proof (scan_free_spec t _ (t_free t) Hinit ltac:(lia) eq_refl ltac:(lia)) as Hscan.
  assert (Hup : forall k, (forall j, t_free t <= j < k -> used t j) ->
                forall j, 0 <= j < k -> used t j).
  { intros k Hb j Hj. destruct (decide (j < t_free t)); [apply Hbelow; lia | apply Hb; lia]. }
  destruct (scan_free _ _ _) as [i | i |]; [| | done].
  - destruct Hscan as (Hi & Hb & Hn).
    replace (fill_entry r t i o access)
      with (fill_entry r (set_t_last (Z.max i (t_last t)) t) i o access)
      by (f_equal; rewrite Z.max_r by lia; by destruct t).
    destruct (fill_allocates r s t t i o x access) as [F A]; try done; auto; try lia;
      [by apply Hup | tauto].
  - destruct Hscan as (-> & Hb).
    destruct (Z.leb_spec (t_count t) (t_last t + 1)) as [Hfull | Hroom];
      [apply alloc_grown_cases; auto; by apply Hup |].
    replace (set_t_last (t_last t + 1) t)
      with (set_t_last (Z.max (t_last t + 1) (t_last t)) t) by (rewrite Z.max_l by lia; done).
    destruct (fill_allocates r s t t (t_last t + 1) o x access) as [F A]; try done; auto; try lia.
    by apply Hup.
Qed.

(** ** Shrinking *)

Lemma shrink_last_spec t n :
  (forall j, 0 <= j < Z.of_nat n -> exists e, slot_at t j = Some (Some e)) ->
  exists k, shrink_last (t_entries t) n = Some k /\ -1 <= k < Z.of_nat n
    /\ (0 <= k -> used t k) /\ (forall j, k < j < Z.of_nat n -> ~ used t j).
Proof.
  induction n as [| n IH]; intros Hinit; simpl.
  - exists (-1). split; [done |]. repeat split; intros; lia.
  - destruct (Hinit (Z.of_nat n)) as [e He]; [lia |].
    assert (Hl : t_entries t !! n = Some (Some e)).
    { unfold slot_at in He. destruct (Z.leb_spec 0 (Z.of_nat n)); [| lia]. by rewrite Nat2Z.id in He. }
    rewrite Hl. destruct (Z.eqb_spec (he_ptr e) NULL) as [E | E]; cbn [negb].
    + destruct IH as (k & -> & Hk & Hu & Hn); [intros; apply Hinit; lia |].
      exists k. split; [done |]. split; [lia |]. split; [done |].
      intros j Hj. destruct (decide (j = Z.of_nat n)) as [-> | ?]; [| apply Hn; lia].
      intros (e' & He' & Hp). congruence.
    + exists (Z.of_nat n). split; [done |]. split; [lia |]. split; [by exists e | intros; lia].
Qed.

(** A table whose last entry may have been freed. *)
Record loose_ok (t : handle_table) : Prop := mkLooseOk {
  lo_count : MIN_HANDLE_ENTRIES <= t_count t <= MAX_HANDLE_ENTRIES;
  lo_length : Z.of_nat (length (t_entries t)) = t_count t;
  lo_last : -1 <= t_last t < t_count t;
  lo_init : forall i, 0 <= i <= t_last t -> exists e, slot_at t i = Some (Some e);
  lo_free : 0 <= t_free t <= t_last t + 1;
  lo_below : forall i, 0 <= i < t_free t -> used t i }.

Lemma slot_at_take t n j k :
  j <= k -> k < n -> slot_at (set_t_array n (take (Z.to_nat n) (t_entries t)) t) j = slot_at t j.
Proof.
  intros Hj Hk. unfold slot_at. simpl. destruct (Z.leb_spec 0 j); [| done].
  apply lookup_take_lt. lia.
Qed.

(** The table with a lower [last], perhaps cut in half. *)
Lemma shrunk_ok t k count :
  loose_ok t -> -1 <= k <= t_last t -> (0 <= k -> used t k) ->
  (forall j, k < j <= t_last t -> ~ used t j) ->
  MIN_HANDLE_ENTRIES <= count <= t_count t -> k < count ->
  table_ok (set_t_array count (take (Z.to_nat count) (t_entries t)) (set_t_last k t)).
Proof.
  intros [Hc Hl Hlast Hinit Hfree Hbelow] Hk Hu Hn Hcount Hkc.
  set (t' := set_t_array _ _ _).
  assert (S : forall j, j <= k -> slot_at t' j = slot_at t j).
  { intros j Hj. exact (slot_at_take (set_t_last k t) count j k Hj Hkc). }
  assert (U : forall j, j <= k -> used t j -> used t' j).
  { intros j Hj (e & He & Hp). exists e. by rewrite S. }
  assert (F : t_free t <= k + 1).
  { destruct (decide (t_free t <= k + 1)); [done |]. exfalso.
    apply (Hn (t_free t - 1)); [lia |]. apply Hbelow. lia. }
  split; simpl.
  - lia.
  - rewrite length_take. lia.
  - lia.
  - intros i Hi. destruct (Hinit i) as [e He]; [lia |]. exists e. by rewrite S by lia.
  - intros Hk0. apply U; [lia | by apply Hu].
  - lia.
  - intros i Hi. apply U; [lia | by apply Hbelow].
Qed.

Lemma take_all_table t k :
  Z.of_nat (length (t_entries t)) = t_count t ->
  set_t_array (t_count t) (take (Z.to_nat (t_count t)) (t_entries t)) (set_t_last k t)
  = set_t_last k t.
Proof. intros H. rewrite take_ge by lia. by destruct t. Qed.

Lemma shrink_handle_table_cases t s :
  loose_ok t ->
  let r := shrink_handle_table t s in
  same_tables s r.2 /\ s_objects r.2 = s_objects s /\ table_ok r.1
  /\ t_last r.1 <= t_last t
  /\ (forall j, j <= t_last r.1 -> slot_at r.1 j = slot_at t j)
  /\ (forall j, t_last r.1 < j <= t_last t -> ~ used t j).
Proof.
  intros Hok. pose proof Hok as [Hc Hl Hlast Hinit Hfree Hbelow].
  destruct (shrink_last_spec t (Z.to_nat (t_last t + 1))) as (k & Hk & Hr & Hu & Hn).
  { intros j Hj. apply Hinit. lia. }
  assert (Hn' : forall j, k < j <= t_last t -> ~ used t j) by (intros j Hj; apply Hn; lia).
  assert (K0 : table_ok (set_t_last k t)).
  { rewrite <- (take_all_table t k Hl). apply shrunk_ok; try done; try lia. }
  unfold shrink_handle_table. rewrite Hk. cbv zeta. cbn [t_count set_t_last].
  destruct (Z.leb_spec (t_count t / 4) k); [repeat (split; [done || (simpl; lia) |]); done |].
  destruct (Z.ltb_spec (t_count t) (MIN_HANDLE_ENTRIES * 2));
    [repeat (split; [done || (simpl; lia) |]); done |].
  rewrite bind_run. cbn [try_alloc fst snd]. destruct (alloc_ok (s_allocs s)); cbn [negb mreturn fst snd];
    [| repeat (split; [done || (simpl; lia) |]); done].
  assert (k < t_count t / 2).
  { etransitivity; [eassumption |]. apply Z.div_lt_upper_bound; [lia |].
    unfold MIN_HANDLE_ENTRIES in *. pose proof (Z.div_mod (t_count t) 2 ltac:(lia)).
    pose proof (Z.mod_pos_bound (t_count t) 2 ltac:(lia)). lia. }
  split; [done |]. split; [done |]. split.
  - apply (shrunk_ok t k (t_count t / 2)); try done; try lia. unfold MIN_HANDLE_ENTRIES in *.
    split; [apply Z.div_le_lower_bound; lia | apply Z.div_le_upper_bound; lia].
  - split; [simpl; lia |]. split; [| done].
    intros j Hj. exact (slot_at_take (set_t_last k t) (t_count t / 2) j k Hj ltac:(lia)).
Qed.

(** ** Looking up and closing *)

(** A local handle of a used slot finds its entry. *)
Lemma get_handle_local p s t handle e :
  lookup_table (T_process p) s = Some t -> handle_is_global handle = false ->
  0 <= handle_to_index handle <= t_last t ->
  slot_at t (handle_to_index handle) = Some (Some e) -> he_ptr e <> NULL ->
  get_handle (Some p) handle s = (Some (T_process p, handle_to_index handle, e), s).
Proof.
  intros Ht Hg Hi Hs Hp. unfold get_handle. rewrite bind_run, Hg.
  pose proof (get_table_found (T_process p) s t Ht) as E. unfold get_table in E. rewrite E.
  cbn [fst snd]. rewrite bind_run. cbn [fst snd mgets].
  rewrite (proj2 (Z.ltb_ge _ _)), (proj2 (Z.ltb_ge _ _)) by lia. rewrite Hs.
  by rewrite (proj2 (Z.eqb_neq _ _) Hp).
Qed.

(** Clearing slot [i] and lowering [free]. *)
Definition cleared_slot (t : handle_table) (i : Z) (e : handle_entry) : handle_table :=
  let t := put_slot i (mkEntry NULL (he_access e)) t in
  if i <? t_free t then set_t_free i t else t.

Lemma cleared_slot_at t i j e :
  0 <= i < Z.of_nat (length (t_entries t)) ->
  slot_at (cleared_slot t i e) j
  = if decide (i = j) then Some (Some (mkEntry NULL (he_access e))) else slot_at t j.
Proof.
  intros Hi. unfold cleared_slot. cbv zeta.
  destruct (i <? _); exact (slot_at_put t i j (mkEntry NULL (he_access e)) Hi).
Qed.

Lemma cleared_fields t i e :
  t_last (cleared_slot t i e) = t_last t /\ t_count (cleared_slot t i e) = t_count t
  /\ t_free (cleared_slot t i e) = Z.min i (t_free t)
  /\ length (t_entries (cleared_slot t i e)) = length (t_entries t).
Proof.
  unfold cleared_slot. cbn [t_free put_slot set_t_entries].
  destruct (Z.ltb_spec i (t_free t)); simpl; rewrite length_insert; repeat split; lia.
Qed.

Lemma cleared_loose t i e : table_ok t -> 0 <= i <= t_last t -> loose_ok (cleared_slot t i e).
Proof.
  intros [Hc Hl Hlast Hinit Htop Hfree Hbelow] Hi.
  destruct (cleared_fields t i e) as (E1 & E2 & E3 & E4).
  assert (R : 0 <= i < Z.of_nat (length (t_entries t))) by lia.
  split; rewrite ?E1, ?E2, ?E3, ?E4; try done; try lia.
  - intros j Hj. rewrite cleared_slot_at by done. case_decide; [by eexists | by apply Hinit].
  - intros j Hj. destruct (Hbelow j) as (e' & He' & Hp); [lia |]. exists e'. split; [| done].
    rewrite cleared_slot_at by done. by rewrite decide_False by lia.
Qed.

(** Unless it was the last, the table is well formed at once. *)
Lemma cleared_ok t i e :
  table_ok t -> 0 <= i <= t_last t -> i <> t_last t -> table_ok (cleared_slot t i e).
Proof.
  intros Hok Hi Hne. pose proof (cleared_loose t i e Hok Hi) as [L1 L2 L3 L4 L5 L6].
  destruct (cleared_fields t i e) as (E1 & _).
  split; try done. rewrite E1. intros H. destruct (ok_top _ Hok H) as (e' & He' & Hp).
  exists e'. split; [| done]. pose proof (ok_length _ Hok). pose proof (ok_last _ Hok).
  rewrite cleared_slot_at by lia. by rewrite decide_False by done.
Qed.

(** Dropping a handle reference on an object other tables or threads may hold. *)
Definition droppable (x : object) : Prop :=
  0 < o_handle_count x /\ 0 < o_refcount x /\ (o_refcount x = 1 -> o_handle_count x = 1).

Lemma release_from_handle_found o x s :
  s_objects s !! o = Some x -> droppable x ->
  let s' := (release_object_from_handle o s).2 in
  same_tables s s'
  /\ s_objects s' !! o =
     if o_refcount x =? 1 then None
     else Some (mkObject (o_refcount x - 1) (o_handle_count x - 1) (o_ops x) (o_type x) (o_permanent x)).
Proof.
  intros Hx (H1 & H2 & H3). unfold release_object_from_handle, get_object. rewrite bind_run, Hx.
  cbn [fst snd]. rewrite (proj2 (Z.eqb_neq (o_handle_count x) 0)) by lia.
  rewrite !bind_run. cbn [fst snd put_object mmodify get_type mgets put_type].
  unfold release_object, get_object. rewrite bind_run. cbn [s_objects set_s_types set_s_objects].
  rewrite lookup_insert_eq. cbn [fst snd o_refcount o_handle_count].
  rewrite (proj2 (Z.eqb_neq (o_refcount x) 0)) by lia.
  replace (o_refcount x - 1 =? 0) with (o_refcount x =? 1)
    by (destruct (Z.eqb_spec (o_refcount x) 1), (Z.eqb_spec (o_refcount x - 1) 0); lia).
  destruct (Z.eqb_spec (o_refcount x) 1) as [E | E].
  - rewrite H3 by done. simpl. split; [done | apply lookup_delete_eq].
  - simpl. split; [done | apply lookup_insert_eq].
Qed.

(** A slot whose handle is valid. *)
Definition live (t : handle_table) (j : Z) : Prop := 0 <= j <= t_last t /\ used t j.

(** The table after slot [i] was closed. *)
Definition closes (t t' : handle_table) (i : Z) : Prop :=
  table_ok t' /\ ~ live t' i
  /\ forall j, j <> i -> (live t j -> live t' j /\ slot_at t' j = slot_at t j)
                         /\ (live t' j -> live t j).

Lemma closes_cleared t i e :
  table_ok t -> 0 <= i < t_last t -> closes t (cleared_slot t i e) i.
Proof.
  intros Hok Hi. pose proof (ok_length _ Hok). pose proof (ok_last _ Hok).
  destruct (cleared_fields t i e) as (E1 & _).
  assert (S : forall j, j <> i -> slot_at (cleared_slot t i e) j = slot_at t j).
  { intros j Hj. rewrite cleared_slot_at by lia. by rewrite decide_False. }
  split; [apply cleared_ok; [done | lia | lia] |]. split.
  - intros (_ & e' & He' & Hp). rewrite cleared_slot_at, decide_True in He' by (done || lia).
    by simplify_eq.
  - intros j Hj. unfold live, used. rewrite E1, S by done. tauto.
Qed.

(** Closing the last slot: what remains is what was live below the new end. *)
Lemma closes_shrunk t i e s :
  table_ok t -> i = t_last t -> 0 <= i ->
  let r := shrink_handle_table (cleared_slot t i e) s in
  same_tables s r.2 /\ s_objects r.2 = s_objects s /\ closes t r.1 i.
Proof.
  intros Hok -> Hi. pose proof (ok_length _ Hok). pose proof (ok_last _ Hok).
  destruct (cleared_fields t (t_last t) e) as (E1 & _).
  destruct (shrink_handle_table_cases (cleared_slot t (t_last t) e) s
              (cleared_loose t (t_last t) e Hok ltac:(lia))) as (S1 & S2 & S3 & S4 & S5 & S6).
  rewrite E1 in *. set (r := shrink_handle_table _ s) in *.
  assert (Sl : forall j, j <> t_last t -> slot_at (cleared_slot t (t_last t) e) j = slot_at t j).
  { intros j Hj. rewrite cleared_slot_at by lia. by rewrite decide_False. }
  assert (Nl : ~ used (cleared_slot t (t_last t) e) (t_last t)).
  { intros (e' & He' & Hp). rewrite cleared_slot_at, decide_True in He' by (done || lia).
    by simplify_eq. }
  split; [done |]. split; [done |]. split; [done |]. split.
  - intros ((_ & Hle) & e' & He' & Hp). apply Nl. exists e'. by rewrite <- S5.
  - intros j Hj. split.
    + intros (Hr & Hu). assert (Hu' : used (cleared_slot t (t_last t) e) j).
      { destruct Hu as (e' & He' & Hp). exists e'. by rewrite Sl. }
      assert (Hle : j <= t_last r.1).
      { destruct (decide (j <= t_last r.1)); [done |]. exfalso. apply (S6 j); [lia | done]. }
      assert (Hs : slot_at r.1 j = slot_at t j) by (rewrite S5, Sl by done; done).
      split; [| done]. split; [lia |]. destruct Hu as (e' & He' & Hp). exists e'. by rewrite Hs.
    + intros (Hr & e' & He' & Hp). split; [lia |]. exists e'. split; [| done].
      by rewrite <- Sl, <- S5 by (done || lia).
Qed.

Lemma close_handle_local p s t handle e x :
  lookup_table (T_process p) s = Some t -> table_ok t -> handle_is_global handle = false ->
  0 <= handle_to_index handle <= t_last t ->
  slot_at t (handle_to_index handle) = Some (Some e) -> he_ptr e <> NULL ->
  has_flag (he_access e) RESERVED_CLOSE_PROTECT = false ->
  s_objects s !! he_ptr e = Some x ->
  match ops_close_handle (o_ops x) with Some f => f (he_ptr e) p handle | None => true end = true ->
  droppable x ->
  let res := close_handle p handle s in
  res.1 = STATUS_SUCCESS /\ s_fault res.2 = s_fault s
  /\ exists t', lookup_table (T_process p) res.2 = Some t' /\ closes t t' (handle_to_index handle).
Proof.
  intros Ht Hok Hg Hi Hs Hp Hprot Hx Hops Hdrop. unfold close_handle.
  rewrite bind_run, (get_handle_local p s t handle e) by done. cbn [fst snd]. rewrite Hprot.
  rewrite bind_run. unfold get_object. rewrite Hx. cbn [fst snd].
  replace (match ops_close_handle (o_ops x) with Some f => _ | None => false end) with false
    by (destruct (ops_close_handle (o_ops x)); [by rewrite Hops | done]).
  cbv zeta. rewrite Hg, bind_run, (get_table_found _ _ _ Ht). cbn [fst snd]. rewrite Hs.
  change (if _ <? t_free _ then set_t_free _ _ else _) with (cleared_slot t (handle_to_index handle) e).
  set (i := handle_to_index handle) in *. rewrite bind_run.
  set (m := if i =? t_last _ then _ else _).
  assert (K : same_tables s (m s).2 /\ s_objects (m s).2 = s_objects s /\ closes t (m s).1 i).
  { unfold m. destruct (cleared_fields t i e) as (E1 & _). rewrite E1.
    destruct (Z.eqb_spec i (t_last t)) as [E | E]; [apply closes_shrunk; [done | done | lia] |].
    split; [done |]. split; [done |]. apply closes_cleared; [done | lia]. }
  destruct K as (S1 & S2 & S3). rewrite !bind_run. cbn [fst snd mreturn].
  destruct (put_table_found (T_process p) (m s).2 t (m s).1) as (P1 & P2 & P3).
  { by rewrite (same_tables_lookup _ s). }
  set (s1 := (put_table (T_process p) (m s).1 (m s).2).2) in *.
  destruct (release_from_handle_found (he_ptr e) x s1) as (R1 & _); [by rewrite P3, S2 | done |].
  split; [done |]. split; [rewrite (proj2 (proj2 R1)), P2; apply S1 |].
  exists (m s).1. split; [| done]. by rewrite (same_tables_lookup _ s1).
Qed.

(** ** Global handles *)

Lemma get_handle_global p s t handle e pr :
  s_procs s !! p = Some pr -> s_global s = Some t -> handle_is_global handle = true ->
  let i := handle_to_index (handle_global_to_local handle) in
  0 <= i <= t_last t -> slot_at t i = Some (Some e) -> he_ptr e <> NULL ->
  get_handle (Some p) handle s = (Some (T_global, i, e), s).
Proof.
  intros Hpr Ht Hg i Hi Hs Hp. unfold get_handle. rewrite bind_run, Hg.
  cbn [process_table]. rewrite Hpr. cbn [fst snd]. rewrite bind_run. cbn [fst snd mgets].
  rewrite Ht. fold i.
  rewrite (proj2 (Z.ltb_ge _ _)), (proj2 (Z.ltb_ge _ _)) by lia. rewrite Hs.
  by rewrite (proj2 (Z.eqb_neq _ _) Hp).
Qed.

(** The index of a global handle taken without decoding lies outside every table. *)
Lemma global_index_outside t handle :
  table_ok t -> 0 <= handle -> handle_is_global handle = true ->
  slot_at t (handle_to_index handle) = None.
Proof.
  intros Hok H0 Hg. pose proof (handle_is_global_range handle H0 Hg).
  rewrite handle_to_index_value by lia.
  assert (0x15000000 <= handle / 4) by (apply Z.div_le_lower_bound; lia).
  pose proof (ok_length _ Hok). pose proof (ok_count _ Hok). unfold MAX_HANDLE_ENTRIES in *.
  apply eq_None_not_Some. rewrite slot_at_range. lia.
Qed.

Lemma close_handle_global p s t handle e x pr :
  s_procs s !! p = Some pr -> s_global s = Some t -> table_ok t ->
  0 <= handle -> handle_is_global handle = true ->
  let i := handle_to_index (handle_global_to_local handle) in
  0 <= i <= t_last t -> slot_at t i = Some (Some e) -> he_ptr e <> NULL ->
  has_flag (he_access e) RESERVED_CLOSE_PROTECT = false ->
  s_objects s !! he_ptr e = Some x ->
  match ops_close_handle (o_ops x) with Some f => f (he_ptr e) p handle | None => true end = true ->
  s_fault (close_handle p handle s).2 = true.
Proof.
  intros Hpr Ht Hok H0 Hg i Hi Hs Hp Hprot Hx Hops. unfold close_handle.
  rewrite bind_run, (get_handle_global p s t handle e pr) by done. cbn [fst snd]. rewrite Hprot.
  rewrite bind_run. unfold get_object. rewrite Hx. cbn [fst snd].
  replace (match ops_close_handle (o_ops x) with Some f => _ | None => false end) with false
    by (destruct (ops_close_handle (o_ops x)); [by rewrite Hops | done]).
  cbv zeta. rewrite Hg, bind_run, (get_table_found T_global s t Ht). cbn [fst snd].
  by rewrite (global_index_outside t handle Hok H0 Hg).
Qed.
End Proofs.

(** ** A concrete server *)

Definition demo_mapping (_ : Z) : generic_map := mkMapping 1 2 4 0x1f0003.

(** Process 100 with an empty table of 32 entries; object 7 with one reference held by
    its creator. *)
Definition demo_server : server :=
  mkServer {[7 := mkObject 1 0 50 3 false]} ∅ {[100 := mkProcess (Some (new_table (Some 100) 32)) 0]}
    None 0 0 false.

Lemma new_table_ok p : table_ok (new_table p 32).
Proof.
  split; simpl; try done; lia.
Qed.

(** A new handle takes the lowest free slot.  On a well-formed table
    [alloc_entry] either fails with STATUS_INSUFFICIENT_RESOURCES and changes nothing,
    or returns the handle of a slot that was free while all lower slots were in use;
    the table stays well formed, every other slot keeps its content, and the object
    has exactly one more handle and one more reference. *)
Theorem alloc_entry_lowest_free (alloc_ok : Z -> bool) (r : table_ref) (s : server)
    (t : handle_table) (o : ptr) (x : object) (access : Z)
    (Ht : lookup_table r s = Some t) (Hok : table_ok t) (Ho : o <> NULL)
    (Hx : s_objects s !! o = Some x) (Hr : o_refcount x < 2 ^ 31 - 1) :
  let res := alloc_entry alloc_ok r o access s in
  s_fault res.2 = s_fault s
  /\ ((res.1 = 0 /\ lookup_table r res.2 = Some t /\ s_error res.2 = STATUS_INSUFFICIENT_RESOURCES
       /\ s_objects res.2 = s_objects s)
      \/ allocates r s t o x access res).
Proof. exact (alloc_entry_cases alloc_ok (fun _ => None) r s t o x access Ht Hok Ho Hx Hr). Qed.

Definition demo_opened : server := (alloc_entry (fun _ => true) (T_process 100) 7 1 demo_server).2.

Lemma alloc_entry_lowest_free_witness :
  s_fault (alloc_entry (fun _ => true) (T_process 100) 7 1 demo_server).2 = false
  /\ (alloc_entry (fun _ => true) (T_process 100) 7 1 demo_server).1 = 4
  /\ (alloc_entry (fun _ => true) (T_process 100) 7 1 demo_opened).1 = 8.
Proof.
  split; [| split; vm_compute; reflexivity].
  apply (alloc_entry_lowest_free (fun _ => true) (T_process 100) demo_server
           (new_table (Some 100) 32) 7 (mkObject 1 0 50 3 false) 1
           eq_refl (new_table_ok _) ltac:(lia) eq_refl).
  simpl. lia.
Defined.

(** Closing a local handle frees exactly its slot: the call succeeds, the slot's
    handle is no longer valid, every other valid handle still denotes the same entry
    and no other handle becomes valid, and the table stays well formed after it may
    have shrunk. *)
Theorem close_handle_frees_one (alloc_ok : Z -> bool)
    (ops_close : Z -> option (ptr -> Z -> Z -> bool)) (p : Z) (s : server) (t : handle_table)
    (handle : Z) (e : handle_entry) (x : object)
    (Ht : lookup_table (T_process p) s = Some t) (Hok : table_ok t)
    (Hg : handle_is_global handle = false)
    (Hi : 0 <= handle_to_index handle <= t_last t)
    (Hs : slot_at t (handle_to_index handle) = Some (Some e)) (Hp : he_ptr e <> NULL)
    (Hprot : has_flag (he_access e) RESERVED_CLOSE_PROTECT = false)
    (Hx : s_objects s !! he_ptr e = Some x)
    (Hops : match ops_close (o_ops x) with Some f => f (he_ptr e) p handle | None => true end = true)
    (Hdrop : droppable x) :
  let res := close_handle alloc_ok ops_close p handle s in
  res.1 = STATUS_SUCCESS /\ s_fault res.2 = s_fault s
  /\ exists t', lookup_table (T_process p) res.2 = Some t' /\ closes t t' (handle_to_index handle).
Proof. exact (close_handle_local alloc_ok ops_close p s t handle e x Ht Hok Hg Hi Hs Hp Hprot Hx Hops Hdrop). Qed.

Lemma demo_opened_table :
  exists t, lookup_table (T_process 100) demo_opened = Some t /\ table_ok t /\ t_last t = 0
    /\ slot_at t 0 = Some (Some (mkEntry 7 1)).
Proof.
  destruct (alloc_entry_cases (fun _ => true) (fun _ => None) (T_process 100) demo_server (new_table (Some 100) 32) 7
              (mkObject 1 0 50 3 false) 1 eq_refl (new_table_ok _) ltac:(lia) eq_refl ltac:(simpl; lia))
    as [_ [K | K]]; [destruct K as [K _]; vm_compute in K; done |].
  destruct K as (i & t' & E1 & Hi & E2 & Hok & _). exists t'. split; [exact E2 |]. split; [done |].
  vm_compute in E2. injection E2 as <-. split; reflexivity.
Qed.

Lemma close_handle_frees_one_witness :
  (close_handle (fun _ => true) (fun _ => None) 100 4 demo_opened).1 = STATUS_SUCCESS
  /\ (get_handle (Some 100) 4 (close_handle (fun _ => true) (fun _ => None) 100 4 demo_opened).2).1 = None.
Proof.
  split; [| vm_compute; reflexivity].
  destruct demo_opened_table as (t & Ht & Hok & Hl & Hs).
  apply (close_handle_frees_one (fun _ => true) (fun _ => None) 100 demo_opened t 4
           (mkEntry 7 1) (mkObject 2 1 50 3 false)); try done.
  change (handle_to_index 4) with 0. rewrite Hl. lia.
Defined.

(** C35: closing a global handle leaves the table.  [close_handle] takes the slot index
    from the handle before it is decoded; for every valid and closable global handle
    that index lies beyond the end of the global table, so the write that should free
    the slot is out of bounds. *)
Theorem close_global_handle_out_of_bounds (alloc_ok : Z -> bool)
    (ops_close : Z -> option (ptr -> Z -> Z -> bool)) (p : Z) (s : server) (t : handle_table)
    (handle : Z) (e : handle_entry) (x : object) (pr : process)
    (Hpr : s_procs s !! p = Some pr) (Ht : s_global s = Some t) (Hok : table_ok t)
    (H0 : 0 <= handle) (Hg : handle_is_global handle = true)
    (Hi : 0 <= handle_to_index (handle_global_to_local handle) <= t_last t)
    (Hs : slot_at t (handle_to_index (handle_global_to_local handle)) = Some (Some e))
    (Hp : he_ptr e <> NULL)
    (Hprot : has_flag (he_access e) RESERVED_CLOSE_PROTECT = false)
    (Hx : s_objects s !! he_ptr e = Some x)
    (Hops : match ops_close (o_ops x) with Some f => f (he_ptr e) p handle | None => true end = true) :
  t_count t <= handle_to_index handle
  /\ s_fault (close_handle alloc_ok ops_close p handle s).2 = true.
Proof.
  split.
  - pose proof (handle_is_global_range handle H0 Hg). rewrite handle_to_index_value by lia.
    assert (0x15000000 <= handle / 4) by (apply Z.div_le_lower_bound; lia).
    pose proof (ok_count _ Hok). unfold MAX_HANDLE_ENTRIES in *. lia.
  - exact (close_handle_global alloc_ok ops_close p s t handle e x pr Hpr Ht Hok H0 Hg Hi Hs Hp
             Hprot Hx Hops).
Qed.

(** A server whose global table holds object 7 in slot 0. *)
Definition demo_global : server :=
  (alloc_global_handle_no_access_check (fun _ => true) 7 1 demo_server).2.

Lemma demo_global_table :
  exists t, s_global demo_global = Some t /\ table_ok t /\ t_last t = 0
    /\ slot_at t 0 = Some (Some (mkEntry 7 1)).
Proof.
  destruct (alloc_entry_cases (fun _ => true) (fun _ => None) T_global
              (set_s_global (Some (new_table None 32)) demo_server) (new_table None 32) 7
              (mkObject 1 0 50 3 false) 1 eq_refl (new_table_ok _) ltac:(lia) eq_refl ltac:(simpl; lia))
    as [_ [K | K]]; [destruct K as [K _]; vm_compute in K; done |].
  destruct K as (i & t' & E1 & Hi & E2 & Hok & _). exists t'.
  assert (E3 : s_global demo_global = Some t') by (rewrite <- E2; vm_compute; reflexivity).
  split; [exact E3 |]. split; [done |]. vm_compute in E3. injection E3 as <-. split; reflexivity.
Qed.

Lemma close_global_handle_out_of_bounds_witness :
  s_fault (close_handle (fun _ => true) (fun _ => None) 100 (handle_local_to_global 4) demo_global).2
  = true /\ s_fault demo_global = false.
Proof.
  split; [| vm_compute; reflexivity].
  destruct demo_global_table as (t & Ht & Hok & Hl & Hs).
  apply (close_global_handle_out_of_bounds (fun _ => true) (fun _ => None) 100 demo_global t
           (handle_local_to_global 4) (mkEntry 7 1) (mkObject 2 1 50 3 false)
           (mkProcess (Some (new_table (Some 100) 32)) 0)); try done.
  change (handle_to_index (handle_global_to_local (handle_local_to_global 4))) with 0.
  rewrite Hl. lia.
Defined.

(** ** Handle flags *)

(** Two words are equal when they agree on every bit below 32. *)
Lemma land_not32 a m n :
  0 <= n < 32 -> Z.testbit (Z.land a (not32 m)) n = Z.testbit a n && negb (Z.testbit m n).
Proof.
  intros Hn. rewrite Z.land_spec. unfold not32, uwrap. rewrite Z.mod_pow2_bits_low by lia.
  by rewrite Z.lnot_spec by lia.
Qed.

Lemma land_not32_high a m n : 32 <= n -> Z.testbit (Z.land a (not32 m)) n = false.
Proof.
  intros Hn. rewrite Z.land_spec. unfold not32, uwrap.
  rewrite Z.mod_pow2_bits_high by lia. apply andb_false_r.
Qed.

Lemma reserved_all_testbit n : 0 <= n -> Z.testbit RESERVED_ALL n = (n =? 26) || (n =? 27).
Proof.
  intros Hn. change RESERVED_ALL with (Z.shiftl 3 26). rewrite Z.shiftl_spec by lia.
  destruct (Z.eqb_spec n 26) as [-> | H26]; [reflexivity |].
  destruct (Z.eqb_spec n 27) as [-> | H27]; [reflexivity |]. simpl.
  destruct (decide (n < 26)); [by rewrite Z.testbit_neg_r by lia |].
  apply (Z.bits_above_log2 3); simpl; lia.
Qed.

(** [set_handle_flags] changes the inherit and protect flags only: the access
    rights of the handle are the same afterwards, the flag bits selected by the mask
    take the new values, and the others keep theirs. *)
Theorem flagged_access_spec (access mask flags n : Z) (Hn : 0 <= n < 32) :
  Z.testbit (flagged_access access mask flags) n =
  if (n =? 26) || (n =? 27)
  then if Z.testbit mask (n - 26) then Z.testbit flags (n - 26) else Z.testbit access n
  else Z.testbit access n.
Proof.
  unfold flagged_access. rewrite Z.lor_spec, land_not32, !Z.land_spec by lia.
  rewrite reserved_all_testbit by lia. unfold uwrap. rewrite !Z.mod_pow2_bits_low by lia.
  unfold RESERVED_SHIFT. rewrite !Z.shiftl_spec by lia.
  destruct ((n =? 26) || (n =? 27)); rewrite ?andb_true_r, ?andb_false_r; cbn [negb orb].
  - destruct (Z.testbit mask (n - 26)); rewrite ?andb_true_r, ?andb_false_r; cbn [negb];
      rewrite ?andb_true_r, ?andb_false_r, ?orb_false_r; done.
  - by rewrite andb_true_r, orb_false_r.
Qed.

Lemma flagged_access_spec_witness :
  Z.testbit (flagged_access 0x1f0003 1 1) 26 = true
  /\ flagged_access 0x1f0003 1 1 = 0x41f0003.
Proof.
  split; [| vm_compute; reflexivity].
  etransitivity; [apply (flagged_access_spec 0x1f0003 1 1 26); lia | reflexivity].
Defined.

(** A process that may duplicate handles (its process object is 100, which it opened
    with full access as handle 4) and holds object 7 as handle 8. *)
Definition demo_dup : server :=
  let s := set_s_objects (<[100 := mkObject 1 0 60 5 false]> (s_objects demo_server)) demo_server in
  let s := (alloc_entry (fun _ => true) (T_process 100) 100 0x1fffff s).2 in
  (alloc_entry (fun _ => true) (T_process 100) 7 1 s).2.

Definition demo_dup_request (access options : Z) : server :=
  (req_dup_handle (fun _ => true) (fun _ => None) (fun _ => None) demo_mapping
     (fun _ _ a => Some a) 60 100 None (fun _ => NULL) 4 8 4 access 0 options demo_dup).2.

(** A request to make a global duplicate has no destination process.  With more access
    rights than the source, or with the same attributes, the server follows the null
    destination; without either it does not. *)
Example dup_make_global_follows_null_destination :
  s_fault demo_dup = false
  /\ s_fault (demo_dup_request 2 DUPLICATE_MAKE_GLOBAL) = true
  /\ s_fault (demo_dup_request 0 (Z.lor DUPLICATE_MAKE_GLOBAL
                (Z.lor DUPLICATE_SAME_ACCESS DUPLICATE_SAME_ATTRIBUTES))) = true
  /\ s_fault (demo_dup_request 0 (Z.lor DUPLICATE_MAKE_GLOBAL DUPLICATE_SAME_ACCESS)) = false.
Proof. repeat split; vm_compute; reflexivity. Qed.
