(* ===== verification/Sync.v ===== *)
(** * Wineserver: synchronisation objects and waits

    Events, mutexes and semaphores ([server/event.c], [server/mutex.c],
    [server/semaphore.c]) and the wait machinery of [server/thread.c] that all of them
    use: wait structures of a thread, wait queues of an object, [check_wait],
    [end_wait], [wake_thread], [wake_up] and [select_on].

    An event, mutex or semaphore object holds a pointer to its sync object and passes
    everything on to it; the model starts at the sync objects, and a request takes the
    object its handle was resolved to ([None] when the handle was refused).  Reference
    counts keep an object alive while it is waited for or owned; they are not repeated
    here, and objects are not destroyed.  Writing to a thread's wake-up pipe is taken to
    succeed.  Keyed events are left out.

    A failed assertion sets [s_fault].  [s_wrapped] records that a recursion count has
    wrapped around, which the code marks with a FIXME and does not detect. *)

From stdpp Require Import base list gmap.
From Stdlib Require Import ZArith.
From S2P Require Import Prelude.

Open Scope Z_scope.

Definition STATUS_WAIT_0 := 0.
Definition STATUS_ABANDONED_WAIT_0 := 0x80.
Definition STATUS_USER_APC := 0xC0.
Definition STATUS_KERNEL_APC := 0x100.
Definition STATUS_TIMEOUT := 0x102.
Definition STATUS_PENDING := 0x103.
Definition STATUS_THREAD_WAS_SUSPENDED := 0x40000001.
Definition STATUS_INVALID_PARAMETER := 0xC000000D.
Definition SYNC_ACCESS_DENIED := 0xC0000022.
Definition STATUS_MUTANT_NOT_OWNED := 0xC0000046.
Definition STATUS_SEMAPHORE_LIMIT_EXCEEDED := 0xC0000047.
Definition STATUS_SUSPEND_COUNT_EXCEEDED := 0xC000004A.

Definition SELECT_ALERTABLE := 1.
Definition SELECT_INTERRUPTIBLE := 2.
Definition SELECT_COOPERATIVE_SUSPEND := 4.
Definition MAXIMUM_WAIT_OBJECTS := 64.
Definition MAXIMUM_SUSPEND_COUNT := 127.
Definition EVENT_MODIFY_STATE := 2.
Definition SEMAPHORE_MODIFY_STATE := 2.
Definition SYNCHRONIZE := 0x00100000.
Definition TIMEOUT_INFINITE := 0x7fffffffffffffff.

Inductive select_opcode := SELECT_NONE | SELECT_WAIT | SELECT_WAIT_ALL | SELECT_SIGNAL_AND_WAIT.

#[export] Instance select_opcode_eq : EqDecision select_opcode.
Proof. solve_decision. Defined.

(** ** State *)

Inductive sync :=
| Event_sync (manual signaled : bool)
| Semaphore_sync (count max : Z)
| Mutex_sync (owner : ptr) (count : Z) (abandoned : bool).

(** An entry of a wait queue: the wait structure and the index in its [queues]. *)
Record wait_queue_entry := mkEntry { wq_wait : ptr; wq_index : nat }.

#[export] Instance wait_queue_entry_eq : EqDecision wait_queue_entry.
Proof. solve_decision. Defined.

Record sync_object := mkSyncObject {
  o_sync : sync;
  o_wait_queue : list wait_queue_entry
}.

(** [count] is the length of [tw_objs], the [obj] fields of [queues]. *)
Record thread_wait := mkWait {
  tw_next : ptr; tw_thread : ptr; tw_flags : Z; tw_abandoned : bool;
  tw_select : select_opcode; tw_cookie : Z; tw_when : Z; tw_user : bool;
  tw_objs : list ptr
}.

(** [c_regs] says whether the client has set registers in the context. *)
Record context := mkContext { c_cooperative : bool; c_regs : bool }.

#[export] Instance context_eq : EqDecision context.
Proof. solve_decision. Defined.

Record thread := mkThread {
  t_wait : ptr; t_mutex_list : list ptr; t_process : Z; t_suspend : Z;
  t_bypass_proc_suspend : bool; t_context : option context; t_suspend_cookie : Z;
  t_system_apc : nat; t_user_apc : nat
}.

Record srv := mkSrv {
  s_objs : gmap ptr sync_object; s_threads : gmap ptr thread; s_waits : gmap ptr thread_wait;
  s_proc_suspend : gmap Z Z; s_next : ptr; s_current_time : Z; s_monotonic_time : Z;
  s_err : Z; s_fault : bool; s_wrapped : bool; s_wakeups : list (ptr * Z * Z)
}.

Definition set_objs v s := mkSrv v (s_threads s) (s_waits s) (s_proc_suspend s) (s_next s)
  (s_current_time s) (s_monotonic_time s) (s_err s) (s_fault s) (s_wrapped s) (s_wakeups s).
Definition set_threads v s := mkSrv (s_objs s) v (s_waits s) (s_proc_suspend s) (s_next s)
  (s_current_time s) (s_monotonic_time s) (s_err s) (s_fault s) (s_wrapped s) (s_wakeups s).
Definition set_waits v s := mkSrv (s_objs s) (s_threads s) v (s_proc_suspend s) (s_next s)
  (s_current_time s) (s_monotonic_time s) (s_err s) (s_fault s) (s_wrapped s) (s_wakeups s).
Definition set_next v s := mkSrv (s_objs s) (s_threads s) (s_waits s) (s_proc_suspend s) v
  (s_current_time s) (s_monotonic_time s) (s_err s) (s_fault s) (s_wrapped s) (s_wakeups s).
Definition set_times c m s := mkSrv (s_objs s) (s_threads s) (s_waits s) (s_proc_suspend s) (s_next s)
  c m (s_err s) (s_fault s) (s_wrapped s) (s_wakeups s).
Definition set_err v s := mkSrv (s_objs s) (s_threads s) (s_waits s) (s_proc_suspend s) (s_next s)
  (s_current_time s) (s_monotonic_time s) v (s_fault s) (s_wrapped s) (s_wakeups s).
Definition set_fault s := mkSrv (s_objs s) (s_threads s) (s_waits s) (s_proc_suspend s) (s_next s)
  (s_current_time s) (s_monotonic_time s) (s_err s) true (s_wrapped s) (s_wakeups s).
Definition set_wrapped s := mkSrv (s_objs s) (s_threads s) (s_waits s) (s_proc_suspend s) (s_next s)
  (s_current_time s) (s_monotonic_time s) (s_err s) (s_fault s) true (s_wakeups s).
Definition set_wakeups v s := mkSrv (s_objs s) (s_threads s) (s_waits s) (s_proc_suspend s) (s_next s)
  (s_current_time s) (s_monotonic_time s) (s_err s) (s_fault s) (s_wrapped s) v.

Abbreviation Sv := (M srv).

Definition set_o_sync v o := mkSyncObject v (o_wait_queue o).
Definition set_o_wait_queue v o := mkSyncObject (o_sync o) v.
Definition set_tw_abandoned w := mkWait (tw_next w) (tw_thread w) (tw_flags w) true
  (tw_select w) (tw_cookie w) (tw_when w) (tw_user w) (tw_objs w).
Definition set_tw_objs v w := mkWait (tw_next w) (tw_thread w) (tw_flags w) (tw_abandoned w)
  (tw_select w) (tw_cookie w) (tw_when w) (tw_user w) v.
Definition set_tw_cookie v w := mkWait (tw_next w) (tw_thread w) (tw_flags w) (tw_abandoned w)
  (tw_select w) v (tw_when w) (tw_user w) (tw_objs w).
Definition set_tw_user v w := mkWait (tw_next w) (tw_thread w) (tw_flags w) (tw_abandoned w)
  (tw_select w) (tw_cookie w) (tw_when w) v (tw_objs w).
Definition set_t_wait v t := mkThread v (t_mutex_list t) (t_process t) (t_suspend t)
  (t_bypass_proc_suspend t) (t_context t) (t_suspend_cookie t) (t_system_apc t) (t_user_apc t).
Definition set_t_mutex_list v t := mkThread (t_wait t) v (t_process t) (t_suspend t)
  (t_bypass_proc_suspend t) (t_context t) (t_suspend_cookie t) (t_system_apc t) (t_user_apc t).
Definition set_t_suspend v t := mkThread (t_wait t) (t_mutex_list t) (t_process t) v
  (t_bypass_proc_suspend t) (t_context t) (t_suspend_cookie t) (t_system_apc t) (t_user_apc t).
Definition set_t_context v t := mkThread (t_wait t) (t_mutex_list t) (t_process t) (t_suspend t)
  (t_bypass_proc_suspend t) v (t_suspend_cookie t) (t_system_apc t) (t_user_apc t).

Definition fault : Sv unit := mmodify set_fault.
Definition set_serror (e : Z) : Sv unit := mmodify (set_err e).

(** [assert(b)]: the server stops; the model goes on with the fault recorded. *)
Definition sassert (b : bool) : Sv unit := mwhen (negb b) fault.

Definition no_object : sync_object := mkSyncObject (Event_sync false false) [].
Definition no_wait : thread_wait := mkWait NULL NULL 0 false SELECT_NONE 0 0 false [].
Definition no_thread : thread := mkThread NULL [] 0 0 false None 0 0 0.

(** Memory accesses; an address that holds nothing is a fault. *)
Definition geto (o : ptr) : Sv sync_object :=
  let! s := mget in
  match s_objs s !! o with Some x => mreturn x | None => fault ;;; mreturn no_object end.
Definition modo (o : ptr) (f : sync_object -> sync_object) : Sv unit :=
  mmodify (fun s => match s_objs s !! o with
                    | Some x => set_objs (<[o := f x]> (s_objs s)) s
                    | None => set_fault s end).
Definition getw (w : ptr) : Sv thread_wait :=
  let! s := mget in
  match s_waits s !! w with Some x => mreturn x | None => fault ;;; mreturn no_wait end.
Definition modw (w : ptr) (f : thread_wait -> thread_wait) : Sv unit :=
  mmodify (fun s => match s_waits s !! w with
                    | Some x => set_waits (<[w := f x]> (s_waits s)) s
                    | None => set_fault s end).
Definition gett (t : ptr) : Sv thread :=
  let! s := mget in
  match s_threads s !! t with Some x => mreturn x | None => fault ;;; mreturn no_thread end.
Definition modt (t : ptr) (f : thread -> thread) : Sv unit :=
  mmodify (fun s => match s_threads s !! t with
                    | Some x => set_threads (<[t := f x]> (s_threads s)) s
                    | None => set_fault s end).

(** ** Mutexes: taking and the wait hooks *)

Definition do_grab (mutex : ptr) (thread : ptr) : Sv unit :=
  let! o := geto mutex in
  match o_sync o with
  | Mutex_sync owner count abandoned =>
      sassert ((count =? 0) || (owner =? thread)) ;;;
      mwhen (count =? 0xffffffff) (mmodify set_wrapped) ;;;
      modo mutex (set_o_sync (Mutex_sync owner (u32 (count + 1)) abandoned)) ;;;
      if count =? 0 then
        sassert (owner =? NULL) ;;;
        modo mutex (set_o_sync (Mutex_sync thread (u32 (count + 1)) abandoned)) ;;;
        modt thread (fun t => set_t_mutex_list (mutex :: t_mutex_list t) t)
      else mreturn tt
  | _ => fault
  end.

(** [ops->signaled]: the thread is the one of the queue entry. *)
Definition event_sync_signaled (signaled : bool) : bool := signaled.
Definition semaphore_sync_signaled (count : Z) : bool := 0 <? count.
Definition mutex_sync_signaled (owner count : Z) (thread : ptr) : bool :=
  (count =? 0) || (owner =? thread).

Definition sync_signaled (x : sync) (thread : ptr) : bool :=
  match x with
  | Event_sync _ signaled => event_sync_signaled signaled
  | Semaphore_sync count _ => semaphore_sync_signaled count
  | Mutex_sync owner count _ => mutex_sync_signaled owner count thread
  end.

(** [ops->satisfied] for an entry of wait [w]. *)
Definition event_sync_satisfied (o : ptr) (manual : bool) : Sv unit :=
  mwhen (negb manual) (modo o (set_o_sync (Event_sync manual false))).

Definition semaphore_sync_satisfied (o : ptr) (count max : Z) : Sv unit :=
  sassert (negb (count =? 0)) ;;;
  modo o (set_o_sync (Semaphore_sync (u32 (count - 1)) max)).

Definition mutex_sync_satisfied (o w : ptr) : Sv unit :=
  let! wait := getw w in
  do_grab o (tw_thread wait) ;;;
  let! y := geto o in
  match o_sync y with
  | Mutex_sync owner count abandoned =>
      mwhen abandoned (modw w set_tw_abandoned) ;;;
      modo o (set_o_sync (Mutex_sync owner count false))
  | _ => fault
  end.

Definition sync_satisfied (o : ptr) (w : ptr) : Sv unit :=
  let! x := geto o in
  match o_sync x with
  | Event_sync manual _ => event_sync_satisfied o manual
  | Semaphore_sync count max => semaphore_sync_satisfied o count max
  | Mutex_sync _ _ _ => mutex_sync_satisfied o w
  end.

(** ** Waits *)

Definition add_queue (o : ptr) (e : wait_queue_entry) : Sv unit :=
  modo o (fun x => set_o_wait_queue (o_wait_queue x ++ [e]) x).
Definition remove_queue (o : ptr) (e : wait_queue_entry) : Sv unit :=
  modo o (fun x => set_o_wait_queue (filter (fun e' => e' <> e) (o_wait_queue x)) x).

Definition is_thread_suspended (t : thread) (proc_suspend : gmap Z Z) : bool :=
  if match t_context t with Some c => c_cooperative c | None => false end then false
  else if negb (t_suspend t =? 0) then true
  else negb (t_bypass_proc_suspend t) && negb (default 0 (proc_suspend !! t_process t) =? 0).

(** The entries of a wait: its objects with their index. *)
Fixpoint indexed (i : nat) (l : list ptr) : list (nat * ptr) :=
  match l with
  | [] => []
  | o :: l' => (i, o) :: indexed (S i) l'
  end.

Definition end_wait (thread : ptr) (status : Z) : Sv Z :=
  let! t := gett thread in
  sassert (negb (t_wait t =? NULL)) ;;;
  let w := t_wait t in
  let! wait := getw w in
  modt thread (set_t_wait (tw_next wait)) ;;;
  let! status :=
    (if status <? Z.of_nat (length (tw_objs wait)) then
       (if bool_decide (tw_select wait = SELECT_WAIT_ALL)
        then mfor (fun o => sync_satisfied o w) (tw_objs wait)
        else match tw_objs wait !! Z.to_nat status with
             | Some o => sync_satisfied o w
             | None => fault
             end) ;;;
       let! after := getw w in
       mreturn (if tw_abandoned after then u32 (status + STATUS_ABANDONED_WAIT_0) else status)
     else mreturn status) in
  mfor (fun e : nat * ptr => remove_queue e.2 (mkEntry w e.1)) (indexed 0 (tw_objs wait)) ;;;
  mmodify (fun s => set_waits (delete w (s_waits s)) s) ;;;
  mreturn status.

(** [wait_on]: the wait structure of the current thread is allocated and queued;
    adding to a queue of a sync object does not fail. *)
Definition wait_on (current : ptr) (op : select_opcode) (objects : list ptr) (flags when : Z) :
    Sv bool :=
  let! s := mget in
  let w := s_next s in
  let! t := gett current in
  mmodify (fun s' => set_next (s_next s' + 1) s') ;;;
  mmodify (fun s => set_waits
    (<[w := mkWait (t_wait t) current flags false op 0 when false objects]> (s_waits s)) s) ;;;
  modt current (set_t_wait w) ;;;
  mfor (fun e : nat * ptr => add_queue e.2 (mkEntry w e.1)) (indexed 0 objects) ;;;
  mreturn true.

(** Index of the first signalled object. *)
Fixpoint first_signaled (thread : ptr) (i : Z) (l : list ptr) : Sv (option Z) :=
  match l with
  | [] => mreturn None
  | o :: l' =>
      let! x := geto o in
      if sync_signaled (o_sync x) thread then mreturn (Some i) else first_signaled thread (i + 1) l'
  end.

(** All objects are looked at, whatever the first ones say. *)
Fixpoint all_signaled (thread : ptr) (l : list ptr) : Sv bool :=
  match l with
  | [] => mreturn true
  | o :: l' =>
      let! x := geto o in
      let! rest := all_signaled thread l' in
      mreturn (sync_signaled (o_sync x) thread && rest)
  end.

(** The end of [check_wait]: user APCs and the timeout. *)
Definition check_wait_end (wait : thread_wait) (t : thread) (s : srv) : Z :=
  if has_flag (tw_flags wait) SELECT_ALERTABLE && negb (Nat.eqb (t_user_apc t) 0)
  then STATUS_USER_APC
  else if (0 <=? tw_when wait) && (tw_when wait <=? s_current_time s) then STATUS_TIMEOUT
  else if (tw_when wait <? 0) && (- tw_when wait <=? s_monotonic_time s) then STATUS_TIMEOUT
  else -1.

(** The rest of [check_wait] for a thread that takes no system APC and does not
    suspend itself. *)
Definition check_wait_objects (thread : ptr) (wait : thread_wait) : Sv Z :=
  let! t := gett thread in
  let! s := mget in
  if is_thread_suspended t (s_proc_suspend s) then mreturn (-1)
  else if bool_decide (tw_select wait = SELECT_WAIT_ALL) then
    let! ok := all_signaled thread (tw_objs wait) in
    if ok then mreturn STATUS_WAIT_0 else mreturn (check_wait_end wait t s)
  else
    let! found := first_signaled thread 0 (tw_objs wait) in
    match found with
    | Some i => mreturn i
    | None => mreturn (check_wait_end wait t s)
    end.

Definition check_wait (thread : ptr) : Sv Z :=
  let! t := gett thread in
  sassert (negb (t_wait t =? NULL)) ;;;
  let! wait := getw (t_wait t) in
  if has_flag (tw_flags wait) SELECT_INTERRUPTIBLE && negb (Nat.eqb (t_system_apc t) 0)
  then mreturn STATUS_KERNEL_APC
  else match t_context t with
  | Some c =>
      if has_flag (tw_flags wait) SELECT_COOPERATIVE_SUSPEND
      then modt thread (set_t_context (Some (mkContext true (c_regs c)))) ;;;
           mreturn STATUS_THREAD_WAS_SUSPENDED
      else check_wait_objects thread wait
  | None => check_wait_objects thread wait
  end.

(** [send_thread_wakeup]: the reply written to the thread's pipe. *)
Definition send_thread_wakeup (thread : ptr) (cookie signaled : Z) : Sv unit :=
  let! t := gett thread in
  let! signaled :=
    match t_context t with
    | Some c =>
        if (t_suspend_cookie t =? cookie) && negb (signaled =? STATUS_KERNEL_APC)
           && negb (signaled =? STATUS_USER_APC)
        then if c_regs c then mreturn STATUS_KERNEL_APC
             else modt thread (set_t_context None) ;;; mreturn signaled
        else mreturn signaled
    | None => mreturn signaled
    end in
  mmodify (fun s => set_wakeups (s_wakeups s ++ [(thread, cookie, signaled)]) s).

(** [for (count = 0; thread->wait; count++)]: a round ends one wait, so the number
    of waits bounds the rounds. *)
Fixpoint wake_thread_loop (fuel : nat) (thread : ptr) (count : Z) : Sv Z :=
  let! t := gett thread in
  if t_wait t =? NULL then mreturn count else
  match fuel with
  | O => fault ;;; mreturn count
  | S fuel' =>
      let! signaled := check_wait thread in
      if signaled =? -1 then mreturn count else
      let! t := gett thread in
      let! wait := getw (t_wait t) in
      let cookie := tw_cookie wait in
      let! signaled := end_wait thread signaled in
      mwhen (negb (cookie =? 0)) (send_thread_wakeup thread cookie signaled) ;;;
      wake_thread_loop fuel' thread (count + 1)
  end.

Definition wake_thread (thread : ptr) : Sv Z :=
  let! s := mget in wake_thread_loop (S (size (s_waits s))) thread 0.

(** The entries of a queue in order, up to the first one whose thread is woken; a
    thread that stays asleep leaves the queue as it is. *)
Fixpoint wake_first (queue : list wait_queue_entry) : Sv Z :=
  match queue with
  | [] => mreturn 0
  | e :: rest =>
      let! wait := getw (wq_wait e) in
      let! ret := wake_thread (tw_thread wait) in
      if ret =? 0 then wake_first rest else mreturn ret
  end.

(** [wake_up]: after a thread has been woken the walk starts again at the head of the
    queue, until [max] threads (0: no limit) have been woken. *)
Fixpoint wake_up_loop (fuel : nat) (o : ptr) (max : Z) : Sv unit :=
  let! x := geto o in
  let! ret := wake_first (o_wait_queue x) in
  if ret =? 0 then mreturn tt
  else if max =? 1 then mreturn tt
  else match fuel with
       | O => fault
       | S fuel' => wake_up_loop fuel' o (if max =? 0 then 0 else max - 1)
       end.

Definition wake_up (o : ptr) (max : Z) : Sv unit :=
  let! s := mget in wake_up_loop (S (size (s_waits s))) o max.

(** ** Operations on objects *)

Definition new_object (x : sync) : Sv ptr :=
  let! s := mget in
  mmodify (fun s' => set_next (s_next s' + 1) s') ;;;
  mmodify (fun s' => set_objs (<[s_next s := mkSyncObject x []]> (s_objs s')) s') ;;;
  mreturn (s_next s).

Definition create_event_sync (manual signaled : bool) : Sv ptr := new_object (Event_sync manual signaled).
Definition create_semaphore_sync (initial max : Z) : Sv ptr := new_object (Semaphore_sync initial max).
Definition create_mutex_sync (current : ptr) (owned : bool) : Sv ptr :=
  let! o := new_object (Mutex_sync NULL 0 false) in
  mwhen owned (do_grab o current) ;;;
  mreturn o.

Definition event_sync_signal (event : ptr) (signal : Z) : Sv unit :=
  let! x := geto event in
  match o_sync x with
  | Event_sync manual _ =>
      let signaled := negb (signal =? 0) in
      modo event (set_o_sync (Event_sync manual signaled)) ;;;
      mwhen signaled (wake_up event (b2z (negb manual)))
  | _ => fault
  end.

Definition set_event (event : ptr) : Sv unit := event_sync_signal event 1.
Definition reset_event (event : ptr) : Sv unit := event_sync_signal event 0.

(** [max] of [wake_up] is an [int]; the result is 1 on success and [*prev]. *)
Definition release_semaphore (sem : ptr) (count : Z) : Sv (bool * Z) :=
  let! x := geto sem in
  match o_sync x with
  | Semaphore_sync cur max =>
      if (u32 (cur + count) <? cur) || (max <? u32 (cur + count))
      then set_serror STATUS_SEMAPHORE_LIMIT_EXCEEDED ;;; mreturn (false, cur)
      else if negb (cur =? 0)
      then modo sem (set_o_sync (Semaphore_sync (u32 (cur + count)) max)) ;;; mreturn (true, cur)
      else modo sem (set_o_sync (Semaphore_sync count max)) ;;;
           wake_up sem (i32 count) ;;;
           mreturn (true, cur)
  | _ => fault ;;; mreturn (false, 0)
  end.

Definition do_release (mutex thread : ptr) (count : Z) : Sv bool :=
  let! x := geto mutex in
  match o_sync x with
  | Mutex_sync owner cur abandoned =>
      if (cur =? 0) || negb (owner =? thread)
      then set_serror STATUS_MUTANT_NOT_OWNED ;;; mreturn false
      else
      modo mutex (set_o_sync (Mutex_sync owner (u32 (cur - count)) abandoned)) ;;;
      (if u32 (cur - count) =? 0 then
         modt owner (fun t => set_t_mutex_list (filter (fun m => m <> mutex) (t_mutex_list t)) t) ;;;
         modo mutex (set_o_sync (Mutex_sync NULL (u32 (cur - count)) abandoned)) ;;;
         wake_up mutex 0
       else mreturn tt) ;;;
      mreturn true
  | _ => fault ;;; mreturn false
  end.

(** [while ((ptr = list_head( &thread->mutex_list )))]: each round releases the head,
    which takes it off the list. *)
Fixpoint abandon_loop (fuel : nat) (thread : ptr) : Sv unit :=
  let! t := gett thread in
  match t_mutex_list t with
  | [] => mreturn tt
  | mutex :: _ =>
      match fuel with
      | O => fault
      | S fuel' =>
          let! x := geto mutex in
          match o_sync x with
          | Mutex_sync owner count abandoned =>
              sassert (owner =? thread) ;;;
              modo mutex (set_o_sync (Mutex_sync owner count true)) ;;;
              do_release mutex thread count ;;;
              abandon_loop fuel' thread
          | _ => fault
          end
      end
  end.

Definition abandon_mutexes (thread : ptr) : Sv unit :=
  let! t := gett thread in abandon_loop (length (t_mutex_list t)) thread.

(** [ops->signal] as [signal_object] calls it, with the access of the handle. *)
Definition event_signal (o : ptr) (access : Z) : Sv bool :=
  if has_flag access EVENT_MODIFY_STATE then event_sync_signal o 1 ;;; mreturn true
  else set_serror SYNC_ACCESS_DENIED ;;; mreturn false.

Definition semaphore_signal (o : ptr) (access : Z) : Sv bool :=
  if has_flag access SEMAPHORE_MODIFY_STATE
  then let! r := release_semaphore o 1 in mreturn r.1
  else set_serror SYNC_ACCESS_DENIED ;;; mreturn false.

Definition mutex_signal (current : ptr) (o : ptr) (access : Z) : Sv bool :=
  if has_flag access SYNCHRONIZE then do_release o current 1
  else set_serror SYNC_ACCESS_DENIED ;;; mreturn false.

Definition signal_object (current : ptr) (obj : option (ptr * Z)) : Sv bool :=
  match obj with
  | None => mreturn false
  | Some (o, access) =>
      let! x := geto o in
      match o_sync x with
      | Event_sync _ _ => event_signal o access
      | Semaphore_sync _ _ => semaphore_signal o access
      | Mutex_sync _ _ _ => mutex_signal current o access
      end
  end.

(** ** Requests *)

Inductive event_op := PULSE_EVENT | SET_EVENT | RESET_EVENT.

(** The reply is the state before. *)
Definition req_event_op (event : option ptr) (op : event_op) : Sv (option bool) :=
  match event with
  | None => mreturn None
  | Some o =>
      let! x := geto o in
      match o_sync x with
      | Event_sync _ signaled =>
          match op with
          | PULSE_EVENT => set_event o ;;; reset_event o
          | SET_EVENT => set_event o
          | RESET_EVENT => reset_event o
          end ;;;
          mreturn (Some signaled)
      | _ => fault ;;; mreturn None
      end
  end.

(** Whether the event is reset by hand, and its state. *)
Definition req_query_event (event : option ptr) : Sv (option (bool * bool)) :=
  match event with
  | None => mreturn None
  | Some o =>
      let! x := geto o in
      match o_sync x with
      | Event_sync manual signaled => mreturn (Some (manual, signaled))
      | _ => fault ;;; mreturn None
      end
  end.

Definition req_query_semaphore (sem : option ptr) : Sv (option (Z * Z)) :=
  match sem with
  | None => mreturn None
  | Some o =>
      let! x := geto o in
      match o_sync x with
      | Semaphore_sync count max => mreturn (Some (count, max))
      | _ => fault ;;; mreturn None
      end
  end.

Definition req_create_semaphore (initial max : Z) : Sv (option ptr) :=
  if (max =? 0) || (max <? initial)
  then set_serror STATUS_INVALID_PARAMETER ;;; mreturn None
  else let! o := create_semaphore_sync initial max in mreturn (Some o).

Definition req_release_semaphore (sem : option ptr) (count : Z) : Sv (option Z) :=
  match sem with
  | None => mreturn None
  | Some o => let! r := release_semaphore o count in mreturn (Some r.2)
  end.

Definition req_release_mutex (current : ptr) (mutex : option ptr) : Sv (option Z) :=
  match mutex with
  | None => mreturn None
  | Some o =>
      let! x := geto o in
      match o_sync x with
      | Mutex_sync _ count _ => do_release o current 1 ;;; mreturn (Some count)
      | _ => fault ;;; mreturn None
      end
  end.

Definition req_query_mutex (current : ptr) (mutex : option ptr) : Sv (option (Z * bool * bool)) :=
  match mutex with
  | None => mreturn None
  | Some o =>
      let! x := geto o in
      match o_sync x with
      | Mutex_sync owner count abandoned => mreturn (Some (count, owner =? current, abandoned))
      | _ => fault ;;; mreturn None
      end
  end.

(** The operation of a select call with its objects; a refused handle is [None]. *)
Inductive select_op :=
| Op_none
| Op_wait (handles : list (option ptr))
| Op_wait_all (handles : list (option ptr))
| Op_signal_and_wait (wait : option ptr) (signal : option (option (ptr * Z))).

(** [wait_on_handles]: nothing is queued when a handle is refused. *)
Definition wait_on_handles (current : ptr) (op : select_opcode) (handles : list (option ptr))
    (flags when : Z) : Sv bool :=
  match mapM id handles with
  | Some objects => wait_on current op objects flags when
  | None => mreturn false
  end.

(** The part of [select_on] before the wait is checked; [false] ends the call. *)
Definition select_prepare (current : ptr) (op : select_op) (flags when : Z) : Sv bool :=
  match op with
  | Op_none => wait_on current SELECT_NONE [] flags when
  | Op_wait handles | Op_wait_all handles =>
      if MAXIMUM_WAIT_OBJECTS <? Z.of_nat (length handles)
      then set_serror STATUS_INVALID_PARAMETER ;;; mreturn false
      else wait_on_handles current
             (match op with Op_wait_all _ => SELECT_WAIT_ALL | _ => SELECT_WAIT end) handles flags when
  | Op_signal_and_wait wait signal =>
      let! ok := wait_on_handles current SELECT_SIGNAL_AND_WAIT [wait] flags when in
      if negb ok then mreturn false else
      match signal with
      | None => mreturn true
      | Some obj =>
          let! done := signal_object current obj in
          if negb done
          then let! s := mget in end_wait current (s_err s) ;;; mreturn false
          else let! t := gett current in mreturn (negb (t_wait t =? NULL))
      end
  end.

(** [select_on]: [true] when the call ends at once, its status being the error set;
    otherwise the thread sleeps.  Adding the timeout is taken to succeed. *)
Definition select_on (current : ptr) (op : select_op) (cookie flags when : Z) : Sv bool :=
  let! go := select_prepare current op flags when in
  if negb go then mreturn true else
  let! ret := check_wait current in
  if negb (ret =? -1)
  then let! status := end_wait current ret in set_serror status ;;; mreturn true
  else
  let! t := gett current in
  let! wait := getw (t_wait t) in
  mwhen (negb (tw_when wait =? TIMEOUT_INFINITE)) (modw (t_wait t) (set_tw_user true)) ;;;
  modw (t_wait t) (set_tw_cookie cookie) ;;;
  set_serror STATUS_PENDING ;;;
  mreturn false.

(** The timeout of wait [w] has run out. *)
Definition thread_timeout (w : ptr) : Sv unit :=
  let! wait := getw w in
  let thread := tw_thread wait in
  modw w (set_tw_user false) ;;;
  let! t := gett thread in
  let! s := mget in
  if negb (t_wait t =? w) then mreturn tt
  else if is_thread_suspended t (s_proc_suspend s) then mreturn tt
  else
  end_wait thread STATUS_TIMEOUT ;;;
  sassert (negb (tw_cookie wait =? 0)) ;;;
  send_thread_wakeup thread (tw_cookie wait) STATUS_TIMEOUT ;;;
  wake_thread thread ;;;
  mreturn tt.

(** [stop_thread] gives the thread a context, if it has none. *)
Definition suspend_thread (thread : ptr) : Sv Z :=
  let! t := gett thread in
  let! s := mget in
  (if t_suspend t <? MAXIMUM_SUSPEND_COUNT then
     mwhen (negb (is_thread_suspended t (s_proc_suspend s)))
       (mwhen (bool_decide (t_context t = None)) (modt thread (set_t_context (Some (mkContext false false))))) ;;;
     modt thread (set_t_suspend (t_suspend t + 1))
   else set_serror STATUS_SUSPEND_COUNT_EXCEEDED) ;;;
  mreturn (t_suspend t).

Definition resume_thread (thread : ptr) : Sv Z :=
  let! t := gett thread in
  (if 0 <? t_suspend t then
     modt thread (set_t_suspend (t_suspend t - 1)) ;;;
     let! t' := gett thread in
     let! s := mget in
     if negb (is_thread_suspended t' (s_proc_suspend s)) then wake_thread thread ;;; mreturn tt
     else mreturn tt
   else mreturn tt) ;;;
  mreturn (t_suspend t).
