(* ===== verification/SyncProofs.v ===== *)
(** * Wineserver synchronisation objects: invariants

    What every request keeps true of semaphores and mutexes, what a refused request
    leaves alone, and two ways in which waits go wrong. *)

From stdpp Require Import base list gmap relations.
From Stdlib Require Import ZArith Lia.
From S2P Require Import Prelude Sync.

Open Scope Z_scope.

(** ** The invariant *)

Definition owner_of (x : sync) : ptr :=
  match x with Mutex_sync owner _ _ => owner | _ => NULL end.

(** A semaphore's count is within its limits; a mutex is owned exactly when its
    recursion count is not zero. *)
Definition obj_ok (x : sync) : Prop :=
  match x with
  | Event_sync _ _ => True
  | Semaphore_sync count max => 0 <= count <= max /\ max < 2 ^ 32
  | Mutex_sync owner count _ => 0 <= count < 2 ^ 32 /\ (count = 0 <-> owner = NULL)
  end.

(** A mutex is in the list of a thread exactly when the thread owns it. *)
Record sync_ok (s : srv) : Prop := {
  ok_objs : forall o x, s_objs s !! o = Some x -> obj_ok (o_sync x);
  ok_fresh : forall o x, s_objs s !! o = Some x -> o < s_next s;
  ok_null : s_threads s !! NULL = None;
  ok_owner : forall o x, s_objs s !! o = Some x -> owner_of (o_sync x) <> NULL ->
    is_Some (s_threads s !! owner_of (o_sync x));
  ok_lists : forall t x m, s_threads s !! t = Some x ->
    m ∈ t_mutex_list x <-> exists y, s_objs s !! m = Some y /\ owner_of (o_sync y) = t
}.

(** An assertion has failed or a recursion count has wrapped around: nothing is said
    of the states after. *)
Definition bad (s : srv) : Prop := s_fault s = true \/ s_wrapped s = true.
Definition good (s : srv) : Prop := bad s \/ sync_ok s.

Definition still_bad (s s' : srv) : Prop := bad s -> bad s'.

#[export] Instance still_bad_preorder : PreOrder still_bad.
Proof. split; [by intros s H | intros s1 s2 s3 H1 H2 H; auto]. Qed.

Definition inv {A} (m : Sv A) : Prop := forall s, good s -> good (m s).2.

(** ** A bad state stays bad *)

Lemma bad_fault s : bad (set_fault s).
Proof. by left. Qed.

Lemma bad_geto o : keeps still_bad (geto o).
Proof. intros s Hb. unfold geto. run. cbn. destruct (s_objs s !! o); [done | apply bad_fault]. Qed.
Lemma bad_getw o : keeps still_bad (getw o).
Proof. intros s Hb. unfold getw. run. cbn. destruct (s_waits s !! o); [done | apply bad_fault]. Qed.
Lemma bad_gett o : keeps still_bad (gett o).
Proof. intros s Hb. unfold gett. run. cbn. destruct (s_threads s !! o); [done | apply bad_fault]. Qed.
Lemma bad_modo o f : keeps still_bad (modo o f).
Proof. intros s Hb. unfold modo. cbn. destruct (s_objs s !! o); [done | apply bad_fault]. Qed.
Lemma bad_modw o f : keeps still_bad (modw o f).
Proof. intros s Hb. unfold modw. cbn. destruct (s_waits s !! o); [done | apply bad_fault]. Qed.
Lemma bad_modt o f : keeps still_bad (modt o f).
Proof. intros s Hb. unfold modt. cbn. destruct (s_threads s !! o); [done | apply bad_fault]. Qed.
Lemma bad_fault_k : keeps still_bad fault.
Proof. intros s _. apply bad_fault. Qed.
Lemma bad_mget : keeps still_bad (mget (S := srv)).
Proof. intros s Hb. exact Hb. Qed.
Lemma bad_sassert b : keeps still_bad (sassert b).
Proof. intros s Hb. unfold sassert. destruct b; [done | apply bad_fault]. Qed.
Lemma bad_set_serror e : keeps still_bad (set_serror e).
Proof. intros s Hb. exact Hb. Qed.
Lemma bad_set_next f : keeps still_bad (mmodify (fun s => set_next (f s) s)).
Proof. intros s Hb. exact Hb. Qed.
Lemma bad_set_waits f : keeps still_bad (mmodify (fun s => set_waits (f s) s)).
Proof. intros s Hb. exact Hb. Qed.
Lemma bad_set_objs f : keeps still_bad (mmodify (fun s => set_objs (f s) s)).
Proof. intros s Hb. exact Hb. Qed.
Lemma bad_set_wakeups f : keeps still_bad (mmodify (fun s => set_wakeups (f s) s)).
Proof. intros s Hb. exact Hb. Qed.
Lemma bad_set_wrapped : keeps still_bad (mmodify set_wrapped).
Proof. intros s _. by right. Qed.
#[export] Hint Resolve bad_geto bad_getw bad_gett bad_modo bad_modw bad_modt bad_fault_k bad_mget
  bad_sassert bad_set_serror bad_set_next bad_set_waits bad_set_objs bad_set_wakeups bad_set_wrapped
  : c_db.

Lemma bad_do_grab m t : keeps still_bad (do_grab m t).
Proof. unfold do_grab. keeps_auto. Qed.
#[export] Hint Resolve bad_do_grab : c_db.

Lemma bad_sync_satisfied o w : keeps still_bad (sync_satisfied o w).
Proof.
  unfold sync_satisfied, event_sync_satisfied, semaphore_sync_satisfied, mutex_sync_satisfied. keeps_auto.
Qed.
#[export] Hint Resolve bad_sync_satisfied : c_db.

Lemma bad_end_wait t z : keeps still_bad (end_wait t z).
Proof. unfold end_wait, remove_queue. keeps_auto. Qed.
#[export] Hint Resolve bad_end_wait : c_db.

(** ** Rules for [inv] *)

Lemma inv_return {A} (a : A) : inv (mreturn a).
Proof. intros s Hs. exact Hs. Qed.

Lemma inv_bind {A B} (m : Sv A) (k : A -> Sv B) :
  inv m -> (forall a, inv (k a)) -> inv (mbind' m k).
Proof. intros Hm Hk s Hs. run. apply Hk, Hm, Hs. Qed.

Lemma inv_mget : inv (mget (S := srv)).
Proof. intros s Hs. exact Hs. Qed.

Lemma inv_mwhen b m : inv m -> inv (mwhen b m).
Proof. intros H. destruct b; [exact H | apply inv_return]. Qed.

Lemma inv_mfor {A} (f : A -> Sv unit) l : (forall x, inv (f x)) -> inv (mfor f l).
Proof.
  intros Hf. induction l as [| x l IH]; [apply inv_return |].
  apply inv_bind; [apply Hf | intros _; exact IH].
Qed.

Lemma inv_fault : inv fault.
Proof. intros s _. left. apply bad_fault. Qed.

Lemma inv_sassert b : inv (sassert b).
Proof. apply inv_mwhen, inv_fault. Qed.

Lemma inv_geto o : inv (geto o).
Proof. intros s Hs. unfold geto. run. cbn. destruct (s_objs s !! o); [done | by apply inv_fault]. Qed.
Lemma inv_getw o : inv (getw o).
Proof. intros s Hs. unfold getw. run. cbn. destruct (s_waits s !! o); [done | by apply inv_fault]. Qed.
Lemma inv_gett o : inv (gett o).
Proof. intros s Hs. unfold gett. run. cbn. destruct (s_threads s !! o); [done | by apply inv_fault]. Qed.

(** Changes of the state that the invariant does not see. *)
Lemma inv_unseen (f : srv -> srv) :
  (forall s, s_objs (f s) = s_objs s /\ s_threads (f s) = s_threads s /\
             s_next s <= s_next (f s) /\ still_bad s (f s)) -> inv (mmodify f).
Proof.
  intros H s Hs. destruct (H s) as (Ho & Ht & Hn & Hb). simpl.
  destruct Hs as [Hs | [H1 H2 H3 H4 H5]]; [left; by apply Hb | right].
  constructor; rewrite ?Ho, ?Ht; try done. intros o x Hx. specialize (H2 o x Hx). lia.
Qed.

Lemma inv_modw w f : inv (modw w f).
Proof.
  intros s Hs. unfold modw. cbn. destruct (s_waits s !! w) as [x |]; [| by apply inv_fault].
  apply (inv_unseen (set_waits (<[w := f x]> (s_waits s)))); [| done].
  intros s'. do 2 (split; [done |]). split; [simpl; lia |]. intros Hb. exact Hb.
Qed.

Lemma inv_set_waits f : inv (mmodify (fun s => set_waits (f s) s)).
Proof. apply inv_unseen. intros s. do 2 (split; [done |]). split; [simpl; lia |]. intros Hb. exact Hb. Qed.
Lemma inv_set_wakeups f : inv (mmodify (fun s => set_wakeups (f s) s)).
Proof. apply inv_unseen. intros s. do 2 (split; [done |]). split; [simpl; lia |]. intros Hb. exact Hb. Qed.
Lemma inv_set_serror e : inv (set_serror e).
Proof. apply inv_unseen. intros s. do 2 (split; [done |]). split; [simpl; lia |]. intros Hb. exact Hb. Qed.
Lemma inv_set_next : inv (mmodify (fun s => set_next (s_next s + 1) s)).
Proof. apply inv_unseen. intros s. do 2 (split; [done |]). split; [simpl; lia |]. intros Hb. exact Hb. Qed.
Lemma inv_set_times c m : inv (mmodify (set_times c m)).
Proof. apply inv_unseen. intros s. do 2 (split; [done |]). split; [simpl; lia |]. intros Hb. exact Hb. Qed.

(** An object whose sync state gets a new value of the same owner. *)
Lemma set_sync_ok s o x y :
  sync_ok s -> s_objs s !! o = Some x -> obj_ok (o_sync y) -> owner_of (o_sync y) = owner_of (o_sync x) ->
  sync_ok (set_objs (<[o := y]> (s_objs s)) s).
Proof.
  intros [H1 H2 H3 H4 H5] Hx Hy Ho. constructor; cbn.
  - intros o' x'. destruct (decide (o = o')) as [<- |];
      [rewrite lookup_insert_eq; intros [= <-]; done | rewrite lookup_insert_ne by done; apply H1].
  - intros o' x'. destruct (decide (o = o')) as [<- |];
      [intros _; by apply (H2 o x) | rewrite lookup_insert_ne by done; apply H2].
  - done.
  - intros o' x'. destruct (decide (o = o')) as [<- |];
      [rewrite lookup_insert_eq; intros [= <-]; rewrite Ho; by apply (H4 o x)
      | rewrite lookup_insert_ne by done; apply H4].
  - intros t z m Hz. rewrite (H5 t z m Hz). destruct (decide (o = m)) as [<- |].
    + rewrite lookup_insert_eq. split; intros (y' & E & <-); simplify_eq; eauto.
    + by rewrite lookup_insert_ne.
Qed.

Lemma inv_modo o f : (forall x, o_sync (f x) = o_sync x) -> inv (modo o f).
Proof.
  intros Hf s Hs. unfold modo. cbn. destruct (s_objs s !! o) as [x |] eqn:Hx; [| by apply inv_fault].
  destruct Hs as [Hs | Hs]; [by left | right].
  apply (set_sync_ok s o x); [done | done | |]; rewrite Hf; [by apply (ok_objs s Hs o x) | done].
Qed.

Lemma inv_modt t f : (forall x, t_mutex_list (f x) = t_mutex_list x) -> inv (modt t f).
Proof.
  intros Hf s Hs. unfold modt. cbn. destruct (s_threads s !! t) as [x |] eqn:Hx; [| by apply inv_fault].
  destruct Hs as [Hs | [H1 H2 H3 H4 H5]]; [by left | right]. constructor; cbn; try done.
  - rewrite lookup_insert_ne; [done | intros ->; congruence].
  - intros o y Hy Ho. apply lookup_insert_is_Some'. right. exact (H4 o y Hy Ho).
  - intros t' z m. destruct (decide (t = t')) as [<- |].
    + rewrite lookup_insert_eq. intros [= <-]. rewrite Hf. by apply H5.
    + rewrite lookup_insert_ne by done. apply H5.
Qed.

Lemma inv_add_queue o e : inv (add_queue o e).
Proof. by apply inv_modo. Qed.
Lemma inv_remove_queue o e : inv (remove_queue o e).
Proof. by apply inv_modo. Qed.

#[export] Hint Resolve inv_mget inv_fault inv_sassert inv_geto inv_getw inv_gett inv_modw
  inv_set_waits inv_set_wakeups inv_set_serror inv_set_next inv_set_times inv_add_queue inv_remove_queue : c_db.
#[export] Hint Extern 1 (inv (modt _ _)) => apply inv_modt; reflexivity : c_db.

(** Take an [inv] goal apart along the program. *)
Ltac inv_step :=
  match goal with
  | |- inv (mbind' _ _) => apply inv_bind; [| intros ?]
  | |- inv (mreturn _) => apply inv_return
  | |- inv (mwhen _ _) => apply inv_mwhen
  | |- inv (mfor _ _) => apply inv_mfor; intros ?
  | |- inv _ => solve [eauto with c_db]
  | |- inv (match ?x with _ => _ end) => destruct x eqn:?
  | |- inv (let _ := _ in _) => cbv zeta
  end.
Ltac inv_auto := repeat inv_step.

(** A program that starts by reading an object: only sound states in which the object
    is there need be looked at. *)
Lemma inv_geto_bind {A} o (k : sync_object -> Sv A) :
  (forall x, keeps still_bad (k x)) ->
  (forall s x, sync_ok s -> s_objs s !! o = Some x -> good (k x s).2) -> inv (mbind' (geto o) k).
Proof.
  intros Hb Hk s Hs. run. destruct Hs as [Hs | Hs].
  - left. apply Hb. by apply bad_geto.
  - unfold geto. run. cbn. destruct (s_objs s !! o) as [x |] eqn:Hx; [by apply Hk |].
    left. apply Hb. apply bad_fault.
Qed.

Lemma modo_run o f s x :
  s_objs s !! o = Some x -> modo o f s = (tt, set_objs (<[o := f x]> (s_objs s)) s).
Proof. intros Hx. unfold modo, mmodify. by rewrite Hx. Qed.

Lemma geto_run o s x : s_objs s !! o = Some x -> geto o s = (x, s).
Proof. intros Hx. unfold geto. run. cbn. by rewrite Hx. Qed.

(** A failed assertion, whatever follows. *)
Lemma assert_fails {A} (k : unit -> Sv A) s :
  (forall u, keeps still_bad (k u)) -> good (mbind' (sassert false) k s).2.
Proof. intros Hk. left. run. apply Hk. apply bad_fault. Qed.

(** ** Taking and releasing a mutex *)

(** A free mutex becomes the thread's and enters its list. *)
Lemma take_ok s o x t y count ab :
  sync_ok s -> s_objs s !! o = Some x -> owner_of (o_sync x) = NULL ->
  s_threads s !! t = Some y -> 0 < count < 2 ^ 32 ->
  sync_ok (set_threads (<[t := set_t_mutex_list (o :: t_mutex_list y) y]> (s_threads s))
    (set_objs (<[o := set_o_sync (Mutex_sync t count ab) x]> (s_objs s)) s)).
Proof.
  intros [H1 H2 H3 H4 H5] Hx Hfree Hy Hc.
  assert (Ht : t <> NULL) by (intros ->; congruence).
  constructor; cbn.
  - intros o' x'. destruct (decide (o = o')) as [<- |]; [| rewrite lookup_insert_ne by done; apply H1].
    rewrite lookup_insert_eq. intros [= <-]. cbn. lia.
  - intros o' x'. destruct (decide (o = o')) as [<- |];
      [intros _; by apply (H2 o x) | rewrite lookup_insert_ne by done; apply H2].
  - by rewrite lookup_insert_ne.
  - intros o' x' Hx' Ho'. apply lookup_insert_is_Some'. revert Hx'.
    destruct (decide (o = o')) as [<- |].
    + rewrite lookup_insert_eq. intros [= <-]. by left.
    + rewrite lookup_insert_ne by done. intros Hx'. right. exact (H4 o' x' Hx' Ho').
  - intros t' z m Hz. destruct (decide (o = m)) as [<- |].
    + rewrite lookup_insert_eq. destruct (decide (t = t')) as [<- |].
      * rewrite lookup_insert_eq in Hz. simplify_eq. cbn. split; [eauto | by left].
      * rewrite lookup_insert_ne in Hz by done. rewrite (H5 t' z o Hz).
        split; intros (y' & E & Ey); simplify_eq; cbn in *; congruence.
    + rewrite (lookup_insert_ne (s_objs s)) by done. destruct (decide (t = t')) as [<- |].
      * rewrite lookup_insert_eq in Hz. simplify_eq. cbn. rewrite elem_of_cons, (H5 t y m Hy).
        split; [intros [-> |]; done | by right].
      * rewrite lookup_insert_ne in Hz by done. by apply H5.
Qed.

(** The owner gives the mutex up: it leaves the list. *)
Lemma give_ok s o x t y ab :
  sync_ok s -> s_objs s !! o = Some x -> owner_of (o_sync x) = t -> s_threads s !! t = Some y ->
  sync_ok (set_objs (<[o := set_o_sync (Mutex_sync NULL 0 ab) x]> (s_objs s))
    (set_threads (<[t := set_t_mutex_list (filter (fun m => m <> o) (t_mutex_list y)) y]> (s_threads s)) s)).
Proof.
  intros [H1 H2 H3 H4 H5] Hx Hown Hy. assert (Ht : t <> NULL) by (intros ->; congruence).
  constructor; cbn.
  - intros o' x'. destruct (decide (o = o')) as [<- |]; [| rewrite lookup_insert_ne by done; apply H1].
    rewrite lookup_insert_eq. intros [= <-]. by cbn.
  - intros o' x'. destruct (decide (o = o')) as [<- |];
      [intros _; by apply (H2 o x) | rewrite lookup_insert_ne by done; apply H2].
  - by rewrite lookup_insert_ne.
  - intros o' x' Hx' Ho'. apply lookup_insert_is_Some'. right. revert Hx'.
    destruct (decide (o = o')) as [<- |].
    + rewrite lookup_insert_eq. intros [= <-]. by cbn in Ho'.
    + rewrite lookup_insert_ne by done. intros Hx'. exact (H4 o' x' Hx' Ho').
  - intros t' z m Hz. destruct (decide (o = m)) as [<- |].
    + rewrite lookup_insert_eq. destruct (decide (t = t')) as [<- |].
      * rewrite lookup_insert_eq in Hz. simplify_eq. cbn. rewrite list_elem_of_filter.
        split; [by intros [] | intros (y' & E & Ey); simplify_eq; cbn in Ey; congruence].
      * rewrite lookup_insert_ne in Hz by done. rewrite (H5 t' z o Hz).
        split; intros (y' & E & Ey); simplify_eq; cbn in *; congruence.
    + rewrite (lookup_insert_ne (s_objs s)) by done. destruct (decide (t = t')) as [<- |].
      * rewrite lookup_insert_eq in Hz. simplify_eq. cbn. rewrite list_elem_of_filter, (H5 _ y m Hy).
        split; [by intros [] | done].
      * rewrite lookup_insert_ne in Hz by done. by apply H5.
Qed.

(** A passed assertion or an unmet condition leaves the state. *)
Lemma assert_passes s : sassert true s = (tt, s).
Proof. reflexivity. Qed.

Lemma bad_then {A} (k : Sv A) s : keeps still_bad k -> bad s -> good (k s).2.
Proof. intros Hk Hs. left. by apply Hk. Qed.

Lemma inv_do_grab m t : inv (do_grab m t).
Proof.
  unfold do_grab. apply inv_geto_bind; [intros x; keeps_auto |]. intros s x Hok Hx.
  pose proof (ok_objs s Hok m x Hx) as Hobj.
  destruct (o_sync x) as [| | owner count ab] eqn:Ex; [by apply inv_fault; right .. |].
  destruct Hobj as [Hr Hown].
  destruct ((count =? 0) || (owner =? t)) eqn:Ec; [| apply assert_fails; intros u; keeps_auto].
  rewrite bind_run, assert_passes. cbn [fst snd].
  destruct (Z.eqb_spec count 0xffffffff) as [E | E].
  { rewrite bind_run. apply bad_then; [keeps_auto | by right]. }
  rewrite bind_run. cbn [mwhen mreturn fst snd]. rewrite bind_run, (modo_run _ _ _ x Hx). cbn [fst snd].
  rewrite uwrap_small by lia. destruct (Z.eqb_spec count 0) as [-> | Hne].
  - assert (owner = NULL) as -> by tauto. rewrite bind_run, assert_passes. cbn [fst snd].
    rewrite bind_run. rewrite (modo_run _ _ _ (set_o_sync (Mutex_sync NULL (0 + 1) ab) x));
      [| apply lookup_insert_eq].
    cbn [fst snd]. unfold modt, mmodify. cbn. rewrite insert_insert_eq.
    destruct (s_threads s !! t) as [y |] eqn:Hy; [right | left; apply bad_fault].
    apply (take_ok s m x t y 1 ab); [done | done | by rewrite Ex | done | lia].
  - cbn in Ec. apply Z.eqb_eq in Ec as ->. right. cbn.
    apply (set_sync_ok s m x); [done | done | cbn; lia | by rewrite Ex].
Qed.
#[export] Hint Resolve inv_do_grab : c_db.

(** Give the object just read a new sync state of the same owner, then go on. *)
Lemma good_modo {A} o x v (k : unit -> Sv A) s :
  sync_ok s -> s_objs s !! o = Some x -> obj_ok v -> owner_of v = owner_of (o_sync x) ->
  (forall u, inv (k u)) -> good (mbind' (modo o (set_o_sync v)) k s).2.
Proof.
  intros Hok Hx Hv Ho Hk. run. rewrite (modo_run _ _ _ x Hx). apply Hk. right.
  by apply (set_sync_ok s o x).
Qed.

Lemma good_modo_last o x v s :
  sync_ok s -> s_objs s !! o = Some x -> obj_ok v -> owner_of v = owner_of (o_sync x) ->
  good (modo o (set_o_sync v) s).2.
Proof.
  intros Hok Hx Hv Ho. rewrite (modo_run _ _ _ x Hx). right. by apply (set_sync_ok s o x).
Qed.

(** The end of [mutex_sync_satisfied]: the abandoned mark is taken over and reset. *)
Lemma inv_clear_abandoned o w :
  inv (let! y := geto o in
       match o_sync y with
       | Mutex_sync owner count abandoned =>
           mwhen abandoned (modw w set_tw_abandoned) ;;;
           modo o (set_o_sync (Mutex_sync owner count false))
       | _ => fault
       end).
Proof.
  apply inv_geto_bind; [intros y; keeps_auto |]. intros s y Hok Hy.
  pose proof (ok_objs s Hok o y Hy) as Hobj.
  destruct (o_sync y) as [| | owner count ab] eqn:Ey; [by apply inv_fault; right .. |].
  rewrite bind_run. destruct ab; cbn [mwhen mreturn fst snd].
  - unfold modw at 1, mmodify. cbn [fst snd]. destruct (s_waits s !! w) as [z |].
    + apply (good_modo_last o y); cbn; [| done | done | by rewrite Ey].
      destruct Hok. by constructor.
    + apply bad_then; [apply bad_modo | apply bad_fault].
  - apply (good_modo_last o y); [done | done | done | by rewrite Ey].
Qed.

Lemma inv_sync_satisfied o w : inv (sync_satisfied o w).
Proof.
  unfold sync_satisfied, event_sync_satisfied, semaphore_sync_satisfied, mutex_sync_satisfied.
  apply inv_geto_bind; [intros x; keeps_auto |]. intros s x Hok Hx.
  pose proof (ok_objs s Hok o x Hx) as Hobj.
  destruct (o_sync x) as [manual sg | count max | owner count ab] eqn:Ex.
  - destruct manual; cbn [negb mwhen]; [by right |].
    apply (good_modo_last o x); [done | done | done | by rewrite Ex].
  - destruct (Z.eqb_spec count 0) as [E | E]; cbn [negb]; [apply assert_fails; intros u; keeps_auto |].
    rewrite bind_run, assert_passes. cbn [fst snd]. cbn in Hobj. rewrite uwrap_small by lia.
    apply (good_modo_last o x); [done | done | cbn; lia | by rewrite Ex].
  - apply inv_bind; [apply inv_getw | intros wait | by right].
    apply inv_bind; [apply inv_do_grab | intros _]. apply inv_clear_abandoned.
Qed.
#[export] Hint Resolve inv_sync_satisfied : c_db.

Lemma inv_end_wait t z : inv (end_wait t z).
Proof. unfold end_wait. inv_auto. Qed.
#[export] Hint Resolve inv_end_wait : c_db.

Lemma inv_first_signaled t l : forall i, inv (first_signaled t i l).
Proof. induction l as [| o l IH]; intros i; cbn [first_signaled]; inv_auto. Qed.
Lemma inv_all_signaled t l : inv (all_signaled t l).
Proof. induction l as [| o l IH]; cbn [all_signaled]; inv_auto. Qed.
#[export] Hint Resolve inv_first_signaled inv_all_signaled : c_db.

Lemma inv_check_wait t : inv (check_wait t).
Proof. unfold check_wait, check_wait_objects. inv_auto. Qed.
#[export] Hint Resolve inv_check_wait : c_db.

Lemma inv_send_thread_wakeup t c z : inv (send_thread_wakeup t c z).
Proof. unfold send_thread_wakeup. inv_auto. Qed.
#[export] Hint Resolve inv_send_thread_wakeup : c_db.

Lemma inv_wake_thread_loop fuel t : forall n, inv (wake_thread_loop fuel t n).
Proof. induction fuel as [| fuel IH]; intros n; cbn [wake_thread_loop]; inv_auto. Qed.
Lemma inv_wake_thread t : inv (wake_thread t).
Proof. unfold wake_thread. apply inv_bind; [apply inv_mget | intros s; apply inv_wake_thread_loop]. Qed.
#[export] Hint Resolve inv_wake_thread : c_db.

Lemma inv_wake_first q : inv (wake_first q).
Proof. induction q as [| e q IH]; cbn [wake_first]; inv_auto. Qed.
#[export] Hint Resolve inv_wake_first : c_db.

Lemma inv_wake_up_loop fuel o : forall max, inv (wake_up_loop fuel o max).
Proof. induction fuel as [| fuel IH]; intros max; cbn [wake_up_loop]; inv_auto. Qed.
Lemma inv_wake_up o max : inv (wake_up o max).
Proof. unfold wake_up. apply inv_bind; [apply inv_mget | intros s; apply inv_wake_up_loop]. Qed.
#[export] Hint Resolve inv_wake_up : c_db.

(** ** The operations *)

Lemma bad_first_signaled t l : forall i, keeps still_bad (first_signaled t i l).
Proof. induction l as [| o l IH]; intros i; cbn [first_signaled]; keeps_auto. Qed.
Lemma bad_all_signaled t l : keeps still_bad (all_signaled t l).
Proof. induction l as [| o l IH]; cbn [all_signaled]; keeps_auto. Qed.
#[export] Hint Resolve bad_first_signaled bad_all_signaled : c_db.
Lemma bad_check_wait t : keeps still_bad (check_wait t).
Proof. unfold check_wait, check_wait_objects. keeps_auto. Qed.
Lemma bad_send_thread_wakeup t c z : keeps still_bad (send_thread_wakeup t c z).
Proof. unfold send_thread_wakeup. keeps_auto. Qed.
#[export] Hint Resolve bad_check_wait bad_send_thread_wakeup : c_db.
Lemma bad_wake_thread_loop fuel t : forall n, keeps still_bad (wake_thread_loop fuel t n).
Proof. induction fuel as [| fuel IH]; intros n; cbn [wake_thread_loop]; keeps_auto. Qed.
#[export] Hint Resolve bad_wake_thread_loop : c_db.
Lemma bad_wake_thread t : keeps still_bad (wake_thread t).
Proof. unfold wake_thread. keeps_auto. Qed.
#[export] Hint Resolve bad_wake_thread : c_db.
Lemma bad_wake_first q : keeps still_bad (wake_first q).
Proof. induction q as [| e q IH]; cbn [wake_first]; keeps_auto. Qed.
#[export] Hint Resolve bad_wake_first : c_db.
Lemma bad_wake_up_loop fuel o : forall max, keeps still_bad (wake_up_loop fuel o max).
Proof. induction fuel as [| fuel IH]; intros max; cbn [wake_up_loop]; keeps_auto. Qed.
#[export] Hint Resolve bad_wake_up_loop : c_db.
Lemma bad_wake_up o max : keeps still_bad (wake_up o max).
Proof. unfold wake_up. keeps_auto. Qed.
#[export] Hint Resolve bad_wake_up : c_db.

Lemma bad_do_release m t c : keeps still_bad (do_release m t c).
Proof. unfold do_release. keeps_auto. Qed.
Lemma bad_abandon_loop fuel t : keeps still_bad (abandon_loop fuel t).
Proof.
  induction fuel as [| fuel IH]; cbn [abandon_loop]; keeps_auto. apply bad_do_release.
Qed.
#[export] Hint Resolve bad_do_release bad_abandon_loop : c_db.

(** A new object of a state that fits the invariant and has no owner. *)
Lemma inv_new_object x : obj_ok x -> owner_of x = NULL -> inv (new_object x).
Proof.
  intros Hx Hn s Hs. destruct Hs as [Hs | [H1 H2 H3 H4 H5]]; [by left | right].
  unfold new_object. run. cbn.
  assert (Hnew : s_objs s !! s_next s = None).
  { destruct (s_objs s !! s_next s) as [y |] eqn:E; [| done]. specialize (H2 _ y E). lia. }
  constructor; cbn.
  - intros o y. destruct (decide (s_next s = o)) as [<- |];
      [rewrite lookup_insert_eq; by intros [= <-] | rewrite lookup_insert_ne by done; apply H1].
  - intros o y. destruct (decide (s_next s = o)) as [<- |]; [lia |].
    rewrite lookup_insert_ne by done. intros Hy. specialize (H2 o y Hy). lia.
  - done.
  - intros o y. destruct (decide (s_next s = o)) as [<- |];
      [rewrite lookup_insert_eq; intros [= <-]; cbn; congruence
      | rewrite lookup_insert_ne by done; apply H4].
  - intros t z m Hz. rewrite (H5 t z m Hz). destruct (decide (s_next s = m)) as [<- |].
    + rewrite lookup_insert_eq. split; intros (y & E & Ey); simplify_eq; cbn in *; congruence.
    + by rewrite lookup_insert_ne.
Qed.

Lemma inv_event_sync_signal o z : inv (event_sync_signal o z).
Proof.
  unfold event_sync_signal. apply inv_geto_bind; [intros x; keeps_auto |]. intros s x Hok Hx.
  destruct (o_sync x) as [manual sg | |] eqn:Ex; [| by apply inv_fault; right ..].
  apply (good_modo o x); [done | done | done | by rewrite Ex | intros _; inv_auto].
Qed.
#[export] Hint Resolve inv_event_sync_signal : c_db.

Lemma inv_release_semaphore o count : 0 <= count < 2 ^ 32 -> inv (release_semaphore o count).
Proof.
  intros Hc. unfold release_semaphore. apply inv_geto_bind; [intros x; keeps_auto |]. intros s x Hok Hx.
  pose proof (ok_objs s Hok o x Hx) as Hobj.
  destruct (o_sync x) as [| cur max |] eqn:Ex;
    [apply inv_bind; [apply inv_fault | intros _; apply inv_return | by right] | |
     apply inv_bind; [apply inv_fault | intros _; apply inv_return | by right]].
  cbn in Hobj. destruct ((u32 (cur + count) <? cur) || (max <? u32 (cur + count))) eqn:El.
  { apply inv_bind; [apply inv_set_serror | intros _; apply inv_return | by right]. }
  apply orb_false_iff in El as [El1 El2]. apply Z.ltb_ge in El1, El2.
  destruct (Z.eqb_spec cur 0) as [-> | Hne]; cbn [negb].
  - rewrite uwrap_small in El2 by lia.
    apply (good_modo o x); [done | done | cbn; lia | by rewrite Ex | intros _; inv_auto].
  - apply (good_modo o x); [done | done | cbn; lia | by rewrite Ex | intros _; inv_auto].
Qed.

Lemma inv_do_release m t c : inv (do_release m t c).
Proof.
  unfold do_release. apply inv_geto_bind; [intros x; keeps_auto |]. intros s x Hok Hx.
  pose proof (ok_objs s Hok m x Hx) as Hobj.
  destruct (o_sync x) as [| | owner cur ab] eqn:Ex;
    [apply inv_bind; [apply inv_fault | intros _; apply inv_return | by right] .. |].
  destruct Hobj as [Hr Hown].
  destruct (Z.eqb_spec cur 0) as [-> | Hne]; cbn [orb].
  { apply inv_bind; [apply inv_set_serror | intros _; apply inv_return | by right]. }
  destruct (Z.eqb_spec owner t) as [-> | Hnt]; cbn [negb];
    [| apply inv_bind; [apply inv_set_serror | intros _; apply inv_return | by right]].
  destruct (Z.eqb_spec (u32 (cur - c)) 0) as [E | E].
  - rewrite E. run. rewrite (modo_run _ _ _ x Hx). cbn [fst snd].
    destruct (ok_owner s Hok m x Hx) as [y Hy]; [rewrite Ex; cbn; tauto |]. rewrite Ex in Hy. cbn in Hy.
    unfold modt at 1, mmodify. cbn [s_threads set_objs fst snd]. rewrite Hy. cbn [fst snd].
    rewrite (modo_run _ _ _ (set_o_sync (Mutex_sync t 0 ab) x)); [| apply lookup_insert_eq].
    cbn [fst snd set_threads set_objs s_objs s_threads]. apply inv_return, inv_wake_up. right.
    cbn. rewrite insert_insert_eq.
    apply (give_ok s m x t y ab); [done | done | by rewrite Ex | done].
  - apply (good_modo m x); [done | done | | by rewrite Ex | intros _; inv_auto].
    cbn. pose proof (uwrap_range 32 (cur - c) ltac:(lia)). lia.
Qed.
#[export] Hint Resolve inv_do_release : c_db.

Lemma inv_abandon_loop fuel t : inv (abandon_loop fuel t).
Proof.
  induction fuel as [| fuel IH]; cbn [abandon_loop]; (apply inv_bind; [apply inv_gett | intros y]);
    (destruct (t_mutex_list y) as [| m l]; [apply inv_return |]); [apply inv_fault |].
  apply inv_geto_bind; [intros x; keeps_auto |]. intros s x Hok Hx.
  pose proof (ok_objs s Hok m x Hx) as Hobj.
  destruct (o_sync x) as [| | owner cur ab] eqn:Ex; [by apply inv_fault; right .. |].
  destruct (owner =? t); [| apply assert_fails; intros u; keeps_auto].
  rewrite bind_run, assert_passes. cbn [fst snd].
  apply (good_modo m x); [done | done | done | by rewrite Ex | intros _; inv_auto].
Qed.
#[export] Hint Resolve inv_abandon_loop : c_db.

Lemma inv_abandon_mutexes t : inv (abandon_mutexes t).
Proof. unfold abandon_mutexes. inv_auto. Qed.

Lemma inv_release_one o : inv (release_semaphore o 1).
Proof. apply inv_release_semaphore. lia. Qed.
#[export] Hint Resolve inv_release_one : c_db.

Lemma inv_signal_object cur obj : inv (signal_object cur obj).
Proof. unfold signal_object, event_signal, semaphore_signal, mutex_signal. inv_auto. Qed.

Lemma inv_wait_on cur op objs flags when : inv (wait_on cur op objs flags when).
Proof. unfold wait_on. inv_auto. Qed.
#[export] Hint Resolve inv_signal_object inv_wait_on : c_db.

Lemma inv_select_on cur op cookie flags when : inv (select_on cur op cookie flags when).
Proof. unfold select_on, select_prepare, wait_on_handles. inv_auto. Qed.

Lemma inv_thread_timeout w : inv (thread_timeout w).
Proof. unfold thread_timeout. inv_auto. Qed.

Lemma inv_suspend_thread t : inv (suspend_thread t).
Proof. unfold suspend_thread. inv_auto. Qed.

Lemma inv_resume_thread t : inv (resume_thread t).
Proof. unfold resume_thread. inv_auto. Qed.

Lemma inv_req_event_op o op : inv (req_event_op o op).
Proof. unfold req_event_op, set_event, reset_event. inv_auto. Qed.

Lemma inv_req_create_semaphore initial max :
  0 <= initial -> max < 2 ^ 32 -> inv (req_create_semaphore initial max).
Proof.
  intros Hi Hm. unfold req_create_semaphore, create_semaphore_sync.
  destruct (Z.eqb_spec max 0), (Z.ltb_spec max initial); cbn [orb]; inv_auto.
  apply inv_new_object; [cbn; lia | done].
Qed.

Lemma inv_create_mutex_sync cur owned : inv (create_mutex_sync cur owned).
Proof. unfold create_mutex_sync. inv_auto. by apply inv_new_object. Qed.

Lemma inv_req_release_semaphore o count : 0 <= count < 2 ^ 32 -> inv (req_release_semaphore o count).
Proof.
  intros Hc. unfold req_release_semaphore. destruct o; [| apply inv_return].
  apply inv_bind; [by apply inv_release_semaphore | intros r; apply inv_return].
Qed.

Lemma inv_req_release_mutex cur o : inv (req_release_mutex cur o).
Proof. unfold req_release_mutex. inv_auto. Qed.

Lemma inv_queries cur o :
  inv (req_query_event o) /\ inv (req_query_semaphore o) /\ inv (req_query_mutex cur o).
Proof. unfold req_query_event, req_query_semaphore, req_query_mutex. repeat split; inv_auto. Qed.

(** ** The server as a step relation *)

(** The requests of threads, the passing of time, and the end of a thread.  Counts
    in requests are 32-bit. *)
Inductive sync_step : srv -> srv -> Prop :=
| st_time c m s : sync_step s (set_times c m s)
| st_create_event manual signaled s : sync_step s (create_event_sync manual signaled s).2
| st_create_semaphore initial max s :
    0 <= initial < 2 ^ 32 -> 0 <= max < 2 ^ 32 -> sync_step s (req_create_semaphore initial max s).2
| st_create_mutex cur owned s : sync_step s (create_mutex_sync cur owned s).2
| st_event_op o op s : sync_step s (req_event_op o op s).2
| st_release_semaphore o count s :
    0 <= count < 2 ^ 32 -> sync_step s (req_release_semaphore o count s).2
| st_release_mutex cur o s : sync_step s (req_release_mutex cur o s).2
| st_query_event o s : sync_step s (req_query_event o s).2
| st_query_semaphore o s : sync_step s (req_query_semaphore o s).2
| st_query_mutex cur o s : sync_step s (req_query_mutex cur o s).2
| st_select cur op cookie flags when s : sync_step s (select_on cur op cookie flags when s).2
| st_timeout w s : sync_step s (thread_timeout w s).2
| st_suspend t s : sync_step s (suspend_thread t s).2
| st_resume t s : sync_step s (resume_thread t s).2
| st_exit t s : sync_step s (abandon_mutexes t s).2.

Lemma step_good s s' : sync_step s s' -> good s -> good s'.
Proof.
  destruct 1.
  - apply (inv_set_times c m).
  - by apply inv_new_object.
  - apply inv_req_create_semaphore; lia.
  - apply inv_create_mutex_sync.
  - apply inv_req_event_op.
  - by apply inv_req_release_semaphore.
  - apply inv_req_release_mutex.
  - apply (inv_queries NULL o).
  - apply (inv_queries NULL o).
  - apply (inv_queries cur o).
  - apply inv_select_on.
  - apply inv_thread_timeout.
  - apply inv_suspend_thread.
  - apply inv_resume_thread.
  - apply inv_abandon_mutexes.
Qed.

(** A server with threads and no objects yet. *)
Definition sync_start (s : srv) : Prop :=
  s_objs s = ∅ /\ s_threads s !! NULL = None /\
  forall t x, s_threads s !! t = Some x -> t_mutex_list x = [].

Lemma start_ok s : sync_start s -> sync_ok s.
Proof.
  intros (Ho & Hn & Hm). constructor; rewrite ?Ho; try done.
  intros t x m Hx. rewrite (Hm t x Hx).
  split; [intros Hin; by apply elem_of_nil in Hin | intros (y & E & _); done].
Qed.

Lemma reach_good s s' : rtc sync_step s s' -> good s -> good s'.
Proof. induction 1 as [| s1 s2 s3 Hst _ IH]; [done |]. intros Hg. apply IH. by apply (step_good s1). Qed.

(** ** Properties *)

(** Two threads, and the address 100 for the first object. *)
Definition idle : thread := mkThread NULL [] 7 0 false None 0 0 0.
Definition two_threads : srv :=
  mkSrv ∅ (<[1 := idle]> (<[2 := idle]> ∅)) ∅ ∅ 100 1000 0 0 false false [].

Lemma two_threads_start : sync_start two_threads.
Proof.
  split; [done |]. split; [done |]. intros t x.
  change (s_threads two_threads) with (<[1 := idle]> (<[2 := idle]> ∅ : gmap Z thread)).
  destruct (decide (t = 1)) as [-> |]; [rewrite lookup_insert_eq; by intros [= <-] |].
  rewrite lookup_insert_ne by done.
  destruct (decide (t = 2)) as [-> |]; [rewrite lookup_insert_eq; by intros [= <-] |].
  by rewrite lookup_insert_ne.
Qed.

(** C18: in every state the server reaches without a failed assertion and without a
    wrapped recursion count, each semaphore's count is between 0 and its maximum, each
    mutex has an owner exactly when its recursion count is not zero, that owner is a
    thread, and a mutex is in the list of at most one thread, its owner. *)
Theorem sync_objects_invariant s s' :
  sync_start s -> rtc sync_step s s' -> s_fault s' = false -> s_wrapped s' = false ->
  sync_ok s' /\
  forall t1 t2 x1 x2 m, s_threads s' !! t1 = Some x1 -> s_threads s' !! t2 = Some x2 ->
    m ∈ t_mutex_list x1 -> m ∈ t_mutex_list x2 -> t1 = t2.
Proof.
  intros Hs Hr Hf Hw. apply reach_good in Hr; [| right; by apply start_ok].
  destruct Hr as [[|] | Hok]; [congruence .. |]. split; [done |].
  intros t1 t2 x1 x2 m H1 H2 Hm1 Hm2.
  apply (ok_lists s' Hok t1 x1 m H1) in Hm1 as (y1 & E1 & <-).
  apply (ok_lists s' Hok t2 x2 m H2) in Hm2 as (y2 & E2 & <-). congruence.
Qed.

Lemma sync_objects_invariant_witness :
  let s := (create_mutex_sync 1 true two_threads).2 in
  let s' := (select_on 2 (Op_wait [Some 100]) 22 0 TIMEOUT_INFINITE s).2 in
  let s'' := (req_release_mutex 1 (Some 100) s').2 in
  sync_ok s'' /\ o_sync <$> s_objs s'' !! 100 = Some (Mutex_sync 2 1 false).
Proof.
  intros s s' s''. split; [| reflexivity].
  apply (sync_objects_invariant two_threads); [exact two_threads_start | | reflexivity | reflexivity].
  eapply rtc_l; [apply (st_create_mutex 1 true) |].
  eapply rtc_l; [apply (st_select 2 (Op_wait [Some 100]) 22 0 TIMEOUT_INFINITE) |].
  eapply rtc_l; [apply (st_release_mutex 1 (Some 100)) | apply rtc_refl].
Defined.

(** A refused release changes nothing but the error: a mutex released by a
    thread that does not own it, and a semaphore released beyond its maximum, also
    when the sum wraps around 32 bits. *)
Theorem refused_release_changes_nothing s o x count :
  sync_ok s -> s_objs s !! o = Some x -> 0 <= count < 2 ^ 32 ->
  match o_sync x with
  | Mutex_sync owner cur _ => forall t, cur = 0 \/ owner <> t ->
      do_release o t count s = (false, set_err STATUS_MUTANT_NOT_OWNED s)
  | Semaphore_sync cur max => max < cur + count ->
      release_semaphore o count s = ((false, cur), set_err STATUS_SEMAPHORE_LIMIT_EXCEEDED s)
  | Event_sync _ _ => True
  end.
Proof.
  intros Hok Hx Hc. pose proof (ok_objs s Hok o x Hx) as Hobj.
  destruct (o_sync x) as [| cur max | owner cur ab] eqn:Ex; [done | |].
  - intros Hmax. cbn in Hobj. unfold release_semaphore. run. rewrite (geto_run _ _ _ Hx). cbn [fst snd].
    rewrite Ex. assert ((u32 (cur + count) <? cur) || (max <? u32 (cur + count)) = true) as ->; [| done].
    apply orb_true_iff. rewrite !Z.ltb_lt. unfold uwrap.
    destruct (Z.lt_ge_cases (cur + count) (2 ^ 32)).
    + right. rewrite Z.mod_small; lia.
    + left. rewrite <- (Z.mod_add _ (-1)) by lia. rewrite Z.mod_small; lia.
  - intros t Ht. unfold do_release. run. rewrite (geto_run _ _ _ Hx). cbn [fst snd]. rewrite Ex.
    assert ((cur =? 0) || negb (owner =? t) = true) as ->; [| done].
    apply orb_true_iff. rewrite Z.eqb_eq, negb_true_iff, Z.eqb_neq. done.
Qed.

Lemma refused_release_changes_nothing_witness :
  let s := (create_mutex_sync 1 true two_threads).2 in
  do_release 100 2 1 s = (false, set_err STATUS_MUTANT_NOT_OWNED s).
Proof.
  intros s.
  assert (Hok : sync_ok s).
  { destruct (inv_create_mutex_sync 1 true two_threads) as [[|] | H];
      [right; apply start_ok, two_threads_start | done | done | exact H]. }
  refine (refused_release_changes_nothing s 100 (mkSyncObject (Mutex_sync 1 1 false) []) 1 Hok
            eq_refl ltac:(lia) 2 ltac:(right; lia)).
Defined.

(** A release of a semaphore whose count is not zero wakes nobody. *)
Lemma release_above_zero s o x cur max count :
  s_objs s !! o = Some x -> o_sync x = Semaphore_sync cur max -> cur <> 0 ->
  s_wakeups (req_release_semaphore (Some o) count s).2 = s_wakeups s.
Proof.
  intros Hx Ex Hne. unfold req_release_semaphore, release_semaphore. run.
  rewrite (geto_run _ _ _ Hx). cbn [fst snd]. rewrite Ex.
  destruct ((u32 (cur + count) <? cur) || (max <? u32 (cur + count))); [done |].
  destruct (Z.eqb_spec cur 0); [done |]. cbn [negb]. run. by rewrite (modo_run _ _ _ _ Hx).
Qed.

(** Thread 1 waits for a semaphore and an event, thread 2 for the semaphore; time
    passes, then the semaphore is released. *)
Definition lost_wakeup : srv :=
  let s := (create_event_sync true false (req_create_semaphore 0 10 two_threads).2).2 in
  let s := (select_on 1 (Op_wait_all [Some 100; Some 101]) 11 0 1500 s).2 in
  let s := (select_on 2 (Op_wait [Some 100]) 22 0 TIMEOUT_INFINITE s).2 in
  (req_release_semaphore (Some 100) 1 (set_times 2000 0 s)).2.

(** C34: a wake-up can be lost.  Thread 1 waits for a semaphore and an event together,
    thread 2 for the semaphore alone; the time of thread 1 has run out but its timeout
    has not been handled yet when the semaphore is released.  [wake_up] counts the
    timeout of thread 1 as its one wake-up: thread 2 sleeps on although its wait is
    satisfied, and no later release wakes it, since a count that is not zero is taken
    to mean that nobody waits. *)
Theorem semaphore_wakeup_is_lost :
  rtc sync_step two_threads lost_wakeup /\ s_fault lost_wakeup = false /\
  s_wakeups lost_wakeup = [(1, 11, STATUS_TIMEOUT)] /\
  (check_wait 2 lost_wakeup).1 = STATUS_WAIT_0 /\
  forall count, s_wakeups (req_release_semaphore (Some 100) count lost_wakeup).2 = s_wakeups lost_wakeup.
Proof.
  split; [| split; [reflexivity | split; [reflexivity | split; [reflexivity |]]]].
  - unfold lost_wakeup. cbv zeta. eapply rtc_l; [apply (st_create_semaphore 0 10); lia |].
    eapply rtc_l; [apply (st_create_event true false) |].
    eapply rtc_l; [apply (st_select 1 (Op_wait_all [Some 100; Some 101]) 11 0 1500) |].
    eapply rtc_l; [apply (st_select 2 (Op_wait [Some 100]) 22 0 TIMEOUT_INFINITE) |].
    eapply rtc_l; [apply (st_time 2000 0) |].
    eapply rtc_l; [apply (st_release_semaphore (Some 100) 1); lia | apply rtc_refl].
  - intros count.
    apply (release_above_zero lost_wakeup 100 (mkSyncObject (Semaphore_sync 1 10) [mkEntry 103 0]) 1 10);
      [vm_compute; reflexivity | reflexivity | lia].
Qed.

(** One request of a client can fail an assertion of the server: a wait for all
    of two handles to the same semaphore whose count is 1 finds both signalled, and the
    second [semaphore_sync_satisfied] meets a count of zero. *)
Theorem wait_all_twice_fails_assertion :
  let s := (req_create_semaphore 1 10 two_threads).2 in
  sync_ok s /\ s_fault s = false /\
  s_fault (select_on 1 (Op_wait_all [Some 100; Some 100]) 11 0 TIMEOUT_INFINITE s).2 = true.
Proof.
  intros s. split; [| split; reflexivity].
  destruct (inv_req_create_semaphore 1 10 ltac:(lia) ltac:(lia) two_threads) as [[|] | H];
    [right; apply start_ok, two_threads_start | done | done | exact H].
Qed.
