(* ===== verification/NtdllSort.v ===== *)
(** * ntdll: sorting and searching

    The quicksort behind [qsort] and [qsort_s], and [bsearch], of
    [dlls/ntdll/misc.c].  The array is a list of elements; an element is moved as a
    whole where the code moves it byte by byte.  [None] is an access outside the
    array, a [size_t] that would go below zero, a push on the full stack of
    segments, or a loop that has used up its fuel: none of them happens
    ([NtdllSortProofs]). *)

From stdpp Require Import base list option.
From Stdlib Require Import ZArith.
From S2P Require Import Prelude.

Open Scope nat_scope.

(** [a - b] on [size_t], where the result is meant not to wrap. *)
Definition psub (a b : nat) : option nat := if b <=? a then Some (a - b) else None.

Section Sort.
Context {A : Type} (compar : A -> A -> Z).

Definition swap (l : list A) (i j : nat) : option (list A) :=
  x ← l !! i; y ← l !! j; Some (<[j := x]> (<[i := y]> l)).

(** [compar(context, X(i), X(j))] *)
Definition cmp (l : list A) (i j : nat) : option Z :=
  x ← l !! i; y ← l !! j; Some (compar x y).

(** The loop on [i] of [small_sort]: [n] iterations are left. *)
Fixpoint small_max (l : list A) (base i n max : nat) : option nat :=
  match n with
  | O => Some max
  | S n' =>
    c ← cmp l (base + i) max;
    small_max l base (S i) n' (if (0 <? c)%Z then base + i else max)
  end.

(** The loop on [e]. *)
Fixpoint small_sort (l : list A) (base e : nat) : option (list A) :=
  match e with
  | O => Some l
  | S e' =>
    if 1 <? e then
      max ← small_max l base 1 e' base;
      let p := base + e' in
      l' ← (if p =? max then Some l else swap l p max);
      small_sort l' base e'
    else Some l
  end.

(** [while(lo <= hi)] *)
Fixpoint scan_lo (fuel : nat) (l : list A) (lo hi med : nat) : option nat :=
  match fuel with
  | O => None
  | S fuel' =>
    if lo <=? hi then
      stop ← (if lo =? med then Some false else c ← cmp l lo med; Some (0 <? c)%Z);
      if stop : bool then Some lo else scan_lo fuel' l (S lo) hi med
    else Some lo
  end.

(** [while(med != hi)] *)
Fixpoint scan_hi (fuel : nat) (l : list A) (hi med : nat) : option nat :=
  match fuel with
  | O => None
  | S fuel' =>
    if med =? hi then Some hi else
    c ← cmp l hi med;
    if (c <=? 0)%Z then Some hi else
    hi' ← psub hi 1;
    scan_hi fuel' l hi' med
  end.

(** [while(1)]: the result is the array, [lo], [hi] and [med] after the loop. *)
Fixpoint partition (fuel : nat) (l : list A) (lo hi med : nat) :
    option (list A * nat * nat * nat) :=
  match fuel with
  | O => None
  | S fuel' =>
    lo1 ← scan_lo (S (S (length l))) l lo hi med;
    hi1 ← scan_hi (S (length l)) l hi med;
    if hi1 <? lo1 then Some (l, lo1, hi1, med) else
    l' ← swap l lo1 hi1;
    let med' := if hi1 =? med then lo1 else med in
    hi2 ← psub hi1 1;
    partition fuel' l' (S lo1) hi2 med'
  end.

(** [while(hi > beg)] *)
Fixpoint skip_equal (fuel : nat) (l : list A) (hi beg med : nat) : option nat :=
  match fuel with
  | O => None
  | S fuel' =>
    if beg <? hi then
      stop ← (if hi =? med then Some false else c ← cmp l hi med; Some (negb (c =? 0)%Z));
      if stop : bool then Some hi else
      hi' ← psub hi 1;
      skip_equal fuel' l hi' beg med
    else Some hi
  end.

(** [if(compar(context, X(i), X(j)) > 0) swap(X(i), X(j), size);] *)
Definition order_two (l : list A) (i j : nat) : option (list A) :=
  c ← cmp l i j; if (0 <? c)%Z then swap l i j else Some l.

(** The body of the loop for a segment of nine elements or more: the array and
    the bounds [hi] and [lo] of the two segments left. *)
Definition split_segment (l : list A) (beg end_ : nat) : option (list A * nat * nat) :=
  len ← psub end_ beg;
  let med := beg + (len + 1) / 2 in
  l1 ← order_two l beg med;
  l2 ← order_two l1 beg end_;
  l3 ← order_two l2 med end_;
  hi ← psub end_ 1;
  '(l4, lo1, hi1, med1) ← partition (S (length l)) l3 (S beg) hi med;
  hi2 ← skip_equal (S (length l)) l4 hi1 beg med1;
  Some (l4, hi2, lo1).

(** [stack_lo] and [stack_hi] have [8*sizeof(size_t)] entries; the top of the
    stack is the head of the list. *)
Definition STACK_SIZE : nat := 64.

Definition push (seg : nat * nat) (stack : list (nat * nat)) : option (list (nat * nat)) :=
  if length stack <? STACK_SIZE then Some (seg :: stack) else None.

(** [while(stack_pos >= 0)] *)
Fixpoint quick_loop (fuel : nat) (l : list A) (stack : list (nat * nat)) : option (list A) :=
  match stack with
  | [] => Some l
  | (beg, end_) :: stack =>
    match fuel with
    | O => None
    | S fuel' =>
      len ← psub end_ beg;
      if len <? 8 then
        l' ← small_sort l beg (len + 1);
        quick_loop fuel' l' stack
      else
        '(l', hi, lo) ← split_segment l beg end_;
        low ← psub hi beg;
        high ← psub end_ lo;
        if high <=? low then
          stack1 ← push (beg, hi) stack;
          stack2 ← push (lo, end_) stack1;
          quick_loop fuel' l' stack2
        else
          stack1 ← push (lo, end_) stack;
          stack2 ← push (beg, hi) stack1;
          quick_loop fuel' l' stack2
    end
  end.

Definition quick_sort (l : list A) (nmemb : nat) : option (list A) :=
  last ← psub nmemb 1;
  quick_loop (2 * nmemb) l [(0, last)].

(** The remaining guards of [qsort_s] are on null pointers and on the size of an
    element, which a list of elements does not have. *)
Definition qsort_s (l : list A) (nmemb : nat) : option (list A) :=
  if nmemb <? 2 then Some l else quick_sort l nmemb.
End Sort.

(** [qsort] passes the comparison through [compare_wrapper]. *)
Definition qsort {A} (compar : A -> A -> Z) (l : list A) (nmemb : nat) : option (list A) :=
  qsort_s compar l nmemb.

(** ** Binary search

    [min], [max] and [cursor] are [ssize_t]; the result is the index found. *)
Fixpoint bsearch_loop {A} (compare : A -> Z) (l : list A) (fuel : nat) (min max : Z) :
    option (option Z) :=
  match fuel with
  | O => None
  | S fuel' =>
    if (min <=? max)%Z then
      let cursor := (min + (max - min) / 2)%Z in
      x ← l !! Z.to_nat cursor;
      let ret := compare x in
      if (ret =? 0)%Z then Some (Some cursor)
      else if (ret <? 0)%Z then bsearch_loop compare l fuel' min (cursor - 1)
      else bsearch_loop compare l fuel' (cursor + 1) max
    else Some None
  end.

(** [compare] is the comparison with the key. *)
Definition bsearch {A} (compare : A -> Z) (l : list A) : option (option Z) :=
  bsearch_loop compare l (S (length l)) 0 (Z.of_nat (length l) - 1).
