(* ===== verification/NtdllSortProofs.v ===== *)
(** * ntdll sorting: correctness

    For any comparison function [qsort] ends, stays in the array, does not overflow
    its stack of segments and permutes the array; for a consistent one the result is
    sorted. *)

From stdpp Require Import base list option.
From Stdlib Require Import ZArith Lia.
From S2P Require Import Prelude NtdllSort.

Open Scope nat_scope.

(** ** Rearranging a segment

    [within lo hi l l']: [l'] is [l] with the elements of [[lo, hi)] permuted. *)

Definition seg_all {A} (P : A -> Prop) (l : list A) (lo hi : nat) : Prop :=
  forall i x, lo <= i < hi -> l !! i = Some x -> P x.

Record within {A} (lo hi : nat) (l l' : list A) : Prop := {
  within_perm : l ≡ₚ l';
  within_outside : forall i, ~ (lo <= i < hi) -> l' !! i = l !! i;
  within_all : forall P, seg_all P l lo hi -> seg_all P l' lo hi
}.

Section Within.
Context {A : Type}.
Implicit Types l : list A.

#[export] Instance within_refl lo hi : Reflexive (@within A lo hi).
Proof. intros l. by constructor. Qed.

#[export] Instance within_trans lo hi : Transitive (@within A lo hi).
Proof.
  intros l1 l2 l3 [P1 O1 S1] [P2 O2 S2]. constructor.
  - by etransitivity.
  - intros i Hi. by rewrite O2, O1.
  - auto.
Qed.

Lemma within_length lo hi l l' : within lo hi l l' -> length l' = length l.
Proof. intros [P _ _]. symmetry. by apply Permutation_length. Qed.

Lemma within_sub lo hi lo' hi' l l' : within lo hi l l' -> lo' <= lo -> hi <= hi' -> within lo' hi' l l'.
Proof.
  intros [P O S] H1 H2. constructor; [done | intros i Hi; apply O; lia |].
  intros Q HQ i x Hi Hx. destruct (decide (lo <= i < hi)) as [Hin | Hout].
  - apply (S Q) with i; [| done | done]. intros j y Hj. apply HQ. lia.
  - rewrite O in Hx by done. by apply (HQ i).
Qed.

Lemma swap_spec l i j lo hi :
  lo <= i < hi -> lo <= j < hi -> hi <= length l ->
  exists l', swap l i j = Some l' /\ within lo hi l l' /\
    l' !! i = l !! j /\ l' !! j = l !! i /\
    forall k, k <> i -> k <> j -> l' !! k = l !! k.
Proof.
  intros Hi Hj Hl. unfold swap.
  destruct (lookup_lt_is_Some_2 l i) as [x Hx]; [lia |].
  destruct (lookup_lt_is_Some_2 l j) as [y Hy]; [lia |].
  rewrite Hx, Hy. cbn [mbind option_bind]. eexists. split; [done |].
  assert (Ei : <[j := x]> (<[i := y]> l) !! i = Some y).
  { destruct (decide (i = j)) as [-> | Hne].
    - rewrite list_lookup_insert_eq by (rewrite length_insert; lia). congruence.
    - by rewrite list_lookup_insert_ne, list_lookup_insert_eq by (done || lia). }
  assert (Ej : <[j := x]> (<[i := y]> l) !! j = Some x).
  { by rewrite list_lookup_insert_eq by (rewrite length_insert; lia). }
  assert (Ek : forall k, k <> i -> k <> j -> <[j := x]> (<[i := y]> l) !! k = l !! k).
  { intros k Hki Hkj. by rewrite !list_lookup_insert_ne. }
  split; [| by rewrite Ei, Ej]. constructor.
  - symmetry. by apply Permutation_insert_swap.
  - intros k Hk. apply Ek; intros ->; tauto.
  - intros P HP k z Hk Hz. destruct (decide (k = i)) as [-> |]; [rewrite Ei in Hz; simplify_eq; by apply (HP j) |].
    destruct (decide (k = j)) as [-> |]; [rewrite Ej in Hz; simplify_eq; by apply (HP i) |].
    rewrite Ek in Hz by done. by apply (HP k).
Qed.
End Within.

Section Sorting.
Context {A : Type} (compar : A -> A -> Z).

(** A consistent comparison: the sign changes with the order of the arguments, and
    "not greater" is transitive. *)
Record comparison_ok : Prop := {
  cmp_flip : forall x y, (0 < compar x y)%Z <-> (compar y x < 0)%Z;
  cmp_trans : forall x y z, (compar x y <= 0)%Z -> (compar y z <= 0)%Z -> (compar x z <= 0)%Z
}.

Definition le (x y : A) : Prop := (compar x y <= 0)%Z.

Definition sorted_seg (l : list A) (lo hi : nat) : Prop :=
  forall i j x y, lo <= i -> i <= j -> j < hi -> l !! i = Some x -> l !! j = Some y -> le x y.

Section Order.
Hypothesis ok : comparison_ok.

Lemma le_refl x : le x x.
Proof using ok. unfold le. pose proof (cmp_flip ok x x). lia. Qed.

Lemma le_trans x y z : le x y -> le y z -> le x z.
Proof using ok. apply (cmp_trans ok). Qed.

Lemma gt_le x y : (0 < compar x y)%Z -> le y x.
Proof using ok. unfold le. pose proof (cmp_flip ok x y). lia. Qed.

Lemma eq_le x y : compar x y = 0%Z -> le y x.
Proof using ok. unfold le. pose proof (cmp_flip ok y x). lia. Qed.
End Order.

Lemma cmp_lt l i j :
  i < length l -> j < length l ->
  exists x y, l !! i = Some x /\ l !! j = Some y /\ cmp compar l i j = Some (compar x y).
Proof.
  intros Hi Hj. destruct (lookup_lt_is_Some_2 l i Hi) as [x Hx].
  destruct (lookup_lt_is_Some_2 l j Hj) as [y Hy]. exists x, y. unfold cmp. by rewrite Hx, Hy.
Qed.

Lemma psub_le a b : b <= a -> psub a b = Some (a - b).
Proof. intros H. unfold psub. by destruct (Nat.leb_spec b a); [| lia]. Qed.

(** ** Short segments: selection of the greatest element *)

Lemma small_max_spec l base n : forall i max,
  0 < i -> base <= max < base + i -> base + i + n <= length l ->
  exists m, small_max compar l base i n max = Some m /\ base <= m < base + i + n /\
    (comparison_ok -> forall y, l !! max = Some y -> seg_all (fun x => le x y) l base (base + i) ->
     forall z, l !! m = Some z -> seg_all (fun x => le x z) l base (base + i + n)).
Proof.
  induction n as [| n IH]; intros i max Hi Hm Hl.
  - exists max. split; [done |]. split; [lia |]. intros _ y Hy Hs z Hz. rewrite Hy in Hz.
    simplify_eq. by rewrite Nat.add_0_r.
  - cbn [small_max]. destruct (cmp_lt l (base + i) max) as (x & y & Hx & Hy & ->); [lia | lia |].
    cbn [mbind option_bind].
    destruct (IH (S i) (if (0 <? compar x y)%Z then base + i else max)) as (m & E & Hb & Hs);
      [lia | destruct (_ <? _)%Z; lia | lia |].
    exists m. split; [done |]. split; [lia |]. intros ok y' Hy' Hbefore z Hz.
    replace (base + i + S n) with (base + S i + n) by lia. rewrite Hy in Hy'. simplify_eq.
    destruct (Z.ltb_spec 0 (compar x y')) as [Hgt | Hle].
    + apply (Hs ok x Hx); [| done]. intros k w Hk Hw.
      destruct (decide (k = base + i)) as [-> |]; [simplify_eq; by apply le_refl |].
      apply (le_trans ok _ y'); [apply (Hbefore k); [lia | done] | by apply gt_le].
    + apply (Hs ok y' Hy); [| done]. intros k w Hk Hw.
      destruct (decide (k = base + i)) as [-> |]; [by simplify_eq | apply (Hbefore k); [lia | done]].
Qed.

(** Move the greatest element of [[base, base + e)] to its end. *)
Lemma small_step l base e :
  0 < e -> base + S e <= length l ->
  exists max l', small_max compar l base 1 e base = Some max /\
    (if base + e =? max then Some l else swap l (base + e) max) = Some l' /\
    within base (base + S e) l l' /\
    (comparison_ok -> forall z, l' !! (base + e) = Some z -> seg_all (fun x => le x z) l' base (base + S e)).
Proof.
  intros He Hl. destruct (small_max_spec l base e 1 base) as (max & E & Hm & Hs); [lia | lia | lia |].
  assert (Hmax : comparison_ok -> forall z, l !! max = Some z -> seg_all (fun x => le x z) l base (base + S e)).
  { intros ok z Hz. replace (base + S e) with (base + 1 + e) by lia.
    destruct (lookup_lt_is_Some_2 l base) as [y Hy]; [lia |]. apply (Hs ok y Hy); [| done].
    intros k x Hk Hx. replace k with base in Hx by lia. simplify_eq. by apply le_refl. }
  exists max. destruct (Nat.eqb_spec (base + e) max) as [<- | Hne].
  - exists l. split; [done |]. split; [done |]. split; [reflexivity | done].
  - destruct (swap_spec l (base + e) max base (base + S e)) as (l' & Es & W & E1 & E2 & _); [lia | lia | lia |].
    exists l'. split; [done |]. split; [done |]. split; [done |]. intros ok z Hz.
    apply (within_all _ _ _ _ W). rewrite E1 in Hz. by apply Hmax.
Qed.

Lemma sorted_seg_snoc l lo e z :
  sorted_seg l lo (lo + e) -> l !! (lo + e) = Some z -> seg_all (fun x => le x z) l lo (lo + S e) ->
  sorted_seg l lo (lo + S e).
Proof.
  intros Hs Hz Ha i j x y Hi Hij Hj Hx Hy. destruct (decide (j = lo + e)) as [-> |].
  - simplify_eq. apply (Ha i); [lia | done].
  - apply (Hs i j); done || lia.
Qed.

Lemma small_sort_spec e : forall l base,
  base + e <= length l ->
  exists l', small_sort compar l base e = Some l' /\ within base (base + e) l l' /\
    (comparison_ok -> sorted_seg l' base (base + e)).
Proof.
  induction e as [| e IH]; intros l base Hl.
  - exists l. split; [done |]. split; [reflexivity |]. intros _ i j x y Hi Hij Hj. lia.
  - cbn [small_sort]. destruct (Nat.ltb_spec 1 (S e)) as [H1 | H1].
    + destruct (small_step l base e) as (max & l1 & -> & E & W & Hmax); [lia | lia |].
      cbn [mbind option_bind]. cbv zeta. rewrite E. cbn [mbind option_bind].
      pose proof (within_length _ _ _ _ W) as HL.
      destruct (IH l1 base) as (l' & -> & W' & Hs); [lia |]. exists l'. split; [done |].
      split; [etransitivity; [done | eapply within_sub; [done | lia | lia]] |].
      intros ok. destruct (lookup_lt_is_Some_2 l1 (base + e)) as [z Hz]; [lia |].
      apply (sorted_seg_snoc _ _ _ z); [by apply Hs | rewrite (within_outside _ _ _ _ W') by lia; done |].
      apply (within_all base (base + S e) l1); [eapply within_sub; [done | lia | lia] | by apply Hmax].
    + exists l. split; [done |]. split; [reflexivity |]. intros ok i j x y Hi Hij Hj Hx Hy.
      replace j with i in Hy by lia. simplify_eq. by apply le_refl.
Qed.

(** ** Partition

    [m] is the pivot, at [med]. *)

Lemma scan_lo_spec l hi med m : forall fuel lo,
  l !! med = Some m -> hi < length l -> S hi - lo < fuel -> lo <= S hi ->
  exists lo1, scan_lo compar fuel l lo hi med = Some lo1 /\ lo <= lo1 <= S hi /\
    (lo1 <= hi -> lo1 <> med /\ exists x, l !! lo1 = Some x /\ (0 < compar x m)%Z) /\
    (comparison_ok -> seg_all (fun x => le x m) l lo lo1).
Proof.
  induction fuel as [| fuel IH]; intros lo Hm Hh Hf Hlo; [lia |]. cbn [scan_lo].
  assert (Hempty : comparison_ok -> seg_all (fun x => le x m) l lo lo).
  { intros _ i x Hi. lia. }
  destruct (Nat.leb_spec lo hi) as [Hle | Hgt].
  - assert (Hgo : forall x, l !! lo = Some x -> (comparison_ok -> le x m) ->
      exists lo1, scan_lo compar fuel l (S lo) hi med = Some lo1 /\ lo <= lo1 <= S hi /\
        (lo1 <= hi -> lo1 <> med /\ exists x, l !! lo1 = Some x /\ (0 < compar x m)%Z) /\
        (comparison_ok -> seg_all (fun x => le x m) l lo lo1)).
    { intros x Hx Hle'. destruct (IH (S lo)) as (lo1 & E & Hb & Hst & Hs); [done | done | lia | lia |].
      exists lo1. split; [done |]. split; [lia |]. split; [done |]. intros ok i y Hi Hy.
      destruct (decide (i = lo)) as [-> |]; [simplify_eq; auto | apply (Hs ok i); [lia | done]]. }
    destruct (Nat.eqb_spec lo med) as [-> | Hne]; cbn [mbind option_bind].
    + apply (Hgo m Hm). intros ok. by apply le_refl.
    + destruct (cmp_lt l lo med) as (x & y & Hx & Hy & ->);
        [lia | apply lookup_lt_is_Some_1; eauto |].
      cbn [mbind option_bind]. rewrite Hm in Hy. simplify_eq.
      destruct (Z.ltb_spec 0 (compar x y)) as [Hgt | Hle'].
      * exists lo. split; [done |]. split; [lia |]. split; [eauto |]. auto.
      * apply (Hgo x Hx). auto.
  - exists lo. split; [done |]. split; [lia |]. split; [lia |]. auto.
Qed.

Lemma scan_hi_spec l med m : forall fuel hi,
  l !! med = Some m -> med <= hi -> hi < length l -> hi - med < fuel ->
  exists hi1, scan_hi compar fuel l hi med = Some hi1 /\ med <= hi1 <= hi /\
    (hi1 <> med -> exists x, l !! hi1 = Some x /\ (compar x m <= 0)%Z) /\
    (comparison_ok -> seg_all (fun x => le m x) l (S hi1) (S hi)).
Proof.
  induction fuel as [| fuel IH]; intros hi Hm Hlo Hh Hf; [lia |]. cbn [scan_hi].
  assert (Hempty : comparison_ok -> seg_all (fun x => le m x) l (S hi) (S hi)).
  { intros _ i x Hi. lia. }
  destruct (Nat.eqb_spec med hi) as [-> | Hne].
  - exists hi. split; [done |]. split; [lia |]. split; [done |]. auto.
  - destruct (cmp_lt l hi med) as (x & y & Hx & Hy & ->); [lia | lia |].
    cbn [mbind option_bind]. rewrite Hm in Hy. simplify_eq.
    destruct (Z.leb_spec (compar x y) 0) as [Hle | Hgt].
    + exists hi. split; [done |]. split; [lia |]. split; [eauto |]. auto.
    + rewrite psub_le by lia. cbn [mbind option_bind].
      destruct (IH (hi - 1)) as (hi1 & -> & Hb & Hst & Hs); [done | lia | lia | lia |].
      exists hi1. split; [done |]. split; [lia |]. split; [done |]. intros ok i z Hi Hz.
      destruct (decide (i = hi)) as [-> |]; [simplify_eq; by apply gt_le | apply (Hs ok i); [lia | done]].
Qed.

(** The elements before [lo] are not above the pivot, those after [hi] not below. *)
Definition split_at (l : list A) (beg end_ lo hi : nat) (m : A) : Prop :=
  seg_all (fun x => le x m) l beg lo /\ seg_all (fun x => le m x) l (S hi) (S end_).

Lemma seg_all_join P l lo mid hi :
  seg_all P l lo mid -> seg_all P l mid hi -> seg_all P (A := A) l lo hi.
Proof.
  intros H1 H2 i x Hi Hx. destruct (Nat.lt_ge_cases i mid); [apply (H1 i) | apply (H2 i)]; done || lia.
Qed.

(** One exchange of the partition loop. *)
Lemma exchange l beg end_ lo hi med m :
  beg <= lo -> lo < hi -> hi <= end_ -> end_ < length l ->
  l !! med = Some m -> lo <> med ->
  exists l', swap l lo hi = Some l' /\ within beg (S end_) l l' /\
    l' !! (if hi =? med then lo else med) = Some m /\
    (comparison_ok -> split_at l beg end_ lo hi m ->
     (exists x, l !! lo = Some x /\ (0 < compar x m)%Z) ->
     (hi <> med -> exists x, l !! hi = Some x /\ (compar x m <= 0)%Z) ->
     split_at l' beg end_ (S lo) (hi - 1) m).
Proof.
  intros Hb Hlt Hh He Hm Hne.
  destruct (swap_spec l lo hi beg (S end_)) as (l' & Es & W & E1 & E2 & E3); [lia | lia | lia |].
  exists l'. split; [done |]. split; [done |]. split.
  - destruct (Nat.eqb_spec hi med) as [<- |]; [by rewrite E1 | by rewrite E3 by done].
  - intros ok [Hlow Hhigh] (x & Hx & Hgt) Hle. split.
    + intros i z Hi Hz. destruct (decide (i = lo)) as [-> |].
      * rewrite E1 in Hz. destruct (decide (hi = med)) as [-> | Hhm].
        -- simplify_eq. by apply le_refl.
        -- destruct (Hle Hhm) as (w & Hw & ?). by simplify_eq.
      * rewrite E3 in Hz by lia. apply (Hlow i); [lia | done].
    + intros i z Hi Hz. destruct (decide (i = hi)) as [-> |].
      * rewrite E2 in Hz. simplify_eq. by apply gt_le.
      * rewrite E3 in Hz by lia. apply (Hhigh i); [lia | done].
Qed.

Lemma partition_spec beg end_ m : forall fuel l lo hi med,
  beg <= med <= hi -> beg <= lo <= S hi -> hi < end_ -> end_ < length l -> l !! med = Some m ->
  S hi - lo < fuel ->
  exists l' lo' hi' med', partition compar fuel l lo hi med = Some (l', lo', hi', med') /\
    within beg (S end_) l l' /\ beg <= med' <= hi' /\ lo <= lo' /\ hi' < lo' <= end_ /\
    l' !! med' = Some m /\
    (comparison_ok -> split_at l beg end_ lo hi m -> split_at l' beg end_ lo' hi' m).
Proof.
  induction fuel as [| fuel IH]; intros l lo hi med Hmed Hlo Hhi He Hm Hf; [lia |].
  cbn [partition].
  destruct (scan_lo_spec l hi med m (S (S (length l))) lo) as (lo1 & -> & Hb1 & Hst1 & Hs1);
    [done | lia | lia | lia |].
  destruct (scan_hi_spec l med m (S (length l)) hi) as (hi1 & E2 & Hb2 & Hst2 & Hs2);
    [done | lia | lia | lia |].
  cbn [mbind option_bind]. rewrite E2. cbn [mbind option_bind].
  assert (Hsplit : comparison_ok -> split_at l beg end_ lo hi m -> split_at l beg end_ lo1 hi1 m).
  { intros ok [Hl Hh]. split; [by apply seg_all_join with lo; auto |].
    apply seg_all_join with (S hi); auto. }
  destruct (Nat.ltb_spec hi1 lo1) as [Hlt | Hge].
  - exists l, lo1, hi1, med. split; [done |]. split; [reflexivity |].
    repeat split; try (done || lia); by apply Hsplit.
  - destruct (Hst1 ltac:(lia)) as (Hne & x & Hx & Hgt).
    assert (Hlh : lo1 < hi1).
    { destruct (decide (lo1 = hi1)) as [-> |]; [| lia].
      destruct (Hst2 Hne) as (y & Hy & ?). simplify_eq. lia. }
    destruct (exchange l beg end_ lo1 hi1 med m) as (l1 & -> & W & Hm1 & Hs);
      [lia | lia | lia | lia | done | done |].
    cbn [mbind option_bind]. cbv zeta. rewrite psub_le by lia. cbn [mbind option_bind].
    pose proof (within_length _ _ _ _ W) as HL.
    destruct (IH l1 (S lo1) (hi1 - 1) (if hi1 =? med then lo1 else med))
      as (l' & lo' & hi' & med' & -> & W' & H1 & H2 & H3 & H4 & H5);
      [destruct (Nat.eqb_spec hi1 med); lia | lia | lia | lia | done | lia |].
    exists l', lo', hi', med'. split; [done |]. split; [by etransitivity |].
    split; [done |]. split; [lia |]. split; [done |]. split; [done |].
    intros ok Hsp. apply H5; [done |]. apply Hs; eauto.
Qed.

Lemma skip_equal_spec l beg med m : forall fuel hi,
  l !! med = Some m -> beg <= hi -> hi < length l -> hi - beg < fuel ->
  exists hi1, skip_equal compar fuel l hi beg med = Some hi1 /\ beg <= hi1 <= hi /\
    (comparison_ok -> seg_all (fun x => le m x) l (S hi1) (S hi)).
Proof.
  induction fuel as [| fuel IH]; intros hi Hm Hb Hh Hf; [lia |]. cbn [skip_equal].
  assert (Hempty : comparison_ok -> seg_all (fun x => le m x) l (S hi) (S hi)).
  { intros _ i x Hi. lia. }
  destruct (Nat.ltb_spec beg hi) as [Hlt | Hge]; [| exists hi; repeat split; auto; lia].
  assert (Hgo : forall x, l !! hi = Some x -> (comparison_ok -> le m x) ->
    exists hi1, (hi' ← psub hi 1; skip_equal compar fuel l hi' beg med) = Some hi1 /\
      beg <= hi1 <= hi /\ (comparison_ok -> seg_all (fun x => le m x) l (S hi1) (S hi))).
  { intros x Hx Hle. rewrite psub_le by lia. cbn [mbind option_bind].
    destruct (IH (hi - 1)) as (hi1 & -> & Hb1 & Hs); [done | lia | lia | lia |].
    exists hi1. split; [done |]. split; [lia |]. intros ok i z Hi Hz.
    destruct (decide (i = hi)) as [-> |]; [simplify_eq; auto | apply (Hs ok i); [lia | done]]. }
  destruct (Nat.eqb_spec hi med) as [-> | Hne]; cbn [mbind option_bind].
  - apply (Hgo m Hm). intros ok. by apply le_refl.
  - destruct (cmp_lt l hi med) as (x & y & Hx & Hy & ->);
      [lia | apply lookup_lt_is_Some_1; eauto |].
    cbn [mbind option_bind]. rewrite Hm in Hy. simplify_eq.
    destruct (Z.eqb_spec (compar x y) 0) as [E0 | E0]; cbn [negb].
    + apply (Hgo x Hx). intros ok. by apply eq_le.
    + exists hi. repeat split; auto; lia.
Qed.

(** ** One segment of nine elements or more *)

Lemma order_two_spec l i j x y lo hi :
  lo <= i < hi -> lo <= j < hi -> hi <= length l -> i <> j ->
  l !! i = Some x -> l !! j = Some y ->
  exists l' x' y', order_two compar l i j = Some l' /\ within lo hi l l' /\
    l' !! i = Some x' /\ l' !! j = Some y' /\
    (forall k, k <> i -> k <> j -> l' !! k = l !! k) /\
    (forall P : A -> Prop, P x -> P y -> P x' /\ P y') /\
    (comparison_ok -> le x' y' /\ le x' x).
Proof.
  intros Hi Hj Hl Hij Hx Hy. unfold order_two, cmp. rewrite Hx, Hy. cbn [mbind option_bind].
  destruct (Z.ltb_spec 0 (compar x y)) as [Hgt | Hle].
  - destruct (swap_spec l i j lo hi) as (l' & E & W & E1 & E2 & E3); [done | done | done |].
    exists l', y, x. rewrite E1, E2. do 6 (split; [done || by intros |]).
    intros ok. split; by apply gt_le.
  - exists l, x, y. split; [done |]. split; [reflexivity |]. do 4 (split; [done || by intros |]).
    intros ok. split; [done | by apply le_refl].
Qed.

(** The median of the first, middle and last element goes to the middle. *)
Lemma median_spec l beg med end_ :
  beg < med -> med < end_ -> end_ < length l ->
  exists l3 m, (l1 ← order_two compar l beg med; l2 ← order_two compar l1 beg end_;
                order_two compar l2 med end_) = Some l3 /\
    within beg (S end_) l l3 /\ l3 !! med = Some m /\
    (comparison_ok -> split_at l3 beg end_ (S beg) (end_ - 1) m).
Proof.
  intros H1 H2 H3.
  destruct (lookup_lt_is_Some_2 l beg) as [a Ha]; [lia |].
  destruct (lookup_lt_is_Some_2 l med) as [b Hb]; [lia |].
  destruct (lookup_lt_is_Some_2 l end_) as [c Hc]; [lia |].
  destruct (order_two_spec l beg med a b beg (S end_))
    as (l1 & a1 & b1 & -> & W1 & Ha1 & Hb1 & K1 & _ & O1); [lia | lia | lia | lia | done | done |].
  pose proof (within_length _ _ _ _ W1) as L1. cbn [mbind option_bind].
  rewrite <- (K1 end_) in Hc by lia.
  destruct (order_two_spec l1 beg end_ a1 c beg (S end_))
    as (l2 & a2 & c2 & -> & W2 & Ha2 & Hc2 & K2 & _ & O2); [lia | lia | lia | lia | done | done |].
  pose proof (within_length _ _ _ _ W2) as L2. cbn [mbind option_bind].
  rewrite <- (K2 med) in Hb1 by lia.
  destruct (order_two_spec l2 med end_ b1 c2 beg (S end_))
    as (l3 & b3 & c3 & E3 & W3 & Hb3 & Hc3 & K3 & P3 & O3); [lia | lia | lia | lia | done | done |].
  rewrite <- (K3 beg) in Ha2 by lia.
  exists l3, b3. split; [done |]. split; [do 2 (etransitivity; [done |]); done |]. split; [done |].
  intros ok. destruct (O1 ok) as [O1a _]. destruct (O2 ok) as [O2a O2b]. destruct (O3 ok) as [O3a _].
  assert (Hlow : le a2 b3).
  { apply (P3 (le a2)); [| done]. by apply (le_trans ok _ a1). }
  split; intros k z Hk Hz.
  - replace k with beg in Hz by lia. by simplify_eq.
  - replace k with end_ in Hz by lia. by simplify_eq.
Qed.

Lemma split_segment_spec l beg end_ :
  beg + 8 <= end_ -> end_ < length l ->
  exists l' hi lo, split_segment compar l beg end_ = Some (l', hi, lo) /\
    within beg (S end_) l l' /\ beg <= hi < lo /\ lo <= end_ /\
    (comparison_ok -> exists m, seg_all (fun x => le x m) l' beg lo /\
                                seg_all (fun x => le m x) l' (S hi) (S end_)).
Proof.
  intros Hn Hl. unfold split_segment. rewrite (psub_le end_ beg) by lia. cbn [mbind option_bind]. cbv zeta.
  set (med := beg + (end_ - beg + 1) / 2).
  assert (Hmed : beg < med < end_).
  { unfold med. pose proof (Nat.div_mod (end_ - beg + 1) 2 ltac:(lia)).
    pose proof (Nat.mod_upper_bound (end_ - beg + 1) 2 ltac:(lia)). lia. }
  destruct (median_spec l beg med end_) as (l3 & m & E & W & Hm & O3); [lia | lia | lia |].
  destruct (order_two compar l beg med) as [l1 |]; [| done]. cbn [mbind option_bind] in E |- *.
  destruct (order_two compar l1 beg end_) as [l2 |]; [| done]. cbn [mbind option_bind] in E |- *.
  rewrite E. cbn [mbind option_bind]. rewrite (psub_le end_ 1) by lia. cbn [mbind option_bind].
  pose proof (within_length _ _ _ _ W) as L3.
  destruct (partition_spec beg end_ m (S (length l)) l3 (S beg) (end_ - 1) med)
    as (l4 & lo & hi & med' & -> & W4 & H1 & H2 & H3 & H4 & O4); [lia | lia | lia | lia | done | lia |].
  pose proof (within_length _ _ _ _ W4) as L4. cbn [mbind option_bind].
  destruct (skip_equal_spec l4 beg med' m (S (length l)) hi) as (hi2 & -> & H5 & O5);
    [done | lia | lia | lia |].
  cbn [mbind option_bind]. exists l4, hi2, lo. split; [done |]. split; [by etransitivity |].
  split; [lia |]. split; [lia |]. intros ok. exists m.
  destruct (O4 ok (O3 ok)) as [Hlow Hhigh]. split; [done |].
  apply seg_all_join with (S hi); auto.
Qed.

(** ** The stack of segments *)

Definition in_seg (s : nat * nat) (i : nat) : Prop := s.1 <= i <= s.2.
Definition apart (s t : nat * nat) : Prop := s.2 < t.1 \/ t.2 < s.1.
Definition seg_len (s : nat * nat) : nat := S s.2 - s.1.

(** The array after each segment of the stack has been sorted in place. *)
Definition settled (l : list A) (stack : list (nat * nat)) (l' : list A) : Prop :=
  (forall i, (forall s, s ∈ stack -> ~ in_seg s i) -> l' !! i = l !! i) /\
  forall s, s ∈ stack -> sorted_seg l' s.1 (S s.2) /\
    forall P, seg_all P l s.1 (S s.2) -> seg_all P l' s.1 (S s.2).

(** Sorting the segments left on the stack will sort the whole array. *)
Definition will_sort (n : nat) (l : list A) (stack : list (nat * nat)) : Prop :=
  forall l', settled l stack l' -> sorted_seg l' 0 n.

(** A rearranged segment leaves the segments apart from it alone. *)
Lemma within_apart (l l1 : list A) s t :
  within s.1 (S s.2) l l1 -> apart s t -> forall P, seg_all P l t.1 (S t.2) -> seg_all P l1 t.1 (S t.2).
Proof.
  intros W Ha P HP i x Hi Hx. rewrite (within_outside _ _ _ _ W) in Hx by (unfold apart in Ha; lia).
  by apply (HP i).
Qed.

Lemma pop_sorted n l l1 s stack :
  within s.1 (S s.2) l l1 -> sorted_seg l1 s.1 (S s.2) -> Forall (apart s) stack ->
  will_sort n l (s :: stack) -> will_sort n l1 stack.
Proof.
  intros W Hs Ha Hw l' [Hout Hin]. apply Hw. rewrite list.Forall_forall in Ha.
  assert (Hsame : forall i, in_seg s i -> l' !! i = l1 !! i).
  { intros i Hi. apply Hout. intros t Ht Hti. specialize (Ha t Ht). unfold apart, in_seg in *. lia. }
  split.
  - intros i Hi. rewrite Hout; [| intros t Ht; apply Hi; by right].
    apply (within_outside _ _ _ _ W). intros Hsi. apply (Hi s); [by left | unfold in_seg; lia].
  - intros t Ht. apply elem_of_cons in Ht as [-> | Ht].
    + split.
      * intros i j x y H1 H2 H3 Hx Hy. rewrite Hsame in Hx, Hy by (unfold in_seg; lia).
        by apply (Hs i j).
      * intros P HP i x Hi Hx. rewrite Hsame in Hx by (unfold in_seg; lia).
        by apply (within_all _ _ _ _ W P HP i).
    + destruct (Hin t Ht) as [H1 H2]. split; [done |]. intros P HP. apply H2.
      apply (within_apart l l1 s); auto.
Qed.

(** Two sorted parts and what lies between, around a pivot. *)
Lemma sorted_parts l b hi lo e m :
  comparison_ok -> b <= hi < lo -> lo <= e ->
  sorted_seg l b (S hi) -> sorted_seg l lo (S e) ->
  seg_all (fun x => le x m) l b lo -> seg_all (fun x => le m x) l (S hi) (S e) ->
  sorted_seg l b (S e).
Proof.
  intros ok H1 H2 S1 S2 Hlow Hhigh i j x y Hi Hij Hj Hx Hy.
  destruct (Nat.le_gt_cases j hi); [apply (S1 i j); done || lia |].
  destruct (Nat.le_gt_cases lo i); [apply (S2 i j); done || lia |].
  apply (le_trans ok _ m); [apply (Hlow i) | apply (Hhigh j)]; done || lia.
Qed.

Lemma pop_split n l l1 b e hi lo m stack stack' :
  comparison_ok -> within b (S e) l l1 -> b <= hi < lo -> lo <= e ->
  seg_all (fun x => le x m) l1 b lo -> seg_all (fun x => le m x) l1 (S hi) (S e) ->
  Forall (apart (b, e)) stack ->
  (forall t, t ∈ stack' <-> t = (b, hi) \/ t = (lo, e) \/ t ∈ stack) ->
  will_sort n l ((b, e) :: stack) -> will_sort n l1 stack'.
Proof.
  intros ok W H1 H2 Hlow Hhigh Ha Hst Hw l' [Hout Hin]. apply Hw. rewrite list.Forall_forall in Ha.
  destruct (Hin (b, hi)) as [S1 A1]; [apply Hst; tauto |].
  destruct (Hin (lo, e)) as [S2 A2]; [apply Hst; tauto |]. simpl in S1, A1, S2, A2.
  assert (Hmid : forall i, hi < i < lo -> l' !! i = l1 !! i).
  { intros i Hi. apply Hout. intros t Ht Hti. apply Hst in Ht as [-> | [-> | Ht]];
      [unfold in_seg in Hti; simpl in Hti; lia .. |].
    specialize (Ha t Ht). unfold apart, in_seg in *. simpl in *. lia. }
  assert (Hall : forall P, seg_all P l1 b (S e) -> seg_all P l' b (S e)).
  { intros P HP i x Hi Hx. destruct (Nat.le_gt_cases i hi) as [Hih |].
    - apply (A1 P) with i; [| lia | done]. intros k z Hk. apply HP. lia.
    - destruct (Nat.le_gt_cases lo i) as [Hil |].
      + apply (A2 P) with i; [| lia | done]. intros k z Hk. apply HP. lia.
      + rewrite Hmid in Hx by lia. by apply (HP i). }
  split.
  - intros i Hi. rewrite Hout.
    + apply (within_outside _ _ _ _ W). intros Hsi.
      apply (Hi (b, e)); [by left | unfold in_seg; simpl; lia].
    + assert (Hno : ~ in_seg (b, e) i) by (apply Hi; by left). unfold in_seg in Hno. simpl in Hno.
      intros t Ht. apply Hst in Ht as [-> | [-> | Ht]]; [unfold in_seg; simpl; lia .. |].
      apply Hi. by right.
  - intros t Ht. apply elem_of_cons in Ht as [-> | Ht]; simpl.
    + split; [| intros P HP; apply Hall; by apply (within_all _ _ _ _ W)].
      apply (sorted_parts l' b hi lo e m); [done .. | |].
      * intros i x Hi Hx. destruct (Nat.le_gt_cases i hi).
        -- apply (A1 (fun x => le x m)) with i; [| lia | done]. intros k z Hk. apply Hlow. lia.
        -- rewrite Hmid in Hx by lia. by apply (Hlow i).
      * intros i x Hi Hx. destruct (Nat.le_gt_cases lo i).
        -- apply (A2 (fun x => le m x)) with i; [| lia | done]. intros k z Hk. apply Hhigh. lia.
        -- rewrite Hmid in Hx by lia. by apply (Hhigh i).
    + destruct (Hin t) as [H3 H4]; [apply Hst; tauto |]. split; [done |]. intros P HP. apply H4.
      apply (within_apart l l1 (b, e)); [done | by apply Ha | done].
Qed.

(** The stack holds non-empty disjoint segments of the array; with [d] segments
    below it a segment is at most the [2^d]-th part of the array. *)
Fixpoint stack_ok (n : nat) (stack : list (nat * nat)) : Prop :=
  match stack with
  | [] => True
  | s :: rest =>
    s.1 <= s.2 /\ s.2 < n /\ Forall (apart s) rest /\
    (Z.of_nat (seg_len s) * 2 ^ Z.of_nat (length rest) <= Z.of_nat n)%Z /\ stack_ok n rest
  end.

(** An upper bound on the number of segments still to be taken from the stack. *)
Fixpoint work (stack : list (nat * nat)) : nat :=
  match stack with
  | [] => 0
  | s :: rest => 2 * seg_len s - 1 + work rest
  end.

Lemma apart_sub s t stack :
  s.1 <= t.1 -> t.2 <= s.2 -> Forall (apart s) stack -> Forall (apart t) stack.
Proof.
  intros H1 H2. apply Forall_impl. intros u. unfold apart. lia.
Qed.

(** Two parts of a segment replace it, the shorter one on top. *)
Lemma stack_ok_split n s big small stack :
  stack_ok n (s :: stack) -> s.1 <= big.1 -> big.1 <= big.2 -> big.2 <= s.2 ->
  s.1 <= small.1 -> small.1 <= small.2 -> small.2 <= s.2 -> apart small big ->
  seg_len small <= seg_len big -> seg_len small + seg_len big <= seg_len s ->
  stack_ok n (small :: big :: stack) /\ S (work (small :: big :: stack)) <= work (s :: stack).
Proof.
  intros (H1 & H2 & H3 & H4 & H5) B1 B2 B3 S1 S2 S3 Ha Hle Hsum. split.
  - cbn [stack_ok length]. rewrite Nat2Z.inj_succ, Z.pow_succ_r by lia.
    pose proof (Z.pow_pos_nonneg 2 (Z.of_nat (length stack)) ltac:(lia) ltac:(lia)) as Hp.
    repeat split; try (done || lia).
    + constructor; [done |]. by apply (apart_sub s).
    + nia.
    + by apply (apart_sub s).
    + nia.
  - cbn [work]. assert (1 <= seg_len small) by (unfold seg_len; lia).
    assert (1 <= seg_len big) by (unfold seg_len; lia). lia.
Qed.

(** A segment of nine elements or more has room for its two parts on the stack. *)
Lemma stack_room n s stack :
  stack_ok n (s :: stack) -> 8 <= s.2 - s.1 -> (Z.of_nat n < 2 ^ 64)%Z -> length stack < 63.
Proof.
  intros (H1 & H2 & _ & H4 & _) Hlen Hn.
  destruct (Nat.lt_ge_cases (length stack) 63) as [| Hge]; [done | exfalso].
  assert (2 ^ 63 <= 2 ^ Z.of_nat (length stack))%Z by (apply Z.pow_le_mono_r; lia).
  assert (Z.of_nat (seg_len s) >= 9)%Z by (unfold seg_len; lia).
  change (2 ^ 64)%Z with (2 * 2 ^ 63)%Z in Hn. nia.
Qed.

Lemma push_ok seg stack : length stack < STACK_SIZE -> push seg stack = Some (seg :: stack).
Proof. intros H. unfold push. by destruct (Nat.ltb_spec (length stack) STACK_SIZE); [| lia]. Qed.

Lemma quick_loop_spec n : (Z.of_nat n < 2 ^ 64)%Z -> forall fuel l stack,
  n <= length l -> stack_ok n stack -> work stack <= fuel ->
  exists l', quick_loop compar fuel l stack = Some l' /\ within 0 n l l' /\
    (comparison_ok -> will_sort n l stack -> sorted_seg l' 0 n).
Proof.
  intros Hn. induction fuel as [| fuel IH]; intros l stack Hl Hst Hf.
  all: destruct stack as [| [b e] stack];
    [exists l; split; [done |]; split; [reflexivity |]; intros _ Hw; apply Hw; split; [done |];
     intros s Hs; by apply elem_of_nil in Hs |].
  { exfalso. destruct Hst as (H1 & _). cbn [work] in Hf. unfold seg_len in Hf. simpl in *. lia. }
  destruct (Hst) as (H1 & H2 & Ha & _ & Hrest). cbn [fst snd] in H1, H2.
  cbn [quick_loop]. rewrite psub_le by lia. cbn [mbind option_bind].
  destruct (Nat.ltb_spec (e - b) 8) as [Hsmall | Hbig].
  - destruct (small_sort_spec (e - b + 1) l b) as (l1 & -> & W & Hs); [lia |].
    replace (b + (e - b + 1)) with (S e) in W, Hs by lia. cbn [mbind option_bind].
    pose proof (within_length _ _ _ _ W) as L1.
    destruct (IH l1 stack) as (l' & -> & W' & Hs'); [lia | done | |].
    { cbn [work] in Hf. unfold seg_len in Hf. simpl in Hf. lia. }
    exists l'. split; [done |].
    split; [etransitivity; [eapply within_sub; [done | lia | lia] | done] |].
    intros ok Hw. apply Hs'; [done |]. eapply (pop_sorted n l l1 (b, e)); simpl; eauto.
  - destruct (split_segment_spec l b e) as (l1 & hi & lo & -> & W & Hhi & Hlo & Hs); [lia | lia |].
    cbn [mbind option_bind]. rewrite (psub_le hi b), (psub_le e lo) by lia. cbn [mbind option_bind].
    pose proof (within_length _ _ _ _ W) as L1.
    pose proof (stack_room n (b, e) stack Hst ltac:(simpl; lia) Hn) as Hroom.
    assert (Hgo : forall s1 s2, stack_ok n (s2 :: s1 :: stack) ->
      S (work (s2 :: s1 :: stack)) <= work ((b, e) :: stack) ->
      (forall t, t ∈ s2 :: s1 :: stack <-> t = (b, hi) \/ t = (lo, e) \/ t ∈ stack) ->
      exists l', (stack1 ← push s1 stack; stack2 ← push s2 stack1;
                  quick_loop compar fuel l1 stack2) = Some l' /\ within 0 n l l' /\
        (comparison_ok -> will_sort n l ((b, e) :: stack) -> sorted_seg l' 0 n)).
    { intros s1 s2 Hok Hwork Hmem.
      rewrite push_ok by (unfold STACK_SIZE; lia). cbn [mbind option_bind].
      rewrite push_ok by (cbn [length]; unfold STACK_SIZE; lia). cbn [mbind option_bind].
      destruct (IH l1 (s2 :: s1 :: stack)) as (l' & -> & W' & Hs'); [lia | done | lia |].
      exists l'. split; [done |].
      split; [etransitivity; [eapply within_sub; [done | lia | lia] | done] |].
      intros ok Hw. destruct (Hs ok) as (m & Hlow & Hhigh). apply Hs'; [done |].
      by apply (pop_split n l l1 b e hi lo m stack). }
    destruct (Nat.leb_spec (e - lo) (hi - b)) as [Hle | Hgt].
    + destruct (stack_ok_split n (b, e) (b, hi) (lo, e) stack Hst) as [Hok Hwork];
        unfold seg_len, apart; simpl; try lia.
      apply Hgo; [done | done |]. intros t. rewrite !elem_of_cons. tauto.
    + destruct (stack_ok_split n (b, e) (lo, e) (b, hi) stack Hst) as [Hok Hwork];
        unfold seg_len, apart; simpl; try lia.
      apply Hgo; [done | done |]. intros t. rewrite !elem_of_cons. tauto.
Qed.

Lemma qsort_spec l n :
  n <= length l -> (Z.of_nat n < 2 ^ 64)%Z ->
  exists l', qsort compar l n = Some l' /\ within 0 n l l' /\
    (comparison_ok -> sorted_seg l' 0 n).
Proof.
  intros Hl Hn. unfold qsort, qsort_s. destruct (Nat.ltb_spec n 2) as [Hs | Hb].
  - exists l. split; [done |]. split; [reflexivity |]. intros ok i j x y Hi Hij Hj Hx Hy.
    replace j with i in Hy by lia. simplify_eq. by apply le_refl.
  - unfold quick_sort. rewrite psub_le by lia. cbn [mbind option_bind].
    destruct (quick_loop_spec n Hn (2 * n) l [(0, n - 1)]) as (l' & -> & W & Hs); [done | | |].
    + cbn [stack_ok length]. unfold seg_len. simpl. repeat split; try (done || lia).
    + cbn [work]. unfold seg_len. simpl. lia.
    + exists l'. split; [done |]. split; [done |]. intros ok. apply Hs; [done |].
      intros k [_ Hk]. destruct (Hk (0, n - 1)) as [Hsort _]; [by left |]. simpl in Hsort.
      by replace (S (n - 1)) with n in Hsort by lia.
Qed.
End Sorting.

(** ** Binary search *)

Section Search.
Context {A : Type} (compare : A -> Z) (l : list A).

(** The array is in the order of the comparison with the key: first the elements
    below it, then those equal to it, then those above. *)
Definition key_order : Prop := forall i j x y,
  i < j -> l !! i = Some x -> l !! j = Some y ->
  ((compare x < 0)%Z -> (compare y < 0)%Z) /\ ((0 < compare y)%Z -> (0 < compare x)%Z).

Open Scope Z_scope.

Lemma bsearch_loop_spec fuel : forall min max,
  key_order -> 0 <= min -> max < Z.of_nat (length l) -> max - min + 1 < Z.of_nat fuel -> min <= max + 1 ->
  (forall i x, Z.of_nat i < min -> l !! i = Some x -> compare x <> 0) ->
  (forall i x, max < Z.of_nat i -> l !! i = Some x -> compare x <> 0) ->
  exists r, bsearch_loop compare l fuel min max = Some r /\
    match r with
    | Some c => min <= c <= max /\ exists x, l !! Z.to_nat c = Some x /\ compare x = 0
    | None => forall i x, l !! i = Some x -> compare x <> 0
    end.
Proof.
  induction fuel as [| fuel IH]; intros min max Ho Hmin Hmax Hf Hle Hlow Hhigh; [lia |].
  cbn [bsearch_loop]. destruct (Z.leb_spec min max) as [Hm | Hm].
  - cbv zeta. set (c := min + (max - min) / 2).
    assert (Hc : min <= c <= max).
    { unfold c. pose proof (Z.div_mod (max - min) 2 ltac:(lia)).
      pose proof (Z.mod_pos_bound (max - min) 2 ltac:(lia)). lia. }
    destruct (lookup_lt_is_Some_2 l (Z.to_nat c)) as [x Hx]; [lia |]. rewrite Hx.
    cbn [mbind option_bind].
    destruct (Z.eqb_spec (compare x) 0) as [E | E]; [exists (Some c); split; [done |]; eauto |].
    destruct (Z.ltb_spec (compare x) 0) as [Hlt | Hgt].
    + destruct (IH min (c - 1)) as (r & -> & Hr); [done | lia | lia | lia | lia | done | |].
      * intros i y Hi Hy. destruct (decide (i = Z.to_nat c)) as [-> |]; [by simplify_eq |].
        destruct (Ho (Z.to_nat c) i x y) as [Hneg _]; [lia | done | done |]. lia.
      * exists r. split; [done |]. destruct r; [| done]. destruct Hr as [? ?]. split; [lia | done].
    + destruct (IH (c + 1) max) as (r & -> & Hr); [done | lia | lia | lia | lia | | done |].
      * intros i y Hi Hy. destruct (decide (i = Z.to_nat c)) as [-> |]; [by simplify_eq |].
        destruct (Ho i (Z.to_nat c) y x) as [_ Hpos]; [lia | done | done |]. lia.
      * exists r. split; [done |]. destruct r; [| done]. destruct Hr as [? ?]. split; [lia | done].
  - exists None. split; [done |]. intros i x Hx.
    destruct (Z.lt_ge_cases (Z.of_nat i) min); [by apply (Hlow i) | apply (Hhigh i); [lia | done]].
Qed.
End Search.

(** ** Properties *)

(** C32: whatever the comparison function answers, [qsort] on an array of fewer than
    [2^64] elements ends, accesses no element outside the array, never pushes more
    than 64 segments on its stack, permutes the elements and leaves those after the
    first [n] alone. *)
Theorem qsort_safe {A} (compar : A -> A -> Z) (l : list A) (n : nat) :
  n <= length l -> (Z.of_nat n < 2 ^ 64)%Z ->
  exists l', qsort compar l n = Some l' /\ l ≡ₚ l' /\ forall i, n <= i -> l' !! i = l !! i.
Proof.
  intros Hl Hn. destruct (qsort_spec compar l n Hl Hn) as (l' & E & [Hp Ho _] & _).
  exists l'. split; [done |]. split; [done |]. intros i Hi. apply Ho. lia.
Qed.

Lemma qsort_safe_witness :
  exists l', qsort (fun _ _ => 1%Z) [3; 1; 2]%Z 3 = Some l' /\ [3; 1; 2]%Z ≡ₚ l' /\
    forall i, 3 <= i -> l' !! i = [3; 1; 2]%Z !! i.
Proof. exact (qsort_safe (fun _ _ => 1%Z) [3; 1; 2]%Z 3 ltac:(simpl; lia) ltac:(done)). Defined.

(** C33: with a consistent comparison function [qsort] sorts: in the result no
    element among the first [n] compares greater than a later one. *)
Theorem qsort_sorts {A} (compar : A -> A -> Z) (l : list A) (n : nat) :
  comparison_ok compar -> n <= length l -> (Z.of_nat n < 2 ^ 64)%Z ->
  exists l', qsort compar l n = Some l' /\ l ≡ₚ l' /\ sorted_seg compar l' 0 n.
Proof.
  intros ok Hl Hn. destruct (qsort_spec compar l n Hl Hn) as (l' & E & [Hp _ _] & Hs).
  exists l'. auto.
Qed.

Lemma qsort_sorts_witness :
  (exists l', qsort Z.sub [5; 3; 9; 1; 1; 7; 8; 2; 0; 12; 4]%Z 11 = Some l' /\
     [5; 3; 9; 1; 1; 7; 8; 2; 0; 12; 4]%Z ≡ₚ l' /\ sorted_seg Z.sub l' 0 11) /\
  qsort Z.sub [5; 3; 9; 1; 1; 7; 8; 2; 0; 12; 4]%Z 11 = Some [0; 1; 1; 2; 3; 4; 5; 7; 8; 9; 12]%Z.
Proof.
  split; [| reflexivity]. apply (qsort_sorts Z.sub); [constructor; lia | simpl; lia | done].
Defined.

(** [bsearch] on an array in key order ends within the array and finds an
    element equal to the key whenever there is one. *)
Theorem bsearch_finds {A} (compare : A -> Z) (l : list A) :
  key_order compare l ->
  exists r, bsearch compare l = Some r /\
    match r with
    | Some c => exists x, l !! Z.to_nat c = Some x /\ compare x = 0%Z
    | None => forall i x, l !! i = Some x -> compare x <> 0%Z
    end.
Proof.
  intros Ho. unfold bsearch.
  destruct (bsearch_loop_spec compare l (S (length l)) 0 (Z.of_nat (length l) - 1))
    as (r & E & Hr); [done | lia | lia | lia | lia | lia | |].
  - intros i x Hi Hx. apply lookup_lt_Some in Hx. lia.
  - exists r. split; [done |]. destruct r; [by destruct Hr | done].
Qed.

Lemma bsearch_finds_witness :
  exists r, bsearch (fun x => 7 - x)%Z [1; 3; 7; 9]%Z = Some r /\ r = Some 2%Z.
Proof.
  destruct (bsearch_finds (fun x => 7 - x)%Z [1; 3; 7; 9]%Z) as (r & E & _).
  - intros i j x y Hij Hx Hy.
    destruct i as [| [| [| [|]]]], j as [| [| [| [|]]]]; simpl in *; simplify_eq; lia.
  - exists r. split; [exact E |]. vm_compute in E. congruence.
Defined.
