(* ===== verification/RtlBitmap.v ===== *)
(** * ntdll: bitmaps

    [dlls/ntdll/rtlbitmap.c].  A bitmap is a size in bits and a buffer of 32-bit
    words.  Reading or writing outside the buffer is [None]; the theorems of
    [RtlBitmapProofs] show that this does not happen on a buffer that holds the
    bitmap.  A loop that needs it has fuel, and running out of fuel is [None] as
    well, so a theorem that gives [Some] shows termination too. *)

From stdpp Require Import base list option.
From Stdlib Require Import ZArith.
From S2P Require Import Prelude NtdllSort.

Open Scope Z_scope.

Record RTL_BITMAP := {
  SizeOfBitMap : Z;
  Buffer : list Z
}.

Record RTL_BITMAP_RUN := {
  StartingIndex : Z;
  NumberOfBits : Z
}.

(** [~0u] *)
Definition ALL_ONES := 0xffffffff.

Definition set_Buffer (b : RTL_BITMAP) (buf : list Z) : RTL_BITMAP :=
  {| SizeOfBitMap := SizeOfBitMap b; Buffer := buf |}.

(** [Buffer[i]] and [Buffer[i] = w]. *)
Definition rd (buf : list Z) (i : Z) : option Z := buf !! Z.to_nat i.

Definition wr (buf : list Z) (i w : Z) : option (list Z) :=
  if i <? Z.of_nat (length buf) then Some (<[Z.to_nat i := w]> buf) else None.

(** Byte [k] of the buffer, whose words are stored little-endian. *)
Definition rdb (buf : list Z) (k : Z) : option Z :=
  w ← rd buf (k / 4); Some (Z.land (Z.shiftr w (8 * (k mod 4))) 0xff).

Definition NTDLL_leastSignificant : list Z :=
  [0; 0; 1; 0; 2; 0; 1; 0; 3; 0; 1; 0; 2; 0; 1; 0].

Definition NTDLL_mostSignificant : list Z :=
  [-1; 0; 1; 1; 2; 2; 2; 2; 3; 3; 3; 3; 3; 3; 3; 3].

Definition maskbits (idx : Z) : Z := u32 (Z.shiftl ALL_ONES (Z.land idx 31)).

Definition RtlInitializeBitMap (lpBuff : list Z) (ulSize : Z) : RTL_BITMAP :=
  {| SizeOfBitMap := ulSize; Buffer := lpBuff |}.

(** [while (pos < end) buffer[pos++] = w], with [n] the distance to the end. *)
Fixpoint fill_words (buf : list Z) (pos : Z) (n : nat) (w : Z) : option (list Z) :=
  match n with
  | O => Some buf
  | S n' => buf' ← wr buf pos w; fill_words buf' (pos + 1) n' w
  end.

(** [((SizeOfBitMap + 31) & ~31) >> 3]; the addition is done on 32 bits. *)
Definition bitmap_bytes (b : RTL_BITMAP) : Z :=
  Z.shiftr (Z.land (u32 (SizeOfBitMap b + 31)) (not32 31)) 3.

(** The byte count passed to [memset] is a multiple of four: it fills words. *)
Definition RtlSetAllBits (b : RTL_BITMAP) : option RTL_BITMAP :=
  buf ← fill_words (Buffer b) 0 (Z.to_nat (bitmap_bytes b / 4)) ALL_ONES;
  Some (set_Buffer b buf).

Definition RtlClearAllBits (b : RTL_BITMAP) : option RTL_BITMAP :=
  buf ← fill_words (Buffer b) 0 (Z.to_nat (bitmap_bytes b / 4)) 0;
  Some (set_Buffer b buf).

(** [!count || start >= SizeOfBitMap || count > SizeOfBitMap - start] *)
Definition bad_range (b : RTL_BITMAP) (start count : Z) : bool :=
  (count =? 0) || (SizeOfBitMap b <=? start) || (SizeOfBitMap b - start <? count).

Definition RtlSetBits (b : RTL_BITMAP) (start count : Z) : option RTL_BITMAP :=
  let end_ := u32 (start + count) in
  let pos := start / 32 in
  let end_pos := end_ / 32 in
  if bad_range b start count then Some b else
  if pos <? end_pos then
    w ← rd (Buffer b) pos;
    buf1 ← wr (Buffer b) pos (Z.lor w (maskbits start));
    buf2 ← fill_words buf1 (pos + 1) (Z.to_nat (end_pos - (pos + 1))) ALL_ONES;
    if Z.land end_ 31 =? 0 then Some (set_Buffer b buf2) else
    w' ← rd buf2 end_pos;
    buf3 ← wr buf2 end_pos (Z.lor w' (not32 (maskbits end_)));
    Some (set_Buffer b buf3)
  else
    w ← rd (Buffer b) pos;
    buf ← wr (Buffer b) pos (Z.lor w (Z.land (maskbits start) (not32 (maskbits end_))));
    Some (set_Buffer b buf).

Definition RtlClearBits (b : RTL_BITMAP) (start count : Z) : option RTL_BITMAP :=
  let end_ := u32 (start + count) in
  let pos := start / 32 in
  let end_pos := end_ / 32 in
  if bad_range b start count then Some b else
  if pos <? end_pos then
    w ← rd (Buffer b) pos;
    buf1 ← wr (Buffer b) pos (Z.land w (not32 (maskbits start)));
    buf2 ← fill_words buf1 (pos + 1) (Z.to_nat (end_pos - (pos + 1))) 0;
    if Z.land end_ 31 =? 0 then Some (set_Buffer b buf2) else
    w' ← rd buf2 end_pos;
    buf3 ← wr buf2 end_pos (Z.land w' (maskbits end_));
    Some (set_Buffer b buf3)
  else
    w ← rd (Buffer b) pos;
    buf ← wr (Buffer b) pos (Z.land w (Z.lor (not32 (maskbits start)) (maskbits end_)));
    Some (set_Buffer b buf).

(** [while (pos < end_pos) if (buffer[pos++] != w) return FALSE;] *)
Fixpoint all_words (buf : list Z) (pos : Z) (n : nat) (w : Z) : option bool :=
  match n with
  | O => Some true
  | S n' => x ← rd buf pos; if x =? w then all_words buf (pos + 1) n' w else Some false
  end.

Definition RtlAreBitsSet (b : RTL_BITMAP) (start count : Z) : option bool :=
  let end_ := u32 (start + count) in
  let pos := start / 32 in
  let end_pos := end_ / 32 in
  if bad_range b start count then Some false else
  w ← rd (Buffer b) pos;
  if end_pos =? pos then
    Some (Z.lor (Z.lor w (not32 (maskbits start))) (maskbits end_) =? ALL_ONES)
  else
  if negb (Z.lor w (not32 (maskbits start)) =? ALL_ONES) then Some false else
  all ← all_words (Buffer b) (pos + 1) (Z.to_nat (end_pos - (pos + 1))) ALL_ONES;
  if negb all then Some false else
  if Z.land end_ 31 =? 0 then Some true else
  w' ← rd (Buffer b) end_pos;
  Some (Z.lor w' (maskbits end_) =? ALL_ONES).

Definition RtlAreBitsClear (b : RTL_BITMAP) (start count : Z) : option bool :=
  let end_ := u32 (start + count) in
  let pos := start / 32 in
  let end_pos := end_ / 32 in
  if bad_range b start count then Some false else
  w ← rd (Buffer b) pos;
  if end_pos =? pos then
    Some (Z.land (Z.land w (maskbits start)) (not32 (maskbits end_)) =? 0)
  else
  if negb (Z.land w (maskbits start) =? 0) then Some false else
  all ← all_words (Buffer b) (pos + 1) (Z.to_nat (end_pos - (pos + 1))) 0;
  if negb all then Some false else
  if Z.land end_ 31 =? 0 then Some true else
  w' ← rd (Buffer b) end_pos;
  Some (Z.land w' (not32 (maskbits end_)) =? 0).

(** The search loop of [RtlFindSetBits] and [RtlFindClearBits], which differ in
    the [test] they call. *)
Fixpoint find_bits_loop (fuel : nat) (test : Z -> option bool)
    (ulPos ulEnd ulHint : Z) : option Z :=
  match fuel with
  | O => None
  | S fuel' =>
    if ulPos <? ulEnd then
      found ← test ulPos;
      if found : bool then Some ulPos else
      if (ulPos =? u32 (ulEnd - 1)) && negb (ulHint =? 0)
      then find_bits_loop fuel' test 0 ulHint 0
      else find_bits_loop fuel' test (u32 (ulPos + 1)) ulEnd ulHint
    else Some ALL_ONES
  end.

Definition find_bits (test : RTL_BITMAP -> Z -> Z -> option bool)
    (lpBits : option RTL_BITMAP) (ulCount ulHint : Z) : option Z :=
  match lpBits with
  | None => Some ALL_ONES
  | Some b =>
    if (ulCount =? 0) || (SizeOfBitMap b <? ulCount) then Some ALL_ONES else
    let ulHint := if SizeOfBitMap b <? u32 (ulHint + ulCount) then 0 else ulHint in
    find_bits_loop (S (Z.to_nat (SizeOfBitMap b))) (fun p => test b p ulCount)
      ulHint (SizeOfBitMap b) ulHint
  end.

Definition RtlFindSetBits := find_bits RtlAreBitsSet.
Definition RtlFindClearBits := find_bits RtlAreBitsClear.

(** The bitmap is dereferenced only when a position was found, hence is not null. *)
Definition RtlFindSetBitsAndClear (b : RTL_BITMAP) (ulCount ulHint : Z) :
    option (Z * RTL_BITMAP) :=
  ulPos ← RtlFindSetBits (Some b) ulCount ulHint;
  if negb (ulPos =? ALL_ONES)
  then b' ← RtlClearBits b ulPos ulCount; Some (ulPos, b')
  else Some (ulPos, b).

Definition RtlFindClearBitsAndSet (b : RTL_BITMAP) (ulCount ulHint : Z) :
    option (Z * RTL_BITMAP) :=
  ulPos ← RtlFindClearBits (Some b) ulCount ulHint;
  if negb (ulPos =? ALL_ONES)
  then b' ← RtlSetBits b ulPos ulCount; Some (ulPos, b')
  else Some (ulPos, b).

(** The [__popcnt] intrinsic on a 32-bit word. *)
Fixpoint popcnt_bits (w : Z) (n : nat) : Z :=
  match n with
  | O => 0
  | S n' => popcnt_bits w n' + Z.b2z (Z.testbit w (Z.of_nat n'))
  end.

Definition popcnt (w : Z) : Z := popcnt_bits w 32.

Fixpoint popcnt_words (buf : list Z) (i : Z) (n : nat) (ret : Z) : option Z :=
  match n with
  | O => Some ret
  | S n' => w ← rd buf i; popcnt_words buf (i + 1) n' (u32 (ret + popcnt w))
  end.

Definition RtlNumberOfSetBits (b : RTL_BITMAP) : option Z :=
  let size := SizeOfBitMap b in
  ret ← popcnt_words (Buffer b) 0 (Z.to_nat (size / 32)) 0;
  if Z.land size 31 =? 0 then Some ret else
  w ← rd (Buffer b) (size / 32);
  Some (u32 (ret + popcnt (Z.land w (not32 (maskbits size))))).

Definition RtlNumberOfClearBits (lpBits : option RTL_BITMAP) : option Z :=
  match lpBits with
  | Some b => n ← RtlNumberOfSetBits b; Some (u32 (SizeOfBitMap b - n))
  | None => Some 0
  end.

(** ** Most and least significant bit *)

Definition RtlFindMostSignificantBit (ulLong : Z) : option Z :=
  let '(ret, dw) :=
    let dw := u32 (Z.shiftr ulLong 32) in
    if dw =? 0 then (0, u32 ulLong) else (32, dw) in
  let '(ret, dw) := if has_flag dw 0xffff0000 then (ret + 16, Z.shiftr dw 16) else (ret, dw) in
  let '(ret, dw) := if has_flag dw 0xff00 then (ret + 8, Z.shiftr dw 8) else (ret, dw) in
  let '(ret, dw) := if has_flag dw 0xf0 then (ret + 4, Z.shiftr dw 4) else (ret, dw) in
  t ← NTDLL_mostSignificant !! Z.to_nat dw;
  Some (ret + t).

Definition lsb_from (ret dw : Z) : option Z :=
  let '(ret, dw) := if has_flag dw 0xffff then (ret, dw) else (ret + 16, Z.shiftr dw 16) in
  let '(ret, dw) := if has_flag dw 0xff then (ret, dw) else (ret + 8, Z.shiftr dw 8) in
  let '(ret, dw) := if has_flag dw 0x0f then (ret, dw) else (ret + 4, Z.shiftr dw 4) in
  t ← NTDLL_leastSignificant !! Z.to_nat (Z.land dw 0x0f);
  Some (ret + t).

Definition RtlFindLeastSignificantBit (ulLong : Z) : option Z :=
  let dw := u32 ulLong in
  if negb (dw =? 0) then lsb_from 0 dw else
  let dw := u32 (Z.shiftr ulLong 32) in
  if dw =? 0 then Some (-1) else lsb_from 32 dw.

(** ** Runs

    [NTDLL_FindSetRun] and [NTDLL_FindClearRun] are the same text, the second with
    the complement of each byte ([~*lpOut], and [!*lpOut] for a byte that is all
    clear): [view] is what is done to the byte.  [lpOut] is an index in the bytes of
    the buffer. *)
Definition view_set (byte : Z) : Z := byte.
Definition view_clear (byte : Z) : Z := Z.land (Z.lnot byte) 0xff.

(** [for (;ulOffset < 8; ulOffset++)] over [bFirst]: whether a bit ended the run in
    this byte, [ulCount] and [ulStart]. *)
Fixpoint first_byte_bits (n : nat) (bFirst ulOffset ulCount ulStart : Z) : bool * Z * Z :=
  match n with
  | O => (false, ulCount, ulStart)
  | S n' =>
    if has_flag bFirst (Z.shiftl 1 ulOffset)
    then first_byte_bits n' bFirst (ulOffset + 1) (ulCount + 1) (u32 (ulStart + 1))
    else (true, ulCount, ulStart)
  end.

Inductive run_scan :=
| no_run
| run_in_byte (ulFoundAt ulCount : Z)
| run_open (ulFoundAt ulCount ulStart lpOut : Z).

(** [NTDLL_leastSignificant] of the lowest nibble that is not zero. *)
Definition first_offset (bFirst : Z) : option Z :=
  if has_flag bFirst 0x0f
  then NTDLL_leastSignificant !! Z.to_nat (Z.land bFirst 0x0f)
  else t ← NTDLL_leastSignificant !! Z.to_nat (Z.shiftr bFirst 4); Some (4 + t).

(** The [while (1)] loop: look for the byte in which the run starts. *)
Fixpoint run_start (fuel : nat) (view : Z -> Z) (b : RTL_BITMAP) (ulStart lpOut : Z) :
    option run_scan :=
  match fuel with
  | O => None
  | S fuel' =>
    byte ← rdb (Buffer b) lpOut;
    let bMask := Z.land (Z.shiftl 0xff (Z.land ulStart 7)) 0xff in
    let bFirst := Z.land (view byte) bMask in
    if negb (bFirst =? 0) then
      if negb (bFirst =? bMask) then
        ulOffset ← first_offset bFirst;
        let ulFoundAt := u32 (ulStart + ulOffset) in
        match first_byte_bits (Z.to_nat (8 - ulOffset)) bFirst ulOffset 0 ulFoundAt with
        | (true, ulCount, _) => Some (run_in_byte ulFoundAt ulCount)
        | (false, ulCount, ulStart') => Some (run_open ulFoundAt ulCount ulStart' (lpOut + 1))
        end
      else
        Some (run_open ulStart (8 - Z.land ulStart 7)
                (u32 (Z.land ulStart (not32 7) + 8)) (lpOut + 1))
    else
      let ulStart := u32 (Z.land ulStart (not32 7) + 8) in
      if SizeOfBitMap b <=? ulStart then Some no_run
      else run_start fuel' view b ulStart (lpOut + 1)
  end.

(** [for (;ulOffset < 7u; ulOffset++)] over the last byte. *)
Fixpoint last_byte_bits (n : nat) (byte ulOffset ulCount : Z) : Z :=
  match n with
  | O => ulCount
  | S n' =>
    if has_flag byte (Z.shiftl 1 ulOffset)
    then last_byte_bits n' byte (ulOffset + 1) (u32 (ulCount + 1))
    else ulCount
  end.

(** The loop over whole bytes and the bits after it: the value of [*lpSize]. *)
Fixpoint run_blocks (fuel : nat) (view : Z -> Z) (b : RTL_BITMAP) (ulCount ulStart lpOut : Z) :
    option Z :=
  match fuel with
  | O => None
  | S fuel' =>
    byte ← rdb (Buffer b) lpOut;
    if view byte =? 0xff then
      let ulCount := u32 (ulCount + 8) in
      let ulStart := u32 (ulStart + 8) in
      if SizeOfBitMap b <=? ulStart
      then Some (u32 (ulCount - (ulStart - SizeOfBitMap b)))
      else run_blocks fuel' view b ulCount ulStart (lpOut + 1)
    else if has_flag (view byte) 1 then Some (last_byte_bits 7 (view byte) 0 ulCount)
    else Some ulCount
  end.

(** The value returned and, when it was assigned, [*lpSize]. *)
Definition NTDLL_FindRun (view : Z -> Z) (b : RTL_BITMAP) (ulStart : Z) :
    option (Z * option Z) :=
  let fuel := S (Z.to_nat (SizeOfBitMap b / 8)) in
  scan ← run_start fuel view b ulStart (Z.shiftr ulStart 3);
  match scan with
  | no_run => Some (ALL_ONES, None)
  | run_in_byte ulFoundAt ulCount => Some (ulFoundAt, Some ulCount)
  | run_open ulFoundAt ulCount ulStart lpOut =>
    if SizeOfBitMap b <=? ulStart
    then Some (ulFoundAt, Some (u32 (ulCount - (ulStart - SizeOfBitMap b))))
    else size ← run_blocks fuel view b ulCount ulStart lpOut; Some (ulFoundAt, Some size)
  end.

Definition NTDLL_FindSetRun := NTDLL_FindRun view_set.
Definition NTDLL_FindClearRun := NTDLL_FindRun view_clear.

(** The length returned and, when it was assigned, [*lpPos]; [lpPos] says whether
    the pointer was given. *)
Definition find_next_forward (fn : RTL_BITMAP -> Z -> option (Z * option Z))
    (lpBits : option RTL_BITMAP) (ulStart : Z) (lpPos : bool) : option (Z * option Z) :=
  match lpBits with
  | Some b =>
    if (ulStart <? SizeOfBitMap b) && lpPos
    then '(pos, size) ← fn b ulStart; Some (default 0 size, Some pos)
    else Some (0, None)
  | None => Some (0, None)
  end.

Definition RtlFindNextForwardRunSet := find_next_forward NTDLL_FindSetRun.
Definition RtlFindNextForwardRunClear := find_next_forward NTDLL_FindClearRun.

(** Stubs in the source. *)
Definition RtlFindLastBackwardRunSet (lpBits : option RTL_BITMAP) (ulStart : Z) : Z := 0.
Definition RtlFindLastBackwardRunClear (lpBits : option RTL_BITMAP) (ulStart : Z) : Z := 0.

Definition NTDLL_RunSortFn (lhs rhs : RTL_BITMAP_RUN) : Z :=
  if NumberOfBits rhs <? NumberOfBits lhs then -1 else 1.

Definition put_run (series : list RTL_BITMAP_RUN) (i pos size : Z) : option (list RTL_BITMAP_RUN) :=
  if i <? Z.of_nat (length series)
  then Some (<[Z.to_nat i := {| StartingIndex := pos; NumberOfBits := size |}]> series)
  else None.

(** [lpSeries[ulRuns - 1]] is replaced if the new run is longer; the second
    component is [bNeedSort] after. *)
Definition replace_last (series : list RTL_BITMAP_RUN) (ulRuns pos size : Z) (need_sort : bool) :
    option (list RTL_BITMAP_RUN * bool) :=
  last ← series !! Z.to_nat (ulRuns - 1);
  if NumberOfBits last <? size then
    series' ← put_run series (ulRuns - 1) pos size;
    if 1 <? ulRuns then
      prev ← series' !! Z.to_nat (ulRuns - 2);
      Some (series', need_sort || (NumberOfBits prev <? size))
    else Some (series', need_sort)
  else Some (series, need_sort).

(** [while (ulPos < lpBits->SizeOfBitMap)] *)
Fixpoint find_runs_loop (fuel : nat) (fn : RTL_BITMAP -> Z -> option (Z * option Z))
    (b : RTL_BITMAP) (ulCount : Z) (bLongest bNeedSort : bool) (ulPos ulRuns : Z)
    (series : list RTL_BITMAP_RUN) : option (Z * list RTL_BITMAP_RUN) :=
  match fuel with
  | O => None
  | S fuel' =>
    if ulPos <? SizeOfBitMap b then
      '(ulNextPos, size) ← fn b ulPos;
      if ulNextPos =? ALL_ONES then Some (ulRuns, series) else
      ulSize ← size;
      if bLongest && (ulRuns =? ulCount) then
        series ← (if bNeedSort then qsort NTDLL_RunSortFn series (Z.to_nat ulRuns) else Some series);
        '(series, bNeedSort) ← replace_last series ulRuns ulNextPos ulSize bNeedSort;
        find_runs_loop fuel' fn b ulCount bLongest bNeedSort (u32 (ulNextPos + ulSize)) ulRuns series
      else
        series ← put_run series ulRuns ulNextPos ulSize;
        let ulRuns := u32 (ulRuns + 1) in
        if negb bLongest && (ulRuns =? ulCount) then Some (ulRuns, series)
        else find_runs_loop fuel' fn b ulCount bLongest bNeedSort (u32 (ulNextPos + ulSize)) ulRuns series
    else Some (ulRuns, series)
  end.

(** The number of runs and the array after the call. *)
Definition NTDLL_FindRuns (b : RTL_BITMAP) (series : list RTL_BITMAP_RUN) (ulCount : Z)
    (bLongest : bool) (fn : RTL_BITMAP -> Z -> option (Z * option Z)) :
    option (Z * list RTL_BITMAP_RUN) :=
  if ulCount =? 0 then Some (ALL_ONES, series) else
  find_runs_loop (S (Z.to_nat (SizeOfBitMap b))) fn b ulCount bLongest (1 <? ulCount) 0 0 series.

Definition RtlFindSetRuns (b : RTL_BITMAP) (series : list RTL_BITMAP_RUN) (ulCount : Z)
    (bLongest : bool) : option (Z * list RTL_BITMAP_RUN) :=
  NTDLL_FindRuns b series ulCount bLongest NTDLL_FindSetRun.

Definition RtlFindClearRuns (b : RTL_BITMAP) (series : list RTL_BITMAP_RUN) (ulCount : Z)
    (bLongest : bool) : option (Z * list RTL_BITMAP_RUN) :=
  NTDLL_FindRuns b series ulCount bLongest NTDLL_FindClearRun.

(** An uninitialised run on the caller's stack. *)
Definition blank_run : RTL_BITMAP_RUN := {| StartingIndex := 0; NumberOfBits := 0 |}.

(** The length and, when a run was found, its start ([*pulStart]). *)
Definition longest_run (find : list RTL_BITMAP_RUN -> option (Z * list RTL_BITMAP_RUN)) :
    option (Z * option Z) :=
  '(n, series) ← find [blank_run];
  if n =? 1 then br ← series !! 0%nat; Some (NumberOfBits br, Some (StartingIndex br))
  else Some (0, None).

Definition RtlFindLongestRunSet (b : RTL_BITMAP) : option (Z * option Z) :=
  longest_run (fun series => RtlFindSetRuns b series 1 true).

Definition RtlFindLongestRunClear (b : RTL_BITMAP) : option (Z * option Z) :=
  longest_run (fun series => RtlFindClearRuns b series 1 true).
