(* ===== verification/RtlBitmapProofs.v ===== *)
(** * ntdll bitmaps: correctness

    The word-wise operations of [RtlBitmap] against the bits they are meant to
    change or test. *)

From stdpp Require Import base list option relations.
From Stdlib Require Import ZArith Lia.
From S2P Require Import Prelude NtdllSort RtlBitmap.

Open Scope Z_scope.

(** ** The abstract bitmap: bit [i], a boolean *)

Definition bitat (buf : list Z) (i : Z) : bool :=
  Z.testbit (default 0 (buf !! Z.to_nat (i / 32))) (i mod 32).

Definition bit (b : RTL_BITMAP) (i : Z) : bool := bitat (Buffer b) i.

Definition word (w : Z) : Prop := 0 <= w < 2 ^ 32.

(** The buffer holds words and is as long as the size asks for. *)
Record bitmap_wf (b : RTL_BITMAP) : Prop := {
  wf_size : 0 <= SizeOfBitMap b < 2 ^ 32;
  wf_room : SizeOfBitMap b <= 32 * Z.of_nat (length (Buffer b));
  wf_words : Forall word (Buffer b)
}.

(** Bits [start .. start + count - 1] all have the value [v]. *)
Definition all_bits (v : bool) (b : RTL_BITMAP) (start count : Z) : Prop :=
  forall i, start <= i < start + count -> bit b i = v.

Definition in_range (start count i : Z) : bool := (start <=? i) && (i <? start + count).

(** ** Words *)

Lemma word_high w n : word w -> 32 <= n -> Z.testbit w n = false.
Proof.
  intros [H0 H1] Hn. destruct (Z.eq_dec w 0) as [-> | Hw]; [apply Z.testbit_0_l |].
  apply Z.bits_above_log2; [lia |].
  apply Z.lt_le_trans with 32; [apply Z.log2_lt_pow2; lia | lia].
Qed.

Lemma word_of_bits w : 0 <= w -> (forall n, 32 <= n -> Z.testbit w n = false) -> word w.
Proof.
  intros H0 Hb. split; [done |]. destruct (Z.lt_ge_cases w (2 ^ 32)) as [| Hge]; [done |].
  assert (Hl : 32 <= Z.log2 w) by (apply Z.log2_le_pow2; lia).
  specialize (Hb _ Hl). rewrite Z.bit_log2 in Hb; [done | lia].
Qed.

Lemma word_u32 x : word (u32 x).
Proof. apply uwrap_range. lia. Qed.

Lemma word_lor x y : word x -> word y -> word (Z.lor x y).
Proof.
  intros Hx Hy. apply word_of_bits.
  - apply Z.lor_nonneg. split; [apply Hx | apply Hy].
  - intros n Hn. by rewrite Z.lor_spec, !word_high.
Qed.

Lemma word_land x y : word x -> word y -> word (Z.land x y).
Proof.
  intros Hx Hy. apply word_of_bits.
  - apply Z.land_nonneg. left. apply Hx.
  - intros n Hn. by rewrite Z.land_spec, !word_high.
Qed.

Lemma not32_spec x n : 0 <= n < 32 -> Z.testbit (not32 x) n = negb (Z.testbit x n).
Proof. intros Hn. unfold not32, uwrap. by rewrite Z.mod_pow2_bits_low, Z.lnot_spec by lia. Qed.

Lemma land_31 i : Z.land i 31 = i mod 32.
Proof. apply (Z.land_ones i 5). lia. Qed.

Lemma maskbits_spec i n : 0 <= n < 32 -> Z.testbit (maskbits i) n = (i mod 32 <=? n).
Proof.
  intros Hn. unfold maskbits, uwrap. rewrite land_31, Z.mod_pow2_bits_low by lia.
  assert (0 <= i mod 32 < 32) by (apply Z.mod_pos_bound; lia).
  rewrite Z.shiftl_spec by lia. change ALL_ONES with (Z.ones 32).
  destruct (Z.leb_spec (i mod 32) n).
  - apply Z.ones_spec_low. lia.
  - apply Z.testbit_neg_r. lia.
Qed.

Lemma ones_spec n : 0 <= n < 32 -> Z.testbit ALL_ONES n = true.
Proof. intros. change ALL_ONES with (Z.ones 32). by apply Z.ones_spec_low. Qed.

Lemma word_ones : word ALL_ONES. Proof. done. Qed.
Lemma word_zero : word 0. Proof. done. Qed.
Lemma word_maskbits i : word (maskbits i). Proof. apply word_u32. Qed.
Lemma word_not32 x : word (not32 x). Proof. apply word_u32. Qed.

Create HintDb bits.
#[export] Hint Resolve word_lor word_land word_ones word_zero word_maskbits word_not32 : bits.

(** A word equal to another on its 32 bits. *)
Lemma word_eq x y :
  word x -> word y -> (forall n, 0 <= n < 32 -> Z.testbit x n = Z.testbit y n) -> x = y.
Proof.
  intros Hx Hy H. apply Z.bits_inj'. intros n Hn.
  destruct (Z.lt_ge_cases n 32); [by apply H | by rewrite !word_high].
Qed.

(** The constant word of a value: [~0u] or [0]. *)
Definition full (v : bool) : Z := if v then ALL_ONES else 0.

Lemma full_spec v n : 0 <= n < 32 -> Z.testbit (full v) n = v.
Proof. intros. destruct v; [by apply ones_spec | apply Z.testbit_0_l]. Qed.

Lemma word_full v : word (full v). Proof. by destruct v. Qed.
#[export] Hint Resolve word_full : bits.

Lemma eqb_full v x :
  word x -> (x =? full v) = true <-> (forall n, 0 <= n < 32 -> Z.testbit x n = v).
Proof.
  intros Hx. rewrite Z.eqb_eq. split.
  - intros -> n Hn. by apply full_spec.
  - intros H. apply word_eq; [done | auto with bits |]. intros n Hn. by rewrite H, full_spec.
Qed.

(** ** Buffers *)

Lemma rd_lt buf i : 0 <= i < Z.of_nat (length buf) -> exists w, rd buf i = Some w.
Proof. intros Hi. apply lookup_lt_is_Some. lia. Qed.

Lemma wr_lt buf i w :
  0 <= i < Z.of_nat (length buf) -> wr buf i w = Some (<[Z.to_nat i := w]> buf).
Proof. intros Hi. unfold wr. by destruct (Z.ltb_spec i (Z.of_nat (length buf))); [| lia]. Qed.

Lemma bitat_rd buf i w : rd buf (i / 32) = Some w -> bitat buf i = Z.testbit w (i mod 32).
Proof. unfold rd, bitat. by intros ->. Qed.

Lemma bitat_wr buf p w i :
  0 <= p < Z.of_nat (length buf) -> 0 <= i ->
  bitat (<[Z.to_nat p := w]> buf) i =
  if i / 32 =? p then Z.testbit w (i mod 32) else bitat buf i.
Proof.
  intros Hp Hi. unfold bitat. assert (0 <= i / 32) by (apply Z.div_pos; lia).
  destruct (Z.eqb_spec (i / 32) p) as [<- | Hne].
  - rewrite list_lookup_insert_eq by lia. done.
  - rewrite list_lookup_insert_ne; [done | lia].
Qed.

Lemma words_wr buf p w : Forall word buf -> word w -> Forall word (<[p := w]> buf).
Proof. intros. by apply Forall_insert. Qed.

Lemma words_rd buf i w : Forall word buf -> rd buf i = Some w -> word w.
Proof. intros Hb Hw. by eapply Forall_lookup_1 in Hw. Qed.
#[export] Hint Resolve words_wr words_rd : bits.

Lemma fill_words_spec n : forall buf pos w,
  0 <= pos -> pos + Z.of_nat n <= Z.of_nat (length buf) -> Forall word buf -> word w ->
  exists buf', fill_words buf pos n w = Some buf' /\ length buf' = length buf /\
    Forall word buf' /\
    forall i, 0 <= i ->
      bitat buf' i = if (pos <=? i / 32) && (i / 32 <? pos + Z.of_nat n)
                     then Z.testbit w (i mod 32) else bitat buf i.
Proof.
  induction n as [| n IH]; intros buf pos w Hpos Hlen Hb Hw.
  - exists buf. repeat split; try done. intros i Hi.
    destruct (Z.leb_spec pos (i / 32)), (Z.ltb_spec (i / 32) (pos + Z.of_nat 0)); done || lia.
  - simpl. rewrite wr_lt by lia. simpl.
    destruct (IH (<[Z.to_nat pos := w]> buf) (pos + 1) w) as (buf' & E & L & W & B);
      [lia | rewrite length_insert; lia | auto with bits | done |].
    exists buf'. rewrite L, length_insert. repeat split; try done.
    intros i Hi. rewrite B, bitat_wr by lia.
    destruct (Z.leb_spec (pos + 1) (i / 32)), (Z.leb_spec pos (i / 32)), (Z.eqb_spec (i / 32) pos),
      (Z.ltb_spec (i / 32) (pos + 1 + Z.of_nat n)), (Z.ltb_spec (i / 32) (pos + Z.of_nat (S n)));
      done || lia.
Qed.

(** Facts on [i / 32] and [i mod 32] that [lia] uses. *)
Ltac divide32 i :=
  let Hd := fresh "Hdiv" in
  let Hm := fresh "Hmod" in
  pose proof (Z.div_mod i 32 ltac:(lia)) as Hd;
  pose proof (Z.mod_pos_bound i 32 ltac:(lia)) as Hm.

(** ** Setting and clearing a range

    A range in the bitmap starts at [start] and ends before [start + count]; no
    wrap-around is left once the guard has passed. *)

Lemma good_range b start count :
  bitmap_wf b -> 0 <= start -> 0 <= count ->
  bad_range b start count = false <-> 0 < count /\ start + count <= SizeOfBitMap b.
Proof.
  intros Hb Hs Hc. unfold bad_range. rewrite !orb_false_iff, Z.eqb_neq, Z.leb_gt, Z.ltb_ge. lia.
Qed.

(** [RtlSetBits] and [RtlClearBits] have one shape: what is written at the first
    word, at the words between, at the last word, or at a single word. *)
Definition write_range (first last single : Z -> Z) (fill : Z) (b : RTL_BITMAP)
    (start count : Z) : option RTL_BITMAP :=
  let end_ := u32 (start + count) in
  let pos := start / 32 in
  let end_pos := end_ / 32 in
  if bad_range b start count then Some b else
  if pos <? end_pos then
    w ← rd (Buffer b) pos;
    buf1 ← wr (Buffer b) pos (first w);
    buf2 ← fill_words buf1 (pos + 1) (Z.to_nat (end_pos - (pos + 1))) fill;
    if Z.land end_ 31 =? 0 then Some (set_Buffer b buf2) else
    w' ← rd buf2 end_pos;
    buf3 ← wr buf2 end_pos (last w');
    Some (set_Buffer b buf3)
  else
    w ← rd (Buffer b) pos;
    buf ← wr (Buffer b) pos (single w);
    Some (set_Buffer b buf).

(** The bits of the range get the value [v], all others stay. *)
Definition range_written (v : bool) (b b' : RTL_BITMAP) (start count : Z) : Prop :=
  bitmap_wf b' /\ SizeOfBitMap b' = SizeOfBitMap b /\
  length (Buffer b') = length (Buffer b) /\
  forall i, 0 <= i -> bit b' i = if in_range start count i then v else bit b i.

Section WriteRange.
Variables (v : bool) (first last single : Z -> Z) (start count : Z).
Hypothesis word_first : forall w, word w -> word (first w).
Hypothesis word_last : forall w, word w -> word (last w).
Hypothesis word_single : forall w, word w -> word (single w).
Hypothesis bits_first : forall w n, 0 <= n < 32 ->
  Z.testbit (first w) n = if start mod 32 <=? n then v else Z.testbit w n.
Hypothesis bits_last : forall w n, 0 <= n < 32 ->
  Z.testbit (last w) n = if n <? (start + count) mod 32 then v else Z.testbit w n.
Hypothesis bits_single : forall w n, 0 <= n < 32 ->
  Z.testbit (single w) n =
  if (start mod 32 <=? n) && (n <? (start + count) mod 32) then v else Z.testbit w n.

(** Decide the comparisons of a goal on bits and leave the rest to [lia]. *)
Ltac decide_bits :=
  repeat match goal with
  | |- context [?x <=? ?y] => destruct (Z.leb_spec x y)
  | |- context [?x <? ?y] => destruct (Z.ltb_spec x y)
  | |- context [?x =? ?y] => destruct (Z.eqb_spec x y)
  end; simpl; try done; try lia.

Lemma write_one b :
  bitmap_wf b -> 0 <= start -> 0 < count -> start + count <= SizeOfBitMap b ->
  start / 32 = (start + count) / 32 ->
  exists w buf, rd (Buffer b) (start / 32) = Some w /\
    wr (Buffer b) (start / 32) (single w) = Some buf /\
    range_written v b (set_Buffer b buf) start count.
Proof using word_single bits_single.
  intros [Hs Hr Hw] H0 Hc He Hp. divide32 start. divide32 (start + count).
  destruct (rd_lt (Buffer b) (start / 32)) as [w Ew]; [lia |].
  exists w. rewrite wr_lt by lia. eexists. split; [done |]. split; [done |].
  split; [| split; [done |]; split; [apply length_insert |]].
  - constructor; simpl; rewrite ?length_insert; [done | done |]. apply words_wr; [done |].
    eauto using words_rd.
  - intros i Hi. unfold bit. simpl. rewrite bitat_wr by lia.
    divide32 i. unfold in_range.
    destruct (Z.eqb_spec (i / 32) (start / 32)) as [E |].
    + rewrite bits_single by done. rewrite <- E in Ew. rewrite (bitat_rd _ _ _ Ew).
      decide_bits.
    + decide_bits.
Qed.

Lemma write_first b :
  bitmap_wf b -> 0 <= start -> 0 < count -> start + count <= SizeOfBitMap b ->
  start / 32 < (start + count) / 32 ->
  exists w buf1 buf2, rd (Buffer b) (start / 32) = Some w /\
    wr (Buffer b) (start / 32) (first w) = Some buf1 /\
    fill_words buf1 (start / 32 + 1)
      (Z.to_nat ((start + count) / 32 - (start / 32 + 1))) (full v) = Some buf2 /\
    length buf2 = length (Buffer b) /\ Forall word buf2 /\
    forall i, 0 <= i -> bitat buf2 i =
      if (start <=? i) && (i / 32 <? (start + count) / 32) then v else bit b i.
Proof using word_first bits_first.
  intros [Hs Hr Hw] H0 Hc He Hp. divide32 start. divide32 (start + count).
  destruct (rd_lt (Buffer b) (start / 32)) as [w Ew]; [lia |].
  exists w. rewrite wr_lt by lia. eexists.
  destruct (fill_words_spec (Z.to_nat ((start + count) / 32 - (start / 32 + 1)))
              (<[Z.to_nat (start / 32) := first w]> (Buffer b)) (start / 32 + 1) (full v))
    as (buf2 & E & L & W & B); [lia | rewrite length_insert; lia | eauto with bits | auto with bits |].
  exists buf2. rewrite L, length_insert. do 5 (split; [done |]).
  intros i Hi. rewrite B, bitat_wr by lia. unfold bit. divide32 i.
  rewrite full_spec by done. rewrite Z2Nat.id by lia.
  destruct (Z.eqb_spec (i / 32) (start / 32)) as [Ei |].
  - rewrite bits_first by done. rewrite <- Ei in Ew. rewrite (bitat_rd _ _ _ Ew). decide_bits.
  - decide_bits.
Qed.

Lemma write_range_spec b :
  bitmap_wf b -> 0 <= start -> 0 < count -> start + count <= SizeOfBitMap b ->
  exists b', write_range first last single (full v) b start count = Some b' /\
             range_written v b b' start count.
Proof using All.
  intros Hb H0 Hc He. unfold write_range.
  rewrite (proj2 (good_range b start count Hb H0 ltac:(lia))) by lia.
  destruct (Hb) as [Hs Hr Hw]. rewrite (uwrap_small 32 (start + count)) by lia.
  divide32 start. divide32 (start + count).
  destruct (Z.ltb_spec (start / 32) ((start + count) / 32)) as [Hlt | Hge].
  - destruct (write_first b Hb H0 Hc He Hlt) as (w & buf1 & buf2 & -> & E1 & E2 & L & W & B).
    simpl. rewrite E1. simpl. rewrite E2. simpl. rewrite land_31.
    destruct (Z.eqb_spec ((start + count) mod 32) 0) as [Ez | Enz].
    + eexists. split; [done |]. split; [constructor; simpl; rewrite ?L; done |].
      split; [done |]. split; [done |]. intros i Hi. unfold bit at 1. simpl. rewrite B by done.
      unfold in_range. divide32 i. decide_bits.
    + destruct (rd_lt buf2 ((start + count) / 32)) as [w' Ew']; [lia |].
      rewrite Ew'. simpl. rewrite wr_lt by lia. simpl. eexists. split; [done |].
      split; [constructor; simpl; rewrite ?length_insert, ?L; eauto with bits |].
      split; [done |]. split; [simpl; by rewrite length_insert |].
      intros i Hi. unfold bit at 1. simpl. rewrite bitat_wr by lia. unfold in_range. divide32 i.
      destruct (Z.eqb_spec (i / 32) ((start + count) / 32)) as [Ei |].
      * rewrite bits_last by done. rewrite <- Ei in Ew'.
        rewrite <- (bitat_rd _ _ _ Ew'), B by done. decide_bits.
      * rewrite B by done. decide_bits.
  - destruct (write_one b Hb H0 Hc He ltac:(lia)) as (w & buf & -> & E & R).
    simpl. rewrite E. simpl. eauto.
Qed.
End WriteRange.

(** Bits of the masks used below. *)
Ltac mask_bits :=
  repeat first [rewrite Z.lor_spec | rewrite Z.land_spec | rewrite not32_spec by lia
               | rewrite maskbits_spec by lia].

(** Decide the comparisons with bit [n] and the bit of [w] itself. *)
Ltac close_mask w n :=
  repeat (match goal with |- context [?x <=? n] => destruct (Z.leb_spec x n) end);
  repeat (match goal with |- context [n <? ?x] => destruct (Z.ltb_spec n x) end);
  destruct (Z.testbit w n); done || lia.

Lemma RtlSetBits_spec b start count :
  bitmap_wf b -> 0 <= start -> 0 < count -> start + count <= SizeOfBitMap b ->
  exists b', RtlSetBits b start count = Some b' /\ range_written true b b' start count.
Proof.
  intros Hb H0 Hc He. pose proof (wf_size b Hb).
  pose proof (write_range_spec true
    (fun w => Z.lor w (maskbits start))
    (fun w => Z.lor w (not32 (maskbits (start + count))))
    (fun w => Z.lor w (Z.land (maskbits start) (not32 (maskbits (start + count)))))
    start count) as H1.
  unfold RtlSetBits. rewrite (uwrap_small 32 (start + count)) by lia.
  unfold write_range in H1. rewrite (uwrap_small 32 (start + count)) in H1 by lia.
  apply H1; auto with bits; intros w n Hn; mask_bits; close_mask w n.
Qed.

Lemma RtlClearBits_spec b start count :
  bitmap_wf b -> 0 <= start -> 0 < count -> start + count <= SizeOfBitMap b ->
  exists b', RtlClearBits b start count = Some b' /\ range_written false b b' start count.
Proof.
  intros Hb H0 Hc He. pose proof (wf_size b Hb).
  pose proof (write_range_spec false
    (fun w => Z.land w (not32 (maskbits start)))
    (fun w => Z.land w (maskbits (start + count)))
    (fun w => Z.land w (Z.lor (not32 (maskbits start)) (maskbits (start + count))))
    start count) as H1.
  unfold RtlClearBits. rewrite (uwrap_small 32 (start + count)) by lia.
  unfold write_range in H1. rewrite (uwrap_small 32 (start + count)) in H1 by lia.
  apply H1; auto with bits; intros w n Hn; mask_bits; close_mask w n.
Qed.

(** ** Testing a range

    As above, the two tests have one shape: [first], [last] and [single] give the
    word compared with [full v]. *)
Definition test_range (v : bool) (first last single : Z -> Z) (b : RTL_BITMAP)
    (start count : Z) : option bool :=
  let end_ := u32 (start + count) in
  let pos := start / 32 in
  let end_pos := end_ / 32 in
  if bad_range b start count then Some false else
  w ← rd (Buffer b) pos;
  if end_pos =? pos then Some (single w =? full v) else
  if negb (first w =? full v) then Some false else
  all ← all_words (Buffer b) (pos + 1) (Z.to_nat (end_pos - (pos + 1))) (full v);
  if negb all then Some false else
  if Z.land end_ 31 =? 0 then Some true else
  w' ← rd (Buffer b) end_pos;
  Some (last w' =? full v).

(** Bit [n] of the word is tested, or is [v] already. *)
Definition tests (v : bool) (f : Z -> Z) (sel : Z -> bool) : Prop :=
  forall w, word w -> word (f w) /\
    forall n, 0 <= n < 32 -> Z.testbit (f w) n = if sel n then Z.testbit w n else v.

Lemma tests_full v f sel w :
  tests v f sel -> word w ->
  (f w =? full v) = true <-> (forall n, 0 <= n < 32 -> sel n = true -> Z.testbit w n = v).
Proof.
  intros Hf Hw. destruct (Hf w Hw) as [Hwf Hb]. rewrite eqb_full by done. split.
  - intros H n Hn Hs. specialize (H n Hn). rewrite Hb in H by done. by rewrite Hs in H.
  - intros H n Hn. rewrite Hb by done. destruct (sel n) eqn:E; [by apply H | done].
Qed.

(** The bits of word [p] that [sel] picks have the value [v]. *)
Definition word_bits (v : bool) (buf : list Z) (p : Z) (sel : Z -> bool) : Prop :=
  forall i, 0 <= i -> i / 32 = p -> sel (i mod 32) = true -> bitat buf i = v.

Lemma word_bits_rd v buf p sel w :
  0 <= p -> rd buf p = Some w ->
  word_bits v buf p sel <-> (forall n, 0 <= n < 32 -> sel n = true -> Z.testbit w n = v).
Proof.
  intros Hp Hw. split.
  - intros H n Hn Hs. assert (E : (32 * p + n) / 32 = p) by (rewrite Z.mul_comm, Z.div_add_l, Z.div_small; lia).
    assert (M : (32 * p + n) mod 32 = n) by (rewrite Z.mul_comm, Z.add_comm, Z.mod_add, Z.mod_small; lia).
    rewrite <- (H (32 * p + n)); [| lia | done | by rewrite M].
    rewrite (bitat_rd _ _ w); [by rewrite M | by rewrite E].
  - intros H i Hi <- Hs. rewrite (bitat_rd _ _ _ Hw). apply H; [| done].
    apply Z.mod_pos_bound. lia.
Qed.

Lemma all_words_spec v n : forall buf pos,
  0 <= pos -> pos + Z.of_nat n <= Z.of_nat (length buf) -> Forall word buf ->
  exists r, all_words buf pos n (full v) = Some r /\
    (r = true <-> forall p, pos <= p < pos + Z.of_nat n -> word_bits v buf p (fun _ => true)).
Proof.
  induction n as [| n IH]; intros buf pos Hp Hl Hw.
  - exists true. split; [done |]. split; [lia | done].
  - simpl. destruct (rd_lt buf pos) as [w Ew]; [lia |]. rewrite Ew. simpl.
    assert (Hx : (w =? full v) = true <-> word_bits v buf pos (fun _ => true)).
    { rewrite eqb_full by eauto with bits. rewrite (word_bits_rd v buf pos _ w) by done.
      split; [intros H k Hk _; by apply H | intros H k Hk; by apply H]. }
    destruct (w =? full v).
    + destruct (IH buf (pos + 1)) as (r & -> & Hr); [lia | lia | done |].
      exists r. split; [done |]. rewrite Hr. split.
      * intros H p Hr'. destruct (Z.eq_dec p pos) as [-> |]; [by apply Hx | apply H; lia].
      * intros H p Hr'. apply H. lia.
    + exists false. split; [done |]. split; [done |]. intros H.
      apply Hx, H. lia.
Qed.

Lemma all_words_bits v buf pos end_ :
  (forall p, pos <= p < end_ -> word_bits v buf p (fun _ => true)) <->
  (forall i, 0 <= i -> pos <= i / 32 < end_ -> bitat buf i = v).
Proof.
  split; [intros H i Hi Hr; by apply (H (i / 32)) |].
  intros H p Hp i Hi <- _. by apply H.
Qed.

Section TestRange.
Variables (v : bool) (first last single : Z -> Z) (start count : Z).
Hypothesis tests_first : tests v first (fun n => start mod 32 <=? n).
Hypothesis tests_last : tests v last (fun n => n <? (start + count) mod 32).
Hypothesis tests_single :
  tests v single (fun n => (start mod 32 <=? n) && (n <? (start + count) mod 32)).

(** A range within one word, and a range that leaves its first word. *)
Lemma one_word_bits b :
  0 <= start -> start / 32 = (start + count) / 32 ->
  word_bits v (Buffer b) (start / 32)
    (fun n => (start mod 32 <=? n) && (n <? (start + count) mod 32)) <->
  all_bits v b start count.
Proof using.
  intros H0 Hp. divide32 start. divide32 (start + count).
  unfold word_bits, all_bits. setoid_rewrite andb_true_iff. setoid_rewrite Z.leb_le.
  setoid_rewrite Z.ltb_lt. split; intros H i; divide32 i.
  - intros Hi. apply H; lia.
  - intros Hi Hd' Hs. apply H. lia.
Qed.

Lemma many_words_bits b :
  0 <= start -> start / 32 < (start + count) / 32 ->
  all_bits v b start count <->
  word_bits v (Buffer b) (start / 32) (fun n => start mod 32 <=? n) /\
  (forall p, start / 32 + 1 <= p < (start + count) / 32 ->
     word_bits v (Buffer b) p (fun _ => true)) /\
  word_bits v (Buffer b) ((start + count) / 32) (fun n => n <? (start + count) mod 32).
Proof using.
  intros H0 Hp. rewrite all_words_bits. divide32 start. divide32 (start + count).
  unfold word_bits, all_bits, bit. setoid_rewrite Z.leb_le. setoid_rewrite Z.ltb_lt. split.
  - intros H. split; [| split]; intros i; divide32 i; intros; apply H; lia.
  - intros (H1 & H2 & H3) i Hi. divide32 i.
    destruct (Z.eq_dec (i / 32) (start / 32)); [apply H1; lia |].
    destruct (Z.eq_dec (i / 32) ((start + count) / 32)); [apply H3; lia | apply H2; lia].
Qed.

Lemma last_word_empty b :
  (start + count) mod 32 = 0 ->
  word_bits v (Buffer b) ((start + count) / 32) (fun n => n <? (start + count) mod 32).
Proof using.
  intros E i Hi Hd Hs. divide32 i. apply Z.ltb_lt in Hs. lia.
Qed.

Lemma test_range_spec b :
  bitmap_wf b -> 0 <= start -> 0 <= count ->
  exists r, test_range v first last single b start count = Some r /\
    (r = true <-> 0 < count /\ start + count <= SizeOfBitMap b /\ all_bits v b start count).
Proof using All.
  intros Hb H0 Hc. unfold test_range. pose proof (good_range b start count Hb H0 Hc) as Hg.
  destruct (bad_range b start count).
  { exists false. split; [done |]. split; [done |]. intros (? & ? & _). symmetry. by apply Hg. }
  destruct (proj1 Hg eq_refl) as [Hc' He]. clear Hg. destruct Hb as [Hs Hr Hw].
  rewrite (uwrap_small 32 (start + count)) by lia. divide32 start. divide32 (start + count).
  enough (HH : exists r, (w ← rd (Buffer b) (start / 32);
    if (start + count) / 32 =? start / 32 then Some (single w =? full v) else
    if negb (first w =? full v) then Some false else
    all ← all_words (Buffer b) (start / 32 + 1)
            (Z.to_nat ((start + count) / 32 - (start / 32 + 1))) (full v);
    if negb all then Some false else
    if Z.land (start + count) 31 =? 0 then Some true else
    w' ← rd (Buffer b) ((start + count) / 32); Some (last w' =? full v)) = Some r /\
    (r = true <-> all_bits v b start count)).
  { destruct HH as (r & -> & Hr'). exists r. split; [done |]. rewrite Hr'. tauto. }
  destruct (rd_lt (Buffer b) (start / 32)) as [w Ew]; [lia |]. rewrite Ew. simpl.
  destruct (Z.eqb_spec ((start + count) / 32) (start / 32)) as [E | E].
  { eexists. split; [done |]. rewrite (tests_full _ _ _ _ tests_single) by eauto with bits.
    rewrite <- (word_bits_rd v (Buffer b) (start / 32)) by (done || lia). by apply one_word_bits. }
  setoid_rewrite (many_words_bits b H0 ltac:(lia)).
  pose proof (tests_full _ _ _ w tests_first ltac:(eauto with bits)) as Hf.
  rewrite <- (word_bits_rd v (Buffer b) (start / 32)) in Hf by (done || lia).
  destruct (first w =? full v); simpl;
    [| exists false; split; [done |]; split; [done |]; intros (? & _); by apply Hf].
  destruct (all_words_spec v (Z.to_nat ((start + count) / 32 - (start / 32 + 1)))
              (Buffer b) (start / 32 + 1)) as (r & -> & Hrr); [lia | lia | done |].
  rewrite Z2Nat.id in Hrr by lia.
  replace (start / 32 + 1 + ((start + count) / 32 - (start / 32 + 1)))
    with ((start + count) / 32) in Hrr by lia.
  simpl. destruct r; simpl;
    [| exists false; split; [done |]; split; [done |]; intros (_ & ? & _); by apply Hrr].
  rewrite land_31. destruct (Z.eqb_spec ((start + count) mod 32) 0) as [Ez | Enz].
  { exists true. split; [done |]. split; [| done]. intros _.
    split; [by apply Hf |]. split; [by apply Hrr | by apply last_word_empty]. }
  destruct (rd_lt (Buffer b) ((start + count) / 32)) as [w' Ew']; [lia |]. rewrite Ew'. simpl.
  eexists. split; [done |]. rewrite (tests_full _ _ _ _ tests_last) by eauto with bits.
  rewrite <- (word_bits_rd v (Buffer b) ((start + count) / 32)) by (done || lia).
  split; [intros H; split; [by apply Hf |]; split; [by apply Hrr | done] | by intros (_ & _ & ?)].
Qed.
End TestRange.

Lemma RtlAreBitsSet_spec b start count :
  bitmap_wf b -> 0 <= start < 2 ^ 32 -> 0 <= count < 2 ^ 32 ->
  exists r, RtlAreBitsSet b start count = Some r /\
    (r = true <-> 0 < count /\ start + count <= SizeOfBitMap b /\ all_bits true b start count).
Proof.
  intros Hb H0 Hc. pose proof (wf_size b Hb).
  assert (E : RtlAreBitsSet b start count = test_range true
    (fun w => Z.lor w (not32 (maskbits start)))
    (fun w => Z.lor w (maskbits (start + count)))
    (fun w => Z.lor (Z.lor w (not32 (maskbits start))) (maskbits (start + count))) b start count).
  { unfold RtlAreBitsSet, test_range. destruct (bad_range b start count) eqn:E; [done |].
    apply (good_range b start count Hb) in E; [| lia | lia].
    by rewrite (uwrap_small 32 (start + count)) by lia. }
  rewrite E. apply test_range_spec; try (done || lia); intros w Hw; (split; [auto 6 with bits |]);
    intros n Hn; mask_bits; close_mask w n.
Qed.

Lemma RtlAreBitsClear_spec b start count :
  bitmap_wf b -> 0 <= start < 2 ^ 32 -> 0 <= count < 2 ^ 32 ->
  exists r, RtlAreBitsClear b start count = Some r /\
    (r = true <-> 0 < count /\ start + count <= SizeOfBitMap b /\ all_bits false b start count).
Proof.
  intros Hb H0 Hc. pose proof (wf_size b Hb).
  assert (E : RtlAreBitsClear b start count = test_range false
    (fun w => Z.land w (maskbits start))
    (fun w => Z.land w (not32 (maskbits (start + count))))
    (fun w => Z.land (Z.land w (maskbits start)) (not32 (maskbits (start + count)))) b start count).
  { unfold RtlAreBitsClear, test_range. destruct (bad_range b start count) eqn:E; [done |].
    apply (good_range b start count Hb) in E; [| lia | lia].
    by rewrite (uwrap_small 32 (start + count)) by lia. }
  rewrite E. apply test_range_spec; try (done || lia); intros w Hw; (split; [auto 6 with bits |]);
    intros n Hn; mask_bits; close_mask w n.
Qed.

(** ** Searching a range of equal bits *)

(** A block of [count] bits of value [v] at [p], within the bitmap. *)
Definition block (v : bool) (b : RTL_BITMAP) (count p : Z) : Prop :=
  0 <= p /\ p + count <= SizeOfBitMap b /\ all_bits v b p count.

(** [r] is the first position of [[lo, hi)] that satisfies [good], or the code for
    none. *)
Definition first_in (good : Z -> Prop) (lo hi r : Z) : Prop :=
  (r = ALL_ONES /\ forall p, lo <= p < hi -> ~ good p) \/
  (lo <= r < hi /\ good r /\ forall p, lo <= p < r -> ~ good p).

Section FindLoop.
Variables (good : Z -> Prop) (test : Z -> option bool) (size : Z).
Hypothesis size_word : 0 <= size < 2 ^ 32.
Hypothesis test_good : forall p, 0 <= p < size -> exists r, test p = Some r /\ (r = true <-> good p).

Lemma find_loop_plain n : forall pos en,
  0 <= pos <= en -> en <= size -> en - pos < Z.of_nat n ->
  exists r, find_bits_loop n test pos en 0 = Some r /\ first_in good pos en r.
Proof using size_word test_good.
  induction n as [| n IH]; intros pos en Hp He Hn.
  - lia.
  - simpl. destruct (Z.ltb_spec pos en) as [Hlt | Hge].
    + destruct (test_good pos) as (r & -> & Hr); [lia |]. simpl. destruct r.
      { exists pos. split; [done |]. right. split; [lia |]. split; [by apply Hr | lia]. }
      rewrite andb_false_r, (uwrap_small 32 (pos + 1)) by lia.
      destruct (IH (pos + 1) en) as (r & E & F); [lia | lia | lia |].
      exists r. split; [done |].
      assert (Hno : forall p, pos <= p -> ~ good p \/ pos + 1 <= p).
      { intros p Hp'. destruct (Z.eq_dec p pos) as [-> |]; [left | right; lia].
        intros Hg. by apply Hr in Hg. }
      destruct F as [[-> F] | (F1 & F2 & F3)]; [left | right].
      * split; [done |]. intros p Hp'. destruct (Hno p ltac:(lia)); [done | apply F; lia].
      * split; [lia |]. split; [done |]. intros p Hp'.
        destruct (Hno p ltac:(lia)); [done | apply F3; lia].
    + exists ALL_ONES. split; [done |]. left. split; [done |]. lia.
Qed.

Lemma find_loop_hint n : forall pos hint,
  0 < hint <= pos -> pos < size -> size - pos + hint < Z.of_nat n ->
  exists r, find_bits_loop n test pos size hint = Some r /\
    ((pos <= r < size /\ first_in good pos size r) \/
     ((forall p, pos <= p < size -> ~ good p) /\ first_in good 0 hint r)).
Proof using size_word test_good.
  induction n as [| n IH]; intros pos hint Hh Hp Hn; [lia |].
  simpl. destruct (Z.ltb_spec pos size) as [_ |]; [| lia].
  destruct (test_good pos) as (r & -> & Hr); [lia |]. simpl. destruct r.
  { exists pos. split; [done |]. left. split; [lia |]. right. split; [lia |].
    split; [by apply Hr | lia]. }
  assert (Hno : ~ good pos) by (intros Hg; by apply Hr in Hg).
  rewrite (uwrap_small 32 (size - 1)), (uwrap_small 32 (pos + 1)) by lia.
  destruct (Z.eqb_spec hint 0) as [| _]; [lia |]. rewrite andb_true_r.
  destruct (Z.eqb_spec pos (size - 1)) as [-> | Hne].
  - destruct (find_loop_plain n 0 hint) as (r & E & F); [lia | lia | lia |].
    exists r. split; [done |]. right. split; [| done]. intros p Hp'.
    by replace p with (size - 1) by lia.
  - destruct (IH (pos + 1) hint) as (r & E & F); [lia | lia | lia |].
    exists r. split; [done |]. destruct F as [[F1 F2] | [F1 F2]]; [left | right].
    + split; [lia |]. destruct F2 as [[-> F] | (_ & F3 & F4)]; [unfold ALL_ONES in *; lia |].
      right. split; [lia |]. split; [done |]. intros p Hp'.
      destruct (Z.eq_dec p pos) as [-> |]; [done | apply F4; lia].
    + split; [| done]. intros p Hp'.
      destruct (Z.eq_dec p pos) as [-> |]; [done | apply F1; lia].
Qed.
End FindLoop.

(** The hint the search starts from. *)
Definition start_hint (b : RTL_BITMAP) (count hint : Z) : Z :=
  if SizeOfBitMap b <? hint + count then 0 else hint.

(** First fit from the hint on, then from the start of the bitmap. *)
Definition first_fit (v : bool) (b : RTL_BITMAP) (count hint r : Z) : Prop :=
  let h := start_hint b count hint in
  (h <= r < SizeOfBitMap b /\ first_in (block v b count) h (SizeOfBitMap b) r) \/
  ((forall p, h <= p < SizeOfBitMap b -> ~ block v b count p) /\
   first_in (block v b count) 0 h r).

Section FindBits.
Variables (v : bool) (test : RTL_BITMAP -> Z -> Z -> option bool).
Hypothesis test_spec : forall b start count,
  bitmap_wf b -> 0 <= start < 2 ^ 32 -> 0 <= count < 2 ^ 32 ->
  exists r, test b start count = Some r /\
    (r = true <-> 0 < count /\ start + count <= SizeOfBitMap b /\ all_bits v b start count).

Lemma find_bits_spec b count hint :
  bitmap_wf b -> 0 < count <= SizeOfBitMap b -> 0 <= hint -> hint + count < 2 ^ 32 ->
  exists r, find_bits test (Some b) count hint = Some r /\ first_fit v b count hint r.
Proof using test_spec.
  intros Hb Hc Hh Hhc. pose proof (wf_size b Hb) as Hs. unfold find_bits, first_fit, start_hint.
  destruct (Z.eqb_spec count 0) as [| _]; [lia |].
  destruct (Z.ltb_spec (SizeOfBitMap b) count) as [| _]; [lia |].
  rewrite (uwrap_small 32 (hint + count)) by lia. cbv zeta.
  assert (Ht : forall p, 0 <= p < SizeOfBitMap b -> exists r,
    test b p count = Some r /\ (r = true <-> block v b count p)).
  { intros p Hp. destruct (test_spec b p count Hb) as (r & E & Hr); [lia | lia |].
    exists r. split; [done |]. rewrite Hr. unfold block.
    split; [intros (_ & ? & ?) | intros (_ & ? & ?)]; (split; [lia |]); done. }
  cbn [orb].
  set (h := if SizeOfBitMap b <? hint + count then 0 else hint).
  assert (Hr : h = 0 \/ 0 < h < SizeOfBitMap b).
  { unfold h. destruct (Z.ltb_spec (SizeOfBitMap b) (hint + count)); lia. }
  destruct Hr as [-> | Hr].
  - destruct (find_loop_plain (block v b count) (fun p => test b p count) (SizeOfBitMap b) Hs Ht
                (S (Z.to_nat (SizeOfBitMap b))) 0 (SizeOfBitMap b)) as (r & E & F); [lia | lia | lia |].
    exists r. split; [done |]. destruct F as [[-> F] | F]; [right | left].
    + split; [done |]. left. split; [done | lia].
    + split; [tauto |]. by right.
  - destruct (find_loop_hint (block v b count) (fun p => test b p count) (SizeOfBitMap b) Hs Ht
                (S (Z.to_nat (SizeOfBitMap b))) h h) as (r & E & F); [lia | lia | lia |].
    eauto.
Qed.
End FindBits.

(** What a search result means for the bits: a block, or none at all. *)
Lemma first_fit_block v b count hint r :
  bitmap_wf b -> 0 < count -> first_fit v b count hint r ->
  (r = ALL_ONES /\ forall p, ~ block v b count p) \/ (r <> ALL_ONES /\ block v b count r).
Proof.
  intros Hb Hc. pose proof (wf_size b Hb) as Hs. unfold first_fit, first_in. cbv zeta.
  assert (Hne : forall p, block v b count p -> p <> ALL_ONES).
  { intros p (H0 & H1 & _). unfold ALL_ONES. lia. }
  intros [[Hr [[-> _] | (_ & Hg & _)]] | [Hn [[-> Hm] | (_ & Hg & _)]]].
  - exfalso. unfold ALL_ONES in Hr. lia.
  - right. split; [by apply Hne | done].
  - left. split; [done |]. intros p Hp. destruct (Z.lt_ge_cases p (start_hint b count hint)).
    + apply (Hm p); [| done]. destruct Hp as (? & _). lia.
    + apply (Hn p); [| done]. destruct Hp as (? & ? & _). lia.
  - right. split; [by apply Hne | done].
Qed.

(** ** Counting *)

(** The number of set bits below [n]. *)
Definition set_below (b : RTL_BITMAP) (n : nat) : Z :=
  Z.of_nat (length (filter (fun i => bit b (Z.of_nat i) = true) (seq 0 n))).

Lemma set_below_S b n : set_below b (S n) = set_below b n + Z.b2z (bit b (Z.of_nat n)).
Proof.
  unfold set_below. rewrite seq_S, list.filter_app, length_app, filter_cons, filter_nil. simpl.
  destruct (bit b (Z.of_nat n)); simpl; lia.
Qed.

Lemma set_below_bound b n : 0 <= set_below b n <= Z.of_nat n.
Proof.
  induction n as [| n IH]; [done |]. rewrite set_below_S.
  destruct (bit b (Z.of_nat n)); simpl Z.b2z; lia.
Qed.

(** Bits counted in word [k] are the bits from [32 k] on. *)
Lemma popcnt_bits_spec b k w n :
  (n <= 32)%nat ->
  (forall j, 0 <= j < Z.of_nat n -> Z.testbit w j = bit b (32 * Z.of_nat k + j)) ->
  set_below b (32 * k + n) = set_below b (32 * k) + popcnt_bits w n.
Proof.
  intros Hn. induction n as [| n IH]; intros Hb.
  - rewrite Nat.add_0_r. cbn [popcnt_bits]. lia.
  - replace (32 * k + S n)%nat with (S (32 * k + n)) by lia.
    rewrite set_below_S, IH; [| lia | intros j Hj; apply Hb; lia].
    simpl popcnt_bits. rewrite Hb by lia.
    replace (Z.of_nat (32 * k + n)) with (32 * Z.of_nat k + Z.of_nat n) by lia. lia.
Qed.

Lemma bit_of_word b k w j :
  rd (Buffer b) (Z.of_nat k) = Some w -> 0 <= j < 32 -> bit b (32 * Z.of_nat k + j) = Z.testbit w j.
Proof.
  intros Hw Hj. divide32 (32 * Z.of_nat k + j). unfold bit.
  rewrite (bitat_rd _ _ w); [f_equal; lia |].
  by replace ((32 * Z.of_nat k + j) / 32) with (Z.of_nat k) by lia.
Qed.

Lemma popcnt_words_spec b n : forall k,
  bitmap_wf b -> 32 * (Z.of_nat k + Z.of_nat n) <= SizeOfBitMap b ->
  popcnt_words (Buffer b) (Z.of_nat k) n (set_below b (32 * k)) = Some (set_below b (32 * (k + n))).
Proof.
  induction n as [| n IH]; intros k Hb Hl.
  - by rewrite Nat.add_0_r.
  - destruct (Hb) as [Hs Hr Hw]. cbn [popcnt_words].
    destruct (rd_lt (Buffer b) (Z.of_nat k)) as [w Ew]; [lia |]. rewrite Ew. cbn [mbind option_bind].
    assert (E : set_below b (32 * S k) = set_below b (32 * k) + popcnt w).
    { replace (32 * S k)%nat with (32 * k + 32)%nat by lia. apply popcnt_bits_spec; [done |].
      intros j Hj. symmetry. by apply bit_of_word. }
    rewrite <- E. rewrite uwrap_small by (pose proof (set_below_bound b (32 * S k)); lia).
    replace (Z.of_nat k + 1) with (Z.of_nat (S k)) by lia. rewrite (IH (S k) Hb) by lia.
    do 2 f_equal. lia.
Qed.

(** The intrinsic on a word without its bits from [m] on. *)
Lemma popcnt_low_mask w (m : nat) :
  (m <= 32)%nat -> popcnt_bits (Z.land w (Z.ones (Z.of_nat m))) 32 = popcnt_bits w m.
Proof.
  intros Hm. assert (H : forall n, (n <= 32)%nat ->
    popcnt_bits (Z.land w (Z.ones (Z.of_nat m))) n = popcnt_bits w (Nat.min n m)).
  { induction n as [| n IH]; intros Hn; [done |]. simpl popcnt_bits at 1.
    rewrite IH, Z.land_spec by lia. destruct (decide (n < m)%nat) as [Hlt | Hge].
    - rewrite !Nat.min_l by lia. rewrite Z.ones_spec_low by lia. by rewrite andb_true_r.
    - rewrite !Nat.min_r by lia. rewrite Z.ones_spec_high by lia. rewrite andb_false_r. simpl. lia. }
  rewrite H by done. by rewrite Nat.min_r.
Qed.

Lemma low_mask m w :
  word w -> Z.land w (not32 (maskbits m)) = Z.land w (Z.ones (m mod 32)).
Proof.
  intros Hw. pose proof (Z.mod_pos_bound m 32 ltac:(lia)).
  apply Z.bits_inj'. intros n Hn. rewrite !Z.land_spec.
  destruct (Z.lt_ge_cases n 32); [| by rewrite word_high].
  rewrite not32_spec, maskbits_spec by lia. rewrite Z.testbit_ones by lia.
  destruct (Z.leb_spec (m mod 32) n), (Z.ltb_spec n (m mod 32)), (Z.leb_spec 0 n); simpl; done || lia.
Qed.

Lemma RtlNumberOfSetBits_spec b :
  bitmap_wf b -> RtlNumberOfSetBits b = Some (set_below b (Z.to_nat (SizeOfBitMap b))).
Proof.
  intros Hb. destruct (Hb) as [Hs Hr Hw]. unfold RtlNumberOfSetBits. divide32 (SizeOfBitMap b).
  pose proof (popcnt_words_spec b (Z.to_nat (SizeOfBitMap b / 32)) 0 Hb ltac:(lia)) as E.
  change (set_below b (32 * 0)) with 0 in E. change (Z.of_nat 0) with 0 in E. rewrite E. cbn [mbind option_bind].
  rewrite land_31. cbn [Nat.add].
  destruct (Z.eqb_spec (SizeOfBitMap b mod 32) 0) as [Ez | Enz].
  - do 2 f_equal. lia.
  - destruct (rd_lt (Buffer b) (SizeOfBitMap b / 32)) as [w Ew]; [lia |]. rewrite Ew. cbn [mbind option_bind].
    rewrite low_mask by eauto with bits. do 2 f_equal.
    set (m := Z.to_nat (SizeOfBitMap b mod 32)). set (k := Z.to_nat (SizeOfBitMap b / 32)).
    replace (Z.to_nat (SizeOfBitMap b)) with (32 * k + m)%nat by lia.
    replace (SizeOfBitMap b mod 32) with (Z.of_nat m) by lia.
    unfold popcnt. rewrite popcnt_low_mask by lia.
    rewrite <- (popcnt_bits_spec b k w m); [| lia |].
    + apply uwrap_small. pose proof (set_below_bound b (32 * k + m)). lia.
    + intros j Hj. symmetry. apply bit_of_word; [| lia]. by replace (Z.of_nat k) with (SizeOfBitMap b / 32) by lia.
Qed.

(** ** Most and least significant bit *)

Lemma has_flag_shift dw k m :
  0 <= k -> has_flag dw (Z.shiftl m k) = has_flag (Z.shiftr dw k) m.
Proof.
  intros Hk. unfold has_flag. f_equal.
  replace (Z.land dw (Z.shiftl m k)) with (Z.shiftl (Z.land (Z.shiftr dw k) m) k).
  - rewrite Z.shiftl_mul_pow2 by done. pose proof (Z.pow_pos_nonneg 2 k).
    destruct (Z.eqb_spec (Z.land (Z.shiftr dw k) m) 0), (Z.eqb_spec (Z.land (Z.shiftr dw k) m * 2 ^ k) 0);
      done || nia.
  - apply Z.bits_inj'. intros n Hn. rewrite Z.land_spec, !Z.shiftl_spec, Z.land_spec by done.
    destruct (Z.lt_ge_cases n k).
    + rewrite !(Z.testbit_neg_r _ (n - k)) by lia. by rewrite !andb_false_r.
    + rewrite Z.shiftr_spec by lia. by replace (n - k + k) with n by lia.
Qed.

Lemma has_flag_ones x k : 0 <= k -> has_flag x (Z.ones k) = negb (x mod 2 ^ k =? 0).
Proof. intros Hk. unfold has_flag. by rewrite Z.land_ones. Qed.

(** The test [dw & (0xff..0 of k bits)] on a number of [2 k] bits. *)
Lemma has_high dw k :
  0 <= k -> 0 <= dw < 2 ^ (2 * k) ->
  has_flag dw (Z.shiftl (Z.ones k) k) = negb (Z.shiftr dw k =? 0).
Proof.
  intros Hk Hd. rewrite has_flag_shift, has_flag_ones by done.
  rewrite Z.mod_small; [done |]. rewrite Z.shiftr_div_pow2 by done.
  replace (2 * k) with (k + k) in Hd by lia. rewrite Z.pow_add_r in Hd by done.
  pose proof (Z.pow_pos_nonneg 2 k ltac:(lia) Hk).
  split; [apply Z.div_pos; lia | apply Z.div_lt_upper_bound; lia].
Qed.

(** One halving step of the search for the highest bit: [ret + log2 dw] is kept. *)
Lemma msb_step ret dw k :
  0 < k -> 0 < dw < 2 ^ (2 * k) ->
  let p := if has_flag dw (Z.shiftl (Z.ones k) k) then (ret + k, Z.shiftr dw k) else (ret, dw) in
  0 < p.2 < 2 ^ k /\ p.1 + Z.log2 p.2 = ret + Z.log2 dw.
Proof.
  intros Hk Hd. rewrite has_high by lia. rewrite !Z.shiftr_div_pow2 by lia.
  pose proof (Z.pow_pos_nonneg 2 k ltac:(lia) ltac:(lia)) as Hp.
  replace (2 * k) with (k + k) in Hd by lia. rewrite Z.pow_add_r in Hd by lia.
  destruct (Z.eqb_spec (dw / 2 ^ k) 0) as [E | E]; simpl.
  - apply Z.div_small_iff in E; [| lia]. lia.
  - assert (0 < dw / 2 ^ k) by (pose proof (Z.div_pos dw (2 ^ k)); lia).
    split; [split; [done | apply Z.div_lt_upper_bound; lia] |].
    rewrite <- Z.shiftr_div_pow2 by lia. rewrite Z.log2_shiftr by lia.
    assert (k <= Z.log2 dw).
    { apply Z.log2_le_pow2; [lia |]. destruct (Z.lt_ge_cases dw (2 ^ k)); [| done].
      rewrite Z.div_small in E by lia. done. }
    lia.
Qed.

(** A property of all numbers below 16 or below 256 by enumeration. *)
Lemma by_cases (P : Z -> Prop) (n : nat) x :
  Forall P (Z.of_nat <$> seq 0 n) -> 0 <= x < Z.of_nat n -> P x.
Proof.
  intros H Hx. rewrite list.Forall_forall in H. apply H, list_elem_of_fmap. exists (Z.to_nat x).
  split; [lia |]. apply elem_of_seq. lia.
Qed.

Lemma nibble_msb dw : 0 < dw < 16 -> NTDLL_mostSignificant !! Z.to_nat dw = Some (Z.log2 dw).
Proof.
  intros Hd. revert dw Hd.
  enough (H : forall dw, 0 <= dw < 16 -> 0 < dw -> NTDLL_mostSignificant !! Z.to_nat dw = Some (Z.log2 dw))
    by (intros; apply H; lia).
  intros dw Hd. pattern dw. refine (by_cases _ 16 dw _ Hd). repeat constructor; done.
Qed.

(** The rest of [RtlFindMostSignificantBit] on a 32-bit half. *)
Lemma msb_word ret dw :
  0 < dw < 2 ^ 32 ->
  (let '(ret, dw) := if has_flag dw 0xffff0000 then (ret + 16, Z.shiftr dw 16) else (ret, dw) in
   let '(ret, dw) := if has_flag dw 0xff00 then (ret + 8, Z.shiftr dw 8) else (ret, dw) in
   let '(ret, dw) := if has_flag dw 0xf0 then (ret + 4, Z.shiftr dw 4) else (ret, dw) in
   t ← NTDLL_mostSignificant !! Z.to_nat dw;
   Some (ret + t)) = Some (ret + Z.log2 dw).
Proof.
  intros Hd.
  change 0xffff0000 with (Z.shiftl (Z.ones 16) 16). change 0xff00 with (Z.shiftl (Z.ones 8) 8).
  change 0xf0 with (Z.shiftl (Z.ones 4) 4).
  pose proof (msb_step ret dw 16 ltac:(lia) Hd) as H1. cbv zeta in H1. revert H1.
  destruct (if has_flag dw (Z.shiftl (Z.ones 16) 16) then _ else _) as [r1 d1].
  cbn [fst snd]. intros [H1 <-].
  pose proof (msb_step r1 d1 8 ltac:(lia) H1) as H2. cbv zeta in H2. revert H2.
  destruct (if has_flag d1 (Z.shiftl (Z.ones 8) 8) then _ else _) as [r2 d2].
  cbn [fst snd]. intros [H2 <-].
  pose proof (msb_step r2 d2 4 ltac:(lia) H2) as H3. cbv zeta in H3. revert H3.
  destruct (if has_flag d2 (Z.shiftl (Z.ones 4) 4) then _ else _) as [r3 d3].
  cbn [fst snd]. intros [H3 <-]. by rewrite nibble_msb.
Qed.

Lemma high_half x : 0 <= x < 2 ^ 64 -> u32 (Z.shiftr x 32) = Z.shiftr x 32.
Proof.
  intros Hx. apply uwrap_small. rewrite Z.shiftr_div_pow2 by lia.
  split; [apply Z.div_pos; lia | apply Z.div_lt_upper_bound; lia].
Qed.

Lemma RtlFindMostSignificantBit_spec x :
  0 < x < 2 ^ 64 -> RtlFindMostSignificantBit x = Some (Z.log2 x).
Proof.
  intros Hx. unfold RtlFindMostSignificantBit. cbv zeta.
  pose proof (msb_step 0 x 32 ltac:(lia) Hx) as H.
  rewrite has_high in H by lia. cbv zeta in H. rewrite high_half by lia.
  destruct (Z.eqb_spec (Z.shiftr x 32) 0) as [E | E]; cbn [negb fst snd] in H.
  - rewrite (uwrap_small 32 x) by lia. apply (msb_word 0). lia.
  - etransitivity; [apply (msb_word 32); lia |]. f_equal. lia.
Qed.

(** [r] is the position of the lowest set bit of [x]. *)
Definition lowest_bit (x r : Z) : Prop :=
  0 <= r /\ Z.testbit x r = true /\ forall j, 0 <= j < r -> Z.testbit x j = false.

Lemma lowest_bit_shift x k r :
  0 <= k -> x mod 2 ^ k = 0 -> lowest_bit (Z.shiftr x k) r -> lowest_bit x (r + k).
Proof.
  intros Hk Hm (H0 & H1 & H2). split; [lia |]. rewrite Z.shiftr_spec in H1 by done.
  split; [done |]. intros j Hj. destruct (Z.lt_ge_cases j k).
  - rewrite <- (Z.mod_pow2_bits_low x k j) by lia. rewrite Hm. apply Z.testbit_0_l.
  - specialize (H2 (j - k) ltac:(lia)). rewrite Z.shiftr_spec in H2 by lia.
    by replace (j - k + k) with j in H2 by lia.
Qed.

Lemma lowest_bit_low x k r :
  0 <= k -> lowest_bit (x mod 2 ^ k) r -> lowest_bit x r.
Proof.
  intros Hk (H0 & H1 & H2).
  assert (r < k).
  { destruct (Z.lt_ge_cases r k); [done |]. by rewrite Z.mod_pow2_bits_high in H1 by lia. }
  split; [done |]. rewrite Z.mod_pow2_bits_low in H1 by done. split; [done |].
  intros j Hj. rewrite <- (Z.mod_pow2_bits_low x k j) by lia. by apply H2.
Qed.

(** One step of the search for the lowest bit, on a number whose low [2 k] bits are
    not all zero. *)
Lemma lsb_step ret x k :
  0 <= k -> x mod 2 ^ (2 * k) <> 0 ->
  let p := if has_flag x (Z.ones k) then (ret, x) else (ret + k, Z.shiftr x k) in
  p.2 mod 2 ^ k <> 0 /\
  (forall r, lowest_bit p.2 (r - p.1) -> lowest_bit x (r - ret)).
Proof.
  intros Hk Hx. rewrite has_flag_ones by done.
  destruct (Z.eqb_spec (x mod 2 ^ k) 0) as [E | E]; cbn [negb fst snd]; [| done].
  split.
  - rewrite Z.shiftr_div_pow2 by done. intros H. apply Hx.
    replace (2 * k) with (k + k) by lia. rewrite Z.pow_add_r by done.
    rewrite Z.rem_mul_r; [lia | |]; pose proof (Z.pow_pos_nonneg 2 k ltac:(lia) Hk); lia.
  - intros r H. apply lowest_bit_shift in H; [| done | done].
    by replace (r - (ret + k) + k) with (r - ret) in H by lia.
Qed.

Lemma nibble_lsb dw :
  0 < dw < 16 -> exists t, NTDLL_leastSignificant !! Z.to_nat dw = Some t /\ lowest_bit dw t.
Proof.
  intros Hd. revert dw Hd.
  enough (H : forall dw, 0 <= dw < 16 -> 0 < dw ->
    exists t, NTDLL_leastSignificant !! Z.to_nat dw = Some t /\
      (0 <= t /\ Z.testbit dw t = true /\ dw mod 2 ^ t = 0)).
  { intros dw Hd. destruct (H dw) as (t & E & H0 & H1 & H2); [lia | lia |].
    exists t. split; [done |]. split; [done |]. split; [done |]. intros j Hj.
    rewrite <- (Z.mod_pow2_bits_low dw t j) by lia. rewrite H2. apply Z.testbit_0_l. }
  intros dw Hd. pattern dw. refine (by_cases _ 16 dw _ Hd).
  repeat constructor; intros H0; (by vm_compute in H0) || (eexists; split; [done |]; done).
Qed.

Lemma lsb_from_spec ret dw :
  dw mod 2 ^ 32 <> 0 -> exists r, lsb_from ret dw = Some r /\ lowest_bit dw (r - ret).
Proof.
  intros Hd. unfold lsb_from.
  change 0xffff with (Z.ones 16). change 0xff with (Z.ones 8). change 0x0f with (Z.ones 4).
  pose proof (lsb_step ret dw 16 ltac:(lia) Hd) as H1. cbv zeta in H1. revert H1.
  destruct (if has_flag dw (Z.ones 16) then _ else _) as [r1 d1]. cbn [fst snd]. intros [H1 L1].
  pose proof (lsb_step r1 d1 8 ltac:(lia) H1) as H2. cbv zeta in H2. revert H2.
  destruct (if has_flag d1 (Z.ones 8) then _ else _) as [r2 d2]. cbn [fst snd]. intros [H2 L2].
  pose proof (lsb_step r2 d2 4 ltac:(lia) H2) as H3. cbv zeta in H3. revert H3.
  destruct (if has_flag d2 (Z.ones 4) then _ else _) as [r3 d3]. cbn [fst snd]. intros [H3 L3].
  rewrite Z.land_ones by lia. pose proof (Z.mod_pos_bound d3 (2 ^ 4) ltac:(lia)).
  destruct (nibble_lsb (d3 mod 2 ^ 4)) as (t & -> & Ht); [lia |]. cbn [mbind option_bind].
  exists (r3 + t). split; [done |]. apply L1, L2, L3.
  replace (r3 + t - r3) with t by lia. by apply lowest_bit_low with 4.
Qed.

Lemma RtlFindLeastSignificantBit_spec x :
  0 < x < 2 ^ 64 -> exists r, RtlFindLeastSignificantBit x = Some r /\ lowest_bit x r.
Proof.
  intros Hx. unfold RtlFindLeastSignificantBit. cbv zeta.
  pose proof (lsb_step 0 x 32 ltac:(lia)) as H. rewrite Z.mod_small in H by lia.
  specialize (H ltac:(lia)). rewrite has_flag_ones in H by lia. cbv zeta in H.
  change (u32 x) with (x mod 2 ^ 32). rewrite high_half by lia.
  destruct (Z.eqb_spec (x mod 2 ^ 32) 0) as [E | E]; cbn [negb fst snd] in H |- *.
  - destruct H as [H1 H2]. destruct (Z.eqb_spec (Z.shiftr x 32) 0) as [Ez |]; [by rewrite Ez in H1 |].
    destruct (lsb_from_spec 32 _ H1) as (r & Er & Lr). exists r. split; [done |].
    specialize (H2 r Lr). by replace (r - 0) with r in H2 by lia.
  - destruct (lsb_from_spec 0 (x mod 2 ^ 32)) as (r & Er & Lr); [by rewrite Z.mod_mod |].
    exists r. split; [done |]. replace (r - 0) with r in Lr by lia. by apply lowest_bit_low with 32.
Qed.

(** ** Setting or clearing everything *)

Lemma bitmap_bytes_words b :
  0 <= SizeOfBitMap b <= 2 ^ 32 - 32 -> bitmap_bytes b / 4 = (SizeOfBitMap b + 31) / 32.
Proof.
  intros Hs. unfold bitmap_bytes. rewrite uwrap_small by lia.
  set (x := SizeOfBitMap b + 31). assert (0 <= x < 2 ^ 32) by lia.
  assert (E : Z.land x (not32 31) = Z.shiftl (Z.shiftr x 5) 5).
  { apply Z.bits_inj'. intros n Hn. rewrite Z.land_spec, Z.shiftl_spec by done.
    destruct (Z.lt_ge_cases n 5) as [Hlt | Hge].
    - rewrite not32_spec by lia. change 31 with (Z.ones 5).
      rewrite Z.ones_spec_low by lia. rewrite andb_false_r. symmetry. apply Z.testbit_neg_r. lia.
    - rewrite Z.shiftr_spec by lia. replace (n - 5 + 5) with n by lia.
      destruct (Z.lt_ge_cases n 32); [| by rewrite word_high].
      rewrite not32_spec by lia. change 31 with (Z.ones 5). rewrite Z.ones_spec_high by lia.
      by rewrite andb_true_r. }
  rewrite E, Z.shiftl_mul_pow2, !Z.shiftr_div_pow2 by lia.
  change (2 ^ 5) with 32. change (2 ^ 3) with 8.
  replace (x / 32 * 32) with (x / 32 * 4 * 8) by lia. rewrite !Z.div_mul by lia. done.
Qed.

Lemma fill_all_spec v b :
  bitmap_wf b -> SizeOfBitMap b <= 2 ^ 32 - 32 ->
  exists buf, fill_words (Buffer b) 0 (Z.to_nat (bitmap_bytes b / 4)) (full v) = Some buf /\
    bitmap_wf (set_Buffer b buf) /\ all_bits v (set_Buffer b buf) 0 (SizeOfBitMap b).
Proof.
  intros [Hs Hr Hw] Hm. rewrite bitmap_bytes_words by lia. divide32 (SizeOfBitMap b + 31).
  destruct (fill_words_spec (Z.to_nat ((SizeOfBitMap b + 31) / 32)) (Buffer b) 0 (full v))
    as (buf & E & L & W & B); [done | lia | done | auto with bits |].
  exists buf. split; [done |]. split; [constructor; simpl; rewrite ?L; done |].
  intros i Hi. unfold bit. simpl. rewrite B by lia. divide32 i. rewrite full_spec by lia.
  destruct (Z.leb_spec 0 (i / 32)), (Z.ltb_spec (i / 32) (0 + Z.of_nat (Z.to_nat ((SizeOfBitMap b + 31) / 32))));
    simpl; done || lia.
Qed.

Lemma set_below_all v b n :
  (forall i, 0 <= i < Z.of_nat n -> bit b i = v) -> set_below b n = if v then Z.of_nat n else 0.
Proof.
  induction n as [| n IH]; intros H; [by destruct v |].
  rewrite set_below_S, IH, H by (intros; try apply H; lia). destruct v; simpl Z.b2z; lia.
Qed.

(** ** Allocation from a bitmap *)

Lemma find_loop_sound (test : Z -> option bool) n : forall pos en hint r,
  0 <= pos < 2 ^ 32 -> 0 <= hint < 2 ^ 32 ->
  find_bits_loop n test pos en hint = Some r ->
  r = ALL_ONES \/ (0 <= r < 2 ^ 32 /\ test r = Some true).
Proof.
  induction n as [| n IH]; intros pos en hint r Hp Hh E; [done |]. cbn [find_bits_loop] in E.
  destruct (pos <? en); [| left; congruence].
  destruct (test pos) as [[|] |] eqn:Et; cbn [mbind option_bind] in E; [| | done].
  - right. by injection E as <-.
  - destruct ((pos =? u32 (en - 1)) && negb (hint =? 0)); apply IH in E; auto using uwrap_range; try lia.
    apply word_u32.
Qed.

Lemma find_clear_sound b n hint p :
  bitmap_wf b -> 0 <= n < 2 ^ 32 -> 0 <= hint < 2 ^ 32 ->
  RtlFindClearBits (Some b) n hint = Some p -> p <> ALL_ONES -> 0 < n /\ block false b n p.
Proof.
  intros Hb Hn Hh E Hne. unfold RtlFindClearBits, find_bits in E.
  destruct ((n =? 0) || (SizeOfBitMap b <? n)); [congruence |]. cbv zeta in E.
  apply find_loop_sound in E; [| destruct (_ <? _); lia | destruct (_ <? _); lia].
  destruct E as [| [Hp E]]; [done |].
  destruct (RtlAreBitsClear_spec b p n Hb Hp Hn) as (r & Er & Hr). rewrite Er in E.
  injection E as ->. destruct (proj1 Hr eq_refl) as (H1 & H2 & H3). split; [done |].
  split; [lia | done].
Qed.

(** A client that takes blocks with [RtlFindClearBitsAndSet] and gives them back
    with [RtlClearBits]: the bitmap and the blocks [(position, length)] it holds. *)
Inductive bm_step : RTL_BITMAP * list (Z * Z) -> RTL_BITMAP * list (Z * Z) -> Prop :=
| bm_alloc b live n hint p b' :
    0 <= n < 2 ^ 32 -> 0 <= hint < 2 ^ 32 ->
    RtlFindClearBitsAndSet b n hint = Some (p, b') -> p <> ALL_ONES ->
    bm_step (b, live) (b', (p, n) :: live)
| bm_free b l1 p n l2 b' :
    RtlClearBits b p n = Some b' -> bm_step (b, l1 ++ (p, n) :: l2) (b', l1 ++ l2).

Definition disjoint_blocks (x y : Z * Z) : Prop := x.1 + x.2 <= y.1 \/ y.1 + y.2 <= x.1.

Definition held (b : RTL_BITMAP) (x : Z * Z) : Prop := 0 < x.2 /\ block true b x.2 x.1.

Record bm_ok (s : RTL_BITMAP * list (Z * Z)) : Prop := {
  bm_wf : bitmap_wf s.1;
  bm_held : Forall (held s.1) s.2;
  bm_disjoint : forall i j x y, i <> j -> s.2 !! i = Some x -> s.2 !! j = Some y -> disjoint_blocks x y
}.

Lemma held_kept v b b' p n x :
  range_written v b b' p n -> held b x -> v = true \/ disjoint_blocks x (p, n) -> held b' x.
Proof.
  intros (_ & Hs & _ & Hbit) (H0 & H1 & H2 & H3) Hv. split; [done |]. split; [done |].
  rewrite Hs. split; [done |]. intros i Hi. rewrite Hbit by lia. unfold in_range.
  destruct (Z.leb_spec p i), (Z.ltb_spec i (p + n)); simpl; try (by apply H3).
  destruct Hv as [-> | Hv]; [done |]. unfold disjoint_blocks in Hv. simpl in Hv. lia.
Qed.

Lemma held_disjoint b x p n : held b x -> 0 < n -> all_bits false b p n -> disjoint_blocks (p, n) x.
Proof.
  intros (H0 & H1 & H2 & H3) Hn Hc. unfold disjoint_blocks. simpl.
  destruct (Z.lt_ge_cases x.1 (p + n)) as [Hlt |]; [| lia].
  destruct (Z.lt_ge_cases p (x.1 + x.2)) as [Hlt' |]; [| lia]. exfalso.
  assert (Ht : bit b (Z.max p x.1) = true) by (apply H3; lia).
  rewrite Hc in Ht by lia. done.
Qed.

Lemma disjoint_blocks_sym x y : disjoint_blocks x y -> disjoint_blocks y x.
Proof. unfold disjoint_blocks. lia. Qed.

Lemma bm_alloc_ok b live n hint p b' :
  bm_ok (b, live) -> 0 <= n < 2 ^ 32 -> 0 <= hint < 2 ^ 32 ->
  RtlFindClearBitsAndSet b n hint = Some (p, b') -> p <> ALL_ONES -> bm_ok (b', (p, n) :: live).
Proof.
  intros [Hw Hh Hd] Hn Hhint E Hne. simpl in *. unfold RtlFindClearBitsAndSet in E.
  destruct (RtlFindClearBits (Some b) n hint) as [q |] eqn:Ef; [| done]. cbn [mbind option_bind] in E.
  destruct (Z.eqb_spec q ALL_ONES) as [-> | _]; [cbn [negb] in E; congruence |]. cbn [negb] in E.
  destruct (RtlSetBits b q n) as [b1 |] eqn:Es; [| done]. cbn [mbind option_bind] in E.
  injection E as -> ->.
  destruct (find_clear_sound b n hint p Hw Hn Hhint Ef Hne) as (Hn0 & Hp & Hsz & Hc).
  destruct (RtlSetBits_spec b p n Hw Hp Hn0 Hsz) as (b2 & E2 & R). rewrite Es in E2.
  injection E2 as <-. destruct (R) as (Hw' & Hs' & _ & Hbit).
  rewrite list.Forall_forall in Hh. constructor; simpl.
  - done.
  - constructor.
    + split; [done |]. split; [done |]. simpl. rewrite Hs'. split; [done |]. intros i Hi.
      rewrite Hbit by lia. unfold in_range.
      destruct (Z.leb_spec p i), (Z.ltb_spec i (p + n)); simpl; done || lia.
    + apply list.Forall_forall. intros x Hx. eapply held_kept; eauto.
  - assert (Hnew : forall j y, live !! j = Some y -> disjoint_blocks (p, n) y).
    { intros j y Hy. eapply held_disjoint; eauto using list_elem_of_lookup_2. }
    intros [| i] [| j] x y Hij Hx Hy; simpl in Hx, Hy; simplify_eq; eauto using disjoint_blocks_sym.
Qed.

Lemma bm_free_ok b l1 p n l2 b' :
  bm_ok (b, l1 ++ (p, n) :: l2) -> RtlClearBits b p n = Some b' -> bm_ok (b', l1 ++ l2).
Proof.
  intros [Hw Hh Hd] E. simpl in *.
  assert (Hpn : held b (p, n)) by (rewrite list.Forall_forall in Hh; apply Hh, elem_of_app; right; left).
  destruct (Hpn) as (Hn0 & Hp & Hsz & Hc). simpl in *.
  destruct (RtlClearBits_spec b p n Hw Hp Hn0 Hsz) as (b2 & E2 & R). rewrite E in E2.
  injection E2 as <-. destruct (R) as (Hw' & _).
  set (skip := fun i => if decide (i < length l1)%nat then i else S i).
  assert (Hskip : forall i x, (l1 ++ l2) !! i = Some x -> (l1 ++ (p, n) :: l2) !! skip i = Some x).
  { intros i x Hx. unfold skip. case_decide as Hi.
    - rewrite lookup_app_l in Hx |- * by done. done.
    - rewrite lookup_app_r in Hx by lia. rewrite lookup_app_r by lia.
      by replace (S i - length l1)%nat with (S (i - length l1)) by lia. }
  assert (Hmid : forall i, skip i <> length l1) by (intros i; unfold skip; case_decide; lia).
  constructor; simpl; [done | |].
  - apply Forall_lookup_2. intros i x Hx. apply Hskip in Hx.
    eapply held_kept; [done | by eapply Forall_lookup_1 in Hx | right].
    apply (Hd (skip i) (length l1)); [done | done |]. by rewrite list_lookup_middle.
  - intros i j x y Hij Hx Hy. apply (Hd (skip i) (skip j)); auto.
    unfold skip. repeat case_decide; lia.
Qed.

Lemma bm_reach_ok s s' : rtc bm_step s s' -> bm_ok s -> bm_ok s'.
Proof.
  induction 1 as [| s1 s2 s3 Hst _ IH]; [done |]. intros Hok. apply IH.
  destruct Hst; [by eapply bm_alloc_ok | by eapply bm_free_ok].
Qed.

(** ** Properties *)

(** The bitmap of the witnesses: 64 bits, of which 4 to 11 and 40 are set. *)
Definition demo : RTL_BITMAP := RtlInitializeBitMap [0xff0; 0x100] 64.

Lemma demo_wf : bitmap_wf demo.
Proof. constructor; [done | done |]. repeat constructor; done. Qed.

(** A call of [RtlSetBits] or [RtlClearBits] whose range lies in the bitmap
    stays inside the buffer and gives exactly the bits of the range the new value;
    a call with an empty range or one that leaves the bitmap, also by wrapping
    around 32 bits, changes nothing. *)
Theorem set_and_clear_bits_exact b start count :
  bitmap_wf b -> 0 <= start < 2 ^ 32 -> 0 <= count < 2 ^ 32 ->
  if decide (0 < count /\ start + count <= SizeOfBitMap b) then
    (exists b', RtlSetBits b start count = Some b' /\ range_written true b b' start count) /\
    (exists b', RtlClearBits b start count = Some b' /\ range_written false b b' start count)
  else RtlSetBits b start count = Some b /\ RtlClearBits b start count = Some b.
Proof.
  intros Hb Hs Hc. case_decide as Hg.
  - split; [apply RtlSetBits_spec | apply RtlClearBits_spec]; tauto.
  - rewrite <- (good_range b start count Hb) in Hg by lia. apply not_false_is_true in Hg.
    unfold RtlSetBits, RtlClearBits. by rewrite Hg.
Qed.

Lemma set_and_clear_bits_exact_witness :
  (exists b', RtlSetBits demo 10 33 = Some b' /\ range_written true demo b' 10 33) /\
  RtlSetBits demo 60 (2 ^ 32 - 8) = Some demo.
Proof.
  split.
  - pose proof (set_and_clear_bits_exact demo 10 33 demo_wf ltac:(lia) ltac:(lia)) as H.
    rewrite decide_True in H by done. apply H.
  - reflexivity.
Defined.

(** [RtlAreBitsSet] and [RtlAreBitsClear] answer, for any arguments, exactly
    whether the range is not empty, lies in the bitmap and has only set (clear)
    bits, and never read outside the buffer. *)
Theorem are_bits_tests_exact b start count :
  bitmap_wf b -> 0 <= start < 2 ^ 32 -> 0 <= count < 2 ^ 32 ->
  (exists r, RtlAreBitsSet b start count = Some r /\
    (r = true <-> 0 < count /\ start + count <= SizeOfBitMap b /\ all_bits true b start count)) /\
  (exists r, RtlAreBitsClear b start count = Some r /\
    (r = true <-> 0 < count /\ start + count <= SizeOfBitMap b /\ all_bits false b start count)).
Proof. intros. split; [by apply RtlAreBitsSet_spec | by apply RtlAreBitsClear_spec]. Qed.

Lemma are_bits_tests_exact_witness :
  exists r, RtlAreBitsSet demo 4 8 = Some r /\
    (r = true <-> 0 < 8 /\ 4 + 8 <= 64 /\ all_bits true demo 4 8).
Proof. exact (proj1 (are_bits_tests_exact demo 4 8 demo_wf ltac:(lia) ltac:(lia))). Defined.

(** [RtlFindSetBits] and [RtlFindClearBits] end, and return the first block of
    [count] such bits at or after the hint, else the first one before the hint, else
    [-1] when the bitmap has no such block; a hint too close to the end counts as
    none.  The sum of hint and count is taken to fit 32 bits. *)
Theorem find_bits_first_fit b count hint :
  bitmap_wf b -> 0 < count <= SizeOfBitMap b -> 0 <= hint -> hint + count < 2 ^ 32 ->
  (exists r, RtlFindSetBits (Some b) count hint = Some r /\ first_fit true b count hint r /\
     ((r = ALL_ONES /\ forall p, ~ block true b count p) \/ (r <> ALL_ONES /\ block true b count r))) /\
  (exists r, RtlFindClearBits (Some b) count hint = Some r /\ first_fit false b count hint r /\
     ((r = ALL_ONES /\ forall p, ~ block false b count p) \/ (r <> ALL_ONES /\ block false b count r))).
Proof.
  intros Hb Hc Hh Hhc. split.
  - destruct (find_bits_spec true _ RtlAreBitsSet_spec b count hint Hb Hc Hh Hhc) as (r & E & F).
    eauto using first_fit_block with lia.
  - destruct (find_bits_spec false _ RtlAreBitsClear_spec b count hint Hb Hc Hh Hhc) as (r & E & F).
    eauto using first_fit_block with lia.
Qed.

Lemma find_bits_first_fit_witness :
  (exists r, RtlFindSetBits (Some demo) 3 10 = Some r /\ first_fit true demo 3 10 r) /\
  RtlFindSetBits (Some demo) 3 10 = Some 4 /\ RtlFindSetBits (Some demo) 9 0 = Some ALL_ONES.
Proof.
  split; [| split; reflexivity].
  destruct (proj1 (find_bits_first_fit demo 3 10 demo_wf ltac:(done) ltac:(done) ltac:(done)))
    as (r & E & F & _). exists r. exact (conj E F).
Defined.

(** When hint and count wrap around 32 bits, [RtlFindSetBits] looks nowhere and
    returns [-1], although a hint only suggests where to start: in a bitmap of up to
    [2^31] bits this is the answer whatever bits are set. *)
Theorem find_bits_wrapped_hint_finds_nothing b count hint :
  bitmap_wf b -> SizeOfBitMap b <= 2 ^ 31 -> 0 < count <= SizeOfBitMap b ->
  0 <= hint < 2 ^ 32 -> 2 ^ 32 <= hint + count ->
  RtlFindSetBits (Some b) count hint = Some ALL_ONES /\
  RtlFindClearBits (Some b) count hint = Some ALL_ONES.
Proof.
  intros Hb Hs Hc Hh Hw. unfold RtlFindSetBits, RtlFindClearBits, find_bits.
  assert (E : u32 (hint + count) = hint + count - 2 ^ 32).
  { unfold uwrap. rewrite <- (Z.mod_add _ (-1)) by lia. rewrite Z.mod_small; lia. }
  rewrite E. destruct (Z.eqb_spec count 0), (Z.ltb_spec (SizeOfBitMap b) count); [lia .. |].
  cbn [orb]. cbv zeta. destruct (Z.ltb_spec (SizeOfBitMap b) (hint + count - 2 ^ 32)); [lia |].
  cbn [find_bits_loop]. destruct (Z.ltb_spec hint (SizeOfBitMap b)); [lia | done].
Qed.

Lemma find_bits_wrapped_hint_finds_nothing_witness :
  RtlFindSetBits (Some demo) 4 0xffffffff = Some ALL_ONES /\
  RtlAreBitsSet demo 4 4 = Some true.
Proof.
  split; [| reflexivity].
  apply (find_bits_wrapped_hint_finds_nothing demo 4 0xffffffff demo_wf); done.
Defined.

(** A client that takes blocks with [RtlFindClearBitsAndSet] and returns them
    with [RtlClearBits], in any order, never holds two blocks that overlap, and every
    block it holds lies in the bitmap and has all its bits set. *)
Theorem allocated_blocks_never_overlap b b' live i j x y :
  bitmap_wf b -> rtc bm_step (b, []) (b', live) ->
  Forall (held b') live /\
  (i <> j -> live !! i = Some x -> live !! j = Some y -> disjoint_blocks x y).
Proof.
  intros Hb Hr. apply bm_reach_ok in Hr; [| by constructor].
  destruct Hr as [_ Hh Hd]. split; [done | apply Hd].
Qed.

Lemma allocated_blocks_never_overlap_witness :
  exists b' live, live !! 0%nat = Some (0, 2) /\ live !! 1%nat = Some (12, 20) /\
    disjoint_blocks (0, 2) (12, 20) /\ Forall (held b') live.
Proof.
  eexists _, [(0, 2); (12, 20)]. split; [done |]. split; [done |].
  destruct (allocated_blocks_never_overlap demo
    {| SizeOfBitMap := 64; Buffer := [0xfffffff3; 0x100] |}
    [(0, 2); (12, 20)] 0 1 (0, 2) (12, 20)) as [Hh Hd]; [exact demo_wf | | split; [by apply Hd | exact Hh]].
  eapply rtc_l; [apply (bm_alloc demo [] 20 0 12); done || reflexivity |].
  eapply rtc_l; [| apply rtc_refl]. apply (bm_alloc _ [(12, 20)] 2 0 0); done || reflexivity.
Defined.

(** [RtlNumberOfSetBits] is the number of set bits of the bitmap and
    [RtlNumberOfClearBits] the number of clear ones, also when the last word is only
    partly used. *)
Theorem number_of_bits_exact b :
  bitmap_wf b ->
  RtlNumberOfSetBits b = Some (set_below b (Z.to_nat (SizeOfBitMap b))) /\
  RtlNumberOfClearBits (Some b) = Some (SizeOfBitMap b - set_below b (Z.to_nat (SizeOfBitMap b))).
Proof.
  intros Hb. pose proof (wf_size b Hb). pose proof (set_below_bound b (Z.to_nat (SizeOfBitMap b))).
  unfold RtlNumberOfClearBits. rewrite RtlNumberOfSetBits_spec by done. split; [done |].
  cbn [mbind option_bind]. by rewrite uwrap_small by lia.
Qed.

Lemma number_of_bits_exact_witness :
  RtlNumberOfSetBits demo = Some (set_below demo 64) /\ RtlNumberOfSetBits demo = Some 9.
Proof. split; [exact (proj1 (number_of_bits_exact demo demo_wf)) | reflexivity]. Defined.

(** After [RtlSetAllBits] the bitmap counts [SizeOfBitMap] set bits, after
    [RtlClearAllBits] none, and the buffer is not left; the size is taken to leave
    room for rounding it up to whole words in 32 bits. *)
Theorem set_and_clear_all_counted b :
  bitmap_wf b -> SizeOfBitMap b <= 2 ^ 32 - 32 ->
  (exists b', RtlSetAllBits b = Some b' /\ RtlNumberOfSetBits b' = Some (SizeOfBitMap b)) /\
  (exists b', RtlClearAllBits b = Some b' /\ RtlNumberOfSetBits b' = Some 0).
Proof.
  intros Hb Hs. pose proof (wf_size b Hb) as Hsz.
  assert (H : forall v, exists buf,
    fill_words (Buffer b) 0 (Z.to_nat (bitmap_bytes b / 4)) (full v) = Some buf /\
    RtlNumberOfSetBits (set_Buffer b buf) = Some (if v then SizeOfBitMap b else 0)).
  { intros v. destruct (fill_all_spec v b Hb Hs) as (buf & E & W & A). exists buf. split; [done |].
    rewrite RtlNumberOfSetBits_spec by done. cbn [SizeOfBitMap set_Buffer].
    rewrite (set_below_all v) by (intros i Hi; apply A; lia). do 2 f_equal. destruct v; lia. }
  unfold RtlSetAllBits, RtlClearAllBits. split.
  - destruct (H true) as (buf & E & N). cbn [full] in E. rewrite E. cbn [mbind option_bind]. eauto.
  - destruct (H false) as (buf & E & N). cbn [full] in E. rewrite E. cbn [mbind option_bind]. eauto.
Qed.

Lemma set_and_clear_all_counted_witness :
  exists b', RtlSetAllBits demo = Some b' /\ RtlNumberOfSetBits b' = Some 64.
Proof. exact (proj1 (set_and_clear_all_counted demo demo_wf ltac:(done))). Defined.

(** On a 64-bit number that is not zero [RtlFindMostSignificantBit] returns the
    position of the highest set bit and [RtlFindLeastSignificantBit] that of the
    lowest one; both return [-1] for zero.  The nibble tables are never left. *)
Theorem significant_bits_exact x :
  0 <= x < 2 ^ 64 ->
  if decide (x = 0) then
    RtlFindMostSignificantBit x = Some (-1) /\ RtlFindLeastSignificantBit x = Some (-1)
  else
    RtlFindMostSignificantBit x = Some (Z.log2 x) /\
    exists r, RtlFindLeastSignificantBit x = Some r /\ lowest_bit x r.
Proof.
  intros Hx. case_decide as E; [by subst |].
  split; [apply RtlFindMostSignificantBit_spec | apply RtlFindLeastSignificantBit_spec]; lia.
Qed.

Lemma significant_bits_exact_witness :
  RtlFindMostSignificantBit 0x8000000000000100 = Some 63 /\
  exists r, RtlFindLeastSignificantBit 0x8000000000000100 = Some r /\ lowest_bit 0x8000000000000100 r.
Proof. exact (significant_bits_exact 0x8000000000000100 ltac:(done)). Defined.
