(* ===== verification/RtlBitmapRuns.v ===== *)
(** * ntdll bitmaps: runs

    The byte-wise search for a run of equal bits, from a position at the start of a
    byte, in a bitmap of whole bytes. *)

From stdpp Require Import base list option.
From Stdlib Require Import ZArith Lia.
From S2P Require Import Prelude NtdllSort RtlBitmap RtlBitmapProofs.

Open Scope Z_scope.

(** ** Bytes of the buffer *)

Definition byte_range (x : Z) : Prop := 0 <= x < 256.

Lemma byte_eq x y :
  byte_range x -> byte_range y -> (forall j, 0 <= j < 8 -> Z.testbit x j = Z.testbit y j) -> x = y.
Proof.
  intros Hx Hy H. apply word_eq; [split; unfold byte_range in *; lia | split; unfold byte_range in *; lia |].
  intros n Hn. destruct (Z.lt_ge_cases n 8); [apply H; lia |].
  rewrite <- (Z.mod_small x (2 ^ 8)), <- (Z.mod_small y (2 ^ 8)) by (unfold byte_range in *; lia).
  by rewrite !Z.mod_pow2_bits_high by lia.
Qed.

Lemma rdb_spec buf k :
  Forall word buf -> 0 <= k < 4 * Z.of_nat (length buf) ->
  exists byte, rdb buf k = Some byte /\ byte_range byte /\
    forall j, 0 <= j < 8 -> Z.testbit byte j = bitat buf (8 * k + j).
Proof.
  intros Hw Hk. unfold rdb.
  pose proof (Z.div_mod k 4 ltac:(lia)). pose proof (Z.mod_pos_bound k 4 ltac:(lia)).
  destruct (rd_lt buf (k / 4)) as [w Ew]; [lia |]. rewrite Ew. cbn [mbind option_bind].
  eexists. split; [done |]. change 0xff with (Z.ones 8). rewrite Z.land_ones by lia.
  split; [apply Z.mod_pos_bound; lia |].
  intros j Hj. rewrite Z.mod_pow2_bits_low, Z.shiftr_spec by lia.
  divide32 (8 * k + j). rewrite (bitat_rd _ _ w); [f_equal; lia |].
  by replace ((8 * k + j) / 32) with (k / 4) by lia.
Qed.

Lemma has_flag_bit x j : 0 <= j -> has_flag x (Z.shiftl 1 j) = Z.testbit x j.
Proof.
  intros Hj. rewrite has_flag_shift by done. unfold has_flag.
  change 1 with (Z.ones 1). rewrite Z.land_ones by lia. change (2 ^ 1) with 2.
  rewrite <- Z.bit0_mod, Z.shiftr_spec, Z.add_0_l by lia. by destruct (Z.testbit x j).
Qed.

(** ** Bits of one byte *)

Lemma first_offset_spec x :
  byte_range x -> x <> 0 -> exists o, first_offset x = Some o /\ o < 8 /\ lowest_bit x o.
Proof.
  intros Hx Hz. unfold first_offset. change 0x0f with (Z.ones 4). rewrite has_flag_ones by lia.
  rewrite Z.land_ones by lia. pose proof (Z.mod_pos_bound x (2 ^ 4) ltac:(lia)) as Hm.
  destruct (Z.eqb_spec (x mod 2 ^ 4) 0) as [E | E]; cbn [negb].
  - assert (Hs : 0 < Z.shiftr x 4 < 16).
    { rewrite Z.shiftr_div_pow2 by lia. unfold byte_range in Hx. change (2 ^ 4) with 16 in *.
      pose proof (Z.div_mod x 16 ltac:(lia)). lia. }
    destruct (nibble_lsb _ Hs) as (t & -> & Ht). exists (4 + t). split; [done |].
    rewrite (Z.add_comm 4 t). split; [| by apply lowest_bit_shift].
    destruct Ht as (H0 & H1 & _). destruct (Z.lt_ge_cases t 4); [lia |].
    rewrite <- (Z.mod_small (Z.shiftr x 4) (2 ^ 4)) in H1 by lia.
    by rewrite Z.mod_pow2_bits_high in H1 by lia.
  - destruct (nibble_lsb (x mod 2 ^ 4)) as (t & -> & Ht); [lia |]. exists t. split; [done |].
    split; [| by apply lowest_bit_low with 4].
    destruct Ht as (H0 & H1 & _). destruct (Z.lt_ge_cases t 4); [lia |].
    by rewrite Z.mod_pow2_bits_high in H1 by lia.
Qed.

(** [m] consecutive set bits of [x] from [o] on. *)
Definition ones_at (x o m : Z) : Prop := forall j, o <= j < o + m -> Z.testbit x j = true.

Lemma ones_at_cons x o m : Z.testbit x o = true -> ones_at x (o + 1) m -> ones_at x o (m + 1).
Proof.
  intros H0 H1 j Hj. destruct (Z.eq_dec j o) as [-> |]; [done | apply H1; lia].
Qed.

Lemma first_byte_bits_spec n : forall x o c s,
  0 <= o -> 0 <= c -> 0 <= s -> s + Z.of_nat n < 2 ^ 32 ->
  exists stop m, first_byte_bits n x o c s = (stop, c + m, s + m) /\ 0 <= m <= Z.of_nat n /\
    ones_at x o m /\
    if stop : bool then m < Z.of_nat n /\ Z.testbit x (o + m) = false else m = Z.of_nat n.
Proof.
  induction n as [| n IH]; intros x o c s Ho Hc Hs Hn.
  - exists false, 0. rewrite !Z.add_0_r. repeat split; try done. intros j Hj. lia.
  - cbn [first_byte_bits]. rewrite has_flag_bit by done. destruct (Z.testbit x o) eqn:E.
    + rewrite uwrap_small by lia.
      destruct (IH x (o + 1) (c + 1) (s + 1)) as (stop & m & -> & Hm & Hones & Hst); [lia | lia | lia | lia |].
      exists stop, (m + 1). split; [f_equal; [f_equal |]; lia |]. split; [lia |].
      split; [by apply ones_at_cons |].
      destruct stop; [| lia]. split; [lia |]. replace (o + (m + 1)) with (o + 1 + m) by lia. tauto.
    + exists true, 0. rewrite !Z.add_0_r. repeat split; try done; try lia. intros j Hj. lia.
Qed.

Lemma last_byte_bits_spec n : forall x o c,
  0 <= o -> 0 <= c -> c + Z.of_nat n < 2 ^ 32 ->
  exists m, last_byte_bits n x o c = c + m /\ 0 <= m <= Z.of_nat n /\ ones_at x o m /\
    (m < Z.of_nat n -> Z.testbit x (o + m) = false).
Proof.
  induction n as [| n IH]; intros x o c Ho Hc Hn.
  - exists 0. rewrite Z.add_0_r. repeat split; try done. intros j Hj. lia.
  - cbn [last_byte_bits]. rewrite has_flag_bit by done. destruct (Z.testbit x o) eqn:E.
    + rewrite uwrap_small by lia.
      destruct (IH x (o + 1) (c + 1)) as (m & -> & Hm & Hones & Hst); [lia | lia | lia |].
      exists (m + 1). split; [lia |]. split; [lia |]. split; [by apply ones_at_cons |].
      intros Hlt. replace (o + (m + 1)) with (o + 1 + m) by lia. apply Hst. lia.
    + exists 0. rewrite !Z.add_0_r. repeat split; try done; try lia. intros j Hj. lia.
Qed.

(** ** The search *)

(** [view] makes the bits of value [v] the set bits of a byte. *)
Definition shows (v : bool) (view : Z -> Z) : Prop :=
  forall x, byte_range x -> byte_range (view x) /\
    forall j, 0 <= j < 8 -> (Z.testbit (view x) j = true <-> Z.testbit x j = v).

Lemma shows_set : shows true view_set.
Proof. intros x Hx. by split. Qed.

Lemma shows_clear : shows false view_clear.
Proof.
  intros x Hx. unfold view_clear. change 0xff with (Z.ones 8). rewrite Z.land_ones by lia.
  split; [apply Z.mod_pos_bound; lia |]. intros j Hj.
  rewrite Z.mod_pow2_bits_low, Z.lnot_spec by lia. by destruct (Z.testbit x j).
Qed.

(** [n] bits of value [v] at [p], the first ones from [start] on, which end with the
    bitmap or with another bit. *)
Definition next_run (v : bool) (b : RTL_BITMAP) (start p n : Z) : Prop :=
  start <= p /\ 0 < n /\ p + n <= SizeOfBitMap b /\
  (forall i, start <= i < p -> bit b i = negb v) /\ all_bits v b p n /\
  (p + n < SizeOfBitMap b -> bit b (p + n) = negb v).

Section FindRun.
Variables (v : bool) (view : Z -> Z) (b : RTL_BITMAP).
Hypothesis view_shows : shows v view.
Hypothesis b_wf : bitmap_wf b.
Hypothesis size_bytes : SizeOfBitMap b mod 8 = 0.

Lemma bit_viewed byte k j :
  byte_range byte -> (forall j, 0 <= j < 8 -> Z.testbit byte j = bitat (Buffer b) (8 * k + j)) ->
  0 <= j < 8 -> bit b (8 * k + j) = if Z.testbit (view byte) j then v else negb v.
Proof using view_shows.
  intros Hr Hb Hj. unfold bit. rewrite <- Hb by done.
  destruct (view_shows byte Hr) as [_ H]. specialize (H j Hj).
  destruct (Z.testbit (view byte) j); [by apply H |].
  destruct H as [_ H]. revert H. clear. destruct (Z.testbit byte j), v; intros H;
    done || by discriminate H.
Qed.

(** The byte at a byte-aligned position below the size, seen through [view]. *)
Lemma viewed_byte pos :
  0 <= pos < SizeOfBitMap b -> pos mod 8 = 0 ->
  exists byte, rdb (Buffer b) (pos / 8) = Some byte /\ byte_range (view byte) /\
    forall j, 0 <= j < 8 -> bit b (pos + j) = if Z.testbit (view byte) j then v else negb v.
Proof using view_shows b_wf.
  intros Hp Ha. destruct b_wf as [Hs Hr Hw]. pose proof (Z.div_mod pos 8 ltac:(lia)).
  destruct (rdb_spec (Buffer b) (pos / 8) Hw) as (byte & E & Hb & Hj); [lia |].
  exists byte. split; [done |]. split; [by apply view_shows |]. intros j Hj'.
  replace (pos + j) with (8 * (pos / 8) + j) by lia. by apply bit_viewed.
Qed.

(** A byte-aligned position below the size has its whole byte below it. *)
Lemma aligned_room pos : pos mod 8 = 0 -> pos < SizeOfBitMap b -> pos + 8 <= SizeOfBitMap b.
Proof using size_bytes.
  intros Ha Hlt. pose proof (Z.div_mod pos 8 ltac:(lia)).
  pose proof (Z.div_mod (SizeOfBitMap b) 8 ltac:(lia)). lia.
Qed.

Lemma aligned_next pos : pos mod 8 = 0 -> (pos + 8) mod 8 = 0 /\ (pos + 8) / 8 = pos / 8 + 1.
Proof using.
  intros Ha. split; [by rewrite <- Z.add_mod_idemp_l, Ha by lia |].
  rewrite <- (Z.div_add pos 1 8) by lia. done.
Qed.

Lemma all_bits_join p n m : 0 <= n -> all_bits v b p n -> all_bits v b (p + n) m -> all_bits v b p (n + m).
Proof using.
  intros Hn H1 H2 i Hi. destruct (Z.lt_ge_cases i (p + n)); [apply H1 | apply H2]; lia.
Qed.

(** The loop over whole bytes: the run of [count] bits before [pos] is extended to
    its end. *)
Lemma run_blocks_spec fuel : forall count pos,
  0 <= count <= pos -> pos mod 8 = 0 -> pos < SizeOfBitMap b ->
  (SizeOfBitMap b - pos) / 8 <= Z.of_nat fuel ->
  exists n, run_blocks fuel view b count pos (pos / 8) = Some (count + n) /\ 0 <= n /\
    pos + n <= SizeOfBitMap b /\ all_bits v b pos n /\
    (pos + n < SizeOfBitMap b -> bit b (pos + n) = negb v).
Proof using All.
  pose proof (wf_size b b_wf) as Hs.
  induction fuel as [| fuel IH]; intros count pos Hc Ha Hp Hf.
  { pose proof (aligned_room pos Ha Hp). 
    pose proof (Z.div_le_mono 8 (SizeOfBitMap b - pos) 8 ltac:(lia) ltac:(lia)) as Hd.
    change (8 / 8) with 1 in Hd. lia. }
  destruct (viewed_byte pos) as (byte & Eb & Hb & Hj); [lia | done |].
  pose proof (aligned_room pos Ha Hp) as Hroom.
  cbn [run_blocks]. rewrite Eb. cbn [mbind option_bind].
  destruct (Z.eqb_spec (view byte) 0xff) as [Eff | Eff].
  - assert (Hall : all_bits v b pos 8).
    { intros i Hi. replace i with (pos + (i - pos)) by lia. rewrite Hj, Eff by lia.
      change 0xff with (Z.ones 8). by rewrite Z.ones_spec_low by lia. }
    rewrite (uwrap_small 32 (count + 8)), (uwrap_small 32 (pos + 8)) by lia. cbv zeta.
    destruct (Z.leb_spec (SizeOfBitMap b) (pos + 8)).
    + exists 8. rewrite uwrap_small by lia. repeat split; try (done || lia). f_equal. lia.
    + destruct (aligned_next pos Ha) as [Ha8 Hd8].
      assert (Hf8 : (SizeOfBitMap b - (pos + 8)) / 8 <= Z.of_nat fuel).
      { replace (SizeOfBitMap b - (pos + 8)) with (SizeOfBitMap b - pos + (-1) * 8) by lia.
        rewrite Z.div_add by lia. lia. }
      destruct (IH (count + 8) (pos + 8)) as (n & E & H0 & H1 & H2 & H3); [lia | done | lia | done |].
      rewrite Hd8 in E. exists (8 + n). rewrite E. split; [f_equal; lia |]. split; [lia |]. split; [lia |].
      split; [apply all_bits_join; [lia | done | done] |].
      intros Hlt. replace (pos + (8 + n)) with (pos + 8 + n) by lia. apply H3. lia.
  - change (has_flag (view byte) 1) with (has_flag (view byte) (Z.shiftl 1 0)).
    rewrite has_flag_bit by lia. destruct (Z.testbit (view byte) 0) eqn:E0.
    + destruct (last_byte_bits_spec 7 (view byte) 0 count) as (m & E & Hm & Hones & Hend); [lia | lia | lia |].
      exists m. rewrite E. split; [done |]. split; [lia |]. split; [lia |]. split.
      * intros i Hi. replace i with (pos + (i - pos)) by lia. rewrite Hj by lia.
        by rewrite Hones by lia.
      * intros _. rewrite Hj by lia. rewrite Z.add_0_l in Hend.
        destruct (Z.testbit (view byte) m) eqn:Em; [exfalso | done].
        assert (m = 7) as -> by (destruct (Z.lt_ge_cases m 7); [specialize (Hend ltac:(lia)); congruence | lia]).
        apply Eff, byte_eq; [done | done |]. intros j Hj'. change 0xff with (Z.ones 8).
        rewrite Z.ones_spec_low by lia. destruct (Z.eq_dec j 7) as [-> |]; [done | apply Hones; lia].
    + exists 0. rewrite !Z.add_0_r. repeat split; try (done || lia).
      * intros i Hi. lia.
      * intros _. rewrite <- (Z.add_0_r pos), Hj, E0 by lia. done.
Qed.

(** What the search for the start of a run from [start] on has found. *)
Definition scan_ok (start : Z) (sc : run_scan) : Prop :=
  match sc with
  | no_run => forall i, start <= i < SizeOfBitMap b -> bit b i = negb v
  | run_in_byte p n => next_run v b start p n
  | run_open p n pos lpOut =>
    start <= p /\ 0 < n /\ pos = p + n /\ pos <= SizeOfBitMap b /\ pos mod 8 = 0 /\
    lpOut = pos / 8 /\ (forall i, start <= i < p -> bit b i = negb v) /\ all_bits v b p n
  end.

Lemma scan_ok_later start sc :
  (forall i, start <= i < start + 8 -> bit b i = negb v) -> scan_ok (start + 8) sc -> scan_ok start sc.
Proof using.
  intros H. assert (Hj : forall m, (forall i, start + 8 <= i < m -> bit b i = negb v) ->
    forall i, start <= i < m -> bit b i = negb v).
  { intros m Hm i Hi. destruct (Z.lt_ge_cases i (start + 8)); [apply H | apply Hm]; lia. }
  destruct sc as [| p n | p n pos lp]; simpl.
  - apply Hj.
  - intros (H1 & H2 & H3 & H4 & H5 & H6). repeat split; try (done || lia). by apply Hj.
  - intros (H1 & H2 & H3 & H4 & H5 & H6 & H7 & H8). repeat split; try (done || lia). by apply Hj.
Qed.

(** A byte that is neither clear nor full (through [view]): the run starts in it. *)
Lemma run_start_in_byte pos byte :
  0 <= pos < SizeOfBitMap b -> pos mod 8 = 0 ->
  (forall j, 0 <= j < 8 -> bit b (pos + j) = if Z.testbit (view byte) j then v else negb v) ->
  byte_range (view byte) -> view byte <> 0 ->
  exists sc, (ulOffset ← first_offset (view byte);
    let ulFoundAt := u32 (pos + ulOffset) in
    match first_byte_bits (Z.to_nat (8 - ulOffset)) (view byte) ulOffset 0 ulFoundAt with
    | (true, ulCount, _) => Some (run_in_byte ulFoundAt ulCount)
    | (false, ulCount, ulStart') => Some (run_open ulFoundAt ulCount ulStart' (pos / 8 + 1))
    end) = Some sc /\ scan_ok pos sc.
Proof using All.
  intros Hp Ha Hj Hr Hz. pose proof (wf_size b b_wf) as Hs.
  pose proof (aligned_room pos Ha ltac:(lia)) as Hroom. destruct (aligned_next pos Ha) as [Ha8 Hd8].
  destruct (first_offset_spec _ Hr Hz) as (o & -> & Ho & H0 & H1 & H2). cbn [mbind option_bind].
  cbv zeta. rewrite uwrap_small by lia.
  destruct (first_byte_bits_spec (Z.to_nat (8 - o)) (view byte) o 0 (pos + o))
    as (stop & m & -> & Hm & Hones & Hst); [lia | lia | lia | lia |].
  rewrite Z.add_0_l. rewrite Z2Nat.id in Hm, Hst by lia.
  assert (Hbefore : forall i, pos <= i < pos + o -> bit b i = negb v).
  { intros i Hi. replace i with (pos + (i - pos)) by lia. by rewrite Hj, H2 by lia. }
  assert (Hrun : all_bits v b (pos + o) m).
  { intros i Hi. replace i with (pos + (i - pos)) by lia. by rewrite Hj, Hones by lia. }
  assert (Hpos : 0 < m).
  { destruct (Z.eq_dec m 0) as [-> |]; [| lia]. destruct stop; [| lia].
    destruct Hst as [_ Hst]. rewrite Z.add_0_r in Hst. congruence. }
  destruct stop; eexists; (split; [done |]); simpl.
  - destruct Hst as [Hlt Hst]. repeat split; try (done || lia).
    intros _. replace (pos + o + m) with (pos + (o + m)) by lia. by rewrite Hj, Hst by lia.
  - replace (pos + o + m) with (pos + 8) by lia. rewrite Hd8. repeat split; done || lia.
Qed.

Lemma run_start_spec fuel : forall pos,
  0 <= pos < SizeOfBitMap b -> pos mod 8 = 0 -> (SizeOfBitMap b - pos) / 8 <= Z.of_nat fuel ->
  exists sc, run_start fuel view b pos (pos / 8) = Some sc /\ scan_ok pos sc.
Proof using All.
  pose proof (wf_size b b_wf) as Hs.
  induction fuel as [| fuel IH]; intros pos Hp Ha Hf.
  { pose proof (aligned_room pos Ha ltac:(lia)).
    pose proof (Z.div_le_mono 8 (SizeOfBitMap b - pos) 8 ltac:(lia) ltac:(lia)) as Hd.
    change (8 / 8) with 1 in Hd. lia. }
  destruct (viewed_byte pos Hp Ha) as (byte & Eb & Hr & Hj).
  pose proof (aligned_room pos Ha ltac:(lia)) as Hroom. destruct (aligned_next pos Ha) as [Ha8 Hd8].
  cbn [run_start]. rewrite Eb. cbn [mbind option_bind]. cbv zeta.
  assert (E7 : Z.land pos 7 = 0) by (change 7 with (Z.ones 3); by rewrite Z.land_ones by lia).
  assert (En7 : Z.land pos (not32 7) = pos).
  { change (not32 7) with (Z.shiftl (Z.ones 29) 3).
    apply Z.bits_inj'. intros n Hn. rewrite Z.land_spec, Z.shiftl_spec by done.
    destruct (Z.lt_ge_cases n 3).
    - rewrite <- (Z.mod_pow2_bits_low pos 3 n) by lia. change (2 ^ 3) with 8. by rewrite Ha, Z.testbit_0_l.
    - destruct (Z.lt_ge_cases n 32); [by rewrite Z.ones_spec_low, andb_true_r by lia |].
      rewrite (word_high pos n) by (unfold word; lia). done. }
  rewrite E7, En7. change (Z.land (Z.shiftl 255 0) 255) with (Z.ones 8).
  rewrite Z.land_ones by lia. rewrite (Z.mod_small (view byte)) by done. rewrite uwrap_small by lia.
  destruct (Z.eqb_spec (view byte) 0) as [Ez | Ez]; cbn [negb].
  - assert (Hnone : forall i, pos <= i < pos + 8 -> bit b i = negb v).
    { intros i Hi. replace i with (pos + (i - pos)) by lia. rewrite Hj, Ez by lia. by rewrite Z.testbit_0_l. }
    destruct (Z.leb_spec (SizeOfBitMap b) (pos + 8)).
    + exists no_run. split; [done |]. intros i Hi. apply Hnone. lia.
    + destruct (IH (pos + 8)) as (sc & E & Hok); [lia | done | |].
      { replace (SizeOfBitMap b - (pos + 8)) with (SizeOfBitMap b - pos + (-1) * 8) by lia.
        rewrite Z.div_add by lia. lia. }
      rewrite Hd8 in E. exists sc. split; [done |]. by apply scan_ok_later.
  - destruct (Z.eqb_spec (view byte) (Z.ones 8)) as [Ef | Ef]; cbn [negb].
    + eexists. split; [done |]. simpl. rewrite Hd8. repeat split; try (done || lia).
      intros i Hi. replace i with (pos + (i - pos)) by lia. rewrite Hj, Ef by lia.
      by rewrite Z.ones_spec_low by lia.
    + by apply run_start_in_byte.
Qed.

Lemma NTDLL_FindRun_spec pos :
  0 <= pos < SizeOfBitMap b -> pos mod 8 = 0 ->
  (NTDLL_FindRun view b pos = Some (ALL_ONES, None) /\
     forall i, pos <= i < SizeOfBitMap b -> bit b i = negb v) \/
  (exists p n, NTDLL_FindRun view b pos = Some (p, Some n) /\ next_run v b pos p n).
Proof using All.
  intros Hp Ha. pose proof (wf_size b b_wf) as Hs. unfold NTDLL_FindRun. cbv zeta.
  assert (Hfuel : forall q, 0 <= q ->
    (SizeOfBitMap b - q) / 8 <= Z.of_nat (S (Z.to_nat (SizeOfBitMap b / 8)))).
  { intros q Hq. pose proof (Z.div_le_mono (SizeOfBitMap b - q) (SizeOfBitMap b) 8). lia. }
  destruct (run_start_spec (S (Z.to_nat (SizeOfBitMap b / 8))) pos Hp Ha (Hfuel pos ltac:(lia)))
    as (sc & E & Hok).
  rewrite Z.shiftr_div_pow2 by lia. change (2 ^ 3) with 8. rewrite E. cbn [mbind option_bind].
  destruct sc as [| p n | p n q lp]; simpl in Hok.
  - by left.
  - right. eauto.
  - right. destruct Hok as (H1 & H2 & Hq & H4 & H5 & -> & H7 & H8).
    destruct (Z.leb_spec (SizeOfBitMap b) q).
    + exists p, n. split; [do 3 f_equal; rewrite uwrap_small; lia |].
      repeat split; try (done || lia).
    + destruct (run_blocks_spec (S (Z.to_nat (SizeOfBitMap b / 8))) n q) as (m & -> & M1 & M2 & M3 & M4);
        [lia | done | lia | apply Hfuel; lia |].
      cbn [mbind option_bind]. exists p, (n + m). split; [done |].
      subst q. repeat split; try (done || lia).
      * apply all_bits_join; [lia | done | done].
      * intros Hlt. replace (p + (n + m)) with (p + n + m) by lia. apply M4. lia.
Qed.
End FindRun.

(** ** Properties *)

(** From a position at the start of a byte, in a bitmap of whole bytes,
    [RtlFindNextForwardRunSet] ends, stays in the buffer and returns the next run of
    set bits with its full length, or 0 when no set bit follows; the same holds of
    [RtlFindNextForwardRunClear] for clear bits. *)
Theorem next_forward_run_exact b pos :
  bitmap_wf b -> SizeOfBitMap b mod 8 = 0 -> 0 <= pos < SizeOfBitMap b -> pos mod 8 = 0 ->
  (exists n p, RtlFindNextForwardRunSet (Some b) pos true = Some (n, Some p) /\
    ((n = 0 /\ p = ALL_ONES /\ forall i, pos <= i < SizeOfBitMap b -> bit b i = false) \/
     next_run true b pos p n)) /\
  (exists n p, RtlFindNextForwardRunClear (Some b) pos true = Some (n, Some p) /\
    ((n = 0 /\ p = ALL_ONES /\ forall i, pos <= i < SizeOfBitMap b -> bit b i = true) \/
     next_run false b pos p n)).
Proof.
  intros Hb Hs Hp Ha.
  unfold RtlFindNextForwardRunSet, RtlFindNextForwardRunClear, find_next_forward.
  destruct (Z.ltb_spec pos (SizeOfBitMap b)) as [_ |]; [| lia]. cbn [andb].
  unfold NTDLL_FindSetRun, NTDLL_FindClearRun. split.
  - destruct (NTDLL_FindRun_spec true view_set b shows_set Hb Hs pos Hp Ha)
      as [[-> H] | (p & n & -> & H)]; cbn; eauto 10.
  - destruct (NTDLL_FindRun_spec false view_clear b shows_clear Hb Hs pos Hp Ha)
      as [[-> H] | (p & n & -> & H)]; cbn; eauto 10.
Qed.

Lemma next_forward_run_exact_witness :
  (exists n p, RtlFindNextForwardRunSet (Some demo) 8 true = Some (n, Some p) /\
    ((n = 0 /\ p = ALL_ONES /\ forall i, 8 <= i < 64 -> bit demo i = false) \/
     next_run true demo 8 p n)) /\
  RtlFindNextForwardRunSet (Some demo) 8 true = Some (4, Some 8).
Proof.
  split; [| reflexivity].
  exact (proj1 (next_forward_run_exact demo 8 demo_wf ltac:(done) ltac:(done) ltac:(done))).
Defined.

(** ** A start inside a byte

    There the offset of the run within its byte is added to the start itself and not
    to the start of the byte. *)

Lemma start_mask_spec pos j :
  0 <= j < 8 -> Z.testbit (Z.land (Z.shiftl 0xff (Z.land pos 7)) 0xff) j = (pos mod 8 <=? j).
Proof.
  intros Hj. change 7 with (Z.ones 3). rewrite Z.land_ones by lia. change (2 ^ 3) with 8.
  pose proof (Z.mod_pos_bound pos 8 ltac:(lia)).
  change 0xff with (Z.ones 8). rewrite Z.land_spec, Z.shiftl_spec by lia.
  rewrite (Z.ones_spec_low 8 j) by lia. rewrite andb_true_r.
  destruct (Z.leb_spec (pos mod 8) j); [apply Z.ones_spec_low; lia | apply Z.testbit_neg_r; lia].
Qed.

Lemma lowest_bit_unique x o o' : lowest_bit x o -> lowest_bit x o' -> o = o'.
Proof.
  intros (H0 & H1 & H2) (H0' & H1' & H2').
  destruct (Z.lt_trichotomy o o') as [Hlt | [| Hlt]]; [| done |].
  - rewrite H2' in H1 by lia. done.
  - rewrite H2 in H1' by lia. done.
Qed.

(** The ones from [o] on end at the same place however they are counted. *)
Lemma ones_end_unique x o n (stop : bool) m lim :
  0 <= n -> ones_at x o n -> Z.testbit x (o + n) = false -> n < lim ->
  0 <= m -> ones_at x o m -> (if stop then m < lim /\ Z.testbit x (o + m) = false else m = lim) ->
  stop = true /\ m = n.
Proof.
  intros Hn On En Hlim Hm Om Hst.
  assert (Hle : m <= n).
  { destruct (Z.le_gt_cases m n); [done |]. by rewrite Om in En by lia. }
  destruct stop; [| lia]. split; [done |]. destruct (Z.eq_dec m n); [done |].
  destruct Hst as [_ Hst]. by rewrite On in Hst by lia.
Qed.

(** The first byte, without the bits before the start, when the next run begins and
    ends in it: the run is at the right offset in the byte. *)
Lemma first_byte_of_run b pos p n byte :
  0 <= pos -> next_run true b pos p n -> p + n < 8 * (pos / 8) + 8 -> p + n < SizeOfBitMap b ->
  byte_range byte ->
  (forall j, 0 <= j < 8 -> Z.testbit byte j = bitat (Buffer b) (8 * (pos / 8) + j)) ->
  let mask := Z.land (Z.shiftl 0xff (Z.land pos 7)) 0xff in
  let x := Z.land byte mask in
  let o := p - 8 * (pos / 8) in
  byte_range x /\ x <> mask /\ lowest_bit x o /\ ones_at x o n /\ Z.testbit x (o + n) = false.
Proof.
  intros Hpos (Hp & Hn & Hend & Hbefore & Hall & Hafter) Hin Hlt Hbr Hbits mask x o.
  specialize (Hafter Hlt). cbn [negb] in Hbefore, Hafter.
  pose proof (Z.div_mod pos 8 ltac:(lia)) as Hd. pose proof (Z.mod_pos_bound pos 8 ltac:(lia)) as Hm.
  assert (Hx : forall j, 0 <= j < 8 -> Z.testbit x j = bit b (8 * (pos / 8) + j) && (pos mod 8 <=? j)).
  { intros j Hj. unfold x, mask. rewrite Z.land_spec, start_mask_spec, Hbits by done. done. }
  assert (Hones : ones_at x o n).
  { intros j Hj. rewrite Hx by lia. rewrite Hall by lia. apply Z.leb_le. lia. }
  assert (Hstop : Z.testbit x (o + n) = false).
  { rewrite Hx by lia. replace (8 * (pos / 8) + (o + n)) with (p + n) by lia. by rewrite Hafter. }
  split; [| split; [| split; [| done]]].
  - unfold x, mask. rewrite Z.land_assoc. change 0xff with (Z.ones 8) at 2.
    rewrite Z.land_ones by lia. apply Z.mod_pos_bound. lia.
  - intros E. rewrite E in Hstop. unfold mask in Hstop. rewrite start_mask_spec in Hstop by lia.
    apply Z.leb_gt in Hstop. lia.
  - split; [lia |]. split; [apply Hones; lia |]. intros j Hj. rewrite Hx by lia.
    destruct (Z.leb_spec (pos mod 8) j); [| apply andb_false_r].
    rewrite Hbefore by lia. done.
Qed.

(** A run that begins and ends in the byte of the start is reported with its
    right length, but at a position too high by the offset of the start in its
    byte. *)
Theorem start_inside_byte_misplaces_run b pos p n :
  bitmap_wf b -> 0 <= pos < SizeOfBitMap b -> SizeOfBitMap b + 16 <= 2 ^ 32 ->
  next_run true b pos p n -> p + n < 8 * (pos / 8) + 8 -> p + n < SizeOfBitMap b ->
  RtlFindNextForwardRunSet (Some b) pos true = Some (n, Some (p + pos mod 8)).
Proof.
  intros Hb Hpos Hsz Hrun Hin Hlt. destruct (Hb) as [Hs Hroom Hw].
  pose proof (Z.div_mod pos 8 ltac:(lia)) as Hd. pose proof (Z.mod_pos_bound pos 8 ltac:(lia)) as Hm.
  destruct (rdb_spec (Buffer b) (pos / 8) Hw) as (byte & Eb & Hbr & Hbits); [lia |].
  destruct (first_byte_of_run b pos p n byte ltac:(lia) Hrun Hin Hlt Hbr Hbits)
    as (Hxr & Hxm & Hlow & Hones & Hstop). destruct Hrun as (Hp & Hn & _).
  unfold RtlFindNextForwardRunSet, find_next_forward, NTDLL_FindSetRun, NTDLL_FindRun.
  destruct (Z.ltb_spec pos (SizeOfBitMap b)) as [_ |]; [| lia]. cbn [andb]. cbv zeta.
  rewrite Z.shiftr_div_pow2 by lia. change (2 ^ 3) with 8. cbn [run_start]. rewrite Eb.
  cbn [mbind option_bind]. unfold view_set. cbv zeta. revert Hxr Hxm Hlow Hones Hstop.
  set (mask := Z.land (Z.shiftl 0xff (Z.land pos 7)) 0xff).
  set (x := Z.land byte mask). set (o := p - 8 * (pos / 8)). intros Hxr Hxm Hlow Hones Hstop.
  assert (Hx0 : x <> 0).
  { intros E. destruct Hlow as (_ & H1 & _). by rewrite E, Z.testbit_0_l in H1. }
  destruct (Z.eqb_spec x 0) as [| _]; [done |]. destruct (Z.eqb_spec x mask) as [| _]; [done |].
  cbn [negb]. destruct (first_offset_spec x Hxr Hx0) as (o' & -> & _ & Ho').
  rewrite <- (lowest_bit_unique x o o' Hlow Ho'). cbn [mbind option_bind].
  rewrite (uwrap_small 32 (pos + o)) by lia.
  destruct (first_byte_bits_spec (Z.to_nat (8 - o)) x o 0 (pos + o))
    as (stop & m & -> & Hm' & Om & Hst); [lia | lia | lia | lia |].
  destruct (ones_end_unique x o n stop m (Z.of_nat (Z.to_nat (8 - o)))) as [-> ->]; [done || lia .. |].
  cbn. do 3 f_equal. lia.
Qed.

(** Of the two runs of 0x21, at 0 and at 5, the second is searched from 1 on and
    reported at 6, where the bit is clear. *)
Lemma start_inside_byte_misplaces_run_witness :
  RtlFindNextForwardRunSet (Some (RtlInitializeBitMap [0x21] 32)) 1 true = Some (1, Some 6) /\
  bit (RtlInitializeBitMap [0x21] 32) 5 = true /\ bit (RtlInitializeBitMap [0x21] 32) 6 = false /\
  RtlFindSetRuns (RtlInitializeBitMap [0x21] 32) [blank_run; blank_run] 2 false =
    Some (2, [{| StartingIndex := 0; NumberOfBits := 1 |};
              {| StartingIndex := 6; NumberOfBits := 1 |}]).
Proof.
  split; [| repeat split]. apply (start_inside_byte_misplaces_run _ 1 5 1).
  - constructor; [done | done |]. repeat constructor; done.
  - done.
  - done.
  - split; [lia |]. split; [lia |]. split; [done |]. split; [| split].
    + intros i Hi. assert (i = 1 \/ i = 2 \/ i = 3 \/ i = 4) as [-> | [-> | [-> | ->]]] by lia; reflexivity.
    + intros i Hi. replace i with 5 by lia. reflexivity.
    + intros _. reflexivity.
  - done.
  - done.
Defined.
