(* ===== verification/Region.v ===== *)
(** * Regions of the wineserver

    Models [src/server/region.c] and the rectangle helpers of [src/server/user.h].
    A region is a list of rectangles in rows ("bands") from top to bottom, each row
    from left to right, with its bounding box.  [rects] is the used part of the C
    array, so its length is [num_rects]; [rgn_size] is the allocated length.  A
    pointer into a rectangle array that a loop only moves forward is the list of the
    rectangles from it to the end of the array.

    Every allocation asks the parameter [alloc_ok], which may refuse any of them.  The
    functions that build a result work on the destination region [w_reg] and return
    [false] where the C code returns 0.  The public operations take pointers, as the
    destination may be one of the sources. *)

From stdpp Require Import base list gmap.
From Stdlib Require Import ZArith Lia.
From S2P Require Import Prelude.

Open Scope Z_scope.

(** ** Rectangles *)

Record rectangle := mkRect {
  r_left : Z;
  r_top : Z;
  r_right : Z;
  r_bottom : Z
}.

#[export] Instance rectangle_eq_dec : EqDecision rectangle.
Proof. solve_decision. Defined.

Definition empty_rect : rectangle := mkRect 0 0 0 0.

Definition is_rect_equal (rect1 rect2 : rectangle) : bool :=
  (r_left rect1 =? r_left rect2) && (r_right rect1 =? r_right rect2) &&
  (r_top rect1 =? r_top rect2) && (r_bottom rect1 =? r_bottom rect2).

Definition is_rect_empty (rect : rectangle) : bool :=
  (r_right rect <=? r_left rect) || (r_bottom rect <=? r_top rect).

Definition point_in_rect (rect : rectangle) (x y : Z) : bool :=
  (r_left rect <=? x) && (x <? r_right rect) && (r_top rect <=? y) && (y <? r_bottom rect).

(** [struct ratio]: two unsigned shorts. *)
Record ratio := mkRatio { num : Z; den : Z }.

Definition scale_dpi (val : Z) (dpi_from dpi_to : ratio) : Z :=
  let n := u32 (num dpi_to * den dpi_from) in
  let d := u32 (num dpi_from * den dpi_to) in
  if 0 <=? val then i32 (u32 (u32 (val * n) + d / 2) / d)
  else i32 (u32 (u32 (val * n) - d / 2) / d).

Definition scale_dpi_rect (rect : rectangle) (dpi_from dpi_to : ratio) : rectangle :=
  mkRect (scale_dpi (r_left rect) dpi_from dpi_to) (scale_dpi (r_top rect) dpi_from dpi_to)
         (scale_dpi (r_right rect) dpi_from dpi_to) (scale_dpi (r_bottom rect) dpi_from dpi_to).

Definition offset_rect (offset_x offset_y : Z) (rect : rectangle) : rectangle :=
  mkRect (i32 (r_left rect + offset_x)) (i32 (r_top rect + offset_y))
         (i32 (r_right rect + offset_x)) (i32 (r_bottom rect + offset_y)).

Definition mirror_rect (client_rect rect : rectangle) : rectangle :=
  let width := i32 (r_right client_rect - r_left client_rect) in
  mkRect (i32 (width - r_right rect)) (r_top rect) (i32 (width - r_left rect)) (r_bottom rect).

(** [intersect_rect]: the intersection, and whether it is not empty. *)
Definition intersect_rect (src1 src2 : rectangle) : rectangle * bool :=
  let dst := mkRect (Z.max (r_left src1) (r_left src2)) (Z.max (r_top src1) (r_top src2))
                    (Z.min (r_right src1) (r_right src2))
                    (Z.min (r_bottom src1) (r_bottom src2)) in
  (dst, negb (is_rect_empty dst)).

Definition INT_MAX : Z := 2147483647.
Definition INT_MIN : Z := -2147483648.

Definition reset_bounds : rectangle := mkRect INT_MAX INT_MAX INT_MIN INT_MIN.

Definition union_rect (src1 src2 : rectangle) : rectangle :=
  if is_rect_empty src1 then
    if is_rect_empty src2 then reset_bounds else src2
  else
    if is_rect_empty src2 then src1
    else mkRect (Z.min (r_left src1) (r_left src2)) (Z.min (r_top src1) (r_top src2))
                (Z.max (r_right src1) (r_right src2)) (Z.max (r_bottom src1) (r_bottom src2)).

(** ** Regions *)

Record region := mkRegion {
  rgn_size : Z;
  rects : list rectangle;
  extents : rectangle
}.

Definition num_rects (reg : region) : Z := Z.of_nat (length (rects reg)).

Definition RGN_DEFAULT_RECTS : Z := 2.
Definition RECT_BYTES : Z := 16.

Definition STATUS_NO_MEMORY : Z := 0xC0000017.
Definition STATUS_INVALID_PARAMETER : Z := 0xC000000D.
Definition STATUS_BUFFER_OVERFLOW : Z := 0x80000005.

Definition EXTENTCHECK (r1 r2 : rectangle) : bool :=
  (r_left r2 <? r_right r1) && (r_left r1 <? r_right r2) &&
  (r_top r2 <? r_bottom r1) && (r_top r1 <? r_bottom r2).

(** [validate_rectangles]: the loop over neighbouring rectangles. *)
Fixpoint validate_rectangles (rs : list rectangle) : bool :=
  match rs with
  | [] => true
  | p0 :: rest =>
      negb (is_rect_empty p0) &&
      match rest with
      | [] => true
      | p1 :: _ =>
          (if r_top p0 =? r_top p1
           then (r_bottom p0 =? r_bottom p1) && (r_right p0 <? r_left p1)
           else r_bottom p0 <=? r_top p1) &&
          validate_rectangles rest
      end
  end.

Definition set_bottom (b : Z) (r : rectangle) : rectangle :=
  mkRect (r_left r) (r_top r) (r_right r) b.
Definition set_right (x : Z) (r : rectangle) : rectangle :=
  mkRect (r_left r) (r_top r) x (r_bottom r).

Definition set_rects (rs : list rectangle) (reg : region) : region :=
  mkRegion (rgn_size reg) rs (extents reg).
Definition set_extents (e : rectangle) (reg : region) : region :=
  mkRegion (rgn_size reg) (rects reg) e.

(** The number of rectangles at the front of [rs] whose top is [t]:
    [while ((end != rEnd) && (end->top == r->top)) end++]. *)
Fixpoint band_length (t : Z) (rs : list rectangle) : nat :=
  match rs with
  | [] => 0
  | r :: rs' => if r_top r =? t then S (band_length t rs') else 0
  end.

(** [while (pRegEnd[-1].top == pRegEnd->top) pRegEnd--] from index [k]. *)
Fixpoint last_band_start (rs : list rectangle) (k : nat) : nat :=
  match k with
  | O => O
  | S k' =>
      match rs !! k', rs !! k with
      | Some r', Some r => if r_top r' =? r_top r then last_band_start rs k' else k
      | _, _ => k
      end
  end.

(** The comparison loop of [coalesce_region]: the same left and right sides. *)
Fixpoint same_sides (prev cur : list rectangle) : bool :=
  match prev, cur with
  | p :: prev', c :: cur' =>
      (r_left p =? r_left c) && (r_right p =? r_right c) && same_sides prev' cur'
  | _, _ => true
  end.

Definition coalesce_region (rs : list rectangle) (prevStart curStart : nat)
    : list rectangle * nat :=
  let prevNumRects := (curStart - prevStart)%nat in
  let from_cur := drop curStart rs in
  match from_cur with
  | [] => (rs, curStart)
  | pCurRect :: _ =>
      let bandtop := r_top pCurRect in
      let curNumRects := band_length bandtop from_cur in
      let pCurEnd := (curStart + curNumRects)%nat in
      let at_end := Nat.eqb pCurEnd (length rs) in
      let curStart' := if at_end then curStart else last_band_start rs (length rs - 1) in
      let prev := take prevNumRects (drop prevStart rs) in
      let cur := take curNumRects from_cur in
      match prev with
      | [] => (rs, curStart')
      | pPrevRect :: _ =>
          if Nat.eqb curNumRects prevNumRects && negb (Nat.eqb curNumRects 0) &&
             (r_bottom pPrevRect =? r_top pCurRect) && same_sides prev cur then
            (take prevStart rs ++ zip_with (fun p c => set_bottom (r_bottom c) p) prev cur
               ++ drop pCurEnd rs,
             if at_end then prevStart else curStart')
          else (rs, curStart')
      end
  end.

(** [set_region_extents] *)
Definition set_region_extents (reg : region) : region :=
  match rects reg, last (rects reg) with
  | pRect :: _, Some pRectEnd =>
      let step (e r : rectangle) :=
        mkRect (if r_left r <? r_left e then r_left r else r_left e) (r_top e)
               (if r_right e <? r_right r then r_right r else r_right e) (r_bottom e) in
      set_extents
        (fold_left step (rects reg)
           (mkRect (r_left pRect) (r_top pRect) (r_right pRectEnd) (r_bottom pRectEnd))) reg
  | _, _ => set_extents empty_rect reg
  end.

(** ** Memory

    [allocs] counts the requests to the allocator, which may answer each of them as it
    likes. *)

Record env := mkEnv { allocs : nat; error : Z }.

Definition set_error (st : Z) (e : env) : env := mkEnv (allocs e) st.

(** The region being built and the allocator's state. *)
Record work := mkWork { w_reg : region; w_env : env }.

Definition upd_reg (f : region -> region) (w : work) : work := mkWork (f (w_reg w)) (w_env w).
Definition upd_env (f : env -> env) (w : work) : work := mkWork (w_reg w) (f (w_env w)).

(** [if (!m) return 0; k] *)
Definition mand {S} (m k : M S bool) : M S bool :=
  let! ok := m in if ok then k else mreturn false.

Notation "m '&?&' k" := (mand m k) (at level 95, right associativity) : c_scope.

Section Alloc.
Context (alloc_ok : nat -> Z -> bool).

(** [malloc] or [realloc] of [bytes]. *)
Definition try_alloc (bytes : Z) (e : env) : bool * env :=
  (alloc_ok (allocs e) bytes, mkEnv (S (allocs e)) (error e)).

Definition malloc (bytes : Z) : M work bool := fun w =>
  let r := try_alloc bytes (w_env w) in (r.1, mkWork (w_reg w) r.2).

(** [mem_alloc] (and [memdup]) set the error when they fail. *)
Definition mem_alloc (bytes : Z) : M work bool :=
  let! ok := malloc bytes in
  mwhen (negb ok) (mmodify (upd_env (set_error STATUS_NO_MEMORY))) ;;;
  mreturn ok.

(** ** Building a region *)

Definition push_rect (r : rectangle) : M work bool :=
  mmodify (upd_reg (fun reg => set_rects (rects reg ++ [r]) reg)) ;;; mreturn true.

(** [add_rect], with the rectangle its callers store in the slot it returns. *)
Definition add_rect (r : rectangle) : M work bool :=
  let! reg := mgets w_reg in
  if rgn_size reg <=? num_rects reg then
    let! ok := malloc (2 * RECT_BYTES * rgn_size reg) in
    if ok then
      mmodify (upd_reg (fun reg => mkRegion (rgn_size reg * 2) (rects reg) (extents reg))) ;;;
      push_rect r
    else
      mmodify (upd_env (set_error STATUS_NO_MEMORY)) ;;; mreturn false
  else push_rect r.

Definition intersect_overlapping (top bottom : Z)
    : list rectangle -> list rectangle -> M work bool :=
  fix loop1 (r1 : list rectangle) := fix loop2 (r2 : list rectangle) :=
    match r1, r2 with
    | a :: r1', b :: r2' =>
        let left := Z.max (r_left a) (r_left b) in
        let right := Z.min (r_right a) (r_right b) in
        (if left <? right then add_rect (mkRect left top right bottom) else mreturn true) &?&
        (if r_right a <? r_right b then loop1 r1' r2
         else if r_right b <? r_right a then loop2 r2'
         else loop1 r1' r2')
    | _, _ => mreturn true
    end.

(** [subtract_non_overlapping] and [union_non_overlapping] have the same body. *)
Fixpoint copy_band (top bottom : Z) (r : list rectangle) : M work bool :=
  match r with
  | [] => mreturn true
  | a :: r' => add_rect (mkRect (r_left a) top (r_right a) bottom) &?& copy_band top bottom r'
  end.

Definition subtract_non_overlapping := copy_band.
Definition union_non_overlapping := copy_band.

(** [if (r1 != r1End) left = r1->left;] *)
Definition next_left (r1 : list rectangle) (left : Z) : Z :=
  match r1 with [] => left | a :: _ => r_left a end.

Fixpoint subtract_rest (top bottom : Z) (r1 : list rectangle) (left : Z) : M work bool :=
  match r1 with
  | [] => mreturn true
  | a :: r1' =>
      add_rect (mkRect left top (r_right a) bottom) &?&
      subtract_rest top bottom r1' (next_left r1' left)
  end.

Definition subtract_loop (top bottom : Z)
    : list rectangle -> list rectangle -> Z -> M work bool :=
  fix loop1 (r1 : list rectangle) := fix loop2 (r2 : list rectangle) (left : Z) :=
    match r1, r2 with
    | a :: r1', b :: r2' =>
        if r_right b <=? left then loop2 r2' left
        else if r_left b <=? left then
          let left := r_right b in
          if r_right a <=? left then loop1 r1' r2 (next_left r1' left) else loop2 r2' left
        else if r_left b <? r_right a then
          add_rect (mkRect left top (r_left b) bottom) &?&
          (let left := r_right b in
           if r_right a <=? left then loop1 r1' r2 (next_left r1' left) else loop2 r2' left)
        else
          (if left <? r_right a then add_rect (mkRect left top (r_right a) bottom)
           else mreturn true) &?&
          loop1 r1' r2 (next_left r1' left)
    | _, _ => subtract_rest top bottom r1 left
    end.

Definition subtract_overlapping (top bottom : Z) (r1 r2 : list rectangle) : M work bool :=
  subtract_loop top bottom r1 r2 (next_left r1 0).

(** [MERGERECT] without the final [r++]. *)
Definition merge_rect (top bottom : Z) (r : rectangle) : M work bool :=
  let! reg := mgets w_reg in
  match last (rects reg) with
  | Some p =>
      if (r_top p =? top) && (r_bottom p =? bottom) && (r_left r <=? r_right p) then
        (if r_right p <? r_right r then
           mmodify (upd_reg (fun reg =>
             set_rects (removelast (rects reg) ++ [set_right (r_right r) p]) reg))
         else mreturn tt) ;;;
        mreturn true
      else add_rect (mkRect (r_left r) top (r_right r) bottom)
  | None => add_rect (mkRect (r_left r) top (r_right r) bottom)
  end.

Fixpoint merge_rects (top bottom : Z) (r : list rectangle) : M work bool :=
  match r with
  | [] => mreturn true
  | a :: r' => merge_rect top bottom a &?& merge_rects top bottom r'
  end.

Definition union_overlapping (top bottom : Z)
    : list rectangle -> list rectangle -> M work bool :=
  fix loop1 (r1 : list rectangle) := fix loop2 (r2 : list rectangle) :=
    match r1, r2 with
    | a :: r1', b :: r2' =>
        if r_left a <? r_left b then merge_rect top bottom a &?& loop1 r1' r2
        else merge_rect top bottom b &?& loop2 r2'
    | [], _ => merge_rects top bottom r2
    | _, [] => merge_rects top bottom r1
    end.

(** ** [region_op]

    The three functions it is given; [None] is a null function pointer. *)

Record band_ops := mkBandOps {
  overlap_func : Z -> Z -> list rectangle -> list rectangle -> M work bool;
  non_overlap1_func : option (Z -> Z -> list rectangle -> M work bool);
  non_overlap2_func : option (Z -> Z -> list rectangle -> M work bool)
}.

Definition intersect_ops : band_ops := mkBandOps intersect_overlapping None None.
Definition subtract_ops : band_ops :=
  mkBandOps subtract_overlapping (Some subtract_non_overlapping) None.
Definition union_ops : band_ops :=
  mkBandOps union_overlapping (Some union_non_overlapping) (Some union_non_overlapping).

Definition call_non_overlap (f : option (Z -> Z -> list rectangle -> M work bool))
    (top bottom : Z) (r : list rectangle) : M work bool :=
  match f with Some f => f top bottom r | None => mreturn true end.

(** [curBand = newReg->num_rects; ...; if (newReg->num_rects != curBand) prevBand =
    coalesce_region(newReg, prevBand, curBand);] *)
Definition coalesce_new (prevBand curBand : nat) : M work nat :=
  let! reg := mgets w_reg in
  if Nat.eqb (length (rects reg)) curBand then mreturn prevBand
  else
    let r := coalesce_region (rects reg) prevBand curBand in
    mmodify (upd_reg (set_rects r.1)) ;;;
    mreturn r.2.

Definition cur_band : M work nat := mgets (fun w => length (rects (w_reg w))).

(** Where the two regions have been read up to, [ybot] and [prevBand]. *)
Record op_state := mkOp { o_r1 : list rectangle; o_r2 : list rectangle; o_ybot : Z;
                          o_prevBand : nat }.

Definition opt_bind {S A} (m : M S bool) (k : M S (option A)) : M S (option A) :=
  let! ok := m in if ok then k else mreturn None.

(** One round of the main loop, with both regions not at their end; [None] is
    [goto done]. *)
Definition region_op_round (ops : band_ops) (a b : rectangle) (st : op_state)
    : M work (option op_state) :=
  let r1 := o_r1 st in
  let r2 := o_r2 st in
  let ybot := o_ybot st in
  let n1 := band_length (r_top a) r1 in
  let n2 := band_length (r_top b) r2 in
  let band1 := take n1 r1 in
  let band2 := take n2 r2 in
  let! curBand := cur_band in
  opt_bind
    (if r_top a <? r_top b then
       let top := Z.max (r_top a) ybot in
       let bot := Z.min (r_bottom a) (r_top b) in
       if negb (top =? bot) then call_non_overlap (non_overlap1_func ops) top bot band1
       else mreturn true
     else if r_top b <? r_top a then
       let top := Z.max (r_top b) ybot in
       let bot := Z.min (r_bottom b) (r_top a) in
       if negb (top =? bot) then call_non_overlap (non_overlap2_func ops) top bot band2
       else mreturn true
     else mreturn true)
    (let ytop := if r_top a <? r_top b then r_top b else r_top a in
     let! prevBand := coalesce_new (o_prevBand st) curBand in
     let ybot := Z.min (r_bottom a) (r_bottom b) in
     let! curBand := cur_band in
     opt_bind
       (if ytop <? ybot then overlap_func ops ytop ybot band1 band2 else mreturn true)
       (let! prevBand := coalesce_new prevBand curBand in
        mreturn (Some (mkOp (if r_bottom a =? ybot then drop n1 r1 else r1)
                            (if r_bottom b =? ybot then drop n2 r2 else r2)
                            ybot prevBand)))).

(** The main loop: each round finishes a row of one of the regions, so the number of
    rectangles bounds the rounds. *)
Fixpoint region_op_loop (fuel : nat) (ops : band_ops) (st : op_state)
    : M work (option op_state) :=
  match o_r1 st, o_r2 st with
  | a :: _, b :: _ =>
      match fuel with
      | O => mreturn None
      | S fuel' =>
          let! r := region_op_round ops a b st in
          match r with
          | Some st' => region_op_loop fuel' ops st'
          | None => mreturn None
          end
      end
  | _, _ => mreturn (Some st)
  end.

(** The rows left in one region after the main loop. *)
Fixpoint region_op_rest (fuel : nat) (f : Z -> Z -> list rectangle -> M work bool)
    (ybot : Z) (r : list rectangle) : M work bool :=
  match r with
  | [] => mreturn true
  | a :: _ =>
      match fuel with
      | O => mreturn false
      | S fuel' =>
          let n := band_length (r_top a) r in
          f (Z.max (r_top a) ybot) (r_bottom a) (take n r) &?&
          region_op_rest fuel' f ybot (drop n r)
      end
  end.

Definition region_op_tail (ops : band_ops) (st : op_state) : M work bool :=
  match o_r1 st, o_r2 st with
  | _ :: _, _ =>
      match non_overlap1_func ops with
      | Some f => region_op_rest (length (o_r1 st)) f (o_ybot st) (o_r1 st)
      | None => mreturn true
      end
  | [], _ :: _ =>
      match non_overlap2_func ops with
      | Some f => region_op_rest (length (o_r2 st)) f (o_ybot st) (o_r2 st)
      | None => mreturn true
      end
  | [], [] => mreturn true
  end.

(** The array shrinks when less than half of it is used. *)
Definition region_op_shrink : M work unit :=
  let! reg := mgets w_reg in
  if (num_rects reg <? rgn_size reg / 2) && (2 <? rgn_size reg) then
    let new_size := Z.max (num_rects reg) RGN_DEFAULT_RECTS in
    let! ok := malloc (RECT_BYTES * new_size) in
    mwhen ok (mmodify (upd_reg (fun reg => mkRegion new_size (rects reg) (extents reg))))
  else mreturn tt.

Definition region_op_work (reg1 reg2 : region) (ops : band_ops) : M work bool :=
  let new_size := Z.max (num_rects reg1) (num_rects reg2) * 2 in
  mem_alloc (new_size * RECT_BYTES) &?&
  (mmodify (upd_reg (fun reg => mkRegion new_size [] (extents reg))) ;;;
   let ybot := if r_top (extents reg1) <? r_top (extents reg2)
               then r_top (extents reg1) else r_top (extents reg2) in
   let! r := region_op_loop (length (rects reg1) + length (rects reg2)) ops
               (mkOp (rects reg1) (rects reg2) ybot 0) in
   match r with
   | None => mreturn false
   | Some st =>
       let! curBand := cur_band in
       region_op_tail ops st &?&
       (coalesce_new (o_prevBand st) curBand ;;;
        region_op_shrink ;;;
        mreturn true)
   end).

(** ** The public operations

    Regions live in a heap, by address. *)

Record world := mkWorld { heap : gmap Z region; next_addr : Z; genv : env }.

Definition load (p : ptr) : M world region :=
  mgets (fun w => default (mkRegion 0 [] empty_rect) (heap w !! p)).

Definition store (p : ptr) (reg : region) : M world unit :=
  mmodify (fun w => mkWorld (<[p := reg]> (heap w)) (next_addr w) (genv w)).

(** Run a function on the region at [p]. *)
Definition on_region {A} (p : ptr) (m : M work A) : M world A :=
  let! reg := load p in
  let! e := mgets genv in
  let r := m (mkWork reg e) in
  mmodify (fun w => mkWorld (<[p := w_reg r.2]> (heap w)) (next_addr w) (w_env r.2)) ;;;
  mreturn r.1.

Definition w_mem_alloc (bytes : Z) : M world bool := fun w =>
  let r := try_alloc bytes (genv w) in
  (r.1, mkWorld (heap w) (next_addr w)
          (if r.1 then r.2 else set_error STATUS_NO_MEMORY r.2)).

Definition w_set_error (st : Z) : M world unit :=
  mmodify (fun w => mkWorld (heap w) (next_addr w) (set_error st (genv w))).

(** The address of a new region is one no region has had. *)
Definition new_region (reg : region) : M world ptr := fun w =>
  (next_addr w, mkWorld (<[next_addr w := reg]> (heap w)) (next_addr w + 1) (genv w)).

Definition REGION_BYTES : Z := 32.

(** [mem_alloc] of the structure, then of the array of [n] rectangles. *)
Definition alloc_region (n : Z) (reg : region) : M world ptr :=
  let! ok := w_mem_alloc REGION_BYTES in
  if negb ok then mreturn NULL
  else
    let! ok := w_mem_alloc (n * RECT_BYTES) in
    if negb ok then mreturn NULL else new_region reg.

Definition create_empty_region : M world ptr :=
  alloc_region RGN_DEFAULT_RECTS (mkRegion RGN_DEFAULT_RECTS [] empty_rect).

(** [create_region_from_req_data]: [data] is the client's buffer as rectangles. *)
Definition create_region_from_req_data (data : list rectangle) (size : Z) : M world ptr :=
  let nb := size / RECT_BYTES in
  let rs := take (Z.to_nat nb) data in
  let rs := match rs with
            | [r] => if decide (r = empty_rect) then [] else rs
            | _ => rs
            end in
  if negb (validate_rectangles rs) then
    w_set_error STATUS_INVALID_PARAMETER ;;; mreturn NULL
  else
    let alloc_rects := Z.max (Z.of_nat (length rs)) RGN_DEFAULT_RECTS in
    alloc_region alloc_rects (set_region_extents (mkRegion alloc_rects rs empty_rect)).

Definition free_region (p : ptr) : M world unit :=
  mmodify (fun w => mkWorld (delete p (heap w)) (next_addr w) (genv w)).

Definition set_region_rect (rect : rectangle) (reg : region) : region :=
  if negb (is_rect_empty rect) then mkRegion (rgn_size reg) [rect] rect
  else mkRegion (rgn_size reg) [] empty_rect.

(** [get_region_data]: the copy sent to the client, if any, and [*total_size]. *)
Definition get_region_data (reg : region) (max_size : Z)
    : M world (option (list rectangle) * Z) :=
  let bytes := u32 (num_rects reg * RECT_BYTES) in
  let total_size := if bytes =? 0 then RECT_BYTES else bytes in
  let data := if bytes =? 0 then [empty_rect] else take (Z.to_nat (bytes / RECT_BYTES)) (rects reg) in
  if total_size <=? max_size then
    let! ok := w_mem_alloc total_size in
    mreturn (if ok then Some data else None, total_size)
  else
    w_set_error STATUS_BUFFER_OVERFLOW ;;; mreturn (None, total_size).

Definition get_region_data_and_free (p : ptr) (max_size : Z)
    : M world (option (list rectangle) * Z) :=
  let! reg := load p in
  let bytes := u32 (num_rects reg * RECT_BYTES) in
  let total_size := if bytes =? 0 then RECT_BYTES else bytes in
  let! ret :=
    (if bytes =? 0 then
       if RECT_BYTES <=? max_size then
         let! ok := w_mem_alloc RECT_BYTES in
         mreturn (if ok then Some [empty_rect] else None)
       else mreturn (Some (rects reg))
     else mreturn (Some (rects reg))) in
  let! ret :=
    (if max_size <? total_size then w_set_error STATUS_BUFFER_OVERFLOW ;;; mreturn None
     else mreturn ret) in
  free_region p ;;;
  mreturn (ret, total_size).

Definition is_region_empty (reg : region) : bool := num_rects reg =? 0.

Fixpoint rects_equal (rs1 rs2 : list rectangle) : bool :=
  match rs1, rs2 with
  | a :: rs1', b :: rs2' => is_rect_equal a b && rects_equal rs1' rs2'
  | _, _ => true
  end.

Definition is_region_equal (reg1 reg2 : region) : bool :=
  if negb (num_rects reg1 =? num_rects reg2) then false
  else if num_rects reg1 =? 0 then true
  else if negb (is_rect_equal (extents reg1) (extents reg2)) then false
  else rects_equal (rects reg1) (rects reg2).

Definition get_region_extents (reg : region) : rectangle := extents reg.

Definition offset_region (x y : Z) (reg : region) : region :=
  if num_rects reg =? 0 then reg
  else mkRegion (rgn_size reg) (map (offset_rect x y) (rects reg))
                (offset_rect x y (extents reg)).

(** [for (end = start; end < num_rects - 1; end++) if (...) break;] *)
Fixpoint mirror_band_end (fuel : nat) (rs : list rectangle) (e : nat) : nat :=
  match fuel with
  | O => e
  | S fuel' =>
      if (S e <? length rs)%nat then
        match rs !! e, rs !! S e with
        | Some r, Some r' =>
            if r_top r' =? r_top r then mirror_band_end fuel' rs (S e) else e
        | _, _ => e
        end
      else e
  end.

(** [for (i = start, j = end; i < j; i++, j--)] and the middle rectangle after it. *)
Fixpoint mirror_band (fuel : nat) (client_rect : rectangle) (i j : nat)
    (rs : list rectangle) : list rectangle :=
  if (i <? j)%nat then
    match fuel, rs !! j with
    | S fuel', Some rect =>
        let rs := <[i := rect]> rs in
        let rs := <[j := rect]> rs in
        let rs := alter (mirror_rect client_rect) j rs in
        let rs := alter (mirror_rect client_rect) i rs in
        mirror_band fuel' client_rect (S i) (j - 1) rs
    | _, _ => rs
    end
  else if Nat.eqb i j then alter (mirror_rect client_rect) i rs
  else rs.

Fixpoint mirror_bands (fuel : nat) (client_rect : rectangle) (start : nat)
    (rs : list rectangle) : list rectangle :=
  match fuel with
  | O => rs
  | S fuel' =>
      if (start <? length rs)%nat then
        let e := mirror_band_end (length rs) rs start in
        mirror_bands fuel' client_rect (S e) (mirror_band (length rs) client_rect start e rs)
      else rs
  end.

Definition mirror_region (client_rect : rectangle) (reg : region) : region :=
  mkRegion (rgn_size reg) (mirror_bands (length (rects reg)) client_rect 0 (rects reg))
           (mirror_rect client_rect (extents reg)).

Definition scale_region (dpi_from dpi_to : ratio) (reg : region) : region :=
  if num_rects reg =? 0 then reg
  else mkRegion (rgn_size reg)
         (map (fun r => scale_dpi_rect r dpi_from dpi_to) (rects reg))
         (scale_dpi_rect (extents reg) dpi_from dpi_to).

(** The operations with a destination return it, or [NULL] on error. *)

Definition copy_region (dst src : ptr) : M world ptr :=
  if dst =? src then mreturn dst
  else
    let! s := load src in
    let! ok := on_region dst
      (let! reg := mgets w_reg in
       (if rgn_size reg <? num_rects s then
          let! ok := malloc (num_rects s * RECT_BYTES) in
          (if ok then
             mmodify (upd_reg (fun reg => mkRegion (num_rects s) (rects reg) (extents reg)))
           else mmodify (upd_env (set_error STATUS_NO_MEMORY))) ;;;
          mreturn ok
        else mreturn true) &?&
       (mmodify (upd_reg (fun reg => mkRegion (rgn_size reg) (rects s) (extents s))) ;;;
        mreturn true)) in
    mreturn (if ok then dst else NULL).

Definition region_op (newReg reg1 reg2 : ptr) (ops : band_ops) : M world bool :=
  let! r1 := load reg1 in
  let! r2 := load reg2 in
  on_region newReg (region_op_work r1 r2 ops).

(** [if (!region_op(...)) return NULL; set extents; return dst;] *)
Definition op_then_extents (dst src1 src2 : ptr) (ops : band_ops) (f : region -> region)
    : M world ptr :=
  let! ok := region_op dst src1 src2 ops in
  if negb ok then mreturn NULL
  else
    let! reg := load dst in
    store dst (f reg) ;;;
    mreturn dst.

Definition no_overlap (reg1 reg2 : region) : bool :=
  (num_rects reg1 =? 0) || (num_rects reg2 =? 0) ||
  negb (EXTENTCHECK (extents reg1) (extents reg2)).

Definition intersect_region (dst src1 src2 : ptr) : M world ptr :=
  let! reg1 := load src1 in
  let! reg2 := load src2 in
  if no_overlap reg1 reg2 then
    let! reg := load dst in
    store dst (mkRegion (rgn_size reg) [] empty_rect) ;;;
    mreturn dst
  else op_then_extents dst src1 src2 intersect_ops set_region_extents.

Definition subtract_region (dst src1 src2 : ptr) : M world ptr :=
  let! reg1 := load src1 in
  let! reg2 := load src2 in
  if no_overlap reg1 reg2 then copy_region dst src1
  else op_then_extents dst src1 src2 subtract_ops set_region_extents.

(** [reg1] is one rectangle and contains the bounding box of [reg2]. *)
Definition rect_covers (reg1 reg2 : region) : bool :=
  (num_rects reg1 =? 1) &&
  (r_left (extents reg1) <=? r_left (extents reg2)) &&
  (r_top (extents reg1) <=? r_top (extents reg2)) &&
  (r_right (extents reg2) <=? r_right (extents reg1)) &&
  (r_bottom (extents reg2) <=? r_bottom (extents reg1)).

Definition union_region (dst src1 src2 : ptr) : M world ptr :=
  let! reg1 := load src1 in
  let! reg2 := load src2 in
  if src1 =? src2 then copy_region dst src1
  else if num_rects reg1 =? 0 then copy_region dst src2
  else if num_rects reg2 =? 0 then copy_region dst src1
  else if rect_covers reg1 reg2 then copy_region dst src1
  else if rect_covers reg2 reg1 then copy_region dst src2
  else
    let e1 := extents reg1 in
    let e2 := extents reg2 in
    op_then_extents dst src1 src2 union_ops
      (set_extents (mkRect (Z.min (r_left e1) (r_left e2)) (Z.min (r_top e1) (r_top e2))
                           (Z.max (r_right e1) (r_right e2))
                           (Z.max (r_bottom e1) (r_bottom e2)))).

Definition xor_region (dst src1 src2 : ptr) : M world ptr :=
  let! tmp := create_empty_region in
  if tmp =? NULL then mreturn NULL
  else
    let! a := subtract_region tmp src1 src2 in
    let! ret :=
      (if a =? NULL then mreturn NULL
       else
         let! b := subtract_region dst src2 src1 in
         if b =? NULL then mreturn NULL
         else
           let! c := union_region dst dst tmp in
           mreturn (if c =? NULL then NULL else dst)) in
    free_region tmp ;;;
    mreturn ret.
End Alloc.

(** ** Tests *)

Fixpoint point_in_rects (rs : list rectangle) (x y : Z) : bool :=
  match rs with
  | [] => false
  | p :: rs' =>
      if y <? r_top p then false
      else if r_bottom p <=? y then point_in_rects rs' x y
      else if x <? r_left p then false
      else if r_right p <=? x then point_in_rects rs' x y
      else true
  end.

Definition point_in_region (reg : region) (x y : Z) : bool := point_in_rects (rects reg) x y.

Fixpoint rect_in_rects (rs : list rectangle) (rect : rectangle) : bool :=
  match rs with
  | [] => false
  | p :: rs' =>
      if r_bottom rect <=? r_top p then false
      else if r_bottom p <=? r_top rect then rect_in_rects rs' rect
      else if r_right rect <=? r_left p then rect_in_rects rs' rect
      else if r_right p <=? r_left rect then rect_in_rects rs' rect
      else true
  end.

Definition rect_in_region (reg : region) (rect : rectangle) : bool :=
  rect_in_rects (rects reg) rect.
