(* ===== verification/RegionBands.v ===== *)
(** * Point sets of rectangle lists, and the functions that build one band

    [in_rects] is the point set of a list of rectangles, [valid] what
    [validate_rectangles] accepts.  A band is a list of rectangles with one top and one
    bottom ([row]) in order from left to right ([xsorted]); its points on a line are
    [covers].  [builds] is the specification of the functions that append to the region
    being built; the three functions for overlapping bands are proved against it. *)

From stdpp Require Import base list sorting.
From Stdlib Require Import ZArith Lia ZifyBool.
From S2P Require Import Prelude Region.

Open Scope Z_scope.

(** ** Point sets *)

Definition in_rects (rs : list rectangle) (x y : Z) : bool :=
  existsb (fun r => point_in_rect r x y) rs.

Definition covers (rs : list rectangle) (x : Z) : bool :=
  existsb (fun r => (r_left r <=? x) && (x <? r_right r)) rs.

Lemma in_rects_app l1 l2 x y : in_rects (l1 ++ l2) x y = in_rects l1 x y || in_rects l2 x y.
Proof. apply existsb_app. Qed.

Lemma covers_app l1 l2 x : covers (l1 ++ l2) x = covers l1 x || covers l2 x.
Proof. apply existsb_app. Qed.

Lemma in_rects_true rs x y :
  in_rects rs x y = true <-> exists r, r ∈ rs /\ point_in_rect r x y = true.
Proof.
  unfold in_rects. rewrite existsb_exists. by setoid_rewrite <- list_elem_of_In.
Qed.

Lemma covers_true rs x :
  covers rs x = true <-> exists r, r ∈ rs /\ r_left r <= x < r_right r.
Proof.
  unfold covers. rewrite existsb_exists. setoid_rewrite <- list_elem_of_In.
  split; intros (r & Hr & Hx); exists r; (split; [done | lia]).
Qed.

(** ** Valid lists *)

Definition nonempty (r : rectangle) : Prop := r_left r < r_right r /\ r_top r < r_bottom r.

Definition before (r s : rectangle) : Prop :=
  (r_top r = r_top s /\ r_bottom r = r_bottom s /\ r_right r < r_left s) \/
  r_bottom r <= r_top s.

Definition valid (rs : list rectangle) : Prop :=
  Forall nonempty rs /\ StronglySorted before rs.

Lemma valid_nil : valid [].
Proof. split; constructor. Qed.

Lemma valid_cons r rs : valid (r :: rs) <-> nonempty r /\ Forall (before r) rs /\ valid rs.
Proof.
  unfold valid. split.
  - intros [H1 H2]. inversion H1; inversion H2; subst. tauto.
  - intros (? & ? & ? & ?). split; by constructor.
Qed.

Lemma valid_app l1 l2 :
  valid (l1 ++ l2) <->
  valid l1 /\ valid l2 /\ Forall (fun r => Forall (before r) l2) l1.
Proof.
  induction l1 as [| r l1 IH]; simpl.
  - split; [| tauto]. intros H. repeat split; try apply H; constructor.
  - rewrite !valid_cons, IH, Forall_app, Forall_cons. tauto.
Qed.

(** Neighbours in order are enough. *)
Lemma before_trans r s t : nonempty s -> before r s -> before s t -> before r t.
Proof. unfold nonempty, before. lia. Qed.

Lemma valid_cons2 r s rs :
  valid (r :: s :: rs) <-> nonempty r /\ before r s /\ valid (s :: rs).
Proof.
  rewrite valid_cons. split.
  - intros (? & H & ?). inversion H; subst. tauto.
  - intros (Hr & Hrs & Hv). split_and!; [done | | done].
    constructor; [done |]. apply valid_cons in Hv as (Hs & Hf & _).
    eapply Forall_impl; [exact Hf |]. intros t Ht. by eapply before_trans.
Qed.

(** What the code checks is validity. *)
Lemma validate_valid rs : validate_rectangles rs = true <-> valid rs.
Proof.
  induction rs as [| r [| s rs] IH].
  - split; [intros; apply valid_nil | done].
  - rewrite valid_cons. cbn [validate_rectangles]. unfold is_rect_empty, nonempty.
    pose proof valid_nil. split; [intros; split_and!; [lia | lia | constructor | done] | lia].
  - rewrite valid_cons2, <- IH.
    change (validate_rectangles (r :: s :: rs)) with
      (negb (is_rect_empty r) &&
       ((if r_top r =? r_top s then (r_bottom r =? r_bottom s) && (r_right r <? r_left s)
         else r_bottom r <=? r_top s) && validate_rectangles (s :: rs))).
    clear IH. generalize (validate_rectangles (s :: rs)). intros v.
    unfold is_rect_empty, nonempty, before.
    destruct (Z.eqb_spec (r_top r) (r_top s)); destruct v; lia.
Qed.

(** ** Bands *)

Definition row (t b : Z) (rs : list rectangle) : Prop :=
  Forall (fun r => r_top r = t /\ r_bottom r = b) rs.

Definition xbefore (r s : rectangle) : Prop := r_right r < r_left s.

Definition xsorted (rs : list rectangle) : Prop :=
  Forall (fun r => r_left r < r_right r) rs /\ StronglySorted xbefore rs.

Lemma xsorted_nil : xsorted [].
Proof. split; constructor. Qed.

Lemma xsorted_cons r rs :
  xsorted (r :: rs) <-> r_left r < r_right r /\ Forall (xbefore r) rs /\ xsorted rs.
Proof.
  unfold xsorted. split.
  - intros [H1 H2]. inversion H1; inversion H2; subst. tauto.
  - intros (? & ? & ? & ?). split; by constructor.
Qed.

Lemma xsorted_app l1 l2 :
  xsorted (l1 ++ l2) <->
  xsorted l1 /\ xsorted l2 /\ Forall (fun r => Forall (xbefore r) l2) l1.
Proof.
  induction l1 as [| r l1 IH]; simpl.
  - split; [| tauto]. intros H. repeat split; try apply H; constructor.
  - rewrite !xsorted_cons, IH, Forall_app, Forall_cons. tauto.
Qed.

(** A point covered by the rest of a band lies right of its first rectangle. *)
Lemma covers_after r rs x : xsorted (r :: rs) -> covers rs x = true -> r_right r < x.
Proof.
  rewrite xsorted_cons. intros (_ & H & _) (s & Hs & Hx)%covers_true.
  rewrite Forall_forall in H. specialize (H s Hs). unfold xbefore in H. lia.
Qed.

(** A rectangle left of every covered point goes in front. *)
Lemma xsorted_front r rs :
  r_left r < r_right r -> xsorted rs ->
  (forall x, covers rs x = true -> r_right r < x) -> xsorted (r :: rs).
Proof.
  intros Hr Hs Hx. apply xsorted_cons. split_and!; [done | | done].
  apply Forall_forall. intros s Hin. apply Hx, covers_true. exists s. split; [done |].
  destruct Hs as [Hs _]. rewrite Forall_forall in Hs. specialize (Hs s Hin). simpl in Hs. lia.
Qed.

Lemma row_app t b l1 l2 : row t b (l1 ++ l2) <-> row t b l1 /\ row t b l2.
Proof. unfold row. by rewrite Forall_app. Qed.

Lemma row_cons t b r rs :
  row t b (r :: rs) <-> (r_top r = t /\ r_bottom r = b) /\ row t b rs.
Proof. unfold row. by rewrite Forall_cons. Qed.

Lemma row_valid t b rs : t < b -> row t b rs -> xsorted rs <-> valid rs.
Proof.
  intros Htb. induction rs as [| r rs IH]; intros Hrow.
  - split; intros; [apply valid_nil | apply xsorted_nil].
  - apply row_cons in Hrow as [[Ht Hb] Hrow]. rewrite xsorted_cons, valid_cons, (IH Hrow).
    unfold nonempty. assert (Forall (xbefore r) rs <-> Forall (before r) rs) as ->.
    { unfold row in Hrow. rewrite !Forall_forall in *. unfold xbefore, before.
      split; intros H s Hs; specialize (H s Hs); specialize (Hrow s Hs); simpl in *; lia. }
    intuition lia.
Qed.

Lemma in_rects_row t b rs x y :
  row t b rs -> in_rects rs x y = (t <=? y) && (y <? b) && covers rs x.
Proof.
  induction rs as [| r rs IH]; intros Hrow; [simpl; lia |].
  apply row_cons in Hrow as [[Ht Hb] Hrow]. specialize (IH Hrow).
  unfold in_rects, covers in *. simpl. rewrite IH. unfold point_in_rect. rewrite Ht, Hb.
  destruct (existsb _ _); lia.
Qed.

(** Rows above a line have no points below it, and the other way round. *)
Lemma in_rects_above rs x y c :
  Forall (fun r => r_bottom r <= c) rs -> c <= y -> in_rects rs x y = false.
Proof.
  intros H Hy. apply not_true_is_false. intros (r & Hr & Hp)%in_rects_true.
  rewrite Forall_forall in H. specialize (H r Hr). unfold point_in_rect in Hp. simpl in H. lia.
Qed.

Lemma in_rects_below rs x y c :
  Forall (fun r => c <= r_top r) rs -> y < c -> in_rects rs x y = false.
Proof.
  intros H Hy. apply not_true_is_false. intros (r & Hr & Hp)%in_rects_true.
  rewrite Forall_forall in H. specialize (H r Hr). unfold point_in_rect in Hp. simpl in H. lia.
Qed.

(** A list below another one can be appended to it. *)
Lemma valid_stack l1 l2 c :
  valid l1 -> valid l2 -> Forall (fun r => r_bottom r <= c) l1 ->
  Forall (fun r => c <= r_top r) l2 -> valid (l1 ++ l2).
Proof.
  intros H1 H2 Ha Hb. apply valid_app. split_and!; [done | done |].
  rewrite !Forall_forall in *. intros r Hr. rewrite Forall_forall. intros s Hs.
  specialize (Ha r Hr). specialize (Hb s Hs). simpl in *. right. lia.
Qed.

(** The first band of a valid list. *)
Lemma first_band a l :
  valid (a :: l) ->
  let n := band_length (r_top a) (a :: l) in
  row (r_top a) (r_bottom a) (take n (a :: l)) /\ valid (take n (a :: l)) /\
  valid (drop n (a :: l)) /\ Forall (fun r => r_bottom a <= r_top r) (drop n (a :: l)) /\
  n <> O /\ (n <= length (a :: l))%nat.
Proof.
  revert a. induction l as [| c l IH]; intros a Hv n.
  - subst n. cbn [band_length]. rewrite Z.eqb_refl. simpl.
    split_and!; try done; try constructor; try constructor; done.
  - assert (n = S (band_length (r_top a) (c :: l))) as ->.
    { subst n. cbn [band_length]. by rewrite Z.eqb_refl. }
    pose proof Hv as (Ha & Hac & Hc)%valid_cons2.
    cbn [take drop length]. cbn [band_length].
    destruct (Z.eqb_spec (r_top c) (r_top a)) as [E | E].
    + specialize (IH c Hc). cbv zeta in IH. cbn [band_length] in IH.
      rewrite Z.eqb_refl, E in IH. destruct IH as (I1 & I2 & I3 & I4 & I5 & I6).
      assert (Eb : r_bottom c = r_bottom a). { unfold before, nonempty in *. lia. }
      rewrite Eb in *. set (k := band_length (r_top a) l) in *.
      split_and!; [| | done | done | done | simpl in *; lia].
      * apply row_cons. done.
      * apply valid_cons in Hv as (_ & Hf & _).
        apply valid_cons. split_and!; [done | | done].
        by apply Forall_take.
    + cbn [take drop]. split_and!; [by repeat constructor | | done | | done | lia].
      * apply valid_cons. split_and!; [done | constructor | apply valid_nil].
      * assert (Hb : r_bottom a <= r_top c) by (unfold before in *; lia).
        apply valid_cons in Hv as (_ & Hf & _). apply valid_cons in Hc as (Hc & Hfc & _).
        constructor; [done |]. eapply Forall_impl; [exact Hfc |]. intros s Hs. simpl.
        unfold before, nonempty in *. lia.
Qed.

(** ** Functions that build

    [builds out m Post]: from a region with the rectangles [out] and a sound array size,
    [m] keeps the array size sound and the bounding box; it either succeeds with
    rectangles in [Post] and leaves the error alone, or fails with [STATUS_NO_MEMORY]
    because the allocator refused a request. *)

Definition size_ok (reg : region) : Prop := 2 <= rgn_size reg /\ num_rects reg <= rgn_size reg.

Section Builds.
Context (alloc_ok : nat -> Z -> bool).

Definition refused : Prop := exists n bytes, alloc_ok n bytes = false.

Definition builds (out : list rectangle) (m : M work bool) (Post : list rectangle -> Prop)
    : Prop :=
  forall w, rects (w_reg w) = out -> size_ok (w_reg w) ->
  let r := m w in
  size_ok (w_reg r.2) /\ extents (w_reg r.2) = extents (w_reg w) /\
  if r.1 then Post (rects (w_reg r.2)) /\ error (w_env r.2) = error (w_env w)
  else error (w_env r.2) = STATUS_NO_MEMORY /\ refused.

Lemma builds_return out (Post : list rectangle -> Prop) :
  Post out -> builds out (mreturn true) Post.
Proof. intros H w Hw Hs. simpl. rewrite Hw. done. Qed.

Lemma builds_and out m k (P Q : list rectangle -> Prop) :
  builds out m P -> (forall out', P out' -> builds out' k Q) -> builds out (m &?& k) Q.
Proof.
  intros Hm Hk w Hw Hs. unfold mand. rewrite bind_run. specialize (Hm w Hw Hs).
  destruct (m w) as [[] w']; cbn [fst snd] in *; [| done].
  destruct Hm as (Hs' & He & HP & Her). specialize (Hk _ HP w' eq_refl Hs'). cbv zeta in Hk.
  destruct (k w') as [[] w'']; cbn [fst snd] in *; rewrite <- He, <- ?Her; tauto.
Qed.

Lemma builds_weaken out m (P Q : list rectangle -> Prop) :
  builds out m P -> (forall o, P o -> Q o) -> builds out m Q.
Proof.
  intros Hm HPQ w Hw Hs. specialize (Hm w Hw Hs). cbv zeta in *.
  destruct (m w) as [[] w']; cbn [fst snd] in *; [| done].
  destruct Hm as (? & ? & ? & ?). auto.
Qed.

Lemma size_ok_push reg r :
  2 <= rgn_size reg -> num_rects reg < rgn_size reg ->
  size_ok (set_rects (rects reg ++ [r]) reg).
Proof.
  unfold size_ok, num_rects, set_rects. simpl. rewrite length_app. simpl. lia.
Qed.

Lemma builds_add out r (Post : list rectangle -> Prop) :
  Post (out ++ [r]) -> builds out (add_rect alloc_ok r) Post.
Proof.
  intros HP [reg e] Hw [Hs1 Hs2]. cbn [w_reg w_env] in *. subst out. unfold add_rect. run.
  cbn [mgets fst snd w_reg].
  destruct (Z.leb_spec (rgn_size reg) (num_rects reg)) as [L | L].
  - run. unfold malloc, try_alloc. cbn [fst snd w_env w_reg].
    destruct (alloc_ok _ _) eqn:E; cbn.
    + split_and!; try done.
      apply (size_ok_push (mkRegion (rgn_size reg * 2) (rects reg) (extents reg)));
        unfold num_rects in *; simpl; lia.
    + split_and!; try done. by exists (allocs e), (2 * RECT_BYTES * rgn_size reg).
  - cbn. split_and!; try done. by apply size_ok_push.
Qed.

(** ** The functions for overlapping bands

    [band_is t b f out o]: [o] is [out] followed by a sorted band from [t] to [b]
    whose points on each line are those in [f]. *)

Definition band_is (t b : Z) (f : Z -> bool) (out o : list rectangle) : Prop :=
  exists new, o = out ++ new /\ row t b new /\ xsorted new /\
              forall x, covers new x = f x.

Lemma band_is_nil t b (f : Z -> bool) out : (forall x, f x = false) -> band_is t b f out out.
Proof.
  intros H. exists []. rewrite app_nil_r. split_and!; [done | constructor | apply xsorted_nil |].
  intros x. by rewrite H.
Qed.

Lemma band_is_ext t b (f g : Z -> bool) out o :
  (forall x, f x = g x) -> band_is t b f out o -> band_is t b g out o.
Proof.
  intros H (new & ? & ? & ? & Hx). exists new. split_and!; try done.
  intros x. by rewrite Hx, H.
Qed.

(** One more rectangle, left of everything that follows. *)
Lemma band_is_front t b l r (f g : Z -> bool) out o :
  l < r ->
  (forall x, g x = true -> r < x) ->
  (forall x, f x = (l <=? x) && (x <? r) || g x) ->
  band_is t b g (out ++ [mkRect l t r b]) o -> band_is t b f out o.
Proof.
  intros Hlr Hg Hf (new & -> & Hrow & Hs & Hc).
  exists (mkRect l t r b :: new). rewrite <- app_assoc. split_and!; [done | | |].
  - by apply row_cons.
  - apply xsorted_front; simpl; [lia | done |]. intros x. rewrite Hc. apply Hg.
  - intros x. rewrite Hf, <- Hc. done.
Qed.

Lemma covers_cons r rs x :
  covers (r :: rs) x = (r_left r <=? x) && (x <? r_right r) || covers rs x.
Proof. reflexivity. Qed.

(** Generalises the points covered by the rests of two bands. *)
Ltac cover_facts H1 H2 x :=
  pose proof (covers_after _ _ x H1); pose proof (covers_after _ _ x H2).

Lemma intersect_overlapping_builds t b r1 r2 out :
  xsorted r1 -> xsorted r2 ->
  builds out (intersect_overlapping alloc_ok t b r1 r2)
    (band_is t b (fun x => covers r1 x && covers r2 x) out).
Proof.
  revert r2 out. induction r1 as [| a r1 IH1]; intros r2.
  { intros out _ _. destruct r2; apply builds_return, band_is_nil; done. }
  induction r2 as [| c r2 IH2]; intros out H1 H2.
  { apply builds_return, band_is_nil. intros x. apply andb_false_r. }
  pose proof H1 as (Ha & _ & H1')%xsorted_cons. pose proof H2 as (Hc & _ & H2')%xsorted_cons.
  change (intersect_overlapping alloc_ok t b (a :: r1) (c :: r2)) with
    ((if Z.max (r_left a) (r_left c) <? Z.min (r_right a) (r_right c)
      then add_rect alloc_ok (mkRect (Z.max (r_left a) (r_left c)) t
                                     (Z.min (r_right a) (r_right c)) b)
      else mreturn true) &?&
     (if r_right a <? r_right c then intersect_overlapping alloc_ok t b r1 (c :: r2)
      else if r_right c <? r_right a then intersect_overlapping alloc_ok t b (a :: r1) r2
      else intersect_overlapping alloc_ok t b r1 r2)).
  set (L := Z.max _ _). set (R := Z.min _ _).
  apply (builds_and _ _ _ (fun o => o = out ++ (if L <? R then [mkRect L t R b] else []))).
  { destruct (L <? R); [by apply builds_add | apply builds_return; by rewrite app_nil_r]. }
  intros o ->.
  set (rest := fun x => (if r_right a <? r_right c then covers r1 x && covers (c :: r2) x
    else if r_right c <? r_right a then covers (a :: r1) x && covers r2 x
    else covers r1 x && covers r2 x)).
  apply (builds_weaken _ _ (band_is t b rest (out ++ (if L <? R then [mkRect L t R b] else [])))).
  { unfold rest. destruct (r_right a <? r_right c); [by apply IH1 |].
    destruct (r_right c <? r_right a); [by apply IH2 | by apply IH1]. }
  assert (Hrest : forall x, rest x = true -> R < x).
  { intros x. unfold rest, L, R. rewrite !covers_cons. cover_facts H1 H2 x.
    destruct (Z.ltb_spec (r_right a) (r_right c)), (Z.ltb_spec (r_right c) (r_right a)); lia. }
  assert (Hx : forall x, covers (a :: r1) x && covers (c :: r2) x
                         = (L <=? x) && (x <? R) || rest x).
  { intros x. unfold rest, L, R. rewrite !covers_cons. cover_facts H1 H2 x.
    destruct (Z.ltb_spec (r_right a) (r_right c)), (Z.ltb_spec (r_right c) (r_right a)); lia. }
  clearbody rest. intros o Ho. destruct (Z.ltb_spec L R).
  - by eapply band_is_front.
  - rewrite app_nil_r in Ho. eapply band_is_ext; [| exact Ho].
    intros x. rewrite Hx. lia.
Qed.

Lemma copy_band_builds t b r out :
  xsorted r -> builds out (copy_band alloc_ok t b r) (band_is t b (covers r) out).
Proof.
  revert out. induction r as [| a r IH]; intros out H.
  { apply builds_return, band_is_nil. done. }
  pose proof H as (Ha & _ & H')%xsorted_cons.
  apply (builds_and _ _ _ (fun o => o = out ++ [mkRect (r_left a) t (r_right a) b])).
  { by apply builds_add. }
  intros o ->. eapply builds_weaken; [by apply IH |]. intros o Ho.
  eapply band_is_front; [exact Ha | | | exact Ho]; [| done].
  intros x. by apply covers_after.
Qed.

(** The points of a band whose first rectangle starts at [left] instead. *)
Definition covers_from (r1 : list rectangle) (left x : Z) : bool :=
  match r1 with
  | [] => false
  | a :: r1' => (left <=? x) && (x <? r_right a) || covers r1' x
  end.

(** [left] is inside the first rectangle. *)
Definition left_ok (r1 : list rectangle) (left : Z) : Prop :=
  match r1 with [] => True | a :: _ => left < r_right a end.

Lemma covers_from_next r1 left x : covers_from r1 (next_left r1 left) x = covers r1 x.
Proof. by destruct r1. Qed.

Lemma left_ok_next r1 left : xsorted r1 -> left_ok r1 (next_left r1 left).
Proof. destruct r1; [done |]. intros (? & _ & _)%xsorted_cons. done. Qed.

Lemma subtract_rest_builds t b r1 left out :
  xsorted r1 -> left_ok r1 left ->
  builds out (subtract_rest alloc_ok t b r1 left) (band_is t b (covers_from r1 left) out).
Proof.
  revert left out. induction r1 as [| a r1 IH]; intros left out H Hl.
  { apply builds_return, band_is_nil. done. }
  pose proof H as (_ & _ & H')%xsorted_cons.
  apply (builds_and _ _ _ (fun o => o = out ++ [mkRect left t (r_right a) b])).
  { by apply builds_add. }
  intros o ->. eapply builds_weaken; [apply IH; [done | by apply left_ok_next] |].
  intros o Ho. eapply band_is_front; [exact Hl | | | exact Ho].
  - intros x. rewrite covers_from_next. by apply covers_after.
  - intros x. by rewrite covers_from_next.
Qed.

(** After the part of [a] left of [c]: on to the next rectangle of either list. *)
Lemma subtract_advance t b a c r1 r2 (out : list rectangle) (f : Z -> bool)
    (m1 m2 : M work bool) :
  xsorted (a :: r1) -> xsorted (c :: r2) ->
  builds out m1 (band_is t b (fun x => covers r1 x && negb (covers (c :: r2) x)) out) ->
  (r_right c < r_right a ->
   builds out m2 (band_is t b (fun x => covers_from (a :: r1) (r_right c) x
                                        && negb (covers r2 x)) out)) ->
  (forall x, f x = covers_from (a :: r1) (r_right c) x && negb (covers (c :: r2) x)) ->
  builds out (if r_right a <=? r_right c then m1 else m2) (band_is t b f out).
Proof.
  intros H1 H2 Hm1 Hm2 Hf.
  assert (Hx : forall x, f x = if r_right a <=? r_right c
    then covers r1 x && negb (covers (c :: r2) x)
    else covers_from (a :: r1) (r_right c) x && negb (covers r2 x)).
  { intros x. rewrite Hf. unfold covers_from. rewrite covers_cons. cover_facts H1 H2 x.
    destruct (Z.leb_spec (r_right a) (r_right c)); lia. }
  destruct (Z.leb_spec (r_right a) (r_right c));
    [eapply builds_weaken; [exact Hm1 |] | eapply builds_weaken; [by apply Hm2 |]];
    intros o; apply band_is_ext; done.
Qed.

Lemma subtract_loop_builds t b r1 r2 left out :
  xsorted r1 -> xsorted r2 -> left_ok r1 left ->
  builds out (subtract_loop alloc_ok t b r1 r2 left)
    (band_is t b (fun x => covers_from r1 left x && negb (covers r2 x)) out).
Proof.
  revert r2 left out. induction r1 as [| a r1 IH1]; intros r2.
  { intros left out _ _ _. destruct r2; apply builds_return, band_is_nil; done. }
  induction r2 as [| c r2 IH2]; intros left out H1 H2 Hl.
  { eapply builds_weaken; [by apply subtract_rest_builds |].
    intros o. apply band_is_ext. intros x. by rewrite andb_true_r. }
  pose proof H1 as (Ha & _ & H1')%xsorted_cons. pose proof H2 as (Hc & _ & H2')%xsorted_cons.
  assert (Hnext : forall left o, builds o (subtract_loop alloc_ok t b r1 (c :: r2)
      (next_left r1 left)) (band_is t b (fun x => covers r1 x && negb (covers (c :: r2) x)) o)).
  { intros l o. eapply builds_weaken; [apply IH1; [done | done | by apply left_ok_next] |].
    intros o'. apply band_is_ext. intros x. by rewrite covers_from_next. }
  set (adv := if r_right a <=? r_right c
              then subtract_loop alloc_ok t b r1 (c :: r2) (next_left r1 (r_right c))
              else subtract_loop alloc_ok t b (a :: r1) r2 (r_right c)).
  change (subtract_loop alloc_ok t b (a :: r1) (c :: r2) left) with
    (if r_right c <=? left then subtract_loop alloc_ok t b (a :: r1) r2 left
     else if r_left c <=? left then adv
     else if r_left c <? r_right a then
       add_rect alloc_ok (mkRect left t (r_left c) b) &?& adv
     else
       (if left <? r_right a then add_rect alloc_ok (mkRect left t (r_right a) b)
        else mreturn true) &?& subtract_loop alloc_ok t b r1 (c :: r2) (next_left r1 left)).
  assert (Hadv : forall o, builds o adv (band_is t b (fun x =>
      covers_from (a :: r1) (r_right c) x && negb (covers (c :: r2) x)) o)).
  { intros o. eapply subtract_advance; [done | done | apply Hnext | | done].
    intros Hlt. by apply IH2. }
  clearbody adv. simpl in Hl. cbn [covers_from] in *.
  destruct (Z.leb_spec (r_right c) left).
  { eapply builds_weaken; [by apply IH2 |]. intros o. apply band_is_ext.
    intros x. cbn [covers_from]. rewrite covers_cons. cover_facts H1 H2 x. lia. }
  destruct (Z.leb_spec (r_left c) left).
  { eapply builds_weaken; [apply Hadv |]. intros o. apply band_is_ext.
    intros x. rewrite covers_cons. cover_facts H1 H2 x. lia. }
  destruct (Z.ltb_spec (r_left c) (r_right a)).
  - apply (builds_and _ _ _ (fun o => o = out ++ [mkRect left t (r_left c) b])).
    { by apply builds_add. }
    intros o ->. eapply builds_weaken; [apply Hadv |]. intros o Ho.
    eapply band_is_front; [| | | exact Ho]; [lia | |];
      intros x; cbv beta; rewrite covers_cons; cover_facts H1 H2 x; lia.
  - destruct (Z.ltb_spec left (r_right a)); [| lia].
    apply (builds_and _ _ _ (fun o => o = out ++ [mkRect left t (r_right a) b])).
    { by apply builds_add. }
    intros o ->. eapply builds_weaken; [apply Hnext |]. intros o Ho.
    eapply band_is_front; [exact Hl | | | exact Ho];
      intros x; cbv beta; rewrite covers_cons; cover_facts H1 H2 x; lia.
Qed.

Lemma subtract_overlapping_builds t b r1 r2 out :
  xsorted r1 -> xsorted r2 ->
  builds out (subtract_overlapping alloc_ok t b r1 r2)
    (band_is t b (fun x => covers r1 x && negb (covers r2 x)) out).
Proof.
  intros H1 H2. eapply builds_weaken.
  { apply subtract_loop_builds; [done | done | by apply left_ok_next]. }
  intros o. apply band_is_ext. intros x. by rewrite covers_from_next.
Qed.

(** [band_upto t b out f c o]: [o] is [out] followed by a band with the points [f] in
    which no rectangle starts right of [c]. *)
Definition band_upto (t b : Z) (out : list rectangle) (f : Z -> bool) (c : Z)
    (o : list rectangle) : Prop :=
  exists cur, o = out ++ cur /\ row t b cur /\ xsorted cur /\
              Forall (fun r => r_left r <= c) cur /\ forall x, covers cur x = f x.

Lemma band_upto_weaken t b out (f g : Z -> bool) c d o :
  (forall x, f x = g x) -> c <= d -> band_upto t b out f c o -> band_upto t b out g d o.
Proof.
  intros Hf Hc (cur & ? & ? & ? & Hl & Hx). exists cur. split_and!; try done.
  - eapply Forall_impl; [exact Hl |]. simpl. lia.
  - intros x. by rewrite Hx, Hf.
Qed.

(** A rectangle right of the whole band so far. *)
Lemma band_upto_add t b out (f : Z -> bool) c cur r :
  row t b cur -> xsorted cur -> Forall (fun r => r_left r <= c) cur ->
  (forall x, covers cur x = f x) -> c <= r_left r -> r_left r < r_right r ->
  (forall p, last cur = Some p -> r_right p < r_left r) ->
  band_upto t b out (fun x => f x || ((r_left r <=? x) && (x <? r_right r))) (r_left r)
    ((out ++ cur) ++ [mkRect (r_left r) t (r_right r) b]).
Proof.
  intros Hrow Hs Hl Hx Hc Hr Hp.
  exists (cur ++ [mkRect (r_left r) t (r_right r) b]). split_and!.
  - by rewrite app_assoc.
  - apply row_app. split; [done |]. by repeat constructor.
  - apply xsorted_app. split_and!; [done | |].
    + apply xsorted_cons. split_and!; [done | constructor | apply xsorted_nil].
    + destruct cur as [| q cur' _] using rev_ind; [constructor |].
      specialize (Hp q (last_snoc _ _)). apply xsorted_app in Hs as (_ & Hq & Hbef).
      apply xsorted_cons in Hq as (Hq & _).
      apply Forall_app. split; [| repeat constructor; done].
      eapply Forall_impl; [exact Hbef |]. intros s Hs. inversion Hs; subst.
      constructor; [| constructor]. unfold xbefore in *. simpl. lia.
  - apply Forall_app. split; [| repeat constructor; simpl; lia].
    eapply Forall_impl; [exact Hl |]. simpl. lia.
  - intros x. rewrite covers_app, Hx, covers_cons. cbn. by rewrite orb_false_r.
Qed.

(** A rectangle that touches the last one of the band and reaches further. *)
Lemma band_upto_extend t b out (f : Z -> bool) c cur p r :
  row t b (cur ++ [p]) -> xsorted (cur ++ [p]) ->
  Forall (fun r => r_left r <= c) (cur ++ [p]) ->
  (forall x, covers (cur ++ [p]) x = f x) -> c <= r_left r ->
  r_left r <= r_right p -> r_right p < r_right r ->
  band_upto t b out (fun x => f x || ((r_left r <=? x) && (x <? r_right r))) (r_left r)
    (out ++ cur ++ [set_right (r_right r) p]).
Proof.
  intros Hrow Hs Hl Hx Hc Hr Hp. exists (cur ++ [set_right (r_right r) p]).
  apply row_app in Hrow as [Hrow1 Hrow2]. inversion Hrow2 as [| ? ? Hpr _]; subst.
  apply Forall_app in Hl as [Hl1 Hl2]. inversion Hl2 as [| ? ? Hpl _]; subst.
  apply xsorted_app in Hs as (Hs1 & Hs2 & Hs3). apply xsorted_cons in Hs2 as (Hp2 & _).
  split_and!; [done | | | |].
  - apply row_app. split; [done |]. apply row_cons. split; [exact Hpr | constructor].
  - apply xsorted_app. split_and!; [done | |].
    + apply xsorted_cons. split_and!; [simpl; lia | constructor | apply xsorted_nil].
    + eapply Forall_impl; [exact Hs3 |]. intros s Hs. inversion Hs; subst.
      by repeat constructor.
  - apply Forall_app. split; [| repeat constructor; simpl in *; lia].
    eapply Forall_impl; [exact Hl1 |]. simpl. lia.
  - intros x. specialize (Hx x). rewrite covers_app, covers_cons in *. cbn in *. lia.
Qed.

Lemma band_upto_absorb t b out (f : Z -> bool) c cur p r :
  row t b (cur ++ [p]) -> xsorted (cur ++ [p]) ->
  Forall (fun r => r_left r <= c) (cur ++ [p]) ->
  (forall x, covers (cur ++ [p]) x = f x) -> c <= r_left r ->
  r_left r <= r_right p -> r_right r <= r_right p ->
  band_upto t b out (fun x => f x || ((r_left r <=? x) && (x <? r_right r))) (r_left r)
    (out ++ cur ++ [p]).
Proof.
  intros Hrow Hs Hl Hx Hc Hr Hp. exists (cur ++ [p]). split_and!; try done.
  - eapply Forall_impl; [exact Hl |]. simpl. lia.
  - apply Forall_app in Hl as [Hl1 Hl2]. inversion Hl2 as [| ? ? Hpl _]; subst.
    intros x. specialize (Hx x). rewrite covers_app, covers_cons in *. cbn in *. lia.
Qed.

Lemma merge_rect_builds t b out (f : Z -> bool) c o r :
  t < b -> Forall (fun r => r_bottom r <= t) out ->
  band_upto t b out f c o -> c <= r_left r -> r_left r < r_right r ->
  builds o (merge_rect alloc_ok t b r)
    (band_upto t b out (fun x => f x || ((r_left r <=? x) && (x <? r_right r))) (r_left r)).
Proof.
  intros Htb Hout (cur & -> & Hrow & Hs & Hl & Hx) Hc Hr.
  assert (Hadd : (forall p, last cur = Some p -> r_right p < r_left r) ->
    builds (out ++ cur) (add_rect alloc_ok (mkRect (r_left r) t (r_right r) b))
      (band_upto t b out (fun x => f x || ((r_left r <=? x) && (x <? r_right r))) (r_left r))).
  { intros Hp. apply builds_add. by eapply band_upto_add. }
  intros w Hw Hsz. unfold merge_rect. rewrite bind_run. cbn [mgets fst snd]. rewrite Hw.
  destruct cur as [| p cur _] using rev_ind.
  - rewrite app_nil_r in *. destruct (last out) as [p |] eqn:Ep; [| by apply Hadd].
    apply last_Some_elem_of in Ep. rewrite Forall_forall in Hout. specialize (Hout p Ep).
    simpl in Hout. replace (r_bottom p =? b) with false by lia.
    rewrite andb_false_r. by apply Hadd.
  - rewrite app_assoc, last_snoc.
    pose proof Hrow as [_ Hrow2]%row_app. inversion Hrow2 as [| ? ? [Ept Epb] _]; subst.
    rewrite !Z.eqb_refl. cbn [andb].
    destruct (Z.leb_spec (r_left r) (r_right p)) as [L | L].
    + destruct (Z.ltb_spec (r_right p) (r_right r)) as [L' | L']; cbn.
      * rewrite app_assoc in Hw. rewrite Hw, removelast_last. split_and!; try done.
        -- split; [apply Hsz |]. destruct Hsz as [_ Hsz]. unfold num_rects in *.
           rewrite Hw in Hsz. simpl. rewrite length_app in *. done.
        -- rewrite <- app_assoc. by eapply band_upto_extend.
      * rewrite Hw. split_and!; try done. by eapply band_upto_absorb.
    + apply Hadd; [| done | done]. intros q. rewrite last_snoc.
      by intros [= ->].
Qed.

Lemma merge_rects_builds t b out (f : Z -> bool) c o r :
  t < b -> Forall (fun r => r_bottom r <= t) out ->
  band_upto t b out f c o -> xsorted r -> Forall (fun a => c <= r_left a) r ->
  builds o (merge_rects alloc_ok t b r) (band_is t b (fun x => f x || covers r x) out).
Proof.
  intros Htb Hout. revert f c o. induction r as [| a r IH]; intros f c o Ho Hs Hc.
  - apply builds_return. destruct Ho as (cur & -> & ? & ? & _ & Hx). exists cur.
    split_and!; try done. intros x. by rewrite Hx, orb_false_r.
  - apply xsorted_cons in Hs as (Ha & Hb & Hs). inversion Hc; subst.
    eapply builds_and; [by eapply merge_rect_builds |]. intros o' Ho'.
    eapply builds_weaken; [eapply IH; [exact Ho' | done |] |].
    + eapply Forall_impl; [exact Hb |]. intros s Hs'. unfold xbefore in Hs'. lia.
    + intros o''. apply band_is_ext. intros x. by rewrite covers_cons, orb_assoc.
Qed.

Lemma union_overlapping_upto t b r1 r2 out (f : Z -> bool) c o :
  t < b -> Forall (fun r => r_bottom r <= t) out -> xsorted r1 -> xsorted r2 ->
  Forall (fun a => c <= r_left a) r1 -> Forall (fun a => c <= r_left a) r2 ->
  band_upto t b out f c o ->
  builds o (union_overlapping alloc_ok t b r1 r2)
    (band_is t b (fun x => f x || (covers r1 x || covers r2 x)) out).
Proof.
  intros Htb Hout. revert r2 f c o. induction r1 as [| a r1 IH1]; intros r2.
  { intros f c o _ H2 _ Hc2 Ho.
    replace (union_overlapping alloc_ok t b [] r2) with (merge_rects alloc_ok t b r2)
      by (by destruct r2).
    eapply merge_rects_builds; eauto. }
  induction r2 as [| d r2 IH2]; intros f c o H1 H2 Hc1 Hc2 Ho.
  { eapply builds_weaken; [by eapply merge_rects_builds |]. intros o'.
    apply band_is_ext. intros x. by rewrite orb_false_r. }
  pose proof H1 as (Ha & Hb1 & H1')%xsorted_cons.
  pose proof H2 as (Hd & Hb2 & H2')%xsorted_cons.
  inversion Hc1; subst. inversion Hc2; subst.
  change (union_overlapping alloc_ok t b (a :: r1) (d :: r2)) with
    (if r_left a <? r_left d
     then merge_rect alloc_ok t b a &?& union_overlapping alloc_ok t b r1 (d :: r2)
     else merge_rect alloc_ok t b d &?& union_overlapping alloc_ok t b (a :: r1) r2).
  assert (Hrest : forall e l (k : Z), Forall (xbefore e) l -> r_left e < r_right e ->
    k <= r_left e -> Forall (fun a => k <= r_left a) l).
  { intros e l k Hl He Hk. eapply Forall_impl; [exact Hl |]. intros s. unfold xbefore. lia. }
  destruct (Z.ltb_spec (r_left a) (r_left d)).
  - eapply builds_and; [by eapply (merge_rect_builds t b out f c) |]. intros o' Ho'.
    eapply builds_weaken; [eapply (IH1 (d :: r2)); [done | done | | | exact Ho'] |].
    + eapply Hrest; [done | done | lia].
    + constructor; [lia |]. eapply Hrest; [done | done | lia].
    + intros o''. apply band_is_ext. intros x. cbv beta. rewrite !covers_cons. lia.
  - eapply builds_and; [by eapply (merge_rect_builds t b out f c) |]. intros o' Ho'.
    eapply builds_weaken; [eapply IH2; [done | done | | | exact Ho'] |].
    + constructor; [lia |]. eapply Hrest; [done | done | lia].
    + eapply Hrest; [done | done | lia].
    + intros o''. apply band_is_ext. intros x. cbv beta. rewrite !covers_cons. lia.
Qed.

Lemma union_overlapping_builds t b r1 r2 out :
  t < b -> Forall (fun r => r_bottom r <= t) out -> xsorted r1 -> xsorted r2 ->
  builds out (union_overlapping alloc_ok t b r1 r2)
    (band_is t b (fun x => covers r1 x || covers r2 x) out).
Proof.
  intros Htb Hout H1 H2.
  set (c := Z.min (next_left r1 0) (next_left r2 0)).
  assert (Hl : forall r, xsorted r -> Forall (fun a => next_left r 0 <= r_left a) r).
  { intros [| a r] H; [constructor |]. apply xsorted_cons in H as (Ha & Hb & _).
    constructor; [simpl; lia |]. eapply Forall_impl; [exact Hb |].
    intros s. unfold xbefore. simpl. lia. }
  eapply (union_overlapping_upto t b r1 r2 out (fun _ => false) c); try done.
  - eapply Forall_impl; [by apply Hl |]. subst c. simpl. lia.
  - eapply Forall_impl; [by apply Hl |]. subst c. simpl. lia.
  - exists []. rewrite app_nil_r.
    split_and!; [done | constructor | apply xsorted_nil | constructor | done].
Qed.
End Builds.
