(* ===== verification/RegionCoalesce.v ===== *)
(** * Merging bands

    [coalesce_region] merges the band just built with the one above it when they touch
    and have the same sides.  It keeps the point set, validity, and [canonical]: every
    bottom of a rectangle is a line where the point set changes, so no two bands could
    be merged. *)

From stdpp Require Import base list sorting sets.
From Stdlib Require Import ZArith Lia ZifyBool.
From S2P Require Import Prelude Region RegionBands.

Open Scope Z_scope.

(** ** Sorted bands are determined by the points they cover *)

Lemma covers_right l c x : Forall (fun r => c < r_left r) l -> x <= c -> covers l x = false.
Proof.
  intros H Hx. apply not_true_is_false. intros (r & Hr & ?)%covers_true.
  rewrite Forall_forall in H. specialize (H r Hr). simpl in H. lia.
Qed.

Lemma covers_head a l : xsorted (a :: l) -> covers (a :: l) (r_left a) = true.
Proof. intros (H & _)%xsorted_cons. rewrite covers_cons. lia. Qed.

(** Two sorted bands have the same sides, or some point tells them apart. *)
Lemma same_sides_or_differ l1 l2 :
  xsorted l1 -> xsorted l2 ->
  (length l1 = length l2 /\ same_sides l1 l2 = true) \/
  exists x, covers l1 x <> covers l2 x.
Proof.
  revert l2. induction l1 as [| a l1 IH]; intros [| c l2] H1 H2.
  - by left.
  - right. exists (r_left c). by rewrite covers_head.
  - right. exists (r_left a). by rewrite covers_head.
  - pose proof H1 as (Ha & Hb1 & H1')%xsorted_cons. pose proof H2 as (Hc & Hb2 & H2')%xsorted_cons.
    pose proof (covers_right l1 (r_right a)) as R1. pose proof (covers_right l2 (r_right c)) as R2.
    unfold xbefore in Hb1, Hb2.
    destruct (Z.lt_trichotomy (r_left a) (r_left c)) as [L | [L | L]].
    + right. exists (r_left a). rewrite !covers_cons, R2; [lia | done | lia].
    + destruct (Z.lt_trichotomy (r_right a) (r_right c)) as [L' | [L' | L']].
      * right. exists (r_right a). rewrite !covers_cons, R1; [lia | done | lia].
      * destruct (IH l2 H1' H2') as [[Hl Hs] | (x & Hx)].
        -- left. cbn [same_sides length]. rewrite Hl, Hs. split; [done | lia].
        -- right. exists x. rewrite !covers_cons, L, L'.
           pose proof (covers_after _ _ x H1). pose proof (covers_after _ _ x H2).
           destruct (covers l1 x), (covers l2 x); try done; lia.
      * right. exists (r_right c). rewrite !covers_cons, R2; [lia | done | lia].
    + right. exists (r_left c). rewrite !covers_cons, R1; [lia | done | lia].
Qed.

Lemma same_sides_covers l1 l2 x :
  length l1 = length l2 -> same_sides l1 l2 = true -> covers l1 x = covers l2 x.
Proof.
  revert l2. induction l1 as [| a l1 IH]; intros [| c l2] Hl Hs; try done.
  cbn [same_sides length] in *. rewrite !covers_cons, (IH l2) by lia. lia.
Qed.

(** ** Canonical lists *)

Definition canonical (rs : list rectangle) : Prop :=
  forall r, r ∈ rs -> exists x, in_rects rs x (r_bottom r - 1) <> in_rects rs x (r_bottom r).

Lemma canonical_nil : canonical [].
Proof. intros r Hr. by apply elem_of_nil in Hr. Qed.

(** The sides of a nonempty band. *)
Lemma row_in t b rs r x :
  row t b rs -> r ∈ rs -> r_left r <= x < r_right r -> covers rs x = true.
Proof. intros _ Hr Hx. apply covers_true. by exists r. Qed.

(** ** [coalesce_region] on a list split into bands *)

(** [prev] is the last band of [pre ++ prev]; it is empty only at the start. *)
Record last_band (out : list rectangle) (k : nat) (t b : Z) (pre prev : list rectangle)
    : Prop := mkLastBand {
  lb_split : out = pre ++ prev;
  lb_index : k = length pre;
  lb_row : row t b prev;
  lb_above : Forall (fun r => r_bottom r <= t) pre;
  lb_empty : prev = [] -> pre = []
}.

Definition mergeable (b t : Z) (prev cur : list rectangle) : bool :=
  negb (bool_decide (prev = [])) && Nat.eqb (length cur) (length prev) && (b =? t) &&
  same_sides prev cur.

Lemma band_length_app t b cur rest :
  row t b cur -> Forall (fun r => t < r_top r) rest -> band_length t (cur ++ rest) = length cur.
Proof.
  induction cur as [| c cur IH]; intros Hr Hn; simpl.
  - destruct rest as [| r rest]; [done |]. inversion Hn; subst. simpl.
    by replace (r_top r =? t) with false by lia.
  - apply row_cons in Hr as [[Ht _] Hr]. rewrite Ht, Z.eqb_refl. f_equal. by apply IH.
Qed.

Lemma zip_with_bottom t b (prev cur : list rectangle) :
  row t b cur -> length cur = length prev ->
  zip_with (fun p c => set_bottom (r_bottom c) p) prev cur = map (set_bottom b) prev.
Proof.
  revert cur. induction prev as [| p prev IH]; intros [| c cur] Hr Hl; try done.
  apply row_cons in Hr as [[_ Hb] Hr]. simpl in *. rewrite Hb. f_equal. apply IH; [done | lia].
Qed.

Lemma coalesce_region_split pre prev cur rest pt pb t b :
  row pt pb prev -> row t b cur -> cur <> [] -> t < b ->
  Forall (fun r => b <= r_top r) rest ->
  let r := coalesce_region (pre ++ prev ++ cur ++ rest) (length pre) (length pre + length prev) in
  r.1 = (if mergeable pb t prev cur then pre ++ map (set_bottom b) prev ++ rest
         else pre ++ prev ++ cur ++ rest) /\
  (rest = [] -> r.2 = if mergeable pb t prev cur then length pre
                      else (length pre + length prev)%nat).
Proof.
  intros Hp Hc Hne Htb Hrest. set (rs := pre ++ prev ++ cur ++ rest).
  assert (E1 : drop (length pre + length prev) rs = cur ++ rest)
    by (unfold rs; by rewrite drop_app_add, drop_app_length).
  assert (E2 : (length pre + length prev - length pre)%nat = length prev) by lia.
  assert (E3 : take (length prev) (drop (length pre) rs) = prev)
    by (unfold rs; by rewrite drop_app_length, take_app_length).
  assert (E4 : take (length pre) rs = pre) by apply take_app_length.
  assert (E5 : drop (length pre + length prev + length cur) rs = rest).
  { unfold rs. by rewrite <- Nat.add_assoc, drop_app_add, drop_app_add, drop_app_length. }
  assert (E6 : Nat.eqb (length pre + length prev + length cur) (length rs)
               = bool_decide (rest = [])).
  { unfold rs. rewrite !length_app.
    destruct rest; [rewrite bool_decide_eq_true_2 by done | rewrite bool_decide_eq_false_2 by done];
      cbn [length]; lia. }
  assert (E7 : band_length t (cur ++ rest) = length cur).
  { apply (band_length_app t b); [done |]. eapply Forall_impl; [exact Hrest | simpl; lia]. }
  unfold coalesce_region. rewrite E1, E2, E3. unfold mergeable.
  destruct cur as [| c cur]; [done |]. cbn [app]. pose proof Hc as [[Ect _] _]%row_cons.
  change (c :: cur ++ rest) with ((c :: cur) ++ rest).
  rewrite Ect, E7, E5, E6, take_app_length, E4.
  destruct prev as [| p prev]; [split; [done | by intros ->] |].
  pose proof Hp as [[_ Epb] _]%row_cons. rewrite Epb. cbn [negb bool_decide].
  destruct (Nat.eqb_spec (length (c :: cur)) (length (p :: prev))) as [El |];
    cbn [andb negb length Nat.eqb fst snd]; [| split; [done | by intros ->]].
  destruct (pb =? t); cbn [andb fst snd]; [| split; [done | by intros ->]].
  destruct (same_sides _ _); cbn [fst snd]; [| split; [done | by intros ->]].
  split; [by rewrite (zip_with_bottom t b) | by intros ->].
Qed.

Lemma map_bottom_row t b b' l : row t b l -> row t b' (map (set_bottom b') l).
Proof.
  intros H. unfold row in *. rewrite Forall_map.
  eapply Forall_impl; [exact H |]. simpl. intros r [? _]. done.
Qed.

Lemma covers_map_bottom b l x : covers (map (set_bottom b) l) x = covers l x.
Proof.
  induction l as [| r l IH]; [done |].
  change (map (set_bottom b) (r :: l)) with (set_bottom b r :: map (set_bottom b) l).
  by rewrite !covers_cons, IH.
Qed.

Lemma xsorted_map_bottom b l : xsorted l -> xsorted (map (set_bottom b) l).
Proof.
  induction l as [| r l IH]; [done |]. rewrite xsorted_cons.
  change (map (set_bottom b) (r :: l)) with (set_bottom b r :: map (set_bottom b) l).
  intros (Hr & Hf & Hl). apply xsorted_cons. split_and!; [done | | by apply IH].
  rewrite Forall_map. exact Hf.
Qed.

Lemma valid_row_tb t b l : valid l -> row t b l -> l <> [] -> t < b.
Proof.
  destruct l as [| r l]; [done |]. intros ((_ & ?) & _)%valid_cons [[? ?] _]%row_cons _. lia.
Qed.

(** A band is canonical by itself. *)
Lemma row_canonical t b l : row t b l -> valid l -> canonical l.
Proof.
  intros Hr Hv r Hin.
  assert (Hne : l <> []) by (intros ->; by apply elem_of_nil in Hin).
  pose proof (valid_row_tb _ _ _ Hv Hr Hne) as Htb.
  exists (r_left r). rewrite !(in_rects_row t b) by done.
  assert (r_bottom r = b) as ->.
  { unfold row in Hr. rewrite Forall_forall in Hr. by apply Hr. }
  rewrite (row_in t b l r); [lia | done | done |].
  destruct Hv as [Hv _]. rewrite Forall_forall in Hv. specialize (Hv r Hin).
  unfold nonempty in Hv. lia.
Qed.

Section Coalesce.
Context (out : list rectangle) (k : nat) (pt pb : Z) (pre prev : list rectangle).
Context (t b : Z) (cur rest : list rectangle).
Context (Hlast : last_band out k pt pb pre prev).
Context (Hvout : valid out) (Hvcur : valid cur) (Hvrest : valid rest).
Context (Hcur : row t b cur) (Hne : cur <> []).
Context (Habove : Forall (fun r => r_bottom r <= t) out).
Context (Hbelow : Forall (fun r => b <= r_top r) rest).

#[local] Lemma Htb : t < b.
Proof. exact (valid_row_tb t b cur Hvcur Hcur Hne). Qed.

Definition coalesced : list rectangle := (coalesce_region (out ++ cur ++ rest) k (length out)).1.

Lemma coalesced_eq :
  coalesced = if mergeable pb t prev cur then pre ++ map (set_bottom b) prev ++ rest
              else pre ++ prev ++ cur ++ rest.
Proof.
  unfold coalesced. destruct Hlast as [Eout Ek Hrow _ _]. rewrite Eout, Ek, <- app_assoc, length_app.
  by apply (coalesce_region_split pre prev cur rest pt pb t b Hrow Hcur Hne Htb Hbelow).
Qed.

Lemma coalesced_index :
  rest = [] -> (coalesce_region (out ++ cur ++ rest) k (length out)).2 =
  if mergeable pb t prev cur then length pre else length out.
Proof.
  destruct Hlast as [Eout Ek Hrow _ _]. rewrite Eout, Ek, <- app_assoc, length_app.
  by apply (coalesce_region_split pre prev cur rest pt pb t b Hrow Hcur Hne Htb Hbelow).
Qed.

(** What a merge says about the two bands. *)
Lemma mergeable_facts :
  mergeable pb t prev cur = true ->
  prev <> [] /\ pb = t /\ pt < t /\ length prev = length cur /\
  forall x, covers prev x = covers cur x.
Proof.
  unfold mergeable. intros H. apply andb_true_iff in H as [H Hs].
  destruct Hlast as [Eout _ Hrow _ _].
  assert (Hp : prev <> []). { intros Ep. by rewrite bool_decide_eq_true_2 in H. }
  assert (pt < pb).
  { eapply valid_row_tb; [| exact Hrow | done]. rewrite Eout in Hvout.
    by apply valid_app in Hvout as (_ & ? & _). }
  split_and!; try lia; [done |]. intros x. apply same_sides_covers; [lia | done].
Qed.

Lemma coalesced_points x y : in_rects coalesced x y = in_rects (out ++ cur ++ rest) x y.
Proof.
  rewrite coalesced_eq. destruct Hlast as [Eout _ Hrow _ _]. rewrite Eout.
  rewrite <- app_assoc. destruct (mergeable pb t prev cur) eqn:E; [| done].
  apply mergeable_facts in E as (_ & -> & Hpt & _ & Hx). pose proof Htb.
  rewrite !in_rects_app, (in_rects_row pt b (map _ _)) by (by eapply map_bottom_row).
  rewrite covers_map_bottom, (in_rects_row pt t prev), (in_rects_row t b cur), Hx by done.
  destruct (covers cur x); lia.
Qed.

Lemma coalesced_valid : valid coalesced.
Proof.
  rewrite coalesced_eq. pose proof Htb as Htb'.
  assert (Hct : Forall (fun r => t <= r_top r) (cur ++ rest)).
  { apply Forall_app. split.
    - eapply Forall_impl; [exact Hcur |]. simpl. lia.
    - eapply Forall_impl; [exact Hbelow |]. simpl. lia. }
  assert (Hv : valid (cur ++ rest)).
  { apply (valid_stack _ _ b); [done | done | | done].
    eapply Forall_impl; [exact Hcur |]. simpl. lia. }
  destruct Hlast as [Eout Ek Hrow Hpre Hemp]. destruct (mergeable pb t prev cur) eqn:E.
  - apply mergeable_facts in E as (Hp & -> & Hpt & _ & _).
    rewrite Eout in Hvout. apply valid_app in Hvout as (Hv1 & Hv2 & _).
    assert (Hrow' : row pt b (map (set_bottom b) prev)) by (by eapply map_bottom_row).
    apply (valid_stack _ _ pt); [done | | done |].
    + apply (valid_stack _ _ b); [| done | | done].
      * eapply row_valid; [| exact Hrow' |]; [lia |]. apply xsorted_map_bottom.
        eapply row_valid; [| exact Hrow | done]. lia.
      * eapply Forall_impl; [exact Hrow' |]. simpl. lia.
    + apply Forall_app. split.
      * eapply Forall_impl; [exact Hrow' |]. simpl. lia.
      * eapply Forall_impl; [exact Hbelow |]. simpl. lia.
  - rewrite app_assoc, <- Eout. by apply (valid_stack _ _ t).
Qed.

(** The point set above the line [t] and from it on. *)
Lemma points_above x y : y < t -> in_rects (out ++ cur ++ rest) x y = in_rects out x y.
Proof.
  intros Hy. pose proof Htb. rewrite !in_rects_app, (in_rects_row t b cur) by done.
  rewrite (in_rects_below rest x y b) by (done || lia). lia.
Qed.

Lemma points_from x y : t <= y -> in_rects (out ++ cur ++ rest) x y = in_rects (cur ++ rest) x y.
Proof. intros Hy. by rewrite in_rects_app, (in_rects_above out x y t). Qed.

(** Where the bands are not merged, the line between them is a change. *)
Lemma unmerged_changes r :
  mergeable pb t prev cur = false -> r ∈ prev -> pb = t ->
  exists x, in_rects (out ++ cur ++ rest) x (t - 1) <> in_rects (out ++ cur ++ rest) x t.
Proof.
  intros E Hin ->. pose proof Htb as Htb'. destruct Hlast as [Eout _ Hrow Hpre _].
  rewrite Eout in Hvout. apply valid_app in Hvout as (_ & Hv2 & _).
  assert (Hp : prev <> []) by (intros ->; by apply elem_of_nil in Hin).
  pose proof (valid_row_tb _ _ _ Hv2 Hrow Hp) as Hpt.
  destruct (same_sides_or_differ prev cur) as [[Hl Hs] | (x & Hx)].
  - by apply (row_valid pt t prev Hpt Hrow).
  - by apply (row_valid t b cur Htb' Hcur).
  - exfalso. unfold mergeable in E. rewrite Hs, bool_decide_eq_false_2 in E by done. lia.
  - exists x. rewrite points_above, points_from by lia. rewrite Eout, !in_rects_app.
    rewrite (in_rects_above pre x (t - 1) pt) by (done || lia).
    rewrite (in_rects_below rest x t b) by (done || lia).
    rewrite (in_rects_row pt t prev), (in_rects_row t b cur) by done.
    intros Heq. apply Hx. lia.
Qed.

Lemma coalesced_canonical : canonical out -> canonical (cur ++ rest) -> canonical coalesced.
Proof.
  intros Hco Hcr r Hr. pose proof Htb as Htb'. setoid_rewrite coalesced_points.
  assert (Hup : r ∈ out -> r_bottom r < t ->
    exists x, in_rects (out ++ cur ++ rest) x (r_bottom r - 1)
              <> in_rects (out ++ cur ++ rest) x (r_bottom r)).
  { intros Hin Hlt. destruct (Hco r Hin) as [x Hx]. exists x.
    by rewrite !points_above by lia. }
  assert (Hdown : forall s, s ∈ cur ++ rest ->
    exists x, in_rects (out ++ cur ++ rest) x (r_bottom s - 1)
              <> in_rects (out ++ cur ++ rest) x (r_bottom s)).
  { intros s Hin. destruct (Hcr s Hin) as [x Hx]. exists x.
    assert (t < r_bottom s).
    { apply elem_of_app in Hin as [Hin | Hin].
      - unfold row in Hcur. rewrite Forall_forall in Hcur. specialize (Hcur s Hin).
        simpl in Hcur. lia.
      - destruct Hvrest as [Hn _]. rewrite Forall_forall in Hbelow, Hn.
        specialize (Hbelow s Hin). specialize (Hn s Hin). unfold nonempty in Hn.
        simpl in Hbelow. lia. }
    by rewrite !points_from by lia. }
  destruct Hlast as [Eout _ Hrow Hpre Hemp].
  assert (Hpt : r ∈ pre -> r_bottom r < t).
  { intros Hin. assert (Hp : prev <> []).
    { intros E. rewrite (Hemp E) in Hin. by apply elem_of_nil in Hin. }
    rewrite Forall_forall in Hpre. specialize (Hpre r Hin). simpl in Hpre.
    rewrite Eout in Hvout, Habove. apply valid_app in Hvout as (_ & Hv2 & _).
    pose proof (valid_row_tb _ _ _ Hv2 Hrow Hp).
    apply Forall_app in Habove as [_ Ha]. destruct prev as [| p prev']; [done |].
    inversion Ha; subst. apply row_cons in Hrow as [[_ ?] _]. lia. }
  rewrite coalesced_eq in Hr. destruct (mergeable pb t prev cur) eqn:E.
  - apply elem_of_app in Hr as [Hr | Hr].
    { apply Hup; [rewrite Eout; set_solver | by apply Hpt]. }
    apply elem_of_app in Hr as [Hr | Hr]; [| apply Hdown; set_solver].
    destruct cur as [| c cur']; [done |]. pose proof Hcur as [[_ Hcb] _]%row_cons.
    apply list_elem_of_fmap in Hr as (p & -> & _). simpl. rewrite <- Hcb. apply Hdown. set_solver.
  - apply elem_of_app in Hr as [Hr | Hr].
    { apply Hup; [rewrite Eout; set_solver | by apply Hpt]. }
    apply elem_of_app in Hr as [Hr | Hr]; [| by apply Hdown].
    assert (Eb : r_bottom r = pb).
    { unfold row in Hrow. rewrite Forall_forall in Hrow. by apply Hrow. }
    assert (Hle : pb <= t).
    { rewrite <- Eb. rewrite Forall_forall in Habove. apply Habove. rewrite Eout. set_solver. }
    destruct (Z.eq_dec pb t) as [Ept |].
    + rewrite Eb, Ept. by eapply unmerged_changes.
    + apply Hup; [rewrite Eout; set_solver | lia].
Qed.

Lemma coalesced_length : (length coalesced <= length (out ++ cur ++ rest))%nat.
Proof.
  rewrite coalesced_eq. destruct Hlast as [Eout _ _ _ _]. rewrite Eout.
  destruct (mergeable pb t prev cur); rewrite !length_app, ?length_map; lia.
Qed.
End Coalesce.
