(* ===== verification/RegionOp.v ===== *)
(** * [region_op] computes a set operation

    [BandOps ops f] is what [region_op] needs of the three functions it is given to
    compute the operation [f] on point sets; the functions for intersection,
    subtraction and union have it.  Against this interface the main loop is proved to
    produce a valid list with the points of the operation ([region_op_correct]), also
    in canonical form when the sources are. *)

From stdpp Require Import base list sorting sets.
From Stdlib Require Import ZArith Lia ZifyBool.
From S2P Require Import Prelude Region RegionBands RegionCoalesce.

Open Scope Z_scope.

(** ** The interface *)

Section Op.
Context (alloc_ok : nat -> Z -> bool).

(** A function for bands only one region has: a null one is right where the operation
    drops such points, another one copies the band where the operation keeps them. *)
Definition non_overlap_ok (g : option (Z -> Z -> list rectangle -> M work bool))
    (keep : bool -> bool) : Prop :=
  match g with
  | Some g =>
      (forall v, keep v = v) /\
      forall t b r out, xsorted r ->
        builds alloc_ok out (g t b r) (band_is t b (covers r) out)
  | None => forall v, keep v = false
  end.

Class BandOps (ops : band_ops) (f : bool -> bool -> bool) : Prop := {
  op_false : f false false = false;
  op_overlap : forall t b r1 r2 out,
    t < b -> Forall (fun r => r_bottom r <= t) out -> xsorted r1 -> xsorted r2 ->
    builds alloc_ok out (overlap_func ops t b r1 r2)
      (band_is t b (fun x => f (covers r1 x) (covers r2 x)) out);
  op_only1 : non_overlap_ok (non_overlap1_func ops) (fun v => f v false);
  op_only2 : non_overlap_ok (non_overlap2_func ops) (fun v => f false v)
}.

Lemma copy_band_ok (keep : bool -> bool) :
  (forall v, keep v = v) -> non_overlap_ok (Some (copy_band alloc_ok)) keep.
Proof. intros H. split; [exact H |]. intros. by apply copy_band_builds. Qed.

#[export] Instance intersect_band_ops : BandOps (intersect_ops alloc_ok) andb.
Proof.
  split; [done | | |].
  - intros. by apply intersect_overlapping_builds.
  - intros []; done.
  - done.
Qed.

#[export] Instance subtract_band_ops :
  BandOps (subtract_ops alloc_ok) (fun v1 v2 => v1 && negb v2).
Proof.
  split; [done | | |].
  - intros. by apply subtract_overlapping_builds.
  - apply copy_band_ok. intros []; done.
  - done.
Qed.

#[export] Instance union_band_ops : BandOps (union_ops alloc_ok) orb.
Proof.
  split; [done | | |].
  - intros. by apply union_overlapping_builds.
  - apply copy_band_ok. intros []; done.
  - apply copy_band_ok. done.
Qed.

(** ** Steps that return more than success *)

Definition builds_to {A} (out : list rectangle) (m : M work (option A))
    (Post : A -> list rectangle -> Prop) : Prop :=
  forall w, rects (w_reg w) = out -> size_ok (w_reg w) ->
  let r := m w in
  size_ok (w_reg r.2) /\ extents (w_reg r.2) = extents (w_reg w) /\
  match r.1 with
  | Some a => Post a (rects (w_reg r.2)) /\ error (w_env r.2) = error (w_env w)
  | None => error (w_env r.2) = STATUS_NO_MEMORY /\ refused alloc_ok
  end.

Lemma builds_to_return {A} out (a : A) (Post : A -> list rectangle -> Prop) :
  Post a out -> builds_to out (mreturn (Some a)) Post.
Proof. intros H w Hw Hs. simpl. rewrite Hw. done. Qed.

Lemma builds_to_and {A} out m (k : M work (option A)) P Post :
  builds alloc_ok out m P -> (forall o, P o -> builds_to o k Post) ->
  builds_to out (opt_bind m k) Post.
Proof.
  intros Hm Hk w Hw Hs. unfold opt_bind. rewrite bind_run. specialize (Hm w Hw Hs).
  destruct (m w) as [[] w']; cbn [fst snd] in *; [| done].
  destruct Hm as (Hs' & He & HP & Her). specialize (Hk _ HP w' eq_refl Hs'). cbv zeta in Hk.
  destruct (k w') as [[a |] w'']; cbn [fst snd] in *; rewrite <- He, <- ?Her; tauto.
Qed.

Lemma builds_to_cur_band {A} out (k : nat -> M work (option A)) Post :
  builds_to out (k (length out)) Post -> builds_to out (let! c := cur_band in k c) Post.
Proof.
  intros Hk w Hw Hs. rewrite bind_run. cbn [cur_band mgets fst snd]. rewrite Hw.
  by apply Hk.
Qed.

Lemma builds_to_bind {A B} out (m : M work (option A)) (k : A -> M work (option B)) P Post :
  builds_to out m P -> (forall a o, P a o -> builds_to o (k a) Post) ->
  builds_to out (let! r := m in match r with Some a => k a | None => mreturn None end) Post.
Proof.
  intros Hm Hk w Hw Hs. rewrite bind_run. specialize (Hm w Hw Hs).
  destruct (m w) as [[a |] w']; cbn [fst snd] in *; [| done].
  destruct Hm as (Hs' & He & HP & Her). specialize (Hk a _ HP w' eq_refl Hs'). cbv zeta in Hk.
  destruct (k a w') as [[a' |] w'']; cbn [fst snd] in *; rewrite <- He, <- ?Her; tauto.
Qed.

Lemma size_ok_shorter reg rs :
  size_ok reg -> (length rs <= length (rects reg))%nat -> size_ok (set_rects rs reg).
Proof. unfold size_ok, num_rects. simpl. lia. Qed.

Lemma builds_to_coalesce {A} out k c (cont : nat -> M work (option A)) Post :
  (length out = c -> builds_to out (cont k) Post) ->
  (length out <> c -> let r := coalesce_region out k c in
     (length r.1 <= length out)%nat /\ builds_to r.1 (cont r.2) Post) ->
  builds_to out (let! p := coalesce_new k c in cont p) Post.
Proof.
  intros Heq Hne w Hw Hs. rewrite bind_run. unfold coalesce_new. rewrite bind_run.
  cbn [mgets fst snd]. rewrite Hw. destruct (Nat.eqb_spec (length out) c) as [E | E].
  - by apply Heq.
  - destruct (Hne E) as [Hl Hb]. rewrite bind_run. cbn [mmodify mreturn fst snd].
    set (w' := upd_reg _ w). assert (Hs' : size_ok (w_reg w')).
    { apply size_ok_shorter; [done |]. by rewrite Hw. }
    exact (Hb w' eq_refl Hs').
Qed.

(** ** What has been built down to a line *)

Record built (F : Z -> Z -> bool) (out : list rectangle) (k : nat) (y : Z) : Prop := mkBuilt {
  bu_valid : valid out;
  bu_above : Forall (fun r => r_bottom r <= y) out;
  bu_canonical : canonical out;
  bu_last : exists pt pb pre prev, last_band out k pt pb pre prev;
  bu_points : forall x y', y' < y -> in_rects out x y' = F x y'
}.

Lemma built_skip F out k y z :
  built F out k y -> y <= z -> (forall x y', y <= y' < z -> F x y' = false) ->
  built F out k z.
Proof.
  intros [Hv Ha Hc Hl Hp] Hyz HF. split; try done.
  - eapply Forall_impl; [exact Ha |]. simpl. lia.
  - intros x y' Hy'. destruct (Z.lt_ge_cases y' y) as [L | L]; [by apply Hp |].
    rewrite HF by lia. by apply (in_rects_above _ _ _ y).
Qed.

Lemma built_coalesce F out k y t b (g : Z -> bool) new :
  built F out k y -> y <= t -> t < b ->
  row t b new -> xsorted new -> (forall x, covers new x = g x) -> new <> [] ->
  (forall x y', y <= y' < t -> F x y' = false) ->
  (forall x y', t <= y' < b -> F x y' = g x) ->
  let r := coalesce_region (out ++ new) k (length out) in
  (length r.1 <= length (out ++ new))%nat /\ built F r.1 r.2 b.
Proof.
  intros Hb Hyt Htb Hrow Hs Hg Hne HF1 HF2 r.
  pose proof (built_skip _ _ _ _ _ Hb Hyt HF1) as [Hv Ha Hc (pt & pb & pre & prev & Hl) Hp].
  assert (Hvn : valid new) by (by apply (row_valid t b)).
  pose proof (coalesced_length out k pt pb pre prev t b new [] Hl Hvn Hrow Hne) as L1.
  pose proof (coalesced_valid out k pt pb pre prev t b new [] Hl Hv Hvn valid_nil Hrow Hne Ha) as L2.
  pose proof (coalesced_points out k pt pb pre prev t b new [] Hl Hv Hvn Hrow Hne) as L3.
  pose proof (coalesced_canonical out k pt pb pre prev t b new [] Hl Hv Hvn valid_nil Hrow Hne Ha) as L4.
  pose proof (coalesced_eq out k pt pb pre prev t b new [] Hl Hvn Hrow Hne) as L5.
  pose proof (coalesced_index out k pt pb pre prev t b new [] Hl Hvn Hrow Hne) as L6.
  pose proof (mergeable_facts out k pt pb pre prev t new Hl Hv) as L7.
  unfold coalesced in *. rewrite !app_nil_r in *. subst r.
  set (r := coalesce_region (out ++ new) k (length out)) in *. clearbody r.
  specialize (L1 (Forall_nil_2 _)). specialize (L2 (Forall_nil_2 _)).
  specialize (L3 (Forall_nil_2 _)). specialize (L5 (Forall_nil_2 _)).
  specialize (L6 (Forall_nil_2 _) eq_refl).
  specialize (L4 (Forall_nil_2 _) Hc (row_canonical _ _ _ Hrow Hvn)).
  split; [done |]. split; [done | | done | |].
  - rewrite L5. destruct Hl as [-> _ Hprow _ _]. apply Forall_app in Ha as [Ha1 Ha2].
    destruct (mergeable pb t prev new).
    + rewrite !Forall_app. split_and!.
      * eapply Forall_impl; [exact Ha1 |]. simpl. lia.
      * rewrite Forall_map. apply Forall_true. simpl. lia.
    + rewrite !Forall_app. split_and!.
      * eapply Forall_impl; [exact Ha1 |]. simpl. lia.
      * eapply Forall_impl; [exact Ha2 |]. simpl. lia.
      * eapply Forall_impl; [exact Hrow |]. simpl. lia.
  - rewrite L5, L6. destruct Hl as [Eout _ Hprow Hpre _].
    destruct (mergeable pb t prev new).
    + destruct (L7 eq_refl) as (Hpne & _). exists pt, b, pre, (map (set_bottom b) prev).
      split; [done | done | by eapply map_bottom_row | done |].
      by destruct prev.
    + exists t, b, out, new. split; [by rewrite Eout, app_assoc | done | done | done | done].
  - intros x y' Hy'. rewrite L3, in_rects_app, (in_rects_row t b new), Hg by done.
    destruct (Z.lt_ge_cases y' t) as [L | L].
    + rewrite Hp by lia. lia.
    + rewrite (in_rects_above out x y' t), HF2 by (done || lia). lia.
Qed.

(** One band written and merged. *)
Lemma builds_to_emit {A} F out k y t b (g : Z -> bool) m
    (cont : nat -> M work (option A)) Post :
  built F out k y -> y <= t -> t < b -> builds alloc_ok out m (band_is t b g out) ->
  (forall x y', y <= y' < t -> F x y' = false) ->
  (forall x y', t <= y' < b -> F x y' = g x) ->
  (forall out' k', built F out' k' b -> builds_to out' (cont k') Post) ->
  builds_to out (opt_bind m (let! p := coalesce_new k (length out) in cont p)) Post.
Proof.
  intros Hb Hyt Htb Hm HF1 HF2 Hk. eapply builds_to_and; [exact Hm |].
  intros o (new & -> & Hrow & Hs & Hg).
  apply builds_to_coalesce; rewrite length_app; intros E.
  - assert (new = []) as -> by (destruct new; [done | simpl in E; lia]).
    rewrite app_nil_r. apply Hk. apply (built_skip _ _ _ y); [done | lia |].
    intros x y' Hy'. destruct (Z.lt_ge_cases y' t); [by apply HF1; lia |].
    rewrite HF2 by lia. by rewrite <- Hg.
  - assert (Hne : new <> []) by (intros ->; simpl in E; lia).
    destruct (built_coalesce F out k y t b g new) as [Hl Hb']; try done.
    split; [by rewrite <- length_app | by apply Hk].
Qed.

(** Nothing written. *)
Lemma builds_to_skip {A} F out k y z (cont : nat -> M work (option A)) Post :
  built F out k y -> y <= z -> (forall x y', y <= y' < z -> F x y' = false) ->
  (forall out' k', built F out' k' z -> builds_to out' (cont k') Post) ->
  builds_to out (opt_bind (mreturn true)
                   (let! p := coalesce_new k (length out) in cont p)) Post.
Proof.
  intros Hb Hyz HF Hk. eapply (builds_to_and _ _ _ (fun o => o = out)).
  { by apply builds_return. }
  intros o ->. apply builds_to_coalesce; [| lia]. intros _. apply Hk.
  by apply (built_skip _ _ _ y).
Qed.

(** ** Reading a region band by band *)

Definition band (a : rectangle) (r : list rectangle) : list rectangle :=
  take (band_length (r_top a) r) r.

Definition below (a : rectangle) (r : list rectangle) : list rectangle :=
  drop (band_length (r_top a) r) r.

Lemma band_xsorted a l : valid (a :: l) -> xsorted (band a (a :: l)).
Proof.
  intros Hv. destruct (first_band a l Hv) as (Hrow & Hv' & _).
  apply valid_cons in Hv as ([_ Hab] & _). by apply (row_valid _ _ _ Hab Hrow).
Qed.

(** The points of the lines of the first band, and the lines above it. *)
Lemma band_line a l x y :
  valid (a :: l) -> r_top a <= y < r_bottom a ->
  in_rects (a :: l) x y = covers (band a (a :: l)) x.
Proof.
  intros Hv Hy. destruct (first_band a l Hv) as (Hrow & _ & _ & Hb & _).
  rewrite <- (take_drop (band_length (r_top a) (a :: l)) (a :: l)) at 1.
  rewrite in_rects_app, (in_rects_row _ _ _ _ _ Hrow).
  rewrite (in_rects_below _ _ _ _ Hb) by lia. unfold band. lia.
Qed.

Lemma above_band a l x y : valid (a :: l) -> y < r_top a -> in_rects (a :: l) x y = false.
Proof.
  intros (Ha & Hb & _)%valid_cons Hy. apply (in_rects_below _ _ _ (r_top a)); [| done].
  constructor; [lia |]. eapply Forall_impl; [exact Hb |].
  intros s. unfold before, nonempty in *. lia.
Qed.

(** Moving on past the line [z], which is not below the first band. *)
Definition advance (a : rectangle) (z : Z) (r : list rectangle) : list rectangle :=
  if r_bottom a =? z then below a r else r.

Lemma bottoms_below a l z :
  valid (a :: l) -> z < r_bottom a -> Forall (fun r => z < r_bottom r) (a :: l).
Proof.
  intros (Ha & Hb & Hl)%valid_cons Hz. constructor; [done |].
  destruct Hl as [Hn _]. rewrite Forall_forall in *. intros s Hs.
  specialize (Hb s Hs). specialize (Hn s Hs). unfold before, nonempty in *. lia.
Qed.

Lemma advance_spec a l z :
  valid (a :: l) -> z <= r_bottom a ->
  let r' := advance a z (a :: l) in
  valid r' /\ Forall (fun r => z < r_bottom r) r' /\
  (forall x y, z <= y -> in_rects (a :: l) x y = in_rects r' x y) /\
  (length r' <= length (a :: l))%nat /\
  (r_bottom a = z -> Forall (fun r => z <= r_top r) r' /\ (length r' < length (a :: l))%nat) /\
  (canonical (a :: l) -> canonical r').
Proof.
  intros Hv Hz. unfold advance. destruct (Z.eqb_spec (r_bottom a) z) as [E | E]; cbv zeta.
  2:{ split_and!; [done | apply bottoms_below; [done | lia] | done | lia | done | done]. }
  destruct (first_band a l Hv) as (Hrow & _ & Hvb & Hb & Hn & Hn'). fold (below a (a :: l)) in *.
  assert (Hbot : Forall (fun r => z < r_bottom r) (below a (a :: l))).
  { destruct Hvb as [Hvb _]. rewrite Forall_forall in *. intros s Hs.
    specialize (Hb s Hs). specialize (Hvb s Hs). unfold nonempty in Hvb. simpl in Hb. lia. }
  assert (Hp : forall x y, z <= y -> in_rects (a :: l) x y = in_rects (below a (a :: l)) x y).
  { intros x y Hy. rewrite <- (take_drop (band_length (r_top a) (a :: l)) (a :: l)) at 1.
    rewrite in_rects_app, (in_rects_row _ _ _ _ _ Hrow). fold (below a (a :: l)). lia. }
  assert (Hlen : (length (below a (a :: l)) < length (a :: l))%nat).
  { unfold below. rewrite length_drop. lia. }
  rewrite E in Hb. split_and!; try done; [lia |].
  intros Hc s Hs. destruct (Hc s) as [x Hx].
  { rewrite <- (take_drop (band_length (r_top a) (a :: l)) (a :: l)).
    fold (below a (a :: l)). set_solver. }
  exists x. rewrite Forall_forall in Hbot. specialize (Hbot s Hs). simpl in Hbot.
  by rewrite <- !Hp by lia.
Qed.

(** The band only one region has, above the first band of the other one at [c]. *)
Lemma round_only {A} F out k ybot a l c g (keep : bool -> bool)
    (cont : nat -> M work (option A)) Post :
  built F out k ybot -> valid (a :: l) -> ybot < r_bottom a -> r_top a < c -> ybot <= c ->
  non_overlap_ok g keep -> keep false = false ->
  (forall x y, ybot <= y < c -> F x y = keep (in_rects (a :: l) x y)) ->
  (forall out' k', built F out' k' (Z.min (r_bottom a) c) -> builds_to out' (cont k') Post) ->
  builds_to out
    (opt_bind
       (let top := Z.max (r_top a) ybot in
        let bot := Z.min (r_bottom a) c in
        if negb (top =? bot) then call_non_overlap g top bot (band a (a :: l))
        else mreturn true)
       (let! p := coalesce_new k (length out) in cont p)) Post.
Proof.
  intros Hb Hv Hya Hac Hyc Hg Hk0 HF Hcont. cbv zeta.
  pose proof Hv as ([_ Ha] & _)%valid_cons.
  assert (HF0 : forall x y, ybot <= y < Z.max (r_top a) ybot -> F x y = false).
  { intros x y Hy. rewrite HF by lia. by rewrite above_band by (done || lia). }
  assert (HF1 : forall x y, Z.max (r_top a) ybot <= y < Z.min (r_bottom a) c ->
                  F x y = keep (covers (band a (a :: l)) x)).
  { intros x y Hy. rewrite HF by lia. by rewrite band_line by (done || lia). }
  destruct (Z.eqb_spec (Z.max (r_top a) ybot) (Z.min (r_bottom a) c)) as [E | E]; cbn [negb].
  - eapply builds_to_skip; [exact Hb | | | exact Hcont]; [lia |].
    intros x y Hy. apply HF0. lia.
  - destruct g as [g |]; cbn [call_non_overlap] in *.
    + destruct Hg as [Hkeep Hg]. eapply (builds_to_emit F out k ybot (Z.max (r_top a) ybot) (Z.min (r_bottom a) c));
        [exact Hb | | | | | | exact Hcont].
      * lia.
      * lia.
      * apply Hg. by apply band_xsorted.
      * done.
      * intros x y Hy. by rewrite HF1, Hkeep.
    + eapply builds_to_skip; [exact Hb | | | exact Hcont]; [lia |]. intros x y Hy.
      destruct (Z.lt_ge_cases y (Z.max (r_top a) ybot)); [apply HF0; lia |].
      rewrite HF1 by lia. apply Hg.
Qed.

(** ** The main loop *)

Section Loop.
Context (ops : band_ops) (f : bool -> bool -> bool) {Hops : BandOps ops f}.
Context (R1 R2 : list rectangle).

Definition op_points (x y : Z) : bool := f (in_rects R1 x y) (in_rects R2 x y).

Record op_inv (st : op_state) (out : list rectangle) : Prop := mkInv {
  oi_v1 : valid (o_r1 st);
  oi_v2 : valid (o_r2 st);
  oi_b1 : Forall (fun r => o_ybot st < r_bottom r) (o_r1 st);
  oi_b2 : Forall (fun r => o_ybot st < r_bottom r) (o_r2 st);
  oi_p1 : forall x y, o_ybot st <= y -> in_rects R1 x y = in_rects (o_r1 st) x y;
  oi_p2 : forall x y, o_ybot st <= y -> in_rects R2 x y = in_rects (o_r2 st) x y;
  oi_c1 : canonical R1 -> canonical (o_r1 st);
  oi_c2 : canonical R2 -> canonical (o_r2 st);
  oi_top : forall a l1 b l2, o_r1 st = a :: l1 -> o_r2 st = b :: l2 ->
           o_ybot st <= Z.max (r_top a) (r_top b);
  oi_built : built op_points out (o_prevBand st) (o_ybot st)
}.

(** The state after a round down to [z]. *)
Lemma round_next st out a l1 b l2 k z :
  op_inv st out -> o_r1 st = a :: l1 -> o_r2 st = b :: l2 ->
  z = Z.min (r_bottom a) (r_bottom b) ->
  forall out', built op_points out' k z ->
  let st' := mkOp (advance a z (a :: l1)) (advance b z (b :: l2)) z k in
  op_inv st' out' /\
  (length (o_r1 st') + length (o_r2 st') < length (o_r1 st) + length (o_r2 st))%nat.
Proof.
  intros [V1 V2 B1 B2 P1 P2 C1 C2 _ _] E1 E2 Ez out' Hb'. rewrite E1, E2 in *.
  inversion B1 as [| ? ? Ba _]; inversion B2 as [| ? ? Bb _]; subst.
  set (z := Z.min _ _) in *.
  destruct (advance_spec a l1 z V1) as (A1 & A2 & A3 & A4 & A5 & A6); [lia |].
  destruct (advance_spec b l2 z V2) as (D1 & D2 & D3 & D4 & D5 & D6); [lia |].
  cbv zeta in *.
  split; [split; cbn [o_r1 o_r2 o_ybot o_prevBand] |]; auto.
  - intros x y Hy. rewrite P1 by lia. by apply A3.
  - intros x y Hy. rewrite P2 by lia. by apply D3.
  - intros a' l1' b' l2' E E'. destruct (Z.eq_dec (r_bottom a) z) as [Ea | Ea].
    + destruct (A5 Ea) as [Hf _]. rewrite E in Hf. inversion Hf; subst. lia.
    + destruct (D5 ltac:(lia)) as [Hf _]. rewrite E' in Hf. inversion Hf; subst. lia.
  - cbn [o_r1 o_r2]. destruct (Z.eq_dec (r_bottom a) z) as [Ea | Ea].
    + destruct (A5 Ea) as [_ Hf]. lia.
    + destruct (D5 ltac:(lia)) as [_ Hf]. lia.
Qed.

Definition round_post (st st' : op_state) (out' : list rectangle) : Prop :=
  op_inv st' out' /\
  (length (o_r1 st') + length (o_r2 st') < length (o_r1 st) + length (o_r2 st))%nat.

(** The second half of a round: the lines both regions have. *)
Lemma round_both st out a l1 b l2 out1 k ytop ybot' :
  op_inv st out -> o_r1 st = a :: l1 -> o_r2 st = b :: l2 ->
  ytop = Z.max (r_top a) (r_top b) -> ybot' = Z.min (r_bottom a) (r_bottom b) ->
  built op_points out1 k (Z.min ytop ybot') ->
  builds_to out1
    (let! curBand := cur_band in
     opt_bind (if ytop <? ybot'
               then overlap_func ops ytop ybot' (band a (a :: l1)) (band b (b :: l2))
               else mreturn true)
       (let! prevBand := coalesce_new k curBand in
        mreturn (Some (mkOp (advance a ybot' (a :: l1)) (advance b ybot' (b :: l2))
                            ybot' prevBand)))) (round_post st).
Proof.
  intros Hinv E1 E2 Et Eb Hb1. pose proof Hinv as [V1 V2 B1 B2 P1 P2 _ _ Ht _].
  specialize (Ht _ _ _ _ E1 E2). rewrite E1, E2 in *.
  inversion B1 as [| ? ? Ba _]; inversion B2 as [| ? ? Bb _]; subst x l x0 l0.
  assert (Hend : forall out' k', built op_points out' k' ybot' ->
    builds_to out' (mreturn (Some (mkOp (advance a ybot' (a :: l1)) (advance b ybot' (b :: l2))
                              ybot' k'))) (round_post st)).
  { intros out' k' Hb'. apply builds_to_return.
    by apply (round_next st out a l1 b l2 k' ybot'). }
  apply builds_to_cur_band. destruct (Z.ltb_spec ytop ybot') as [L | L].
  - rewrite Z.min_l in Hb1 by lia.
    eapply (builds_to_emit op_points out1 k ytop ytop ybot'); [exact Hb1 | lia | done | | | | exact Hend].
    + apply op_overlap; [done | by destruct Hb1 | by apply band_xsorted | by apply band_xsorted].
    + intros x y Hy. lia.
    + intros x y Hy. unfold op_points. rewrite P1, P2 by lia.
      by rewrite !band_line by (done || lia).
  - rewrite Z.min_r in Hb1 by lia.
    eapply builds_to_skip; [exact Hb1 | | | exact Hend]; [lia |]. intros x y Hy. lia.
Qed.

Lemma region_op_round_ok st out a l1 b l2 :
  op_inv st out -> o_r1 st = a :: l1 -> o_r2 st = b :: l2 ->
  builds_to out (region_op_round ops a b st) (round_post st).
Proof.
  intros Hinv E1 E2. pose proof Hinv as [V1 V2 B1 B2 P1 P2 _ _ Ht Hb].
  specialize (Ht _ _ _ _ E1 E2). pose proof op_false as Hff.
  unfold region_op_round. rewrite E1, E2 in *.
  inversion B1 as [| ? ? Ba _]; inversion B2 as [| ? ? Bb _]; subst x l x0 l0.
  fold (band a (a :: l1)) (band b (b :: l2)) (below a (a :: l1)) (below b (b :: l2)).
  pose proof V1 as ([_ Ha] & _)%valid_cons. pose proof V2 as ([_ Hbb] & _)%valid_cons.
  set (z := Z.min (r_bottom a) (r_bottom b)).
  fold (advance a z (a :: l1)) (advance b z (b :: l2)).
  assert (Hboth : forall c out' k', built op_points out' k' (Z.min (Z.max (r_top a) (r_top b)) z) ->
    c = Z.max (r_top a) (r_top b) -> _) by
    (intros c out' k' Hb' Ec;
     exact (round_both st out a l1 b l2 out' k' c z Hinv E1 E2 Ec eq_refl
              (eq_rect_r (fun c => built op_points out' k' (Z.min c z)) Hb' Ec))).
  apply builds_to_cur_band.
  destruct (Z.ltb_spec (r_top a) (r_top b)) as [L | L];
    [| destruct (Z.ltb_spec (r_top b) (r_top a)) as [L' | L']].
  - eapply (round_only op_points out _ _ a l1 (r_top b) _ (fun v => f v false));
      [exact Hb | done | done | done | lia | apply op_only1 | done | |].
    + intros x y Hy. unfold op_points. rewrite P1, P2 by lia.
      by rewrite (above_band b l2) by (done || lia).
    + intros out' k' Hb'. apply Hboth; [| lia].
      replace (Z.min (Z.max (r_top a) (r_top b)) z) with (Z.min (r_bottom a) (r_top b)) by lia.
      done.
  - eapply (round_only op_points out _ _ b l2 (r_top a) _ (fun v => f false v));
      [exact Hb | done | done | done | lia | apply op_only2 | done | |].
    + intros x y Hy. unfold op_points. rewrite P1, P2 by lia.
      by rewrite (above_band a l1) by (done || lia).
    + intros out' k' Hb'. apply Hboth; [| lia].
      replace (Z.min (Z.max (r_top a) (r_top b)) z) with (Z.min (r_bottom b) (r_top a)) by lia.
      done.
  - eapply (builds_to_skip op_points out _ _ (r_top a)); [exact Hb | lia | |].
    + intros x y Hy. unfold op_points. rewrite P1, P2 by lia.
      by rewrite (above_band a l1), (above_band b l2) by (done || lia).
    + intros out' k' Hb'. apply Hboth; [| lia].
      by replace (Z.min (Z.max (r_top a) (r_top b)) z) with (r_top a) by lia.
Qed.

(** The loop ends, with one of the regions read. *)
Lemma region_op_loop_ok fuel st out :
  op_inv st out -> (length (o_r1 st) + length (o_r2 st) <= fuel)%nat ->
  builds_to out (region_op_loop fuel ops st)
    (fun st' out' => op_inv st' out' /\ (o_r1 st' = [] \/ o_r2 st' = [])).
Proof.
  revert st out. induction fuel as [| fuel IH]; intros st out Hinv Hf.
  - destruct (o_r1 st) as [| a l1] eqn:E1; [| simpl in Hf; lia].
    simpl. rewrite E1. apply builds_to_return. auto.
  - cbn [region_op_loop]. destruct (o_r1 st) as [| a l1] eqn:E1.
    { apply builds_to_return. auto. }
    destruct (o_r2 st) as [| b l2] eqn:E2; [apply builds_to_return; auto |].
    eapply builds_to_bind; [by eapply region_op_round_ok |].
    intros st' out' [Hinv' Hlt]. apply IH; [done |]. rewrite E1, E2 in Hlt. lia.
Qed.

(** ** After the main loop *)

(** [clipped ybot r tail]: [tail] has the points of [r] from the line [ybot] on. *)
Definition clipped (ybot : Z) (r tail : list rectangle) : Prop :=
  valid tail /\
  (forall x y, in_rects tail x y = (ybot <=? y) && in_rects r x y) /\
  forall s, s ∈ tail -> exists s', s' ∈ r /\ r_bottom s = r_bottom s' /\
                                   r_top s = Z.max (r_top s') ybot.

Lemma clipped_tops ybot r tail : clipped ybot r tail -> Forall (fun s => ybot <= r_top s) tail.
Proof.
  intros (_ & _ & H). apply Forall_forall. intros s Hs.
  destruct (H s Hs) as (s' & _ & _ & ->). lia.
Qed.

Lemma clipped_canonical ybot r tail : clipped ybot r tail -> canonical r -> canonical tail.
Proof.
  intros Hc Hcan s Hin. pose proof (clipped_tops _ _ _ Hc) as Ht.
  destruct Hc as ([Hn _] & Hp & Hs). rewrite Forall_forall in Ht, Hn.
  specialize (Ht s Hin). specialize (Hn s Hin). unfold nonempty in Hn. simpl in Ht.
  destruct (Hs s Hin) as (s' & Hin' & Eb & _). destruct (Hcan s' Hin') as [x Hx].
  exists x. rewrite !Hp, Eb.
  replace (ybot <=? r_bottom s' - 1) with true by lia.
  by replace (ybot <=? r_bottom s') with true by lia.
Qed.

Lemma region_op_rest_ok g fuel ybot r out :
  (forall t b r out, xsorted r ->
     builds alloc_ok out (g t b r) (band_is t b (covers r) out)) ->
  valid r -> Forall (fun s => ybot < r_bottom s) r -> (length r <= fuel)%nat ->
  builds alloc_ok out (region_op_rest fuel g ybot r)
    (fun o => exists tail, o = out ++ tail /\ clipped ybot r tail).
Proof.
  intros Hg. revert r out. induction fuel as [| fuel IH]; intros [| a l] out Hv Hb Hf;
    try (simpl in Hf; lia).
  1, 2: apply builds_return; exists []; rewrite app_nil_r; split; [done |];
    split_and!; [apply valid_nil | intros; simpl; lia | intros s Hs; by apply elem_of_nil in Hs].
  cbn [region_op_rest].
  fold (band a (a :: l)) (below a (a :: l)). inversion Hb as [| ? ? Ba _]; subst.
  destruct (advance_spec a l (r_bottom a) Hv) as (A1 & A2 & _ & _ & A5 & _); [lia |].
  destruct (first_band a l Hv) as (Hrow & _).
  destruct (A5 eq_refl) as [A5' A5'']. cbv zeta in *. unfold advance in *. rewrite Z.eqb_refl in *.
  eapply builds_and; [apply Hg; by apply band_xsorted |]. intros o (new & -> & Hnr & Hns & Hnc).
  pose proof Hv as ([_ Ha] & _)%valid_cons.
  eapply builds_weaken; [apply IH; [done | | simpl in *; lia] |].
  { eapply Forall_impl; [exact A2 |]. simpl. lia. }
  intros o (tail & -> & Hcl). exists (new ++ tail). split; [by rewrite app_assoc |].
  destruct Hcl as (Htv & Htp & Hts). split_and!.
  - apply (valid_stack _ _ (r_bottom a)); [| done | |].
    + apply (row_valid (Z.max (r_top a) ybot) (r_bottom a)); [lia | done | done].
    + eapply Forall_impl; [exact Hnr |]. simpl. lia.
    + apply Forall_forall. intros s Hs. destruct (Hts s Hs) as (s' & Hs' & _ & ->).
      rewrite Forall_forall in A5'. specialize (A5' s' Hs'). simpl in A5'. lia.
  - intros x y. rewrite in_rects_app, (in_rects_row _ _ _ _ _ Hnr), Hnc, Htp.
    rewrite <- (take_drop (band_length (r_top a) (a :: l)) (a :: l)) at 3.
    fold (band a (a :: l)) (below a (a :: l)).
    rewrite in_rects_app, (in_rects_row _ _ _ _ _ Hrow). fold (band a (a :: l)).
    destruct (covers _ x), (in_rects _ x y); lia.
  - intros s Hs. apply elem_of_app in Hs as [Hs | Hs].
    + exists a. unfold row in Hnr. rewrite Forall_forall in Hnr. specialize (Hnr s Hs).
      split; [apply elem_of_cons; by left | simpl in Hnr; lia].
    + destruct (Hts s Hs) as (s' & Hs' & ?). exists s'. split; [| done].
      rewrite <- (take_drop (band_length (r_top a) (a :: l)) (a :: l)).
      apply elem_of_app. by right.
Qed.

(** What the tail adds: the rest of the operation. *)
Definition tail_ok (ybot : Z) (tail : list rectangle) : Prop :=
  valid tail /\ Forall (fun s => ybot <= r_top s) tail /\
  (forall x y, ybot <= y -> in_rects tail x y = op_points x y) /\
  (canonical R1 -> canonical R2 -> canonical tail).

Lemma tail_ok_nil ybot :
  (forall x y, ybot <= y -> op_points x y = false) -> tail_ok ybot [].
Proof.
  intros H. split_and!; [apply valid_nil | constructor | | intros; apply canonical_nil].
  intros x y Hy. by rewrite H.
Qed.

Lemma tail_side_ok g (keep : bool -> bool) ybot r out :
  non_overlap_ok g keep -> valid r -> Forall (fun s => ybot < r_bottom s) r ->
  (forall x y, ybot <= y -> op_points x y = keep (in_rects r x y)) ->
  (canonical R1 -> canonical R2 -> canonical r) ->
  builds alloc_ok out
    (match g with Some g => region_op_rest (length r) g ybot r | None => mreturn true end)
    (fun o => exists tail, o = out ++ tail /\ tail_ok ybot tail).
Proof.
  intros Hg Hv Hb HF Hc. destruct g as [g |].
  - destruct Hg as [Hk Hg]. eapply builds_weaken; [by eapply region_op_rest_ok |].
    intros o (tail & -> & Hcl). exists tail. split; [done |].
    pose proof (clipped_tops _ _ _ Hcl). pose proof (clipped_canonical _ _ _ Hcl).
    destruct Hcl as (? & Hp & _). split_and!; try done; [| auto].
    intros x y Hy. rewrite Hp, HF, Hk by done. lia.
  - apply builds_return. exists []. rewrite app_nil_r. split; [done |].
    apply tail_ok_nil. intros x y Hy. rewrite HF by done. apply Hg.
Qed.

Lemma region_op_tail_ok st out :
  op_inv st out -> o_r1 st = [] \/ o_r2 st = [] ->
  builds alloc_ok out (region_op_tail ops st)
    (fun o => exists tail, o = out ++ tail /\ tail_ok (o_ybot st) tail).
Proof.
  intros [V1 V2 B1 B2 P1 P2 C1 C2 _ _] He. unfold region_op_tail. pose proof op_false as Hff.
  destruct (o_r1 st) as [| a l1] eqn:E1; [destruct (o_r2 st) as [| b l2] eqn:E2 |].
  - apply builds_return. exists []. rewrite app_nil_r. split; [done |].
    apply tail_ok_nil. intros x y Hy. unfold op_points. by rewrite P1, P2.
  - eapply (tail_side_ok (non_overlap2_func ops) (fun v => f false v));
      [apply op_only2 | done | done | | auto].
    intros x y Hy. unfold op_points. by rewrite P1, P2.
  - destruct He as [He | He]; [done |]. rewrite He in *.
    eapply (tail_side_ok (non_overlap1_func ops) (fun v => f v false));
      [apply op_only1 | done | done | | auto].
    intros x y Hy. unfold op_points. by rewrite P1, P2.
Qed.

(** The result of the operation. *)
Definition op_result (rs : list rectangle) : Prop :=
  valid rs /\ (forall x y, in_rects rs x y = op_points x y) /\
  (canonical R1 -> canonical R2 -> canonical rs).

Lemma built_tail out k ybot tail :
  built op_points out k ybot -> tail_ok ybot tail -> tail <> [] ->
  let r := coalesce_region (out ++ tail) k (length out) in
  (length r.1 <= length (out ++ tail))%nat /\ op_result r.1.
Proof.
  intros [Hv Ha Hc (pt & pb & pre & prev & Hl) Hp] (Tv & Tt & Tp & Tc) Hne r.
  destruct tail as [| a l]; [done |].
  destruct (first_band a l Tv) as (Hrow & Vb & Vr & Hbel & Hn & Hn').
  pose proof Tv as ([_ Hab] & _)%valid_cons.
  set (n := band_length (r_top a) (a :: l)) in *.
  set (new := take n (a :: l)) in *. set (rest := drop n (a :: l)) in *.
  assert (E : a :: l = new ++ rest) by (symmetry; apply take_drop).
  assert (Hnew : new <> []). { intros En. apply (f_equal length) in En.
    unfold new in En. rewrite length_take in En. simpl in *. lia. }
  inversion Tt as [| ? ? Hya _]; subst x l0.
  assert (Ha' : Forall (fun r => r_bottom r <= r_top a) out).
  { eapply Forall_impl; [exact Ha |]. simpl. lia. }
  subst r. rewrite E in *. split.
  { by apply (coalesced_length out k pt pb pre prev (r_top a) (r_bottom a) new rest). }
  split_and!.
  - by apply (coalesced_valid out k pt pb pre prev (r_top a) (r_bottom a) new rest).
  - intros x y.
    pose proof (coalesced_points out k pt pb pre prev (r_top a) (r_bottom a) new rest
                  Hl Hv Vb Hrow Hnew Hbel x y) as Hx.
    unfold coalesced in Hx. rewrite Hx, in_rects_app.
    destruct (Z.lt_ge_cases y ybot).
    + rewrite Hp, (in_rects_below (new ++ rest) x y ybot) by done. lia.
    + rewrite (in_rects_above out x y ybot), Tp by done. done.
  - intros C1 C2.
    apply (coalesced_canonical out k pt pb pre prev (r_top a) (r_bottom a) new rest); auto.
Qed.

Lemma built_no_tail out k ybot :
  built op_points out k ybot -> tail_ok ybot [] -> op_result out.
Proof.
  intros [Hv Ha Hc _ Hp] (_ & _ & Tp & _). split_and!; [done | | done].
  intros x y. destruct (Z.lt_ge_cases y ybot) as [L | L]; [by apply Hp |].
  rewrite <- Tp by done. by apply (in_rects_above _ _ _ ybot).
Qed.

Lemma region_op_shrink_ok w :
  size_ok (w_reg w) ->
  let w' := (region_op_shrink alloc_ok w).2 in
  size_ok (w_reg w') /\ rects (w_reg w') = rects (w_reg w) /\
  extents (w_reg w') = extents (w_reg w) /\ error (w_env w') = error (w_env w).
Proof.
  intros Hs. unfold region_op_shrink. rewrite bind_run. cbn [mgets fst snd].
  destruct (_ && _) eqn:E; [| done]. rewrite bind_run. unfold malloc, try_alloc.
  cbn [fst snd]. destruct (alloc_ok _ _); cbn; [| done]. split_and!; try done.
  unfold size_ok, num_rects, RGN_DEFAULT_RECTS in *. cbn. lia.
Qed.

Lemma region_op_finish out k ybot tail :
  built op_points out k ybot -> tail_ok ybot tail ->
  builds alloc_ok (out ++ tail)
    (coalesce_new k (length out) ;;; region_op_shrink alloc_ok ;;; mreturn true) op_result.
Proof.
  intros Hb Ht w Hw Hs.
  assert (Hend : forall w', size_ok (w_reg w') -> extents (w_reg w') = extents (w_reg w) ->
    error (w_env w') = error (w_env w) -> op_result (rects (w_reg w')) ->
    let r := (region_op_shrink alloc_ok ;;; mreturn true) w' in
    size_ok (w_reg r.2) /\ extents (w_reg r.2) = extents (w_reg w) /\
    if r.1 then op_result (rects (w_reg r.2)) /\ error (w_env r.2) = error (w_env w)
    else error (w_env r.2) = STATUS_NO_MEMORY /\ refused alloc_ok).
  { intros w' Hs' He Her Hr. rewrite bind_run. cbn [mreturn fst snd].
    destruct (region_op_shrink_ok w' Hs') as (? & -> & -> & ->). done. }
  set (rest := (region_op_shrink alloc_ok ;;; mreturn true)) in *. clearbody rest.
  rewrite bind_run. unfold coalesce_new. rewrite bind_run. cbn [mgets fst snd]. rewrite Hw.
  destruct (Nat.eqb_spec (length (out ++ tail)) (length out)) as [E | E];
    rewrite length_app in E.
  - assert (tail = []) as -> by (destruct tail; [done | simpl in E; lia]).
    apply Hend; [done | done | done |]. cbn [mreturn fst snd]. rewrite Hw, app_nil_r.
    by eapply built_no_tail.
  - assert (Hne : tail <> []) by (intros ->; simpl in E; lia).
    destruct (built_tail out k ybot tail Hb Ht Hne) as [Hl Hr].
    rewrite bind_run. cbn [mmodify mreturn fst snd].
    apply Hend; [| done | done | done]. apply size_ok_shorter; [done |].
    rewrite <- Hw in Hl at 2. exact Hl.
Qed.
End Loop.
End Op.
