(* ===== verification/RegionProofs.v ===== *)
(** * Regions as point sets

    [region_ok] is the invariant of a region: sound array size, valid bands and the
    exact bounding box.  [SetOp op f] states that a public operation with a destination
    computes the operation [f] on point sets, whatever addresses coincide; it holds of
    intersection, subtraction, union and exclusive or. *)

From stdpp Require Import base list sorting sets gmap.
From Stdlib Require Import ZArith Lia ZifyBool.
From S2P Require Import Prelude Region RegionBands RegionCoalesce RegionOp.

Open Scope Z_scope.

(** ** Bounding boxes *)

Definition in_region (reg : region) (x y : Z) : bool := in_rects (rects reg) x y.

(** [e] is the smallest box around a point set that is not empty. *)
Record tight (P : Z -> Z -> bool) (e : rectangle) : Prop := mkTight {
  ti_in : forall x y, P x y = true -> point_in_rect e x y = true;
  ti_left : exists y, P (r_left e) y = true;
  ti_right : exists y, P (r_right e - 1) y = true;
  ti_top : exists x, P x (r_top e) = true;
  ti_bottom : exists x, P x (r_bottom e - 1) = true
}.

Definition extents_ok (rs : list rectangle) (e : rectangle) : Prop :=
  match rs with [] => e = empty_rect | _ => tight (in_rects rs) e end.

Lemma tight_ext (P Q : Z -> Z -> bool) e :
  (forall x y, P x y = Q x y) -> tight P e -> tight Q e.
Proof.
  intros H [Hi (y1 & H1) (y2 & H2) (x1 & H3) (x2 & H4)].
  split; [intros x y; rewrite <- H; apply Hi | exists y1 | exists y2 | exists x1 | exists x2];
    by rewrite <- H.
Qed.

Lemma valid_corner rs r : valid rs -> r ∈ rs -> in_rects rs (r_left r) (r_top r) = true /\
  in_rects rs (r_right r - 1) (r_bottom r - 1) = true.
Proof.
  intros [Hn _] Hr. rewrite Forall_forall in Hn. specialize (Hn r Hr).
  unfold nonempty in Hn. rewrite !in_rects_true.
  split; exists r; (split; [done |]); unfold point_in_rect; lia.
Qed.

Lemma valid_points rs : valid rs -> rs <> [] -> exists x y, in_rects rs x y = true.
Proof.
  destruct rs as [| r rs]; [done |]. intros Hv _. exists (r_left r), (r_top r).
  apply (valid_corner _ r Hv). apply elem_of_cons. by left.
Qed.

Lemma extents_points rs e x y :
  extents_ok rs e -> in_rects rs x y = true -> point_in_rect e x y = true.
Proof. destruct rs; [done |]. intros [Hi _ _ _ _]. apply Hi. Qed.

(** The tight box of the union of two sets. *)
Lemma tight_union (P Q : Z -> Z -> bool) e1 e2 :
  tight P e1 -> tight Q e2 ->
  tight (fun x y => P x y || Q x y)
    (mkRect (Z.min (r_left e1) (r_left e2)) (Z.min (r_top e1) (r_top e2))
            (Z.max (r_right e1) (r_right e2)) (Z.max (r_bottom e1) (r_bottom e2))).
Proof.
  intros [P0 [a1 P1] [a2 P2] [a3 P3] [a4 P4]] [Q0 [b1 Q1] [b2 Q2] [b3 Q3] [b4 Q4]].
  split; cbn [r_left r_right r_top r_bottom].
  - intros x y Hx. specialize (P0 x y). specialize (Q0 x y).
    unfold point_in_rect in *. cbn. destruct (P x y), (Q x y); lia.
  - destruct (Z.min_spec (r_left e1) (r_left e2)) as [[_ ->] | [_ ->]];
      [exists a1; by rewrite P1 | exists b1; by rewrite Q1, orb_true_r].
  - destruct (Z.max_spec (r_right e1) (r_right e2)) as [[_ ->] | [_ ->]];
      [exists b2; by rewrite Q2, orb_true_r | exists a2; by rewrite P2].
  - destruct (Z.min_spec (r_top e1) (r_top e2)) as [[_ ->] | [_ ->]];
      [exists a3; by rewrite P3 | exists b3; by rewrite Q3, orb_true_r].
  - destruct (Z.max_spec (r_bottom e1) (r_bottom e2)) as [[_ ->] | [_ ->]];
      [exists b4; by rewrite Q4, orb_true_r | exists a4; by rewrite P4].
Qed.

(** ** [set_region_extents] *)

Definition widen (e r : rectangle) : rectangle :=
  mkRect (if r_left r <? r_left e then r_left r else r_left e) (r_top e)
         (if r_right e <? r_right r then r_right r else r_right e) (r_bottom e).

Lemma widen_fold rs e :
  let e' := fold_left widen rs e in
  r_top e' = r_top e /\ r_bottom e' = r_bottom e /\
  r_left e' <= r_left e /\ r_right e <= r_right e' /\
  Forall (fun r => r_left e' <= r_left r /\ r_right r <= r_right e') rs /\
  (r_left e' = r_left e \/ exists r, r ∈ rs /\ r_left e' = r_left r) /\
  (r_right e' = r_right e \/ exists r, r ∈ rs /\ r_right e' = r_right r).
Proof.
  revert e. induction rs as [| r rs IH]; intros e; cbn [fold_left].
  - split_and!; try lia; try constructor; lia.
  - specialize (IH (widen e r)). cbv zeta in IH.
    set (e' := fold_left widen rs (widen e r)) in *. clearbody e'.
    destruct IH as (I1 & I2 & I3 & I4 & I5 & I6 & I7). cbn [widen r_top r_bottom] in I1, I2.
    cbn [widen r_left r_right] in *. cbv zeta.
    split_and!; [done | done | destruct (Z.ltb_spec (r_left r) (r_left e)); lia
      | destruct (Z.ltb_spec (r_right e) (r_right r)); lia | | |].
    + constructor; [| done].
      destruct (Z.ltb_spec (r_left r) (r_left e)), (Z.ltb_spec (r_right e) (r_right r)); lia.
    + destruct I6 as [I6 | (s & Hs & I6)]; [| right; exists s; split; [apply elem_of_cons; by right | done]].
      destruct (Z.ltb_spec (r_left r) (r_left e)); 
        [right; exists r; split; [apply elem_of_cons; by left | done] | by left].
    + destruct I7 as [I7 | (s & Hs & I7)]; [| right; exists s; split; [apply elem_of_cons; by right | done]].
      destruct (Z.ltb_spec (r_right e) (r_right r)); 
        [right; exists r; split; [apply elem_of_cons; by left | done] | by left].
Qed.

(** In a valid list the first top is the highest and the last bottom the lowest line. *)
Lemma valid_tops a l : valid (a :: l) -> Forall (fun r => r_top a <= r_top r) (a :: l).
Proof.
  intros (Ha & Hb & _)%valid_cons. constructor; [lia |].
  eapply Forall_impl; [exact Hb |]. intros s. unfold before, nonempty in *. lia.
Qed.

Lemma valid_bottoms rs z :
  valid rs -> last rs = Some z -> Forall (fun r => r_bottom r <= r_bottom z) rs.
Proof.
  intros Hv (l & ->)%last_Some. apply valid_app in Hv as (_ & Hz & Hb).
  apply Forall_app. split; [| repeat constructor; lia].
  eapply Forall_impl; [exact Hb |]. intros s Hs. inversion Hs as [| ? ? Hsz _]; subst.
  apply valid_cons in Hz as (Hz & _). unfold before, nonempty in *. lia.
Qed.

Lemma set_region_extents_ok reg :
  valid (rects reg) ->
  let reg' := set_region_extents reg in
  rects reg' = rects reg /\ rgn_size reg' = rgn_size reg /\
  extents_ok (rects reg) (extents reg').
Proof.
  intros Hv. unfold set_region_extents. destruct (rects reg) as [| a l] eqn:E; [by cbn |].
  destruct (last (a :: l)) as [z |] eqn:Ez; [| by apply last_None in Ez].
  split; [done |]. split; [done |]. cbn [set_extents extents extents_ok].
  fold widen. set (e0 := mkRect _ _ _ _).
  destruct (widen_fold (a :: l) e0) as (W1 & W2 & _ & _ & W5 & W6 & W7). cbv zeta in *.
  set (e := fold_left widen (a :: l) e0) in *. clearbody e. subst e0. cbn in W1, W2.
  pose proof (valid_tops a l Hv) as Ht. pose proof (valid_bottoms _ _ Hv Ez) as Hb.
  apply last_Some_elem_of in Ez. rewrite Forall_forall in *.
  assert (Ha : a ∈ a :: l) by (apply elem_of_cons; by left).
  split.
  - intros x y (r & Hr & Hp)%in_rects_true.
    specialize (W5 r Hr). specialize (Ht r Hr). specialize (Hb r Hr).
    unfold point_in_rect in *. simpl in *. lia.
  - destruct W6 as [W6 | (r & Hr & W6)]; rewrite W6.
    + exists (r_top a). cbn. by apply (valid_corner _ a Hv Ha).
    + exists (r_top r). by apply (valid_corner _ r Hv Hr).
  - destruct W7 as [W7 | (r & Hr & W7)]; rewrite W7.
    + exists (r_bottom z - 1). cbn. by apply (valid_corner _ z Hv Ez).
    + exists (r_bottom r - 1). by apply (valid_corner _ r Hv Hr).
  - exists (r_left a). rewrite W1. by apply (valid_corner _ a Hv Ha).
  - exists (r_right z - 1). rewrite W2. by apply (valid_corner _ z Hv Ez).
Qed.

(** ** The invariant of a region *)

Record region_ok (reg : region) : Prop := mkRegionOk {
  ro_size : size_ok reg;
  ro_valid : valid (rects reg);
  ro_extents : extents_ok (rects reg) (extents reg)
}.

Lemma num_rects_zero reg : (num_rects reg =? 0) = true <-> rects reg = [].
Proof. unfold num_rects. destruct (rects reg); simpl; split; (done || lia). Qed.

Lemma num_rects_nonzero reg : (num_rects reg =? 0) = false <-> rects reg <> [].
Proof. rewrite <- num_rects_zero. destruct (num_rects reg =? 0); naive_solver. Qed.

Lemma region_ok_tight reg :
  region_ok reg -> rects reg <> [] -> tight (in_region reg) (extents reg).
Proof. intros [_ _ He] Hne. unfold extents_ok, in_region in *. by destruct (rects reg). Qed.

Lemma in_region_extents reg x y :
  region_ok reg -> in_region reg x y = true -> point_in_rect (extents reg) x y = true.
Proof. intros [_ _ He]. by apply extents_points. Qed.

Section World.
Context (alloc_ok : nat -> Z -> bool).

(** ** [region_op] on two regions *)

Lemma op_inv_start ops f reg1 reg2 ybot :
  BandOps alloc_ok ops f -> region_ok reg1 -> region_ok reg2 ->
  rects reg1 <> [] -> rects reg2 <> [] ->
  ybot = Z.min (r_top (extents reg1)) (r_top (extents reg2)) ->
  op_inv f (rects reg1) (rects reg2) (mkOp (rects reg1) (rects reg2) ybot 0) [].
Proof.
  intros Hops H1 H2 N1 N2 ->. set (ybot := Z.min _ _).
  assert (Hpt : forall reg x y, region_ok reg -> y < r_top (extents reg) ->
                 in_rects (rects reg) x y = false).
  { intros reg x y Hr Hy. apply not_true_is_false. intros Hin.
    apply (in_region_extents reg x y Hr) in Hin. unfold point_in_rect in Hin. lia. }
  assert (Hbot : forall reg, region_ok reg ->
    Forall (fun r => r_top (extents reg) <= r_top r /\ r_top (extents reg) < r_bottom r) (rects reg)).
  { intros reg Hr. apply Forall_forall. intros r Hin.
    destruct (valid_corner (rects reg) r) as [Hc _]; [apply Hr | done |].
    apply (in_region_extents reg _ _ Hr) in Hc. unfold point_in_rect in Hc.
    destruct Hr as [_ [Hn _] _]. rewrite Forall_forall in Hn. specialize (Hn r Hin).
    unfold nonempty in Hn. lia. }
  split; cbn [o_r1 o_r2 o_ybot o_prevBand]; try done.
  - apply H1.
  - apply H2.
  - eapply Forall_impl; [by apply Hbot |]. simpl. lia.
  - eapply Forall_impl; [by apply Hbot |]. simpl. lia.
  - intros a l1 b l2 E1 E2. pose proof (Hbot reg1 H1) as B1. rewrite E1 in B1.
    inversion B1; subst. lia.
  - split; [apply valid_nil | constructor | apply canonical_nil | |].
    + exists 0, 0, [], []. split; [done | done | constructor | constructor | done].
    + intros x y Hy. unfold op_points. rewrite !Hpt by (done || lia). symmetry. by destruct Hops.
Qed.

Lemma mand_run {S} (m k : M S bool) s :
  (m &?& k) s = if (m s).1 then k (m s).2 else (false, (m s).2).
Proof. unfold mand. rewrite bind_run. by destruct (m s) as [[] ?]. Qed.

Lemma mem_alloc_run bytes w :
  mem_alloc alloc_ok bytes w =
  (alloc_ok (allocs (w_env w)) bytes,
   mkWork (w_reg w) (mkEnv (S (allocs (w_env w)))
     (if alloc_ok (allocs (w_env w)) bytes then error (w_env w) else STATUS_NO_MEMORY))).
Proof.
  unfold mem_alloc, malloc, try_alloc. run. cbn [fst snd]. by destruct (alloc_ok _ _).
Qed.

(** What an operation returns: success with a result, or the allocator's refusal. *)
Lemma region_op_work_ok ops f reg1 reg2 w :
  BandOps alloc_ok ops f -> region_ok reg1 -> region_ok reg2 ->
  rects reg1 <> [] -> rects reg2 <> [] ->
  let r := region_op_work alloc_ok reg1 reg2 ops w in
  extents (w_reg r.2) = extents (w_reg w) /\
  if r.1 then size_ok (w_reg r.2) /\ op_result f (rects reg1) (rects reg2) (rects (w_reg r.2)) /\
              error (w_env r.2) = error (w_env w)
  else error (w_env r.2) = STATUS_NO_MEMORY /\ refused alloc_ok.
Proof.
  intros Hops H1 H2 N1 N2. unfold region_op_work. rewrite mand_run, mem_alloc_run.
  cbn [fst snd].
  set (sz := Z.max (num_rects reg1) (num_rects reg2) * 2).
  set (ybot := if r_top (extents reg1) <? r_top (extents reg2) then _ else _).
  destruct (alloc_ok _ _) eqn:Ea; cbn [fst snd].
  2:{ split; [done |]. split; [done |]. by eexists _, _. }
  rewrite bind_run. cbn [mmodify fst snd].
  set (w1 := upd_reg _ _).
  assert (Hs1 : size_ok (w_reg w1)).
  { unfold size_ok, w1, num_rects. cbn. unfold sz, num_rects.
    destruct (rects reg1); [done |]. simpl length. lia. }
  assert (Hinv : op_inv f (rects reg1) (rects reg2)
                   (mkOp (rects reg1) (rects reg2) ybot 0) []).
  { apply (op_inv_start ops); try done. unfold ybot.
    destruct (Z.ltb_spec (r_top (extents reg1)) (r_top (extents reg2))); lia. }
  pose proof (region_op_loop_ok alloc_ok ops f (rects reg1) (rects reg2)
    (length (rects reg1) + length (rects reg2)) _ [] Hinv (Nat.le_refl _) w1 eq_refl Hs1) as HL.
  rewrite bind_run. cbv zeta in *. destruct (region_op_loop _ _ _ w1) as [[st |] w2];
    cbn [fst snd] in *; [| by destruct HL as (_ & ? & ?)].
  destruct HL as (Hs2 & He2 & [Hinv2 Hend] & Her2).
  assert (HT : builds alloc_ok (rects (w_reg w2))
    (region_op_tail ops st &?&
       (coalesce_new (o_prevBand st) (length (rects (w_reg w2))) ;;;
        region_op_shrink alloc_ok ;;; mreturn true))
    (op_result f (rects reg1) (rects reg2))).
  { eapply builds_and; [by apply (region_op_tail_ok alloc_ok ops f (rects reg1) (rects reg2)) |].
    intros o (tail & -> & Ht).
    apply (region_op_finish alloc_ok f (rects reg1) (rects reg2) _ _ (o_ybot st) tail);
      [by destruct Hinv2 | done]. }
  specialize (HT w2 eq_refl Hs2). rewrite bind_run. cbn [cur_band mgets fst snd].
  cbv zeta in HT. set (r3 := (_ &?& _) w2) in *. clearbody r3.
  destruct r3 as [[] w3]; cbn [fst snd] in *;
    rewrite He2 in HT; destruct HT as (? & ? & ? & ?); rewrite ?Her2 in *; done.
Qed.

(** ** Operations with a destination *)

(** The outcome of an operation that should leave a region with the points [P] at
    [dst]: all other regions are as before; [canon] says when the result is
    canonical. *)
Definition outcome (dst : ptr) (P : Z -> Z -> bool) (canon : Prop) (w : world)
    (r : ptr * world) : Prop :=
  next_addr w <= next_addr r.2 /\
  (forall q, q <> dst -> heap r.2 !! q = heap w !! q) /\
  ((r.1 = dst /\ error (genv r.2) = error (genv w) /\
    exists reg, heap r.2 !! dst = Some reg /\ region_ok reg /\
      (forall x y, in_region reg x y = P x y) /\ (canon -> canonical (rects reg))) \/
   (r.1 = NULL /\ error (genv r.2) = STATUS_NO_MEMORY /\ refused alloc_ok /\
    is_Some (heap r.2 !! dst))).

(** Regions have addresses below the next one to be given out; [NULL] is none. *)
Definition addr_ok (w : world) : Prop :=
  0 < next_addr w /\ forall p, is_Some (heap w !! p) -> 0 < p < next_addr w.

(** An operation on regions that computes [f] on point sets. *)
Class SetOp (op : ptr -> ptr -> ptr -> M world ptr) (f : bool -> bool -> bool) : Prop :=
  set_op : forall dst src1 src2 w rd reg1 reg2,
    addr_ok w -> heap w !! dst = Some rd -> size_ok rd ->
    heap w !! src1 = Some reg1 -> region_ok reg1 ->
    heap w !! src2 = Some reg2 -> region_ok reg2 ->
    outcome dst (fun x y => f (in_region reg1 x y) (in_region reg2 x y))
      (canonical (rects reg1) /\ canonical (rects reg2)) w (op dst src1 src2 w).

Lemma load_some p w reg : heap w !! p = Some reg -> load p w = (reg, w).
Proof. intros H. unfold load, mgets. by rewrite H. Qed.

Lemma on_region_run {A} p (m : M work A) w reg :
  heap w !! p = Some reg ->
  on_region p m w =
  ((m (mkWork reg (genv w))).1,
   mkWorld (<[p := w_reg (m (mkWork reg (genv w))).2]> (heap w)) (next_addr w)
           (w_env (m (mkWork reg (genv w))).2)).
Proof. intros H. unfold on_region. rewrite bind_run, (load_some _ _ _ H). done. Qed.

Lemma copy_region_ok dst src w rd reg (P : Z -> Z -> bool) (canon : Prop) :
  heap w !! dst = Some rd -> size_ok rd -> heap w !! src = Some reg -> region_ok reg ->
  (forall x y, in_region reg x y = P x y) -> (canon -> canonical (rects reg)) ->
  outcome dst P canon w (copy_region alloc_ok dst src w).
Proof.
  intros Hd Hds Hs Hok HP Hc. unfold copy_region. destruct (Z.eqb_spec dst src) as [-> | Hne].
  { split; [cbn; lia |]. split; [done |]. left. split; [done |]. split; [done |]. eauto. }
  rewrite bind_run, (load_some _ _ _ Hs). cbn [fst snd].
  rewrite bind_run, (on_region_run _ _ _ _ Hd). cbn [fst snd].
  set (m := mbind' _ _). set (r := m (mkWork rd (genv w))).
  assert (Hr : (r.1 = true /\ w_reg r.2 = mkRegion (Z.max (rgn_size rd) (num_rects reg)) (rects reg)
                                          (extents reg) /\ error (w_env r.2) = error (genv w)) \/
               (r.1 = false /\ error (w_env r.2) = STATUS_NO_MEMORY /\ refused alloc_ok)).
  { unfold r, m. rewrite bind_run. cbn [mgets fst snd w_reg]. unfold mand.
    rewrite bind_run. destruct (Z.ltb_spec (rgn_size rd) (num_rects reg)) as [L | L].
    - rewrite bind_run. unfold malloc, try_alloc. cbn [fst snd w_reg w_env].
      destruct (alloc_ok _ _) eqn:Ea; cbn.
      + left. rewrite Z.max_r by lia. done.
      + right. split; [done |]. split; [done |]. by eexists _, _.
    - cbn. left. rewrite Z.max_l by lia. done. }
  clearbody r. split; [cbn; lia |]. cbn [mreturn heap snd fst genv]. split.
  { intros q Hq. by rewrite lookup_insert_ne. }
  rewrite lookup_insert_eq. destruct Hr as [(-> & Er & He) | (-> & He & Href)]; cbn [fst].
  - left. split; [done |]. split; [done |]. rewrite Er. eexists. split; [done |]. split; [| by split].
    destruct Hok as [[? ?] ? ?], Hds as [? ?]. split; cbn; [| done | done].
    unfold size_ok, num_rects in *. cbn. lia.
  - right. by split.
Qed.

(** An operation through [region_op], with the bounding box set after it. *)
Lemma op_then_extents_ok dst src1 src2 w rd reg1 reg2 ops f (fx : region -> region)
    (canon : Prop) :
  BandOps alloc_ok ops f ->
  heap w !! dst = Some rd ->
  heap w !! src1 = Some reg1 -> region_ok reg1 -> heap w !! src2 = Some reg2 -> region_ok reg2 ->
  rects reg1 <> [] -> rects reg2 <> [] ->
  (forall reg, op_result f (rects reg1) (rects reg2) (rects reg) ->
     rects (fx reg) = rects reg /\ rgn_size (fx reg) = rgn_size reg /\
     extents_ok (rects reg) (extents (fx reg))) ->
  (canon -> canonical (rects reg1) /\ canonical (rects reg2)) ->
  outcome dst (fun x y => f (in_region reg1 x y) (in_region reg2 x y)) canon w
    (op_then_extents alloc_ok dst src1 src2 ops fx w).
Proof.
  intros Hops Hd H1 K1 H2 K2 N1 N2 Hfx Hcan. unfold op_then_extents, region_op.
  rewrite !bind_run, (load_some _ _ _ H1). cbn [fst snd].
  rewrite ?bind_run, (load_some _ _ _ H2). cbn [fst snd].
  rewrite (on_region_run _ _ _ _ Hd). cbn [fst snd].
  pose proof (region_op_work_ok ops f reg1 reg2 (mkWork rd (genv w)) Hops K1 K2 N1 N2) as HR.
  cbv zeta in HR. destruct (region_op_work _ _ _ _ _) as [[] w']; cbn [fst snd negb w_env w_reg] in *.
  - destruct HR as (_ & Hs & Hres & Her). rewrite bind_run.
    rewrite (load_some dst _ (w_reg w')) by (cbn; apply lookup_insert_eq).
    rewrite bind_run. cbn [fst snd store mmodify mreturn heap next_addr genv].
    split; [cbn; lia |]. cbn [mreturn fst snd heap genv]. split.
    { intros q Hq. by rewrite !lookup_insert_ne. }
    left. split; [done |]. split; [done |]. rewrite lookup_insert_eq. eexists. split; [done |].
    destruct (Hfx _ Hres) as (E1 & E2 & E3). destruct Hres as (Hv & Hp & Hc).
    split; [split |].
    + unfold size_ok, num_rects in *. by rewrite E1, E2.
    + by rewrite E1.
    + by rewrite E1.
    + unfold in_region at 1. rewrite E1. split; [done |]. intros [? ?]%Hcan. auto.
  - destruct HR as (_ & Her & Href). split; [cbn; lia |]. cbn [fst snd heap genv mreturn]. split.
    { intros q Hq. by rewrite lookup_insert_ne. }
    right. rewrite lookup_insert_eq. eauto.
Qed.

(** ** The tests before the general case *)

Lemma no_overlap_disjoint reg1 reg2 x y :
  region_ok reg1 -> region_ok reg2 -> no_overlap reg1 reg2 = true ->
  in_region reg1 x y && in_region reg2 x y = false.
Proof.
  intros H1 H2 Hn. unfold no_overlap in Hn. rewrite !orb_true_iff, !num_rects_zero in Hn.
  destruct Hn as [[E | E] | Hn].
  - unfold in_region. by rewrite E.
  - unfold in_region. rewrite E. apply andb_false_r.
  - apply not_true_is_false. intros [Hp1 Hp2]%andb_true_iff.
    apply (in_region_extents _ _ _ H1) in Hp1. apply (in_region_extents _ _ _ H2) in Hp2.
    unfold EXTENTCHECK, point_in_rect in *. lia.
Qed.

Lemma no_overlap_false reg1 reg2 :
  no_overlap reg1 reg2 = false -> rects reg1 <> [] /\ rects reg2 <> [].
Proof.
  unfold no_overlap. rewrite !orb_false_iff, !num_rects_nonzero. tauto.
Qed.

Lemma rect_covers_points reg1 reg2 x y :
  region_ok reg1 -> region_ok reg2 -> rect_covers reg1 reg2 = true ->
  in_region reg2 x y = true -> in_region reg1 x y = true.
Proof.
  intros H1 H2 Hc Hp. apply (in_region_extents _ _ _ H2) in Hp. unfold rect_covers in Hc.
  destruct H1 as [_ Hv He]. unfold in_region, num_rects in *.
  destruct (rects reg1) as [| r [| r' l]]; simpl length in Hc; try lia.
  destruct He as [_ [y1 L1] [y2 L2] [x3 L3] [x4 L4]].
  unfold in_rects, point_in_rect in *. simpl in *. lia.
Qed.

Lemma outcome_ext dst (P Q : Z -> Z -> bool) (c d : Prop) w r :
  (forall x y, P x y = Q x y) -> (d -> c) -> outcome dst P c w r -> outcome dst Q d w r.
Proof.
  intros HPQ Hdc (H1 & H2 & H3). split; [done |]. split; [done |].
  destruct H3 as [(? & ? & reg & ? & ? & Hp & ?) | ?]; [left | by right].
  split; [done |]. split; [done |]. exists reg. split; [done |]. split; [done |].
  split; [| auto]. intros x y. by rewrite Hp.
Qed.

(** ** The operations *)

#[export] Instance intersect_region_set_op : SetOp (intersect_region alloc_ok) andb.
Proof.
  intros dst src1 src2 w rd reg1 reg2 _ Hd Hds H1 K1 H2 K2. unfold intersect_region.
  rewrite bind_run, (load_some _ _ _ H1). cbn [fst snd].
  rewrite bind_run, (load_some _ _ _ H2). cbn [fst snd].
  destruct (no_overlap reg1 reg2) eqn:En.
  - rewrite bind_run, (load_some _ _ _ Hd), bind_run. cbn [store mmodify mreturn fst snd].
    split; [cbn; lia |]. cbn [store mmodify mreturn heap snd fst genv].
    split; [intros q Hq; by rewrite lookup_insert_ne |].
    left. split; [done |]. split; [done |]. rewrite lookup_insert_eq. eexists. split; [done |].
    split; [split; [| apply valid_nil | done] |].
    + destruct Hds as [? ?]. unfold size_ok, num_rects in *. simpl. lia.
    + split; [| intros _; apply canonical_nil]. intros x y.
      by rewrite no_overlap_disjoint.
  - apply no_overlap_false in En as [N1 N2].
    apply (op_then_extents_ok dst src1 src2 w rd reg1 reg2 _ andb); try done; [apply _ |].
    intros reg (Hv & _). by apply set_region_extents_ok.
Qed.

#[export] Instance subtract_region_set_op :
  SetOp (subtract_region alloc_ok) (fun v1 v2 => v1 && negb v2).
Proof.
  intros dst src1 src2 w rd reg1 reg2 _ Hd Hds H1 K1 H2 K2. unfold subtract_region.
  rewrite bind_run, (load_some _ _ _ H1). cbn [fst snd].
  rewrite bind_run, (load_some _ _ _ H2). cbn [fst snd].
  destruct (no_overlap reg1 reg2) eqn:En.
  - eapply copy_region_ok; try done; [| tauto]. intros x y.
    pose proof (no_overlap_disjoint reg1 reg2 x y K1 K2 En). lia.
  - apply no_overlap_false in En as [N1 N2].
    apply (op_then_extents_ok dst src1 src2 w rd reg1 reg2 _ (fun v1 v2 => v1 && negb v2));
      try done; [apply _ |].
    intros reg (Hv & _). by apply set_region_extents_ok.
Qed.

#[export] Instance union_region_set_op : SetOp (union_region alloc_ok) orb.
Proof.
  intros dst src1 src2 w rd reg1 reg2 _ Hd Hds H1 K1 H2 K2. unfold union_region.
  rewrite bind_run, (load_some _ _ _ H1). cbn [fst snd].
  rewrite bind_run, (load_some _ _ _ H2). cbn [fst snd].
  destruct (Z.eqb_spec src1 src2) as [<- |].
  { simplify_eq. eapply copy_region_ok; try done; [| tauto]. intros x y. lia. }
  destruct (num_rects reg1 =? 0) eqn:E1.
  { apply num_rects_zero in E1. eapply copy_region_ok; try done; [| tauto].
    intros x y. unfold in_region. by rewrite E1. }
  destruct (num_rects reg2 =? 0) eqn:E2.
  { apply num_rects_zero in E2. eapply copy_region_ok; try done; [| tauto].
    intros x y. unfold in_region. by rewrite E2, orb_false_r. }
  destruct (rect_covers reg1 reg2) eqn:E3.
  { eapply copy_region_ok; try done; [| tauto]. intros x y.
    pose proof (rect_covers_points reg1 reg2 x y K1 K2 E3). lia. }
  destruct (rect_covers reg2 reg1) eqn:E4.
  { eapply copy_region_ok; try done; [| tauto]. intros x y.
    pose proof (rect_covers_points reg2 reg1 x y K2 K1 E4). lia. }
  apply num_rects_nonzero in E1, E2.
  apply (op_then_extents_ok dst src1 src2 w rd reg1 reg2 _ orb); try done; [apply _ |].
  intros reg (Hv & Hp & _). split; [done |]. split; [done |].
  pose proof (tight_union _ _ _ _ (region_ok_tight _ K1 E1) (region_ok_tight _ K2 E2)) as Ht.
  destruct (valid_points _ (ro_valid _ K1) E1) as (x & y & Hin).
  unfold extents_ok. destruct (rects reg) as [| r l] eqn:Er.
  - specialize (Hp x y). unfold op_points in Hp. rewrite Hin in Hp. done.
  - eapply tight_ext; [| exact Ht]. intros x' y'. by rewrite Hp.
Qed.

(** ** Exclusive or *)

Lemma outcome_addr_ok dst P c w r :
  addr_ok w -> is_Some (heap w !! dst) -> outcome dst P c w r -> addr_ok r.2.
Proof.
  intros [Hn Hp] Hd (Hle & Hq & _). split; [lia |]. intros p Hs.
  destruct (Z.eq_dec p dst) as [-> | Hne].
  - specialize (Hp dst Hd). lia.
  - rewrite Hq in Hs by done. specialize (Hp p Hs). lia.
Qed.

(** A failed operation on a destination, after steps that changed only it. *)
Definition only_dst (dst : ptr) (w w' : world) : Prop :=
  next_addr w <= next_addr w' /\ (forall q, q <> dst -> heap w' !! q = heap w !! q) /\
  is_Some (heap w' !! dst).

(** [alloc_region] fails for want of memory or puts the region at a new address. *)
Lemma alloc_region_run n reg w :
  let r := alloc_region alloc_ok n reg w in
  (r.1 = NULL /\ heap r.2 = heap w /\ next_addr r.2 = next_addr w /\
   error (genv r.2) = STATUS_NO_MEMORY /\ refused alloc_ok) \/
  (r.1 = next_addr w /\ next_addr r.2 = next_addr w + 1 /\ error (genv r.2) = error (genv w) /\
   heap r.2 = <[next_addr w := reg]> (heap w)).
Proof.
  unfold alloc_region. rewrite bind_run.
  unfold w_mem_alloc, try_alloc. cbn [fst snd].
  destruct (alloc_ok _ _) eqn:E1; cbn [negb].
  2:{ left. split_and!; try done. by eexists _, _. }
  rewrite bind_run. cbn [fst snd genv heap next_addr allocs].
  destruct (alloc_ok (S _) _) eqn:E2; cbn [negb].
  2:{ left. split_and!; try done. by eexists _, _. }
  right. done.
Qed.

Lemma empty_region_ok : region_ok (mkRegion RGN_DEFAULT_RECTS [] empty_rect).
Proof. split; [| apply valid_nil | done]. unfold size_ok, num_rects. simpl. done. Qed.

(** The temporary region is gone at the end. *)
Lemma free_tmp_outcome dst P c w w' p :
  heap w !! (next_addr w) = None -> dst <> next_addr w -> next_addr w <= next_addr w' ->
  (forall q, q <> dst -> q <> next_addr w -> heap w' !! q = heap w !! q) ->
  ((p = dst /\ error (genv w') = error (genv w) /\
    exists reg, heap w' !! dst = Some reg /\ region_ok reg /\
      (forall x y, in_region reg x y = P x y) /\ (c -> canonical (rects reg))) \/
   (p = NULL /\ error (genv w') = STATUS_NO_MEMORY /\ refused alloc_ok /\
    is_Some (heap w' !! dst))) ->
  outcome dst P c w ((free_region (next_addr w) ;;; mreturn p) w').
Proof.
  intros Hnone Hne Hle Hq Hp. rewrite bind_run. cbn [free_region mmodify mreturn fst snd].
  split; [cbn; lia |]. cbn [mreturn fst snd heap genv]. split.
  - intros q Hqd. destruct (Z.eq_dec q (next_addr w)) as [-> | Hqn].
    + by rewrite lookup_delete_eq.
    + rewrite lookup_delete_ne by done. by apply Hq.
  - by rewrite lookup_delete_ne by done.
Qed.

(** The addresses of regions in use differ from a new one and from [NULL]. *)
Lemma addr_ok_in w p r : addr_ok w -> heap w !! p = Some r -> p <> next_addr w /\ p <> 0.
Proof. intros [_ Ha] Hp. specialize (Ha p (mk_is_Some _ _ Hp)). lia. Qed.

Lemma addr_ok_new w w' r :
  addr_ok w -> next_addr w' = next_addr w + 1 -> heap w' = <[next_addr w := r]> (heap w) ->
  addr_ok w'.
Proof.
  intros [Hn Ha] En Eh. split; [lia |]. intros q Hq. rewrite Eh in Hq.
  destruct (Z.eq_dec q (next_addr w)) as [-> |]; [lia |].
  rewrite lookup_insert_ne in Hq by done. specialize (Ha q Hq). lia.
Qed.

(** The second half of [xor_region], once [tmp] holds the first difference. *)
Definition xor_rest (dst src1 src2 tmp : ptr) : M world ptr :=
  let! b := subtract_region alloc_ok dst src2 src1 in
  if b =? NULL then mreturn NULL
  else
    let! c := union_region alloc_ok dst dst tmp in
    mreturn (if c =? NULL then NULL else dst).

Lemma xor_rest_ok dst src1 src2 tmp w rd reg1 reg2 ra :
  addr_ok w -> heap w !! dst = Some rd -> size_ok rd ->
  heap w !! src1 = Some reg1 -> region_ok reg1 -> heap w !! src2 = Some reg2 -> region_ok reg2 ->
  heap w !! tmp = Some ra -> region_ok ra -> tmp <> dst ->
  outcome dst
    (fun x y => in_region reg2 x y && negb (in_region reg1 x y) || in_region ra x y)
    ((canonical (rects reg2) /\ canonical (rects reg1)) /\ canonical (rects ra)) w
    (xor_rest dst src1 src2 tmp w).
Proof.
  intros Ha Hd Hds H1 K1 H2 K2 Ht Ka Hne. destruct (addr_ok_in _ _ _ Ha Hd) as [_ Zd].
  pose proof (set_op dst src2 src1 w rd reg2 reg1 Ha Hd Hds H2 K2 H1 K1
    : outcome dst _ _ w (subtract_region alloc_ok dst src2 src1 w)) as O2.
  pose proof (outcome_addr_ok _ _ _ _ _ Ha (mk_is_Some _ _ Hd) O2) as A3.
  unfold xor_rest. rewrite bind_run.
  destruct (subtract_region alloc_ok dst src2 src1 w) as [b w3]. cbn [fst snd] in *.
  destruct O2 as (M2 & Q2 & O2). cbn [fst snd] in *.
  destruct O2 as [(-> & Ee & rb & Hrb & Kb & Pb & Cb) | (-> & Ee & Hf)].
  2:{ split; [done |]. split; [done |]. right. done. }
  replace (dst =? NULL) with false by lia. rewrite bind_run.
  assert (Ht3 : heap w3 !! tmp = Some ra) by (by rewrite Q2).
  pose proof (set_op dst dst tmp w3 rb rb ra A3 Hrb (ro_size _ Kb) Hrb Kb Ht3 Ka
    : outcome dst _ _ w3 (union_region alloc_ok dst dst tmp w3)) as O3.
  destruct (union_region alloc_ok dst dst tmp w3) as [c w4].
  destruct O3 as (M3 & Q3 & O3). cbn [fst snd mreturn] in *.
  split; [cbn; lia |]. cbn [fst snd mreturn]. split; [intros q Hq; by rewrite Q3, Q2 |].
  destruct O3 as [(-> & Ee4 & rc & Hrc & Kc & Pc & Cc) | (-> & Ee4 & Hf)]; [left | by right].
  replace (dst =? NULL) with false by lia. split_and!; [done | congruence |].
  exists rc. split_and!; try done; [| tauto]. intros x y. by rewrite Pc, Pb.
Qed.

#[export] Instance xor_region_set_op : SetOp (xor_region alloc_ok) xorb.
Proof.
  intros dst src1 src2 w rd reg1 reg2 Ha Hd Hds H1 K1 H2 K2.
  destruct (addr_ok_in _ _ _ Ha Hd) as [Nd _], (addr_ok_in _ _ _ Ha H1) as [N1 _],
    (addr_ok_in _ _ _ Ha H2) as [N2 _]. pose proof Ha as [Hpos _].
  assert (Hnone : heap w !! next_addr w = None).
  { destruct (heap w !! next_addr w) eqn:E; [| done]. by destruct (addr_ok_in _ _ _ Ha E). }
  unfold xor_region, create_empty_region. rewrite bind_run.
  pose proof (alloc_region_run RGN_DEFAULT_RECTS (mkRegion RGN_DEFAULT_RECTS [] empty_rect) w) as HC.
  cbv zeta in HC. destruct (alloc_region alloc_ok _ _ w) as [p w1]. cbn [fst snd] in *.
  destruct HC as [(-> & Eh & En & Ee & Href) | (-> & En & Ee & Eh)].
  { split; [simpl; lia |]. split; [intros; simpl; by rewrite Eh |].
    right. split_and!; try done. simpl. by rewrite Eh, Hd. }
  pose proof (addr_ok_new _ _ _ Ha En Eh) as A1.
  assert (Lt : heap w1 !! next_addr w = Some (mkRegion RGN_DEFAULT_RECTS [] empty_rect))
    by (by rewrite Eh, lookup_insert_eq).
  assert (L1 : forall q, q <> next_addr w -> heap w1 !! q = heap w !! q)
    by (intros; by rewrite Eh, lookup_insert_ne).
  replace (next_addr w =? NULL) with false by lia. rewrite bind_run.
  pose proof (set_op (next_addr w) src1 src2 w1 _ reg1 reg2 A1 Lt (ro_size _ empty_region_ok)
    (eq_trans (L1 _ N1) H1) K1 (eq_trans (L1 _ N2) H2) K2
    : outcome _ _ _ w1 (subtract_region alloc_ok (next_addr w) src1 src2 w1)) as O1.
  pose proof (outcome_addr_ok _ _ _ _ _ A1 (mk_is_Some _ _ Lt) O1) as A2.
  destruct (subtract_region alloc_ok (next_addr w) src1 src2 w1) as [a w2].
  destruct O1 as (M1 & Q1 & O1). cbn [fst snd] in *.
  assert (L2 : forall q, q <> next_addr w -> heap w2 !! q = heap w !! q)
    by (intros; by rewrite Q1, L1).
  rewrite bind_run.
  destruct O1 as [(-> & Ee2 & ra & Hra & Ka & Pa & Ca) | (-> & Ee2 & Href & _)].
  2:{ cbn [mreturn fst snd Z.eqb]. apply free_tmp_outcome; auto; [lia |].
      right. split_and!; try done. by rewrite (L2 dst), Hd. }
  replace (next_addr w =? NULL) with false by lia.
  fold (xor_rest dst src1 src2 (next_addr w)).
  pose proof (xor_rest_ok dst src1 src2 (next_addr w) w2 rd reg1 reg2 ra A2
    (eq_trans (L2 _ Nd) Hd) Hds (eq_trans (L2 _ N1) H1) K1 (eq_trans (L2 _ N2) H2) K2
    Hra Ka (not_eq_sym Nd)) as O3.
  destruct (xor_rest _ _ _ _ w2) as [c w3]. destruct O3 as (M3 & Q3 & O3). cbn [fst snd] in *.
  apply free_tmp_outcome; [done | done | lia | |].
  - intros q Hqd Hqt. by rewrite Q3, L2.
  - destruct O3 as [(-> & Ee3 & rc & Hrc & Kc & Pc & Cc) | ?]; [left | by right].
    split_and!; [done | congruence |]. exists rc. split_and!; try done; [| tauto].
    intros x y. rewrite Pc, Pa. by destruct (in_region reg1 x y), (in_region reg2 x y).
Qed.
End World.
