(* ===== verification/RegionTheorems.v ===== *)
(** * What regions promise

    The set operations on point sets, equality of canonical regions, and the point and
    rectangle tests. *)

From stdpp Require Import base list sorting sets gmap.
From Stdlib Require Import ZArith Lia ZifyBool.
From S2P Require Import Prelude Region RegionBands RegionCoalesce RegionOp RegionProofs.

Open Scope Z_scope.

(** ** Canonical lists are determined by their points *)

Lemma row_same_sides t b l1 l2 :
  row t b l1 -> row t b l2 -> length l1 = length l2 -> same_sides l1 l2 = true -> l1 = l2.
Proof.
  revert l2. induction l1 as [| r l1 IH]; intros [| s l2] H1 H2 Hl Hs; try done.
  apply row_cons in H1 as [[E1 E2] H1]. apply row_cons in H2 as [[E3 E4] H2].
  cbn [same_sides length] in *. f_equal; [| apply IH; (done || lia)].
  destruct r, s. simpl in *. f_equal; lia.
Qed.

Lemma first_line rs a l : valid rs -> rs = a :: l -> in_rects rs (r_left a) (r_top a) = true.
Proof. intros Hv ->. apply (valid_corner _ a Hv). apply elem_of_cons. by left. Qed.

Lemma first_top_le a l b l2 :
  valid (a :: l) -> valid (b :: l2) ->
  (forall x y, in_rects (a :: l) x y = in_rects (b :: l2) x y) -> r_top b <= r_top a.
Proof.
  intros H1 H2 Hp. pose proof (first_line _ a l H1 eq_refl) as Hin. rewrite Hp in Hin.
  destruct (Z.lt_ge_cases (r_top a) (r_top b)) as [L |]; [| lia].
  rewrite (above_band b l2) in Hin by done. done.
Qed.

(** A first band cannot end inside the other list's first band. *)
Lemma first_bottom_le a l b l2 :
  valid (a :: l) -> valid (b :: l2) -> canonical (a :: l) ->
  (forall x y, in_rects (a :: l) x y = in_rects (b :: l2) x y) -> r_top a = r_top b ->
  r_bottom b <= r_bottom a.
Proof.
  intros H1 H2 Hc Hp Ht. destruct (Z.lt_ge_cases (r_bottom a) (r_bottom b)) as [L |]; [| lia].
  pose proof H1 as ([_ Ha] & _)%valid_cons.
  destruct (Hc a) as [x Hx]; [apply elem_of_cons; by left |].
  exfalso. apply Hx. rewrite !Hp, !(band_line b l2) by (done || lia). done.
Qed.

Lemma canonical_unique rs1 rs2 :
  valid rs1 -> valid rs2 -> canonical rs1 -> canonical rs2 ->
  (forall x y, in_rects rs1 x y = in_rects rs2 x y) -> rs1 = rs2.
Proof.
  remember (length rs1) as n eqn:En. revert rs1 rs2 En.
  induction n as [n IH] using lt_wf_ind. intros [| a l] [| b l2] En V1 V2 C1 C2 Hp; [done | | |].
  { destruct (valid_points _ V2) as (x & y & Hin); [done |]. by rewrite <- Hp in Hin. }
  { destruct (valid_points _ V1) as (x & y & Hin); [done |]. by rewrite Hp in Hin. }
  assert (Hp' : forall x y, in_rects (b :: l2) x y = in_rects (a :: l) x y) by done.
  assert (Et : r_top a = r_top b).
  { pose proof (first_top_le a l b l2 V1 V2 Hp). pose proof (first_top_le b l2 a l V2 V1 Hp'). lia. }
  assert (Eb : r_bottom a = r_bottom b).
  { pose proof (first_bottom_le a l b l2 V1 V2 C1 Hp Et).
    pose proof (first_bottom_le b l2 a l V2 V1 C2 Hp' (eq_sym Et)). lia. }
  destruct (first_band a l V1) as (R1 & _ & _ & B1 & _).
  destruct (first_band b l2 V2) as (R2 & _ & _ & B2 & _).
  fold (band a (a :: l)) (below a (a :: l)) in *. fold (band b (b :: l2)) (below b (b :: l2)) in *.
  pose proof V1 as ([_ Ha] & _)%valid_cons. pose proof V2 as ([_ Hb] & _)%valid_cons.
  assert (Eband : band a (a :: l) = band b (b :: l2)).
  { rewrite <- Et, <- Eb in R2. apply (row_same_sides _ _ _ _ R1 R2);
      destruct (same_sides_or_differ _ _ (band_xsorted a l V1) (band_xsorted b l2 V2))
        as [[? ?] | [x Hx]]; try done;
      exfalso; apply Hx; rewrite <- !(band_line _ _ x (r_top a)) by (done || lia); done. }
  destruct (advance_spec a l (r_bottom a) V1) as (A1 & _ & A3 & _ & A5 & A6); [lia |].
  destruct (advance_spec b l2 (r_bottom b) V2) as (D1 & _ & D3 & _ & _ & D6); [lia |].
  cbv zeta in *. unfold advance in *. rewrite !Z.eqb_refl in *.
  assert (Ebelow : below a (a :: l) = below b (b :: l2)).
  { apply (IH (length (below a (a :: l)))); auto; [destruct (A5 eq_refl); lia |].
    intros x y. destruct (Z.lt_ge_cases y (r_bottom a)).
    - rewrite (in_rects_below _ x y _ B1), (in_rects_below _ x y _ B2) by lia. done.
    - rewrite <- A3, <- D3 by lia. apply Hp. }
  rewrite <- (take_drop (band_length (r_top a) (a :: l)) (a :: l)).
  rewrite <- (take_drop (band_length (r_top b) (b :: l2)) (b :: l2)).
  fold (band a (a :: l)) (below a (a :: l)) (band b (b :: l2)) (below b (b :: l2)).
  by rewrite Eband, Ebelow.
Qed.

Lemma is_rect_equal_eq r s : is_rect_equal r s = true <-> r = s.
Proof.
  unfold is_rect_equal. destruct r, s; simpl. split; [| by intros [=]; lia].
  intros H. f_equal; lia.
Qed.

Lemma rects_equal_eq l1 l2 : length l1 = length l2 -> rects_equal l1 l2 = true <-> l1 = l2.
Proof.
  revert l2. induction l1 as [| r l1 IH]; intros [| s l2] Hl; try done.
  cbn [rects_equal]. rewrite andb_true_iff, is_rect_equal_eq, IH by (simpl in Hl; lia).
  split; [by intros [-> ->] | by intros [=]].
Qed.

Lemma tight_unique P e1 e2 : tight P e1 -> tight P e2 -> e1 = e2.
Proof.
  intros [I1 [a1 L1] [a2 L2] [a3 L3] [a4 L4]] [I2 [b1 K1] [b2 K2] [b3 K3] [b4 K4]].
  apply I2 in L1, L2, L3, L4. apply I1 in K1, K2, K3, K4.
  unfold point_in_rect in *. destruct e1, e2; simpl in *. f_equal; lia.
Qed.

(** Two regions in canonical form compare equal exactly when they have the same
    points. *)
Theorem region_equal_iff_same_points reg1 reg2 :
  region_ok reg1 -> region_ok reg2 -> canonical (rects reg1) -> canonical (rects reg2) ->
  is_region_equal reg1 reg2 = true <->
  forall x y, in_region reg1 x y = in_region reg2 x y.
Proof.
  intros K1 K2 C1 C2. unfold is_region_equal, num_rects. split.
  - destruct (Z.eqb_spec (Z.of_nat (length (rects reg1))) (Z.of_nat (length (rects reg2))))
      as [El |]; cbn [negb]; [| done].
    destruct (Z.eqb_spec (Z.of_nat (length (rects reg1))) 0) as [E0 |].
    + intros _ x y. unfold in_region.
      destruct (rects reg1), (rects reg2); simpl in *; try done; lia.
    + destruct (is_rect_equal _ _); cbn [negb]; [| done].
      intros H x y. apply rects_equal_eq in H; [| lia]. unfold in_region. by rewrite H.
  - intros Hp. assert (E : rects reg1 = rects reg2).
    { apply canonical_unique; try done; [apply K1 | apply K2]. }
    rewrite E, Z.eqb_refl. cbn [negb]. destruct (Z.eqb_spec (Z.of_nat (length (rects reg2))) 0); [done |].
    assert (Hx : is_rect_equal (extents reg1) (extents reg2) = true).
    { apply is_rect_equal_eq. destruct K1 as [_ _ X1], K2 as [_ _ X2]. rewrite E in X1.
      destruct (rects reg2); [by rewrite X1, X2 | by eapply tight_unique]. }
    rewrite Hx. cbn [negb]. by apply rects_equal_eq.
Qed.

(** ** The set operations *)

Section Theorems.
Context (alloc_ok : nat -> Z -> bool).

(** C9: intersection, subtraction, union and exclusive or compute the operation on
    point sets, into a destination that may be one of the sources.  The result is
    well-formed, and canonical when the sources are; no other region changes; an
    operation fails only because memory ran out, with that error. *)
Theorem region_operations_refine_sets dst src1 src2 w rd reg1 reg2 :
  addr_ok w -> heap w !! dst = Some rd -> size_ok rd ->
  heap w !! src1 = Some reg1 -> region_ok reg1 -> heap w !! src2 = Some reg2 -> region_ok reg2 ->
  let P1 := in_region reg1 in
  let P2 := in_region reg2 in
  let canon := canonical (rects reg1) /\ canonical (rects reg2) in
  outcome alloc_ok dst (fun x y => P1 x y && P2 x y) canon w
    (intersect_region alloc_ok dst src1 src2 w) /\
  outcome alloc_ok dst (fun x y => P1 x y && negb (P2 x y)) canon w
    (subtract_region alloc_ok dst src1 src2 w) /\
  outcome alloc_ok dst (fun x y => P1 x y || P2 x y) canon w
    (union_region alloc_ok dst src1 src2 w) /\
  outcome alloc_ok dst (fun x y => xorb (P1 x y) (P2 x y)) canon w
    (xor_region alloc_ok dst src1 src2 w).
Proof.
  intros Ha Hd Hs H1 K1 H2 K2. cbv zeta. split_and!.
  - by apply (intersect_region_set_op alloc_ok dst src1 src2 w rd).
  - by apply (subtract_region_set_op alloc_ok dst src1 src2 w rd).
  - by apply (union_region_set_op alloc_ok dst src1 src2 w rd).
  - by apply (xor_region_set_op alloc_ok dst src1 src2 w rd).
Qed.

(** ** Tests *)

Lemma point_in_rects_exact rs x y : valid rs -> point_in_rects rs x y = in_rects rs x y.
Proof.
  induction rs as [| p rs IH]; [done |]. intros Hv. pose proof Hv as (Hp & Hb & Hr)%valid_cons.
  specialize (IH Hr). cbn [point_in_rects].
  change (in_rects (p :: rs) x y) with (point_in_rect p x y || in_rects rs x y).
  destruct (Z.ltb_spec y (r_top p)).
  { symmetry. by apply (above_band p rs). }
  rewrite IH. unfold point_in_rect, nonempty in *.
  destruct (Z.leb_spec (r_bottom p) y); [lia |].
  destruct (Z.ltb_spec x (r_left p)).
  - rewrite (not_true_is_false (in_rects rs x y)); [lia |].
    intros (s & Hs & Hx)%in_rects_true. rewrite Forall_forall in Hb. specialize (Hb s Hs).
    unfold before, point_in_rect in *. lia.
  - destruct (Z.leb_spec (r_right p) x); lia.
Qed.

Lemma rect_in_rects_exact rs rect :
  valid rs -> is_rect_empty rect = false ->
  rect_in_rects rs rect = true <->
  exists x y, in_rects rs x y = true /\ point_in_rect rect x y = true.
Proof.
  intros Hv He. induction rs as [| p rs IH].
  { split; [done | by intros (x & y & Hin & _)]. }
  pose proof Hv as (Hp & Hb & Hr)%valid_cons. specialize (IH Hr). cbn [rect_in_rects].
  assert (Hc : (exists x y, in_rects (p :: rs) x y = true /\ point_in_rect rect x y = true) <->
    (exists x y, point_in_rect p x y = true /\ point_in_rect rect x y = true) \/
    (exists x y, in_rects rs x y = true /\ point_in_rect rect x y = true)).
  { clear. unfold in_rects. simpl. setoid_rewrite orb_true_iff. split.
    - intros (x & y & [H | H] & H'); [left | right]; by exists x, y.
    - intros [(x & y & H & H') | (x & y & H & H')]; exists x, y; auto. }
  rewrite Hc, <- IH. clear Hc IH. unfold is_rect_empty, nonempty in *.
  assert (Hpr : (exists x y, point_in_rect p x y = true /\ point_in_rect rect x y = true) <->
    r_top p < r_bottom rect /\ r_top rect < r_bottom p /\
    r_left p < r_right rect /\ r_left rect < r_right p).
  { unfold point_in_rect. split; [intros (x & y & H1 & H2); lia |]. intros H.
    exists (Z.max (r_left p) (r_left rect)), (Z.max (r_top p) (r_top rect)). lia. }
  rewrite Hpr. destruct (Z.leb_spec (r_bottom rect) (r_top p)) as [L | L].
  { split; [done |]. intros [? | Hin]; [lia |]. exfalso.
    assert (Hx : forall l, Forall (fun r => r_bottom rect <= r_top r) l -> rect_in_rects l rect = false).
    { intros [| q l] Hq; [done |]. inversion Hq; subst. simpl.
      by replace (r_bottom rect <=? r_top q) with true by lia. }
    rewrite Hx in Hin; [done |]. eapply Forall_impl; [exact Hb |].
    intros s. unfold before. lia. }
  destruct (Z.leb_spec (r_bottom p) (r_top rect)); [intuition lia |].
  destruct (Z.leb_spec (r_right rect) (r_left p)); [intuition lia |].
  destruct (Z.leb_spec (r_right p) (r_left rect)); [intuition lia |].
  intuition lia.
Qed.

(** On a well-formed region [point_in_region] answers membership, and
    [rect_in_region] answers for a rectangle that is not empty whether it shares a
    point with the region, although both stop at the first band or rectangle past
    the one looked for. *)
Theorem region_tests_exact reg :
  region_ok reg ->
  (forall x y, point_in_region reg x y = in_region reg x y) /\
  (forall rect, is_rect_empty rect = false ->
     rect_in_region reg rect = true <->
     exists x y, in_region reg x y = true /\ point_in_rect rect x y = true).
Proof.
  intros [_ Hv _]. split.
  - intros x y. by apply point_in_rects_exact.
  - intros rect He. by apply rect_in_rects_exact.
Qed.
End Theorems.

(** ** Examples *)

Definition demo_rect (l t r b : Z) : region :=
  mkRegion 2 [mkRect l t r b] (mkRect l t r b).

Lemma demo_rect_ok l t r b : l < r -> t < b -> region_ok (demo_rect l t r b).
Proof.
  intros Hl Ht. assert (Hv : valid [mkRect l t r b]).
  { apply valid_cons. unfold nonempty. simpl. split_and!; [lia | lia | constructor | apply valid_nil]. }
  split; [done | exact Hv |].
  split; unfold in_rects, point_in_rect; simpl.
  - intros x y. lia.
  - exists t. lia.
  - exists t. lia.
  - exists l. lia.
  - exists l. lia.
Qed.

Lemma demo_rect_canonical l t r b : l < r -> t < b -> canonical (rects (demo_rect l t r b)).
Proof.
  intros Hl Ht. apply (row_canonical t b); [by repeat constructor |].
  apply (ro_valid _ (demo_rect_ok l t r b Hl Ht)).
Qed.

(** Two overlapping squares. *)
Definition demo_world : world :=
  mkWorld (<[1 := demo_rect 0 0 10 10]> (<[2 := demo_rect 5 5 15 15]> ∅)) 3 (mkEnv 0 0).

Lemma demo_world_addr_ok : addr_ok demo_world.
Proof.
  split; [done |]. intros p [r Hp]. unfold demo_world in Hp. cbn [heap] in Hp.
  apply lookup_insert_Some in Hp as [[<- _] | [_ Hp]]; [done |].
  apply lookup_insert_Some in Hp as [[<- _] | [_ Hp]]; [done |]. by rewrite lookup_empty in Hp.
Qed.

Definition grant (n : nat) (bytes : Z) : bool := true.

Lemma region_operations_refine_sets_witness :
  exists reg, heap (xor_region grant 1 1 2 demo_world).2 !! 1 = Some reg /\
    in_region reg 12 12 = true /\ in_region reg 7 7 = false /\ canonical (rects reg).
Proof.
  destruct (region_operations_refine_sets grant 1 1 2 demo_world (demo_rect 0 0 10 10)
    (demo_rect 0 0 10 10) (demo_rect 5 5 15 15) demo_world_addr_ok eq_refl
    (ro_size _ (demo_rect_ok 0 0 10 10 eq_refl eq_refl)) eq_refl
    (demo_rect_ok 0 0 10 10 eq_refl eq_refl) eq_refl (demo_rect_ok 5 5 15 15 eq_refl eq_refl))
    as (_ & _ & _ & (_ & _ & [(_ & _ & reg & H1 & _ & H3 & H4) | (_ & _ & (n & b & Hf) & _)])).
  - exists reg. split; [exact H1 |]. split; [by rewrite H3 |]. split; [by rewrite H3 |].
    apply H4. split; by apply demo_rect_canonical.
  - discriminate Hf.
Defined.

Lemma region_equal_iff_same_points_witness :
  is_region_equal (demo_rect 0 0 10 10) (demo_rect 5 5 15 15) = true <->
  forall x y, in_region (demo_rect 0 0 10 10) x y = in_region (demo_rect 5 5 15 15) x y.
Proof.
  apply region_equal_iff_same_points; by first [apply demo_rect_ok | apply demo_rect_canonical].
Defined.

Lemma region_tests_exact_witness :
  point_in_region (demo_rect 0 0 10 10) 3 4 = in_region (demo_rect 0 0 10 10) 3 4.
Proof. apply (region_tests_exact (demo_rect 0 0 10 10)). by apply demo_rect_ok. Defined.
