(* ===== verification/RegionStore.v ===== *)
(** * The regions of the server over time

    Regions stay well-formed through any sequence of operations, except those that a
    failed operation or the like has spoiled; a region sent to a client and back is the same; mirroring and scaling are shown to
    break regions. *)

From stdpp Require Import base list sorting sets gmap.
From Stdlib Require Import ZArith Lia ZifyBool.
From S2P Require Import Prelude Region RegionBands RegionCoalesce RegionOp RegionProofs RegionTheorems.

Open Scope Z_scope.

(** ** Operations on one region *)

Lemma set_region_rect_ok rect reg : size_ok reg -> region_ok (set_region_rect rect reg).
Proof.
  intros [Hs _]. unfold set_region_rect. destruct (is_rect_empty rect) eqn:E; cbn [negb].
  - split; [| apply valid_nil | done]. unfold size_ok, num_rects. simpl. lia.
  - unfold is_rect_empty in E.
    assert (Hv : valid [rect]).
    { apply valid_cons. unfold nonempty. split_and!; [lia | lia | constructor | apply valid_nil]. }
    split; [unfold size_ok, num_rects; simpl; lia | exact Hv |].
    split; unfold in_rects, point_in_rect; simpl.
    + intros x y. lia.
    + exists (r_top rect). lia.
    + exists (r_top rect). lia.
    + exists (r_left rect). lia.
    + exists (r_left rect). lia.
Qed.

(** A rectangle moved without overflow. *)
Definition shift_rect (x y : Z) (r : rectangle) : rectangle :=
  mkRect (r_left r + x) (r_top r + y) (r_right r + x) (r_bottom r + y).

Definition fits (e : rectangle) : Prop :=
  -2 ^ 31 <= r_left e /\ r_right e < 2 ^ 31 /\ -2 ^ 31 <= r_top e /\ r_bottom e < 2 ^ 31.

Lemma i32_small x : -2 ^ 31 <= x < 2 ^ 31 -> i32 x = x.
Proof. intros H. apply swrap_small; [lia |]. exact H. Qed.

Lemma offset_rect_shift x y e r :
  fits (shift_rect x y e) -> r_left e <= r_left r < r_right r -> r_right r <= r_right e ->
  r_top e <= r_top r < r_bottom r -> r_bottom r <= r_bottom e ->
  offset_rect x y r = shift_rect x y r.
Proof.
  unfold fits, shift_rect, offset_rect. simpl. intros.
  rewrite !i32_small by lia. done.
Qed.

Lemma in_rects_shift x y rs px py :
  in_rects (map (shift_rect x y) rs) px py = in_rects rs (px - x) (py - y).
Proof.
  induction rs as [| r rs IH]; [done |]. unfold in_rects in *. simpl. rewrite IH.
  unfold point_in_rect, shift_rect. simpl. f_equal. lia.
Qed.

Lemma valid_shift x y rs : valid rs -> valid (map (shift_rect x y) rs).
Proof.
  induction rs as [| r rs IH]; intros Hv; [apply valid_nil |].
  apply valid_cons in Hv as (Hr & Hb & Hv). cbn [map]. apply valid_cons. split_and!.
  - unfold nonempty in *. simpl. lia.
  - rewrite Forall_map. eapply Forall_impl; [exact Hb |]. intros s. unfold before. simpl. lia.
  - by apply IH.
Qed.

Lemma tight_shift x y (P Q : Z -> Z -> bool) e :
  (forall px py, Q px py = P (px - x) (py - y)) -> tight P e -> tight Q (shift_rect x y e).
Proof.
  intros HQ [Hi [y1 H1] [y2 H2] [x1 H3] [x2 H4]]. split; cbn [shift_rect r_left r_right r_top r_bottom].
  - intros px py. rewrite HQ. intros H%Hi. unfold point_in_rect in *. simpl. lia.
  - exists (y1 + y). rewrite HQ, <- H1. f_equal; lia.
  - exists (y2 + y). rewrite HQ, <- H2. f_equal; lia.
  - exists (x1 + x). rewrite HQ, <- H3. f_equal; lia.
  - exists (x2 + x). rewrite HQ, <- H4. f_equal; lia.
Qed.

(** Inside the bounding box. *)
Lemma region_ok_inside reg r :
  region_ok reg -> r ∈ rects reg ->
  (r_left (extents reg) <= r_left r < r_right r /\ r_right r <= r_right (extents reg)) /\
  (r_top (extents reg) <= r_top r < r_bottom r /\ r_bottom r <= r_bottom (extents reg)).
Proof.
  intros Hok Hr. destruct (valid_corner (rects reg) r) as [H1 H2]; [apply Hok | done |].
  apply (in_region_extents reg _ _ Hok) in H1, H2.
  destruct Hok as [_ [Hn _] _]. rewrite Forall_forall in Hn. specialize (Hn r Hr).
  unfold nonempty, point_in_rect in *. lia.
Qed.

Lemma offset_region_ok x y reg :
  region_ok reg -> fits (shift_rect x y (extents reg)) ->
  region_ok (offset_region x y reg) /\
  forall px py, in_region (offset_region x y reg) px py = in_region reg (px - x) (py - y).
Proof.
  intros Hok Hf. unfold offset_region. destruct (num_rects reg =? 0) eqn:E0.
  { apply num_rects_zero in E0. split; [done |]. intros px py. unfold in_region. by rewrite E0. }
  apply num_rects_nonzero in E0.
  assert (Em : map (offset_rect x y) (rects reg) = map (shift_rect x y) (rects reg)).
  { apply map_ext_in. intros r Hr%list_elem_of_In.
    destruct (region_ok_inside reg r Hok Hr) as [[? ?] [? ?]].
    by apply (offset_rect_shift x y (extents reg)). }
  assert (Ee : offset_rect x y (extents reg) = shift_rect x y (extents reg)).
  { destruct (rects reg) as [| r l] eqn:Er; [done |].
    destruct (region_ok_inside reg r Hok) as [[? ?] [? ?]].
    { rewrite Er. apply elem_of_cons. by left. }
    apply (offset_rect_shift x y (extents reg)); (done || lia). }
  assert (Hp : forall px py, in_rects (map (shift_rect x y) (rects reg)) px py
                             = in_region reg (px - x) (py - y)) by apply in_rects_shift.
  rewrite Em, Ee. split; [| exact Hp].
  pose proof (region_ok_tight reg Hok E0) as Ht. destruct Hok as [Hs Hv _].
  split; cbn [rects extents rgn_size].
  - unfold size_ok, num_rects in *. simpl. by rewrite length_map.
  - by apply valid_shift.
  - unfold extents_ok. destruct (map (shift_rect x y) (rects reg)) as [| r l] eqn:Er.
    { by apply map_eq_nil in Er. }
    eapply tight_shift; [| exact Ht]. exact Hp.
Qed.

(** ** Creation from client data *)

(** The rectangles a client's data stand for. *)
Definition req_rects (data : list rectangle) (size : Z) : list rectangle :=
  match take (Z.to_nat (size / RECT_BYTES)) data with
  | [r] => if decide (r = empty_rect) then [] else [r]
  | rs => rs
  end.

Definition req_region (rs : list rectangle) : region :=
  let n := Z.max (Z.of_nat (length rs)) RGN_DEFAULT_RECTS in
  set_region_extents (mkRegion n rs empty_rect).

Lemma create_from_req_eq alloc_ok data size :
  create_region_from_req_data alloc_ok data size =
  if negb (validate_rectangles (req_rects data size)) then
    w_set_error STATUS_INVALID_PARAMETER ;;; mreturn NULL
  else alloc_region alloc_ok (Z.max (Z.of_nat (length (req_rects data size))) RGN_DEFAULT_RECTS)
         (req_region (req_rects data size)).
Proof.
  unfold create_region_from_req_data, req_rects.
  destruct (take _ _) as [| r [| r' l]]; [done | | done]. by destruct (decide _).
Qed.

Lemma req_region_ok rs :
  valid rs -> region_ok (req_region rs) /\ rects (req_region rs) = rs.
Proof.
  intros Hv. unfold req_region. set (reg := mkRegion _ rs empty_rect).
  destruct (set_region_extents_ok reg Hv) as (E1 & E2 & E3). cbv zeta in *.
  split; [| done]. split.
  - unfold size_ok, num_rects. rewrite E1, E2. unfold reg, RGN_DEFAULT_RECTS. simpl. lia.
  - by rewrite E1.
  - by rewrite E1.
Qed.

(** ** All regions *)

Definition world_ok (w : world) : Prop :=
  addr_ok w /\ forall p reg, heap w !! p = Some reg -> region_ok reg.

(** ** What an operation leaves of any regions at all

    Whatever its sources look like, an operation changes only its destination, and the
    array of the destination holds its rectangles. *)

Section Sizes.
Context (alloc_ok : nat -> Z -> bool).

Definition keeps_size (w w' : work) : Prop := size_ok (w_reg w) -> size_ok (w_reg w').

#[local] Instance keeps_size_preorder : PreOrder keeps_size.
Proof. split; [intros w H; exact H | intros a b c H1 H2 H; exact (H2 (H1 H))]. Qed.

Lemma z_malloc bytes : keeps keeps_size (malloc alloc_ok bytes).
Proof. intros w H. exact H. Qed.
Lemma z_env f : keeps keeps_size (mmodify (upd_env f)).
Proof. intros w H. exact H. Qed.
Lemma z_and (m k : M work bool) : keeps keeps_size m -> keeps keeps_size k -> keeps keeps_size (m &?& k).
Proof. intros Hm Hk. unfold mand. apply keeps_bind; [apply _ | done |]. intros []; [done | apply keeps_return; apply _]. Qed.
Hint Resolve z_malloc z_env z_and : c_db.

Lemma z_add_rect r : keeps keeps_size (add_rect alloc_ok r).
Proof.
  intros w Hs. unfold add_rect. rewrite bind_run. cbn [mgets fst snd].
  destruct Hs as [H2 Hn]. destruct (Z.leb_spec (rgn_size (w_reg w)) (num_rects (w_reg w))) as [L | L].
  - rewrite bind_run. unfold malloc, try_alloc. cbn [fst snd w_reg]. destruct (alloc_ok _ _); cbn.
    + apply (size_ok_push (mkRegion (rgn_size (w_reg w) * 2) (rects (w_reg w)) (extents (w_reg w))));
        unfold num_rects in *; cbn; lia.
    + done.
  - cbn. by apply size_ok_push.
Qed.
Hint Resolve z_add_rect : c_db.

Lemma z_intersect t b r1 r2 : keeps keeps_size (intersect_overlapping alloc_ok t b r1 r2).
Proof.
  revert r2. induction r1 as [| a r1 IH1]; intros r2; [destruct r2; apply keeps_return; apply _ |].
  induction r2 as [| c r2 IH2]; [apply keeps_return; apply _ |]. cbn [intersect_overlapping].
  apply z_and; [keeps_auto |]. fold (intersect_overlapping alloc_ok t b) in *. keeps_auto.
Qed.

Lemma z_copy_band t b r : keeps keeps_size (copy_band alloc_ok t b r).
Proof. induction r as [| a r IH]; cbn [copy_band]; [apply keeps_return; apply _ | apply z_and; eauto with c_db]. Qed.

Lemma z_subtract_rest t b r left : keeps keeps_size (subtract_rest alloc_ok t b r left).
Proof. revert left. induction r as [| a r IH]; intros left; cbn [subtract_rest]; [apply keeps_return; apply _ | apply z_and; eauto with c_db]. Qed.
Hint Resolve z_copy_band z_subtract_rest : c_db.

Lemma z_subtract t b r1 r2 left : keeps keeps_size (subtract_loop alloc_ok t b r1 r2 left).
Proof.
  revert r2 left. induction r1 as [| a r1 IH1]; intros r2 left; [destruct r2; apply z_subtract_rest |].
  revert left. induction r2 as [| c r2 IH2]; intros left; [apply z_subtract_rest |].
  cbn [subtract_loop]. fold (subtract_loop alloc_ok t b) in *. cbv zeta. keeps_auto; apply z_and; keeps_auto.
Qed.

Lemma z_merge_rect t b r : keeps keeps_size (merge_rect alloc_ok t b r).
Proof.
  intros w. unfold merge_rect. rewrite bind_run. cbn [mgets fst snd].
  destruct (last (rects (w_reg w))) as [q |] eqn:El; [| apply z_add_rect].
  destruct (_ && _); [| apply z_add_rect]. rewrite bind_run. destruct (_ <? _); [| done]. intros Hs.
  cbn. apply size_ok_shorter; [done |]. apply last_Some in El as [l' E]. rewrite E, removelast_last, !length_app. done.
Qed.
Hint Resolve z_merge_rect : c_db.

Lemma z_merge_rects t b r : keeps keeps_size (merge_rects alloc_ok t b r).
Proof. induction r as [| a r IH]; cbn [merge_rects]; [apply keeps_return; apply _ | apply z_and; eauto with c_db]. Qed.

Lemma z_union t b r1 r2 : keeps keeps_size (union_overlapping alloc_ok t b r1 r2).
Proof.
  revert r2. induction r1 as [| a r1 IH1]; intros r2; [destruct r2; apply z_merge_rects |].
  induction r2 as [| c r2 IH2]; [apply z_merge_rects |]. cbn [union_overlapping].
  fold (union_overlapping alloc_ok t b) in *. destruct (_ <? _); apply z_and; eauto with c_db.
Qed.

Lemma coalesce_length rs k c : (length (coalesce_region rs k c).1 <= length rs)%nat.
Proof.
  unfold coalesce_region. destruct (drop c rs) as [| q l] eqn:Ed; [done |].
  destruct (take _ (drop k rs)) as [| q' l'] eqn:Et; [done |]. destruct (_ && _) eqn:Ec; [| done].
  rewrite !andb_true_iff, Nat.eqb_eq in Ec. destruct Ec as [[[Ec _] _] _].
  set (n := band_length (r_top q) (q :: l)) in *. clearbody n. pose proof (f_equal length Ed) as Hlen.
  rewrite length_drop in Hlen. simpl in Hlen. cbn [fst]. rewrite !length_app, length_zip_with, length_take, length_drop.
  assert (Hp : (length (q' :: l') <= c - k)%nat) by (rewrite <- Et, length_take; lia). cbn [length] in *. lia.
Qed.

Lemma z_coalesce k c : keeps keeps_size (coalesce_new k c).
Proof.
  intros w. unfold coalesce_new. rewrite bind_run. cbn [mgets fst snd]. destruct (_ =? _)%nat; [done |].
  intros Hs. cbn. apply size_ok_shorter; [done | apply coalesce_length].
Qed.
Hint Resolve z_coalesce : c_db.

(** The functions on bands that operations use. *)
Definition sized_ops (ops : band_ops) : Prop :=
  (forall t b r1 r2, keeps keeps_size (overlap_func ops t b r1 r2)) /\
  (forall f t b r, non_overlap1_func ops = Some f -> keeps keeps_size (f t b r)) /\
  (forall f t b r, non_overlap2_func ops = Some f -> keeps keeps_size (f t b r)).

Lemma intersect_sized : sized_ops (intersect_ops alloc_ok).
Proof. split; [apply z_intersect | done]. Qed.
Lemma subtract_sized : sized_ops (subtract_ops alloc_ok).
Proof. split; [intros; apply z_subtract |]. split; [intros f t b r [= <-]; apply z_copy_band | done]. Qed.
Lemma union_sized : sized_ops (union_ops alloc_ok).
Proof. split; [apply z_union |]. split; intros f t b r [= <-]; apply z_copy_band. Qed.

Lemma z_opt_bind {A} (m : M work bool) (k : M work (option A)) :
  keeps keeps_size m -> keeps keeps_size k -> keeps keeps_size (opt_bind m k).
Proof. intros Hm Hk. unfold opt_bind. apply keeps_bind; [apply _ | done |]. intros []; [done | apply keeps_return; apply _]. Qed.

Lemma z_round ops a b st : sized_ops ops -> keeps keeps_size (region_op_round ops a b st).
Proof.
  intros (Ho & H1 & H2). unfold region_op_round, cur_band, call_non_overlap. cbv zeta.
  apply keeps_bind; [apply _ | apply keeps_gets; apply _ |]. intros n. apply z_opt_bind; [keeps_auto; eauto |].
  apply keeps_bind; [apply _ | eauto with c_db |]. intros k. apply keeps_bind; [apply _ | apply keeps_gets; apply _ |].
  intros m. apply z_opt_bind; keeps_auto.
Qed.

Lemma z_loop ops fuel st : sized_ops ops -> keeps keeps_size (region_op_loop fuel ops st).
Proof.
  intros H. revert st. induction fuel as [| fuel IH]; intros st; cbn [region_op_loop];
    destruct (o_r1 st) as [| a l], (o_r2 st) as [| b l']; try (apply keeps_return; apply _).
  apply keeps_bind; [apply _ | by apply z_round |]. intros [st' |]; [apply IH | apply keeps_return; apply _].
Qed.

Lemma z_rest fuel f y r : (forall t b r, keeps keeps_size (f t b r)) -> keeps keeps_size (region_op_rest fuel f y r).
Proof.
  intros H. revert r. induction fuel as [| fuel IH]; intros [| a r]; cbn [region_op_rest]; try (apply keeps_return; apply _).
  apply z_and; eauto.
Qed.

Lemma z_tail ops st : sized_ops ops -> keeps keeps_size (region_op_tail ops st).
Proof.
  intros (_ & H1 & H2). unfold region_op_tail. keeps_auto; apply z_rest; eauto.
Qed.

Lemma z_shrink : keeps keeps_size (region_op_shrink alloc_ok).
Proof. intros w Hs. destruct (region_op_shrink_ok alloc_ok w Hs) as (H & _). exact H. Qed.

Lemma region_op_work_size reg1 reg2 ops w :
  sized_ops ops -> 0 < num_rects reg1 -> size_ok (w_reg w) ->
  size_ok (w_reg (region_op_work alloc_ok reg1 reg2 ops w).2).
Proof.
  intros Hops H1 Hs. unfold region_op_work. rewrite mand_run, mem_alloc_run. cbn [fst snd].
  destruct (alloc_ok _ _); cbn [fst snd]; [| done]. rewrite bind_run. cbn [mmodify fst snd].
  match goal with |- size_ok (w_reg (?m ?w0).2) =>
    enough (keeps keeps_size m) as K; [apply K; unfold size_ok, num_rects in *; cbn; lia |] end.
  apply keeps_bind; [apply _ | by apply z_loop |]. intros [st |]; [| apply keeps_return; apply _].
  apply keeps_bind; [apply _ | apply keeps_gets; apply _ |]. intros n.
  apply z_and; [by apply z_tail |]. repeat (apply keeps_bind; [apply _ | eauto using z_shrink with c_db |]; intros ?).
  apply keeps_return; apply _.
Qed.

(** Only [dst] has changed, and its array holds its rectangles. *)
Definition framed (dst : ptr) (w w' : world) : Prop :=
  next_addr w <= next_addr w' /\ (forall q, q <> dst -> heap w' !! q = heap w !! q) /\
  exists reg, heap w' !! dst = Some reg /\ size_ok reg.

Lemma framed_trans dst a b c : framed dst a b -> framed dst b c -> framed dst a c.
Proof.
  intros (L1 & Q1 & _) (L2 & Q2 & H). split; [lia |]. split; [| done]. intros q Hq. by rewrite Q2, Q1.
Qed.

Lemma copy_framed dst src w rd rs :
  heap w !! dst = Some rd -> size_ok rd -> heap w !! src = Some rs ->
  framed dst w (copy_region alloc_ok dst src w).2.
Proof.
  intros Hd Hs Hr. unfold copy_region. destruct (Z.eqb_spec dst src) as [<- | Hne].
  { split; [cbn; lia |]. split; [done |]. eauto. }
  rewrite bind_run, (load_some _ _ _ Hr). cbn [fst snd]. rewrite bind_run, (on_region_run _ _ _ _ Hd). cbn [fst snd].
  split; [cbn; lia |]. cbn [mreturn heap snd]. split; [intros q Hq; by rewrite lookup_insert_ne |].
  rewrite lookup_insert_eq. eexists. split; [done |]. rewrite bind_run. cbn [mgets fst snd w_reg]. rewrite mand_run.
  destruct (Z.ltb_spec (rgn_size rd) (num_rects rs)) as [L | L].
  - rewrite bind_run. unfold malloc, try_alloc. cbn [fst snd w_reg w_env].
    destruct (alloc_ok _ _); cbn; [| done]. destruct Hs. unfold size_ok, num_rects in *. cbn. lia.
  - cbn. destruct Hs. unfold size_ok, num_rects in *. cbn. lia.
Qed.

Lemma op_framed dst src1 src2 w rd r1 r2 ops fx :
  sized_ops ops -> (forall reg, size_ok reg -> size_ok (fx reg)) ->
  heap w !! dst = Some rd -> size_ok rd -> heap w !! src1 = Some r1 -> heap w !! src2 = Some r2 ->
  0 < num_rects r1 -> framed dst w (op_then_extents alloc_ok dst src1 src2 ops fx w).2.
Proof.
  intros Hops Hfx Hd Hs H1 H2 N1. unfold op_then_extents, region_op.
  rewrite !bind_run, (load_some _ _ _ H1). cbn [fst snd]. rewrite ?bind_run, (load_some _ _ _ H2). cbn [fst snd].
  rewrite (on_region_run _ _ _ _ Hd). cbn [fst snd].
  pose proof (region_op_work_size r1 r2 ops (mkWork rd (genv w)) Hops N1 Hs) as Hz.
  destruct (region_op_work _ _ _ _ _) as [[] w']; cbn [fst snd negb] in *.
  - rewrite bind_run. rewrite (load_some dst _ (w_reg w')) by (cbn; apply lookup_insert_eq). rewrite bind_run.
    split; [cbn; lia |]. cbn [store mmodify mreturn heap snd]. split; [intros q Hq; by rewrite !lookup_insert_ne |].
    rewrite lookup_insert_eq. eauto.
  - split; [cbn; lia |]. cbn [mreturn heap snd]. split; [intros q Hq; by rewrite lookup_insert_ne |].
    rewrite lookup_insert_eq. eauto.
Qed.

Lemma extents_size reg : size_ok reg -> size_ok (set_region_extents reg).
Proof. intros H. unfold set_region_extents. by repeat case_match. Qed.

Lemma num_pos reg : num_rects reg =? 0 = false -> 0 < num_rects reg.
Proof. unfold num_rects. lia. Qed.

Lemma intersect_framed dst src1 src2 w rd r1 r2 :
  heap w !! dst = Some rd -> size_ok rd -> heap w !! src1 = Some r1 -> heap w !! src2 = Some r2 ->
  framed dst w (intersect_region alloc_ok dst src1 src2 w).2.
Proof.
  intros Hd Hs H1 H2. unfold intersect_region. rewrite bind_run, (load_some _ _ _ H1). cbn [fst snd].
  rewrite bind_run, (load_some _ _ _ H2). cbn [fst snd]. destruct (no_overlap r1 r2) eqn:En.
  - rewrite bind_run, (load_some _ _ _ Hd), bind_run. split; [cbn; lia |]. cbn [store mmodify mreturn heap snd].
    split; [intros q Hq; by rewrite lookup_insert_ne |]. rewrite lookup_insert_eq. eexists. split; [done |].
    destruct Hs. unfold size_ok, num_rects in *. cbn. lia.
  - unfold no_overlap in En. rewrite !orb_false_iff in En. destruct En as [[E1 _] _].
    eapply op_framed; eauto using intersect_sized, extents_size, num_pos.
Qed.

Lemma subtract_framed dst src1 src2 w rd r1 r2 :
  heap w !! dst = Some rd -> size_ok rd -> heap w !! src1 = Some r1 -> heap w !! src2 = Some r2 ->
  framed dst w (subtract_region alloc_ok dst src1 src2 w).2.
Proof.
  intros Hd Hs H1 H2. unfold subtract_region. rewrite bind_run, (load_some _ _ _ H1). cbn [fst snd].
  rewrite bind_run, (load_some _ _ _ H2). cbn [fst snd]. destruct (no_overlap r1 r2) eqn:En; [by eapply copy_framed |].
  unfold no_overlap in En. rewrite !orb_false_iff in En. destruct En as [[E1 _] _].
  eapply op_framed; eauto using subtract_sized, extents_size, num_pos.
Qed.

Lemma union_framed dst src1 src2 w rd r1 r2 :
  heap w !! dst = Some rd -> size_ok rd -> heap w !! src1 = Some r1 -> heap w !! src2 = Some r2 ->
  framed dst w (union_region alloc_ok dst src1 src2 w).2.
Proof.
  intros Hd Hs H1 H2. unfold union_region. rewrite bind_run, (load_some _ _ _ H1). cbn [fst snd].
  rewrite bind_run, (load_some _ _ _ H2). cbn [fst snd]. destruct (src1 =? src2); [by eapply copy_framed |].
  destruct (num_rects r1 =? 0) eqn:E1; [by eapply copy_framed |].
  destruct (num_rects r2 =? 0); [by eapply copy_framed |].
  destruct (rect_covers r1 r2); [by eapply copy_framed |].
  destruct (rect_covers r2 r1); [by eapply copy_framed |].
  eapply op_framed; eauto using union_sized, num_pos.
Qed.

Lemma framed_other dst w w' p r : framed dst w w' -> p <> dst -> heap w !! p = Some r -> heap w' !! p = Some r.
Proof. intros (_ & Q & _) Hp H. by rewrite Q. Qed.

(** A source after a step that changed only the destination. *)
Lemma framed_some dst w w' p : framed dst w w' -> is_Some (heap w !! p) -> is_Some (heap w' !! p).
Proof.
  intros (_ & Q & reg & Hd & _) Hp. destruct (Z.eq_dec p dst) as [-> |]; [by eexists |]. by rewrite Q.
Qed.

Lemma xor_framed dst src1 src2 w rd r1 r2 :
  addr_ok w -> heap w !! dst = Some rd -> size_ok rd -> heap w !! src1 = Some r1 -> heap w !! src2 = Some r2 ->
  framed dst w (xor_region alloc_ok dst src1 src2 w).2.
Proof.
  intros Ha Hd Hs H1 H2. unfold xor_region. rewrite bind_run. unfold create_empty_region.
  destruct (addr_ok_in _ _ _ Ha Hd) as [Nd _], (addr_ok_in _ _ _ Ha H1) as [N1 _], (addr_ok_in _ _ _ Ha H2) as [N2 _].
  pose proof Ha as [Hpos Hlt].
  destruct (alloc_region_run alloc_ok RGN_DEFAULT_RECTS (mkRegion RGN_DEFAULT_RECTS [] empty_rect) w)
    as [(E & Eh & En & _) | (E & En & _ & Eh)]; rewrite E.
  { split; [cbn; lia |]. cbn. rewrite Eh. split; [done |]. eauto. }
  set (t := next_addr w) in *. set (w1 := (alloc_region _ _ _ w).2) in *.
  assert (Hother : forall q, q <> t -> heap w1 !! q = heap w !! q) by (intros q Hq; by rewrite Eh, lookup_insert_ne).
  replace (t =? NULL) with false by lia. rewrite bind_run.
  assert (F1 : framed t w1 (subtract_region alloc_ok t src1 src2 w1).2).
  { eapply subtract_framed; [rewrite Eh; apply lookup_insert_eq | apply empty_region_ok | by rewrite Hother | by rewrite Hother]. }
  set (s1 := subtract_region alloc_ok t src1 src2 w1) in *.
  assert (G1 : forall q r, q <> t -> heap w !! q = Some r -> heap s1.2 !! q = Some r).
  { intros q r Hq H. apply (framed_other t w1); [done | done |]. by rewrite Hother. }
  match goal with |- framed _ _ (mbind' ?m _ _).2 =>
    set (m0 := m); enough (Hm : framed dst s1.2 (m0 s1.2).2) end.
  - clearbody m0. rewrite !bind_run. destruct Hm as (L & Q & reg & Hreg & Hz), F1 as (L1 & Q1 & _). split; [cbn in *; lia |]. cbn [free_region mmodify mreturn heap snd].
    split.
    + intros q Hq. destruct (Z.eq_dec q t) as [-> | Hqt].
      * rewrite lookup_delete_eq. symmetry. apply eq_None_not_Some. intros Hs'. specialize (Hlt t Hs'). lia.
      * by rewrite lookup_delete_ne, Q, Q1, Hother.
    + rewrite lookup_delete_ne by done. eauto.
  - assert (Hid : framed dst s1.2 s1.2) by (split; [lia |]; split; [done |]; eauto).
    unfold m0. destruct (s1.1 =? NULL); [exact Hid |]. rewrite bind_run.
    assert (F2 : framed dst s1.2 (subtract_region alloc_ok dst src2 src1 s1.2).2) by (eapply subtract_framed; eauto).
    set (s2 := subtract_region alloc_ok dst src2 src1 s1.2) in *. destruct (s2.1 =? NULL); [exact F2 |]. rewrite bind_run.
    pose proof F2 as (_ & _ & reg & Hreg & Hz).
    destruct (framed_some dst _ _ t F2) as [rt Hrt]; [by destruct F1 as (_ & _ & rt & Hrt & _); eexists |].
    eapply framed_trans; [exact F2 |]. cbn [mreturn snd]. eapply union_framed; eauto.
Qed.
End Sizes.

Section Store.
Context (alloc_ok : nat -> Z -> bool).

(** The operations with a destination, by name. *)
Inductive set_operation : Type := OpIntersect | OpSubtract | OpUnion | OpXor.

Definition run_operation (o : set_operation) : ptr -> ptr -> ptr -> M world ptr :=
  match o with
  | OpIntersect => intersect_region alloc_ok
  | OpSubtract => subtract_region alloc_ok
  | OpUnion => union_region alloc_ok
  | OpXor => xor_region alloc_ok
  end.

(** The regions of the server, and which of them are spoiled: an operation into them
    failed, an offset left the range of coordinates, they were mirrored or scaled, or
    they were computed from a spoiled region. *)
Record regions := mkRegions { rg_world : world; rg_spoiled : gset Z }.

(** The destination of an operation that returned [r] and had these sources. *)
Definition after_op (r dst : ptr) (srcs : list ptr) (t : gset Z) : gset Z :=
  if decide (r = NULL \/ Exists (fun p => p ∈ t) srcs) then {[dst]} ∪ t else t ∖ {[dst]}.

(** What the rest of the server does with regions. *)
Inductive region_step : regions -> regions -> Prop :=
  | step_create w t : region_step (mkRegions w t) (mkRegions (create_empty_region alloc_ok w).2 t)
  | step_from_data w t data size :
      region_step (mkRegions w t) (mkRegions (create_region_from_req_data alloc_ok data size w).2 t)
  | step_free w t p : region_step (mkRegions w t) (mkRegions (free_region p w).2 (t ∖ {[p]}))
  | step_get_data w t reg max_size :
      region_step (mkRegions w t) (mkRegions (get_region_data alloc_ok reg max_size w).2 t)
  | step_data_and_free w t p max_size :
      region_step (mkRegions w t)
        (mkRegions (get_region_data_and_free alloc_ok p max_size w).2 (t ∖ {[p]}))
  | step_set_rect w t p reg rect :
      heap w !! p = Some reg ->
      region_step (mkRegions w t) (mkRegions (store p (set_region_rect rect reg) w).2 (t ∖ {[p]}))
  | step_offset w t p reg x y :
      heap w !! p = Some reg -> fits (shift_rect x y (extents reg)) ->
      region_step (mkRegions w t) (mkRegions (store p (offset_region x y reg) w).2 t)
  | step_offset_out w t p reg x y :
      heap w !! p = Some reg ->
      region_step (mkRegions w t) (mkRegions (store p (offset_region x y reg) w).2 ({[p]} ∪ t))
  | step_mirror w t p reg rect :
      heap w !! p = Some reg ->
      region_step (mkRegions w t) (mkRegions (store p (mirror_region rect reg) w).2 ({[p]} ∪ t))
  | step_scale w t p reg from to :
      heap w !! p = Some reg ->
      region_step (mkRegions w t) (mkRegions (store p (scale_region from to reg) w).2 ({[p]} ∪ t))
  | step_copy w t dst src :
      is_Some (heap w !! dst) -> is_Some (heap w !! src) ->
      let r := copy_region alloc_ok dst src w in
      region_step (mkRegions w t) (mkRegions r.2 (after_op r.1 dst [src] t))
  | step_operation w t o dst src1 src2 :
      is_Some (heap w !! dst) -> is_Some (heap w !! src1) -> is_Some (heap w !! src2) ->
      let r := run_operation o dst src1 src2 w in
      region_step (mkRegions w t) (mkRegions r.2 (after_op r.1 dst [src1; src2] t)).

Definition start_world (e : env) : world := mkWorld ∅ 1 e.

(** Every array holds its rectangles, and what is not spoiled is well-formed. *)
Record regions_ok (s : regions) : Prop := mkRegionsOk {
  go_addr : addr_ok (rg_world s);
  go_spoiled p : p ∈ rg_spoiled s -> is_Some (heap (rg_world s) !! p);
  go_size p reg : heap (rg_world s) !! p = Some reg -> size_ok reg;
  go_ok p reg : heap (rg_world s) !! p = Some reg -> p ∉ rg_spoiled s -> region_ok reg
}.

(** One region is written, and spoiled or made well-formed. *)
Lemma regions_ok_write w t w' t' p reg :
  regions_ok (mkRegions w t) -> next_addr w <= next_addr w' -> is_Some (heap w !! p) ->
  (forall q, q <> p -> heap w' !! q = heap w !! q) -> heap w' !! p = Some reg -> size_ok reg ->
  (forall q, q <> p -> q ∈ t' <-> q ∈ t) -> (p ∉ t' -> region_ok reg) ->
  regions_ok (mkRegions w' t').
Proof.
  intros [[Hn Ha] Hsp Hsz Hok] Hle Hp Hq Hreg Hs Ht Hr. cbn in *. split; cbn.
  - split; [lia |]. intros q Hin. destruct (Z.eq_dec q p) as [-> | Hne].
    + specialize (Ha p Hp). lia.
    + rewrite Hq in Hin by done. specialize (Ha q Hin). lia.
  - intros q Hin. destruct (Z.eq_dec q p) as [-> | Hne]; [by eexists |]. rewrite Hq by done. by apply Hsp, Ht.
  - intros q r Hin. destruct (Z.eq_dec q p) as [-> | Hne]; [by simplify_eq |]. rewrite Hq in Hin by done. by eapply Hsz.
  - intros q r Hin Hnot. destruct (Z.eq_dec q p) as [-> | Hne]; [simplify_eq; auto |].
    rewrite Hq in Hin by done. eapply Hok; [done |]. by rewrite <- Ht.
Qed.

Lemma regions_ok_store w t t' p reg reg' :
  regions_ok (mkRegions w t) -> heap w !! p = Some reg -> size_ok reg' ->
  (forall q, q <> p -> q ∈ t' <-> q ∈ t) -> (p ∉ t' -> region_ok reg') ->
  regions_ok (mkRegions (store p reg' w).2 t').
Proof.
  intros Hok Hp Hs Ht Hr. apply (regions_ok_write w t _ _ p reg'); cbn; try done; [| by rewrite lookup_insert_eq].
  intros q Hq. by rewrite lookup_insert_ne.
Qed.

Lemma regions_ok_same w w' t :
  heap w' = heap w -> next_addr w' = next_addr w -> regions_ok (mkRegions w t) -> regions_ok (mkRegions w' t).
Proof. intros E1 E2 [Ha Hsp Hsz Hok]. split; cbn in *; unfold addr_ok in *; rewrite ?E1, ?E2; done. Qed.

Lemma regions_ok_alloc w t n reg :
  regions_ok (mkRegions w t) -> region_ok reg -> regions_ok (mkRegions (alloc_region alloc_ok n reg w).2 t).
Proof.
  intros Hall Hok. pose proof Hall as [Ha Hsp Hsz Hr]. cbn in *.
  destruct (alloc_region_run alloc_ok n reg w) as [(_ & Eh & En & _) | (_ & En & _ & Eh)]; [by apply (regions_ok_same w) |].
  split; cbn; rewrite ?Eh.
  - by eapply addr_ok_new.
  - intros p Hp. apply lookup_insert_is_Some. destruct (Z.eq_dec (next_addr w) p); [by left |]. right. auto.
  - intros p r Hp. apply lookup_insert_Some in Hp as [[_ <-] | [_ Hp]]; [by destruct Hok | by eapply Hsz].
  - intros p r Hp Hnot. apply lookup_insert_Some in Hp as [[_ <-] | [_ Hp]]; [done | by eapply Hr].
Qed.

Lemma regions_ok_free w t p : regions_ok (mkRegions w t) -> regions_ok (mkRegions (free_region p w).2 (t ∖ {[p]})).
Proof.
  intros [[Hn Ha] Hsp Hsz Hok]. cbn in *. split; cbn.
  - split; [done |]. cbn. intros q [r Hq]. apply lookup_delete_Some in Hq as [_ Hq]. apply Ha. by eexists.
  - intros q [Hq Hne]%elem_of_difference. rewrite lookup_delete_ne by set_solver. auto.
  - intros q r [_ Hq]%lookup_delete_Some. by eapply Hsz.
  - intros q r [Hne Hq]%lookup_delete_Some Hnot. eapply Hok; [done | set_solver].
Qed.

Lemma get_region_data_heap reg max_size w :
  heap (get_region_data alloc_ok reg max_size w).2 = heap w /\
  next_addr (get_region_data alloc_ok reg max_size w).2 = next_addr w.
Proof. unfold get_region_data. by destruct (_ <=? max_size). Qed.

Lemma get_and_free_heap p max_size w :
  exists w', heap w' = heap w /\ next_addr w' = next_addr w /\
    heap (get_region_data_and_free alloc_ok p max_size w).2 = heap (free_region p w').2 /\
    next_addr (get_region_data_and_free alloc_ok p max_size w).2 = next_addr w'.
Proof.
  exists w. unfold get_region_data_and_free. rewrite bind_run. cbn [load mgets fst snd].
  destruct (_ =? 0); [destruct (RECT_BYTES <=? max_size) |]; destruct (max_size <? _); done.
Qed.

(** An operation that may have failed or had spoiled sources. *)
Lemma regions_ok_op w t dst srcs (r : ptr * world) :
  regions_ok (mkRegions w t) -> is_Some (heap w !! dst) -> framed dst w r.2 ->
  (Forall (fun p => p ∉ t) srcs -> exists P c, outcome alloc_ok dst P c w r) ->
  regions_ok (mkRegions r.2 (after_op r.1 dst srcs t)).
Proof.
  intros Hok Hd (L & Q & reg & Hreg & Hs) Ho. eapply (regions_ok_write w t _ _ dst reg); try done.
  - intros q Hq. unfold after_op. destruct (decide _); set_solver.
  - intros Hnot. unfold after_op in Hnot. destruct (decide _) as [| Hgood]; [set_solver |].
    assert (Hr : r.1 <> NULL) by tauto. assert (Hsrc : Forall (fun p => p ∉ t) srcs) by (apply Forall_Exists_neg; tauto).
    destruct (Ho Hsrc) as (P & c & _ & _ & [(_ & _ & reg' & Hreg' & Hok' & _) | (E & _)]); [| done].
    by simplify_eq.
Qed.

Lemma operation_framed o dst src1 src2 w t :
  regions_ok (mkRegions w t) -> is_Some (heap w !! dst) -> is_Some (heap w !! src1) -> is_Some (heap w !! src2) ->
  framed dst w (run_operation o dst src1 src2 w).2.
Proof.
  intros [Ha _ Hsz _] [rd Hd] [r1 H1] [r2 H2]. cbn in *. pose proof (Hsz _ _ Hd).
  destruct o; cbn [run_operation];
    [eapply intersect_framed | eapply subtract_framed | eapply union_framed | eapply xor_framed]; eauto.
Qed.

Lemma operation_outcome o dst src1 src2 w t :
  regions_ok (mkRegions w t) -> is_Some (heap w !! dst) -> is_Some (heap w !! src1) -> is_Some (heap w !! src2) ->
  Forall (fun p => p ∉ t) [src1; src2] -> exists P c, outcome alloc_ok dst P c w (run_operation o dst src1 src2 w).
Proof.
  intros [Ha _ Hsz Hok] [rd Hd] [r1 H1] [r2 H2] (N1 & (N2 & _)%Forall_cons)%Forall_cons. cbn in *.
  pose proof (Hsz _ _ Hd). pose proof (Hok _ _ H1 N1). pose proof (Hok _ _ H2 N2).
  destruct o; cbn [run_operation]; eexists _, _; by eapply (set_op alloc_ok).
Qed.

Lemma offset_size x y reg : size_ok reg -> size_ok (offset_region x y reg).
Proof. unfold offset_region. case_match; [done |]. unfold size_ok, num_rects. simpl. by rewrite length_map. Qed.
Lemma scale_size f t reg : size_ok reg -> size_ok (scale_region f t reg).
Proof. unfold scale_region. case_match; [done |]. unfold size_ok, num_rects. simpl. by rewrite length_map. Qed.

Lemma mirrored_band_length fuel rect i j rs : length (mirror_band fuel rect i j rs) = length rs.
Proof.
  revert i j rs. induction fuel as [| fuel IH]; intros i j rs; cbn [mirror_band]; case_match; try done.
  - case_match; [apply length_alter | done].
  - case_match; [| done]. by rewrite IH, !length_alter, !length_insert.
  - case_match; [apply length_alter | done].
Qed.

Lemma mirror_bands_length fuel rect k rs : length (mirror_bands fuel rect k rs) = length rs.
Proof.
  revert k rs. induction fuel as [| fuel IH]; intros k rs; cbn [mirror_bands]; [done |]. case_match; [| done].
  by rewrite IH, mirrored_band_length.
Qed.

Lemma mirror_size rect reg : size_ok reg -> size_ok (mirror_region rect reg).
Proof. unfold size_ok, num_rects. simpl. by rewrite mirror_bands_length. Qed.

Lemma region_step_ok s s' : regions_ok s -> region_step s s' -> regions_ok s'.
Proof.
  intros Hok Hs. destruct Hs as [w t | w t data size | w t p | w t reg max | w t p max | w t p reg rect Hp | w t p reg x y Hp Hf
      | w t p reg x y Hp | w t p reg rect Hp | w t p reg from to Hp | w t dst src [rd Hd] [rs Hs] r | w t o dst src1 src2 Hd H1 H2 r];
    pose proof Hok as [Ha Hsp Hsz Hr]; cbn in *; try pose proof (Hsz _ _ Hp) as Hz.
  - apply regions_ok_alloc; [done | apply empty_region_ok].
  - rewrite create_from_req_eq. destruct (validate_rectangles _) eqn:E; cbn [negb].
    + apply validate_valid in E. apply regions_ok_alloc; [done | by apply req_region_ok].
    + by apply (regions_ok_same w).
  - by apply regions_ok_free.
  - destruct (get_region_data_heap reg max w). by apply (regions_ok_same w).
  - destruct (get_and_free_heap p max w) as (w' & E1 & E2 & E3 & E4).
    apply (regions_ok_same (free_region p w').2); [done | done |].
    apply regions_ok_free. by apply (regions_ok_same w).
  - pose proof (set_region_rect_ok rect reg Hz) as Hk. eapply (regions_ok_store w t); try done; [by destruct Hk | set_solver].
  - eapply (regions_ok_store w t); try done; [by apply offset_size |]. intros Hn. apply offset_region_ok; [by eapply Hr | done].
  - eapply (regions_ok_store w t); try done; [by apply offset_size | set_solver | set_solver].
  - eapply (regions_ok_store w t); try done; [by apply mirror_size | set_solver | set_solver].
  - eapply (regions_ok_store w t); try done; [by apply scale_size | set_solver | set_solver].
  - pose proof (Hsz _ _ Hd). apply (regions_ok_op w t); [done | by eexists | by eapply copy_framed |].
    intros (N & _)%Forall_cons. exists (in_region rs), False. eapply copy_region_ok; eauto. done.
  - apply (regions_ok_op w t); [done | done | by eapply operation_framed | by eapply operation_outcome].
Qed.


(** ** Data for clients *)

(** A region sent to a client and read back from the client's data is the same
    region at a new address, the empty region included; a buffer too small is refused
    with an error. *)
Theorem region_data_roundtrip reg max_size w :
  (forall n bytes, alloc_ok n bytes = true) ->
  region_ok reg -> num_rects reg * RECT_BYTES < 2 ^ 32 ->
  let got := get_region_data alloc_ok reg max_size w in
  let total := Z.max RECT_BYTES (num_rects reg * RECT_BYTES) in
  got.1.2 = total /\
  if total <=? max_size then
    exists data, got.1.1 = Some data /\
    let made := create_region_from_req_data alloc_ok data total got.2 in
    made.1 = next_addr w /\
    exists reg', heap made.2 !! made.1 = Some reg' /\
      rects reg' = rects reg /\ extents reg' = extents reg
  else got.1.1 = None /\ error (genv got.2) = STATUS_BUFFER_OVERFLOW.
Proof.
  intros Hal Hok Hsz. cbv zeta. unfold get_region_data.
  assert (Hn : 0 <= num_rects reg) by (unfold num_rects; lia).
  unfold RECT_BYTES in *. rewrite uwrap_small by lia.
  set (total := Z.max 16 (num_rects reg * 16)).
  assert (Et : (if num_rects reg * 16 =? 0 then 16 else num_rects reg * 16) = total).
  { destruct (Z.eqb_spec (num_rects reg * 16) 0); lia. }
  rewrite Et. destruct (Z.leb_spec total max_size) as [L | L]; [| done].
  rewrite bind_run. unfold w_mem_alloc, try_alloc. rewrite Hal. cbn [fst snd mreturn].
  split; [done |]. eexists. split; [done |].
  set (data := if num_rects reg * 16 =? 0 then _ else _). set (w1 := mkWorld _ _ _).
  assert (Ed : req_rects data total = rects reg).
  { unfold req_rects, data. change RECT_BYTES with 16.
    destruct (Z.eqb_spec (num_rects reg * 16) 0) as [E | E].
    - assert (rects reg = []) as -> by (apply num_rects_zero; lia).
      assert (total = 16) as -> by lia. done.
    - assert (total / 16 = num_rects reg) as -> by (unfold total; rewrite Z.max_r, Z.div_mul; lia).
      rewrite Z.div_mul by lia. unfold num_rects.
      rewrite Nat2Z.id, take_take, Nat.min_id, firstn_all.
      destruct Hok as [_ [Hne _] _]. destruct (rects reg) as [| r [| r' l]]; [done | | done].
      inversion Hne as [| ? ? Hr _]; subst. destruct (decide (r = empty_rect)) as [-> |]; [| done].
      unfold nonempty in Hr. simpl in Hr. lia. }
  rewrite create_from_req_eq, Ed.
  assert (Hv : validate_rectangles (rects reg) = true) by (apply validate_valid, Hok).
  rewrite Hv. cbn [negb].
  destruct (req_region_ok (rects reg)) as [Hok' Er]; [apply Hok |].
  destruct (alloc_region_run alloc_ok (Z.max (Z.of_nat (length (rects reg))) RGN_DEFAULT_RECTS)
              (req_region (rects reg)) w1) as [(_ & _ & _ & _ & n & b & Hf) | (E1 & _ & _ & Eh)].
  { by rewrite Hal in Hf. }
  split; [exact E1 |]. exists (req_region (rects reg)).
  rewrite E1, Eh, lookup_insert_eq. split_and!; [done | done |].
  destruct Hok as [_ _ X1], Hok' as [_ _ X2]. rewrite Er in X2. unfold extents_ok in *.
  destruct (rects reg); [by rewrite X1, X2 | by eapply tight_unique].
Qed.
End Store.

(** ** Examples *)

Definition demo_start : world := start_world (mkEnv 0 0).

(** A region of two bands from client data, moved. *)
Definition demo_data : list rectangle := [mkRect 0 0 4 2; mkRect 6 0 8 2; mkRect 0 2 8 4].

Definition demo_made : world := (create_region_from_req_data grant demo_data 48 demo_start).2.


Lemma region_data_roundtrip_witness :
  let got := get_region_data grant (demo_rect 0 0 10 10) 100 demo_start in
  exists data, got.1.1 = Some data /\
    (create_region_from_req_data grant data 16 got.2).1 = 1.
Proof.
  destruct (region_data_roundtrip grant (demo_rect 0 0 10 10) 100 demo_start
    (fun _ _ => eq_refl) (demo_rect_ok 0 0 10 10 eq_refl eq_refl) eq_refl)
    as [_ (data & H1 & H2 & _)].
  exists data. split; [exact H1 | exact H2].
Defined.
