(* ===== verification/RegionTransform.v ===== *)
(** * Mirroring and scaling regions

    [mirror_region] copies the wrong rectangle when it exchanges two rectangles of a
    band, and [scale_dpi] computes negative coordinates in unsigned arithmetic. *)

From stdpp Require Import base list sorting sets gmap.
From Stdlib Require Import ZArith Lia ZifyBool.
From S2P Require Import Prelude Region RegionBands RegionOp RegionProofs RegionStore.

Open Scope Z_scope.

(** ** Mirroring *)

(** Rectangles outside the indices exchanged stay as they are. *)
Lemma mirror_band_outside fuel c i j rs k :
  (k < i \/ j < k)%nat -> mirror_band fuel c i j rs !! k = rs !! k.
Proof.
  revert i j rs. induction fuel as [| fuel IH]; intros i j rs Hk; cbn [mirror_band].
  - destruct (Nat.ltb_spec i j); [done |]. destruct (Nat.eqb_spec i j); [| done].
    by rewrite list_lookup_alter_ne by lia.
  - destruct (Nat.ltb_spec i j).
    + destruct (rs !! j) eqn:Ej; [| done]. rewrite IH by lia.
      rewrite !list_lookup_alter_ne by lia. by rewrite !list_lookup_insert_ne by lia.
    + destruct (Nat.eqb_spec i j); [| done]. by rewrite list_lookup_alter_ne by lia.
Qed.

Lemma mirror_band_length fuel c i j rs : length (mirror_band fuel c i j rs) = length rs.
Proof.
  revert i j rs. induction fuel as [| fuel IH]; intros i j rs; cbn [mirror_band].
  - destruct (_ <? _)%nat; [done |]. destruct (Nat.eqb _ _); [| done]. apply length_alter.
  - destruct (_ <? _)%nat.
    + destruct (rs !! j); [| done]. by rewrite IH, !length_alter, !length_insert.
    + destruct (Nat.eqb _ _); [| done]. apply length_alter.
Qed.

Lemma mirror_bands_before fuel c start rs k :
  (k < start)%nat -> mirror_bands fuel c start rs !! k = rs !! k.
Proof.
  revert start rs. induction fuel as [| fuel IH]; intros start rs Hk; cbn [mirror_bands]; [done |].
  destruct (_ <? _)%nat; [| done]. set (e := mirror_band_end _ _ _).
  assert (He : forall n e, (e <= mirror_band_end n rs e)%nat).
  { clear. intros n. induction n as [| n IH]; intros e; cbn [mirror_band_end]; [lia |].
    destruct (_ <? _)%nat; [| lia]. destruct (rs !! e), (rs !! S e); try lia.
    destruct (_ =? _); [| lia]. specialize (IH (S e)). lia. }
  specialize (He (length rs) start). fold e in He.
  rewrite IH by lia. apply mirror_band_outside. lia.
Qed.

(** The end of a band of [n] rectangles at the front. *)
Lemma mirror_band_end_front t (l1 l2 : list rectangle) n e :
  Forall (fun r => r_top r = t) l1 -> (forall r, head l2 = Some r -> r_top r <> t) ->
  (e < length l1)%nat -> (length l1 <= e + n)%nat ->
  mirror_band_end n (l1 ++ l2) e = (length l1 - 1)%nat.
Proof.
  intros H1 H2. revert e. induction n as [| n IH]; intros e He Hn; cbn [mirror_band_end]; [lia |].
  assert (Hget : forall k, (k < length l1)%nat ->
    exists r, (l1 ++ l2) !! k = Some r /\ r_top r = t).
  { intros k Hk. destruct (lookup_lt_is_Some_2 l1 k Hk) as [r Hr]. exists r.
    rewrite lookup_app_l by done. split; [done |].
    rewrite Forall_lookup in H1. by apply (H1 k). }
  destruct (Hget e He) as (r & -> & Hr).
  destruct (Nat.ltb_spec (S e) (length (l1 ++ l2))) as [L | L].
  - destruct (Nat.lt_ge_cases (S e) (length l1)) as [L' | L'].
    + destruct (Hget (S e) L') as (r' & -> & Hr'). rewrite Hr, Hr', Z.eqb_refl.
      apply IH; lia.
    + assert (S e = length l1) as -> by lia. rewrite lookup_app_r, Nat.sub_diag by lia.
      destruct l2 as [| s l2]; [rewrite app_nil_r in L; lia |]. cbn.
      specialize (H2 s eq_refl). replace (r_top s =? r_top r) with false by lia. lia.
  - rewrite length_app in L. lia.
Qed.

(** Mirroring a region whose first band has at least two rectangles stores the mirror
    image of the band's last rectangle at both ends of the band: the first rectangle
    is lost, and the result is not a region the server accepts. *)
Theorem mirror_region_loses_rectangle client_rect reg l1 l2 t z :
  rects reg = l1 ++ l2 -> Forall (fun r => r_top r = t) l1 -> (2 <= length l1)%nat ->
  last l1 = Some z -> (forall r, head l2 = Some r -> r_top r <> t) ->
  let rs := rects (mirror_region client_rect reg) in
  rs !! 0%nat = Some (mirror_rect client_rect z) /\
  rs !! (length l1 - 1)%nat = Some (mirror_rect client_rect z) /\
  validate_rectangles rs = false.
Proof.
  intros E H1 Hlen Hz H2 rs.
  assert (Hends : rs !! 0%nat = Some (mirror_rect client_rect z) /\
                  rs !! (length l1 - 1)%nat = Some (mirror_rect client_rect z)).
  { unfold rs, mirror_region. cbn [rects]. rewrite E.
    assert (En : exists n, length (l1 ++ l2) = S n).
    { exists (length (l1 ++ l2) - 1)%nat. rewrite length_app. lia. }
    destruct En as [n En]. rewrite En. cbn [mirror_bands]. rewrite En.
    cbn [Nat.ltb Nat.leb].
    rewrite (mirror_band_end_front t) by (rewrite ?length_app in En; done || lia).
    rewrite !mirror_bands_before by lia.
    assert (Hj : (l1 ++ l2) !! (length l1 - 1)%nat = Some z).
    { rewrite lookup_app_l by lia. rewrite <- Hz, last_lookup. f_equal. lia. }
    cbn [mirror_band].
    replace (0 <? length l1 - 1)%nat with true by lia. rewrite Hj.
    rewrite !mirror_band_outside by lia.
    assert (Hb : (length l1 - 1 < length (l1 ++ l2))%nat) by (rewrite length_app; lia).
    split.
    - rewrite list_lookup_alter_eq, list_lookup_alter_ne, list_lookup_insert_ne by lia.
      by rewrite list_lookup_insert_eq by lia.
    - rewrite list_lookup_alter_ne, list_lookup_alter_eq by lia.
      by rewrite list_lookup_insert_eq by (rewrite length_insert; lia). }
  destruct Hends as [Ha Hb]. split; [done |]. split; [done |].
  apply not_true_is_false. intros Hv%validate_valid. pose proof Hv as [Hn _].
  rewrite <- (take_drop (length l1 - 1) rs) in Hv. apply valid_app in Hv as (_ & _ & Hv).
  assert (Hbef : before (mirror_rect client_rect z) (mirror_rect client_rect z)).
  { rewrite Forall_lookup in Hv. specialize (Hv 0%nat (mirror_rect client_rect z)).
    rewrite lookup_take_lt in Hv by lia. specialize (Hv Ha). rewrite Forall_lookup in Hv.
    apply (Hv 0%nat). by rewrite lookup_drop, Nat.add_0_r. }
  rewrite Forall_lookup in Hn. specialize (Hn _ _ Ha). unfold nonempty, before in *. lia.
Qed.

(** ** Scaling *)

(** [scale_dpi] rounds a coordinate that is not negative to the nearest one after
    scaling, halves up.  A negative one is multiplied and divided as an unsigned
    number: the result is never negative. *)
Theorem scale_dpi_only_nonnegative val dpi_from dpi_to :
  let n := num dpi_to * den dpi_from in
  let d := num dpi_from * den dpi_to in
  let r := scale_dpi val dpi_from dpi_to in
  0 < n < 2 ^ 31 -> 2 <= d < 2 ^ 31 ->
  (0 <= val -> val * n + d / 2 < 2 ^ 32 -> - (d / 2) <= val * n - r * d < d - d / 2) /\
  (val < 0 -> 0 <= r).
Proof.
  intros n d r Hn Hd. unfold r, scale_dpi. fold n d. clear r.
  rewrite (uwrap_small 32 n), (uwrap_small 32 d) by lia.
  assert (Hq : forall a, 0 <= a < 2 ^ 32 -> 0 <= a / d < 2 ^ 31).
  { intros a Ha. split; [apply Z.div_pos; lia |]. apply Z.div_lt_upper_bound; lia. }
  assert (Hi : forall a, 0 <= a < 2 ^ 32 -> i32 (a / d) = a / d).
  { intros a Ha. apply i32_small. specialize (Hq a Ha). lia. }
  split.
  - intros Hv Hs. replace (0 <=? val) with true by lia.
    assert (0 <= d / 2) by (apply Z.div_pos; lia).
    rewrite (uwrap_small 32 (val * n)), uwrap_small, Hi by nia.
    pose proof (Z.div_mod (val * n + d / 2) d ltac:(lia)).
    pose proof (Z.mod_pos_bound (val * n + d / 2) d ltac:(lia)). lia.
  - intros Hv. replace (0 <=? val) with false by lia.
    rewrite Hi by (apply uwrap_range; lia). apply Hq, uwrap_range. lia.
Qed.

(** ** Examples *)

(** Two squares side by side, mirrored in a window 20 wide: both become the image of
    the right one. *)
Definition demo_pair : region :=
  mkRegion 2 [mkRect 0 0 4 4; mkRect 10 0 14 4] (mkRect 0 0 14 4).

Lemma mirror_region_loses_rectangle_witness :
  rects (mirror_region (mkRect 0 0 20 20) demo_pair) !! 0%nat = Some (mkRect 6 0 10 4) /\
  validate_rectangles (rects (mirror_region (mkRect 0 0 20 20) demo_pair)) = false.
Proof.
  destruct (mirror_region_loses_rectangle (mkRect 0 0 20 20) demo_pair
    (rects demo_pair) [] 0 (mkRect 10 0 14 4)) as (H1 & _ & H3).
  - reflexivity.
  - by repeat constructor.
  - simpl. lia.
  - reflexivity.
  - discriminate.
  - split; [exact H1 | exact H3].
Defined.

(** From 96 to 96 dots per inch, where nothing should change. *)
Lemma scale_dpi_only_nonnegative_witness :
  0 <= scale_dpi (-10) (mkRatio 96 1) (mkRatio 96 1) /\
  scale_dpi (-10) (mkRatio 96 1) (mkRatio 96 1) = 44739232.
Proof.
  split; [| by vm_compute].
  apply (scale_dpi_only_nonnegative (-10) (mkRatio 96 1) (mkRatio 96 1)); simpl; lia.
Defined.
