(* ===== verification/Atom.v ===== *)
(** * Atom tables of the wineserver

    Models [src/server/atom.c] with the string functions of [src/server/unicode.c] it
    uses.  A table holds its entries in memory by address; [atoms] is the array from
    atoms to entries, [entries] the heads of the 37 doubly linked hash lists, both read
    as [NULL] where nothing was stored.  A string is the list of its 16-bit characters,
    so its length in bytes is even.  The case mapping is read from a file when the
    server starts and is a parameter, as is the allocator. *)

From Stdlib Require Import String Ascii.
From stdpp Require Import base list gmap.
From Stdlib Require Import ZArith Lia.
From S2P Require Import Prelude.

Open Scope Z_scope.

Definition HASH_SIZE : Z := 37.
Definition MIN_STR_ATOM : Z := 0xc000.
Definition MAX_ATOMS : Z := 0x4000.
Definition MAXINTATOM : Z := 0xc000.
Definition MAX_ATOM_LEN : Z := 255.

Definition ATOM_NAME_INVALID : Z := 0xC0000033.
Definition ATOM_NAME_NOT_FOUND : Z := 0xC0000034.
Definition ATOM_INVALID_PARAMETER : Z := 0xC000000D.
Definition ATOM_INVALID_HANDLE : Z := 0xC0000008.
Definition ATOM_NO_MEMORY : Z := 0xC0000017.

Abbreviation wstr := (list Z) (only parsing).

Record atom_entry := mkEntry {
  e_next : ptr;
  e_prev : ptr;
  e_count : Z;
  e_atom : Z;
  e_hash : Z;
  e_str : wstr
}.

(** The table, the memory of its entries and the address of the next one; the number
    of allocations so far and the error of the request. *)
Record atom_table := mkTable {
  t_count : Z;
  t_atoms : gmap Z ptr;
  t_entries : gmap Z ptr;
  t_mem : gmap Z atom_entry;
  t_next : ptr;
  t_allocs : nat;
  t_error : Z
}.

Definition atom_at (t : atom_table) (i : Z) : ptr := default NULL (t_atoms t !! i).
Definition bucket (t : atom_table) (h : Z) : ptr := default NULL (t_entries t !! h).

Definition set_t_error (st : Z) (t : atom_table) : atom_table :=
  mkTable (t_count t) (t_atoms t) (t_entries t) (t_mem t) (t_next t) (t_allocs t) st.
Definition set_mem (m : gmap Z atom_entry) (t : atom_table) : atom_table :=
  mkTable (t_count t) (t_atoms t) (t_entries t) m (t_next t) (t_allocs t) (t_error t).
Definition set_bucket (h : Z) (p : ptr) (t : atom_table) : atom_table :=
  mkTable (t_count t) (t_atoms t) (<[h := p]> (t_entries t)) (t_mem t) (t_next t)
          (t_allocs t) (t_error t).
Definition set_atom_at (i : Z) (p : ptr) (t : atom_table) : atom_table :=
  mkTable (t_count t) (<[i := p]> (t_atoms t)) (t_entries t) (t_mem t) (t_next t)
          (t_allocs t) (t_error t).
Definition set_count (c : Z) (t : atom_table) : atom_table :=
  mkTable c (t_atoms t) (t_entries t) (t_mem t) (t_next t) (t_allocs t) (t_error t).

(** Fields of an entry in memory. *)
Definition upd_entry (p : ptr) (f : atom_entry -> atom_entry) (t : atom_table) : atom_table :=
  set_mem (alter f p (t_mem t)) t.

Definition with_next (p : ptr) (e : atom_entry) : atom_entry :=
  mkEntry p (e_prev e) (e_count e) (e_atom e) (e_hash e) (e_str e).
Definition with_prev (p : ptr) (e : atom_entry) : atom_entry :=
  mkEntry (e_next e) p (e_count e) (e_atom e) (e_hash e) (e_str e).
Definition with_count (c : Z) (e : atom_entry) : atom_entry :=
  mkEntry (e_next e) (e_prev e) c (e_atom e) (e_hash e) (e_str e).
Definition with_atom (a : Z) (e : atom_entry) : atom_entry :=
  mkEntry (e_next e) (e_prev e) (e_count e) a (e_hash e) (e_str e).

(** An entry just allocated: its fields are written before they are read. *)
Definition fresh_entry : atom_entry := mkEntry NULL NULL 0 0 0 [].

Section Atoms.
Context (casemap : Z -> Z) (alloc_ok : nat -> Z -> bool).

(** ** Strings *)

Definition to_lower (ch : Z) : Z :=
  u16 (ch + casemap (casemap (casemap (Z.shiftr ch 8) + Z.land (Z.shiftr ch 4) 0x0f)
                     + Z.land ch 0x0f)).

(** [memicmp_strW] on strings of the same length: the first difference. *)
Fixpoint memicmp_strW (str1 str2 : wstr) : Z :=
  match str1, str2 with
  | c1 :: s1, c2 :: s2 =>
      let ret := to_lower c1 - to_lower c2 in
      if negb (ret =? 0) then ret else memicmp_strW s1 s2
  | _, _ => 0
  end.

Definition hash_strW (str : wstr) (hash_size : Z) : Z :=
  fold_left (fun hash c => u32 (u32 (hash * 65599) + to_lower c)) str 0 mod hash_size.

(** [get_int_atom_value]: ["#"] and decimal digits below [MAXINTATOM], else 0. *)
Fixpoint int_atom_digits (str : wstr) (ret : Z) : Z :=
  match str with
  | [] => ret
  | c :: str' =>
      if (c <? 0x30) || (0x39 <? c) then 0
      else
        let ret := u32 (u32 (ret * 10) + c - 0x30) in
        if MAXINTATOM <=? ret then 0 else int_atom_digits str' ret
  end.

Definition get_int_atom_value (name : wstr) : Z :=
  match name with
  | c :: str => if negb (c =? 0x23) then 0 else int_atom_digits str 0
  | [] => 0
  end.

(** ** The table *)

Definition create_atom_table : atom_table := mkTable 1 ∅ ∅ ∅ 1 0 0.

Definition get_entry (p : ptr) (t : atom_table) : atom_entry :=
  default fresh_entry (t_mem t !! p).

(** [get_atom_entry]: the address of an entry, or [NULL] with an error. *)
Definition get_atom_entry (atom : Z) : M atom_table ptr :=
  let! t := mget in
  let entry :=
    if (MIN_STR_ATOM <=? atom) && (atom <? MIN_STR_ATOM + t_count t)
    then atom_at t (atom - MIN_STR_ATOM) else NULL in
  mwhen (entry =? NULL) (mmodify (set_t_error ATOM_INVALID_HANDLE)) ;;;
  mreturn entry.

(** The first free index from [i] below the count, else the count. *)
Fixpoint free_index (fuel : nat) (t : atom_table) (i : Z) : Z :=
  match fuel with
  | O => i
  | S fuel' =>
      if i <? t_count t then
        if atom_at t i =? NULL then i else free_index fuel' t (i + 1)
      else i
  end.

Definition add_atom_entry (entry : ptr) : M atom_table Z :=
  let! t := mget in
  let i := free_index (Z.to_nat (t_count t)) t 1 in
  if i =? MAX_ATOMS then mreturn 0
  else
    mwhen (i =? t_count t) (mmodify (fun t => set_count (t_count t + 1) t)) ;;;
    mmodify (set_atom_at i entry) ;;;
    mmodify (upd_entry entry (with_atom (i + MIN_STR_ATOM))) ;;;
    mreturn (i + MIN_STR_ATOM).

(** [find_atom_entry]: along the hash list; the number of entries bounds its length. *)
Fixpoint find_in_list (fuel : nat) (t : atom_table) (entry : ptr) (str : wstr) : ptr :=
  if entry =? NULL then NULL
  else
    match fuel with
    | O => NULL
    | S fuel' =>
        let e := get_entry entry t in
        if Nat.eqb (length (e_str e)) (length str) && (memicmp_strW (e_str e) str =? 0)
        then entry
        else find_in_list fuel' t (e_next e) str
    end.

Definition find_atom_entry (t : atom_table) (str : wstr) (hash : Z) : ptr :=
  find_in_list (size (t_mem t)) t (bucket t hash) str.

(** [sizeof] of an entry up to its string. *)
Definition ENTRY_BYTES : Z := 28.

Definition atom_alloc (bytes : Z) : M atom_table ptr := fun t =>
  if alloc_ok (t_allocs t) bytes then
    (t_next t, mkTable (t_count t) (t_atoms t) (t_entries t)
                 (<[t_next t := fresh_entry]> (t_mem t)) (t_next t + 1) (S (t_allocs t))
                 (t_error t))
  else
    (NULL, mkTable (t_count t) (t_atoms t) (t_entries t) (t_mem t) (t_next t)
             (S (t_allocs t)) ATOM_NO_MEMORY).

Definition free_entry (p : ptr) : M atom_table unit :=
  mmodify (fun t => set_mem (delete p (t_mem t)) t).

(** The fields of a new entry, at the head of its hash list. *)
Definition link_entry (entry : ptr) (str : wstr) (hash : Z) : M atom_table unit :=
  let! t := mget in
  let next := bucket t hash in
  mmodify (upd_entry entry (fun e => with_next next (with_prev NULL e))) ;;;
  mwhen (negb (next =? NULL)) (mmodify (upd_entry next (with_prev entry))) ;;;
  mmodify (set_bucket hash entry) ;;;
  mmodify (upd_entry entry (fun e => mkEntry (e_next e) (e_prev e) 1 (e_atom e) hash str)).

(** The checks [add_atom] and [find_atom] begin with: an answer without the table. *)
Definition check_name (str : wstr) : option (Z * option Z) :=
  if Nat.eqb (length str) 0 then Some (0, Some ATOM_NAME_INVALID)
  else if MAX_ATOM_LEN * 2 <? 2 * Z.of_nat (length str) then Some (0, Some ATOM_INVALID_PARAMETER)
  else
    let atom := get_int_atom_value str in
    if negb (atom =? 0) then Some (atom, None) else None.

Definition answer_name (r : Z * option Z) : M atom_table Z :=
  match r.2 with
  | Some st => mmodify (set_t_error st) ;;; mreturn r.1
  | None => mreturn r.1
  end.

Definition add_atom (str : wstr) : M atom_table Z :=
  match check_name str with
  | Some r => answer_name r
  | None =>
      let hash := u16 (hash_strW str HASH_SIZE) in
      let! t := mget in
      let entry := find_atom_entry t str hash in
      if negb (entry =? NULL) then
        mmodify (upd_entry entry (fun e => with_count (i32 (e_count e + 1)) e)) ;;;
        mreturn (e_atom (get_entry entry t))
      else
        let! entry := atom_alloc (ENTRY_BYTES + 2 * Z.of_nat (length str)) in
        if entry =? NULL then mreturn 0
        else
          let! atom := add_atom_entry entry in
          if negb (atom =? 0) then link_entry entry str hash ;;; mreturn atom
          else
            mmodify (set_t_error ATOM_NO_MEMORY) ;;;
            free_entry entry ;;;
            mreturn 0
  end.

(** Taking an entry out of its list, its slot and memory. *)
Definition unlink_entry (entry : ptr) (atom : Z) : M atom_table unit :=
  let! t := mget in
  let e := get_entry entry t in
  mwhen (negb (e_next e =? NULL)) (mmodify (upd_entry (e_next e) (with_prev (e_prev e)))) ;;;
  (if negb (e_prev e =? NULL) then mmodify (upd_entry (e_prev e) (with_next (e_next e)))
   else mmodify (set_bucket (e_hash e) (e_next e))) ;;;
  mmodify (set_atom_at (atom - MIN_STR_ATOM) NULL) ;;;
  free_entry entry.

Definition delete_atom (atom : Z) : M atom_table unit :=
  let! entry := get_atom_entry atom in
  if entry =? NULL then mreturn tt
  else
    mmodify (upd_entry entry (fun e => with_count (i32 (e_count e - 1)) e)) ;;;
    let! t := mget in
    if e_count (get_entry entry t) =? 0 then unlink_entry entry atom else mreturn tt.

Definition find_atom (str : wstr) : M atom_table Z :=
  match check_name str with
  | Some r => answer_name r
  | None =>
      let hash := u16 (hash_strW str HASH_SIZE) in
      let! t := mget in
      let entry := find_atom_entry t str hash in
      if entry =? NULL then mmodify (set_t_error ATOM_NAME_NOT_FOUND) ;;; mreturn 0
      else mreturn (e_atom (get_entry entry t))
  end.

Definition grab_atom (atom : Z) : M atom_table Z :=
  if MIN_STR_ATOM <=? atom then
    let! entry := get_atom_entry atom in
    if entry =? NULL then mreturn 0
    else
      mmodify (upd_entry entry (fun e => with_count (i32 (e_count e + 1)) e)) ;;;
      mreturn atom
  else mreturn atom.

Definition release_atom (atom : Z) : M atom_table unit :=
  if MIN_STR_ATOM <=? atom then delete_atom atom else mreturn tt.

(** [get_atom_information]: the name cut to the reply's size, the count and the length
    in bytes, or a count of -1. *)
Record atom_information := mkInfo { ai_name : wstr; ai_count : Z; ai_pinned : Z; ai_total : Z }.

Definition req_get_atom_information (atom max_size : Z) : M atom_table atom_information :=
  let! entry := get_atom_entry atom in
  let! t := mget in
  if entry =? NULL then mreturn (mkInfo [] (-1) 0 0)
  else
    let e := get_entry entry t in
    let len := 2 * Z.of_nat (length (e_str e)) in
    mreturn (mkInfo (take (Z.to_nat (Z.min len max_size / 2)) (e_str e)) (e_count e) 0 len).

Definition req_get_user_atom_name (atom max_size : Z) : M atom_table (wstr * Z) :=
  let! entry := get_atom_entry atom in
  let! t := mget in
  if entry =? NULL then mreturn ([], 0)
  else
    let e := get_entry entry t in
    let len := 2 * Z.of_nat (length (e_str e)) in
    mreturn (take (Z.to_nat (Z.min len max_size / 2)) (e_str e), len).

(** [atom_table_destroy]: [free( table->atoms[i] )] for all indices below the count. *)
Definition atom_table_destroy : M atom_table unit :=
  let! t := mget in
  mfor (fun i => free_entry (atom_at t i)) (map Z.of_nat (seq 0 (Z.to_nat (t_count t)))).

(** ** The two tables and the requests on them *)

Record atom_tables := mkTables { global_table : atom_table; user_table : atom_table }.

Definition on_global {A} (m : M atom_table A) : M atom_tables A := fun ts =>
  let r := m (global_table ts) in (r.1, mkTables r.2 (user_table ts)).
Definition on_user {A} (m : M atom_table A) : M atom_tables A := fun ts =>
  let r := m (user_table ts) in (r.1, mkTables (global_table ts) r.2).

(** [add_atom_asciiz]: the characters of an ASCII name. *)
Definition asciiz (name : string) : wstr :=
  map (fun c => Z.of_N (Ascii.N_of_ascii c)) (String.list_ascii_of_string name).

Definition add_atom_asciiz (name : string) : M atom_table unit :=
  add_atom (asciiz name) ;;; mreturn tt.

Definition global_names : list string :=
  ["StdExit"; "StdNewDocument"; "StdOpenDocument"; "StdEditDocument";
   "StdNewfromTemplate"; "StdCloseDocument"; "StdShowItem"; "StdDoVerbItem"; "System";
   "OLEsystem"; "StdDocumentName"; "Protocols"; "Topics"; "Formats"; "Status";
   "EditEnvItems"; "True"; "False"; "Change"; "Save"; "Close"; "MSDraw";
   "CC32SubclassInfo"]%string.

Definition user_names : list string :=
  ["USER32"; "ObjectLink"; "OwnerLink"; "Native"; "Binary"; "FileName"; "FileNameW";
   "NetworkName"; "DataObject"; "Embedded Object"; "Embed Source";
   "Custom Link Source"; "Link Source"; "Object Descriptor"; "Link Source Descriptor";
   "OleDraw"; "PBrush"; "MSDraw"; "Ole Private Data"; "Screen Picture";
   "OleClipboardPersistOnFlush"; "MoreOlePrivateData"; "Button"; "Edit"; "Static";
   "ListBox"; "ScrollBar"; "ComboBox"]%string.

Definition set_global_atom_table : M atom_tables unit :=
  on_global (mmodify (fun _ => create_atom_table) ;;; mfor add_atom_asciiz global_names).
Definition set_user_atom_table : M atom_tables unit :=
  on_user (mmodify (fun _ => create_atom_table) ;;; mfor add_atom_asciiz user_names).

Definition req_add_atom (str : wstr) : M atom_tables Z := on_global (add_atom str).
Definition req_delete_atom (atom : Z) : M atom_tables unit := on_global (delete_atom atom).
Definition req_find_atom (str : wstr) : M atom_tables Z := on_global (find_atom str).
Definition req_add_user_atom (str : wstr) : M atom_tables Z := on_user (add_atom str).
End Atoms.
