(* ===== verification/AtomProofs.v ===== *)
(** * Atom tables refine a map from atoms to names and counts

    [table_ok] is the invariant of a table: the hash lists are doubly linked lists of
    exactly the entries in memory, each in the list of its name's hash, slots and
    entries point at each other, and no two entries have the same name up to case.
    [names] forgets all that; the operations are proved against it. *)

From stdpp Require Import base list gmap sets fin_sets.
From Stdlib Require Import ZArith Lia ZifyBool.
From S2P Require Import Prelude Atom.

Open Scope Z_scope.

Section Strings.
Context (casemap : Z -> Z).

Definition lower (s : list Z) : list Z := map (to_lower casemap) s.

(** The comparison of [find_atom_entry] is equality up to case. *)
Lemma same_name_lower s1 s2 :
  Nat.eqb (length s1) (length s2) && (memicmp_strW casemap s1 s2 =? 0) = true <->
  lower s1 = lower s2.
Proof.
  revert s2. induction s1 as [| c1 s1 IH]; intros [| c2 s2]; try done.
  specialize (IH s2). cbn [length Nat.eqb memicmp_strW lower map].
  destruct (Z.eqb_spec (to_lower casemap c1 - to_lower casemap c2) 0) as [E | E]; cbn [negb].
  - assert (to_lower casemap c1 = to_lower casemap c2) as -> by lia.
    rewrite IH. unfold lower. split; [by intros -> | by intros [=]].
  - split; [lia |]. intros [=]. lia.
Qed.

Lemma hash_lower s1 s2 n : lower s1 = lower s2 -> hash_strW casemap s1 n = hash_strW casemap s2 n.
Proof.
  unfold hash_strW. intros H. f_equal. generalize 0. revert s2 H.
  induction s1 as [| c1 s1 IH]; intros [| c2 s2] H a; try done. cbn [fold_left lower map] in *.
  injection H as H1 H2. rewrite H1. by apply IH.
Qed.

Definition name_hash (s : list Z) : Z := u16 (hash_strW casemap s HASH_SIZE).
End Strings.

(** ** Doubly linked lists *)

Abbreviation memory := (gmap Z atom_entry).

(** From [p], entered from [a], along the entries [l] to the pointer [r]. *)
Fixpoint seg (mem : memory) (a p : ptr) (l : list ptr) (r : ptr) : Prop :=
  match l with
  | [] => p = r
  | q :: l' => p = q /\ exists e, mem !! q = Some e /\ e_prev e = a /\ seg mem q (e_next e) l' r
  end.

Definition last_or (a : ptr) (l : list ptr) : ptr := default a (last l).

Lemma last_or_cons a q l : last_or a (q :: l) = last_or q l.
Proof.
  unfold last_or. destruct l as [| q' l]; [done |]. rewrite last_cons_cons.
  destruct (last (q' :: l)) eqn:E; [done |]. by apply last_None in E.
Qed.

Lemma seg_app mem a p l1 l2 r :
  seg mem a p (l1 ++ l2) r <-> exists m, seg mem a p l1 m /\ seg mem (last_or a l1) m l2 r.
Proof.
  revert a p. induction l1 as [| q l1 IH]; intros a p; cbn [app seg].
  - split; [intros H; by exists p | by intros (m & -> & H)].
  - setoid_rewrite IH. setoid_rewrite last_or_cons. split.
    + intros (-> & e & He & Hp & m & H1 & H2). exists m. split; [| done]. split; [done |]. by exists e.
    + intros (m & (-> & e & He & Hp & H1) & H2). split; [done |]. exists e.
      split; [done |]. split; [done |]. by exists m.
Qed.

Lemma seg_frame mem mem' a p l r :
  (forall q, q ∈ l -> mem' !! q = mem !! q) -> seg mem a p l r -> seg mem' a p l r.
Proof.
  revert a p. induction l as [| q l IH]; intros a p Hm; cbn [seg]; [done |].
  intros (-> & e & He & Hp & Hs). split; [done |]. exists e. split_and!.
  - rewrite Hm; [done | apply elem_of_cons; by left].
  - done.
  - apply IH; [| done]. intros q' Hq'. apply Hm. apply elem_of_cons. by right.
Qed.

(** Changing an entry but not its links. *)
Lemma seg_alter mem a p l r x f :
  (forall e, e_next (f e) = e_next e /\ e_prev (f e) = e_prev e) ->
  seg mem a p l r -> seg (alter f x mem) a p l r.
Proof.
  intros Hf. revert a p. induction l as [| q l IH]; intros a p; cbn [seg]; [done |].
  intros (-> & e & He & Hp & Hs). split; [done |]. destruct (Z.eq_dec q x) as [-> | Hne].
  - exists (f e). destruct (Hf e) as [-> ->]. split; [| by split; [| apply IH]].
    by rewrite lookup_alter_eq, He.
  - exists e. split; [by rewrite lookup_alter_ne | by split; [| apply IH]].
Qed.

Lemma seg_alter_out mem a p l r x f :
  x ∉ l -> seg mem a p l r -> seg (alter f x mem) a p l r.
Proof.
  intros Hx. apply seg_frame. intros q Hq. apply lookup_alter_ne. by intros ->.
Qed.

(** Entering a list from another entry. *)
Lemma seg_enter mem a b p l r :
  NoDup l -> (l = [] -> mem !! p = None) -> seg mem a p l r ->
  seg (alter (with_prev b) p mem) b p l r.
Proof.
  destruct l as [| q l]; [done |]. intros Hn _ (-> & e & He & Hp & Hs).
  split; [done |]. exists (with_prev b e). split; [by rewrite lookup_alter_eq, He |].
  split; [done |]. apply seg_alter_out; [| done]. by apply NoDup_cons in Hn as [? _].
Qed.

(** Leaving a list for another entry. *)
Lemma seg_leave mem a p l z r m :
  NoDup (l ++ [z]) -> seg mem a p (l ++ [z]) r ->
  seg (alter (with_next m) z mem) a p (l ++ [z]) m.
Proof.
  intros Hn. rewrite !seg_app. intros (q & H1 & (-> & e & He & Hp & _)).
  exists z. split.
  - apply seg_alter_out; [| done]. apply NoDup_app in Hn as (_ & Hd & _).
    intros Hz. apply (Hd z Hz). apply elem_of_cons. by left.
  - split; [done |]. exists (with_next m e). by rewrite lookup_alter_eq, He.
Qed.

(** Taking an entry out. *)
Definition unlinked (mem : memory) (q : ptr) (e : atom_entry) : memory :=
  let mem1 := if negb (e_next e =? NULL) then alter (with_prev (e_prev e)) (e_next e) mem else mem in
  let mem2 := if negb (e_prev e =? NULL) then alter (with_next (e_next e)) (e_prev e) mem1 else mem1 in
  delete q mem2.

Lemma seg_unlink mem p l1 q l2 e :
  NoDup (l1 ++ q :: l2) -> mem !! NULL = None -> seg mem NULL p (l1 ++ q :: l2) NULL ->
  mem !! q = Some e ->
  seg (unlinked mem q e) NULL (if e_prev e =? NULL then e_next e else p) (l1 ++ l2) NULL /\
  (e_prev e = NULL <-> l1 = []).
Proof.
  intros Hn H0 (m & H1 & (Em & e' & He' & Hp & H2))%seg_app He. rewrite He in He'.
  injection He' as <-. subst m.
  apply NoDup_app in Hn as (N1 & Hd & [N2 N3]%NoDup_cons).
  assert (Hl1 : e_prev e = NULL <-> l1 = []).
  { rewrite Hp. unfold last_or. split; [| by intros ->].
    destruct (last l1) as [z |] eqn:Ez; [| by apply last_None in Ez]. simpl. intros ->.
    apply last_Some in Ez as (l & ->).
    apply seg_app in H1 as (m & _ & (_ & ez & Hz & _)). by rewrite H0 in Hz. }
  split; [| done].
  assert (Hq1 : forall x, x ∈ l1 -> x <> q).
  { intros x Hx ->. apply (Hd q Hx). apply elem_of_cons. by left. }
  assert (Hq2 : forall x, x ∈ l2 -> x <> q) by (intros x Hx ->; done).
  assert (Hdel : forall mm a pp l r, (forall x, x ∈ l -> x <> q) -> seg mm a pp l r ->
                                     seg (delete q mm) a pp l r).
  { intros mm a pp l r Hl. apply seg_frame. intros x Hx. apply lookup_delete_ne.
    by apply not_eq_sym, Hl. }
  assert (Hnext : e_next e = NULL <-> l2 = []).
  { destruct l2 as [| y l2]; [done |]. split; [| done]. destruct H2 as (-> & ey & Hy & _).
    intros ->. by rewrite H0 in Hy. }
  (* the rest of the list, entered from the entry before [q] *)
  set (mem1 := if negb (e_next e =? NULL) then alter (with_prev (e_prev e)) (e_next e) mem else mem).
  assert (K2 : seg mem1 (e_prev e) (e_next e) l2 NULL).
  { unfold mem1. destruct (Z.eqb_spec (e_next e) NULL) as [E | E]; cbn [negb].
    - apply Hnext in E as ->. done.
    - apply (seg_enter mem q); [done | | done]. intros ->. exfalso. by apply E, Hnext. }
  assert (K1 : seg mem1 NULL p l1 q).
  { unfold mem1. destruct (Z.eqb_spec (e_next e) NULL) as [E | E]; cbn [negb]; [done |].
    apply seg_alter_out; [| done]. destruct l2 as [| y l2]; [exfalso; by apply E, Hnext |].
    destruct H2 as (-> & _). intros Hy. apply (Hd y Hy).
    apply elem_of_cons. right. apply elem_of_cons. by left. }
  unfold unlinked. fold mem1. destruct (Z.eqb_spec (e_prev e) NULL) as [E | E]; cbn [negb].
  - apply Hl1 in E as E'. subst l1. apply Hdel; [done |]. by rewrite E in K2.
  - destruct (exists_last (l := l1)) as (l & z & ->); [by intros -> ; apply E, Hl1 |].
    assert (Ez : e_prev e = z) by (rewrite Hp; unfold last_or; by rewrite last_snoc).
    rewrite Ez in *. apply Hdel.
    { intros x [Hx | Hx]%elem_of_app; [by apply Hq1 | by apply Hq2]. }
    apply seg_app. exists (e_next e). split; [by apply (seg_leave mem1 _ _ _ _ q) |].
    unfold last_or. rewrite last_snoc. apply seg_alter_out; [| done].
    intros Hz. apply (Hd z).
    + apply elem_of_app. right. apply elem_of_cons. by left.
    + apply elem_of_cons. by right.
Qed.

(** ** The invariant *)

(** What an entry is about, without its links and count. *)
Definition ekey (e : atom_entry) : Z * Z * list Z := (e_atom e, e_hash e, e_str e).
Definition key (t : atom_table) (q : ptr) : option (Z * Z * list Z) := ekey <$> t_mem t !! q.

Section Table.
Context (casemap : Z -> Z).

Record table_ok (t : atom_table) (ch : Z -> list ptr) : Prop := mkTableOk {
  tk_count : 1 <= t_count t <= MAX_ATOMS;
  tk_next : 0 < t_next t;
  tk_keys : forall q k, key t q = Some k -> 0 < q < t_next t;
  tk_lists : forall h, seg (t_mem t) NULL (bucket t h) (ch h) NULL;
  tk_nodup : forall h, NoDup (ch h);
  tk_listed : forall h q, q ∈ ch h <-> exists a s, key t q = Some (a, h, s);
  tk_hash : forall q a h s, key t q = Some (a, h, s) -> h = name_hash casemap s;
  tk_slot : forall q a h s, key t q = Some (a, h, s) ->
    atom_at t (a - MIN_STR_ATOM) = q /\ 1 <= a - MIN_STR_ATOM < t_count t;
  tk_atoms : forall i, atom_at t i <> NULL ->
    exists h s, key t (atom_at t i) = Some (i + MIN_STR_ATOM, h, s);
  tk_unique : forall q1 a1 h1 s1 q2 a2 h2 s2,
    key t q1 = Some (a1, h1, s1) -> key t q2 = Some (a2, h2, s2) ->
    lower casemap s1 = lower casemap s2 -> q1 = q2
}.

(** What clients see of a table: names and counts by index. *)
Definition names (t : atom_table) (i : Z) : option (list Z * Z) :=
  e ← t_mem t !! (atom_at t i); Some (e_str e, e_count e).

Lemma key_some t q k : key t q = Some k <-> exists e, t_mem t !! q = Some e /\ k = ekey e.
Proof. unfold key. by rewrite fmap_Some. Qed.

Lemma key_none t q : key t q = None <-> t_mem t !! q = None.
Proof. unfold key. by rewrite fmap_None. Qed.

Lemma mem_null t ch : table_ok t ch -> t_mem t !! NULL = None.
Proof.
  intros Hok. apply key_none. destruct (key t NULL) as [k |] eqn:E; [| done].
  apply (tk_keys _ _ Hok) in E. lia.
Qed.

Lemma mem_next t ch : table_ok t ch -> key t (t_next t) = None.
Proof.
  intros Hok. destruct (key t (t_next t)) as [k |] eqn:E; [| done].
  apply (tk_keys _ _ Hok) in E. lia.
Qed.

(** The number of entries bounds a hash list. *)
Lemma list_length t ch h : table_ok t ch -> (length (ch h) <= size (t_mem t))%nat.
Proof.
  intros Hok. rewrite <- size_dom. rewrite <- (size_list_to_set (C := gset Z)) by apply Hok.
  apply subseteq_size. intros q Hq. apply elem_of_list_to_set in Hq.
  apply (tk_listed _ _ Hok) in Hq as (a & s & (e & He & _)%key_some).
  by apply elem_of_dom_2 in He.
Qed.

(** ** Searching *)

Lemma find_in_list_spec t fuel a p l str :
  t_mem t !! NULL = None -> seg (t_mem t) a p l NULL -> (length l <= fuel)%nat ->
  let r := find_in_list casemap fuel t p str in
  (r = NULL /\ forall q e, q ∈ l -> t_mem t !! q = Some e -> lower casemap (e_str e) <> lower casemap str) \/
  (r ∈ l /\ exists e, t_mem t !! r = Some e /\ lower casemap (e_str e) = lower casemap str).
Proof.
  intros H0. revert a p fuel. induction l as [| q l IH]; intros a p fuel Hs Hf.
  - simpl in Hs. subst p. left. split; [by destruct fuel |]. intros q e Hq. by apply elem_of_nil in Hq.
  - destruct Hs as (-> & e & He & Hp & Hs). destruct fuel as [| fuel]; [simpl in Hf; lia |].
    cbn [find_in_list]. destruct (Z.eqb_spec q NULL) as [-> | Hq0]; [by rewrite H0 in He |].
    assert (Ee : get_entry q t = e) by (unfold get_entry; by rewrite He). rewrite Ee. cbv zeta.
    destruct (Nat.eqb (length (e_str e)) (length str) && (memicmp_strW casemap (e_str e) str =? 0)) eqn:E.
    + right. split; [apply elem_of_cons; by left |]. exists e. split; [done |].
      by apply same_name_lower.
    + assert (Hne : lower casemap (e_str e) <> lower casemap str).
      { intros Heq. apply same_name_lower in Heq. by rewrite Heq in E. }
      destruct (IH q (e_next e) fuel Hs) as [[-> Hn] | (Hr & Hx)]; [simpl in Hf; lia | |].
      * left. split; [done |]. intros q' e' [-> | Hq']%elem_of_cons He'; [by simplify_eq |].
        by eapply Hn.
      * right. split; [apply elem_of_cons; by right | done].
Qed.

(** The entry of a name, if the table has it. *)
Lemma find_atom_entry_spec t ch str :
  table_ok t ch ->
  let r := find_atom_entry casemap t str (name_hash casemap str) in
  (r = NULL /\ forall q a h s, key t q = Some (a, h, s) -> lower casemap s <> lower casemap str) \/
  (r <> NULL /\ exists e, t_mem t !! r = Some e /\ lower casemap (e_str e) = lower casemap str).
Proof.
  intros Hok. pose proof (mem_null _ _ Hok) as H0.
  destruct (find_in_list_spec t (size (t_mem t)) NULL (bucket t (name_hash casemap str))
    (ch (name_hash casemap str)) str H0) as [[E Hn] | (Hr & e & He & Hl)].
  - apply Hok.
  - by apply list_length.
  - left. split; [exact E |]. intros q a h s Hk Heq.
    pose proof (tk_hash _ _ Hok q a h s Hk) as Hh.
    assert (Hq : q ∈ ch (name_hash casemap str)).
    { apply (tk_listed _ _ Hok). exists a, s. rewrite Hk, Hh. unfold name_hash.
      by rewrite (hash_lower casemap s str). }
    apply key_some in Hk as (e & He & [= -> -> ->]). by eapply Hn.
  - right. cbv zeta. fold (find_atom_entry casemap t str (name_hash casemap str)) in *.
    split; [| by exists e]. intros E. rewrite E in He. by rewrite H0 in He.
Qed.

(** ** Changes that keep every key *)

Lemma same_keys_ok t t' ch :
  t_count t' = t_count t -> t_next t <= t_next t' -> t_atoms t' = t_atoms t ->
  (forall q, key t' q = key t q) ->
  (forall h, seg (t_mem t') NULL (bucket t' h) (ch h) NULL) ->
  table_ok t ch -> table_ok t' ch.
Proof.
  intros E1 E2 E3 Ek Hs [K1 K2 K3 K4 K5 K6 K7 K8 K9 K10].
  assert (Ea : forall i, atom_at t' i = atom_at t i) by (intros; unfold atom_at; by rewrite E3).
  split; rewrite ?E1; try done.
  - lia.
  - intros q k. rewrite Ek. intros Hk. specialize (K3 q k Hk). lia.
  - intros h q. by setoid_rewrite Ek.
  - intros q a h s. rewrite Ek. apply K7.
  - intros q a h s. rewrite Ek, Ea. apply K8.
  - intros i. rewrite Ea. intros Hi. rewrite Ek. by apply K9.
  - intros q1 a1 h1 s1 q2 a2 h2 s2. rewrite !Ek. apply K10.
Qed.

Lemma key_alter t p f q :
  (forall e, ekey (f e) = ekey e) -> key (upd_entry p f t) q = key t q.
Proof.
  intros Hf. unfold key. cbn [upd_entry set_mem t_mem]. destruct (Z.eq_dec q p) as [-> | Hne].
  - rewrite lookup_alter_eq. destruct (t_mem t !! p); cbn; [by rewrite Hf | done].
  - by rewrite lookup_alter_ne.
Qed.

Lemma count_ok t ch p (f : atom_entry -> atom_entry) :
  (forall e, exists c, f e = with_count c e) -> table_ok t ch -> table_ok (upd_entry p f t) ch.
Proof.
  intros Hf Hok. apply (same_keys_ok t); try done.
  - intros q. apply key_alter. intros e. by destruct (Hf e) as [c ->].
  - intros h. apply seg_alter; [| apply Hok]. intros e. by destruct (Hf e) as [c ->].
Qed.

Lemma names_count t ch p e c :
  table_ok t ch -> t_mem t !! p = Some e ->
  forall i, names (upd_entry p (fun e => with_count (c e) e) t) i =
            if i =? e_atom e - MIN_STR_ATOM then Some (e_str e, c e) else names t i.
Proof.
  intros Hok He i. unfold names, atom_at. cbn [upd_entry set_mem t_mem t_atoms].
  fold (atom_at t i). destruct (tk_slot _ _ Hok p (e_atom e) (e_hash e) (e_str e)) as [Hs _].
  { apply key_some. by exists e. }
  destruct (Z.eqb_spec i (e_atom e - MIN_STR_ATOM)) as [-> | Hne].
  - rewrite Hs, lookup_alter_eq, He. done.
  - rewrite lookup_alter_ne; [done |]. intros E. apply Hne.
    assert (Hp : p <> NULL). { intros ->. by rewrite (mem_null _ _ Hok) in He. }
    destruct (tk_atoms _ _ Hok i) as (h & s & Hk); [by rewrite <- E |].
    rewrite <- E in Hk. apply key_some in Hk as (e' & He' & [= Ha _ _]). simplify_eq. lia.
Qed.
End Table.
