(* ===== verification/AtomOps.v ===== *)
(** * Entries that come and go

    The state after a new entry is linked in ([added]) and after one is taken out
    ([removed]), with the invariant and the names of each. *)

From stdpp Require Import base list gmap sets fin_sets.
From Stdlib Require Import ZArith Lia ZifyBool.
From S2P Require Import Prelude Atom AtomProofs.

Open Scope Z_scope.

Section Ops.
Context (casemap : Z -> Z).

(** Hash lists of different hashes have no entry in common. *)
Lemma lists_disjoint t ch h h' q : table_ok casemap t ch -> q ∈ ch h -> q ∈ ch h' -> h = h'.
Proof.
  intros Hok (a & s & Hk)%(tk_listed _ _ _ Hok) (a' & s' & Hk')%(tk_listed _ _ _ Hok). congruence.
Qed.

Lemma bucket_in t ch h : table_ok casemap t ch -> bucket t h <> NULL -> bucket t h ∈ ch h.
Proof.
  intros Hok Hb. pose proof (tk_lists _ _ _ Hok h) as Hs.
  destruct (ch h) as [| q l]; [done |]. destruct Hs as [-> _]. apply elem_of_cons. by left.
Qed.

(** ** A new entry *)

Definition added (t : atom_table) (i : Z) (str : list Z) (h : Z) : atom_table :=
  let p := t_next t in
  let next := bucket t h in
  mkTable (if i =? t_count t then t_count t + 1 else t_count t) (<[i := p]> (t_atoms t))
    (<[h := p]> (t_entries t))
    (<[p := mkEntry next NULL 1 (i + MIN_STR_ATOM) h str]>
       (if next =? NULL then t_mem t else alter (with_prev p) next (t_mem t)))
    (t_next t + 1) (S (t_allocs t)) (t_error t).

Definition added_lists (ch : Z -> list ptr) (p h : Z) (h' : Z) : list ptr :=
  if h' =? h then p :: ch h else ch h'.

Section Added.
Context (t : atom_table) (ch : Z -> list ptr) (i : Z) (str : list Z).
Context (Hok : table_ok casemap t ch) (Hi : 1 <= i <= t_count t) (Hmax : i < MAX_ATOMS).
Context (Hfree : atom_at t i = NULL).
Context (Hnew : forall q a h s, key t q = Some (a, h, s) -> lower casemap s <> lower casemap str).

#[local] Abbreviation h := (name_hash casemap str).
#[local] Abbreviation p := (t_next t).
#[local] Abbreviation t' := (added t i str h).

Lemma added_key q :
  key t' q = if q =? p then Some (i + MIN_STR_ATOM, h, str) else key t q.
Proof.
  unfold key. cbn [added t_mem]. destruct (Z.eqb_spec q p) as [-> | Hne].
  - by rewrite lookup_insert_eq.
  - rewrite lookup_insert_ne by done. destruct (_ =? NULL); [done |].
    apply (key_alter t (bucket t h) (with_prev p) q). done.
Qed.

Lemma added_atom_at j : atom_at t' j = if j =? i then p else atom_at t j.
Proof.
  unfold atom_at. cbn [added t_atoms]. destruct (Z.eqb_spec j i) as [-> | Hne].
  - by rewrite lookup_insert_eq.
  - by rewrite lookup_insert_ne.
Qed.

Lemma added_bucket h' : bucket t' h' = if h' =? h then p else bucket t h'.
Proof.
  unfold bucket. cbn [added t_entries]. destruct (Z.eqb_spec h' h) as [-> | Hne].
  - by rewrite lookup_insert_eq.
  - by rewrite lookup_insert_ne.
Qed.

Lemma fresh_not_listed h' : p ∉ ch h'.
Proof.
  intros (a & s & Hk)%(tk_listed _ _ _ Hok). by rewrite (mem_next _ _ _ Hok) in Hk.
Qed.

Lemma added_lists_ok h' : seg (t_mem t') NULL (bucket t' h') (added_lists ch p h h') NULL.
Proof.
  rewrite added_bucket. unfold added_lists. cbn [added t_mem].
  pose proof (mem_null _ _ _ Hok) as H0. pose proof (tk_lists _ _ _ Hok h) as Hs.
  destruct (Z.eqb_spec h' h) as [-> | Hne].
  - split; [done |]. eexists. split; [apply lookup_insert_eq |]. split; [done |]. cbn [e_next].
    apply (seg_frame (if bucket t h =? NULL then t_mem t else alter (with_prev p) (bucket t h) (t_mem t))).
    { intros q Hq. apply lookup_insert_ne. intros <-. by apply fresh_not_listed in Hq. }
    destruct (Z.eqb_spec (bucket t h) NULL) as [E | E].
    + rewrite E in *. destruct (ch h) as [| q l]; [done |].
      destruct Hs as (<- & e & He & _). by rewrite H0 in He.
    + apply (seg_enter _ NULL); [apply Hok | | done]. intros El. rewrite El in Hs. done.
  - apply (seg_frame (t_mem t)); [| apply Hok]. intros q Hq.
    rewrite lookup_insert_ne by (intros <-; by apply fresh_not_listed in Hq).
    destruct (Z.eqb_spec (bucket t h) NULL) as [E | E]; [done |]. apply lookup_alter_ne.
    intros <-. apply Hne. by apply (lists_disjoint t ch h' h (bucket t h) Hok Hq), bucket_in.
Qed.

Lemma added_ok : table_ok casemap t' (added_lists ch p h).
Proof.
  pose proof (mem_next _ _ _ Hok) as Hp. pose proof Hok as [K1 K2 K3 K4 K5 K6 K7 K8 K9 K10].
  assert (Hcnt : t_count t' = if i =? t_count t then t_count t + 1 else t_count t) by done.
  split.
  - rewrite Hcnt. destruct (Z.eqb_spec i (t_count t)); lia.
  - cbn [added t_next]. lia.
  - intros q k. rewrite added_key. cbn [added t_next]. destruct (Z.eqb_spec q p); [lia |].
    intros Hk. specialize (K3 q k Hk). lia.
  - apply added_lists_ok.
  - intros h'. unfold added_lists. destruct (h' =? h); [| done].
    apply NoDup_cons. split; [apply fresh_not_listed | done].
  - intros h' q. setoid_rewrite added_key. unfold added_lists.
    destruct (Z.eqb_spec q p) as [-> | Hne].
    + split.
      * destruct (Z.eqb_spec h' h) as [-> |]; [by eauto |]. by intros ?%fresh_not_listed.
      * intros (a & s & [= _ <- _]). rewrite Z.eqb_refl. apply elem_of_cons. by left.
    + rewrite <- K6. destruct (Z.eqb_spec h' h) as [-> |]; [| done].
      rewrite elem_of_cons. clear - Hne. naive_solver.
  - intros q a h' s. rewrite added_key. destruct (q =? p); [by intros [= <- <- <-] | apply K7].
  - intros q a h' s. rewrite added_key, added_atom_at, Hcnt. destruct (Z.eqb_spec q p) as [-> | Hne].
    + intros [= <- <- <-]. replace (i + MIN_STR_ATOM - MIN_STR_ATOM) with i by lia.
      rewrite Z.eqb_refl. split; [done |]. destruct (Z.eqb_spec i (t_count t)); lia.
    + intros Hk. destruct (K8 q a h' s Hk) as [Hs Hr].
      destruct (Z.eqb_spec (a - MIN_STR_ATOM) i) as [E | E].
      * exfalso. rewrite E, Hfree in Hs. specialize (K3 q _ Hk). lia.
      * split; [done |]. destruct (Z.eqb_spec i (t_count t)); lia.
  - intros j. rewrite added_atom_at. destruct (Z.eqb_spec j i) as [-> | Hne]; intros Hj.
    + rewrite added_key, Z.eqb_refl. by eauto.
    + rewrite added_key. destruct (Z.eqb_spec (atom_at t j) p) as [E |]; [| by apply K9].
      exfalso. destruct (K9 j Hj) as (h1 & s1 & Hk). rewrite E in Hk. congruence.
  - intros q1 a1 h1 s1 q2 a2 h2 s2. rewrite !added_key.
    destruct (Z.eqb_spec q1 p) as [-> |], (Z.eqb_spec q2 p) as [-> |].
    + done.
    + intros [= <- <- <-] Hk2 Hl. exfalso. by apply (Hnew q2 a2 h2 s2).
    + intros Hk1 [= <- <- <-] Hl. exfalso. by apply (Hnew q1 a1 h1 s1).
    + apply K10.
Qed.

Lemma added_names j : names t' j = if j =? i then Some (str, 1) else names t j.
Proof.
  unfold names. rewrite added_atom_at. destruct (Z.eqb_spec j i) as [-> | Hne].
  - cbn [added t_mem]. by rewrite lookup_insert_eq.
  - cbn [added t_mem]. assert (Hp : atom_at t j <> p).
    { intros E. destruct (Z.eq_dec (atom_at t j) NULL) as [E0 | E0].
      - pose proof (tk_next _ _ _ Hok). lia.
      - destruct (tk_atoms _ _ _ Hok j E0) as (h1 & s1 & Hk). rewrite E in Hk.
        by rewrite (mem_next _ _ _ Hok) in Hk. }
    rewrite lookup_insert_ne by done. destruct (_ =? NULL); [done |].
    destruct (Z.eq_dec (atom_at t j) (bucket t h)) as [E | E].
    + rewrite E, lookup_alter_eq. by destruct (t_mem t !! bucket t h).
    + by rewrite lookup_alter_ne.
Qed.
End Added.

(** ** An entry taken out *)

Definition removed (t : atom_table) (q : ptr) (e : atom_entry) : atom_table :=
  mkTable (t_count t) (<[e_atom e - MIN_STR_ATOM := NULL]> (t_atoms t))
    (if e_prev e =? NULL then <[e_hash e := e_next e]> (t_entries t) else t_entries t)
    (unlinked (t_mem t) q e) (t_next t) (t_allocs t) (t_error t).

Section Removed.
Context (t : atom_table) (ch : Z -> list ptr) (q : ptr) (e : atom_entry).
Context (Hok : table_ok casemap t ch) (He : t_mem t !! q = Some e).

#[local] Abbreviation t' := (removed t q e).

(** Links are changed, nothing else of other entries. *)
Lemma unlinked_lookup x :
  (x <> q -> exists f, (forall e, ekey (f e) = ekey e /\ e_count (f e) = e_count e) /\
             unlinked (t_mem t) q e !! x = f <$> t_mem t !! x) /\
  unlinked (t_mem t) q e !! q = None.
Proof.
  unfold unlinked. split; [| apply lookup_delete_eq]. intros Hx. rewrite lookup_delete_ne by done.
  set (mem1 := if negb (e_next e =? NULL) then _ else _).
  assert (H1 : exists f, (forall e, ekey (f e) = ekey e /\ e_count (f e) = e_count e) /\
                         mem1 !! x = f <$> t_mem t !! x).
  { unfold mem1. destruct (negb (e_next e =? NULL)).
    - destruct (Z.eq_dec x (e_next e)) as [-> | Hn].
      + exists (with_prev (e_prev e)). by rewrite lookup_alter_eq.
      + exists id. rewrite lookup_alter_ne by done. split; [done |]. by rewrite option_fmap_id.
    - exists id. split; [done |]. by rewrite option_fmap_id. }
  destruct H1 as (f & Hf & E). destruct (negb (e_prev e =? NULL)); [| by exists f].
  destruct (Z.eq_dec x (e_prev e)) as [-> | Hn].
  - exists (fun e0 => with_next (e_next e) (f e0)). rewrite lookup_alter_eq, E. split.
    + intros e0. apply Hf.
    + by destruct (t_mem t !! e_prev e).
  - exists f. by rewrite lookup_alter_ne.
Qed.

Lemma removed_key x : key t' x = if x =? q then None else key t x.
Proof.
  unfold key. cbn [removed t_mem]. destruct (unlinked_lookup x) as [H1 H2].
  destruct (Z.eqb_spec x q) as [-> | Hne]; [by rewrite H2 |].
  destruct (H1 Hne) as (f & Hf & ->). destruct (t_mem t !! x) as [e0 |]; [| done].
  cbn. by destruct (Hf e0) as [-> _].
Qed.

Lemma removed_atom_at j :
  atom_at t' j = if j =? e_atom e - MIN_STR_ATOM then NULL else atom_at t j.
Proof.
  unfold atom_at. cbn [removed t_atoms]. destruct (Z.eqb_spec j (e_atom e - MIN_STR_ATOM)) as [-> | Hne].
  - by rewrite lookup_insert_eq.
  - by rewrite lookup_insert_ne.
Qed.

Lemma entry_key : key t q = Some (e_atom e, e_hash e, e_str e).
Proof. apply key_some. by exists e. Qed.

(** Other hash lists do not reach the entries changed. *)
Lemma unlinked_frame h x l1 l2 :
  ch (e_hash e) = l1 ++ q :: l2 -> h <> e_hash e -> x ∈ ch h ->
  unlinked (t_mem t) q e !! x = t_mem t !! x.
Proof.
  intros El Hh Hx. pose proof (tk_lists _ _ _ Hok (e_hash e)) as Hs. rewrite El in Hs.
  apply seg_app in Hs as (m & H1 & (-> & e' & He' & Hp & H2)). simplify_eq.
  assert (Hnot : forall y, y ∈ ch (e_hash e) -> x <> y).
  { intros y Hy ->. apply Hh. by apply (lists_disjoint t ch h (e_hash e) y Hok). }
  assert (Hq : x <> q). { apply Hnot. rewrite El. apply elem_of_app. right. apply elem_of_cons. by left. }
  unfold unlinked. rewrite lookup_delete_ne by done.
  assert (Hprev : e_prev e <> NULL -> x <> e_prev e).
  { rewrite Hp. unfold last_or. intros Hn. destruct (last l1) as [z |] eqn:Ez; [| done].
    apply Hnot. rewrite El. apply elem_of_app. left. by apply last_Some_elem_of. }
  assert (Hnext : e_next e <> NULL -> x <> e_next e).
  { intros Hn. destruct l2 as [| y l2]; [done |]. destruct H2 as [-> _]. apply Hnot. rewrite El.
    apply elem_of_app. right. apply elem_of_cons. right. apply elem_of_cons. by left. }
  destruct (Z.eqb_spec (e_prev e) NULL), (Z.eqb_spec (e_next e) NULL); cbn [negb];
    rewrite ?lookup_alter_ne; auto using not_eq_sym.
Qed.

Lemma removed_ok : exists ch', table_ok casemap t' ch'.
Proof.
  pose proof entry_key as Hk. pose proof Hok as [K1 K2 K3 K4 K5 K6 K7 K8 K9 K10].
  assert (Hin : q ∈ ch (e_hash e)) by (apply K6; by eauto).
  apply list_elem_of_split in Hin as (l1 & l2 & El).
  exists (fun h => if h =? e_hash e then l1 ++ l2 else ch h).
  pose proof (K5 (e_hash e)) as Hn. rewrite El in Hn.
  pose proof (K4 (e_hash e)) as Hs. rewrite El in Hs.
  destruct (seg_unlink _ _ l1 q l2 e Hn (mem_null _ _ _ Hok) Hs He) as [Hseg _].
  assert (Hb : forall h, bucket t' h = if (e_prev e =? NULL) && (h =? e_hash e) then e_next e else bucket t h).
  { intros h. unfold bucket. cbn [removed t_entries]. destruct (e_prev e =? NULL); [| done].
    cbn [andb]. destruct (Z.eqb_spec h (e_hash e)) as [-> |];
      [by rewrite lookup_insert_eq | by rewrite lookup_insert_ne]. }
  split.
  - done.
  - done.
  - intros x k. rewrite removed_key. destruct (x =? q); [done |]. apply K3.
  - intros h. rewrite Hb. destruct (Z.eqb_spec h (e_hash e)) as [-> | Hne].
    + rewrite andb_true_r. exact Hseg.
    + rewrite andb_false_r. apply (seg_frame (t_mem t)); [| apply K4].
      intros x Hx. cbn [removed t_mem]. by apply (unlinked_frame h x l1 l2).
  - intros h. destruct (h =? e_hash e); [| done].
    apply NoDup_app in Hn as (N1 & N2 & [_ N3]%NoDup_cons). apply NoDup_app. split_and!; [done | | done].
    intros x Hx Hx2. apply (N2 x Hx). apply elem_of_cons. by right.
  - intros h x. setoid_rewrite removed_key. destruct (Z.eqb_spec x q) as [-> | Hxq].
    + split; [| by intros (a & s & ?)]. destruct (Z.eqb_spec h (e_hash e)) as [-> | Hne].
      * intros Hx. exfalso. apply NoDup_app in Hn as (_ & N2 & [N3 _]%NoDup_cons).
        apply elem_of_app in Hx as [Hx | Hx]; [| done]. apply (N2 q Hx). apply elem_of_cons. by left.
      * intros (a & s & Hk')%K6. congruence.
    + rewrite <- K6. destruct (Z.eqb_spec h (e_hash e)) as [-> |]; [| done]. rewrite El.
      rewrite !elem_of_app, elem_of_cons. clear - Hxq. naive_solver.
  - intros x a h s. rewrite removed_key. destruct (x =? q); [done |]. apply K7.
  - intros x a h s. rewrite removed_key, removed_atom_at. destruct (Z.eqb_spec x q) as [-> | Hne]; [done |].
    intros Hx. destruct (K8 x a h s Hx) as [Ha Hr]. cbn [removed t_count]. split; [| done].
    destruct (Z.eqb_spec (a - MIN_STR_ATOM) (e_atom e - MIN_STR_ATOM)) as [E |]; [| done].
    exfalso. destruct (K8 q _ _ _ Hk) as [Hq _]. rewrite <- E in Hq. congruence.
  - intros j. rewrite removed_atom_at. destruct (Z.eqb_spec j (e_atom e - MIN_STR_ATOM)); [done |].
    intros Hj. rewrite removed_key. destruct (K9 j Hj) as (h & s & Hx).
    destruct (Z.eqb_spec (atom_at t j) q) as [E |]; [| by eauto].
    exfalso. rewrite E, Hk in Hx. injection Hx as Hx _ _. lia.
  - intros q1 a1 h1 s1 q2 a2 h2 s2. rewrite !removed_key.
    destruct (q1 =? q); [done |]. destruct (q2 =? q); [done |]. apply K10.
Qed.

Lemma removed_names j :
  names t' j = if j =? e_atom e - MIN_STR_ATOM then None else names t j.
Proof.
  pose proof entry_key as Hk. destruct (tk_slot _ _ _ Hok q _ _ _ Hk) as [Hs _].
  unfold names. rewrite removed_atom_at. cbn [removed t_mem].
  assert (H0 : t_mem t !! NULL = None) by (by eapply mem_null).
  assert (Hq0 : q <> NULL) by (intros ->; by rewrite H0 in He).
  destruct (Z.eqb_spec j (e_atom e - MIN_STR_ATOM)) as [-> | Hne].
  - destruct (unlinked_lookup NULL) as [H1 _]. destruct (H1 (not_eq_sym Hq0)) as (f & _ & ->).
    by rewrite H0.
  - assert (Hx : atom_at t j <> q).
    { intros E. destruct (tk_atoms _ _ _ Hok j) as (h & s & Hj); [by rewrite E |].
      rewrite E, Hk in Hj. injection Hj as Hj _ _. lia. }
    destruct (unlinked_lookup (atom_at t j)) as [H1 _]. destruct (H1 Hx) as (f & Hf & ->).
    destruct (t_mem t !! atom_at t j) as [e0 |]; [| done]. cbn.
    destruct (Hf e0) as [[= _ _ ->] ->]. done.
Qed.
End Removed.
End Ops.
