(* ===== verification/AtomTheorems.v ===== *)
(** * What atom tables promise

    Each operation of a table against a finite map from indices to names and counts. *)

From stdpp Require Import base list gmap sets fin_sets.
From Stdlib Require Import ZArith Lia ZifyBool.
From S2P Require Import Prelude Atom AtomProofs AtomOps.

Open Scope Z_scope.

(** ** The abstract table *)

Abbreviation amap := (gmap Z (list Z * Z)).

Section Atoms.
Context (casemap : Z -> Z) (alloc_ok : nat -> Z -> bool).

(** No name of [m] equals [str] up to case. *)
Definition unknown (m : amap) (str : list Z) : Prop :=
  forall j n c, m !! j = Some (n, c) -> lower casemap n <> lower casemap str.

(** Adding: names that need no table; a known name is counted; a new one takes the
    lowest free index; the table may be full or memory short. *)
Inductive spec_add (m : amap) (str : list Z) : Z -> amap -> Prop :=
  | add_checked a st : check_name str = Some (a, st) -> spec_add m str a m
  | add_known i n c :
      check_name str = None -> m !! i = Some (n, c) -> lower casemap n = lower casemap str ->
      spec_add m str (i + MIN_STR_ATOM) (<[i := (n, i32 (c + 1))]> m)
  | add_new i :
      check_name str = None -> unknown m str -> 1 <= i < MAX_ATOMS -> m !! i = None ->
      (forall j, 1 <= j < i -> is_Some (m !! j)) ->
      spec_add m str (i + MIN_STR_ATOM) (<[i := (str, 1)]> m)
  | add_full :
      check_name str = None -> unknown m str ->
      (forall j, 1 <= j < MAX_ATOMS -> is_Some (m !! j)) -> spec_add m str 0 m
  | add_refused n bytes :
      check_name str = None -> unknown m str -> alloc_ok n bytes = false -> spec_add m str 0 m.

Inductive spec_find (m : amap) (str : list Z) : Z -> Prop :=
  | find_checked a st : check_name str = Some (a, st) -> spec_find m str a
  | find_known i n c :
      check_name str = None -> m !! i = Some (n, c) -> lower casemap n = lower casemap str ->
      spec_find m str (i + MIN_STR_ATOM)
  | find_unknown : check_name str = None -> unknown m str -> spec_find m str 0.

Definition spec_delete (m : amap) (atom : Z) : amap :=
  let i := atom - MIN_STR_ATOM in
  match m !! i with
  | Some (n, c) => if i32 (c - 1) =? 0 then delete i m else <[i := (n, i32 (c - 1))]> m
  | None => m
  end.

Definition spec_grab (m : amap) (atom : Z) : Z * amap :=
  let i := atom - MIN_STR_ATOM in
  if MIN_STR_ATOM <=? atom then
    match m !! i with
    | Some (n, c) => (atom, <[i := (n, i32 (c + 1))]> m)
    | None => (0, m)
    end
  else (atom, m).

(** ** The refinement *)

Definition refines (t : atom_table) (m : amap) : Prop :=
  (exists ch, table_ok casemap t ch) /\ forall i, names t i = m !! i.

Lemma create_refines : refines create_atom_table ∅.
Proof.
  split; [| done]. exists (fun _ => []). split; try done.
  - intros h. apply NoDup_nil_2.
  - intros h q. split; [by intros ?%elem_of_nil | by intros (a & s & ?)].
Qed.

(** Only the error and the allocator's state change. *)
Lemma bookkeeping_refines t t' m :
  t_count t' = t_count t -> t_next t <= t_next t' -> t_atoms t' = t_atoms t ->
  t_entries t' = t_entries t -> t_mem t' = t_mem t -> refines t m -> refines t' m.
Proof.
  intros E1 E2 E3 E4 E5 [[ch Hok] Hn]. split.
  - exists ch. apply (same_keys_ok casemap t); try done.
    + intros q. unfold key. by rewrite E5.
    + intros h. unfold bucket. rewrite E4, E5. apply Hok.
  - intros i. rewrite <- Hn. unfold names, atom_at. by rewrite E3, E5.
Qed.

Lemma error_refines st t m : refines t m -> refines (set_t_error st t) m.
Proof. apply bookkeeping_refines; done. Qed.

(** A slot in use has its entry. *)
Lemma names_some t ch i n c :
  table_ok casemap t ch -> names t i = Some (n, c) ->
  exists e, t_mem t !! atom_at t i = Some e /\ n = e_str e /\ c = e_count e /\
            e_atom e = i + MIN_STR_ATOM /\ atom_at t i <> NULL /\ 1 <= i < t_count t.
Proof.
  intros Hok (e & He & [= <- <-])%bind_Some.
  assert (Hq : atom_at t i <> NULL). { intros E. by rewrite E, (mem_null _ _ _ Hok) in He. }
  destruct (tk_atoms _ _ _ Hok i Hq) as (h & s & Hk). pose proof Hk as Hk'.
  apply key_some in Hk as (e' & He' & [= Ha _ _]). rewrite He in He'. injection He' as <-.
  destruct (tk_slot _ _ _ Hok _ _ _ _ Hk') as [_ Hr]. exists e. split_and!; try done; lia.
Qed.

Lemma names_none t ch i : table_ok casemap t ch -> names t i = None -> atom_at t i = NULL.
Proof.
  intros Hok Hn. destruct (Z.eq_dec (atom_at t i) NULL) as [| Hq]; [done |].
  destruct (tk_atoms _ _ _ Hok i Hq) as (h & s & (e & He & _)%key_some).
  unfold names in Hn. by rewrite He in Hn.
Qed.

Lemma get_atom_entry_spec atom t ch :
  table_ok casemap t ch ->
  let r := get_atom_entry atom t in
  (r = (NULL, set_t_error ATOM_INVALID_HANDLE t) /\ names t (atom - MIN_STR_ATOM) = None) \/
  (exists q e, r = (q, t) /\ q <> NULL /\ t_mem t !! q = Some e /\ e_atom e = atom /\
     names t (atom - MIN_STR_ATOM) = Some (e_str e, e_count e)).
Proof.
  intros Hok. unfold get_atom_entry. rewrite bind_run. cbn [mget fst snd]. rewrite bind_run.
  set (entry := if _ && _ then _ else _).
  destruct (names t (atom - MIN_STR_ATOM)) as [[n c] |] eqn:En.
  - right. destruct (names_some _ _ _ _ _ Hok En) as (e & He & -> & -> & Ha & Hq & Hr).
    exists (atom_at t (atom - MIN_STR_ATOM)), e.
    assert (entry = atom_at t (atom - MIN_STR_ATOM)) as ->.
    { unfold entry. by replace (_ && _) with true by lia. }
    replace (_ =? NULL) with false by lia. split_and!; try done. lia.
  - left. apply (names_none _ _ _ Hok) in En as Ea.
    assert (entry = NULL) as ->. { unfold entry. by destruct (_ && _). }
    done.
Qed.

(** The count of an entry changes. *)
Lemma count_refines t m q e (c : atom_entry -> Z) :
  refines t m -> t_mem t !! q = Some e ->
  refines (upd_entry q (fun e => with_count (c e) e) t)
    (<[e_atom e - MIN_STR_ATOM := (e_str e, c e)]> m).
Proof.
  intros [[ch Hok] Hn] He. split.
  - exists ch. apply count_ok; [| done]. intros e'. by exists (c e').
  - intros i. rewrite (names_count casemap t ch q e c Hok He).
    destruct (Z.eqb_spec i (e_atom e - MIN_STR_ATOM)) as [-> |];
      [by rewrite lookup_insert_eq | by rewrite lookup_insert_ne].
Qed.

(** ** Deleting, grabbing, finding *)

Lemma unlink_entry_run t q e :
  t_mem t !! q = Some e -> (unlink_entry q (e_atom e) t).2 = removed t q e.
Proof.
  intros He. unfold unlink_entry. rewrite bind_run. cbn [mget fst snd].
  assert (get_entry q t = e) as -> by (unfold get_entry; by rewrite He).
  unfold removed, unlinked. rewrite !bind_run.
  by destruct (e_next e =? NULL), (e_prev e =? NULL).
Qed.

Lemma delete_atom_refines atom t m :
  refines t m -> refines (delete_atom atom t).2 (spec_delete m atom).
Proof.
  intros Href. pose proof Href as [[ch Hok] Hn]. unfold delete_atom. rewrite bind_run.
  unfold spec_delete. rewrite <- Hn.
  destruct (get_atom_entry_spec atom t ch Hok) as [[-> En] | (q & e & -> & Hq & He & Ha & En)];
    cbn [fst snd]; rewrite En.
  { by apply error_refines. }
  replace (q =? NULL) with false by lia. rewrite bind_run. cbn [mmodify fst snd].
  set (f := fun e => with_count (i32 (e_count e - 1)) e).
  pose proof (count_refines t m q e (fun e => i32 (e_count e - 1)) Href He) as Hc. fold f in Hc.
  set (t1 := upd_entry q f t) in *.
  assert (He1 : t_mem t1 !! q = Some (f e)).
  { cbn [t1 upd_entry set_mem t_mem]. by rewrite lookup_alter_eq, He. }
  rewrite bind_run. cbn [mget fst snd].
  assert (get_entry q t1 = f e) as -> by (unfold get_entry; by rewrite He1).
  cbn [f with_count e_count]. destruct (Z.eqb_spec (i32 (e_count e - 1)) 0) as [E | E].
  - rewrite <- Ha. change (e_atom e) with (e_atom (f e)). rewrite (unlink_entry_run t1 q (f e) He1).
    destruct Hc as [[ch1 Hok1] Hn1]. split; [by eapply removed_ok |].
    intros i. rewrite (removed_names casemap t1 ch1 q (f e) Hok1 He1).
    change (e_atom (f e)) with (e_atom e) in *.
    destruct (Z.eqb_spec i (e_atom e - MIN_STR_ATOM)) as [-> |].
    + by rewrite lookup_delete_eq.
    + by rewrite Hn1, lookup_insert_ne, lookup_delete_ne by done.
  - rewrite <- Ha. exact Hc.
Qed.

Lemma grab_atom_refines atom t m :
  refines t m ->
  (grab_atom atom t).1 = (spec_grab m atom).1 /\ refines (grab_atom atom t).2 (spec_grab m atom).2.
Proof.
  intros Href. pose proof Href as [[ch Hok] Hn]. unfold grab_atom, spec_grab.
  destruct (MIN_STR_ATOM <=? atom); [| done]. rewrite bind_run, <- Hn.
  destruct (get_atom_entry_spec atom t ch Hok) as [[-> En] | (q & e & -> & Hq & He & Ha & En)];
    cbn [fst snd]; rewrite En.
  { split; [done |]. by apply error_refines. }
  replace (q =? NULL) with false by lia. rewrite bind_run. cbn [mmodify mreturn fst snd].
  split; [done |]. rewrite <- Ha.
  exact (count_refines t m q e (fun e => i32 (e_count e + 1)) Href He).
Qed.

Lemma unknown_iff t m str :
  refines t m ->
  (forall q a h s, key t q = Some (a, h, s) -> lower casemap s <> lower casemap str) <-> unknown m str.
Proof.
  intros [[ch Hok] Hn]. split.
  - intros H j n c Hj. rewrite <- Hn in Hj.
    destruct (names_some _ _ _ _ _ Hok Hj) as (e & He & -> & _).
    eapply (H (atom_at t j)). apply key_some. by exists e.
  - intros H q a h s Hk. destruct (tk_slot _ _ _ Hok _ _ _ _ Hk) as [Ha _].
    apply key_some in Hk as (e & He & [= -> -> ->]).
    apply (H (e_atom e - MIN_STR_ATOM) (e_str e) (e_count e)). rewrite <- Hn. unfold names.
    by rewrite Ha, He.
Qed.

Lemma known_name t m q e :
  refines t m -> t_mem t !! q = Some e ->
  m !! (e_atom e - MIN_STR_ATOM) = Some (e_str e, e_count e).
Proof.
  intros [[ch Hok] Hn] He. rewrite <- Hn. unfold names.
  destruct (tk_slot _ _ _ Hok q (e_atom e) (e_hash e) (e_str e)) as [-> _]; [apply key_some; by exists e |].
  by rewrite He.
Qed.

Lemma answer_refines r t m : refines t m -> refines (answer_name r t).2 m /\ (answer_name r t).1 = r.1.
Proof. intros H. unfold answer_name. destruct r.2; [split; [by apply error_refines | done] | done]. Qed.

Lemma find_atom_refines str t m :
  refines t m ->
  spec_find m str (find_atom casemap str t).1 /\ refines (find_atom casemap str t).2 m.
Proof.
  intros Href. pose proof Href as [[ch Hok] Hn]. unfold find_atom.
  destruct (check_name str) as [[a st] |] eqn:Ec.
  { destruct (answer_refines (a, st) t m Href) as [? ->]. split; [by eapply find_checked | done]. }
  cbv zeta. rewrite bind_run. cbn [mget fst snd]. fold (name_hash casemap str).
  destruct (find_atom_entry_spec casemap t ch str Hok) as [[-> Hu] | (Hr & e & He & Hl)]; cbv zeta in *.
  - cbn [Z.eqb]. rewrite bind_run. split; [apply find_unknown; [done | by apply (unknown_iff t)] |].
    by apply error_refines.
  - replace (_ =? NULL) with false by lia. cbn [mreturn fst snd]. split; [| done].
    assert (get_entry (find_atom_entry casemap t str (name_hash casemap str)) t = e) as ->
      by (unfold get_entry; by rewrite He).
    replace (e_atom e) with (e_atom e - MIN_STR_ATOM + MIN_STR_ATOM) by lia.
    eapply find_known; [done | by eapply (known_name t m) | done].
Qed.

(** ** Adding *)

Lemma free_index_spec fuel t i :
  1 <= i <= t_count t -> t_count t - i <= Z.of_nat fuel ->
  let r := free_index fuel t i in
  i <= r <= t_count t /\ (forall j, i <= j < r -> atom_at t j <> NULL) /\
  (r < t_count t -> atom_at t r = NULL).
Proof.
  revert i. induction fuel as [| fuel IH]; intros i Hi Hf; cbn [free_index].
  - split_and!; lia.
  - destruct (Z.ltb_spec i (t_count t)) as [L | L]; [| split_and!; lia].
    destruct (Z.eqb_spec (atom_at t i) NULL) as [E | E]; [split_and!; (done || lia) |].
    destruct (IH (i + 1)) as (I1 & I2 & I3); [lia | lia |]. cbv zeta in *.
    split_and!; [lia | lia | | done]. intros j Hj.
    destruct (Z.eq_dec j i) as [-> |]; [done |]. apply I2. lia.
Qed.

(** The search reads only the count and the slots. *)
Lemma free_index_same fuel t t' i :
  t_count t' = t_count t -> t_atoms t' = t_atoms t -> free_index fuel t' i = free_index fuel t i.
Proof.
  intros E1 E2. revert i. induction fuel as [| fuel IH]; intros i; cbn [free_index]; [done |].
  assert (atom_at t' i = atom_at t i) as -> by (unfold atom_at; by rewrite E2).
  by rewrite E1, IH.
Qed.

(** A new entry, in the table and at the head of its list. *)
Lemma add_new_run t ch i str :
  table_ok casemap t ch -> i = free_index (Z.to_nat (t_count t)) t 1 -> i < MAX_ATOMS ->
  let h := name_hash casemap str in
  let t0 := mkTable (t_count t) (t_atoms t) (t_entries t)
              (<[t_next t := fresh_entry]> (t_mem t)) (t_next t + 1) (S (t_allocs t)) (t_error t) in
  let r := add_atom_entry (t_next t) t0 in
  r.1 = i + MIN_STR_ATOM /\ (link_entry (t_next t) str h r.2).2 = added t i str h.
Proof.
  intros Hok Ei Hmax h t0.
  unfold add_atom_entry. rewrite bind_run. cbn [mget fst snd].
  rewrite (free_index_same _ t t0) by done. change (t_count t0) with (t_count t). rewrite <- Ei.
  replace (i =? MAX_ATOMS) with false by lia. rewrite !bind_run.
  assert (Hb : bucket t h <> t_next t).
  { intros E. pose proof (tk_next _ _ _ Hok) as Hp.
    pose proof (bucket_in casemap t ch h Hok ltac:(lia)) as Hin. rewrite E in Hin.
    apply (tk_listed _ _ _ Hok) in Hin as (a & s & Hk). by rewrite (mem_next _ _ _ Hok) in Hk. }
  assert (Hm : forall t1, t_mem t1 = t_mem t0 -> bucket t1 h = bucket t h ->
    (link_entry (t_next t) str h (upd_entry (t_next t) (with_atom (i + MIN_STR_ATOM)) t1)).2
    = mkTable (t_count t1) (t_atoms t1) (<[h := t_next t]> (t_entries t1))
        (t_mem (added t i str h)) (t_next t1) (t_allocs t1) (t_error t1)).
  { intros t1 Em Eb. unfold link_entry. rewrite bind_run. cbn [mget fst snd].
    change (bucket (upd_entry _ _ t1) h) with (bucket t1 h). rewrite Eb.
    cbn [added t_mem]. rewrite !bind_run.
    unfold mwhen. destruct (Z.eqb_spec (bucket t h) NULL) as [E | E]; cbn [negb];
      unfold mmodify, mreturn; cbn [snd]; unfold set_bucket, upd_entry, set_mem;
      cbn [t_mem t_count t_atoms t_entries t_next t_allocs t_error]; f_equal; rewrite Em; cbn [t0 t_mem].
    - by rewrite !alter_insert_eq.
    - rewrite !alter_insert_eq, alter_insert_ne by done. by rewrite alter_insert_eq. }
  unfold mwhen. destruct (i =? t_count t) eqn:E; cbn [mmodify mreturn fst snd]; (split; [done |]);
    rewrite Hm by done; unfold added; rewrite E; reflexivity.
Qed.

Lemma add_atom_refines str t m :
  refines t m ->
  let r := add_atom casemap alloc_ok str t in
  exists m', spec_add m str r.1 m' /\ refines r.2 m'.
Proof.
  intros Href. pose proof Href as [[ch Hok] Hn]. unfold add_atom.
  destruct (check_name str) as [[a st] |] eqn:Ec.
  { destruct (answer_refines (a, st) t m Href) as [? Ea]. cbv zeta. rewrite Ea.
    exists m. split; [by eapply add_checked | done]. }
  cbv zeta. rewrite bind_run. cbn [mget fst snd]. fold (name_hash casemap str).
  destruct (find_atom_entry_spec casemap t ch str Hok) as [[-> Hu] | (Hr & e & He & Hl)]; cbv zeta in *.
  2:{ replace (_ =? NULL) with false by lia. cbn [negb]. rewrite bind_run.
      cbn [mmodify mreturn fst snd].
      assert (get_entry (find_atom_entry casemap t str (name_hash casemap str)) t = e) as ->
        by (unfold get_entry; by rewrite He).
      eexists. split; [| exact (count_refines t m _ e (fun e => i32 (e_count e + 1)) Href He)].
      replace (e_atom e) with (e_atom e - MIN_STR_ATOM + MIN_STR_ATOM) at 1 by lia.
      eapply add_known; [done | by eapply (known_name t m) | done]. }
  pose proof (proj1 (unknown_iff t m str Href) Hu) as Hunk.
  cbn [Z.eqb negb]. rewrite bind_run. unfold atom_alloc.
  destruct (alloc_ok (t_allocs t) _) eqn:Eal; cbn [fst snd].
  2:{ cbn [Z.eqb]. exists m. split; [by eapply add_refused |].
      by apply (bookkeeping_refines t). }
  pose proof (tk_next _ _ _ Hok) as Hp. replace (t_next t =? NULL) with false by lia.
  pose proof (tk_count _ _ _ Hok) as Hcnt.
  destruct (free_index_spec (Z.to_nat (t_count t)) t 1) as (F1 & F2 & F3); [lia | lia |]. cbv zeta in *.
  set (i := free_index (Z.to_nat (t_count t)) t 1) in *.
  assert (Hused : forall j, 1 <= j < i -> is_Some (m !! j)).
  { intros j Hj. rewrite <- Hn. destruct (names t j) eqn:E; [done |].
    exfalso. apply (F2 j Hj). by eapply names_none. }
  assert (Hfree : atom_at t i = NULL).
  { destruct (Z.eq_dec i (t_count t)) as [E |]; [| apply F3; lia].
    apply (names_none t ch); [done |]. destruct (names t i) as [[n c] |] eqn:En; [| done].
    destruct (names_some _ _ _ _ _ Hok En) as (? & _ & _ & _ & _ & _ & ?). lia. }
  rewrite bind_run. destruct (Z.eq_dec i MAX_ATOMS) as [Emax | Hmax].
  - (* no slot is free *)
    set (t0 := mkTable _ _ _ _ _ _ _).
    assert (Er : add_atom_entry (t_next t) t0 = (0, t0)).
    { unfold add_atom_entry. rewrite bind_run. cbn [mget fst snd].
      rewrite (free_index_same _ t t0) by done. change (t_count t0) with (t_count t). fold i.
      by replace (i =? MAX_ATOMS) with true by lia. }
    rewrite Er. cbn [fst snd Z.eqb negb]. rewrite !bind_run.
    exists m. split; [apply add_full; [done | done |]; intros j Hj; apply Hused; lia |].
    apply (bookkeeping_refines t); cbn [t0 mmodify mreturn free_entry fst snd set_mem set_t_error
      t_count t_next t_atoms t_entries t_mem]; try done; [lia |].
    apply delete_insert_id. apply key_none. by eapply mem_next.
  - destruct (add_new_run t ch i str Hok eq_refl ltac:(lia)) as [Ea El]. cbv zeta in *.
    rewrite Ea. replace (i + MIN_STR_ATOM =? 0) with false by (unfold MIN_STR_ATOM; lia).
    cbn [negb]. rewrite bind_run, El. cbn [mreturn fst snd].
    exists (<[i := (str, 1)]> m). split.
    + apply add_new; [done | done | lia | | done]. rewrite <- Hn. unfold names.
      by rewrite Hfree, (mem_null _ _ _ Hok).
    + split; [eexists; apply added_ok; (done || lia) |]. intros j.
      rewrite (added_names casemap t ch) by done.
      destruct (Z.eqb_spec j i) as [-> |]; [by rewrite lookup_insert_eq | by rewrite lookup_insert_ne].
Qed.

(** Freeing entries one by one. *)
Lemma free_entries_mem (f : Z -> ptr) js t q :
  t_mem (mfor (fun i => free_entry (f i)) js t).2 !! q =
  if decide (q ∈ map f js) then None else t_mem t !! q.
Proof.
  revert t. induction js as [| i js IH]; intros t; cbn [mfor map].
  { rewrite decide_False; [done |]. apply not_elem_of_nil. }
  rewrite bind_run, IH. cbn [free_entry mmodify fst snd set_mem t_mem].
  destruct (decide (q = f i)) as [-> | Hne].
  - rewrite lookup_delete_eq, (decide_True (P := f i ∈ f i :: _)) by (apply elem_of_cons; by left).
    by destruct (decide _).
  - rewrite lookup_delete_ne by done. destruct (decide (q ∈ map f js)) as [Hq | Hq].
    + rewrite decide_True; [done |]. apply elem_of_cons. by right.
    + rewrite decide_False; [done |]. by intros [? | ?]%elem_of_cons.
Qed.

Lemma destroy_frees_all t m : refines t m -> t_mem (atom_table_destroy t).2 = ∅.
Proof.
  intros [[ch Hok] _]. unfold atom_table_destroy. rewrite bind_run. cbn [mget fst snd].
  apply map_eq. intros q. rewrite lookup_empty, free_entries_mem. destruct (decide _) as [| Hn]; [done |].
  apply key_none. destruct (key t q) as [[[a h] s] |] eqn:E; [| done]. exfalso. apply Hn.
  destruct (tk_slot _ _ _ Hok q a h s E) as [Ha Hr].
  apply list_elem_of_In, in_map_iff. exists (a - MIN_STR_ATOM). split; [done |].
  apply in_map_iff. exists (Z.to_nat (a - MIN_STR_ATOM)). split; [lia | apply in_seq; lia].
Qed.

(** C10: a new table is the empty map, and every operation on a table that represents a map
    does to it what the abstract operation does: adding counts a known name, whatever
    its case, and gives a new name the lowest free atom; deleting gives a reference
    back and frees the atom at zero; finding and grabbing answer from the map; names
    and counts are reported as they are; destroying the table frees every entry. *)
Theorem atom_operations_refine_names t m :
  refines t m ->
  (forall str, exists m', spec_add m str (add_atom casemap alloc_ok str t).1 m' /\
     refines (add_atom casemap alloc_ok str t).2 m') /\
  (forall str, spec_find m str (find_atom casemap str t).1 /\
     refines (find_atom casemap str t).2 m) /\
  (forall atom, refines (delete_atom atom t).2 (spec_delete m atom)) /\
  (forall atom, (grab_atom atom t).1 = (spec_grab m atom).1 /\
     refines (grab_atom atom t).2 (spec_grab m atom).2) /\
  (forall atom, MIN_STR_ATOM <= atom -> (release_atom atom t).2 = (delete_atom atom t).2) /\
  (forall atom max_size,
     let r := req_get_atom_information atom max_size t in
     refines r.2 m /\
     match m !! (atom - MIN_STR_ATOM) with
     | Some (n, c) => ai_count r.1 = c /\ ai_total r.1 = 2 * Z.of_nat (length n) /\
                      (ai_total r.1 <= max_size -> ai_name r.1 = n)
     | None => ai_count r.1 = -1 /\ t_error r.2 = ATOM_INVALID_HANDLE
     end) /\
  t_mem (atom_table_destroy t).2 = ∅.
Proof.
  intros Href. split_and!; [| | | | | | exact (destroy_frees_all t m Href)].
  - intros str. by apply add_atom_refines.
  - intros str. by apply find_atom_refines.
  - intros atom. by apply delete_atom_refines.
  - intros atom. by apply grab_atom_refines.
  - intros atom Ha. unfold release_atom. by replace (MIN_STR_ATOM <=? atom) with true by lia.
  - intros atom max_size. unfold req_get_atom_information. cbv zeta.
    pose proof Href as [[ch Hok] Hn]. rewrite <- Hn, !bind_run.
    destruct (get_atom_entry_spec atom t ch Hok) as [[-> En] | (q & e & -> & Hq & He & Ha & En)];
      cbn [mget fst snd]; rewrite En.
    { split; [by apply error_refines | done]. }
    replace (q =? NULL) with false by lia. cbn [mreturn fst snd].
    assert (get_entry q t = e) as -> by (unfold get_entry; by rewrite He).
    split; [done |]. cbn [ai_count ai_total ai_name]. split; [done |]. split; [done |].
    intros Hle. rewrite Z.min_l by lia.
    replace (2 * Z.of_nat (length (e_str e)) / 2) with (Z.of_nat (length (e_str e)))
      by (rewrite Z.mul_comm, Z.div_mul; lia).
    rewrite Nat2Z.id. apply firstn_all.
Qed.

(** ** From a name to its atom and back *)

Lemma int_atom_digits_range str ret : 0 <= ret < MAXINTATOM -> 0 <= int_atom_digits str ret < MAXINTATOM.
Proof.
  revert ret. induction str as [| c str IH]; intros ret Hr; cbn [int_atom_digits]; [done |].
  destruct (_ || _); [unfold MAXINTATOM; lia |].
  destruct (Z.leb_spec MAXINTATOM (u32 (u32 (ret * 10) + c - 48))) as [L | L]; [unfold MAXINTATOM; lia |].
  apply IH. split; [apply uwrap_range; lia | done].
Qed.

Lemma check_name_range str a st : check_name str = Some (a, st) -> 0 <= a < MIN_STR_ATOM.
Proof.
  unfold check_name. destruct (Nat.eqb _ _); [intros [= <- <-]; by unfold MIN_STR_ATOM |].
  destruct (_ <? _); [intros [= <- <-]; by unfold MIN_STR_ATOM |].
  destruct (negb _); [| done]. intros [= <- <-]. unfold get_int_atom_value.
  destruct str as [| c str]; [by unfold MIN_STR_ATOM |]. destruct (negb _); [by unfold MIN_STR_ATOM |].
  apply (int_atom_digits_range str 0). by unfold MAXINTATOM.
Qed.

Lemma refines_unique t m i j n1 c1 n2 c2 :
  refines t m -> m !! i = Some (n1, c1) -> m !! j = Some (n2, c2) ->
  lower casemap n1 = lower casemap n2 -> i = j.
Proof.
  intros [[ch Hok] Hn] Hi Hj Hl. rewrite <- Hn in Hi, Hj.
  destruct (names_some _ _ _ _ _ Hok Hi) as (e1 & H1 & -> & _ & Ha1 & _).
  destruct (names_some _ _ _ _ _ Hok Hj) as (e2 & H2 & -> & _ & Ha2 & _).
  assert (E : atom_at t i = atom_at t j).
  { eapply (tk_unique _ _ _ Hok); [| | exact Hl]; apply key_some; eauto. }
  rewrite E, H2 in H1. injection H1 as <-. lia.
Qed.

Lemma i32_back c : 0 < c < 2 ^ 31 - 1 -> i32 (i32 (c + 1) - 1) = c.
Proof.
  intros Hc. rewrite (swrap_small 32 (c + 1)) by lia. rewrite swrap_small by lia. lia.
Qed.

(** A string atom just added is found again under every spelling of its name, is
    reported with the name it was first given, and deleting it once undoes the
    addition. *)
Theorem atom_add_find_delete_roundtrip t m str :
  refines t m ->
  let r := add_atom casemap alloc_ok str t in
  MIN_STR_ATOM <= r.1 ->
  (forall str', lower casemap str' = lower casemap str -> check_name str' = None ->
     (find_atom casemap str' r.2).1 = r.1) /\
  (exists n c, names r.2 (r.1 - MIN_STR_ATOM) = Some (n, c) /\ lower casemap n = lower casemap str) /\
  ((forall n c, names t (r.1 - MIN_STR_ATOM) = Some (n, c) -> 0 < c < 2 ^ 31 - 1) ->
   forall i, names (delete_atom r.1 r.2).2 i = names t i).
Proof.
  intros Href r Hr. pose proof Href as [_ Hn].
  destruct (add_atom_refines str t m Href) as (m' & Hadd & Href'). cbv zeta in *. fold r in Hadd, Href'.
  assert (Hcase : exists i n c, r.1 = i + MIN_STR_ATOM /\ m' = <[i := (n, c)]> m /\
    lower casemap n = lower casemap str /\
    ((m !! i = None /\ c = 1) \/ exists c0, m !! i = Some (n, c0) /\ c = i32 (c0 + 1))).
  { destruct Hadd as [a st Hc | i n c Hc Hi Hl | i Hc Hu Hi Hi' Hj | | n b].
    - apply check_name_range in Hc. lia.
    - exists i, n, (i32 (c + 1)). eauto 10.
    - exists i, str, 1. eauto 10.
    - unfold MIN_STR_ATOM in Hr. lia.
    - unfold MIN_STR_ATOM in Hr. lia. }
  clear Hadd. destruct Hcase as (i & n & c & Ei & -> & Hl & Hc).
  replace (r.1 - MIN_STR_ATOM) with i by lia. pose proof Href' as [_ Hn']. split_and!.
  - intros str' Hl' Hchk. destruct (find_atom_refines str' r.2 _ Href') as [Hf _].
    destruct Hf as [a st Hc' | j n' c' _ Hj Hlj | _ Hu].
    + congruence.
    + rewrite Ei. f_equal.
      eapply (refines_unique r.2 _ j i n' c' n c Href' Hj); [apply lookup_insert_eq | congruence].
    + exfalso. apply (Hu i n c); [apply lookup_insert_eq | congruence].
  - exists n, c. rewrite Hn'. split; [apply lookup_insert_eq | done].
  - intros Hcnt j. destruct (delete_atom_refines r.1 r.2 _ Href') as [_ Hd]. rewrite Hd, Hn.
    unfold spec_delete. replace (r.1 - MIN_STR_ATOM) with i by lia. rewrite lookup_insert_eq.
    destruct Hc as [[Hnone ->] | (c0 & Hsome & ->)].
    + replace (i32 (1 - 1) =? 0) with true by done. destruct (Z.eq_dec j i) as [-> |].
      * by rewrite lookup_delete_eq.
      * by rewrite lookup_delete_ne, lookup_insert_ne by done.
    + rewrite Hn in Hcnt. specialize (Hcnt n c0 Hsome). rewrite i32_back by lia.
      replace (c0 =? 0) with false by lia. destruct (Z.eq_dec j i) as [-> |].
      * by rewrite lookup_insert_eq.
      * by rewrite !lookup_insert_ne by done.
Qed.
End Atoms.

(** ** Examples *)

(** A case mapping with the three levels of the file's: the letters A to O. *)
Definition demo_casemap (i : Z) : Z :=
  if i <? 0x100 then 0x100
  else if i =? 0x104 then 0x200
  else if i <? 0x200 then 0x300
  else if (0x201 <=? i) && (i <=? 0x20f) then 32 else 0.

Definition demo_grant (n : nat) (bytes : Z) : bool := true.

Lemma atom_operations_refine_names_witness :
  exists m', spec_add demo_casemap demo_grant ∅ [0x41] (0xc001) m'.
Proof.
  destruct (atom_operations_refine_names demo_casemap demo_grant create_atom_table ∅
    (create_refines demo_casemap)) as [H _].
  destruct (H [0x41]) as (m' & Hm & _). exists m'. exact Hm.
Defined.

Lemma atom_add_find_delete_roundtrip_witness :
  let t1 := (add_atom demo_casemap demo_grant [0x41; 0x43] create_atom_table).2 in
  (find_atom demo_casemap [0x61; 0x43] t1).1 = 0xc001.
Proof.
  apply (atom_add_find_delete_roundtrip demo_casemap demo_grant create_atom_table ∅ [0x41; 0x43]
    (create_refines demo_casemap)).
  - vm_compute. discriminate.
  - reflexivity.
  - reflexivity.
Defined.
