(* ===== verification/Completion.v ===== *)
(** * Completion ports of the wineserver

    Models [src/server/completion.c].  A port queues messages; a thread that finds the
    queue empty gets a wait object of its own, which the port's messages satisfy.  The
    wait machinery of [src/server/thread.c] is seen through [wakes]: how many waiting
    threads a call of [wake_up] finds for a wait object.  Each of them is woken only
    while the object is signalled, and its wait is satisfied then.

    Wait objects are linked into the queue of their port by a list entry inside them;
    taking an entry out of a list it is not in follows stale pointers and is recorded
    as a fault, as is a failed assertion or a port that is gone.  Object names, access
    rights and the reference counts of ports are not modelled: a request takes the port
    its handle was resolved to.  A wait object lives as long as its thread uses it.
    [cs_trace] lists the messages queued and taken, for the theorems. *)

From stdpp Require Import base list gmap.
From Stdlib Require Import ZArith Lia.
From S2P Require Import Prelude.

Open Scope Z_scope.

Definition COMP_USER_APC : Z := 0xC0.
Definition COMP_PENDING : Z := 0x103.
Definition COMP_INVALID_HANDLE : Z := 0xC0000008.
Definition COMP_NO_MEMORY : Z := 0xC0000017.

Record comp_msg := mkMsg { ckey : Z; cvalue : Z; information : Z; status : Z }.

Record completion := mkPort {
  c_queue : list comp_msg;
  c_wait_queue : list ptr;
  c_depth : Z;
  c_concurrent : Z;
  c_sync : bool
}.

Record completion_wait := mkCWait {
  cw_handle : Z;
  cw_completion : ptr;
  cw_thread : ptr;
  cw_msg : option comp_msg
}.

Inductive comp_event := Queued (port : ptr) (m : comp_msg) | Taken (port : ptr) (m : comp_msg).

Record cstate := mkCState {
  cs_ports : gmap Z completion;
  cs_waits : gmap Z completion_wait;
  cs_thread_wait : gmap Z ptr;
  cs_next : ptr;
  cs_calls : nat;
  cs_allocs : nat;
  cs_error : Z;
  cs_fault : bool;
  cs_trace : list comp_event
}.

Definition set_ports v s := mkCState v (cs_waits s) (cs_thread_wait s) (cs_next s)
  (cs_calls s) (cs_allocs s) (cs_error s) (cs_fault s) (cs_trace s).
Definition set_cwaits v s := mkCState (cs_ports s) v (cs_thread_wait s) (cs_next s)
  (cs_calls s) (cs_allocs s) (cs_error s) (cs_fault s) (cs_trace s).
Definition set_thread_wait v s := mkCState (cs_ports s) (cs_waits s) v (cs_next s)
  (cs_calls s) (cs_allocs s) (cs_error s) (cs_fault s) (cs_trace s).
Definition set_cnext v s := mkCState (cs_ports s) (cs_waits s) (cs_thread_wait s) v
  (cs_calls s) (cs_allocs s) (cs_error s) (cs_fault s) (cs_trace s).
Definition set_calls v s := mkCState (cs_ports s) (cs_waits s) (cs_thread_wait s) (cs_next s)
  v (cs_allocs s) (cs_error s) (cs_fault s) (cs_trace s).
Definition set_allocs v s := mkCState (cs_ports s) (cs_waits s) (cs_thread_wait s) (cs_next s)
  (cs_calls s) v (cs_error s) (cs_fault s) (cs_trace s).
Definition set_cerror v s := mkCState (cs_ports s) (cs_waits s) (cs_thread_wait s) (cs_next s)
  (cs_calls s) (cs_allocs s) v (cs_fault s) (cs_trace s).
Definition set_cfault s := mkCState (cs_ports s) (cs_waits s) (cs_thread_wait s) (cs_next s)
  (cs_calls s) (cs_allocs s) (cs_error s) true (cs_trace s).
Definition set_ctrace v s := mkCState (cs_ports s) (cs_waits s) (cs_thread_wait s) (cs_next s)
  (cs_calls s) (cs_allocs s) (cs_error s) (cs_fault s) v.

Abbreviation Cp := (M cstate).

Definition cfault : Cp unit := mmodify set_cfault.
Definition cassert (b : bool) : Cp unit := mwhen (negb b) cfault.

Definition no_port : completion := mkPort [] [] 0 0 false.
Definition no_cwait : completion_wait := mkCWait 0 NULL NULL None.

Definition get_port (p : ptr) : Cp completion :=
  let! s := mget in
  match cs_ports s !! p with Some c => mreturn c | None => cfault ;;; mreturn no_port end.
Definition put_port (p : ptr) (c : completion) : Cp unit :=
  mmodify (fun s => set_ports (<[p := c]> (cs_ports s)) s).
Definition get_wait (w : ptr) : Cp completion_wait :=
  let! s := mget in
  match cs_waits s !! w with Some c => mreturn c | None => cfault ;;; mreturn no_cwait end.
Definition put_wait (w : ptr) (c : completion_wait) : Cp unit :=
  mmodify (fun s => set_cwaits (<[w := c]> (cs_waits s)) s).

(** [thread->completion_wait] *)
Definition completion_wait_of (t : ptr) : Cp ptr :=
  mgets (fun s => default NULL (cs_thread_wait s !! t)).
Definition set_completion_wait (t w : ptr) : Cp unit :=
  mmodify (fun s => set_thread_wait (<[t := w]> (cs_thread_wait s)) s).

Definition log_event (e : comp_event) : Cp unit :=
  mmodify (fun s => set_ctrace (cs_trace s ++ [e]) s).

(** [list_remove( &wait->wait_queue_entry )]: out of the list the entry is in. *)
Definition drop_waiter (w : ptr) (c : completion) : completion :=
  mkPort (c_queue c) (filter (fun x => x <> w) (c_wait_queue c)) (c_depth c) (c_concurrent c)
         (c_sync c).

Definition linked (w : ptr) (s : cstate) : bool :=
  existsb (fun pc : Z * completion => bool_decide (w ∈ c_wait_queue pc.2)) (map_to_list (cs_ports s)).

Definition list_remove_wait (w : ptr) : Cp unit :=
  let! s := mget in
  cassert (linked w s) ;;;
  mmodify (fun s => set_ports (drop_waiter w <$> cs_ports s) s).

Section Completion.
Context (wakes : nat -> ptr -> nat) (alloc_ok : nat -> bool).

(** ** Wait objects *)

Definition completion_wait_signaled (w : ptr) : Cp bool :=
  let! wait := get_wait w in
  if cw_completion wait =? NULL then mreturn true
  else let! c := get_port (cw_completion wait) in mreturn (negb (c_depth c =? 0)).

(** A wait on a port that was closed only ends as abandoned. *)
Definition completion_wait_satisfied (w : ptr) : Cp unit :=
  let! wait := get_wait w in
  let p := cw_completion wait in
  if p =? NULL then mreturn tt
  else
    let! c := get_port p in
    match c_queue c with
    | [] => cfault
    | msg :: queue =>
        put_port p (mkPort queue (c_wait_queue c) (u32 (c_depth c - 1)) (c_concurrent c) (c_sync c)) ;;;
        log_event (Taken p msg) ;;;
        put_wait w (mkCWait (cw_handle wait) p (cw_thread wait) (Some msg))
    end.

(** A thread whose wait includes the object ends it if the object is signalled. *)
Definition wake_one (w : ptr) : Cp bool :=
  let! ok := completion_wait_signaled w in
  mwhen ok (completion_wait_satisfied w) ;;;
  mreturn ok.

Fixpoint wake_n (n : nat) (w : ptr) : Cp unit :=
  match n with
  | O => mreturn tt
  | S n' => let! ok := wake_one w in if ok then wake_n n' w else mreturn tt
  end.

(** [wake_up( &wait->obj, max )]; 0 is no limit. *)
Definition wake_up_wait (w : ptr) (max : nat) : Cp unit :=
  let! s := mget in
  let n := wakes (cs_calls s) w in
  mmodify (set_calls (S (cs_calls s))) ;;;
  wake_n (match max with O => n | _ => Nat.min n max end) w.

(** ** Ports *)

Definition try_allocate : Cp bool := fun s =>
  (alloc_ok (cs_allocs s),
   set_allocs (S (cs_allocs s))
     (if alloc_ok (cs_allocs s) then s else set_cerror COMP_NO_MEMORY s)).

(** [n] allocations, given back when a later one fails. *)
Fixpoint try_allocs (n : nat) : Cp bool :=
  match n with
  | O => mreturn true
  | S n' => let! ok := try_allocate in if ok then try_allocs n' else mreturn false
  end.

Definition completion_init (concurrent : Z) : completion := mkPort [] [] 0 concurrent false.

(** The port, its sync object and its handle. *)
Definition req_create_completion (concurrent : Z) : Cp ptr :=
  let! ok := try_allocs 3 in
  if negb ok then mreturn NULL
  else
    let! s := mget in
    put_port (cs_next s) (completion_init concurrent) ;;;
    mmodify (set_cnext (cs_next s + 1)) ;;;
    mreturn (cs_next s).

Definition signal_sync (p : ptr) (v : bool) : Cp unit :=
  let! c := get_port p in
  put_port p (mkPort (c_queue c) (c_wait_queue c) (c_depth c) (c_concurrent c) v).

(** The waits of the port in order; [true] when the queue is empty again. *)
Fixpoint offer (p : ptr) (ws : list ptr) : Cp bool :=
  match ws with
  | [] => mreturn false
  | w :: ws' =>
      wake_up_wait w 1 ;;;
      let! c := get_port p in
      match c_queue c with
      | [] => mreturn true
      | _ :: _ => offer p ws'
      end
  end.

Definition add_completion (p : ptr) (msg : comp_msg) : Cp unit :=
  let! ok := try_allocate in
  if negb ok then mreturn tt
  else
    let! c := get_port p in
    put_port p (mkPort (c_queue c ++ [msg]) (c_wait_queue c) (u32 (c_depth c + 1))
                       (c_concurrent c) (c_sync c)) ;;;
    log_event (Queued p msg) ;;;
    let! stop := offer p (c_wait_queue c) in
    if stop then mreturn tt
    else
      let! c := get_port p in
      match c_queue c with
      | [] => mreturn tt
      | _ :: _ => signal_sync p true
      end.

(** [cleanup_thread_completion]: the handle is closed and the last reference to the
    wait object given back. *)
Definition cleanup_thread_completion (t : ptr) : Cp unit :=
  let! w := completion_wait_of t in
  if w =? NULL then mreturn tt
  else
    let! wait := get_wait w in
    mwhen (negb (cw_completion wait =? NULL)) (list_remove_wait w) ;;;
    mmodify (fun s => set_cwaits (delete w (cs_waits s)) s) ;;;
    set_completion_wait t NULL.

Definition close_wait (w : ptr) : Cp unit :=
  let! wait := get_wait w in
  cassert (negb (cw_completion wait =? NULL)) ;;;
  put_wait w (mkCWait (cw_handle wait) NULL (cw_thread wait) (cw_msg wait)) ;;;
  list_remove_wait w ;;;
  match cw_msg wait with
  | Some _ => mreturn tt
  | None =>
      wake_up_wait w 0 ;;;
      cleanup_thread_completion (cw_thread wait)
  end.

Definition completion_close_handle (p : ptr) (handle_count : Z) : Cp unit :=
  if negb (handle_count =? 1) then mreturn tt
  else
    let! c := get_port p in
    mfor close_wait (c_wait_queue c) ;;;
    signal_sync p true.

(** [completion_destroy]: the last reference to a port is gone. *)
Definition completion_destroy (p : ptr) : Cp unit :=
  mmodify (fun s => set_ports (delete p (cs_ports s)) s).

(** The wait object and its handle. *)
Definition create_completion_wait (t : ptr) : Cp ptr :=
  let! ok := try_allocs 2 in
  if negb ok then mreturn NULL
  else
    let! s := mget in
    let w := cs_next s in
    put_wait w (mkCWait w NULL t None) ;;;
    mmodify (set_cnext (w + 1)) ;;;
    mreturn w.

(** ** Requests *)

(** [reserve_ok]: no reserve object was named, or it was found. *)
Definition req_add_completion (p : ptr) (reserve_ok : bool) (msg : comp_msg) : Cp unit :=
  if reserve_ok then add_completion p msg else mreturn tt.

(** The reply of [remove_completion]: a message or a handle to wait for. *)
Inductive remove_reply := Reply_none | Reply_msg (m : comp_msg) | Reply_wait (handle : Z).

(** The wait object of the thread is moved to the port asked for. *)
Definition join_port (t p : ptr) : Cp ptr :=
  let! w := completion_wait_of t in
  if negb (w =? NULL) then list_remove_wait w ;;; mreturn w
  else
    let! w := create_completion_wait t in
    mwhen (negb (w =? NULL)) (set_completion_wait t w) ;;;
    mreturn w.

Definition attach_wait (w p : ptr) : Cp unit :=
  let! wait := get_wait w in
  put_wait w (mkCWait (cw_handle wait) p (cw_thread wait) (cw_msg wait)) ;;;
  let! c := get_port p in
  put_port p (mkPort (c_queue c) (w :: c_wait_queue c) (c_depth c) (c_concurrent c) (c_sync c)).

(** The end of [remove_completion]: the first message, or the handle to wait for. *)
Definition take_or_wait (w p : ptr) : Cp remove_reply :=
  let! c := get_port p in
  match c_queue c with
  | [] =>
      let! wait := get_wait w in
      mmodify (set_cerror COMP_PENDING) ;;;
      mreturn (Reply_wait (cw_handle wait))
  | msg :: queue =>
      put_port p (mkPort queue (c_wait_queue c) (u32 (c_depth c - 1)) (c_concurrent c)
                    (match queue with [] => false | _ => c_sync c end)) ;;;
      log_event (Taken p msg) ;;;
      mreturn (Reply_msg msg)
  end.

(** [alertable_apc]: the wait is alertable and the thread has a user APC. *)
Definition req_remove_completion (t p : ptr) (alertable_apc : bool) : Cp remove_reply :=
  let! c := get_port p in
  let! s := mget in
  let! cur := completion_wait_of t in
  let waiting_here :=
    negb (cur =? NULL) && (cw_completion (default no_cwait (cs_waits s !! cur)) =? p) in
  if alertable_apc && negb (negb (Nat.eqb (length (c_queue c)) 0) && waiting_here) then
    mmodify (set_cerror COMP_USER_APC) ;;; mreturn Reply_none
  else
    let! w := join_port t p in
    if w =? NULL then mreturn Reply_none
    else
      attach_wait w p ;;;
      take_or_wait w p.

Definition req_get_thread_completion (t : ptr) : Cp (option comp_msg) :=
  let! w := completion_wait_of t in
  if w =? NULL then mmodify (set_cerror COMP_INVALID_HANDLE) ;;; mreturn None
  else
    let! wait := get_wait w in
    match cw_msg wait with
    | None => mmodify (set_cerror COMP_INVALID_HANDLE) ;;; mreturn None
    | Some msg =>
        put_wait w (mkCWait (cw_handle wait) (cw_completion wait) (cw_thread wait) None) ;;;
        mwhen (cw_completion wait =? NULL) (cleanup_thread_completion t) ;;;
        mreturn (Some msg)
    end.

Definition req_query_completion (p : ptr) : Cp Z :=
  let! c := get_port p in mreturn (c_depth c).

(** A thread waits for the handle of a wait object (of its own or another thread). *)
Definition wait_for (w : ptr) : Cp bool := wake_one w.
End Completion.
