(* ===== verification/CompletionProofs.v ===== *)
(** * Completion ports as queues

    [links_ok]: wait objects, threads and the wait queues of ports point at each other
    as they should.  [queues_ok]: the messages queued at a port and not yet taken are
    its queue, in order, and a port that is not empty is signalled. *)

From stdpp Require Import base list gmap.
From Stdlib Require Import ZArith Lia ZifyBool.
From S2P Require Import Prelude Completion.

Open Scope Z_scope.

(** ** The invariant *)

(** Messages queued at and taken from a port. *)
Definition queued (p : ptr) (tr : list comp_event) : list comp_msg :=
  omap (fun e => match e with Queued q m => if q =? p then Some m else None | _ => None end) tr.
Definition taken (p : ptr) (tr : list comp_event) : list comp_msg :=
  omap (fun e => match e with Taken q m => if q =? p then Some m else None | _ => None end) tr.

Definition wq (s : cstate) (p : ptr) : option (list ptr) := c_wait_queue <$> cs_ports s !! p.
Definition wl (s : cstate) (w : ptr) : option (ptr * ptr) :=
  (fun x => (cw_completion x, cw_thread x)) <$> cs_waits s !! w.
Definition tw (s : cstate) (t : ptr) : ptr := default NULL (cs_thread_wait s !! t).

Record links_ok (s : cstate) : Prop := mkLinks {
  lk_next : 0 < cs_next s;
  lk_ports : forall p l, wq s p = Some l ->
    0 < p < cs_next s /\ NoDup l /\ forall w, w ∈ l -> exists t, wl s w = Some (p, t);
  lk_waits : forall w p t, wl s w = Some (p, t) ->
    0 < w < cs_next s /\ tw s t = w /\ (p <> NULL -> exists l, wq s p = Some l /\ w ∈ l);
  lk_threads : forall t, tw s t <> NULL -> exists p, wl s (tw s t) = Some (p, t)
}.

(** [x] is a port whose signal is still to be set. *)
Record queues_ok (x : ptr) (s : cstate) : Prop := mkQueues {
  qk_depth : forall p c, cs_ports s !! p = Some c -> c_depth c = u32 (Z.of_nat (length (c_queue c)));
  qk_sync : forall p c, cs_ports s !! p = Some c -> p <> x -> c_queue c <> [] -> c_sync c = true;
  qk_fifo : forall p c, cs_ports s !! p = Some c ->
    queued p (cs_trace s) = taken p (cs_trace s) ++ c_queue c;
  qk_new : forall p, cs_next s <= p -> queued p (cs_trace s) = [] /\ taken p (cs_trace s) = []
}.

Definition comp_ok (x : ptr) (s : cstate) : Prop := links_ok s /\ queues_ok x s.

(** Steps that leave all links as they are. *)
Definition calm (s s' : cstate) : Prop :=
  cs_next s' = cs_next s /\ cs_fault s' = cs_fault s /\
  (forall p, wq s' p = wq s p) /\ (forall w, wl s' w = wl s w) /\ (forall t, tw s' t = tw s t).

#[export] Instance calm_preorder : PreOrder calm.
Proof.
  split.
  - intros s. by split_and!.
  - intros s1 s2 s3 (A1 & A2 & A3 & A4 & A5) (B1 & B2 & B3 & B4 & B5).
    split_and!; [congruence | congruence | | |]; intros; congruence.
Qed.

Lemma calm_links s s' : calm s s' -> links_ok s -> links_ok s'.
Proof.
  intros (E1 & _ & E2 & E3 & E4) [K1 K2 K3 K4]. split.
  - by rewrite E1.
  - intros p l. rewrite E2, E1. setoid_rewrite E3. apply K2.
  - intros w p t. rewrite E3, E1, E4. setoid_rewrite E2. apply K3.
  - intros t. rewrite E4. setoid_rewrite E3. apply K4.
Qed.

Lemma wq_some s p l : wq s p = Some l <-> exists c, cs_ports s !! p = Some c /\ c_wait_queue c = l.
Proof.
  unfold wq. rewrite fmap_Some. split; [intros (c & H & ->) | intros (c & H & <-)]; by exists c.
Qed.

Lemma wl_some s w p t :
  wl s w = Some (p, t) <->
  exists wt, cs_waits s !! w = Some wt /\ cw_completion wt = p /\ cw_thread wt = t.
Proof.
  unfold wl. rewrite fmap_Some. split; [intros (c & H & [= -> ->]) | intros (c & H & <- & <-)]; by exists c.
Qed.

Lemma get_port_run p s c : cs_ports s !! p = Some c -> get_port p s = (c, s).
Proof. intros H. unfold get_port. rewrite bind_run. cbn [mget fst snd]. by rewrite H. Qed.

Lemma get_wait_run w s x : cs_waits s !! w = Some x -> get_wait w s = (x, s).
Proof. intros H. unfold get_wait. rewrite bind_run. cbn [mget fst snd]. by rewrite H. Qed.

Lemma queued_app p tr tr' : queued p (tr ++ tr') = queued p tr ++ queued p tr'.
Proof. apply omap_app. Qed.
Lemma taken_app p tr tr' : taken p (tr ++ tr') = taken p tr ++ taken p tr'.
Proof. apply omap_app. Qed.

(** ** Taking and queuing a message

    A port's queue changes with the trace; its links do not. *)

Lemma calm_put_port p c c' s :
  cs_ports s !! p = Some c -> c_wait_queue c' = c_wait_queue c ->
  calm s (set_ports (<[p := c']> (cs_ports s)) s).
Proof.
  intros Hc Hw. split_and!; try done. intros q. unfold wq. cbn [set_ports cs_ports].
  destruct (Z.eq_dec q p) as [-> |]; [| by rewrite lookup_insert_ne].
  rewrite lookup_insert_eq, Hc. cbn. by rewrite Hw.
Qed.

Lemma calm_put_wait w x x' s :
  cs_waits s !! w = Some x -> cw_completion x' = cw_completion x -> cw_thread x' = cw_thread x ->
  calm s (set_cwaits (<[w := x']> (cs_waits s)) s).
Proof.
  intros Hx H1 H2. split_and!; try done. intros q. unfold wl. cbn [set_cwaits cs_waits].
  destruct (Z.eq_dec q w) as [-> |]; [| by rewrite lookup_insert_ne].
  rewrite lookup_insert_eq, Hx. cbn. by rewrite H1, H2.
Qed.

Lemma calm_trace tr s : calm s (set_ctrace tr s).
Proof. by split_and!. Qed.

(** One port changes its queue and the trace says how. *)
Lemma queues_change x x' p c c' s ev :
  queues_ok x s -> cs_ports s !! p = Some c -> p < cs_next s ->
  c_depth c' = u32 (Z.of_nat (length (c_queue c'))) ->
  (p <> x' -> c_queue c' <> [] -> c_sync c' = true) ->
  (forall q, is_Some (cs_ports s !! q) -> q <> p -> q <> x' -> q <> x) ->
  queued p (cs_trace s) ++ queued p ev = (taken p (cs_trace s) ++ taken p ev) ++ c_queue c' ->
  (forall q, q <> p -> queued q ev = [] /\ taken q ev = []) ->
  queues_ok x' (set_ctrace (cs_trace s ++ ev) (set_ports (<[p := c']> (cs_ports s)) s)).
Proof.
  intros [K1 K2 K3 K4] Hc Hp Hd Hs Hx Hf Hq. split; cbn [set_ctrace set_ports cs_ports cs_trace cs_next].
  - intros q cq. destruct (Z.eq_dec q p) as [-> |].
    + rewrite lookup_insert_eq. by intros [= <-].
    + rewrite lookup_insert_ne by done. apply K1.
  - intros q cq. destruct (Z.eq_dec q p) as [-> |].
    + rewrite lookup_insert_eq. by intros [= <-].
    + rewrite lookup_insert_ne by done. intros Hq' Hn. apply (K2 q cq Hq'). by eauto.
  - intros q cq. destruct (Z.eq_dec q p) as [-> | Hne].
    + rewrite lookup_insert_eq. intros [= <-]. by rewrite queued_app, taken_app.
    + rewrite lookup_insert_ne by done. intros Hcq. rewrite queued_app, taken_app.
      destruct (Hq q Hne) as [-> ->]. rewrite !app_nil_r. by apply K3.
  - intros q Hn. rewrite queued_app, taken_app. destruct (K4 q Hn) as [-> ->].
    destruct (Hq q) as [-> ->]; [lia | done].
Qed.

Lemma u32_pred n : u32 (u32 (Z.of_nat (S n)) - 1) = u32 (Z.of_nat n).
Proof.
  unfold uwrap. rewrite Zminus_mod_idemp_l. f_equal. lia.
Qed.

Lemma u32_succ n : u32 (u32 (Z.of_nat n) + 1) = u32 (Z.of_nat (S n)).
Proof. unfold uwrap. rewrite Zplus_mod_idemp_l. f_equal. lia. Qed.

(** The state after the first message of a port is taken. *)
Definition took (p : ptr) (c : completion) (msg : comp_msg) (queue : list comp_msg) (v : bool)
    (s : cstate) : cstate :=
  set_ctrace (cs_trace s ++ [Taken p msg])
    (set_ports (<[p := mkPort queue (c_wait_queue c) (u32 (c_depth c - 1)) (c_concurrent c) v]>
                  (cs_ports s)) s).

Lemma took_ok x p c msg queue v s :
  comp_ok x s -> cs_ports s !! p = Some c -> c_queue c = msg :: queue ->
  (v = c_sync c \/ queue = []) ->
  comp_ok x (took p c msg queue v s) /\ calm s (took p c msg queue v s).
Proof.
  intros [Hl Hq] Hc Eq Hv.
  assert (Hcalm : calm s (took p c msg queue v s)).
  { unfold took. etransitivity; [| apply calm_trace]. by apply (calm_put_port p c). }
  split; [| done]. split; [by eapply calm_links |].
  destruct (lk_ports _ Hl p (c_wait_queue c)) as [Hp _]; [apply wq_some; by exists c |].
  apply (queues_change x x p c); [done | done | lia | | | auto | |]; cbn [c_depth c_queue c_sync].
  - rewrite (qk_depth _ _ Hq p c Hc), Eq. apply u32_pred.
  - intros Hne Hn. destruct Hv as [-> | ->]; [| done].
    apply (qk_sync _ _ Hq p c Hc Hne). by rewrite Eq.
  - rewrite (qk_fifo _ _ Hq p c Hc), Eq. cbn. rewrite Z.eqb_refl, app_nil_r, <- app_assoc. done.
  - intros q Hne. cbn. by replace (p =? q) with false by lia.
Qed.

(** ** Waking *)

Section Wakes.
Context (wakes : nat -> ptr -> nat).

Lemma satisfied_ok x w p t s :
  comp_ok x s -> wl s w = Some (p, t) ->
  (p <> NULL -> exists c m q, cs_ports s !! p = Some c /\ c_queue c = m :: q) ->
  let s' := (completion_wait_satisfied w s).2 in comp_ok x s' /\ calm s s'.
Proof.
  intros Hok Hw Hp. pose proof Hw as (wt & Hwt & <- & <-)%wl_some.
  unfold completion_wait_satisfied. rewrite bind_run, (get_wait_run _ _ _ Hwt). cbn [fst snd].
  destruct (Z.eqb_spec (cw_completion wt) NULL) as [E | E]; [by split |].
  destruct (Hp E) as (c & m & q & Hc & Eq). rewrite bind_run, (get_port_run _ _ _ Hc).
  cbn [fst snd]. rewrite Eq, !bind_run. cbv zeta.
  cbn [put_port put_wait log_event mmodify fst snd].
  destruct (took_ok x (cw_completion wt) c m q (c_sync c) s Hok Hc Eq (or_introl eq_refl)) as [Hok1 Hc1].
  set (s1 := set_ctrace _ _). assert (E1 : s1 = took (cw_completion wt) c m q (c_sync c) s) by done.
  rewrite <- E1 in *. clearbody s1.
  assert (Hcalm : calm s1 (set_cwaits (<[w := mkCWait (cw_handle wt) (cw_completion wt)
                             (cw_thread wt) (Some m)]> (cs_waits s1)) s1)).
  { apply (calm_put_wait w wt); [| done | done]. by subst s1. }
  split; [split; [eapply calm_links; [exact Hcalm | apply Hok1] |] | by etransitivity].
  by destruct Hok1 as [_ [? ? ? ?]].
Qed.

Lemma wake_one_ok x w p t s :
  comp_ok x s -> wl s w = Some (p, t) ->
  let s' := (wake_one w s).2 in comp_ok x s' /\ calm s s'.
Proof.
  intros Hok Hw. pose proof Hw as (wt & Hwt & Ep & _)%wl_some. unfold wake_one, completion_wait_signaled.
  rewrite !bind_run, (get_wait_run _ _ _ Hwt). cbn [fst snd]. rewrite Ep.
  destruct (Z.eqb_spec p NULL) as [E | E]; cbn [mreturn fst snd mwhen].
  { by apply (satisfied_ok x w p t). }
  destruct (lk_waits _ (proj1 Hok) w p t Hw) as (_ & _ & Hl).
  destruct (Hl E) as (l & (c & Hc & _)%wq_some & _).
  rewrite ?bind_run, (get_port_run _ _ _ Hc). cbn [mreturn fst snd].
  destruct (Z.eqb_spec (c_depth c) 0) as [Ed | Ed]; cbn [negb mwhen]; [by split |].
  apply (satisfied_ok x w p t); [done | done |]. intros _. exists c.
  rewrite (qk_depth _ _ (proj2 Hok) p c Hc) in Ed. destruct (c_queue c) as [| m q]; [done | by eauto].
Qed.

Lemma wake_n_ok x n w p t s :
  comp_ok x s -> wl s w = Some (p, t) ->
  let s' := (wake_n n w s).2 in comp_ok x s' /\ calm s s'.
Proof.
  revert s. induction n as [| n IH]; intros s Hok Hw; [by split |]. cbn [wake_n]. rewrite bind_run.
  destruct (wake_one_ok x w p t s Hok Hw) as [Hok1 Hc1]. destruct (wake_one w s) as [[] s1]; [| done].
  cbn [fst snd] in *. destruct (IH s1) as [Hok2 Hc2]; [done | by destruct Hc1 as (_ & _ & _ & -> & _) |].
  split; [done | by etransitivity].
Qed.

Lemma wake_up_wait_ok x w max p t s :
  comp_ok x s -> wl s w = Some (p, t) ->
  let s' := (wake_up_wait wakes w max s).2 in comp_ok x s' /\ calm s s'.
Proof.
  intros Hok Hw. unfold wake_up_wait. rewrite bind_run. cbn [mget fst snd]. rewrite bind_run.
  cbn [mmodify fst snd]. set (s1 := set_calls _ s).
  assert (H1 : comp_ok x s1). { destruct Hok as [[? ? ? ?] [? ? ? ?]]. by split; split. }
  assert (C1 : calm s s1) by (by split_and!).
  destruct (wake_n_ok x (match max with O => wakes (cs_calls s) w | _ => Nat.min (wakes (cs_calls s) w) max end)
              w p t s1 H1 Hw) as [H2 C2].
  split; [done | by etransitivity].
Qed.
End Wakes.

(** ** Posting *)

(** What a port's queue is about, without its links. *)
Definition pq (s : cstate) (p : ptr) : option (list comp_msg * Z * bool) :=
  (fun c => (c_queue c, c_depth c, c_sync c)) <$> cs_ports s !! p.

Lemma queues_same x s s' :
  (forall p, pq s' p = pq s p) -> cs_trace s' = cs_trace s -> cs_next s <= cs_next s' ->
  queues_ok x s -> queues_ok x s'.
Proof.
  intros Hp Ht Hn [K1 K2 K3 K4].
  assert (Hget : forall p c', cs_ports s' !! p = Some c' -> exists c, cs_ports s !! p = Some c /\
    c_queue c' = c_queue c /\ c_depth c' = c_depth c /\ c_sync c' = c_sync c).
  { intros p c' Hc'. specialize (Hp p). unfold pq in Hp. rewrite Hc' in Hp.
    destruct (cs_ports s !! p) as [c |]; [| done]. injection Hp as ? ? ?. by exists c. }
  split.
  - intros p c' (c & Hc & -> & -> & _)%Hget. by eapply K1.
  - intros p c' (c & Hc & -> & _ & ->)%Hget. by eapply K2.
  - intros p c' (c & Hc & -> & _)%Hget. rewrite Ht. by eapply K3.
  - intros p Hle. rewrite Ht. apply K4. lia.
Qed.

Lemma queues_done p s c :
  queues_ok p s -> cs_ports s !! p = Some c -> (c_queue c = [] \/ c_sync c = true) ->
  queues_ok NULL s.
Proof.
  intros [K1 K2 K3 K4] Hc Hd. split; try done. intros q cq Hq _ Hn.
  destruct (Z.eq_dec q p) as [-> |]; [| by apply (K2 q)].
  rewrite Hc in Hq. injection Hq as <-. by destruct Hd.
Qed.

Section Ports.
Context (wakes : nat -> ptr -> nat) (alloc_ok : nat -> bool).

Lemma try_allocate_ok x s :
  comp_ok x s -> comp_ok x (try_allocate alloc_ok s).2 /\ calm s (try_allocate alloc_ok s).2.
Proof.
  intros [[? ? ? ?] [? ? ? ?]]. unfold try_allocate. cbn [snd].
  destruct (alloc_ok _); (split; [by split; split | by split_and!]).
Qed.

Lemma try_allocs_ok x n s :
  comp_ok x s ->
  let s' := (try_allocs alloc_ok n s).2 in comp_ok x s' /\ calm s s' /\ cs_ports s' = cs_ports s.
Proof.
  revert s. induction n as [| n IH]; intros s Hok; [by split |]. cbn [try_allocs]. rewrite bind_run.
  destruct (try_allocate_ok x s Hok) as [Hok1 C1].
  assert (P1 : cs_ports (try_allocate alloc_ok s).2 = cs_ports s)
    by (unfold try_allocate; cbn; by destruct (alloc_ok _)).
  destruct (try_allocate alloc_ok s) as [[] s1]; cbn [fst snd] in *; [| done].
  destruct (IH s1 Hok1) as (Hok2 & C2 & P2). split_and!; [done | by etransitivity | congruence].
Qed.

Lemma calm_port s s' p c :
  calm s s' -> cs_ports s !! p = Some c ->
  exists c', cs_ports s' !! p = Some c' /\ c_wait_queue c' = c_wait_queue c.
Proof.
  intros (_ & _ & Hw & _) Hc. apply wq_some. rewrite Hw. apply wq_some. by exists c.
Qed.

Lemma offer_ok x p c ws s :
  comp_ok x s -> cs_ports s !! p = Some c -> (forall w, w ∈ ws -> exists q t, wl s w = Some (q, t)) ->
  let r := offer wakes p ws s in
  comp_ok x r.2 /\ calm s r.2 /\
  (r.1 = true -> exists c', cs_ports r.2 !! p = Some c' /\ c_queue c' = []).
Proof.
  revert s c. induction ws as [| w ws IH]; intros s c Hok Hc Hws; [by split |].
  cbn [offer]. rewrite bind_run. destruct (Hws w) as (q & t & Hw); [apply elem_of_cons; by left |].
  destruct (wake_up_wait_ok wakes x w 1 q t s Hok Hw) as [Hok1 Hc1].
  set (s1 := (wake_up_wait wakes w 1 s).2) in *. clearbody s1.
  destruct (calm_port s s1 p c Hc1 Hc) as (c1 & Hp1 & _).
  rewrite bind_run, (get_port_run _ _ _ Hp1). cbn [fst snd].
  destruct (c_queue c1) eqn:E; [cbn; split_and!; eauto |].
  destruct (IH s1 c1 Hok1 Hp1) as (H2 & C2 & E2).
  { intros w' Hw'. pose proof Hc1 as (_ & _ & _ & -> & _). apply Hws. apply elem_of_cons. by right. }
  split_and!; [done | by etransitivity | done].
Qed.

Lemma queued_message_ok p c msg s :
  comp_ok NULL s -> cs_ports s !! p = Some c ->
  let s' := set_ctrace (cs_trace s ++ [Queued p msg])
    (set_ports (<[p := mkPort (c_queue c ++ [msg]) (c_wait_queue c) (u32 (c_depth c + 1))
                             (c_concurrent c) (c_sync c)]> (cs_ports s)) s) in
  comp_ok p s' /\ calm s s'.
Proof.
  intros [Hl Hq] Hc s'. assert (Hcalm : calm s s').
  { unfold s'. etransitivity; [| apply calm_trace]. by apply (calm_put_port p c). }
  split; [| done]. split; [by eapply calm_links |].
  destruct (lk_ports _ Hl p (c_wait_queue c)) as [Hp _]; [apply wq_some; by exists c |].
  apply (queues_change NULL p p c); [done | done | lia | | | | |]; cbn [c_depth c_queue c_sync].
  - rewrite (qk_depth _ _ Hq p c Hc), u32_succ, length_app. do 2 f_equal. simpl. lia.
  - done.
  - intros q [cq Hcq] Hne _ ->.
    destruct (lk_ports _ Hl NULL (c_wait_queue cq)) as [? _]; [apply wq_some; by exists cq | lia].
  - rewrite (qk_fifo _ _ Hq p c Hc). cbn. by rewrite Z.eqb_refl, app_nil_r, <- app_assoc.
  - intros q Hne. cbn. by replace (p =? q) with false by lia.
Qed.

(** Setting the signal of a port. *)
Lemma signal_true_ok x p c s :
  comp_ok x s -> cs_ports s !! p = Some c -> x = NULL \/ x = p ->
  let s' := (signal_sync p true s).2 in comp_ok NULL s' /\ calm s s'.
Proof.
  intros [Hl Hq] Hc Hx. unfold signal_sync. rewrite bind_run, (get_port_run _ _ _ Hc).
  cbn [put_port mmodify fst snd].
  set (c' := mkPort (c_queue c) (c_wait_queue c) (c_depth c) (c_concurrent c) true).
  set (s' := set_ports _ s). assert (C : calm s s') by (by apply (calm_put_port p c)).
  split; [split; [by eapply calm_links |] | done].
  assert (Hget : forall q cq, cs_ports s' !! q = Some cq ->
    (q = p /\ cq = c') \/ (q <> p /\ cs_ports s !! q = Some cq)).
  { intros q cq. cbn [s' set_ports cs_ports]. destruct (Z.eq_dec q p) as [-> |].
    - rewrite lookup_insert_eq. intros [= <-]. by left.
    - rewrite lookup_insert_ne by done. by right. }
  destruct Hq as [K1 K2 K3 K4]. split; [| | | done].
  - intros q cq [[-> ->] | [_ Hcq]]%Hget; [apply (K1 p c Hc) | by apply (K1 q)].
  - intros q cq [[-> ->] | [Hne Hcq]]%Hget Hn Hq; [done |].
    apply (K2 q cq Hcq); [| done]. by destruct Hx as [-> | ->].
  - intros q cq [[-> ->] | [_ Hcq]]%Hget; [apply (K3 p c Hc) | by apply (K3 q)].
Qed.

Lemma add_completion_ok p c msg s :
  comp_ok NULL s -> cs_ports s !! p = Some c ->
  let s' := (add_completion wakes alloc_ok p msg s).2 in comp_ok NULL s' /\ calm s s'.
Proof.
  intros Hok Hc. unfold add_completion. rewrite bind_run.
  destruct (try_allocate_ok NULL s Hok) as [Hok0 Hc0].
  assert (Hp0 : cs_ports (try_allocate alloc_ok s).2 !! p = Some c).
  { unfold try_allocate. cbn. by destruct (alloc_ok _). }
  destruct (try_allocate alloc_ok s) as [[] s0]; cbn [fst snd negb] in *; [| done].
  rewrite bind_run, (get_port_run _ _ _ Hp0). cbn [fst snd]. rewrite !bind_run.
  cbn [put_port log_event mmodify fst snd].
  destruct (queued_message_ok p c msg s0 Hok0 Hp0) as [Hok1 Hc1]. cbv zeta in *.
  set (c1 := mkPort (c_queue c ++ [msg]) _ _ _ _) in *.
  change (set_ctrace _ _) with (set_ctrace (cs_trace s0 ++ [Queued p msg])
    (set_ports (<[p := c1]> (cs_ports s0)) s0)).
  set (s1 := set_ctrace _ _) in *.
  assert (Hp1 : cs_ports s1 !! p = Some c1) by apply lookup_insert_eq. clearbody s1.
  destruct (offer_ok p p c1 (c_wait_queue c) s1 Hok1 Hp1) as (Hok2 & Hc2 & Hstop).
  { intros w Hw. destruct (lk_ports _ (proj1 Hok1) p (c_wait_queue c)) as (_ & _ & Hx).
    - apply wq_some. by exists c1.
    - destruct (Hx w Hw) as [t Ht]. eauto. }
  destruct (calm_port s1 _ p c1 Hc2 Hp1) as (c2 & Hp2 & _).
  assert (C : calm s (offer wakes p (c_wait_queue c) s1).2).
  { etransitivity; [exact Hc0 |]. by etransitivity. }
  destruct (offer wakes p (c_wait_queue c) s1) as [[] s2]; cbn [fst snd] in *.
  { destruct (Hstop eq_refl) as (c' & Hc' & E). split; [| done].
    split; [apply Hok2 |]. eapply queues_done; [apply Hok2 | exact Hc' | by left]. }
  rewrite bind_run, (get_port_run _ _ _ Hp2). cbn [fst snd]. destruct (c_queue c2) eqn:E.
  { split; [| done]. split; [apply Hok2 |]. eapply queues_done; [apply Hok2 | exact Hp2 | by left]. }
  destruct (signal_true_ok p p c2 s2 Hok2 Hp2 (or_intror eq_refl)) as [Hok3 C3].
  split; [done | by etransitivity].
Qed.
End Ports.
