(* ===== verification/CompletionOps.v ===== *)
(** * The operations of completion ports keep the invariant

    Links through attaching, detaching and closing a wait object, and each request of
    [src/server/completion.c] on a state that satisfies [comp_ok]. *)

From stdpp Require Import base list gmap.
From Stdlib Require Import ZArith Lia ZifyBool.
From S2P Require Import Prelude Completion CompletionProofs.

Open Scope Z_scope.

(** ** Changing links *)

Definition without (w : ptr) (l : list ptr) : list ptr := filter (fun x => x <> w) l.

Lemma without_in w x l : x ∈ without w l <-> x <> w /\ x ∈ l.
Proof. unfold without. by rewrite list_elem_of_filter. Qed.

Lemma without_id w l : w ∉ l -> without w l = l.
Proof.
  induction l as [| x l IH]; intros Hw; [done |]. unfold without in *.
  apply not_elem_of_cons in Hw as [Hx Hw]. rewrite filter_cons_True by auto. by rewrite IH.
Qed.

Lemma without_nodup w l : NoDup l -> NoDup (without w l).
Proof. apply NoDup_filter. Qed.

(** No wait object is in the queue of two ports. *)
Lemma waiter_port s p l w q t :
  links_ok s -> wq s p = Some l -> w ∈ l -> wl s w = Some (q, t) -> p = q.
Proof.
  intros Hl Hp Hw Hq. destruct (lk_ports _ Hl p l Hp) as (_ & _ & Hx).
  destruct (Hx w Hw) as [t' Ht']. congruence.
Qed.

(** A wait object leaves its port. *)
Lemma links_detach s s' w p t :
  links_ok s -> wl s w = Some (p, t) -> cs_next s' = cs_next s ->
  (forall q, wq s' q = without w <$> wq s q) ->
  wl s' w = Some (NULL, t) -> (forall x, x <> w -> wl s' x = wl s x) ->
  (forall x, tw s' x = tw s x) -> links_ok s'.
Proof.
  intros [K1 K2 K3 K4] Hw En Hq Hw' Hx Ht. split.
  - by rewrite En.
  - intros q l. rewrite Hq, En. intros (l0 & Hl0 & ->)%fmap_Some.
    destruct (K2 q l0 Hl0) as (? & ? & Hin). split_and!; [lia | lia | by apply without_nodup |].
    intros x [Hne Hxin]%without_in. rewrite Hx by done. by apply Hin.
  - intros x q t' Hxq. rewrite En, Ht. destruct (Z.eq_dec x w) as [-> | Hne].
    + rewrite Hw' in Hxq. injection Hxq as <- <-. destruct (K3 w p t Hw) as (? & ? & _).
      split_and!; [lia | lia | done | done].
    + rewrite Hx in Hxq by done. destruct (K3 x q t' Hxq) as (? & ? & Hl).
      split_and!; [lia | lia | done |]. intros Hq0. destruct (Hl Hq0) as (l & Hl' & Hin).
      exists (without w l). rewrite Hq, Hl'. split; [done |]. by apply without_in.
  - intros x. rewrite Ht. intros H0. destruct (K4 x H0) as [q Hxq].
    destruct (Z.eq_dec (tw s x) w) as [E | Hne].
    + rewrite E in *. assert (x = t) as -> by congruence. eauto.
    + rewrite Hx by done. eauto.
Qed.

(** A wait object is gone. *)
Lemma links_delete s s' w p t :
  links_ok s -> wl s w = Some (p, t) -> cs_next s' = cs_next s ->
  (forall q, wq s' q = without w <$> wq s q) ->
  wl s' w = None -> (forall x, x <> w -> wl s' x = wl s x) ->
  tw s' t = NULL -> (forall x, x <> t -> tw s' x = tw s x) -> links_ok s'.
Proof.
  intros [K1 K2 K3 K4] Hw En Hq Hw' Hx Ht Ht'. destruct (K3 w p t Hw) as (Hwr & Etw & _). split.
  - by rewrite En.
  - intros q l. rewrite Hq, En. intros (l0 & Hl0 & ->)%fmap_Some.
    destruct (K2 q l0 Hl0) as (? & ? & Hin). split_and!; [lia | lia | by apply without_nodup |].
    intros x [Hne Hxin]%without_in. rewrite Hx by done. by apply Hin.
  - intros x q t' Hxq. rewrite En. destruct (Z.eq_dec x w) as [-> | Hne]; [congruence |].
    rewrite Hx in Hxq by done. destruct (K3 x q t' Hxq) as (? & Et' & Hl).
    assert (t' <> t) by (intros ->; congruence). rewrite Ht' by done.
    split_and!; [lia | lia | done |]. intros Hq0. destruct (Hl Hq0) as (l & Hl' & Hin).
    exists (without w l). rewrite Hq, Hl'. split; [done |]. by apply without_in.
  - intros x. destruct (Z.eq_dec x t) as [-> | Hne]; [by rewrite Ht |]. rewrite Ht' by done.
    intros H0. destruct (K4 x H0) as [q Hxq]. exists q. rewrite Hx; [done |].
    intros E. rewrite E in Hxq. congruence.
Qed.

(** A wait object goes to the head of another port's queue. *)
Lemma links_move s s' w p0 t p l :
  links_ok s -> wl s w = Some (p0, t) -> cs_next s' = cs_next s -> wq s p = Some l ->
  wq s' p = Some (w :: without w l) -> (forall q, q <> p -> wq s' q = without w <$> wq s q) ->
  wl s' w = Some (p, t) -> (forall x, x <> w -> wl s' x = wl s x) ->
  (forall x, tw s' x = tw s x) -> links_ok s'.
Proof.
  intros [K1 K2 K3 K4] Hw En Hp Hp' Hq Hw' Hx Ht. destruct (K3 w p0 t Hw) as (Hwr & Etw & _). split.
  - by rewrite En.
  - intros q l'. rewrite En. destruct (Z.eq_dec q p) as [-> | Hne].
    + rewrite Hp'. intros [= <-]. destruct (K2 p l Hp) as (? & ? & Hin).
      split_and!; [lia | lia | |].
      * apply NoDup_cons. split; [by intros [? _]%without_in | by apply without_nodup].
      * intros x [-> | [Hxw Hxl]%without_in]%elem_of_cons; [by exists t |].
        rewrite Hx by done. by apply Hin.
    + rewrite Hq by done. intros (l0 & Hl0 & ->)%fmap_Some.
      destruct (K2 q l0 Hl0) as (? & ? & Hin). split_and!; [lia | lia | by apply without_nodup |].
      intros x [Hne' Hxin]%without_in. rewrite Hx by done. by apply Hin.
  - intros x q t' Hxq. rewrite En, Ht. destruct (Z.eq_dec x w) as [-> | Hne].
    + rewrite Hw' in Hxq. injection Hxq as <- <-. split_and!; [lia | lia | done |].
      intros _. exists (w :: without w l). split; [done |]. apply elem_of_cons. by left.
    + rewrite Hx in Hxq by done. destruct (K3 x q t' Hxq) as (? & ? & Hl).
      split_and!; [lia | lia | done |]. intros Hq0. destruct (Hl Hq0) as (l' & Hl' & Hin).
      destruct (Z.eq_dec q p) as [-> | Hne'].
      * exists (w :: without w l). split; [done |]. apply elem_of_cons. right.
        apply without_in. split; [done |]. congruence.
      * exists (without w l'). rewrite Hq by done. rewrite Hl'. split; [done |]. by apply without_in.
  - intros x. rewrite Ht. intros H0. destruct (K4 x H0) as [q Hxq].
    destruct (Z.eq_dec (tw s x) w) as [E | Hne].
    + rewrite E in *. assert (x = t) as -> by congruence. eauto.
    + rewrite Hx by done. eauto.
Qed.

(** ** Taking a wait object out of its queue *)

Lemma linked_iff w s : linked w s = true <-> exists p l, wq s p = Some l /\ w ∈ l.
Proof.
  unfold linked. rewrite existsb_exists. split.
  - intros ((p & c) & Hin & Hw). apply list_elem_of_In, elem_of_map_to_list in Hin.
    exists p, (c_wait_queue c). split; [apply wq_some; by exists c | by apply bool_decide_eq_true in Hw].
  - intros (p & l & (c & Hc & <-)%wq_some & Hw). exists (p, c). split.
    + by apply list_elem_of_In, elem_of_map_to_list.
    + by apply bool_decide_eq_true.
Qed.

Lemma list_remove_run w s :
  linked w s = true ->
  list_remove_wait w s = (tt, set_ports (drop_waiter w <$> cs_ports s) s).
Proof.
  intros H. unfold list_remove_wait. rewrite bind_run. cbn [mget fst snd].
  unfold cassert. by rewrite H.
Qed.

Lemma dropped_wq w s q : wq (set_ports (drop_waiter w <$> cs_ports s) s) q = without w <$> wq s q.
Proof.
  unfold wq. cbn [set_ports cs_ports]. rewrite lookup_fmap. by destruct (cs_ports s !! q).
Qed.

Lemma dropped_pq w s q : pq (set_ports (drop_waiter w <$> cs_ports s) s) q = pq s q.
Proof.
  unfold pq. cbn [set_ports cs_ports]. rewrite lookup_fmap. by destruct (cs_ports s !! q).
Qed.

Lemma wait_linked s w p t : links_ok s -> wl s w = Some (p, t) -> p <> NULL -> linked w s = true.
Proof.
  intros Hl Hw Hp. destruct (lk_waits _ Hl w p t Hw) as (_ & _ & Hx).
  destruct (Hx Hp) as (l & Hl' & Hin). apply linked_iff. eauto.
Qed.

(** A thread's wait object that no port holds is in no queue. *)
Lemma unlinked_wq s w t q :
  links_ok s -> wl s w = Some (NULL, t) -> without w <$> wq s q = wq s q.
Proof.
  intros Hl Hw. destruct (wq s q) as [l |] eqn:E; [| done]. cbn. f_equal.
  apply without_id. intros Hx.
  destruct (lk_ports _ Hl q l E) as (? & _ & _).
  assert (q = NULL) by (by eapply waiter_port). lia.
Qed.

(** ** The operations *)

(** The invariant holds again and nothing went wrong. *)
Definition fine (s s' : cstate) : Prop := comp_ok NULL s' /\ cs_fault s' = cs_fault s.

(** [cleanup_thread_completion] removes the thread's wait object, if it has one. *)
Lemma cleanup_ok t s :
  comp_ok NULL s ->
  let s' := (cleanup_thread_completion t s).2 in
  fine s s' /\ (forall x, x <> tw s t -> wl s' x = wl s x) /\
  (forall q, wq s' q = without (tw s t) <$> wq s q).
Proof.
  intros [Hl Hq]. unfold cleanup_thread_completion. rewrite bind_run.
  cbn [completion_wait_of mgets fst snd]. fold (tw s t).
  destruct (Z.eqb_spec (tw s t) NULL) as [E0 | E0].
  { split_and!; try done. intros q. rewrite E0. destruct (wq s q) as [l |] eqn:El; [| done].
    cbn. f_equal. rewrite without_id; [done |]. intros Hin.
    destruct (lk_ports _ Hl q l El) as (_ & _ & Hx). destruct (Hx _ Hin) as [t' Ht'].
    destruct (lk_waits _ Hl _ _ _ Ht') as [? _]. lia. }
  destruct (lk_threads _ Hl t E0) as [p Hw]. set (w := tw s t) in *.
  pose proof Hw as (wt & Hwt & Ep & Et)%wl_some.
  rewrite bind_run, (get_wait_run _ _ _ Hwt). cbn [fst snd]. rewrite Ep, !bind_run.
  set (m := mwhen _ _). set (s1 := (m s).2).
  assert (H1 : cs_waits s1 = cs_waits s /\ cs_thread_wait s1 = cs_thread_wait s /\
    cs_next s1 = cs_next s /\ cs_fault s1 = cs_fault s /\ cs_trace s1 = cs_trace s /\
    (forall q, wq s1 q = without w <$> wq s q) /\ (forall q, pq s1 q = pq s q)).
  { unfold s1, m. destruct (Z.eqb_spec p NULL) as [E | E]; cbn [negb mwhen].
    - split_and!; try done. intros q. rewrite E in Hw. symmetry.
      exact (unlinked_wq s w t q Hl Hw).
    - rewrite (list_remove_run w s (wait_linked s w p t Hl Hw E)).
      split_and!; try done; intros q; [apply dropped_wq | apply dropped_pq]. }
  clearbody s1. clear m. destruct H1 as (E1 & E2 & E3 & E4 & E5 & E6 & E7).
  cbn [mmodify set_completion_wait fst snd]. set (s2 := set_thread_wait _ _).
  assert (W2 : forall x, wl s2 x = if x =? w then None else wl s x).
  { intros x. unfold wl. cbn [s2 set_thread_wait set_cwaits cs_waits]. rewrite E1.
    destruct (Z.eqb_spec x w) as [-> |]; [by rewrite lookup_delete_eq | by rewrite lookup_delete_ne]. }
  assert (T2 : forall x, tw s2 x = if x =? t then NULL else tw s x).
  { intros x. unfold tw. cbn [s2 set_thread_wait set_cwaits cs_thread_wait]. rewrite E2.
    destruct (Z.eqb_spec x t) as [-> |]; [by rewrite lookup_insert_eq | by rewrite lookup_insert_ne]. }
  split_and!.
  - split; [| done]. split.
    + apply (links_delete s s2 w p t); try done.
      * rewrite W2. by rewrite Z.eqb_refl.
      * intros x Hx. rewrite W2. by replace (x =? w) with false by lia.
      * rewrite T2. by rewrite Z.eqb_refl.
      * intros x Hx. rewrite T2. by replace (x =? t) with false by lia.
    + apply (queues_same NULL s); [exact E7 | exact E5 | cbn; lia | done].
  - intros x Hx. rewrite W2. by replace (x =? w) with false by lia.
  - exact E6.
Qed.

Section Ops.
Context (wakes : nat -> ptr -> nat) (alloc_ok : nat -> bool).

Lemma close_wait_ok w p t s :
  comp_ok NULL s -> wl s w = Some (p, t) -> p <> NULL ->
  let s' := (close_wait wakes w s).2 in
  fine s s' /\ (forall x, x <> w -> wl s' x = wl s x) /\ (forall q, wq s' q = without w <$> wq s q).
Proof.
  intros [Hl Hq] Hw Hp. pose proof Hw as (wt & Hwt & Ep & Et)%wl_some.
  unfold close_wait. rewrite bind_run, (get_wait_run _ _ _ Hwt). cbn [fst snd]. rewrite !bind_run.
  unfold cassert. rewrite Ep. replace (p =? NULL) with false by lia. cbn [negb mwhen mreturn fst snd].
  cbn [put_wait mmodify fst snd].
  set (s0 := set_cwaits _ s). assert (L0 : linked w s0 = true) by exact (wait_linked s w p t Hl Hw Hp).
  rewrite (list_remove_run _ _ L0). cbn [fst snd]. set (s1 := set_ports _ s0).
  assert (Q1 : forall q, wq s1 q = without w <$> wq s q) by (intros q; apply (dropped_wq w s0)).
  assert (W1 : forall x, wl s1 x = if x =? w then Some (NULL, t) else wl s x).
  { intros x. unfold wl. cbn [s1 s0 set_ports set_cwaits cs_waits]. destruct (Z.eqb_spec x w) as [-> |].
    - rewrite lookup_insert_eq. cbn. by rewrite Et.
    - by rewrite lookup_insert_ne. }
  assert (Wo : forall x, x <> w -> wl s1 x = wl s x).
  { intros x Hx. rewrite W1. by replace (x =? w) with false by lia. }
  assert (Ww : wl s1 w = Some (NULL, t)) by (rewrite W1; by rewrite Z.eqb_refl).
  assert (Hok1 : comp_ok NULL s1).
  { split; [by apply (links_detach s s1 w p t) |].
    apply (queues_same NULL s); [intros q; apply (dropped_pq w s0) | done | cbn; lia | done]. }
  destruct (cw_msg wt); [by split_and! |]. rewrite bind_run, Et.
  destruct (wake_up_wait_ok wakes NULL w 0 NULL t s1 Hok1 Ww) as [Hok2 (C1 & C2 & C3 & C4 & C5)].
  set (s2 := (wake_up_wait wakes w 0 s1).2) in *. clearbody s2.
  destruct (cleanup_ok t s2 Hok2) as ([Hok3 F3] & W3 & Q3).
  assert (Etw : tw s2 t = w).
  { destruct (lk_waits _ (proj1 Hok2) w NULL t) as (_ & ? & _); [by rewrite C4 | done]. }
  rewrite Etw in *. split_and!.
  - split; [done |]. by rewrite F3, C2.
  - intros x Hx. by rewrite W3, C4, Wo.
  - intros q. rewrite Q3, C3, Q1. destruct (wq s q) as [l |]; [| done]. cbn. f_equal.
    apply without_id. by intros [? _]%without_in.
Qed.

Lemma close_waits_ok p ws s :
  comp_ok NULL s -> p <> NULL -> NoDup ws -> (forall w, w ∈ ws -> exists t, wl s w = Some (p, t)) ->
  let s' := (mfor (close_wait wakes) ws s).2 in
  fine s s' /\ (forall q, is_Some (wq s q) -> is_Some (wq s' q)).
Proof.
  intros Hok Hp. revert s Hok. induction ws as [| w ws IH]; intros s Hok Hn Hws; [by split |].
  cbn [mfor]. rewrite bind_run. apply NoDup_cons in Hn as [Hnw Hn].
  destruct (Hws w) as [t Hw]; [apply elem_of_cons; by left |].
  destruct (close_wait_ok w p t s Hok Hw Hp) as ([Hok1 F1] & W1 & Q1).
  set (s1 := (close_wait wakes w s).2) in *. clearbody s1.
  destruct (IH s1 Hok1 Hn) as [[Hok2 F2] Q2].
  { intros x Hx. destruct (Hws x) as [t' Ht']; [apply elem_of_cons; by right |]. exists t'.
    rewrite W1; [done |]. by intros ->. }
  split; [split; [done | congruence] |]. intros q Hq. apply Q2. rewrite Q1. by apply fmap_is_Some.
Qed.

Lemma close_handle_ok p c n s :
  comp_ok NULL s -> cs_ports s !! p = Some c -> fine s (completion_close_handle wakes p n s).2.
Proof.
  intros Hok Hc. unfold completion_close_handle. destruct (negb (n =? 1)); [by split |].
  assert (Hp : wq s p = Some (c_wait_queue c)) by (apply wq_some; by exists c).
  destruct (lk_ports _ (proj1 Hok) p _ Hp) as (Hp0 & Hn & Hin).
  rewrite bind_run, (get_port_run _ _ _ Hc). cbn [fst snd]. rewrite bind_run.
  destruct (close_waits_ok p (c_wait_queue c) s Hok ltac:(lia) Hn Hin) as [[Hok1 F1] Q1].
  set (s1 := (mfor _ _ s).2) in *. clearbody s1.
  destruct (Q1 p) as [l (c1 & Hc1 & _)%wq_some]; [by rewrite Hp |].
  destruct (signal_true_ok NULL p c1 s1 Hok1 Hc1 (or_introl eq_refl)) as [Hok2 (_ & F2 & _)].
  split; [done | congruence].
Qed.

Lemma new_port_ok concurrent s :
  comp_ok NULL s ->
  comp_ok NULL (set_cnext (cs_next s + 1)
    (set_ports (<[cs_next s := completion_init concurrent]> (cs_ports s)) s)).
Proof.
  intros [[K1 K2 K3 K4] [J1 J2 J3 J4]]. set (s' := set_cnext _ _).
  assert (Q : forall q, wq s' q = if q =? cs_next s then Some [] else wq s q).
  { intros q. unfold wq. cbn [s' set_cnext set_ports cs_ports].
    destruct (Z.eqb_spec q (cs_next s)) as [-> |]; [by rewrite lookup_insert_eq | by rewrite lookup_insert_ne]. }
  assert (Hget : forall q cq, cs_ports s' !! q = Some cq ->
    (q = cs_next s /\ cq = completion_init concurrent) \/ cs_ports s !! q = Some cq).
  { intros q cq. cbn [s' set_cnext set_ports cs_ports]. destruct (Z.eq_dec q (cs_next s)) as [-> |].
    - rewrite lookup_insert_eq. intros [= <-]. by left.
    - rewrite lookup_insert_ne by done. by right. }
  split; split.
  - cbn. lia.
  - intros q l. rewrite Q. cbn [s' set_cnext cs_next]. destruct (Z.eqb_spec q (cs_next s)) as [-> |].
    + intros [= <-]. split_and!; [lia | lia | apply NoDup_nil_2 |]. intros w Hw. by apply elem_of_nil in Hw.
    + intros Hl. destruct (K2 q l Hl) as (? & ? & ?). split_and!; (done || lia).
  - intros w q t Hwl. destruct (K3 w q t Hwl) as (? & ? & Hx). cbn [s' set_cnext cs_next].
    split_and!; [lia | lia | done |].
    intros Hq. destruct (Hx Hq) as (l & Hl & Hin). exists l. rewrite Q.
    destruct (Z.eqb_spec q (cs_next s)) as [-> |]; [| done].
    destruct (K2 _ l Hl) as [? _]. lia.
  - apply K4.
  - intros q cq [[-> ->] | Hcq]%Hget; [done | by eapply J1].
  - intros q cq [[-> ->] | Hcq]%Hget; [done | by eapply J2].
  - intros q cq [[-> ->] | Hcq]%Hget; [| by eapply J3]. cbn [s' set_cnext set_ports cs_trace].
    destruct (J4 (cs_next s)) as [-> ->]; [lia | done].
  - intros q Hq. apply J4. cbn in Hq. lia.
Qed.

(** A port no wait object belongs to can go. *)
Lemma destroy_ok p c s :
  comp_ok NULL s -> cs_ports s !! p = Some c -> c_wait_queue c = [] ->
  fine s (completion_destroy p s).2.
Proof.
  intros [[K1 K2 K3 K4] [J1 J2 J3 J4]] Hc Hw. split; [| done].
  assert (Q : forall q, wq (completion_destroy p s).2 q = if q =? p then None else wq s q).
  { intros q. unfold wq. cbn [completion_destroy mmodify set_ports cs_ports snd].
    destruct (Z.eqb_spec q p) as [-> |]; [by rewrite lookup_delete_eq | by rewrite lookup_delete_ne]. }
  split; split; cbn [completion_destroy mmodify set_ports cs_ports snd cs_next cs_trace]; try done.
  - intros q l. rewrite Q. destruct (q =? p); [done |]. apply K2.
  - intros w q t Hwl. destruct (K3 w q t Hwl) as (? & ? & Hx). split_and!; [lia | lia | done |].
    intros Hq. destruct (Hx Hq) as (l & Hl & Hin). exists l. rewrite Q.
    destruct (Z.eqb_spec q p) as [-> |]; [| done].
    apply wq_some in Hl as (c' & Hc' & <-). rewrite Hc in Hc'. injection Hc' as <-.
    rewrite Hw in Hin. by apply elem_of_nil in Hin.
  - intros q cq Hcq. apply lookup_delete_Some in Hcq as [_ Hcq]. by eapply J1.
  - intros q cq Hcq. apply lookup_delete_Some in Hcq as [_ Hcq]. by eapply J2.
  - intros q cq Hcq. apply lookup_delete_Some in Hcq as [_ Hcq]. by eapply J3.
Qed.

Lemma create_port_ok concurrent s :
  comp_ok NULL s -> fine s (req_create_completion alloc_ok concurrent s).2.
Proof.
  intros Hok. unfold req_create_completion. rewrite bind_run.
  destruct (try_allocs_ok alloc_ok NULL 3 s Hok) as (Hok1 & (_ & F1 & _) & _).
  destruct (try_allocs alloc_ok 3 s) as [[] s1]; cbn [negb fst snd] in *; [| by split].
  rewrite bind_run. cbn [mget fst snd]. rewrite !bind_run.
  cbn [put_port mmodify mreturn fst snd]. split; [exact (new_port_ok concurrent s1 Hok1) | done].
Qed.

(** ** Joining a port *)

(** The state after a thread's wait object [w] is at the head of [p]'s queue. *)
Lemma attach_ok s0 s w p0 t p c wt :
  comp_ok NULL s0 -> wl s0 w = Some (p0, t) ->
  cs_next s = cs_next s0 -> cs_trace s = cs_trace s0 ->
  cs_waits s !! w = Some wt -> cw_thread wt = t ->
  (forall q, wq s q = without w <$> wq s0 q) -> (forall q, pq s q = pq s0 q) ->
  (forall x, x <> w -> wl s x = wl s0 x) -> (forall x, tw s x = tw s0 x) ->
  cs_ports s !! p = Some c ->
  let s' := (attach_wait w p s).2 in
  comp_ok NULL s' /\ cs_fault s' = cs_fault s /\ (forall q, pq s' q = pq s0 q) /\
  wl s' w = Some (p, t) /\ is_Some (cs_ports s' !! p).
Proof.
  intros [Hl Hq] Hw En Et Hwt Ethr Hwq Hpq Hwl Htw Hc. unfold attach_wait.
  rewrite bind_run, (get_wait_run _ _ _ Hwt). cbn [fst snd]. rewrite bind_run.
  cbn [put_wait mmodify fst snd]. set (s1 := set_cwaits _ s).
  assert (Hc1 : cs_ports s1 !! p = Some c) by done.
  rewrite bind_run, (get_port_run _ _ _ Hc1). cbn [put_port mmodify fst snd].
  set (c' := mkPort (c_queue c) (w :: c_wait_queue c) (c_depth c) (c_concurrent c) (c_sync c)).
  set (s2 := set_ports _ s1).
  assert (Hcq : wq s p = Some (c_wait_queue c)) by (apply wq_some; by exists c).
  assert (Hp : exists l, wq s0 p = Some l /\ c_wait_queue c = without w l).
  { rewrite Hwq in Hcq. apply fmap_Some in Hcq as (l & ? & ?). eauto. }
  destruct Hp as (l & Hl0 & El).
  assert (Q2 : forall q, wq s2 q = if q =? p then Some (w :: c_wait_queue c) else wq s q).
  { intros q. unfold wq. cbn [s2 set_ports cs_ports].
    destruct (Z.eqb_spec q p) as [-> |]; [by rewrite lookup_insert_eq | by rewrite lookup_insert_ne]. }
  assert (P2 : forall q, pq s2 q = pq s q).
  { intros q. unfold pq. cbn [s2 set_ports cs_ports].
    destruct (Z.eq_dec q p) as [-> |]; [by rewrite lookup_insert_eq, Hc | by rewrite lookup_insert_ne]. }
  assert (W2 : forall x, wl s2 x = if x =? w then Some (p, t) else wl s x).
  { intros x. unfold wl. cbn [s2 s1 set_ports set_cwaits cs_waits].
    destruct (Z.eqb_spec x w) as [-> |]; [| by rewrite lookup_insert_ne].
    rewrite lookup_insert_eq. cbn. by rewrite Ethr. }
  split_and!; try done.
  - split.
    + apply (links_move s0 s2 w p0 t p l); try done.
      * rewrite Q2, Z.eqb_refl. by rewrite El.
      * intros q Hne. rewrite Q2. by replace (q =? p) with false by lia.
      * rewrite W2. by rewrite Z.eqb_refl.
      * intros x Hne. rewrite W2. replace (x =? w) with false by lia. by apply Hwl.
    + apply (queues_same NULL s0); [| exact Et | cbn; lia | done].
      intros q. by rewrite P2.
  - intros q. by rewrite P2.
  - rewrite W2. by rewrite Z.eqb_refl.
  - cbn [s2 set_ports cs_ports]. by rewrite lookup_insert_eq.
Qed.

(** A new wait object. *)
Lemma new_wait_ok t s :
  comp_ok NULL s -> tw s t = NULL ->
  let w := cs_next s in
  let s' := set_thread_wait (<[t := w]> (cs_thread_wait s))
              (set_cnext (w + 1) (set_cwaits (<[w := mkCWait w NULL t None]> (cs_waits s)) s)) in
  comp_ok NULL s' /\ wl s' w = Some (NULL, t) /\ tw s' t = w.
Proof.
  intros [[K1 K2 K3 K4] Hq] Ht w s'.
  assert (W : forall x, wl s' x = if x =? w then Some (NULL, t) else wl s x).
  { intros x. unfold wl. cbn [s' set_thread_wait set_cnext set_cwaits cs_waits].
    destruct (Z.eqb_spec x w) as [-> |]; [by rewrite lookup_insert_eq | by rewrite lookup_insert_ne]. }
  assert (T : forall x, tw s' x = if x =? t then w else tw s x).
  { intros x. unfold tw. cbn [s' set_thread_wait cs_thread_wait].
    destruct (Z.eqb_spec x t) as [-> |]; [by rewrite lookup_insert_eq | by rewrite lookup_insert_ne]. }
  assert (Hnew : forall q, wl s w <> Some q).
  { intros [p t'] Hx. destruct (K3 w p t' Hx) as [? _]. lia. }
  split_and!; [| rewrite W; by rewrite Z.eqb_refl | rewrite T; by rewrite Z.eqb_refl].
  split; [split |].
  - cbn. lia.
  - intros q l Hl. destruct (K2 q l Hl) as (? & ? & Hx). cbn [s' set_thread_wait set_cnext cs_next].
    split_and!; [lia | lia | done |]. intros x Hin. destruct (Hx x Hin) as [t' Ht']. exists t'.
    rewrite W. destruct (Z.eqb_spec x w) as [-> |]; [by apply Hnew in Ht' | done].
  - intros x p t'. rewrite W, T. cbn [s' set_thread_wait set_cnext cs_next].
    destruct (Z.eqb_spec x w) as [-> |].
    + intros [= <- <-]. rewrite Z.eqb_refl. split_and!; (done || lia).
    + intros Hx. destruct (K3 x p t' Hx) as (? & Etw & Hl). split_and!; [lia | lia | | exact Hl].
      destruct (Z.eqb_spec t' t) as [-> |]; [lia | done].
  - intros x. rewrite T. destruct (Z.eqb_spec x t) as [-> |].
    + intros _. exists NULL. rewrite W. by rewrite Z.eqb_refl.
    + intros Hx. destruct (K4 x Hx) as [p Hp]. exists p. rewrite W.
      destruct (Z.eqb_spec (tw s x) w) as [E |]; [| done]. rewrite E in Hp. by apply Hnew in Hp.
  - apply (queues_same NULL s); [done | done | cbn; lia | done].
Qed.

(** Making a wait object fails for want of memory, or fills the next address. *)
Lemma create_wait_cases t s :
  comp_ok NULL s ->
  exists s2, comp_ok NULL s2 /\ calm s s2 /\ cs_ports s2 = cs_ports s /\
    (create_completion_wait alloc_ok t s = (NULL, s2) \/
     create_completion_wait alloc_ok t s =
       (cs_next s2, set_cnext (cs_next s2 + 1)
                      (set_cwaits (<[cs_next s2 := mkCWait (cs_next s2) NULL t None]> (cs_waits s2)) s2))).
Proof.
  intros Hok. unfold create_completion_wait. rewrite bind_run.
  destruct (try_allocs_ok alloc_ok NULL 2 s Hok) as (Hok2 & C2 & P2).
  destruct (try_allocs alloc_ok 2 s) as [[] s2]; cbn [fst snd negb] in *; exists s2;
    (split_and!; [done | done | done |]); [by right | by left].
Qed.

(** Ports stay when no wait object can be made. *)
Lemma join_none_pq t p s : comp_ok NULL s -> (join_port alloc_ok t p s).1 = NULL -> forall q, pq (join_port alloc_ok t p s).2 q = pq s q.
Proof.
  intros Hok. unfold join_port. rewrite bind_run. cbn [completion_wait_of mgets fst snd]. fold (tw s t). destruct (Z.eqb_spec (tw s t) NULL) as [E0 | E0]; cbn [negb]; [| done].
  rewrite bind_run. destruct (create_wait_cases t s Hok) as (s2 & Hok2 & _ & Ep & [-> | ->]); cbn [fst snd].
  - intros _ q. unfold pq. cbn. by rewrite Ep.
  - rewrite bind_run. cbn [mreturn fst]. intros E. pose proof (lk_next _ (proj1 Hok2)). lia.
Qed.

(** Joining a port: no memory; an entry taken out of a list it is not in; or the wait
    object attached to the port, with nothing else changed. *)
Lemma join_attach_ok t p c s :
  comp_ok NULL s -> cs_ports s !! p = Some c ->
  let r := join_port alloc_ok t p s in
  (r.1 = NULL /\ fine s r.2) \/ (r.1 <> NULL /\ cs_fault r.2 = true /\ wl s (tw s t) = Some (NULL, t)) \/
  (r.1 <> NULL /\
   let s' := (attach_wait r.1 p r.2).2 in
   fine s s' /\ (forall q, pq s' q = pq s q) /\ wl s' r.1 = Some (p, t) /\ is_Some (cs_ports s' !! p)).
Proof.
  intros Hok Hc. unfold join_port. rewrite bind_run. cbn [completion_wait_of mgets fst snd].
  fold (tw s t). destruct (Z.eqb_spec (tw s t) NULL) as [E0 | E0]; cbn [negb].
  - rewrite bind_run.
    destruct (create_wait_cases t s Hok) as (s2 & Hok2 & (Cn & Cf & Cq & Cw & Ct) & Ep & [-> | ->]).
    { left. cbn. by split. }
    assert (Hc2 : cs_ports s2 !! p = Some c) by congruence.
    assert (E2 : tw s2 t = NULL) by (by rewrite Ct).
    destruct (new_wait_ok t s2 Hok2 E2) as (Hok3 & Hw3 & _). cbv zeta in *.
    set (w := cs_next s2) in *. pose proof (lk_next _ (proj1 Hok2)) as Hn. fold w in Hn.
    cbn [fst snd]. rewrite bind_run. replace (w =? NULL) with false by lia.
    cbn [negb mwhen set_completion_wait mmodify mreturn fst snd]. right. right. split; [lia |].
    change (set_thread_wait _ _) with (set_thread_wait (<[t := w]> (cs_thread_wait s2))
      (set_cnext (w + 1) (set_cwaits (<[w := mkCWait w NULL t None]> (cs_waits s2)) s2))).
    set (s3 := set_thread_wait _ _) in *.
    destruct (attach_ok s3 s3 w NULL t p c (mkCWait w NULL t None)) as (A1 & A2 & A3 & A4 & A5); try done.
    { cbn [s3 set_thread_wait set_cnext set_cwaits cs_waits]. by rewrite lookup_insert_eq. }
    { intros q. symmetry. exact (unlinked_wq s3 w t q (proj1 Hok3) Hw3). }
    split_and!; [split; [done |] | | done | done].
    + by rewrite A2.
    + intros q. rewrite A3. unfold pq. cbn [s3 set_thread_wait set_cnext set_cwaits cs_ports].
      by rewrite Ep.
  - destruct (lk_threads _ (proj1 Hok) t E0) as [p0 Hw]. set (w := tw s t) in *.
    rewrite bind_run. cbn [mreturn fst snd]. right.
    destruct (linked w s) eqn:El.
    + right. split; [done |]. rewrite (list_remove_run _ _ El). cbn [snd]. set (s1 := set_ports _ s).
      pose proof Hw as (wt & Hwt & Ep & Et)%wl_some.
      destruct (attach_ok s s1 w p0 t p (drop_waiter w c) wt) as (A1 & A2 & A3 & A4 & A5); try done.
      * apply dropped_wq.
      * apply dropped_pq.
      * cbn [s1 set_ports cs_ports]. by rewrite lookup_fmap, Hc.
    + left. split_and!; [done | | ].
      * unfold list_remove_wait. rewrite bind_run. cbn [mget fst snd]. unfold cassert. by rewrite El.
      * destruct (Z.eq_dec p0 NULL) as [-> | Hp0]; [done |].
        by rewrite (wait_linked s w p0 t (proj1 Hok) Hw Hp0) in El.
Qed.

(** ** Requests *)

(** A fault stays. *)
Definition sticky (s s' : cstate) : Prop := cs_fault s = true -> cs_fault s' = true.

#[export] Instance sticky_preorder : PreOrder sticky.
Proof. split; [intros s H; exact H | intros s1 s2 s3 H1 H2 H; exact (H2 (H1 H))]. Qed.

Lemma get_port_sticky p : keeps sticky (get_port p).
Proof.
  intros s H. unfold get_port. rewrite bind_run. cbn [mget fst snd]. by destruct (cs_ports s !! p).
Qed.
Lemma get_wait_sticky w : keeps sticky (get_wait w).
Proof.
  intros s H. unfold get_wait. rewrite bind_run. cbn [mget fst snd]. by destruct (cs_waits s !! w).
Qed.

Lemma attach_sticky w p : keeps sticky (attach_wait w p).
Proof.
  unfold attach_wait. apply keeps_bind; [apply _ | apply get_wait_sticky | intros wt].
  apply keeps_bind; [apply _ | intros s H; exact H | intros _].
  apply keeps_bind; [apply _ | apply get_port_sticky | intros c s H; exact H].
Qed.

Lemma take_or_wait_sticky w p : keeps sticky (take_or_wait w p).
Proof.
  unfold take_or_wait. apply keeps_bind; [apply _ | apply get_port_sticky | intros c].
  destruct (c_queue c); [| intros s H; exact H].
  apply keeps_bind; [apply _ | apply get_wait_sticky | intros wt s H; exact H].
Qed.

Lemma take_or_wait_ok w p t s :
  comp_ok NULL s -> wl s w = Some (p, t) -> is_Some (cs_ports s !! p) -> fine s (take_or_wait w p s).2.
Proof.
  intros Hok Hw [c Hc]. unfold take_or_wait. rewrite bind_run, (get_port_run _ _ _ Hc). cbn [fst snd].
  destruct (c_queue c) as [| msg queue] eqn:E.
  - apply wl_some in Hw as (wt & Hwt & _). rewrite bind_run, (get_wait_run _ _ _ Hwt). split; [| done].
    destruct Hok as [[? ? ? ?] [? ? ? ?]]. by split; split.
  - set (v := match queue with [] => false | _ => c_sync c end).
    destruct (took_ok NULL p c msg queue v s Hok Hc E) as [Hok' (_ & F & _)]; [| done].
    unfold v. destruct queue; auto.
Qed.

Lemma set_cerror_fine e s : comp_ok NULL s -> fine s (set_cerror e s).
Proof. intros [[? ? ? ?] [? ? ? ?]]. split; [| done]. by split; split. Qed.

(** [remove_completion] goes wrong only when the thread's wait object is in no queue. *)
Lemma remove_ok t p c apc s :
  comp_ok NULL s -> cs_ports s !! p = Some c ->
  let s' := (req_remove_completion alloc_ok t p apc s).2 in
  fine s s' \/ (cs_fault s' = true /\ wl s (tw s t) = Some (NULL, t)).
Proof.
  intros Hok Hc. unfold req_remove_completion. rewrite bind_run, (get_port_run _ _ _ Hc).
  cbn [fst snd]. rewrite bind_run. cbn [mget fst snd]. rewrite bind_run.
  cbn [completion_wait_of mgets fst snd]. cbv zeta. destruct (apc && _).
  { left. cbn. by apply set_cerror_fine. }
  rewrite bind_run. destruct (join_attach_ok t p c s Hok Hc) as [[E F] | [(E & F & D) | (E & [Hok1 F1] & _ & W1 & P1)]].
  - left. by rewrite E.
  - right. replace ((join_port alloc_ok t p s).1 =? NULL) with false by lia. rewrite bind_run.
    split; [| done].
    apply take_or_wait_sticky, attach_sticky, F.
  - left. replace ((join_port alloc_ok t p s).1 =? NULL) with false by lia. rewrite bind_run.
    destruct (take_or_wait_ok _ p t _ Hok1 W1 P1) as [? ?]. split; [done | congruence].
Qed.

(** What [remove_completion] answers: the first message, which it takes, and the signal then
    says whether another is left; or a handle to wait for, when there is none. *)
Lemma remove_reply_ok t p c apc s :
  comp_ok NULL s -> cs_ports s !! p = Some c ->
  let r := req_remove_completion alloc_ok t p apc s in
  cs_fault r.2 = false ->
  match r.1 with
  | Reply_msg m => exists q c', c_queue c = m :: q /\ cs_ports r.2 !! p = Some c' /\ c_queue c' = q /\ c_sync c' = negb (bool_decide (q = []))
  | Reply_wait _ => c_queue c = [] /\ pq r.2 p = pq s p
  | Reply_none => pq r.2 p = pq s p
  end.
Proof.
  intros Hok Hc. unfold req_remove_completion. rewrite bind_run, (get_port_run _ _ _ Hc).
  cbn [fst snd]. rewrite bind_run. cbn [mget fst snd]. rewrite bind_run.
  cbn [completion_wait_of mgets fst snd]. cbv zeta. destruct (apc && _); [done |].
  rewrite bind_run. destruct (join_attach_ok t p c s Hok Hc) as [[E F] | [(E & F & D) | (E & [Hok1 F1] & Q1 & W1 & [c1 P1])]].
  - rewrite E. cbn. intros _. pose proof (join_none_pq t p s Hok E p) as Q. by rewrite Q.
  - replace ((join_port alloc_ok t p s).1 =? NULL) with false by lia. rewrite bind_run.
    intros F'. by rewrite (take_or_wait_sticky _ _ _ (attach_sticky _ _ _ F)) in F'.
  - replace ((join_port alloc_ok t p s).1 =? NULL) with false by lia. rewrite bind_run. intros _.
    set (s1 := (attach_wait _ p _).2) in *. pose proof (Q1 p) as Qp. unfold pq in Qp. rewrite P1, Hc in Qp. injection Qp as Eq Ed Es.
    unfold take_or_wait. rewrite bind_run, (get_port_run _ _ _ P1). cbn [fst snd]. rewrite Eq.
    destruct (c_queue c) as [| m q] eqn:Ec.
    + apply wl_some in W1 as (wt & Hwt & _). rewrite bind_run, (get_wait_run _ _ _ Hwt). cbn. split; [done |]. exact (Q1 p).
    + cbn. exists q. eexists. split; [done |]. rewrite lookup_insert_eq. split_and!; [done | done |]. cbn. destruct q; [done |].
      rewrite Es. apply (qk_sync _ _ (proj2 Hok) p c Hc); [| by rewrite Ec].
      destruct (lk_ports _ (proj1 Hok) p (c_wait_queue c)) as [? _]; [apply wq_some; by exists c | lia].
Qed.

Lemma get_thread_ok t s : comp_ok NULL s -> fine s (req_get_thread_completion t s).2.
Proof.
  intros Hok. unfold req_get_thread_completion. rewrite bind_run.
  cbn [completion_wait_of mgets fst snd]. fold (tw s t).
  destruct (Z.eqb_spec (tw s t) NULL) as [E | E]; [cbn; by apply set_cerror_fine |].
  destruct (lk_threads _ (proj1 Hok) t E) as [p (wt & Hwt & Ep & Et)%wl_some].
  rewrite bind_run, (get_wait_run _ _ _ Hwt). cbn [fst snd].
  destruct (cw_msg wt) as [m |]; [| cbn; by apply set_cerror_fine].
  rewrite !bind_run. cbn [put_wait mmodify mreturn fst snd]. set (s1 := set_cwaits _ s).
  assert (C : calm s s1) by (by apply (calm_put_wait _ wt)).
  assert (Hok1 : comp_ok NULL s1).
  { split; [exact (calm_links _ _ C (proj1 Hok)) |]. by destruct Hok as [_ [? ? ? ?]]. }
  destruct (cw_completion wt =? NULL); cbn [mwhen mreturn snd]; [| by split].
  destruct (cleanup_ok t s1 Hok1) as [[Hok2 F2] _]. split; [done |].
  rewrite F2. by destruct C as (_ & ? & _).
Qed.
End Ops.
