(* ===== verification/CompletionTheorems.v ===== *)
(** * What completion ports promise

    Sequences of requests from a server without ports.  [completion_ports_are_queues]:
    as long as nothing went wrong, the messages leave each port in the order they came,
    none lost in between, the counter of the port agrees with its queue, a port with
    messages is signalled, and removing the last message ends that.
    [remove_completion_stale_entry] says exactly which request goes wrong, and
    [wait_leaves_port_signalled] that the signal of a port may outlive its messages. *)

From stdpp Require Import base list gmap.
From Stdlib Require Import ZArith Lia ZifyBool.
From S2P Require Import Prelude Completion CompletionProofs CompletionOps.

Open Scope Z_scope.

(** ** Sequences of requests *)

Inductive comp_op :=
  | OpCreate (concurrent : Z)
  | OpPost (p : ptr) (reserve_ok : bool) (m : comp_msg)
  | OpRemove (t p : ptr) (alertable_apc : bool)
  | OpGet (t : ptr)
  | OpWait (w : ptr)
  | OpClose (p : ptr) (handle_count : Z)
  | OpDestroy (p : ptr)
  | OpExit (t : ptr).

Definition comp_start : cstate := mkCState ∅ ∅ ∅ 1 0 0 0 false [].

(** A request names a port or a wait object that exists; the last reference to a port
    is given back when no thread waits for it. *)
Definition allowed (o : comp_op) (s : cstate) : Prop :=
  match o with
  | OpPost p _ _ | OpRemove _ p _ | OpClose p _ => is_Some (cs_ports s !! p)
  | OpWait w => is_Some (cs_waits s !! w)
  | OpDestroy p => wq s p = Some []
  | OpCreate _ | OpGet _ | OpExit _ => True
  end.

Section Steps.
Context (wakes : nat -> ptr -> nat) (alloc_ok : nat -> bool).

Definition run_op (o : comp_op) (s : cstate) : cstate :=
  match o with
  | OpCreate n => (req_create_completion alloc_ok n s).2
  | OpPost p r m => (req_add_completion wakes alloc_ok p r m s).2
  | OpRemove t p apc => (req_remove_completion alloc_ok t p apc s).2
  | OpGet t => (req_get_thread_completion t s).2
  | OpWait w => (wait_for w s).2
  | OpClose p n => (completion_close_handle wakes p n s).2
  | OpDestroy p => (completion_destroy p s).2
  | OpExit t => (cleanup_thread_completion t s).2
  end.

(** States the server reaches, none of them after something went wrong. *)
Inductive reachable : cstate -> Prop :=
  | reach_start : reachable comp_start
  | reach_op o s : reachable s -> cs_fault s = false -> allowed o s -> reachable (run_op o s).

Lemma comp_start_ok : comp_ok NULL comp_start.
Proof.
  split; split; unfold comp_start; cbn [cs_next cs_ports cs_trace]; try (intros ? ? H; by rewrite lookup_empty in H).
  - lia.
  - intros p l H. unfold wq in H. cbn in H. by rewrite lookup_empty in H.
  - intros w p t H. unfold wl in H. cbn in H. by rewrite lookup_empty in H.
  - intros t H. unfold tw in H. cbn in H. by rewrite lookup_empty in H.
  - done.
Qed.

Lemma run_op_ok o s :
  comp_ok NULL s -> allowed o s ->
  fine s (run_op o s) \/
  exists t p apc, o = OpRemove t p apc /\ cs_fault (run_op o s) = true /\ wl s (tw s t) = Some (NULL, t).
Proof.
  intros Hok Ha. destruct o as [n | p r m | t p apc | t | w | p n | p | t]; cbn [run_op allowed] in *.
  - left. by apply create_port_ok.
  - left. unfold req_add_completion. destruct r; [| by split]. destruct Ha as [c Hc].
    destruct (add_completion_ok wakes alloc_ok p c m s Hok Hc) as [? (_ & ? & _)].
    by split.
  - destruct Ha as [c Hc]. destruct (remove_ok alloc_ok t p c apc s Hok Hc) as [H | [? ?]]; [by left |].
    right. by exists t, p, apc.
  - left. by apply get_thread_ok.
  - left. destruct Ha as [wt Hwt].
    destruct (wake_one_ok NULL w (cw_completion wt) (cw_thread wt) s Hok) as [? (_ & ? & _)]; [| by split].
    apply wl_some. by exists wt.
  - left. destruct Ha as [c Hc]. by apply (close_handle_ok wakes p c).
  - left. apply wq_some in Ha as (c & Hc & Hw). by apply (destroy_ok p c).
  - left. by apply cleanup_ok.
Qed.

Lemma reachable_ok s : reachable s -> cs_fault s = false -> comp_ok NULL s.
Proof.
  intros Hr. induction Hr as [| o s Hr IH Hf Ha]; intros F; [apply comp_start_ok |].
  destruct (run_op_ok o s (IH Hf) Ha) as [[H _] | (t & p & apc & -> & F' & _)]; [done | congruence].
Qed.
End Steps.

(** ** Theorems *)

(** C17: in every state the requests reach without a fault, each port is a queue: the messages
    posted to it are those taken from it followed by those it holds, in order; its depth is
    the number it holds (modulo [2^32]); a port that holds messages is signalled; and a
    wait object belongs to the port whose queue it is in, for the thread that owns it.  When
    a thread then removes a message and no fault happens, it gets the oldest one, and the
    port stays signalled exactly when another message is left; it is told to wait only when
    the port holds none. *)
Theorem completion_ports_are_queues wakes alloc_ok s :
  reachable wakes alloc_ok s -> cs_fault s = false ->
  forall p c, cs_ports s !! p = Some c ->
    queued p (cs_trace s) = taken p (cs_trace s) ++ c_queue c /\
    c_depth c = u32 (Z.of_nat (length (c_queue c))) /\
    (c_queue c <> [] -> c_sync c = true) /\
    NoDup (c_wait_queue c) /\
    (forall w, w ∈ c_wait_queue c -> exists t, wl s w = Some (p, t) /\ tw s t = w) /\
    forall t apc, let r := req_remove_completion alloc_ok t p apc s in cs_fault r.2 = false ->
      match r.1 with
      | Reply_msg m => exists q c', c_queue c = m :: q /\ cs_ports r.2 !! p = Some c' /\ c_queue c' = q /\ c_sync c' = negb (bool_decide (q = []))
      | Reply_wait _ => c_queue c = [] /\ pq r.2 p = pq s p
      | Reply_none => pq r.2 p = pq s p
      end.
Proof.
  intros Hr Hf p c Hc. pose proof (reachable_ok _ _ s Hr Hf) as Hok. pose proof Hok as [Hl Hq].
  destruct (lk_ports _ Hl p (c_wait_queue c)) as (Hp & Hn & Hin); [apply wq_some; by exists c |].
  split_and!; [by apply (qk_fifo _ _ Hq) | by apply (qk_depth _ _ Hq p) | | done | |].
  - intros Hne. apply (qk_sync _ _ Hq p c Hc); [lia | done].
  - intros w Hw. destruct (Hin w Hw) as [t Ht]. exists t. split; [done |].
    by destruct (lk_waits _ Hl w p t Ht) as (_ & ? & _).
  - intros t apc. by apply remove_reply_ok.
Qed.

(** The only request of a reachable state that goes wrong is [remove_completion]
    by a thread whose wait object is in no list, as its port was closed while a message
    waited to be fetched: the entry is taken out of a list although it is in none. *)
Theorem remove_completion_stale_entry wakes alloc_ok s o :
  reachable wakes alloc_ok s -> cs_fault s = false -> allowed o s ->
  cs_fault (run_op wakes alloc_ok o s) = true ->
  exists t p apc wt, o = OpRemove t p apc /\ cs_waits s !! tw s t = Some wt /\
    cw_completion wt = NULL /\ cw_thread wt = t /\ linked (tw s t) s = false.
Proof.
  intros Hr Hf Ha F. pose proof (reachable_ok _ _ s Hr Hf) as Hok.
  destruct (run_op_ok wakes alloc_ok o s Hok Ha) as [[_ F'] | (t & p & apc & -> & _ & W)]; [congruence |].
  pose proof W as (wt & Hwt & E1 & E2)%wl_some. exists t, p, apc, wt. split_and!; try done.
  apply not_true_is_false. intros (q & l & Hq & Hin)%linked_iff.
  destruct (lk_ports _ (proj1 Hok) q l Hq) as (? & _ & _).
  assert (q = NULL) by exact (waiter_port s q l _ NULL t (proj1 Hok) Hq Hin W). lia.
Qed.

(** A wait that takes the last message of a port gives it to the wait object and
    leaves the port empty, yet signalled: only [remove_completion] resets the signal
    ([completion.c:136-153] against [completion.c:363]). *)
Theorem wait_leaves_port_signalled wakes alloc_ok s w wt c m :
  reachable wakes alloc_ok s -> cs_fault s = false ->
  cs_waits s !! w = Some wt -> cs_ports s !! cw_completion wt = Some c -> c_queue c = [m] ->
  let s' := run_op wakes alloc_ok (OpWait w) s in
  cs_fault s' = false /\ cw_msg <$> cs_waits s' !! w = Some (Some m) /\
  exists c', cs_ports s' !! cw_completion wt = Some c' /\
    c_queue c' = [] /\ c_depth c' = 0 /\ c_sync c' = true.
Proof.
  intros Hr Hf Hw Hc Em. destruct (reachable_ok _ _ s Hr Hf) as [Hl Hq].
  destruct (lk_ports _ Hl (cw_completion wt) (c_wait_queue c)) as [Hp _]; [apply wq_some; by exists c |].
  pose proof (qk_depth _ _ Hq _ c Hc) as Hd.
  pose proof (qk_sync _ _ Hq _ c Hc ltac:(lia) ltac:(by rewrite Em)) as Hs. rewrite Em in Hd.
  cbn [run_op]. unfold wait_for, wake_one, completion_wait_signaled, completion_wait_satisfied.
  rewrite !bind_run, (get_wait_run _ _ _ Hw). cbn [fst snd].
  replace (cw_completion wt =? NULL) with false by lia.
  rewrite !bind_run, !(get_port_run _ _ _ Hc). cbn [mreturn fst snd]. rewrite Hd.
  change (negb (u32 (Z.of_nat (length [m])) =? 0)) with true. cbn [mwhen].
  rewrite !bind_run, (get_wait_run _ _ _ Hw). cbn [fst snd].
  replace (cw_completion wt =? NULL) with false by lia.
  rewrite !bind_run, !(get_port_run _ _ _ Hc). cbn [mreturn fst snd]. rewrite Em, Hd.
  cbn [mbind' put_port log_event put_wait mmodify fst snd set_ports set_ctrace set_cwaits cs_ports cs_waits cs_fault].
  rewrite !lookup_insert_eq. split_and!; [done | done |]. eexists. split_and!; [done | done | done | exact Hs].
Qed.

(** ** Witnesses *)

(** A thread 7 with a wait object at port 1, and a second port. *)
Definition hello : comp_msg := mkMsg 1 2 3 0.
Definition waiting : list comp_op := [OpCreate 0; OpCreate 0; OpRemove 7 1 false].

Fixpoint run_ops (wakes : nat -> ptr -> nat) (ops : list comp_op) (s : cstate) : cstate :=
  match ops with [] => s | o :: ops' => run_ops wakes ops' (run_op wakes (fun _ => true) o s) end.

(** The message is left in the queue while nobody waits, and goes to the waiter else. *)
Definition posted (n : nat) : cstate := run_ops (fun _ _ => n) (waiting ++ [OpPost 1 true hello]) comp_start.
Definition closed_port : cstate := run_op (fun _ _ => 1%nat) (fun _ => true) (OpClose 1 1) (posted 1).

Lemma posted_reachable n :
  n = 0%nat \/ n = 1%nat -> reachable (fun _ _ => n) (fun _ => true) (posted n).
Proof.
  intros [-> | ->]; unfold posted, waiting; cbn [app run_ops];
    repeat (apply reach_op; [| by vm_compute | vm_compute; eauto]); apply reach_start.
Defined.

Lemma completion_ports_are_queues_witness :
  cs_ports (posted 0) !! 1 = Some (mkPort [hello] [3] 1 0 true) /\
  queued 1 (cs_trace (posted 0)) = taken 1 (cs_trace (posted 0)) ++ [hello].
Proof.
  assert (H : cs_ports (posted 0) !! 1 = Some (mkPort [hello] [3] 1 0 true)) by (vm_compute; reflexivity).
  split; [exact H |].
  apply (completion_ports_are_queues (fun _ _ => 0%nat) (fun _ => true) (posted 0)
           (posted_reachable 0 (or_introl eq_refl)) ltac:(vm_compute; reflexivity) 1 _ H).
Defined.

Lemma remove_completion_stale_entry_witness :
  reachable (fun _ _ => 1%nat) (fun _ => true) closed_port /\ cs_fault closed_port = false /\
  cs_fault (run_op (fun _ _ => 1%nat) (fun _ => true) (OpRemove 7 2 false) closed_port) = true /\
  exists t p apc wt, OpRemove 7 2 false = OpRemove t p apc /\ cs_waits closed_port !! tw closed_port t = Some wt /\
    cw_completion wt = NULL /\ cw_thread wt = t /\ linked (tw closed_port t) closed_port = false.
Proof.
  assert (R : reachable (fun _ _ => 1%nat) (fun _ => true) closed_port).
  { apply reach_op; [exact (posted_reachable 1 (or_intror eq_refl)) | by vm_compute | vm_compute; eauto]. }
  assert (F : cs_fault closed_port = false) by (vm_compute; reflexivity).
  assert (F' : cs_fault (run_op (fun _ _ => 1%nat) (fun _ => true) (OpRemove 7 2 false) closed_port) = true)
    by (vm_compute; reflexivity).
  split; [exact R |]. split; [exact F |]. split; [exact F' |].
  apply (remove_completion_stale_entry (fun _ _ => 1%nat) (fun _ => true) closed_port (OpRemove 7 2 false) R F
           ltac:(vm_compute; eauto) F').
Defined.

Lemma wait_leaves_port_signalled_witness :
  let s' := run_op (fun _ _ => 0%nat) (fun _ => true) (OpWait 3) (posted 0) in
  exists c', cs_ports s' !! 1 = Some c' /\ c_queue c' = [] /\ c_depth c' = 0 /\ c_sync c' = true.
Proof.
  apply (wait_leaves_port_signalled (fun _ _ => 0%nat) (fun _ => true) (posted 0) 3 (mkCWait 3 1 7 None)
           (mkPort [hello] [3] 1 0 true) hello (posted_reachable 0 (or_introl eq_refl)));
    vm_compute; reflexivity.
Defined.
