(* ===== verification/StrText.v ===== *)
(** * Strings in the text files of the wineserver

    Models [parse_strW], [dump_strW] and [to_hex] of [src/server/unicode.c], which read
    and write the strings of registry files.  A C string is the list of its bytes; the
    byte at its end, and any byte 0 in it, is the terminator.  [advance] is [p++]: going
    past the terminator is [None], as is writing past the buffer of [dump_strW].  A
    UTF-16 string is the list of its 16-bit units. *)

From stdpp Require Import base list.
From Stdlib Require Import ZArith Lia.
From S2P Require Import Prelude.

Open Scope Z_scope.

(** ** Characters *)

Definition isdigit (c : Z) : bool := (0x30 <=? c) && (c <=? 0x39).
Definition isxdigit (c : Z) : bool :=
  isdigit c || ((0x41 <=? c) && (c <=? 0x46)) || ((0x61 <=? c) && (c <=? 0x66)).
Definition tolower (c : Z) : Z := if (0x41 <=? c) && (c <=? 0x5a) then c + 32 else c.
Definition isodigit (c : Z) : bool := (0x30 <=? c) && (c <=? 0x37).

Definition to_hex (ch : Z) : Z := if isdigit ch then ch - 0x30 else tolower ch - 0x61 + 10.

Definition BACKSLASH : Z := 0x5c.

(** [*p] and [p++] *)
Definition at_ (p : list Z) : Z := match p with [] => 0 | c :: _ => c end.
Definition advance (p : list Z) : option (list Z) :=
  match p with [] => None | c :: p' => if c =? 0 then None else Some p' end.

(** ** Reading *)

(** [if (isxdigit( *p )) *dest = ( *dest * 16) + to_hex( *p++);] *)
Definition hex_more (r : Z * list Z) : option (Z * list Z) :=
  let '(dest, p) := r in
  if isxdigit (at_ p) then p' ← advance p; Some (u16 (dest * 16 + to_hex (at_ p)), p')
  else Some (dest, p).

Definition parse_hex (p : list Z) : option (Z * list Z) :=
  if negb (isxdigit (at_ p)) then Some (0x78, p)
  else
    p' ← advance p;
    r ← hex_more (u16 (to_hex (at_ p)), p');
    r ← hex_more r;
    hex_more r.

Definition octal_more (r : Z * list Z) : option (Z * list Z) :=
  let '(dest, p) := r in
  if isodigit (at_ p) then p' ← advance p; Some (u16 (dest * 8 + (at_ p - 0x30)), p')
  else Some (dest, p).

Definition parse_octal (p : list Z) : option (Z * list Z) :=
  p' ← advance p;
  r ← octal_more (u16 (at_ p - 0x30), p');
  octal_more r.

(** The cases of one letter. *)
Definition letter_escape (c : Z) : option Z :=
  if c =? 0x61 then Some 7 else if c =? 0x62 then Some 8
  else if c =? 0x65 then Some 27 else if c =? 0x66 then Some 12
  else if c =? 0x6e then Some 10 else if c =? 0x72 then Some 13
  else if c =? 0x74 then Some 9 else if c =? 0x76 then Some 11 else None.

Definition utf8_length : list nat :=
  repeat 0%nat 66 ++ repeat 1%nat 30 ++ repeat 2%nat 16 ++ repeat 3%nat 5 ++ repeat 0%nat 11.
Definition utf8_mask (n : nat) : Z := nth n [0x7f; 0x1f; 0x0f; 0x07] 0.
Definition utf8_minval (n : nat) : Z := nth n [0x0; 0x80; 0x800; 0x10000] 0.

(** [n] bytes that follow the first one; no value when one of them is missing. *)
Fixpoint utf8_rest (n : nat) (res : Z) (p : list Z) : option (option Z * list Z) :=
  match n with
  | O => Some (Some res, p)
  | S n' =>
      let ch := Z.lxor (at_ p) 0x80 in
      if 0x40 <=? ch then Some (None, p)
      else p' ← advance p; utf8_rest n' (Z.lor (Z.shiftl res 6) ch) p'
  end.

(** The units of a character, when [room] units are left in the buffer. *)
Definition utf16_units (room : nat) (res : Z) : list Z :=
  if res <=? 0xffff then [res]
  else
    let res := res - 0x10000 in
    Z.lor 0xd800 (Z.shiftr res 10) ::
    (if (1 <? room)%nat then [Z.lor 0xdc00 (Z.land res 0x3ff)] else []).

(** A character that is not an escape: the units written, and the rest of the text. *)
Definition parse_plain (room : nat) (p : list Z) : option (list Z * list Z) :=
  let ch := at_ p in
  p' ← advance p;
  if ch <? 0x80 then Some ([ch], p')
  else
    let charlen := nth (Z.to_nat (ch - 0x80)) utf8_length 0%nat in
    match charlen with
    | O => Some ([], p')
    | _ =>
        '(res, p') ← utf8_rest charlen (Z.land ch (utf8_mask charlen)) p';
        match res with
        | Some res =>
            if (res <? utf8_minval charlen) || (0x10ffff <? res) then Some ([], p')
            else Some (utf16_units room res, p')
        | None => Some ([], p')
        end
    end.

(** One round of the loop: what it writes and the rest, or the end of the text after a
    backslash. *)
Inductive round := Went (out p : list Z) | Broke (p : list Z).

Definition went (r : option (list Z * list Z)) : option round :=
  '(out, p) ← r; Some (Went out p).

Definition parse_round (room : nat) (p : list Z) : option round :=
  if at_ p =? BACKSLASH then
    p ← advance p;
    if at_ p =? 0 then Some (Broke p)
    else
      match letter_escape (at_ p) with
      | Some c => p' ← advance p; Some (Went [c] p')
      | None =>
          if at_ p =? 0x78 then
            p' ← advance p;
            '(c, p') ← parse_hex p';
            Some (Went [c] p')
          else if isodigit (at_ p) then
            '(c, p') ← parse_octal p;
            Some (Went [c] p')
          else went (parse_plain room p)
      end
  else went (parse_plain room p).

(** The loop, with what was written to the buffer of [cap] units. *)
Fixpoint parse_loop (fuel cap : nat) (endchar : Z) (dest p : list Z)
    : option (list Z * list Z) :=
  if (at_ p =? 0) || (at_ p =? endchar) || (cap <=? length dest)%nat then Some (dest, p)
  else
    match fuel with
    | O => None
    | S fuel' =>
        r ← parse_round (cap - length dest) p;
        match r with
        | Went out p' => parse_loop fuel' cap endchar (dest ++ out) p'
        | Broke p' => Some (dest, p')
        end
    end.

(** [parse_strW]: the return value, the units written and [*len] afterwards. *)
Definition parse_strW (len : Z) (src : list Z) (endchar : Z) : option (Z * list Z * Z) :=
  let cap := Z.to_nat (len / 2) in
  '(dest, p) ← parse_loop (length src) cap endchar [] src;
  if (cap <=? length dest)%nat then Some (-1, dest, len)
  else
    let dest := dest ++ [0] in
    if at_ p =? 0 then Some (-1, dest, len)
    else Some (Z.of_nat (length src) - Z.of_nat (length p) + 1, dest, 2 * Z.of_nat (length dest)).

(** ** Writing *)

Definition digit (d : Z) : Z := if d <? 10 then 0x30 + d else 0x61 + (d - 10).

(** The digits of [n] in base [b], without leading zeros. *)
Fixpoint digits (fuel : nat) (b n : Z) : list Z :=
  match fuel with
  | O => []
  | S fuel' => if n <? b then [digit n] else digits fuel' b (n / b) ++ [digit (n mod b)]
  end.

(** [%x], [%o] with a width filled with zeros. *)
Definition fmt (b : Z) (width : nat) (n : Z) : list Z :=
  let ds := digits 16 b n in repeat 0x30 (width - length ds) ++ ds.

(** [".......abtnvfr.............e...."] *)
Definition escapes : list Z :=
  [0x2e; 0x2e; 0x2e; 0x2e; 0x2e; 0x2e; 0x2e; 0x61; 0x62; 0x74; 0x6e; 0x76; 0x66; 0x72;
   0x2e; 0x2e; 0x2e; 0x2e; 0x2e; 0x2e; 0x2e; 0x2e; 0x2e; 0x2e; 0x2e; 0x2e; 0x2e; 0x65;
   0x2e; 0x2e; 0x2e; 0x2e].

(** Whether a digit comes after the unit that is written. *)
Definition hex_follows (next : option Z) : bool :=
  match next with Some d => (d <? 128) && isxdigit d | None => false end.
Definition octal_follows (next : option Z) : bool :=
  match next with Some d => isodigit d | None => false end.

(** What is written for one unit; [next] is the one after it.  [true] marks a call of
    [snprintf], which writes a terminator as well. *)
Definition dump_char (escape0 escape1 c : Z) (next : option Z) : list Z * bool :=
  if 127 <? c then
    (BACKSLASH :: 0x78 :: fmt 16 (if hex_follows next then 4 else 0) c, true)
  else if c <? 32 then
    let e := nth (Z.to_nat c) escapes 0x2e in
    if negb (e =? 0x2e) then ([BACKSLASH; e], true)
    else (BACKSLASH :: fmt 8 (if octal_follows next then 3 else 0) c, true)
  else
    ((if (c =? BACKSLASH) || (c =? escape0) || (c =? escape1) then [BACKSLASH] else []) ++ [c], false).

Definition BUFFER_SIZE : nat := 256.

(** The loop: bytes in the file, bytes in the buffer, [count]. *)
Fixpoint dump_loop (escape0 escape1 : Z) (str out buffer : list Z) (count : Z)
    : option (list Z * Z) :=
  match str with
  | [] => Some (out ++ buffer, count + Z.of_nat (length buffer))
  | c :: str' =>
      let full := (BUFFER_SIZE - 8 <? length buffer)%nat in
      let out := if full then out ++ buffer else out in
      let count := if full then count + Z.of_nat (length buffer) else count in
      let buffer := if full then [] else buffer in
      let w := dump_char escape0 escape1 c (head str') in
      if (length buffer + length w.1 + (if w.2 then 1 else 0) <=? BUFFER_SIZE)%nat
      then dump_loop escape0 escape1 str' out (buffer ++ w.1) count
      else None
  end.

(** [dump_strW]: the bytes written to the file and their number. *)
Definition dump_strW (str : list Z) (escape0 escape1 : Z) : option (list Z * Z) :=
  dump_loop escape0 escape1 str [] [] 0.

Example dump_example :
  dump_strW [0x43; 0x3a; 0x5c; 0x7; 0x1; 0x31; 0xe9; 0x41; 0xd83d] 0x22 0x22 =
  Some ([0x43; 0x3a; 0x5c; 0x5c; 0x5c; 0x61; 0x5c; 0x30; 0x30; 0x31; 0x31; 0x5c; 0x78; 0x30;
         0x30; 0x65; 0x39; 0x41; 0x5c; 0x78; 0x64; 0x38; 0x33; 0x64], 24).
Proof. reflexivity. Qed.

Example parse_example :
  parse_strW 100 ([0x43; 0x3a; 0x5c; 0x5c; 0x5c; 0x61; 0x5c; 0x30; 0x30; 0x31; 0x31; 0x5c; 0x78;
    0x30; 0x30; 0x65; 0x39; 0x41; 0x5c; 0x78; 0x64; 0x38; 0x33; 0x64] ++ [0x22; 0x3d]) 0x22 =
  Some (25, [0x43; 0x3a; 0x5c; 0x7; 0x1; 0x31; 0xe9; 0x41; 0xd83d; 0], 20).
Proof. reflexivity. Qed.
