(* ===== verification/StrTextProofs.v ===== *)
(** * Reading back what was written

    [parse_strW] is safe on every text: it ends, stays within the text and its buffer.
    [dump_strW] stays within its buffer, and [parse_strW] reads what it wrote. *)

From stdpp Require Import base list.
From Stdlib Require Import ZArith Lia ZifyBool.
From S2P Require Import Prelude StrText.

Open Scope Z_scope.

Definition byte (c : Z) : Prop := 0 <= c < 256.
Definition unit16 (c : Z) : Prop := 0 <= c < 65536.

(** ** Safety of the parser *)

Lemma advance_ok p : at_ p <> 0 -> exists p', advance p = Some p' /\ p = at_ p :: p'.
Proof.
  destruct p as [| c p]; [done |]. cbn [at_ advance]. intros H. exists p.
  by replace (c =? 0) with false by lia.
Qed.

(** [p'] is what is left of [p] after reading at least [n] bytes. *)
Definition left_of (n : nat) (p' p : list Z) : Prop := exists q, p = q ++ p' /\ (n <= length q)%nat.

Lemma left_of_refl p : left_of 0 p p.
Proof. by exists []. Qed.

Lemma left_of_cons c n p' p : left_of n p' p -> left_of (S n) p' (c :: p).
Proof. intros (q & -> & Hq). exists (c :: q). split; [done | simpl; lia]. Qed.

Lemma left_of_trans n m p1 p2 p3 : left_of n p1 p2 -> left_of m p2 p3 -> left_of (n + m) p1 p3.
Proof.
  intros (q1 & -> & H1) (q2 & -> & H2). exists (q2 ++ q1). rewrite app_assoc, length_app.
  split; [done | lia].
Qed.

Lemma left_of_weaken n m p' p : (m <= n)%nat -> left_of n p' p -> left_of m p' p.
Proof. intros Hle (q & -> & Hq). exists q. split; [done | lia]. Qed.

Lemma left_of_bytes n p' p : left_of n p' p -> Forall byte p -> Forall byte p'.
Proof. intros (q & -> & _) H. by apply Forall_app in H as [_ ?]. Qed.

Lemma at_byte p : Forall byte p -> byte (at_ p).
Proof. destruct p; [done |]. by intros [? _]%Forall_cons. Qed.

Lemma u16_unit x : unit16 (u16 x).
Proof. apply uwrap_range. lia. Qed.

Lemma xdigit_nonzero c : isxdigit c = true -> c <> 0.
Proof. unfold isxdigit, isdigit. lia. Qed.

Lemma odigit_nonzero c : isodigit c = true -> c <> 0.
Proof. unfold isodigit. lia. Qed.

(** A function that reads a number of digits. *)
Definition reads (r : option (Z * list Z)) (n : nat) (p : list Z) : Prop :=
  exists c p', r = Some (c, p') /\ unit16 c /\ left_of n p' p.

Lemma reads_bind r n p k :
  reads r n p -> (forall c p', unit16 c -> reads (k (c, p')) 0 p') -> reads (r ≫= k) n p.
Proof.
  intros (c & p' & -> & Hc & Hp) Hk. destruct (Hk c p' Hc) as (c2 & p2 & Hr & Hc2 & Hp2).
  exists c2, p2. split_and!; [done | done |]. exact (left_of_trans 0 n _ _ _ Hp2 Hp).
Qed.

Lemma hex_more_reads c p : unit16 c -> reads (hex_more (c, p)) 0 p.
Proof.
  intros Hc. unfold hex_more. destruct (isxdigit (at_ p)) eqn:E.
  - destruct (advance_ok p (xdigit_nonzero _ E)) as (p' & -> & Ep). cbn.
    exists (u16 (c * 16 + to_hex (at_ p))), p'. split_and!; [done | apply u16_unit |].
    exists [at_ p]. split; [done | simpl; lia].
  - exists c, p. split_and!; [done | done | apply left_of_refl].
Qed.

Lemma octal_more_reads c p : unit16 c -> reads (octal_more (c, p)) 0 p.
Proof.
  intros Hc. unfold octal_more. destruct (isodigit (at_ p)) eqn:E.
  - destruct (advance_ok p (odigit_nonzero _ E)) as (p' & -> & Ep). cbn.
    exists (u16 (c * 8 + (at_ p - 0x30))), p'. split_and!; [done | apply u16_unit |].
    exists [at_ p]. split; [done | simpl; lia].
  - exists c, p. split_and!; [done | done | apply left_of_refl].
Qed.

Lemma first_reads p k x :
  at_ p <> 0 -> (forall p', reads (k (u16 x, p')) 0 p') ->
  reads (p' ← advance p; k (u16 x, p')) 1 p.
Proof.
  intros Hp Hk. destruct (advance_ok p Hp) as (p' & -> & Ep). cbn.
  destruct (Hk p') as (c & p2 & -> & Hc & Hl). exists c, p2. split_and!; [done | done |].
  rewrite Ep. by apply left_of_cons.
Qed.

Lemma parse_hex_reads p : reads (parse_hex p) 0 p.
Proof.
  unfold parse_hex. destruct (isxdigit (at_ p)) eqn:E; cbn [negb].
  - destruct (first_reads p (fun r => r ← hex_more r; r ← hex_more r; hex_more r) (to_hex (at_ p)))
      as (c & p' & Hr & Hc & Hl); [exact (xdigit_nonzero _ E) | |].
    { intros p'. apply (reads_bind _ 0); [apply hex_more_reads, u16_unit |].
      intros. apply (reads_bind _ 0); [by apply hex_more_reads |]. intros. by apply hex_more_reads. }
    exists c, p'. split_and!; [exact Hr | done |]. apply (left_of_weaken 1); [lia | done].
  - exists 0x78, p. split_and!; [done | done | apply left_of_refl].
Qed.

Lemma parse_octal_reads p : at_ p <> 0 -> reads (parse_octal p) 1 p.
Proof.
  intros Hp. apply (first_reads p (fun r => r ← octal_more r; octal_more r)); [done |].
  intros p'. apply (reads_bind _ 0); [apply octal_more_reads, u16_unit |].
  intros. by apply octal_more_reads.
Qed.

Lemma lor_high base k x : 0 <= k -> 0 <= x < 2 ^ k -> Z.lor (base * 2 ^ k) x = base * 2 ^ k + x.
Proof.
  intros Hk Hx. assert (E : Z.land (base * 2 ^ k) x = 0).
  { apply Z.bits_inj'. intros n Hn. rewrite Z.land_spec, Z.bits_0. destruct (Z.ltb_spec n k).
    { by rewrite Z.mul_pow2_bits_low by lia. }
    destruct (Z.eq_dec x 0) as [-> |]; [by rewrite Z.bits_0, andb_false_r |].
    rewrite (Z.bits_above_log2 x), andb_false_r; [done | lia |].
    apply Z.log2_lt_pow2; [lia |]. apply Z.lt_le_trans with (2 ^ k); [lia | apply Z.pow_le_mono_r; lia]. }
  by rewrite <- Z.lxor_lor, <- Z.add_nocarry_lxor.
Qed.

Lemma lor_shift6 res ch : 0 <= ch < 64 -> Z.lor (Z.shiftl res 6) ch = res * 64 + ch.
Proof. intros Hc. rewrite Z.shiftl_mul_pow2 by lia. apply (lor_high res 6); simpl; lia. Qed.

(** Continuation bytes keep the value below a bound that grows by 6 bits. *)
Lemma utf8_rest_reads n res p :
  Forall byte p -> 0 <= res ->
  exists v p', utf8_rest n res p = Some (v, p') /\ left_of 0 p' p /\
    match v with Some r => 0 <= r < (res + 1) * 64 ^ Z.of_nat n | None => True end.
Proof.
  revert res p. induction n as [| n IH]; intros res p Hb Hr; cbn [utf8_rest].
  { exists (Some res), p. split_and!; [done | apply left_of_refl | simpl; lia | simpl; lia]. }
  pose proof (at_byte p Hb) as Ha. set (ch := Z.lxor (at_ p) 0x80).
  destruct (Z.leb_spec 0x40 ch) as [L | L].
  { exists None, p. split_and!; [done | apply left_of_refl | done]. }
  assert (H0 : 0 <= ch) by (apply Z.lxor_nonneg; unfold byte in Ha; lia).
  destruct (advance_ok p) as (p' & -> & Ep).
  { intros E. unfold ch in L. rewrite E in L. vm_compute in L. done. }
  cbn. rewrite lor_shift6 by lia.
  assert (Hb' : Forall byte p') by (rewrite Ep in Hb; by apply Forall_cons in Hb as [_ ?]).
  destruct (IH (res * 64 + ch) p' Hb' ltac:(lia)) as (v & p2 & -> & Hl & Hv). exists v, p2.
  split_and!; [done | |].
  - rewrite Ep. apply (left_of_weaken 1); [lia |]. by apply left_of_cons.
  - destruct v as [r |]; [| done]. rewrite Nat2Z.inj_succ, Z.pow_succ_r by lia.
    assert (0 < 64 ^ Z.of_nat n) by (apply Z.pow_pos_nonneg; lia). nia.
Qed.

Lemma utf16_units_ok room res :
  (1 <= room)%nat -> 0 <= res <= 0x10ffff ->
  (length (utf16_units room res) <= room)%nat /\ Forall unit16 (utf16_units room res).
Proof.
  intros Hroom Hr. unfold utf16_units. destruct (Z.leb_spec res 0xffff).
  { split; [simpl; lia |]. repeat constructor; lia. }
  assert (Hs : 0 <= Z.shiftr (res - 0x10000) 10 < 2 ^ 10).
  { rewrite Z.shiftr_div_pow2 by lia. split; [apply Z.div_pos; lia |].
    apply Z.div_lt_upper_bound; lia. }
  assert (Hl : 0 <= Z.land (res - 0x10000) 0x3ff < 2 ^ 10).
  { change 0x3ff with (Z.ones 10). rewrite Z.land_ones by lia. apply Z.mod_pos_bound. lia. }
  change 0xd800 with (54 * 2 ^ 10). change 0xdc00 with (55 * 2 ^ 10).
  rewrite !lor_high by lia.
  destruct (Nat.ltb_spec 1 room); (split; [simpl; lia |]); repeat constructor; unfold unit16; lia.
Qed.

(** What one round may do. *)
Definition writes (room : nat) (p : list Z) (out p' : list Z) : Prop :=
  left_of 1 p' p /\ (length out <= room)%nat /\ Forall unit16 out.

Lemma writes_one room p c p' : (1 <= room)%nat -> unit16 c -> left_of 1 p' p -> writes room p [c] p'.
Proof. intros Hr Hc Hl. split_and!; [done | simpl; lia | apply Forall_cons; split; [done | constructor]]. Qed.

Lemma parse_plain_ok room p :
  (1 <= room)%nat -> Forall byte p -> at_ p <> 0 ->
  exists out p', parse_plain room p = Some (out, p') /\ writes room p out p'.
Proof.
  intros Hroom Hb Hp. pose proof (at_byte p Hb) as Ha. unfold byte in Ha. unfold parse_plain.
  destruct (advance_ok p Hp) as (p' & -> & Ep). cbn -[nth utf8_length].
  assert (Hl : left_of 1 p' p) by (rewrite Ep; apply left_of_cons, left_of_refl).
  assert (Hn : forall q, left_of 1 q p -> writes room p [] q).
  { intros q Hq. split_and!; [done | simpl; lia | constructor]. }
  destruct (Z.ltb_spec (at_ p) 0x80).
  { exists [at_ p], p'. split; [done |]. apply writes_one; [done | unfold unit16; lia | done]. }
  set (n := nth _ utf8_length 0%nat). destruct n as [| n'] eqn:En.
  { exists [], p'. split; [done | by apply Hn]. }
  rewrite <- En. assert (Hb' : Forall byte p') by exact (left_of_bytes _ _ _ Hl Hb).
  destruct (utf8_rest_reads n (Z.land (at_ p) (utf8_mask n)) p' Hb') as (v & p2 & -> & Hl2 & Hv).
  { apply Z.land_nonneg. lia. }
  assert (Hl3 : left_of 1 p2 p) by exact (left_of_trans 0 1 _ _ _ Hl2 Hl). cbn.
  destruct v as [r |]; [| exists [], p2; split; [done | by apply Hn]].
  destruct (_ || _) eqn:Er; [exists [], p2; split; [done | by apply Hn] |].
  exists (utf16_units room r), p2. split; [done |]. split; [done |]. apply utf16_units_ok; [done | lia].
Qed.

Lemma letter_escape_unit c e : letter_escape c = Some e -> unit16 e.
Proof.
  unfold letter_escape, unit16. repeat (destruct (_ =? _); [intros [= <-]; lia |]). done.
Qed.

Lemma parse_round_ok room p :
  (1 <= room)%nat -> Forall byte p -> at_ p <> 0 ->
  exists r, parse_round room p = Some r /\
    match r with Went out p' => writes room p out p' | Broke p' => left_of 1 p' p /\ at_ p' = 0 end.
Proof.
  intros Hroom Hb Hp. unfold parse_round.
  assert (Hplain : forall q, Forall byte q -> at_ q <> 0 -> (forall q', left_of 1 q' q -> left_of 1 q' p) ->
    exists r, went (parse_plain room q) = Some r /\
    match r with Went out p' => writes room p out p' | Broke p' => left_of 1 p' p /\ at_ p' = 0 end).
  { intros q Hq Hq0 Hmono. destruct (parse_plain_ok room q Hroom Hq Hq0) as (out & p' & E & Hl & ? & ?).
    exists (Went out p'). unfold went. rewrite E. split; [done |]. split_and!; [by apply Hmono | done | done]. }
  destruct (Z.eqb_spec (at_ p) BACKSLASH) as [Eb | Eb]; [| by apply Hplain].
  destruct (advance_ok p Hp) as (q & -> & Ep). cbn [mbind option_bind].
  assert (Hl : left_of 1 q p) by (rewrite Ep; apply left_of_cons, left_of_refl).
  assert (Hbq : Forall byte q) by exact (left_of_bytes _ _ _ Hl Hb).
  destruct (Z.eqb_spec (at_ q) 0) as [E0 | E0]; [by exists (Broke q) |].
  assert (Hstep : forall n q', left_of n q' q -> left_of 1 q' p).
  { intros n q' Hq. apply (left_of_weaken (n + 1)); [lia |]. exact (left_of_trans n 1 _ _ _ Hq Hl). }
  destruct (advance_ok q E0) as (q1 & Eq1 & Eq).
  assert (Hl1 : left_of 1 q1 q) by (rewrite Eq; apply left_of_cons, left_of_refl).
  destruct (letter_escape (at_ q)) as [e |] eqn:Ee.
  { rewrite Eq1. exists (Went [e] q1). split; [done |].
    apply writes_one; [done | by eapply letter_escape_unit | by eapply Hstep]. }
  destruct (at_ q =? 0x78).
  { rewrite Eq1. cbn [mbind option_bind]. destruct (parse_hex_reads q1) as (c & q2 & -> & Hc & Hq2).
    exists (Went [c] q2). split; [done |]. apply writes_one; [done | done |].
    apply (Hstep (0 + 1)%nat). exact (left_of_trans 0 1 _ _ _ Hq2 Hl1). }
  destruct (isodigit (at_ q)); [| by apply (Hplain q Hbq E0), Hstep].
  destruct (parse_octal_reads q E0) as (c & q2 & -> & Hc & Hq2).
  exists (Went [c] q2). split; [done |]. apply writes_one; [done | done |]. by eapply Hstep.
Qed.

(** The loop ends at the end of the text, at the delimiter or when the buffer is full. *)
Lemma parse_loop_ok fuel cap endchar dest p :
  Forall byte p -> Forall unit16 dest -> (length dest <= cap)%nat -> (length p <= fuel)%nat ->
  exists dest' p', parse_loop fuel cap endchar dest p = Some (dest', p') /\
    Forall unit16 dest' /\ (length dest' <= cap)%nat /\ left_of 0 p' p /\
    (at_ p' = 0 \/ at_ p' = endchar \/ length dest' = cap).
Proof.
  revert dest p. induction fuel as [| fuel IH]; intros dest p Hb Hd Hcap Hf; cbn [parse_loop].
  - destruct p; [| simpl in Hf; lia]. cbn. exists dest, []. split_and!; auto using left_of_refl.
  - destruct (_ || _ || _) eqn:E.
    { exists dest, p. split_and!; auto using left_of_refl. lia. }
    destruct (parse_round_ok (cap - length dest) p) as (r & -> & Hr); [lia | done | lia |].
    cbn [mbind option_bind]. destruct r as [out p' | p'].
    + destruct Hr as (Hl & Ho & Hu). pose proof Hl as (q & Ep & Hq).
      destruct (IH (dest ++ out) p') as (d2 & p2 & -> & H1 & H2 & H3 & H4).
      * exact (left_of_bytes _ _ _ Hl Hb).
      * by apply Forall_app.
      * rewrite length_app. lia.
      * rewrite Ep, length_app in Hf. lia.
      * exists d2, p2. split_and!; try done.
        apply (left_of_weaken (0 + 1)); [lia |]. exact (left_of_trans 0 1 _ _ _ H3 Hl).
    + destruct Hr as [Hl H0]. exists dest, p'. split_and!; try done; [| by left].
      by apply (left_of_weaken 1); [lia |].
Qed.

Lemma parse_strW_ok len src endchar :
  Forall byte src -> 0 <= len ->
  exists ret dest len', parse_strW len src endchar = Some (ret, dest, len') /\
    2 * Z.of_nat (length dest) <= len /\ Forall unit16 dest /\
    ((ret = -1 /\ len' = len) \/
     (0 < ret <= Z.of_nat (length src) /\ src !! Z.to_nat (ret - 1) = Some endchar /\ endchar <> 0 /\
      last dest = Some 0 /\ len' = 2 * Z.of_nat (length dest))).
Proof.
  intros Hb Hlen. unfold parse_strW. set (cap := Z.to_nat (len / 2)).
  assert (Hcap : 2 * Z.of_nat cap <= len) by (unfold cap; pose proof (Z.mul_div_le len 2); lia).
  destruct (parse_loop_ok (length src) cap endchar [] src Hb) as (dest & p & -> & Hu & Hd & (q & Es & _) & He);
    [constructor | simpl; lia | done |].
  cbn [mbind option_bind]. destruct (Nat.leb_spec cap (length dest)).
  { exists (-1), dest, len. split_and!; [done | lia | done | by left]. }
  assert (Hu0 : Forall unit16 (dest ++ [0])) by (apply Forall_app; split; [done | by apply Forall_singleton]).
  assert (Hd0 : 2 * Z.of_nat (length (dest ++ [0])) <= len) by (rewrite length_app; simpl; lia).
  destruct (Z.eqb_spec (at_ p) 0) as [E0 | E0].
  { exists (-1), (dest ++ [0]), len. split_and!; [done | done | done | by left]. }
  eexists _, (dest ++ [0]), _. split; [done |]. split_and!; [done | done |]. right.
  destruct p as [| c p]; [done |]. cbn [at_] in *. assert (c = endchar) as -> by (destruct He as [? | [? | ?]]; lia).
  rewrite Es, length_app. cbn [length]. split_and!; [lia | lia | | done | by rewrite last_snoc | done].
  replace (Z.to_nat _) with (length q + 0)%nat by lia. by rewrite lookup_app_r, Nat.add_sub' by lia.
Qed.

(** ** Digits *)

(** The number written with the digits [ds]. *)
Definition value (b : Z) (ds : list Z) : Z := fold_left (fun a d => a * b + d) ds 0.

Lemma value_snoc b ds d : value b (ds ++ [d]) = value b ds * b + d.
Proof. unfold value. by rewrite fold_left_app. Qed.

Lemma value_zeros b k ds : value b (repeat 0 k ++ ds) = value b ds.
Proof. unfold value. rewrite fold_left_app. f_equal. by induction k. Qed.

Lemma digits_spec fuel b n k :
  1 < b -> 0 <= n < b ^ Z.of_nat fuel -> (0 < k)%nat -> n < b ^ Z.of_nat k -> (0 < fuel)%nat ->
  exists ds, digits fuel b n = map digit ds /\ value b ds = n /\ Forall (fun d => 0 <= d < b) ds /\
    (0 < length ds <= k)%nat.
Proof.
  intros Hb. revert n k. induction fuel as [| fuel IH]; intros n k Hn Hk Hnk Hf; [lia |]. cbn [digits].
  destruct (Z.ltb_spec n b) as [L | L].
  { exists [n]. split_and!; [done | done | | simpl; lia | simpl; lia]. repeat constructor; lia. }
  rewrite Nat2Z.inj_succ, Z.pow_succ_r in Hn by lia.
  assert (Hk2 : exists k', k = S k' /\ (0 < k')%nat).
  { destruct k as [| [| k]]; [lia | simpl in Hnk; lia |]. exists (S k). lia. }
  destruct Hk2 as (k' & -> & Hk'). rewrite Nat2Z.inj_succ, Z.pow_succ_r in Hnk by lia.
  assert (Hf2 : (0 < fuel)%nat) by (destruct fuel; [simpl in Hn; lia | lia]).
  destruct (IH (n / b) k') as (ds & -> & Hv & Hds & Hl); [| done | | done |].
  { split; [apply Z.div_pos; lia | apply Z.div_lt_upper_bound; lia]. }
  { apply Z.div_lt_upper_bound; lia. }
  exists (ds ++ [n mod b]). pose proof (Z.mod_pos_bound n b ltac:(lia)).
  split_and!; [by rewrite map_app | | | rewrite length_app; simpl; lia | rewrite length_app; simpl; lia].
  - rewrite value_snoc, Hv. pose proof (Z.div_mod n b ltac:(lia)). lia.
  - apply Forall_app. split; [done | by apply Forall_singleton].
Qed.

Lemma fmt_spec b width n k :
  1 < b -> 0 <= n < b ^ 16 -> (0 < k)%nat -> n < b ^ Z.of_nat k -> (width <= k)%nat ->
  exists ds, fmt b width n = map digit ds /\ value b ds = n /\ Forall (fun d => 0 <= d < b) ds /\
    (0 < length ds <= k)%nat /\ (width <= length ds)%nat.
Proof.
  intros Hb Hn Hk Hnk Hw. unfold fmt.
  destruct (digits_spec 16 b n k) as (ds & -> & Hv & Hds & Hl); [done | done | done | done | lia |].
  exists (repeat 0 (width - length (map digit ds)) ++ ds). rewrite !length_map. split_and!.
  - rewrite map_app. f_equal. by rewrite map_repeat.
  - by rewrite value_zeros.
  - apply Forall_app. split; [| done]. apply Forall_forall. intros x Hx%list_elem_of_In%repeat_spec. lia.
  - rewrite length_app, repeat_length. lia.
  - rewrite length_app, repeat_length. lia.
  - rewrite length_app, repeat_length. lia.
Qed.

Lemma digit_hex d : 0 <= d < 16 -> isxdigit (digit d) = true /\ to_hex (digit d) = d /\ digit d <> 0.
Proof.
  intros H. unfold digit, isxdigit, to_hex, isdigit, tolower.
  destruct (Z.ltb_spec d 10); split_and!; repeat case_match; lia.
Qed.

Lemma digit_octal d : 0 <= d < 8 -> isodigit (digit d) = true /\ digit d - 0x30 = d /\ digit d <> 0.
Proof. intros H. unfold digit, isodigit. destruct (Z.ltb_spec d 10); split_and!; lia. Qed.

Lemma u16_small x : 0 <= x < 65536 -> u16 x = x.
Proof. apply (uwrap_small 16). Qed.

Lemma advance_cons c p : c <> 0 -> advance (c :: p) = Some p.
Proof. intros H. cbn. by replace (c =? 0) with false by lia. Qed.

Lemma hex_more_digit v d p :
  0 <= d < 16 -> 0 <= v * 16 + d < 65536 -> hex_more (v, digit d :: p) = Some (v * 16 + d, p).
Proof.
  intros Hd Hv. destruct (digit_hex d Hd) as (Hx & Ht & Hn). unfold hex_more. cbn [at_].
  rewrite Hx, advance_cons, Ht by done. cbn. by rewrite u16_small.
Qed.

Lemma hex_more_stop v p : isxdigit (at_ p) = false -> hex_more (v, p) = Some (v, p).
Proof. intros H. unfold hex_more. by rewrite H. Qed.

Lemma octal_more_digit v d p :
  0 <= d < 8 -> 0 <= v * 8 + d < 65536 -> octal_more (v, digit d :: p) = Some (v * 8 + d, p).
Proof.
  intros Hd Hv. destruct (digit_octal d Hd) as (Hx & Ht & Hn). unfold octal_more. cbn [at_].
  rewrite Hx, advance_cons, Ht by done. cbn. by rewrite u16_small.
Qed.

Lemma octal_more_stop v p : isodigit (at_ p) = false -> octal_more (v, p) = Some (v, p).
Proof. intros H. unfold octal_more. by rewrite H. Qed.

(** The parser reads the digits it finds, up to four or three of them. *)
Lemma parse_hex_digits ds p :
  Forall (fun d => 0 <= d < 16) ds -> (0 < length ds <= 4)%nat ->
  (length ds = 4%nat \/ isxdigit (at_ p) = false) ->
  parse_hex (map digit ds ++ p) = Some (value 16 ds, p).
Proof.
  intros Hds Hl Hp. destruct ds as [| a ds]; [simpl in Hl; lia |].
  apply Forall_cons in Hds as [Ha Hds]. destruct (digit_hex a Ha) as (Hx & Ht & Hn).
  unfold parse_hex. cbn [map app at_]. rewrite Hx, advance_cons, Ht by done. cbn [negb mbind option_bind].
  rewrite u16_small by lia. destruct ds as [| b ds].
  { destruct Hp as [Hp | Hp]; [simpl in Hp; lia |]. cbn [map app]. rewrite hex_more_stop by done.
    cbn [mbind option_bind]. rewrite hex_more_stop by done. cbn [mbind option_bind]. by rewrite hex_more_stop. }
  apply Forall_cons in Hds as [Hb Hds]. cbn [map app]. rewrite hex_more_digit by lia. cbn [mbind option_bind].
  destruct ds as [| c ds].
  { destruct Hp as [Hp | Hp]; [simpl in Hp; lia |]. cbn [map app]. rewrite hex_more_stop by done.
    cbn [mbind option_bind]. by rewrite hex_more_stop. }
  apply Forall_cons in Hds as [Hc Hds]. cbn [map app]. rewrite hex_more_digit by lia. cbn [mbind option_bind].
  destruct ds as [| d ds].
  { destruct Hp as [Hp | Hp]; [simpl in Hp; lia |]. cbn [map app]. by rewrite hex_more_stop. }
  apply Forall_cons in Hds as [Hd Hds]. destruct ds; [| simpl in Hl; lia].
  cbn [map app]. by rewrite hex_more_digit by lia.
Qed.

Lemma parse_octal_digits ds p :
  Forall (fun d => 0 <= d < 8) ds -> (0 < length ds <= 3)%nat ->
  (length ds = 3%nat \/ isodigit (at_ p) = false) ->
  parse_octal (map digit ds ++ p) = Some (value 8 ds, p).
Proof.
  intros Hds Hl Hp. destruct ds as [| a ds]; [simpl in Hl; lia |].
  apply Forall_cons in Hds as [Ha Hds]. destruct (digit_octal a Ha) as (Hx & Ht & Hn).
  unfold parse_octal. cbn [map app at_]. rewrite advance_cons, Ht by done. cbn [mbind option_bind].
  rewrite u16_small by lia. destruct ds as [| b ds].
  { destruct Hp as [Hp | Hp]; [simpl in Hp; lia |]. cbn [map app]. rewrite octal_more_stop by done.
    cbn [mbind option_bind]. by rewrite octal_more_stop. }
  apply Forall_cons in Hds as [Hb Hds]. cbn [map app]. rewrite octal_more_digit by lia. cbn [mbind option_bind].
  destruct ds as [| c ds].
  { destruct Hp as [Hp | Hp]; [simpl in Hp; lia |]. cbn [map app]. by rewrite octal_more_stop. }
  apply Forall_cons in Hds as [Hc Hds]. destruct ds; [| simpl in Hl; lia].
  cbn [map app]. by rewrite octal_more_digit by lia.
Qed.

(** ** What is written *)

Fixpoint dump_text (escape0 escape1 : Z) (str : list Z) : list Z :=
  match str with
  | [] => []
  | c :: str' => (dump_char escape0 escape1 c (head str')).1 ++ dump_text escape0 escape1 str'
  end.

(** Characters that may be escaped with a backslash: not the letters and digits that
    mean something after it. *)
Definition escape_ok (e : Z) : Prop :=
  32 <= e < 128 /\ isxdigit e = false /\ letter_escape e = None /\ e <> 0x78 /\ e <> BACKSLASH.

Section Dump.
Context (e0 e1 : Z) (He0 : escape_ok e0) (He1 : escape_ok e1).

Lemma dump_char_room c next :
  unit16 c -> let w := dump_char e0 e1 c next in (length w.1 + (if w.2 then 1 else 0) <= 7)%nat.
Proof.
  intros Hc. unfold dump_char. unfold unit16 in Hc. destruct (Z.ltb_spec 127 c).
  - set (k := if hex_follows next then 4%nat else 0%nat).
    assert (Hk : (k <= 4)%nat) by (unfold k; repeat case_match; lia).
    destruct (fmt_spec 16 k c 4) as (ds & -> & _ & _ & Hl & _); [lia | lia | lia | simpl; lia | done |].
    cbn [fst snd length]. rewrite length_map. lia.
  - destruct (Z.ltb_spec c 32).
    + destruct (negb _); [simpl; lia |].
      set (k := if octal_follows next then 3%nat else 0%nat).
      assert (Hk : (k <= 3)%nat) by (unfold k; repeat case_match; lia).
      destruct (fmt_spec 8 k c 3) as (ds & -> & _ & _ & Hl & _); [lia | lia | lia | simpl; lia | done |].
      cbn [fst snd length]. rewrite length_map. lia.
    + destruct (_ || _); simpl; lia.
Qed.

Lemma dump_loop_text str out buffer count :
  Forall unit16 str -> (length buffer <= BUFFER_SIZE)%nat ->
  dump_loop e0 e1 str out buffer count =
  Some (out ++ buffer ++ dump_text e0 e1 str,
        count + Z.of_nat (length buffer) + Z.of_nat (length (dump_text e0 e1 str))).
Proof.
  revert out buffer count. induction str as [| c str IH]; intros out buffer count Hs Hb; cbn [dump_loop dump_text].
  { rewrite app_nil_r. simpl. by rewrite Z.add_0_r. }
  apply Forall_cons in Hs as [Hc Hs]. pose proof (dump_char_room c (head str) Hc) as Hr. cbv zeta in *.
  set (w := dump_char e0 e1 c (head str)) in *. clearbody w.
  destruct (Nat.ltb_spec (BUFFER_SIZE - 8) (length buffer)) as [L | L]; unfold BUFFER_SIZE in *.
  - rewrite (proj2 (Nat.leb_le _ _)) by (simpl; lia). rewrite IH by (done || (simpl; lia)).
    cbn [app]. rewrite !length_app, <- app_assoc. do 2 f_equal. lia.
  - rewrite (proj2 (Nat.leb_le _ _)) by lia. rewrite IH by (done || (rewrite length_app; lia)).
    rewrite !length_app, <- app_assoc. do 2 f_equal. lia.
Qed.

(** ** Reading it back *)

Lemma plain_byte room c p : 0 < c < 128 -> parse_plain room (c :: p) = Some ([c], p).
Proof.
  intros Hc. unfold parse_plain. cbn [at_]. rewrite advance_cons by lia. cbn [mbind option_bind].
  by replace (c <? 128) with true by lia.
Qed.

Lemma escape_letters c :
  0 <= c < 32 -> nth (Z.to_nat c) escapes 0x2e <> 0x2e ->
  letter_escape (nth (Z.to_nat c) escapes 0x2e) = Some c /\ nth (Z.to_nat c) escapes 0x2e <> 0.
Proof.
  intros Hc. rewrite <- (Z2Nat.id c) at 3 by lia. assert (Hn : (Z.to_nat c < 32)%nat) by lia.
  generalize (Z.to_nat c) as n, Hn. clear. intros n Hn.
  do 32 (destruct n as [| n]; [vm_compute; intros; split; congruence |]). lia.
Qed.

(** One round of the parser reads what was written for one unit. *)
Lemma parse_dumped room c next p :
  unit16 c ->
  (hex_follows next = false -> isxdigit (at_ p) = false) ->
  (octal_follows next = false -> isodigit (at_ p) = false) ->
  parse_round room ((dump_char e0 e1 c next).1 ++ p) = Some (Went [c] p).
Proof.
  intros Hc Hhex Hoct. unfold unit16 in Hc. unfold dump_char.
  destruct (Z.ltb_spec 127 c); [| destruct (Z.ltb_spec c 32)].
  - destruct (fmt_spec 16 (if hex_follows next then 4 else 0) c 4) as (ds & -> & Hv & Hds & Hl & Hw);
      [lia | lia | lia | simpl; lia | destruct (hex_follows next); lia |].
    cbn [fst app]. unfold parse_round. cbn [at_]. change (BACKSLASH =? BACKSLASH) with true. cbv iota.
    rewrite advance_cons by done. cbn [mbind option_bind at_].
    change (letter_escape 0x78) with (@None Z). change (0x78 =? 0) with false. change (0x78 =? 0x78) with true.
    cbv iota. rewrite advance_cons by done. cbn [mbind option_bind].
    rewrite parse_hex_digits; [by rewrite Hv | done | done |].
    destruct (hex_follows next); [left; lia | right; by apply Hhex].
  - destruct (Z.eqb_spec (nth (Z.to_nat c) escapes 0x2e) 0x2e) as [E | E]; cbn [negb].
    + destruct (fmt_spec 8 (if octal_follows next then 3 else 0) c 3) as (ds & -> & Hv & Hds & Hl & Hw);
        [lia | lia | lia | simpl; lia | destruct (octal_follows next); lia |].
      cbn [fst app]. unfold parse_round. cbn [at_]. change (BACKSLASH =? BACKSLASH) with true. cbv iota.
      rewrite advance_cons by done. cbn [mbind option_bind].
      destruct ds as [| a ds]; [simpl in Hl; lia |]. pose proof Hds as [Ha _]%Forall_cons.
      destruct (digit_octal a Ha) as (Ho & _ & Hn). cbn [map app at_].
      replace (digit a =? 0) with false by lia.
      replace (letter_escape (digit a)) with (@None Z)
        by (unfold letter_escape; unfold isodigit in Ho; repeat case_match; (done || (exfalso; lia))).
      replace (digit a =? 0x78) with false by (unfold isodigit in Ho; lia). rewrite Ho.
      change (digit a :: map digit ds ++ p) with (map digit (a :: ds) ++ p).
      rewrite parse_octal_digits; [by rewrite Hv | done | done |].
      destruct (octal_follows next); [left; lia | right; by apply Hoct].
    + destruct (escape_letters c ltac:(lia) E) as [Hle Hn].
      cbn [fst app]. unfold parse_round. cbn [at_]. change (BACKSLASH =? BACKSLASH) with true. cbv iota.
      rewrite advance_cons by done. cbn [mbind option_bind at_].
      replace (nth (Z.to_nat c) escapes 0x2e =? 0) with false by lia.
      rewrite Hle, advance_cons by done. done.
  - destruct ((c =? BACKSLASH) || (c =? e0) || (c =? e1)) eqn:E; cbn [fst app].
    + unfold parse_round. cbn [at_]. change (BACKSLASH =? BACKSLASH) with true. cbv iota.
      rewrite advance_cons by done. cbn [mbind option_bind at_].
      assert (Hesc : letter_escape c = None /\ c <> 0x78 /\ isodigit c = false).
      { destruct He0 as (_ & X0 & L0 & N0 & _), He1 as (_ & X1 & L1 & N1 & _).
        unfold isxdigit, isdigit in X0, X1. unfold isodigit.
        assert (c = BACKSLASH \/ c = e0 \/ c = e1) as [-> | [-> | ->]] by lia; split_and!; (done || lia). }
      destruct Hesc as (-> & Hx & ->). replace (c =? 0) with false by lia. replace (c =? 0x78) with false by lia.
      rewrite plain_byte by lia. done.
    + unfold parse_round. cbn [at_]. replace (c =? BACKSLASH) with false by lia.
      rewrite plain_byte by lia. done.
Qed.

(** The first byte written for a unit. *)
Lemma dump_first c next p :
  unit16 c ->
  at_ ((dump_char e0 e1 c next).1 ++ p) = BACKSLASH \/
  (at_ ((dump_char e0 e1 c next).1 ++ p) = c /\ 32 <= c < 128 /\ c <> e0 /\ c <> e1).
Proof.
  intros Hc. unfold dump_char. destruct (Z.ltb_spec 127 c); [by left |].
  destruct (Z.ltb_spec c 32); [destruct (negb _); by left |].
  destruct (_ || _) eqn:E; [by left |]. right. cbn. lia.
Qed.

Lemma dumped_follows str endchar tail :
  Forall unit16 str -> endchar = e0 \/ endchar = e1 ->
  let p := dump_text e0 e1 str ++ endchar :: tail in
  (hex_follows (head str) = false -> isxdigit (at_ p) = false) /\
  (octal_follows (head str) = false -> isodigit (at_ p) = false).
Proof.
  intros Hs Hend p. assert (Hsub : forall c, isxdigit c = false -> isodigit c = false)
    by (unfold isxdigit, isdigit, isodigit; lia).
  unfold p. destruct str as [| c str]; cbn [dump_text head app at_ hex_follows octal_follows].
  { assert (isxdigit endchar = false) by (destruct Hend as [-> | ->]; [apply He0 | apply He1]). auto. }
  apply Forall_cons in Hs as [Hc _]. rewrite <- app_assoc.
  destruct (dump_first c (head str) (dump_text e0 e1 str ++ endchar :: tail) Hc) as [-> | (-> & Hr & _)].
  { split; intros _; reflexivity. }
  replace (c <? 128) with true by lia. done.
Qed.

Lemma parse_dumped_loop fuel cap endchar dest str tail :
  Forall unit16 str -> endchar = e0 \/ endchar = e1 -> (length dest + length str < cap)%nat ->
  (length str <= fuel)%nat ->
  parse_loop fuel cap endchar dest (dump_text e0 e1 str ++ endchar :: tail) =
  Some (dest ++ str, endchar :: tail).
Proof.
  revert fuel dest. induction str as [| c str IH]; intros fuel dest Hs Hend Hcap Hf.
  { cbn [dump_text app]. rewrite app_nil_r. destruct fuel; cbn [parse_loop at_];
      by rewrite Z.eqb_refl, orb_true_r. }
  destruct fuel as [| fuel]; [simpl in Hf; lia |]. cbn [length] in *.
  apply Forall_cons in Hs as [Hc Hs]. cbn [dump_text]. rewrite <- app_assoc. cbn [parse_loop].
  destruct (dumped_follows str endchar tail Hs Hend) as [Hhex Hoct].
  set (p := dump_text e0 e1 str ++ endchar :: tail) in *.
  assert (Hat : at_ ((dump_char e0 e1 c (head str)).1 ++ p) <> 0 /\
                at_ ((dump_char e0 e1 c (head str)).1 ++ p) <> endchar).
  { destruct He0 as (_ & _ & _ & _ & B0), He1 as (_ & _ & _ & _ & B1).
    destruct (dump_first c (head str) p Hc) as [-> | (-> & Hr & N0 & N1)].
    - split; [done |]. destruct Hend as [-> | ->]; by apply not_eq_sym.
    - split; [lia |]. destruct Hend as [-> | ->]; done. }
  destruct Hat as [Hat0 Hat1]. replace (_ || _ || _) with false by lia.
  rewrite parse_dumped by done. cbn [mbind option_bind]. unfold p.
  rewrite IH; [by rewrite <- app_assoc | done | done | rewrite length_app; simpl; lia | lia].
Qed.

Lemma dump_text_length str : Forall unit16 str -> (length str <= length (dump_text e0 e1 str))%nat.
Proof.
  induction str as [| c str IH]; intros Hs; cbn [dump_text length]; [lia |].
  apply Forall_cons in Hs as [Hc Hs]. rewrite length_app. specialize (IH Hs).
  enough (0 < length (dump_char e0 e1 c (head str)).1)%nat by lia.
  destruct (dump_first c (head str) [] Hc) as [E | (E & Hr & _)]; rewrite app_nil_r in E;
    destruct (dump_char e0 e1 c (head str)).1; cbn in *; (lia || done).
Qed.
End Dump.

(** ** UTF-8 *)

(** The encoding of a character above 127. *)
Definition utf8_encode (v : Z) : list Z :=
  if v <? 0x80 then [v]
  else if v <? 0x800 then [0xc0 + v / 64; 0x80 + v mod 64]
  else if v <? 0x10000 then [0xe0 + v / 4096; 0x80 + v / 64 mod 64; 0x80 + v mod 64]
  else [0xf0 + v / 262144; 0x80 + v / 4096 mod 64; 0x80 + v / 64 mod 64; 0x80 + v mod 64].

Lemma check_below (P : Z -> bool) n :
  forallb P (map Z.of_nat (seq 0 n)) = true -> forall x, 0 <= x < Z.of_nat n -> P x = true.
Proof.
  intros H x Hx. rewrite forallb_forall in H. apply H, in_map_iff. exists (Z.to_nat x).
  split; [lia | apply in_seq; lia].
Qed.

Lemma continuation x : 0 <= x < 64 -> Z.lxor (0x80 + x) 0x80 = x.
Proof.
  intros Hx. apply Z.eqb_eq. revert x Hx.
  apply (check_below (fun x => Z.lxor (0x80 + x) 0x80 =? x) 64). by vm_compute.
Qed.

(** The first byte of a sequence of [S n] bytes. *)
Lemma first_byte n base lo hi x :
  (n, base, lo, hi) = (1%nat, 0xc0, 2, 31) \/ (n, base, lo, hi) = (2%nat, 0xe0, 0, 15) \/
  (n, base, lo, hi) = (3%nat, 0xf0, 0, 4) ->
  lo <= x <= hi ->
  nth (Z.to_nat (base + x - 0x80)) utf8_length 0%nat = n /\ Z.land (base + x) (utf8_mask n) = x.
Proof.
  intros Hcase Hx.
  set (P n base lo hi x := (x <? lo) || (hi <? x) ||
    (Nat.eqb (nth (Z.to_nat (base + x - 0x80)) utf8_length 0%nat) n &&
     (Z.land (base + x) (utf8_mask n) =? x))).
  assert (HP : P n base lo hi x = true -> nth (Z.to_nat (base + x - 0x80)) utf8_length 0%nat = n /\
    Z.land (base + x) (utf8_mask n) = x).
  { unfold P. intros H. split; [apply Nat.eqb_eq |]; lia. }
  apply HP. destruct Hcase as [[= -> -> -> ->] | [[= -> -> -> ->] | [= -> -> -> ->]]];
    [apply (check_below (P 1%nat 0xc0 2 31) 32) | apply (check_below (P 2%nat 0xe0 0 15) 16) |
     apply (check_below (P 3%nat 0xf0 0 4) 5)]; (by vm_compute) || lia.
Qed.

Lemma utf8_rest_step n res x p :
  0 <= x < 64 -> utf8_rest (S n) res ((0x80 + x) :: p) = utf8_rest n (res * 64 + x) p.
Proof.
  intros Hx. cbn [utf8_rest at_]. rewrite continuation, advance_cons by lia.
  replace (0x40 <=? x) with false by lia. cbn [mbind option_bind]. by rewrite lor_shift6.
Qed.

Lemma parse_utf8 room v p :
  0 < v <= 0x10ffff -> parse_plain room (utf8_encode v ++ p) = Some (utf16_units room v, p).
Proof.
  intros Hv. unfold utf8_encode. destruct (Z.ltb_spec v 0x80).
  { cbn [app]. rewrite plain_byte by lia. unfold utf16_units. by replace (v <=? 0xffff) with true by lia. }
  assert (Hbyte : forall n base lo hi x q r,
    (n, base, lo, hi) = (1%nat, 0xc0, 2, 31) \/ (n, base, lo, hi) = (2%nat, 0xe0, 0, 15) \/
    (n, base, lo, hi) = (3%nat, 0xf0, 0, 4) -> lo <= x <= hi ->
    utf8_rest n x q = Some (Some v, r) -> utf8_minval n <= v ->
    parse_plain room ((base + x) :: q) = Some (utf16_units room v, r)).
  { intros n base lo hi x q r Hcase Hx Hr Hmin. destruct (first_byte n base lo hi x Hcase Hx) as [Hn Hm].
    assert (0xc0 <= base + x /\ n <> 0%nat)
      by (destruct Hcase as [[= -> -> -> ->] | [[= -> -> -> ->] | [= -> -> -> ->]]]; lia).
    unfold parse_plain. cbn [at_]. rewrite advance_cons by lia. cbn [mbind option_bind].
    replace (base + x <? 0x80) with false by lia. rewrite Hn. destruct n as [| n']; [lia |].
    rewrite Hm, Hr. cbn [mbind option_bind]. by replace (_ || _) with false by lia. }
  pose proof (Z.mod_pos_bound v 64 ltac:(lia)). pose proof (Z.mod_pos_bound (v / 64) 64 ltac:(lia)).
  pose proof (Z.mod_pos_bound (v / 4096) 64 ltac:(lia)).
  pose proof (Z.div_mod v 64 ltac:(lia)). pose proof (Z.div_mod (v / 64) 64 ltac:(lia)) as D1.
  pose proof (Z.div_mod (v / 4096) 64 ltac:(lia)) as D2.
  rewrite Z.div_div in D1 by lia. rewrite Z.div_div in D2 by lia.
  change (64 * 64) with 4096 in D1. change (4096 * 64) with 262144 in D2.
  destruct (Z.ltb_spec v 0x800); [| destruct (Z.ltb_spec v 0x10000)]; cbn [app].
  - apply (Hbyte 1%nat 0xc0 2 31); [by left | lia | | cbn; lia].
    rewrite utf8_rest_step by lia. cbn [utf8_rest]. do 3 f_equal. lia.
  - apply (Hbyte 2%nat 0xe0 0 15); [by right; left | lia | | cbn; lia].
    rewrite !utf8_rest_step by lia. cbn [utf8_rest]. do 3 f_equal. lia.
  - apply (Hbyte 3%nat 0xf0 0 4); [by right; right | lia | | cbn; lia].
    rewrite !utf8_rest_step by lia. cbn [utf8_rest]. do 3 f_equal. lia.
Qed.

(** ** The two together *)

Lemma dump_strW_text str e0 e1 :
  Forall unit16 str -> dump_strW str e0 e1 = Some (dump_text e0 e1 str, Z.of_nat (length (dump_text e0 e1 str))).
Proof. intros Hs. unfold dump_strW. rewrite dump_loop_text by (done || (cbn; lia)). done. Qed.

Lemma parse_dump_text str e0 e1 endchar len tail :
  Forall unit16 str -> escape_ok e0 -> escape_ok e1 -> endchar = e0 \/ endchar = e1 ->
  2 * Z.of_nat (length str) + 2 <= len ->
  parse_strW len (dump_text e0 e1 str ++ endchar :: tail) endchar =
  Some (Z.of_nat (length (dump_text e0 e1 str)) + 1, str ++ [0], 2 * Z.of_nat (length str) + 2).
Proof.
  intros Hs He0 He1 Hend Hlen.
  pose proof (Z.div_le_lower_bound len 2 (Z.of_nat (length str) + 1) ltac:(lia) ltac:(lia)).
  pose proof (dump_text_length e0 e1 str Hs). unfold parse_strW.
  rewrite parse_dumped_loop; [| done | done | done | done | simpl; lia | rewrite length_app; lia].
  cbn [mbind option_bind app]. rewrite (proj2 (Nat.leb_gt _ _)) by lia. cbn [at_].
  assert (endchar <> 0) by (destruct He0 as [? _], He1 as [? _]; lia).
  replace (endchar =? 0) with false by lia. rewrite !length_app. cbn [length]. do 2 f_equal; [f_equal |]; lia.
Qed.

(** Only printable characters are written. *)
Definition printable (c : Z) : Prop := 32 <= c < 128.

Lemma digits_printable b ds :
  b <= 16 -> Forall (fun d => 0 <= d < b) ds -> Forall printable (map digit ds).
Proof.
  intros Hb Hds. apply Forall_map. eapply Forall_impl; [exact Hds |]. intros d [Hd1 Hd2].
  unfold printable, digit. destruct (Z.ltb_spec d 10); lia.
Qed.

Lemma fmt_printable b width n k :
  1 < b <= 16 -> 0 <= n < b ^ 16 -> (0 < k)%nat -> n < b ^ Z.of_nat k -> (width <= k)%nat ->
  Forall printable (fmt b width n).
Proof.
  intros Hb Hn Hk Hnk Hw. destruct (fmt_spec b width n k) as (ds & -> & _ & Hds & _); try done; [lia |].
  apply (digits_printable b); [lia | done].
Qed.

Lemma dump_text_printable e0 e1 str : Forall unit16 str -> Forall printable (dump_text e0 e1 str).
Proof.
  induction str as [| c str IH]; intros Hs; cbn [dump_text]; [constructor |].
  apply Forall_cons in Hs as [Hc Hs]. apply Forall_app. split; [| by apply IH]. unfold unit16 in Hc.
  unfold dump_char. assert (Hb : printable BACKSLASH) by done.
  destruct (Z.ltb_spec 127 c); [| destruct (Z.ltb_spec c 32)]; cbn [fst].
  - apply Forall_cons. split; [done |]. apply Forall_cons. split; [done |].
    apply (fmt_printable 16 _ _ 4); [lia | lia | lia | simpl; lia | destruct (hex_follows _); lia].
  - destruct (Z.eqb_spec (nth (Z.to_nat c) escapes 0x2e) 0x2e) as [E | E]; cbn [negb fst].
    + apply Forall_cons. split; [done |].
      apply (fmt_printable 8 _ _ 3); [lia | lia | lia | simpl; lia | destruct (octal_follows _); lia].
    + destruct (escape_letters c ltac:(lia) E) as [Hle _]. apply Forall_cons. split; [done |].
      apply Forall_singleton. unfold letter_escape in Hle. unfold printable. repeat case_match; lia || done.
  - apply Forall_app. split; [destruct (_ || _); [by apply Forall_singleton | constructor] |].
    apply Forall_singleton. unfold printable. lia.
Qed.
