(* ===== verification/StrTextTheorems.v ===== *)
(** * What the strings of text files promise

    Whatever the text, reading it is safe; what was written is read back; and a text in
    UTF-8 is read as the same text in UTF-16. *)

From stdpp Require Import base list.
From Stdlib Require Import ZArith Lia ZifyBool.
From S2P Require Import Prelude StrText StrTextProofs.

Open Scope Z_scope.

(** [parse_strW] is safe on any bytes, for a buffer of any size: it ends without
    reading past the terminator of the text or writing past the buffer, every unit it
    writes has 16 bits, and when it succeeds the byte before the position it returns is
    the delimiter and the buffer holds a terminated string of [*len] bytes. *)
Theorem parse_strW_safe len src endchar :
  Forall byte src -> 0 <= len ->
  exists ret dest len', parse_strW len src endchar = Some (ret, dest, len') /\
    2 * Z.of_nat (length dest) <= len /\ Forall unit16 dest /\
    ((ret = -1 /\ len' = len) \/
     (0 < ret <= Z.of_nat (length src) /\ src !! Z.to_nat (ret - 1) = Some endchar /\ endchar <> 0 /\
      last dest = Some 0 /\ len' = 2 * Z.of_nat (length dest))).
Proof. apply parse_strW_ok. Qed.

(** Any string of 16-bit units, with characters 0 and halves of surrogate pairs in it,
    is written by [dump_strW] without leaving its buffer, and [parse_strW] reads it back
    unchanged up to the delimiter, whatever follows. *)
Theorem registry_string_roundtrip str e0 e1 endchar len tail :
  Forall unit16 str -> escape_ok e0 -> escape_ok e1 -> endchar = e0 \/ endchar = e1 ->
  2 * Z.of_nat (length str) + 2 <= len ->
  exists text, dump_strW str e0 e1 = Some (text, Z.of_nat (length text)) /\
    parse_strW len (text ++ endchar :: tail) endchar =
    Some (Z.of_nat (length text) + 1, str ++ [0], 2 * Z.of_nat (length str) + 2).
Proof.
  intros Hs He0 He1 Hend Hlen. exists (dump_text e0 e1 str).
  split; [by apply dump_strW_text | by apply parse_dump_text].
Qed.

(** The units of a text given by its characters. *)
Definition utf16_text (vs : list Z) : list Z := flat_map (utf16_units 2) vs.
Definition utf8_text (vs : list Z) : list Z := flat_map utf8_encode vs.

Lemma parse_utf8_loop fuel cap endchar dest vs tail :
  Forall (fun v => 0 < v <= 0x10ffff /\ v <> BACKSLASH /\ v <> endchar) vs -> 0 < endchar < 0x80 ->
  (length dest + length (utf16_text vs) < cap)%nat -> (length vs <= fuel)%nat ->
  parse_loop fuel cap endchar dest (utf8_text vs ++ endchar :: tail) =
  Some (dest ++ utf16_text vs, endchar :: tail).
Proof.
  intros Hvs Hend. revert fuel dest. induction vs as [| v vs IH]; intros fuel dest Hcap Hf.
  { cbn [utf8_text utf16_text flat_map app]. rewrite app_nil_r.
    destruct fuel; cbn [parse_loop at_]; by rewrite Z.eqb_refl, orb_true_r. }
  destruct fuel as [| fuel]; [simpl in Hf; lia |]. cbn [length] in *.
  apply Forall_cons in Hvs as [(Hv & Hb & He) Hvs].
  unfold utf8_text, utf16_text in *. cbn [flat_map] in *. rewrite <- app_assoc, length_app in *.
  set (p := flat_map utf8_encode vs ++ endchar :: tail) in *. cbn [parse_loop].
  assert (Hat : at_ (utf8_encode v ++ p) = v \/ 0xc0 <= at_ (utf8_encode v ++ p)).
  { unfold utf8_encode. destruct (v <? 0x80); [by left |]. right.
    destruct (v <? 0x800); [| destruct (v <? 0x10000)]; cbn;
      match goal with |- context [v / ?d] => pose proof (Z.div_pos v d ltac:(lia) ltac:(lia)) end; lia. }
  assert (Hone : (0 < length (utf16_units 2 v))%nat)
    by (unfold utf16_units; destruct (v <=? 0xffff); simpl; lia).
  assert (at_ (utf8_encode v ++ p) <> BACKSLASH) by (unfold BACKSLASH in *; lia).
  replace (_ || _ || _) with false by lia. unfold parse_round.
  replace (at_ (utf8_encode v ++ p) =? BACKSLASH) with false by lia.
  rewrite parse_utf8 by done. cbn [went mbind option_bind].
  assert (Eu : utf16_units (cap - length dest) v = utf16_units 2 v).
  { unfold utf16_units in *. destruct (v <=? 0xffff); [done |]. cbn [length Nat.ltb Nat.leb] in Hcap.
    destruct (Nat.ltb_spec 1 (cap - length dest)); [done | lia]. }
  rewrite Eu. unfold p. rewrite IH; [by rewrite <- app_assoc | done | rewrite length_app; lia | lia].
Qed.

(** A text in UTF-8 without backslashes, delimiter and zero is read as the same
    characters in UTF-16, those above 0xffff as surrogate pairs. *)
Theorem utf8_text_decoded vs endchar len tail :
  Forall (fun v => 0 < v <= 0x10ffff /\ v <> BACKSLASH /\ v <> endchar) vs -> 0 < endchar < 0x80 ->
  2 * Z.of_nat (length (utf16_text vs)) + 2 <= len ->
  parse_strW len (utf8_text vs ++ endchar :: tail) endchar =
  Some (Z.of_nat (length (utf8_text vs)) + 1, utf16_text vs ++ [0],
        2 * Z.of_nat (length (utf16_text vs)) + 2).
Proof.
  intros Hvs Hend Hlen.
  pose proof (Z.div_le_lower_bound len 2 (Z.of_nat (length (utf16_text vs)) + 1) ltac:(lia) ltac:(lia)).
  assert (Hl : (length vs <= length (utf8_text vs))%nat).
  { clear. unfold utf8_text. induction vs as [| v vs IH]; cbn [flat_map length]; [lia |]. rewrite length_app.
    enough (0 < length (utf8_encode v))%nat by lia. unfold utf8_encode. repeat case_match; simpl; lia. }
  unfold parse_strW. rewrite parse_utf8_loop; [| done | done | simpl; lia | rewrite length_app; lia].
  cbn [mbind option_bind app]. rewrite (proj2 (Nat.leb_gt _ _)) by lia. cbn [at_].
  replace (endchar =? 0) with false by lia. rewrite !length_app. cbn [length]. do 2 f_equal; [f_equal |]; lia.
Qed.

(** ** Witnesses *)

Lemma parse_strW_safe_witness :
  exists ret dest len', parse_strW 6 [0x41; 0xe2; 0x82; 0x5c] 0x22 = Some (ret, dest, len') /\
    2 * Z.of_nat (length dest) <= 6.
Proof.
  destruct (parse_strW_safe 6 [0x41; 0xe2; 0x82; 0x5c] 0x22) as (ret & dest & len' & H & Hd & _).
  - repeat constructor; unfold byte; lia.
  - lia.
  - exists ret, dest, len'. split; [exact H | exact Hd].
Defined.

Lemma registry_string_roundtrip_witness :
  exists text, dump_strW [0x41; 0x22; 0; 0x37; 0xd83d; 0x42] 0x22 0x22 = Some (text, Z.of_nat (length text)) /\
    parse_strW 100 (text ++ 0x22 :: [0x3d]) 0x22 =
    Some (Z.of_nat (length text) + 1, [0x41; 0x22; 0; 0x37; 0xd83d; 0x42] ++ [0], 14).
Proof.
  apply (registry_string_roundtrip [0x41; 0x22; 0; 0x37; 0xd83d; 0x42] 0x22 0x22 0x22 100 [0x3d]).
  - repeat constructor; unfold unit16; lia.
  - split; [lia |]. split; [reflexivity |]. split; [reflexivity |]. split; discriminate.
  - split; [lia |]. split; [reflexivity |]. split; [reflexivity |]. split; discriminate.
  - left. reflexivity.
  - simpl. lia.
Defined.

Lemma utf8_text_decoded_witness :
  parse_strW 100 (utf8_text [0x41; 0xe9; 0x20ac; 0x1f600] ++ 0x22 :: []) 0x22 =
  Some (11, [0x41; 0xe9; 0x20ac; 0xd83d; 0xde00; 0], 12).
Proof.
  apply (utf8_text_decoded [0x41; 0xe9; 0x20ac; 0x1f600] 0x22 100 []).
  - repeat constructor; unfold BACKSLASH; lia.
  - lia.
  - vm_compute. discriminate.
Defined.
