(* ===== verification/RegValue.v ===== *)
(** * Values of registry keys

    Models the values of a key in [src/server/registry.c]: an array ordered by name,
    searched by halving.  [k_values] is the used part of the array, so [last_value] is
    its length less one; [k_nb_values] is the allocated length.  Names are lists of
    16-bit units, data lists of bytes; the data pointer of a value is null exactly when
    its length is zero, which all code keeps, so it is not a field of its own.

    Notifications and the marks on parent keys go through [touch_key], which is recorded
    in [rg_touched].  The type of a value just inserted is what its slot held before;
    [junk] stands for memory never written. *)

From stdpp Require Import base list gmap.
From Stdlib Require Import ZArith Lia.
From S2P Require Import Prelude Atom.

Open Scope Z_scope.

Definition REG_NONE : Z := 0.
Definition REG_SZ : Z := 1.
Definition REG_EXPAND_SZ : Z := 2.
Definition REG_BINARY : Z := 3.
Definition REG_DWORD : Z := 4.
Definition REG_LINK : Z := 6.
Definition REG_MULTI_SZ : Z := 7.

Definition KEY_DELETED : Z := 0x0002.
Definition KEY_SYMLINK : Z := 0x0008.
Definition KEY_PREDEF : Z := 0x0020.

Definition MIN_VALUES : Z := 8.
Definition MAX_VALUE_LEN : Z := 16383.
Definition REG_NOTIFY_CHANGE_LAST_SET : Z := 4.

Definition REG_INVALID_HANDLE : Z := 0xC0000008.
Definition REG_INVALID_PARAMETER : Z := 0xC000000D.
Definition REG_NO_MEMORY : Z := 0xC0000017.
Definition REG_ACCESS_DENIED : Z := 0xC0000022.
Definition REG_NAME_NOT_FOUND : Z := 0xC0000034.
Definition REG_NAME_TOO_LONG : Z := 0xC0000106.
Definition REG_KEY_DELETED : Z := 0xC000017C.
Definition REG_NO_MORE_ENTRIES : Z := 0x8000001A.

Record key_value := mkValue { v_name : wstr; v_type : Z; v_data : list Z }.

Record key := mkKey { k_values : list key_value; k_nb_values : Z; k_flags : Z }.

(** The key, the answers of the allocator used so far, the error of the request and the
    changes told to [touch_key]. *)
Record rg := mkRg { rg_key : key; rg_allocs : nat; rg_error : Z; rg_touched : list Z }.

Definition set_values (vs : list key_value) (k : key) : key := mkKey vs (k_nb_values k) (k_flags k).
Definition set_nb_values (n : Z) (k : key) : key := mkKey (k_values k) n (k_flags k).
Definition upd_key (f : key -> key) (s : rg) : rg :=
  mkRg (f (rg_key s)) (rg_allocs s) (rg_error s) (rg_touched s).
Definition rg_set_error (st : Z) (s : rg) : rg := mkRg (rg_key s) (rg_allocs s) st (rg_touched s).

Definition has_flag (k : key) (f : Z) : bool := negb (Z.land (k_flags k) f =? 0).

(** Length of a name in bytes. *)
Definition namelen (name : wstr) : Z := 2 * Z.of_nat (length name).

(** The bytes of 16-bit units in memory. *)
Definition units_bytes (us : wstr) : list Z := flat_map (fun u => [u mod 256; u / 256]) us.

Fixpoint bytes_units (bs : list Z) : wstr :=
  match bs with
  | lo :: hi :: bs' => (lo + 256 * hi) :: bytes_units bs'
  | _ => []
  end.

(** ["SymbolicLinkValue"] *)
Definition symlink_str : wstr :=
  [0x53; 0x79; 0x6d; 0x62; 0x6f; 0x6c; 0x69; 0x63; 0x4c; 0x69; 0x6e; 0x6b; 0x56; 0x61; 0x6c; 0x75; 0x65].

Section Values.
Context (casemap : Z -> Z) (alloc_ok : nat -> bool) (junk : Z).

Definition rg_alloc : M rg bool := fun s =>
  (alloc_ok (rg_allocs s), mkRg (rg_key s) (S (rg_allocs s)) (rg_error s) (rg_touched s)).

(** [mem_alloc] and [memdup] set the error when they fail. *)
Definition rg_mem_alloc : M rg bool :=
  let! ok := rg_alloc in
  mwhen (negb ok) (mmodify (rg_set_error REG_NO_MEMORY)) ;;;
  mreturn ok.

Definition touch_key (change : Z) : M rg unit :=
  mmodify (fun s => mkRg (rg_key s) (rg_allocs s) (rg_error s) (rg_touched s ++ [change])).

(** ** Searching *)

(** [memicmp_strW] on the shorter length, then the difference of the lengths. *)
Definition compare_names (a b : wstr) : Z :=
  let res := memicmp_strW casemap a b in
  if res =? 0 then i32 (u32 (namelen a - namelen b)) else res.

(** The loop of [find_value]: whether the name was found, and [*index]. *)
Fixpoint find_loop (fuel : nat) (values : list key_value) (name : wstr) (min max : Z)
    : option (bool * Z) :=
  if min <=? max then
    match fuel with
    | O => None
    | S fuel' =>
        let i := (min + max) / 2 in
        v ← values !! Z.to_nat i;
        let res := compare_names (v_name v) name in
        if res =? 0 then Some (true, i)
        else if 0 <? res then find_loop fuel' values name min (i - 1)
        else find_loop fuel' values name (i + 1) max
    end
  else Some (false, min).

Definition find_value (k : key) (name : wstr) : option (bool * Z) :=
  find_loop (length (k_values k)) (k_values k) name 0 (Z.of_nat (length (k_values k)) - 1).

(** A search that reads outside the array is not defined; this is the value used then. *)
Definition find_in (k : key) (name : wstr) : bool * Z := default (false, 0) (find_value k name).

(** ** Changing *)

Definition grow_values : M rg bool :=
  let! s := mget in
  let nb := k_nb_values (rg_key s) in
  let! ok := rg_mem_alloc in
  mwhen ok (mmodify (upd_key (set_nb_values (if negb (nb =? 0) then nb + nb / 2 else MIN_VALUES)))) ;;;
  mreturn ok.

(** [insert_value]: the index of the new value, if any. *)
Definition insert_value (name : wstr) (index : Z) : M rg (option Z) :=
  if MAX_VALUE_LEN * 2 <? namelen name then
    mmodify (rg_set_error REG_NAME_TOO_LONG) ;;; mreturn None
  else
    let! s := mget in
    let! ok := (if Z.of_nat (length (k_values (rg_key s))) =? k_nb_values (rg_key s)
                then grow_values else mreturn true) in
    if negb ok then mreturn None
    else
      let! ok := (if negb (namelen name =? 0) then rg_mem_alloc else mreturn true) in
      if negb ok then mreturn None
      else
        let i := Z.to_nat index in
        mmodify (upd_key (fun k =>
          let old := match k_values k !! i with Some v => v_type v | None => junk end in
          set_values (take i (k_values k) ++ mkValue name old [] :: drop i (k_values k)) k)) ;;;
        mreturn (Some index).

(** Writing type and data of the value at an index. *)
Definition write_value (index type : Z) (data : list Z) : M rg unit :=
  mmodify (upd_key (fun k =>
    set_values (alter (fun v => mkValue (v_name v) type data) (Z.to_nat index) (k_values k)) k)).

Definition bytes_eqb (a b : list Z) : bool := bool_decide (a = b).

Definition set_value (name : wstr) (type : Z) (data : list Z) : M rg unit :=
  let! s := mget in
  let k := rg_key s in
  if has_flag k KEY_PREDEF then mmodify (rg_set_error REG_INVALID_HANDLE)
  else
    let '(found, index) := find_in k name in
    let same := match k_values k !! Z.to_nat index with
                | Some v => (v_type v =? type) && negb (Nat.eqb (length (v_data v)) 0) &&
                            bytes_eqb (v_data v) data
                | None => false
                end in
    if found && same then mreturn tt
    else if has_flag k KEY_SYMLINK &&
            (negb (type =? REG_LINK) || negb (namelen name =? namelen symlink_str) ||
             negb (memicmp_strW casemap name symlink_str =? 0)) then
      mmodify (rg_set_error REG_ACCESS_DENIED)
    else
      let! ok := (if negb (Nat.eqb (length data) 0) then rg_mem_alloc else mreturn true) in
      if negb ok then mreturn tt
      else
        let! slot := (if found then mreturn (Some index) else insert_value name index) in
        match slot with
        | None => mreturn tt
        | Some index =>
            write_value index type data ;;;
            touch_key REG_NOTIFY_CHANGE_LAST_SET
        end.

(** The reply of [get_value]: type, length and the data that fit. *)
Record value_reply := mkReply { rp_type : Z; rp_len : Z; rp_data : list Z }.

Definition get_value (name : wstr) (max_size : Z) : M rg value_reply :=
  let! s := mget in
  let k := rg_key s in
  if has_flag k KEY_PREDEF then
    mmodify (rg_set_error REG_INVALID_HANDLE) ;;; mreturn (mkReply 0 0 [])
  else
    let '(found, index) := find_in k name in
    match found, k_values k !! Z.to_nat index with
    | true, Some v =>
        let len := Z.of_nat (length (v_data v)) in
        mreturn (mkReply (v_type v) len (take (Z.to_nat (Z.min len max_size)) (v_data v)))
    | _, _ => mmodify (rg_set_error REG_NAME_NOT_FOUND) ;;; mreturn (mkReply (-1) 0 [])
    end.

(** The reply of [enum_value]: type, total size, length of the name and the bytes. *)
Record enum_reply := mkEnum { en_type : Z; en_total : Z; en_namelen : Z; en_data : list Z }.

Definition enum_value (i info_class max_size : Z) : M rg enum_reply :=
  let! s := mget in
  let k := rg_key s in
  if has_flag k KEY_PREDEF then
    mmodify (rg_set_error REG_INVALID_HANDLE) ;;; mreturn (mkEnum 0 0 0 [])
  else if (i <? 0) || (Z.of_nat (length (k_values k)) - 1 <? i) then
    mmodify (rg_set_error REG_NO_MORE_ENTRIES) ;;; mreturn (mkEnum 0 0 0 [])
  else
    let v := default (mkValue [] 0 []) (k_values k !! Z.to_nat i) in
    let len := Z.of_nat (length (v_data v)) in
    let sizes :=
      if info_class =? 0 then Some (namelen (v_name v), namelen (v_name v))
      else if info_class =? 1 then Some (namelen (v_name v), namelen (v_name v) + len)
      else if info_class =? 2 then Some (0, len)
      else None in
    match sizes with
    | None => mmodify (rg_set_error REG_INVALID_PARAMETER) ;;; mreturn (mkEnum (v_type v) 0 0 [])
    | Some (nlen, total) =>
        let maxlen := Z.min total max_size in
        if maxlen =? 0 then mreturn (mkEnum (v_type v) total 0 [])
        else
          let! ok := rg_mem_alloc in
          if negb ok then mreturn (mkEnum (v_type v) total 0 [])
          else if nlen <? maxlen then
            mreturn (mkEnum (v_type v) total nlen
              (take (Z.to_nat nlen) (units_bytes (v_name v)) ++ take (Z.to_nat (maxlen - nlen)) (v_data v)))
          else
            mreturn (mkEnum (v_type v) total maxlen (take (Z.to_nat maxlen) (units_bytes (v_name v))))
    end.

Definition delete_value (name : wstr) : M rg unit :=
  let! s := mget in
  let k := rg_key s in
  if has_flag k KEY_PREDEF then mmodify (rg_set_error REG_INVALID_HANDLE)
  else
    let '(found, index) := find_in k name in
    if negb found then mmodify (rg_set_error REG_NAME_NOT_FOUND)
    else
      let i := Z.to_nat index in
      mmodify (upd_key (fun k => set_values (take i (k_values k) ++ drop (S i) (k_values k)) k)) ;;;
      touch_key REG_NOTIFY_CHANGE_LAST_SET ;;;
      let! s := mget in
      let nb := k_nb_values (rg_key s) in
      if (MIN_VALUES <? nb) && (Z.of_nat (length (k_values (rg_key s))) - 1 <? nb / 2) then
        let! ok := rg_alloc in
        mwhen ok (mmodify (upd_key (set_nb_values (Z.max (nb - nb / 3) MIN_VALUES))))
      else mreturn tt.

(** ** Requests

    [get_hkey_obj] refuses a key that was deleted; the handle was resolved before. *)

Definition get_hkey_obj : M rg bool :=
  let! s := mget in
  let deleted := has_flag (rg_key s) KEY_DELETED in
  mwhen deleted (mmodify (rg_set_error REG_KEY_DELETED)) ;;;
  mreturn (negb deleted).

(** The request data hold the name, [name_len] bytes, and the data after it. *)
Definition req_set_key_value (req_data : list Z) (name_len type : Z) : M rg unit :=
  if Z.of_nat (length req_data) <? name_len then mmodify (rg_set_error REG_INVALID_PARAMETER)
  else
    let! ok := get_hkey_obj in
    mwhen ok (set_value (bytes_units (take (Z.to_nat (name_len / 2 * 2)) req_data)) type
                        (drop (Z.to_nat name_len) req_data)).

Definition req_get_key_value (name : wstr) (max_size : Z) : M rg value_reply :=
  let! ok := get_hkey_obj in
  if ok then get_value name max_size else mreturn (mkReply 0 0 []).

Definition req_enum_key_value (i info_class max_size : Z) : M rg enum_reply :=
  let! ok := get_hkey_obj in
  if ok then enum_value i info_class max_size else mreturn (mkEnum 0 0 0 []).

Definition req_delete_key_value (name : wstr) : M rg unit :=
  let! ok := get_hkey_obj in
  mwhen ok (delete_value name).
End Values.
