(* ===== verification/RegValueProofs.v ===== *)
(** * The values of a key are a map from names

    Names are ordered by their lower-case units; the array of a key stays in this order,
    so that the search by halving finds every name and tells where a new one goes. *)

From stdpp Require Import base list gmap sorting.
From Stdlib Require Import ZArith Lia ZifyBool.
From S2P Require Import Prelude Atom AtomProofs RegValue.

Open Scope Z_scope.

(** ** The order of names *)

Fixpoint lex_lt (a b : list Z) : Prop :=
  match a, b with
  | [], [] => False
  | [], _ :: _ => True
  | _ :: _, [] => False
  | x :: a', y :: b' => x < y \/ (x = y /\ lex_lt a' b')
  end.

Lemma lex_irrefl a : ~ lex_lt a a.
Proof. induction a as [| x a IH]; [by intros [] |]. cbn. intros [? | [_ ?]]; [lia | done]. Qed.

Lemma lex_trans a b c : lex_lt a b -> lex_lt b c -> lex_lt a c.
Proof.
  revert b c. induction a as [| x a IH]; intros [| y b] [| z c]; cbn; try done.
  intros [H1 | [H1 H2]] [H3 | [H3 H4]]; try (left; lia). right. split; [lia | by eapply IH].
Qed.

Section Names.
Context (casemap : Z -> Z).
Abbreviation low := (lower casemap).

(** What [memicmp_strW] tells of two names. *)
Lemma memicmp_cases a b :
  let r := memicmp_strW casemap a b in
  (r < 0 /\ lex_lt (low a) (low b)) \/ (0 < r /\ lex_lt (low b) (low a)) \/
  (r = 0 /\ (low a = low b \/ ((length a < length b)%nat /\ lex_lt (low a) (low b)) \/
             ((length b < length a)%nat /\ lex_lt (low b) (low a)))).
Proof.
  revert b. induction a as [| x a IH]; intros [| y b]; cbn [memicmp_strW lower map length lex_lt].
  - right. right. split; [done | by left].
  - right. right. split; [done |]. right. left. split; [lia | done].
  - right. right. split; [done |]. right. right. split; [lia | done].
  - destruct (Z.eqb_spec (to_lower casemap x - to_lower casemap y) 0) as [E | E]; cbn [negb].
    + assert (Ex : to_lower casemap x = to_lower casemap y) by lia.
      destruct (IH b) as [[? ?] | [[? ?] | [? [He | [[? ?] | [? ?]]]]]].
      * left. split; [done | by right].
      * right. left. split; [done | by right].
      * right. right. split; [done |]. left. unfold lower in *. by rewrite Ex, He.
      * right. right. split; [done |]. right. left. split; [lia | by right].
      * right. right. split; [done |]. right. right. split; [lia | by right].
    + destruct (Z.lt_ge_cases (to_lower casemap x) (to_lower casemap y)); [left | right; left];
        (split; [lia | left; lia]).
Qed.

(** Names that a request can hold. *)
Definition short (name : list Z) : Prop := Z.of_nat (length name) < 2 ^ 29.

Lemma compare_names_spec a b :
  short a -> short b ->
  let r := compare_names casemap a b in
  (r < 0 /\ lex_lt (low a) (low b)) \/ (r = 0 /\ low a = low b) \/ (0 < r /\ lex_lt (low b) (low a)).
Proof.
  intros Ha Hb. unfold compare_names, short, namelen in *.
  set (d := 2 * Z.of_nat (length a) - 2 * Z.of_nat (length b)).
  assert (Ed : i32 (u32 d) = d).
  { unfold swrap, uwrap. rewrite Zplus_mod_idemp_l. fold (swrap 32 d). apply swrap_small; unfold d; lia. }
  rewrite Ed. destruct (memicmp_cases a b) as [[Hr ?] | [[Hr ?] | [Hr Hc]]]; cbv zeta in *.
  - replace (memicmp_strW casemap a b =? 0) with false by lia. by left.
  - replace (memicmp_strW casemap a b =? 0) with false by lia. by right; right.
  - rewrite Hr. cbn. destruct Hc as [He | [[? ?] | [? ?]]].
    + right. left. split; [| done].
      assert (length a = length b) by (apply (f_equal length) in He; unfold lower in He; by rewrite !length_map in He).
      unfold d. lia.
    + left. split; [unfold d; lia | done].
    + right. right. split; [unfold d; lia | done].
Qed.

(** ** The array *)

Definition vlt (v w : key_value) : Prop := lex_lt (low (v_name v)) (low (v_name w)).

Record key_ok (k : key) : Prop := mkKeyOk {
  ko_sorted : StronglySorted vlt (k_values k);
  ko_names : Forall (fun v => namelen (v_name v) <= MAX_VALUE_LEN * 2) (k_values k);
  ko_room : Z.of_nat (length (k_values k)) <= k_nb_values k;
  ko_nb : k_nb_values k = 0 \/ MIN_VALUES <= k_nb_values k
}.

(** Where a name is, or where it belongs. *)
Inductive located (vs : list key_value) (n : list Z) : bool * Z -> Prop :=
  | Located l1 v l2 : vs = l1 ++ v :: l2 -> low (v_name v) = n ->
      located vs n (true, Z.of_nat (length l1))
  | Belongs l1 l2 : vs = l1 ++ l2 -> Forall (fun v => lex_lt (low (v_name v)) n) l1 ->
      Forall (fun v => lex_lt n (low (v_name v))) l2 ->
      located vs n (false, Z.of_nat (length l1)).

Lemma sorted_below vs v i w j :
  StronglySorted vlt vs -> vs !! i = Some v -> vs !! j = Some w -> (i < j)%nat -> vlt v w.
Proof.
  intros Hs Hi Hj Hij. rewrite <- (take_drop (S i) vs) in Hs.
  apply (StronglySorted_app_1_elem_of vlt _ _ v w Hs).
  - apply list_elem_of_lookup. exists i. rewrite lookup_take_lt by lia. done.
  - apply list_elem_of_lookup. exists (j - S i)%nat. rewrite lookup_drop.
    by replace (S i + (j - S i))%nat with j by lia.
Qed.

Lemma find_loop_spec fuel vs name min max :
  StronglySorted vlt vs -> Forall (fun v => short (v_name v)) vs -> short name ->
  0 <= min -> max < Z.of_nat (length vs) -> min <= max + 1 -> (Z.to_nat (max - min + 1) <= fuel)%nat ->
  (forall j v, vs !! j = Some v -> Z.of_nat j < min -> lex_lt (low (v_name v)) (low name)) ->
  (forall j v, vs !! j = Some v -> max < Z.of_nat j -> lex_lt (low name) (low (v_name v))) ->
  exists r, find_loop casemap fuel vs name min max = Some r /\ located vs (low name) r.
Proof.
  intros Hs Hn Hname. revert min max.
  induction fuel as [| fuel IH]; intros min max Hmin Hmax Hle Hf Hlo Hhi; cbn [find_loop];
    destruct (Z.leb_spec min max) as [L | L]; try lia.
  1, 3: exists (false, min); split; [done |];
    replace min with (Z.of_nat (length (take (Z.to_nat min) vs))) at 1 by (rewrite length_take; lia);
    apply (Belongs _ _ _ (drop (Z.to_nat min) vs)); [by rewrite take_drop | |];
    apply Forall_lookup; intros j v Hj.
  1, 3: apply lookup_take_Some in Hj as [Hj Hlt]; apply (Hlo j v Hj); lia.
  1, 2: rewrite lookup_drop in Hj; apply (Hhi _ v Hj); lia.
  pose proof (Z.div_le_lower_bound (min + max) 2 min ltac:(lia) ltac:(lia)).
  pose proof (Z.div_le_upper_bound (min + max) 2 max ltac:(lia) ltac:(lia)).
  set (i := (min + max) / 2) in *. destruct (vs !! Z.to_nat i) as [v |] eqn:Ei.
  2:{ apply lookup_ge_None in Ei. lia. }
  cbn [mbind option_bind]. pose proof (proj1 (Forall_lookup _ _) Hn _ _ Ei) as Hv. cbv beta in Hv.
  destruct (compare_names_spec (v_name v) name Hv Hname) as [[Hr Hc] | [[Hr Hc] | [Hr Hc]]]; cbv zeta in *.
  - replace (compare_names casemap (v_name v) name =? 0) with false by lia.
    replace (0 <? compare_names casemap (v_name v) name) with false by lia.
    apply IH; try lia; [| done]. intros j w Hj Hji. destruct (Nat.eq_dec j (Z.to_nat i)) as [-> | Hne].
    + congruence.
    + eapply lex_trans; [| exact Hc]. apply (sorted_below vs w j v (Z.to_nat i) Hs Hj Ei). lia.
  - rewrite Hr. cbn. exists (true, i). split; [done |].
    replace i with (Z.of_nat (length (take (Z.to_nat i) vs))) by (rewrite length_take; lia).
    eapply Located; [symmetry; apply (take_drop_middle vs (Z.to_nat i) v Ei) | done].
  - replace (compare_names casemap (v_name v) name =? 0) with false by lia.
    replace (0 <? compare_names casemap (v_name v) name) with true by lia.
    apply IH; try lia; [done |]. intros j w Hj Hji. destruct (Nat.eq_dec j (Z.to_nat i)) as [-> | Hne].
    + congruence.
    + eapply lex_trans; [exact Hc |]. apply (sorted_below vs v (Z.to_nat i) w j Hs Ei Hj). lia.
Qed.

Lemma find_in_spec k name :
  key_ok k -> short name -> located (k_values k) (low name) (find_in casemap k name).
Proof.
  intros [Hs Hn _ _] Hname. unfold find_in, find_value.
  destruct (find_loop_spec (length (k_values k)) (k_values k) name 0 (Z.of_nat (length (k_values k)) - 1))
    as (r & -> & Hr); [done | | done | lia | lia | lia | lia | | | done].
  - eapply Forall_impl; [exact Hn |]. intros v. unfold short, namelen, MAX_VALUE_LEN. lia.
  - intros. lia.
  - intros j v Hj. apply lookup_lt_Some in Hj. lia.
Qed.
End Names.
