(* ===== verification/RegValueTheorems.v ===== *)
(** * What the values of a key promise

    Setting, reading, enumerating and deleting values against a map from lower-case
    names to values. *)

From stdpp Require Import base list gmap sorting.
From Stdlib Require Import ZArith Lia ZifyBool.
From S2P Require Import Prelude Atom AtomProofs AtomTheorems RegValue RegValueProofs.

Open Scope Z_scope.

Abbreviation vmap := (gmap (list Z) key_value).

Section Refine.
Context (casemap : Z -> Z) (alloc_ok : nat -> bool) (junk : Z).
Abbreviation low := (lower casemap).

Definition represents (k : key) (m : vmap) : Prop :=
  key_ok casemap k /\ forall n v, m !! n = Some v <-> v ∈ k_values k /\ low (v_name v) = n.

(** ** Lists in order *)

Lemma sorted_replace l1 v v' l2 :
  low (v_name v') = low (v_name v) -> StronglySorted (vlt casemap) (l1 ++ v :: l2) ->
  StronglySorted (vlt casemap) (l1 ++ v' :: l2).
Proof.
  intros E. rewrite !StronglySorted_app, !StronglySorted_cons. unfold vlt. intros (H1 & H2 & H3 & H4).
  split_and!; [| done | | done].
  - intros x y Hx [-> | Hy]%elem_of_cons; [rewrite E | ]; apply H1; (done || apply elem_of_cons; auto).
  - by rewrite E.
Qed.

Lemma sorted_insert l1 v l2 :
  StronglySorted (vlt casemap) (l1 ++ l2) ->
  Forall (fun w => lex_lt (low (v_name w)) (low (v_name v))) l1 ->
  Forall (fun w => lex_lt (low (v_name v)) (low (v_name w))) l2 ->
  StronglySorted (vlt casemap) (l1 ++ v :: l2).
Proof.
  rewrite !StronglySorted_app, !StronglySorted_cons, Forall_forall. unfold vlt. intros (H1 & H2 & H3) Ha Hb.
  split_and!; try done. intros x y Hx [-> | Hy]%elem_of_cons; [by apply Ha | by apply H1].
Qed.

Lemma sorted_delete l1 v l2 :
  StronglySorted (vlt casemap) (l1 ++ v :: l2) -> StronglySorted (vlt casemap) (l1 ++ l2).
Proof.
  rewrite !StronglySorted_app, !StronglySorted_cons. intros (H1 & H2 & _ & H4). split_and!; try done.
  intros x y Hx Hy. apply H1; [done |]. apply elem_of_cons. by right.
Qed.

(** In an ordered list nothing else has the name of [v]. *)
Lemma sorted_unique l1 v l2 w :
  StronglySorted (vlt casemap) (l1 ++ v :: l2) -> w ∈ l1 ++ l2 -> low (v_name w) <> low (v_name v).
Proof.
  rewrite StronglySorted_app, StronglySorted_cons, Forall_forall. unfold vlt.
  intros (H1 & _ & H3 & _) [Hw | Hw]%elem_of_app E.
  - specialize (H1 w v Hw). rewrite E in H1. eapply lex_irrefl, H1, elem_of_cons. by left.
  - specialize (H3 w Hw). rewrite E in H3. by eapply lex_irrefl.
Qed.

Lemma elem_middle (w v : key_value) l1 l2 : w ∈ l1 ++ v :: l2 <-> w = v \/ w ∈ l1 ++ l2.
Proof. rewrite !elem_of_app, elem_of_cons. tauto. Qed.

(** ** Finding *)

Inductive finds (k : key) (m : vmap) (n : list Z) : bool * Z -> Prop :=
  | finds_it l1 v l2 : k_values k = l1 ++ v :: l2 -> low (v_name v) = n -> m !! n = Some v ->
      finds k m n (true, Z.of_nat (length l1))
  | finds_none l1 l2 : k_values k = l1 ++ l2 -> m !! n = None ->
      Forall (fun v => lex_lt (low (v_name v)) n) l1 -> Forall (fun v => lex_lt n (low (v_name v))) l2 ->
      finds k m n (false, Z.of_nat (length l1)).

Lemma find_in_finds k m name :
  represents k m -> short name -> finds k m (low name) (find_in casemap k name).
Proof.
  intros [Hok Hm] Hn. destruct (find_in_spec casemap k name Hok Hn) as [l1 v l2 E Hv | l1 l2 E H1 H2].
  - apply (finds_it _ _ _ _ v l2); [done | done |]. apply Hm. split; [| done].
    rewrite E. apply elem_middle. by left.
  - apply (finds_none _ _ _ _ l2); [done | | done | done].
    destruct (m !! low name) as [v |] eqn:Em; [| done]. apply Hm in Em as [Hin Hlow].
    rewrite E in Hin. rewrite Forall_forall in H1, H2.
    apply elem_of_app in Hin as [Hin | Hin]; [specialize (H1 v Hin) | specialize (H2 v Hin)];
      exfalso; rewrite Hlow in *; by eapply lex_irrefl.
Qed.

Lemma at_middle l1 (v : key_value) l2 : (l1 ++ v :: l2) !! Z.to_nat (Z.of_nat (length l1)) = Some v.
Proof. rewrite Nat2Z.id. by apply list_lookup_middle. Qed.

Lemma alter_middle (f : key_value -> key_value) l1 v l2 :
  alter f (Z.to_nat (Z.of_nat (length l1))) (l1 ++ v :: l2) = l1 ++ f v :: l2.
Proof. rewrite Nat2Z.id. induction l1 as [| w l1 IH]; [done |]. cbn. by rewrite IH. Qed.

(** ** Changing the array *)

Lemma represents_write k m l1 v l2 type data :
  represents k m -> k_values k = l1 ++ v :: l2 ->
  represents (set_values (l1 ++ mkValue (v_name v) type data :: l2) k)
             (<[low (v_name v) := mkValue (v_name v) type data]> m).
Proof.
  intros [[K1 K2 K3 K4] Hm] E. rewrite E in *. split; [split |]; cbn [set_values k_values k_nb_values].
  - by apply (sorted_replace l1 v).
  - apply Forall_app in K2 as [? [? ?]%Forall_cons]. apply Forall_app. split; [done |]. by constructor.
  - rewrite !length_app in *. done.
  - done.
  - intros n w. rewrite elem_middle. destruct (decide (n = low (v_name v))) as [-> | Hne].
    + rewrite lookup_insert_eq. split; [intros [= <-]; by split; [left |] |].
      intros [[-> | Hw] Hlow]; [done |]. by apply (sorted_unique l1 v l2 w K1) in Hw.
    + rewrite lookup_insert_ne, Hm, elem_middle by done. split; intros [[-> | Hw] Hlow]; try done; split; auto.
Qed.

Lemma represents_insert k m l1 l2 v :
  represents k m -> k_values k = l1 ++ l2 -> m !! low (v_name v) = None ->
  Forall (fun w => lex_lt (low (v_name w)) (low (v_name v))) l1 ->
  Forall (fun w => lex_lt (low (v_name v)) (low (v_name w))) l2 ->
  namelen (v_name v) <= MAX_VALUE_LEN * 2 -> Z.of_nat (length (k_values k)) < k_nb_values k ->
  represents (set_values (l1 ++ v :: l2) k) (<[low (v_name v) := v]> m).
Proof.
  intros [[K1 K2 K3 K4] Hm] E Hnone H1 H2 Hlen Hroom. rewrite E in *.
  split; [split |]; cbn [set_values k_values k_nb_values].
  - by apply sorted_insert.
  - apply Forall_app in K2 as [? ?]. apply Forall_app. split; [done |]. by constructor.
  - rewrite length_app in *. simpl. lia.
  - done.
  - intros n w. rewrite elem_middle. destruct (decide (n = low (v_name v))) as [-> | Hne].
    + rewrite lookup_insert_eq. split; [intros [= <-]; by split; [left |] |].
      intros [[-> | Hw] Hlow]; [done |]. exfalso.
      assert (m !! low (v_name v) = Some w) by (apply Hm; by split). congruence.
    + rewrite lookup_insert_ne, Hm by done. split; [intros [? ?]; by split; [right |] |].
      intros [[-> | Hw] Hlow]; [by rewrite Hlow in Hne | by split].
Qed.

Lemma represents_delete k m l1 v l2 :
  represents k m -> k_values k = l1 ++ v :: l2 ->
  represents (set_values (l1 ++ l2) k) (delete (low (v_name v)) m).
Proof.
  intros [[K1 K2 K3 K4] Hm] E. rewrite E in *. split; [split |]; cbn [set_values k_values k_nb_values].
  - by eapply sorted_delete.
  - apply Forall_app in K2 as [? [_ ?]%Forall_cons]. by apply Forall_app.
  - rewrite !length_app in *. simpl in K3. lia.
  - done.
  - intros n w. destruct (decide (n = low (v_name v))) as [-> | Hne].
    + rewrite lookup_delete_eq. split; [done |]. intros [Hw Hlow].
      by apply (sorted_unique l1 v l2 w K1) in Hw.
    + rewrite lookup_delete_ne, Hm, elem_middle by done. split; [intros [[-> | ?] ?]; [done | by split] |].
      intros [? ?]. by split; [right |].
Qed.

(** More room in the array. *)
Lemma represents_nb k m nb :
  represents k m -> Z.of_nat (length (k_values k)) <= nb -> (nb = 0 \/ MIN_VALUES <= nb) ->
  represents (set_nb_values nb k) m.
Proof. intros [[K1 K2 K3 K4] Hm] Hl Hn. by split; [split |]. Qed.

(** ** The operations *)

(** The allocator refused. *)
Definition refused_memory : Prop := exists n, alloc_ok n = false.

(** Memory for one thing: the key is not touched. *)
Lemma rg_mem_alloc_run s :
  let r := rg_mem_alloc alloc_ok s in
  rg_key r.2 = rg_key s /\ rg_touched r.2 = rg_touched s /\
  ((r.1 = true /\ rg_error r.2 = rg_error s) \/
   (r.1 = false /\ rg_error r.2 = REG_NO_MEMORY /\ refused_memory)).
Proof.
  unfold rg_mem_alloc. rewrite !bind_run. cbn [rg_alloc fst snd].
  destruct (alloc_ok (rg_allocs s)) eqn:E; cbn; split_and!; try done; [by left |].
  right. split_and!; [done | done | by exists (rg_allocs s)].
Qed.

Lemma mem_alloc_if (b : bool) s :
  let r := (if b then rg_mem_alloc alloc_ok else mreturn true) s in
  rg_key r.2 = rg_key s /\ rg_touched r.2 = rg_touched s /\
  (r.1 = true \/ (r.1 = false /\ rg_error r.2 = REG_NO_MEMORY /\ refused_memory)).
Proof.
  destruct b; [| cbn; split_and!; auto]. destruct (rg_mem_alloc_run s) as (? & ? & H). split_and!; try done.
  destruct H as [[? _] | ?]; auto.
Qed.

(** Room for one more value. *)
Lemma grow_if_full s m :
  represents (rg_key s) m ->
  let k := rg_key s in
  let r := (if Z.of_nat (length (k_values k)) =? k_nb_values k then grow_values alloc_ok
            else mreturn true) s in
  represents (rg_key r.2) m /\ k_values (rg_key r.2) = k_values k /\
  rg_touched r.2 = rg_touched s /\
  ((r.1 = true /\ Z.of_nat (length (k_values k)) < k_nb_values (rg_key r.2)) \/
   (r.1 = false /\ rg_error r.2 = REG_NO_MEMORY /\ refused_memory)).
Proof.
  intros Hrep. pose proof Hrep as [[_ _ K3 K4] _]. cbv zeta.
  destruct (Z.eqb_spec (Z.of_nat (length (k_values (rg_key s)))) (k_nb_values (rg_key s))) as [E | E].
  2:{ cbn. split_and!; [done | done | done |]. left. split; [done | lia]. }
  unfold grow_values. rewrite bind_run. cbn [mget fst snd]. rewrite bind_run.
  set (nb := k_nb_values (rg_key s)) in *.
  set (nb' := if negb (nb =? 0) then nb + nb / 2 else MIN_VALUES).
  assert (Hnb : nb < nb' /\ MIN_VALUES <= nb').
  { unfold nb', MIN_VALUES in *. destruct (Z.eqb_spec nb 0); cbn; [lia |].
    pose proof (Z.div_le_lower_bound nb 2 1 ltac:(lia) ltac:(lia)). lia. }
  destruct (rg_mem_alloc_run s) as (Hk & Ht & H). destruct (rg_mem_alloc alloc_ok s) as [ok s1].
  cbn [fst snd] in *. destruct H as [[-> _] | (-> & He & Hr)]; cbn.
  - rewrite Hk. split_and!; [apply represents_nb; [done | lia | right; lia] | done | done |].
    left. split; [done | lia].
  - rewrite Hk. split_and!; [done | done | done | by right].
Qed.

(** What a new value ends as. *)
Definition inserted (name : list Z) (index : Z) (k : key) : key :=
  let i := Z.to_nat index in
  let old := match k_values k !! i with Some v => v_type v | None => junk end in
  set_values (take i (k_values k) ++ mkValue name old [] :: drop i (k_values k)) k.

Lemma insert_value_run name index s m :
  represents (rg_key s) m ->
  let r := insert_value alloc_ok junk name index s in
  rg_touched r.2 = rg_touched s /\
  ((r.1 = None /\ represents (rg_key r.2) m /\
    ((rg_error r.2 = REG_NO_MEMORY /\ refused_memory) \/
     (rg_error r.2 = REG_NAME_TOO_LONG /\ MAX_VALUE_LEN * 2 < namelen name))) \/
   (r.1 = Some index /\ namelen name <= MAX_VALUE_LEN * 2 /\
    exists k, represents k m /\ k_values k = k_values (rg_key s) /\
      Z.of_nat (length (k_values k)) < k_nb_values k /\ rg_key r.2 = inserted name index k)).
Proof.
  intros Hrep. unfold insert_value. destruct (Z.ltb_spec (MAX_VALUE_LEN * 2) (namelen name)).
  { cbn. split; [done |]. left. split_and!; [done | done |]. right. by split. }
  rewrite bind_run. cbn [mget fst snd]. rewrite bind_run.
  destruct (grow_if_full s m Hrep) as (Hr1 & Hv1 & Ht1 & H1). cbv zeta in *.
  set (g := (if _ =? _ then grow_values alloc_ok else mreturn true) s) in *. destruct g as [ok s1].
  cbn [fst snd] in *. destruct H1 as [[-> Hroom] | (-> & He & Hno)]; cbn [negb].
  2:{ cbn. split; [done |]. left. split_and!; [done | done | by left]. }
  rewrite bind_run. destruct (mem_alloc_if (negb (namelen name =? 0)) s1) as (Hk2 & Ht2 & H2). cbv zeta in *.
  set (g2 := (if negb (namelen name =? 0) then rg_mem_alloc alloc_ok else mreturn true) s1) in *.
  destruct g2 as [ok s2]. cbn [fst snd] in *. destruct H2 as [-> | (-> & He & Hno)]; cbn [negb].
  - cbn. split; [congruence |]. right. split_and!; [done | done |]. exists (rg_key s2). rewrite Hk2.
    split_and!; [done | done | congruence | done].
  - cbn. split; [congruence |]. left. rewrite Hk2. split_and!; [done | done | by left].
Qed.

(** The slot of a name, made if there is none; then type and data are written to it. *)
Definition written (index type : Z) (data : list Z) (k : key) : key :=
  set_values (alter (fun v => mkValue (v_name v) type data) (Z.to_nat index) (k_values k)) k.

Lemma slot_spec name s m :
  represents (rg_key s) m -> short name ->
  let f := find_in casemap (rg_key s) name in
  let r := (if f.1 then mreturn (Some f.2) else insert_value alloc_ok junk name f.2) s in
  rg_touched r.2 = rg_touched s /\
  ((r.1 = None /\ represents (rg_key r.2) m /\
    ((rg_error r.2 = REG_NO_MEMORY /\ refused_memory) \/
     (rg_error r.2 = REG_NAME_TOO_LONG /\ MAX_VALUE_LEN * 2 < namelen name /\ m !! low name = None))) \/
   (r.1 = Some f.2 /\ forall type data,
      represents (written f.2 type data (rg_key r.2))
        (<[low name := mkValue (match m !! low name with Some v => v_name v | None => name end)
                               type data]> m))).
Proof.
  intros Hrep Hn. cbv zeta.
  destruct (find_in_finds _ m name Hrep Hn) as [l1 v l2 Ek Hv Hm | l1 l2 Ek Hm H1 H2]; cbn [fst snd]; rewrite Hm.
  - cbn [mreturn fst snd]. split; [done |]. right. split; [done |]. intros type data. unfold written.
    rewrite Ek, alter_middle, <- Hv. by apply represents_write.
  - destruct (insert_value_run name (Z.of_nat (length l1)) s m Hrep) as (Ht & Hins).
    destruct (insert_value alloc_ok junk name (Z.of_nat (length l1)) s) as [slot s2]. cbn [fst snd] in *.
    split; [done |]. destruct Hins as [(-> & Hr2 & Herr) | (-> & Hlen & k2 & Hk2 & Ev & Hroom & Eins)].
    { left. split_and!; [done | done |]. destruct Herr as [? | [? ?]]; [by left | by right]. }
    right. split; [done |]. intros type data. unfold written. rewrite Eins. unfold inserted.
    cbn [set_values k_values k_nb_values k_flags].
    rewrite Ev, Ek, Nat2Z.id, take_app_length, drop_app_length.
    rewrite <- (Nat2Z.id (length l1)), alter_middle. cbn [v_name].
    apply (represents_insert k2 m l1 l2 (mkValue name type data)); try done. by rewrite Ev.
Qed.

(** What [set_value] may do to the map. *)
Inductive set_spec (s : rg) (m : vmap) (name : list Z) (type : Z) (data : list Z) (s' : rg)
    : vmap -> Prop :=
  | set_refused : has_flag (rg_key s) KEY_PREDEF = true -> rg_error s' = REG_INVALID_HANDLE ->
      rg_touched s' = rg_touched s -> set_spec s m name type data s' m
  | set_same v : m !! low name = Some v -> v_type v = type -> v_data v = data -> data <> [] ->
      s' = s -> set_spec s m name type data s' m
  | set_denied : has_flag (rg_key s) KEY_SYMLINK = true ->
      type <> REG_LINK \/ low name <> low symlink_str -> rg_error s' = REG_ACCESS_DENIED ->
      rg_touched s' = rg_touched s -> set_spec s m name type data s' m
  | set_failed : (rg_error s' = REG_NO_MEMORY /\ refused_memory) \/
      (rg_error s' = REG_NAME_TOO_LONG /\ MAX_VALUE_LEN * 2 < namelen name /\ m !! low name = None) ->
      rg_touched s' = rg_touched s -> set_spec s m name type data s' m
  | set_done : has_flag (rg_key s) KEY_PREDEF = false ->
      rg_touched s' = rg_touched s ++ [REG_NOTIFY_CHANGE_LAST_SET] ->
      set_spec s m name type data s'
        (<[low name := mkValue (match m !! low name with Some v => v_name v | None => name end)
                               type data]> m).

Lemma symlink_name name :
  negb (namelen name =? namelen symlink_str) || negb (memicmp_strW casemap name symlink_str =? 0) = true ->
  low name <> low symlink_str.
Proof.
  intros H E. apply same_name_lower in E. apply andb_prop in E as [E1%Nat.eqb_eq E2].
  unfold namelen in H. rewrite E1, E2, Z.eqb_refl in H. done.
Qed.

Lemma set_value_spec name type data s m :
  represents (rg_key s) m -> short name ->
  exists m', set_spec s m name type data (set_value casemap alloc_ok junk name type data s).2 m' /\
    represents (rg_key (set_value casemap alloc_ok junk name type data s).2) m'.
Proof.
  intros Hrep Hn. unfold set_value. rewrite bind_run. cbn [mget fst snd].
  destruct (has_flag (rg_key s) KEY_PREDEF) eqn:Ep.
  { exists m. split; [by apply set_refused | done]. }
  pose proof (find_in_finds _ m name Hrep Hn) as Hf.
  destruct (find_in casemap (rg_key s) name) as [found index] eqn:Ef.
  destruct (found && _) eqn:Es.
  { exists m. split; [| done]. apply andb_prop in Es as [-> Es]. inversion Hf as [l1 v l2 Ek Hv Hm E |]; subst index.
    rewrite Ek, at_middle in Es. apply andb_prop in Es as [[E1 E2]%andb_prop E3].
    apply bool_decide_eq_true in E3. apply (set_same _ _ _ _ _ _ v); [done | lia | done | | done].
    intros ->. by rewrite E3 in E2. }
  destruct (has_flag (rg_key s) KEY_SYMLINK && _) eqn:El.
  { exists m. split; [| done]. apply andb_prop in El as [El1 El2]. apply set_denied; [done | | done | done].
    destruct (Z.eqb_spec type REG_LINK); [right; apply symlink_name; by apply El2 | by left]. }
  rewrite bind_run. destruct (mem_alloc_if (negb (Nat.eqb (length data) 0)) s) as (Hk & Ht & H). cbv zeta in *.
  set (g := (if negb _ then rg_mem_alloc alloc_ok else mreturn true) s) in *. destruct g as [ok s1].
  cbn [fst snd] in *. destruct H as [-> | (-> & He & Hno)]; cbn [negb].
  2:{ exists m. cbn. rewrite Hk. split; [| done]. apply set_failed; [by left | done]. }
  rewrite bind_run. rewrite <- Hk in Hrep, Ef. destruct (slot_spec name s1 m Hrep Hn) as [Ht2 Hslot].
  rewrite Ef in *. cbn [fst snd] in *.
  set (g := (if found then mreturn (Some index) else insert_value alloc_ok junk name index) s1) in *.
  destruct g as [slot s2]. cbn [fst snd] in *. destruct Hslot as [(-> & Hr2 & Herr) | (-> & Hw)].
  { exists m. split; [| done]. apply set_failed; [done | cbn; congruence]. }
  rewrite bind_run. cbn [write_value mmodify touch_key fst snd]. eexists. split; [| exact (Hw type data)].
  apply set_done; [done |]. cbn. by rewrite Ht2, Ht.
Qed.

(** A key without values. *)
Lemma empty_represents flags : represents (mkKey [] 0 flags) ∅.
Proof.
  split; [split; cbn; [constructor | constructor | lia | by left] |].
  intros n v. rewrite lookup_empty. split; [done |]. intros [H _]. by apply elem_of_nil in H.
Qed.

Lemma get_value_spec name max_size s m :
  represents (rg_key s) m -> short name -> has_flag (rg_key s) KEY_PREDEF = false ->
  let r := get_value casemap name max_size s in
  rg_key r.2 = rg_key s /\
  match m !! low name with
  | Some v => r.2 = s /\ rp_type r.1 = v_type v /\ rp_len r.1 = Z.of_nat (length (v_data v)) /\
      rp_data r.1 = take (Z.to_nat (Z.min (rp_len r.1) max_size)) (v_data v)
  | None => rp_type r.1 = -1 /\ rg_error r.2 = REG_NAME_NOT_FOUND
  end.
Proof.
  intros Hrep Hn Hp. unfold get_value. rewrite bind_run. cbn [mget fst snd]. rewrite Hp.
  destruct (find_in_finds _ m name Hrep Hn) as [l1 v l2 Ek Hv Hm | l1 l2 Ek Hm H1 H2]; rewrite Hm.
  - rewrite Ek, at_middle. done.
  - done.
Qed.

Lemma delete_value_spec name s m :
  represents (rg_key s) m -> short name -> has_flag (rg_key s) KEY_PREDEF = false ->
  let s' := (delete_value casemap alloc_ok name s).2 in
  represents (rg_key s') (delete (low name) m) /\
  match m !! low name with
  | Some _ => rg_error s' = rg_error s /\ rg_touched s' = rg_touched s ++ [REG_NOTIFY_CHANGE_LAST_SET]
  | None => rg_error s' = REG_NAME_NOT_FOUND /\ rg_touched s' = rg_touched s
  end.
Proof.
  intros Hrep Hn Hp. unfold delete_value. rewrite bind_run. cbn [mget fst snd]. rewrite Hp.
  destruct (find_in_finds _ m name Hrep Hn) as [l1 v l2 Ek Hv Hm | l1 l2 Ek Hm H1 H2]; rewrite Hm; cbn [negb].
  2:{ cbn. split; [| done]. by rewrite delete_id. }
  rewrite bind_run. cbn [mmodify fst snd]. rewrite bind_run. cbn [touch_key mmodify fst snd]. rewrite bind_run.
  cbn [mget fst snd upd_key rg_key]. rewrite Ek, Nat2Z.id, take_app_length.
  replace (drop (S (length l1)) (l1 ++ v :: l2)) with l2
    by (by rewrite drop_app_ge, Nat.sub_succ_l, Nat.sub_diag by lia).
  pose proof (represents_delete _ m l1 v l2 Hrep Ek) as Hdel. rewrite Hv in Hdel.
  set (k' := set_values (l1 ++ l2) (rg_key s)) in *. set (nb := k_nb_values k').
  destruct (_ && _) eqn:Esh; cbn [mreturn snd]; [| split; [exact Hdel | done]].
  rewrite bind_run. cbn [rg_alloc fst snd upd_key rg_allocs rg_error rg_touched].
  destruct (alloc_ok (rg_allocs s)); cbn [mwhen mreturn mmodify snd upd_key rg_key]; [| split; [exact Hdel | done]].
  split; [| done]. apply represents_nb; [done | |]; fold nb in Esh; unfold MIN_VALUES in *;
    pose proof (Z.div_le_upper_bound nb 3 (nb / 2 + 1)); pose proof (Z.div_mod nb 2 ltac:(lia));
    pose proof (Z.mod_pos_bound nb 2 ltac:(lia)); pose proof (Z.div_mod nb 3 ltac:(lia));
    pose proof (Z.mod_pos_bound nb 3 ltac:(lia)); lia.
Qed.

Lemma enum_value_spec i max_size s m :
  represents (rg_key s) m -> has_flag (rg_key s) KEY_PREDEF = false ->
  let r := enum_value alloc_ok i 1 max_size s in
  rg_key r.2 = rg_key s /\
  match (if i <? 0 then None else k_values (rg_key s) !! Z.to_nat i) with
  | None => rg_error r.2 = REG_NO_MORE_ENTRIES
  | Some v =>
      m !! low (v_name v) = Some v /\ en_type r.1 = v_type v /\
      en_total r.1 = namelen (v_name v) + Z.of_nat (length (v_data v)) /\
      (en_total r.1 <= max_size -> 0 < en_total r.1 ->
       en_data r.1 = units_bytes (v_name v) ++ v_data v \/ (refused_memory /\ rg_error r.2 = REG_NO_MEMORY))
  end.
Proof.
  intros [Hok Hm] Hp. unfold enum_value. rewrite bind_run. cbn [mget fst snd]. rewrite Hp.
  destruct (Z.ltb_spec i 0); cbn [orb]; [done |].
  destruct (Z.ltb_spec (Z.of_nat (length (k_values (rg_key s))) - 1) i) as [L | L].
  { cbn. rewrite lookup_ge_None_2 by lia. done. }
  destruct (lookup_lt_is_Some_2 (k_values (rg_key s)) (Z.to_nat i)) as [v Hv]; [lia |]. rewrite Hv.
  change (default (mkValue [] 0 []) (Some v)) with v. change (1 =? 0) with false. change (1 =? 1) with true. cbv iota.
  set (total := namelen (v_name v) + Z.of_nat (length (v_data v))).
  assert (Hin : m !! low (v_name v) = Some v) by (apply Hm; split; [by eapply list_elem_of_lookup_2 | done]).
  assert (Hub : length (units_bytes (v_name v)) = Z.to_nat (namelen (v_name v))).
  { unfold units_bytes, namelen. clear. induction (v_name v) as [| u us IH]; [done |].
    cbn [flat_map app length]. lia. }
  destruct (Z.eqb_spec (Z.min total max_size) 0) as [E | E].
  { cbn [mreturn fst snd en_type en_total en_data]. split_and!; try done. intros; exfalso; lia. }
  rewrite bind_run. destruct (rg_mem_alloc_run s) as (Hk & _ & Hal).
  destruct (rg_mem_alloc alloc_ok s) as [ok s1]. cbn [fst snd] in *.
  destruct Hal as [[-> _] | (-> & He & Hno)]; cbn [negb].
  2:{ cbn [mreturn fst snd en_type en_total en_data]. split_and!; try done. intros. right. by split. }
  destruct (Z.ltb_spec (namelen (v_name v)) (Z.min total max_size)) as [Lt | Lt]; cbn [mreturn fst snd en_type en_total en_data];
    split_and!; try done; intros Hle H0; left; rewrite Z.min_l in * by lia.
  - rewrite <- Hub, firstn_all. f_equal. rewrite take_ge; [done | unfold total in *; lia].
  - assert (Hd : length (v_data v) = 0%nat) by (unfold total in *; lia).
    replace total with (namelen (v_name v)) by (unfold total; lia).
    by rewrite <- Hub, firstn_all, (nil_length_inv _ Hd), app_nil_r.
Qed.

(** C15: the values of a key are a map from names, up to case, to values: setting inserts or
    overwrites and keeps the spelling of a name that is there, reading and deleting find
    exactly the names that are there, enumerating goes through all of them in the order
    of their names; every error leaves the map as it is. *)
Theorem key_values_refine_map s m :
  represents (rg_key s) m ->
  (forall name type data, short name ->
     let s' := (set_value casemap alloc_ok junk name type data s).2 in
     exists m', set_spec s m name type data s' m' /\ represents (rg_key s') m') /\
  (has_flag (rg_key s) KEY_PREDEF = false ->
   (forall name max_size, short name ->
      let r := get_value casemap name max_size s in
      rg_key r.2 = rg_key s /\
      match m !! low name with
      | Some v => r.2 = s /\ rp_type r.1 = v_type v /\ rp_len r.1 = Z.of_nat (length (v_data v)) /\
          rp_data r.1 = take (Z.to_nat (Z.min (rp_len r.1) max_size)) (v_data v)
      | None => rp_type r.1 = -1 /\ rg_error r.2 = REG_NAME_NOT_FOUND
      end) /\
   (forall name, short name ->
      let s' := (delete_value casemap alloc_ok name s).2 in
      represents (rg_key s') (delete (low name) m) /\
      match m !! low name with
      | Some _ => rg_error s' = rg_error s /\ rg_touched s' = rg_touched s ++ [REG_NOTIFY_CHANGE_LAST_SET]
      | None => rg_error s' = REG_NAME_NOT_FOUND /\ rg_touched s' = rg_touched s
      end) /\
   (forall i max_size,
      let r := enum_value alloc_ok i 1 max_size s in
      rg_key r.2 = rg_key s /\
      match (if i <? 0 then None else k_values (rg_key s) !! Z.to_nat i) with
      | None => rg_error r.2 = REG_NO_MORE_ENTRIES
      | Some v =>
          m !! low (v_name v) = Some v /\ en_type r.1 = v_type v /\
          en_total r.1 = namelen (v_name v) + Z.of_nat (length (v_data v)) /\
          (en_total r.1 <= max_size -> 0 < en_total r.1 ->
           en_data r.1 = units_bytes (v_name v) ++ v_data v \/
           (refused_memory /\ rg_error r.2 = REG_NO_MEMORY))
      end)).
Proof.
  intros Hrep. split; [intros; by apply set_value_spec |]. intros Hp. split_and!.
  - intros. by apply get_value_spec.
  - intros. by apply delete_value_spec.
  - intros. by apply enum_value_spec.
Qed.
End Refine.

(** ** Witness *)

Definition demo_key : rg := mkRg (mkKey [] 0 0) 0 0 [].

Lemma key_values_refine_map_witness :
  exists m', set_spec demo_casemap (fun _ => true) demo_key ∅ [0x41] REG_DWORD [1; 0; 0; 0]
    (set_value demo_casemap (fun _ => true) 0 [0x41] REG_DWORD [1; 0; 0; 0] demo_key).2 m'.
Proof.
  destruct (key_values_refine_map demo_casemap (fun _ => true) 0 demo_key ∅
    (empty_represents demo_casemap 0)) as [H _].
  destruct (H [0x41] REG_DWORD [1; 0; 0; 0]) as (m' & Hm & _).
  - unfold short. simpl. lia.
  - exists m'. exact Hm.
Defined.
