(* ===== verification/RegText.v ===== *)
(** * Registry values as text

    Models how [src/server/registry.c] writes a value to a registry file and reads it
    back: [dump_value], and [load_value] with [parse_value_name], [get_data_type],
    [parse_hex] and [read_next_line].  A file is the list of its bytes, a line the bytes
    before its terminator.  The pointer into the line that the C functions move is the
    rest of the line; [-1], 0 and the jumps to [error] are [None] or [false].  The line
    counter, which only appears in messages, is left out. *)

From stdpp Require Import base list gmap.
From Stdlib Require Import ZArith Lia.
From S2P Require Import Prelude Atom StrText RegValue.

Open Scope Z_scope.

Definition QUOTE : Z := 0x22.
Definition COMMA : Z := 0x2c.
Definition NEWLINE : Z := 10.

(** ** Writing *)

(** ["dword:"], ["hex:"], ["hex("], ["str("], ["):"] *)
Definition tag_dword : list Z := [0x64; 0x77; 0x6f; 0x72; 0x64; 0x3a].
Definition tag_hex : list Z := [0x68; 0x65; 0x78; 0x3a].
Definition tag_hex_type : list Z := [0x68; 0x65; 0x78; 0x28].
Definition tag_str_type : list Z := [0x73; 0x74; 0x72; 0x28].
Definition tag_close : list Z := [0x29; 0x3a].
Definition tag_str : list Z := [0x73; 0x74; 0x72; 0x3a].

(** The bytes as hexadecimal digits, in lines of about 76 characters. *)
Fixpoint dump_bytes (count : Z) (bs : list Z) : list Z :=
  match bs with
  | [] => []
  | b :: bs' =>
      fmt 16 2 b ++
      match bs' with
      | [] => []
      | _ :: _ =>
          COMMA ::
          (if 76 <? count + 2 + 1 then [BACKSLASH; NEWLINE; 0x20; 0x20] ++ dump_bytes 2 bs'
           else dump_bytes (count + 2 + 1) bs')
      end
  end.

Definition is_string_type (t : Z) : bool := (t =? REG_SZ) || (t =? REG_EXPAND_SZ) || (t =? REG_MULTI_SZ).

(** The units of a properly terminated string. *)
Definition terminated (data : list Z) : option (list Z) :=
  if (Z.of_nat (length data) <? 2) || negb (Z.of_nat (length data) mod 2 =? 0) then None
  else
    let us := bytes_units data in
    if default 0 (last us) =? 0 then Some (removelast us) else None.

Definition dword_of (data : list Z) : option Z :=
  match data with
  | [b0; b1; b2; b3] => Some (b0 + 256 * b1 + 65536 * b2 + 16777216 * b3)
  | _ => None
  end.

Definition dump_hex (count : Z) (v : key_value) : list Z :=
  let tag := if v_type v =? REG_BINARY then tag_hex else tag_hex_type ++ fmt 16 0 (v_type v) ++ tag_close in
  tag ++ dump_bytes (count + Z.of_nat (length tag)) (v_data v) ++ [NEWLINE].

Definition dump_data (count : Z) (v : key_value) : option (list Z) :=
  match (if is_string_type (v_type v) then terminated (v_data v) else None) with
  | Some us =>
      '(text, _) ← dump_strW us QUOTE QUOTE;
      Some ((if v_type v =? REG_SZ then [] else tag_str_type ++ fmt 16 0 (v_type v) ++ tag_close) ++
            [QUOTE] ++ text ++ [QUOTE; NEWLINE])
  | None =>
      match (if v_type v =? REG_DWORD then dword_of (v_data v) else None) with
      | Some dw => Some (tag_dword ++ fmt 16 8 dw ++ [NEWLINE])
      | None => Some (dump_hex count v)
      end
  end.

Definition dump_value (v : key_value) : option (list Z) :=
  '(head, count) ←
    (if namelen (v_name v) =? 0 then Some ([0x40; 0x3d], 2)
     else
       '(text, n) ← dump_strW (v_name v) QUOTE QUOTE;
       Some ([QUOTE] ++ text ++ [QUOTE; 0x3d], 1 + n + 2));
  data ← dump_data count v;
  Some (head ++ data).

(** ** Reading *)

Definition isspace (c : Z) : bool := (c =? 0x20) || ((9 <=? c) && (c <=? 13)).

Fixpoint skip_space (p : list Z) : list Z :=
  match p with c :: p' => if isspace c then skip_space p' else p | [] => [] end.

Definition ULONG_MAX : Z := 2 ^ 64 - 1.

(** The digits at the front, as a number that stops at [ULONG_MAX]. *)
Fixpoint hex_number (acc : Z) (p : list Z) : Z * list Z :=
  match p with
  | c :: p' => if isxdigit c then hex_number (Z.min (acc * 16 + to_hex c) (ULONG_MAX + 1)) p' else (acc, p)
  | [] => (acc, [])
  end.

(** The prefix ["0x"] before a digit. *)
Definition skip_0x (p : list Z) : list Z :=
  match p with
  | z :: x :: d :: _ =>
      if (z =? 0x30) && ((x =? 0x78) || (x =? 0x58)) && isxdigit d then tail (tail p) else p
  | _ => p
  end.

(** [strtoul( p, &end, 16 )] *)
Definition strtoul16 (p : list Z) : Z * list Z :=
  let p1 := skip_space p in
  let neg := at_ p1 =? 0x2d in
  let p2 := if neg || (at_ p1 =? 0x2b) then tail p1 else p1 in
  let p3 := skip_0x p2 in
  if isxdigit (at_ p3) then
    let r := hex_number 0 p3 in
    (if ULONG_MAX <? r.1 then ULONG_MAX else if neg then u64 (- r.1) else r.1, r.2)
  else (0, p).

Definition starts_with (tag p : list Z) : bool := bool_decide (take (length tag) p = tag).

Inductive parse_type := P_string | P_dword | P_binary.

(** [get_data_type]: type, how to parse the data, and the rest of the line. *)
Definition get_data_type (p : list Z) : option (Z * parse_type * list Z) :=
  let quoted (tag : list Z) := tag ++ [QUOTE] in
  let str n := quoted (tag_str_type ++ [0x30 + n] ++ tag_close) in
  if starts_with (quoted []) p then Some (REG_SZ, P_string, drop 1 p)
  else if starts_with (quoted tag_str) p then Some (REG_SZ, P_string, drop 5 p)
  else if starts_with (str REG_EXPAND_SZ) p then Some (REG_EXPAND_SZ, P_string, drop 8 p)
  else if starts_with (str REG_MULTI_SZ) p then Some (REG_MULTI_SZ, P_string, drop 8 p)
  else if starts_with tag_hex p then Some (REG_BINARY, P_binary, drop 4 p)
  else if starts_with tag_dword p then Some (REG_DWORD, P_dword, drop 6 p)
  else if starts_with tag_hex_type p then
    let r := strtoul16 (drop 4 p) in
    if starts_with tag_close r.2 then Some (u32 r.1, P_binary, drop 2 r.2) else None
  else None.

(** [parse_hex]: each round reads a digit, so the length of the line bounds the rounds. *)
Fixpoint parse_hex_loop (fuel : nat) (maxlen : Z) (dest p : list Z) : option (list Z * list Z) :=
  if isxdigit (at_ p) then
    match fuel with
    | O => None
    | S fuel' =>
        let r := strtoul16 p in
        let val := u32 r.1 in
        if 0xff <? val then None
        else if maxlen <=? Z.of_nat (length dest) then None
        else
          let p1 := skip_space r.2 in
          let p2 := if at_ p1 =? COMMA then tail p1 else p1 in
          parse_hex_loop fuel' maxlen (dest ++ [val]) (skip_space p2)
    end
  else Some (dest, p).

Definition parse_hex_bytes (maxlen : Z) (p : list Z) : option (list Z * list Z) :=
  parse_hex_loop (length p) maxlen [] p.

(** The key being loaded, the rest of the file and the sizes of the temporary buffer and
    of the line buffer. *)
Record loader := mkLoader { ld_rg : rg; ld_text : list Z; ld_tmplen : Z; ld_len : Z }.

Definition on_rg {A} (m : M rg A) : M loader A := fun s =>
  let r := m (ld_rg s) in (r.1, mkLoader r.2 (ld_text s) (ld_tmplen s) (ld_len s)).
Definition set_text (text : list Z) (s : loader) : loader := mkLoader (ld_rg s) text (ld_tmplen s) (ld_len s).
Definition set_len (len : Z) (s : loader) : loader := mkLoader (ld_rg s) (ld_text s) (ld_tmplen s) len.

(** [fgets]: at most [n] bytes, through the first newline. *)
Fixpoint fgets (n : nat) (text : list Z) : list Z * list Z :=
  match n, text with
  | S n', c :: text' =>
      if c =? NEWLINE then ([c], text') else let r := fgets n' text' in (c :: r.1, r.2)
  | _, _ => ([], text)
  end.

(** The bytes before the first byte 0, as [strlen] counts them. *)
Fixpoint until_nul (l : list Z) : list Z :=
  match l with c :: l' => if c =? 0 then [] else c :: until_nul l' | [] => [] end.

(** What [read_next_line] comes to.  A file whose next byte is 0 makes it read the byte
    before its buffer: [Outside_buffer]. *)
Inductive read_result := Line (line : list Z) | End_of_file | Read_error | Outside_buffer.

Section Load.
Context (casemap : Z -> Z) (alloc_ok : nat -> bool) (junk : Z).

(** The loop of [read_next_line]; [buf] is what the line buffer holds.  Each round takes
    at least a byte from the file, as the buffer has room for two or more. *)
Fixpoint read_loop (fuel : nat) (buf : list Z) : M loader read_result :=
  match fuel with
  | O => mreturn Read_error
  | S fuel' =>
      let! s := mget in
      match ld_text s with
      | [] => mreturn (if Nat.eqb (length buf) 0 then End_of_file else Line buf)
      | _ =>
          let r := fgets (Z.to_nat (ld_len s - Z.of_nat (length buf) - 1)) (ld_text s) in
          mmodify (set_text r.2) ;;;
          let line := until_nul (buf ++ r.1) in
          match last line with
          | None => mreturn Outside_buffer
          | Some c =>
              if c =? NEWLINE then
                let line := removelast line in
                mreturn (Line (if default 0 (last line) =? 13 then removelast line else line))
              else if Z.of_nat (length line) <? ld_len s - 1 then mreturn (Line line)
              else
                let! ok := on_rg (rg_mem_alloc alloc_ok) in
                if negb ok then mreturn Read_error
                else
                  mmodify (set_len (ld_len s + ld_len s / 2)) ;;;
                  read_loop fuel' line
          end
      end
  end.

Definition read_next_line : M loader read_result :=
  let! s := mget in read_loop (S (length (ld_text s))) [].

Definition get_file_tmp_space (size : Z) : M loader bool :=
  let! s := mget in
  if size <=? ld_tmplen s then mreturn true
  else
    let! ok := on_rg (rg_mem_alloc alloc_ok) in
    mwhen ok (mmodify (fun s => mkLoader (ld_rg s) (ld_text s) size (ld_len s))) ;;;
    mreturn ok.

(** The name at the front of a line: the name and the rest after its quote. *)
Definition parse_name (tmplen : Z) (p : list Z) : option (list Z * list Z) :=
  if at_ p =? 0x40 then Some ([], drop 1 p)
  else
    '(r, dest, _) ← parse_strW tmplen (drop 1 p) QUOTE;
    if r =? -1 then None else Some (removelast dest, drop (Z.to_nat (r + 1)) p).

(** [parse_value_name]: the index of the value and the rest of the line. *)
Definition parse_value_name (p : list Z) : M loader (option (Z * list Z)) :=
  let! ok := get_file_tmp_space (2 * Z.of_nat (length p)) in
  if negb ok then mreturn None
  else
    let! s := mget in
    match parse_name (ld_tmplen s) p with
    | None => mreturn None
    | Some (name, rest) =>
        let rest := skip_space rest in
        if negb (at_ rest =? 0x3d) then mreturn None
        else
          let rest := skip_space (tail rest) in
          let '(found, index) := find_in casemap (rg_key (ld_rg s)) name in
          let! slot := (if found then mreturn (Some index)
                        else on_rg (insert_value alloc_ok junk name index)) in
          mreturn (match slot with Some i => Some (i, rest) | None => None end)
    end.

(** What reading the data of a value comes to: an error in the text, no memory, a read
    outside the line buffer, or the data. *)
Inductive load_result := Malformed | No_memory | Undefined_read | Loaded (data : list Z).

(** The loop over the lines of binary data; it ends as each round takes a line. *)
Fixpoint load_hex (fuel : nat) (data p : list Z) : M loader load_result :=
  match fuel with
  | O => mreturn Malformed
  | S fuel' =>
      let maxlen := 1 + Z.of_nat (length p) / 2 in
      let! ok := get_file_tmp_space (Z.of_nat (length data) + maxlen) in
      if negb ok then mreturn No_memory
      else
        match parse_hex_bytes maxlen p with
        | None => mreturn Malformed
        | Some (bs, rest) =>
            let rest := skip_space rest in
            if at_ rest =? 0 then mreturn (Loaded (data ++ bs))
            else if negb (at_ rest =? BACKSLASH) then mreturn Malformed
            else
              let! line := read_next_line in
              match line with
              | Line line => load_hex fuel' (data ++ bs) (skip_space line)
              | End_of_file | Read_error => mreturn Malformed
              | Outside_buffer => mreturn Undefined_read
              end
        end
  end.

Definition load_data (pt : parse_type) (p : list Z) : M loader load_result :=
  match pt with
  | P_string =>
      let! ok := get_file_tmp_space (2 * Z.of_nat (length p)) in
      if negb ok then mreturn No_memory
      else
        let! s := mget in
        mreturn (match parse_strW (ld_tmplen s) p QUOTE with
                 | Some (r, dest, _) => if r =? -1 then Malformed else Loaded (units_bytes dest)
                 | None => Malformed
                 end)
  | P_dword =>
      let dw := u32 (strtoul16 p).1 in
      mreturn (Loaded [dw mod 256; dw / 256 mod 256; dw / 65536 mod 256; dw / 16777216])
  | P_binary =>
      let! s := mget in load_hex (S (length (ld_text s))) [] p
  end.

(** [load_value]; [None] after a read outside the line buffer. *)
Definition load_value (line : list Z) : M loader (option bool) :=
  let! r := parse_value_name line in
  match r with
  | None => mreturn (Some false)
  | Some (index, rest) =>
      let error := on_rg (write_value index REG_NONE []) ;;; mreturn (Some false) in
      match get_data_type rest with
      | None => error
      | Some (type, pt, rest) =>
          let! d := load_data pt rest in
          match d with
          | Malformed => error
          | No_memory => mreturn (Some false)
          | Undefined_read => mreturn None
          | Loaded data =>
              let! ok := (if Nat.eqb (length data) 0 then mreturn true
                          else on_rg (rg_mem_alloc alloc_ok)) in
              if negb ok then mreturn (Some false)
              else on_rg (write_value index type data) ;;; mreturn (Some true)
          end
      end
  end.
End Load.
