(* ===== verification/RegTextProofs.v ===== *)
(** * Registry values survive the file

    Each form in which [dump_value] writes the data of a value is read back by
    [load_value]: strings, numbers and lines of hexadecimal digits. *)

From stdpp Require Import base list gmap.
From Stdlib Require Import ZArith Lia ZifyBool.
From S2P Require Import Prelude Atom AtomProofs StrText StrTextProofs RegValue RegValueProofs.
From S2P Require Import RegValueTheorems RegText.

Open Scope Z_scope.

(** ** Numbers *)

Lemma hex_number_digits ds acc p :
  Forall (fun d => 0 <= d < 16) ds -> 0 <= acc -> (acc + 1) * 16 ^ Z.of_nat (length ds) <= 2 ^ 64 ->
  isxdigit (at_ p) = false ->
  hex_number acc (map digit ds ++ p) = (fold_left (fun a d => a * 16 + d) ds acc, p).
Proof.
  intros Hds. revert acc. induction ds as [| d ds IH]; intros acc Ha Hb Hp; cbn [map app hex_number fold_left].
  { destruct p as [| c p]; [done |]. cbn [at_ hex_number] in *. by rewrite Hp. }
  apply Forall_cons in Hds as [Hd Hds]. destruct (digit_hex d Hd) as (Hx & Ht & _). rewrite Hx, Ht.
  cbn [length] in Hb. rewrite Nat2Z.inj_succ, Z.pow_succ_r in Hb by lia.
  assert (0 < 16 ^ Z.of_nat (length ds)) by (apply Z.pow_pos_nonneg; lia).
  rewrite Z.min_l by (unfold ULONG_MAX; nia). apply IH; [done | lia | nia | done].
Qed.

Lemma digit_not_space d : 0 <= d < 16 -> isspace (digit d) = false /\ digit d <> 0x2d /\ digit d <> 0x2b.
Proof. intros Hd. unfold isspace, digit. destruct (Z.ltb_spec d 10); split_and!; lia. Qed.

Lemma skip_0x_digits d ds p :
  Forall (fun d => 0 <= d < 16) ds -> at_ p <> 0x78 -> at_ p <> 0x58 ->
  skip_0x (digit d :: map digit ds ++ p) = digit d :: map digit ds ++ p.
Proof.
  intros Hds Hx HX. destruct ds as [| d2 ds]; cbn [map app].
  - destruct p as [| x [| e p]]; [done | done |]. cbn [at_ skip_0x] in *.
    replace ((x =? 0x78) || (x =? 0x58)) with false by lia. by rewrite andb_false_r.
  - apply Forall_cons in Hds as [Hd2 _].
    assert (Hno : (digit d2 =? 0x78) || (digit d2 =? 0x58) = false)
      by (unfold digit; destruct (Z.ltb_spec d2 10); lia).
    destruct (map digit ds ++ p); [done |]. cbn [skip_0x]. by rewrite Hno, andb_false_r.
Qed.

(** [strtoul] reads the digits up to the first other character. *)
Lemma strtoul16_digits ds p :
  Forall (fun d => 0 <= d < 16) ds -> (0 < length ds <= 15)%nat -> isxdigit (at_ p) = false ->
  at_ p <> 0x78 -> at_ p <> 0x58 ->
  strtoul16 (map digit ds ++ p) = (value 16 ds, p).
Proof.
  intros Hds Hl Hp Hx HX. destruct ds as [| d ds]; [simpl in Hl; lia |].
  pose proof Hds as [Hd Hds']%Forall_cons. destruct (digit_not_space d Hd) as (Hs & Hm & Hpl).
  unfold strtoul16. cbn [map app skip_space]. rewrite Hs. cbn [at_].
  replace (digit d =? 0x2d) with false by lia. replace (digit d =? 0x2b) with false by lia. cbn [orb].
  rewrite skip_0x_digits by done. cbn [at_]. destruct (digit_hex d Hd) as (-> & _ & _).
  change (digit d :: map digit ds ++ p) with (map digit (d :: ds) ++ p).
  assert (Hpow : 16 ^ Z.of_nat (length (d :: ds)) <= 2 ^ 60).
  { change (2 ^ 60) with (16 ^ 15). apply Z.pow_le_mono_r; lia. }
  rewrite hex_number_digits; [| done | lia | lia | done]. fold (value 16 (d :: ds)). cbn [fst snd].
  assert (Hv : forall es acc, Forall (fun d => 0 <= d < 16) es -> 0 <= acc ->
    fold_left (fun a d => a * 16 + d) es acc < (acc + 1) * 16 ^ Z.of_nat (length es)).
  { clear. induction es as [| e es IH]; intros acc He Ha; cbn [fold_left length]; [simpl; lia |].
    apply Forall_cons in He as [He Hes]. rewrite Nat2Z.inj_succ, Z.pow_succ_r by lia.
    specialize (IH (acc * 16 + e) Hes ltac:(lia)).
    assert (0 < 16 ^ Z.of_nat (length es)) by (apply Z.pow_pos_nonneg; lia). nia. }
  specialize (Hv (d :: ds) 0 Hds ltac:(lia)). fold (value 16 (d :: ds)) in Hv.
  by replace (ULONG_MAX <? value 16 (d :: ds)) with false by (unfold ULONG_MAX; lia).
Qed.

Lemma skip_space_none p : isspace (at_ p) = false -> skip_space p = p.
Proof. destruct p as [| c p]; [done |]. cbn. by intros ->. Qed.

(** ** Lines of hexadecimal digits *)

(** Bytes on one line. *)
Fixpoint commas (bs : list Z) : list Z :=
  match bs with
  | [] => []
  | [b] => fmt 16 2 b
  | b :: bs' => fmt 16 2 b ++ COMMA :: commas bs'
  end.

Lemma fmt_byte b :
  byte b -> exists ds, fmt 16 2 b = map digit ds /\ value 16 ds = b /\
    Forall (fun d => 0 <= d < 16) ds /\ length ds = 2%nat.
Proof.
  intros Hb. unfold byte in Hb. destruct (fmt_spec 16 2 b 2) as (ds & H1 & H2 & H3 & H4 & H5); [lia | lia | lia | simpl; lia | lia |].
  exists ds. split_and!; [done | done | done | lia].
Qed.

(** What may follow the bytes of a line. *)
Definition line_end (p : list Z) : Prop := p = [] \/ p = [COMMA; BACKSLASH].

Definition after_line (p : list Z) : list Z := tail p.

Lemma parse_hex_line bs fuel maxlen dest p :
  Forall byte bs -> bs <> [] -> line_end p -> (length (commas bs) <= fuel)%nat ->
  Z.of_nat (length dest + length bs) <= maxlen ->
  parse_hex_loop fuel maxlen dest (commas bs ++ p) = Some (dest ++ bs, after_line p).
Proof.
  intros Hbs Hne Hp. revert fuel dest. induction bs as [| b bs IH]; intros fuel dest Hf Hm; [done |].
  apply Forall_cons in Hbs as [Hb Hbs]. destruct (fmt_byte b Hb) as (ds & Ef & Hv & Hds & Hl).
  assert (Hfirst : forall q, isxdigit (at_ q) = false -> at_ q <> 0x78 -> at_ q <> 0x58 ->
    isxdigit (at_ (fmt 16 2 b ++ q)) = true /\ strtoul16 (fmt 16 2 b ++ q) = (b, q)).
  { intros q Hq1 Hq2 Hq3. rewrite Ef. split.
    - destruct ds as [| d ds]; [done |]. apply Forall_cons in Hds as [Hd _]. cbn. by apply digit_hex.
    - rewrite strtoul16_digits by (done || lia). by rewrite Hv. }
  assert (Hu : u32 b = b) by (unfold byte in Hb; apply (uwrap_small 32); simpl; lia).
  destruct fuel as [| fuel].
  { exfalso. assert (2 <= length (commas (b :: bs)))%nat; [| lia].
    cbn [commas]. destruct bs; rewrite ?length_app, Ef, length_map; lia. }
  destruct bs as [| b2 bs].
  - cbn [commas] in *. destruct (Hfirst p) as [Hx Hs]; [by destruct Hp as [-> | ->] .. |].
    cbn [parse_hex_loop]. rewrite Hx, Hs. cbn [fst snd]. rewrite Hu.
    replace (0xff <? b) with false by (unfold byte in Hb; lia).
    replace (maxlen <=? Z.of_nat (length dest)) with false by (simpl in Hm; lia).
    destruct Hp as [-> | ->]; cbn; destruct fuel; done.
  - set (rest := b2 :: bs) in *. change (commas (b :: rest)) with (fmt 16 2 b ++ COMMA :: commas rest) in *.
    rewrite <- app_assoc. cbn [app] in *. destruct (Hfirst (COMMA :: commas rest ++ p)) as [Hx Hs]; [done .. |].
    cbn [parse_hex_loop]. rewrite Hx, Hs. cbn [fst snd]. rewrite Hu.
    replace (0xff <? b) with false by (unfold byte in Hb; lia).
    replace (maxlen <=? Z.of_nat (length dest)) with false by (simpl in Hm; lia).
    change (skip_space (COMMA :: commas rest ++ p)) with (COMMA :: commas rest ++ p). cbn [at_].
    change (COMMA =? COMMA) with true. cbn [tail].
    assert (Hnext : isspace (at_ (commas rest ++ p)) = false).
    { pose proof Hbs as [Hb2 _]%Forall_cons. destruct (fmt_byte b2 Hb2) as (ds2 & Ef2 & _ & Hds2 & Hl2).
      destruct ds2 as [| d2 ds2]; [done |]. apply Forall_cons in Hds2 as [Hd2 _].
      assert (at_ (commas rest ++ p) = digit d2) as ->.
      { unfold rest. cbn [commas]. destruct bs; rewrite Ef2; done. }
      by apply digit_not_space. }
    rewrite skip_space_none by done. rewrite IH; [by rewrite <- app_assoc | done | done | |].
    + rewrite length_app, Ef, length_map in Hf. cbn [length] in Hf. lia.
    + rewrite length_app. simpl in *. lia.
Qed.

(** The first line of the digits, and the bytes left for the next ones. *)
Lemma dump_bytes_chunk count bs :
  bs <> [] -> exists c rest, bs = c ++ rest /\ c <> [] /\
    dump_bytes count bs = commas c ++
      match rest with
      | [] => []
      | _ => [COMMA; BACKSLASH; NEWLINE; 0x20; 0x20] ++ dump_bytes 2 rest
      end.
Proof.
  revert count. induction bs as [| b [| b2 bs] IH]; intros count Hne; [done | |].
  - exists [b], []. cbn. by rewrite app_nil_r.
  - set (rest := b2 :: bs) in *. change (dump_bytes count (b :: rest)) with
      (fmt 16 2 b ++ COMMA :: (if 76 <? count + 2 + 1
                               then [BACKSLASH; NEWLINE; 0x20; 0x20] ++ dump_bytes 2 rest
                               else dump_bytes (count + 2 + 1) rest)).
    destruct (76 <? count + 2 + 1).
    + exists [b], rest. done.
    + destruct (IH (count + 2 + 1)) as (c & r & Er & Hc & ->); [done |].
      exists (b :: c), r. rewrite Er. split_and!; [done | done |].
      destruct c as [| x c]; [done |]. cbn [commas app]. by rewrite <- app_assoc.
Qed.

Lemma commas_printable bs : Forall byte bs -> Forall printable (commas bs).
Proof.
  induction bs as [| b bs IH]; intros Hb; [constructor |]. apply Forall_cons in Hb as [Hb Hbs].
  assert (Hp : Forall printable (fmt 16 2 b)).
  { unfold byte in Hb. apply (fmt_printable 16 2 b 2); [lia | lia | lia | simpl; lia | lia]. }
  destruct bs as [| b2 bs]; [done |]. change (commas (b :: b2 :: bs)) with (fmt 16 2 b ++ COMMA :: commas (b2 :: bs)).
  apply Forall_app. split; [done |]. apply Forall_cons. split; [done | by apply IH].
Qed.

Lemma commas_first bs p :
  Forall byte bs -> bs <> [] -> exists d, 0 <= d < 16 /\ at_ (commas bs ++ p) = digit d.
Proof.
  intros Hbs Hne. destruct bs as [| b bs]; [done |]. apply Forall_cons in Hbs as [Hb _].
  destruct (fmt_byte b Hb) as (ds & Ef & _ & Hds & Hl). destruct ds as [| d ds]; [done |].
  apply Forall_cons in Hds as [Hd _]. exists d. split; [done |]. cbn [commas]. destruct bs; rewrite Ef; done.
Qed.

Lemma commas_length bs : Forall byte bs -> (2 * length bs <= length (commas bs))%nat.
Proof.
  induction bs as [| b bs IH]; intros Hb; [done |]. apply Forall_cons in Hb as [Hb Hbs].
  destruct (fmt_byte b Hb) as (ds & Ef & _ & _ & Hl). specialize (IH Hbs).
  destruct bs as [| b2 bs]; cbn [commas] in *; rewrite ?length_app, Ef, length_map, Hl; cbn [length] in *; lia.
Qed.

(** ** Reading lines *)

Lemma until_nul_none l : Forall (fun c => c <> 0) l -> until_nul l = l.
Proof. induction 1 as [| c l Hc _ IH]; [done |]. cbn. by rewrite (proj2 (Z.eqb_neq c 0)), IH. Qed.

Lemma printable_until_nul l n : Forall printable l -> until_nul (l ++ repeat NEWLINE n) = l ++ repeat NEWLINE n.
Proof.
  intros Hl. apply until_nul_none, Forall_app. split.
  - eapply Forall_impl; [exact Hl |]. unfold printable. intros; lia.
  - apply Forall_forall. by intros x ->%list_elem_of_In%repeat_spec.
Qed.

Lemma printable_last l : Forall printable l -> default 0 (last l) <> 13 /\ default 0 (last l) <> NEWLINE.
Proof.
  intros Hl. destruct (last l) as [c |] eqn:El; [| done]. apply last_Some_elem_of in El.
  rewrite Forall_forall in Hl. apply Hl in El. unfold printable, NEWLINE in *. cbn. lia.
Qed.

(** A line that fits is taken whole; of a longer one the buffer is filled. *)
Lemma fgets_line n L T :
  Forall printable L ->
  fgets n (L ++ NEWLINE :: T) =
  if (n <=? length L)%nat then (take n L, drop n L ++ NEWLINE :: T) else (L ++ [NEWLINE], T).
Proof.
  intros HL. revert n. induction HL as [| c L Hc HL IH]; intros [| n]; [done | done | done |].
  cbn [app fgets length take drop Nat.leb]. unfold printable in Hc.
  replace (c =? NEWLINE) with false by (unfold NEWLINE; lia). rewrite IH. by destruct (n <=? length L)%nat.
Qed.

(** What loading a value leaves alone until it writes it. *)
Definition undisturbed (s s' : loader) : Prop := rg_key (ld_rg s') = rg_key (ld_rg s) /\ ld_len s <= ld_len s'.

#[local] Instance undisturbed_trans : Transitive undisturbed.
Proof. intros s1 s2 s3 [H1 H2] [H3 H4]. split; [congruence | lia]. Qed.

#[local] Instance undisturbed_refl : Reflexive undisturbed.
Proof. intros s. by split. Qed.

Section Load.
Context (alloc_ok : nat -> bool) (Halloc : forall n, alloc_ok n = true).

Lemma read_loop_line fuel buf L T s :
  Forall printable buf -> Forall printable L -> ld_text s = L ++ NEWLINE :: T ->
  2 <= ld_len s -> Z.of_nat (length buf) < ld_len s - 1 -> (length L < fuel)%nat ->
  exists s', read_loop alloc_ok fuel buf s = (Line (buf ++ L), s') /\ undisturbed s s' /\ ld_text s' = T.
Proof.
  revert buf L s. induction fuel as [| fuel IH]; intros buf L s Hbuf HL Ht Hlen Hb Hf; [lia |].
  cbn [read_loop]. rewrite bind_run. cbn [mget fst snd]. rewrite Ht.
  destruct (L ++ NEWLINE :: T) eqn:E; [by destruct L |]. rewrite <- E. clear E.
  set (n := Z.to_nat (ld_len s - Z.of_nat (length buf) - 1)). rewrite bind_run. cbn [mmodify fst snd].
  rewrite fgets_line by done. destruct (Nat.leb_spec n (length L)) as [Hn | Hn]; cbn [fst snd].
  - assert (Hline : Forall printable (buf ++ take n L)) by (apply Forall_app; split; [done | by apply Forall_take]).
    pose proof (printable_until_nul _ 0 Hline) as Hu. cbn [repeat] in Hu. rewrite app_nil_r in Hu. rewrite Hu.
    assert (Hll : Z.of_nat (length (buf ++ take n L)) = ld_len s - 1)
      by (rewrite length_app, length_take; unfold n in *; lia).
    destruct (printable_last _ Hline) as [_ Hnl].
    destruct (last (buf ++ take n L)) as [c |] eqn:El; [| apply last_None in El; rewrite El in Hll; simpl in Hll; lia].
    change (c <> NEWLINE) in Hnl. rewrite (proj2 (Z.eqb_neq c NEWLINE)) by done. rewrite Hll.
    replace (ld_len s - 1 <? ld_len s - 1) with false by lia. rewrite bind_run. cbn [on_rg fst snd set_text ld_rg].
    destruct (rg_mem_alloc_run alloc_ok (ld_rg s)) as (Hk & _ & H').
    destruct (rg_mem_alloc alloc_ok (ld_rg s)) as [ok rg']. cbn [fst snd] in *.
    destruct H' as [[-> _] | (_ & _ & [m Hm])]; [| by rewrite Halloc in Hm]. cbn [negb]. rewrite bind_run.
    cbn [mmodify fst snd set_len ld_rg ld_text ld_tmplen ld_len].
    pose proof (Z.div_le_lower_bound (ld_len s) 2 1 ltac:(lia) ltac:(lia)) as Hhalf.
    destruct (IH (buf ++ take n L) (drop n L)
      (mkLoader rg' (drop n L ++ NEWLINE :: T) (ld_tmplen s) (ld_len s + ld_len s / 2))) as (s' & E' & [Hk' Hl'] & Ht');
      [done | by apply Forall_drop | reflexivity | cbn [ld_len]; lia | cbn [ld_len]; lia | |].
    { rewrite length_drop. unfold n in *. lia. }
    exists s'. rewrite <- app_assoc, take_drop in E'. split_and!; [exact E' | | done].
    cbn [ld_rg ld_len] in *. split; [congruence | lia].
  - rewrite app_assoc. assert (Hline : Forall printable (buf ++ L)) by by apply Forall_app.
    pose proof (printable_until_nul _ 1 Hline) as Hu. cbn [repeat] in Hu. rewrite Hu, last_snoc.
    change (NEWLINE =? NEWLINE) with true. cbv iota. rewrite removelast_last.
    destruct (printable_last _ Hline) as [H13 _]. replace (_ =? 13) with false by lia. by eexists.
Qed.

Lemma read_line_printable L T s :
  Forall printable L -> ld_text s = L ++ NEWLINE :: T -> 2 <= ld_len s ->
  exists s', read_next_line alloc_ok s = (Line L, s') /\ undisturbed s s' /\ ld_text s' = T.
Proof.
  intros HL Ht Hlen. unfold read_next_line. rewrite bind_run. cbn [mget fst snd].
  apply (read_loop_line _ []); [constructor | done | done | done | simpl; lia |].
  rewrite Ht, length_app. cbn [length]. lia.
Qed.

Lemma tmp_space_ok size s :
  let r := get_file_tmp_space alloc_ok size s in
  r.1 = true /\ undisturbed s r.2 /\ ld_text r.2 = ld_text s /\ size <= ld_tmplen r.2.
Proof.
  unfold get_file_tmp_space. rewrite bind_run. cbn [mget fst snd].
  destruct (Z.leb_spec size (ld_tmplen s)); [by split_and! |]. rewrite bind_run. cbn [on_rg fst snd].
  destruct (rg_mem_alloc_run alloc_ok (ld_rg s)) as (Hk & _ & H').
  destruct (rg_mem_alloc alloc_ok (ld_rg s)) as [ok rg']. cbn [fst snd] in *.
  destruct H' as [[-> _] | (_ & _ & [n Hn])]; [| by rewrite Halloc in Hn].
  cbn. split_and!; [done | by split | done | lia].
Qed.

Lemma load_hex_empty fuel data s :
  exists s', load_hex alloc_ok (S fuel) data [] s = (Loaded data, s') /\
    undisturbed s s' /\ ld_text s' = ld_text s.
Proof.
  cbn [load_hex]. rewrite bind_run.
  destruct (tmp_space_ok (Z.of_nat (length data) + (1 + Z.of_nat (length (@nil Z)) / 2)) s) as (H1 & H2 & H3 & _).
  rewrite H1. cbn. rewrite app_nil_r. by eexists.
Qed.

(** The digits of a value, over as many lines as they take. *)
Lemma load_hex_ok n count bs :
  (length bs <= n)%nat -> Forall byte bs -> bs <> [] ->
  exists L R, dump_bytes count bs ++ [NEWLINE] = L ++ NEWLINE :: R /\ Forall printable L /\
    isspace (at_ L) = false /\
    forall s data fuel tail, ld_text s = R ++ tail -> 2 <= ld_len s -> (length R < fuel)%nat ->
      exists s', load_hex alloc_ok fuel data L s = (Loaded (data ++ bs), s') /\
        undisturbed s s' /\ ld_text s' = tail.
Proof.
  revert count bs. induction n as [| n IH]; intros count bs Hn Hbs Hne; [by destruct bs; [| simpl in Hn; lia] |].
  destruct (dump_bytes_chunk count bs Hne) as (c & rest & Eb & Hc & ->).
  rewrite Eb in Hbs. apply Forall_app in Hbs as [Hcb Hrb]. pose proof (commas_printable c Hcb) as Hcp.
  assert (Hparse : forall p, line_end p ->
    parse_hex_bytes (1 + Z.of_nat (length (commas c ++ p)) / 2) (commas c ++ p) = Some (c, after_line p)).
  { intros p Hp. unfold parse_hex_bytes. apply (parse_hex_line c _ _ [] p Hcb Hc Hp).
    - rewrite length_app. lia.
    - pose proof (commas_length c Hcb). rewrite length_app. cbn [length plus].
      pose proof (Z.div_le_lower_bound (Z.of_nat (length (commas c) + length p)) 2 (Z.of_nat (length c))). lia. }
  destruct rest as [| r0 rest].
  - exists (commas c), []. rewrite !app_nil_r in *. split_and!; [done | done | |].
    { destruct (commas_first c [] Hcb Hc) as (d & Hd & E). rewrite app_nil_r in E. rewrite E. by apply digit_not_space. }
    intros s data fuel tail Ht Hlen Hf. destruct fuel as [| fuel]; [simpl in Hf; lia |]. cbn [load_hex]. rewrite bind_run.
    destruct (tmp_space_ok (Z.of_nat (length data) + (1 + Z.of_nat (length (commas c)) / 2)) s) as (H1 & H2 & H3 & _).
    rewrite H1. cbn [negb]. specialize (Hparse [] (or_introl eq_refl)). rewrite app_nil_r in Hparse. rewrite Hparse.
    cbn. rewrite Eb. eexists. split_and!; [done | done |]. by rewrite H3, Ht.
  - set (rs := r0 :: rest) in *.
    destruct (IH 2 rs) as (L & R & EL & HL & Hsp & Hload); [| done | done |].
    { rewrite Eb, length_app in Hn. destruct c; [done |]. cbn [length] in Hn. lia. }
    exists (commas c ++ [COMMA; BACKSLASH]), ([0x20; 0x20] ++ L ++ NEWLINE :: R). split_and!.
    + rewrite <- !app_assoc. cbn [app]. rewrite <- EL. done.
    + apply Forall_app. split; [done |]. by repeat constructor.
    + destruct (commas_first c [COMMA; BACKSLASH] Hcb Hc) as (d & Hd & ->). by apply digit_not_space.
    + intros s data fuel tail Ht Hlen Hf. destruct fuel as [| fuel]; [lia |]. cbn [load_hex]. rewrite bind_run.
      destruct (tmp_space_ok (Z.of_nat (length data) + (1 + Z.of_nat (length (commas c ++ [COMMA; BACKSLASH])) / 2)) s)
        as (H1 & H2 & H3 & _).
      rewrite H1. cbn [negb]. rewrite (Hparse _ (or_intror eq_refl)).
      set (s1 := (get_file_tmp_space alloc_ok _ s).2) in *. clearbody s1.
      change (skip_space (after_line [COMMA; BACKSLASH])) with [BACKSLASH]. cbn [at_].
      change (BACKSLASH =? 0) with false. change (BACKSLASH =? BACKSLASH) with true. cbn [negb].
      rewrite bind_run.
      destruct (read_line_printable (0x20 :: 0x20 :: L) (R ++ tail) s1) as (s2 & -> & Hk2 & Ht2).
      { by repeat apply Forall_cons_2. }
      { rewrite H3, Ht, <- !app_assoc. done. }
      { destruct H2 as [_ ?]. lia. }
      cbn [fst snd]. change (skip_space (0x20 :: 0x20 :: L)) with (skip_space L). rewrite skip_space_none by done.
      destruct (Hload s2 (data ++ c) fuel tail) as (s' & -> & Hk & Htx); [done | | |].
      { destruct H2 as [_ ?], Hk2 as [_ ?]. lia. }
      { cbn [length] in Hf. rewrite !length_app in Hf. cbn [length] in Hf. lia. }
      exists s'. rewrite Eb, <- app_assoc. split_and!; [done | | done]. by do 2 (etrans; [eassumption |]).
Qed.

(** ** The data of a value *)

Lemma units_bytes_units bs n :
  (length bs <= n)%nat -> Forall byte bs -> Z.of_nat (length bs) mod 2 = 0 ->
  units_bytes (bytes_units bs) = bs /\ Forall unit16 (bytes_units bs).
Proof.
  revert bs. induction n as [| n IH]; intros [| lo [| hi bs]] Hn Hb He; try done; [simpl in Hn; lia |].
  apply Forall_cons in Hb as [Hlo [Hhi Hb]%Forall_cons]. unfold byte in Hlo, Hhi.
  destruct (IH bs) as [IH1 IH2]; [simpl in Hn; lia | done | |].
  { cbn [length] in He. rewrite !Nat2Z.inj_succ in He.
    replace (Z.succ (Z.succ (Z.of_nat (length bs)))) with (Z.of_nat (length bs) + 1 * 2) in He by lia.
    by rewrite Z.mod_add in He by lia. }
  cbn [bytes_units]. unfold units_bytes in *. cbn [flat_map app]. rewrite IH1. split.
  - f_equal; [| f_equal].
    + rewrite Z.add_comm, (Z.mul_comm 256), Z.add_comm, Z.mod_add by lia. apply Z.mod_small. lia.
    + rewrite (Z.mul_comm 256), Z.div_add by lia. rewrite Z.div_small by lia. done.
  - constructor; [| done]. unfold unit16. lia.
Qed.

Lemma terminated_ok data us :
  Forall byte data -> terminated data = Some us -> Forall unit16 us /\ units_bytes (us ++ [0]) = data.
Proof.
  intros Hb. unfold terminated. destruct (_ || _) eqn:E; [done |].
  destruct (units_bytes_units data (length data)) as [Hu Hf]; [done | done | lia |].
  destruct (Z.eqb_spec (default 0 (last (bytes_units data))) 0) as [E0 | E0]; [| done]. intros [= <-].
  destruct (bytes_units data) as [| u us] eqn:Eu.
  { exfalso. destruct data as [| a [| b data]]; [done | simpl in E; lia | done]. }
  rewrite <- Eu in *. destruct (last_is_Some (bytes_units data)) as [_ Hlast].
  destruct Hlast as [x Hx]; [by rewrite Eu |]. rewrite Hx in E0. cbn in E0. subst x.
  apply last_Some in Hx as [l' El]. rewrite El in *. rewrite removelast_last.
  apply Forall_app in Hf as [? _]. done.
Qed.

Lemma quote_ok : escape_ok QUOTE.
Proof. unfold escape_ok. split_and!; done. Qed.

(** The first line of the data, how it is parsed, and that it is read back. *)
Definition data_loads (v : key_value) (D : list Z) : Prop :=
  exists L R pt p, D = L ++ NEWLINE :: R /\ Forall printable L /\ isspace (at_ L) = false /\
    get_data_type L = Some (v_type v, pt, p) /\
    forall s tail, ld_text s = R ++ tail -> 2 <= ld_len s ->
      exists s', load_data alloc_ok pt p s = (Loaded (v_data v), s') /\
        undisturbed s s' /\ ld_text s' = tail.

Record value_ok (v : key_value) : Prop := mkValueOk {
  vo_name : Forall unit16 (v_name v);
  vo_len : namelen (v_name v) <= MAX_VALUE_LEN * 2;
  vo_type : 0 <= v_type v < 2 ^ 32;
  vo_data : Forall byte (v_data v)
}.

Lemma string_tag (type : Z) p :
  type = REG_SZ \/ type = REG_EXPAND_SZ \/ type = REG_MULTI_SZ ->
  let tag := if type =? REG_SZ then [] else tag_str_type ++ fmt 16 0 type ++ tag_close in
  Forall printable tag /\ isspace (at_ (tag ++ [QUOTE] ++ p)) = false /\
  get_data_type (tag ++ [QUOTE] ++ p) = Some (type, P_string, p).
Proof.
  intros Ht. cbv zeta. destruct Ht as [-> | [-> | ->]]; split_and!;
    try (vm_compute; repeat constructor; discriminate); try reflexivity.
Qed.

Lemma string_loads count v us :
  value_ok v -> is_string_type (v_type v) = true -> terminated (v_data v) = Some us ->
  exists D, dump_data count v = Some D /\ data_loads v D.
Proof.
  intros [_ _ _ Hd] Ht Hus. destruct (terminated_ok _ _ Hd Hus) as [Hu Hb]. unfold dump_data.
  rewrite Ht, Hus, dump_strW_text by done. cbn [mbind option_bind]. eexists. split; [done |].
  assert (Htype : v_type v = REG_SZ \/ v_type v = REG_EXPAND_SZ \/ v_type v = REG_MULTI_SZ)
    by (unfold is_string_type in Ht; lia).
  destruct (string_tag (v_type v) (dump_text QUOTE QUOTE us ++ [QUOTE]) Htype) as (H1 & H2 & H3).
  set (tag := if v_type v =? REG_SZ then _ else _) in *.
  exists (tag ++ [QUOTE] ++ dump_text QUOTE QUOTE us ++ [QUOTE]), [], P_string, (dump_text QUOTE QUOTE us ++ [QUOTE]).
  split_and!; [by rewrite <- !app_assoc | | done | done |].
  - apply Forall_app. split; [done |]. apply Forall_cons. split; [done |].
    apply Forall_app. split; [by apply dump_text_printable | by apply Forall_singleton].
  - intros s tail Hs Hlen_s. cbn [load_data]. rewrite bind_run.
    destruct (tmp_space_ok (2 * Z.of_nat (length (dump_text QUOTE QUOTE us ++ [QUOTE]))) s) as (E1 & E2 & E3 & E4).
    rewrite E1. cbn [negb]. set (s1 := (get_file_tmp_space alloc_ok _ s).2) in *. clearbody s1.
    rewrite bind_run. cbn [mget fst snd]. pose proof (dump_text_length QUOTE QUOTE us Hu) as Hdl. rewrite length_app in E4. cbn [length] in E4.
    rewrite (parse_dump_text us QUOTE QUOTE QUOTE _ []); [| done | apply quote_ok | apply quote_ok | by left | lia].
    cbn [mreturn fst snd]. replace (_ =? -1) with false by lia. rewrite Hb. eexists.
    split_and!; [done | done |]. by rewrite E3, Hs.
Qed.

Lemma dword_loads count v dw :
  value_ok v -> v_type v = REG_DWORD -> dword_of (v_data v) = Some dw ->
  exists D, dump_data count v = Some D /\ data_loads v D.
Proof.
  intros [_ _ _ Hd] Ht Hdw. unfold dump_data. rewrite Ht. change (is_string_type REG_DWORD) with false.
  change (REG_DWORD =? REG_DWORD) with true. cbv iota. rewrite Hdw. eexists. split; [done |].
  destruct (v_data v) as [| b0 [| b1 [| b2 [| b3 [|]]]]] eqn:Ed; try done. injection Hdw as <-.
  apply Forall_cons in Hd as [H0 [H1 [H2 [H3 _]%Forall_cons]%Forall_cons]%Forall_cons]. unfold byte in *.
  set (dw := b0 + 256 * b1 + 65536 * b2 + 16777216 * b3).
  assert (Hr : 0 <= dw < 2 ^ 32) by (unfold dw; lia).
  destruct (fmt_spec 16 8 dw 8) as (ds & Ef & Hv & Hds & Hl & _); [lia | lia | lia | simpl; lia | lia |].
  exists (tag_dword ++ fmt 16 8 dw), [], P_dword, (fmt 16 8 dw). split_and!.
  - by rewrite <- app_assoc.
  - apply Forall_app. split; [by repeat constructor |]. rewrite Ef. by apply (digits_printable 16).
  - done.
  - rewrite Ht. done.
  - intros s tail Hs Hlen_s. cbn [load_data]. rewrite Ef.
    pose proof (strtoul16_digits ds [] Hds ltac:(lia) eq_refl ltac:(done) ltac:(done)) as Hst.
    rewrite app_nil_r in Hst. rewrite Hst. cbn [fst]. rewrite Hv, (uwrap_small 32) by lia. cbn [mreturn].
    eexists. split_and!; [| done | by rewrite Hs]. do 2 f_equal. rewrite Ed.
    assert (E0 : dw mod 256 = b0) by (unfold dw; symmetry; apply (Zmod_unique _ 256 (b1 + 256 * b2 + 65536 * b3)); lia).
    assert (E1 : dw / 256 = b1 + 256 * b2 + 65536 * b3)
      by (unfold dw; symmetry; apply (Zdiv_unique _ 256 _ b0); lia).
    assert (E2 : dw / 65536 = b2 + 256 * b3)
      by (unfold dw; symmetry; apply (Zdiv_unique _ 65536 _ (b0 + 256 * b1)); lia).
    assert (E3 : dw / 16777216 = b3)
      by (unfold dw; symmetry; apply (Zdiv_unique _ 16777216 _ (b0 + 256 * b1 + 65536 * b2)); lia).
    rewrite E0, E1, E2, E3. do 2 f_equal; [| f_equal].
    + symmetry. apply (Zmod_unique _ 256 (b2 + 256 * b3)); lia.
    + symmetry. apply (Zmod_unique _ 256 b3); lia.
Qed.

Lemma hex_tag (type : Z) p :
  0 <= type < 2 ^ 32 ->
  let tag := if type =? REG_BINARY then tag_hex else tag_hex_type ++ fmt 16 0 type ++ tag_close in
  Forall printable tag /\ isspace (at_ (tag ++ p)) = false /\
  get_data_type (tag ++ p) = Some (type, P_binary, p).
Proof.
  intros Ht. cbv zeta. destruct (Z.eqb_spec type REG_BINARY) as [-> | Hne].
  { split_and!; [by repeat constructor | done | done]. }
  destruct (fmt_spec 16 0 type 8) as (ds & Ef & Hv & Hds & Hl & _);
    [lia | lia | lia | change (16 ^ Z.of_nat 8) with (2 ^ 32); lia | lia |].
  split_and!.
  - apply Forall_app. split; [by repeat constructor |]. apply Forall_app.
    split; [rewrite Ef; by apply (digits_printable 16) | by repeat constructor].
  - done.
  - rewrite Ef, <- !app_assoc. unfold get_data_type.
    replace (starts_with tag_hex_type (tag_hex_type ++ map digit ds ++ tag_close ++ p)) with true
      by (symmetry; by apply bool_decide_eq_true_2).
    change (drop 4 (tag_hex_type ++ map digit ds ++ tag_close ++ p)) with (map digit ds ++ tag_close ++ p).
    rewrite (strtoul16_digits ds (tag_close ++ p) Hds ltac:(lia) eq_refl ltac:(done) ltac:(done)).
    cbn [fst snd]. rewrite Hv, (uwrap_small 32) by lia. reflexivity.
Qed.

Lemma hex_loads count v :
  value_ok v -> data_loads v (dump_hex count v).
Proof.
  intros [_ _ Ht Hd]. unfold dump_hex. set (tag := if v_type v =? REG_BINARY then tag_hex else _).
  assert (Htag : forall p, Forall printable tag /\ isspace (at_ (tag ++ p)) = false /\
    get_data_type (tag ++ p) = Some (v_type v, P_binary, p)) by (intros p; by apply hex_tag).
  destruct (v_data v) as [| b bs] eqn:Ed.
  - destruct (Htag []) as (H1 & H2 & H3). rewrite app_nil_r in *.
    exists tag, [], P_binary, []. split_and!; [done | done | done | done |].
    intros s tail Hs Hlen_s. cbn [load_data]. rewrite bind_run. cbn [mget fst snd].
    destruct (load_hex_empty (length (ld_text s)) [] s) as (s' & -> & Hk & Htx).
    exists s'. rewrite Ed, Htx, Hs. done.
  - rewrite <- Ed in *. destruct (load_hex_ok (length (v_data v)) (count + Z.of_nat (length tag)) (v_data v))
      as (L & R & EL & HL & _ & Hload); [done | done | by rewrite Ed |].
    destruct (Htag L) as (H1 & H2 & H3).
    exists (tag ++ L), R, P_binary, L. split_and!; [by rewrite EL, <- app_assoc | by apply Forall_app | done | done |].
    intros s tail Hs Hlen_s. cbn [load_data]. rewrite bind_run. cbn [mget fst snd].
    apply Hload; [done | done |]. rewrite Hs, length_app. lia.
Qed.

Lemma dump_data_loads count v :
  value_ok v -> exists D, dump_data count v = Some D /\ data_loads v D.
Proof.
  intros Hv. destruct (is_string_type (v_type v)) eqn:Es.
  - destruct (terminated (v_data v)) as [us |] eqn:Eu; [by apply (string_loads count v us) |].
    exists (dump_hex count v). split; [| by apply hex_loads]. unfold dump_data. rewrite Es, Eu.
    destruct (Z.eqb_spec (v_type v) REG_DWORD) as [E |]; [by rewrite E in Es | done].
  - destruct (Z.eqb_spec (v_type v) REG_DWORD) as [E | E].
    + destruct (dword_of (v_data v)) as [dw |] eqn:Ew; [by apply (dword_loads count v dw) |].
      exists (dump_hex count v). split; [| by apply hex_loads]. unfold dump_data. rewrite Es, E, Ew. done.
    + exists (dump_hex count v). split; [| by apply hex_loads]. unfold dump_data. rewrite Es.
      by replace (v_type v =? REG_DWORD) with false by lia.
Qed.
End Load.
