(* ===== verification/RegTextTheorems.v ===== *)
(** * What registry files promise

    A value written to a file by [dump_value] is loaded again by [load_value], whatever
    its type and data and whatever follows in the file. *)

From stdpp Require Import base list gmap.
From Stdlib Require Import ZArith Lia ZifyBool.
From S2P Require Import Prelude Atom AtomProofs AtomTheorems StrText StrTextProofs RegValue.
From S2P Require Import RegValueProofs RegValueTheorems RegText RegTextProofs.

Open Scope Z_scope.

(** The head of a line, with the name. *)
Definition dump_head (name : list Z) : list Z :=
  if namelen name =? 0 then [0x40; 0x3d]
  else [QUOTE] ++ dump_text QUOTE QUOTE name ++ [QUOTE; 0x3d].

Lemma dump_value_eq v :
  value_ok v -> exists count, dump_value v = (D ← dump_data count v; Some (dump_head (v_name v) ++ D)).
Proof.
  intros [Hn _ _ _]. unfold dump_value, dump_head. destruct (namelen (v_name v) =? 0).
  - exists 2. done.
  - rewrite dump_strW_text by done. cbn [mbind option_bind]. eexists. done.
Qed.

Lemma dump_head_printable name : Forall unit16 name -> Forall printable (dump_head name).
Proof.
  intros Hn. unfold dump_head. destruct (namelen name =? 0); [by repeat constructor |].
  apply Forall_cons. split; [done |]. apply Forall_app.
  split; [by apply dump_text_printable | by repeat constructor].
Qed.

Lemma parse_name_head tmplen name L :
  Forall unit16 name -> 2 * Z.of_nat (length (dump_head name ++ L)) <= tmplen ->
  parse_name tmplen (dump_head name ++ L) = Some (name, 0x3d :: L).
Proof.
  intros Hn Ht. unfold dump_head in *. destruct (Z.eqb_spec (namelen name) 0) as [E | E].
  { assert (name = []) as -> by (apply nil_length_inv; unfold namelen in E; lia). done. }
  pose proof (dump_text_length QUOTE QUOTE name Hn) as Hl.
  unfold parse_name. rewrite <- !app_assoc in *. cbn [app at_ drop] in *.
  change (QUOTE =? 0x40) with false. cbv iota. rewrite drop_0.
  rewrite (parse_dump_text name QUOTE QUOTE QUOTE tmplen (0x3d :: L));
    [| done | apply quote_ok | apply quote_ok | by left |].
  2:{ cbn [length] in Ht. rewrite length_app in Ht. cbn [length] in Ht. lia. }
  cbn [mbind option_bind]. replace (_ =? -1) with false by lia. rewrite removelast_last. do 2 f_equal.
  replace (Z.to_nat _) with (S (length (dump_text QUOTE QUOTE name) + 1)) by lia. cbn [drop].
  rewrite drop_app_ge by lia. by replace (_ + 1 - _)%nat with 1%nat by lia.
Qed.

Section Load.
Context (casemap : Z -> Z) (alloc_ok : nat -> bool) (junk : Z).
Context (Halloc : forall n, alloc_ok n = true).

Lemma no_refusal : ~ refused_memory alloc_ok.
Proof. intros [n Hn]. by rewrite Halloc in Hn. Qed.

(** The name of a line is found or inserted. *)
Lemma parse_value_name_ok name L s m :
  Forall unit16 name -> namelen name <= MAX_VALUE_LEN * 2 -> isspace (at_ L) = false ->
  represents casemap (rg_key (ld_rg s)) m ->
  exists index s', parse_value_name casemap alloc_ok junk (dump_head name ++ L) s = (Some (index, L), s') /\
    ld_text s' = ld_text s /\ ld_len s <= ld_len s' /\
    forall type data, represents casemap (written index type data (rg_key (ld_rg s')))
      (<[lower casemap name := mkValue (match m !! lower casemap name with Some v => v_name v | None => name end)
                                       type data]> m).
Proof.
  intros Hn Hlen HL Hrep. unfold parse_value_name. rewrite bind_run.
  destruct (tmp_space_ok alloc_ok Halloc (2 * Z.of_nat (length (dump_head name ++ L))) s) as (E1 & [E2 El] & E3 & E4).
  rewrite E1. cbn [negb]. set (s1 := (get_file_tmp_space alloc_ok _ s).2) in *. clearbody s1.
  rewrite bind_run. cbn [mget fst snd]. rewrite parse_name_head by done.
  change (skip_space (0x3d :: L)) with (0x3d :: L). cbn [at_ tail]. change (0x3d =? 0x3d) with true. cbn [negb].
  rewrite skip_space_none by done. rewrite <- E2 in Hrep.
  assert (Hs : short name) by (unfold short, namelen, MAX_VALUE_LEN in *; lia).
  destruct (slot_spec casemap alloc_ok junk name (ld_rg s1) m Hrep Hs) as [_ Hslot].
  destruct (find_in casemap (rg_key (ld_rg s1)) name) as [found index]. cbn [fst snd] in *. rewrite bind_run.
  set (g := (if found then mreturn (Some index) else insert_value alloc_ok junk name index) (ld_rg s1)) in *.
  assert (Eg : (if found then mreturn (Some index) else on_rg (insert_value alloc_ok junk name index)) s1 =
               (g.1, mkLoader g.2 (ld_text s1) (ld_tmplen s1) (ld_len s1))).
  { unfold g. destruct found; [by destruct s1 | done]. }
  rewrite Eg. destruct g as [slot rg']. cbn [fst snd] in *. destruct Hslot as [(-> & _ & Herr) | (-> & Hw)].
  { exfalso. destruct Herr as [[_ Hno] | (_ & Hl & _)]; [by apply no_refusal in Hno | lia]. }
  cbn [mreturn]. exists index, (mkLoader rg' (ld_text s1) (ld_tmplen s1) (ld_len s1)). by split_and!.
Qed.

Lemma load_line_ok v D m :
  value_ok v -> data_loads alloc_ok v D ->
  exists line rest, dump_head (v_name v) ++ D = line ++ NEWLINE :: rest /\ Forall printable line /\
    forall s tail, represents casemap (rg_key (ld_rg s)) m -> ld_text s = rest ++ tail -> 2 <= ld_len s ->
      let r := load_value casemap alloc_ok junk line s in
      r.1 = Some true /\ ld_text r.2 = tail /\
      represents casemap (rg_key (ld_rg r.2))
        (<[lower casemap (v_name v) :=
             mkValue (match m !! lower casemap (v_name v) with Some w => v_name w | None => v_name v end)
                     (v_type v) (v_data v)]> m).
Proof.
  intros [Hn Hlen Htype Hdata] (L & R & pt & p & -> & HL & Hsp & Hget & Hload).
  exists (dump_head (v_name v) ++ L), R. split_and!; [by rewrite <- app_assoc | |].
  { apply Forall_app. split; [by apply dump_head_printable | done]. }
  intros s tail Hrep Hs Hls. cbv zeta. unfold load_value. rewrite bind_run.
  destruct (parse_value_name_ok (v_name v) L s m Hn Hlen Hsp Hrep) as (index & s1 & -> & Ht1 & Hl1 & Hw).
  cbn [fst snd]. rewrite Hget, bind_run.
  destruct (Hload s1 tail) as (s2 & -> & [Hk2 _] & Ht2); [congruence | lia |]. cbn [fst snd]. rewrite bind_run.
  set (g := (if Nat.eqb (length (v_data v)) 0 then mreturn true else on_rg (rg_mem_alloc alloc_ok)) s2).
  assert (Hg : g.1 = true /\ rg_key (ld_rg g.2) = rg_key (ld_rg s2) /\ ld_text g.2 = ld_text s2).
  { unfold g. destruct (Nat.eqb _ 0); [done |]. cbn [on_rg fst snd ld_rg ld_text].
    destruct (rg_mem_alloc_run alloc_ok (ld_rg s2)) as (? & _ & [[? _] | (_ & _ & Hno)]); [done |].
    by apply no_refusal in Hno. }
  destruct g as [ok s3]. cbn [fst snd] in *. destruct Hg as (-> & Hk3 & Ht3). cbn [negb].
  rewrite bind_run. cbn [on_rg write_value mmodify mreturn fst snd ld_rg ld_text upd_key rg_key].
  split_and!; [done | congruence |]. rewrite Hk3, Hk2. apply Hw.
Qed.
End Load.

(** C16: any value with a name of at most [MAX_VALUE_LEN] characters, of any type and with
    any data, is written as lines of text; when the file goes on with these, the next
    line read and the value loaded from it put the value into the key again with its type
    and data, every other value is as before, and reading goes on with what followed. *)
Theorem registry_value_roundtrip casemap alloc_ok junk v m tail :
  (forall n, alloc_ok n = true) -> value_ok v ->
  exists text, dump_value v = Some text /\
    forall s, represents casemap (rg_key (ld_rg s)) m -> ld_text s = text ++ tail -> 2 <= ld_len s ->
      exists line s1 s2, read_next_line alloc_ok s = (Line line, s1) /\
        load_value casemap alloc_ok junk line s1 = (Some true, s2) /\ ld_text s2 = tail /\
        represents casemap (rg_key (ld_rg s2))
          (<[lower casemap (v_name v) :=
               mkValue (match m !! lower casemap (v_name v) with Some w => v_name w | None => v_name v end)
                       (v_type v) (v_data v)]> m).
Proof.
  intros Halloc Hv. destruct (dump_value_eq v Hv) as [count Ed].
  destruct (dump_data_loads alloc_ok Halloc count v Hv) as (D & HD & Hload). rewrite HD in Ed.
  destruct (load_line_ok casemap alloc_ok junk Halloc v D m Hv Hload) as (line & rest & Et & Hline & Hl).
  exists (dump_head (v_name v) ++ D). split; [exact Ed |]. intros s Hrep Hs Hlen.
  rewrite Et, <- app_assoc in Hs. cbn [app] in Hs.
  destruct (read_line_printable alloc_ok Halloc line _ s Hline Hs Hlen) as (s1 & Hr & [Hk Hl1] & Ht).
  destruct (Hl s1 tail) as (H1 & H2 & H3); [by rewrite Hk | done | lia |].
  exists line, s1, (load_value casemap alloc_ok junk line s1).2. split_and!; [done | | done | done].
  rewrite <- H1. by destruct (load_value casemap alloc_ok junk line s1).
Qed.

(** ** Witness *)

Definition demo_value : key_value := mkValue [0x41; 0x5c] 0x80000001 (map Z.of_nat (seq 0 60)).

Lemma registry_value_roundtrip_witness :
  exists text, dump_value demo_value = Some text /\ length text = 208%nat /\
    exists line s1 s2,
      read_next_line (fun _ => true) (mkLoader demo_key (text ++ [0x5b]) 4 4) = (Line line, s1) /\
      load_value demo_casemap (fun _ => true) 0 line s1 = (Some true, s2) /\ ld_text s2 = [0x5b].
Proof.
  destruct (registry_value_roundtrip demo_casemap (fun _ => true) 0 demo_value ∅ [0x5b]) as (text & Hd & Hl).
  - intros n. reflexivity.
  - split; [| vm_compute; discriminate | vm_compute; split; [discriminate | reflexivity] |].
    + unfold demo_value. cbn [v_name]. repeat constructor; lia.
    + unfold demo_value. cbn [v_data]. apply Forall_map, Forall_forall.
      intros x Hx%list_elem_of_In%in_seq. unfold byte. cbn. lia.
  - exists text. split; [exact Hd |]. split; [vm_compute in Hd; injection Hd as <-; reflexivity |].
    destruct (Hl (mkLoader demo_key (text ++ [0x5b]) 4 4)) as (line & s1 & s2 & H1 & H2 & H3 & _);
      [exact (empty_represents demo_casemap 0) | reflexivity | cbn; lia |].
    exists line, s1, s2. by split_and!.
Defined.
