(* ===== verification/Threads.v ===== *)
(** * Sums over threads

    The state of several threads is a list, one entry per thread; a counter in shared
    memory is tied to it by a weight: how much a thread at a program point accounts for. *)

From stdpp Require Import base list.
From Stdlib Require Import ZArith Lia.

Open Scope Z_scope.

Section Total.
Context {A : Type}.
Implicit Types (w : A -> Z) (l : list A).

Definition total w l : Z := foldr (fun a n => w a + n) 0 l.

Lemma total_cons w a l : total w (a :: l) = w a + total w l.
Proof. done. Qed.

(** A step of one thread changes the sum by the difference of its weights. *)
Lemma total_insert w l t p q : l !! t = Some p -> total w (<[t := q]> l) = total w l - w p + w q.
Proof.
  revert t. induction l as [| a l IH]; intros [| t] Ht; try done.
  - injection Ht as ->. cbn. lia.
  - change (w a + total w (<[t := q]> l) = w a + total w l - w p + w q). rewrite (IH _ Ht). lia.
Qed.

Lemma total_nonneg w l : (forall a, 0 <= w a) -> 0 <= total w l.
Proof. intros Hw. induction l as [| a l IH]; [done |]. rewrite total_cons. specialize (Hw a). lia. Qed.

Lemma total_bound w l : (forall a, w a <= 1) -> total w l <= Z.of_nat (length l).
Proof. intros Hw. induction l as [| a l IH]; [done |]. rewrite total_cons. specialize (Hw a). cbn [length]. lia. Qed.

(** Each thread accounts for its share of a sum of nonnegative weights. *)
Lemma total_part w l t p : (forall a, 0 <= w a) -> l !! t = Some p -> w p <= total w l.
Proof.
  intros Hw. revert t. induction l as [| a l IH]; intros [| t] Ht; try done; rewrite total_cons; cbn in Ht.
  - injection Ht as ->. pose proof (total_nonneg w l Hw). lia.
  - specialize (IH _ Ht). specialize (Hw a). lia.
Qed.

Lemma total_pair w l t u p q :
  (forall a, 0 <= w a) -> t <> u -> l !! t = Some p -> l !! u = Some q -> w p + w q <= total w l.
Proof.
  intros Hw. revert t u. induction l as [| a l IH]; intros [| t] [| u] Ne Ht Hu; try done; rewrite total_cons; cbn in Ht, Hu.
  - injection Ht as ->. pose proof (total_part w l u q Hw Hu). lia.
  - injection Hu as ->. pose proof (total_part w l t p Hw Ht). lia.
  - specialize (IH t u ltac:(congruence) Ht Hu). specialize (Hw a). lia.
Qed.

Lemma total_positive w l :
  0 < total w l -> exists t p, l !! t = Some p /\ 0 < w p.
Proof.
  induction l as [| a l IH]; intros H; [done |]. rewrite total_cons in H.
  destruct (Z.lt_ge_cases 0 (w a)) as [Ha | Ha]; [by exists 0%nat, a |].
  destruct IH as (t & p & Ht & Hp); [lia |]. by exists (S t), p.
Qed.

Lemma total_replicate w n a : total w (replicate n a) = Z.of_nat n * w a.
Proof. induction n as [| n IH]; [done |]. cbn [replicate]. rewrite total_cons, IH. lia. Qed.

Lemma total_plus w1 w2 l : total (fun a => w1 a + w2 a) l = total w1 l + total w2 l.
Proof. induction l as [| a l IH]; [done |]. rewrite !total_cons. lia. Qed.

Lemma total_ext w1 w2 l : (forall a, w1 a = w2 a) -> total w1 l = total w2 l.
Proof. intros H. induction l as [| a l IH]; [done |]. by rewrite !total_cons, H, IH. Qed.
End Total.
