(* ===== verification/Futex.v ===== *)
(** * Waiting on addresses

    Models the futexes of [src/dlls/ntdll/sync.c]: [RtlWaitOnAddress],
    [RtlWakeAddressSingle] and [RtlWakeAddressAll] on 256 queues of waiting threads.  A
    thread is a natural number.  What a function does between [spin_lock] and
    [spin_unlock] is one step, since all code takes the lock of the queue first; the rest
    of a call is split where other threads can come between:

    - [wait_begin] compares the memory and queues the thread; then the thread blocks in
      [wait_for_alert], and [wait_end] takes its entry out if nobody else did;
    - [wake_single] and [wake_all] take entries out of the queue and return the threads to
      alert, each of which is a step [alert] of its own.  (For more than 256 threads the
      code alerts some before it gives the lock back; they only see that they were woken.)

    An entry whose [addr] the code has set to null is one that is no longer queued.  The
    alert of a thread is a flag, as the comment in the source says, which
    [NtWaitForAlertByThreadId] waits for and clears. *)

From stdpp Require Import base list gmap.
From Stdlib Require Import ZArith Lia.
From S2P Require Import Prelude.

Open Scope Z_scope.

Definition FX_SUCCESS : Z := 0.
Definition FX_ALERTED : Z := 0x101.
Definition FX_TIMEOUT : Z := 0x102.
Definition FX_INVALID_PARAMETER : Z := 0xC000000D.

Record futex_entry := mkEntry { fe_addr : Z; fe_tid : nat }.

#[export] Instance futex_entry_eq_dec : EqDecision futex_entry.
Proof. solve_decision. Defined.

Record futexes := mkFutexes { fx_queues : gmap Z (list futex_entry); fx_alerts : gset nat }.

Definition get_futex_queue (addr : Z) : Z := Z.shiftr addr 4 mod 256.

Definition queue_at (f : futexes) (addr : Z) : list futex_entry :=
  default [] (fx_queues f !! get_futex_queue addr).

Definition set_queue (addr : Z) (q : list futex_entry) (f : futexes) : futexes :=
  mkFutexes (<[get_futex_queue addr := q]> (fx_queues f)) (fx_alerts f).

(** [mem] is the value at the address, as wide as [size] says. *)
Definition compare_addr (mem cmp size : Z) : bool :=
  if size =? 1 then u8 mem =? u8 cmp
  else if size =? 2 then u16 mem =? u16 cmp
  else if size =? 4 then u32 mem =? u32 cmp
  else if size =? 8 then u64 mem =? u64 cmp
  else false.

(** The first part of [RtlWaitOnAddress]: a status when it returns at once. *)
Definition wait_begin (addr mem cmp size : Z) (t : nat) (f : futexes) : option Z * futexes :=
  if negb (size =? 1) && negb (size =? 2) && negb (size =? 4) && negb (size =? 8)
  then (Some FX_INVALID_PARAMETER, f)
  else if negb (compare_addr mem cmp size) then (Some FX_SUCCESS, f)
  else (None, set_queue addr (queue_at f addr ++ [mkEntry addr t]) f).

(** [NtWaitForAlertByThreadId]: [None] while the thread has to wait. *)
Definition wait_for_alert (t : nat) (timed_out : bool) (f : futexes) : option (Z * futexes) :=
  if bool_decide (t ∈ fx_alerts f) then Some (FX_ALERTED, mkFutexes (fx_queues f) (fx_alerts f ∖ {[t]}))
  else if timed_out then Some (FX_TIMEOUT, f)
  else None.

(** The end of [RtlWaitOnAddress]. *)
Definition wait_end (addr : Z) (t : nat) (status : Z) (f : futexes) : Z * futexes :=
  (if status =? FX_ALERTED then FX_SUCCESS else status,
   set_queue addr (filter (fun e => e <> mkEntry addr t) (queue_at f addr)) f).

Fixpoint take_first (addr : Z) (q : list futex_entry) : option (nat * list futex_entry) :=
  match q with
  | [] => None
  | e :: q' =>
      if fe_addr e =? addr then Some (fe_tid e, q')
      else match take_first addr q' with Some (t, r) => Some (t, e :: r) | None => None end
  end.

(** [RtlWakeAddressSingle] up to the call that alerts the thread. *)
Definition wake_single (addr : Z) (f : futexes) : list nat * futexes :=
  if addr =? NULL then ([], f)
  else match take_first addr (queue_at f addr) with
       | Some (t, q) => ([t], set_queue addr q f)
       | None => ([], f)
       end.

(** [RtlWakeAddressAll] up to the calls that alert the threads. *)
Definition wake_all (addr : Z) (f : futexes) : list nat * futexes :=
  if addr =? NULL then ([], f)
  else (map fe_tid (filter (fun e => fe_addr e = addr) (queue_at f addr)),
        set_queue addr (filter (fun e => fe_addr e <> addr) (queue_at f addr)) f).

Definition alert (t : nat) (f : futexes) : futexes := mkFutexes (fx_queues f) ({[t]} ∪ fx_alerts f).

Definition no_futexes : futexes := mkFutexes ∅ ∅.

(** ** What the functions promise *)

Definition waiting (f : futexes) (addr : Z) (t : nat) : Prop := mkEntry addr t ∈ queue_at f addr.

Definition alerted (f : futexes) (t : nat) : Prop := t ∈ fx_alerts f.

Lemma queue_at_set addr q f a :
  queue_at (set_queue addr q f) a = if get_futex_queue addr =? get_futex_queue a then q else queue_at f a.
Proof.
  unfold queue_at, set_queue. cbn [fx_queues]. destruct (Z.eqb_spec (get_futex_queue addr) (get_futex_queue a)) as [E | E].
  - by rewrite E, lookup_insert_eq.
  - by rewrite lookup_insert_ne.
Qed.

(** Changing a queue changes who waits there only. *)
Lemma waiting_set addr q f a t :
  waiting (set_queue addr q f) a t <->
  if get_futex_queue addr =? get_futex_queue a then mkEntry a t ∈ q else waiting f a t.
Proof. unfold waiting. rewrite queue_at_set. by destruct (_ =? _). Qed.

Lemma same_queue addr a f : get_futex_queue addr = get_futex_queue a -> queue_at f addr = queue_at f a.
Proof. unfold queue_at. by intros ->. Qed.

(** Nobody waits before the first call. *)
Lemma waiting_none a t : ~ waiting no_futexes a t.
Proof. unfold waiting, queue_at, no_futexes. cbn. rewrite lookup_empty. apply not_elem_of_nil. Qed.

Lemma wait_begin_waits addr mem cmp size t f f' a u :
  wait_begin addr mem cmp size t f = (None, f') ->
  compare_addr mem cmp size = true /\ fx_alerts f' = fx_alerts f /\
  (waiting f' a u <-> waiting f a u \/ (a = addr /\ u = t)).
Proof.
  unfold wait_begin. destruct (_ && _); [done |]. destruct (compare_addr _ _ _); [| done].
  intros [= <-]. split_and!; [done | done |]. rewrite waiting_set.
  destruct (Z.eqb_spec (get_futex_queue addr) (get_futex_queue a)) as [E | E].
  - rewrite (same_queue _ _ _ E), elem_of_app, list_elem_of_singleton. unfold waiting. naive_solver.
  - split; [by left |]. intros [? | [-> _]]; done.
Qed.

Lemma wait_begin_returns addr mem cmp size t f st f' :
  wait_begin addr mem cmp size t f = (Some st, f') -> f' = f.
Proof. unfold wait_begin. destruct (_ && _); [by intros [= _ <-] |]. by destruct (compare_addr _ _ _); intros [= _ <-]. Qed.

Lemma wait_for_alert_waits t b f st f' a u :
  wait_for_alert t b f = Some (st, f') ->
  (waiting f' a u <-> waiting f a u) /\ (alerted f u -> alerted f' u \/ u = t).
Proof.
  unfold wait_for_alert, alerted. case_bool_decide as Ht; [| destruct b; [| done]]; intros [= <- <-].
  - split; [done |]. cbn. intros Hu. destruct (decide (u = t)); [by right | left; set_solver].
  - split; [done | by left].
Qed.

Lemma wait_end_waits addr t st f a u :
  (waiting (wait_end addr t st f).2 a u <-> waiting f a u /\ ~ (a = addr /\ u = t)) /\
  fx_alerts (wait_end addr t st f).2 = fx_alerts f.
Proof.
  split; [| done]. unfold wait_end. cbn [snd]. rewrite waiting_set.
  destruct (Z.eqb_spec (get_futex_queue addr) (get_futex_queue a)) as [E | E].
  - rewrite (same_queue _ _ _ E), list_elem_of_filter. unfold waiting. naive_solver.
  - split; [| by intros [? _]]. intros H. split; [done |]. by intros [-> _].
Qed.

Lemma take_first_none addr q : take_first addr q = None -> forall t, mkEntry addr t ∉ q.
Proof.
  induction q as [| e q IH]; intros H t; [apply not_elem_of_nil |]. cbn in H.
  destruct (Z.eqb_spec (fe_addr e) addr) as [E | E]; [done |].
  destruct (take_first addr q) as [[] |] eqn:Et; [done |].
  apply not_elem_of_cons. split; [intros <-; by apply E | by apply IH].
Qed.

Lemma take_first_some addr q t r :
  take_first addr q = Some (t, r) ->
  mkEntry addr t ∈ q /\ (forall e, e ∈ r -> e ∈ q) /\ (forall e, e ∈ q -> e ∈ r \/ e = mkEntry addr t).
Proof.
  revert r. induction q as [| e q IH]; intros r H; [done |]. cbn in H.
  destruct (Z.eqb_spec (fe_addr e) addr) as [E | E].
  - injection H as <- <-. destruct e as [a u]. cbn in *. subst.
    split_and!; [by left | by right | intros e [-> | ?]%elem_of_cons; auto].
  - destruct (take_first addr q) as [[u r'] |] eqn:Et; [| done]. injection H as <- <-.
    destruct (IH r' eq_refl) as (H1 & H2 & H3). split_and!; [by right | |].
    + intros x [-> | Hx]%elem_of_cons; [by left | right; auto].
    + intros x [-> | Hx]%elem_of_cons; [left; by left |]. destruct (H3 x Hx); [left; by right | by right].
Qed.

(** Waking one thread: if any waits there, one of them leaves the queue and is returned;
    nobody else is touched. *)
Lemma wake_single_wakes addr f ts f' :
  addr <> NULL -> wake_single addr f = (ts, f') ->
  fx_alerts f' = fx_alerts f /\
  (forall a u, waiting f' a u -> waiting f a u) /\
  (forall a u, waiting f a u -> waiting f' a u \/ (a = addr /\ u ∈ ts)) /\
  (forall t, waiting f addr t -> exists u, u ∈ ts /\ waiting f addr u) /\
  (forall u, u ∈ ts -> waiting f addr u).
Proof.
  intros Ha. unfold wake_single. rewrite (proj2 (Z.eqb_neq _ _) Ha).
  destruct (take_first addr (queue_at f addr)) as [[t q] |] eqn:Et; intros [= <- <-].
  - destruct (take_first_some _ _ _ _ Et) as (H1 & H2 & H3). split_and!; [done | | | |].
    + intros a u. rewrite waiting_set. destruct (Z.eqb_spec (get_futex_queue addr) (get_futex_queue a)) as [E | E]; [| done].
      intros Hq%H2. by rewrite (same_queue _ _ _ E) in Hq.
    + intros a u Hw. rewrite waiting_set. destruct (Z.eqb_spec (get_futex_queue addr) (get_futex_queue a)) as [E | E]; [| by left].
      unfold waiting in Hw. rewrite <- (same_queue _ _ _ E) in Hw. destruct (H3 _ Hw) as [? | [= -> ->]]; [by left |].
      right. split; [done | by apply list_elem_of_singleton].
    + intros u _. exists t. split; [by apply list_elem_of_singleton | done].
    + intros u ->%list_elem_of_singleton. done.
  - split_and!; [done | done | by left | |].
    + intros t Hw. by apply (take_first_none _ _ Et) in Hw.
    + by intros u ?%elem_of_nil.
Qed.

(** Waking all: nobody waits there any more. *)
Lemma wake_all_wakes addr f ts f' :
  addr <> NULL -> wake_all addr f = (ts, f') ->
  fx_alerts f' = fx_alerts f /\
  (forall a u, waiting f' a u <-> waiting f a u /\ a <> addr) /\
  (forall u, u ∈ ts <-> waiting f addr u).
Proof.
  intros Ha. unfold wake_all. rewrite (proj2 (Z.eqb_neq _ _) Ha). intros [= <- <-]. split_and!; [done | |].
  - intros a u. rewrite waiting_set. destruct (Z.eqb_spec (get_futex_queue addr) (get_futex_queue a)) as [E | E].
    + rewrite (same_queue _ _ _ E), list_elem_of_filter. unfold waiting. cbn [fe_addr]. naive_solver.
    + split; [| by intros []]. intros H. split; [done |]. by intros ->.
  - intros u. rewrite list_elem_of_fmap. unfold waiting. split.
    + intros (e & -> & [<- He]%list_elem_of_filter). by destruct e.
    + intros Hq. exists (mkEntry addr u). split; [done |]. by apply list_elem_of_filter.
Qed.

Lemma alert_alerts t f u : alerted (alert t f) u <-> u = t \/ alerted f u.
Proof. unfold alerted, alert. cbn. set_solver. Qed.

Lemma alert_waits t f a u : waiting (alert t f) a u <-> waiting f a u.
Proof. done. Qed.

(** ** Alerts on their way

    A thread that has taken sleepers out of a queue alerts them one after the other;
    [sending] says which alerts a thread at a program point has still to send. *)

Section Sending.
Context {P : Type} (sending : P -> list nat).

Definition on_its_way (f : futexes) (ths : list P) (t : nat) : Prop :=
  alerted f t \/ exists u p, ths !! u = Some p /\ t ∈ sending p.

(** A step keeps the alert of [u] on its way unless it is [u] that consumes it. *)
Lemma on_its_way_step f f' ths ths' t p q u :
  ths !! t = Some p -> ths' = <[t := q]> ths ->
  (u ∈ sending p -> alerted f' u \/ u ∈ sending q) -> (alerted f u -> alerted f' u) ->
  on_its_way f ths u -> on_its_way f' ths' u.
Proof.
  intros Hp -> Hs Ha [H | (v & r & Hv & Hu)]; [left; auto |].
  destruct (decide (v = t)) as [-> | Ne].
  - rewrite Hp in Hv. injection Hv as <-. destruct (Hs Hu) as [? | Hq]; [by left |]. right. exists t, q.
    split; [| done]. apply list_lookup_insert_eq. by apply lookup_lt_Some in Hp.
  - right. exists v, r. split; [by rewrite list_lookup_insert_ne | done].
Qed.

Lemma on_its_way_sent f ths t p q u :
  ths !! t = Some p -> u ∈ sending q -> on_its_way f (<[t := q]> ths) u.
Proof.
  intros Hp Hu. right. exists t, q. split; [| done]. apply list_lookup_insert_eq. by apply lookup_lt_Some in Hp.
Qed.
End Sending.
