(* ===== verification/Srw.v ===== *)
(** * Slim reader-writer locks and condition variables

    Models [RtlAcquireSRWLock*], [RtlReleaseSRWLock*], [RtlTryAcquireSRWLock*] and the
    condition variables of [src/dlls/ntdll/sync.c], for one lock and one variable used by
    any number of threads.  Each thread is at a program point [pc]; one step of a thread
    is one access to shared memory or one operation on the futexes:

    - [do { old = *p; new = ...; } while (cas( p, new, old ) != old)] is a step that reads
      and a step that exchanges, which goes back to reading when the lock has changed;
    - [RtlWaitOnAddress] and the wake functions are the steps of [Futex].

    [exclusive_waiters] is a 16-bit signed and [owners] a 16-bit unsigned number; the
    exchanges compare both as the 32-bit word they share.  Threads keep the rules of the
    interface: they release what they own, and do not acquire a lock they own.  Any code
    may alert any thread at any time ([Ev_alert]), and a wait on the condition variable
    may time out ([Ev_timeout]). *)

From stdpp Require Import base list gmap.
From Stdlib Require Import ZArith Lia.
From S2P Require Import Prelude Futex.

Open Scope Z_scope.

Abbreviation i16 := (swrap 16).

Record srw_lock := mkSrw { exclusive_waiters : Z; owners : Z }.

(** The lock as a [LONG]. *)
Definition srw_long (l : srw_lock) : Z := u16 (exclusive_waiters l) + 65536 * u16 (owners l).

Definition RtlInitializeSRWLock : srw_lock := mkSrw 0 0.

(** ** What an exchange stores, and whether the caller waits *)

Definition acquire_exclusive (old : srw_lock) : srw_lock * bool :=
  if owners old =? 0 then
    (mkSrw (i16 (Z.lor (i16 (exclusive_waiters old - 2)) 1)) 1, false)
  else (old, true).

Definition acquire_shared (old : srw_lock) : srw_lock * bool :=
  if exclusive_waiters old =? 0 then
    (mkSrw (exclusive_waiters old) (u16 (owners old + 1)), false)
  else (old, true).

Definition release_exclusive (old : srw_lock) : srw_lock :=
  mkSrw (i16 (Z.land (exclusive_waiters old) (Z.lnot 1))) 0.

Definition release_shared (old : srw_lock) : srw_lock :=
  mkSrw (exclusive_waiters old) (u16 (owners old - 1)).

Definition try_exclusive (old : srw_lock) : srw_lock * bool :=
  if owners old =? 0 then (mkSrw (i16 (Z.lor (exclusive_waiters old) 1)) 1, true)
  else (old, false).

Definition try_shared (old : srw_lock) : srw_lock * bool :=
  if exclusive_waiters old =? 0 then
    (mkSrw (exclusive_waiters old) (u16 (owners old + 1)), true)
  else (old, false).

(** ** Threads *)

Inductive mode := Exclusive | Shared.

(** Where a function that ends by alerting threads goes on: it returns to a thread that
    owns the lock or does not, or [RtlSleepConditionVariableSRW] goes on to wait. *)
Inductive back := Back_idle | Back_owner (m : mode) | Back_sleep (m : mode) (value : Z).

Inductive pc :=
  | Idle
  | Owner (m : mode)
  (* RtlAcquireSRWLockExclusive *)
  | XA_read | XA_cas (old : srw_lock) | XA_wait (cmp : Z) | XA_block | XA_end (st : Z)
  (* RtlAcquireSRWLockShared *)
  | SA_read | SA_cas (old : srw_lock) | SA_wait (cmp : srw_lock) | SA_block | SA_end (st : Z)
  (* RtlReleaseSRWLockExclusive, RtlReleaseSRWLockShared *)
  | XR_read (k : back) | XR_cas (k : back) (old : srw_lock) | XR_wake (k : back) (new : srw_lock)
  | SR_read (k : back) | SR_cas (k : back) (old : srw_lock) | SR_wake (k : back) (new : srw_lock)
  (* RtlTryAcquireSRWLockExclusive, RtlTryAcquireSRWLockShared *)
  | XT_read | XT_cas (old : srw_lock) | ST_read | ST_cas (old : srw_lock)
  (* RtlSleepConditionVariableSRW, between the two locks *)
  | CV_read (m : mode) | CV_wait (m : mode) (value : Z) | CV_block (m : mode) | CV_end (m : mode) (st : Z)
  (* RtlWakeConditionVariable, RtlWakeAllConditionVariable *)
  | CV_inc (all : bool) (k : back) | CV_wake (all : bool) (k : back)
  (* alerts still to be sent by a wake function *)
  | Alerting (k : back) (ts : list nat).

Inductive call :=
  | RtlAcquireSRWLock (m : mode) | RtlReleaseSRWLock | RtlTryAcquireSRWLock (m : mode)
  | RtlSleepConditionVariableSRW | RtlWakeConditionVariable | RtlWakeAllConditionVariable.

Record srw_state := mkSrwState {
  sw_lock : srw_lock;
  sw_variable : Z;
  sw_futexes : futexes;
  sw_threads : list pc
}.

Inductive event := Ev_call (t : nat) (c : call) | Ev_step (t : nat) | Ev_timeout (t : nat) | Ev_alert (t : nat).

Section Machine.
(** Addresses of the lock and of the condition variable. *)
Context (lock_addr variable_addr : Z).

Definition owners_addr : Z := lock_addr + 2.

Definition pc_of_back (k : back) : pc :=
  match k with
  | Back_idle => Idle
  | Back_owner m => Owner m
  | Back_sleep m value => CV_wait m value
  end.

Definition alerting (k : back) (ts : list nat) : pc :=
  match ts with [] => pc_of_back k | _ => Alerting k ts end.

(** Entering a function. *)
Definition begin_call (c : call) (p : pc) : option pc :=
  match c, p with
  | RtlAcquireSRWLock Shared, Idle => Some SA_read
  | RtlReleaseSRWLock, Owner Exclusive => Some (XR_read Back_idle)
  | RtlReleaseSRWLock, Owner Shared => Some (SR_read Back_idle)
  | RtlTryAcquireSRWLock Exclusive, Idle => Some XT_read
  | RtlTryAcquireSRWLock Shared, Idle => Some ST_read
  | RtlSleepConditionVariableSRW, Owner m => Some (CV_read m)
  | RtlWakeConditionVariable, Idle => Some (CV_inc false Back_idle)
  | RtlWakeConditionVariable, Owner m => Some (CV_inc false (Back_owner m))
  | RtlWakeAllConditionVariable, Idle => Some (CV_inc true Back_idle)
  | RtlWakeAllConditionVariable, Owner m => Some (CV_inc true (Back_owner m))
  | _, _ => None
  end.

Definition set_pc (t : nat) (p : pc) (s : srw_state) : srw_state :=
  mkSrwState (sw_lock s) (sw_variable s) (sw_futexes s) (<[t := p]> (sw_threads s)).
Definition set_lock (l : srw_lock) (s : srw_state) : srw_state :=
  mkSrwState l (sw_variable s) (sw_futexes s) (sw_threads s).
Definition set_variable (v : Z) (s : srw_state) : srw_state :=
  mkSrwState (sw_lock s) v (sw_futexes s) (sw_threads s).
Definition set_futexes (f : futexes) (s : srw_state) : srw_state :=
  mkSrwState (sw_lock s) (sw_variable s) f (sw_threads s).

(** [InterlockedExchangeAdd16( &u.s->exclusive_waiters, 2 )], the first step of
    [RtlAcquireSRWLockExclusive]. *)
Definition add_exclusive_waiter (s : srw_state) : srw_state :=
  set_lock (mkSrw (i16 (exclusive_waiters (sw_lock s) + 2)) (owners (sw_lock s))) s.

(** An exchange: [done] when the lock is as it was read, [again] otherwise. *)
Definition cas (t : nat) (old new : srw_lock) (done again : pc) (s : srw_state) : srw_state :=
  if srw_long (sw_lock s) =? srw_long old then set_pc t done (set_lock new s) else set_pc t again s.

Definition waits (t : nat) (addr mem cmp size : Z) (block again : pc) (s : srw_state) : srw_state :=
  match wait_begin addr mem cmp size t (sw_futexes s) with
  | (Some _, f) => set_pc t again (set_futexes f s)
  | (None, f) => set_pc t block (set_futexes f s)
  end.

Definition blocked (t : nat) (timed_out : bool) (next : Z -> pc) (s : srw_state) : option srw_state :=
  match wait_for_alert t timed_out (sw_futexes s) with
  | Some (st, f) => Some (set_pc t (next st) (set_futexes f s))
  | None => None
  end.

Definition ends (t : nat) (addr st : Z) (next : pc) (s : srw_state) : srw_state :=
  set_pc t next (set_futexes (wait_end addr t st (sw_futexes s)).2 s).

Definition wakes (t : nat) (all : bool) (addr : Z) (k : back) (s : srw_state) : srw_state :=
  let r := (if all then wake_all addr else wake_single addr) (sw_futexes s) in
  set_pc t (alerting k r.1) (set_futexes r.2 s).

(** After the wait of [RtlSleepConditionVariableSRW] the lock is acquired again. *)
Definition relock (t : nat) (m : mode) (s : srw_state) : srw_state :=
  match m with
  | Exclusive => set_pc t XA_read (add_exclusive_waiter s)
  | Shared => set_pc t SA_read s
  end.

(** One step of thread [t] at program point [p]; [None] when it is blocked or has
    nothing to do. *)
Definition step_pc (t : nat) (p : pc) (timed_out : bool) (s : srw_state) : option srw_state :=
  match p with
  | Idle | Owner _ => None
  | XA_read => Some (set_pc t (XA_cas (sw_lock s)) s)
  | XA_cas old =>
      let '(new, wait) := acquire_exclusive old in
      Some (cas t old new (if wait then XA_wait (owners new) else Owner Exclusive) XA_read s)
  | XA_wait cmp => Some (waits t owners_addr (owners (sw_lock s)) cmp 2 XA_block XA_read s)
  | XA_block => blocked t false XA_end s
  | XA_end st => Some (ends t owners_addr st XA_read s)
  | SA_read => Some (set_pc t (SA_cas (sw_lock s)) s)
  | SA_cas old =>
      let '(new, wait) := acquire_shared old in
      Some (cas t old new (if wait then SA_wait new else Owner Shared) SA_read s)
  | SA_wait cmp => Some (waits t lock_addr (srw_long (sw_lock s)) (srw_long cmp) 4 SA_block SA_read s)
  | SA_block => blocked t false SA_end s
  | SA_end st => Some (ends t lock_addr st SA_read s)
  | XR_read k => Some (set_pc t (XR_cas k (sw_lock s)) s)
  | XR_cas k old => Some (cas t old (release_exclusive old) (XR_wake k (release_exclusive old)) (XR_read k) s)
  | XR_wake k new =>
      Some (if negb (exclusive_waiters new =? 0) then wakes t false owners_addr k s
            else wakes t true lock_addr k s)
  | SR_read k => Some (set_pc t (SR_cas k (sw_lock s)) s)
  | SR_cas k old => Some (cas t old (release_shared old) (SR_wake k (release_shared old)) (SR_read k) s)
  | SR_wake k new =>
      Some (if owners new =? 0 then wakes t false owners_addr k s else set_pc t (pc_of_back k) s)
  | XT_read => Some (set_pc t (XT_cas (sw_lock s)) s)
  | XT_cas old =>
      let '(new, ret) := try_exclusive old in
      Some (cas t old new (if ret then Owner Exclusive else Idle) XT_read s)
  | ST_read => Some (set_pc t (ST_cas (sw_lock s)) s)
  | ST_cas old =>
      let '(new, ret) := try_shared old in
      Some (cas t old new (if ret then Owner Shared else Idle) ST_read s)
  | CV_read m =>
      let k := Back_sleep m (sw_variable s) in
      Some (set_pc t (match m with Exclusive => XR_read k | Shared => SR_read k end) s)
  | CV_wait m value =>
      match wait_begin variable_addr (sw_variable s) value 4 t (sw_futexes s) with
      | (Some _, f) => Some (relock t m (set_futexes f s))
      | (None, f) => Some (set_pc t (CV_block m) (set_futexes f s))
      end
  | CV_block m => blocked t timed_out (CV_end m) s
  | CV_end m st =>
      Some (relock t m (set_futexes (wait_end variable_addr t st (sw_futexes s)).2 s))
  | CV_inc all k => Some (set_pc t (CV_wake all k) (set_variable (i32 (sw_variable s + 1)) s))
  | CV_wake all k => Some (wakes t all variable_addr k s)
  | Alerting k [] => Some (set_pc t (pc_of_back k) s)
  | Alerting k (u :: ts) => Some (set_pc t (alerting k ts) (set_futexes (alert u (sw_futexes s)) s))
  end.

Definition step (ev : event) (s : srw_state) : option srw_state :=
  match ev with
  | Ev_call t c =>
      p ← sw_threads s !! t;
      match c, p with
      | RtlAcquireSRWLock Exclusive, Idle => Some (set_pc t XA_read (add_exclusive_waiter s))
      | _, _ => p' ← begin_call c p; Some (set_pc t p' s)
      end
  | Ev_step t => p ← sw_threads s !! t; step_pc t p false s
  | Ev_timeout t => p ← sw_threads s !! t; match p with CV_block _ => step_pc t p true s | _ => None end
  | Ev_alert t => Some (set_futexes (alert t (sw_futexes s)) s)
  end.

Fixpoint run (evs : list event) (s : srw_state) : option srw_state :=
  match evs with [] => Some s | ev :: evs' => s' ← step ev s; run evs' s' end.

(** [n] threads, none of which owns the lock. *)
Definition initial (n : nat) : srw_state :=
  mkSrwState RtlInitializeSRWLock 0 no_futexes (replicate n Idle).

Inductive reachable (n : nat) : srw_state -> Prop :=
  | reach_initial : reachable n (initial n)
  | reach_step ev s s' : reachable n s -> step ev s = Some s' -> reachable n s'.
End Machine.
