(* ===== verification/SrwProofs.v ===== *)
(** * The invariant of slim reader-writer locks

    Two parts: the counters of the lock are what the threads account for, and nobody
    sleeps who has been forgotten. *)

From stdpp Require Import base list gmap.
From Stdlib Require Import ZArith Lia ZifyBool.
From S2P Require Import Prelude Threads Futex Srw.

Open Scope Z_scope.

(** ** Sixteen bits *)

Lemma i16_spec x : exists k, i16 x = x + 65536 * k /\ -32768 <= i16 x < 32768.
Proof.
  pose proof (swrap_range 16 x ltac:(lia)) as H. change (2 ^ (16 - 1)) with 32768 in H.
  exists (- ((x + 32768) / 65536)). split; [| lia]. unfold swrap. change (2 ^ (16 - 1)) with 32768.
  change (2 ^ 16) with 65536. pose proof (Z.div_mod (x + 32768) 65536 ltac:(lia)). lia.
Qed.

Lemma i16_eq x y k : -32768 <= y < 32768 -> y = x + 65536 * k -> y = i16 x.
Proof. intros Hy E. destruct (i16_spec x) as (k' & E' & H'). lia. Qed.

Lemma i16_cong x y k : x = y + 65536 * k -> i16 x = i16 y.
Proof. intros E. destruct (i16_spec x) as (k1 & E1 & H1), (i16_spec y) as (k2 & E2 & H2). lia. Qed.

(** The counter is zero only when nobody is counted. *)
Lemma i16_zero x : 0 <= x < 65536 -> i16 x = 0 -> x = 0.
Proof. intros Hx E. destruct (i16_spec x) as (k & Ek & _). lia. Qed.

Lemma i16_add x d : i16 (i16 x + d) = i16 (x + d).
Proof. destruct (i16_spec x) as (k & Ek & _). apply (i16_cong _ _ k). lia. Qed.

(** Setting and clearing bit 0 of an even and of an odd number. *)
Lemma lor_1_even x : x mod 2 = 0 -> Z.lor x 1 = x + 1.
Proof.
  intros Hx. rewrite <- Z.lxor_lor by (change 1 with (Z.ones 1); rewrite Z.land_ones by lia; done).
  symmetry. apply Z.add_nocarry_lxor. change 1 with (Z.ones 1). rewrite Z.land_ones by lia. done.
Qed.

Lemma land_not_1 x : Z.land x (Z.lnot 1) = x - x mod 2.
Proof.
  rewrite <- Z.ldiff_land. change 1 with (Z.ones 1). rewrite Z.ldiff_ones_r by lia.
  rewrite Z.shiftr_div_pow2, Z.shiftl_mul_pow2 by lia. change (2 ^ 1) with 2.
  pose proof (Z.div_mod x 2 ltac:(lia)). lia.
Qed.

Lemma i16_parity x : i16 x mod 2 = x mod 2.
Proof.
  destruct (i16_spec x) as (k & -> & _). replace (65536 * k) with ((32768 * k) * 2) by lia.
  apply Z.mod_add. lia.
Qed.

Lemma i16_set_1 x : x mod 2 = 0 -> i16 (Z.lor (i16 x) 1) = i16 (x + 1).
Proof. intros Hx. rewrite lor_1_even by (by rewrite i16_parity). apply i16_add. Qed.

Lemma i16_clear_1 x : x mod 2 = 1 -> i16 (Z.land (i16 x) (Z.lnot 1)) = i16 (x - 1).
Proof. intros Hx. rewrite land_not_1, i16_parity, Hx. apply (i16_add x (-1)). Qed.

Lemma u16_range x : 0 <= u16 x < 65536.
Proof. apply (uwrap_range 16). lia. Qed.

Definition in_width (l : srw_lock) : Prop := -32768 <= exclusive_waiters l < 32768 /\ 0 <= owners l < 65536.

Lemma srw_long_inj l l' : in_width l -> in_width l' -> srw_long l = srw_long l' -> l = l'.
Proof.
  destruct l as [e o], l' as [e' o']. unfold in_width, srw_long, uwrap. cbn [exclusive_waiters owners].
  change (2 ^ 16) with 65536. intros [He Ho] [He' Ho'] E.
  rewrite (Z.mod_small o), (Z.mod_small o') in E by lia.
  pose proof (Z.mod_pos_bound e 65536 ltac:(lia)). pose proof (Z.mod_pos_bound e' 65536 ltac:(lia)).
  pose proof (Z.div_mod e 65536 ltac:(lia)). pose proof (Z.div_mod e' 65536 ltac:(lia)).
  assert (o = o') as <- by lia. assert (Em : e mod 65536 = e' mod 65536) by lia.
  assert (e = e') as <- by lia. done.
Qed.

(** ** What threads account for *)

Definition xback (k : back) : Z := match k with Back_owner Exclusive => 1 | _ => 0 end.
Definition sback (k : back) : Z := match k with Back_owner Shared => 1 | _ => 0 end.

(** A thread that owns the lock exclusively, or shared, and one that is counted as an
    exclusive waiter. *)
Definition xown (p : pc) : Z :=
  match p with
  | Owner Exclusive | XR_read _ | XR_cas _ _ | CV_read Exclusive => 1
  | CV_inc _ k | CV_wake _ k | Alerting k _ => xback k
  | _ => 0
  end.

Definition sown (p : pc) : Z :=
  match p with
  | Owner Shared | SR_read _ | SR_cas _ _ | CV_read Shared => 1
  | CV_inc _ k | CV_wake _ k | Alerting k _ => sback k
  | _ => 0
  end.

Definition xwait (p : pc) : Z :=
  match p with XA_read | XA_cas _ | XA_wait _ | XA_block | XA_end _ => 1 | _ => 0 end.

Ltac by_modes p := destruct p; repeat match goal with m : mode |- _ => destruct m | k : back |- _ => destruct k end.

Lemma xown_01 p : 0 <= xown p <= 1.
Proof. by_modes p; cbn; lia. Qed.

Lemma sown_01 p : 0 <= sown p <= 1.
Proof. by_modes p; cbn; lia. Qed.

Lemma xwait_01 p : 0 <= xwait p <= 1.
Proof. destruct p; cbn; lia. Qed.

Definition not_owner (k : back) : Prop := match k with Back_owner _ => False | _ => True end.

(** What a program point remembers. *)
Definition pc_ok (p : pc) : Prop :=
  match p with
  | XA_cas old | SA_cas old | XT_cas old | ST_cas old => in_width old
  | XA_wait cmp => 0 < cmp < 65536
  | SA_wait cmp => in_width cmp /\ exclusive_waiters cmp <> 0
  | XR_read k | SR_read k | XR_wake k _ | SR_wake k _ => not_owner k
  | XR_cas k old | SR_cas k old => not_owner k /\ in_width old
  | _ => True
  end.

Abbreviation X s := (total xown (sw_threads s)).
Abbreviation S_ s := (total sown (sw_threads s)).
Abbreviation W s := (total xwait (sw_threads s)).

Record counts (s : srw_state) : Prop := mkCounts {
  cn_threads : Z.of_nat (length (sw_threads s)) < 2 ^ 15;
  cn_owners : owners (sw_lock s) = X s + S_ s;
  cn_waiters : exclusive_waiters (sw_lock s) = i16 (2 * W s + X s);
  cn_exclusive : X s = 0 \/ (X s = 1 /\ S_ s = 0);
  cn_pc : forall t p, sw_threads s !! t = Some p -> pc_ok p
}.

(** A step of one thread, from [p] to [q]. *)
Lemma counts_step s s' t p q :
  counts s -> sw_threads s !! t = Some p -> sw_threads s' = <[t := q]> (sw_threads s) -> pc_ok q ->
  owners (sw_lock s') = X s + S_ s - (xown p + sown p) + (xown q + sown q) ->
  exclusive_waiters (sw_lock s') = i16 (2 * (W s - xwait p + xwait q) + (X s - xown p + xown q)) ->
  (X s - xown p + xown q = 0 \/ (X s - xown p + xown q = 1 /\ S_ s - sown p + sown q = 0)) ->
  counts s'.
Proof.
  intros [Hn _ _ _ Hpc] Ht E Hq Ho Hw Hx. split; rewrite E.
  - by rewrite length_insert.
  - rewrite (total_insert xown _ _ _ _ Ht), (total_insert sown _ _ _ _ Ht). lia.
  - rewrite (total_insert xown _ _ _ _ Ht), (total_insert xwait _ _ _ _ Ht). exact Hw.
  - by rewrite (total_insert xown _ _ _ _ Ht), (total_insert sown _ _ _ _ Ht).
  - intros u r Hu. apply list_lookup_insert_Some in Hu as [(_ & <- & _) | (_ & Hu)]; [done | by apply (Hpc u)].
Qed.

Lemma counts_quiet s s' t p q :
  counts s -> sw_threads s !! t = Some p -> sw_threads s' = <[t := q]> (sw_threads s) -> pc_ok q ->
  sw_lock s' = sw_lock s -> xown q = xown p -> sown q = sown p -> xwait q = xwait p -> counts s'.
Proof.
  intros Hc Ht E Hq El Hx Hs Hw. apply (counts_step s s' t p q); [done | done | done | done | | |].
  - rewrite El, (cn_owners s Hc). lia.
  - rewrite El, (cn_waiters s Hc). f_equal. lia.
  - pose proof (cn_exclusive s Hc). lia.
Qed.

(** Numbers the counters stand for. *)
Lemma counts_bounds s :
  counts s -> 0 <= X s /\ 0 <= S_ s /\ 0 <= W s /\ X s + S_ s < 65536 /\ 2 * W s + X s < 65536.
Proof.
  intros Hc. pose proof (cn_threads s Hc) as Hn. change (2 ^ 15) with 32768 in Hn.
  pose proof (total_nonneg xown (sw_threads s) (fun p => proj1 (xown_01 p))).
  pose proof (total_nonneg sown (sw_threads s) (fun p => proj1 (sown_01 p))).
  pose proof (total_nonneg xwait (sw_threads s) (fun p => proj1 (xwait_01 p))).
  pose proof (total_bound xown (sw_threads s) (fun p => proj2 (xown_01 p))).
  pose proof (total_bound sown (sw_threads s) (fun p => proj2 (sown_01 p))).
  pose proof (total_bound xwait (sw_threads s) (fun p => proj2 (xwait_01 p))).
  pose proof (total_bound (fun p => xown p + sown p) (sw_threads s)) as H6. rewrite total_plus in H6.
  pose proof (total_bound (fun p => xwait p + xown p) (sw_threads s)) as H7. rewrite total_plus in H7.
  assert (forall p, xown p + sown p <= 1) by (intros p; by_modes p; cbn; lia).
  assert (forall p, xwait p + xown p <= 1) by (intros p; by_modes p; cbn; lia).
  specialize (H6 ltac:(done)). specialize (H7 ltac:(done)). lia.
Qed.

Lemma counts_width s : counts s -> in_width (sw_lock s).
Proof.
  intros Hc. pose proof (counts_bounds s Hc). split.
  - rewrite (cn_waiters s Hc). destruct (i16_spec (2 * W s + X s)) as (? & _ & ?). lia.
  - rewrite (cn_owners s Hc). lia.
Qed.

Lemma counts_free s : counts s -> exclusive_waiters (sw_lock s) = 0 -> X s = 0 /\ W s = 0.
Proof.
  intros Hc E. pose proof (counts_bounds s Hc). rewrite (cn_waiters s Hc) in E. apply i16_zero in E; lia.
Qed.

(** Shares of one thread. *)
Lemma counts_share s t p :
  counts s -> sw_threads s !! t = Some p -> xown p <= X s /\ sown p <= S_ s /\ xwait p <= W s.
Proof.
  intros _ Ht. split_and!; (eapply total_part; [| exact Ht]).
  - apply xown_01.
  - apply sown_01.
  - apply xwait_01.
Qed.

(** A successful exchange. *)
Lemma counts_acquire_exclusive s s' t old :
  counts s -> sw_threads s !! t = Some (XA_cas old) -> sw_lock s = old -> owners old = 0 ->
  sw_threads s' = <[t := Owner Exclusive]> (sw_threads s) -> sw_lock s' = (acquire_exclusive old).1 -> counts s'.
Proof.
  intros Hc Ht Eo E0 E El. destruct (counts_share s t _ Hc Ht) as (H1 & H2 & H3).
  pose proof (counts_bounds s Hc). pose proof (cn_owners s Hc) as Ho. rewrite Eo, E0 in Ho.
  assert (HX : X s = 0) by lia. assert (HS : S_ s = 0) by lia.
  apply (counts_step s s' t _ _ Hc Ht E I); rewrite ?El; unfold acquire_exclusive; rewrite ?E0; cbn [Z.eqb fst owners exclusive_waiters xown sown xwait]; [lia | | lia].
  rewrite <- Eo, (cn_waiters s Hc), HX.
  replace (2 * W s + 0) with (2 * W s) by lia. replace (i16 (2 * W s) - 2) with (i16 (2 * W s) + -2) by lia. rewrite i16_add.
  rewrite i16_set_1; [f_equal; lia |]. replace (2 * W s + -2) with ((W s - 1) * 2) by lia. apply Z.mod_mul. lia.
Qed.

Lemma counts_try_exclusive s s' t old :
  counts s -> sw_threads s !! t = Some (XT_cas old) -> sw_lock s = old -> owners old = 0 ->
  sw_threads s' = <[t := Owner Exclusive]> (sw_threads s) -> sw_lock s' = (try_exclusive old).1 -> counts s'.
Proof.
  intros Hc Ht Eo E0 E El. pose proof (counts_bounds s Hc). pose proof (cn_owners s Hc) as Ho. rewrite Eo, E0 in Ho.
  assert (HX : X s = 0) by lia. assert (HS : S_ s = 0) by lia.
  apply (counts_step s s' t _ _ Hc Ht E I); rewrite ?El; unfold try_exclusive; rewrite ?E0; cbn [Z.eqb fst owners exclusive_waiters xown sown xwait]; [lia | | lia].
  rewrite <- Eo, (cn_waiters s Hc), HX. replace (2 * W s + 0) with (2 * W s) by lia.
  rewrite i16_set_1; [f_equal; lia |]. rewrite Z.mul_comm. apply Z.mod_mul. lia.
Qed.

Lemma counts_enter_shared s s' t p old :
  counts s -> sw_threads s !! t = Some p -> xown p = 0 -> sown p = 0 -> xwait p = 0 ->
  sw_lock s = old -> exclusive_waiters old = 0 ->
  sw_threads s' = <[t := Owner Shared]> (sw_threads s) ->
  sw_lock s' = mkSrw (exclusive_waiters old) (u16 (owners old + 1)) -> counts s'.
Proof.
  intros Hc Ht P1 P2 P3 Eo E0 E El. destruct (counts_free s Hc) as [HX HW]; [by rewrite Eo |].
  assert (Hlt : S_ s + 1 <= Z.of_nat (length (sw_threads s))).
  { pose proof (total_bound sown (<[t := Owner Shared]> (sw_threads s)) (fun p => proj2 (sown_01 p))) as H'.
    rewrite (total_insert sown _ _ _ _ Ht), length_insert, P2 in H'. cbn in H'. lia. }
  pose proof (cn_threads s Hc) as Hn. change (2 ^ 15) with 32768 in Hn. pose proof (counts_bounds s Hc).
  apply (counts_step s s' t _ _ Hc Ht E I); rewrite ?El; cbn [owners exclusive_waiters xown sown xwait].
  - rewrite <- Eo, (cn_owners s Hc). rewrite (uwrap_small 16) by lia. lia.
  - rewrite E0, P1, P3, HX, HW. reflexivity.
  - lia.
Qed.

Lemma counts_release_exclusive s s' t k old :
  counts s -> sw_threads s !! t = Some (XR_cas k old) -> sw_lock s = old ->
  sw_threads s' = <[t := XR_wake k (release_exclusive old)]> (sw_threads s) ->
  sw_lock s' = release_exclusive old -> counts s'.
Proof.
  intros Hc Ht Eo E El. destruct (counts_share s t _ Hc Ht) as (H1 & _ & _). cbn in H1.
  pose proof (cn_pc s Hc t _ Ht) as [Hk _]. pose proof (cn_exclusive s Hc).
  assert (HX : X s = 1) by lia. assert (HS : S_ s = 0) by lia.
  apply (counts_step s s' t _ _ Hc Ht E Hk); rewrite ?El; cbn [release_exclusive owners exclusive_waiters xown sown xwait]; [lia | | lia].
  rewrite <- Eo, (cn_waiters s Hc), HX, i16_clear_1; [f_equal; lia |].
  rewrite Z.add_comm, (Z.mul_comm 2), Z.mod_add by lia. done.
Qed.

Lemma counts_release_shared s s' t k old :
  counts s -> sw_threads s !! t = Some (SR_cas k old) -> sw_lock s = old ->
  sw_threads s' = <[t := SR_wake k (release_shared old)]> (sw_threads s) ->
  sw_lock s' = release_shared old -> counts s'.
Proof.
  intros Hc Ht Eo E El. destruct (counts_share s t _ Hc Ht) as (_ & H1 & _). cbn in H1.
  pose proof (cn_pc s Hc t _ Ht) as [Hk _]. pose proof (cn_exclusive s Hc). pose proof (counts_bounds s Hc).
  apply (counts_step s s' t _ _ Hc Ht E Hk); rewrite ?El; cbn [release_shared owners exclusive_waiters xown sown xwait].
  - rewrite <- Eo, (cn_owners s Hc), (uwrap_small 16) by lia. lia.
  - rewrite <- Eo, (cn_waiters s Hc). f_equal. lia.
  - lia.
Qed.

(** Becoming an exclusive waiter. *)
Lemma counts_add_waiter s s' t p :
  counts s -> sw_threads s !! t = Some p -> xown p = 0 -> sown p = 0 -> xwait p = 0 ->
  sw_threads s' = <[t := XA_read]> (sw_threads s) ->
  sw_lock s' = mkSrw (i16 (exclusive_waiters (sw_lock s) + 2)) (owners (sw_lock s)) -> counts s'.
Proof.
  intros Hc Ht P1 P2 P3 E El. apply (counts_step s s' t _ _ Hc Ht E I); rewrite ?El; cbn [owners exclusive_waiters xown sown xwait].
  - rewrite (cn_owners s Hc). lia.
  - rewrite (cn_waiters s Hc), i16_add. f_equal. lia.
  - pose proof (cn_exclusive s Hc). lia.
Qed.

(** ** Who sleeps *)

Section Invariant.
Context (lock_addr variable_addr : Z).
Context (Hvl : variable_addr <> lock_addr) (Hvo : variable_addr <> owners_addr lock_addr).

Abbreviation oaddr := (owners_addr lock_addr).

(** An alert is on its way to the thread. *)
Definition srw_sending (p : pc) : list nat := match p with Alerting _ ts => ts | _ => [] end.
Definition inflight (s : srw_state) (t : nat) : Prop := on_its_way srw_sending (sw_futexes s) (sw_threads s) t.

Definition x_sleep (p : pc) : Prop := match p with XA_block | XA_end _ => True | _ => False end.
Definition s_sleep (p : pc) : Prop := match p with SA_block | SA_end _ => True | _ => False end.

(** About to wake an exclusive waiter, and about to wake all shared ones. *)
Definition wakes_one (p : pc) : Prop :=
  match p with
  | XR_wake _ new => exclusive_waiters new <> 0
  | SR_wake _ new => owners new = 0
  | _ => False
  end.
Definition wakes_shared (p : pc) : Prop :=
  match p with XR_wake _ new => exclusive_waiters new = 0 | _ => False end.

(** A thread that will see to it that an exclusive waiter tries again. *)
Definition awake (s : srw_state) (u : nat) (p : pc) : Prop :=
  wakes_one p \/ (xwait p = 1 /\ (p = XA_block -> inflight s u)).

Record sleep_ok (s : srw_state) : Prop := mkSleepOk {
  so_x : forall t, waiting (sw_futexes s) oaddr t -> exists p, sw_threads s !! t = Some p /\ x_sleep p;
  so_s : forall t, waiting (sw_futexes s) lock_addr t -> exists p, sw_threads s !! t = Some p /\ s_sleep p;
  so_xb : forall t, sw_threads s !! t = Some XA_block -> waiting (sw_futexes s) oaddr t \/ inflight s t;
  so_sb : forall t, sw_threads s !! t = Some SA_block -> waiting (sw_futexes s) lock_addr t \/ inflight s t;
  so_awake : forall t, owners (sw_lock s) = 0 -> waiting (sw_futexes s) oaddr t ->
    exists u p, sw_threads s !! u = Some p /\ awake s u p;
  so_shared : forall t, exclusive_waiters (sw_lock s) = 0 -> waiting (sw_futexes s) lock_addr t ->
    exists u p, sw_threads s !! u = Some p /\ wakes_shared p
}.

(** A step of thread [t] from [p] to [q], with what it must not do to the others. *)
Record sleep_step (s s' : srw_state) (t : nat) (p q : pc) : Prop := mkSleepStep {
  ss_pc : sw_threads s !! t = Some p;
  ss_threads : sw_threads s' = <[t := q]> (sw_threads s);
  ss_inflight : forall u, u <> t -> inflight s u -> inflight s' u;
  ss_x : forall u, waiting (sw_futexes s') oaddr u -> (u <> t /\ waiting (sw_futexes s) oaddr u) \/ (u = t /\ x_sleep q);
  ss_s : forall u, waiting (sw_futexes s') lock_addr u ->
    (u <> t /\ waiting (sw_futexes s) lock_addr u) \/ (u = t /\ s_sleep q);
  ss_xb : forall u, u <> t -> waiting (sw_futexes s) oaddr u -> waiting (sw_futexes s') oaddr u \/ inflight s' u;
  ss_sb : forall u, u <> t -> waiting (sw_futexes s) lock_addr u -> waiting (sw_futexes s') lock_addr u \/ inflight s' u;
  ss_qx : q = XA_block -> waiting (sw_futexes s') oaddr t \/ inflight s' t;
  ss_qs : q = SA_block -> waiting (sw_futexes s') lock_addr t \/ inflight s' t;
  ss_awake : forall u, owners (sw_lock s') = 0 -> waiting (sw_futexes s') oaddr u ->
    (exists v r, sw_threads s' !! v = Some r /\ awake s' v r) \/
    (owners (sw_lock s) = 0 /\ waiting (sw_futexes s) oaddr u /\ (awake s t p -> awake s' t q));
  ss_shared : forall u, exclusive_waiters (sw_lock s') = 0 -> waiting (sw_futexes s') lock_addr u ->
    wakes_shared q \/
    (exclusive_waiters (sw_lock s) = 0 /\ waiting (sw_futexes s) lock_addr u /\ ~ wakes_shared p)
}.

Lemma awake_other s s' t u p :
  (forall u, u <> t -> inflight s u -> inflight s' u) -> u <> t -> awake s u p -> awake s' u p.
Proof. intros H Ne [? | [Hw Hb]]; [by left |]. right. split; [done |]. intros Hp. by apply H, Hb. Qed.

Lemma sleep_keeps s s' t p q : sleep_ok s -> sleep_step s s' t p q -> sleep_ok s'.
Proof.
  intros [Hx Hs Hxb Hsb Ha Hsh] [Hp Hth Hfl Sx Ss Sxb Ssb Sqx Sqs Sa Ssh].
  assert (Ht : sw_threads s' !! t = Some q).
  { rewrite Hth. apply list_lookup_insert_eq. by apply lookup_lt_Some in Hp. }
  assert (Hu : forall u, u <> t -> sw_threads s' !! u = sw_threads s !! u)
    by (intros u Ne; by rewrite Hth, list_lookup_insert_ne).
  split.
  - intros u Hw. destruct (Sx u Hw) as [[Ne Hw'] | [-> Hq]]; [rewrite (Hu u Ne); by apply Hx | by exists q].
  - intros u Hw. destruct (Ss u Hw) as [[Ne Hw'] | [-> Hq]]; [rewrite (Hu u Ne); by apply Hs | by exists q].
  - intros u E. destruct (decide (u = t)) as [-> | Ne]; [rewrite Ht in E; injection E as E; by apply Sqx |].
    rewrite (Hu u Ne) in E. destruct (Hxb u E) as [Hw | Hf]; [by apply Sxb | right; by apply Hfl].
  - intros u E. destruct (decide (u = t)) as [-> | Ne]; [rewrite Ht in E; injection E as E; by apply Sqs |].
    rewrite (Hu u Ne) in E. destruct (Hsb u E) as [Hw | Hf]; [by apply Ssb | right; by apply Hfl].
  - intros u E0 Hw. destruct (Sa u E0 Hw) as [? | (E0' & Hw' & Htq)]; [done |].
    destruct (Ha u E0' Hw') as (v & r & Hv & Haw). destruct (decide (v = t)) as [-> | Ne].
    + exists t, q. split; [done |]. apply Htq. rewrite Hp in Hv. by injection Hv as <-.
    + exists v, r. split; [by rewrite (Hu v Ne) |]. by apply (awake_other s s' t).
  - intros u E0 Hw. destruct (Ssh u E0 Hw) as [? | (E0' & Hw' & Hnp)]; [by exists t, q |].
    destruct (Hsh u E0' Hw') as (v & r & Hv & Hr). destruct (decide (v = t)) as [-> | Ne].
    + exfalso. apply Hnp. rewrite Hp in Hv. by injection Hv as <-.
    + exists v, r. by rewrite (Hu v Ne).
Qed.

(** ** Kinds of steps *)

Lemma owners_not_lock : oaddr <> lock_addr.
Proof. unfold owners_addr. lia. Qed.

(** Alerts on their way stay so, unless this thread has them in hand. *)
Lemma inflight_other s s' t p q u :
  sw_threads s !! t = Some p -> sw_threads s' = <[t := q]> (sw_threads s) ->
  (forall k ts, p = Alerting k ts -> u ∉ ts) -> (alerted (sw_futexes s) u -> alerted (sw_futexes s') u) ->
  inflight s u -> inflight s' u.
Proof.
  intros Hp Hth Hpa Hal. apply (on_its_way_step srw_sending _ _ _ _ t p q u Hp Hth); [| done].
  intros Hu. destruct p; try (by apply elem_of_nil in Hu). by destruct (Hpa k ts eq_refl).
Qed.

Definition asleep (p : pc) : Prop := x_sleep p \/ s_sleep p.

(** Steps that leave the futexes alone. *)
Lemma sleep_quiet s s' t p q :
  sleep_ok s -> sw_threads s !! t = Some p -> sw_threads s' = <[t := q]> (sw_threads s) ->
  sw_futexes s' = sw_futexes s -> ~ asleep p -> q <> XA_block -> q <> SA_block ->
  (forall k ts, p = Alerting k ts -> ts = []) ->
  (forall u, owners (sw_lock s') = 0 -> waiting (sw_futexes s) oaddr u ->
     wakes_one q \/ (owners (sw_lock s) = 0 /\ (xwait p = 1 -> xwait q = 1) /\ ~ wakes_one p)) ->
  (exclusive_waiters (sw_lock s') = 0 -> wakes_shared q \/ (exclusive_waiters (sw_lock s) = 0 /\ ~ wakes_shared p)) ->
  sleep_ok s'.
Proof.
  intros Hok Hp Hth Hf Hna Hq1 Hq2 Hpa Ho Hw. apply (sleep_keeps s s' t p q Hok).
  assert (Hnt : forall u, waiting (sw_futexes s) oaddr u \/ waiting (sw_futexes s) lock_addr u -> u <> t).
  { intros u Hu ->. apply Hna. destruct Hu as [Hu | Hu];
      [apply (so_x s Hok) in Hu | apply (so_s s Hok) in Hu]; destruct Hu as (r & Hr & ?);
      rewrite Hp in Hr; injection Hr as <-; [by left | by right]. }
  split; rewrite ?Hf; try done.
  - intros u _. apply (inflight_other s s' t p q u Hp Hth); [| by rewrite Hf].
    intros k ts E. rewrite (Hpa k ts E). apply not_elem_of_nil.
  - intros u Hu. left. split; [apply Hnt; by left | done].
  - intros u Hu. left. split; [apply Hnt; by right | done].
  - by left.
  - by left.
  - intros u E0 Hu. destruct (Ho u E0 Hu) as [H1 | (H1 & H2 & H3)].
    + left. exists t, q. split; [rewrite Hth; apply list_lookup_insert_eq; by apply lookup_lt_Some in Hp | by left].
    + right. split_and!; [done | done |]. intros [? | [Hx _]]; [done |]. right. split; [auto | done].
  - intros u E0 Hu. destruct (Hw E0) as [? | [? ?]]; [by left | by right].
Qed.

Lemma not_waiting s t p : sleep_ok s -> sw_threads s !! t = Some p -> ~ asleep p ->
  ~ waiting (sw_futexes s) oaddr t /\ ~ waiting (sw_futexes s) lock_addr t.
Proof.
  intros Hok Hp Hna. split; intros Hu; apply Hna; [apply (so_x s Hok) in Hu | apply (so_s s Hok) in Hu];
    destruct Hu as (r & Hr & ?); rewrite Hp in Hr; injection Hr as <-; [by left | by right].
Qed.

(** Where a thread that goes to sleep, sleeps or wakes waits. *)
Definition sleeps_at (addr : Z) (p : pc) : Prop :=
  match p with
  | XA_wait _ | XA_block | XA_end _ => addr = oaddr
  | SA_wait _ | SA_block | SA_end _ => addr = lock_addr
  | CV_wait _ _ | CV_block _ | CV_end _ _ => addr = variable_addr
  | _ => False
  end.

Definition blocking (p : pc) : Prop := match p with XA_block | SA_block | CV_block _ => True | _ => False end.

Lemma sleep_enqueue s s' t p q addr mem cmp size f :
  sleep_ok s -> sw_threads s !! t = Some p -> sw_threads s' = <[t := q]> (sw_threads s) ->
  sw_lock s' = sw_lock s -> ~ asleep p -> sleeps_at addr p -> sleeps_at addr q -> blocking q ->
  wait_begin addr mem cmp size t (sw_futexes s) = (None, f) -> sw_futexes s' = f ->
  (addr = oaddr -> owners (sw_lock s) <> 0) -> (addr = lock_addr -> exclusive_waiters (sw_lock s) <> 0) ->
  sleep_ok s'.
Proof.
  intros Hok Hp Hth Hl Hna Hsp Hsq Hbq Hf Ef Ho Hw. apply (sleep_keeps s s' t p q Hok).
  destruct (wait_begin_waits _ _ _ _ _ _ _ 0 0%nat Hf) as (_ & Hal & _).
  assert (Hwait : forall a u, waiting f a u <-> waiting (sw_futexes s) a u \/ (a = addr /\ u = t)).
  { intros a u. by destruct (wait_begin_waits _ _ _ _ _ _ _ a u Hf) as (_ & _ & ?). }
  pose proof (not_waiting s t p Hok Hp Hna) as [Hn1 Hn2]. pose proof owners_not_lock as Hol.
  split; rewrite ?Ef, ?Hl; try done.
  - intros u _. apply (inflight_other s s' t p q u Hp Hth); [| by unfold alerted; rewrite Ef, Hal].
    intros k ts ->. done.
  - intros u [Hu | [<- ->]]%Hwait; [left; split; [congruence | done] | right]. split; [done |].
    destruct q; cbn in *; done || congruence.
  - intros u [Hu | [<- ->]]%Hwait; [left; split; [congruence | done] | right]. split; [done |].
    destruct q; cbn in *; done || congruence.
  - intros u _ Hu. left. apply Hwait. by left.
  - intros u _ Hu. left. apply Hwait. by left.
  - intros ->. left. apply Hwait. by right.
  - intros ->. left. apply Hwait. by right.
  - intros u E0 [Hu | [E ->]]%Hwait; [| by apply Ho in E0]. right. split_and!; [done | done |].
    intros [Hp1 | [Hp1 _]]; exfalso; destruct p; cbn in *; try done; by apply Ho in E0.
  - intros u E0 [Hu | [E ->]]%Hwait; [| by apply Hw in E0]. right. split_and!; [done | done |].
    destruct p; cbn in *; try done; tauto.
Qed.

Lemma sleep_blocked s s' t p q b st f :
  sleep_ok s -> sw_threads s !! t = Some p -> sw_threads s' = <[t := q]> (sw_threads s) ->
  sw_lock s' = sw_lock s -> wait_for_alert t b (sw_futexes s) = Some (st, f) -> sw_futexes s' = f ->
  (p = XA_block /\ q = XA_end st \/ p = SA_block /\ q = SA_end st \/ exists m, p = CV_block m /\ q = CV_end m st) ->
  sleep_ok s'.
Proof.
  clear Hvl Hvo. intros Hok Hp Hth Hl Hf Ef Hpq. apply (sleep_keeps s s' t p q Hok).
  assert (Hwait : forall a u, waiting f a u <-> waiting (sw_futexes s) a u)
    by (intros a u; apply (wait_for_alert_waits _ _ _ _ _ a u Hf)).
  split; rewrite ?Ef, ?Hl; try done.
  - intros u Ne. apply (inflight_other s s' t p q u Hp Hth).
    + intros k ts ->. naive_solver.
    + rewrite Ef. intros Ha. by destruct (proj2 (wait_for_alert_waits _ _ _ _ _ 0 u Hf) Ha).
  - intros u Hu%Hwait. destruct (decide (u = t)) as [-> | Ne]; [right | by left]. split; [done |].
    apply (so_x s Hok) in Hu as (r & Hr & Hx). rewrite Hp in Hr. injection Hr as <-. naive_solver.
  - intros u Hu%Hwait. destruct (decide (u = t)) as [-> | Ne]; [right | by left]. split; [done |].
    apply (so_s s Hok) in Hu as (r & Hr & Hx). rewrite Hp in Hr. injection Hr as <-. naive_solver.
  - intros u _ Hu. left. by apply Hwait.
  - intros u _ Hu. left. by apply Hwait.
  - naive_solver.
  - naive_solver.
  - intros u E0 Hu%Hwait. right. split_and!; [done | done |]. intros [Hp1 | [Hp1 _]]; [naive_solver |].
    right. naive_solver.
  - intros u E0 Hu%Hwait. right. split_and!; [done | done |]. naive_solver.
Qed.

Lemma sleep_end s s' t p q addr st :
  sleep_ok s -> sw_threads s !! t = Some p -> sw_threads s' = <[t := q]> (sw_threads s) ->
  owners (sw_lock s') = owners (sw_lock s) ->
  (exclusive_waiters (sw_lock s') = 0 -> exclusive_waiters (sw_lock s) = 0) ->
  sw_futexes s' = (wait_end addr t st (sw_futexes s)).2 -> sleeps_at addr p -> q <> XA_block -> q <> SA_block ->
  (xwait p = 1 -> xwait q = 1) -> ~ wakes_one p -> ~ wakes_shared p ->
  sleep_ok s'.
Proof.
  intros Hok Hp Hth Ho Hw Ef Hsp Hq1 Hq2 Hx Hn1 Hn2. apply (sleep_keeps s s' t p q Hok).
  assert (Hwait : forall a u, waiting (sw_futexes s') a u <-> waiting (sw_futexes s) a u /\ ~ (a = addr /\ u = t))
    by (intros a u; rewrite Ef; apply wait_end_waits).
  assert (Hal : forall u, alerted (sw_futexes s') u <-> alerted (sw_futexes s) u) by (intros u; by rewrite Ef).
  split; rewrite ?Ho; try done.
  - intros u _. apply (inflight_other s s' t p q u Hp Hth); [intros k ts ->; done | apply Hal].
  - intros u [Hu Hn]%Hwait. left. split; [| done]. intros ->. apply Hn. split; [| done].
    apply (so_x s Hok) in Hu as (r & Hr & Hxs). rewrite Hp in Hr. injection Hr as <-. by destruct p.
  - intros u [Hu Hn]%Hwait. left. split; [| done]. intros ->. apply Hn. split; [| done].
    apply (so_s s Hok) in Hu as (r & Hr & Hxs). rewrite Hp in Hr. injection Hr as <-. by destruct p.
  - intros u Ne Hu. left. apply Hwait. split; [done | by intros [_ ->]].
  - intros u Ne Hu. left. apply Hwait. split; [done | by intros [_ ->]].
  - intros u E0 [Hu _]%Hwait. right. split_and!; [done | done |]. intros [? | [Hp1 _]]; [done |].
    right. split; [auto | done].
  - intros u E0 [Hu _]%Hwait. right. by split_and!; [apply Hw | |].
Qed.

Lemma alerting_kinds k ts :
  ~ asleep (alerting k ts) /\ ~ wakes_one (alerting k ts) /\ ~ wakes_shared (alerting k ts) /\
  alerting k ts <> XA_block /\ alerting k ts <> SA_block /\ xwait (alerting k ts) = 0.
Proof. unfold asleep. destruct ts; [destruct k |]; cbn; split_and!; try done; by intros []. Qed.

Lemma sleep_wake s s' t p k ts :
  sleep_ok s -> sw_threads s !! t = Some p -> sw_threads s' = <[t := alerting k ts]> (sw_threads s) ->
  sw_lock s' = sw_lock s -> ~ asleep p -> xwait p = 0 -> (forall k' ts', p <> Alerting k' ts') ->
  fx_alerts (sw_futexes s') = fx_alerts (sw_futexes s) ->
  (forall a u, waiting (sw_futexes s') a u -> waiting (sw_futexes s) a u) ->
  (forall a u, waiting (sw_futexes s) a u -> waiting (sw_futexes s') a u \/ u ∈ ts) ->
  (wakes_one p -> forall u, waiting (sw_futexes s') oaddr u -> exists v, v ∈ ts /\ waiting (sw_futexes s) oaddr v) ->
  (wakes_shared p -> forall u, ~ waiting (sw_futexes s') lock_addr u) ->
  sleep_ok s'.
Proof.
  intros Hok Hp Hth Hl Hna Hx Hpa Hal Hw1 Hw2 Hone Hall. apply (sleep_keeps s s' t p (alerting k ts) Hok).
  destruct (alerting_kinds k ts) as (K1 & K2 & K3 & K4 & K5 & K6).
  pose proof (not_waiting s t p Hok Hp Hna) as [Hn1 Hn2].
  assert (Hq : sw_threads s' !! t = Some (alerting k ts)).
  { rewrite Hth. apply list_lookup_insert_eq. by apply lookup_lt_Some in Hp. }
  assert (Hts : forall u, u ∈ ts -> inflight s' u).
  { intros u Hu. unfold inflight. rewrite Hth. eapply on_its_way_sent; [exact Hp |].
    destruct ts; [by apply elem_of_nil in Hu | done]. }
  split; rewrite ?Hl; try done.
  - intros u _. apply (inflight_other s s' t p (alerting k ts) u Hp Hth); [| by unfold alerted; rewrite Hal].
    intros k' ts' E. by apply Hpa in E.
  - intros u Hu%Hw1. left. split; [congruence | done].
  - intros u Hu%Hw1. left. split; [congruence | done].
  - intros u _ Hu. destruct (Hw2 _ _ Hu); [by left | right; auto].
  - intros u _ Hu. destruct (Hw2 _ _ Hu); [by left | right; auto].
  - intros u E0 Hu. pose proof (Hw1 _ _ Hu) as Hu'.
    destruct (so_awake s Hok u E0 Hu') as (v & r & Hv & Haw). left.
    assert (Hcase : wakes_one p \/ v <> t).
    { destruct (decide (v = t)) as [-> | Ne]; [| by right]. rewrite Hp in Hv. injection Hv as <-.
      destruct Haw as [? | [? _]]; [by left | lia]. }
    destruct Hcase as [H1 | Ne].
    + destruct (Hone H1 u Hu) as (w & Hwts & Hww). destruct (so_x s Hok w Hww) as (r' & Hr' & Hxs).
      exists w, r'. split.
      * rewrite Hth, list_lookup_insert_ne; [done | congruence].
      * right. split; [by destruct r' | auto].
    + exists v, r. split; [by rewrite Hth, list_lookup_insert_ne |]. apply (awake_other s s' t v r); [| done | done].
      intros w _. apply (inflight_other s s' t p (alerting k ts) w Hp Hth); [| by unfold alerted; rewrite Hal].
      intros k' ts' E. by apply Hpa in E.
  - intros u E0 Hu. right. split_and!; [done | by apply Hw1 |]. intros Hp1. by apply (Hall Hp1 u).
Qed.

Lemma sleep_alert s s' t u k ts :
  sleep_ok s -> sw_threads s !! t = Some (Alerting k (u :: ts)) ->
  sw_threads s' = <[t := alerting k ts]> (sw_threads s) -> sw_lock s' = sw_lock s ->
  sw_futexes s' = alert u (sw_futexes s) -> sleep_ok s'.
Proof.
  intros Hok Hp Hth Hl Ef. apply (sleep_keeps s s' t (Alerting k (u :: ts)) (alerting k ts) Hok).
  destruct (alerting_kinds k ts) as (K1 & K2 & K3 & K4 & K5 & K6).
  pose proof (not_waiting s t _ Hok Hp) as Hn. destruct Hn as [Hn1 Hn2]; [unfold asleep; cbn; tauto |].
  assert (Hfl : forall v, inflight s v -> inflight s' v).
  { intros v. apply (on_its_way_step srw_sending _ _ _ _ t (Alerting k (u :: ts)) (alerting k ts) v Hp Hth); rewrite Ef.
    - intros [-> | Hv]%elem_of_cons; [left; apply alert_alerts; by left | right].
      destruct ts; [by apply elem_of_nil in Hv | done].
    - intros Ha. apply alert_alerts. by right. }
  split; rewrite ?Ef, ?Hl; try done.
  - intros v _. apply Hfl.
  - intros v Hv. left. split; [intros ->; by apply Hn1 | done].
  - intros v Hv. left. split; [intros ->; by apply Hn2 | done].
  - by left.
  - by left.
  - intros v E0 Hv. right. split_and!; [done | done |]. by intros [? | [? _]].
  - intros v E0 Hv. right. split_and!; [done | done | by intros []].
Qed.

(** An alert from elsewhere. *)
Lemma sleep_outside s u : sleep_ok s -> sleep_ok (set_futexes (alert u (sw_futexes s)) s).
Proof.
  intros [H1 H2 H3 H4 H5 H6].
  assert (Hfl : forall v, inflight s v -> inflight (set_futexes (alert u (sw_futexes s)) s) v).
  { intros v [Ha | ?]; [left; apply alert_alerts; by right | by right]. }
  split; cbn [set_futexes sw_threads sw_futexes sw_lock] in *; try done.
  - intros t Ht. destruct (H3 t Ht); [by left | right; auto].
  - intros t Ht. destruct (H4 t Ht); [by left | right; auto].
  - intros t E0 Hw. destruct (H5 t E0 Hw) as (v & r & Hv & [? | [Hx Hb]]); exists v, r; (split; [done |]).
    + by left.
    + right. split; [done |]. intros E. by apply Hfl, Hb.
Qed.
End Invariant.
