(* ===== verification/SrwTheorems.v ===== *)
(** * What slim reader-writer locks promise

    Exclusion between owners and no forgotten sleepers, for any interleaving of up to
    32767 threads. *)

From stdpp Require Import base list gmap.
From Stdlib Require Import ZArith Lia ZifyBool.
From S2P Require Import Prelude Threads Futex Srw SrwProofs.

Open Scope Z_scope.

Section Steps.
Context (lock_addr variable_addr : Z).
Context (Hlock : lock_addr <> NULL) (Howners : owners_addr lock_addr <> NULL) (Hvar : variable_addr <> NULL).
Context (Hvl : variable_addr <> lock_addr) (Hvo : variable_addr <> owners_addr lock_addr).

Abbreviation sleep_ok := (sleep_ok lock_addr).
Abbreviation oaddr := (owners_addr lock_addr).

Lemma cas_cases s t old new d a :
  counts s -> in_width old ->
  (sw_lock s = old /\ cas t old new d a s = set_pc t d (set_lock new s)) \/ cas t old new d a s = set_pc t a s.
Proof.
  intros Hc Hold. unfold cas. destruct (Z.eqb_spec (srw_long (sw_lock s)) (srw_long old)) as [E | E]; [left | by right].
  split; [| done]. by apply srw_long_inj; [apply counts_width | |].
Qed.

Lemma lock_same s : set_lock (sw_lock s) s = s.
Proof. by destruct s. Qed.

(** ** The counters *)

Ltac quiet := eapply counts_quiet; [eassumption | eassumption | reflexivity | try done | try done | try done | try done | try done].

Lemma waits_counts s t p addr mem cmp size b a :
  counts s -> sw_threads s !! t = Some p -> pc_ok b -> pc_ok a ->
  xown b = xown p -> sown b = sown p -> xwait b = xwait p -> xown a = xown p -> sown a = sown p -> xwait a = xwait p ->
  counts (waits t addr mem cmp size b a s).
Proof. intros. unfold waits. destruct (wait_begin _ _ _ _ _ _) as [[] f]; quiet. Qed.

Lemma blocked_counts s s' t p b next :
  counts s -> sw_threads s !! t = Some p -> blocked t b next s = Some s' ->
  (forall st, pc_ok (next st) /\ xown (next st) = xown p /\ sown (next st) = sown p /\ xwait (next st) = xwait p) ->
  counts s'.
Proof.
  intros Hc Hp. unfold blocked. destruct (wait_for_alert _ _ _) as [[st f] |]; [| done]. intros [= <-] Hn.
  destruct (Hn st) as (? & ? & ? & ?). quiet.
Qed.

Lemma alerting_counts k ts :
  pc_ok (alerting k ts) /\ xown (alerting k ts) = xback k /\ sown (alerting k ts) = sback k /\ xwait (alerting k ts) = 0.
Proof. destruct ts; [destruct k as [| [] |] |]; done. Qed.

Lemma wakes_counts s t p all addr k :
  counts s -> sw_threads s !! t = Some p -> xown p = xback k -> sown p = sback k -> xwait p = 0 ->
  counts (wakes t all addr k s).
Proof.
  intros. unfold wakes. destruct (alerting_counts k ((if all then wake_all addr else wake_single addr) (sw_futexes s)).1)
    as (? & ? & ? & ?). quiet; congruence.
Qed.

Lemma relock_counts s s1 t p m :
  counts s -> sw_threads s !! t = Some p -> sw_threads s1 = sw_threads s -> sw_lock s1 = sw_lock s ->
  xown p = 0 -> sown p = 0 -> xwait p = 0 -> counts (relock t m s1).
Proof.
  intros Hc Hp E1 E2 ? ? ?. destruct m; cbn [relock].
  - eapply (counts_add_waiter s _ t p); [done | done | done | done | done | |]; cbn; by rewrite ?E1, ?E2.
  - eapply (counts_quiet s _ t p SA_read); [done | done | | done | | done | done | done]; cbn; by rewrite ?E1, ?E2.
Qed.

Lemma pc_of_back_counts k : not_owner k ->
  pc_ok (pc_of_back k) /\ xown (pc_of_back k) = 0 /\ sown (pc_of_back k) = 0 /\ xwait (pc_of_back k) = 0 /\
  xback k = 0 /\ sback k = 0.
Proof. by destruct k. Qed.

Lemma step_pc_counts t p b s s' :
  counts s -> sw_threads s !! t = Some p -> step_pc lock_addr variable_addr t p b s = Some s' -> counts s'.
Proof.
  intros Hc Hp. pose proof (cn_pc s Hc t p Hp) as Hok. pose proof (counts_width s Hc) as Hw.
  destruct p; cbn [step_pc]; try done.
  - intros [= <-]. quiet.
  - destruct (acquire_exclusive old) as [new wait] eqn:Ea. intros [= <-].
    destruct (cas_cases s t old new (if wait then XA_wait (owners new) else Owner Exclusive) XA_read Hc Hok) as [[El ->] | ->];
      [| quiet].
    pose proof Ea as Ea'. unfold acquire_exclusive in Ea. destruct (Z.eqb_spec (owners old) 0) as [E0 | E0]; injection Ea as <- <-.
    + eapply counts_acquire_exclusive; [exact Hc | exact Hp | exact El | done | reflexivity |]. by rewrite Ea'.
    + rewrite <- El, lock_same. quiet. cbn. destruct Hw. rewrite <- El in E0. lia.
  - intros [= <-]. by apply (waits_counts s t (XA_wait cmp)).
  - intros Hb. by apply (blocked_counts s s' t XA_block false XA_end).
  - intros [= <-]. quiet.
  - intros [= <-]. quiet.
  - destruct (acquire_shared old) as [new wait] eqn:Ea. intros [= <-].
    destruct (cas_cases s t old new (if wait then SA_wait new else Owner Shared) SA_read Hc Hok) as [[El ->] | ->]; [| quiet].
    unfold acquire_shared in Ea. destruct (Z.eqb_spec (exclusive_waiters old) 0) as [E0 | E0]; injection Ea as <- <-.
    + eapply (counts_enter_shared s _ t (SA_cas old) old); try done.
    + rewrite <- El, lock_same. quiet. cbn. by rewrite El.
  - intros [= <-]. by apply (waits_counts s t (SA_wait cmp)).
  - intros Hb. by apply (blocked_counts s s' t SA_block false SA_end).
  - intros [= <-]. quiet.
  - intros [= <-]. quiet.
  - intros [= <-]. destruct Hok as [Hk Hold].
    destruct (cas_cases s t old (release_exclusive old) (XR_wake k (release_exclusive old)) (XR_read k) Hc Hold) as [[El ->] | ->]; [| quiet].
    by eapply (counts_release_exclusive s _ t k old).
  - intros [= <-]. destruct (pc_of_back_counts k Hok) as (_ & _ & _ & _ & ? & ?).
    destruct (negb _); by eapply wakes_counts.
  - intros [= <-]. quiet.
  - intros [= <-]. destruct Hok as [Hk Hold].
    destruct (cas_cases s t old (release_shared old) (SR_wake k (release_shared old)) (SR_read k) Hc Hold) as [[El ->] | ->]; [| quiet].
    by eapply (counts_release_shared s _ t k old).
  - intros [= <-]. destruct (pc_of_back_counts k Hok) as (? & ? & ? & ? & ? & ?).
    destruct (_ =? 0); [by eapply wakes_counts | quiet].
  - intros [= <-]. quiet.
  - destruct (try_exclusive old) as [new ret] eqn:Ea. intros [= <-].
    destruct (cas_cases s t old new (if ret then Owner Exclusive else Idle) XT_read Hc Hok) as [[El ->] | ->]; [| quiet].
    pose proof Ea as Ea'. unfold try_exclusive in Ea. destruct (Z.eqb_spec (owners old) 0) as [E0 | E0]; injection Ea as <- <-.
    + eapply counts_try_exclusive; [exact Hc | exact Hp | exact El | done | reflexivity |]. by rewrite Ea'.
    + rewrite <- El, lock_same. quiet.
  - intros [= <-]. quiet.
  - destruct (try_shared old) as [new ret] eqn:Ea. intros [= <-].
    destruct (cas_cases s t old new (if ret then Owner Shared else Idle) ST_read Hc Hok) as [[El ->] | ->]; [| quiet].
    unfold try_shared in Ea. destruct (Z.eqb_spec (exclusive_waiters old) 0) as [E0 | E0]; injection Ea as <- <-.
    + eapply (counts_enter_shared s _ t (ST_cas old) old); try done.
    + rewrite <- El, lock_same. quiet.
  - intros [= <-]. destruct m; quiet.
  - destruct (wait_begin _ _ _ _ _ _) as [[st |] f]; intros [= <-]; [by eapply (relock_counts s _ t _ m Hc Hp) | quiet].
  - intros Hb. by apply (blocked_counts s s' t (CV_block m) b (CV_end m)).
  - intros [= <-]. by eapply (relock_counts s _ t _ m Hc Hp).
  - intros [= <-]. quiet.
  - intros [= <-]. by eapply wakes_counts.
  - destruct ts as [| u ts]; intros [= <-].
    + destruct k as [| [] |]; quiet.
    + destruct (alerting_counts k ts) as (? & ? & ? & ?). quiet.
Qed.

Lemma call_cases t c s s' :
  step lock_addr variable_addr (Ev_call t c) s = Some s' ->
  exists p, sw_threads s !! t = Some p /\
    ((p = Idle /\ s' = set_pc t XA_read (add_exclusive_waiter s)) \/
     exists q, begin_call c p = Some q /\ s' = set_pc t q s).
Proof.
  cbn [step]. destruct (sw_threads s !! t) as [p |]; [| done]. cbn [mbind option_bind]. intros H. exists p.
  split; [done |].
  destruct c as [[] | | [] | | |]; by_modes p; try done;
    injection H as <-; try (by left); right; by eexists.
Qed.

(** Entering a function: what changes of the thread's part in the invariant. *)
Lemma begin_call_kinds c p q : begin_call c p = Some q ->
  pc_ok q /\ xown q = xown p /\ sown q = sown p /\ xwait q = 0 /\ xwait p = 0 /\
  ~ asleep p /\ q <> XA_block /\ q <> SA_block /\ ~ wakes_one p /\ ~ wakes_shared p /\ (forall k ts, p <> Alerting k ts).
Proof.
  unfold asleep.
  destruct c as [[] | | [] | | |]; by_modes p; try done;
    intros [= <-]; split_and!; try done; cbn; tauto.
Qed.

Lemma step_counts ev s s' : counts s -> step lock_addr variable_addr ev s = Some s' -> counts s'.
Proof.
  intros Hc. destruct ev as [t c | t | t | t].
  - intros (p & Hp & [[-> ->] | (q & Hq & ->)])%call_cases; [by eapply (counts_add_waiter s _ t Idle) |].
    destruct (begin_call_kinds c p q Hq) as (? & ? & ? & ? & ? & _). quiet. congruence.
  - cbn [step]. destruct (sw_threads s !! t) as [p |] eqn:Hp; [| done]. cbn [mbind option_bind]. by apply step_pc_counts.
  - cbn [step]. destruct (sw_threads s !! t) as [p |] eqn:Hp; [| done]. cbn [mbind option_bind].
    destruct p; try done. by apply step_pc_counts.
  - intros [= <-]. by destruct Hc.
Qed.

(** ** The sleepers *)

Ltac calm := eapply (sleep_quiet lock_addr); [eassumption | eassumption | reflexivity | reflexivity | ..];
  cbn; unfold asleep; try (by intros []); try done; try (intros; right; split_and!; done || tauto).

Lemma cas_sleep s t p old new d a :
  counts s -> sleep_ok s -> sw_threads s !! t = Some p -> in_width old ->
  (sw_lock s = old -> sleep_ok (set_pc t d (set_lock new s))) ->
  ~ asleep p -> ~ wakes_one p -> ~ wakes_shared p -> (forall k ts, p <> Alerting k ts) ->
  a <> XA_block -> a <> SA_block -> (xwait p = 1 -> xwait a = 1) ->
  sleep_ok (cas t old new d a s).
Proof.
  intros Hc Hok Hp Hold Hd Hna H1 H2 Hpa Ha1 Ha2 Hx.
  destruct (cas_cases s t old new d a Hc Hold) as [[El ->] | ->]; [auto |].
  eapply (sleep_quiet lock_addr s _ t p a); try done.
  - intros k ts E. by apply Hpa in E.
  - intros u E0 _. by right.
  - intros E0. by right.
Qed.

Lemma waits_sleep s t p addr mem cmp size b a :
  sleep_ok s -> sw_threads s !! t = Some p -> ~ asleep p -> (forall k ts, p <> Alerting k ts) ->
  ~ wakes_one p -> ~ wakes_shared p -> a <> XA_block -> a <> SA_block -> (xwait p = 1 -> xwait a = 1) ->
  sleeps_at lock_addr variable_addr addr p -> sleeps_at lock_addr variable_addr addr b -> blocking b ->
  (compare_addr mem cmp size = true -> (addr = oaddr -> owners (sw_lock s) <> 0) /\
                                        (addr = lock_addr -> exclusive_waiters (sw_lock s) <> 0)) ->
  sleep_ok (waits t addr mem cmp size b a s).
Proof.
  intros Hok Hp Hna Hpa H1 H2 Ha1 Ha2 Hx Hsp Hsb Hb Hcmp. unfold waits.
  destruct (wait_begin addr mem cmp size t (sw_futexes s)) as [[st |] f] eqn:Ew.
  - apply wait_begin_returns in Ew as ->. eapply (sleep_quiet lock_addr s _ t p a); try done.
    + intros k ts E. by apply Hpa in E.
    + intros u E0 _. by right.
    + intros E0. by right.
  - destruct (wait_begin_waits _ _ _ _ _ _ _ 0 0%nat Ew) as (Hc & _). destruct (Hcmp Hc) as [Ho Hw].
    by eapply (sleep_enqueue lock_addr variable_addr Hvl Hvo s _ t p b addr).
Qed.

Lemma wakes_sleep s t p all addr k :
  sleep_ok s -> sw_threads s !! t = Some p -> addr <> NULL -> ~ asleep p -> xwait p = 0 ->
  (forall k' ts', p <> Alerting k' ts') ->
  (wakes_one p -> addr = oaddr /\ all = false) -> (wakes_shared p -> addr = lock_addr /\ all = true) ->
  sleep_ok (wakes t all addr k s).
Proof.
  intros Hok Hp Ha Hna Hx Hpa H1 H2. unfold wakes. destruct all.
  - destruct (wake_all addr (sw_futexes s)) as [ts f] eqn:Ew. cbn [fst snd].
    destruct (wake_all_wakes addr _ _ _ Ha Ew) as (Hal & Hw & Hts).
    eapply (sleep_wake lock_addr s _ t p k ts); try done; cbn.
    + intros a u Hu. by apply Hw.
    + intros a u Hu. destruct (decide (a = addr)) as [-> | Ne]; [right; by apply Hts | left; by apply Hw].
    + intros E. by destruct (H1 E).
    + intros E u Hu. destruct (H2 E) as [-> _]. by apply Hw in Hu as [_ ?].
  - destruct (wake_single addr (sw_futexes s)) as [ts f] eqn:Ew. cbn [fst snd].
    destruct (wake_single_wakes addr _ _ _ Ha Ew) as (Hal & Hw1 & Hw2 & Hw3 & _).
    eapply (sleep_wake lock_addr s _ t p k ts); try done; cbn.
    + intros a u Hu. destruct (Hw2 a u Hu) as [? | [_ ?]]; [by left | by right].
    + intros E u Hu. destruct (H1 E) as [-> _]. apply (Hw3 u). by apply Hw1.
    + intros E. by destruct (H2 E).
Qed.

(** Between the wait on the condition variable and the lock. *)
Lemma relock_sleep s s1 t p m :
  counts s -> sleep_ok s -> sw_threads s !! t = Some p -> sw_threads s1 = sw_threads s -> sw_lock s1 = sw_lock s ->
  xown p = 0 -> sown p = 0 -> xwait p = 0 -> sleeps_at lock_addr variable_addr variable_addr p ->
  (~ blocking p /\ sw_futexes s1 = sw_futexes s \/
   exists st, sw_futexes s1 = (wait_end variable_addr t st (sw_futexes s)).2) ->
  sleep_ok (relock t m s1).
Proof.
  intros Hc Hok Hp E1 E2 P1 P2 P3 Hsp Hf.
  set (q := match m with Exclusive => XA_read | Shared => SA_read end).
  assert (Eq : sw_threads (relock t m s1) = <[t := q]> (sw_threads s)) by (destruct m; cbn; by rewrite E1).
  assert (Eo : owners (sw_lock (relock t m s1)) = owners (sw_lock s)) by (destruct m; cbn; by rewrite E2).
  assert (Ef : sw_futexes (relock t m s1) = sw_futexes s1) by by destruct m.
  assert (Hc' : counts (relock t m s1)) by by apply (relock_counts s s1 t p m).
  assert (Ew : exclusive_waiters (sw_lock (relock t m s1)) = 0 -> exclusive_waiters (sw_lock s) = 0).
  { intros E0. destruct m; [exfalso | cbn in E0; by rewrite E2 in E0].
    apply (counts_free _ Hc') in E0 as [_ E0]. rewrite Eq, (total_insert xwait _ _ _ _ Hp), P3 in E0. cbn in E0.
    pose proof (total_nonneg xwait (sw_threads s) (fun p => proj1 (xwait_01 p))). lia. }
  assert (Hk : ~ wakes_one p /\ ~ wakes_shared p /\ (forall k ts, p <> Alerting k ts)) by (destruct p; cbn in Hsp; try done; split_and!; try done; cbn; tauto).
  destruct Hk as (K1 & K2 & K3). destruct Hf as [[_ Hf] | [st Hf]].
  - eapply (sleep_quiet lock_addr s _ t p q); try done.
    + congruence.
    + unfold asleep. destruct p; cbn in *; try done; tauto.
    + by destruct m.
    + by destruct m.
    + intros k ts E. by apply K3 in E.
    + intros u E0 _. right. rewrite Eo in E0. split_and!; [done | by rewrite P3 | done].
    + intros E0. right. split; [auto | done].
  - eapply (sleep_end lock_addr variable_addr s _ t p q variable_addr st); try done.
    + congruence.
    + by destruct m.
    + by destruct m.
    + by rewrite P3.
Qed.

Ltac side := try done; try (unfold asleep; cbn; tauto).

(** Giving the lock up leaves the thread about to wake whoever waits. *)
Lemma release_exclusive_sleep s t k old :
  counts s -> sleep_ok s -> sw_threads s !! t = Some (XR_cas k old) -> sw_lock s = old ->
  sleep_ok (set_pc t (XR_wake k (release_exclusive old)) (set_lock (release_exclusive old) s)).
Proof.
  intros Hc Hok Hp El.
  assert (Hc' : counts (set_pc t (XR_wake k (release_exclusive old)) (set_lock (release_exclusive old) s)))
    by by eapply counts_release_exclusive.
  eapply (sleep_quiet lock_addr s _ t (XR_cas k old)); try done.
  - by intros [].
  - intros u _ Hu. left. cbn [wakes_one]. intros E0. apply (counts_free _ Hc') in E0 as [_ E0].
    destruct (so_x _ s Hok u Hu) as (r & Hr & Hxs).
    assert (u <> t) by (intros ->; rewrite Hp in Hr; by injection Hr as <-).
    assert (Hr' : <[t := XR_wake k (release_exclusive old)]> (sw_threads s) !! u = Some r)
      by by rewrite list_lookup_insert_ne.
    pose proof (total_part xwait _ u r (fun p => proj1 (xwait_01 p)) Hr'). cbn [set_pc set_lock sw_threads] in E0.
    assert (xwait r = 1) by by destruct r. lia.
  - intros E0. by left.
Qed.

Lemma release_shared_sleep s t k old :
  counts s -> sleep_ok s -> sw_threads s !! t = Some (SR_cas k old) -> sw_lock s = old ->
  sleep_ok (set_pc t (SR_wake k (release_shared old)) (set_lock (release_shared old) s)).
Proof.
  intros Hc Hok Hp El. eapply (sleep_quiet lock_addr s _ t (SR_cas k old)); try done.
  - by intros [].
  - intros u E0 _. by left.
  - intros E0. right. split; [by rewrite El | by intros []].
Qed.

(** Taking the lock: the counters cannot be zero. *)
Lemma enter_exclusive_sleep s t p new :
  sleep_ok s -> sw_threads s !! t = Some p -> counts (set_pc t (Owner Exclusive) (set_lock new s)) -> owners new <> 0 ->
  ~ asleep p -> (forall k ts, p <> Alerting k ts) -> sleep_ok (set_pc t (Owner Exclusive) (set_lock new s)).
Proof.
  intros Hok Hp Hc' Ho Hna Hpa. eapply (sleep_quiet lock_addr s _ t p); try done.
  - intros k ts E. by apply Hpa in E.
  - intros E0. exfalso. apply (counts_free _ Hc') in E0 as [E0 _].
    assert (Ht : <[t := Owner Exclusive]> (sw_threads s) !! t = Some (Owner Exclusive))
      by (apply list_lookup_insert_eq; by apply lookup_lt_Some in Hp).
    pose proof (total_part xown _ t _ (fun p => proj1 (xown_01 p)) Ht) as H1.
    cbn [set_pc set_lock sw_threads xown] in *. lia.
Qed.

Lemma enter_shared_sleep s t p old :
  counts s -> sleep_ok s -> sw_threads s !! t = Some p -> sw_lock s = old -> exclusive_waiters old = 0 ->
  xown p = 0 -> sown p = 0 -> xwait p = 0 -> ~ asleep p -> ~ wakes_shared p -> (forall k ts, p <> Alerting k ts) ->
  sleep_ok (set_pc t (Owner Shared) (set_lock (mkSrw (exclusive_waiters old) (u16 (owners old + 1))) s)).
Proof.
  intros Hc Hok Hp El E0 P1 P2 P3 Hna Hn Hpa.
  assert (Hc' : counts (set_pc t (Owner Shared) (set_lock (mkSrw (exclusive_waiters old) (u16 (owners old + 1))) s)))
    by by eapply (counts_enter_shared s _ t p old).
  eapply (sleep_quiet lock_addr s _ t p); try done.
  - intros k ts E. by apply Hpa in E.
  - intros u Eo. exfalso. pose proof (cn_owners _ Hc') as Ho. rewrite Eo in Ho.
    assert (Ht : <[t := Owner Shared]> (sw_threads s) !! t = Some (Owner Shared))
      by (apply list_lookup_insert_eq; by apply lookup_lt_Some in Hp).
    pose proof (total_part sown _ t _ (fun p => proj1 (sown_01 p)) Ht) as H1.
    pose proof (counts_bounds _ Hc'). cbn [set_pc set_lock sw_threads sown] in *. lia.
  - intros _. right. split; [by rewrite El | done].
Qed.

Lemma wait_long l cmp : in_width l -> in_width cmp -> compare_addr (srw_long l) (srw_long cmp) 4 = true -> l = cmp.
Proof.
  intros Hl Hc H. apply srw_long_inj; [done | done |]. cbn in H. apply Z.eqb_eq in H. unfold srw_long in *.
  pose proof (u16_range (exclusive_waiters l)). pose proof (u16_range (owners l)).
  pose proof (u16_range (exclusive_waiters cmp)). pose proof (u16_range (owners cmp)).
  rewrite !(uwrap_small 32) in H by lia. exact H.
Qed.

Lemma back_calm s t p k :
  sleep_ok s -> sw_threads s !! t = Some p -> ~ asleep p -> ~ wakes_one p -> ~ wakes_shared p -> xwait p = 0 ->
  (forall k' ts, p = Alerting k' ts -> ts = []) -> sleep_ok (set_pc t (pc_of_back k) s).
Proof.
  intros Hok Hp Hna H1 H2 Hx Hpa. eapply (sleep_quiet lock_addr s _ t p); try done.
  - by destruct k.
  - by destruct k.
  - intros u E0 _. right. by rewrite Hx.
  - intros E0. by right.
Qed.

Lemma step_pc_sleep t p b s s' :
  counts s -> sleep_ok s -> sw_threads s !! t = Some p ->
  step_pc lock_addr variable_addr t p b s = Some s' -> sleep_ok s'.
Proof.
  intros Hc Hok Hp Hst. pose proof (cn_pc s Hc t p Hp) as Hpc. pose proof (counts_width s Hc) as Hwd.
  destruct p; cbn [step_pc] in Hst; try done.
  - injection Hst as <-. calm.
  - destruct (acquire_exclusive old) as [new wait] eqn:Ea. injection Hst as <-. eapply cas_sleep; side.
    intros El. pose proof Ea as Ea'. unfold acquire_exclusive in Ea.
    destruct (Z.eqb_spec (owners old) 0) as [E0 | E0]; injection Ea as <- <-.
    + eapply (enter_exclusive_sleep s t (XA_cas old)); side. eapply counts_acquire_exclusive; try done. by rewrite Ea'.
    + rewrite <- El, lock_same. calm.
  - injection Hst as <-. eapply waits_sleep; side.
    intros Hcmp. split; [intros _ | intros E; by apply owners_not_lock in E].
    cbn in Hcmp. destruct Hwd as [_ Hwd]. rewrite !(uwrap_small 16) in Hcmp by (simpl in *; lia). cbn in Hpc. lia.
  - unfold blocked in Hst. destruct (wait_for_alert _ _ _) as [[st f] |] eqn:Ew; [| done]. injection Hst as <-.
    eapply (sleep_blocked lock_addr s _ t); try done. by left.
  - injection Hst as <-. eapply (sleep_end lock_addr variable_addr s _ t); side.
  - injection Hst as <-. calm.
  - destruct (acquire_shared old) as [new wait] eqn:Ea. injection Hst as <-. eapply cas_sleep; side.
    intros El. unfold acquire_shared in Ea. destruct (Z.eqb_spec (exclusive_waiters old) 0) as [E0 | E0]; injection Ea as <- <-.
    + by eapply (enter_shared_sleep s t (SA_cas old)); side.
    + rewrite <- El, lock_same. calm.
  - injection Hst as <-. destruct Hpc as [Hcw Hce]. eapply waits_sleep; side.
    intros Hcmp. split; [intros E; symmetry in E; by apply owners_not_lock in E | intros _].
    rewrite (wait_long (sw_lock s) cmp); done.
  - unfold blocked in Hst. destruct (wait_for_alert _ _ _) as [[st f] |] eqn:Ew; [| done]. injection Hst as <-.
    eapply (sleep_blocked lock_addr s _ t); try done. right. by left.
  - injection Hst as <-. eapply (sleep_end lock_addr variable_addr s _ t); side.
  - injection Hst as <-. calm.
  - injection Hst as <-. destruct Hpc as [_ Hold]. eapply cas_sleep; side. by apply release_exclusive_sleep.
  - injection Hst as <-. destruct (Z.eqb_spec (exclusive_waiters new) 0) as [E0 | E0]; cbn [negb]; eapply wakes_sleep; side.
  - injection Hst as <-. calm.
  - injection Hst as <-. destruct Hpc as [_ Hold]. eapply cas_sleep; side. by apply release_shared_sleep.
  - injection Hst as <-. destruct (Z.eqb_spec (owners new) 0) as [E0 | E0]; [eapply wakes_sleep; side |].
    eapply back_calm; side.
  - injection Hst as <-. calm.
  - destruct (try_exclusive old) as [new ret] eqn:Ea. injection Hst as <-. eapply cas_sleep; side.
    intros El. pose proof Ea as Ea'. unfold try_exclusive in Ea.
    destruct (Z.eqb_spec (owners old) 0) as [E0 | E0]; injection Ea as <- <-.
    + eapply (enter_exclusive_sleep s t (XT_cas old)); side. eapply counts_try_exclusive; try done. by rewrite Ea'.
    + rewrite <- El, lock_same. calm.
  - injection Hst as <-. calm.
  - destruct (try_shared old) as [new ret] eqn:Ea. injection Hst as <-. eapply cas_sleep; side.
    intros El. unfold try_shared in Ea. destruct (Z.eqb_spec (exclusive_waiters old) 0) as [E0 | E0]; injection Ea as <- <-.
    + by eapply (enter_shared_sleep s t (ST_cas old)); side.
    + rewrite <- El, lock_same. calm.
  - injection Hst as <-. destruct m; calm.
  - destruct (wait_begin _ _ _ _ _ _) as [[st |] f] eqn:Ew; injection Hst as <-.
    + eapply (relock_sleep s _ t _ m Hc Hok Hp); side. left. split; [by intros [] |]. cbn.
      by apply wait_begin_returns in Ew.
    + eapply (sleep_enqueue lock_addr variable_addr Hvl Hvo s _ t (CV_wait m value) (CV_block m)); side.
  - unfold blocked in Hst. destruct (wait_for_alert _ _ _) as [[st f] |] eqn:Ew; [| done]. injection Hst as <-.
    eapply (sleep_blocked lock_addr s _ t); try done. right. right. by exists m.
  - injection Hst as <-. eapply (relock_sleep s _ t _ m Hc Hok Hp); side. right. by exists st.
  - injection Hst as <-. calm.
  - injection Hst as <-. eapply wakes_sleep; side.
  - destruct ts as [| u ts]; injection Hst as <-.
    + eapply back_calm; side. by intros k' ts' [= _ <-].
    + by eapply (sleep_alert lock_addr s _ t u k ts).
Qed.

Lemma add_waiter_sleep s t :
  counts s -> sleep_ok s -> sw_threads s !! t = Some Idle -> sleep_ok (set_pc t XA_read (add_exclusive_waiter s)).
Proof.
  intros Hc Hok Hp.
  assert (Hc' : counts (set_pc t XA_read (add_exclusive_waiter s))) by by eapply (counts_add_waiter s _ t Idle).
  eapply (sleep_quiet lock_addr s _ t Idle XA_read); side.
  intros E0. exfalso. apply (counts_free _ Hc') in E0 as [_ E0].
  assert (Ht : <[t := XA_read]> (sw_threads s) !! t = Some XA_read)
    by (apply list_lookup_insert_eq; by apply lookup_lt_Some in Hp).
  pose proof (total_part xwait _ t _ (fun p => proj1 (xwait_01 p)) Ht) as H1.
  cbn [set_pc add_exclusive_waiter set_lock sw_threads xwait] in *. lia.
Qed.

Lemma step_sleep ev s s' :
  counts s -> sleep_ok s -> step lock_addr variable_addr ev s = Some s' -> sleep_ok s'.
Proof.
  intros Hc Hok. destruct ev as [t c | t | t | t].
  - intros (p & Hp & [[-> ->] | (q & Hq & ->)])%call_cases; [by apply add_waiter_sleep |].
    destruct (begin_call_kinds c p q Hq) as (_ & _ & _ & Hq0 & Hp0 & ? & ? & ? & ? & ? & Hpa).
    eapply (sleep_quiet lock_addr s _ t p q); try done.
    + intros k ts E. by apply Hpa in E.
    + intros u E0 _. right. by rewrite Hp0.
    + intros E0. by right.
  - cbn [step]. destruct (sw_threads s !! t) as [p |] eqn:Hp; [| done]. cbn [mbind option_bind]. by apply step_pc_sleep.
  - cbn [step]. destruct (sw_threads s !! t) as [p |] eqn:Hp; [| done]. cbn [mbind option_bind].
    destruct p; try done. by apply step_pc_sleep.
  - intros [= <-]. by apply sleep_outside.
Qed.

Lemma initial_ok n : Z.of_nat n < 2 ^ 15 -> counts (initial n) /\ sleep_ok (initial n).
Proof.
  intros Hn. split; split; cbn [initial sw_lock sw_threads sw_futexes RtlInitializeSRWLock owners exclusive_waiters].
  - by rewrite length_replicate.
  - rewrite !total_replicate. cbn [xown sown]. lia.
  - rewrite !total_replicate. cbn [xown xwait]. rewrite !Z.mul_0_r. done.
  - rewrite !total_replicate. cbn [xown sown]. left. lia.
  - intros t p [-> _]%lookup_replicate. done.
  - intros t H. by apply waiting_none in H.
  - intros t H. by apply waiting_none in H.
  - intros t [? _]%lookup_replicate. done.
  - intros t [? _]%lookup_replicate. done.
  - intros t _ H. by apply waiting_none in H.
  - intros t _ H. by apply waiting_none in H.
Qed.

Lemma reachable_inv n s :
  Z.of_nat n < 2 ^ 15 -> reachable lock_addr variable_addr n s -> counts s /\ sleep_ok s.
Proof.
  intros Hn. induction 1 as [| ev s s' _ [Hc Hok] Hst]; [by apply initial_ok |].
  split; [by eapply step_counts | by eapply step_sleep].
Qed.

(** ** Who can go on *)

(** The thread owns the lock, or is in a function and not blocked. *)
Definition can_step (s : srw_state) (u : nat) : Prop := is_Some (step lock_addr variable_addr (Ev_step u) s).

Lemma inflight_steps s u p :
  sw_threads s !! u = Some p -> (p = XA_block \/ p = SA_block) -> inflight s u -> exists v, can_step s v.
Proof.
  intros Hp Hb [Ha | (v & r & Hv & Hu)].
  - exists u. unfold can_step. cbn [step]. rewrite Hp. cbn [mbind option_bind].
    destruct Hb as [-> | ->]; cbn [step_pc]; unfold blocked, wait_for_alert;
      rewrite bool_decide_eq_true_2 by done; by eexists.
  - exists v. unfold can_step. cbn [step]. rewrite Hv. cbn [mbind option_bind].
    destruct r; try (by apply elem_of_nil in Hu). destruct ts; by eexists.
Qed.

Definition owns (p : pc) : Prop := xown p = 1 \/ sown p = 1.

Lemma x_waiter_progress s u p :
  counts s -> sleep_ok s -> sw_threads s !! u = Some p -> xwait p = 1 ->
  (exists v q, sw_threads s !! v = Some q /\ owns q) \/ exists v, can_step s v.
Proof.
  intros Hc Hok Hp Hx.
  assert (Hgo : forall v q, sw_threads s !! v = Some q -> awake s v q -> exists w, can_step s w).
  { intros v q Hv [H1 | [H1 H2]].
    - exists v. unfold can_step. cbn [step]. rewrite Hv. cbn [mbind option_bind]. destruct q; try done; by eexists.
    - destruct q; try done; try (exists v; unfold can_step; cbn [step]; rewrite Hv; cbn [mbind option_bind step_pc];
        try destruct (acquire_exclusive _); by eexists).
      eapply (inflight_steps s v XA_block); [done | by left | by apply H2]. }
  destruct (decide (owners (sw_lock s) = 0)) as [E0 | E0].
  - right. destruct p; try done; try (eapply (Hgo u); [exact Hp | right; by split]).
    destruct (so_xb _ s Hok u Hp) as [Hw | Hf]; [| by eapply (inflight_steps s u XA_block); [| left |]].
    destruct (so_awake _ s Hok u E0 Hw) as (v & q & Hv & Haw). by eapply Hgo.
  - left. rewrite (cn_owners s Hc) in E0. pose proof (counts_bounds s Hc).
    destruct (Z.lt_ge_cases 0 (total xown (sw_threads s))) as [Hpos | Hz].
    + apply total_positive in Hpos as (v & q & Hv & Hq). exists v, q. split; [done |]. left. pose proof (xown_01 q). lia.
    + assert (Hpos : 0 < total sown (sw_threads s)) by lia.
      apply total_positive in Hpos as (v & q & Hv & Hq). exists v, q. split; [done |]. right. pose proof (sown_01 q). lia.
Qed.

Lemma s_waiter_progress s u :
  counts s -> sleep_ok s -> sw_threads s !! u = Some SA_block ->
  (exists v q, sw_threads s !! v = Some q /\ owns q) \/ exists v, can_step s v.
Proof.
  intros Hc Hok Hp. destruct (so_sb _ s Hok u Hp) as [Hw | Hf]; [| right; by eapply (inflight_steps s u SA_block); [| right |]].
  destruct (decide (exclusive_waiters (sw_lock s) = 0)) as [E0 | E0].
  - right. destruct (so_shared _ s Hok u E0 Hw) as (v & q & Hv & Hq). exists v. unfold can_step. cbn [step]. rewrite Hv.
    cbn [mbind option_bind]. by destruct q.
  - pose proof (counts_bounds s Hc). destruct (Z.lt_ge_cases 0 (total xwait (sw_threads s))) as [Hpos | Hz].
    + apply total_positive in Hpos as (v & q & Hv & Hq). eapply (x_waiter_progress s v q Hc Hok Hv).
      pose proof (xwait_01 q). lia.
    + destruct (Z.lt_ge_cases 0 (total xown (sw_threads s))) as [Hpos | Hz'].
      * apply total_positive in Hpos as (v & q & Hv & Hq). left. exists v, q. split; [done |]. left.
        pose proof (xown_01 q). lia.
      * exfalso. apply E0. rewrite (cn_waiters s Hc). assert (Ez : 2 * total xwait (sw_threads s) + total xown (sw_threads s) = 0) by lia.
        by rewrite Ez.
Qed.

Lemma run_reachable n evs s s' :
  reachable lock_addr variable_addr n s -> run lock_addr variable_addr evs s = Some s' ->
  reachable lock_addr variable_addr n s'.
Proof.
  revert s. induction evs as [| ev evs IH]; intros s Hr; cbn [run]; [by intros [= <-] |].
  destruct (step lock_addr variable_addr ev s) as [s1 |] eqn:Es; [| done]. cbn [mbind option_bind].
  apply IH. by eapply reach_step.
Qed.

(** C19: in any interleaving of fewer than 2^15 threads, also through condition variables, a
    thread that owns the lock exclusively is the only owner, and the counters of the lock
    are the owners and twice the exclusive waiters plus the exclusive owner. *)
Theorem srw_exclusion n s :
  Z.of_nat n < 2 ^ 15 -> reachable lock_addr variable_addr n s ->
  (forall t u p q, t <> u -> sw_threads s !! t = Some p -> sw_threads s !! u = Some q ->
     xown p = 1 -> ~ owns q) /\
  owners (sw_lock s) = total xown (sw_threads s) + total sown (sw_threads s) /\
  exclusive_waiters (sw_lock s) = i16 (2 * total xwait (sw_threads s) + total xown (sw_threads s)).
Proof.
  intros Hn Hr. destruct (reachable_inv n s Hn Hr) as [Hc _]. split_and!; [| apply Hc | apply Hc].
  intros t u p q Ne Hp Hq Hx Ho. pose proof (cn_exclusive s Hc).
  pose proof (total_pair xown _ t u p q (fun p => proj1 (xown_01 p)) Ne Hp Hq).
  pose proof (total_part sown _ u q (fun p => proj1 (sown_01 p)) Hq).
  pose proof (total_part xown _ t p (fun p => proj1 (xown_01 p)) Hp). destruct Ho; lia.
Qed.

(** C20: no wake-up is lost: in any reachable state of fewer than 2^15 threads in which nobody
    owns the lock and no thread can take a step, no thread waits for the lock. *)
Theorem srw_no_lost_wakeup n s :
  Z.of_nat n < 2 ^ 15 -> reachable lock_addr variable_addr n s ->
  (forall v q, sw_threads s !! v = Some q -> ~ owns q) -> (forall v, ~ can_step s v) ->
  forall t p, sw_threads s !! t = Some p -> p = Idle \/ exists m, p = CV_block m.
Proof.
  intros Hn Hr Hno Hstuck t p Hp. destruct (reachable_inv n s Hn Hr) as [Hc Hok].
  assert (Hx : xwait p = 1 \/ p = SA_block -> False).
  { intros Hw. destruct Hw as [Hw | ->].
    - destruct (x_waiter_progress s t p Hc Hok Hp Hw) as [(v & q & Hv & Hq) | [v Hv]]; [by eapply Hno | by eapply Hstuck].
    - destruct (s_waiter_progress s t Hc Hok Hp) as [(v & q & Hv & Hq) | [v Hv]]; [by eapply Hno | by eapply Hstuck]. }
  specialize (Hstuck t). specialize (Hno t p Hp). unfold can_step in Hstuck. cbn [step] in Hstuck. rewrite Hp in Hstuck.
  cbn [mbind option_bind] in Hstuck.
  destruct p; try (by left); try (right; by eexists); exfalso; try (apply Hx; by left); try (apply Hx; by right);
    try (apply Hno; unfold owns; destruct m; cbn; tauto);
    apply Hstuck; cbn [step_pc]; repeat case_match; by eexists.
Qed.
End Steps.

(** ** Witnesses *)

(** Thread 0 acquires exclusively, 1 goes to sleep for exclusive and 2 for shared access. *)
Definition demo_events : list event :=
  [Ev_call 0 (RtlAcquireSRWLock Exclusive); Ev_step 0; Ev_step 0;
   Ev_call 1 (RtlAcquireSRWLock Exclusive); Ev_step 1; Ev_step 1; Ev_step 1;
   Ev_call 2 (RtlAcquireSRWLock Shared); Ev_step 2; Ev_step 2; Ev_step 2].

(** Thread 0 releases; 1 is woken, acquires and releases, which wakes 2; 2 acquires and
    sleeps on the condition variable. *)
Definition demo_more : list event :=
  [Ev_call 0 RtlReleaseSRWLock; Ev_step 0; Ev_step 0; Ev_step 0; Ev_step 0;
   Ev_step 1; Ev_step 1; Ev_step 1; Ev_step 1;
   Ev_call 1 RtlReleaseSRWLock; Ev_step 1; Ev_step 1; Ev_step 1; Ev_step 1;
   Ev_step 2; Ev_step 2; Ev_step 2; Ev_step 2;
   Ev_call 2 RtlSleepConditionVariableSRW; Ev_step 2; Ev_step 2; Ev_step 2; Ev_step 2; Ev_step 2].

Definition demo_held : srw_state := default (initial 3) (run 64 128 demo_events (initial 3)).
Definition demo_quiet : srw_state := default (initial 3) (run 64 128 demo_more demo_held).

Lemma demo_held_reachable : reachable 64 128 3 demo_held.
Proof. apply (run_reachable 64 128 3 demo_events (initial 3)); [constructor | vm_compute; reflexivity]. Qed.

Lemma demo_quiet_reachable : reachable 64 128 3 demo_quiet.
Proof. apply (run_reachable 64 128 3 demo_more demo_held); [apply demo_held_reachable | vm_compute; reflexivity]. Qed.

Lemma srw_exclusion_witness :
  sw_threads demo_held = [Owner Exclusive; XA_block; SA_block] /\ ~ owns XA_block /\ ~ owns SA_block.
Proof.
  assert (H := srw_exclusion 64 128). specialize (H ltac:(discriminate) ltac:(discriminate) ltac:(discriminate)
    ltac:(discriminate) ltac:(discriminate) 3%nat demo_held ltac:(reflexivity) demo_held_reachable).
  destruct H as (H & _). split; [vm_compute; reflexivity |].
  split; [apply (H 0%nat 1%nat (Owner Exclusive)) | apply (H 0%nat 2%nat (Owner Exclusive))];
    (discriminate || (vm_compute; reflexivity)).
Defined.

Lemma srw_no_lost_wakeup_witness :
  sw_threads demo_quiet = [Idle; Idle; CV_block Shared] /\
  forall t p, sw_threads demo_quiet !! t = Some p -> p = Idle \/ exists m, p = CV_block m.
Proof.
  assert (E : sw_threads demo_quiet = [Idle; Idle; CV_block Shared]) by (vm_compute; reflexivity).
  split; [exact E |].
  apply (srw_no_lost_wakeup 64 128 ltac:(discriminate) ltac:(discriminate) ltac:(discriminate)
    ltac:(discriminate) ltac:(discriminate) 3%nat demo_quiet ltac:(reflexivity) demo_quiet_reachable).
  - intros v q Hq. rewrite E in Hq. clear E.
    destruct v as [| [| [| v]]]; [.. | discriminate Hq]; injection Hq as <-; intros []; discriminate.
  - intros v [s' Hs]. unfold step in Hs. rewrite E in Hs. clear E.
    destruct v as [| [| [| v]]]; [discriminate Hs | discriminate Hs | vm_compute in Hs; discriminate Hs | discriminate Hs].
Defined.
