(* ===== verification/CritSect.v ===== *)
(** * Critical sections

    Models [RtlEnterCriticalSection], [RtlTryEnterCriticalSection] and
    [RtlLeaveCriticalSection] of [src/dlls/ntdll/sync.c] with the waits under them, for
    one section used by any number of threads.  As in [Srw], one step is one access to
    shared memory or one futex operation.  Owners are thread numbers, [None] for 0.

    A thread knows how often it has entered, [n]; it only leaves what it has entered, and
    enters at most [max_depth] times.  [LockSemaphore] starts as 0 and is only ever set
    to 0 and 1, so [get_semaphore] finds no handle and the futex path is taken; a section
    whose owner stored a semaphore handle there is not modelled.  Debug information and
    messages are left out.  A wait may time out at any time, and starts again. *)

From stdpp Require Import base list gmap.
From Stdlib Require Import ZArith Lia.
From S2P Require Import Prelude Futex.

Open Scope Z_scope.

Record crit_sect := mkCrit {
  LockCount : Z;
  RecursionCount : Z;
  OwningThread : option nat;
  LockSemaphore : Z;
  SpinCount : Z
}.

(** [RtlInitializeCriticalSectionEx]; a machine with one processor does not spin. *)
Definition RtlInitializeCriticalSectionEx (processors spincount : Z) : crit_sect :=
  let spincount := if processors <=? 1 then 0 else spincount in
  mkCrit (-1) 0 None 0 (Z.land spincount (Z.lnot 0x80000000)).

Definition get_semaphore (c : crit_sect) : option Z :=
  if 1 <? LockSemaphore c then Some (LockSemaphore c) else None.

Definition max_depth : nat := 4096.

(** Program points; [n] is how often the thread has entered so far. *)
Inductive cs_pc :=
  | Run (n : nat)
  (* RtlEnterCriticalSection: trying first and spinning *)
  | E_begin (n : nat) | E_try (n : nat) | E_try_own (n : nat) | E_try_inc (n : nat) | E_try_rec (n : nat)
  | E_spin (n : nat) (count : Z) | E_spin_free (n : nat) (count : Z) | E_spin_cas (n : nat) (count : Z)
  | E_inc (n : nat) | E_own (n : nat) | E_rec (n : nat)
  (* RtlpWaitForCriticalSection *)
  | W_begin (n : nat) | W_cas (n : nat) | W_wait (n : nat) | W_block (n : nat) | W_end (n : nat) (st : Z)
  (* the section is ours *)
  | E_done | E_count
  (* RtlTryEnterCriticalSection *)
  | T_cas (n : nat) | T_own (n : nat) | T_inc (n : nat) | T_rec (n : nat)
  (* RtlLeaveCriticalSection *)
  | L_dec (n : nat) | L_down (n : nat) | L_clear | L_unlock
  (* RtlpUnWaitCriticalSection *)
  | L_set | L_wake | L_alert (ts : list nat).

Record cs_state := mkCsState { cr_sect : crit_sect; cr_futexes : futexes; cr_threads : list cs_pc }.

Inductive cs_call := RtlEnterCriticalSection | RtlTryEnterCriticalSection | RtlLeaveCriticalSection.

Inductive cs_event := Cs_call (t : nat) (c : cs_call) | Cs_step (t : nat) | Cs_timeout (t : nat) | Cs_alert (t : nat).

Definition with_lock_count (v : Z) (c : crit_sect) : crit_sect :=
  mkCrit v (RecursionCount c) (OwningThread c) (LockSemaphore c) (SpinCount c).
Definition with_recursion (v : Z) (c : crit_sect) : crit_sect :=
  mkCrit (LockCount c) v (OwningThread c) (LockSemaphore c) (SpinCount c).
Definition with_owner (v : option nat) (c : crit_sect) : crit_sect :=
  mkCrit (LockCount c) (RecursionCount c) v (LockSemaphore c) (SpinCount c).
Definition with_semaphore (v : Z) (c : crit_sect) : crit_sect :=
  mkCrit (LockCount c) (RecursionCount c) (OwningThread c) v (SpinCount c).

Section Machine.
(** The address of [LockSemaphore], and whether the process is shutting down. *)
Context (sem_addr : Z) (RtlDllShutdownInProgress : bool).

Definition cs_go (t : nat) (q : cs_pc) (s : cs_state) : cs_state :=
  mkCsState (cr_sect s) (cr_futexes s) (<[t := q]> (cr_threads s)).
Definition on_sect (f : crit_sect -> crit_sect) (s : cs_state) : cs_state :=
  mkCsState (f (cr_sect s)) (cr_futexes s) (cr_threads s).
Definition cs_set_futexes (f : futexes) (s : cs_state) : cs_state :=
  mkCsState (cr_sect s) f (cr_threads s).

Definition add_lock_count (d : Z) : cs_state -> cs_state :=
  on_sect (fun c => with_lock_count (i32 (LockCount c + d)) c).
Definition add_recursion (d : Z) : cs_state -> cs_state :=
  on_sect (fun c => with_recursion (i32 (RecursionCount c + d)) c).

(** [InterlockedCompareExchange( &crit->LockCount, 0, -1 ) == -1] *)
Definition cas_free (t : nat) (yes no : cs_pc) (s : cs_state) : cs_state :=
  if LockCount (cr_sect s) =? -1 then cs_go t yes (on_sect (with_lock_count 0) s) else cs_go t no s.

Definition owned_by (t : nat) (s : cs_state) : bool := bool_decide (OwningThread (cr_sect s) = Some t).

Definition cs_alerting (ts : list nat) : cs_pc := match ts with [] => Run 0 | _ => L_alert ts end.

Definition cs_step_pc (t : nat) (p : cs_pc) (timed_out : bool) (s : cs_state) : option cs_state :=
  let c := cr_sect s in
  match p with
  | Run _ => None
  | E_begin n => Some (cs_go t (if negb (SpinCount c =? 0) then E_try n else E_inc n) s)
  | E_try n => Some (cas_free t E_done (E_try_own n) s)
  | E_try_own n => Some (cs_go t (if owned_by t s then E_try_inc n else E_spin n (SpinCount c)) s)
  | E_try_inc n => Some (cs_go t (E_try_rec n) (add_lock_count 1 s))
  | E_try_rec n => Some (cs_go t (Run (S n)) (add_recursion 1 s))
  | E_spin n count =>
      Some (cs_go t (if count <=? 0 then E_inc n else if 0 <? LockCount c then E_inc n else E_spin_free n count) s)
  | E_spin_free n count => Some (cs_go t (if LockCount c =? -1 then E_spin_cas n count else E_spin n (count - 1)) s)
  | E_spin_cas n count => Some (cas_free t E_done (E_spin n (count - 1)) s)
  | E_inc n =>
      Some (cs_go t (if negb (i32 (LockCount c + 1) =? 0) then E_own n else E_done) (add_lock_count 1 s))
  | E_own n => Some (cs_go t (if owned_by t s then E_rec n else W_begin n) s)
  | E_rec n => Some (cs_go t (Run (S n)) (add_recursion 1 s))
  | W_begin n => Some (cs_go t (if RtlDllShutdownInProgress then E_done else W_cas n) s)
  | W_cas n =>
      match get_semaphore c with
      | Some _ => None
      | None =>
          Some (if LockSemaphore c =? 1 then cs_go t E_done (on_sect (with_semaphore 0) s)
                else cs_go t (W_wait n) s)
      end
  | W_wait n =>
      match wait_begin sem_addr (LockSemaphore c) 0 4 t (cr_futexes s) with
      | (Some _, f) => Some (cs_go t (W_cas n) (cs_set_futexes f s))
      | (None, f) => Some (cs_go t (W_block n) (cs_set_futexes f s))
      end
  | W_block n =>
      match wait_for_alert t timed_out (cr_futexes s) with
      | Some (st, f) => Some (cs_go t (W_end n st) (cs_set_futexes f s))
      | None => None
      end
  | W_end n st => Some (cs_go t (W_cas n) (cs_set_futexes (wait_end sem_addr t st (cr_futexes s)).2 s))
  | E_done => Some (cs_go t E_count (on_sect (with_owner (Some t)) s))
  | E_count => Some (cs_go t (Run 1) (on_sect (with_recursion 1) s))
  | T_cas n => Some (cas_free t E_done (T_own n) s)
  | T_own n => Some (cs_go t (if owned_by t s then T_inc n else Run n) s)
  | T_inc n => Some (cs_go t (T_rec n) (add_lock_count 1 s))
  | T_rec n => Some (cs_go t (Run (S n)) (add_recursion 1 s))
  | L_dec n =>
      Some (cs_go t (let r := i32 (RecursionCount c - 1) in
                     if negb (r =? 0) then (if 0 <? r then L_down (n - 1) else Run (n - 1)) else L_clear)
                  (add_recursion (-1) s))
  | L_down n => Some (cs_go t (Run n) (add_lock_count (-1) s))
  | L_clear => Some (cs_go t L_unlock (on_sect (with_owner None) s))
  | L_unlock => Some (cs_go t (if 0 <=? i32 (LockCount c - 1) then L_set else Run 0) (add_lock_count (-1) s))
  | L_set =>
      match get_semaphore c with
      | Some _ => None
      | None => Some (cs_go t L_wake (on_sect (with_semaphore 1) s))
      end
  | L_wake =>
      let r := wake_single sem_addr (cr_futexes s) in
      Some (cs_go t (cs_alerting r.1) (cs_set_futexes r.2 s))
  | L_alert [] => Some (cs_go t (Run 0) s)
  | L_alert (u :: ts) => Some (cs_go t (cs_alerting ts) (cs_set_futexes (alert u (cr_futexes s)) s))
  end.

Definition cs_begin (c : cs_call) (n : nat) : option cs_pc :=
  match c with
  | RtlEnterCriticalSection => if Nat.ltb n max_depth then Some (E_begin n) else None
  | RtlTryEnterCriticalSection => if Nat.ltb n max_depth then Some (T_cas n) else None
  | RtlLeaveCriticalSection => if Nat.eqb n 0 then None else Some (L_dec n)
  end.

Definition cs_step (ev : cs_event) (s : cs_state) : option cs_state :=
  match ev with
  | Cs_call t c =>
      p ← cr_threads s !! t;
      match p with Run n => q ← cs_begin c n; Some (cs_go t q s) | _ => None end
  | Cs_step t => p ← cr_threads s !! t; cs_step_pc t p false s
  | Cs_timeout t => p ← cr_threads s !! t; match p with W_block _ => cs_step_pc t p true s | _ => None end
  | Cs_alert t => Some (cs_set_futexes (alert t (cr_futexes s)) s)
  end.

Fixpoint cs_run (evs : list cs_event) (s : cs_state) : option cs_state :=
  match evs with [] => Some s | ev :: evs' => s' ← cs_step ev s; cs_run evs' s' end.

Definition cs_initial (processors spincount : Z) (n : nat) : cs_state :=
  mkCsState (RtlInitializeCriticalSectionEx processors spincount) no_futexes (replicate n (Run 0)).

Inductive cs_reachable (processors spincount : Z) (n : nat) : cs_state -> Prop :=
  | cs_reach_initial : cs_reachable processors spincount n (cs_initial processors spincount n)
  | cs_reach_step ev s s' :
      cs_reachable processors spincount n s -> cs_step ev s = Some s' -> cs_reachable processors spincount n s'.
End Machine.
