(* ===== verification/CritSectProofs.v ===== *)
(** * The invariant of critical sections

    [LockCount] counts entries and waiters; the right to be in the section is with one
    thread or, between two of them, in [LockSemaphore]. *)

From stdpp Require Import base list gmap.
From Stdlib Require Import ZArith Lia ZifyBool.
From S2P Require Import Prelude Threads Futex CritSect.

Open Scope Z_scope.

(** ** What threads account for *)

Definition held (n : nat) : Z := if Nat.eqb n 0 then 0 else 1.
Definition depth (n : nat) : option Z := if Nat.eqb n 0 then None else Some (Z.of_nat n).

(** The share of a thread in [LockCount + 1]. *)
Definition entries (p : cs_pc) : Z :=
  match p with
  | Run n | E_begin n | E_try n | E_try_own n | E_try_inc n | E_spin n _ | E_spin_free n _ | E_spin_cas n _
  | E_inc n | T_cas n | T_own n | T_inc n | L_dec n => Z.of_nat n
  | E_try_rec n | E_own n | E_rec n | W_begin n | W_cas n | W_wait n | W_block n | W_end n _ | T_rec n | L_down n =>
      Z.of_nat n + 1
  | E_done | E_count | L_clear | L_unlock => 1
  | L_set | L_wake | L_alert _ => 0
  end.

(** Whether the right to be in the section is with the thread. *)
Definition hold (p : cs_pc) : Z :=
  match p with
  | Run n | E_begin n | E_try n | E_try_own n | E_try_inc n | E_try_rec n | E_spin n _ | E_spin_free n _
  | E_spin_cas n _ | E_inc n | E_own n | E_rec n | T_cas n | T_own n | T_inc n | T_rec n | L_dec n | L_down n => held n
  | E_done | E_count | L_clear | L_unlock | L_set => 1
  | W_begin _ | W_cas _ | W_wait _ | W_block _ | W_end _ _ | L_wake | L_alert _ => 0
  end.

(** What [RecursionCount] is for the thread that is the owner. *)
Definition recursion (p : cs_pc) : option Z :=
  match p with
  | Run n | E_begin n | E_try n | E_try_own n | E_try_inc n | E_try_rec n | E_spin n _ | E_spin_free n _
  | E_spin_cas n _ | E_inc n | E_own n | E_rec n | T_cas n | T_own n | T_inc n | T_rec n | L_dec n | L_down n => depth n
  | L_clear => Some 0
  | _ => None
  end.

Definition is_owner (p : cs_pc) : bool :=
  match p with E_count => true | _ => match recursion p with Some _ => true | None => false end end.

Definition cs_pc_ok (p : cs_pc) : Prop :=
  match p with
  | Run n => (n <= max_depth)%nat
  | E_begin n | E_try n | E_try_own n | E_spin n _ | E_spin_free n _ | E_spin_cas n _ | E_inc n | E_own n
  | T_cas n | T_own n => (n < max_depth)%nat
  | E_try_inc n | E_try_rec n | E_rec n | T_inc n | T_rec n => (0 < n < max_depth)%nat
  | L_dec n => (0 < n <= max_depth)%nat
  | L_down n => (0 < n < max_depth)%nat
  | W_begin n | W_cas n | W_wait n | W_block n | W_end n _ => n = 0%nat
  | _ => True
  end.

Lemma hold_01 p : 0 <= hold p <= 1.
Proof. destruct p; cbn; unfold held; try case_match; lia. Qed.

Lemma entries_nonneg p : 0 <= entries p.
Proof. destruct p; cbn; lia. Qed.

Lemma entries_bound p : cs_pc_ok p -> entries p <= Z.of_nat max_depth.
Proof. destruct p; cbn -[max_depth]; intros H; try lia; unfold max_depth; lia. Qed.

Lemma owner_holds p : is_owner p = true -> hold p = 1.
Proof. destruct p; cbn; unfold depth, held; try done; by destruct (Nat.eqb n 0). Qed.

Lemma recursion_owner p r : recursion p = Some r -> is_owner p = true.
Proof. unfold is_owner. intros ->. by destruct p. Qed.

Definition free_or_taken (l : Z) : Z := if 0 <=? l then 1 else 0.

Abbreviation N_ s := (total entries (cr_threads s)).
Abbreviation H_ s := (total hold (cr_threads s)).

Record sect_ok (s : cs_state) : Prop := mkSectOk {
  sk_threads : Z.of_nat (length (cr_threads s)) < 2 ^ 15;
  sk_count : LockCount (cr_sect s) + 1 = N_ s;
  sk_right : H_ s + LockSemaphore (cr_sect s) = free_or_taken (LockCount (cr_sect s));
  sk_sem : 0 <= LockSemaphore (cr_sect s) <= 1;
  sk_pc : forall t p, cr_threads s !! t = Some p -> cs_pc_ok p;
  sk_owner : forall t p, cr_threads s !! t = Some p -> (OwningThread (cr_sect s) = Some t <-> is_owner p = true);
  sk_rec : forall t p r, cr_threads s !! t = Some p -> recursion p = Some r -> RecursionCount (cr_sect s) = r
}.

Lemma entries_total l : (forall t p, l !! t = Some p -> cs_pc_ok p) -> total entries l <= Z.of_nat (length l) * Z.of_nat max_depth.
Proof.
  induction l as [| p l IH]; intros H; [done |]. rewrite total_cons. cbn [length].
  pose proof (entries_bound p (H 0%nat p eq_refl)). specialize (IH (fun t q Ht => H (S t) q Ht)). lia.
Qed.

(** No count wraps around. *)
Lemma count_bounds s : sect_ok s -> -1 <= LockCount (cr_sect s) < 2 ^ 27.
Proof.
  intros Hs. pose proof (sk_count s Hs). pose proof (sk_threads s Hs) as Hn. change (2 ^ 15) with 32768 in Hn.
  pose proof (entries_total _ (sk_pc s Hs)) as Hb. pose proof (total_nonneg entries (cr_threads s) entries_nonneg).
  change (2 ^ 27) with 134217728. unfold max_depth in Hb. change (Z.of_nat 4096) with 4096 in Hb. lia.
Qed.

Lemma share s t p : cr_threads s !! t = Some p -> hold p <= H_ s /\ entries p <= N_ s.
Proof. intros Ht. split; (eapply total_part; [| exact Ht]); [apply hold_01 | apply entries_nonneg]. Qed.

(** At most one thread has the right, and [LockSemaphore] is 0 then. *)
Lemma right_unique s t p : sect_ok s -> cr_threads s !! t = Some p -> hold p = 1 ->
  LockSemaphore (cr_sect s) = 0 /\ 0 <= LockCount (cr_sect s) /\ H_ s = 1 /\
  forall u q, u <> t -> cr_threads s !! u = Some q -> hold q = 0.
Proof.
  intros Hs Ht Hh. pose proof (sk_right s Hs) as Hr. pose proof (sk_sem s Hs). pose proof (share s t p Ht).
  unfold free_or_taken in Hr. destruct (Z.leb_spec 0 (LockCount (cr_sect s))); [| lia].
  split_and!; [lia | lia | lia |]. intros u q Ne Hu.
  pose proof (total_pair hold _ t u p q (fun p => proj1 (hold_01 p)) (not_eq_sym Ne) Ht Hu). pose proof (hold_01 q). lia.
Qed.

(** A free section: nobody has entered. *)
Lemma free_section s t p : sect_ok s -> cr_threads s !! t = Some p -> LockCount (cr_sect s) = -1 ->
  H_ s = 0 /\ LockSemaphore (cr_sect s) = 0 /\ entries p = 0 /\ N_ s = 0.
Proof.
  intros Hs Ht El. pose proof (sk_right s Hs) as Hr. pose proof (sk_count s Hs) as Hc. rewrite El in *.
  pose proof (sk_sem s Hs). pose proof (share s t p Ht). pose proof (entries_nonneg p).
  pose proof (total_nonneg hold (cr_threads s) (fun p => proj1 (hold_01 p))). change (free_or_taken (-1)) with 0 in Hr. lia.
Qed.

(** A step of thread [t] from [p] to [q]: the owner of the section, or nobody, is the one
    whose fields it may change. *)
Lemma sect_step s s' t p q :
  sect_ok s -> cr_threads s !! t = Some p -> cr_threads s' = <[t := q]> (cr_threads s) -> cs_pc_ok q ->
  LockCount (cr_sect s') = LockCount (cr_sect s) - entries p + entries q ->
  H_ s - hold p + hold q + LockSemaphore (cr_sect s') = free_or_taken (LockCount (cr_sect s')) ->
  0 <= LockSemaphore (cr_sect s') <= 1 ->
  (OwningThread (cr_sect s') = Some t <-> is_owner q = true) ->
  (forall r, recursion q = Some r -> RecursionCount (cr_sect s') = r) ->
  (OwningThread (cr_sect s') = OwningThread (cr_sect s) /\ RecursionCount (cr_sect s') = RecursionCount (cr_sect s) \/
   hold p = 1 /\ (OwningThread (cr_sect s') = OwningThread (cr_sect s) \/ OwningThread (cr_sect s') = Some t \/
                  OwningThread (cr_sect s') = None)) ->
  sect_ok s'.
Proof.
  intros Hs Ht E Hq Hl Hr Hsem Ho Hrec Hfr. split; try rewrite E.
  - rewrite length_insert. apply Hs.
  - rewrite (total_insert entries _ _ _ _ Ht), Hl. pose proof (sk_count s Hs). lia.
  - by rewrite (total_insert hold _ _ _ _ Ht).
  - done.
  - intros u r [(_ & <- & _) | (_ & Hu)]%list_lookup_insert_Some; [done | by apply (sk_pc s Hs u)].
  - intros u r [(<- & <- & _) | (Ne & Hu)]%list_lookup_insert_Some; [done |].
    rewrite <- (sk_owner s Hs u r Hu). destruct Hfr as [[-> _] | [Hh Hw]]; [done |].
    destruct (right_unique s t p Hs Ht Hh) as (_ & _ & _ & Hun).
    assert (Hu0 : OwningThread (cr_sect s) <> Some u).
    { intros Eo. apply (sk_owner s Hs u r Hu), owner_holds in Eo. rewrite (Hun u r) in Eo by done. done. }
    destruct Hw as [-> | [-> | ->]]; [done | |]; split; congruence.
  - intros u r k [(<- & <- & _) | (Ne & Hu)]%list_lookup_insert_Some; [by apply Hrec |]. intros Hk.
    destruct Hfr as [[_ ->] | [Hh _]]; [by apply (sk_rec s Hs u r) |]. exfalso.
    destruct (right_unique s t p Hs Ht Hh) as (_ & _ & _ & Hun).
    apply recursion_owner, owner_holds in Hk. rewrite (Hun u r) in Hk by done. done.
Qed.

(** Steps that do not touch the section. *)
Lemma sect_quiet s s' t p q :
  sect_ok s -> cr_threads s !! t = Some p -> cr_threads s' = <[t := q]> (cr_threads s) -> cs_pc_ok q ->
  cr_sect s' = cr_sect s -> entries q = entries p -> hold q = hold p -> recursion q = recursion p ->
  is_owner q = is_owner p -> sect_ok s'.
Proof.
  intros Hs Ht E Hq Ec He Hh Hr Ho. apply (sect_step s s' t p q); rewrite ?Ec; try done.
  - lia.
  - rewrite Hh. pose proof (sk_right s Hs). lia.
  - apply Hs.
  - rewrite Ho. by apply (sk_owner s Hs t p).
  - rewrite Hr. intros r Hk. by apply (sk_rec s Hs t p).
  - by left.
Qed.

Lemma i32_count x : -1 <= x <= 2 ^ 27 -> i32 x = x.
Proof. intros H. apply (swrap_small 32); [lia |]. simpl in *. lia. Qed.

(** ** Steps of the section *)

Section Steps.
Context (sem_addr : Z).

Abbreviation step_pc := (cs_step_pc sem_addr false).

Ltac still := eapply sect_quiet; [eassumption | eassumption | reflexivity | ..]; try done.

(** Taking a free section. *)
Lemma take_free s t p n q :
  sect_ok s -> cr_threads s !! t = Some p -> (forall m, recursion p = Some m -> 0 < m) ->
  entries p = Z.of_nat n -> hold p = held n -> is_owner p = negb (Nat.eqb n 0) ->
  cs_pc_ok q -> entries q = entries p -> hold q = hold p -> recursion q = recursion p -> is_owner q = is_owner p ->
  sect_ok (cas_free t E_done q s).
Proof.
  intros Hs Ht Hm He Hh Ho Hq He' Hh' Hr' Ho'. unfold cas_free.
  destruct (Z.eqb_spec (LockCount (cr_sect s)) (-1)) as [El | El]; [| still].
  destruct (free_section s t p Hs Ht El) as (HH & Hsem & He0 & HN).
  assert (n = 0%nat) as -> by lia. cbn in Hh, Ho.
  apply (sect_step s _ t p E_done); cbn -[total]; try done; rewrite ?El, ?Hh; try lia.
  - split; [| done]. intros Eo. apply (sk_owner s Hs t p Ht) in Eo. congruence.
  - by left.
Qed.

(** Entering again, first in [LockCount], then in [RecursionCount]. *)
Lemma enter_again s t p q n :
  sect_ok s -> cr_threads s !! t = Some p -> (0 < n)%nat -> cs_pc_ok q ->
  entries p = Z.of_nat n -> entries q = Z.of_nat n + 1 -> hold p = 1 -> hold q = 1 ->
  recursion q = recursion p -> is_owner q = is_owner p ->
  sect_ok (cs_go t q (add_lock_count 1 s)).
Proof.
  intros Hs Ht Hn Hq He He' Hh Hh' Hr Ho. pose proof (count_bounds s Hs) as Hb.
  destruct (right_unique s t p Hs Ht Hh) as (Hsem & Hl & HH & _).
  apply (sect_step s _ t p q); cbn -[total swrap]; try done; rewrite ?i32_count by lia; try lia.
  - rewrite HH, Hsem, Hh, Hh'. unfold free_or_taken. rewrite (proj2 (Z.leb_le 0 _)) by lia. done.
  - rewrite Ho. by apply (sk_owner s Hs t p).
  - rewrite Hr. intros r Hk. by apply (sk_rec s Hs t p).
  - by left.
Qed.

Lemma count_again s t p n :
  sect_ok s -> cr_threads s !! t = Some p -> (0 < n < max_depth)%nat ->
  entries p = Z.of_nat n + 1 -> hold p = 1 -> recursion p = Some (Z.of_nat n) ->
  sect_ok (cs_go t (Run (S n)) (add_recursion 1 s)).
Proof.
  intros Hs Ht Hn He Hh Hr. pose proof (sk_rec s Hs t p _ Ht Hr) as Hrc.
  apply (sect_step s _ t p (Run (S n))); cbn -[total swrap Z.of_nat max_depth]; try done; rewrite ?He, ?Hh, ?Hrc.
  - lia.
  - lia.
  - change (held (S n)) with 1. pose proof (sk_right s Hs). lia.
  - apply Hs.
  - split; [done |]. intros _. apply (sk_owner s Hs t p Ht). by apply (recursion_owner p (Z.of_nat n)).
  - intros r [= <-]. rewrite i32_count; [lia |]. unfold max_depth in Hn. lia.
  - right. split; [done | by left].
Qed.

(** Counting up without trying: the section was free, or is somebody's. *)
Lemma count_up s t n :
  sect_ok s -> cr_threads s !! t = Some (E_inc n) ->
  sect_ok (cs_go t (if negb (i32 (LockCount (cr_sect s) + 1) =? 0) then E_own n else E_done) (add_lock_count 1 s)).
Proof.
  intros Hs Ht. pose proof (count_bounds s Hs) as Hb. pose proof (sk_pc s Hs t _ Ht) as Hok. cbn -[max_depth] in Hok.
  rewrite i32_count by lia. destruct (Z.eqb_spec (LockCount (cr_sect s) + 1) 0) as [E0 | E0]; cbn [negb].
  - assert (El : LockCount (cr_sect s) = -1) by lia.
    destruct (free_section s t _ Hs Ht El) as (HH & Hsem & He0 & HN). cbn in He0. assert (n = 0%nat) as -> by lia.
    apply (sect_step s _ t (E_inc 0) E_done); cbn -[total swrap]; try done; rewrite ?i32_count by lia; try lia.
    + rewrite Hsem, E0. change (free_or_taken 0) with 1. lia.
    + split; [| done]. intros Eo. by apply (sk_owner s Hs t _ Ht) in Eo.
    + by left.
  - apply (sect_step s _ t (E_inc n) (E_own n)); cbn -[total swrap max_depth]; try done; rewrite ?i32_count by lia; try lia.
    + pose proof (sk_right s Hs) as Hr. unfold free_or_taken in *.
      destruct (Z.leb_spec 0 (LockCount (cr_sect s))); [| lia].
      rewrite (proj2 (Z.leb_le 0 _)) by lia. lia.
    + apply Hs.
    + by apply (sk_owner s Hs t (E_inc n)).
    + intros r Hk. by apply (sk_rec s Hs t (E_inc n)).
    + by left.
Qed.

(** Taking the right out of [LockSemaphore]. *)
Lemma take_semaphore s t :
  sect_ok s -> cr_threads s !! t = Some (W_cas 0) -> LockSemaphore (cr_sect s) = 1 ->
  sect_ok (cs_go t E_done (on_sect (with_semaphore 0) s)).
Proof.
  intros Hs Ht E1. apply (sect_step s _ t (W_cas 0) E_done); cbn -[total]; try done; try lia.
  - pose proof (sk_right s Hs). lia.
  - split; [| done]. intros Eo. by apply (sk_owner s Hs t _ Ht) in Eo.
  - by left.
Qed.

Lemma set_owner s t : sect_ok s -> cr_threads s !! t = Some E_done -> sect_ok (cs_go t E_count (on_sect (with_owner (Some t)) s)).
Proof.
  intros Hs Ht. apply (sect_step s _ t E_done E_count); cbn -[total]; try done; try lia.
  - pose proof (sk_right s Hs). lia.
  - apply Hs.
  - right. split; [done |]. right. by left.
Qed.

Lemma set_recursion s t : sect_ok s -> cr_threads s !! t = Some E_count -> sect_ok (cs_go t (Run 1) (on_sect (with_recursion 1) s)).
Proof.
  intros Hs Ht. apply (sect_step s _ t E_count (Run 1)); cbn -[total max_depth]; try done; try lia.
  - unfold max_depth. lia.
  - change (held 1) with 1. pose proof (sk_right s Hs). lia.
  - apply Hs.
  - by apply (sk_owner s Hs t E_count).
  - by intros r [= <-].
  - right. split; [done | by left].
Qed.

(** Leaving, the owner's part. *)
Lemma leave_once s t n :
  sect_ok s -> cr_threads s !! t = Some (L_dec n) ->
  sect_ok (cs_go t (let r := i32 (RecursionCount (cr_sect s) - 1) in
                    if negb (r =? 0) then (if 0 <? r then L_down (n - 1) else Run (n - 1)) else L_clear)
                 (add_recursion (-1) s)).
Proof.
  intros Hs Ht. pose proof (sk_pc s Hs t _ Ht) as Hok. cbn -[max_depth] in Hok.
  assert (Hr : recursion (L_dec n) = Some (Z.of_nat n)) by (cbn; unfold depth; by rewrite (proj2 (Nat.eqb_neq n 0)) by lia).
  assert (Hh : hold (L_dec n) = 1) by (cbn; unfold held; by rewrite (proj2 (Nat.eqb_neq n 0)) by lia).
  pose proof (sk_rec s Hs t _ _ Ht Hr) as Hrc. pose proof (sk_right s Hs) as Hri. rewrite Hrc. unfold max_depth in Hok.
  rewrite i32_count by lia. cbv zeta.
  destruct (Z.eqb_spec (Z.of_nat n - 1) 0) as [E0 | E0]; cbn [negb].
  - assert (n = 1%nat) as -> by lia.
    apply (sect_step s _ t (L_dec 1) L_clear); cbn -[total swrap]; try done; try lia.
    + apply Hs.
    + by apply (sk_owner s Hs t (L_dec 1)).
    + intros r [= <-]. by rewrite Hrc.
    + right. split; [done | by left].
  - rewrite (proj2 (Z.ltb_lt 0 _)) by lia.
    assert (Hh' : hold (L_down (n - 1)) = 1) by (cbn; unfold held; by rewrite (proj2 (Nat.eqb_neq (n - 1) 0)) by lia).
    assert (Hr' : recursion (L_down (n - 1)) = Some (Z.of_nat n - 1)).
    { cbn; unfold depth. rewrite (proj2 (Nat.eqb_neq (n - 1) 0)) by lia. f_equal. lia. }
    apply (sect_step s _ t (L_dec n) (L_down (n - 1))); try done; cbn -[total swrap max_depth held depth] in *; rewrite ?Hh, ?Hh'.
    + unfold max_depth. lia.
    + lia.
    + lia.
    + apply Hs.
    + rewrite Hr'. pose proof (sk_owner s Hs t (L_dec n) Ht) as Ho. cbn -[depth] in Ho. by rewrite Hr in Ho.
    + rewrite Hr', Hrc. intros r [= <-]. rewrite i32_count; lia.
    + right. split; [done | by left].
Qed.

Lemma count_down s t n :
  sect_ok s -> cr_threads s !! t = Some (L_down n) -> sect_ok (cs_go t (Run n) (add_lock_count (-1) s)).
Proof.
  intros Hs Ht. pose proof (sk_pc s Hs t _ Ht) as Hok. cbn -[max_depth] in Hok. pose proof (count_bounds s Hs) as Hb.
  assert (Hh : hold (L_down n) = 1) by (cbn; unfold held; by rewrite (proj2 (Nat.eqb_neq n 0)) by lia).
  destruct (right_unique s t _ Hs Ht Hh) as (Hsem & Hl & HH & _). destruct (share s t _ Ht) as [_ He].
  pose proof (sk_count s Hs) as Hc. cbn -[total] in He.
  apply (sect_step s _ t (L_down n) (Run n)); try done; cbn -[total swrap max_depth held depth]; rewrite ?i32_count by lia; try lia.
  - rewrite HH, Hsem. unfold free_or_taken. rewrite (proj2 (Z.leb_le 0 _)) by lia. lia.
  - by apply (sk_owner s Hs t (L_down n)).
  - intros r Hk. by apply (sk_rec s Hs t (L_down n)).
  - by left.
Qed.

Lemma clear_owner s t : sect_ok s -> cr_threads s !! t = Some L_clear -> sect_ok (cs_go t L_unlock (on_sect (with_owner None) s)).
Proof.
  intros Hs Ht. apply (sect_step s _ t L_clear L_unlock); cbn -[total]; try done; try lia.
  - pose proof (sk_right s Hs). lia.
  - apply Hs.
  - right. split; [done |]. right. by right.
Qed.

Lemma unlock s t :
  sect_ok s -> cr_threads s !! t = Some L_unlock ->
  sect_ok (cs_go t (if 0 <=? i32 (LockCount (cr_sect s) - 1) then L_set else Run 0) (add_lock_count (-1) s)).
Proof.
  intros Hs Ht. pose proof (count_bounds s Hs) as Hb.
  destruct (right_unique s t _ Hs Ht eq_refl) as (Hsem & Hl & HH & _). rewrite i32_count by lia.
  assert (Hown : OwningThread (cr_sect s) <> Some t).
  { intros Eo. by apply (sk_owner s Hs t _ Ht) in Eo. }
  destruct (Z.leb_spec 0 (LockCount (cr_sect s) - 1)) as [E | E].
  - apply (sect_step s _ t L_unlock L_set); cbn -[total swrap]; try done; rewrite ?i32_count by lia; try lia.
    + rewrite HH, Hsem. unfold free_or_taken. rewrite (proj2 (Z.leb_le 0 _)) by lia. lia.
    + by left.
  - apply (sect_step s _ t L_unlock (Run 0)); cbn -[total swrap max_depth]; try done; rewrite ?i32_count by lia; try lia.
    + rewrite HH, Hsem. unfold free_or_taken. rewrite (proj2 (Z.leb_gt 0 _)) by lia. change (held 0) with 0. lia.
    + by left.
Qed.

Lemma give_semaphore s t :
  sect_ok s -> cr_threads s !! t = Some L_set -> sect_ok (cs_go t L_wake (on_sect (with_semaphore 1) s)).
Proof.
  intros Hs Ht. destruct (right_unique s t _ Hs Ht eq_refl) as (Hsem & Hl & HH & _).
  apply (sect_step s _ t L_set L_wake); cbn -[total]; try done; try lia.
  - pose proof (sk_right s Hs). lia.
  - split; [| done]. intros Eo. by apply (sk_owner s Hs t _ Ht) in Eo.
  - by left.
Qed.

Lemma owned_by_pc s t p : sect_ok s -> cr_threads s !! t = Some p -> owned_by t s = is_owner p.
Proof.
  intros Hs Ht. unfold owned_by. destruct (sk_owner s Hs t p Ht) as [H1 H2].
  case_bool_decide as E; [by rewrite H1 |]. destruct (is_owner p); [by destruct E; apply H2 | done].
Qed.

Lemma depth_owner n : match depth n with Some _ => true | None => false end = negb (Nat.eqb n 0).
Proof. unfold depth. by destruct (Nat.eqb n 0). Qed.

Lemma depth_positive n m : depth n = Some m -> 0 < m.
Proof. unfold depth. destruct (Nat.eqb_spec n 0); [done |]. intros [= <-]. lia. Qed.

Lemma held_positive n : (0 < n)%nat -> held n = 1 /\ depth n = Some (Z.of_nat n).
Proof. intros H. unfold held, depth. by rewrite (proj2 (Nat.eqb_neq n 0)) by lia. Qed.
End Steps.
