(* ===== verification/CritSectTheorems.v ===== *)
(** * What critical sections promise

    Exclusion, recursion and no forgotten waiters, for any interleaving. *)

From stdpp Require Import base list gmap.
From Stdlib Require Import ZArith Lia ZifyBool.
From S2P Require Import Prelude Threads Futex CritSect CritSectProofs.

Open Scope Z_scope.

(** ** Who sleeps *)

Definition cs_sending (p : cs_pc) : list nat := match p with L_alert ts => ts | _ => [] end.

Definition cs_asleep (p : cs_pc) : Prop := match p with W_block _ | W_end _ _ => True | _ => False end.

Definition cs_blocked (p : cs_pc) : bool := match p with W_block _ => true | _ => false end.

(** A thread that will look at [LockSemaphore]. *)
Definition trying (p : cs_pc) : bool :=
  match p with W_begin _ | W_cas _ | W_wait _ | W_block _ | W_end _ _ => true | _ => false end.

Section Steps.
Context (sem_addr : Z) (Hsem_addr : sem_addr <> NULL).

Abbreviation step_pc := (cs_step_pc sem_addr false).
Abbreviation way s := (on_its_way cs_sending (cr_futexes s) (cr_threads s)).
Abbreviation sleeps s t := (waiting (cr_futexes s) sem_addr t).

Definition cs_awake (s : cs_state) (u : nat) (p : cs_pc) : Prop :=
  p = L_wake \/ (trying p = true /\ (cs_blocked p = true -> way s u)).

Record cs_sleep_ok (s : cs_state) : Prop := mkCsSleepOk {
  cw_pc : forall t, sleeps s t -> exists p, cr_threads s !! t = Some p /\ cs_asleep p;
  cw_blocked : forall t p, cr_threads s !! t = Some p -> cs_blocked p = true -> sleeps s t \/ way s t;
  cw_awake : forall t, LockSemaphore (cr_sect s) = 1 -> sleeps s t ->
    exists u p, cr_threads s !! u = Some p /\ cs_awake s u p
}.

Record cs_sleep_step (s s' : cs_state) (t : nat) (p q : cs_pc) : Prop := mkCsSleepStep {
  cp_pc : cr_threads s !! t = Some p;
  cp_threads : cr_threads s' = <[t := q]> (cr_threads s);
  cp_way : forall u, u <> t -> way s u -> way s' u;
  cp_new : forall u, sleeps s' u -> (u <> t /\ sleeps s u) \/ (u = t /\ cs_asleep q);
  cp_old : forall u, u <> t -> sleeps s u -> sleeps s' u \/ way s' u;
  cp_self : cs_blocked q = true -> sleeps s' t \/ way s' t;
  cp_awake : forall u, LockSemaphore (cr_sect s') = 1 -> sleeps s' u ->
    (exists v r, cr_threads s' !! v = Some r /\ cs_awake s' v r) \/
    (LockSemaphore (cr_sect s) = 1 /\ sleeps s u /\ (cs_awake s t p -> cs_awake s' t q))
}.

Lemma cs_sleep_keeps s s' t p q : cs_sleep_ok s -> cs_sleep_step s s' t p q -> cs_sleep_ok s'.
Proof.
  intros [Hp Hb Ha] [Ht Hth Hw Hn Ho Hq Haw].
  assert (Ht' : cr_threads s' !! t = Some q).
  { rewrite Hth. apply list_lookup_insert_eq. by apply lookup_lt_Some in Ht. }
  assert (Hu : forall u, u <> t -> cr_threads s' !! u = cr_threads s !! u)
    by (intros u Ne; by rewrite Hth, list_lookup_insert_ne).
  split.
  - intros u Hs. destruct (Hn u Hs) as [[Ne Hs'] | [-> Hq']]; [rewrite (Hu u Ne); by apply Hp | by exists q].
  - intros u r Hr Hbl. destruct (decide (u = t)) as [-> | Ne]; [rewrite Ht' in Hr; injection Hr as <-; by apply Hq |].
    rewrite (Hu u Ne) in Hr. destruct (Hb u r Hr Hbl) as [Hs | Hf]; [by apply Ho | right; by apply Hw].
  - intros u E Hs. destruct (Haw u E Hs) as [? | (E' & Hs' & Htq)]; [done |].
    destruct (Ha u E' Hs') as (v & r & Hv & Hr). destruct (decide (v = t)) as [-> | Ne].
    + exists t, q. split; [done |]. apply Htq. rewrite Ht in Hv. by injection Hv as <-.
    + exists v, r. split; [by rewrite (Hu v Ne) |]. destruct Hr as [-> | [Hr1 Hr2]]; [by left | right].
      split; [done |]. intros Hbl. by apply Hw, Hr2.
Qed.

Lemma not_asleep s t p : cs_sleep_ok s -> cr_threads s !! t = Some p -> ~ cs_asleep p -> ~ sleeps s t.
Proof. intros Hs Ht Hn Hw. apply (cw_pc s Hs) in Hw as (r & Hr & ?). rewrite Ht in Hr. by injection Hr as <-. Qed.

(** Steps that leave the futexes alone. *)
Lemma cs_sleep_quiet s s' t p q :
  cs_sleep_ok s -> cr_threads s !! t = Some p -> cr_threads s' = <[t := q]> (cr_threads s) ->
  cr_futexes s' = cr_futexes s -> ~ cs_asleep p -> cs_blocked q = false -> cs_sending p = [] ->
  (LockSemaphore (cr_sect s') = 1 ->
     q = L_wake \/ (LockSemaphore (cr_sect s) = 1 /\ p <> L_wake /\ (trying p = true -> trying q = true))) ->
  cs_sleep_ok s'.
Proof.
  intros Hok Ht Hth Hf Hna Hb Hse Hsem. apply (cs_sleep_keeps s s' t p q Hok).
  pose proof (not_asleep s t p Hok Ht Hna) as Hnt.
  split; try done; rewrite ?Hf.
  - intros u _. apply (on_its_way_step cs_sending _ _ _ _ t p q u Ht Hth); [| done].
    rewrite Hse. by intros ?%elem_of_nil.
  - intros u Hu. left. split; [congruence | done].
  - by left.
  - by rewrite Hb.
  - intros u E Hu. destruct (Hsem E) as [-> | (E' & Np & Htr)].
    + left. exists t, L_wake. split; [rewrite Hth; apply list_lookup_insert_eq; by apply lookup_lt_Some in Ht | by left].
    + right. split_and!; [done | done |]. intros [? | [? _]]; [done |]. right. split; [auto | by rewrite Hb].
Qed.

Lemma sleep_wait s t n :
  cs_sleep_ok s -> 0 <= LockSemaphore (cr_sect s) <= 1 -> cr_threads s !! t = Some (W_wait n) ->
  forall s', step_pc t (W_wait n) false s = Some s' -> cs_sleep_ok s'.
Proof.
  intros Hok Hsem Ht s'. cbn [cs_step_pc].
  destruct (wait_begin _ _ _ _ _ _) as [[st |] f] eqn:Ew; intros [= <-].
  - apply wait_begin_returns in Ew as ->. eapply (cs_sleep_quiet s _ t (W_wait n)); try done; [by intros [] | by right].
  - destruct (wait_begin_waits _ _ _ _ _ _ _ 0 0%nat Ew) as (Hc & Hal & _).
    assert (Hw : forall u, waiting f sem_addr u <-> sleeps s u \/ u = t).
    { intros u. destruct (wait_begin_waits _ _ _ _ _ _ _ sem_addr u Ew) as (_ & _ & ->). naive_solver. }
    assert (E0 : LockSemaphore (cr_sect s) = 0).
    { cbn in Hc. rewrite (uwrap_small 32) in Hc by (simpl; lia). change (u32 0) with 0 in Hc. lia. }
    pose proof (not_asleep s t _ Hok Ht ltac:(cbn; tauto)) as Hnt.
    apply (cs_sleep_keeps s _ t (W_wait n) (W_block n) Hok). split; try done; cbn [cr_futexes cs_go cs_set_futexes cr_sect].
    + intros u _. apply (on_its_way_step cs_sending _ _ _ _ t (W_wait n) (W_block n) u Ht eq_refl);
        [by intros ?%elem_of_nil | unfold alerted; cbn; by rewrite Hal].
    + intros u [Hu | ->]%Hw; [left; split; [congruence | done] | by right].
    + intros u _ Hu. left. apply Hw. by left.
    + intros _. left. apply Hw. by right.
    + intros u E. congruence.
Qed.

Lemma sleep_woken s t n b st f :
  cs_sleep_ok s -> cr_threads s !! t = Some (W_block n) -> wait_for_alert t b (cr_futexes s) = Some (st, f) ->
  cs_sleep_ok (cs_go t (W_end n st) (cs_set_futexes f s)).
Proof.
  intros Hok Ht Hf. apply (cs_sleep_keeps s _ t (W_block n) (W_end n st) Hok).
  assert (Hw : forall u, waiting f sem_addr u <-> sleeps s u)
    by (intros u; apply (wait_for_alert_waits _ _ _ _ _ sem_addr u Hf)).
  split; try done; cbn [cr_futexes cs_go cs_set_futexes cr_sect].
  - intros u Ne. apply (on_its_way_step cs_sending _ _ _ _ t (W_block n) (W_end n st) u Ht eq_refl);
      [by intros ?%elem_of_nil |]. intros Ha. by destruct (proj2 (wait_for_alert_waits _ _ _ _ _ 0 u Hf) Ha).
  - intros u Hu%Hw. destruct (decide (u = t)) as [-> | Ne]; [by right | by left].
  - intros u _ Hu. left. by apply Hw.
  - intros u E Hu%Hw. right. split_and!; [done | done |]. intros _. right. by split.
Qed.

Lemma sleep_left s t n st :
  cs_sleep_ok s -> cr_threads s !! t = Some (W_end n st) ->
  cs_sleep_ok (cs_go t (W_cas n) (cs_set_futexes (wait_end sem_addr t st (cr_futexes s)).2 s)).
Proof.
  intros Hok Ht. apply (cs_sleep_keeps s _ t (W_end n st) (W_cas n) Hok).
  assert (Hw : forall u, waiting (wait_end sem_addr t st (cr_futexes s)).2 sem_addr u <-> sleeps s u /\ u <> t).
  { intros u. destruct (wait_end_waits sem_addr t st (cr_futexes s) sem_addr u) as [-> _]. naive_solver. }
  split; try done; cbn [cr_futexes cs_go cs_set_futexes cr_sect].
  - intros u _. apply (on_its_way_step cs_sending _ _ _ _ t (W_end n st) (W_cas n) u Ht eq_refl);
      [by intros ?%elem_of_nil | done].
  - intros u [Hu Ne]%Hw. by left.
  - intros u Ne Hu. left. by apply Hw.
  - intros u E [Hu _]%Hw. right. split_and!; [done | done |]. intros _. right. by split.
Qed.

Lemma alerting_sends ts : cs_sending (cs_alerting ts) = ts /\ cs_blocked (cs_alerting ts) = false.
Proof. by destruct ts. Qed.

Lemma sleep_wakes s t :
  cs_sleep_ok s -> cr_threads s !! t = Some L_wake ->
  forall s', step_pc t L_wake false s = Some s' -> cs_sleep_ok s'.
Proof.
  intros Hok Ht s'. cbn [cs_step_pc]. destruct (wake_single sem_addr (cr_futexes s)) as [ts f] eqn:Ew. intros [= <-]. cbn [fst snd].
  destruct (wake_single_wakes sem_addr _ _ _ Hsem_addr Ew) as (Hal & Hw1 & Hw2 & Hw3 & _).
  destruct (alerting_sends ts) as [Hse Hbl].
  assert (Hts : forall u, u ∈ ts -> way (cs_go t (cs_alerting ts) (cs_set_futexes f s)) u).
  { intros u Hu. eapply (on_its_way_sent cs_sending f _ t L_wake); [done | by rewrite Hse]. }
  pose proof (not_asleep s t _ Hok Ht ltac:(cbn; tauto)) as Hnt.
  apply (cs_sleep_keeps s _ t L_wake (cs_alerting ts) Hok). split; try done; cbn [cr_futexes cs_go cs_set_futexes cr_sect].
  - intros u _. apply (on_its_way_step cs_sending _ _ _ _ t L_wake (cs_alerting ts) u Ht eq_refl);
      [by intros ?%elem_of_nil | unfold alerted; cbn; by rewrite Hal].
  - intros u Hu%Hw1. left. split; [congruence | done].
  - intros u _ Hu. destruct (Hw2 _ _ Hu) as [? | [_ ?]]; [by left | right; by apply Hts].
  - by rewrite Hbl.
  - intros u E Hu. left. destruct (Hw3 u (Hw1 _ _ Hu)) as (v & Hv & Hvs). destruct (cw_pc s Hok v Hvs) as (r & Hr & Has).
    exists v, r. split; [cbn; rewrite list_lookup_insert_ne; [done | congruence] |]. right.
    split; [by destruct r |]. intros _. by apply Hts.
Qed.

Lemma sleep_alerts s t u ts :
  cs_sleep_ok s -> cr_threads s !! t = Some (L_alert (u :: ts)) ->
  cs_sleep_ok (cs_go t (cs_alerting ts) (cs_set_futexes (alert u (cr_futexes s)) s)).
Proof.
  intros Hok Ht. destruct (alerting_sends ts) as [Hse Hbl].
  pose proof (not_asleep s t _ Hok Ht ltac:(cbn; tauto)) as Hnt.
  apply (cs_sleep_keeps s _ t (L_alert (u :: ts)) (cs_alerting ts) Hok).
  split; try done; cbn [cr_futexes cs_go cs_set_futexes cr_sect].
  - intros v _. apply (on_its_way_step cs_sending _ _ _ _ t (L_alert (u :: ts)) (cs_alerting ts) v Ht eq_refl).
    + rewrite Hse. intros [-> | ?]%elem_of_cons; [left; apply alert_alerts; by left | by right].
    + intros ?. apply alert_alerts. by right.
  - intros v Hv. left. split; [intros ->; by apply Hnt | done].
  - by left.
  - by rewrite Hbl.
  - intros v E Hv. right. split_and!; [done | done |]. by intros [? | [? _]].
Qed.

Lemma cs_sleep_outside s u : cs_sleep_ok s -> cs_sleep_ok (cs_set_futexes (alert u (cr_futexes s)) s).
Proof.
  intros [H1 H2 H3].
  assert (Hw : forall v, way s v -> way (cs_set_futexes (alert u (cr_futexes s)) s) v).
  { intros v [Ha | ?]; [left; apply alert_alerts; by right | by right]. }
  split; cbn [cs_set_futexes cr_threads cr_futexes cr_sect]; [done | |].
  - intros t p Ht Hb. destruct (H2 t p Ht Hb); [by left | right; by apply Hw].
  - intros t E Hs. destruct (H3 t E Hs) as (v & r & Hv & [-> | [Hr1 Hr2]]); exists v; eexists; (split; [done |]).
    + by left.
    + right. split; [done |]. intros Hb. by apply Hw, Hr2.
Qed.

(** ** Whole steps *)

Ltac still := eapply sect_quiet; [eassumption | eassumption | reflexivity | ..]; try done.
Ltac calm := eapply cs_sleep_quiet; [eassumption | eassumption | reflexivity | reflexivity | ..]; cbn; try done;
  try (by intros []); try (intros; right; split_and!; done).

Lemma step_pc_sect t p b s s' : sect_ok s -> cr_threads s !! t = Some p -> step_pc t p b s = Some s' -> sect_ok s'.
Proof.
  intros Hs Ht Hst. pose proof (sk_pc s Hs t p Ht) as Hok. destruct p; cbn [cs_step_pc] in Hst; try done;
    try (injection Hst as <-).
  - destruct (negb _); still.
  - apply (take_free s t (E_try n) n); try done; [apply depth_positive | apply depth_owner].
  - rewrite (owned_by_pc s t _ Hs Ht). cbn [is_owner recursion]. rewrite depth_owner.
    destruct (Nat.eqb_spec n 0); cbn [negb]; still. cbn -[max_depth] in *. lia.
  - cbn -[max_depth] in Hok. destruct (held_positive n ltac:(lia)). by apply (enter_again s t (E_try_inc n) _ n); try done; cbn; try lia.
  - cbn -[max_depth] in Hok. destruct (held_positive n ltac:(lia)). by apply (count_again s t (E_try_rec n) n).
  - destruct (count <=? 0); [still |]. destruct (0 <? _); still.
  - destruct (_ =? -1); still.
  - apply (take_free s t (E_spin_cas n count) n); try done; [apply depth_positive | apply depth_owner].
  - by apply count_up.
  - rewrite (owned_by_pc s t _ Hs Ht). cbn [is_owner recursion]. rewrite depth_owner.
    destruct (Nat.eqb_spec n 0) as [-> |]; cbn [negb]; still. cbn -[max_depth] in *. lia.
  - cbn -[max_depth] in Hok. destruct (held_positive n ltac:(lia)). by apply (count_again s t (E_rec n) n).
  - still.
  - unfold get_semaphore in Hst. pose proof (sk_sem s Hs). rewrite (proj2 (Z.ltb_ge 1 _)) in Hst by lia. injection Hst as <-.
    cbn in Hok. subst n. destruct (Z.eqb_spec (LockSemaphore (cr_sect s)) 1); [by apply take_semaphore | still].
  - destruct (wait_begin _ _ _ _ _ _) as [[st |] f]; injection Hst as <-; still.
  - destruct (wait_for_alert _ _ _) as [[st f] |]; [| done]. injection Hst as <-. still.
  - still.
  - by apply set_owner.
  - by apply set_recursion.
  - apply (take_free s t (T_cas n) n); try done; [apply depth_positive | apply depth_owner].
  - rewrite (owned_by_pc s t _ Hs Ht). cbn [is_owner recursion]. rewrite depth_owner.
    destruct (Nat.eqb_spec n 0) as [-> |]; cbn [negb]; still; cbn -[max_depth] in *; lia.
  - cbn -[max_depth] in Hok. destruct (held_positive n ltac:(lia)). by apply (enter_again s t (T_inc n) _ n); try done; cbn; try lia.
  - cbn -[max_depth] in Hok. destruct (held_positive n ltac:(lia)). by apply (count_again s t (T_rec n) n).
  - by apply leave_once.
  - by apply count_down.
  - by apply clear_owner.
  - by apply unlock.
  - unfold get_semaphore in Hst. pose proof (sk_sem s Hs). rewrite (proj2 (Z.ltb_ge 1 _)) in Hst by lia. injection Hst as <-.
    by apply give_semaphore.
  - destruct (wake_single _ _) as [ts f]. cbn [fst snd]. destruct ts; still; cbn; unfold max_depth; lia.
  - destruct ts as [| u [| v ts]]; injection Hst as <-; still; cbn; unfold max_depth; lia.
Qed.

Lemma cs_step_pc_sleep t p b s s' :
  sect_ok s -> cs_sleep_ok s -> cr_threads s !! t = Some p -> step_pc t p b s = Some s' -> cs_sleep_ok s'.
Proof.
  intros Hs Hok Ht Hst. destruct p; try done; try (cbn [cs_step_pc] in Hst; injection Hst as <-).
  - destruct (negb _); calm.
  - unfold cas_free. destruct (_ =? -1); calm.
  - destruct (owned_by t s); calm.
  - calm.
  - calm.
  - destruct (count <=? 0); [calm |]. destruct (0 <? _); calm.
  - destruct (_ =? -1); calm.
  - unfold cas_free. destruct (_ =? -1); calm.
  - destruct (negb _); calm.
  - destruct (owned_by t s); calm.
  - calm.
  - calm.
  - cbn [cs_step_pc] in Hst. destruct (get_semaphore _); [done |]. injection Hst as <-.
    destruct (_ =? 1); calm.
  - by apply (sleep_wait s t n Hok (sk_sem s Hs) Ht).
  - cbn [cs_step_pc] in Hst. destruct (wait_for_alert _ _ _) as [[st f] |] eqn:Ef; [| done]. injection Hst as <-.
    by eapply sleep_woken.
  - by apply (sleep_left s t n st).
  - calm.
  - calm.
  - unfold cas_free. destruct (_ =? -1); calm.
  - destruct (owned_by t s); calm.
  - calm.
  - calm.
  - cbv zeta. destruct (negb _); [destruct (0 <? _) |]; calm.
  - calm.
  - calm.
  - destruct (0 <=? _); calm.
  - cbn [cs_step_pc] in Hst. destruct (get_semaphore _); [done |]. injection Hst as <-.
    eapply cs_sleep_quiet; [eassumption | eassumption | reflexivity | reflexivity | ..]; cbn; try done; [by intros [] |]. by left.
  - by apply (sleep_wakes s t Hok Ht).
  - cbn [cs_step_pc] in Hst. destruct ts as [| u ts]; injection Hst as <-; [calm | by apply sleep_alerts].
Qed.

Lemma step_inv ev s s' :
  sect_ok s /\ cs_sleep_ok s -> cs_step sem_addr false ev s = Some s' -> sect_ok s' /\ cs_sleep_ok s'.
Proof.
  intros [Hs Hok]. destruct ev as [t c | t | t | t]; cbn [cs_step].
  - destruct (cr_threads s !! t) as [p |] eqn:Ht; [| done]. cbn [mbind option_bind]. destruct p; try done.
    pose proof (sk_pc s Hs t _ Ht) as Hn. cbn -[max_depth] in Hn.
    destruct (cs_begin c n) as [q |] eqn:Eb; [| done]. cbn [mbind option_bind]. intros [= <-].
    destruct c; cbn [cs_begin] in Eb.
    + destruct (Nat.ltb_spec n max_depth); [| done]. injection Eb as <-. split; [still | calm].
    + destruct (Nat.ltb_spec n max_depth); [| done]. injection Eb as <-. split; [still | calm].
    + destruct (Nat.eqb_spec n 0); [done |]. injection Eb as <-. split; [still; cbn -[max_depth]; lia | calm].
  - destruct (cr_threads s !! t) as [p |] eqn:Ht; [| done]. cbn [mbind option_bind]. intros Hst.
    split; [by eapply step_pc_sect | by eapply cs_step_pc_sleep].
  - destruct (cr_threads s !! t) as [p |] eqn:Ht; [| done]. cbn [mbind option_bind]. destruct p; try done. intros Hst.
    split; [by eapply step_pc_sect | by eapply cs_step_pc_sleep].
  - intros [= <-]. split; [by destruct Hs | by apply cs_sleep_outside].
Qed.

Lemma initial_inv processors spincount n :
  Z.of_nat n < 2 ^ 15 -> sect_ok (cs_initial processors spincount n) /\ cs_sleep_ok (cs_initial processors spincount n).
Proof.
  intros Hn. split; split; cbn [cs_initial cr_sect cr_threads cr_futexes RtlInitializeCriticalSectionEx
    LockCount LockSemaphore OwningThread RecursionCount].
  - by rewrite length_replicate.
  - rewrite total_replicate. cbn. lia.
  - rewrite total_replicate. change (hold (Run 0)) with 0. change (free_or_taken (-1)) with 0. lia.
  - lia.
  - intros t p [-> _]%lookup_replicate. cbn -[max_depth]. lia.
  - by intros t p [-> _]%lookup_replicate.
  - by intros t p r [-> _]%lookup_replicate.
  - intros t H. by apply waiting_none in H.
  - by intros t p [-> _]%lookup_replicate.
  - intros t _ H. by apply waiting_none in H.
Qed.

Lemma cs_reachable_inv processors spincount n s :
  Z.of_nat n < 2 ^ 15 -> cs_reachable sem_addr false processors spincount n s -> sect_ok s /\ cs_sleep_ok s.
Proof. intros Hn. induction 1 as [| ev s s' _ IH Hst]; [by apply initial_inv | by eapply step_inv]. Qed.

Definition cs_can_step (s : cs_state) (u : nat) : Prop := is_Some (cs_step sem_addr false (Cs_step u) s).

Lemma way_steps s t n : cr_threads s !! t = Some (W_block n) -> way s t -> exists v, cs_can_step s v.
Proof.
  intros Ht [Ha | (v & p & Hv & Hu)].
  - exists t. unfold cs_can_step. cbn [cs_step]. rewrite Ht. cbn [mbind option_bind cs_step_pc]. unfold wait_for_alert.
    rewrite bool_decide_eq_true_2 by done. by eexists.
  - exists v. unfold cs_can_step. cbn [cs_step]. rewrite Hv. cbn [mbind option_bind].
    destruct p; try (by apply elem_of_nil in Hu). destruct ts; by eexists.
Qed.

(** Every point but [Run] and a wait can be left. *)
Lemma moves s t p : sect_ok s -> cr_threads s !! t = Some p -> cs_blocked p = false -> (forall n, p <> Run n) -> cs_can_step s t.
Proof.
  intros Hs Ht Hb Hr. unfold cs_can_step. cbn [cs_step]. rewrite Ht. cbn [mbind option_bind].
  pose proof (sk_sem s Hs). assert (Eg : get_semaphore (cr_sect s) = None).
  { unfold get_semaphore. by rewrite (proj2 (Z.ltb_ge 1 _)) by lia. }
  destruct p; try done; cbn [cs_step_pc]; rewrite ?Eg; try (by eexists); try (by edestruct Hr).
  - destruct (wait_begin _ _ _ _ _ _) as [[]]; by eexists.
  - destruct ts; by eexists.
Qed.

Lemma waiter_progress s t p :
  sect_ok s -> cs_sleep_ok s -> cr_threads s !! t = Some p -> trying p = true ->
  (exists u n, cr_threads s !! u = Some (Run (S n))) \/ exists u, cs_can_step s u.
Proof.
  intros Hs Hok Ht Htr. destruct (cs_blocked p) eqn:Eb.
  2:{ right. exists t. apply (moves s t p); try done. by destruct p. }
  destruct (cw_blocked s Hok t p Ht Eb) as [Hsl | Hw];
    [| right; destruct p; try done; by eapply way_steps].
  pose proof (sk_count s Hs) as Hc. destruct (share s t p Ht) as [_ He].
  assert (1 <= entries p) by (destruct p; cbn; try done; lia).
  pose proof (sk_right s Hs) as Hr. unfold free_or_taken in Hr. rewrite (proj2 (Z.leb_le 0 _)) in Hr by lia.
  pose proof (sk_sem s Hs). destruct (Z.eq_dec (LockSemaphore (cr_sect s)) 1) as [E1 | E1].
  - right. destruct (cw_awake s Hok t E1 Hsl) as (v & r & Hv & [-> | [Hr1 Hr2]]); [exists v; by apply (moves s v L_wake) |].
    destruct (cs_blocked r) eqn:Er.
    + destruct r; try done. eapply way_steps; [done | by apply Hr2].
    + exists v. apply (moves s v r); try done. by destruct r.
  - assert (Hpos : 0 < total hold (cr_threads s)) by lia. apply total_positive in Hpos as (v & r & Hv & Hh).
    assert (Hcase : (exists n, r = Run n) \/ forall n, r <> Run n) by (destruct r; eauto; by right).
    destruct Hcase as [[n ->] | Hn].
    + destruct n; [done |]. left. by exists v, n.
    + right. exists v. apply (moves s v r); try done. by destruct r.
Qed.

(** C21: in any interleaving of fewer than 2^15 threads that nest at most 4096 deep, outside
    of process shutdown, at most one thread is in the section; its nesting is
    [RecursionCount] and it is [OwningThread], and [LockCount + 1] is the number of its
    entries plus the threads that wait. *)
Theorem cs_exclusion processors spincount n s :
  Z.of_nat n < 2 ^ 15 -> cs_reachable sem_addr false processors spincount n s ->
  (forall t k, cr_threads s !! t = Some (Run (S k)) ->
     OwningThread (cr_sect s) = Some t /\ RecursionCount (cr_sect s) = Z.of_nat (S k) /\
     forall u j, cr_threads s !! u = Some (Run (S j)) -> u = t) /\
  LockCount (cr_sect s) + 1 = total entries (cr_threads s).
Proof.
  intros Hn Hr. destruct (cs_reachable_inv processors spincount n s Hn Hr) as [Hs _]. split; [| apply Hs].
  intros t k Ht. split_and!.
  - by apply (sk_owner s Hs t (Run (S k))).
  - by apply (sk_rec s Hs t (Run (S k))).
  - intros u j Hu. destruct (decide (u = t)) as [| Ne]; [done | exfalso].
    destruct (right_unique s t (Run (S k)) Hs Ht eq_refl) as (_ & _ & _ & Hun). by specialize (Hun u _ Ne Hu).
Qed.

(** C22: with fewer than 2^15 threads that nest at most 4096 deep, outside of process shutdown,
    no waiter is forgotten: when nobody is in the section and no thread can take a step,
    every thread is outside and the section is free. *)
Theorem cs_no_lost_wakeup processors spincount n s :
  Z.of_nat n < 2 ^ 15 -> cs_reachable sem_addr false processors spincount n s ->
  (forall t k, cr_threads s !! t <> Some (Run (S k))) -> (forall t, ~ cs_can_step s t) ->
  (forall t p, cr_threads s !! t = Some p -> p = Run 0) /\ LockCount (cr_sect s) = -1.
Proof.
  intros Hn Hr Hno Hstuck. destruct (cs_reachable_inv processors spincount n s Hn Hr) as [Hs Hok].
  assert (Hall : forall t p, cr_threads s !! t = Some p -> p = Run 0).
  { intros t p Ht. destruct (cs_blocked p) eqn:Eb.
    - exfalso. destruct (waiter_progress s t p Hs Hok Ht) as [(u & k & Hu) | [u Hu]];
        [by destruct p | by eapply Hno | by eapply Hstuck].
    - assert (Hcase : (exists k, p = Run k) \/ forall k, p <> Run k) by (destruct p; eauto; by right).
      destruct Hcase as [[[| k] ->] | Hk]; [done | by apply Hno in Ht |]. exfalso. apply (Hstuck t). by apply (moves s t p). }
  split; [done |]. pose proof (sk_count s Hs) as Hc.
  assert (Hz : total entries (cr_threads s) = 0); [| lia].
  destruct (Z.lt_ge_cases 0 (total entries (cr_threads s))) as [Hp |];
    [| pose proof (total_nonneg entries (cr_threads s) entries_nonneg); lia].
  apply total_positive in Hp as (t & p & Ht & Hp). by rewrite (Hall t p Ht) in Hp.
Qed.
End Steps.

Lemma cs_run_reachable sem_addr shutdown processors spincount n evs s s' :
  cs_reachable sem_addr shutdown processors spincount n s -> cs_run sem_addr shutdown evs s = Some s' ->
  cs_reachable sem_addr shutdown processors spincount n s'.
Proof.
  revert s. induction evs as [| ev evs IH]; intros s Hr; cbn [cs_run]; [by intros [= <-] |].
  destruct (cs_step sem_addr shutdown ev s) as [s1 |] eqn:Es; [| done]. cbn [mbind option_bind].
  apply IH. by eapply cs_reach_step.
Qed.

(** ** Witnesses *)

(** Thread 0 enters twice; thread 1 waits; 0 leaves and 1 is woken. *)
Definition cs_demo_held : list cs_event :=
  Cs_call 0 RtlEnterCriticalSection :: repeat (Cs_step 0) 4 ++
  Cs_call 0 RtlEnterCriticalSection :: repeat (Cs_step 0) 4 ++
  Cs_call 1 RtlEnterCriticalSection :: repeat (Cs_step 1) 6.

Definition cs_demo_left : list cs_event :=
  Cs_call 0 RtlLeaveCriticalSection :: repeat (Cs_step 0) 2 ++
  Cs_call 0 RtlLeaveCriticalSection :: repeat (Cs_step 0) 6 ++ repeat (Cs_step 1) 5 ++
  Cs_call 1 RtlLeaveCriticalSection :: repeat (Cs_step 1) 3.

Definition cs_demo_1 : cs_state := default (cs_initial 1 0 2) (cs_run 64 false cs_demo_held (cs_initial 1 0 2)).
Definition cs_demo_2 : cs_state := default (cs_initial 1 0 2) (cs_run 64 false cs_demo_left cs_demo_1).

Lemma cs_demo_1_reachable : cs_reachable 64 false 1 0 2 cs_demo_1.
Proof. apply (cs_run_reachable 64 false 1 0 2 cs_demo_held (cs_initial 1 0 2)); [constructor | vm_compute; reflexivity]. Qed.

Lemma cs_demo_2_reachable : cs_reachable 64 false 1 0 2 cs_demo_2.
Proof. apply (cs_run_reachable 64 false 1 0 2 cs_demo_left cs_demo_1); [apply cs_demo_1_reachable | vm_compute; reflexivity]. Qed.

Lemma cs_exclusion_witness :
  cr_threads cs_demo_1 = [Run 2; W_block 0] /\ OwningThread (cr_sect cs_demo_1) = Some 0%nat /\
  RecursionCount (cr_sect cs_demo_1) = 2 /\ LockCount (cr_sect cs_demo_1) + 1 = 3.
Proof.
  destruct (cs_exclusion 64 ltac:(discriminate) 1 0 2 cs_demo_1 ltac:(reflexivity) cs_demo_1_reachable) as [H1 H2].
  destruct (H1 0%nat 1%nat) as (H3 & H4 & _); [vm_compute; reflexivity |].
  split; [vm_compute; reflexivity |]. split; [exact H3 |]. split; [exact H4 |]. rewrite H2. vm_compute. reflexivity.
Defined.

Lemma cs_no_lost_wakeup_witness :
  cr_threads cs_demo_2 = [Run 0; Run 0] /\ LockCount (cr_sect cs_demo_2) = -1.
Proof.
  assert (E : cr_threads cs_demo_2 = [Run 0; Run 0]) by (vm_compute; reflexivity). split; [exact E |].
  apply (cs_no_lost_wakeup 64 ltac:(discriminate) 1 0 2 cs_demo_2 ltac:(reflexivity) cs_demo_2_reachable).
  - intros t k. rewrite E. clear E. intros Ht. destruct t as [| [| t]]; discriminate Ht.
  - intros t [s' Hs]. unfold cs_step in Hs. rewrite E in Hs. clear E. destruct t as [| [| t]]; discriminate Hs.
Defined.
