(* ===== verification/RunOnce.v ===== *)
(** * One-time initialisation

    Models [RtlRunOnceBeginInitialize] and [RtlRunOnceComplete] of
    [src/dlls/ntdll/sync.c], from which [RtlRunOnceExecuteOnce] is composed, for one
    [RTL_RUN_ONCE] used by any number of threads.  One step is one access to shared
    memory or one system call.

    The word holds 0, the stack of waiting threads with low bits 1, the context with low
    bits 2 (done), or 3 (in progress, asynchronous).  A waiting thread pushes the address
    of its local variable [next]; [on_frames] has the variables that are in scope, and
    reading one that is not is a fault.  [NtReleaseKeyedEvent] and [NtWaitForKeyedEvent] on
    the same address meet: neither returns before the other is called.

    Only a thread that was told to initialise completes, in the mode it began in. *)

From stdpp Require Import base list gmap.
From Stdlib Require Import ZArith Lia.
From S2P Require Import Prelude.

Open Scope Z_scope.

Definition RTL_RUN_ONCE_CHECK_ONLY : Z := 1.
Definition RTL_RUN_ONCE_ASYNC : Z := 2.
Definition RTL_RUN_ONCE_INIT_FAILED : Z := 4.

Definition ONCE_SUCCESS : Z := 0.
Definition ONCE_PENDING : Z := 0x103.
Definition ONCE_INVALID_PARAMETER : Z := 0xC000000D.
Definition ONCE_UNSUCCESSFUL : Z := 0xC0000001.

(** [val & 3] and [val & ~3] *)
Definition low (val : Z) : Z := val mod 4.
Definition high (val : Z) : Z := val - val mod 4.

Inductive once_pc :=
  | O_idle                                    (* not in a function; nothing in progress *)
  | O_done (context : Z)                      (* told that it is done *)
  | O_status (st : Z)                         (* returned with another status *)
  | O_initializing (async : bool)             (* told to initialise: STATUS_PENDING *)
  (* RtlRunOnceBeginInitialize *)
  | B_check | B_read (async : bool) | B_first (async : bool) | B_wait (val : Z) | B_blocked
  (* RtlRunOnceComplete *)
  | C_read (async : bool) (context : Z) | C_cas (async : bool) (context val : Z)
  | C_walk (val : Z) | C_release (val next : Z).

Record once_state := mkOnce {
  on_ptr : Z;
  on_frames : gmap Z Z;
  on_threads : list once_pc;
  on_fault : bool
}.

Inductive once_call :=
  | RtlRunOnceBeginInitialize (flags : Z)
  | RtlRunOnceComplete (flags context : Z).

Inductive once_event := On_call (t : nat) (c : once_call) | On_step (t : nat) | On_meet (t u : nat).

Definition has (flags f : Z) : bool := negb (Z.land flags f =? 0).

Section Machine.
(** Where the variable [next] of a thread is. *)
Context (frame : nat -> Z).

Definition on_go (t : nat) (p : once_pc) (s : once_state) : once_state :=
  mkOnce (on_ptr s) (on_frames s) (<[t := p]> (on_threads s)) (on_fault s).
Definition on_set (v : Z) (s : once_state) : once_state := mkOnce v (on_frames s) (on_threads s) (on_fault s).
Definition on_local (a v : Z) (s : once_state) : once_state :=
  mkOnce (on_ptr s) (<[a := v]> (on_frames s)) (on_threads s) (on_fault s).
Definition on_drop (a : Z) (s : once_state) : once_state :=
  mkOnce (on_ptr s) (delete a (on_frames s)) (on_threads s) (on_fault s).
Definition on_set_fault (s : once_state) : once_state := mkOnce (on_ptr s) (on_frames s) (on_threads s) true.

(** The checks of [RtlRunOnceComplete] before its loop: a status, or the word to store. *)
Definition complete_args (flags context : Z) : Z + Z :=
  if negb (low context =? 0) then inl ONCE_INVALID_PARAMETER
  else if has flags RTL_RUN_ONCE_INIT_FAILED then
    if negb (context =? 0) then inl ONCE_INVALID_PARAMETER
    else if has flags RTL_RUN_ONCE_ASYNC then inl ONCE_INVALID_PARAMETER
    else inr context
  else inr (Z.lor context 2).

Definition once_begin (c : once_call) (p : once_pc) : option once_pc :=
  match c, p with
  | RtlRunOnceBeginInitialize flags, (O_idle | O_done _ | O_status _) =>
      Some (if has flags RTL_RUN_ONCE_CHECK_ONLY
            then (if has flags RTL_RUN_ONCE_ASYNC then O_status ONCE_INVALID_PARAMETER else B_check)
            else B_read (has flags RTL_RUN_ONCE_ASYNC))
  | RtlRunOnceComplete flags context, O_initializing async =>
      match complete_args flags context with
      | inl _ => Some (O_initializing async)
      | inr word => if Bool.eqb (has flags RTL_RUN_ONCE_ASYNC) async then Some (C_read async word) else None
      end
  | _, _ => None
  end.

Definition once_step_pc (t : nat) (p : once_pc) (s : once_state) : option once_state :=
  let val := on_ptr s in
  match p with
  | O_idle | O_done _ | O_status _ | O_initializing _ | B_blocked | C_release _ _ => None
  | B_check =>
      Some (on_go t (if negb (low val =? 2) then O_status ONCE_UNSUCCESSFUL else O_done (high val)) s)
  | B_read async =>
      Some (if low val =? 0 then on_go t (B_first async) s
            else if low val =? 1 then
              (if async then on_go t (O_status ONCE_INVALID_PARAMETER) s
               else on_go t (B_wait val) (on_local (frame t) (high val) s))
            else if low val =? 2 then on_go t (O_done (high val)) s
            else on_go t (if negb async then O_status ONCE_INVALID_PARAMETER else O_initializing true) s)
  | B_first async =>
      Some (if val =? 0 then on_go t (O_initializing async) (on_set (if async then 3 else 1) s)
            else on_go t (B_read async) s)
  | B_wait old =>
      Some (if val =? old then on_go t B_blocked (on_set (Z.lor (frame t) 1) s)
            else on_go t (B_read false) (on_drop (frame t) s))
  | C_read async context =>
      Some (if low val =? 1 then on_go t (C_cas async context val) s
            else if low val =? 3 then
              (if negb async then on_go t (O_status ONCE_INVALID_PARAMETER) s else on_go t (C_cas async context val) s)
            else on_go t (O_status ONCE_UNSUCCESSFUL) s)
  | C_cas async context old =>
      Some (if negb (val =? old) then on_go t (C_read async context) s
            else on_go t (if low old =? 1 then C_walk (high old) else O_status ONCE_SUCCESS) (on_set context s))
  | C_walk v =>
      Some (if v =? 0 then on_go t (O_status ONCE_SUCCESS) s
            else match on_frames s !! v with
                 | Some next => on_go t (C_release v next) s
                 | None => on_set_fault s
                 end)
  end.

(** [NtReleaseKeyedEvent] of [t] meets [NtWaitForKeyedEvent] of [u]. *)
Definition once_meet (t u : nat) (s : once_state) : option once_state :=
  match on_threads s !! t, on_threads s !! u with
  | Some (C_release v next), Some B_blocked =>
      if frame u =? v then Some (on_go t (C_walk next) (on_go u (B_read false) (on_drop v s))) else None
  | _, _ => None
  end.

Definition once_step (ev : once_event) (s : once_state) : option once_state :=
  match ev with
  | On_call t c => p ← on_threads s !! t; q ← once_begin c p; Some (on_go t q s)
  | On_step t => p ← on_threads s !! t; once_step_pc t p s
  | On_meet t u => once_meet t u s
  end.

Fixpoint once_run (evs : list once_event) (s : once_state) : option once_state :=
  match evs with [] => Some s | ev :: evs' => s' ← once_step ev s; once_run evs' s' end.

(** [RtlRunOnceInitialize] *)
Definition once_initial (n : nat) : once_state := mkOnce 0 ∅ (replicate n O_idle) false.

Inductive once_reachable (n : nat) : once_state -> Prop :=
  | once_reach_initial : once_reachable n (once_initial n)
  | once_reach_step ev s s' : once_reachable n s -> once_step ev s = Some s' -> once_reachable n s'.
End Machine.
