(* ===== verification/RunOnceTheorems.v ===== *)
(** * What one-time initialisation promises

    One initialiser at a time, one context for everybody, no waiter forgotten and no
    variable of a thread read after it has gone. *)

From stdpp Require Import base list gmap.
From Stdlib Require Import ZArith Lia ZifyBool.
From S2P Require Import Prelude Threads RunOnce.

Open Scope Z_scope.

(** ** The low bits *)

Lemma low_high v : v = high v + low v /\ 0 <= low v < 4 /\ low (high v) = 0 /\ high (high v) = high v.
Proof.
  unfold high, low. pose proof (Z.mod_pos_bound v 4 ltac:(lia)). pose proof (Z.div_mod v 4 ltac:(lia)).
  assert (E : (v - v mod 4) mod 4 = 0).
  { replace (v - v mod 4) with (v / 4 * 4) by lia. apply Z.mod_mul. lia. }
  split_and!; lia.
Qed.

Lemma lor_low v d : low v = 0 -> 0 <= d < 4 -> Z.lor v d = v + d.
Proof.
  intros Hv Hd. assert (El : Z.land v d = 0).
  { apply Z.bits_inj'. intros n Hn. rewrite Z.land_spec, Z.bits_0. unfold low in Hv.
    destruct (Z.lt_ge_cases n 2) as [Hl | Hl].
    - rewrite (Z.div_mod v 4), Hv, Z.add_0_r by lia. change 4 with (2 ^ 2). rewrite Z.mul_comm, Z.mul_pow2_bits_low by lia. done.
    - assert (Ed : Z.testbit d n = false); [| by rewrite Ed, andb_false_r].
      destruct (Z.eq_dec d 0) as [-> | Hd0]; [apply Z.bits_0 |]. apply Z.bits_above_log2; [lia |].
      assert (Z.log2 d < 2) by (apply Z.log2_lt_pow2; simpl; lia). lia. }
  rewrite <- Z.lxor_lor by done. symmetry. by apply Z.add_nocarry_lxor.
Qed.

Lemma low_add v d : low v = 0 -> 0 <= d < 4 -> low (v + d) = d /\ high (v + d) = v.
Proof.
  unfold low, high. intros Hv Hd. assert (E : (v + d) mod 4 = d).
  { rewrite Z.add_mod, Hv, Z.add_0_l, Z.mod_mod, Z.mod_small by lia. done. }
  rewrite E. lia.
Qed.

(** ** Moving lists between threads *)

Lemma concat_replace {A} (ls : list (list A)) t l l' :
  ls !! t = Some l -> concat (<[t := l']> ls) ++ l ≡ₚ concat ls ++ l'.
Proof.
  revert t. induction ls as [| x ls IH]; intros [| t] Ht; try done.
  - injection Ht as ->. change (concat (<[0%nat := l']> (l :: ls))) with (l' ++ concat ls). cbn [concat]. solve_Permutation.
  - change (concat (<[S t := l']> (x :: ls))) with (x ++ concat (<[t := l']> ls)). cbn [concat].
    rewrite <- !app_assoc. by rewrite (IH t Ht).
Qed.

Section Invariant.
Context (frame : nat -> Z).
Context (frame_inj : forall t u, frame t = frame u -> t = u).
Context (frame_low : forall t, low (frame t) = 0) (frame_not_0 : forall t, frame t <> 0).

(** The threads on a stack of waiters. *)
Fixpoint chain (m : gmap Z Z) (v : Z) (ws : list nat) : Prop :=
  match ws with
  | [] => v = 0
  | u :: ws' => v = frame u /\ exists next, m !! v = Some next /\ chain m next ws'
  end.

Lemma chain_same m m' v ws :
  (forall u, u ∈ ws -> m' !! frame u = m !! frame u) -> chain m v ws -> chain m' v ws.
Proof.
  revert v. induction ws as [| u ws IH]; intros v Hm; [done |]. cbn. intros (-> & next & Hn & Hc). split; [done |].
  exists next. split; [rewrite Hm; [done | by left] |]. apply IH; [| done]. intros w Hw. apply Hm. by right.
Qed.

(** A thread that initialises and is not asynchronous. *)
Definition in_charge (p : once_pc) : Z :=
  match p with O_initializing false | C_read false _ | C_cas false _ _ => 1 | _ => 0 end.

Lemma in_charge_01 p : 0 <= in_charge p <= 1.
Proof. destruct p as [| | | [] | | | | | | [] | [] | |]; cbn; lia. Qed.

(** What a program point knows of the word. *)
Definition word_ok (ptr : Z) (p : once_pc) : Prop :=
  match p with
  | O_done c => low ptr = 2 /\ high ptr = c
  | O_initializing true => low ptr = 2 \/ ptr = 3
  | B_wait val => low val = 1
  | C_read async w => (low w = 2 \/ (w = 0 /\ async = false)) /\ (async = true -> low ptr = 2 \/ ptr = 3)
  | C_cas async w val =>
      (low w = 2 \/ (w = 0 /\ async = false)) /\
      (if async then val = 3 /\ (low ptr = 2 \/ ptr = 3) else low val = 1)
  | _ => True
  end.

(** The waiters a thread has still to release. *)
Definition walks (m : gmap Z Z) (p : once_pc) (l : list nat) : Prop :=
  match p with
  | C_walk v => chain m v l
  | C_release v next => exists u ws, l = u :: ws /\ v = frame u /\ chain m next ws
  | _ => l = []
  end.

Definition local_ok (m : gmap Z Z) (t : nat) (p : once_pc) : Prop :=
  match p with B_wait val => m !! frame t = Some (high val) | _ => True end.

Record once_ok (s : once_state) (top : list nat) (ls : list (list nat)) : Prop := mkOnceOk {
  ok_fault : on_fault s = false;
  ok_ptr : on_ptr s = 0 \/ low (on_ptr s) = 1 \/ low (on_ptr s) = 2 \/ on_ptr s = 3;
  ok_charge : total in_charge (on_threads s) = if low (on_ptr s) =? 1 then 1 else 0;
  ok_word : forall t p, on_threads s !! t = Some p -> word_ok (on_ptr s) p;
  ok_top : if low (on_ptr s) =? 1 then chain (on_frames s) (high (on_ptr s)) top else top = [];
  ok_len : length ls = length (on_threads s);
  ok_walks : forall t p l, on_threads s !! t = Some p -> ls !! t = Some l -> walks (on_frames s) p l;
  ok_local : forall t p, on_threads s !! t = Some p -> local_ok (on_frames s) t p;
  ok_nodup : NoDup (top ++ concat ls);
  ok_blocked : forall t, t ∈ top ++ concat ls <-> on_threads s !! t = Some B_blocked
}.

Lemma frame_ne t u : t <> u -> frame t <> frame u.
Proof. intros Ne E. by apply Ne, frame_inj. Qed.

Lemma walks_same m m' p l :
  (forall u, u ∈ l -> m' !! frame u = m !! frame u) -> walks m p l -> walks m' p l.
Proof.
  intros Hm. destruct p; cbn; try done.
  - by apply chain_same.
  - intros (u & ws & -> & -> & Hc). exists u, ws. split_and!; [done | done |]. eapply chain_same; [| exact Hc].
    intros w Hw. apply Hm. by right.
Qed.

Lemma in_lists (ls : list (list nat)) t l u : ls !! t = Some l -> u ∈ l -> u ∈ concat ls.
Proof. intros Hl Hu. apply list_elem_of_In, in_concat. exists l. split; [| by apply list_elem_of_In].
  apply list_elem_of_In. by eapply list_elem_of_lookup_2. Qed.

(** While the word is 0 or a stack, nobody has been told that it is done. *)
Lemma word_ok_any ptr ptr' p : low ptr <> 2 -> ptr <> 3 -> word_ok ptr p -> word_ok ptr' p.
Proof.
  intros H2 H3. destruct p as [| | | [] | | | | | | [] | [] | |]; cbn; try done; tauto.
Qed.

Lemma word_ok_done ptr' p : low ptr' = 2 -> word_ok 3 p -> word_ok ptr' p.
Proof.
  intros H2. destruct p as [| | | [] | | | | | | [] | [] | |]; cbn; try done; try tauto.
  by intros [? _].
Qed.

(** A blocked thread is not the one that takes a step. *)
Lemma not_listed s top ls t p :
  once_ok s top ls -> on_threads s !! t = Some p -> p <> B_blocked -> t ∉ top ++ concat ls.
Proof. intros Hs Ht Hp Hin. apply (ok_blocked s top ls Hs) in Hin. congruence. Qed.

Lemma own_list s top ls t p :
  once_ok s top ls -> on_threads s !! t = Some p -> exists l, ls !! t = Some l /\ walks (on_frames s) p l.
Proof.
  intros Hs Ht. destruct (lookup_lt_is_Some_2 ls t) as [l Hl].
  { rewrite (ok_len s top ls Hs). by apply lookup_lt_Some in Ht. }
  exists l. split; [done |]. by apply (ok_walks s top ls Hs t).
Qed.

(** A step that leaves the word and the waiters alone. *)
Lemma once_quiet s s' top ls t p q :
  once_ok s top ls -> on_threads s !! t = Some p -> on_threads s' = <[t := q]> (on_threads s) ->
  on_fault s' = false -> on_ptr s' = on_ptr s -> p <> B_blocked -> q <> B_blocked ->
  (forall l, ls !! t = Some l -> walks (on_frames s) p l -> walks (on_frames s') q l) ->
  (forall a, a <> frame t -> on_frames s' !! a = on_frames s !! a) ->
  local_ok (on_frames s') t q -> word_ok (on_ptr s) q -> in_charge q = in_charge p -> once_ok s' top ls.
Proof.
  intros Hs Ht Hth Hf Hp Hpb Hqb Hw Hm Hl Hwd Hch. pose proof (not_listed s top ls t p Hs Ht Hpb) as Hnt.
  assert (Hu : forall u, u ∈ top ++ concat ls -> on_frames s' !! frame u = on_frames s !! frame u).
  { intros u Hin. apply Hm, frame_ne. by intros ->. }
  split; rewrite ?Hp, ?Hth; try apply Hs; try done.
  - rewrite (total_insert in_charge _ _ _ _ Ht). pose proof (ok_charge s top ls Hs). lia.
  - intros u r [(_ & <- & _) | (_ & Hr)]%list_lookup_insert_Some; [done | by apply (ok_word s top ls Hs u)].
  - pose proof (ok_top s top ls Hs) as Htop. destruct (_ =? 1); [| done]. eapply chain_same; [| exact Htop].
    intros u Hin. apply Hu, elem_of_app. by left.
  - rewrite length_insert. apply Hs.
  - intros u r l [(<- & <- & _) | (Ne & Hr)]%list_lookup_insert_Some Hlu.
    + apply Hw; [done |]. by apply (ok_walks s top ls Hs t).
    + eapply walks_same; [| by apply (ok_walks s top ls Hs u r)]. intros w Hw'. apply Hu, elem_of_app. right. by eapply in_lists.
  - intros u r [(<- & <- & _) | (Ne & Hr)]%list_lookup_insert_Some; [done |].
    pose proof (ok_local s top ls Hs u r Hr) as Hlo. destruct r; try done. cbn in *. rewrite Hm; [done | by apply frame_ne].
  - intros u. rewrite (ok_blocked s top ls Hs u). destruct (decide (u = t)) as [-> | Ne].
    + rewrite list_lookup_insert_eq by (by apply lookup_lt_Some in Ht). rewrite Ht. split; congruence.
    + by rewrite list_lookup_insert_ne.
Qed.

(** A step that changes the word while no stack is involved. *)
Lemma once_word s s' top ls t p q :
  once_ok s top ls -> on_threads s !! t = Some p -> on_threads s' = <[t := q]> (on_threads s) ->
  on_fault s' = false -> on_frames s' = on_frames s -> low (on_ptr s) <> 1 ->
  p <> B_blocked -> q <> B_blocked -> (forall m, walks m p [] -> walks m q []) -> (forall l, walks (on_frames s) p l -> l = []) ->
  local_ok (on_frames s) t q -> word_ok (on_ptr s') q -> (forall r, word_ok (on_ptr s) r -> word_ok (on_ptr s') r) ->
  (low (on_ptr s') = 1 -> high (on_ptr s') = 0) ->
  (on_ptr s' = 0 \/ low (on_ptr s') = 1 \/ low (on_ptr s') = 2 \/ on_ptr s' = 3) ->
  in_charge q - in_charge p = (if low (on_ptr s') =? 1 then 1 else 0) -> once_ok s' top ls.
Proof.
  intros Hs Ht Hth Hf Hm Hp Hpb Hqb Hw Hl Hlo Hwd Hwds Hhigh Hshape Hch.
  pose proof (ok_charge s top ls Hs) as Hc. pose proof (ok_top s top ls Hs) as Htop.
  rewrite (proj2 (Z.eqb_neq _ _) Hp) in Hc, Htop.
  split; rewrite ?Hth, ?Hm; try apply Hs; try done.
  - rewrite (total_insert in_charge _ _ _ _ Ht). lia.
  - intros u r [(_ & <- & _) | (_ & Hr)]%list_lookup_insert_Some; [done |]. by apply Hwds, (ok_word s top ls Hs u).
  - destruct (Z.eqb_spec (low (on_ptr s')) 1) as [E | E]; [| done]. rewrite Htop. cbn. by apply Hhigh.
  - rewrite length_insert. apply Hs.
  - intros u r l [(<- & <- & _) | (Ne & Hr)]%list_lookup_insert_Some Hlu; [| by apply (ok_walks s top ls Hs u r)].
    pose proof (ok_walks s top ls Hs t p l Ht Hlu) as Hpl. assert (l = []) as -> by auto. by apply Hw.
  - intros u r [(<- & <- & _) | (Ne & Hr)]%list_lookup_insert_Some; [done | by apply (ok_local s top ls Hs u r)].
  - intros u. rewrite (ok_blocked s top ls Hs u). destruct (decide (u = t)) as [-> | Ne].
    + rewrite list_lookup_insert_eq by (by apply lookup_lt_Some in Ht). rewrite Ht. split; congruence.
    + by rewrite list_lookup_insert_ne.
Qed.

(** Joining the stack. *)
Lemma once_push s top ls t val :
  once_ok s top ls -> on_threads s !! t = Some (B_wait val) -> on_ptr s = val ->
  once_ok (on_go t B_blocked (on_set (Z.lor (frame t) 1) s)) (t :: top) ls.
Proof.
  intros Hs Ht Ev. pose proof (ok_word s top ls Hs t _ Ht) as Hlow. cbn in Hlow. rewrite <- Ev in Hlow.
  pose proof (ok_local s top ls Hs t _ Ht) as Hloc. cbn in Hloc. rewrite <- Ev in Hloc.
  pose proof (ok_charge s top ls Hs) as Hc. pose proof (ok_top s top ls Hs) as Htop. rewrite Hlow in Hc, Htop. cbn [Z.eqb Pos.eqb] in Hc, Htop.
  assert (El : Z.lor (frame t) 1 = frame t + 1) by (apply lor_low; [apply frame_low | lia]).
  destruct (low_add (frame t) 1 (frame_low t) ltac:(lia)) as [L1 L2].
  pose proof (not_listed s top ls t (B_wait val) Hs Ht ltac:(discriminate)) as Hnt.
  split; cbn [on_go on_set on_ptr on_frames on_threads on_fault]; rewrite ?El, ?L1, ?L2; try apply Hs; try done.
  - right. by left.
  - rewrite (total_insert in_charge _ _ _ _ Ht). cbn [in_charge]. cbn. lia.
  - intros u r [(_ & <- & _) | (_ & Hr)]%list_lookup_insert_Some; [done |].
    eapply (word_ok_any (on_ptr s)); [lia | | by apply (ok_word s top ls Hs u)]. intros E3. rewrite E3 in Hlow. done.
  - cbn. split; [done |]. by exists (high (on_ptr s)).
  - rewrite length_insert. apply Hs.
  - intros u r l [(<- & <- & _) | (Ne & Hr)]%list_lookup_insert_Some Hlu; [| by apply (ok_walks s top ls Hs u r)].
    by apply (ok_walks s top ls Hs t (B_wait val)).
  - intros u r [(<- & <- & _) | (Ne & Hr)]%list_lookup_insert_Some; [done | by apply (ok_local s top ls Hs u r)].
  - cbn [app]. constructor; [done | apply Hs].
  - intros u. cbn [app]. rewrite elem_of_cons, (ok_blocked s top ls Hs u). destruct (decide (u = t)) as [-> | Ne].
    + rewrite list_lookup_insert_eq by (by apply lookup_lt_Some in Ht). tauto.
    + rewrite list_lookup_insert_ne by done. tauto.
Qed.

(** Taking the whole stack to release it. *)
Lemma once_take s top ls t w val :
  once_ok s top ls -> on_threads s !! t = Some (C_cas false w val) -> on_ptr s = val ->
  once_ok (on_go t (C_walk (high val)) (on_set w s)) [] (<[t := top]> ls).
Proof.
  intros Hs Ht Ev. pose proof (ok_word s top ls Hs t _ Ht) as [Hw Hlow]. rewrite <- Ev in Hlow |- *.
  pose proof (ok_charge s top ls Hs) as Hc. pose proof (ok_top s top ls Hs) as Htop. rewrite Hlow in Hc, Htop. cbn [Z.eqb Pos.eqb] in Hc, Htop.
  destruct (own_list s top ls t _ Hs Ht) as (l & Hl & El). cbn in El. subst l.
  assert (Hw1 : low w <> 1) by (destruct Hw as [-> | [-> _]]; done).
  pose proof (concat_replace ls t [] top Hl) as Hperm. rewrite app_nil_r in Hperm.
  split; cbn [on_go on_set on_ptr on_frames on_threads on_fault]; rewrite ?(proj2 (Z.eqb_neq _ _) Hw1); try apply Hs; try done.
  - destruct Hw as [? | [? _]]; tauto.
  - rewrite (total_insert in_charge _ _ _ _ Ht). cbn [in_charge]. lia.
  - intros u r [(_ & <- & _) | (_ & Hr)]%list_lookup_insert_Some; [done |].
    eapply (word_ok_any (on_ptr s)); [lia | | by apply (ok_word s top ls Hs u)]. intros E3. rewrite E3 in Hlow. done.
  - rewrite !length_insert. apply Hs.
  - intros u r l [(<- & <- & _) | (Ne & Hr)]%list_lookup_insert_Some Hlu.
    + rewrite list_lookup_insert_eq in Hlu by (by apply lookup_lt_Some in Hl). by injection Hlu as <-.
    + rewrite list_lookup_insert_ne in Hlu by done. by apply (ok_walks s top ls Hs u r).
  - intros u r [(<- & <- & _) | (Ne & Hr)]%list_lookup_insert_Some; [done | by apply (ok_local s top ls Hs u r)].
  - cbn [app]. rewrite Hperm, Permutation_app_comm. apply Hs.
  - intros u. cbn [app]. rewrite Hperm, Permutation_app_comm, (ok_blocked s top ls Hs u). destruct (decide (u = t)) as [-> | Ne].
    + rewrite list_lookup_insert_eq by (by apply lookup_lt_Some in Ht). rewrite Ht. split; congruence.
    + by rewrite list_lookup_insert_ne.
Qed.

(** Releasing the first waiter. *)
Lemma once_meet_ok s s' top ls t u :
  once_ok s top ls -> once_meet frame t u s = Some s' -> exists ls', once_ok s' top ls'.
Proof.
  intros Hs. unfold once_meet. destruct (on_threads s !! t) as [p |] eqn:Ht; [| done]. destruct p; try done.
  destruct (on_threads s !! u) as [q |] eqn:Hu; [| done]. destruct q; try done.
  destruct (Z.eqb_spec (frame u) val) as [<- | ?]; [| done]. intros [= <-].
  destruct (own_list s top ls t _ Hs Ht) as (l & Hl & (u' & ws & -> & Ev & Hc)). apply frame_inj in Ev as <-.
  assert (Ne : u <> t) by congruence. exists (<[t := ws]> ls).
  pose proof (concat_replace ls t (u :: ws) ws Hl) as Hperm.
  assert (Hperm' : u :: (top ++ concat (<[t := ws]> ls)) ≡ₚ top ++ concat ls).
  { apply (Permutation_app_inv_r ws). rewrite <- (app_assoc top (concat ls)), <- Hperm. solve_Permutation. }
  assert (Hnd : NoDup (u :: (top ++ concat (<[t := ws]> ls)))) by (rewrite Hperm'; apply Hs).
  apply NoDup_cons in Hnd as [Hnu Hnd].
  assert (Hm : forall w, w ∈ top ++ concat (<[t := ws]> ls) -> delete (frame u) (on_frames s) !! frame w = on_frames s !! frame w).
  { intros w Hw. apply lookup_delete_ne, frame_ne. by intros ->. }
  assert (Hth : forall w, w <> t -> w <> u -> <[t := C_walk next]> (<[u := B_read false]> (on_threads s)) !! w = on_threads s !! w).
  { intros w N1 N2. by rewrite !list_lookup_insert_ne. }
  assert (Ht' : <[u := B_read false]> (on_threads s) !! t = Some (C_release (frame u) next)) by by rewrite list_lookup_insert_ne.
  split; cbn [on_go on_drop on_ptr on_frames on_threads on_fault]; try apply Hs.
  - rewrite (total_insert in_charge _ _ _ _ Ht'), (total_insert in_charge _ _ _ _ Hu). cbn [in_charge]. pose proof (ok_charge s top ls Hs). lia.
  - intros w r [(_ & <- & _) | (_ & Hr)]%list_lookup_insert_Some; [done |].
    apply list_lookup_insert_Some in Hr as [(_ & <- & _) | (_ & Hr)]; [done | by apply (ok_word s top ls Hs w)].
  - pose proof (ok_top s top ls Hs) as Htop. destruct (_ =? 1); [| done]. eapply chain_same; [| exact Htop].
    intros w Hw. apply Hm, elem_of_app. by left.
  - rewrite !length_insert. apply Hs.
  - intros w r l [(<- & <- & _) | (N1 & Hr)]%list_lookup_insert_Some Hlw.
    + rewrite list_lookup_insert_eq in Hlw by (by apply lookup_lt_Some in Hl). injection Hlw as <-. cbn.
      eapply chain_same; [| exact Hc]. intros x Hx. apply Hm, elem_of_app. right.
      eapply (in_lists _ t ws); [| done]. apply list_lookup_insert_eq. by apply lookup_lt_Some in Hl.
    + pose proof Hlw as Hlw'. rewrite list_lookup_insert_ne in Hlw by done.
      assert (Hsame : walks (on_frames s) r l).
      { apply list_lookup_insert_Some in Hr as [(<- & <- & _) | (_ & Hr)]; [| by apply (ok_walks s top ls Hs w r)].
        by apply (ok_walks s top ls Hs u B_blocked). }
      eapply walks_same; [| exact Hsame]. intros x Hx. apply Hm, elem_of_app. right. by eapply in_lists.
  - intros w r [(_ & <- & _) | (N1 & Hr)]%list_lookup_insert_Some; [done |].
    apply list_lookup_insert_Some in Hr as [(_ & <- & _) | (N2 & Hr)]; [done |].
    pose proof (ok_local s top ls Hs w r Hr) as Hlo. destruct r; try done. cbn in *.
    rewrite lookup_delete_ne; [done | by apply frame_ne].
  - done.
  - intros w. assert (Hw : w ∈ top ++ concat (<[t := ws]> ls) <-> w <> u /\ w ∈ top ++ concat ls).
    { rewrite <- Hperm', elem_of_cons. split; [| naive_solver]. intros Hw. split; [by intros -> | by right]. }
    rewrite Hw, (ok_blocked s top ls Hs w). destruct (decide (w = t)) as [-> | N1].
    + rewrite list_lookup_insert_eq by (rewrite length_insert; by apply lookup_lt_Some in Ht). rewrite Ht. split; [by intros [_ ?] | done].
    + rewrite list_lookup_insert_ne by done. destruct (decide (w = u)) as [-> | N2].
      * rewrite list_lookup_insert_eq by (by apply lookup_lt_Some in Hu). split; [by intros [? _] | done].
      * rewrite list_lookup_insert_ne by done. tauto.
Qed.

Lemma charge_low s top ls t p : once_ok s top ls -> on_threads s !! t = Some p -> in_charge p = 1 -> low (on_ptr s) = 1.
Proof.
  intros Hs Ht Hc. pose proof (total_part in_charge _ t p (fun p => proj1 (in_charge_01 p)) Ht).
  pose proof (ok_charge s top ls Hs) as E. destruct (Z.eqb_spec (low (on_ptr s)) 1); [done | lia].
Qed.

Lemma shape_3 s top ls : once_ok s top ls -> low (on_ptr s) = 3 -> on_ptr s = 3.
Proof. intros Hs E. destruct (ok_ptr s top ls Hs) as [H | [H | [H | H]]]; [rewrite H in E; done | lia | lia | done]. Qed.

Ltac plain Hs Ht := eapply (once_quiet _ _ _ _ _ _ _ Hs Ht); [reflexivity | apply Hs | reflexivity | done | ..]; try done.

Lemma step_begin_ok s top ls t p s' :
  once_ok s top ls -> on_threads s !! t = Some p -> once_step_pc frame t p s = Some s' ->
  (forall v, p <> C_walk v) -> (forall a w, p <> C_read a w) -> (forall a w v, p <> C_cas a w v) ->
  exists top', once_ok s' top' ls.
Proof.
  intros Hs Ht Hst N1 N2 N3. destruct p; cbn [once_step_pc] in Hst; try done; injection Hst as <-;
    try (by edestruct N1); try (by edestruct N2); try (by edestruct N3).
  - exists top. destruct (Z.eqb_spec (low (on_ptr s)) 2); cbn [negb]; plain Hs Ht.
  - exists top. destruct (Z.eqb_spec (low (on_ptr s)) 0) as [E0 | E0]; [plain Hs Ht |].
    destruct (Z.eqb_spec (low (on_ptr s)) 1) as [E1 | E1].
    { destruct async; [plain Hs Ht |]. plain Hs Ht.
      - intros a Ha. cbn. by rewrite lookup_insert_ne.
      - cbn. by rewrite lookup_insert_eq. }
    destruct (Z.eqb_spec (low (on_ptr s)) 2) as [E2 | E2]; [plain Hs Ht |].
    destruct async; cbn [negb]; plain Hs Ht. right. apply (shape_3 s top ls Hs). pose proof (low_high (on_ptr s)). lia.
  - exists top. destruct (Z.eqb_spec (on_ptr s) 0) as [E0 | E0]; [| plain Hs Ht].
    eapply (once_word s _ top ls t _ _ Hs Ht); cbn [on_go on_set on_ptr on_frames on_threads on_fault]; try done.
    + apply Hs.
    + by rewrite E0.
    + by destruct async; [right |].
    + intros r. rewrite E0. by apply word_ok_any.
    + by destruct async.
    + destruct async; [right; right; by right | right; by left].
    + by destruct async.
  - destruct (Z.eqb_spec (on_ptr s) val) as [E | E]; [exists (t :: top); by eapply once_push | exists top]. plain Hs Ht.
    intros a Ha. cbn. by rewrite lookup_delete_ne.
Qed.

Lemma step_complete_ok s top ls t p s' :
  once_ok s top ls -> on_threads s !! t = Some p -> once_step_pc frame t p s = Some s' ->
  ((exists v, p = C_walk v) \/ (exists a w, p = C_read a w) \/ (exists a w v, p = C_cas a w v)) ->
  exists top' ls', once_ok s' top' ls'.
Proof.
  intros Hs Ht Hst Hp. pose proof (ok_word s top ls Hs t p Ht) as Hw.
  destruct Hp as [[v ->] | [(a & w & ->) | (a & w & v & ->)]]; cbn [once_step_pc] in Hst; injection Hst as <-.
  - exists top, ls. destruct (own_list s top ls t _ Hs Ht) as (l & Hl & Hc). cbn in Hc.
    destruct (Z.eqb_spec v 0) as [-> | Hv].
    + plain Hs Ht. intros l' _ Hl'. cbn in *. destruct l' as [| u l']; [done |]. destruct Hl' as [E _]. by edestruct frame_not_0.
    + destruct l as [| u ws]; [done |]. destruct Hc as (Ev & next & Hn & Hc). rewrite Hn. plain Hs Ht.
      intros l' Hl' _. rewrite Hl in Hl'. injection Hl' as <-. by exists u, ws.
  - exists top, ls. cbn in Hw. destruct (Z.eqb_spec (low (on_ptr s)) 1) as [E1 | E1].
    { destruct a; [exfalso; destruct (proj2 Hw eq_refl) as [? | E3]; [lia | by rewrite E3 in E1] |]. plain Hs Ht. cbn. tauto. }
    destruct a.
    + destruct (Z.eqb_spec (low (on_ptr s)) 3) as [E3 | E3]; cbn [negb]; plain Hs Ht. cbn. split; [apply Hw |].
      pose proof (shape_3 s top ls Hs E3) as E. split; [exact E | by right].
    + exfalso. apply E1. by eapply (charge_low s top ls t _ Hs Ht).
  - destruct (Z.eqb_spec (on_ptr s) v) as [E | E]; cbn [negb].
    2:{ exists top, ls. plain Hs Ht; cbn in *; destruct a; try done; (split; [apply Hw | try done]). intros _. apply Hw. }
    destruct a.
    + exists top, ls. cbn in Hw. destruct Hw as ([Hw2 | [_ ?]] & -> & _); [| done].
      eapply (once_word s _ top ls t _ _ Hs Ht); cbn [on_go on_set on_ptr on_frames on_threads on_fault]; try done.
      * apply Hs.
      * by rewrite E.
      * intros r. rewrite E. by apply word_ok_done.
      * intros El. lia.
      * right. right. by left.
      * rewrite Hw2. done.
    + pose proof Hw as [_ Hlow]. rewrite Hlow. cbn [Z.eqb Pos.eqb]. exists [], (<[t := top]> ls). by apply (once_take s top ls t w v).
Qed.

Lemma step_ok ev s s' top ls :
  once_ok s top ls -> once_step frame ev s = Some s' -> exists top' ls', once_ok s' top' ls'.
Proof.
  intros Hs. destruct ev as [t c | t | t u]; cbn [once_step].
  - destruct (on_threads s !! t) as [p |] eqn:Ht; [| done]. cbn [mbind option_bind].
    destruct (once_begin c p) as [q |] eqn:Eb; [| done]. cbn [mbind option_bind]. intros [= <-]. exists top, ls.
    pose proof (ok_word s top ls Hs t p Ht) as Hw. unfold once_begin in Eb.
    destruct c as [flags | flags context].
    + destruct p; try done; injection Eb as <-; destruct (has flags RTL_RUN_ONCE_CHECK_ONLY), (has flags RTL_RUN_ONCE_ASYNC); plain Hs Ht.
    + destruct p; try done. destruct (complete_args flags context) as [st | w] eqn:Ea; [injection Eb as <-; plain Hs Ht |].
      unfold complete_args in Ea. destruct (Z.eqb_spec (low context) 0) as [El | El]; cbn [negb] in Ea; [| done].
      destruct (Bool.eqb_spec (has flags RTL_RUN_ONCE_ASYNC) async) as [<- | ?]; [| done]. injection Eb as <-.
      assert (Hword : low w = 2 \/ (w = 0 /\ has flags RTL_RUN_ONCE_ASYNC = false)).
      { destruct (has flags RTL_RUN_ONCE_INIT_FAILED).
        - destruct (Z.eqb_spec context 0) as [-> | ?]; cbn [negb] in Ea; [| done].
          destruct (has flags RTL_RUN_ONCE_ASYNC); [done |]. injection Ea as <-. by right.
        - injection Ea as <-. left. rewrite lor_low by (done || lia). by apply low_add. }
      plain Hs Ht. cbn. split; [done |]. intros E. by rewrite E in Hw.
  - destruct (on_threads s !! t) as [p |] eqn:Ht; [| done]. cbn [mbind option_bind]. intros Hst.
    destruct p; try (by cbn in Hst);
      try (destruct (step_begin_ok s top ls t _ s' Hs Ht Hst) as [top' ?]; [done | done | done | by exists top', ls]);
      eapply (step_complete_ok s top ls t _ s' Hs Ht Hst); naive_solver.
  - intros Hm. destruct (once_meet_ok s s' top ls t u Hs Hm) as [ls' ?]. by exists top, ls'.
Qed.

Lemma concat_nils n : concat (replicate n (@nil nat)) = [].
Proof. induction n as [| n IH]; [done | exact IH]. Qed.

Lemma once_reachable_ok n s : once_reachable frame n s -> exists top ls, once_ok s top ls.
Proof.
  induction 1 as [| ev s s' _ (top & ls & Hs) Hst]; [| by eapply step_ok].
  exists [], (replicate n []). split; cbn [once_initial on_ptr on_frames on_threads on_fault]; try done.
  - by left.
  - rewrite total_replicate. cbn [in_charge]. change (low 0 =? 1) with false. lia.
  - by intros t p [-> _]%lookup_replicate.
  - by rewrite !length_replicate.
  - intros t p l [-> _]%lookup_replicate [-> _]%lookup_replicate. done.
  - by intros t p [-> _]%lookup_replicate.
  - cbn [app]. rewrite concat_nils. constructor.
  - intros t. cbn [app]. rewrite concat_nils. split; [by intros ?%elem_of_nil | by intros [? _]%lookup_replicate].
Qed.

(** C30: in any interleaving at most one thread is told to initialise synchronously at a time
    and has not completed; everybody who is told that it is done gets the same context,
    the one in the word; and no variable of a thread that has gone on is read. *)
Theorem once_single_initializer n s :
  once_reachable frame n s ->
  on_fault s = false /\
  (forall t u, on_threads s !! t = Some (O_initializing false) -> on_threads s !! u = Some (O_initializing false) -> t = u) /\
  (forall t c, on_threads s !! t = Some (O_done c) ->
     on_ptr s = c + 2 /\ forall u p, on_threads s !! u = Some p -> p <> O_initializing false).
Proof.
  intros (top & ls & Hs)%once_reachable_ok. pose proof (ok_charge s top ls Hs) as Hc. split_and!; [apply Hs | |].
  - intros t u Ht Hu. destruct (decide (t = u)) as [| Ne]; [done | exfalso].
    pose proof (total_pair in_charge _ t u _ _ (fun p => proj1 (in_charge_01 p)) Ne Ht Hu) as Hp. cbn [in_charge] in Hp.
    destruct (_ =? 1); lia.
  - intros t c Ht. pose proof (ok_word s top ls Hs t _ Ht) as [Hl Hh]. split; [pose proof (low_high (on_ptr s)); lia |].
    intros u p Hu ->. apply (charge_low s top ls u _ Hs) in Hu; [lia | done].
Qed.

(** No waiter is forgotten: when nobody initialises and nothing can happen, no thread
    waits. *)
Theorem once_no_forgotten_waiter n s :
  once_reachable frame n s ->
  (forall t, on_threads s !! t <> Some (O_initializing false)) ->
  (forall t, once_step frame (On_step t) s = None) -> (forall t u, once_step frame (On_meet t u) s = None) ->
  forall t, on_threads s !! t <> Some B_blocked.
Proof.
  intros (top & ls & Hs)%once_reachable_ok Hni Hst Hmeet t Ht. apply (ok_blocked s top ls Hs) in Ht.
  apply elem_of_app in Ht as [Htop | Hls].
  - pose proof (ok_top s top ls Hs) as Ht. pose proof (ok_charge s top ls Hs) as Hc.
    destruct (_ =? 1); [| rewrite Ht in Htop; by apply elem_of_nil in Htop].
    destruct (total_positive in_charge (on_threads s)) as (u & p & Hu & Hp); [lia |].
    specialize (Hst u). cbn [once_step] in Hst. rewrite Hu in Hst. cbn [mbind option_bind] in Hst.
    destruct p as [| | | [] | | | | | | [] | [] | |]; try done. by apply Hni in Hu.
  - apply list_elem_of_In, in_concat in Hls as (l & Hl & Hin). apply list_elem_of_In, list_elem_of_lookup in Hl as [u Hl].
    apply list_elem_of_In in Hin. destruct (lookup_lt_is_Some_2 (on_threads s) u) as [p Hu].
    { rewrite <- (ok_len s top ls Hs). by apply lookup_lt_Some in Hl. }
    pose proof (ok_walks s top ls Hs u p l Hu Hl) as Hw.
    destruct p; cbn in Hw; try (subst l; by apply elem_of_nil in Hin).
    + specialize (Hst u). cbn [once_step] in Hst. rewrite Hu in Hst. done.
    + destruct Hw as (v & ws & -> & -> & _). specialize (Hmeet u v). cbn [once_step] in Hmeet. unfold once_meet in Hmeet.
      assert (Hv : on_threads s !! v = Some B_blocked).
      { apply (ok_blocked s top ls Hs), elem_of_app. right. eapply in_lists; [exact Hl | by left]. }
      rewrite Hu, Hv, Z.eqb_refl in Hmeet. done.
Qed.
End Invariant.

Lemma once_run_reachable frame n evs s s' :
  once_reachable frame n s -> once_run frame evs s = Some s' -> once_reachable frame n s'.
Proof.
  revert s. induction evs as [| ev evs IH]; intros s Hr; cbn [once_run]; [by intros [= <-] |].
  destruct (once_step frame ev s) as [s1 |] eqn:Es; [| done]. cbn [mbind option_bind].
  apply IH. by eapply once_reach_step.
Qed.

(** ** Witnesses *)

Definition demo_frame (t : nat) : Z := 16 * (Z.of_nat t + 1).

Lemma demo_frame_inj t u : demo_frame t = demo_frame u -> t = u.
Proof. unfold demo_frame. lia. Qed.

Lemma demo_frame_low t : low (demo_frame t) = 0.
Proof. unfold demo_frame, low. replace (16 * (Z.of_nat t + 1)) with ((4 * (Z.of_nat t + 1)) * 4) by lia. apply Z.mod_mul. lia. Qed.

Lemma demo_frame_not_0 t : demo_frame t <> 0.
Proof. unfold demo_frame. lia. Qed.

(** Thread 0 initialises, 1 and 2 wait; 0 completes with a context and releases them. *)
Definition once_demo : list once_event :=
  [On_call 0 (RtlRunOnceBeginInitialize 0); On_step 0; On_step 0;
   On_call 1 (RtlRunOnceBeginInitialize 0); On_step 1; On_step 1;
   On_call 2 (RtlRunOnceBeginInitialize 0); On_step 2; On_step 2;
   On_call 0 (RtlRunOnceComplete 0 8); On_step 0; On_step 0; On_step 0; On_meet 0 2; On_step 0; On_meet 0 1; On_step 0;
   On_step 1; On_step 2].

Definition once_demo_end : once_state := default (once_initial 3) (once_run demo_frame once_demo (once_initial 3)).

Lemma once_demo_reachable : once_reachable demo_frame 3 once_demo_end.
Proof. apply (once_run_reachable demo_frame 3 once_demo (once_initial 3)); [constructor | vm_compute; reflexivity]. Qed.

Lemma once_demo_threads : on_threads once_demo_end = [O_status 0; O_done 8; O_done 8].
Proof. vm_compute. reflexivity. Qed.

Lemma once_single_initializer_witness : on_fault once_demo_end = false /\ on_ptr once_demo_end = 8 + 2.
Proof.
  destruct (once_single_initializer demo_frame demo_frame_inj demo_frame_low demo_frame_not_0 3 once_demo_end once_demo_reachable)
    as (H1 & _ & H3).
  split; [exact H1 |]. destruct (H3 1%nat 8) as [E _]; [rewrite once_demo_threads; reflexivity | exact E].
Defined.

Lemma once_no_forgotten_waiter_witness : on_threads once_demo_end !! 1%nat <> Some B_blocked.
Proof.
  apply (once_no_forgotten_waiter demo_frame demo_frame_inj demo_frame_low demo_frame_not_0 3 once_demo_end once_demo_reachable).
  - intros t. rewrite once_demo_threads. intros Ht. destruct t as [| [| [| t]]]; discriminate Ht.
  - intros t. cbn [once_step]. rewrite once_demo_threads. destruct t as [| [| [| t]]]; reflexivity.
  - intros t u. cbn [once_step]. unfold once_meet. rewrite once_demo_threads. destruct t as [| [| [| t]]]; reflexivity.
Defined.
