(* ===== verification/Timer.v ===== *)
(** * Timeouts and waitable timers of the wineserver

    Models the timeouts of [src/server/fd.c] ([add_timeout_user], [remove_timeout_user],
    [get_next_timeout]) with the conversions of [src/server/file.h], and the timers of
    [src/server/timer.c], which are their main client.

    A [timeout_user] is known by its address [tu_id] and is linked in one of two sorted
    lists, or in the list of expired ones while [get_next_timeout] runs.  Removing one that
    is in no list, freed before, is a fault, as is a failed assertion.  The callback of a
    timeout is that of a timer, or another one, [Cb_other]; what another callback does is
    given by [others]: a sequence of requests on timers and timeouts for each call.
    Whether memory is granted and whether an APC can be queued are answered by
    [alloc_ok] and [apc_ok], in the order of the questions.

    A time is a signed 64-bit count of 100 ns; absolute times are positive, times relative
    to the monotonic clock are stored negated.  [tm_sync] is the state of the sync object
    of a timer as the server last set it; a wait may reset it ([R_consume]).  [ts_trace]
    records which timeouts were called, which removed, and which APCs were queued and
    cancelled. *)

From stdpp Require Import base list gmap.
From Stdlib Require Import ZArith Lia.
From S2P Require Import Prelude.

Open Scope Z_scope.

Definition TICKS_PER_SEC : Z := 10000000.
Definition TIMEOUT_INFINITE : Z := 0x7fffffffffffffff.
Definition INT_MAX : Z := 0x7fffffff.
Definition user_shared_data_timeout : Z := 16 * 10000.

Inductive timeout_callback := Cb_timer (timer : Z) | Cb_other (k : Z).

#[export] Instance timeout_callback_eq_dec : EqDecision timeout_callback.
Proof. solve_decision. Defined.

Record timeout_user := mkUser { tu_id : Z; tu_when : Z; tu_callback : timeout_callback }.

Record timer := mkTimer {
  tm_manual : bool;
  tm_sync : bool;
  tm_signaled : bool;
  tm_period : Z;
  tm_when : Z;
  tm_timeout : option Z;
  tm_thread : option Z;
  tm_callback : Z;
  tm_arg : Z
}.

Inductive t_event := Fired (id : Z) | Removed (id : Z) | Apc (timer thread callback arg when : Z) | Apc_cancel (timer thread : Z).

Record tstate := mkTState {
  abs_timeout_list : list timeout_user;
  rel_timeout_list : list timeout_user;
  expired_list : list timeout_user;
  current_time : Z;
  monotonic_time : Z;
  timers : gmap Z timer;
  ts_next : Z;
  ts_allocs : nat;
  ts_apcs : nat;
  ts_calls : nat;
  ts_fault : bool;
  ts_trace : list t_event
}.

Definition set_lists (a r e : list timeout_user) (s : tstate) : tstate :=
  mkTState a r e (current_time s) (monotonic_time s) (timers s) (ts_next s) (ts_allocs s) (ts_apcs s) (ts_calls s)
    (ts_fault s) (ts_trace s).
Definition set_timers (ts : gmap Z timer) (s : tstate) : tstate :=
  mkTState (abs_timeout_list s) (rel_timeout_list s) (expired_list s) (current_time s) (monotonic_time s) ts (ts_next s)
    (ts_allocs s) (ts_apcs s) (ts_calls s) (ts_fault s) (ts_trace s).
Definition t_set_fault (s : tstate) : tstate :=
  mkTState (abs_timeout_list s) (rel_timeout_list s) (expired_list s) (current_time s) (monotonic_time s) (timers s)
    (ts_next s) (ts_allocs s) (ts_apcs s) (ts_calls s) true (ts_trace s).
Definition t_log (e : t_event) (s : tstate) : tstate :=
  mkTState (abs_timeout_list s) (rel_timeout_list s) (expired_list s) (current_time s) (monotonic_time s) (timers s)
    (ts_next s) (ts_allocs s) (ts_apcs s) (ts_calls s) (ts_fault s) (ts_trace s ++ [e]).
Definition set_clocks (now mono : Z) (s : tstate) : tstate :=
  mkTState (abs_timeout_list s) (rel_timeout_list s) (expired_list s) now mono (timers s)
    (ts_next s) (ts_allocs s) (ts_apcs s) (ts_calls s) (ts_fault s) (ts_trace s).
(** An answer of the allocator or of [thread_queue_apc] was used, a callback begun. *)
Definition count_alloc (s : tstate) : tstate :=
  mkTState (abs_timeout_list s) (rel_timeout_list s) (expired_list s) (current_time s) (monotonic_time s) (timers s)
    (ts_next s) (S (ts_allocs s)) (ts_apcs s) (ts_calls s) (ts_fault s) (ts_trace s).
Definition count_apc (s : tstate) : tstate :=
  mkTState (abs_timeout_list s) (rel_timeout_list s) (expired_list s) (current_time s) (monotonic_time s) (timers s)
    (ts_next s) (ts_allocs s) (S (ts_apcs s)) (ts_calls s) (ts_fault s) (ts_trace s).
Definition count_call (s : tstate) : tstate :=
  mkTState (abs_timeout_list s) (rel_timeout_list s) (expired_list s) (current_time s) (monotonic_time s) (timers s)
    (ts_next s) (ts_allocs s) (ts_apcs s) (S (ts_calls s)) (ts_fault s) (ts_trace s).
(** The address of the next object. *)
Definition bump_next (s : tstate) : tstate :=
  mkTState (abs_timeout_list s) (rel_timeout_list s) (expired_list s) (current_time s) (monotonic_time s) (timers s)
    (ts_next s + 1) (ts_allocs s) (ts_apcs s) (ts_calls s) (ts_fault s) (ts_trace s).

Definition with_timer (t : Z) (f : timer -> timer) (s : tstate) : tstate := set_timers (alter f t (timers s)) s.

Definition tm_set_timeout (v : option Z) (x : timer) : timer :=
  mkTimer (tm_manual x) (tm_sync x) (tm_signaled x) (tm_period x) (tm_when x) v (tm_thread x) (tm_callback x) (tm_arg x).
Definition tm_set_thread (v : option Z) (x : timer) : timer :=
  mkTimer (tm_manual x) (tm_sync x) (tm_signaled x) (tm_period x) (tm_when x) (tm_timeout x) v (tm_callback x) (tm_arg x).
Definition tm_set_when (v : Z) (x : timer) : timer :=
  mkTimer (tm_manual x) (tm_sync x) (tm_signaled x) (tm_period x) v (tm_timeout x) (tm_thread x) (tm_callback x) (tm_arg x).
Definition tm_set_signal (sync signaled : bool) (x : timer) : timer :=
  mkTimer (tm_manual x) sync signaled (tm_period x) (tm_when x) (tm_timeout x) (tm_thread x) (tm_callback x) (tm_arg x).
Definition tm_set_call (period when callback arg : Z) (x : timer) : timer :=
  mkTimer (tm_manual x) (tm_sync x) (tm_signaled x) period when (tm_timeout x) (tm_thread x) callback arg.

(** ** Timeouts *)

Definition timeout_to_abstime (mono timeout : Z) : Z := if 0 <? timeout then timeout else i64 (timeout - mono).

Definition abstime_to_timeout (mono abstime : Z) : Z :=
  if 0 <? abstime then abstime
  else if i64 (- abstime) <? mono then 0 else i64 (abstime + mono).

(** [LIST_FOR_EACH ... break; list_add_before]: before the first entry that [stop]s. *)
Fixpoint add_before (stop : timeout_user -> bool) (u : timeout_user) (l : list timeout_user) : list timeout_user :=
  match l with
  | [] => [u]
  | x :: l' => if stop x then u :: l else x :: add_before stop u l'
  end.

Definition is_user (id : Z) (u : timeout_user) : bool := tu_id u =? id.

Definition drop_user (id : Z) (l : list timeout_user) : list timeout_user := filter (fun u => tu_id u <> id) l.

Definition queued (s : tstate) : list timeout_user := abs_timeout_list s ++ rel_timeout_list s ++ expired_list s.

Definition remove_timeout_user (id : Z) (s : tstate) : tstate :=
  if existsb (is_user id) (queued s) then
    t_log (Removed id)
      (set_lists (drop_user id (abs_timeout_list s)) (drop_user id (rel_timeout_list s)) (drop_user id (expired_list s)) s)
  else t_set_fault s.

(** The part of a sorted list that has expired, and the rest. *)
Fixpoint split_expired (due : timeout_user -> bool) (l : list timeout_user) : list timeout_user * list timeout_user :=
  match l with
  | [] => ([], [])
  | x :: l' => if due x then let r := split_expired due l' in (x :: r.1, r.2) else ([], l)
  end.

Definition abs_due (now : Z) (u : timeout_user) : bool := tu_when u <=? now.
Definition rel_due (mono : Z) (u : timeout_user) : bool := i64 (- tu_when u) <=? mono.

Section Server.
Context (alloc_ok apc_ok : nat -> bool) (user_shared_data : bool).

(** [add_timeout_user]: the address of the new entry, if memory was granted. *)
Definition add_timeout_user (when : Z) (cb : timeout_callback) (s : tstate) : option Z * tstate :=
  if negb (alloc_ok (ts_allocs s)) then (None, count_alloc s)
  else
    let id := ts_next s in
    let u := mkUser id (timeout_to_abstime (monotonic_time s) when) cb in
    let s1 := bump_next (count_alloc s) in
    (Some id,
     if 0 <? tu_when u
     then set_lists (add_before (fun x => tu_when u <=? tu_when x) u (abs_timeout_list s)) (rel_timeout_list s) (expired_list s) s1
     else set_lists (abs_timeout_list s) (add_before (fun x => tu_when x <=? tu_when u) u (rel_timeout_list s)) (expired_list s) s1).

(** ** Timers *)

(** The first part of [timer_callback]: an APC for the thread that set the timer. *)
Definition callback_apc (t : Z) (x : timer) (s : tstate) : tstate :=
  match tm_thread x with
  | None => s
  | Some th =>
      if tm_callback x =? 0 then t_set_fault s
      else if apc_ok (ts_apcs s) then t_log (Apc t th (tm_callback x) (tm_arg x) (tm_when x)) (count_apc s)
      else with_timer t (tm_set_thread None) (count_apc s)
  end.

(** The expiration after this one: counted from this one, or from now for an absolute
    time. *)
Definition next_expiration (mono : Z) (x : timer) : Z :=
  i64 ((if 0 <? tm_when x then i64 (- mono) else tm_when x) - tm_period x * 10000).

Definition timer_callback (t : Z) (s : tstate) : tstate :=
  match timers s !! t with
  | None => t_set_fault s
  | Some x =>
      let s := callback_apc t x s in
      let s :=
        if negb (tm_period x =? 0) then
          let when := next_expiration (monotonic_time s) x in
          let s := with_timer t (tm_set_when when) s in
          let r := add_timeout_user (abstime_to_timeout (monotonic_time s) when) (Cb_timer t) s in
          with_timer t (tm_set_timeout r.1) r.2
        else with_timer t (tm_set_timeout None) s in
      with_timer t (tm_set_signal true true) s
  end.

Definition cancel_timer (t : Z) (s : tstate) : bool * tstate :=
  match timers s !! t with
  | None => (false, t_set_fault s)
  | Some x =>
      let s := match tm_timeout x with
               | Some id => with_timer t (tm_set_timeout None) (remove_timeout_user id s)
               | None => s
               end in
      (tm_signaled x,
       match tm_thread x with
       | Some th => with_timer t (tm_set_thread None) (t_log (Apc_cancel t th) s)
       | None => s
       end)
  end.

Definition set_timer (t expire period callback arg current : Z) (s : tstate) : bool * tstate :=
  let r := cancel_timer t s in
  match timers r.2 !! t with
  | None => (r.1, t_set_fault r.2)
  | Some x =>
      let period := if tm_manual x then 0 else period in
      let s := if tm_manual x then with_timer t (tm_set_signal false false) r.2 else r.2 in
      let when := if expire <=? 0 then i64 (expire - monotonic_time s) else Z.max expire (current_time s) in
      let s := with_timer t (tm_set_call period when callback arg) s in
      let s := if negb (callback =? 0) then with_timer t (tm_set_thread (Some current)) s else s in
      (r.1,
       if negb (expire =? TIMEOUT_INFINITE)
       then let a := add_timeout_user expire (Cb_timer t) s in with_timer t (tm_set_timeout a.1) a.2
       else s)
  end.

(** [timer_init]: the new timer has an address of its own. *)
Definition create_timer (manual : bool) (s : tstate) : tstate :=
  set_timers (<[ts_next s := mkTimer manual false false 0 0 None None 0 0]> (timers s)) (bump_next s).

Definition timer_destroy (t : Z) (s : tstate) : tstate :=
  match timers s !! t with
  | None => t_set_fault s
  | Some x =>
      let s := match tm_timeout x with Some id => remove_timeout_user id s | None => s end in
      set_timers (delete t (timers s)) s
  end.

Definition get_timer_info (t : Z) (s : tstate) : option (Z * bool) :=
  x ← timers s !! t; Some (tm_when x, tm_signaled x).

(** ** Requests

    What clients and other parts of the server do.  A request for a timer that does not
    exist is refused when its handle is resolved. *)
Inductive request :=
  | R_create (manual : bool)
  | R_set (t expire period callback arg current : Z)
  | R_cancel (t : Z)
  | R_destroy (t : Z)
  | R_consume (t : Z)
  | R_add (when k : Z)
  | R_remove (id : Z).

(** Other parts remove only timeouts of their own. *)
Definition other_user (s : tstate) (id : Z) : bool :=
  existsb (fun u => is_user id u && match tu_callback u with Cb_other _ => true | _ => false end) (queued s).

Definition has_timer (s : tstate) (t : Z) : bool := match timers s !! t with Some _ => true | None => false end.

Definition run_request (r : request) (s : tstate) : tstate :=
  match r with
  | R_create manual => create_timer manual s
  | R_set t expire period callback arg current =>
      if has_timer s t then (set_timer t expire period callback arg current s).2 else s
  | R_cancel t => if has_timer s t then (cancel_timer t s).2 else s
  | R_destroy t => if has_timer s t then timer_destroy t s else s
  | R_consume t => with_timer t (fun x => if tm_manual x then x else tm_set_signal false (tm_signaled x) x) s
  | R_add when k => (add_timeout_user when (Cb_other k) s).2
  | R_remove id => if other_user s id then remove_timeout_user id s else s
  end.

Fixpoint run_requests (rs : list request) (s : tstate) : tstate :=
  match rs with [] => s | r :: rs' => run_requests rs' (run_request r s) end.

(** ** The main loop *)

Context (others : Z -> nat -> list request).

Definition call_back (u : timeout_user) (s : tstate) : tstate :=
  match tu_callback u with
  | Cb_timer t => timer_callback t s
  | Cb_other k => run_requests (others k (ts_calls s)) (count_call s)
  end.

(** The loop over the expired timeouts; callbacks only shorten the list. *)
Fixpoint call_expired (fuel : nat) (s : tstate) : tstate :=
  match fuel, expired_list s with
  | S fuel', u :: rest =>
      call_expired fuel'
        (call_back u (t_log (Fired (tu_id u)) (set_lists (abs_timeout_list s) (rel_timeout_list s) rest s)))
  | _, _ => s
  end.

Definition take_expired (s : tstate) : tstate :=
  let a := split_expired (abs_due (current_time s)) (abs_timeout_list s) in
  let r := split_expired (rel_due (monotonic_time s)) (rel_timeout_list s) in
  set_lists a.2 r.2 (a.1 ++ r.1) s.

(** [ret] with the time until a timeout is due taken into account. *)
Definition nearer (ret diff : Z) : Z :=
  let diff := if diff <? 0 then 0 else diff in
  if (ret =? -1) || (diff <? ret) then diff else ret.

Definition next_due (s : tstate) (ret : Z) : Z :=
  let ret := match abs_timeout_list s with u :: _ => nearer ret (i64 (tu_when u - current_time s)) | [] => ret end in
  match rel_timeout_list s with u :: _ => nearer ret (i64 (i64 (- tu_when u) - monotonic_time s)) | [] => ret end.

(** [get_next_timeout]: milliseconds, and ticks for the [timespec]. *)
Definition to_milliseconds (ret : Z) : Z :=
  if ret =? -1 then -1
  else let ms := i64 (ret + 9999) ÷ 10000 in if INT_MAX <? ms then INT_MAX else ms.

Definition get_next_timeout (s : tstate) : Z * Z * tstate :=
  let ret := if user_shared_data then user_shared_data_timeout else -1 in
  match abs_timeout_list s, rel_timeout_list s with
  | [], [] => (to_milliseconds ret, ret, s)
  | _, _ =>
      let s := take_expired s in
      let s := call_expired (length (expired_list s)) s in
      let ret := next_due s ret in
      (to_milliseconds ret, ret, s)
  end.

(** A round of [main_loop]: clocks are read, timeouts run, then a request. *)
Inductive t_step := T_request (r : request) | T_loop (now mono : Z).

Definition run_step (st : t_step) (s : tstate) : tstate :=
  match st with
  | T_request r => run_request r s
  | T_loop now mono => (get_next_timeout (set_clocks now mono s)).2
  end.

Definition t_initial : tstate := mkTState [] [] [] 1 1 ∅ 1 0 0 0 false [].

Fixpoint run_steps (sts : list t_step) (s : tstate) : tstate :=
  match sts with [] => s | st :: sts' => run_steps sts' (run_step st s) end.
End Server.
