(* ===== verification/TimerProofs.v ===== *)
(** * The invariant of timeouts and timers

    The lists are sorted, and the pointer of a timer to its timeout and the pointer back
    agree at all times. *)

From stdpp Require Import base list gmap sorting.
From Stdlib Require Import ZArith Lia ZifyBool.
From S2P Require Import Prelude Timer.

Open Scope Z_scope.

(** ** Lists *)

Lemma add_before_perm stop u l : add_before stop u l ≡ₚ u :: l.
Proof. induction l as [| x l IH]; cbn; [done |]. destruct (stop x); [done |]. rewrite IH. constructor. Qed.

Lemma add_before_sorted (R : timeout_user -> timeout_user -> Prop) stop u l :
  Transitive R -> (forall x, stop x = true -> R u x) -> (forall x, stop x = false -> R x u) ->
  StronglySorted R l -> StronglySorted R (add_before stop u l).
Proof.
  intros Ht Hs Hn. induction 1 as [| x l Hl IH Hx]; cbn; [by repeat constructor |].
  destruct (stop x) eqn:E.
  - constructor; [by constructor |]. constructor; [auto |]. eapply Forall_impl; [exact Hx |]. intros y Hy.
    etrans; [by apply Hs | exact Hy].
  - constructor; [done |]. rewrite add_before_perm. constructor; [auto | done].
Qed.

Lemma sorted_drop (R : timeout_user -> timeout_user -> Prop) id l : StronglySorted R l -> StronglySorted R (drop_user id l).
Proof.
  unfold drop_user. induction 1 as [| x l Hl IH Hx]; cbn; [constructor |]. destruct (decide _); [| done].
  constructor; [done |]. apply Forall_forall. intros y [_ Hy]%list_elem_of_filter. rewrite Forall_forall in Hx. auto.
Qed.

Lemma split_expired_app due l : (split_expired due l).1 ++ (split_expired due l).2 = l.
Proof. induction l as [| x l IH]; cbn; [done |]. destruct (due x); cbn; [by rewrite IH | done]. Qed.

Lemma sorted_app_r {A} (R : A -> A -> Prop) l1 l2 : StronglySorted R (l1 ++ l2) -> StronglySorted R l2.
Proof. by intros (_ & _ & ?)%StronglySorted_app. Qed.

Lemma drop_user_elem id u l : u ∈ drop_user id l <-> u ∈ l /\ tu_id u <> id.
Proof. unfold drop_user. rewrite list_elem_of_filter. tauto. Qed.

Lemma drop_user_app id l1 l2 : drop_user id (l1 ++ l2) = drop_user id l1 ++ drop_user id l2.
Proof. apply filter_app. Qed.

Lemma is_user_exists id l : existsb (is_user id) l = true <-> exists u, u ∈ l /\ tu_id u = id.
Proof.
  rewrite existsb_exists. unfold is_user. split.
  - intros (u & Hu & E). exists u. split; [by apply list_elem_of_In | lia].
  - intros (u & Hu & E). exists u. split; [by apply list_elem_of_In | lia].
Qed.

Lemma user_unique l u v : NoDup (map tu_id l) -> u ∈ l -> v ∈ l -> tu_id u = tu_id v -> u = v.
Proof.
  intros Hn Hu Hv E. apply list_elem_of_lookup in Hu as [i Hi]. apply list_elem_of_lookup in Hv as [j Hj].
  assert (i = j) as ->; [| congruence]. eapply (NoDup_lookup _ i j (tu_id v) Hn); rewrite list_lookup_fmap, ?Hi, ?Hj; cbn; congruence.
Qed.

(** ** The invariant *)

Definition abs_le (u v : timeout_user) : Prop := tu_when u <= tu_when v.
Definition rel_le (u v : timeout_user) : Prop := tu_when v <= tu_when u.

#[export] Instance abs_le_trans : Transitive abs_le.
Proof. unfold abs_le. intros x y z. lia. Qed.
#[export] Instance rel_le_trans : Transitive rel_le.
Proof. unfold rel_le. intros x y z. lia. Qed.

(** [hole] is the timer whose callback runs: its timeout has been taken from the lists
    and its pointer is not yet set again. *)
Record t_ok (hole : option Z) (s : tstate) : Prop := mkTOk {
  to_fault : ts_fault s = false;
  to_nodup : NoDup (map tu_id (queued s));
  to_fresh : forall u, u ∈ queued s -> tu_id u < ts_next s;
  to_fresh_timer : forall t x, timers s !! t = Some x -> t < ts_next s;
  to_timer : forall t x id, timers s !! t = Some x -> hole <> Some t -> tm_timeout x = Some id ->
    exists u, u ∈ queued s /\ tu_id u = id /\ tu_callback u = Cb_timer t;
  to_user : forall u t, u ∈ queued s -> tu_callback u = Cb_timer t ->
    hole <> Some t /\ exists x, timers s !! t = Some x /\ tm_timeout x = Some (tu_id u);
  to_thread : forall t x, timers s !! t = Some x -> tm_thread x <> None -> tm_callback x <> 0;
  to_abs : StronglySorted abs_le (abs_timeout_list s) /\ Forall (fun u => 0 < tu_when u) (abs_timeout_list s);
  to_rel : StronglySorted rel_le (rel_timeout_list s) /\ Forall (fun u => tu_when u <= 0) (rel_timeout_list s)
}.

(** The parts of the state the invariant does not read. *)
Lemma t_ok_same hole s s' :
  t_ok hole s -> ts_fault s' = false -> abs_timeout_list s' = abs_timeout_list s -> rel_timeout_list s' = rel_timeout_list s ->
  expired_list s' = expired_list s -> timers s' = timers s -> ts_next s <= ts_next s' -> t_ok hole s'.
Proof.
  intros Hs Hf Ea Er Ee Et En. assert (Eq : queued s' = queued s) by (unfold queued; congruence).
  split; rewrite ?Eq, ?Et, ?Ea, ?Er; try apply Hs; try done.
  - intros u Hu. pose proof (to_fresh _ _ Hs u Hu). lia.
  - intros t x Hx. pose proof (to_fresh_timer _ _ Hs t x Hx). lia.
Qed.

(** Changing a timer, not its pointer. *)
Lemma t_ok_timer hole s t f :
  t_ok hole s -> (forall x, tm_timeout (f x) = tm_timeout x) ->
  (forall x, timers s !! t = Some x -> tm_thread (f x) <> None -> tm_callback (f x) <> 0) ->
  t_ok hole (with_timer t f s).
Proof.
  intros Hs Hf Hth.
  assert (Hl : forall u y, alter f t (timers s) !! u = Some y ->
    exists x, timers s !! u = Some x /\ tm_timeout y = tm_timeout x /\ (y = x \/ (u = t /\ y = f x))).
  { intros u y. destruct (decide (u = t)) as [-> | Ne].
    - rewrite lookup_alter_eq. intros (x & Hx & ->)%fmap_Some. exists x. rewrite Hf. auto.
    - rewrite lookup_alter_ne by done. intros Hx. exists y. auto. }
  split; cbn [with_timer set_timers ts_fault abs_timeout_list rel_timeout_list expired_list timers ts_next];
    try apply Hs; change (queued (set_timers _ s)) with (queued s).
  - intros u y Hy. destruct (Hl u y Hy) as (x & Hx & _). by apply (to_fresh_timer _ _ Hs u x).
  - intros u y id Hy Hh Ht. destruct (Hl u y Hy) as (x & Hx & Et & _). rewrite Et in Ht. by apply (to_timer _ _ Hs u x).
  - intros w u Hw Hc. destruct (to_user _ _ Hs w u Hw Hc) as (Hh & x & Hx & Ht). split; [done |].
    destruct (decide (u = t)) as [-> | Ne].
    + exists (f x). rewrite lookup_alter_eq, Hx. split; [done | by rewrite Hf].
    + exists x. by rewrite lookup_alter_ne.
  - intros u y Hy. destruct (Hl u y Hy) as (x & Hx & _ & [-> | [-> ->]]); [by apply (to_thread _ _ Hs u) | by apply Hth].
Qed.

(** Setting the pointer of the timer in question: nothing is queued for it. *)
Lemma t_ok_clear hole t s :
  t_ok hole s -> (hole = None \/ hole = Some t) -> (forall u, u ∈ queued s -> tu_callback u <> Cb_timer t) ->
  t_ok None (with_timer t (tm_set_timeout None) s).
Proof.
  intros Hs Hh Hno.
  assert (Hl : forall u y, alter (tm_set_timeout None) t (timers s) !! u = Some y ->
    exists x, timers s !! u = Some x /\ (u = t -> tm_timeout y = None) /\ (u <> t -> y = x) /\
      tm_thread y = tm_thread x /\ tm_callback y = tm_callback x).
  { intros u y. destruct (decide (u = t)) as [-> | Ne].
    - rewrite lookup_alter_eq. intros (x & Hx & ->)%fmap_Some. exists x. done.
    - rewrite lookup_alter_ne by done. intros Hx. exists y. done. }
  split; cbn [with_timer set_timers ts_fault abs_timeout_list rel_timeout_list expired_list timers ts_next];
    try apply Hs; change (queued (set_timers _ s)) with (queued s).
  - intros u y Hy. destruct (Hl u y Hy) as (x & Hx & _). by apply (to_fresh_timer _ _ Hs u x).
  - intros u y id Hy _ Ht. destruct (Hl u y Hy) as (x & Hx & H1 & H2 & _).
    destruct (decide (u = t)) as [-> | Ne]; [by rewrite H1 in Ht |]. rewrite (H2 Ne) in Ht.
    apply (to_timer _ _ Hs u x id Hx); [destruct Hh; congruence | done].
  - intros w u Hw Hc. split; [done |]. destruct (to_user _ _ Hs w u Hw Hc) as (_ & x & Hx & Ht).
    assert (Ne : u <> t) by (intros ->; by apply (Hno w)). exists x. by rewrite lookup_alter_ne.
  - intros u y Hy. destruct (Hl u y Hy) as (x & Hx & _ & _ & -> & ->). by apply (to_thread _ _ Hs u).
Qed.

(** The timer a timeout leaves without its timeout when it is taken out of the lists. *)
Definition hole_of (cb : timeout_callback) : option Z := match cb with Cb_timer t => Some t | Cb_other _ => None end.

(** Taking an entry out of the lists. *)
Lemma t_ok_shrink s s' u0 :
  t_ok None s -> u0 ∈ queued s -> ts_fault s' = false -> timers s' = timers s -> ts_next s' = ts_next s ->
  NoDup (map tu_id (queued s')) -> (forall u, u ∈ queued s' <-> u ∈ queued s /\ tu_id u <> tu_id u0) ->
  StronglySorted abs_le (abs_timeout_list s') -> (forall u, u ∈ abs_timeout_list s' -> u ∈ abs_timeout_list s) ->
  StronglySorted rel_le (rel_timeout_list s') -> (forall u, u ∈ rel_timeout_list s' -> u ∈ rel_timeout_list s) ->
  t_ok (hole_of (tu_callback u0)) s'.
Proof.
  intros Hs Hu0 Hf Et En Hnd Hq Ha Ha' Hr Hr'.
  assert (Hone : forall u, u ∈ queued s -> tu_id u = tu_id u0 -> u = u0).
  { intros u Hin E. by apply (user_unique (queued s) u u0 (to_nodup _ _ Hs)). }
  split; rewrite ?Et, ?En; try done; try apply Hs.
  - intros u Hin. apply Hs. by apply Hq.
  - intros v x i Hx Hne Hi. destruct (to_timer _ _ Hs v x i Hx ltac:(done) Hi) as (u & Hin & E & Hcb). exists u.
    split_and!; [| done | done]. apply Hq. split; [done |]. intros E'. rewrite (Hone u Hin E') in Hcb. by rewrite Hcb in Hne.
  - intros u v [Hin Hne]%Hq Hcb. destruct (to_user _ _ Hs u v Hin Hcb) as (_ & x & Hx & Ht). split; [| by exists x].
    destruct (tu_callback u0) eqn:Hc; cbn; [| done]. intros [= ->].
    destruct (to_user _ _ Hs u0 v Hu0 Hc) as (_ & x0 & Hx0 & Ht0). congruence.
  - split; [done |]. apply Forall_forall. intros u Hin%Ha'. destruct (to_abs _ _ Hs) as [_ Hall]. rewrite Forall_forall in Hall. auto.
  - split; [done |]. apply Forall_forall. intros u Hin%Hr'. destruct (to_rel _ _ Hs) as [_ Hall]. rewrite Forall_forall in Hall. auto.
Qed.

(** ** Operations *)

Lemma drop_user_sublist id l : drop_user id l `sublist_of` l.
Proof. apply sublist_filter. Qed.

Lemma remove_user_ok s u :
  t_ok None s -> u ∈ queued s -> t_ok (hole_of (tu_callback u)) (remove_timeout_user (tu_id u) s).
Proof.
  intros Hs Hu. unfold remove_timeout_user.
  rewrite (proj2 (is_user_exists (tu_id u) (queued s))) by eauto.
  apply (t_ok_shrink s); try done; try apply Hs; unfold queued; cbn.
  - rewrite <- !drop_user_app. eapply (sublist_NoDup _ (map tu_id (queued s))); [apply Hs |]. apply (fmap_sublist tu_id), drop_user_sublist.
  - intros v. rewrite <- !drop_user_app. apply drop_user_elem.
  - apply sorted_drop, Hs.
  - by intros v [Hv _]%drop_user_elem.
  - apply sorted_drop, Hs.
  - by intros v [Hv _]%drop_user_elem.
Qed.

(** Calling the first expired timeout takes it out of the list. *)
Lemma pop_expired_ok s u rest :
  t_ok None s -> expired_list s = u :: rest ->
  t_ok (hole_of (tu_callback u)) (t_log (Fired (tu_id u)) (set_lists (abs_timeout_list s) (rel_timeout_list s) rest s)).
Proof.
  intros Hs E. pose proof (to_nodup _ _ Hs) as Hn.
  assert (Hp : queued s ≡ₚ u :: abs_timeout_list s ++ rel_timeout_list s ++ rest) by (unfold queued; rewrite E; solve_Permutation).
  rewrite Hp in Hn. cbn in Hn. apply NoDup_cons in Hn as [Hnin Hn].
  apply (t_ok_shrink s); try done; try apply Hs.
  - rewrite Hp. constructor.
  - intros v. rewrite Hp. unfold queued; cbn. rewrite elem_of_cons. split; [| by intros [[-> | ?] ?]].
    intros Hv. split; [by right |]. intros Ei. apply Hnin. rewrite <- Ei. by apply list_elem_of_fmap_2.
Qed.

Lemma t_ok_open s t x : t_ok None s -> timers s !! t = Some x -> tm_timeout x = None -> t_ok (Some t) s.
Proof.
  intros Hs Hx Ht. split; try apply Hs.
  - intros v y id Hy _ Hid. by apply (to_timer _ _ Hs v y id).
  - intros u v Hu Hc. destruct (to_user _ _ Hs u v Hu Hc) as (_ & y & Hy & Hid). split; [| by exists y].
    intros [= ->]. congruence.
Qed.

Lemma t_ok_set_none s t : t_ok (Some t) s -> t_ok None (with_timer t (tm_set_timeout None) s).
Proof. intros Hs. apply (t_ok_clear (Some t)); [done | by right |]. intros u Hu Hc. by destruct (to_user _ _ Hs u t Hu Hc) as [? _]. Qed.

Section Ops.
Context (alloc_ok apc_ok : nat -> bool).

(** What a successful [add_timeout_user] does. *)
Definition added (s : tstate) (u : timeout_user) (s' : tstate) : Prop :=
  tu_id u = ts_next s /\ ts_next s' = ts_next s + 1 /\ timers s' = timers s /\ ts_fault s' = ts_fault s /\
  ts_trace s' = ts_trace s /\ expired_list s' = expired_list s /\ queued s' ≡ₚ u :: queued s /\
  (0 < tu_when u /\ abs_timeout_list s' = add_before (fun x => tu_when u <=? tu_when x) u (abs_timeout_list s) /\
     rel_timeout_list s' = rel_timeout_list s \/
   tu_when u <= 0 /\ abs_timeout_list s' = abs_timeout_list s /\
     rel_timeout_list s' = add_before (fun x => tu_when x <=? tu_when u) u (rel_timeout_list s)).

Lemma add_cases when cb s :
  let r := add_timeout_user alloc_ok when cb s in
  r = (None, count_alloc s) \/
  exists u s', r = (Some (tu_id u), s') /\ tu_when u = timeout_to_abstime (monotonic_time s) when /\ tu_callback u = cb /\ added s u s'.
Proof.
  cbn zeta. unfold add_timeout_user. destruct (negb _); [by left | right]. cbn [tu_when].
  set (w := timeout_to_abstime _ _). destruct (0 <? w) eqn:E.
  - eexists (mkUser (ts_next s) w cb), _. split; [done |]. split_and!; try done. unfold added, queued; cbn.
    split_and!; try done; [by rewrite add_before_perm | left; split_and!; [lia | done | done]].
  - eexists (mkUser (ts_next s) w cb), _. split; [done |]. split_and!; try done. unfold added, queued; cbn.
    split_and!; try done; [rewrite add_before_perm; solve_Permutation | right; split_and!; [lia | done | done]].
Qed.

Lemma added_sorted s u s' hole :
  t_ok hole s -> added s u s' ->
  (StronglySorted abs_le (abs_timeout_list s') /\ Forall (fun u => 0 < tu_when u) (abs_timeout_list s')) /\
  (StronglySorted rel_le (rel_timeout_list s') /\ Forall (fun u => tu_when u <= 0) (rel_timeout_list s')).
Proof.
  intros Hs (_ & _ & _ & _ & _ & _ & _ & H). destruct (to_abs _ _ Hs) as [Ha1 Ha2]. destruct (to_rel _ _ Hs) as [Hr1 Hr2].
  destruct H as [(Hw & -> & ->) | (Hw & -> & ->)]; (split; [| ]); split; try done.
  - apply add_before_sorted; try done; try apply _; unfold abs_le; lia.
  - rewrite add_before_perm. by constructor.
  - apply add_before_sorted; try done; try apply _; unfold rel_le; lia.
  - rewrite add_before_perm. by constructor.
Qed.

Lemma added_nodup s u s' hole :
  t_ok hole s -> added s u s' -> NoDup (map tu_id (queued s')) /\ forall v, v ∈ queued s' -> tu_id v < ts_next s'.
Proof.
  intros Hs (Ei & En & _ & _ & _ & _ & Hp & _). rewrite Hp, En. cbn. split.
  - constructor; [| apply Hs]. intros Hin. apply list_elem_of_fmap in Hin as (v & E & Hv).
    pose proof (to_fresh _ _ Hs v Hv). lia.
  - intros v. rewrite Hp. intros [-> | Hv]%elem_of_cons; [lia |]. pose proof (to_fresh _ _ Hs v Hv). lia.
Qed.

Lemma add_other_ok hole when k s : t_ok hole s -> t_ok hole (add_timeout_user alloc_ok when (Cb_other k) s).2.
Proof.
  intros Hs. destruct (add_cases when (Cb_other k) s) as [-> | (u & s' & -> & _ & Hc & Ha)]; cbn [snd].
  - apply (t_ok_same hole s); try done; apply Hs.
  - pose proof (added_sorted _ _ _ _ Hs Ha) as [Ha1 Ha2]. pose proof (added_nodup _ _ _ _ Hs Ha) as [Hn Hf].
    destruct Ha as (Ei & En & Et & Ef & _ & _ & Hp & _). split; try done; rewrite ?Et, ?Ef; try apply Hs.
    + intros t x Hx. pose proof (to_fresh_timer _ _ Hs t x Hx). lia.
    + intros t x id Hx Hh Hid. destruct (to_timer _ _ Hs t x id Hx Hh Hid) as (v & Hv & ?). exists v. rewrite Hp, elem_of_cons. auto.
    + intros v t. rewrite Hp, elem_of_cons. intros [-> | Hv] Hcb; [congruence |]. by apply (to_user _ _ Hs v t).
Qed.

Lemma add_timer_ok when t s x :
  t_ok (Some t) s -> timers s !! t = Some x ->
  let r := add_timeout_user alloc_ok when (Cb_timer t) s in t_ok None (with_timer t (tm_set_timeout r.1) r.2).
Proof.
  intros Hs Hx. cbn zeta. destruct (add_cases when (Cb_timer t) s) as [-> | (u & s' & -> & _ & Hc & Ha)]; cbn [fst snd].
  - apply t_ok_set_none. apply (t_ok_same (Some t) s); try done; apply Hs.
  - pose proof (added_sorted _ _ _ _ Hs Ha) as [Ha1 Ha2]. pose proof (added_nodup _ _ _ _ Hs Ha) as [Hn Hf].
    destruct Ha as (Ei & En & Et & Ef & _ & _ & Hp & _).
    assert (Hl : forall v y, timers (with_timer t (tm_set_timeout (Some (tu_id u))) s') !! v = Some y ->
      v = t /\ y = tm_set_timeout (Some (tu_id u)) x \/ v <> t /\ timers s !! v = Some y).
    { intros v y. cbn. rewrite Et. destruct (decide (v = t)) as [-> | Ne]; [| rewrite lookup_alter_ne by done; auto].
      rewrite lookup_alter_eq, Hx. intros [= <-]. auto. }
    split; try done.
    + cbn. rewrite Ef. apply Hs.
    + intros v y [[-> _] | [_ Hy]]%Hl; cbn; rewrite En; [pose proof (to_fresh_timer _ _ Hs t x Hx) | pose proof (to_fresh_timer _ _ Hs v y Hy)]; lia.
    + change (queued (with_timer _ _ s')) with (queued s'). intros v y id [[-> ->] | [Ne Hy]]%Hl _ Hid.
      * exists u. rewrite Hp. cbn in Hid. split_and!; [constructor | congruence | done].
      * destruct (to_timer _ _ Hs v y id Hy ltac:(congruence) Hid) as (w & Hw & ?). exists w. rewrite Hp, elem_of_cons. auto.
    + change (queued (with_timer _ _ s')) with (queued s'). cbn. rewrite Et. intros w v. rewrite Hp, elem_of_cons.
      intros [-> | Hw] Hcb; split; try done.
      * assert (v = t) as -> by congruence. rewrite lookup_alter_eq, Hx. eauto.
      * destruct (to_user _ _ Hs w v Hw Hcb) as (Hne & y & Hy & Hid). exists y. by rewrite lookup_alter_ne by congruence.
    + intros v y [[-> ->] | [_ Hy]]%Hl; [apply (to_thread _ _ Hs t x Hx) | by apply (to_thread _ _ Hs v)].
Qed.

End Ops.
