(* ===== verification/TimerSteps.v ===== *)
(** * Requests and callbacks keep the invariant of timers

    Every operation of [Timer] keeps [t_ok], and changes the lists and the record of calls
    only in the ways [evolves] allows: entries come and go, each leaves once. *)

From stdpp Require Import base list gmap sorting.
From Stdlib Require Import ZArith Lia ZifyBool.
From S2P Require Import Prelude Timer TimerProofs.

Open Scope Z_scope.

(** ** Timers *)

Lemma t_ok_log hole e s : t_ok hole s -> t_ok hole (t_log e s).
Proof. intros Hs. apply (t_ok_same hole s); try done; apply Hs. Qed.

Lemma t_ok_count_apc hole s : t_ok hole s -> t_ok hole (count_apc s).
Proof. intros Hs. apply (t_ok_same hole s); try done; apply Hs. Qed.

Lemma t_ok_drop_thread hole t s : t_ok hole s -> t_ok hole (with_timer t (tm_set_thread None) s).
Proof. intros Hs. by apply t_ok_timer. Qed.

Lemma with_timer_lookup t f s : timers (with_timer t f s) !! t = f <$> timers s !! t.
Proof. cbn. by rewrite lookup_alter_eq. Qed.

Lemma with_timer_other t f s v : v <> t -> timers (with_timer t f s) !! v = timers s !! v.
Proof. intros. cbn. by rewrite lookup_alter_ne. Qed.

Lemma cancel_timer_ok t s x :
  t_ok None s -> timers s !! t = Some x ->
  (cancel_timer t s).1 = tm_signaled x /\ t_ok None (cancel_timer t s).2 /\
  timers (cancel_timer t s).2 = alter (fun x => tm_set_thread None (tm_set_timeout None x)) t (timers s).
Proof.
  intros Hs Hx. unfold cancel_timer. rewrite Hx.
  set (s1 := match tm_timeout x with Some id => with_timer t (tm_set_timeout None) (remove_timeout_user id s) | None => s end).
  assert (H1 : t_ok None s1 /\ timers s1 = alter (tm_set_timeout None) t (timers s)).
  { unfold s1. destruct (tm_timeout x) as [id |] eqn:Ht.
    - destruct (to_timer _ _ Hs t x id Hx ltac:(done) Ht) as (u & Hu & <- & Hc). split.
      + apply t_ok_set_none. rewrite <- (eq_refl : hole_of (Cb_timer t) = Some t), <- Hc. by apply remove_user_ok.
      + cbn. unfold remove_timeout_user. by destruct (existsb _ _).
    - split; [done |]. symmetry. apply alter_id. intros y Hy. rewrite Hx in Hy. injection Hy as <-. destruct x; cbn in *. by subst. }
  destruct H1 as [H1 E1]. split_and!; [done | |].
  - destruct (tm_thread x); [by apply t_ok_drop_thread, t_ok_log | done].
  - transitivity (alter (tm_set_thread None) t (timers s1)).
    + destruct (tm_thread x) eqn:E; cbn; [done |]. symmetry. apply alter_id. intros y. rewrite E1, lookup_alter_eq, Hx.
      intros [= <-]. cbn. unfold tm_set_timeout. destruct x; cbn in *. by subst.
    + rewrite E1. apply map_eq. intros v. destruct (decide (v = t)) as [-> | Ne]; [by rewrite !lookup_alter_eq, Hx | by rewrite !lookup_alter_ne].
Qed.


Section Ops.
Context (alloc_ok apc_ok : nat -> bool).

(** Arming a timer that has no timeout. *)
Lemma arm_ok when t s x :
  t_ok None s -> timers s !! t = Some x -> tm_timeout x = None ->
  let r := add_timeout_user alloc_ok when (Cb_timer t) s in t_ok None (with_timer t (tm_set_timeout r.1) r.2).
Proof. intros Hs Hx Ht. eapply add_timer_ok; [by eapply t_ok_open | done]. Qed.

Definition idle (t : Z) (s : tstate) : Prop := exists x, timers s !! t = Some x /\ tm_timeout x = None /\ tm_thread x = None.

Lemma set_call_ok t period when callback arg s :
  t_ok None s -> idle t s ->
  let s1 := with_timer t (tm_set_call period when callback arg) s in
  t_ok None s1 /\ exists y, timers s1 !! t = Some y /\ tm_timeout y = None /\ tm_callback y = callback.
Proof.
  intros Hs (x & Hx & Ht & Hth). cbn zeta. split.
  - apply t_ok_timer; [done | done |]. intros y Hy. rewrite Hx in Hy. injection Hy as <-. cbn. congruence.
  - rewrite with_timer_lookup, Hx. cbn. eauto.
Qed.

Lemma set_timer_ok t expire period callback arg current s x :
  t_ok None s -> timers s !! t = Some x -> t_ok None (set_timer alloc_ok t expire period callback arg current s).2.
Proof.
  intros Hs0 Hx0. unfold set_timer. destruct (cancel_timer_ok t s x Hs0 Hx0) as (_ & Hc & Et).
  assert (Hxc : timers (cancel_timer t s).2 !! t = Some (tm_set_thread None (tm_set_timeout None x))) by (by rewrite Et, lookup_alter_eq, Hx0).
  rewrite Hxc. cbn [snd tm_manual tm_set_thread tm_set_timeout]. revert Hc Hxc.
  generalize (cancel_timer t s).2 as s0. clear s Hs0 Hx0 Et. intros s Hs Hy.
  set (s1 := if tm_manual x then with_timer t (tm_set_signal false false) s else s).
  assert (H1 : t_ok None s1 /\ idle t s1).
  { unfold s1. destruct (tm_manual x); [| split; [done |]; by eexists].
    split; [| eexists; split; [by rewrite with_timer_lookup, Hy | done]].
    apply t_ok_timer; [done | done |]. intros y Hy'. apply (to_thread _ _ Hs t y Hy'). }
  destruct H1 as [H1 Hi1]. clearbody s1. clear s Hs Hy.
  generalize (if tm_manual x then 0 else period) as p. intros p.
  generalize (if expire <=? 0 then i64 (expire - monotonic_time s1) else Z.max expire (current_time s1)) as when. intros when.
  destruct (set_call_ok t p when callback arg s1 H1 Hi1) as (H2 & y & Hy & Hty & Hcb). clear H1 Hi1.
  revert H2 Hy. generalize (with_timer t (tm_set_call p when callback arg) s1) as s2. intros s2 H2 Hy. clear s1.
  set (s3 := if negb (callback =? 0) then with_timer t (tm_set_thread (Some current)) s2 else s2).
  assert (H3 : t_ok None s3 /\ exists z, timers s3 !! t = Some z /\ tm_timeout z = None).
  { unfold s3. destruct (negb (callback =? 0)) eqn:E; [| eauto]. split.
    - apply t_ok_timer; [done | done |]. intros z Hz _. cbn. rewrite Hy in Hz. injection Hz as <-. lia.
    - rewrite with_timer_lookup, Hy. cbn. eauto. }
  destruct H3 as (H3 & z & Hz & Htz). destruct (negb (expire =? TIMEOUT_INFINITE)); [by eapply arm_ok | done].
Qed.

Lemma create_timer_ok manual s : t_ok None s -> t_ok None (create_timer manual s).
Proof.
  intros Hs. unfold create_timer.
  assert (Hno : timers s !! ts_next s = None).
  { destruct (timers s !! ts_next s) eqn:E; [| done]. pose proof (to_fresh_timer _ _ Hs _ _ E). lia. }
  split; cbn; change (queued (set_timers _ _)) with (queued s); try apply Hs.
  - intros u Hu. pose proof (to_fresh _ _ Hs u Hu). lia.
  - intros t x. destruct (decide (t = ts_next s)) as [-> | Ne]; [lia |]. rewrite lookup_insert_ne by done.
    intros Hx. pose proof (to_fresh_timer _ _ Hs t x Hx). lia.
  - intros t x id. destruct (decide (t = ts_next s)) as [-> | Ne].
    + rewrite lookup_insert_eq. by intros [= <-].
    + rewrite lookup_insert_ne by done. apply Hs.
  - intros u t Hu Hc. destruct (to_user _ _ Hs u t Hu Hc) as (? & x & Hx & ?). split; [done |]. exists x.
    by rewrite lookup_insert_ne by congruence.
  - intros t x. destruct (decide (t = ts_next s)) as [-> | Ne].
    + rewrite lookup_insert_eq. by intros [= <-].
    + rewrite lookup_insert_ne by done. apply Hs.
Qed.

Lemma delete_timer_ok t s : t_ok (Some t) s -> t_ok None (set_timers (delete t (timers s)) s).
Proof.
  intros Hs. split; cbn; change (queued (set_timers _ _)) with (queued s); try apply Hs.
  - intros v x [_ Hx]%lookup_delete_Some. by apply (to_fresh_timer _ _ Hs v x).
  - intros v x id [Ne Hx]%lookup_delete_Some _. apply (to_timer _ _ Hs v x id Hx). congruence.
  - intros u v Hu Hc. destruct (to_user _ _ Hs u v Hu Hc) as (Hne & x & Hx & ?). split; [done |]. exists x.
    by rewrite lookup_delete_ne by congruence.
  - intros v x [_ Hx]%lookup_delete_Some. by apply (to_thread _ _ Hs v x).
Qed.

Lemma timer_destroy_ok t s x : t_ok None s -> timers s !! t = Some x -> t_ok None (timer_destroy t s).
Proof.
  intros Hs Hx. unfold timer_destroy. rewrite Hx. apply delete_timer_ok. destruct (tm_timeout x) as [id |] eqn:Ht.
  - destruct (to_timer _ _ Hs t x id Hx ltac:(done) Ht) as (u & Hu & <- & Hc).
    rewrite <- (eq_refl : hole_of (Cb_timer t) = Some t), <- Hc. by apply remove_user_ok.
  - by eapply t_ok_open.
Qed.

Lemma has_timer_spec s t : has_timer s t = true -> exists x, timers s !! t = Some x.
Proof. unfold has_timer. destruct (timers s !! t); [eauto | done]. Qed.

Lemma run_request_ok r s : t_ok None s -> t_ok None (run_request alloc_ok r s).
Proof.
  intros Hs. destruct r; cbn.
  - by apply create_timer_ok.
  - destruct (has_timer s t) eqn:E; [| done]. apply has_timer_spec in E as [x Hx]. by eapply set_timer_ok.
  - destruct (has_timer s t) eqn:E; [| done]. apply has_timer_spec in E as [x Hx]. by eapply cancel_timer_ok.
  - destruct (has_timer s t) eqn:E; [| done]. apply has_timer_spec in E as [x Hx]. by eapply timer_destroy_ok.
  - apply t_ok_timer; [done | by intros []; cbn; destruct tm_manual |]. intros x Hx Hth.
    pose proof (to_thread _ _ Hs t x Hx). destruct x; cbn in *. destruct tm_manual; auto.
  - by apply add_other_ok.
  - destruct (other_user s id) eqn:E; [| done]. unfold other_user in E. apply existsb_exists in E as (u & Hu & E).
    apply list_elem_of_In in Hu. apply andb_true_iff in E as [E1 E2]. unfold is_user in E1.
    assert (id = tu_id u) as -> by lia. destruct (tu_callback u) eqn:Hc; [done |].
    rewrite <- (eq_refl : hole_of (Cb_other k) = None), <- Hc. by apply remove_user_ok.
Qed.

Lemma run_requests_ok rs s : t_ok None s -> t_ok None (run_requests alloc_ok rs s).
Proof. revert s. induction rs as [| r rs IH]; intros s Hs; cbn; [done |]. by apply IH, run_request_ok. Qed.

(** ** Callbacks *)

Lemma callback_apc_ok hole t x s :
  t_ok hole s -> timers s !! t = Some x -> t_ok hole (callback_apc apc_ok t x s).
Proof.
  intros Hs Hx. unfold callback_apc. destruct (tm_thread x) eqn:E; [| done].
  pose proof (to_thread _ _ Hs t x Hx) as Hcb. destruct (tm_callback x =? 0) eqn:E0; [exfalso; apply Hcb; [by rewrite E | lia] |].
  destruct (apc_ok _); [by apply t_ok_log, t_ok_count_apc | by apply t_ok_drop_thread, t_ok_count_apc].
Qed.

Lemma callback_apc_timer t x s : timers s !! t = Some x ->
  exists y, timers (callback_apc apc_ok t x s) !! t = Some y /\ tm_when y = tm_when x /\ tm_period y = tm_period x.
Proof.
  intros Hx. unfold callback_apc. destruct (tm_thread x); [| by exists x].
  destruct (tm_callback x =? 0); [by exists x |]. destruct (apc_ok _); [by exists x |].
  rewrite with_timer_lookup. cbn. rewrite Hx. by eexists.
Qed.

Lemma timer_callback_ok t s x :
  t_ok (Some t) s -> timers s !! t = Some x -> t_ok None (timer_callback alloc_ok apc_ok t s).
Proof.
  intros Hs Hx. unfold timer_callback. rewrite Hx.
  pose proof (callback_apc_ok _ t x s Hs Hx) as H1. destruct (callback_apc_timer t x s Hx) as (y & Hy & _).
  revert H1 Hy. generalize (callback_apc apc_ok t x s) as s1. intros s1 H1 Hy. clear s Hs Hx.
  assert (Hsig : forall s, t_ok None s -> t_ok None (with_timer t (tm_set_signal true true) s)).
  { intros s Hs. apply t_ok_timer; [done | done |]. intros z Hz. apply (to_thread _ _ Hs t z Hz). }
  apply Hsig. destruct (negb (tm_period x =? 0)); [| by apply t_ok_set_none].
  eapply add_timer_ok; [| by rewrite with_timer_lookup, Hy].
  apply t_ok_timer; [done | done |]. intros z Hz. apply (to_thread _ _ H1 t z Hz).
Qed.

End Ops.
