(* ===== verification/TimerTrace.v ===== *)
(** * What becomes of a timeout

    [evolves f s s']: from [s] to [s'] the timeouts [f] were called, in this order; others
    were added or removed.  A timeout is queued, or it was called or removed, one time:
    [ledger] counts all of these and no operation changes it for a timeout that exists. *)

From stdpp Require Import base list gmap sorting.
From Stdlib Require Import ZArith Lia ZifyBool.
From S2P Require Import Prelude Timer TimerProofs TimerSteps.

Open Scope Z_scope.

(** The timeouts called, and those that left the lists. *)
Definition fired_of (e : t_event) : option Z := match e with Fired id => Some id | _ => None end.
Definition left_of (e : t_event) : option Z := match e with Fired id | Removed id => Some id | _ => None end.
Definition fired (tr : list t_event) : list Z := omap fired_of tr.
Definition has_left (tr : list t_event) : list Z := omap left_of tr.

Definition occurs (id : Z) (l : list Z) : nat := count_occ Z.eq_dec l id.

Definition ledger (id : Z) (s : tstate) : nat := occurs id (has_left (ts_trace s) ++ map tu_id (queued s)).

Record evolves (f : list Z) (s s' : tstate) : Prop := mkEvolves {
  ev_next : ts_next s <= ts_next s';
  ev_clock : current_time s' = current_time s /\ monotonic_time s' = monotonic_time s;
  ev_trace : exists new, ts_trace s' = ts_trace s ++ new /\ fired new = f;
  ev_abs : forall u, u ∈ abs_timeout_list s' -> u ∈ abs_timeout_list s \/ ts_next s <= tu_id u;
  ev_rel : forall u, u ∈ rel_timeout_list s' -> u ∈ rel_timeout_list s \/ ts_next s <= tu_id u;
  ev_expired : expired_list s' `sublist_of` expired_list s;
  ev_ledger : forall id, (ledger id s <= ledger id s')%nat /\
    (ledger id s' <= ledger id s + if decide (ts_next s <= id < ts_next s')%Z then 1 else 0)%nat
}.

Lemma evolves_trans f g s1 s2 s3 : evolves f s1 s2 -> evolves g s2 s3 -> evolves (f ++ g) s1 s3.
Proof.
  intros [n1 [c1 m1] (w1 & t1 & f1) a1 r1 e1 l1] [n2 [c2 m2] (w2 & t2 & f2) a2 r2 e2 l2]. split.
  - lia.
  - split; congruence.
  - exists (w1 ++ w2). split; [rewrite t2, t1; by rewrite <- (assoc_L app) |]. unfold fired in *. rewrite omap_app. congruence.
  - intros u [Hu | Hu]%a2; [by apply a1 | right; lia].
  - intros u [Hu | Hu]%r2; [by apply r1 | right; lia].
  - by etrans.
  - intros id. destruct (l1 id) as [A1 B1], (l2 id) as [A2 B2]. split; [lia |].
    repeat destruct (decide _); lia.
Qed.

Lemma evolves_trans_l f s1 s2 s3 : evolves [] s1 s2 -> evolves f s2 s3 -> evolves f s1 s3.
Proof. apply (evolves_trans []). Qed.

(** Nothing leaves or enters the lists. *)
Lemma evolves_same s s' new :
  abs_timeout_list s' = abs_timeout_list s -> rel_timeout_list s' = rel_timeout_list s -> expired_list s' = expired_list s ->
  current_time s' = current_time s -> monotonic_time s' = monotonic_time s ->
  ts_trace s' = ts_trace s ++ new -> has_left new = [] -> ts_next s <= ts_next s' -> evolves [] s s'.
Proof.
  intros Ea Er Ee Ec Em Et Hn En. assert (Eq : queued s' = queued s) by (unfold queued; congruence). split; try done.
  - exists new. split; [done |]. unfold fired, has_left in *. clear -Hn. induction new as [| e l IH]; [done |].
    destruct e; cbn in *; try done; auto.
  - rewrite Ea. auto.
  - rewrite Er. auto.
  - by rewrite Ee.
  - intros id. unfold ledger. rewrite Eq, Et. unfold has_left in *. rewrite omap_app, Hn, app_nil_r. lia.
Qed.

Ltac evolves_quiet := eapply (evolves_same _ _ []); cbn; rewrite ?app_nil_r; (done || lia).

Lemma evolves_refl s : evolves [] s s.
Proof. evolves_quiet. Qed.

Lemma evolves_with_timer t f s : evolves [] s (with_timer t f s).
Proof. evolves_quiet. Qed.

Lemma evolves_log e s : left_of e = None -> evolves [] s (t_log e s).
Proof. intros He. eapply (evolves_same _ _ [e]); cbn; try done; [by rewrite He]. Qed.

Create HintDb timers.
#[export] Hint Resolve evolves_refl evolves_with_timer evolves_log : timers.

(** ** The ledger *)

Lemma occurs_app id l1 l2 : occurs id (l1 ++ l2) = (occurs id l1 + occurs id l2)%nat.
Proof. apply count_occ_app. Qed.

Lemma occurs_perm id l1 l2 : l1 ≡ₚ l2 -> occurs id l1 = occurs id l2.
Proof. intros Hp. by apply (Permutation_count_occ Z.eq_dec). Qed.

Lemma ledger_perm id tr l s : has_left (ts_trace s) ≡ₚ tr -> map tu_id (queued s) ≡ₚ l -> ledger id s = (occurs id tr + occurs id l)%nat.
Proof. intros H1 H2. unfold ledger. rewrite occurs_app. by rewrite (occurs_perm _ _ _ H1), (occurs_perm _ _ _ H2). Qed.

Lemma drop_user_perm l u : NoDup (map tu_id l) -> u ∈ l -> l ≡ₚ u :: drop_user (tu_id u) l.
Proof.
  intros Hn Hu. apply list_elem_of_split in Hu as (l1 & l2 & ->).
  rewrite map_app in Hn. cbn in Hn. apply NoDup_app in Hn as (_ & Hd & Hn). apply NoDup_cons in Hn as [Hn _].
  assert (Hid : forall l, tu_id u ∉ map tu_id l -> drop_user (tu_id u) l = l).
  { induction l as [| v l IH]; cbn [map]; [done |]. intros [Hv Hl]%not_elem_of_cons. unfold drop_user in *.
    rewrite filter_cons_True by congruence. f_equal. auto. }
  rewrite drop_user_app. unfold drop_user at 2. rewrite filter_cons_False by (intros H; by apply H). fold (drop_user (tu_id u) l2).
  rewrite !Hid; [solve_Permutation | done |]. intros H. apply (Hd _ H). constructor.
Qed.

Lemma evolves_remove id s : NoDup (map tu_id (queued s)) -> evolves [] s (remove_timeout_user id s).
Proof.
  intros Hn. unfold remove_timeout_user. destruct (existsb _ _) eqn:E; [| evolves_quiet].
  apply is_user_exists in E as (u & Hu & <-). split; try done.
  - exists [Removed (tu_id u)]. done.
  - cbn. intros v [Hv _]%drop_user_elem. by left.
  - cbn. intros v [Hv _]%drop_user_elem. by left.
  - cbn. apply drop_user_sublist.
  - intros id. pose proof (drop_user_perm _ _ Hn Hu) as Hp.
    set (s' := t_log _ _).
    assert (E' : queued s' = drop_user (tu_id u) (queued s)) by (unfold s', queued; cbn; by rewrite !drop_user_app).
    rewrite (ledger_perm id (has_left (ts_trace s)) (tu_id u :: map tu_id (queued s')) s); [| done | by rewrite E', Hp at 1].
    rewrite (ledger_perm id (has_left (ts_trace s) ++ [tu_id u]) (map tu_id (queued s')) s'); [| by cbn; unfold has_left; rewrite omap_app | done].
    rewrite occurs_app. unfold occurs. cbn [count_occ]. destruct (Z.eq_dec _ _); lia.
Qed.

Lemma evolves_pop s u rest :
  expired_list s = u :: rest ->
  evolves [tu_id u] s (t_log (Fired (tu_id u)) (set_lists (abs_timeout_list s) (rel_timeout_list s) rest s)).
Proof.
  intros E. split; try done; try by left.
  - by exists [Fired (tu_id u)].
  - cbn. rewrite E. apply sublist_cons. done.
  - intros id. set (s' := t_log _ _).
    assert (Hp : map tu_id (queued s) ≡ₚ tu_id u :: map tu_id (queued s')).
    { unfold s', queued. cbn. rewrite E, !map_app. cbn. solve_Permutation. }
    rewrite (ledger_perm id (has_left (ts_trace s)) (tu_id u :: map tu_id (queued s')) s); [| done | done].
    rewrite (ledger_perm id (has_left (ts_trace s) ++ [tu_id u]) (map tu_id (queued s')) s'); [| by cbn; unfold has_left; rewrite omap_app | done].
    rewrite occurs_app. unfold occurs. cbn [count_occ]. destruct (Z.eq_dec _ _); lia.
Qed.

Lemma evolves_add alloc_ok when cb s : evolves [] s (add_timeout_user alloc_ok when cb s).2.
Proof.
  destruct (add_cases alloc_ok when cb s) as [-> | (u & s' & E & Hw & Hc & Ha)]; [evolves_quiet |].
  assert (Ek : current_time s' = current_time s /\ monotonic_time s' = monotonic_time s).
  { unfold add_timeout_user in E. destruct (negb _); [done |]. injection E as _ <-. by destruct (0 <? _). }
  rewrite E. cbn. destruct Ha as (Ei & En & _ & _ & Et & Ee & Hp & Hl). split.
  - lia.
  - done.
  - exists []. by rewrite app_nil_r.
  - destruct Hl as [(_ & -> & _) | (_ & -> & _)]; [| by left]. intros v. rewrite add_before_perm, elem_of_cons.
    intros [-> | ?]; [right; lia | by left].
  - destruct Hl as [(_ & _ & ->) | (_ & _ & ->)]; [by left |]. intros v. rewrite add_before_perm, elem_of_cons.
    intros [-> | ?]; [right; lia | by left].
  - by rewrite Ee.
  - intros id. rewrite (ledger_perm id (has_left (ts_trace s)) (tu_id u :: map tu_id (queued s)) s'); [| by rewrite Et | by rewrite Hp].
    rewrite (ledger_perm id (has_left (ts_trace s)) (map tu_id (queued s)) s) by done.
    unfold occurs. cbn [count_occ]. destruct (Z.eq_dec _ _), (decide _); lia.
Qed.

(** ** Operations *)

Ltac evolves_then l := eapply evolves_trans_l; [l |].
Ltac evolves_via m := apply (evolves_trans_l [] _ m).
Ltac evolves_last l := eapply evolves_trans_l; [| l].

Lemma evolves_cancel t s : NoDup (map tu_id (queued s)) -> evolves [] s (cancel_timer t s).2.
Proof.
  intros Hn. unfold cancel_timer. destruct (timers s !! t) as [x |]; [| evolves_quiet]. cbn [snd].
  eapply (evolves_trans_l []); [| destruct (tm_thread x); [evolves_last ltac:(apply evolves_with_timer); by apply evolves_log | apply evolves_refl]].
  destruct (tm_timeout x); [| apply evolves_refl]. evolves_last ltac:(apply evolves_with_timer). by apply evolves_remove.
Qed.

Lemma evolves_arm alloc_ok when t s :
  evolves [] s (with_timer t (tm_set_timeout (add_timeout_user alloc_ok when (Cb_timer t) s).1) (add_timeout_user alloc_ok when (Cb_timer t) s).2).
Proof. evolves_last ltac:(apply evolves_with_timer). apply evolves_add. Qed.

#[export] Hint Resolve evolves_arm : timers.

Section Ops.
Context (alloc_ok apc_ok : nat -> bool) (others : Z -> nat -> list request).

Lemma evolves_set_timer t expire period callback arg current s :
  NoDup (map tu_id (queued s)) -> evolves [] s (set_timer alloc_ok t expire period callback arg current s).2.
Proof.
  intros Hn. unfold set_timer. evolves_then ltac:(by apply (evolves_cancel t)). revert Hn.
  generalize (cancel_timer t s) as r. intros r _. destruct (timers r.2 !! t) as [x |]; [| evolves_quiet]. cbn [snd].
  set (s1 := if tm_manual x then with_timer t _ _ else _). evolves_via s1; [unfold s1; destruct (tm_manual x); auto with timers |].
  set (s2 := with_timer t (tm_set_call _ _ _ _) s1). evolves_via s2; [apply evolves_with_timer |].
  set (s3 := if negb (callback =? 0) then _ else _). evolves_via s3; [unfold s3; destruct (negb _); auto with timers |].
  clearbody s3. destruct (negb _); [apply evolves_arm | apply evolves_refl].
Qed.

Lemma evolves_request r s : NoDup (map tu_id (queued s)) -> evolves [] s (run_request alloc_ok r s).
Proof.
  intros Hn. destruct r; cbn [run_request]; try (destruct (has_timer s t); [| apply evolves_refl]).
  - evolves_quiet.
  - by apply evolves_set_timer.
  - by apply evolves_cancel.
  - unfold timer_destroy. destruct (timers s !! t) as [x |]; [| evolves_quiet].
    destruct (tm_timeout x) as [z |]; [| evolves_quiet]. eapply evolves_trans_l; [by apply (evolves_remove z) |]. evolves_quiet.
  - apply evolves_with_timer.
  - apply evolves_add.
  - destruct (other_user s id); [by apply evolves_remove | apply evolves_refl].
Qed.

Lemma evolves_requests rs s : t_ok None s -> evolves [] s (run_requests alloc_ok rs s).
Proof.
  revert s. induction rs as [| r rs IH]; intros s Hs; cbn; [apply evolves_refl |].
  evolves_then ltac:(apply evolves_request, Hs). by apply IH, run_request_ok.
Qed.

Lemma evolves_apc t x s : evolves [] s (callback_apc apc_ok t x s).
Proof.
  unfold callback_apc. destruct (tm_thread x); [| apply evolves_refl]. destruct (_ =? 0); [evolves_quiet |].
  destruct (apc_ok _); [eapply (evolves_same _ _ [_]); cbn; done | evolves_quiet].
Qed.

Lemma evolves_callback t s : evolves [] s (timer_callback alloc_ok apc_ok t s).
Proof.
  unfold timer_callback. destruct (timers s !! t) as [x |]; [| evolves_quiet].
  evolves_then ltac:(apply (evolves_apc t x)). generalize (callback_apc apc_ok t x s) as s1. intros s1.
  evolves_last ltac:(apply evolves_with_timer). destruct (negb _); [| apply evolves_with_timer].
  evolves_last ltac:(apply evolves_arm). apply evolves_with_timer.
Qed.

(** ** The loop over the expired timeouts *)

Lemma call_back_ok u s :
  t_ok (hole_of (tu_callback u)) s -> (forall t, tu_callback u = Cb_timer t -> exists x, timers s !! t = Some x) ->
  t_ok None (call_back alloc_ok apc_ok others u s) /\ evolves [] s (call_back alloc_ok apc_ok others u s).
Proof.
  intros Hs Hx. unfold call_back. destruct (tu_callback u) as [t | k]; cbn in Hs.
  - destruct (Hx t eq_refl) as [x Hxt]. split; [by eapply timer_callback_ok | apply evolves_callback].
  - assert (Hc : t_ok None (count_call s)) by (apply (t_ok_same None s); try done; apply Hs). split; [by apply run_requests_ok |].
    eapply evolves_trans_l; [| by apply evolves_requests]. evolves_quiet.
Qed.

Lemma call_expired_ok fuel s :
  t_ok None s -> (length (expired_list s) <= fuel)%nat ->
  let s' := call_expired alloc_ok apc_ok others fuel s in
  t_ok None s' /\ expired_list s' = [] /\ exists f, f `sublist_of` map tu_id (expired_list s) /\ evolves f s s'.
Proof.
  revert s. induction fuel as [| fuel IH]; intros s Hs Hf; cbn.
  { destruct (expired_list s) eqn:E; [| cbn in Hf; lia]. split_and!; [done | done |]. exists []. split; [done | apply evolves_refl]. }
  destruct (expired_list s) as [| u rest] eqn:E.
  { split_and!; [done | done |]. exists []. split; [done | apply evolves_refl]. }
  pose proof (pop_expired_ok s u rest Hs E) as H1. pose proof (evolves_pop s u rest E) as V1.
  destruct (call_back_ok u _ H1) as [H2 V2].
  { intros t Ht. destruct (to_user _ _ Hs u t) as (_ & x & Hx & _); [| done | by exists x].
    unfold queued. rewrite E, !elem_of_app. right. right. constructor. }
  pose proof (ev_expired _ _ _ V2) as Hsub. cbn in Hsub. pose proof (sublist_length _ _ Hsub) as Hlen.
  destruct (IH _ H2) as (H3 & He & f & Hfs & V3); [cbn in Hf; lia |].
  split_and!; [done | done |]. exists (tu_id u :: f). split.
  - cbn. apply sublist_skip. etrans; [exact Hfs |]. by apply (fmap_sublist tu_id).
  - apply (evolves_trans [tu_id u] f _ _ _ V1). by apply (evolves_trans_l f _ _ _ V2).
Qed.

End Ops.
