(* ===== verification/TimerTheorems.v ===== *)
(** * Theorems on timeouts and timers

    In every state the server reaches timers and timeouts agree; each round of the main
    loop calls every timeout that is due, in order, and computes how long nothing is due. *)

From stdpp Require Import base list gmap sorting.
From Stdlib Require Import ZArith Lia ZifyBool.
From S2P Require Import Prelude Timer TimerProofs TimerSteps TimerTrace.

Open Scope Z_scope.

(** ** Taking the expired timeouts from the lists *)

Lemma t_ok_perm hole s s' :
  t_ok hole s -> queued s' ≡ₚ queued s -> timers s' = timers s -> ts_next s' = ts_next s -> ts_fault s' = ts_fault s ->
  StronglySorted abs_le (abs_timeout_list s') -> (forall u, u ∈ abs_timeout_list s' -> u ∈ abs_timeout_list s) ->
  StronglySorted rel_le (rel_timeout_list s') -> (forall u, u ∈ rel_timeout_list s' -> u ∈ rel_timeout_list s) ->
  t_ok hole s'.
Proof.
  intros Hs Hq Et En Ef Ha Ha' Hr Hr'. split; rewrite ?Et, ?En, ?Ef; try apply Hs.
  - rewrite Hq. apply Hs.
  - intros u. rewrite Hq. apply Hs.
  - intros t x id Hx Hh Hid. destruct (to_timer _ _ Hs t x id Hx Hh Hid) as (u & Hu & ?). exists u. by rewrite Hq.
  - intros u t. rewrite Hq. apply Hs.
  - split; [done |]. apply Forall_forall. intros u Hu%Ha'. destruct (to_abs _ _ Hs) as [_ H]. rewrite Forall_forall in H. auto.
  - split; [done |]. apply Forall_forall. intros u Hu%Hr'. destruct (to_rel _ _ Hs) as [_ H]. rewrite Forall_forall in H. auto.
Qed.

Lemma split_expired_due due l : Forall (fun u => due u = true) (split_expired due l).1.
Proof. induction l as [| x l IH]; cbn; [constructor |]. destruct (due x) eqn:E; cbn; by constructor. Qed.

Lemma split_expired_rest (R : timeout_user -> timeout_user -> Prop) due l :
  StronglySorted R l -> (forall x y, x ∈ l -> y ∈ l -> R x y -> due y = true -> due x = true) ->
  Forall (fun u => due u = false) (split_expired due l).2.
Proof.
  induction 1 as [| x l Hl IH Hx]; intros Hd; cbn; [constructor |]. destruct (due x) eqn:E; cbn.
  - apply IH. intros y z Hy Hz. apply Hd; by constructor.
  - constructor; [done |]. apply Forall_forall. intros y Hy. rewrite Forall_forall in Hx.
    destruct (due y) eqn:Ey; [| done]. rewrite (Hd x y) in E; [done | constructor | by constructor | auto | done].
Qed.

Lemma split_expired_in due l u : u ∈ (split_expired due l).1 \/ u ∈ (split_expired due l).2 <-> u ∈ l.
Proof. rewrite <- (split_expired_app due l) at 3. by rewrite elem_of_app. Qed.

Lemma take_expired_queued s : expired_list s = [] -> queued (take_expired s) ≡ₚ queued s.
Proof.
  intros E. unfold queued, take_expired. cbn. rewrite E.
  rewrite <- (split_expired_app (abs_due (current_time s)) (abs_timeout_list s)) at 3.
  rewrite <- (split_expired_app (rel_due (monotonic_time s)) (rel_timeout_list s)) at 3. solve_Permutation.
Qed.

Lemma take_expired_ok s : t_ok None s -> expired_list s = [] -> t_ok None (take_expired s).
Proof.
  intros Hs E. apply (t_ok_perm None s); try done; cbn; try by apply take_expired_queued.
  - eapply sorted_app_r. rewrite split_expired_app. apply Hs.
  - intros u Hu. apply (split_expired_in (abs_due (current_time s))). by right.
  - eapply sorted_app_r. rewrite split_expired_app. apply Hs.
  - intros u Hu. apply (split_expired_in (rel_due (monotonic_time s))). by right.
Qed.

(** ** A round of the main loop *)

Section Loop.
Context (alloc_ok apc_ok : nat -> bool) (user_shared_data : bool) (others : Z -> nat -> list request).

#[local] Abbreviation next_timeout := (get_next_timeout alloc_ok apc_ok user_shared_data others).

(** The answer is computed from the lists as they are after the callbacks. *)
Lemma get_next_timeout_ok s :
  t_ok None s -> expired_list s = [] ->
  exists s' f,
    (let ret := next_due s' (if user_shared_data then user_shared_data_timeout else -1) in
     next_timeout s = (to_milliseconds ret, ret, s')) /\
    t_ok None s' /\ expired_list s' = [] /\ f `sublist_of` map tu_id (expired_list (take_expired s)) /\
    evolves f (take_expired s) s'.
Proof.
  intros Hs He. unfold get_next_timeout.
  destruct (decide (abs_timeout_list s = [] /\ rel_timeout_list s = [])) as [[Ea Er] | Ne].
  - exists s, []. unfold next_due. rewrite Ea, Er. split_and!; try done; [apply sublist_nil_l |].
    eapply (evolves_same _ _ []); cbn; rewrite ?Ea, ?Er, ?He, ?app_nil_r; done.
  - destruct (call_expired_ok alloc_ok apc_ok others _ _ (take_expired_ok s Hs He) (le_n _)) as (H1 & H2 & f & H3 & H4).
    eexists _, f. split_and!; [| exact H1 | exact H2 | exact H3 | exact H4].
    destruct (abs_timeout_list s), (rel_timeout_list s); try done. by destruct Ne.
Qed.

(** What holds between requests. *)
Record t_inv (s : tstate) : Prop := mkTInv {
  ti_ok : t_ok None s;
  ti_expired : expired_list s = [];
  ti_ledger : forall id, (ledger id s <= 1)%nat /\ (ts_next s <= id -> ledger id s = 0%nat)
}.

Lemma ledger_evolves f s s' :
  (forall id, (ledger id s <= 1)%nat /\ (ts_next s <= id -> ledger id s = 0%nat)) -> evolves f s s' ->
  forall id, (ledger id s' <= 1)%nat /\ (ts_next s' <= id -> ledger id s' = 0%nat).
Proof.
  intros Hl Hv id. destruct (Hl id) as [H1 H2]. destruct (ev_ledger _ _ _ Hv id) as [H3 H4]. pose proof (ev_next _ _ _ Hv).
  destruct (decide _); split; lia.
Qed.

Lemma request_inv r s : t_inv s -> t_inv (run_request alloc_ok r s).
Proof.
  intros [Hs He Hl]. pose proof (evolves_request alloc_ok r s (to_nodup _ _ Hs)) as Hv. split.
  - by apply run_request_ok.
  - pose proof (ev_expired _ _ _ Hv) as H. rewrite He in H. by apply sublist_nil_r in H.
  - by eapply ledger_evolves.
Qed.

Lemma clocks_inv now mono s : t_inv s -> t_inv (set_clocks now mono s).
Proof. intros [Hs He Hl]. split; [| done | done]. apply (t_ok_same None s); try done; apply Hs. Qed.

Lemma next_timeout_inv s : t_inv s -> t_inv (next_timeout s).2.
Proof.
  intros [Hs He Hl]. destruct (get_next_timeout_ok s Hs He) as (s' & f & E & H1 & H2 & H3 & H4). rewrite E. cbn [snd].
  split; [done | done |]. eapply ledger_evolves; [| exact H4]. intros id. cbn [ts_next take_expired set_lists].
  rewrite (ledger_perm id (has_left (ts_trace s)) (map tu_id (queued s))); [| done | by rewrite take_expired_queued].
  rewrite <- (ledger_perm id _ _ s); [apply Hl | done | done].
Qed.

Lemma run_steps_inv sts s : t_inv s -> t_inv (run_steps alloc_ok apc_ok user_shared_data others sts s).
Proof.
  revert s. induction sts as [| st sts IH]; intros s Hs; cbn; [done |]. apply IH. destruct st; cbn.
  - by apply request_inv.
  - by apply next_timeout_inv, clocks_inv.
Qed.

Lemma t_initial_inv : t_inv t_initial.
Proof.
  split; [| done |]; [| intros id; cbn; lia]. split; cbn; try done; try (by repeat constructor); try (intros; set_solver).
Qed.

End Loop.

(** ** Which timeouts are due, and when the next one is *)

(** Time until a timeout is due, negative when it is overdue. *)
Definition until (now mono : Z) (u : timeout_user) : Z :=
  if 0 <? tu_when u then tu_when u - now else - tu_when u - mono.

Definition is_due (now mono : Z) (u : timeout_user) : Prop := until now mono u <= 0.

#[export] Instance is_due_dec now mono u : Decision (is_due now mono u).
Proof. apply Z.le_dec. Defined.

(** [r] is the least of the times [l], [-1] when there is none. *)
Definition least (l : list Z) (r : Z) : Prop := l = [] /\ r = -1 \/ r ∈ l /\ forall x, x ∈ l -> r <= x.

Lemma split_expired_filter (R : timeout_user -> timeout_user -> Prop) (P : timeout_user -> Prop) `{!forall u, Decision (P u)} due l :
  StronglySorted R l -> (forall x, x ∈ l -> due x = true <-> P x) -> (forall x y, x ∈ l -> y ∈ l -> R x y -> P y -> P x) ->
  (split_expired due l).1 = filter P l.
Proof.
  induction 1 as [| x l Hl IH Hx]; intros Hd Hp; [done |]. cbn [split_expired]. destruct (due x) eqn:E; cbn [fst].
  - rewrite filter_cons_True by (apply Hd; [constructor | done]). f_equal. apply IH.
    + intros y Hy. apply Hd. by constructor.
    + intros y z Hy Hz. apply Hp; by constructor.
  - assert (Hnx : ~ P x) by (rewrite <- Hd; [congruence | constructor]). symmetry. apply elem_of_nil_inv.
    intros y [Hy Hin]%list_elem_of_filter. apply Hnx. apply elem_of_cons in Hin as [-> | Hin]; [done |].
    rewrite Forall_forall in Hx. apply (Hp x y); [constructor | by constructor | auto | done].
Qed.

(** No relative timeout is so far away that its time cannot be negated. *)
Definition in_reach (u : timeout_user) : Prop := - 2 ^ 63 < tu_when u < 2 ^ 63.

Lemma i64_small n : - 2 ^ 63 <= n < 2 ^ 63 -> i64 n = n.
Proof. intros H. apply swrap_small; lia. Qed.

(** The timeouts taken are those due, those on the clock first, each group in the order
    of expiration. *)
Lemma take_expired_due now mono s :
  t_inv s -> (forall u, u ∈ queued s -> in_reach u) ->
  expired_list (take_expired (set_clocks now mono s)) = filter (is_due now mono) (queued s).
Proof.
  intros [Hs He _] Hr. unfold queued. rewrite He, app_nil_r, filter_app. cbn.
  destruct (to_abs _ _ Hs) as [Ha1 Ha2], (to_rel _ _ Hs) as [Hr1 Hr2]. rewrite Forall_forall in Ha2, Hr2. f_equal.
  - apply (split_expired_filter abs_le); [done | |].
    + intros x Hx%Ha2. unfold abs_due, is_due, until. rewrite Z.leb_le. destruct (0 <? tu_when x) eqn:E; lia.
    + intros x y Hx%Ha2 Hy%Ha2. unfold abs_le, is_due, until. destruct (0 <? tu_when x) eqn:E, (0 <? tu_when y) eqn:E'; lia.
  - apply (split_expired_filter rel_le); [done | |].
    + intros x Hx. assert (Hb : in_reach x) by (apply Hr; unfold queued; rewrite !elem_of_app; auto). unfold in_reach in Hb.
      apply Hr2 in Hx. unfold rel_due, is_due, until. rewrite Z.leb_le, i64_small by lia. destruct (0 <? tu_when x) eqn:E; lia.
    + intros x y Hx%Hr2 Hy%Hr2. unfold rel_le, is_due, until. destruct (0 <? tu_when x) eqn:E, (0 <? tu_when y) eqn:E'; lia.
Qed.

Lemma occurs_pos id l : (1 <= occurs id l)%nat <-> id ∈ l.
Proof. unfold occurs. rewrite list_elem_of_In. rewrite (count_occ_In Z.eq_dec). lia. Qed.

Lemma has_left_event id tr : id ∈ has_left tr -> id ∈ fired tr \/ Removed id ∈ tr.
Proof.
  unfold has_left, fired. rewrite !list_elem_of_omap. intros (e & He & E). destruct e; cbn in E; try done; injection E as ->.
  - left. by eexists (Fired id).
  - by right.
Qed.

(** What happens to the timeouts queued before a step that calls [f]. *)
Lemma evolves_account f s s' u :
  t_ok None s -> t_ok None s' -> (forall id, (ledger id s <= 1)%nat) -> expired_list s' = [] -> evolves f s s' -> u ∈ queued s ->
  exists new, ts_trace s' = ts_trace s ++ new /\ fired new = f /\
    (occurs (tu_id u) (has_left new) + occurs (tu_id u) (map tu_id (queued s')) = 1)%nat /\
    (tu_id u ∈ map tu_id (queued s') -> u ∈ queued s' /\ u ∉ expired_list s).
Proof.
  intros Hs Hs' Hl He Hv Hu. destruct (ev_trace _ _ _ Hv) as (new & Et & Ef). exists new. split_and!; [done | done | |].
  - pose proof (to_fresh _ _ Hs u Hu) as Hlt. destruct (ev_ledger _ _ _ Hv (tu_id u)) as [H1 H2]. pose proof (Hl (tu_id u)) as H3.
    rewrite decide_False in H2 by lia. unfold ledger in *. rewrite Et in *. unfold has_left in *. rewrite omap_app in *.
    rewrite !occurs_app in *. assert (1 <= occurs (tu_id u) (map tu_id (queued s)))%nat by (by apply occurs_pos, list_elem_of_fmap_2). lia.
  - intros (v & Ei & Hv')%list_elem_of_fmap. pose proof (to_fresh _ _ Hs u Hu) as Hlt.
    assert (Hin : v ∈ abs_timeout_list s ++ rel_timeout_list s).
    { unfold queued in Hv'. rewrite He, app_nil_r, elem_of_app in Hv'. rewrite elem_of_app.
      destruct Hv' as [Hv' | Hv']; [destruct (ev_abs _ _ _ Hv v Hv') | destruct (ev_rel _ _ _ Hv v Hv')]; auto; lia. }
    assert (u = v) as ->.
    { apply (user_unique (queued s)); [apply Hs | done | | done]. unfold queued. rewrite (assoc_L app), elem_of_app. by left. }
    split; [done |]. intros Hx. pose proof (to_nodup _ _ Hs) as Hn. unfold queued in Hn. rewrite (assoc_L app), map_app in Hn.
    apply NoDup_app in Hn as (_ & Hd & _). apply (Hd (tu_id v)); by apply list_elem_of_fmap_2.
Qed.

(** The nearest of the times counted so far and of a group of which [d] is the nearest. *)
Lemma nearer_least l m r d :
  least l r -> (forall x, x ∈ l -> 0 <= x) -> Z.max 0 d ∈ m -> (forall y, y ∈ m -> Z.max 0 d <= y) -> least (l ++ m) (nearer r d).
Proof.
  intros Hl Hp Hd Hm. right. assert (E : nearer r d = if r =? -1 then Z.max 0 d else Z.min r (Z.max 0 d)).
  { unfold nearer. destruct (d <? 0) eqn:E1, (r =? -1) eqn:E2; cbn [orb]; try lia;
      [destruct (0 <? r) eqn:E3 | destruct (d <? r) eqn:E3]; lia. }
  rewrite E. destruct Hl as [[-> ->] | [Hin Hle]]; [cbn; by split |].
  pose proof (Hp r Hin). destruct (r =? -1) eqn:E2; [lia |]. split.
  - rewrite elem_of_app. destruct (Z.min_spec r (Z.max 0 d)) as [[_ ->] | [_ ->]]; auto.
  - intros x [Hx%Hle | Hx%Hm]%elem_of_app; lia.
Qed.

Lemma least_nil l r : least l r -> least (l ++ []) r.
Proof. by rewrite app_nil_r. Qed.

Lemma sorted_head_least {R : timeout_user -> timeout_user -> Prop} f u l :
  StronglySorted R (u :: l) -> (forall x y, R x y -> x ∈ u :: l -> y ∈ u :: l -> f x <= f y) ->
  Z.max 0 (f u) ∈ map (fun x => Z.max 0 (f x)) (u :: l) /\ forall y, y ∈ map (fun x => Z.max 0 (f x)) (u :: l) -> Z.max 0 (f u) <= y.
Proof.
  intros [_ Hl]%StronglySorted_inv Hf. split; [constructor |]. intros y (x & -> & Hx)%list_elem_of_fmap.
  apply elem_of_cons in Hx as [-> | Hx]; [lia |]. rewrite Forall_forall in Hl.
  pose proof (Hf u x (Hl x Hx) ltac:(constructor) ltac:(by constructor)). lia.
Qed.

Lemma next_due_least s l r :
  t_ok None s -> expired_list s = [] -> 0 <= current_time s < 2 ^ 63 -> 0 <= monotonic_time s < 2 ^ 63 ->
  (forall u, u ∈ queued s -> in_reach u) -> least l r -> (forall x, x ∈ l -> 0 <= x) ->
  least (l ++ map (fun u => Z.max 0 (until (current_time s) (monotonic_time s) u)) (queued s)) (next_due s r).
Proof.
  intros Hs He Hc Hm Hr Hl Hp. unfold queued in *. rewrite He, app_nil_r in *. rewrite map_app, (assoc_L app).
  set (f := until (current_time s) (monotonic_time s)).
  destruct (to_abs _ _ Hs) as [Ha1 Ha2], (to_rel _ _ Hs) as [Hr1 Hr2]. unfold next_due.
  assert (H1 : least (l ++ map (fun u => Z.max 0 (f u)) (abs_timeout_list s))
    (match abs_timeout_list s with u :: _ => nearer r (i64 (tu_when u - current_time s)) | [] => r end)).
  { destruct (abs_timeout_list s) as [| u la] eqn:Ea; [by apply least_nil |]. rewrite Forall_forall in Ha2.
    assert (Hu : u ∈ u :: la) by constructor. pose proof (Hr u ltac:(rewrite elem_of_app; auto)) as Hb. unfold in_reach in Hb.
    pose proof (Ha2 u Hu). rewrite i64_small by lia.
    assert (Ef : tu_when u - current_time s = f u) by (unfold f, until; destruct (0 <? tu_when u) eqn:E; lia). rewrite Ef.
    destruct (sorted_head_least f u la Ha1) as [G1 G2]; [| by apply nearer_least].
    intros x y Hxy Hx%Ha2 Hy%Ha2. unfold abs_le in Hxy. unfold f, until. destruct (0 <? tu_when x) eqn:?, (0 <? tu_when y) eqn:?; lia. }
  revert H1. generalize (match abs_timeout_list s with u :: _ => nearer r (i64 (tu_when u - current_time s)) | [] => r end) as r1. intros r1 H1.
  destruct (rel_timeout_list s) as [| u lr] eqn:Er; [by apply least_nil |]. rewrite Forall_forall in Hr2.
  assert (Hu : u ∈ u :: lr) by constructor. pose proof (Hr u ltac:(rewrite elem_of_app; auto)) as Hb. unfold in_reach in Hb.
  pose proof (Hr2 u Hu). rewrite (i64_small (- tu_when u)), i64_small by lia.
  assert (Ef : - tu_when u - monotonic_time s = f u) by (unfold f, until; destruct (0 <? tu_when u) eqn:E; lia). rewrite Ef.
  destruct (sorted_head_least f u lr Hr1) as [G1 G2].
  { intros x y Hxy Hx%Hr2 Hy%Hr2. unfold rel_le in Hxy. unfold f, until. destruct (0 <? tu_when x) eqn:?, (0 <? tu_when y) eqn:?; lia. }
  apply nearer_least; try done. intros x [Hx | (y & -> & _)%list_elem_of_fmap]%elem_of_app; [auto | lia].
Qed.

Lemma to_milliseconds_ceil r :
  0 <= r -> r + 9999 < 2 ^ 63 ->
  0 <= to_milliseconds r <= INT_MAX /\
  ((to_milliseconds r - 1) * 10000 < r <= to_milliseconds r * 10000 \/ to_milliseconds r = INT_MAX /\ INT_MAX * 10000 < r).
Proof.
  intros H0 H1. unfold to_milliseconds. destruct (r =? -1) eqn:E; [lia |]. rewrite i64_small by lia.
  rewrite Z.quot_div_nonneg by lia. unfold INT_MAX. cbn zeta.
  pose proof (Z.div_mod (r + 9999) 10000 ltac:(lia)). pose proof (Z.mod_pos_bound (r + 9999) 10000 ltac:(lia)).
  destruct (_ <? _) eqn:E'; lia.
Qed.

Lemma least_bound l r b : least l r -> (forall x, x ∈ l -> 0 <= x <= b) -> r = -1 \/ 0 <= r <= b.
Proof. intros [[_ ->] | [Hin _]] Hb; [by left | right; auto]. Qed.

Lemma filter_one {A} (P : A -> Prop) `{!forall x, Decision (P x)} l u :
  NoDup l -> u ∈ l -> (forall v, v ∈ l -> P v <-> v = u) -> filter P l = [u].
Proof.
  intros Hn Hu Hp. assert (Hs : filter P l ≡ₚ [u]).
  { apply NoDup_Permutation; [by apply NoDup_filter | apply NoDup_singleton |]. intros v.
    rewrite list_elem_of_filter, list_elem_of_singleton. split; [intros [? ?]; by apply Hp | intros ->; split; [by apply Hp | done]]. }
  by apply Permutation_singleton_r in Hs.
Qed.

(** A timeout of a timer, found by its address or by its timer. *)
Lemma timeout_of_timer s t x id :
  t_ok None s -> timers s !! t = Some x -> tm_timeout x = Some id ->
  exists u, filter (fun v => tu_callback v = Cb_timer t \/ tu_id v = id) (queued s) = [u] /\ tu_id u = id /\ tu_callback u = Cb_timer t.
Proof.
  intros Hs Hx Ht. destruct (to_timer _ _ Hs t x id Hx ltac:(done) Ht) as (u & Hu & Ei & Hc). exists u. split_and!; [| done | done].
  pose proof (to_nodup _ _ Hs) as Hn. apply filter_one; [by apply NoDup_fmap_1 in Hn | done |]. intros v Hv. split; [| intros ->; auto].
  intros [Hcv | Eiv]; (apply (user_unique (queued s)); [done | done | done |]); [| congruence].
  destruct (to_user _ _ Hs v t Hv Hcv) as (_ & y & Hy & Hty). congruence.
Qed.

(** ** The signaled flag

    The timers of [s'] that existed in [s] are of the same kind, and an auto-reset one whose
    flag was set has it set. *)
Definition sticky (s s' : tstate) : Prop :=
  ts_next s <= ts_next s' /\
  forall t y, t < ts_next s -> timers s' !! t = Some y ->
    exists x, timers s !! t = Some x /\ tm_manual y = tm_manual x /\ (tm_manual x = false -> tm_signaled x = true -> tm_signaled y = true).

Lemma sticky_trans s1 s2 s3 : sticky s1 s2 -> sticky s2 s3 -> sticky s1 s3.
Proof.
  intros [N1 H1] [N2 H2]. split; [lia |]. intros t z Ht Hz. destruct (H2 t z ltac:(lia) Hz) as (y & Hy & M2 & S2).
  destruct (H1 t y Ht Hy) as (x & Hx & M1 & S1). exists x. split_and!; [done | congruence |]. intros. apply S2; [congruence | auto].
Qed.

Lemma sticky_same s s' : timers s' = timers s -> ts_next s <= ts_next s' -> sticky s s'.
Proof. intros E En. split; [done |]. rewrite E. intros t y _ Hy. exists y. auto. Qed.

Lemma sticky_with t f s :
  (forall x, timers s !! t = Some x -> tm_manual (f x) = tm_manual x /\ (tm_manual x = false -> tm_signaled x = true -> tm_signaled (f x) = true)) ->
  sticky s (with_timer t f s).
Proof.
  intros Hf. split; [done |]. intros v y _. destruct (decide (v = t)) as [-> | Ne].
  - rewrite with_timer_lookup. intros (x & Hx & ->)%fmap_Some. exists x. destruct (Hf x Hx). auto.
  - rewrite with_timer_other by done. intros Hy. exists y. auto.
Qed.

Lemma sticky_remove id s : sticky s (remove_timeout_user id s).
Proof. unfold remove_timeout_user. by destruct (existsb _ _); apply sticky_same. Qed.

Lemma sticky_add alloc_ok when cb s : sticky s (add_timeout_user alloc_ok when cb s).2.
Proof.
  destruct (add_cases alloc_ok when cb s) as [-> | (u & s' & -> & _ & _ & (_ & En & Et & _))]; [by apply sticky_same |].
  apply sticky_same; [done | cbn; lia].
Qed.

Ltac sticky_last l := eapply sticky_trans; [| l].
Ltac sticky_set := apply sticky_with; intros; cbn; auto.
Ltac sticky_via m := apply (sticky_trans _ m).

Lemma sticky_cancel t s : sticky s (cancel_timer t s).2.
Proof.
  unfold cancel_timer. destruct (timers s !! t) as [x |]; [| by apply sticky_same]. cbn [snd].
  set (s1 := match tm_timeout x with Some id => _ | None => s end). sticky_via s1.
  - unfold s1. destruct (tm_timeout x); [| by apply sticky_same]. sticky_last ltac:(sticky_set). apply sticky_remove.
  - destruct (tm_thread x) as [th |]; [| by apply sticky_same]. sticky_via (t_log (Apc_cancel t th) s1); [by apply sticky_same | sticky_set].
Qed.

Section Sticky.
Context (alloc_ok apc_ok : nat -> bool) (user_shared_data : bool) (others : Z -> nat -> list request).

Lemma sticky_arm when t s :
  sticky s (with_timer t (tm_set_timeout (add_timeout_user alloc_ok when (Cb_timer t) s).1) (add_timeout_user alloc_ok when (Cb_timer t) s).2).
Proof. sticky_last ltac:(sticky_set). apply sticky_add. Qed.

Lemma sticky_set_timer t expire period callback arg current s :
  sticky s (set_timer alloc_ok t expire period callback arg current s).2.
Proof.
  unfold set_timer. sticky_via (cancel_timer t s).2; [apply sticky_cancel |]. generalize (cancel_timer t s) as r. intros r.
  destruct (timers r.2 !! t) as [x |] eqn:Hx; [| by apply sticky_same]. cbn [snd].
  set (s1 := if tm_manual x then with_timer t _ _ else _).
  sticky_via s1; [unfold s1; destruct (tm_manual x) eqn:E; [| by apply sticky_same]; apply sticky_with; intros y Hy; rewrite Hx in Hy; injection Hy as <-; split; [done | congruence] |].
  set (s2 := with_timer t (tm_set_call _ _ _ _) s1). sticky_via s2; [sticky_set |].
  set (s3 := if negb (callback =? 0) then _ else _). sticky_via s3; [unfold s3; destruct (negb _); [sticky_set | by apply sticky_same] |].
  clearbody s3. destruct (negb _); [apply sticky_arm | by apply sticky_same].
Qed.

Lemma sticky_request r s : sticky s (run_request alloc_ok r s).
Proof.
  destruct r; cbn [run_request]; try (destruct (has_timer s t); [| by apply sticky_same]).
  - split; [cbn; lia |]. intros t y Ht. cbn. rewrite lookup_insert_ne by lia. intros Hy. exists y. auto.
  - apply sticky_set_timer.
  - apply sticky_cancel.
  - unfold timer_destroy. destruct (timers s !! t) as [x |]; [| by apply sticky_same].
    set (s1 := match tm_timeout x with Some id => _ | None => s end).
    sticky_via s1; [unfold s1; destruct (tm_timeout x); [apply sticky_remove | by apply sticky_same] |].
    split; [done |]. cbn. intros v y _ [_ Hy]%lookup_delete_Some. exists y. auto.
  - apply sticky_with. intros x _. destruct x as [[] ? ? ? ? ? ? ? ?]; cbn; auto.
  - apply sticky_add.
  - destruct (other_user s id); [apply sticky_remove | by apply sticky_same].
Qed.

Lemma sticky_requests rs s : sticky s (run_requests alloc_ok rs s).
Proof. revert s. induction rs as [| r rs IH]; intros s; cbn; [by apply sticky_same |]. eapply sticky_trans; [apply (sticky_request r) | apply IH]. Qed.

Lemma sticky_callback t s : sticky s (timer_callback alloc_ok apc_ok t s).
Proof.
  unfold timer_callback. destruct (timers s !! t) as [x |]; [| by apply sticky_same].
  sticky_via (callback_apc apc_ok t x s).
  { unfold callback_apc. destruct (tm_thread x); [| by apply sticky_same]. destruct (_ =? 0); [by apply sticky_same |].
    destruct (apc_ok _); [by apply sticky_same |]. sticky_last ltac:(sticky_set). by apply sticky_same. }
  generalize (callback_apc apc_ok t x s) as s1. intros s1. sticky_last ltac:(sticky_set). destruct (negb _); [| sticky_set].
  sticky_last ltac:(apply sticky_arm). sticky_set.
Qed.

Lemma sticky_expired fuel s : sticky s (call_expired alloc_ok apc_ok others fuel s).
Proof.
  revert s. induction fuel as [| fuel IH]; intros s; cbn [call_expired]; [by apply sticky_same |].
  destruct (expired_list s) as [| u rest]; [by apply sticky_same |]. sticky_last ltac:(apply IH).
  set (s1 := t_log _ _). sticky_via s1; [by apply sticky_same |]. unfold call_back. destruct (tu_callback u); [apply sticky_callback |].
  sticky_last ltac:(apply sticky_requests). by apply sticky_same.
Qed.

Lemma sticky_steps sts s : sticky s (run_steps alloc_ok apc_ok user_shared_data others sts s).
Proof.
  revert s. induction sts as [| st sts IH]; intros s; cbn [run_steps]; [by apply sticky_same |].
  sticky_last ltac:(apply IH). destruct st; cbn [run_step]; [apply sticky_request |].
  sticky_via (set_clocks now mono s); [by apply sticky_same |]. unfold get_next_timeout.
  generalize (set_clocks now mono s) as s0. intros s0.
  assert (H : sticky s0 (call_expired alloc_ok apc_ok others (length (expired_list (take_expired s0))) (take_expired s0))).
  { sticky_via (take_expired s0); [by apply sticky_same | apply sticky_expired]. }
  destruct (abs_timeout_list s0), (rel_timeout_list s0); cbn [snd]; [by apply sticky_same | exact H ..].
Qed.

End Sticky.

Section Theorems.
Context (alloc_ok apc_ok : nat -> bool) (user_shared_data : bool) (others : Z -> nat -> list request).

#[local] Abbreviation run sts := (run_steps alloc_ok apc_ok user_shared_data others sts t_initial).
#[local] Abbreviation next_timeout := (get_next_timeout alloc_ok apc_ok user_shared_data others).

Lemma run_inv sts : t_inv (run sts).
Proof. apply run_steps_inv, t_initial_inv. Qed.

(** C23: timers and timeouts agree.  Whatever clients ask, memory or not, in whatever order
    callbacks set, cancel and destroy timers: no timeout is removed that is not in a
    list, no assertion fails, both lists are sorted, a timer that points to a timeout is
    pointed back at by this one queued timeout, the timer of a queued timeout exists and
    points to it, and a timeout that was called or removed is called or removed no second time. *)
Theorem timers_agree sts :
  let s := run sts in
  ts_fault s = false /\ StronglySorted abs_le (abs_timeout_list s) /\ StronglySorted rel_le (rel_timeout_list s) /\
  (forall t x id, timers s !! t = Some x -> tm_timeout x = Some id ->
     exists u, filter (fun v => tu_callback v = Cb_timer t \/ tu_id v = id) (queued s) = [u] /\
       tu_id u = id /\ tu_callback u = Cb_timer t) /\
  (forall u t, u ∈ queued s -> tu_callback u = Cb_timer t -> exists x, timers s !! t = Some x /\ tm_timeout x = Some (tu_id u)) /\
  NoDup (has_left (ts_trace s) ++ map tu_id (queued s)).
Proof.
  intros s. destruct (run_inv sts) as [Hs He Hl]. fold s in Hs, He, Hl. split_and!.
  - apply Hs.
  - apply Hs.
  - apply Hs.
  - intros t x id. by apply timeout_of_timer.
  - intros u t Hu Hc. by apply (to_user _ _ Hs u t).
  - apply NoDup_ListNoDup, (NoDup_count_occ Z.eq_dec). intros id. apply Hl.
Qed.

Lemma sorted_filter {A} (R : A -> A -> Prop) (P : A -> Prop) `{forall x, Decision (P x)} l : StronglySorted R l -> StronglySorted R (filter P l).
Proof.
  induction 1 as [| x l Hs IH Hf]; [constructor |]. rewrite filter_cons. destruct (decide (P x)); [| done]. constructor; [done |].
  apply Forall_forall. intros y [_ Hy]%list_elem_of_filter. by apply (proj1 (Forall_forall _ _) Hf).
Qed.

(** C24: each round of the main loop calls the timeouts that are due, as long as the times of
    queued ones lie strictly inside the signed 64-bit range.  Those called were queued and due;
    the absolute ones are called before the relative ones, and each kind in the order of
    expiration.  Every timeout that was due is afterwards in no list, and was called, or
    removed by a callback before its turn, exactly once; one that was not due is not called,
    and stays queued unless a callback removed it. *)
Theorem due_timeouts_fire sts now mono :
  let s := run sts in
  let s' := (next_timeout (set_clocks now mono s)).2 in
  (forall u, u ∈ queued s -> in_reach u) ->
  exists new, ts_trace s' = ts_trace s ++ new /\
    fired new `sublist_of` map tu_id (filter (is_due now mono) (abs_timeout_list s)) ++ map tu_id (filter (is_due now mono) (rel_timeout_list s)) /\
    StronglySorted abs_le (filter (is_due now mono) (abs_timeout_list s)) /\ StronglySorted rel_le (filter (is_due now mono) (rel_timeout_list s)) /\
    forall u, u ∈ queued s ->
      (is_due now mono u -> (u ∉ queued s') /\ occurs (tu_id u) (has_left new) = 1%nat) /\
      (~ is_due now mono u -> (tu_id u ∉ fired new) /\ (u ∈ queued s' \/ Removed (tu_id u) ∈ new)).
Proof.
  intros s s' Hr. pose proof (run_inv sts) as Hi. fold s in Hi. pose proof (take_expired_due now mono s Hi Hr) as Hd.
  pose proof (clocks_inv now mono s Hi) as [Hs He Hl].
  destruct (get_next_timeout_ok alloc_ok apc_ok user_shared_data others _ Hs He) as (s1 & f & E & H1 & H2 & H3 & H4).
  assert (s' = s1) as -> by (unfold s'; by rewrite E). clear E. rewrite Hd in H3.
  pose proof (take_expired_ok _ Hs He) as Ht. pose proof (take_expired_queued _ He) as Hq.
  change (queued (set_clocks now mono s)) with (queued s) in Hq.
  assert (Hl' : forall id, (ledger id (take_expired (set_clocks now mono s)) <= 1)%nat).
  { intros id. rewrite (ledger_perm id (has_left (ts_trace s)) (map tu_id (queued s))); [| done | by rewrite Hq].
    rewrite <- (ledger_perm id _ _ s); [apply Hi | done | done]. }
  destruct (ev_trace _ _ _ H4) as (new & Et & Ef). exists new. split_and!; [done | | apply sorted_filter, Hi | apply sorted_filter, Hi |].
  { rewrite Ef. unfold queued in H3. rewrite (ti_expired _ Hi) in H3. cbn in H3. by rewrite ?app_nil_r, filter_app, fmap_app in H3. }
  intros u Hu. destruct (evolves_account f _ _ u Ht H1 Hl' H2 H4) as (new' & Et' & _ & Hc & Hin); [by rewrite Hq |].
  assert (new' = new) as -> by (rewrite Et in Et'; by apply app_inv_head in Et').
  assert (Hx : u ∈ expired_list (take_expired (set_clocks now mono s)) <-> is_due now mono u).
  { rewrite Hd, list_elem_of_filter. tauto. }
  split.
  - intros Hdu. assert (Hno : tu_id u ∉ map tu_id (queued s1)) by (intros [_ Hn]%Hin; by apply Hn, Hx). split.
    + intros Hu'. apply Hno. by apply list_elem_of_fmap_2.
    + rewrite <- occurs_pos in Hno. lia.
  - intros Hdu. assert (Hnf : tu_id u ∉ fired new).
    { rewrite Ef. intros Hf. pose proof (elem_of_sublist _ _ _ Hf H3) as (v & Ei & Hv)%list_elem_of_fmap.
      apply list_elem_of_filter in Hv as [Hv1 Hv2]. apply Hdu.
      by assert (u = v) as -> by (apply (user_unique (queued s)); [apply Hi | done | done | done]). }
    split; [done |]. destruct (decide (tu_id u ∈ map tu_id (queued s1))) as [[Hq1 _]%Hin | Hq1]; [by left | right].
    rewrite <- occurs_pos in Hq1. assert (Hleft : tu_id u ∈ has_left new) by (apply occurs_pos; lia).
    by apply has_left_event in Hleft as [? | ?].
Qed.

(** The time the main loop may sleep.  [get_next_timeout] reports the least time until
    a timeout is due, or 16 ms when the shared time page has to be kept up to date, and
    no time when there is neither; in milliseconds this is rounded up, so that the loop
    does not wake before the timeout, and capped to an [int]. *)
Theorem next_timeout_exact sts now mono :
  let r := next_timeout (set_clocks now mono (run sts)) in
  let s' := r.2 in
  9999 <= now < 2 ^ 63 -> 9999 <= mono < 2 ^ 63 -> (forall u, u ∈ queued s' -> in_reach u) ->
  least ((if user_shared_data then [user_shared_data_timeout] else []) ++
         map (fun u => Z.max 0 (until now mono u)) (queued s')) r.1.2 /\
  (r.1.2 = -1 -> r.1.1 = -1) /\
  (r.1.2 <> -1 -> 0 <= r.1.1 <= INT_MAX /\
     ((r.1.1 - 1) * 10000 < r.1.2 <= r.1.1 * 10000 \/ r.1.1 = INT_MAX /\ INT_MAX * 10000 < r.1.2)).
Proof.
  intros r s' Hnow Hmono Hr. pose proof (clocks_inv now mono _ (run_inv sts)) as [Hs He Hl].
  destruct (get_next_timeout_ok alloc_ok apc_ok user_shared_data others _ Hs He) as (s1 & f & E & H1 & H2 & _ & H4).
  unfold s', r in *. rewrite E in *. cbn [fst snd] in *. clear r s' E. destruct (ev_clock _ _ _ H4) as [Ec Em]. cbn in Ec, Em.
  set (base := if user_shared_data then [user_shared_data_timeout] else []).
  assert (Hb : least base (if user_shared_data then user_shared_data_timeout else -1)).
  { unfold base. destruct user_shared_data; [right | by left]. split; [constructor |]. intros x ->%list_elem_of_singleton. lia. }
  assert (Hp : forall x, x ∈ base -> 0 <= x <= 2 ^ 63 - 10000).
  { unfold base. destruct user_shared_data; [| set_solver]. intros x ->%list_elem_of_singleton. unfold user_shared_data_timeout. lia. }
  assert (Hle : least (base ++ map (fun u => Z.max 0 (until now mono u)) (queued s1)) (next_due s1 (if user_shared_data then user_shared_data_timeout else -1))).
  { rewrite <- Ec, <- Em. apply next_due_least; try done; try lia. intros x Hx%Hp. lia. }
  split; [done |]. revert Hle. generalize (next_due s1 (if user_shared_data then user_shared_data_timeout else -1)) as ret. intros ret Hle.
  split; [by intros -> |]. intros Hne. apply to_milliseconds_ceil; destruct (least_bound _ _ (2 ^ 63 - 10000) Hle) as [? | ?]; try lia.
  all: intros x [Hx%Hp | (u & -> & Hu)%list_elem_of_fmap]%elem_of_app; [done |]; apply Hr in Hu; unfold in_reach in Hu; unfold until;
    destruct (0 <? tu_when u) eqn:Eu; lia.
Qed.

(** Once an auto-reset timer has expired, the state reported for it stays
    signaled.  The flag that [get_timer_info] reports, and that the next [set_timer] or
    [cancel_timer] returns, is reset for manual-reset timers alone: it stays set for an
    auto-reset one whatever waits consume the expiration and however often the timer is set anew. *)
Theorem auto_timer_stays_signaled sts sts' t x when signaled :
  let s := run sts in
  let s' := run_steps alloc_ok apc_ok user_shared_data others sts' s in
  timers s !! t = Some x -> tm_manual x = false -> tm_signaled x = true ->
  get_timer_info t s' = Some (when, signaled) -> signaled = true.
Proof.
  intros s s' Hx Hm Hsig. unfold get_timer_info. destruct (timers s' !! t) as [y |] eqn:Hy; [| done]. cbn. intros [= _ <-].
  destruct (sticky_steps alloc_ok apc_ok user_shared_data others sts' s) as [_ H].
  destruct (H t y) as (x' & Hx' & _ & Hs); [by apply (to_fresh_timer _ _ (ti_ok _ (run_inv sts)) t x) | done |]. 
  apply Hs; congruence.
Qed.

End Theorems.

Lemma in_reach_all l :
  forallb (fun u => (- 2 ^ 63 <? tu_when u) && (tu_when u <? 2 ^ 63)) l = true -> forall u, u ∈ l -> in_reach u.
Proof. rewrite forallb_forall. intros H u Hu%list_elem_of_In. apply H in Hu. unfold in_reach. lia. Qed.

(** ** An example

    A periodic auto-reset timer, a timeout whose callback cancels it, and a later one. *)
Definition demo_others (k : Z) (n : nat) : list request := if k =? 7 then [R_cancel 1] else [].

Definition demo_steps : list t_step :=
  [ T_request (R_create false); T_request (R_set 1 (-50000) 10 5 6 77); T_request (R_add (-20000) 7); T_request (R_add 900000 8) ].

Definition demo_state : tstate := run_steps (fun _ => true) (fun _ => true) true demo_others demo_steps t_initial.

Lemma due_timeouts_fire_witness :
  let s' := (get_next_timeout (fun _ => true) (fun _ => true) true demo_others (set_clocks 100000 60001 demo_state)).2 in
  ts_trace demo_state = [] /\ ts_trace s' = [Fired 3; Removed 2; Apc_cancel 1 77] /\
  exists new, ts_trace s' = ts_trace demo_state ++ new /\
    fired new `sublist_of` map tu_id (filter (is_due 100000 60001) (queued demo_state)).
Proof.
  split; [by vm_compute | split; [by vm_compute |]].
  destruct (due_timeouts_fire (fun _ => true) (fun _ => true) true demo_others demo_steps 100000 60001) as (new & H1 & H2 & _).
  - apply in_reach_all. by vm_compute.
  - exists new. split; [exact H1 | exact H2].
Defined.

Lemma next_timeout_exact_witness :
  let r := get_next_timeout (fun _ => true) (fun _ => true) true demo_others (set_clocks 800001 20002 demo_state) in
  r.1.1 = 10 /\ least (user_shared_data_timeout :: map (fun u => Z.max 0 (until 800001 20002 u)) (queued r.2)) r.1.2.
Proof.
  split; [by vm_compute |].
  apply (next_timeout_exact (fun _ => true) (fun _ => true) true demo_others demo_steps 800001 20002); [lia | lia |].
  apply in_reach_all. by vm_compute.
Defined.

(** The timer expires, a wait consumes the expiration, the timer is set far in the future. *)
Definition expire_steps : list t_step :=
  [ T_request (R_create false); T_request (R_set 1 (-50000) 0 0 0 77); T_loop 100000 60001 ].

Definition rearm_steps : list t_step := [ T_request (R_consume 1); T_request (R_set 1 (-99990000) 0 0 0 77) ].

Lemma auto_timer_stays_signaled_witness :
  let s := run_steps (fun _ => true) (fun _ => true) true demo_others expire_steps t_initial in
  let s' := run_steps (fun _ => true) (fun _ => true) true demo_others rearm_steps s in
  (tm_sync <$> timers s' !! 1) = Some false /\ get_timer_info 1 s' = Some (-100050001, true) /\ true = true.
Proof.
  split; [by vm_compute | split; [by vm_compute |]].
  apply (auto_timer_stays_signaled (fun _ => true) (fun _ => true) true demo_others expire_steps rearm_steps 1
    (mkTimer false true true 0 (-50001) None None 0 0) (-100050001)); by vm_compute.
Defined.
