(* ===== verification/Fallible.v ===== *)
(** * Computations that may fault

    A computation in a state [S] that gives a result or faults: [None] stands for reading
    memory out of bounds or after it was freed, following a null pointer, a failed
    assertion, or running out of the fuel a loop was given. *)

From stdpp Require Import base option.

Definition F (S A : Type) : Type := S -> option (A * S).

Definition fret {S A} (a : A) : F S A := fun s => Some (a, s).
Definition fbind {S A B} (m : F S A) (k : A -> F S B) : F S B := fun s => match m s with Some (a, s') => k a s' | None => None end.

(** A value that may not be there, such as one read from memory. *)
Definition fread {S A} (o : option A) : F S A := fun s => match o with Some a => Some (a, s) | None => None end.
Definition fget {S} : F S S := fun s => Some (s, s).
Definition fmodify {S} (f : S -> S) : F S unit := fun s => Some (tt, f s).

Declare Scope fallible_scope.
Notation "'do' x '<-' m ';' k" := (fbind m (fun x => k)) (at level 60, x name, m at level 100, k at level 60, right associativity) : fallible_scope.

(** An assertion. *)
Definition fassert {S} (b : bool) : F S unit := fread (if b then Some tt else None).

(** ** Taking runs apart *)

Lemma fbind_some {S A B} (m : F S A) (k : A -> F S B) s r : fbind m k s = Some r -> exists a s', m s = Some (a, s') /\ k a s' = Some r.
Proof. unfold fbind. destruct (m s) as [[a s'] |]; [eauto | done]. Qed.

Lemma fread_some {S A} (o : option A) (s : S) a s' : fread o s = Some (a, s') -> o = Some a /\ s' = s.
Proof. unfold fread. destruct o; [by intros [= -> ->] | done]. Qed.

Lemma fassert_some {S} b (s : S) u s' : fassert b s = Some (u, s') -> b = true /\ s' = s.
Proof. unfold fassert. intros [H ->]%fread_some. by destruct b. Qed.

(** Putting runs together. *)
Lemma fbind_eq {S A B} (m : F S A) (k : A -> F S B) s a s' : m s = Some (a, s') -> fbind m k s = k a s'.
Proof. unfold fbind. by intros ->. Qed.

Lemma fread_eq {S A} (o : option A) (s : S) a : o = Some a -> fread o s = Some (a, s).
Proof. by intros ->. Qed.

(** The value [a] of the first part of a successful run, and how it came about. *)
Tactic Notation "fstep" hyp(H) "as" ident(a) ident(E) :=
  let s := fresh "s" in apply fbind_some in H as (a & s & E & H); try (apply fread_some in E as [E ->]).

Ltac fend H := unfold fret in H; (discriminate H || (injection H; clear H; intros; subst)).

(** ** Runs that end well *)

(** The computation does not fault, and ends as [Q] says. *)
Definition runs {S A} (m : F S A) (s : S) (Q : A -> S -> Prop) : Prop := exists a s', m s = Some (a, s') /\ Q a s'.

Lemma runs_bind {S A B} (m : F S A) (k : A -> F S B) s Q : runs m s (fun a s' => runs (k a) s' Q) -> runs (fbind m k) s Q.
Proof. intros (a & s' & Hm & Hk). unfold runs. by rewrite (fbind_eq _ _ _ _ _ Hm). Qed.

Lemma runs_ret {S A} (a : A) (s : S) (Q : A -> S -> Prop) : Q a s -> runs (fret a) s Q.
Proof. by exists a, s. Qed.

Lemma runs_read {S A} (o : option A) a (s : S) (Q : A -> S -> Prop) : o = Some a -> Q a s -> runs (fread o) s Q.
Proof. intros -> H. by exists a, s. Qed.

Lemma runs_assert {S} b (s : S) (Q : unit -> S -> Prop) : b = true -> Q tt s -> runs (fassert b) s Q.
Proof. intros -> H. by exists tt, s. Qed.

Lemma runs_get {S} (s : S) (Q : S -> S -> Prop) : Q s s -> runs fget s Q.
Proof. by exists s, s. Qed.

Lemma runs_modify {S} (f : S -> S) s (Q : unit -> S -> Prop) : Q tt (f s) -> runs (fmodify f) s Q.
Proof. by exists tt, (f s). Qed.

Lemma runs_mono {S A} (m : F S A) s (Q Q' : A -> S -> Prop) : runs m s Q -> (forall a s', Q a s' -> Q' a s') -> runs m s Q'.
Proof. intros (a & s' & Hm & H) HQ. exists a, s'. auto. Qed.

(** Bring the first part of a computation to the front, with what it promises. *)
Ltac rbind := apply runs_bind.
Tactic Notation "ruse" uconstr(H) := eapply runs_mono; [eapply H |].

(** ** What runs keep *)

(** Every run takes the state along [Rl]. *)
Definition along {S A} (Rl : S -> S -> Prop) (m : F S A) : Prop := forall s a s', m s = Some (a, s') -> Rl s s'.

Section Along.
Context {S : Type} (Rl : S -> S -> Prop) `{!PreOrder Rl}.

Lemma along_bind {A B} (m : F S A) (k : A -> F S B) : along Rl m -> (forall a, along Rl (k a)) -> along Rl (fbind m k).
Proof. intros Hm Hk s b s' (a & s1 & H1 & H2)%fbind_some. etransitivity; [by eapply Hm | by eapply Hk]. Qed.

Lemma along_ret {A} (a : A) : along Rl (fret a).
Proof. intros s b s' [= <- <-]. reflexivity. Qed.

Lemma along_read {A} (o : option A) : along Rl (fread o).
Proof. intros s b s' [_ ->]%fread_some. reflexivity. Qed.

Lemma along_get : along Rl fget.
Proof. intros s b s' [= <- <-]. reflexivity. Qed.

Lemma along_modify f : (forall s, Rl s (f s)) -> along Rl (fmodify f).
Proof. intros Hf s b s' [= <- <-]. apply Hf. Qed.
End Along.

Lemma runs_along {S A} (Rl : S -> S -> Prop) (m : F S A) s (Q : A -> S -> Prop) : along Rl m -> runs m s Q -> runs m s (fun a s' => Q a s' /\ Rl s s').
Proof. intros Hk (a & s' & Hm & HQ). exists a, s'. split; [done |]. split; [done |]. by eapply Hk. Qed.

Create HintDb f_db.

(** Take an [along] goal apart along the program; [f_db] holds the operations already
    treated. *)
Ltac along_step :=
  match goal with
  | |- along _ (fbind _ _) => apply along_bind; [try apply _ | | intros ?]
  | |- along _ (fret _) => apply along_ret; apply _
  | |- along _ (fread _) => apply along_read; apply _
  | |- along _ (fassert _) => apply along_read; apply _
  | |- along _ fget => apply along_get; apply _
  | |- along _ _ => solve [eauto with f_db]
  | |- along _ (match ?x with _ => _ end) => destruct x
  | |- along _ (let _ := _ in _) => cbv zeta
  end.

Ltac along_auto := repeat along_step.

(** A run that ends well, with what is known of every run. *)
Lemma runs_both {S A} (m : F S A) s (Q P : A -> S -> Prop) : runs m s Q -> (forall a s', m s = Some (a, s') -> P a s') -> runs m s (fun a s' => Q a s' /\ P a s').
Proof. intros (a & s' & Hm & HQ) HP. exists a, s'. auto. Qed.
