(* ===== verification/Security.v ===== *)
(** * Security descriptors and access checks of the wineserver

    Models the helper functions of [src/server/security.h] and, of [src/server/token.c],
    the validation of access control lists and descriptors, membership in a token,
    privileges and [token_access_check].

    Memory that comes from a client or belongs to an object is a list of bytes; a pointer
    into it is the rest of the list from there on, so that [(char * )p + n] is [drop n p].
    Reading past the end is [None], and so is following a null pointer: the result of a
    function is [None] when it reads memory it has no right to.

    The layouts are those of [src/server/protocol.def]: a SID has its revision, the
    number [n] of sub-authorities, six bytes and [n] words; an ACE type, flags, a 16-bit size,
    a mask and a SID; an ACL revision, padding, 16-bit size and count, padding, then its
    ACEs; a descriptor the control word and four lengths, then owner, group, system and
    discretionary ACL. *)

From stdpp Require Import base list.
From Stdlib Require Import ZArith Lia.
From S2P Require Import Prelude Handle.

Open Scope Z_scope.

Definition STATUS_BUFFER_TOO_SMALL : Z := 0xC0000023.
Definition STATUS_PRIVILEGE_NOT_HELD : Z := 0xC0000061.
Definition STATUS_INVALID_SECURITY_DESCR : Z := 0xC0000079.
Definition STATUS_GENERIC_NOT_MAPPED : Z := 0xC00000E6.

Definition ACCESS_ALLOWED_ACE_TYPE : Z := 0.
Definition ACCESS_DENIED_ACE_TYPE : Z := 1.
Definition SYSTEM_AUDIT_ACE_TYPE : Z := 2.
Definition SYSTEM_ALARM_ACE_TYPE : Z := 3.
Definition SYSTEM_MANDATORY_LABEL_ACE_TYPE : Z := 0x11.
Definition INHERIT_ONLY_ACE : Z := 8.

Definition SE_DACL_PRESENT : Z := 4.
Definition SE_SACL_PRESENT : Z := 0x10.
Definition SE_SELF_RELATIVE : Z := 0x8000.

Definition SE_GROUP_MANDATORY : Z := 1.
Definition SE_GROUP_ENABLED_BY_DEFAULT : Z := 2.
Definition SE_GROUP_ENABLED : Z := 4.
Definition SE_GROUP_OWNER : Z := 8.
Definition SE_GROUP_USE_FOR_DENY_ONLY : Z := 0x10.
Definition SE_GROUP_LOGON_ID : Z := 0xC0000000.

Definition SE_PRIVILEGE_ENABLED_BY_DEFAULT : Z := 1.
Definition SE_PRIVILEGE_ENABLED : Z := 2.
Definition SE_PRIVILEGE_REMOVED : Z := 4.
Definition SE_PRIVILEGE_USED_FOR_ACCESS : Z := 0x80000000.

Definition ACCESS_SYSTEM_SECURITY : Z := 0x01000000.
Definition STANDARD_RIGHTS_REQUIRED : Z := 0xf0000.
Definition SYNCHRONIZE : Z := 0x100000.

Definition MAX_ACL_LEN : Z := 65535.

(** ** Memory *)

Abbreviation bytes := (list Z) (only parsing).

Definition read16 (p : bytes) (k : nat) : option Z := a ← p !! k; b ← p !! S k; Some (a + 256 * b).

Definition read32 (p : bytes) (k : nat) : option Z := a ← read16 p k; b ← read16 p (S (S k)); Some (a + 65536 * b).

(** [memcpy( ..., p, n )]: the bytes copied. *)
Definition copy (p : bytes) (n : Z) : option bytes :=
  if n <=? Z.of_nat (length p) then Some (take (Z.to_nat n) p) else None.

Definition advance (p : bytes) (n : Z) : bytes :=
  if n <? Z.of_nat (length p) then drop (Z.to_nat n) p else [].

Definition le16 (v : Z) : bytes := [u8 v; u8 (v / 256)].
Definition le32 (v : Z) : bytes := le16 v ++ le16 (v / 65536).

(** ** SIDs *)

Definition sid_len (sid : bytes) : option Z := c ← sid !! 1%nat; Some (8 + 4 * c).

Definition equal_sid (sid1 sid2 : bytes) : option bool :=
  c1 ← sid1 !! 1%nat; c2 ← sid2 !! 1%nat;
  if c1 =? c2 then
    n ← sid_len sid1; a ← copy sid1 n; b ← copy sid2 n; Some (bool_decide (a = b))
  else Some false.

Definition sid_valid_size (sid : bytes) (size : Z) : option bool :=
  if 8 <=? size then n ← sid_len sid; Some (n <=? size) else Some false.

(** [get_sid_count]; each round uses up at least eight bytes of [size]. *)
Fixpoint sid_count_loop (fuel : nat) (sid : bytes) (size count : Z) : option Z :=
  match fuel with
  | O => None
  | S fuel' =>
      ok ← sid_valid_size sid size;
      if (ok : bool) then n ← sid_len sid; sid_count_loop fuel' (advance sid n) (u32 (size - n)) (u32 (count + 1))
      else Some count
  end.

Definition get_sid_count (sid : bytes) (size : Z) : option Z := sid_count_loop (S (Z.to_nat size)) sid size 0.

(** ** ACLs *)

Definition ace_first (acl : bytes) : bytes := drop 8 acl.
Definition ace_size (ace : bytes) : option Z := read16 ace 2.
Definition ace_next (ace : bytes) : option bytes := n ← ace_size ace; Some (advance ace n).
Definition acl_count (acl : bytes) : option Z := read16 acl 4.

Definition known_ace_type (type : Z) : bool :=
  (type =? ACCESS_DENIED_ACE_TYPE) || (type =? ACCESS_ALLOWED_ACE_TYPE) || (type =? SYSTEM_AUDIT_ACE_TYPE) ||
  (type =? SYSTEM_ALARM_ACE_TYPE) || (type =? SYSTEM_MANDATORY_LABEL_ACE_TYPE).

(** The loop of [acl_is_valid] over [n] entries.  The size passed on for the SID is the
    difference as a 32-bit number. *)
Fixpoint aces_valid (n : nat) (ace : bytes) (size : Z) : option bool :=
  match n with
  | O => Some true
  | S n' =>
      if size <? 8 then Some false
      else
        asize ← ace_size ace;
        if size <? asize then Some false
        else
          type ← ace !! 0%nat;
          if negb (known_ace_type type) then Some false
          else
            ok ← sid_valid_size (drop 8 ace) (u32 (asize - 8));
            if (ok : bool) then next ← ace_next ace; aces_valid n' next (size - asize)
            else Some false
  end.

Definition acl_is_valid (acl : bytes) (size : Z) : option bool :=
  if size <? 8 then Some false
  else
    count ← acl_count acl;
    aces_valid (Z.to_nat count) (ace_first acl) (Z.min size MAX_ACL_LEN - 8).

(** ** Security descriptors *)

Definition sd_control (sd : bytes) : option Z := read32 sd 0.
Definition owner_len (sd : bytes) : option Z := read32 sd 4.
Definition group_len (sd : bytes) : option Z := read32 sd 8.
Definition sacl_len (sd : bytes) : option Z := read32 sd 12.
Definition dacl_len (sd : bytes) : option Z := read32 sd 16.

(** The getters: [None] inside is a null pointer. *)
Definition sd_get_owner (sd : bytes) : option (option bytes) :=
  o ← owner_len sd; Some (if o =? 0 then None else Some (drop 20 sd)).

Definition sd_get_group (sd : bytes) : option (option bytes) :=
  o ← owner_len sd; g ← group_len sd; Some (if g =? 0 then None else Some (advance (drop 20 sd) o)).

Definition sd_get_sacl (sd : bytes) : option (bool * option bytes) :=
  c ← sd_control sd; o ← owner_len sd; g ← group_len sd; s ← sacl_len sd;
  Some (has_flag c SE_SACL_PRESENT, if s =? 0 then None else Some (advance (drop 20 sd) (o + g))).

Definition sd_get_dacl (sd : bytes) : option (bool * option bytes) :=
  c ← sd_control sd; o ← owner_len sd; g ← group_len sd; s ← sacl_len sd; d ← dacl_len sd;
  Some (has_flag c SE_DACL_PRESENT, if d =? 0 then None else Some (advance (drop 20 sd) (o + g + s))).

(** The test on one part of a descriptor that begins at [offset]. *)
Definition part_valid (limit offset len size : Z) (part : option bytes) (valid : bytes -> Z -> option bool) : option bool :=
  if (limit <=? len) || (size <? offset + len) then Some false
  else match part with Some p => valid p len | None => Some true end.

Definition sd_is_valid (sd : bytes) (size : Z) : option bool :=
  if size <? 20 then Some false
  else
    o ← owner_len sd; owner ← sd_get_owner sd;
    ok ← part_valid 1028 20 o size owner sid_valid_size;
    if negb ok then Some false
    else
      g ← group_len sd; group ← sd_get_group sd;
      ok ← part_valid 1028 (20 + o) g size group sid_valid_size;
      if negb ok then Some false
      else
        s ← sacl_len sd; sacl ← sd_get_sacl sd;
        ok ← part_valid MAX_ACL_LEN (20 + o + g) s size sacl.2 acl_is_valid;
        if negb ok then Some false
        else
          d ← dacl_len sd; dacl ← sd_get_dacl sd;
          part_valid MAX_ACL_LEN (20 + o + g + s) d size dacl.2 acl_is_valid.

(** ** Tokens *)

Record luid := mkLuid { low_part : Z; high_part : Z }.

#[export] Instance luid_eq_dec : EqDecision luid.
Proof. solve_decision. Defined.

Definition is_equal_luid (l1 l2 : luid) : bool := (low_part l1 =? low_part l2) && (high_part l1 =? high_part l2).

Definition SeSecurityPrivilege : luid := mkLuid 8 0.

Record luid_attr := mkLuidAttr { la_luid : luid; la_attrs : Z }.

Record privilege := mkPrivilege { pr_luid : luid; pr_enabled : bool; pr_def : bool }.

Record group := mkGroup { gr_attrs : Z; gr_sid : bytes }.

(** [tk_owner] and [tk_primary_group] point to a group, here its place in the list. *)
Record token := mkToken {
  tk_token_id : luid;
  tk_modified_id : luid;
  tk_privileges : list privilege;
  tk_groups : list group;
  tk_user : bytes;
  tk_owner : option nat;
  tk_primary_group : option nat;
  tk_primary : bool;
  tk_session_id : Z;
  tk_default_dacl : option bytes;
  tk_impersonation_level : Z;
  tk_elevation : Z;
  tk_sd : option bytes
}.

Fixpoint find_privilege (luid : luid) (ps : list privilege) : option privilege :=
  match ps with
  | [] => None
  | p :: ps' => if is_equal_luid luid (pr_luid p) then Some p else find_privilege luid ps'
  end.

Definition token_find_privilege (t : token) (luid : luid) (enabled_only : bool) : option privilege :=
  match find_privilege luid (tk_privileges t) with
  | Some p => if enabled_only && negb (pr_enabled p) then None else Some p
  | None => None
  end.

Definition is_held (t : token) (luid : luid) : bool :=
  match token_find_privilege t luid true with Some p => pr_enabled p | None => false end.

(** [token_check_privileges]: the answer, and [usedprivs]. *)
Definition token_check_privileges (t : token) (all_required : bool) (reqprivs : list luid_attr) : bool * list luid_attr :=
  let held := filter (fun a => is_held t (la_luid a) = true) reqprivs in
  ((if all_required then Nat.eqb (length held) (length reqprivs) else Nat.ltb 0 (length held)),
   map (fun a => if is_held t (la_luid a) then mkLuidAttr (la_luid a) (Z.lor (la_attrs a) SE_PRIVILEGE_USED_FOR_ACCESS) else a) reqprivs).

Fixpoint groups_present (gs : list group) (sid : bytes) (deny : bool) : option bool :=
  match gs with
  | [] => Some false
  | g :: gs' =>
      if negb (has_flag (gr_attrs g) SE_GROUP_ENABLED) then groups_present gs' sid deny
      else if negb deny && has_flag (gr_attrs g) SE_GROUP_USE_FOR_DENY_ONLY then groups_present gs' sid deny
      else e ← equal_sid (gr_sid g) sid; if (e : bool) then Some true else groups_present gs' sid deny
  end.

Definition token_sid_present (t : token) (sid : bytes) (deny : bool) : option bool :=
  e ← equal_sid (tk_user t) sid; if (e : bool) then Some true else groups_present (tk_groups t) sid deny.

(** ** [token_access_check] *)

Record access_result := mkAccess {
  ac_return : Z;                   (* the value returned *)
  ac_granted : Z;
  ac_status : option Z;            (* [*status], when it is written *)
  ac_priv_count : option Z;        (* [*priv_count], when the caller gives one *)
  ac_priv : option luid_attr       (* [*privs], when it is written *)
}.

(** Step 4: the entries of the DACL in order, until a requested right is denied.
    Within the loop [*granted_access] is still 0. *)
Fixpoint check_aces (t : token) (desired : Z) (mapping : generic_map) (n : nat) (ace : bytes) (current denied : Z) : option (Z * Z) :=
  match n with
  | O => Some (current, denied)
  | S n' =>
      flags ← ace !! 1%nat;
      if has_flag flags INHERIT_ONLY_ACE then next ← ace_next ace; check_aces t desired mapping n' next current denied
      else
        type ← ace !! 0%nat;
        let go current denied :=
          if desired =? 0 then Some (current, denied)
          else next ← ace_next ace; check_aces t desired mapping n' next current denied in
        if type =? ACCESS_DENIED_ACE_TYPE then
          present ← token_sid_present t (drop 8 ace) true;
          if (present : bool) then
            mask ← read32 ace 4;
            let access := map_access mask mapping in
            if has_flag desired MAXIMUM_ALLOWED then go current (Z.lor denied access)
            else
              let denied := Z.lor denied (Z.land access (not32 current)) in
              if has_flag desired access then Some (current, denied) else go current denied
          else go current denied
        else if type =? ACCESS_ALLOWED_ACE_TYPE then
          present ← token_sid_present t (drop 8 ace) false;
          if (present : bool) then
            mask ← read32 ace 4;
            let access := map_access mask mapping in
            if has_flag desired MAXIMUM_ALLOWED then go (Z.lor current access) denied
            else go (Z.lor current (Z.land access (not32 denied))) denied
          else go current denied
        else go current denied
  end.

(** Steps 3 and 4 for a caller who has [current] already. *)
Definition check_dacl (t : token) (owner dacl : bytes) (desired : Z) (mapping : generic_map) (current : Z)
    (priv_count : option Z) (priv : option luid_attr) : option access_result :=
  own ← token_sid_present t owner false;
  let current := if (own : bool) then Z.lor current (Z.lor STANDARD_RIGHTS_REQUIRED SYNCHRONIZE) else current in
  if (own : bool) && (desired =? current) then Some (mkAccess STATUS_SUCCESS current (Some STATUS_SUCCESS) priv_count priv)
  else
    count ← acl_count dacl;
    r ← check_aces t desired mapping (Z.to_nat count) (ace_first dacl) current 0;
    let granted :=
      if has_flag desired MAXIMUM_ALLOWED then Z.land r.1 (not32 r.2)
      else if Z.land r.1 desired =? desired then Z.land r.1 desired else 0 in
    Some (mkAccess STATUS_SUCCESS granted (Some (if negb (granted =? 0) then STATUS_SUCCESS else STATUS_ACCESS_DENIED)) priv_count priv).

Definition token_access_check (t : token) (sd : bytes) (desired : Z) (priv_count : option Z) (mapping : generic_map) :
    option access_result :=
  let no_privs := match priv_count with Some _ => Some 0 | None => None end in
  if has_flag desired (Z.lor GENERIC_READ (Z.lor GENERIC_WRITE (Z.lor GENERIC_EXECUTE GENERIC_ALL)))
  then Some (mkAccess STATUS_GENERIC_NOT_MAPPED 0 None no_privs None)
  else
    dacl ← sd_get_dacl sd; owner ← sd_get_owner sd; group ← sd_get_group sd;
    match owner, group with
    | Some owner, Some _ =>
        match dacl with
        | (true, Some acl) =>
            if has_flag desired ACCESS_SYSTEM_SECURITY then
              let r := token_check_privileges t true [mkLuidAttr SeSecurityPrivilege 0] in
              if r.1 then
                let granted := ACCESS_SYSTEM_SECURITY in
                let done count priv :=
                  if desired =? granted then Some (mkAccess STATUS_SUCCESS granted (Some STATUS_SUCCESS) count priv)
                  else check_dacl t owner acl desired mapping granted count priv in
                match priv_count with
                | Some n => if 1 <=? n then done (Some 1) (head r.2)
                            else Some (mkAccess STATUS_BUFFER_TOO_SMALL 0 None (Some 1) None)
                | None => done None None
                end
              else Some (mkAccess STATUS_SUCCESS 0 (Some STATUS_PRIVILEGE_NOT_HELD) no_privs None)
            else check_dacl t owner acl desired mapping 0 no_privs None
        | _ =>
            Some (mkAccess STATUS_SUCCESS (if has_flag desired MAXIMUM_ALLOWED then gm_all mapping else desired)
                    (Some STATUS_SUCCESS) no_privs None)
        end
    | _, _ => Some (mkAccess STATUS_INVALID_SECURITY_DESCR 0 None no_privs None)
    end.

(** [check_object_access] for an object with descriptor [sd], mapped by [map_obj_access]:
    the error set when access is refused, and [*access]. *)
Definition check_object_access (t : token) (sd : option bytes) (map_obj_access : Z -> Z) (access : Z) : option (option Z * Z) :=
  match sd with
  | None => Some (None, if has_flag access MAXIMUM_ALLOWED then map_obj_access GENERIC_ALL else access)
  | Some sd =>
      let mapping := mkMapping (map_obj_access GENERIC_READ) (map_obj_access GENERIC_WRITE)
                       (map_obj_access GENERIC_EXECUTE) (map_obj_access GENERIC_ALL) in
      r ← token_access_check t sd access None mapping;
      let res := (ac_return r =? STATUS_SUCCESS) && bool_decide (ac_status r = Some STATUS_SUCCESS) in
      Some (if res then None else Some STATUS_ACCESS_DENIED, ac_granted r)
  end.
