(* ===== verification/Token.v ===== *)
(** * Tokens of the wineserver

    Models the tokens of [src/server/token.c]: creation, duplication and filtering,
    privileges, labels, the default DACL and the requests on them, with
    [set_sd_defaults_from_token] of [src/server/object.c], which gives an object its
    descriptor.  Memory is as in [Security]; whether an allocation succeeds is answered by
    [alloc_ok], in the order of the allocations.  A computation [X A] may fault.  Handles are
    resolved by the callers. *)

From stdpp Require Import base list.
From Stdlib Require Import ZArith Lia.
From S2P Require Import Prelude Fallible Handle Security.

Open Scope Z_scope.
Open Scope fallible_scope.

Definition STATUS_NOT_ALL_ASSIGNED : Z := 0x106.
Definition STATUS_INVALID_ACL : Z := 0xC0000077.
Definition STATUS_BAD_IMPERSONATION_LEVEL : Z := 0xC00000A5.
Definition STATUS_INVALID_PARAMETER : Z := 0xC000000D.
Definition STATUS_NO_IMPERSONATION_TOKEN : Z := 0xC000005C.
Definition STATUS_ACCESS_VIOLATION : Z := 0xC0000005.
Definition STATUS_BUFFER_OVERFLOW : Z := 0x80000005.

Definition OWNER_SECURITY_INFORMATION : Z := 1.
Definition GROUP_SECURITY_INFORMATION : Z := 2.
Definition DACL_SECURITY_INFORMATION : Z := 4.
Definition SACL_SECURITY_INFORMATION : Z := 8.
Definition LABEL_SECURITY_INFORMATION : Z := 0x10.

Definition SecurityAnonymous : Z := 0.
Definition SecurityIdentification : Z := 1.
Definition SecurityDelegation : Z := 3.
Definition TokenElevationTypeDefault : Z := 1.
Definition TokenElevationTypeFull : Z := 2.
Definition TokenElevationTypeLimited : Z := 3.
Definition ACL_REVISION : Z := 2.
Definition SYSTEM_MANDATORY_LABEL_NO_WRITE_UP : Z := 1.

(** ** Computations *)

Record sec := mkSec { prev_luid_value : luid; sc_error : Z; sc_allocs : nat }.

Abbreviation X := (F sec).

Definition set_error (e : Z) : X unit := fun s => Some (tt, mkSec (prev_luid_value s) e (sc_allocs s)).

Definition with_privileges (ps : list privilege) (t : token) : token :=
  mkToken (tk_token_id t) (tk_modified_id t) ps (tk_groups t) (tk_user t) (tk_owner t) (tk_primary_group t) (tk_primary t)
    (tk_session_id t) (tk_default_dacl t) (tk_impersonation_level t) (tk_elevation t) (tk_sd t).
Definition with_modified_id (l : luid) (t : token) : token :=
  mkToken (tk_token_id t) l (tk_privileges t) (tk_groups t) (tk_user t) (tk_owner t) (tk_primary_group t) (tk_primary t)
    (tk_session_id t) (tk_default_dacl t) (tk_impersonation_level t) (tk_elevation t) (tk_sd t).
Definition with_groups (gs : list group) (owner primary : option nat) (t : token) : token :=
  mkToken (tk_token_id t) (tk_modified_id t) (tk_privileges t) gs (tk_user t) owner primary (tk_primary t)
    (tk_session_id t) (tk_default_dacl t) (tk_impersonation_level t) (tk_elevation t) (tk_sd t).
Definition with_default_dacl (d : option bytes) (t : token) : token :=
  mkToken (tk_token_id t) (tk_modified_id t) (tk_privileges t) (tk_groups t) (tk_user t) (tk_owner t) (tk_primary_group t)
    (tk_primary t) (tk_session_id t) d (tk_impersonation_level t) (tk_elevation t) (tk_sd t).
Definition with_sd (sd : option bytes) (t : token) : token :=
  mkToken (tk_token_id t) (tk_modified_id t) (tk_privileges t) (tk_groups t) (tk_user t) (tk_owner t) (tk_primary_group t)
    (tk_primary t) (tk_session_id t) (tk_default_dacl t) (tk_impersonation_level t) (tk_elevation t) sd.

Definition allocate_luid : X luid :=
  fun s => let l := mkLuid (u32 (low_part (prev_luid_value s) + 1)) (high_part (prev_luid_value s)) in
           Some (l, mkSec l (sc_error s) (sc_allocs s)).

Definition luid_and_attr_from_privilege (p : privilege) : luid_attr :=
  mkLuidAttr (pr_luid p) (Z.lor (if pr_enabled p then SE_PRIVILEGE_ENABLED else 0) (if pr_def p then SE_PRIVILEGE_ENABLED_BY_DEFAULT else 0)).

(** ** Access control lists *)

Definition acl_header (revision size count : Z) : bytes := [u8 revision; 0] ++ le16 size ++ le16 count ++ [0; 0].

(** The entries of a list whose type is, or is not, that of a label: their total size and
    number. *)
Fixpoint count_aces (label : bool) (n : nat) (ace : bytes) : option (Z * Z) :=
  match n with
  | O => Some (0, 0)
  | S n' =>
      type ← ace !! 0%nat; size ← ace_size ace; next ← ace_next ace; r ← count_aces label n' next;
      Some (if Bool.eqb (type =? SYSTEM_MANDATORY_LABEL_ACE_TYPE) label then (size + r.1, 1 + r.2) else r)
  end.

Fixpoint copy_aces (label : bool) (n : nat) (ace : bytes) : option bytes :=
  match n with
  | O => Some []
  | S n' =>
      type ← ace !! 0%nat; size ← ace_size ace; next ← ace_next ace;
      if Bool.eqb (type =? SYSTEM_MANDATORY_LABEL_ACE_TYPE) label then
        a ← copy ace size; r ← copy_aces label n' next; Some (a ++ r)
      else copy_aces label n' next
  end.

Definition acl_aces {A} (f : nat -> bytes -> option A) (acl : option bytes) (nothing : A) : option A :=
  match acl with Some a => n ← acl_count a; f (Z.to_nat n) (ace_first a) | None => Some nothing end.

Definition acl_revision (acl : option bytes) : option Z :=
  match acl with Some a => a !! 0%nat | None => Some 0 end.

(** [set_ace] *)
Definition ace_bytes (sid : bytes) (type flags mask : Z) : option bytes :=
  n ← sid_len sid; b ← copy sid n; Some ([type; flags] ++ le16 (8 + n) ++ le32 mask ++ b).

(** A SID with its six bytes of authority, all but the last 0. *)
Definition mk_sid (authority : Z) (subs : list Z) : bytes :=
  [1; Z.of_nat (length subs); 0; 0; 0; 0; 0; authority] ++ concat (map le32 subs).

Definition world_sid : bytes := mk_sid 1 [0].
Definition local_sid : bytes := mk_sid 2 [0].
Definition interactive_sid : bytes := mk_sid 5 [4].
Definition anonymous_logon_sid : bytes := mk_sid 5 [7].
Definition authenticated_user_sid : bytes := mk_sid 5 [11].
Definition local_system_sid : bytes := mk_sid 5 [0x12].
Definition local_user_sid : bytes := mk_sid 5 [0x15; 0; 0; 0; 1000].
Definition domain_users_sid : bytes := mk_sid 5 [0x15; 0; 0; 0; 0x201].
Definition builtin_admins_sid : bytes := mk_sid 5 [0x20; 0x220].
Definition builtin_users_sid : bytes := mk_sid 5 [0x20; 0x221].
Definition logon_sid : bytes := mk_sid 5 [5; 0; 0].
Definition high_label_sid : bytes := mk_sid 16 [0x3000].

(** ** Operations that allocate *)

Section Tokens.
Context (alloc_ok : nat -> bool).

Definition mem_alloc : X bool :=
  fun s => let ok := alloc_ok (sc_allocs s) in
           Some (ok, mkSec (prev_luid_value s) (if ok then sc_error s else STATUS_NO_MEMORY) (S (sc_allocs s))).

Definition memdup (p : bytes) (n : Z) : X (option bytes) :=
  do ok <- mem_alloc; if (ok : bool) then do b <- fread (copy p n); fret (Some b) else fret None.

(** [extract_security_labels] *)
Definition extract_security_labels (sacl : bytes) : X (option bytes) :=
  do c <- fread (acl_aces (count_aces true) (Some sacl) (0, 0));
  do ok <- mem_alloc;
  if (ok : bool) then
    do rev <- fread (acl_revision (Some sacl));
    do b <- fread (acl_aces (copy_aces true) (Some sacl) []);
    fret (Some (acl_header rev (8 + c.1) c.2 ++ b))
  else fret None.

Definition replace_security_labels (old_sacl new_sacl : option bytes) : X (option bytes) :=
  do r1 <- fread (acl_revision old_sacl); do r2 <- fread (acl_revision new_sacl);
  do c1 <- fread (acl_aces (count_aces false) old_sacl (0, 0));
  do c2 <- fread (acl_aces (count_aces true) new_sacl (0, 0));
  let size := u32 (8 + c1.1 + c2.1) in
  if MAX_ACL_LEN <? size then do _ <- set_error STATUS_INVALID_ACL; fret None
  else
    do ok <- mem_alloc;
    if (ok : bool) then
      do b1 <- fread (acl_aces (copy_aces false) old_sacl []);
      do b2 <- fread (acl_aces (copy_aces true) new_sacl []);
      fret (Some (acl_header (Z.max (Z.max ACL_REVISION r1) r2) size (c1.2 + c2.2) ++ b1 ++ b2))
    else fret None.

Definition create_default_dacl (user : bytes) : X (option bytes) :=
  do a1 <- fread (ace_bytes local_system_sid ACCESS_ALLOWED_ACE_TYPE 0 GENERIC_ALL);
  do a2 <- fread (ace_bytes user ACCESS_ALLOWED_ACE_TYPE 0 GENERIC_ALL);
  do ok <- mem_alloc;
  fret (if (ok : bool) then Some (acl_header ACL_REVISION (8 + Z.of_nat (length a1) + Z.of_nat (length a2)) 2 ++ a1 ++ a2) else None).

(** [create_security_label_sd], with its assertion. *)
Definition create_security_label_sd (label : bytes) : X (option bytes) :=
  do a <- fread (ace_bytes label SYSTEM_MANDATORY_LABEL_ACE_TYPE 0 SYSTEM_MANDATORY_LABEL_NO_WRITE_UP);
  do ok <- mem_alloc;
  if (ok : bool) then
    let sacl := acl_header ACL_REVISION (8 + Z.of_nat (length a)) 1 ++ a in
    let sd := le32 SE_SACL_PRESENT ++ le32 0 ++ le32 0 ++ le32 (Z.of_nat (length sacl)) ++ le32 0 ++ sacl in
    do v <- fread (sd_is_valid sd (Z.of_nat (length sd)));
    do _ <- fread (if (v : bool) then Some tt else None);
    fret (Some sd)
  else fret None.

(** ** Descriptors of objects *)

Definition token_get_sid (t : token) (which : option nat) : option bytes :=
  i ← which; g ← tk_groups t !! i; Some (gr_sid g).

(** The owner or the group: from the new descriptor, else from the old one, else from the
    token; a pointer and a length. *)
Definition choose_sid (wanted : bool) (new old : option (Z * option bytes)) (default : option (option bytes)) : option (option bytes * Z) :=
  match new with
  | Some (n, p) =>
      if wanted && negb (n =? 0) then Some (p, n)
      else match old with
           | Some (m, q) => if negb (m =? 0) then Some (q, m) else
               match default with Some d => s ← d; n ← sid_len s; Some (Some s, n) | None => Some (None, 0) end
           | None => match default with Some d => s ← d; n ← sid_len s; Some (Some s, n) | None => Some (None, 0) end
           end
  | None => None
  end.

Definition sd_owner_part (sd : bytes) : option (Z * option bytes) := n ← owner_len sd; p ← sd_get_owner sd; Some (n, p).
Definition sd_group_part (sd : bytes) : option (Z * option bytes) := n ← group_len sd; p ← sd_get_group sd; Some (n, p).

(** [mem_append]: nothing is read for a length of 0. *)
Definition append_part (p : option bytes) (n : Z) : option bytes :=
  if n =? 0 then Some [] else q ← p; copy q n.

(** The system ACL of the new descriptor: [None] inside when labels could not be replaced. *)
Definition choose_sacl (sd : bytes) (obj : option bytes) (set_info : Z) : X (option (Z * Z * option bytes)) :=
  do s <- fread (sd_get_sacl sd);
  if has_flag set_info SACL_SECURITY_INFORMATION && s.1 then
    do n <- fread (sacl_len sd); fret (Some (SE_SACL_PRESENT, n, s.2))
  else if has_flag set_info LABEL_SECURITY_INFORMATION && s.1 then
    do old <- fread (match obj with
                     | Some o => c ← sd_control o; if has_flag c SE_SACL_PRESENT then r ← sd_get_sacl o; Some r.2 else Some None
                     | None => Some None
                     end);
    do r <- replace_security_labels old s.2;
    match r with
    | Some acl => do n <- fread (read16 acl 2); fret (Some (SE_SACL_PRESENT, n, Some acl))
    | None => fret None
    end
  else match obj with
       | Some o => do r <- fread (sd_get_sacl o);
                   if (r.1 : bool) then do n <- fread (sacl_len o); fret (Some (SE_SACL_PRESENT, n, r.2))
                   else fret (Some (0, 0, r.2))
       | None => fret (Some (0, 0, s.2))
       end.

Definition choose_dacl (sd : bytes) (obj : option bytes) (set_info : Z) (t : option token) : option (Z * Z * option bytes) :=
  d ← sd_get_dacl sd;
  if has_flag set_info DACL_SECURITY_INFORMATION && d.1 then
    n ← dacl_len sd; Some (SE_DACL_PRESENT, n, d.2)
  else
    let from_token :=
      match t with
      | Some t => dacl ← tk_default_dacl t; n ← read16 dacl 2; Some (SE_DACL_PRESENT, n, Some dacl)
      | None => Some (0, 0, d.2)
      end in
    match obj with
    | Some o => r ← sd_get_dacl o; if (r.1 : bool) then n ← dacl_len o; Some (SE_DACL_PRESENT, n, r.2) else from_token
    | None => from_token
    end.

(** The new descriptor of an object with descriptor [obj], or [None] inside on failure. *)
Definition set_sd_defaults_from_token (obj : option bytes) (sd : bytes) (set_info : Z) (t : option token) : X (option (option bytes)) :=
  if set_info =? 0 then fret (Some obj)
  else
    do c <- fread (sd_control sd);
    do owner <- fread (choose_sid (has_flag set_info OWNER_SECURITY_INFORMATION) (sd_owner_part sd) (o ← obj; sd_owner_part o)
                         (t ← t; Some (token_get_sid t (tk_owner t))));
    do group <- fread (choose_sid (has_flag set_info GROUP_SECURITY_INFORMATION) (sd_group_part sd) (o ← obj; sd_group_part o)
                         (t ← t; Some (token_get_sid t (tk_primary_group t))));
    do sacl <- choose_sacl sd obj set_info;
    match sacl with
    | None => fret None
    | Some (sflag, slen, sp) =>
        do d <- fread (choose_dacl sd obj set_info t);
        do ok <- mem_alloc;
        if (ok : bool) then
          do b1 <- fread (append_part owner.1 owner.2);
          do b2 <- fread (append_part group.1 group.2);
          do b3 <- fread (append_part sp slen);
          do b4 <- fread (append_part d.2 d.1.2);
          let control := Z.lor (Z.lor (Z.land c (not32 SE_SELF_RELATIVE)) sflag) d.1.1 in
          fret (Some (Some (le32 control ++ le32 owner.2 ++ le32 group.2 ++ le32 slen ++ le32 d.1.2 ++ b1 ++ b2 ++ b3 ++ b4)))
        else fret None
    end.

(** [token_assign_label]: the token, and whether it has the label. *)
Definition token_assign_label (t : token) (label : bytes) : X (bool * token) :=
  do sd <- create_security_label_sd label;
  match sd with
  | None => fret (false, t)
  | Some sd =>
      do r <- set_sd_defaults_from_token (tk_sd t) sd LABEL_SECURITY_INFORMATION (Some t);
      fret (match r with Some new => (true, with_sd new t) | None => (false, t) end)
  end.

(** ** Creation *)

Definition privilege_add (l : luid) (enabled : bool) (t : token) : X (option token) :=
  do ok <- mem_alloc;
  fret (if (ok : bool) then Some (with_privileges (tk_privileges t ++ [mkPrivilege l enabled enabled]) t) else None).

Fixpoint add_groups (gs : list (bytes * Z)) (i : nat) (primary : Z) (t : token) : X (option token) :=
  match gs with
  | [] => fret (Some t)
  | (sid, attrs) :: gs' =>
      do ok <- mem_alloc;
      if (ok : bool) then
        do n <- fread (sid_len sid);
        do b <- fread (copy sid n);
        let mine := primary =? Z.of_nat i in
        add_groups gs' (S i) primary
          (with_groups (tk_groups t ++ [mkGroup attrs b]) (if mine then Some i else tk_owner t)
             (if mine then Some i else tk_primary_group t) t)
      else fret None
  end.

Fixpoint add_privileges (ps : list (luid * bool)) (t : token) : X (option token) :=
  match ps with
  | [] => fret (Some t)
  | (l, enabled) :: ps' =>
      do r <- privilege_add l enabled t;
      match r with Some t' => add_privileges ps' t' | None => fret None end
  end.

Definition create_token (primary : bool) (session_id : Z) (user : bytes) (groups : list (bytes * Z)) (privs : list luid_attr)
    (default_dacl : option bytes) (modified_id : option luid) (primary_group impersonation_level elevation : Z) : X (option token) :=
  do ok <- mem_alloc;
  if negb ok then fret None
  else
    do id <- allocate_luid;
    do mid <- match modified_id with Some m => fret m | None => allocate_luid end;
    do n <- fread (sid_len user);
    do u <- memdup user n;
    match u with
    | None => fret None
    | Some u =>
        do g <- add_groups groups 0 primary_group
                  (mkToken id mid [] [] u None None primary session_id None (if primary then -1 else impersonation_level) elevation None);
        match g with
        | None => fret None
        | Some t =>
            do p <- add_privileges (map (fun a => (la_luid a, has_flag (la_attrs a) SE_PRIVILEGE_ENABLED)) privs) t;
            match p, default_dacl with
            | None, _ => fret None
            | Some t, None => fret (Some t)
            | Some t, Some dacl =>
                do size <- fread (read16 dacl 2);
                do d <- memdup dacl size;
                fret (match d with Some d => Some (with_default_dacl (Some d) t) | None => None end)
            end
        end
    end.

(** ** Duplication *)

Fixpoint filter_group (g : group) (filter : bytes) (count : nat) : option bool :=
  match count with
  | O => Some false
  | S count' =>
      e ← equal_sid (gr_sid g) filter;
      if (e : bool) then Some true else n ← sid_len filter; filter_group g (advance filter n) count'
  end.

Definition filter_privilege (p : privilege) (filter : list luid_attr) : bool :=
  existsb (fun a => is_equal_luid (pr_luid p) (la_luid a)) filter.

(** A group made to count for denials only. *)
Definition deny_only (g : group) : group :=
  mkGroup (Z.lor (Z.land (gr_attrs g) (not32 (Z.lor SE_GROUP_ENABLED SE_GROUP_ENABLED_BY_DEFAULT))) SE_GROUP_USE_FOR_DENY_ONLY) (gr_sid g).

Fixpoint copy_groups (src : token) (remove : bytes) (count : nat) (gs : list group) (i : nat) (t : token) : X (option token) :=
  match gs with
  | [] => fret (Some t)
  | g :: gs' =>
      do ok <- mem_alloc;
      if (ok : bool) then
        do f <- fread (filter_group g remove count);
        let mine := bool_decide (tk_primary_group src = Some i) in
        copy_groups src remove count gs' (S i)
          (with_groups (tk_groups t ++ [if (f : bool) then deny_only g else g]) (if mine then Some i else tk_owner t)
             (if mine then Some i else tk_primary_group t) t)
      else fret None
  end.

(** The labels of the source are given to the copy; a failure is ignored. *)
Fixpoint copy_labels (n : nat) (ace : bytes) (t : token) : X token :=
  match n with
  | O => fret t
  | S n' =>
      do type <- fread (ace !! 0%nat);
      do r <- (if type =? SYSTEM_MANDATORY_LABEL_ACE_TYPE then token_assign_label t (drop 8 ace) else fret (true, t));
      do next <- fread (ace_next ace);
      copy_labels n' next r.2
  end.

(** [current] is the token of the calling process. *)
Definition token_duplicate (current src : token) (primary : bool) (impersonation_level : Z) (sd : option bytes)
    (remove_privs : list luid_attr) (remove_groups : bytes) (remove_group_count : nat) : X (option token) :=
  let modified_id :=
    if primary || (impersonation_level =? tk_impersonation_level src) then Some (tk_modified_id src) else None in
  if negb primary &&
     ((impersonation_level <? SecurityAnonymous) || (SecurityDelegation <? impersonation_level) ||
      (negb (tk_primary src) && (tk_impersonation_level src <? impersonation_level)))
  then do _ <- set_error STATUS_BAD_IMPERSONATION_LEVEL; fret None
  else
    do r <- create_token primary (tk_session_id src) (tk_user src) [] [] (tk_default_dacl src) modified_id 0 impersonation_level (tk_elevation src);
    match r with
    | None => fret None
    | Some t =>
        do g <- copy_groups src remove_groups remove_group_count (tk_groups src) 0 t;
        match g with
        | None => fret None
        | Some t =>
            do _ <- fread (tk_primary_group t);
            do p <- add_privileges
                      (map (fun p => (pr_luid p, pr_enabled p)) (filter (fun p => filter_privilege p remove_privs = false) (tk_privileges src))) t;
            match p with
            | None => fret None
            | Some t =>
                do t <- match sd with
                        | Some sd =>
                            do n <- set_sd_defaults_from_token (tk_sd t) sd
                                      (Z.lor OWNER_SECURITY_INFORMATION (Z.lor GROUP_SECURITY_INFORMATION
                                         (Z.lor DACL_SECURITY_INFORMATION SACL_SECURITY_INFORMATION))) (Some current);
                            fret (match n with Some new => with_sd new t | None => t end)
                        | None => fret t
                        end;
                match tk_sd src with
                | Some ssd =>
                    do s <- fread (sd_get_sacl ssd);
                    if (s.1 : bool) then
                      do sacl <- fread s.2;
                      do n <- fread (acl_count sacl);
                      do t' <- copy_labels (Z.to_nat n) (ace_first sacl) t;
                      fret (Some t')
                    else fret (Some t)
                | None => fret (Some t)
                end
            end
        end
    end.

(** [token_create_admin] *)
Definition admin_privs : list luid_attr :=
  map (fun '(l, e) => mkLuidAttr (mkLuid l 0) (if e : bool then SE_PRIVILEGE_ENABLED else 0))
    [(23, true); (7, false); (8, false); (17, false); (18, false); (12, false); (19, false); (24, false); (9, false);
     (20, false); (22, false); (11, false); (13, false); (14, false); (10, true); (15, false); (5, false); (25, false);
     (28, false); (29, true); (30, true)].

Definition usual_group : Z := Z.lor SE_GROUP_ENABLED (Z.lor SE_GROUP_ENABLED_BY_DEFAULT SE_GROUP_MANDATORY).

Definition admin_groups : list (bytes * Z) :=
  [ (world_sid, usual_group); (local_sid, usual_group); (interactive_sid, usual_group); (authenticated_user_sid, usual_group);
    (domain_users_sid, Z.lor usual_group SE_GROUP_OWNER); (builtin_admins_sid, Z.lor usual_group SE_GROUP_OWNER);
    (builtin_users_sid, usual_group); (logon_sid, Z.lor usual_group SE_GROUP_LOGON_ID) ].

Definition token_create_admin (primary : bool) (impersonation_level elevation session_id : Z) : X (option token) :=
  do dacl <- create_default_dacl domain_users_sid;
  do r <- create_token primary session_id local_user_sid admin_groups admin_privs dacl None 4 impersonation_level elevation;
  do t <- fread r;
  do _ <- fread (tk_primary_group t);
  do l <- token_assign_label t high_label_sid;
  fret (if (l.1 : bool) then Some l.2 else None).

(** ** Privileges *)

Definition remove_privilege (l : luid) : list privilege -> list privilege :=
  fix go ps := match ps with [] => [] | p :: ps' => if is_equal_luid l (pr_luid p) then ps' else p :: go ps' end.

Definition enable_privilege (l : luid) (on : bool) : list privilege -> list privilege :=
  fix go ps := match ps with
               | [] => []
               | p :: ps' => if is_equal_luid l (pr_luid p) then mkPrivilege (pr_luid p) on (pr_def p) :: ps' else p :: go ps'
               end.

(** The loop of [token_adjust_privileges]: the states saved for the caller come in order. *)
Fixpoint adjust_loop (privs : list luid_attr) (room : nat) (ps : list privilege) : X (list luid_attr * list privilege) :=
  match privs with
  | [] => fret ([], ps)
  | a :: privs' =>
      match find_privilege (la_luid a) ps with
      | None => do _ <- set_error STATUS_NOT_ALL_ASSIGNED; adjust_loop privs' room ps
      | Some p =>
          if has_flag (la_attrs a) SE_PRIVILEGE_REMOVED then adjust_loop privs' room (remove_privilege (la_luid a) ps)
          else
            do r <- adjust_loop privs' (room - 1) (enable_privilege (la_luid a) (has_flag (la_attrs a) SE_PRIVILEGE_ENABLED) ps);
            fret (if Nat.eqb room 0 then r else (luid_and_attr_from_privilege p :: r.1, r.2))
      end
  end.

Definition token_adjust_privileges (t : token) (privs : list luid_attr) (room : nat) : X (list luid_attr * token) :=
  do id <- allocate_luid;
  do r <- adjust_loop privs room (tk_privileges t);
  fret (r.1, with_privileges r.2 (with_modified_id id t)).

Definition token_disable_privileges (t : token) : X token :=
  do id <- allocate_luid;
  fret (with_privileges (map (fun p => mkPrivilege (pr_luid p) false (pr_def p)) (tk_privileges t)) (with_modified_id id t)).

(** ** Requests *)

(** [set_reply_data_size] of [request.c]: whether there is memory for the reply; small
    replies have a buffer of their own, and no memory is set to any value. *)
Definition INLINE_REQUEST_DATA_SIZE : Z := 512.

Definition set_reply_data_size (size : Z) : X bool :=
  if size <=? INLINE_REQUEST_DATA_SIZE then fret true else mem_alloc.

(** The reply of [adjust_token_privileges]: [reply->len], the size of the data sent and the
    entries that have been written to them. *)
Record adjust_reply := mkAdjustReply { ar_len : Z; ar_size : Z; ar_saved : list luid_attr }.

(** [adjust_token_privileges]; [reply_room] entries fit into the reply. *)
Definition req_adjust_token_privileges (t : token) (get_modified_state disable_all : bool) (privs : list luid_attr) (reply_room : nat) :
    X (adjust_reply * token) :=
  let found := length (filter (fun a => token_find_privilege t (la_luid a) false <> None) privs) in
  let room := if get_modified_state && negb disable_all then Nat.min found reply_room else 0%nat in
  let len := Z.of_nat room * 12 in
  do ok <- (if Nat.eqb room 0 then fret true else set_reply_data_size len);
  if disable_all then do t' <- token_disable_privileges t; fret (mkAdjustReply len 0 [], t')
  else
    do r <- token_adjust_privileges t privs room;
    do _ <- fread (if ok || Nat.eqb (length r.1) 0 then Some tt else None);
    fret (mkAdjustReply len (if ok then len else 0) r.1, r.2).

(** [create_token]: the data of the request are the user, the attributes of the groups,
    their SIDs, the privileges and the default DACL.  Every SID uses up at least eight
    bytes, so there are no more rounds than bytes. *)
Fixpoint parse_groups (fuel : nat) (i count : Z) (attrs sid : bytes) (data_size groups_size : Z) : option (option (list (bytes * Z) * Z)) :=
  match fuel with
  | O => None
  | S fuel' =>
      if i <? count then
        a ← read32 attrs (Z.to_nat (4 * i));
        ok ← sid_valid_size sid (u32 (data_size - groups_size));
        if (ok : bool) then
          n ← sid_len sid;
          r ← parse_groups fuel' (i + 1) count attrs (advance sid n) data_size (u32 (groups_size + n));
          Some (match r with Some (gs, size) => Some ((sid, a) :: gs, size) | None => None end)
        else Some None
      else Some (Some ([], groups_size))
  end.

Fixpoint parse_privs (n : nat) (p : bytes) : option (list luid_attr) :=
  match n with
  | O => Some []
  | S n' =>
      l ← read32 p 0; h ← read32 p 4; a ← read32 p 8; r ← parse_privs n' (drop 12 p);
      Some (mkLuidAttr (mkLuid l (i32 h)) a :: r)
  end.

Definition req_create_token (default_session_id : Z) (primary : bool) (impersonation_level group_count primary_group priv_count : Z)
    (user : bytes) : X (option token) :=
  let bad : X (option token) := do _ <- set_error STATUS_INVALID_PARAMETER; fret None in
  let data_size := Z.of_nat (length user) in
  do v <- fread (if data_size =? 0 then Some false else sid_valid_size user data_size);
  if negb v then bad
  else
    do n <- fread (sid_len user);
    let data_size := u32 (data_size - n) in
    let groups_size := u32 (u64 (group_count * 4)) in
    if data_size <? groups_size then bad
    else if (primary_group <? 0) || (group_count <=? primary_group) then bad
    else
      do ok <- mem_alloc;
      if negb ok then fret None
      else
        let attrs := advance user n in
        do g <- fread (parse_groups (S (length user)) 0 group_count attrs (advance attrs (4 * group_count)) data_size groups_size);
        match g with
        | None => bad
        | Some (groups, groups_size) =>
            let data_size := u32 (data_size - groups_size) in
            if data_size <? u64 (priv_count * 12) then bad
            else
              let privs := advance attrs groups_size in
              let data_size := u32 (data_size - priv_count * 12) in
              let dacl := advance privs (priv_count * 12) in
              do v <- fread (if negb (data_size =? 0) then acl_is_valid dacl data_size else Some true);
              if negb v then bad
              else
                do ps <- fread (parse_privs (Z.to_nat priv_count) privs);
                do d <- (if negb (data_size =? 0) then fret (Some dacl) else create_default_dacl domain_users_sid);
                create_token primary default_session_id user groups ps d None primary_group impersonation_level 0
        end.

Definition req_duplicate_token (current src : token) (primary : bool) (impersonation_level : Z) (sd : option bytes) : X (option token) :=
  token_duplicate current src primary impersonation_level sd [] [] 0.

(** [filter_token]: privileges first in the request's data, then SIDs. *)
Definition req_filter_token (current src : token) (privs : list luid_attr) (sids : bytes) : X (option token) :=
  do n <- fread (get_sid_count sids (Z.of_nat (length sids)));
  token_duplicate current src (tk_primary src) (tk_impersonation_level src) None privs sids (Z.to_nat n).

(** [access_check]: [None] inside when an error is reported. *)
Definition req_access_check (t : token) (sd : bytes) (desired : Z) (mapping : generic_map) : X (option access_result) :=
  do v <- fread (sd_is_valid sd (Z.of_nat (length sd)));
  if negb v then do _ <- set_error STATUS_ACCESS_VIOLATION; fret None
  else if tk_primary t then do _ <- set_error STATUS_NO_IMPERSONATION_TOKEN; fret None
  else if tk_impersonation_level t <=? SecurityAnonymous then do _ <- set_error STATUS_BAD_IMPERSONATION_LEVEL; fret None
  else
    do r <- fread (token_access_check t sd desired (Some 1) mapping);
    do _ <- set_error (ac_return r);
    fret (Some r).

(** [check_token_privileges] *)
Definition req_check_token_privileges (t : token) (all_required : bool) (privs : list luid_attr) (reply_room : nat) :
    X (option (bool * list luid_attr)) :=
  if negb (tk_primary t) && (tk_impersonation_level t <=? SecurityAnonymous)
  then do _ <- set_error STATUS_BAD_IMPERSONATION_LEVEL; fret None
  else if Nat.leb (length privs) reply_room then fret (Some (token_check_privileges t all_required privs))
  else do _ <- set_error STATUS_BUFFER_OVERFLOW; fret None.

(** [get_token_default_dacl]: the length, and the data when the reply can hold it. *)
Definition req_get_token_default_dacl (t : token) (reply_max : Z) : X (Z * option bytes) :=
  match tk_default_dacl t with
  | None => fret (0, None)
  | Some dacl =>
      do n <- fread (read16 dacl 2);
      if n <=? reply_max then do b <- fread (copy dacl n); fret (n, Some b)
      else do _ <- set_error STATUS_BUFFER_TOO_SMALL; fret (n, None)
  end.

Definition req_set_token_default_dacl (t : token) (acl : bytes) : X token :=
  let size := Z.of_nat (length acl) in
  do v <- fread (if negb (size =? 0) then acl_is_valid acl size else Some true);
  if negb v then do _ <- set_error STATUS_INVALID_ACL; fret t
  else if size =? 0 then fret (with_default_dacl None t)
  else do d <- memdup acl size; fret (with_default_dacl d t).

Definition req_create_linked_token (t : token) : X (option token) :=
  if tk_elevation t =? TokenElevationTypeFull
  then token_create_admin false SecurityIdentification TokenElevationTypeLimited (tk_session_id t)
  else if tk_elevation t =? TokenElevationTypeLimited
  then token_create_admin false SecurityIdentification TokenElevationTypeFull (tk_session_id t)
  else fret None.

(** [is_elevated] of [get_token_info] *)
Definition is_elevated (t : token) : option bool :=
  if tk_elevation t =? TokenElevationTypeDefault then token_sid_present t builtin_admins_sid false
  else Some (tk_elevation t =? TokenElevationTypeFull).

End Tokens.
