(* ===== verification/SecurityProofs.v ===== *)
(** * Validated descriptors and access checks

    What [sd_is_valid] guarantees of the parts of a descriptor, and what
    [token_access_check] computes from the entries of a DACL: the entries that concern a
    token are rules, and the check is compared with what the rules say, right by right. *)

From stdpp Require Import base list.
From Stdlib Require Import ZArith Lia ZifyBool.
From S2P Require Import Prelude Handle Security.

Open Scope Z_scope.

(** * Validated descriptors *)

Definition is_byte (b : Z) : Prop := 0 <= b < 256.

(** ** Reading *)

Lemma read16_some p k : (S k < length p)%nat -> exists v, read16 p k = Some v.
Proof.
  intros H. unfold read16. destruct (lookup_lt_is_Some_2 p k ltac:(lia)) as [a ->].
  destruct (lookup_lt_is_Some_2 p (S k) H) as [b ->]. cbn. eauto.
Qed.

Lemma read32_some p k : (S (S (S k)) < length p)%nat -> exists v, read32 p k = Some v.
Proof.
  intros H. unfold read32. destruct (read16_some p k ltac:(lia)) as [a ->].
  destruct (read16_some p (S (S k)) H) as [b ->]. cbn. eauto.
Qed.

Lemma read16_range p k v : Forall is_byte p -> read16 p k = Some v -> 0 <= v < 65536.
Proof.
  intros Hp. unfold read16. destruct (p !! k) as [a |] eqn:Ea; [| done]. destruct (p !! S k) as [b |] eqn:Eb; [| done].
  cbn. intros [= <-]. rewrite Forall_lookup in Hp. pose proof (Hp _ _ Ea) as Ha. pose proof (Hp _ _ Eb) as Hb. unfold is_byte in *. lia.
Qed.

Lemma read32_range p k v : Forall is_byte p -> read32 p k = Some v -> 0 <= v < 2 ^ 32.
Proof.
  intros Hp. unfold read32. destruct (read16 p k) as [a |] eqn:Ea; [| done]. destruct (read16 p (S (S k))) as [b |] eqn:Eb; [| done].
  cbn. intros [= <-]. pose proof (read16_range _ _ _ Hp Ea). pose proof (read16_range _ _ _ Hp Eb). lia.
Qed.

Lemma length_advance p n : 0 <= n <= Z.of_nat (length p) -> Z.of_nat (length (advance p n)) = Z.of_nat (length p) - n.
Proof. intros H. unfold advance. destruct (_ <? _) eqn:E; [rewrite length_drop | cbn]; lia. Qed.

Lemma bytes_drop n p : Forall is_byte p -> Forall is_byte (drop n p).
Proof. apply Forall_drop. Qed.

Lemma bytes_advance n p : Forall is_byte p -> Forall is_byte (advance p n).
Proof. intros. unfold advance. destruct (_ <? _); [by apply Forall_drop | constructor]. Qed.

(** ** Entries *)

(** The entries of a list of [n] in memory, with their offsets. *)
Fixpoint ace_walk (n : nat) (ace : list Z) (off : Z) : option (list (Z * list Z)) :=
  match n with
  | O => Some []
  | S n' => size ← ace_size ace; r ← ace_walk n' (advance ace size) (off + size); Some ((off, ace) :: r)
  end.

(** An entry at [off] of a list of [size] bytes lies inside it, and its SID lies inside the
    entry, unless the entry is too short to have one. *)
Definition entry_inside (size : Z) (e : Z * list Z) : Prop :=
  exists asize, ace_size e.2 = Some asize /\ e.1 + 8 <= size /\ e.1 + asize <= size /\
    (asize < 8 \/ exists n, sid_len (drop 8 e.2) = Some n /\ e.1 + 8 + n <= e.1 + asize).

Lemma sid_valid_true sid size : sid_valid_size sid size = Some true -> exists n, sid_len sid = Some n /\ n <= size.
Proof. unfold sid_valid_size. destruct (8 <=? size); [| done]. destruct (sid_len sid) as [n |]; [| done]. cbn. intros [= H]. exists n. split; [done | lia]. Qed.

Lemma aces_valid_inside n ace size off :
  Forall is_byte ace -> aces_valid n ace size = Some true ->
  exists es, ace_walk n ace off = Some es /\ Forall (entry_inside (off + size)) es.
Proof.
  revert ace size off. induction n as [| n IH]; intros ace size off Hb; cbn; [by exists [] |].
  destruct (size <? 8) eqn:E8; [done |]. destruct (ace_size ace) as [asize |] eqn:Ea; [| done]. cbn.
  destruct (size <? asize) eqn:Es; [done |]. destruct (ace !! 0%nat) as [type |]; [| done]. cbn.
  destruct (known_ace_type type); [| done]. cbn. destruct (sid_valid_size _ _) as [[] |] eqn:Ev; try done. cbn.
  unfold ace_next. rewrite Ea. cbn. intros H. destruct (IH _ _ (off + asize) (bytes_advance asize _ Hb) H) as (es & Hw & Hin).
  replace (off + asize + (size - asize)) with (off + size) in Hin by lia. rewrite Hw. cbn. eexists. split; [done |].
  constructor; [| done]. exists asize. cbn. split_and!; [done | lia | lia |].
  pose proof (read16_range _ _ _ Hb Ea). destruct (Z.lt_ge_cases asize 8) as [| Hge]; [by left | right].
  destruct (sid_valid_true _ _ Ev) as (m & Hm & Hle). exists m. rewrite uwrap_small in Hle by lia. split; [done | lia].
Qed.

(** No entry met on the way is too short to hold its own header. *)
Fixpoint no_short (n : nat) (ace : list Z) : Prop :=
  match n with
  | O => True
  | S n' => forall size, ace_size ace = Some size -> 8 <= size /\ no_short n' (advance ace size)
  end.

Lemma aces_valid_total n ace size :
  Forall is_byte ace -> no_short n ace -> size <= Z.of_nat (length ace) -> exists b, aces_valid n ace size = Some b.
Proof.
  revert ace size. induction n as [| n IH]; intros ace size Hb Hn Hl; cbn; [eauto |].
  destruct (size <? 8) eqn:E8; [eauto |]. destruct (read16_some ace 2 ltac:(lia)) as [asize Ea].
  change (read16 ace 2) with (ace_size ace) in Ea. rewrite Ea. cbn. destruct (Hn asize Ea) as [Hge Hn'].
  destruct (size <? asize) eqn:Es; [eauto |]. destruct (lookup_lt_is_Some_2 ace 0 ltac:(lia)) as [type ->]. cbn.
  destruct (known_ace_type type); [| by eauto]. cbn. pose proof (read16_range _ _ _ Hb Ea). rewrite uwrap_small by lia.
  unfold ace_next. rewrite Ea. cbn.
  assert (Hrec : exists b, aces_valid n (advance ace asize) (size - asize) = Some b).
  { apply IH; [by apply bytes_advance | done |]. rewrite length_advance; lia. }
  unfold sid_valid_size. destruct (8 <=? asize - 8) eqn:E16; cbn; [| eauto].
  unfold sid_len. rewrite lookup_drop. destruct (lookup_lt_is_Some_2 ace (8 + 1) ltac:(lia)) as [c ->]. cbn.
  destruct (8 + 4 * c <=? asize - 8); [exact Hrec | eauto].
Qed.

(** ** Lists and descriptors *)

Definition acl_inside (acl : list Z) (size : Z) : Prop :=
  8 <= size /\ exists count es, acl_count acl = Some count /\ ace_walk (Z.to_nat count) (ace_first acl) 8 = Some es /\
    Forall (entry_inside (Z.min size MAX_ACL_LEN)) es.

Lemma acl_is_valid_inside acl size : Forall is_byte acl -> acl_is_valid acl size = Some true -> acl_inside acl size.
Proof.
  intros Hb. unfold acl_is_valid, acl_inside. destruct (size <? 8) eqn:E; [done |].
  destruct (acl_count acl) as [count |]; [| done]. cbn. intros H. split; [lia |].
  destruct (aces_valid_inside _ _ _ 8 (bytes_drop 8 _ Hb) H) as (es & Hw & Hin). exists count, es. split_and!; [done | done |].
  by replace (Z.min size MAX_ACL_LEN) with (8 + (Z.min size MAX_ACL_LEN - 8)) by lia.
Qed.

Definition acl_no_short (acl : list Z) : Prop := forall count, acl_count acl = Some count -> no_short (Z.to_nat count) (ace_first acl).

Lemma acl_is_valid_total acl size :
  Forall is_byte acl -> acl_no_short acl -> size <= Z.of_nat (length acl) -> exists b, acl_is_valid acl size = Some b.
Proof.
  intros Hb Hn Hl. unfold acl_is_valid. destruct (size <? 8) eqn:E; [eauto |].
  destruct (read16_some acl 4 ltac:(lia)) as [count Ec]. change (read16 acl 4) with (acl_count acl) in Ec. rewrite Ec. cbn.
  apply aces_valid_total; [by apply bytes_drop | by apply Hn |]. unfold ace_first. rewrite length_drop. lia.
Qed.

Lemma part_valid_true limit offset len size part valid :
  part_valid limit offset len size part valid = Some true ->
  len < limit /\ offset + len <= size /\ forall p, part = Some p -> valid p len = Some true.
Proof.
  unfold part_valid. destruct (limit <=? len) eqn:E1; [done |]. destruct (size <? offset + len) eqn:E2; [done |]. cbn.
  intros H. split_and!; [lia | lia |]. intros p ->. done.
Qed.

(** The four parts of a descriptor. *)
Record sd_parts := mkParts { sp_owner : Z; sp_group : Z; sp_sacl : Z; sp_dacl : Z }.

Definition sd_lengths (sd : list Z) : option sd_parts :=
  o ← owner_len sd; g ← group_len sd; s ← sacl_len sd; d ← dacl_len sd; Some (mkParts o g s d).

(** Every part that is there lies inside the descriptor, and what it refers to lies inside
    the part. *)
Definition sd_contained (sd : list Z) (size : Z) : Prop :=
  exists l, sd_lengths sd = Some l /\ 20 + sp_owner l + sp_group l + sp_sacl l + sp_dacl l <= size /\
    (forall p, sd_get_owner sd = Some (Some p) -> exists n, sid_len p = Some n /\ n <= sp_owner l) /\
    (forall p, sd_get_group sd = Some (Some p) -> exists n, sid_len p = Some n /\ n <= sp_group l) /\
    (forall c p, sd_get_sacl sd = Some (c, Some p) -> acl_inside p (sp_sacl l)) /\
    (forall c p, sd_get_dacl sd = Some (c, Some p) -> acl_inside p (sp_dacl l)).

(** A pointer to a part is a part of the memory. *)
Lemma sacl_bytes sd c p : Forall is_byte sd -> sd_get_sacl sd = Some (c, Some p) -> Forall is_byte p.
Proof.
  intros Hb. unfold sd_get_sacl. destruct (sd_control sd); [| done]. destruct (owner_len sd); [| done].
  destruct (group_len sd); [| done]. destruct (sacl_len sd) as [s |]; [| done]. cbn.
  destruct (s =? 0); [done |]. intros [= _ <-]. by apply bytes_advance, bytes_drop.
Qed.

Lemma dacl_bytes sd c p : Forall is_byte sd -> sd_get_dacl sd = Some (c, Some p) -> Forall is_byte p.
Proof.
  intros Hb. unfold sd_get_dacl. destruct (sd_control sd); [| done]. destruct (owner_len sd); [| done].
  destruct (group_len sd); [| done]. destruct (sacl_len sd); [| done]. destruct (dacl_len sd) as [d |]; [| done]. cbn.
  destruct (d =? 0); [done |]. intros [= _ <-]. by apply bytes_advance, bytes_drop.
Qed.

Lemma sd_is_valid_contained sd size : Forall is_byte sd -> sd_is_valid sd size = Some true -> sd_contained sd size.
Proof.
  intros Hb. unfold sd_is_valid, sd_contained, sd_lengths. destruct (size <? 20) eqn:E20; [done |].
  destruct (owner_len sd) as [o |] eqn:Eo; [| done]. cbn. destruct (sd_get_owner sd) as [ow |]; [| done]. cbn.
  destruct (part_valid 1028 20 o size ow sid_valid_size) as [[] |] eqn:P1; try done. cbn.
  destruct (group_len sd) as [g |] eqn:Eg; [| done]. cbn. destruct (sd_get_group sd) as [gr |]; [| done]. cbn.
  destruct (part_valid 1028 (20 + o) g size gr sid_valid_size) as [[] |] eqn:P2; try done. cbn.
  destruct (sacl_len sd) as [sl |] eqn:Es; [| done]. cbn. destruct (sd_get_sacl sd) as [[cs sa] |] eqn:Gs; [| done]. cbn.
  destruct (part_valid MAX_ACL_LEN (20 + o + g) sl size sa acl_is_valid) as [[] |] eqn:P3; try done. cbn.
  destruct (dacl_len sd) as [d |] eqn:Ed; [| done]. cbn. destruct (sd_get_dacl sd) as [[cd da] |] eqn:Gd; [| done]. cbn. intros P4.
  apply part_valid_true in P1 as (_ & B1 & V1), P2 as (_ & B2 & V2), P3 as (_ & B3 & V3), P4 as (_ & B4 & V4).
  eexists. split; [done |]. cbn. split_and!; [lia | | | |].
  - intros p [= ->]. by apply sid_valid_true, V1.
  - intros p [= ->]. by apply sid_valid_true, V2.
  - intros c p [= _ ->]. apply acl_is_valid_inside; [by eapply sacl_bytes | by apply V3].
  - intros c p [= _ ->]. apply acl_is_valid_inside; [by eapply dacl_bytes | by apply V4].
Qed.

(** Validation reads inside the descriptor only, when no entry is too short. *)
Lemma part_valid_total limit offset len size part valid :
  (forall p, part = Some p -> len < limit -> offset + len <= size -> exists b, valid p len = Some b) ->
  exists b, part_valid limit offset len size part valid = Some b.
Proof.
  intros H. unfold part_valid. destruct (limit <=? len) eqn:E1; [cbn; eauto |]. destruct (size <? offset + len) eqn:E2; [cbn; eauto |]. cbn.
  destruct part as [p |]; [apply H; [done | lia | lia] | eauto].
Qed.

Lemma sid_valid_total sid size : size <= Z.of_nat (length sid) -> exists b, sid_valid_size sid size = Some b.
Proof.
  intros H. unfold sid_valid_size. destruct (8 <=? size) eqn:E; [| eauto]. unfold sid_len.
  destruct (lookup_lt_is_Some_2 sid 1 ltac:(lia)) as [c ->]. cbn. eauto.
Qed.

Definition sd_no_short (sd : list Z) : Prop :=
  (forall c p, sd_get_sacl sd = Some (c, Some p) -> acl_no_short p) /\ (forall c p, sd_get_dacl sd = Some (c, Some p) -> acl_no_short p).

Lemma sd_is_valid_total sd : Forall is_byte sd -> sd_no_short sd -> exists b, sd_is_valid sd (Z.of_nat (length sd)) = Some b.
Proof.
  intros Hb [Hs Hd]. unfold sd_is_valid. destruct (Z.of_nat (length sd) <? 20) eqn:E20; [eauto |].
  destruct (read32_some sd 0 ltac:(lia)) as [c Ec]. destruct (read32_some sd 4 ltac:(lia)) as [o Eo].
  destruct (read32_some sd 8 ltac:(lia)) as [g Eg]. destruct (read32_some sd 12 ltac:(lia)) as [sl Es].
  destruct (read32_some sd 16 ltac:(lia)) as [d Ed].
  pose proof (read32_range _ _ _ Hb Eo). pose proof (read32_range _ _ _ Hb Eg). pose proof (read32_range _ _ _ Hb Es). pose proof (read32_range _ _ _ Hb Ed).
  unfold sd_get_sacl, sd_get_dacl, sd_control, owner_len, group_len, sacl_len, dacl_len in Hs, Hd.
  rewrite Ec, Eo, Eg, Es in Hs. rewrite Ec, Eo, Eg, Es, Ed in Hd. cbn in Hs, Hd.
  unfold sd_get_owner, sd_get_group, sd_get_sacl, sd_get_dacl, sd_control, owner_len, group_len, sacl_len, dacl_len.
  rewrite Ec, Eo, Eg, Es, Ed. cbn.
  assert (Hl : forall n, 0 <= n -> 20 + n <= Z.of_nat (length sd) -> Z.of_nat (length (advance (drop 20 sd) n)) = Z.of_nat (length sd) - 20 - n).
  { intros n Hn Hle. rewrite length_advance; rewrite length_drop; lia. }
  edestruct (part_valid_total 1028 20 o (Z.of_nat (length sd))) as [b1 ->]; [| destruct b1; cbn; [| eauto]].
  { intros p Hp _ Hle. destruct (o =? 0); [done |]. injection Hp as <-. apply sid_valid_total. rewrite length_drop. lia. }
  edestruct (part_valid_total 1028 (20 + o) g (Z.of_nat (length sd))) as [b2 ->]; [| destruct b2; cbn; [| eauto]].
  { intros p Hp _ Hle. destruct (g =? 0); [done |]. injection Hp as <-. apply sid_valid_total. rewrite Hl; lia. }
  edestruct (part_valid_total MAX_ACL_LEN (20 + o + g) sl (Z.of_nat (length sd))) as [b3 ->]; [| destruct b3; cbn; [| eauto]].
  { intros p Hp _ Hle. destruct (sl =? 0); [done |]. injection Hp as <-.
    apply acl_is_valid_total; [by apply bytes_advance, bytes_drop | by eapply Hs | rewrite Hl; lia]. }
  apply part_valid_total. intros p Hp _ Hle. destruct (d =? 0); [done |]. injection Hp as <-.
  apply acl_is_valid_total; [by apply bytes_advance, bytes_drop | by eapply Hd | rewrite Hl; lia].
Qed.

(** * What an access check grants *)

(** ** Bits *)

Lemma has_flag_false d a b : has_flag d a = false -> Z.testbit d b = true -> Z.testbit a b = false.
Proof.
  unfold has_flag. intros H Hd. assert (E : Z.land d a = 0) by lia.
  pose proof (Z.land_spec d a b) as Hs. rewrite E, Z.bits_0, Hd in Hs. by destruct (Z.testbit a b).
Qed.

Lemma not32_bit x b : 0 <= b < 32 -> Z.testbit (not32 x) b = negb (Z.testbit x b).
Proof. intros H. unfold not32, uwrap. rewrite Z.mod_pow2_bits_low by lia. apply Z.lnot_spec. lia. Qed.

Lemma not32_high x b : 32 <= b -> Z.testbit (not32 x) b = false.
Proof. intros H. unfold not32, uwrap. apply Z.mod_pow2_bits_high. lia. Qed.

Lemma bit32 d b : 0 <= d < 2 ^ 32 -> Z.testbit d b = true -> 0 <= b < 32.
Proof.
  intros Hd Hb. destruct (Z.lt_ge_cases b 0); [by rewrite Z.testbit_neg_r in Hb by lia |]. split; [done |].
  destruct (Z.lt_ge_cases b 32); [done |]. exfalso.
  rewrite <- (Z.mod_small d (2 ^ 32)), Z.mod_pow2_bits_high in Hb by lia. done.
Qed.

Lemma land_subset c d : Z.land c d = d <-> forall b, Z.testbit d b = true -> Z.testbit c b = true.
Proof.
  split.
  - intros E b Hb. rewrite <- E, Z.land_spec in Hb. apply andb_true_iff in Hb. tauto.
  - intros H. apply Z.bits_inj'. intros b _. rewrite Z.land_spec. destruct (Z.testbit d b) eqn:Ed; [| apply andb_false_r].
    by rewrite (H b Ed).
Qed.

(** ** Rules *)

(** A rule allows or denies the rights in its mask. *)
Definition rule : Type := bool * Z.

(** The rules of [n] entries for the token: those it is a member for, that are not only
    meant to be inherited. *)
Fixpoint rules (t : token) (mapping : generic_map) (n : nat) (ace : list Z) : option (list rule) :=
  match n with
  | O => Some []
  | S n' =>
      flags ← ace !! 1%nat; type ← ace !! 0%nat; mask ← read32 ace 4; next ← ace_next ace;
      rest ← rules t mapping n' next;
      if has_flag flags INHERIT_ONLY_ACE then Some rest
      else if type =? ACCESS_DENIED_ACE_TYPE then
        p ← token_sid_present t (drop 8 ace) true; Some (if (p : bool) then (false, map_access mask mapping) :: rest else rest)
      else if type =? ACCESS_ALLOWED_ACE_TYPE then
        p ← token_sid_present t (drop 8 ace) false; Some (if (p : bool) then (true, map_access mask mapping) :: rest else rest)
      else Some rest
  end.

Definition allow_mask (rs : list rule) : Z := foldr (fun r m => if r.1 : bool then Z.lor r.2 m else m) 0 rs.
Definition deny_mask (rs : list rule) : Z := foldr (fun r m => if r.1 : bool then m else Z.lor r.2 m) 0 rs.

(** The rules before the first that denies a right asked for. *)
Fixpoint undenied (desired : Z) (rs : list rule) : list rule :=
  match rs with
  | [] => []
  | r :: rs' => if negb r.1 && has_flag desired r.2 then [] else r :: undenied desired rs'
  end.

(** What the first rule that mentions right [b] says. *)
Fixpoint first_match (b : Z) (rs : list rule) : option bool :=
  match rs with
  | [] => None
  | r :: rs' => if Z.testbit r.2 b then Some r.1 else first_match b rs'
  end.

(** The loop on rules. *)
Fixpoint scan (desired : Z) (rs : list rule) (current denied : Z) : Z * Z :=
  match rs with
  | [] => (current, denied)
  | (true, access) :: rs' =>
      scan desired rs' (Z.lor current (if has_flag desired MAXIMUM_ALLOWED then access else Z.land access (not32 denied))) denied
  | (false, access) :: rs' =>
      if has_flag desired MAXIMUM_ALLOWED then scan desired rs' current (Z.lor denied access)
      else
        let denied := Z.lor denied (Z.land access (not32 current)) in
        if has_flag desired access then (current, denied) else scan desired rs' current denied
  end.

Lemma check_aces_scan t desired mapping n ace current denied rs :
  desired <> 0 -> rules t mapping n ace = Some rs -> check_aces t desired mapping n ace current denied = Some (scan desired rs current denied).
Proof.
  intros Hd. revert ace current denied rs. induction n as [| n IH]; intros ace current denied rs; cbn; [by intros [= <-] |].
  destruct (ace !! 1%nat) as [flags |]; [| done]. cbn. destruct (ace !! 0%nat) as [type |]; [| done]. cbn.
  destruct (read32 ace 4) as [mask |]; [| done]. cbn. destruct (ace_next ace) as [next |]; [| done]. cbn.
  destruct (rules t mapping n next) as [rest |] eqn:Er; [| done]. cbn. specialize (fun c d => IH next c d rest Er).
  assert (E0 : (desired =? 0) = false) by lia. rewrite E0.
  destruct (has_flag flags INHERIT_ONLY_ACE); [intros [= <-]; apply IH |].
  destruct (type =? ACCESS_DENIED_ACE_TYPE).
  - destruct (token_sid_present t (drop 8 ace) true) as [[] |]; cbn; try done; intros [= <-]; [| apply IH]. cbn.
    destruct (has_flag desired MAXIMUM_ALLOWED); [apply IH |]. destruct (has_flag desired (map_access mask mapping)); [done | apply IH].
  - destruct (type =? ACCESS_ALLOWED_ACE_TYPE); [| intros [= <-]; apply IH].
    destruct (token_sid_present t (drop 8 ace) false) as [[] |]; cbn; try done; intros [= <-]; [| apply IH]. cbn.
    destruct (has_flag desired MAXIMUM_ALLOWED); apply IH.
Qed.

(** Rights asked for by name: they are granted by a rule before any of them is denied. *)
Lemma scan_named desired rs current denied b :
  has_flag desired MAXIMUM_ALLOWED = false -> 0 <= desired < 2 ^ 32 -> Z.testbit desired b = true ->
  (forall b, Z.testbit desired b = true -> Z.testbit denied b = false) ->
  Z.testbit (scan desired rs current denied).1 b = Z.testbit current b || Z.testbit (allow_mask (undenied desired rs)) b.
Proof.
  intros Hmax Hd Hb. revert current denied. induction rs as [| [[] access] rs IH]; intros current denied Hden; cbn [scan undenied].
  - cbn. by rewrite Z.bits_0, orb_false_r.
  - cbn [fst snd negb andb allow_mask foldr]. rewrite Hmax, (IH _ _ Hden), !Z.lor_spec, Z.land_spec.
    rewrite not32_bit by (by apply (bit32 desired)). rewrite (Hden b Hb). cbn. fold (allow_mask (undenied desired rs)).
    by destruct (Z.testbit current b), (Z.testbit access b).
  - rewrite Hmax. cbn [fst snd negb andb]. destruct (has_flag desired access) eqn:E; cbn [fst].
    + cbn. by rewrite Z.bits_0, orb_false_r.
    + rewrite IH; [done |]. intros c Hc. rewrite Z.lor_spec, Z.land_spec, (Hden c Hc), (has_flag_false _ _ c E Hc). done.
Qed.

(** All rights that are allowed: denied ones are taken away, wherever the rule stands. *)
Lemma scan_maximum desired rs current denied :
  has_flag desired MAXIMUM_ALLOWED = true ->
  (scan desired rs current denied) = (Z.lor current (allow_mask rs), Z.lor denied (deny_mask rs)).
Proof.
  intros Hmax. revert current denied. induction rs as [| [[] access] rs IH]; intros current denied; cbn [scan].
  - cbn. by rewrite !Z.lor_0_r.
  - rewrite Hmax, IH. cbn. by rewrite Z.lor_assoc.
  - rewrite Hmax, IH. cbn. by rewrite Z.lor_assoc.
Qed.

Lemma undenied_first_match desired rs b :
  Z.testbit desired b = true -> Z.testbit (allow_mask (undenied desired rs)) b = true -> first_match b rs = Some true.
Proof.
  intros Hb. induction rs as [| [[] access] rs IH]; cbn.
  - by rewrite Z.bits_0.
  - rewrite Z.lor_spec. destruct (Z.testbit access b); cbn; [done | apply IH].
  - destruct (has_flag desired access) eqn:E; cbn; [by rewrite Z.bits_0 |]. by rewrite (has_flag_false _ _ b E Hb).
Qed.

(** ** The check *)

(** What a token has regardless of the DACL: the right its privilege gives, and those of
    the owner. *)
Definition base_access (own : bool) (desired : Z) : Z :=
  Z.lor (if has_flag desired ACCESS_SYSTEM_SECURITY then ACCESS_SYSTEM_SECURITY else 0)
    (if own then Z.lor STANDARD_RIGHTS_REQUIRED SYNCHRONIZE else 0).

Definition granted_by (desired base : Z) (rs : list rule) : Z :=
  if has_flag desired MAXIMUM_ALLOWED then Z.land (Z.lor base (allow_mask rs)) (not32 (deny_mask rs))
  else if Z.land (Z.lor base (allow_mask (undenied desired rs))) desired =? desired then desired else 0.

Lemma scan_granted desired base rs :
  0 <= desired < 2 ^ 32 ->
  (let r := scan desired rs base 0 in
   if has_flag desired MAXIMUM_ALLOWED then Z.land r.1 (not32 r.2)
   else if Z.land r.1 desired =? desired then Z.land r.1 desired else 0) = granted_by desired base rs.
Proof.
  intros Hd. cbn zeta. unfold granted_by. destruct (has_flag desired MAXIMUM_ALLOWED) eqn:Hmax.
  - rewrite scan_maximum by done. by rewrite Z.lor_0_l.
  - assert (E : Z.land (scan desired rs base 0).1 desired = Z.land (Z.lor base (allow_mask (undenied desired rs))) desired).
    { apply Z.bits_inj'. intros b _. rewrite !Z.land_spec, Z.lor_spec. destruct (Z.testbit desired b) eqn:Hb; [| by rewrite !andb_false_r].
      rewrite (scan_named desired rs base 0 b) by (done || (intros; apply Z.bits_0)). done. }
    rewrite E. destruct (_ =? desired) eqn:E'; lia.
Qed.

(** Without the shortcut for exactly the owner's rights. *)
Lemma check_dacl_granted t owner acl desired mapping current own count rs pc priv :
  token_sid_present t owner false = Some own -> acl_count acl = Some count -> rules t mapping (Z.to_nat count) (ace_first acl) = Some rs ->
  0 < desired < 2 ^ 32 -> has_flag desired MAXIMUM_ALLOWED = false \/ has_flag (Z.lor current (Z.lor STANDARD_RIGHTS_REQUIRED SYNCHRONIZE)) MAXIMUM_ALLOWED = false ->
  let base := if own then Z.lor current (Z.lor STANDARD_RIGHTS_REQUIRED SYNCHRONIZE) else current in
  let g := granted_by desired base rs in
  check_dacl t owner acl desired mapping current pc priv =
    Some (mkAccess STATUS_SUCCESS g (Some (if negb (g =? 0) then STATUS_SUCCESS else STATUS_ACCESS_DENIED)) pc priv).
Proof.
  intros Hown Hc Hr Hd Hm. cbn zeta. unfold check_dacl. rewrite Hown. cbn.
  destruct (own && (desired =? (if own then Z.lor current (Z.lor STANDARD_RIGHTS_REQUIRED SYNCHRONIZE) else current))) eqn:E.
  - destruct own; [| done]. cbn in E. assert (Ed : desired = Z.lor current (Z.lor STANDARD_RIGHTS_REQUIRED SYNCHRONIZE)) by lia.
    rewrite <- Ed in Hm |- *. assert (Hn : has_flag desired MAXIMUM_ALLOWED = false) by (by destruct Hm).
    assert (Eg : granted_by desired desired rs = desired); [| rewrite Eg; destruct (desired =? 0) eqn:E0; [lia | done]].
    unfold granted_by. rewrite Hn. rewrite (proj2 (land_subset _ _)); [by rewrite Z.eqb_refl |].
    intros b Hb. by rewrite Z.lor_spec, Hb.
  - rewrite Hc. cbn. erewrite check_aces_scan; [| lia | exact Hr]. cbn. rewrite <- scan_granted by lia. done.
Qed.
