(* ===== verification/SecurityTheorems.v ===== *)
(** * Theorems on descriptors and access checks *)

From stdpp Require Import base list.
From Stdlib Require Import ZArith Lia ZifyBool.
From S2P Require Import Prelude Handle Security SecurityProofs.

Open Scope Z_scope.

(** ** Reading a validated descriptor *)

(** A SID that lies in its memory. *)
Definition sid_ok (sid : list Z) : Prop := exists n, sid_len sid = Some n /\ 0 <= n <= Z.of_nat (length sid).

Definition token_ok (t : token) : Prop := sid_ok (tk_user t) /\ Forall (fun g => sid_ok (gr_sid g)) (tk_groups t).

Lemma equal_sid_total s1 s2 : sid_ok s1 -> sid_ok s2 -> exists b, equal_sid s1 s2 = Some b.
Proof.
  intros (n1 & E1 & L1) (n2 & E2 & L2). unfold equal_sid, sid_len in *.
  destruct (s1 !! 1%nat) as [c1 |]; [| done]. destruct (s2 !! 1%nat) as [c2 |]; [| done]. cbn in *.
  injection E1 as <-. injection E2 as <-. destruct (c1 =? c2) eqn:E; [| eauto]. cbn. unfold copy.
  rewrite (proj2 (Z.leb_le _ _)) by lia. cbn. rewrite (proj2 (Z.leb_le _ _)) by lia. cbn. eauto.
Qed.

Lemma groups_present_total gs sid deny :
  Forall (fun g => sid_ok (gr_sid g)) gs -> sid_ok sid -> exists b, groups_present gs sid deny = Some b.
Proof.
  intros Hg Hs. induction Hg as [| g gs Hsid Hg IH]; cbn; [eauto |].
  destruct (negb (has_flag (gr_attrs g) SE_GROUP_ENABLED)); [done |]. destruct (negb deny && _); [done |].
  destruct (equal_sid_total _ _ Hsid Hs) as [[] ->]; cbn; eauto.
Qed.

Lemma sid_present_total t sid deny : token_ok t -> sid_ok sid -> exists b, token_sid_present t sid deny = Some b.
Proof.
  intros [Hu Hg] Hs. unfold token_sid_present. destruct (equal_sid_total _ _ Hu Hs) as [[] ->]; cbn; [eauto |].
  by apply groups_present_total.
Qed.

Lemma sid_len_nonneg sid n : Forall is_byte sid -> sid_len sid = Some n -> 0 <= n.
Proof.
  unfold sid_len. intros Hb. destruct (sid !! 1%nat) as [c |] eqn:E; [| done]. cbn. intros [= <-].
  rewrite Forall_lookup in Hb. pose proof (Hb _ _ E) as H. unfold is_byte in H. lia.
Qed.

(** The SID of a valid entry that is not too short. *)
Lemma valid_ace_cases n ace size :
  Forall is_byte ace -> aces_valid (S n) ace size = Some true -> no_short (S n) ace -> size <= Z.of_nat (length ace) ->
  exists asize type, ace_size ace = Some asize /\ 8 <= asize <= size /\ 8 <= size /\ ace !! 0%nat = Some type /\ sid_ok (drop 8 ace) /\
    aces_valid n (advance ace asize) (size - asize) = Some true /\ no_short n (advance ace asize).
Proof.
  intros Hb Hv Hn Hl. cbn in Hv. destruct (size <? 8) eqn:E8; [done |]. destruct (ace_size ace) as [asize |] eqn:Ea; [| done].
  cbn in Hv. destruct (size <? asize) eqn:Es; [done |]. destruct (ace !! 0%nat) as [type |]; [| done]. cbn in Hv.
  destruct (known_ace_type type); [| done]. cbn in Hv. destruct (sid_valid_size _ _) as [[] |] eqn:Ev; try done. cbn in Hv.
  unfold ace_next in Hv. rewrite Ea in Hv. cbn in Hv. destruct (Hn asize Ea) as [Hge Hn'].
  exists asize, type. split_and!; try done; try lia. pose proof (read16_range _ _ _ Hb Ea).
  rewrite uwrap_small in Ev by lia. destruct (sid_valid_true _ _ Ev) as (m & Hm & Hle). exists m. split; [done |].
  pose proof (sid_len_nonneg _ _ (bytes_drop 8 _ Hb) Hm). rewrite length_drop. lia.
Qed.

Lemma check_aces_total t desired mapping n ace size current denied :
  token_ok t -> Forall is_byte ace -> aces_valid n ace size = Some true -> no_short n ace -> size <= Z.of_nat (length ace) ->
  exists r, check_aces t desired mapping n ace current denied = Some r.
Proof.
  intros Ht. revert ace size current denied. induction n as [| n IH]; intros ace size current denied Hb Hv Hn Hl; [cbn; eauto |].
  destruct (valid_ace_cases n ace size Hb Hv Hn Hl) as (asize & type & Ea & Hle & H8 & Ety & Hsid & Hv' & Hn').
  assert (Hrec : forall c d, exists r, check_aces t desired mapping n (advance ace asize) c d = Some r).
  { intros c d. apply (IH _ (size - asize)); [by apply bytes_advance | done | done |]. rewrite length_advance; lia. }
  cbn. destruct (lookup_lt_is_Some_2 ace 1 ltac:(lia)) as [flags ->]. cbn. unfold ace_next. rewrite Ea, Ety. cbn.
  destruct (read32_some ace 4 ltac:(lia)) as [mask ->]. cbn.
  destruct (sid_present_total t _ true Ht Hsid) as [p1 ->], (sid_present_total t _ false Ht Hsid) as [p2 ->]. cbn.
  repeat case_match; eauto.
Qed.

Lemma sd_sids sd l :
  Forall is_byte sd -> sd_lengths sd = Some l -> 20 + sp_owner l + sp_group l + sp_sacl l + sp_dacl l <= Z.of_nat (length sd) ->
  0 <= sp_owner l /\ 0 <= sp_group l /\ 0 <= sp_sacl l /\ 0 <= sp_dacl l /\
  (forall p, sd_get_owner sd = Some (Some p) -> Forall is_byte p /\ sp_owner l <= Z.of_nat (length p)) /\
  (forall c p, sd_get_dacl sd = Some (c, Some p) -> Forall is_byte p /\ sp_dacl l <= Z.of_nat (length p)).
Proof.
  intros Hb. unfold sd_lengths, sd_get_owner, sd_get_dacl.
  destruct (owner_len sd) as [o |] eqn:Eo; [| done]. destruct (group_len sd) as [g |] eqn:Eg; [| done].
  destruct (sacl_len sd) as [s |] eqn:Es; [| done]. destruct (dacl_len sd) as [d |] eqn:Ed; [| done]. cbn. intros [= <-]. cbn. intros Hle.
  pose proof (read32_range _ _ _ Hb Eo). pose proof (read32_range _ _ _ Hb Eg). pose proof (read32_range _ _ _ Hb Es).
  pose proof (read32_range _ _ _ Hb Ed). split_and!; try lia.
  - intros p. destruct (o =? 0); [done |]. intros [= <-]. split; [by apply bytes_drop | rewrite length_drop; lia].
  - intros c p. destruct (sd_control sd); [| done]. cbn. destruct (d =? 0); [done |]. intros [= _ <-].
    split; [by apply bytes_advance, bytes_drop |]. rewrite length_advance; rewrite length_drop; lia.
Qed.

Lemma part_of_valid_dacl sd size c p d :
  sd_is_valid sd size = Some true -> sd_get_dacl sd = Some (c, Some p) -> dacl_len sd = Some d -> acl_is_valid p d = Some true.
Proof.
  unfold sd_is_valid. destruct (size <? 20); [done |].
  destruct (owner_len sd) as [o |]; [| done]. cbn. destruct (sd_get_owner sd) as [ow |]; [| done]. cbn.
  destruct (part_valid _ _ _ _ _ _) as [[] |]; try done. cbn.
  destruct (group_len sd) as [g |]; [| done]. cbn. destruct (sd_get_group sd) as [gr |]; [| done]. cbn.
  destruct (part_valid _ _ _ _ _ _) as [[] |]; try done. cbn.
  destruct (sacl_len sd) as [sl |]; [| done]. cbn. destruct (sd_get_sacl sd) as [sa |]; [| done]. cbn.
  destruct (part_valid _ _ _ _ _ _) as [[] |]; try done. cbn. intros H Hd Hl. rewrite Hd, Hl in H. cbn in H.
  apply part_valid_true in H as (_ & _ & H). by apply H.
Qed.

Lemma acl_checked t desired mapping acl size current denied :
  token_ok t -> Forall is_byte acl -> acl_is_valid acl size = Some true -> acl_no_short acl -> size <= Z.of_nat (length acl) ->
  exists count r, acl_count acl = Some count /\ check_aces t desired mapping (Z.to_nat count) (ace_first acl) current denied = Some r.
Proof.
  intros Ht Hb Hv Hn Hl. unfold acl_is_valid in Hv. destruct (size <? 8) eqn:E8; [done |].
  destruct (acl_count acl) as [count |] eqn:Ec; [| done]. cbn in Hv. exists count.
  destruct (check_aces_total t desired mapping (Z.to_nat count) (ace_first acl) _ current denied Ht (bytes_drop 8 _ Hb) Hv (Hn _ Ec)) as [r Hr].
  { unfold ace_first. rewrite length_drop. lia. }
  by exists r.
Qed.

Lemma access_check_total t sd desired pc mapping :
  token_ok t -> Forall is_byte sd -> sd_no_short sd -> sd_is_valid sd (Z.of_nat (length sd)) = Some true ->
  exists r, token_access_check t sd desired pc mapping = Some r.
Proof.
  intros Ht Hb [_ Hns] Hv. destruct (sd_is_valid_contained _ _ Hb Hv) as (l & El & Hle & Ho & _ & _ & _).
  destruct (sd_sids sd l Hb El Hle) as (O1 & O2 & O3 & O4 & Hown & Hdacl).
  assert (Edl : dacl_len sd = Some (sp_dacl l)).
  { unfold sd_lengths in El. destruct (owner_len sd); [| done]. destruct (group_len sd); [| done]. destruct (sacl_len sd); [| done].
    destruct (dacl_len sd); [| done]. cbn in El. by injection El as <-. }
  assert (Hcl : is_Some (sd_control sd)) by (destruct (read32_some sd 0) as [v Ev]; [lia | unfold sd_control; by rewrite Ev]).
  assert (Hget : is_Some (sd_get_dacl sd) /\ is_Some (sd_get_owner sd) /\ is_Some (sd_get_group sd)).
  { unfold sd_lengths in El. unfold sd_get_dacl, sd_get_owner, sd_get_group. destruct Hcl as [c ->].
    destruct (owner_len sd); [| done]. destruct (group_len sd); [| done]. destruct (sacl_len sd); [| done]. destruct (dacl_len sd); [| done].
    cbn. eauto. }
  destruct Hget as ([[present dacl] Ed] & [owner Eo] & [grp Eg]).
  unfold token_access_check. destruct (has_flag desired _); [eauto |]. rewrite Ed, Eo, Eg. cbn.
  destruct owner as [ow |]; [| eauto]. destruct grp as [gr |]; [| eauto]. destruct present; [| eauto]. destruct dacl as [acl |]; [| eauto].
  assert (Hsid : sid_ok ow).
  { destruct (Ho ow Eo) as (n & Hn & Hnle). destruct (Hown ow Eo) as [Hob Hol]. exists n. split; [done |].
    pose proof (sid_len_nonneg _ _ Hob Hn). lia. }
  destruct (Hdacl _ _ Ed) as [Hab Hal]. pose proof (part_of_valid_dacl _ _ _ _ _ Hv Ed Edl) as Hav.
  assert (Hchk : forall current count priv, exists r, check_dacl t ow acl desired mapping current count priv = Some r).
  { intros current count priv. unfold check_dacl. destruct (sid_present_total t ow false Ht Hsid) as [own ->]. cbn.
    set (cur := if own then _ else _). destruct (own && _); [eauto |].
    destruct (acl_checked t desired mapping acl (sp_dacl l) cur 0 Ht Hab Hav (Hns _ _ Ed) Hal) as (n & r & -> & Hr). cbn. rewrite Hr. cbn. eauto. }
  repeat case_match; eauto.
Qed.

(** ** The theorems *)

(** C26: descriptors from clients are read in bounds.  Unless an entry of one of its lists
    gives a size below that of its own header, a descriptor of any bytes is validated
    without reading outside of it; of one that is accepted, all parts lie inside it, and
    all entries and SIDs inside their parts; and an access check of a token with it reads
    inside it too. *)
Theorem descriptors_read_in_bounds sd :
  Forall is_byte sd ->
  (sd_no_short sd -> exists b, sd_is_valid sd (Z.of_nat (length sd)) = Some b) /\
  (sd_is_valid sd (Z.of_nat (length sd)) = Some true -> sd_contained sd (Z.of_nat (length sd))) /\
  (sd_no_short sd -> sd_is_valid sd (Z.of_nat (length sd)) = Some true -> forall t desired pc mapping, token_ok t ->
     exists r, token_access_check t sd desired pc mapping = Some r).
Proof.
  intros Hb. split_and!.
  - by apply sd_is_valid_total.
  - by apply sd_is_valid_contained.
  - intros Hn Hv t desired pc mapping Ht. by apply access_check_total.
Qed.

(** C36: an entry too short for its own header is accepted.  The difference of its size and
    of the header wraps around, so the SID after it passes for any length: in a list of
    16 bytes with one such entry the SID begins where the list ends.  What follows in memory
    is taken for the SID, and when nothing follows validation itself reads outside. *)
Theorem short_entry_accepted revision pad size0 size1 pad0 pad1 type flags s m0 m1 m2 m3 after :
  0 <= s < 8 -> known_ace_type type = true -> Forall is_byte after ->
  let acl := [revision; pad; size0; size1; 1; 0; pad0; pad1] ++ [type; flags; s; 0; m0; m1; m2; m3] in
  acl_is_valid (acl ++ after) 16 = (if Nat.leb 2 (length after) then Some true else None) /\
  ace_walk 1 (ace_first (acl ++ after)) 8 = Some [(8, [type; flags; s; 0; m0; m1; m2; m3] ++ after)].
Proof.
  intros Hs Hk Ha. cbn zeta. set (ace := [type; flags; s; 0; m0; m1; m2; m3] ++ after).
  assert (Es : ace_size ace = Some s) by (unfold ace_size, read16; cbn; f_equal; lia).
  assert (Ew : u32 (s - 8) = s + 2 ^ 32 - 8) by (unfold uwrap; rewrite <- (Z.mod_unique_pos (s - 8) (2 ^ 32) (-1) (s + 2 ^ 32 - 8)); lia).
  change ((_ ++ _) ++ after) with ([revision; pad; size0; size1; 1; 0; pad0; pad1] ++ ace). split.
  - unfold acl_is_valid. change (acl_count _) with (Some 1). change (ace_first _) with ace. change (Z.min 16 MAX_ACL_LEN - 8) with 8.
    change (16 <? 8) with false. cbn [mbind option_bind]. change (Z.to_nat 1) with 1%nat. cbn [aces_valid].
    change (8 <? 8) with false. cbn iota. rewrite Es. cbn [mbind option_bind]. rewrite (proj2 (Z.ltb_ge _ _)) by lia.
    change (ace !! 0%nat) with (Some type). cbn [mbind option_bind]. rewrite Hk, Ew. cbn [negb].
    unfold sid_valid_size. rewrite (proj2 (Z.leb_le _ _)) by lia. change (drop 8 ace) with after. unfold sid_len, ace_next. rewrite Es.
    destruct after as [| x [| c l]]; [done | done |]. cbn.
    apply Forall_cons in Ha as [_ [Hc _]%Forall_cons]. unfold is_byte in Hc. rewrite (proj2 (Z.leb_le _ _)) by lia. done.
  - change (ace_first ([revision; pad; size0; size1; 1; 0; pad0; pad1] ++ ace)) with ace. cbn [ace_walk]. by rewrite Es.
Qed.

Lemma check_one_privilege t l attrs : (token_check_privileges t true [mkLuidAttr l attrs]).1 = is_held t l.
Proof.
  unfold token_check_privileges. destruct (is_held t l) eqn:E; [rewrite filter_cons_True by done | rewrite filter_cons_False by (cbn; congruence)];
    reflexivity.
Qed.

(** A rule of this kind is about a right. *)
Definition concerns (allows : bool) (rs : list rule) (b : Z) : Prop := exists access, (allows, access) ∈ rs /\ Z.testbit access b = true.

Lemma concerns_cons allows kind access rs b :
  concerns allows ((kind, access) :: rs) b <-> (kind = allows /\ Z.testbit access b = true) \/ concerns allows rs b.
Proof. unfold concerns. setoid_rewrite elem_of_cons. naive_solver. Qed.

Lemma allow_mask_bit rs b : Z.testbit (allow_mask rs) b = true <-> concerns true rs b.
Proof.
  induction rs as [| [[] access] rs IH]; [split; [by rewrite Z.bits_0 | by intros (? & ?%elem_of_nil & _)] | |]; rewrite concerns_cons, <- IH; cbn.
  - rewrite Z.lor_spec, orb_true_iff. naive_solver.
  - naive_solver.
Qed.

Lemma deny_mask_bit rs b : Z.testbit (deny_mask rs) b = true <-> concerns false rs b.
Proof.
  induction rs as [| [[] access] rs IH]; [split; [by rewrite Z.bits_0 | by intros (? & ?%elem_of_nil & _)] | |]; rewrite concerns_cons, <- IH; cbn.
  - naive_solver.
  - rewrite Z.lor_spec, orb_true_iff. naive_solver.
Qed.

(** Rights asked for by name: all of them or none. *)
Lemma granted_by_name desired base rs :
  has_flag desired MAXIMUM_ALLOWED = false ->
  (granted_by desired base rs = desired \/ granted_by desired base rs = 0) /\
  (desired <> 0 -> granted_by desired base rs = desired <-> forall b, Z.testbit desired b = true -> Z.testbit base b = true \/ concerns true (undenied desired rs) b).
Proof.
  intros Hm. unfold granted_by. rewrite Hm. setoid_rewrite <- allow_mask_bit. setoid_rewrite <- orb_true_iff. setoid_rewrite <- Z.lor_spec. rewrite <- land_subset.
  destruct (Z.eqb_spec (Z.land (Z.lor base (allow_mask (undenied desired rs))) desired) desired); split; auto; [done |]. intros Hd. split; [congruence | done].
Qed.

(** All rights that can be had. *)
Lemma granted_maximum desired base rs b :
  has_flag desired MAXIMUM_ALLOWED = true -> 0 <= b < 32 ->
  Z.testbit (granted_by desired base rs) b = true <-> (Z.testbit base b = true \/ concerns true rs b) /\ ~ concerns false rs b.
Proof.
  intros Hm Hb. unfold granted_by. rewrite Hm, Z.land_spec, andb_true_iff, not32_bit, negb_true_iff, Z.lor_spec, orb_true_iff by done.
  by rewrite allow_mask_bit, <- deny_mask_bit, not_true_iff_false.
Qed.

(** C25: the access check grants what the DACL says, when there is one and the descriptor has
    an owner and a group, no generic right is asked for, and the privilege for the right to
    the system list is held when that is asked for.  The base are the rights of the owner,
    and that of the privilege.  Rights asked for by name are granted all or none: all exactly
    when each of them is in the base or allowed by an entry that comes before the first
    entry that denies any of the rights asked for; so each was allowed by the first entry to
    mention it.  Asked for all rights, the check grants exactly those in the base or
    allowed by some entry that no entry denies, in whatever order. *)
Theorem access_check_exact t sd desired mapping acl owner grp own count rs :
  sd_get_dacl sd = Some (true, Some acl) -> sd_get_owner sd = Some (Some owner) -> sd_get_group sd = Some (Some grp) ->
  token_sid_present t owner false = Some own -> acl_count acl = Some count ->
  rules t mapping (Z.to_nat count) (ace_first acl) = Some rs ->
  0 < desired < 2 ^ 32 -> has_flag desired (Z.lor GENERIC_READ (Z.lor GENERIC_WRITE (Z.lor GENERIC_EXECUTE GENERIC_ALL))) = false ->
  (has_flag desired ACCESS_SYSTEM_SECURITY = true -> is_held t SeSecurityPrivilege = true) ->
  let base := base_access own desired in
  let granted := granted_by desired base rs in
  token_access_check t sd desired None mapping =
    Some (mkAccess STATUS_SUCCESS granted (Some (if negb (granted =? 0) then STATUS_SUCCESS else STATUS_ACCESS_DENIED)) None None) /\
  (has_flag desired MAXIMUM_ALLOWED = false ->
     (granted = desired \/ granted = 0) /\
     (granted = desired <-> forall b, Z.testbit desired b = true -> Z.testbit base b = true \/ concerns true (undenied desired rs) b) /\
     (granted = desired -> forall b, Z.testbit desired b = true -> Z.testbit base b = true \/ first_match b rs = Some true)) /\
  (has_flag desired MAXIMUM_ALLOWED = true -> forall b, 0 <= b < 32 ->
     Z.testbit granted b = true <-> (Z.testbit base b = true \/ concerns true rs b) /\ ~ concerns false rs b).
Proof.
  intros Hd Ho Hg Hown Hc Hr Hdes Hgen Hpriv base granted. split; [| split; [| by intros ? b; apply granted_maximum]].
  2:{ intros Hm. destruct (granted_by_name desired base rs Hm) as [H1 H2]. specialize (H2 ltac:(lia)). split_and!; [done | done |].
      intros E b Hb. destruct (proj1 H2 E b Hb) as [? | Ha]; [by left | right; apply (undenied_first_match desired rs b Hb); by apply allow_mask_bit]. }
  unfold token_access_check. rewrite Hgen, Hd, Ho, Hg. cbn [mbind option_bind].
  assert (Hmask : forall c, c = 0 \/ c = ACCESS_SYSTEM_SECURITY ->
    has_flag (Z.lor c (Z.lor STANDARD_RIGHTS_REQUIRED SYNCHRONIZE)) MAXIMUM_ALLOWED = false) by (by intros c [-> | ->]).
  assert (Hbase : forall c, base = Z.lor c (if own then Z.lor STANDARD_RIGHTS_REQUIRED SYNCHRONIZE else 0) ->
    (if own then Z.lor c (Z.lor STANDARD_RIGHTS_REQUIRED SYNCHRONIZE) else c) = base).
  { intros c ->. destruct own; [done | by rewrite Z.lor_0_r]. }
  destruct (has_flag desired ACCESS_SYSTEM_SECURITY) eqn:Hsys.
  - rewrite check_one_privilege, (Hpriv eq_refl). destruct (desired =? ACCESS_SYSTEM_SECURITY) eqn:E.
    + assert (Ed : desired = ACCESS_SYSTEM_SECURITY) by lia. assert (Eg : granted = ACCESS_SYSTEM_SECURITY); [| by rewrite Eg].
      unfold granted, granted_by. rewrite Ed. change (has_flag _ MAXIMUM_ALLOWED) with false. cbn iota.
      rewrite (proj2 (land_subset _ _)); [done |]. intros b Hb. unfold base, base_access. rewrite Hsys. by rewrite !Z.lor_spec, Hb.
    + rewrite (check_dacl_granted t owner acl desired mapping ACCESS_SYSTEM_SECURITY own count rs) by (done || (right; auto)).
      cbn zeta. by rewrite Hbase by (unfold base, base_access; by rewrite Hsys).
  - rewrite (check_dacl_granted t owner acl desired mapping 0 own count rs) by (done || (right; auto)).
    cbn zeta. by rewrite Hbase by (unfold base, base_access; by rewrite Hsys).
Qed.

(** ** Examples *)

Definition demo_user : list Z := [1; 1; 0; 0; 0; 0; 0; 5; 1; 0; 0; 0].
Definition demo_group : list Z := [1; 1; 0; 0; 0; 0; 0; 5; 2; 0; 0; 0].

Definition demo_token : token :=
  mkToken (mkLuid 1 0) (mkLuid 2 0) [] [mkGroup 7 demo_group] demo_user (Some 0%nat) (Some 0%nat) false 1 None 2 1 None.

Definition demo_ace (type mask : Z) (sid : list Z) : list Z := [type; 0; 20; 0; mask; 0; 0; 0] ++ sid.

(** Two rights allowed to the group, one denied to the user, one more allowed. *)
Definition demo_acl : list Z :=
  [2; 0; 68; 0; 3; 0; 0; 0] ++ demo_ace 0 3 demo_group ++ demo_ace 1 4 demo_user ++ demo_ace 0 12 demo_user.

Definition demo_sd : list Z := [4; 0; 0; 0; 12; 0; 0; 0; 12; 0; 0; 0; 0; 0; 0; 0; 68; 0; 0; 0] ++ [1; 1; 0; 0; 0; 0; 0; 5; 9; 0; 0; 0] ++ demo_group ++ demo_acl.

Definition demo_mapping : generic_map := mkMapping 1 2 4 7.

Lemma demo_sd_bytes : Forall is_byte demo_sd.
Proof. unfold is_byte. cbn. repeat (constructor; [lia |]). constructor. Qed.

Lemma demo_no_short : sd_no_short demo_sd.
Proof.
  split.
  - intros c p. vm_compute. discriminate.
  - intros c p H. vm_compute in H. injection H as _ <-. intros count Hc. vm_compute in Hc. injection Hc as <-.
    change (Z.to_nat 3) with 3%nat. cbn [no_short]. do 3 (intros ? H; vm_compute in H; injection H as <-; split; [lia |]). done.
Qed.

Lemma descriptors_read_in_bounds_witness :
  sd_is_valid demo_sd (Z.of_nat (length demo_sd)) = Some true /\ sd_contained demo_sd (Z.of_nat (length demo_sd)) /\
  exists r, token_access_check demo_token demo_sd 3 None demo_mapping = Some r.
Proof.
  destruct (descriptors_read_in_bounds demo_sd demo_sd_bytes) as (_ & H2 & H3). split_and!; [by vm_compute | apply H2; by vm_compute |].
  apply H3; [exact demo_no_short | by vm_compute |].
  split; [exists 12; split; [done | cbn; lia] |]. constructor; [exists 12; split; [done | cbn; lia] | constructor].
Defined.

Lemma short_entry_accepted_witness :
  acl_is_valid ([2; 0; 16; 0; 1; 0; 0; 0] ++ [0; 0; 0; 0; 255; 0; 0; 0] ++ [1; 255]) 16 = Some true.
Proof. apply (short_entry_accepted 2 0 16 0 0 0 0 0 0 255 0 0 0 [1; 255]); [lia | done | repeat constructor; unfold is_byte; lia]. Defined.

Lemma access_check_exact_witness :
  ac_granted <$> token_access_check demo_token demo_sd 3 None demo_mapping = Some 3 /\
  ac_granted <$> token_access_check demo_token demo_sd 7 None demo_mapping = Some 0 /\
  token_access_check demo_token demo_sd 0x02000000 None demo_mapping =
    Some (mkAccess STATUS_SUCCESS (granted_by 0x02000000 (base_access false 0x02000000) [(true, 3); (false, 4); (true, 12)])
      (Some STATUS_SUCCESS) None None).
Proof.
  split_and!; [by vm_compute | by vm_compute |].
  apply (access_check_exact demo_token demo_sd 0x02000000 demo_mapping (drop 44 demo_sd) (drop 20 demo_sd) (drop 32 demo_sd) false 3);
    by vm_compute.
Defined.
