(* ===== verification/TokenTheorems.v ===== *)
(** * Theorems on tokens

    What a token derived from another may do, how lists of labels are put together, and
    what becomes of default DACLs. *)

From stdpp Require Import base list relations.
From Stdlib Require Import ZArith Lia ZifyBool.
From S2P Require Import Prelude Fallible Handle Security SecurityProofs SecurityTheorems Token.

Open Scope Z_scope.

(** ** Groups *)

Definition usable (g : group) : bool := has_flag (gr_attrs g) SE_GROUP_ENABLED && negb (has_flag (gr_attrs g) SE_GROUP_USE_FOR_DENY_ONLY).

(** [g'] allows no more than [g]. *)
Definition weaker (g g' : group) : Prop := gr_sid g' = gr_sid g /\ (usable g' = true -> usable g = true).

#[export] Instance weaker_preorder : PreOrder weaker.
Proof.
  split; [done |]. intros g1 g2 g3 [E1 H1] [E2 H2]. split; [congruence | auto].
Qed.

Lemma has_flag_pow2 x k : 0 <= k -> has_flag x (2 ^ k) = Z.testbit x k.
Proof.
  intros Hk. unfold has_flag. destruct (Z.testbit x k) eqn:E.
  - assert (Hne : Z.land x (2 ^ k) <> 0); [| lia]. intros H0. pose proof (Z.land_spec x (2 ^ k) k) as Hs.
    rewrite H0, E, Z.bits_0, Z.pow2_bits_true in Hs by lia. done.
  - assert (H0 : Z.land x (2 ^ k) = 0); [| lia]. apply Z.bits_inj'. intros b Hb. rewrite Z.land_spec, Z.bits_0.
    destruct (Z.eq_dec b k) as [-> | Ne]; [by rewrite E |]. rewrite Z.pow2_bits_false by lia. apply andb_false_r.
Qed.

(** A group for denials only is not enabled. *)
Lemma deny_only_disabled g : has_flag (gr_attrs (deny_only g)) SE_GROUP_ENABLED = false.
Proof.
  change SE_GROUP_ENABLED with (2 ^ 2). rewrite has_flag_pow2 by lia. cbn [gr_attrs deny_only].
  rewrite Z.lor_spec, Z.land_spec, not32_bit by lia. change (Z.testbit SE_GROUP_USE_FOR_DENY_ONLY 2) with false.
  change (Z.testbit (Z.lor (2 ^ 2) SE_GROUP_ENABLED_BY_DEFAULT) 2) with true. by rewrite andb_false_r.
Qed.

Lemma deny_only_weaker g : weaker g (deny_only g).
Proof. split; [done |]. unfold usable. rewrite deny_only_disabled. done. Qed.

(** Membership for allowing looks at usable groups only. *)
Lemma groups_present_weaker gs gs' sid :
  Forall2 weaker gs gs' -> Forall (fun g => sid_ok (gr_sid g)) gs -> sid_ok sid ->
  groups_present gs' sid false = Some true -> groups_present gs sid false = Some true.
Proof.
  induction 1 as [| g g' gs gs' [Es Hu] Hgs IH]; [done |]. intros [Hg Hgs']%Forall_cons Hs. cbn. unfold usable in Hu. rewrite Es.
  destruct (equal_sid_total (gr_sid g) sid Hg Hs) as [e ->]. specialize (IH Hgs' Hs). cbn.
  destruct (has_flag (gr_attrs g') SE_GROUP_ENABLED) eqn:E1, (has_flag (gr_attrs g) SE_GROUP_ENABLED) eqn:E2,
    (has_flag (gr_attrs g') SE_GROUP_USE_FOR_DENY_ONLY) eqn:E3, (has_flag (gr_attrs g) SE_GROUP_USE_FOR_DENY_ONLY) eqn:E4;
    cbn in *; try (by auto); destruct e; try (by auto); try (exfalso; by discriminate Hu); auto.
Qed.

(** ** What duplication copies *)

(** A SID that fills its memory, as the ones of tokens do. *)
Definition sid_exact (sid : list Z) : Prop := sid_len sid = Some (Z.of_nat (length sid)).

Lemma sid_exact_ok sid : sid_exact sid -> sid_ok sid.
Proof. intros H. exists (Z.of_nat (length sid)). split; [done | lia]. Qed.

Definition token_wf (t : token) : Prop := sid_exact (tk_user t) /\ Forall (fun g => sid_exact (gr_sid g)) (tk_groups t).

Lemma token_wf_ok t : token_wf t -> token_ok t.
Proof. intros [Hu Hg]. split; [by apply sid_exact_ok |]. eapply Forall_impl; [exact Hg |]. intros g. apply sid_exact_ok. Qed.

(** The fields an access check looks at. *)
Definition same_rights (t t' : token) : Prop :=
  tk_user t' = tk_user t /\ tk_groups t' = tk_groups t /\ tk_privileges t' = tk_privileges t /\ tk_primary_group t' = tk_primary_group t.

#[export] Instance same_rights_preorder : PreOrder same_rights.
Proof. split; [done |]. intros t1 t2 t3 (?&?&?&?) (?&?&?&?). unfold same_rights. split_and!; congruence. Qed.

Section Ops.
Context (alloc_ok : nat -> bool).

Lemma copy_exact sid : sid_exact sid -> copy sid (Z.of_nat (length sid)) = Some sid.
Proof. intros _. unfold copy. rewrite Z.leb_refl. by rewrite Nat2Z.id, firstn_all. Qed.

Lemma memdup_some p n s b s' : memdup alloc_ok p n s = Some (Some b, s') -> copy p n = Some b.
Proof. unfold memdup. intros H. fstep H as ok E. destruct ok; [| fend H]. fstep H as c Ec. by fend H. Qed.

Lemma assign_label_same t label s b t' s' : token_assign_label alloc_ok t label s = Some ((b, t'), s') -> same_rights t t'.
Proof.
  unfold token_assign_label. intros H. fstep H as sd E. destruct sd as [sd |]; [| by fend H].
  fstep H as r Er. destruct r; by fend H.
Qed.

Lemma copy_labels_same n ace t s t' s' : copy_labels alloc_ok n ace t s = Some (t', s') -> same_rights t t'.
Proof.
  revert ace t s. induction n as [| n IH]; intros ace t s; cbn [copy_labels]; [intros H; by fend H |].
  intros H. fstep H as type Et. fstep H as r Er. fstep H as next En. apply IH in H. etrans; [| exact H].
  destruct (_ =? SYSTEM_MANDATORY_LABEL_ACE_TYPE); [destruct r; by eapply assign_label_same | by fend Er].
Qed.

(** Without groups and privileges of its own. *)
Lemma create_token_empty primary session user dacl mid pg level elevation s t s' :
  sid_exact user -> create_token alloc_ok primary session user [] [] dacl mid pg level elevation s = Some (Some t, s') ->
  tk_user t = user /\ tk_groups t = [] /\ tk_privileges t = [] /\ tk_primary_group t = None.
Proof.
  intros Hu. unfold create_token. intros H. fstep H as ok Eok. destruct ok; cbn [negb] in H; [| fend H].
  fstep H as id Eid. fstep H as mi Emi. fstep H as n En. rewrite Hu in En. injection En as <-.
  fstep H as u Eum. destruct u as [u |]; [| fend H]. apply memdup_some in Eum. rewrite copy_exact in Eum by done. injection Eum as <-.
  cbn [add_groups map add_privileges] in H. fstep H as g Eg. fend Eg. fstep H as p Ep. fend Ep.
  destruct dacl as [d |]; [| by fend H]. fstep H as size Esize. fstep H as dd Ed. destruct dd; [| fend H]. by fend H.
Qed.

Lemma copy_groups_spec src remove count gs i t s t' s' :
  copy_groups alloc_ok src remove count gs i t s = Some (Some t', s') ->
  tk_user t' = tk_user t /\ tk_privileges t' = tk_privileges t /\
  exists gs', tk_groups t' = tk_groups t ++ gs' /\
    Forall2 (fun g g' => exists f, filter_group g remove count = Some f /\ g' = if (f : bool) then deny_only g else g) gs gs'.
Proof.
  revert i t s. induction gs as [| g gs IH]; intros i t s; cbn [copy_groups].
  - intros H. fend H. split_and!; try done. exists []. by rewrite app_nil_r.
  - intros H. fstep H as ok Eok. destruct ok; [| fend H]. fstep H as f Ef. apply IH in H as (E1 & E2 & gs' & Eg & Hf). cbn in *.
    split_and!; [done | done |]. eexists. split; [rewrite Eg, <- (assoc_L app); done |]. constructor; [eauto | done].
Qed.

Lemma add_privileges_spec ps t s t' s' :
  add_privileges alloc_ok ps t s = Some (Some t', s') ->
  tk_user t' = tk_user t /\ tk_groups t' = tk_groups t /\ tk_privileges t' = tk_privileges t ++ map (fun p => mkPrivilege p.1 p.2 p.2) ps.
Proof.
  revert t s. induction ps as [| [l e] ps IH]; intros t s; cbn [add_privileges].
  - intros H. fend H. by rewrite app_nil_r.
  - intros H. fstep H as r Er. destruct r as [t1 |]; [| fend H]. unfold privilege_add in Er. fstep Er as ok Eok.
    destruct ok; fend Er. apply IH in H as (E1 & E2 & E3). cbn in *. split_and!; [done | done |]. by rewrite E3, <- (assoc_L app).
Qed.

(** The user is the same, the groups are the same or count for denials only, the
    privileges are those not removed. *)
Definition duplicate_of (src t : token) (rp : list luid_attr) (rg : list Z) (n : nat) : Prop :=
  tk_user t = tk_user src /\
  Forall2 (fun g g' => exists f, filter_group g rg n = Some f /\ g' = if (f : bool) then deny_only g else g) (tk_groups src) (tk_groups t) /\
  tk_privileges t = map (fun p => mkPrivilege (pr_luid p) (pr_enabled p) (pr_enabled p)) (filter (fun p => filter_privilege p rp = false) (tk_privileges src)).

Lemma token_duplicate_spec current src primary level sd rp rg n s t' s' :
  sid_exact (tk_user src) -> token_duplicate alloc_ok current src primary level sd rp rg n s = Some (Some t', s') ->
  duplicate_of src t' rp rg n.
Proof.
  intros Hu. unfold token_duplicate. destruct (negb primary && _); [intros H; fstep H as e E; fend H |].
  intros H. fstep H as r0 E0. destruct r0 as [t0 |]; [| fend H]. destruct (create_token_empty _ _ _ _ _ _ _ _ _ _ _ Hu E0) as (Eu & Eg & Ep & _).
  fstep H as r1 E1. destruct r1 as [t1 |]; [| fend H]. destruct (copy_groups_spec _ _ _ _ _ _ _ _ _ E1) as (Eu1 & Ep1 & gs & Eg1 & Hf).
  fstep H as pg Epg. fstep H as r2 E2. destruct r2 as [t2 |]; [| fend H]. destruct (add_privileges_spec _ _ _ _ _ E2) as (Eu2 & Eg2 & Ep2).
  rewrite Eg in Eg1. cbn in Eg1. rewrite Ep1, Ep in Ep2. rewrite map_map in Ep2. cbn in Ep2.
  assert (Hend : same_rights t2 t' -> duplicate_of src t' rp rg n).
  { intros (F1 & F2 & F3 & _). split_and!; [congruence | by rewrite F2, Eg2, Eg1 | by rewrite F3, Ep2]. }
  apply Hend. clear Hend E0 E1 E2. fstep H as t3 E3. transitivity t3.
  - destruct sd as [sd |]; [| by fend E3]. fstep E3 as nw Enw. fend E3. by destruct nw.
  - clear E3. destruct (tk_sd src) as [ssd |]; [| by fend H]. fstep H as sa Esa. destruct sa as [[] sa]; cbn [fst snd] in *; [| by fend H].
    fstep H as sacl Es. fstep H as cnt Ec. fstep H as t4 E4. fend H. by eapply copy_labels_same.
Qed.

End Ops.

(** ** Privileges *)

Lemma remove_privilege_sub l ps p : p ∈ remove_privilege l ps -> p ∈ ps.
Proof.
  induction ps as [| q ps IH]; cbn; [done |]. destruct (is_equal_luid l (pr_luid q)); rewrite ?elem_of_cons; [by right |].
  intros [-> | H]; [by left | right; auto].
Qed.

Lemma enable_privilege_luids l on ps : map pr_luid (enable_privilege l on ps) = map pr_luid ps.
Proof. induction ps as [| q ps IH]; cbn; [done |]. destruct (is_equal_luid l (pr_luid q)); cbn; congruence. Qed.

Lemma adjust_loop_luids privs room ps s saved ps' s' l :
  adjust_loop privs room ps s = Some ((saved, ps'), s') -> l ∈ map pr_luid ps' -> l ∈ map pr_luid ps.
Proof.
  revert room ps s saved. induction privs as [| a privs IH]; intros room ps s saved; cbn [adjust_loop]; [intros H; by fend H |].
  destruct (find_privilege (la_luid a) ps) as [p |].
  - destruct (has_flag (la_attrs a) SE_PRIVILEGE_REMOVED).
    + intros H Hl. apply (IH _ _ _ _ H) in Hl. apply list_elem_of_fmap in Hl as (q & -> & Hq). apply list_elem_of_fmap_2. by eapply remove_privilege_sub.
    + intros H Hl. fstep H as r Er. destruct r as [sv ps1]. rewrite <- (enable_privilege_luids (la_luid a) (has_flag (la_attrs a) SE_PRIVILEGE_ENABLED)).
      assert (ps1 = ps' /\ s0 = s') as [-> ->] by (destruct (Nat.eqb room 0); by fend H). by apply (IH _ _ _ _ Er).
  - intros H Hl. fstep H as e Ee. by apply (IH _ _ _ _ H).
Qed.

(** ** Tokens derived from a token *)

Section Derived.
Context (alloc_ok : nat -> bool).

(** One operation of a client on a token, or one that makes a token of it. *)
Inductive derives (t t' : token) : Prop :=
  | by_adjusting privs room saved s s' : token_adjust_privileges t privs room s = Some ((saved, t'), s') -> derives t t'
  | by_disabling s s' : token_disable_privileges t s = Some (t', s') -> derives t t'
  | by_default_dacl acl s s' : req_set_token_default_dacl alloc_ok t acl s = Some (t', s') -> derives t t'
  | by_duplicating current primary level sd rp rg n s s' :
      token_duplicate alloc_ok current t primary level sd rp rg n s = Some (Some t', s') -> derives t t'.

(** [t'] may do no more than [t]. *)
Definition no_stronger (t t' : token) : Prop :=
  tk_user t' = tk_user t /\ Forall2 weaker (tk_groups t) (tk_groups t') /\
  forall l, l ∈ map pr_luid (tk_privileges t') -> l ∈ map pr_luid (tk_privileges t).

Lemma no_stronger_refl t : no_stronger t t.
Proof. split_and!; [done | reflexivity | done]. Qed.

Lemma no_stronger_trans t1 t2 t3 : no_stronger t1 t2 -> no_stronger t2 t3 -> no_stronger t1 t3.
Proof. intros (U1 & G1 & P1) (U2 & G2 & P2). split_and!; [congruence | by etrans | auto]. Qed.

Lemma derives_no_stronger t t' : token_wf t -> derives t t' -> no_stronger t t'.
Proof.
  intros [Hu Hg] [privs room saved s s' H | s s' H | acl s s' H | current primary level sd rp rg n s s' H].
  - unfold token_adjust_privileges in H. fstep H as id Ei. fstep H as r Er. fend H. destruct r as [sv ps]. split_and!; [done | reflexivity |].
    intros l. by eapply adjust_loop_luids.
  - unfold token_disable_privileges in H. fstep H as id Ei. fend H. split_and!; [done | reflexivity |].
    intros l. cbn. rewrite map_map. done.
  - unfold req_set_token_default_dacl in H. fstep H as v Ev. destruct v; cbn [negb] in H; [| fstep H as e Ee; fend H; apply no_stronger_refl].
    destruct (_ =? 0); [fend H; split_and!; [done | reflexivity | done] |]. fstep H as d Ed. fend H. split_and!; [done | reflexivity | done].
  - destruct (token_duplicate_spec alloc_ok _ _ _ _ _ _ _ _ _ _ _ Hu H) as (Eu & Gf & Ep). split_and!; [done | |].
    + eapply Forall2_impl; [exact Gf |]. intros g g' (f & _ & ->). destruct f; [apply deny_only_weaker | reflexivity].
    + intros l. rewrite Ep, map_map. cbn. intros (p & -> & Hp)%list_elem_of_fmap. apply list_elem_of_filter in Hp as [_ Hp]. by apply list_elem_of_fmap_2.
Qed.

Lemma no_stronger_wf t t' : token_wf t -> no_stronger t t' -> token_wf t'.
Proof.
  intros [Hu Hg] (Eu & Gw & _). split; [by rewrite Eu |]. clear Eu Hu. induction Gw as [| g g' gs gs' [Es _] Hgs IH]; [done |].
  apply Forall_cons in Hg as [H1 H2]. constructor; [by rewrite Es | auto].
Qed.

(** C27: tokens never gain rights.  A token derived from another by any sequence of
    adjusting and disabling privileges, setting the default DACL, duplicating and
    filtering has the same user, no privilege the other did not have, and is a member for
    the purpose of allowing access only where the other is. *)
Theorem derived_tokens_never_gain t t' :
  token_wf t -> rtc derives t t' ->
  tk_user t' = tk_user t /\
  (forall l, l ∈ map pr_luid (tk_privileges t') -> l ∈ map pr_luid (tk_privileges t)) /\
  forall sid, sid_ok sid -> token_sid_present t' sid false = Some true -> token_sid_present t sid false = Some true.
Proof.
  intros Hw Hd. assert (Hns : no_stronger t t').
  { induction Hd as [t | t1 t2 t3 H12 H23 IH]; [apply no_stronger_refl |]. pose proof (derives_no_stronger _ _ Hw H12) as H1.
    eapply no_stronger_trans; [exact H1 | apply IH]. by eapply no_stronger_wf. }
  destruct Hns as (Eu & Gw & Hp). split_and!; [done | done |]. intros sid Hs. unfold token_sid_present. rewrite Eu.
  destruct Hw as [Hu Hg]. destruct (equal_sid_total _ sid (sid_exact_ok _ Hu) Hs) as [[] ->]; [done |]. cbn.
  apply groups_present_weaker; [done | | done]. eapply Forall_impl; [exact Hg |]. intros g. apply sid_exact_ok.
Qed.

(** ** Filtered groups *)

Lemma equal_sid_exact s1 s2 : sid_exact s1 -> sid_exact s2 -> equal_sid s1 s2 = Some (bool_decide (s1 = s2)).
Proof.
  unfold sid_exact, equal_sid, sid_len. destruct (s1 !! 1%nat) as [c1 |] eqn:E1; [| done]. destruct (s2 !! 1%nat) as [c2 |] eqn:E2; [| done].
  cbn. intros [= L1] [= L2]. destruct (c1 =? c2) eqn:E.
  - assert (c1 = c2) as <- by lia. unfold copy. rewrite !(proj2 (Z.leb_le _ _)) by lia. cbn.
    rewrite L1. rewrite Nat2Z.id, firstn_all. assert (Hl : length s1 = length s2) by lia. by rewrite Hl, firstn_all.
  - rewrite bool_decide_eq_false_2; [done |]. intros ->. rewrite E1 in E2. injection E2 as ->. lia.
Qed.

Lemma filter_group_sid g g' rg n : gr_sid g = gr_sid g' -> filter_group g rg n = filter_group g' rg n.
Proof.
  intros E. revert rg. induction n as [| n IH]; intros rg; cbn; [done |]. rewrite E. destruct (equal_sid _ _) as [[] |]; cbn; try done.
  destruct (sid_len rg); cbn; [apply IH | done].
Qed.

Lemma filtered_absent gs gs' sid rg n deny :
  Forall2 (fun g g' => exists f, filter_group g rg n = Some f /\ g' = if (f : bool) then deny_only g else g) gs gs' ->
  Forall (fun g => sid_exact (gr_sid g)) gs -> sid_exact sid -> filter_group (mkGroup 0 sid) rg n = Some true ->
  groups_present gs' sid deny = Some false.
Proof.
  intros Hf Hg Hs Hr. induction Hf as [| g g' gs gs' (f & Ef & ->) Hgs IH]; [done |]. apply Forall_cons in Hg as [Hsid Hg]. cbn.
  destruct (decide (gr_sid g = sid)) as [E | Ne].
  - rewrite (filter_group_sid g (mkGroup 0 sid) rg n E), Hr in Ef. injection Ef as <-. rewrite deny_only_disabled. auto.
  - assert (Hrest : groups_present gs' sid deny = Some false) by auto.
    assert (Eg : gr_sid (if f then deny_only g else g) = gr_sid g) by (by destruct f). rewrite Eg, equal_sid_exact by done.
    rewrite bool_decide_eq_false_2 by done. cbn. by repeat case_match.
Qed.

(** C37: a group removed from a token escapes denials.  [filter_token] marks the removed
    groups for denials only and disables them, but membership skips disabled groups first,
    also for denials: an entry that denies access to the group no longer applies to the
    filtered token, which may so get access that the original token is denied. *)
Theorem filtered_group_escapes_denial current src privs sids sid n s t' s' :
  token_wf src -> sid_exact sid -> tk_user src <> sid ->
  get_sid_count sids (Z.of_nat (length sids)) = Some n -> filter_group (mkGroup 0 sid) sids (Z.to_nat n) = Some true ->
  req_filter_token alloc_ok current src privs sids s = Some (Some t', s') ->
  token_sid_present t' sid true = Some false.
Proof.
  intros [Hu Hg] Hs Hne Hn Hf H. unfold req_filter_token in H. fstep H as m Em. rewrite Hn in Em. injection Em as <-.
  destruct (token_duplicate_spec alloc_ok _ _ _ _ _ _ _ _ _ _ _ Hu H) as (Eu & Gf & _). unfold token_sid_present.
  rewrite Eu, equal_sid_exact by done. rewrite bool_decide_eq_false_2 by done. cbn. by eapply filtered_absent.
Qed.

(** ** Default DACLs *)

(** The size field of a default DACL is trusted.  [set_token_default_dacl] checks the
    entries against the size of the data and never looks at the size field of the list;
    [get_token_default_dacl] copies as many bytes as the field says: exactly the data when
    the two agree, and memory behind the data when the field is larger. *)
Theorem default_dacl_size_trusted t acl size reply_max s t' s1 :
  acl_is_valid acl (Z.of_nat (length acl)) = Some true -> read16 acl 2 = Some size -> 0 <= size <= reply_max ->
  alloc_ok (sc_allocs s) = true -> req_set_token_default_dacl alloc_ok t acl s = Some (t', s1) ->
  req_get_token_default_dacl t' reply_max s1 =
    if size <=? Z.of_nat (length acl) then Some ((size, Some (take (Z.to_nat size) acl)), s1) else None.
Proof.
  intros Hv Hsz Hr Ha H. unfold req_set_token_default_dacl in H.
  assert (Hpos : 0 < Z.of_nat (length acl)).
  { unfold acl_is_valid in Hv. destruct (Z.of_nat (length acl) <? 8) eqn:E; [done | lia]. }
  rewrite (proj2 (Z.eqb_neq _ _)) in H by lia. cbn [negb] in H. fstep H as v Ev. rewrite Hv in Ev. injection Ev as <-. cbn [negb] in H.
  fstep H as d Ed. fend H. unfold memdup in Ed. fstep Ed as ok Eok. unfold mem_alloc in Eok. rewrite Ha in Eok. injection Eok as <- <-.
  fstep Ed as c Ec. fend Ed. unfold copy in Ec. rewrite Z.leb_refl, Nat2Z.id, firstn_all in Ec. injection Ec as <-.
  unfold req_get_token_default_dacl. cbn [tk_default_dacl with_default_dacl]. unfold fbind at 1, fread at 1. rewrite Hsz.
  rewrite (proj2 (Z.leb_le _ _)) by lia. unfold fbind, fread, copy. by destruct (_ <=? _).
Qed.

(** A token without default DACL stops the server.  Setting an empty default DACL is
    accepted and leaves the token with none; when the server then has to give an object
    without a DACL a descriptor that brings none either, it follows the null pointer. *)
Theorem empty_default_dacl_faults t sd set_info s t' s1 x s2 :
  req_set_token_default_dacl alloc_ok t [] s = Some (t', s1) -> set_info <> 0 ->
  (forall c p, sd_get_dacl sd = Some (c, p) -> has_flag set_info DACL_SECURITY_INFORMATION && c = false) ->
  choose_sacl alloc_ok sd None set_info s1 = Some (Some x, s2) ->
  set_sd_defaults_from_token alloc_ok None sd set_info (Some t') s1 = None.
Proof.
  intros Hset Hi Hd Hs. cbn in Hset. injection Hset as <- <-. unfold set_sd_defaults_from_token. rewrite (proj2 (Z.eqb_neq _ _)) by done.
  unfold fbind at 1, fread at 1. destruct (sd_control sd); [| done]. unfold fbind at 1, fread at 1. destruct (choose_sid _ _ _ _); [| done].
  unfold fbind at 1, fread at 1. destruct (choose_sid _ _ _ _); [| done]. unfold fbind at 1. rewrite Hs. destruct x as [[sf sl] sp].
  unfold fbind at 1, fread at 1. unfold choose_dacl. destruct (sd_get_dacl sd) as [[c q] |] eqn:E; [| done]. cbn [mbind option_bind fst].
  by rewrite (Hd c q eq_refl).
Qed.

End Derived.

(** ** Examples *)

Definition granted_all (n : nat) : bool := true.
Definition demo_sec : sec := mkSec (mkLuid 1000 0) 0 0.

(** The group is denied a right that the user is allowed. *)
Definition deny_group_sd : list Z :=
  [4; 0; 0; 0; 12; 0; 0; 0; 12; 0; 0; 0; 0; 0; 0; 0; 48; 0; 0; 0] ++ [1; 1; 0; 0; 0; 0; 0; 5; 9; 0; 0; 0] ++ demo_group ++
  [2; 0; 48; 0; 2; 0; 0; 0] ++ demo_ace 1 1 demo_group ++ demo_ace 0 1 demo_user.

(** The token without the group. *)
Definition demo_filtered : token * sec :=
  match req_filter_token granted_all demo_token demo_token [] demo_group demo_sec with
  | Some (Some t, s) => (t, s)
  | _ => (demo_token, demo_sec)
  end.

Lemma demo_token_wf : token_wf demo_token.
Proof. split; [done |]. repeat constructor. Qed.

Lemma filtered_group_escapes_denial_witness :
  token_sid_present demo_token demo_group true = Some true /\
  token_sid_present demo_filtered.1 demo_group true = Some false /\
  ac_granted <$> token_access_check demo_token deny_group_sd 1 None demo_mapping = Some 0 /\
  ac_granted <$> token_access_check demo_filtered.1 deny_group_sd 1 None demo_mapping = Some 1.
Proof.
  split_and!; [by vm_compute | | by vm_compute | by vm_compute].
  apply (filtered_group_escapes_denial granted_all demo_token demo_token [] demo_group demo_group 1 demo_sec demo_filtered.1 demo_filtered.2);
    [exact demo_token_wf | done | done | by vm_compute | by vm_compute | by vm_compute].
Defined.

Lemma derived_tokens_never_gain_witness :
  rtc (derives granted_all) demo_token demo_filtered.1 /\
  (token_sid_present demo_filtered.1 demo_user false = Some true -> token_sid_present demo_token demo_user false = Some true).
Proof.
  assert (Hd : rtc (derives granted_all) demo_token demo_filtered.1).
  { apply rtc_once. apply (by_duplicating granted_all demo_token demo_filtered.1 demo_token false 2 None [] demo_group 1 demo_sec demo_filtered.2). by vm_compute. }
  split; [exact Hd |]. apply (derived_tokens_never_gain granted_all demo_token demo_filtered.1 demo_token_wf Hd). exists 12. split; [done | cbn; lia].
Defined.

(** A list without entries whose size field says 255. *)
Definition long_acl : list Z := [2; 0; 255; 0; 0; 0; 0; 0].

Lemma default_dacl_size_trusted_witness :
  req_get_token_default_dacl (with_default_dacl (Some long_acl) demo_token) 4096 (mkSec (mkLuid 1000 0) 0 1) = None.
Proof.
  apply (default_dacl_size_trusted granted_all demo_token long_acl 255 4096 demo_sec); [by vm_compute | done | lia | done | by vm_compute].
Defined.

(** A descriptor that brings an owner only. *)
Definition owner_sd : list Z := [0; 0; 0; 0; 12; 0; 0; 0; 0; 0; 0; 0; 0; 0; 0; 0; 0; 0; 0; 0] ++ demo_user.

Lemma empty_default_dacl_faults_witness :
  set_sd_defaults_from_token granted_all None owner_sd OWNER_SECURITY_INFORMATION (Some (with_default_dacl None demo_token)) demo_sec = None /\
  set_sd_defaults_from_token granted_all None owner_sd OWNER_SECURITY_INFORMATION (Some (with_default_dacl (Some [2; 0; 8; 0; 0; 0; 0; 0]) demo_token)) demo_sec <> None.
Proof.
  split; [| by vm_compute].
  apply (empty_default_dacl_faults granted_all demo_token owner_sd OWNER_SECURITY_INFORMATION demo_sec (with_default_dacl None demo_token) demo_sec (0, 0, None) demo_sec);
    [by vm_compute | done | | by vm_compute].
  intros c p H. vm_compute in H. injection H as <- <-. done.
Defined.
