(* ===== verification/TokenLabels.v ===== *)
(** * Replacing the labels of a system ACL

    The byte-wise loops of [replace_security_labels] and [extract_security_labels] against
    lists of entries. *)

From stdpp Require Import base list.
From Stdlib Require Import ZArith Lia ZifyBool.
From S2P Require Import Prelude Fallible Handle Security SecurityProofs Token.
From S2P Require Import TokenTheorems.

Open Scope Z_scope.

(** The entries of a list, each as the bytes it has. *)
Fixpoint entries (n : nat) (ace : list Z) : option (list (list Z)) :=
  match n with
  | O => Some []
  | S n' => size ← ace_size ace; a ← copy ace size; r ← entries n' (advance ace size); Some (a :: r)
  end.

Definition acl_entries (acl : list Z) : option (list (list Z)) := n ← acl_count acl; entries (Z.to_nat n) (ace_first acl).

Definition is_label (e : list Z) : Prop := e !! 0%nat = Some SYSTEM_MANDATORY_LABEL_ACE_TYPE.

#[export] Instance is_label_dec e : Decision (is_label e).
Proof. unfold is_label. apply _. Defined.

(** An entry as a list of bytes: its size field is its length. *)
Definition entry_ok (e : list Z) : Prop := Forall is_byte e /\ 8 <= Z.of_nat (length e) /\ ace_size e = Some (Z.of_nat (length e)).

Lemma copy_some p n a : copy p n = Some a -> 0 <= n -> a = take (Z.to_nat n) p /\ Z.of_nat (length a) = n.
Proof. unfold copy. destruct (n <=? _) eqn:E; [| done]. intros [= <-] Hn. split; [done |]. rewrite length_take. lia. Qed.

Lemma ace_size_app e x : 4 <= Z.of_nat (length e) -> ace_size (e ++ x) = ace_size e.
Proof. intros H. unfold ace_size, read16. rewrite !lookup_app_l by lia. done. Qed.

Lemma ace_size_take n ace : (4 <= n)%nat -> ace_size (take n ace) = ace_size ace.
Proof. intros H. unfold ace_size, read16. rewrite !lookup_take_lt by lia. done. Qed.

Lemma copy_app e x : copy (e ++ x) (Z.of_nat (length e)) = Some e.
Proof. unfold copy. rewrite (proj2 (Z.leb_le _ _)) by (rewrite length_app; lia). by rewrite Nat2Z.id, take_app_length. Qed.

Lemma advance_app e x : advance (e ++ x) (Z.of_nat (length e)) = x.
Proof.
  unfold advance. rewrite length_app. destruct (_ <? _) eqn:E; [by rewrite Nat2Z.id, drop_app_length |].
  destruct x; [done | cbn in E; lia].
Qed.

(** Reading back what was put together. *)
Lemma entries_concat es x : Forall entry_ok es -> entries (length es) (concat es ++ x) = Some es.
Proof.
  induction 1 as [| e es (Hb & Hl & Hs) Hes IH]; [done |]. cbn [length concat entries]. rewrite <- (assoc_L app).
  rewrite ace_size_app by lia. rewrite Hs. cbn. rewrite copy_app. cbn. rewrite advance_app. by rewrite IH.
Qed.

(** Entries that were read. *)
Lemma entries_ok n ace es :
  Forall is_byte ace -> entries n ace = Some es -> Forall (fun e => 8 <= Z.of_nat (length e)) es -> Forall entry_ok es /\ length es = n.
Proof.
  revert ace es. induction n as [| n IH]; intros ace es Hb; cbn; [by intros [= <-] |].
  destruct (ace_size ace) as [size |] eqn:Es; [| done]. cbn. destruct (copy ace size) as [a |] eqn:Ec; [| done]. cbn.
  destruct (entries n (advance ace size)) as [r |] eqn:Er; [| done]. cbn. intros [= <-] [Ha Hr]%Forall_cons.
  pose proof (read16_range _ _ _ Hb Es) as Hsz. destruct (copy_some _ _ _ Ec ltac:(lia)) as [-> Hl].
  destruct (IH _ _ (bytes_advance size _ Hb) Er Hr) as [Hok Hn]. split; [| cbn; lia]. constructor; [| done].
  split_and!; [by apply Forall_take | done |]. rewrite ace_size_take by lia. by rewrite Hl.
Qed.

(** The two loops compute the size, number and bytes of the entries kept. *)
Definition kept (label : bool) (es : list (list Z)) : list (list Z) :=
  if label then filter is_label es else filter (fun e => ~ is_label e) es.

Lemma kept_true es : kept true es = filter is_label es.
Proof. done. Qed.

Lemma kept_false es : kept false es = filter (fun e => ~ is_label e) es.
Proof. done. Qed.

Lemma kept_cons label e es t :
  e !! 0%nat = Some t ->
  kept label (e :: es) = if Bool.eqb (t =? SYSTEM_MANDATORY_LABEL_ACE_TYPE) label then e :: kept label es else kept label es.
Proof.
  intros He. assert (Hd : is_label e <-> (t =? SYSTEM_MANDATORY_LABEL_ACE_TYPE) = true).
  { unfold is_label. rewrite He. split; [intros [= ->]; done | intros H; f_equal; lia]. }
  unfold kept. destruct (t =? SYSTEM_MANDATORY_LABEL_ACE_TYPE), label; cbn [Bool.eqb].
  - by rewrite filter_cons_True by (by apply Hd).
  - rewrite filter_cons_False; [done |]. intros H. apply H. by apply Hd.
  - rewrite filter_cons_False; [done |]. intros H. by apply Hd in H.
  - rewrite filter_cons_True; [done |]. intros H. by apply Hd in H.
Qed.

Lemma loops_kept label n ace es :
  Forall is_byte ace -> entries n ace = Some es -> Forall (fun e => 8 <= Z.of_nat (length e)) es ->
  count_aces label n ace = Some (Z.of_nat (length (concat (kept label es))), Z.of_nat (length (kept label es))) /\
  copy_aces label n ace = Some (concat (kept label es)).
Proof.
  revert ace es. induction n as [| n IH]; intros ace es Hb; cbn [entries count_aces copy_aces].
  { intros [= <-] _. unfold kept. by destruct label. }
  destruct (ace_size ace) as [size |] eqn:Es; [| done]. cbn [mbind option_bind]. destruct (copy ace size) as [a |] eqn:Ec; [| done]. cbn [mbind option_bind].
  destruct (entries n (advance ace size)) as [r |] eqn:Er; [| done]. cbn [mbind option_bind]. intros [= <-] [Ha Hr]%Forall_cons.
  pose proof (read16_range _ _ _ Hb Es) as Hsz. destruct (copy_some _ _ _ Ec ltac:(lia)) as [Ea Hl].
  destruct (IH _ _ (bytes_advance size _ Hb) Er Hr) as [Ic Ip].
  assert (E0 : ace !! 0%nat = a !! 0%nat) by (subst a; by rewrite lookup_take_lt by lia).
  destruct (lookup_lt_is_Some_2 a 0 ltac:(lia)) as [t Et]. rewrite E0, Et. cbn [mbind option_bind].
  unfold ace_next. rewrite Es. cbn [mbind option_bind]. rewrite Ic, Ip, (kept_cons label a r t Et).
  destruct (Bool.eqb _ label); cbn [mbind option_bind fst snd]; [| done]. split; [| done]. cbn [concat length]. rewrite length_app. f_equal. f_equal; lia.
Qed.

(** A list of labels and others, or none at all. *)
Definition acl_list (acl : option (list Z)) (es : list (list Z)) : Prop :=
  match acl with
  | Some a => Forall is_byte a /\ acl_entries a = Some es /\ Forall (fun e => 8 <= Z.of_nat (length e)) es /\ Z.of_nat (length (concat es)) <= MAX_ACL_LEN
  | None => es = []
  end.

Lemma acl_aces_kept label acl es :
  acl_list acl es ->
  acl_aces (count_aces label) acl (0, 0) = Some (Z.of_nat (length (concat (kept label es))), Z.of_nat (length (kept label es))) /\
  acl_aces (copy_aces label) acl [] = Some (concat (kept label es)).
Proof.
  destruct acl as [a |]; cbn; [| intros ->; unfold kept; by destruct label]. intros (Hb & He & Hl & _). unfold acl_entries in He.
  destruct (acl_count a) as [n |]; [| done]. cbn in *. by apply loops_kept; [apply bytes_drop | |].
Qed.

Lemma acl_list_ok acl es : acl_list acl es -> Forall entry_ok es.
Proof.
  destruct acl as [a |]; cbn; [| intros ->; constructor]. intros (Hb & He & Hl & _). unfold acl_entries in He.
  destruct (acl_count a) as [n |]; [| done]. cbn in He. by apply (entries_ok _ _ _ (bytes_drop 8 _ Hb) He).
Qed.

Lemma kept_length label es : Z.of_nat (length (concat (kept label es))) <= Z.of_nat (length (concat es)).
Proof.
  unfold kept. induction es as [| e es IH]; [by destruct label |].
  assert (H : forall b : bool, Z.of_nat (length (concat (if b then e :: kept label es else kept label es))) <= Z.of_nat (length (concat (e :: es)))).
  { intros b. unfold kept. destruct b; cbn [concat]; rewrite !length_app; lia. }
  destruct label; rewrite filter_cons; destruct (decide _); [apply (H true) | apply (H false) | apply (H true) | apply (H false)].
Qed.

Lemma kept_ok label es : Forall entry_ok es -> Forall entry_ok (kept label es).
Proof.
  rewrite !Forall_forall. intros H e He. apply H. unfold kept in He. by destruct label; apply list_elem_of_filter in He as [_ He].
Qed.

Lemma count_bound es : Forall entry_ok es -> 8 * Z.of_nat (length es) <= Z.of_nat (length (concat es)).
Proof. induction 1 as [| e es (_ & Hl & _) Hes IH]; [done |]. cbn [length concat]. rewrite length_app. lia. Qed.

(** ** The header *)

Lemma le16_value v : 0 <= v < 65536 -> u8 v + 256 * u8 (v / 256) = v.
Proof. intros H. unfold uwrap. change (2 ^ 8) with 256. rewrite (Z.mod_small (v / 256)) by (split; [apply Z.div_pos; lia | apply Z.div_lt_upper_bound; lia]).
  pose proof (Z.div_mod v 256 ltac:(lia)). lia. Qed.

Lemma header_read rev size count b :
  0 <= size < 65536 -> 0 <= count < 65536 ->
  acl_count (acl_header rev size count ++ b) = Some count /\ read16 (acl_header rev size count ++ b) 2 = Some size /\
  ace_first (acl_header rev size count ++ b) = b.
Proof. intros Hs Hc. unfold acl_count, read16. cbn. rewrite !le16_value by lia. done. Qed.

Lemma header_bytes rev size count : Forall is_byte (acl_header rev size count).
Proof.
  unfold acl_header, le16. cbn. repeat (constructor; [unfold is_byte; try (pose proof (uwrap_range 8 rev); pose proof (uwrap_range 8 size);
    pose proof (uwrap_range 8 count); pose proof (uwrap_range 8 (size / 256)); pose proof (uwrap_range 8 (count / 256))); lia |]). constructor.
Qed.

(** What was put together reads as a list again. *)
Lemma made_list rev size es :
  Forall entry_ok es -> size = 8 + Z.of_nat (length (concat es)) -> size <= MAX_ACL_LEN ->
  acl_list (Some (acl_header rev size (Z.of_nat (length es)) ++ concat es)) es /\
  read16 (acl_header rev size (Z.of_nat (length es)) ++ concat es) 2 = Some (Z.of_nat (length (acl_header rev size (Z.of_nat (length es)) ++ concat es))).
Proof.
  intros Hok Hsz Hmax. pose proof (count_bound es Hok). unfold MAX_ACL_LEN in *.
  destruct (header_read rev size (Z.of_nat (length es)) (concat es)) as (Hc & Hr & Hf); [lia | lia |]. cbn [acl_list]. split_and!.
  - apply Forall_app. split; [apply header_bytes |]. apply Forall_concat. eapply Forall_impl; [exact Hok |]. by intros e [Hb _].
  - unfold acl_entries. rewrite Hc. cbn [mbind option_bind]. rewrite Hf, Nat2Z.id. rewrite <- (app_nil_r (concat es)). by apply entries_concat.
  - eapply Forall_impl; [exact Hok |]. intros e (_ & He & _). done.
  - unfold MAX_ACL_LEN. lia.
  - rewrite Hr. f_equal. rewrite length_app, Nat2Z.inj_add. rewrite Hsz. done.
Qed.


(** Labels among the entries put together. *)
Lemma kept_labels_app oes nes : kept true (kept false oes ++ kept true nes) = kept true nes.
Proof.
  unfold kept. rewrite filter_app.
  assert (H1 : filter is_label (filter (fun e => ~ is_label e) oes) = []).
  { apply elem_of_nil_inv. intros e [He He']%list_elem_of_filter. by apply list_elem_of_filter in He' as [? _]. }
  rewrite H1. cbn. induction nes as [| e es IH]; [done |]. rewrite filter_cons. destruct (decide (is_label e)); [| done].
  rewrite filter_cons_True by done. by rewrite IH.
Qed.

#[local] Opaque kept.

Section Labels.
Context (alloc_ok : nat -> bool).

Definition with_error (e : Z) (s : sec) : sec := mkSec (prev_luid_value s) e (sc_allocs s).

(** The state after an allocation. *)
Definition allocated (s : sec) : sec :=
  mkSec (prev_luid_value s) (if alloc_ok (sc_allocs s) then sc_error s else STATUS_NO_MEMORY) (S (sc_allocs s)).

Lemma alloc_run s : mem_alloc alloc_ok s = Some (alloc_ok (sc_allocs s), allocated s).
Proof. done. Qed.

Lemma acl_revision_some acl es : acl_list acl es -> exists rev, acl_revision acl = Some rev.
Proof.
  destruct acl as [[| r a] |]; cbn; [| eauto | eauto]. intros (_ & H & _). done.
Qed.

(** What [replace_security_labels] does with two lists of entries. *)
Lemma replace_runs old new oes nes s :
  acl_list old oes -> acl_list new nes ->
  let es := kept false oes ++ kept true nes in
  let size := 8 + Z.of_nat (length (concat es)) in
  exists rev,
    replace_security_labels alloc_ok old new s =
    if MAX_ACL_LEN <? size then Some (None, with_error STATUS_INVALID_ACL s)
    else Some (if alloc_ok (sc_allocs s) then Some (acl_header rev size (Z.of_nat (length es)) ++ concat es) else None, allocated s).
Proof.
  intros Ho Hn es size. unfold replace_security_labels.
  destruct (acl_aces_kept false _ _ Ho) as [-> ->], (acl_aces_kept true _ _ Hn) as [-> ->].
  destruct (acl_revision_some _ _ Ho) as [r1 ->], (acl_revision_some _ _ Hn) as [r2 ->].
  exists (Z.max (Z.max ACL_REVISION r1) r2). unfold fbind, fread. cbn [fst snd].
  assert (Hb : forall l a bs, acl_list a bs -> Z.of_nat (length (concat (kept l bs))) <= 65535).
  { intros l a bs Ha. pose proof (kept_length l bs). assert (Z.of_nat (length (concat bs)) <= 65535); [| lia].
    destruct a; [apply Ha | rewrite Ha; done]. }
  pose proof (Hb false _ _ Ho). pose proof (Hb true _ _ Hn). rewrite uwrap_small by lia.
  assert (Hs : 8 + Z.of_nat (length (concat (kept false oes))) + Z.of_nat (length (concat (kept true nes))) = size).
  { unfold size, es. rewrite concat_app, length_app. lia. }
  assert (Hc : Z.of_nat (length (kept false oes)) + Z.of_nat (length (kept true nes)) = Z.of_nat (length es)) by (unfold es; rewrite length_app; lia).
  rewrite Hs, Hc, <- concat_app. fold es. destruct (MAX_ACL_LEN <? size); [done |]. rewrite alloc_run. by destruct (alloc_ok (sc_allocs s)).
Qed.

Lemma extract_runs acl es s :
  acl_list (Some acl) es -> 8 + Z.of_nat (length (concat es)) <= MAX_ACL_LEN ->
  exists l, extract_security_labels alloc_ok acl s = Some (if alloc_ok (sc_allocs s) then Some l else None, allocated s) /\
            acl_entries l = Some (kept true es).
Proof.
  intros Ha Hm. unfold extract_security_labels. destruct (acl_aces_kept true _ _ Ha) as [-> ->].
  destruct (acl_revision_some _ _ Ha) as [rev ->]. unfold fbind, fread. rewrite alloc_run.
  exists (acl_header rev (8 + Z.of_nat (length (concat (kept true es)))) (Z.of_nat (length (kept true es))) ++ concat (kept true es)). split.
  - by destruct (alloc_ok (sc_allocs s)).
  - pose proof (kept_length true es). apply (made_list rev); [apply kept_ok; by eapply acl_list_ok | done | lia].
Qed.

(** C28: replacing labels keeps the rest.  [replace_security_labels] puts together the
    entries of the old list that are not labels, in order, followed by the labels of the
    new one; it fails, with the error that says so, exactly when the result is larger than a
    list may be or there is no memory for it.  The size field of the result is its length, and
    extracting its labels gives those of the new list. *)
Theorem relabel_exact old new oes nes s :
  acl_list old oes -> acl_list new nes ->
  let es := filter (fun e => ~ is_label e) oes ++ filter is_label nes in
  if MAX_ACL_LEN <? 8 + Z.of_nat (length (concat es)) then
    replace_security_labels alloc_ok old new s = Some (None, with_error STATUS_INVALID_ACL s)
  else if alloc_ok (sc_allocs s) then
    exists acl,
      replace_security_labels alloc_ok old new s = Some (Some acl, allocated s) /\
      acl_entries acl = Some es /\ read16 acl 2 = Some (Z.of_nat (length acl)) /\
      forall s1, alloc_ok (sc_allocs s1) = true ->
        exists l, extract_security_labels alloc_ok acl s1 = Some (Some l, allocated s1) /\ acl_entries l = Some (filter is_label nes)
  else replace_security_labels alloc_ok old new s = Some (None, with_error STATUS_NO_MEMORY (allocated s)).
Proof.
  intros Ho Hn. cbv zeta. rewrite <- kept_false, <- kept_true. set (es := kept false oes ++ kept true nes).
  destruct (replace_runs _ _ _ _ s Ho Hn) as [rev ->]. fold es. destruct (MAX_ACL_LEN <? _) eqn:Em; [done |].
  destruct (alloc_ok (sc_allocs s)) eqn:Ea; [| by unfold with_error, allocated; rewrite Ea].
  assert (Hok : Forall entry_ok es) by (apply Forall_app; split; apply kept_ok; by eapply acl_list_ok).
  destruct (made_list rev _ es Hok eq_refl ltac:(lia)) as [Hl Hsz].
  eexists. split_and!; [reflexivity | apply Hl | exact Hsz |]. intros s1 Hs1.
  destruct (extract_runs _ _ s1 Hl ltac:(lia)) as (l & He & Hlab). rewrite Hs1 in He. exists l. split; [exact He |].
  rewrite Hlab. unfold es. by rewrite kept_labels_app.
Qed.

End Labels.

(** ** An example *)

Definition demo_audit : list Z := [2; 0; 20; 0; 1; 0; 0; 0; 1; 1; 0; 0; 0; 0; 0; 5; 1; 0; 0; 0].
Definition demo_label (level : Z) : list Z := [17; 0; 20; 0; 1; 0; 0; 0; 1; 1; 0; 0; 0; 0; 0; 16; 0; level; 0; 0].

Definition demo_old : list Z := [2; 0; 48; 0; 2; 0; 0; 0] ++ demo_label 16 ++ demo_audit.
Definition demo_new : list Z := [2; 0; 28; 0; 1; 0; 0; 0] ++ demo_label 48.
Definition demo_relabelled : list Z := [2; 0; 48; 0; 2; 0; 0; 0] ++ demo_audit ++ demo_label 48.

Lemma relabel_exact_witness :
  exists acl, replace_security_labels granted_all (Some demo_old) (Some demo_new) demo_sec = Some (Some acl, allocated granted_all demo_sec) /\
    acl_entries acl = Some [demo_audit; demo_label 48] /\ acl = demo_relabelled.
Proof.
  assert (Ho : acl_list (Some demo_old) [demo_label 16; demo_audit]).
  { cbn [acl_list]. split_and!; [by repeat (constructor; [done |]) | by vm_compute | by repeat (constructor; [cbn; lia |]) | cbn; unfold MAX_ACL_LEN; lia]. }
  assert (Hn : acl_list (Some demo_new) [demo_label 48]).
  { cbn [acl_list]. split_and!; [by repeat (constructor; [done |]) | by vm_compute | by repeat (constructor; [cbn; lia |]) | cbn; unfold MAX_ACL_LEN; lia]. }
  destruct (relabel_exact granted_all _ _ _ _ demo_sec Ho Hn) as (acl & Hr & He & _).
  exists acl. split_and!; [exact Hr | exact He |]. vm_compute in Hr. by injection Hr as <-.
Defined.
