(* ===== verification/TokenPrivileges.v ===== *)
(** * Adjusting the privileges of a token

    The contract of [adjust_token_privileges]: it enables and disables what it is asked to,
    and the state it hands back undoes the change. *)

From stdpp Require Import base list.
From Stdlib Require Import ZArith Lia ZifyBool.
From S2P Require Import Prelude Fallible Handle Security Token TokenTheorems.

Open Scope Z_scope.

(** ** One privilege *)

Lemma is_equal_luid_eq l l' : is_equal_luid l l' = true <-> l = l'.
Proof. unfold is_equal_luid. destruct l, l'; cbn. split; [intros H; f_equal; lia | intros [= -> ->]; lia]. Qed.

Lemma is_equal_luid_refl l : is_equal_luid l l = true.
Proof. by apply is_equal_luid_eq. Qed.

Lemma is_equal_luid_ne l l' : l <> l' -> is_equal_luid l l' = false.
Proof. intros H. destruct (is_equal_luid l l') eqn:E; [by apply is_equal_luid_eq in E | done]. Qed.

Lemma find_privilege_luid l ps p : find_privilege l ps = Some p -> pr_luid p = l.
Proof.
  induction ps as [| q ps IH]; cbn; [done |]. destruct (is_equal_luid l (pr_luid q)) eqn:E; [| done].
  intros [= ->]. by apply is_equal_luid_eq in E.
Qed.

Lemma find_enable_other l l' on ps : l <> l' -> find_privilege l' (enable_privilege l on ps) = find_privilege l' ps.
Proof.
  intros Hl. induction ps as [| q ps IH]; cbn; [done |]. destruct (is_equal_luid l (pr_luid q)) eqn:E; cbn; [| by rewrite IH].
  apply is_equal_luid_eq in E as <-. by rewrite is_equal_luid_ne by congruence.
Qed.

Lemma find_enable_same l on ps p :
  find_privilege l ps = Some p -> find_privilege l (enable_privilege l on ps) = Some (mkPrivilege l on (pr_def p)).
Proof.
  induction ps as [| q ps IH]; cbn; [done |]. destruct (is_equal_luid l (pr_luid q)) eqn:E; cbn; rewrite E; [| exact IH].
  intros [= ->]. by apply is_equal_luid_eq in E as <-.
Qed.

Lemma enable_absent l on ps : find_privilege l ps = None -> enable_privilege l on ps = ps.
Proof. induction ps as [| q ps IH]; cbn; [done |]. destruct (is_equal_luid l (pr_luid q)); [done |]. intros H. by rewrite IH. Qed.

Lemma enable_comm l l' on on' ps :
  l <> l' -> enable_privilege l on (enable_privilege l' on' ps) = enable_privilege l' on' (enable_privilege l on ps).
Proof.
  intros Hl. induction ps as [| q ps IH]; cbn; [done |].
  destruct (is_equal_luid l (pr_luid q)) eqn:E, (is_equal_luid l' (pr_luid q)) eqn:E'; cbn; rewrite ?E, ?E'; try done; [| by rewrite IH].
  apply is_equal_luid_eq in E, E'. congruence.
Qed.

Lemma enable_undo l on ps p : find_privilege l ps = Some p -> enable_privilege l (pr_enabled p) (enable_privilege l on ps) = ps.
Proof.
  induction ps as [| q ps IH]; cbn; [done |]. destruct (is_equal_luid l (pr_luid q)) eqn:E; cbn; rewrite E.
  - intros [= ->]. by destruct p.
  - intros H. by rewrite IH.
Qed.

(** ** Many privileges *)

Definition wants (a : luid_attr) : bool := has_flag (la_attrs a) SE_PRIVILEGE_ENABLED.
Definition removes (a : luid_attr) : bool := has_flag (la_attrs a) SE_PRIVILEGE_REMOVED.

(** The privileges after every change asked for. *)
Fixpoint enable_all (privs : list luid_attr) (ps : list privilege) : list privilege :=
  match privs with [] => ps | a :: privs' => enable_all privs' (enable_privilege (la_luid a) (wants a) ps) end.

(** The states of the privileges asked for that the token has. *)
Definition states (ps : list privilege) (privs : list luid_attr) : list luid_attr :=
  omap (fun a => luid_and_attr_from_privilege <$> find_privilege (la_luid a) ps) privs.

Lemma states_enable_other l on ps privs : l ∉ map la_luid privs -> states (enable_privilege l on ps) privs = states ps privs.
Proof.
  induction privs as [| a privs IH]; cbn; [done |]. rewrite not_elem_of_cons. intros [Hl Hp]. rewrite find_enable_other by done.
  fold (states (enable_privilege l on ps) privs). by rewrite IH.
Qed.

Lemma enable_all_comm l on privs ps :
  l ∉ map la_luid privs -> enable_privilege l on (enable_all privs ps) = enable_all privs (enable_privilege l on ps).
Proof.
  revert ps. induction privs as [| a privs IH]; intros ps; cbn; [done |]. rewrite not_elem_of_cons. intros [Hl Hp].
  by rewrite IH, enable_comm by done.
Qed.

Lemma find_enable_all_other l privs ps : l ∉ map la_luid privs -> find_privilege l (enable_all privs ps) = find_privilege l ps.
Proof.
  revert ps. induction privs as [| a privs IH]; intros ps; cbn; [done |]. rewrite not_elem_of_cons. intros [Hl Hp].
  by rewrite IH, find_enable_other by done.
Qed.

Lemma find_enable_all a privs ps :
  NoDup (map la_luid privs) -> a ∈ privs ->
  find_privilege (la_luid a) (enable_all privs ps) =
  (fun p => mkPrivilege (la_luid a) (wants a) (pr_def p)) <$> find_privilege (la_luid a) ps.
Proof.
  revert ps. induction privs as [| b privs IH]; intros ps; cbn; [by intros _ ?%elem_of_nil |]. rewrite NoDup_cons, elem_of_cons.
  intros [Hb Hp] [-> | Ha].
  - rewrite find_enable_all_other by done. destruct (find_privilege (la_luid b) ps) as [p |] eqn:E; cbn; [by apply find_enable_same |].
    by rewrite enable_absent.
  - rewrite IH by done. rewrite find_enable_other; [done |]. intros Heq. apply Hb. rewrite Heq. by apply list_elem_of_fmap_2.
Qed.

(** ** The loop *)

(** Without removals the loop makes every change and saves the states found before. *)
Lemma adjust_loop_states privs room ps s :
  NoDup (map la_luid privs) -> Forall (fun a => removes a = false) privs ->
  (length (states ps privs) <= room)%nat ->
  exists s', adjust_loop privs room ps s = Some ((states ps privs, enable_all privs ps), s') /\ sc_allocs s' = sc_allocs s.
Proof.
  revert room ps s. induction privs as [| a privs IH]; intros room ps s; cbn [adjust_loop map]; [eauto |].
  rewrite NoDup_cons, Forall_cons. intros [Ha Hd] [Hr Hf]. unfold states. cbn [omap list_omap enable_all].
  destruct (find_privilege (la_luid a) ps) as [p |] eqn:E; cbn [fmap option_fmap option_map].
  - fold (states ps privs). intros Hn. cbn [length] in Hn. unfold removes in Hr. rewrite Hr. fold (wants a). unfold fbind.
    destruct (IH (room - 1)%nat (enable_privilege (la_luid a) (wants a) ps) s Hd Hf) as (s' & -> & Hs).
    { rewrite states_enable_other by done. lia. }
    destruct (Nat.eqb_spec room 0); [lia |]. rewrite states_enable_other by done. eexists. split; [reflexivity | done].
  - fold (states ps privs). intros Hn. unfold fbind, set_error. rewrite (enable_absent _ _ _ E).
    destruct (IH room ps (mkSec (prev_luid_value s) STATUS_NOT_ALL_ASSIGNED (sc_allocs s)) Hd Hf Hn) as (s' & -> & Hs). eauto.
Qed.

Lemma saved_flags p : removes (luid_and_attr_from_privilege p) = false /\ wants (luid_and_attr_from_privilege p) = pr_enabled p.
Proof. by destruct p as [l [] []]. Qed.

(** Asking for the saved states gives back the privileges as they were. *)
Lemma adjust_loop_undo privs ps s :
  NoDup (map la_luid privs) -> adjust_loop (states ps privs) 0 (enable_all privs ps) s = Some (([], ps), s).
Proof.
  revert ps s. induction privs as [| a privs IH]; intros ps s; cbn [map]; [done |]. rewrite NoDup_cons. intros [Ha Hd].
  unfold states. cbn [omap list_omap enable_all].
  destruct (find_privilege (la_luid a) ps) as [p |] eqn:E; cbn [fmap option_fmap option_map]; fold (states ps privs).
  - pose proof (find_privilege_luid _ _ _ E) as El. destruct (saved_flags p) as [Hr Hw]. cbn [adjust_loop].
    change (la_luid (luid_and_attr_from_privilege p)) with (pr_luid p). rewrite El, find_enable_all_other by done.
    rewrite (find_enable_same _ _ _ _ E). unfold removes in Hr. unfold wants in Hw. rewrite Hr, Hw.
    rewrite enable_all_comm by done. rewrite (enable_undo _ _ _ _ E). unfold fbind. by rewrite IH.
  - rewrite (enable_absent _ _ _ E). by apply IH.
Qed.

Lemma token_find_any t l : token_find_privilege t l false = find_privilege l (tk_privileges t).
Proof. unfold token_find_privilege. by destruct (find_privilege l (tk_privileges t)). Qed.

Lemma states_length t privs :
  length (states (tk_privileges t) privs) = length (filter (fun a => token_find_privilege t (la_luid a) false <> None) privs).
Proof.
  induction privs as [| a privs IH]; [done |]. unfold states in *. cbn [omap list_omap]. rewrite filter_cons.
  pose proof (token_find_any t (la_luid a)) as Ef.
  destruct (find_privilege (la_luid a) (tk_privileges t)) as [p |]; cbn [fmap option_fmap option_map].
  - rewrite decide_True by congruence. cbn [length]. by rewrite IH.
  - rewrite decide_False by (intros H; by apply H). exact IH.
Qed.

Lemma states_count t privs : (length (states (tk_privileges t) privs) <= length privs)%nat.
Proof. rewrite states_length. apply length_filter. Qed.

Lemma adjust_loop_removes privs room ps s r s' :
  Forall (fun a => removes a = true) privs -> adjust_loop privs room ps s = Some (r, s') -> r.1 = [].
Proof.
  intros Hf. revert ps s. induction Hf as [| a privs Ha Hf IH]; intros ps s; cbn [adjust_loop]; [by intros [= <- _] |].
  unfold removes in Ha. rewrite Ha. destruct (find_privilege (la_luid a) ps); [apply IH |]. intros H. fstep H as e Ee. by apply IH in H.
Qed.

(** ** The request *)

Section Adjust.
Context (alloc_ok : nat -> bool) (allocs : forall n, alloc_ok n = true).

Lemma reply_memory size s : exists s', set_reply_data_size alloc_ok size s = Some (true, s') /\ sc_error s' = sc_error s.
Proof using allocs.
  unfold set_reply_data_size, mem_alloc, fret. destruct (size <=? _); [eauto |]. rewrite allocs. eauto.
Qed.

Lemma room_memory room s :
  exists s', (if Nat.eqb room 0 then fret true else set_reply_data_size alloc_ok (Z.of_nat room * 12)) s = Some (true, s') /\ sc_error s' = sc_error s.
Proof using allocs. destruct (Nat.eqb room 0); [by eexists | apply reply_memory]. Qed.

(** C29: when memory is there, a request that removes no privilege and names each one once
    gives every privilege the token has, and it names, the state asked for and leaves the others alone;
    with room for the answer all of the reply is written, and a request with the states it brings puts the
    privileges back as they were and reports no error. *)
Theorem adjust_privileges_roundtrip t privs reply_room s :
  NoDup (map la_luid privs) -> Forall (fun a => removes a = false) privs -> (length privs <= reply_room)%nat ->
  exists r t1 s1,
    req_adjust_token_privileges alloc_ok t true false privs reply_room s = Some ((r, t1), s1) /\
    ar_len r = 12 * Z.of_nat (length (ar_saved r)) /\ ar_size r = ar_len r /\
    (forall a, a ∈ privs -> is_held t1 (la_luid a) = bool_decide (find_privilege (la_luid a) (tk_privileges t) <> None) && wants a) /\
    (forall l, l ∉ map la_luid privs -> find_privilege l (tk_privileges t1) = find_privilege l (tk_privileges t)) /\
    forall s2, exists r2 t2 s3,
      req_adjust_token_privileges alloc_ok t1 false false (ar_saved r) 0 s2 = Some ((r2, t2), s3) /\
      tk_privileges t2 = tk_privileges t /\ sc_error s3 = sc_error s2.
Proof using allocs.
  intros Hd Hf Hn. set (sv := states (tk_privileges t) privs).
  assert (Hsv : Nat.min (length (filter (fun a => token_find_privilege t (la_luid a) false <> None) privs)) reply_room = length sv).
  { unfold sv. pose proof (states_count t privs). rewrite states_length in *. lia. }
  destruct (room_memory (length sv) s) as (s0 & Er & _).
  set (s00 := mkSec (mkLuid (u32 (low_part (prev_luid_value s0) + 1)) (high_part (prev_luid_value s0))) (sc_error s0) (sc_allocs s0)).
  destruct (adjust_loop_states privs (length sv) (tk_privileges t) s00 Hd Hf ltac:(unfold sv; lia)) as (s1 & El & _).
  eexists (mkAdjustReply _ _ sv), (with_privileges (enable_all privs (tk_privileges t)) (with_modified_id (prev_luid_value s00) t)), s1.
  split_and!.
  - unfold req_adjust_token_privileges. cbn [andb negb]. rewrite Hsv. unfold fbind at 1. rewrite Er. unfold fbind at 1.
    unfold token_adjust_privileges, fbind at 1, allocate_luid. fold s00. unfold fbind at 1. rewrite El. reflexivity.
  - cbn [ar_len ar_saved]. lia.
  - done.
  - intros a Ha. unfold is_held, token_find_privilege. cbn [tk_privileges with_privileges]. rewrite (find_enable_all _ _ _ Hd Ha).
    destruct (find_privilege (la_luid a) (tk_privileges t)); cbn; [| done]. by destruct (wants a).
  - intros l Hl. cbn [tk_privileges with_privileges]. by apply find_enable_all_other.
  - intros s2. cbn [ar_saved]. unfold req_adjust_token_privileges. cbn [andb negb Nat.eqb]. unfold fbind at 1, fret at 1.
    unfold fbind at 1, token_adjust_privileges, fbind at 1, allocate_luid. unfold fbind at 1. cbn [tk_privileges with_privileges].
    unfold sv. rewrite adjust_loop_undo by done. cbn. eexists _, _, _. split_and!; [reflexivity | done | done].
Qed.

(** A request that only removes privileges is answered with data of which nothing has been
    written. *)
Theorem adjust_reply_unwritten t privs reply_room s r t1 s1 :
  Forall (fun a => removes a = true) privs ->
  req_adjust_token_privileges alloc_ok t true false privs reply_room s = Some ((r, t1), s1) ->
  ar_saved r = [] /\
  ar_size r = 12 * Z.of_nat (Nat.min (length (filter (fun a => token_find_privilege t (la_luid a) false <> None) privs)) reply_room).
Proof using allocs.
  intros Hf. unfold req_adjust_token_privileges. cbn [andb negb]. set (room := Nat.min _ _). intros H. fstep H as ok Eok.
  destruct (room_memory room s) as (s' & Er & _). rewrite Er in Eok. injection Eok as <- <-.
  fstep H as p Ep. fstep H as u Eu. fend H. cbn. split; [| lia].
  unfold token_adjust_privileges in Ep. fstep Ep as id Ei. fstep Ep as q Eq. fend Ep. by apply (adjust_loop_removes _ _ _ _ _ _ Hf Eq).
Qed.

End Adjust.

(** ** Examples *)

(** The token holds a privilege, which is disabled; another it does not have. *)
Definition priv_token : token :=
  with_privileges [mkPrivilege SeSecurityPrivilege true true; mkPrivilege (mkLuid 20 0) false false] demo_filtered.1.

Definition priv_request : list luid_attr := [mkLuidAttr (mkLuid 20 0) SE_PRIVILEGE_ENABLED; mkLuidAttr (mkLuid 99 0) 0; mkLuidAttr SeSecurityPrivilege 0].

Definition privileges_after : list (list (Z * bool)) :=
  match req_adjust_token_privileges granted_all priv_token true false priv_request 3 demo_sec with
  | Some ((r, t1), s1) =>
      match req_adjust_token_privileges granted_all t1 false false (ar_saved r) 0 s1 with
      | Some ((_, t2), _) => map (fun t => map (fun p => (low_part (pr_luid p), pr_enabled p)) (tk_privileges t)) [t1; t2]
      | None => []
      end
  | None => []
  end.

Lemma adjust_privileges_roundtrip_witness :
  privileges_after = [[(8, false); (20, true)]; [(8, true); (20, false)]] /\
  exists r t1 s1, req_adjust_token_privileges granted_all priv_token true false priv_request 3 demo_sec = Some ((r, t1), s1) /\ ar_len r = ar_size r.
Proof.
  split; [by vm_compute |].
  destruct (adjust_privileges_roundtrip granted_all (fun _ => eq_refl) priv_token priv_request 3 demo_sec) as (r & t1 & s1 & H & _ & Hl & _).
  - apply (bool_decide_unpack _). by vm_compute.
  - by repeat constructor.
  - cbn. lia.
  - exists r, t1, s1. by rewrite Hl.
Defined.

(** Removing the privilege of the token sends twelve bytes nobody has written. *)
Example unwritten_reply :
  (fun x => (ar_size x.1.1, length (ar_saved x.1.1))) <$>
    req_adjust_token_privileges granted_all priv_token true false [mkLuidAttr (mkLuid 20 0) SE_PRIVILEGE_REMOVED] 3 demo_sec = Some (12, 0%nat).
Proof. by vm_compute. Qed.
