(* ===== verification/RegKey.v ===== *)
(** * The tree of registry keys

    Models the keys of [src/server/registry.c] with the part of [src/server/object.c] that
    creates, finds, opens and unlinks them.  Keys live in a heap; the subkeys of a key are an
    array ordered by name, of which [rk_subkeys] is the used part ([last_subkey] is its
    length less one) and [rk_nb_subkeys] the allocated length.  A key knows its parent
    through its name, and a deleted key has no name.  The values of a key and its flags are
    those of [RegValue].

    Following a null pointer, a freed key or a failed assertion is a fault.  What the root
    directory of the object manager finds under a path is answered by [dir_lookup]; events
    are numbers, and what happens to them is recorded in [rs_log].  Handles are pairs of a
    process and a number; which number the handle table gives, or which error, comes with
    the request, and [refusal] is the error with which the table refuses a handle for the
    rights asked. *)

From stdpp Require Import base list gmap.
From Stdlib Require Import ZArith Lia.
From S2P Require Import Prelude Fallible Atom RegValue.

Open Scope Z_scope.
Open Scope fallible_scope.

Definition KEY_VOLATILE : Z := 0x0001.
Definition KEY_DIRTY : Z := 0x0004.
Definition KEY_WOWSHARE : Z := 0x0010.
Definition MIN_SUBKEYS : Z := 8.
Definition MAX_NAME_LEN : Z := 256.

Definition REG_OPTION_VOLATILE : Z := 1.
Definition REG_OPTION_CREATE_LINK : Z := 2.
Definition REG_NOTIFY_CHANGE_NAME : Z := 1.

Definition OBJ_PERMANENT : Z := 0x10.
Definition OBJ_CASE_INSENSITIVE : Z := 0x40.
Definition OBJ_OPENIF : Z := 0x80.
Definition OBJ_OPENLINK : Z := 0x100.
Definition OBJ_KEY_WOW64 : Z := 0x100000.
Definition DELETE_ACCESS : Z := 0x10000.
Definition KEY_QUERY_VALUE : Z := 0x1.
Definition KEY_SET_VALUE : Z := 0x2.
Definition KEY_ENUMERATE_SUB_KEYS : Z := 0x8.
Definition KEY_NOTIFY : Z := 0x10.
Definition KEY_WRITE : Z := 0x20006.
Definition KEY_WOW64_64KEY : Z := 0x100.
Definition KEY_WOW64_32KEY : Z := 0x200.

Definition REG_PENDING : Z := 0x103.
Definition REG_NAME_EXISTS : Z := 0x40000000.
Definition REG_PREDEFINED_HANDLE : Z := 0x40000016.
Definition REG_TYPE_MISMATCH : Z := 0xC0000024.
Definition REG_NAME_INVALID : Z := 0xC0000033.
Definition REG_NAME_COLLISION : Z := 0xC0000035.
Definition REG_PATH_SYNTAX_BAD : Z := 0xC000003B.
Definition REG_PRIVILEGE_NOT_HELD : Z := 0xC0000061.
Definition REG_CANNOT_DELETE : Z := 0xC0000121.
Definition REG_CHILD_MUST_BE_VOLATILE : Z := 0xC0000181.

Definition backslash : Z := 0x5c.

(** ** Data *)

(** What the name of an object points to as its parent. *)
Inductive parent := NoParent | InKey (q : Z) | InDirectory.

Record oname := mkName { on_name : wstr; on_parent : parent }.

Record notify := mkNotify { n_events : list Z; n_subtree : bool; n_filter : Z; n_hkey : Z; n_process : Z }.

Record rkey := mkRKey {
  rk_ref : Z;
  rk_handles : Z;                 (* [obj.handle_count] *)
  rk_permanent : bool;
  rk_name : option oname;         (* [obj.name] *)
  rk_class : list Z;              (* null when empty *)
  rk_subkeys : list Z;
  rk_nb_subkeys : Z;
  rk_wow : option Z;              (* [wow6432node] *)
  rk_key : key;                   (* values and flags *)
  rk_modif : Z;
  rk_notify : list notify
}.

(** What is done to event objects. *)
Inductive revent := Grabbed (e : Z) | SetEvent (e : Z) | Released (e : Z) | ResetEvent (e : Z).

Record reg := mkReg {
  rs_heap : gmap Z rkey;
  rs_next : Z;                    (* where the allocator puts the next key *)
  rs_root : option Z;             (* [root_key] *)
  rs_error : Z;
  rs_time : Z;                    (* [current_time] *)
  rs_allocs : nat;
  rs_log : list revent;
  rs_open : gmap (Z * Z) Z        (* the handles to keys *)
}.

Abbreviation R := (F reg).

Definition set_heap (h : gmap Z rkey) (s : reg) : reg :=
  mkReg h (rs_next s) (rs_root s) (rs_error s) (rs_time s) (rs_allocs s) (rs_log s) (rs_open s).
Definition set_open (o : gmap (Z * Z) Z) (s : reg) : reg :=
  mkReg (rs_heap s) (rs_next s) (rs_root s) (rs_error s) (rs_time s) (rs_allocs s) (rs_log s) o.

Definition set_error (e : Z) : R unit :=
  fmodify (fun s => mkReg (rs_heap s) (rs_next s) (rs_root s) e (rs_time s) (rs_allocs s) (rs_log s) (rs_open s)).
Definition clear_error : R unit := set_error 0.
Definition get_error : R Z := fun s => Some (rs_error s, s).
Definition log (es : list revent) : R unit :=
  fmodify (fun s => mkReg (rs_heap s) (rs_next s) (rs_root s) (rs_error s) (rs_time s) (rs_allocs s) (rs_log s ++ es) (rs_open s)).

Definition getk (p : Z) : R rkey := fun s => fread (rs_heap s !! p) s.

(** Writing fields of a key that is there. *)
Definition updk (p : Z) (f : rkey -> rkey) : R unit :=
  do k <- getk p; fmodify (fun s => set_heap (<[p := f k]> (rs_heap s)) s).

Definition with_ref (n : Z) (k : rkey) : rkey :=
  mkRKey n (rk_handles k) (rk_permanent k) (rk_name k) (rk_class k) (rk_subkeys k) (rk_nb_subkeys k) (rk_wow k) (rk_key k) (rk_modif k) (rk_notify k).
Definition with_handles (n : Z) (k : rkey) : rkey :=
  mkRKey (rk_ref k) n (rk_permanent k) (rk_name k) (rk_class k) (rk_subkeys k) (rk_nb_subkeys k) (rk_wow k) (rk_key k) (rk_modif k) (rk_notify k).
Definition make_permanent (k : rkey) : rkey :=
  mkRKey (rk_ref k) (rk_handles k) true (rk_name k) (rk_class k) (rk_subkeys k) (rk_nb_subkeys k) (rk_wow k) (rk_key k) (rk_modif k) (rk_notify k).
Definition with_name (n : option oname) (k : rkey) : rkey :=
  mkRKey (rk_ref k) (rk_handles k) (rk_permanent k) n (rk_class k) (rk_subkeys k) (rk_nb_subkeys k) (rk_wow k) (rk_key k) (rk_modif k) (rk_notify k).
Definition with_subkeys (l : list Z) (k : rkey) : rkey :=
  mkRKey (rk_ref k) (rk_handles k) (rk_permanent k) (rk_name k) (rk_class k) l (rk_nb_subkeys k) (rk_wow k) (rk_key k) (rk_modif k) (rk_notify k).
Definition with_nb_subkeys (n : Z) (k : rkey) : rkey :=
  mkRKey (rk_ref k) (rk_handles k) (rk_permanent k) (rk_name k) (rk_class k) (rk_subkeys k) n (rk_wow k) (rk_key k) (rk_modif k) (rk_notify k).
Definition with_wow (w : option Z) (k : rkey) : rkey :=
  mkRKey (rk_ref k) (rk_handles k) (rk_permanent k) (rk_name k) (rk_class k) (rk_subkeys k) (rk_nb_subkeys k) w (rk_key k) (rk_modif k) (rk_notify k).
Definition with_flags (f : Z) (k : rkey) : rkey :=
  mkRKey (rk_ref k) (rk_handles k) (rk_permanent k) (rk_name k) (rk_class k) (rk_subkeys k) (rk_nb_subkeys k) (rk_wow k)
    (mkKey (k_values (rk_key k)) (k_nb_values (rk_key k)) f) (rk_modif k) (rk_notify k).
Definition with_modif (t : Z) (k : rkey) : rkey :=
  mkRKey (rk_ref k) (rk_handles k) (rk_permanent k) (rk_name k) (rk_class k) (rk_subkeys k) (rk_nb_subkeys k) (rk_wow k) (rk_key k) t (rk_notify k).
Definition with_notify (l : list notify) (k : rkey) : rkey :=
  mkRKey (rk_ref k) (rk_handles k) (rk_permanent k) (rk_name k) (rk_class k) (rk_subkeys k) (rk_nb_subkeys k) (rk_wow k) (rk_key k) (rk_modif k) l.

Definition with_key (v : key) (k : rkey) : rkey :=
  mkRKey (rk_ref k) (rk_handles k) (rk_permanent k) (rk_name k) (rk_class k) (rk_subkeys k) (rk_nb_subkeys k) (rk_wow k) v (rk_modif k) (rk_notify k).

Definition rflag (k : rkey) (f : Z) : bool := has_flag (rk_key k) f.
Definition kflags (k : rkey) : Z := k_flags (rk_key k).
Definition bit (x f : Z) : bool := negb (Z.land x f =? 0).

(** ** Names and paths *)

(** [get_path_element]: the first element of a path, and the rest with its separator. *)
Fixpoint path_element (name : wstr) : wstr * wstr :=
  match name with
  | [] => ([], [])
  | c :: name' => if c =? backslash then ([], name) else let r := path_element name' in (c :: r.1, r.2)
  end.

Fixpoint skip_backslashes (name : wstr) : wstr :=
  match name with c :: name' => if c =? backslash then skip_backslashes name' else name | [] => [] end.

Definition wow6432node : wstr := [0x57; 0x6f; 0x77; 0x36; 0x34; 0x33; 0x32; 0x4e; 0x6f; 0x64; 0x65].

(** What the root directory finds: an error, an object that is no key, or the root key;
    with the name that is left, [None] for one used up. *)
Inductive dir_answer := DirError (e : Z) | DirOther (remaining : option wstr) | DirRegistry (remaining : option wstr).

Inductive robj := KeyObj (p : Z) | OtherObj.

Section Keys.
Context (casemap : Z -> Z) (alloc_ok : nat -> bool) (dir_lookup : wstr -> Z -> dir_answer) (refusal : reg -> Z -> Z -> Z -> option Z).

Definition alloc : R bool := fun s =>
  Some (alloc_ok (rs_allocs s),
        mkReg (rs_heap s) (rs_next s) (rs_root s) (rs_error s) (rs_time s) (S (rs_allocs s)) (rs_log s) (rs_open s)).

Definition mem_alloc : R bool :=
  do ok <- alloc; do _ <- (if ok then fret tt else set_error REG_NO_MEMORY); fret ok.

Definition is_wow6432node (name : wstr) : bool :=
  let e := (path_element name).1 in
  Nat.eqb (length e) (length wow6432node) && (memicmp_strW casemap e wow6432node =? 0).

(** ** Links between keys *)

Definition get_parent (p : Z) : R (option Z) :=
  do k <- getk p;
  do n <- fread (rk_name k);
  fret (match on_parent n with InKey q => Some q | _ => None end).

(** The loop of [find_subkey]. *)
Fixpoint subkey_loop (fuel : nat) (heap : gmap Z rkey) (subkeys : list Z) (name : wstr) (min max : Z) : option (option Z * Z) :=
  if min <=? max then
    match fuel with
    | O => None
    | S fuel' =>
        let i := (min + max) / 2 in
        p ← subkeys !! Z.to_nat i; k ← heap !! p; n ← rk_name k;
        let res := compare_names casemap (on_name n) name in
        if res =? 0 then Some (Some p, i)
        else if 0 <? res then subkey_loop fuel' heap subkeys name min (i - 1)
        else subkey_loop fuel' heap subkeys name (i + 1) max
    end
  else Some (None, min).

Definition find_subkey (p : Z) (name : wstr) : R (option Z * Z) :=
  do k <- getk p;
  do s <- fget;
  fread (subkey_loop (length (rk_subkeys k)) (rs_heap s) (rk_subkeys k) name 0 (Z.of_nat (length (rk_subkeys k)) - 1)).

Definition grow_subkeys (p : Z) : R bool :=
  do k <- getk p;
  do ok <- mem_alloc;
  let nb := rk_nb_subkeys k in
  do _ <- (if ok then updk p (with_nb_subkeys (if negb (nb =? 0) then nb + nb / 2 else MIN_SUBKEYS)) else fret tt);
  fret ok.

Definition grab_object (p : Z) : R unit := updk p (fun k => with_ref (rk_ref k + 1) k).

(** ** Notifications *)

Definition notification (n : notify) : list revent := flat_map (fun e => [SetEvent e; Released e]) (n_events n).

Definition silent (n : notify) : notify := mkNotify [] (n_subtree n) (n_filter n) (n_hkey n) (n_process n).

Definition is_notify (process hkey : Z) (n : notify) : bool := (n_process n =? process) && (n_hkey n =? hkey).

Definition find_notify (process hkey : Z) (ns : list notify) : option notify := List.find (is_notify process hkey) ns.

(** [list_remove] of the first that matches. *)
Fixpoint drop_notify (process hkey : Z) (ns : list notify) : list notify :=
  match ns with [] => [] | n :: ns' => if is_notify process hkey n then ns' else n :: drop_notify process hkey ns' end.

Definition wakes_up (change : Z) (not_subtree : bool) (n : notify) : bool :=
  (not_subtree || n_subtree n) && bit change (n_filter n).

(** [check_notify] with [do_notification] for every one concerned. *)
Definition check_notify (p change : Z) (not_subtree : bool) : R unit :=
  do k <- getk p;
  do _ <- log (flat_map (fun n => if wakes_up change not_subtree n then notification n else []) (rk_notify k));
  updk p (with_notify (map (fun n => if wakes_up change not_subtree n then silent n else n) (rk_notify k))).

(** ** Reference counts *)

Definition index_of (p : Z) : list Z -> option nat :=
  fix go l := match l with [] => None | q :: l' => if q =? p then Some O else S <$> go l' end.

(** [key_unlink_name], for a name whose object is [p]. *)
Definition key_unlink_name (release : Z -> R unit) (p : Z) (n : oname) : R unit :=
  match on_parent n with
  | NoParent => fret tt
  | InDirectory => fret tt
  | InKey q =>
      do k <- getk q;
      do i <- fread (index_of p (rk_subkeys k));
      do _ <- updk q (fun k => with_subkeys (take i (rk_subkeys k) ++ drop (S i) (rk_subkeys k)) k);
      do _ <- updk q (fun k => with_wow (if bool_decide (rk_wow k = Some p) then None else rk_wow k) k);
      do _ <- release p;
      do k <- getk q;
      let nb := rk_nb_subkeys k in
      if (MIN_SUBKEYS <? nb) && (Z.of_nat (length (rk_subkeys k)) - 1 <? nb / 2) then
        do ok <- alloc;
        if ok then updk q (with_nb_subkeys (Z.max (nb - nb / 3) MIN_SUBKEYS)) else fret tt
      else fret tt
  end.

Definition unlink_named_object (release : Z -> R unit) (p : Z) : R unit :=
  do k <- getk p;
  match rk_name k with
  | None => fret tt
  | Some n => do _ <- updk p (with_name None); key_unlink_name release p n
  end.

Fixpoint release_all (release : Z -> R unit) (ps : list Z) : R unit :=
  match ps with
  | [] => fret tt
  | c :: ps' =>
      do k <- getk c;
      do n <- fread (rk_name k);
      do _ <- updk c (with_name (Some (mkName (on_name n) NoParent)));
      do _ <- release c;
      release_all release ps'
  end.

Definition key_destroy (release : Z -> R unit) (p : Z) : R unit :=
  do k <- getk p;
  do _ <- release_all release (rk_subkeys k);
  do k <- getk p;
  log (flat_map notification (rk_notify k)).

Definition free_object (p : Z) : R unit :=
  do _ <- getk p; fmodify (fun s => set_heap (delete p (rs_heap s)) s).

(** Every level of the recursion frees a key. *)
Fixpoint release_loop (fuel : nat) (p : Z) : R unit :=
  match fuel with
  | O => fread None
  | S fuel' =>
      do k <- getk p;
      do _ <- fassert (negb (rk_ref k =? 0));
      do _ <- updk p (with_ref (rk_ref k - 1));
      if rk_ref k - 1 =? 0 then
        do _ <- fassert (rk_handles k =? 0);
        do _ <- unlink_named_object (release_loop fuel') p;
        do _ <- key_destroy (release_loop fuel') p;
        free_object p
      else fret tt
  end.

Definition heap_size : R nat := fun s => Some (size (rs_heap s), s).

Definition release_object (p : Z) : R unit := do n <- heap_size; release_loop (S n) p.

(** ** Modification *)

(** The loops along the parents take at most one round per key. *)
Fixpoint make_dirty (fuel : nat) (p : Z) : R unit :=
  match fuel with
  | O => fread None
  | S fuel' =>
      do k <- getk p;
      if rflag k KEY_DIRTY || rflag k KEY_VOLATILE then fret tt
      else
        do _ <- updk p (with_flags (Z.lor (kflags k) KEY_DIRTY));
        do q <- get_parent p;
        match q with Some q => make_dirty fuel' q | None => fret tt end
  end.

Fixpoint notify_parents (fuel : nat) (p change : Z) : R unit :=
  match fuel with
  | O => fread None
  | S fuel' =>
      do q <- get_parent p;
      match q with Some q => do _ <- check_notify q change false; notify_parents fuel' q change | None => fret tt end
  end.

Definition touch_key (p change : Z) : R unit :=
  do n <- heap_size;
  do s <- fget;
  do _ <- updk p (with_modif (rs_time s));
  do _ <- make_dirty (S n) p;
  do _ <- check_notify p change true;
  notify_parents (S n) p change.

(** [make_clean] of a key and the keys below it. *)
Fixpoint make_clean (fuel : nat) (p : Z) : R unit :=
  match fuel with
  | O => fread None
  | S fuel' =>
      do k <- getk p;
      if rflag k KEY_VOLATILE || negb (rflag k KEY_DIRTY) then fret tt
      else
        do _ <- updk p (with_flags (Z.land (kflags k) (Z.lnot KEY_DIRTY)));
        (fix go ps := match ps with [] => fret tt | c :: ps' => do _ <- make_clean fuel' c; go ps' end) (rk_subkeys k)
  end.

(** ** Finding keys by name *)

Definition empty_name (name : option wstr) : bool := match name with Some (_ :: _) => false | _ => true end.

(** The object a link leads to, found by [lookup], and the name then left. *)
Definition follow_link (lookup : wstr -> R (option (robj * option wstr))) (k : rkey) (name : option wstr) (attr : Z) :
    R (option Z * option wstr) :=
  let stop : R (option Z * option wstr) := fret (None, name) in
  do f <- fread (find_value casemap (rk_key k) symlink_str);
  match (if (f.1 : bool) then k_values (rk_key k) !! Z.to_nat f.2 else None) with
  | None => do _ <- set_error REG_NAME_NOT_FOUND; stop
  | Some v =>
      match bytes_units (v_data v) with
      | c :: target =>
          if c =? backslash then
            do r <- lookup (c :: target);
            match r with
            | None => stop
            | Some (obj, rem) =>
                if negb (empty_name name) && negb (empty_name rem) then
                  do _ <- (match obj with KeyObj q => release_object q | OtherObj => fret tt end);
                  do _ <- set_error REG_NAME_NOT_FOUND; stop
                else
                  let name := if empty_name name then rem else name in
                  match obj with
                  | OtherObj => fread None
                  | KeyObj q =>
                      do kq <- getk q;
                      if rflag kq KEY_WOWSHARE && bit attr OBJ_KEY_WOW64 && bool_decide (name = None) then
                        do up <- get_parent q;
                        do _ <- release_object q;
                        do up <- fread up;
                        do _ <- grab_object up;
                        fret (Some up, name)
                      else fret (Some q, name)
                  end
            end
          else do _ <- set_error REG_NAME_NOT_FOUND; stop
      | [] => do _ <- set_error REG_NAME_NOT_FOUND; stop
      end
  end.

(** The subkey that the first element of a path names. *)
Definition next_element (p : Z) (k : rkey) (path : wstr) (attr : Z) : R (option Z * option wstr) :=
  let stop : R (option Z * option wstr) := fret (None, Some path) in
  let '(tmp, after) := path_element path in
  if MAX_NAME_LEN * 2 <? namelen tmp then do _ <- set_error REG_INVALID_PARAMETER; stop
  else
    let rest := skip_backslashes after in
    do f <- find_subkey p tmp;
    do f <- (match f.1 with
             | Some c => fret (inl (Some c))
             | None =>
                 if rflag k KEY_WOWSHARE && bit attr OBJ_KEY_WOW64 then
                   do up <- get_parent p;
                   do up <- fread up;
                   do g <- find_subkey up tmp;
                   match g.1 with
                   | Some c => fret (inl (Some c))
                   | None => do _ <- grab_object up; fret (inr up)
                   end
                 else fret (inl None)
             end);
    match f with
    | inr up => fret (Some up, Some path)
    | inl None =>
        match rest with
        | [] => fret (None, Some tmp)
        | _ => do _ <- set_error REG_NAME_NOT_FOUND; stop
        end
    | inl (Some c) =>
        match rest with
        | [] => do _ <- grab_object c; fret (Some c, None)
        | _ =>
            do kc <- getk c;
            let c := match rk_wow kc with
                     | Some w => if bit attr OBJ_KEY_WOW64 && negb (is_wow6432node rest) then w else c
                     | None => c
                     end in
            do _ <- grab_object c;
            fret (Some c, Some rest)
        end
    end.

(** One step of a lookup at key [p] with the name left: the key to go on with, if any, and
    the name then left.  [lookup] resolves a path from the root directory. *)
Definition key_lookup_name (lookup : wstr -> R (option (robj * option wstr))) (p : Z) (name : option wstr) (attr : Z) :
    R (option Z * option wstr) :=
  let stop : R (option Z * option wstr) := fret (None, name) in
  do k <- getk p;
  if rflag k KEY_DELETED then do _ <- set_error REG_KEY_DELETED; stop
  else if rflag k KEY_SYMLINK then
    if empty_name name && bit attr OBJ_OPENLINK then stop else follow_link lookup k name attr
  else match name with None => stop | Some path => next_element p k path attr end.

(** The loop of [lookup_named_object] among keys; its rounds are counted. *)
Fixpoint lookup_loop (lookup : wstr -> R (option (robj * option wstr))) (rounds : nat) (p : Z) (name : option wstr) (attr : Z) :
    R (Z * option wstr) :=
  match rounds with
  | O => fread None
  | S rounds' =>
      do r <- key_lookup_name lookup p name attr;
      match r.1 with
      | None => fret (p, r.2)
      | Some q => do _ <- release_object p; lookup_loop lookup rounds' q r.2 attr
      end
  end.

(** What is left of a lookup at a key: the object and the name left, or nothing. *)
Definition lookup_from (lookup : wstr -> R (option (robj * option wstr))) (p : Z) (name : option wstr) (attr : Z) :
    R (option (robj * option wstr)) :=
  do n <- heap_size;
  do r <- lookup_loop lookup (2 * (length (default [] name) + n) + 4) p name attr;
  do e <- get_error;
  if negb (e =? 0) then do _ <- release_object r.1; fret None
  else fret (Some (KeyObj r.1, r.2)).

(** [lookup_named_object] from the root directory; [depth] more lookups may be nested. *)
Fixpoint lookup_path (depth : nat) (attr : Z) (name : wstr) : R (option (robj * option wstr)) :=
  match name with
  | c :: path =>
      if c =? backslash then
        match depth with
        | O => do _ <- set_error REG_INVALID_PARAMETER; fret None
        | S depth' =>
            do _ <- clear_error;
            match dir_lookup path attr with
            | DirError e => do _ <- set_error e; fret None
            | DirOther rem => fret (Some (OtherObj, rem))
            | DirRegistry rem =>
                do s <- fget;
                do root <- fread (rs_root s);
                do _ <- grab_object root;
                lookup_from (lookup_path depth' OBJ_CASE_INSENSITIVE) root rem attr
            end
        end
      else do _ <- set_error REG_PATH_SYNTAX_BAD; fret None
  | [] => do _ <- set_error REG_PATH_SYNTAX_BAD; fret None
  end.

(** Lookups are nested at most 33 deep. *)
Definition MAX_LOOKUPS : nat := 33.

Definition lookup_named_object (root : option Z) (name : wstr) (attr : Z) : R (option (robj * option wstr)) :=
  match root with
  | None => lookup_path MAX_LOOKUPS attr name
  | Some p =>
      match name with
      | [] => do _ <- grab_object p; do _ <- clear_error; fret (Some (KeyObj p, Some []))
      | c :: _ =>
          if c =? backslash then do _ <- set_error REG_PATH_SYNTAX_BAD; fret None
          else
            do _ <- grab_object p;
            do _ <- clear_error;
            lookup_from (lookup_path (MAX_LOOKUPS - 1) OBJ_CASE_INSENSITIVE) p (Some name) attr
      end
  end.

(** ** Creating and opening keys *)

Record init_data := mkInit { id_options : Z; id_class : list Z; id_modif : Z }.

Definition key_init (p : Z) (data : init_data) : R bool :=
  do up <- get_parent p;
  do _ <- updk p (fun k => mkRKey (rk_ref k) (rk_handles k) (rk_permanent k) (rk_name k) [] [] 0 None (mkKey [] 0 0) (id_modif data) []);
  let class := take (length (id_class data) / 2 * 2) (id_class data) in
  do ok <- (if Nat.eqb (length class) 0 then fret true else mem_alloc);
  if negb ok then fret false
  else
    do _ <- updk p (fun k => mkRKey (rk_ref k) (rk_handles k) (rk_permanent k) (rk_name k) class (rk_subkeys k) (rk_nb_subkeys k) (rk_wow k)
                               (rk_key k) (rk_modif k) (rk_notify k));
    do _ <- (if bit (id_options data) REG_OPTION_CREATE_LINK
             then updk p (fun k => with_flags (Z.lor (kflags k) KEY_SYMLINK) k) else fret tt);
    if bit (id_options data) REG_OPTION_VOLATILE
    then do _ <- updk p (fun k => with_flags (Z.lor (kflags k) KEY_VOLATILE) k); fret true
    else
      do bad <- (match up with Some q => do k <- getk q; fret (rflag k KEY_VOLATILE) | None => fret false end);
      if (bad : bool) then do _ <- set_error REG_CHILD_MUST_BE_VOLATILE; fret false
      else do _ <- updk p (fun k => with_flags (Z.lor (kflags k) KEY_DIRTY) k); fret true.

(** [alloc_object]: the fields of a key are written by [key_init]. *)
Definition alloc_object : R (option Z) :=
  do ok <- mem_alloc;
  if negb ok then fret None
  else fun s =>
    Some (Some (rs_next s),
          mkReg (<[rs_next s := mkRKey 1 0 false None [] [] 0 None (mkKey [] 0 0) 0 []]> (rs_heap s)) (rs_next s + 1) (rs_root s)
            (rs_error s) (rs_time s) (rs_allocs s) (rs_log s) (rs_open s)).

(** [key_link_name]: the parent the name gets, or nothing on failure. *)
Definition key_link_name (p : Z) (name : wstr) (par : robj) : R (option parent) :=
  match par with
  | OtherObj =>
      do s <- fget;
      match rs_root s with
      | None => fret (Some InDirectory)
      | Some _ => do _ <- set_error REG_NAME_NOT_FOUND; fret None
      end
  | KeyObj q =>
      do k <- getk q;
      do ok <- (if Z.of_nat (length (rk_subkeys k)) =? rk_nb_subkeys k then grow_subkeys q else fret true);
      if negb ok then fret None
      else
        do f <- find_subkey q name;
        let i := Z.to_nat f.2 in
        do _ <- updk q (fun k => with_subkeys (take i (rk_subkeys k) ++ p :: drop i (rk_subkeys k)) k);
        do _ <- grab_object p;
        do w <- (if is_wow6432node name then
                   do k <- getk q; do n <- fread (rk_name k); fret (negb (is_wow6432node (on_name n)))
                 else fret false);
        do _ <- (if (w : bool) then updk q (with_wow (Some p)) else fret tt);
        fret (Some (InKey q))
  end.

Definition release_robj (o : robj) : R unit := match o with KeyObj q => release_object q | OtherObj => fret tt end.

(** [create_object_without_name] *)
Definition create_without_name (data : init_data) (sd_ok : bool) : R (option Z) :=
  do o <- alloc_object;
  match o with
  | None => fret None
  | Some p =>
      if negb sd_ok then do _ <- free_object p; fret None
      else do ok <- key_init p data; if (ok : bool) then fret (Some p) else do _ <- free_object p; fret None
  end.

(** [create_object_with_name]; [sd_ok] tells whether the descriptor of the request, if any,
    can be given to the object. *)
Definition create_object_with_name (root : option Z) (name : wstr) (attr : Z) (data : init_data) (sd_ok : bool) : R (option Z) :=
  do _ <- clear_error;
  match name with
  | [] => create_without_name data sd_ok
  | _ =>
      do r <- lookup_named_object root name attr;
      match r with
      | None => fret None
      | Some (par, rem) =>
          match rem with
          | Some ((_ :: _) as new_name) =>
              let failed : R (option Z) := do _ <- release_robj par; fret None in
              do ok <- mem_alloc;
              if negb ok then failed
              else
                do o <- alloc_object;
                match o with
                | None => failed
                | Some p =>
                    if negb sd_ok then do _ <- free_object p; failed
                    else
                      do l <- key_link_name p new_name par;
                      match l with
                      | None => do _ <- free_object p; failed
                      | Some l =>
                          do _ <- updk p (with_name (Some (mkName new_name l)));
                          do _ <- release_robj par;
                          do ok <- key_init p data;
                          if (ok : bool) then fret (Some p)
                          else do _ <- unlink_named_object release_object p; do _ <- free_object p; fret None
                      end
                end
          | _ =>
              match par with
              | KeyObj p =>
                  if bit attr OBJ_OPENIF then do _ <- set_error REG_NAME_EXISTS; fret (Some p)
                  else do _ <- release_object p; do _ <- set_error REG_NAME_COLLISION; fret None
              | OtherObj =>
                  do _ <- set_error (if bit attr OBJ_OPENIF then REG_TYPE_MISMATCH else REG_NAME_COLLISION); fret None
              end
          end
      end
  end.

Definition create_named_object (root : option Z) (name : wstr) (attr : Z) (data : init_data) (sd_ok : bool) : R (option Z) :=
  do o <- create_object_with_name root name attr data sd_ok;
  match o with
  | Some p => if bit attr OBJ_PERMANENT then do _ <- updk p make_permanent; do _ <- grab_object p; fret (Some p) else fret (Some p)
  | None => fret None
  end.

Definition open_named_object (root : option Z) (name : wstr) (attr : Z) : R (option Z) :=
  if 65534 <=? namelen name then do _ <- set_error REG_NAME_INVALID; fret None
  else
    do r <- lookup_named_object root name attr;
    match r with
    | None => fret None
    | Some (o, rem) =>
        if negb (empty_name rem) then do _ <- set_error REG_NAME_NOT_FOUND; do _ <- release_robj o; fret None
        else match o with
             | KeyObj p => fret (Some p)
             | OtherObj => do _ <- set_error REG_TYPE_MISMATCH; fret None
             end
    end.

(** The loop of [create_key_recursive] with [parent] grabbed; every round but the last uses
    up a unit of the name. *)
Fixpoint create_loop (fuel : nat) (parent : Z) (name : wstr) (modif : Z) : R (option Z) :=
  match name with
  | [] => fret (Some parent)
  | _ =>
      match fuel with
      | O => fread None
      | S fuel' =>
          let '(element, after) := path_element name in
          do r <- create_named_object (Some parent) element OBJ_OPENIF (mkInit 0 [] modif) true;
          do _ <- release_object parent;
          match r, after with
          | None, _ => fret None
          | Some p, [] => fret (Some p)
          | Some p, _ :: rest => create_loop fuel' p rest modif
          end
      end
  end.

Definition create_key_recursive (root : Z) (name : wstr) (modif : Z) : R (option Z) :=
  do _ <- grab_object root; create_loop (length name) root name modif.

(** ** Keys of 32-bit programs *)

Definition grab_wow6432node (p : Z) : R Z :=
  do k <- getk p;
  match rk_wow k with
  | None => fret p
  | Some w =>
      do kw <- getk w;
      if rflag kw KEY_WOWSHARE then fret p
      else do _ <- grab_object w; do _ <- release_object p; fret w
  end.

Fixpoint get_wow6432node (fuel : nat) (o : option Z) : R (option Z) :=
  match fuel, o with
  | O, _ => fread None
  | _, None => fret None
  | S fuel', Some p =>
      do k <- getk p;
      match rk_wow k with
      | Some w => fret (Some w)
      | None =>
          do up <- get_parent p;
          do mine <- (match up with Some q => do kq <- getk q; fret (bool_decide (rk_wow kq = Some p)) | None => fret false end);
          if (mine : bool) then fret (Some p)
          else
            do r <- get_wow6432node fuel' up;
            match r with
            | None => fret (Some p)
            | Some w => do n <- fread (rk_name k); do f <- find_subkey w (on_name n); fret f.1
            end
      end
  end.

Definition get_wow6432_parent (p access : Z) (name : wstr) : R Z :=
  if negb (bit access KEY_WOW64_64KEY) && negb (is_wow6432node name) then
    do n <- heap_size;
    do r <- get_wow6432node (S (S n)) (Some p);
    match r with
    | Some w => do k <- getk w; fret (if bit access KEY_WOW64_32KEY || rflag k KEY_WOWSHARE then w else p)
    | None => fret p
    end
  else fret p.

(** ** Deleting, renaming, enumerating *)

(** A level of the recursion is a level of the tree. *)
Fixpoint delete_loop (fuel : nat) (p : Z) (recurse : bool) : R bool :=
  match fuel with
  | O => fread None
  | S fuel' =>
      do k <- getk p;
      if rflag k KEY_DELETED then fret true
      else
        do up <- get_parent p;
        match up with
        | None => do _ <- set_error REG_ACCESS_DENIED; fret false
        | Some q =>
            if rflag k KEY_PREDEF then do _ <- set_error REG_INVALID_HANDLE; fret false
            else
              do ok <- (if recurse then
                          (fix subkeys n : R bool :=
                             do k <- getk p;
                             match n, last (rk_subkeys k) with
                             | _, None => fret true
                             | O, _ => fread None
                             | S n', Some c => do ok <- delete_loop fuel' c true; if (ok : bool) then subkeys n' else fret false
                             end) (length (rk_subkeys k))
                        else match rk_subkeys k with
                             | [] => fret true
                             | _ => do _ <- set_error REG_ACCESS_DENIED; fret false
                             end);
              if negb ok then fret false
              else
                do _ <- updk p (fun k => with_flags (Z.lor (kflags k) KEY_DELETED) k);
                do _ <- unlink_named_object release_object p;
                do _ <- touch_key q REG_NOTIFY_CHANGE_NAME;
                fret true
        end
  end.

Definition delete_key (p : Z) (recurse : bool) : R bool := do n <- heap_size; delete_loop (S n) p recurse.

Definition rename_key (p : Z) (new_name : wstr) : R unit :=
  do up <- get_parent p;
  let e := (path_element new_name).1 in
  if Nat.eqb (length e) 0 || negb (Nat.eqb (length e) (length new_name)) || (MAX_NAME_LEN * 2 <? namelen e)
  then set_error REG_INVALID_PARAMETER
  else
    match up with
    | None => set_error REG_CANNOT_DELETE
    | Some q =>
        do f <- find_subkey q new_name;
        match f.1 with
        | Some _ => set_error REG_CANNOT_DELETE
        | None =>
            do kq <- getk q;
            if bool_decide (rk_wow kq = Some p) || is_wow6432node new_name then set_error REG_INVALID_PARAMETER
            else
              do ok <- mem_alloc;
              if negb ok then fret tt
              else
                do cur <- fread (index_of p (rk_subkeys kq));
                let index := Z.to_nat f.2 in
                let index := if Nat.ltb cur index then (index - 1)%nat else index in
                let others := take cur (rk_subkeys kq) ++ drop (S cur) (rk_subkeys kq) in
                do _ <- updk q (with_subkeys (take index others ++ p :: drop index others));
                do _ <- updk p (with_name (Some (mkName new_name (InKey q))));
                touch_key p REG_NOTIFY_CHANGE_NAME
        end
    end.

(** [default_get_full_name]: the path through the parents. *)
Fixpoint full_name (fuel : nat) (p : Z) : R wstr :=
  match fuel with
  | O => fread None
  | S fuel' =>
      do k <- getk p;
      match rk_name k with
      | None => fret []
      | Some n =>
          do above <- (match on_parent n with InKey q => full_name fuel' q | _ => fret [] end);
          fret (above ++ backslash :: on_name n)
      end
  end.

Record enum_key_reply := mkEnumKey {
  ek_subkeys : Z; ek_values : Z; ek_modif : Z; ek_total : Z; ek_namelen : Z;
  ek_max_subkey : Z; ek_max_class : Z; ek_max_value : Z; ek_max_data : Z; ek_data : list Z
}.

Definition no_enum_reply : enum_key_reply := mkEnumKey 0 0 0 0 0 0 0 0 0 [].

Definition max_over {A} (f : A -> Z) (l : list A) : Z := foldr (fun a m => Z.max (f a) m) 0 l.

(** The names and classes of the subkeys. *)
Fixpoint subkey_infos (ps : list Z) : R (list (Z * Z)) :=
  match ps with
  | [] => fret []
  | c :: ps' =>
      do k <- getk c; do n <- fread (rk_name k); do r <- subkey_infos ps';
      fret ((namelen (on_name n), Z.of_nat (length (rk_class k))) :: r)
  end.

Definition enum_key (p index info_class max_size : Z) : R enum_key_reply :=
  do k <- getk p;
  if rflag k KEY_PREDEF then do _ <- set_error REG_INVALID_HANDLE; fret no_enum_reply
  else if negb (index =? -1) && ((index <? 0) || (Z.of_nat (length (rk_subkeys k)) - 1 <? index))
  then do _ <- set_error REG_NO_MORE_ENTRIES; fret no_enum_reply
  else
    do p <- fread (if index =? -1 then Some p else rk_subkeys k !! Z.to_nat index);
    do k <- getk p;
    do n <- fread (rk_name k);
    let name := units_bytes (on_name n) in
    let classlen := Z.of_nat (length (rk_class k)) in
    do n <- heap_size;
    let maxima (infos : list (Z * Z)) :=
      mkEnumKey 0 0 0 0 (Z.of_nat (length name)) (max_over fst infos) (max_over snd infos)
        (max_over (fun v => namelen (v_name v)) (k_values (rk_key k)))
        (max_over (fun v => Z.of_nat (length (v_data v))) (k_values (rk_key k))) [] in
    (* the name to return, how much of the class, and the reply so far *)
    do r <- (if info_class =? 3 then
               if rflag k KEY_DELETED then do _ <- set_error REG_KEY_DELETED; fret None
               else do ok <- alloc; if (ok : bool) then do full <- full_name (S n) p; fret (Some (units_bytes full, 0, no_enum_reply)) else fret None
             else if info_class =? 0 then fret (Some (name, 0, no_enum_reply))
             else if info_class =? 1 then fret (Some (name, classlen, no_enum_reply))
             else if info_class =? 2 then do infos <- subkey_infos (rk_subkeys k); fret (Some ([], classlen, maxima infos))
             else if info_class =? 4 then do infos <- subkey_infos (rk_subkeys k); fret (Some ([], 0, maxima infos))
             else do _ <- set_error REG_INVALID_PARAMETER; fret None);
    match r with
    | None => fret no_enum_reply
    | Some (nm, clen, base) =>
        let nlen := Z.of_nat (length nm) in
        let total := nlen + clen in
        let len := Z.min total max_size in
        do ok <- (if len =? 0 then fret false else if len <=? 512 then fret true else mem_alloc);
        fret (mkEnumKey (Z.of_nat (length (rk_subkeys k))) (Z.of_nat (length (k_values (rk_key k)))) (rk_modif k) total
                (if negb ok then ek_namelen base else if nlen <? len then nlen else if info_class =? 3 then nlen else len)
                (ek_max_subkey base) (ek_max_class base) (ek_max_value base) (ek_max_data base)
                (if negb ok then [] else if nlen <? len then nm ++ take (Z.to_nat (len - nlen)) (rk_class k) else take (Z.to_nat len) nm))
    end.

(** ** Requests *)

(** [get_handle_obj] of a key: the key, grabbed. *)
Definition get_handle_obj (process hkey access : Z) : R (option Z) :=
  do s <- fget;
  match rs_open s !! (process, hkey), refusal s process hkey access with
  | Some p, None => do _ <- grab_object p; fret (Some p)
  | _, Some e => do _ <- set_error e; fret None
  | None, None => do _ <- set_error REG_INVALID_HANDLE; fret None
  end.

Definition get_hkey_obj (process hkey access : Z) : R (option Z) :=
  do o <- get_handle_obj process hkey access;
  match o with
  | None => fret None
  | Some p =>
      do k <- getk p;
      if rflag k KEY_DELETED then do _ <- set_error REG_KEY_DELETED; do _ <- release_object p; fret None
      else fret (Some p)
  end.

(** [alloc_handle]: the handle table gives a handle, or fails with an error. *)
Definition alloc_handle (process p : Z) (answer : Z + Z) : R unit :=
  match answer with
  | inl e => set_error e
  | inr h =>
      do _ <- updk p (fun k => with_handles (rk_handles k + 1) k);
      do _ <- grab_object p;
      fmodify (fun s => set_open (<[(process, h) := p]> (rs_open s)) s)
  end.

Definition release_opt (o : option Z) : R unit := match o with Some p => release_object p | None => fret tt end.

(** The access a process that is not a 32-bit one asks for. *)
Definition wow_access (wow64 : bool) (access : Z) : Z :=
  if wow64 then access else Z.lor (Z.land access (Z.lnot KEY_WOW64_32KEY)) KEY_WOW64_64KEY.

Definition wow_attr (access attr : Z) : Z := if bit access KEY_WOW64_64KEY then attr else Z.lor attr OBJ_KEY_WOW64.

(** The parent named by a request: [None] when its handle is bad. *)
Definition request_parent (process : Z) (rootdir : option Z) : R (option (option Z)) :=
  match rootdir with
  | None => fret (Some None)
  | Some h => do o <- get_hkey_obj process h 0; fret (match o with Some p => Some (Some p) | None => None end)
  end.

Definition request_root (parent : option Z) (access : Z) (name : wstr) : R (option Z) :=
  match parent with
  | Some p => do r <- get_wow6432_parent p access name; fret (Some r)
  | None => fret None
  end.

Definition req_create_key (process : Z) (wow64 : bool) (rootdir : option Z) (name : wstr) (attr options access : Z) (class : list Z)
    (sd_ok : bool) (answer : Z + Z) : R unit :=
  do s <- fget;
  let data := mkInit options class (rs_time s) in
  let access := wow_access wow64 access in
  let attr := wow_attr access attr in
  let attr := if bit options REG_OPTION_CREATE_LINK then Z.lor (Z.land attr (Z.lnot OBJ_OPENIF)) OBJ_OPENLINK else attr in
  do r <- request_parent process rootdir;
  match r with
  | None => fret tt
  | Some parent =>
      do root <- request_root parent access name;
      do o <- (match name with [] => open_named_object root name attr | _ => create_named_object root name attr data sd_ok end);
      do _ <- (match o with
               | None => fret tt
               | Some p =>
                   do e <- get_error;
                   if match name with [] => true | _ => e =? REG_NAME_EXISTS end then
                     do k <- getk p;
                     do _ <- (if rflag k KEY_PREDEF then set_error REG_PREDEFINED_HANDLE else fret tt);
                     do p <- (if bit access KEY_WOW64_64KEY then fret p else grab_wow6432node p);
                     do _ <- alloc_handle process p answer;
                     release_object p
                   else
                     do _ <- alloc_handle process p answer;
                     do _ <- (match parent with
                              | Some _ => do up <- get_parent p; do up <- fread up; touch_key up REG_NOTIFY_CHANGE_NAME
                              | None => fret tt
                              end);
                     release_object p
               end);
      release_opt parent
  end.

Definition req_open_key (process : Z) (wow64 : bool) (rootdir : option Z) (name : wstr) (attr access : Z) (answer : Z + Z) : R unit :=
  let access := wow_access wow64 access in
  let attr := wow_attr access attr in
  do r <- request_parent process rootdir;
  match r with
  | None => fret tt
  | Some parent =>
      do root <- request_root parent access name;
      do o <- open_named_object root name attr;
      do _ <- (match o with
               | None => fret tt
               | Some p =>
                   do p <- (if bit access KEY_WOW64_64KEY then fret p else grab_wow6432node p);
                   do k <- getk p;
                   do _ <- (if rflag k KEY_PREDEF then set_error REG_PREDEFINED_HANDLE else fret tt);
                   do _ <- alloc_handle process p answer;
                   release_object p
               end);
      release_opt parent
  end.

Definition req_delete_key (process hkey : Z) : R unit :=
  do o <- get_handle_obj process hkey DELETE_ACCESS;
  match o with Some p => do _ <- delete_key p false; release_object p | None => fret tt end.

Definition req_rename_key (process hkey : Z) (name : wstr) : R unit :=
  do o <- get_hkey_obj process hkey KEY_WRITE;
  match o with Some p => do _ <- rename_key p name; release_object p | None => fret tt end.

Definition req_enum_key (process hkey index info_class max_size : Z) : R enum_key_reply :=
  do o <- get_hkey_obj process hkey (if index =? -1 then 0 else KEY_ENUMERATE_SUB_KEYS);
  match o with
  | Some p => do r <- enum_key p index info_class max_size; do _ <- release_object p; fret r
  | None => fret no_enum_reply
  end.

(** [load_registry]: [load] reads the file into the key. *)
Definition req_load_registry (load : Z -> R unit) (process : Z) (privileged : bool) (rootdir : option Z) (name : wstr) (attr : Z) (sd_ok : bool) : R unit :=
  do s <- fget;
  if negb privileged then set_error REG_PRIVILEGE_NOT_HELD
  else
    do r <- request_parent process rootdir;
    match r with
    | None => fret tt
    | Some parent =>
        do o <- create_named_object parent name attr (mkInit 0 [] (rs_time s)) sd_ok;
        do _ <- (match o with Some p => do _ <- load p; release_object p | None => fret tt end);
        release_opt parent
    end.

Definition req_unload_registry (process : Z) (privileged : bool) (rootdir : option Z) (name : wstr) (attr : Z) : R unit :=
  if negb privileged then set_error REG_PRIVILEGE_NOT_HELD
  else
    do r <- request_parent process rootdir;
    match r with
    | None => fret tt
    | Some parent =>
        do o <- open_named_object parent name attr;
        do _ <- (match o with
                 | None => fret tt
                 | Some p =>
                     do k <- getk p;
                     do _ <- (if negb (rk_handles k =? 0) then set_error REG_CANNOT_DELETE
                              else if rk_permanent k then set_error REG_ACCESS_DENIED
                              else do _ <- delete_key p true; fret tt);
                     release_object p
                 end);
        release_opt parent
    end.

Fixpoint add_event (process hkey e : Z) (ns : list notify) : list notify :=
  match ns with
  | [] => []
  | n :: ns' =>
      if is_notify process hkey n then mkNotify (n_events n ++ [e]) (n_subtree n) (n_filter n) (n_hkey n) (n_process n) :: ns'
      else n :: add_event process hkey e ns'
  end.

(** [set_registry_notification]; [event] is what the handle of the event stands for. *)
Definition req_set_notification (process hkey : Z) (event : option Z) (subtree : bool) (filter : Z) : R unit :=
  do o <- get_hkey_obj process hkey KEY_NOTIFY;
  match o with
  | None => fret tt
  | Some p =>
      do _ <- (match event with
               | None => set_error REG_INVALID_HANDLE
               | Some e =>
                   do _ <- log [Grabbed e];
                   do k <- getk p;
                   do have <- (match find_notify process hkey (rk_notify k) with
                               | Some _ => fret true
                               | None =>
                                   do ok <- mem_alloc;
                                   do _ <- (if (ok : bool) then updk p (with_notify (mkNotify [] subtree filter hkey process :: rk_notify k)) else fret tt);
                                   fret ok
                               end);
                   do _ <- (if negb have then fret tt
                            else
                              do ok <- alloc;
                              if (ok : bool) then
                                do k <- getk p;
                                do _ <- log [Grabbed e];
                                do _ <- updk p (with_notify (add_event process hkey e (rk_notify k)));
                                do _ <- log [ResetEvent e];
                                set_error REG_PENDING
                              else set_error REG_NO_MEMORY);
                   log [Released e]
               end);
      release_object p
  end.

(** An operation on the values of key [p], with the changes it tells [touch_key]. *)
Fixpoint touch_all (p : Z) (changes : list Z) : R unit :=
  match changes with [] => fret tt | c :: cs => do _ <- touch_key p c; touch_all p cs end.

Definition on_values {A} (p : Z) (op : M rg A) : R A :=
  do k <- getk p;
  do s <- fget;
  let r := op (mkRg (rk_key k) (rs_allocs s) (rs_error s) []) in
  do _ <- fmodify (fun s => mkReg (rs_heap s) (rs_next s) (rs_root s) (rg_error r.2) (rs_time s) (rg_allocs r.2) (rs_log s) (rs_open s));
  do _ <- updk p (with_key (rg_key r.2));
  do _ <- touch_all p (rg_touched r.2);
  fret r.1.

(** The requests on values. *)
Definition with_values {A} (process hkey access : Z) (none : A) (op : M rg A) : R A :=
  do o <- get_hkey_obj process hkey access;
  match o with
  | Some p => do a <- on_values p op; do _ <- release_object p; fret a
  | None => fret none
  end.

Definition set_key_value (junk process hkey : Z) (req_data : list Z) (name_len type : Z) : R unit :=
  if Z.of_nat (length req_data) <? name_len then set_error REG_INVALID_PARAMETER
  else with_values process hkey KEY_SET_VALUE tt (set_value casemap alloc_ok junk (bytes_units (take (Z.to_nat (name_len / 2 * 2)) req_data)) type (drop (Z.to_nat name_len) req_data)).

Definition get_key_value (process hkey : Z) (name : wstr) (max_size : Z) : R value_reply :=
  with_values process hkey KEY_QUERY_VALUE (mkReply 0 0 []) (get_value casemap name max_size).

Definition enum_key_value (process hkey i info_class max_size : Z) : R enum_reply :=
  with_values process hkey KEY_QUERY_VALUE (mkEnum 0 0 0 []) (enum_value alloc_ok i info_class max_size).

Definition delete_key_value (process hkey : Z) (name : wstr) : R unit := with_values process hkey KEY_SET_VALUE tt (delete_value casemap alloc_ok name).

(** [key_close_handle], as closing a handle calls it, and the release of the handle. *)
Definition close_key_handle (process hkey : Z) : R unit :=
  do s <- fget;
  match rs_open s !! (process, hkey) with
  | None => set_error REG_INVALID_HANDLE
  | Some p =>
      do k <- getk p;
      do _ <- (match find_notify process hkey (rk_notify k) with
               | Some n => do _ <- log (notification n); updk p (with_notify (drop_notify process hkey (rk_notify k)))
               | None => fret tt
               end);
      do _ <- fmodify (fun s => set_open (delete (process, hkey) (rs_open s)) s);
      do k <- getk p;
      do _ <- fassert (negb (rk_handles k =? 0));
      do _ <- updk p (with_handles (rk_handles k - 1));
      release_object p
  end.

End Keys.
