(* ===== verification/RegKeyProofs.v ===== *)
(** * What the tree of registry keys keeps

    The part of the state that links keys, and the invariant on it: keys and parents know each other,
    subkeys are in order, references are counted.  First, relations between the states
    before and after that every step of an operation respects. *)

From stdpp Require Import base list gmap.
From Stdlib Require Import ZArith Lia ZifyBool Sorted.
From S2P Require Import Prelude Fallible Atom AtomProofs RegValue RegValueProofs RegKey.

Open Scope Z_scope.
Open Scope fallible_scope.

(** * Relations that every step respects *)

(** The fields of a key that do not say where it is in the tree or who uses it. *)
Definition rest (k : rkey) : bool * list Z * key * Z * list notify := (rk_permanent k, rk_class k, rk_key k, rk_modif k, rk_notify k).

(** Steps that only write names, links and counts, free keys, use memory or tell events. *)
Record links (Rl : reg -> reg -> Prop) : Prop := mkLinks {
  q_link s p k k' : rs_heap s !! p = Some k -> rest k' = rest k -> Rl s (set_heap (<[p := k']> (rs_heap s)) s);
  q_free s p : Rl s (set_heap (delete p (rs_heap s)) s);
  q_alloc s : Rl s (mkReg (rs_heap s) (rs_next s) (rs_root s) (rs_error s) (rs_time s) (S (rs_allocs s)) (rs_log s) (rs_open s));
  q_log s es : Rl s (mkReg (rs_heap s) (rs_next s) (rs_root s) (rs_error s) (rs_time s) (rs_allocs s) (rs_log s ++ es) (rs_open s))
}.

(** The same, and those that write notifications and times. *)
Record quiet (Rl : reg -> reg -> Prop) : Prop := mkQuiet {
  q_links : links Rl;
  q_key s p k k' : rs_heap s !! p = Some k -> rk_key k' = rk_key k -> Rl s (set_heap (<[p := k']> (rs_heap s)) s)
}.

Section Along.
Context (Rl : reg -> reg -> Prop) `{!PreOrder Rl}.

Lemma getk_along p : along Rl (getk p).
Proof using PreOrder0. intros s k s' [_ ->]%fread_some. reflexivity. Qed.

Lemma heap_size_along : along Rl heap_size.
Proof using PreOrder0. intros s k s' [= <- <-]. reflexivity. Qed.

Lemma updk_along p f : (forall s k, rs_heap s !! p = Some k -> Rl s (set_heap (<[p := f k]> (rs_heap s)) s)) -> along Rl (updk p f).
Proof. intros Hf s a s' (k & s1 & [Hk ->]%fread_some & [= <- <-])%fbind_some. by apply Hf. Qed.

Hint Resolve getk_along heap_size_along : f_db.

Lemma get_parent_along p : along Rl (get_parent p).
Proof using PreOrder0. unfold get_parent. along_auto. Qed.

Context (alloc_ok : nat -> bool) (Hlinks : links Rl).

Lemma updk_link_along p f : (forall k, rest (f k) = rest k) -> along Rl (updk p f).
Proof using Hlinks. intros Hf. apply updk_along. intros s k Hk. by eapply q_link. Qed.

Lemma alloc_along : along Rl (alloc alloc_ok).
Proof using Hlinks. intros s a s' [= <- <-]. by apply q_alloc. Qed.

Lemma log_along es : along Rl (log es).
Proof using Hlinks. intros s a s' [= <- <-]. by apply q_log. Qed.

Lemma free_along p : along Rl (free_object p).
Proof using Hlinks PreOrder0. unfold free_object. along_auto. intros ? ? ? [= <- <-]. by apply q_free. Qed.

Hint Extern 2 (along Rl (updk _ _)) => (apply updk_link_along; reflexivity) : f_db.
Hint Extern 2 (along Rl (updk _ _)) => (apply updk_link_along; intros ?; reflexivity) : f_db.
Hint Resolve get_parent_along alloc_along log_along free_along : f_db.

Lemma unlink_along release p : (forall c, along Rl (release c)) -> along Rl (unlink_named_object alloc_ok release p).
Proof using Hlinks PreOrder0. intros Hr. unfold unlink_named_object, key_unlink_name. along_auto. Qed.

Lemma destroy_along release p : (forall c, along Rl (release c)) -> along Rl (key_destroy release p).
Proof using Hlinks PreOrder0.
  intros Hr. unfold key_destroy. apply along_bind; [done | along_auto | intros k]. apply along_bind; [done | | intros _; along_auto].
  induction (rk_subkeys k) as [| c l IH]; cbn [release_all]; along_auto.
Qed.

Lemma release_along p : along Rl (release_object alloc_ok p).
Proof using Hlinks PreOrder0.
  assert (H : forall fuel p, along Rl (release_loop alloc_ok fuel p)).
  { induction fuel as [| fuel IH]; intros c; cbn [release_loop]; along_auto; [by apply unlink_along | by apply destroy_along]. }
  unfold release_object. along_auto.
Qed.

Context (Hq : quiet Rl).

Lemma updk_quiet_along p f : (forall k, rk_key (f k) = rk_key k) -> along Rl (updk p f).
Proof using Hq. intros Hf. apply updk_along. intros s k Hk. by eapply q_key. Qed.
Hint Extern 3 (along Rl (updk _ _)) => (apply updk_quiet_along; reflexivity) : f_db.
Hint Extern 3 (along Rl (updk _ _)) => (apply updk_quiet_along; intros ?; reflexivity) : f_db.

Lemma check_notify_along p change b : along Rl (check_notify p change b).
Proof using Hq PreOrder0 Hlinks. unfold check_notify. along_auto. Qed.

Lemma notify_parents_along fuel p change : along Rl (notify_parents fuel p change).
Proof using Hq PreOrder0 Hlinks. revert p. induction fuel as [| fuel IH]; intros p; cbn [notify_parents]; along_auto. apply check_notify_along. Qed.

(** Marking keys as changed or deleted writes a flag as well. *)
Context (Hflag : forall s p k f, f = KEY_DIRTY \/ f = KEY_DELETED -> rs_heap s !! p = Some k -> Rl s (set_heap (<[p := with_flags (Z.lor (kflags k) f) k]> (rs_heap s)) s)).

Lemma make_dirty_along fuel p : along Rl (make_dirty fuel p).
Proof using PreOrder0 Hflag.
  revert p. induction fuel as [| fuel IH]; intros p; cbn [make_dirty]; [apply along_read; done |]. intros s a s' (k & s1 & [Hk ->]%fread_some & H)%fbind_some.
  destruct (rflag k KEY_DIRTY || rflag k KEY_VOLATILE); [injection H as <- <-; reflexivity |].
  apply fbind_some in H as ([] & s2 & (k2 & s3 & [Hk2 ->]%fread_some & [= <-])%fbind_some & H). rewrite Hk in Hk2. injection Hk2 as <-.
  etransitivity; [apply (Hflag s p k KEY_DIRTY); [by left | done] |]. revert H. apply (along_bind Rl); [apply get_parent_along |]. intros [q |]; [apply IH | apply along_ret; done].
Qed.

Lemma touch_along p change : along Rl (touch_key p change).
Proof using Hq PreOrder0 Hflag Hlinks. unfold touch_key. along_auto; [apply make_dirty_along | apply check_notify_along | apply notify_parents_along]. Qed.

Context (Herr : forall e, along Rl (set_error e)).

Lemma delete_along fuel p recurse : along Rl (delete_loop alloc_ok fuel p recurse).
Proof using Hq PreOrder0 Hflag Herr Hlinks.
  revert p recurse. induction fuel as [| fuel IH]; intros p recurse; cbn [delete_loop]; [along_auto |]. apply along_bind; [done | along_auto |]. intros k.
  destruct (rflag k KEY_DELETED); [along_auto |]. apply along_bind; [done | along_auto |]. intros [q |]; [| along_auto; apply Herr].
  case_match; [along_auto; apply Herr |]. apply along_bind; [done | |].
  - destruct recurse; [| destruct (rk_subkeys k); along_auto; apply Herr]. induction (length (rk_subkeys k)) as [| n IHn]; along_auto.
  - intros ok. destruct (negb ok); [along_auto |]. apply along_bind; [done | |].
    + apply updk_along. intros s k' Hk'. apply Hflag; [by right | done].
    + intros _. apply along_bind; [done | apply unlink_along; intros c; apply release_along |]. intros _. along_auto. apply touch_along.
Qed.
End Along.

(** ** Predefined keys *)

(** Every key that is there after was there before, and is predefined if it was so. *)
Definition predefs (s s' : reg) : Prop :=
  forall r k', rs_heap s' !! r = Some k' -> exists k, rs_heap s !! r = Some k /\ rflag k' KEY_PREDEF = rflag k KEY_PREDEF.

#[export] Instance predefs_preorder : PreOrder predefs.
Proof. split; [intros s r k; eauto |]. intros a b c H1 H2 r k Hk. destruct (H2 r k Hk) as (k1 & Hk1 & ->). by apply H1. Qed.

Lemma predefs_links : links predefs.
Proof.
  split.
  - intros s p k k' Hk [= _ _ E _ _] r z. cbn. intros [[<- <-] | [Hne Hz]]%lookup_insert_Some; [| eauto]. exists k. split; [done |]. unfold rflag in *. by rewrite <- E.
  - intros s p r z. cbn. intros [Hne Hz]%lookup_delete_Some. eauto.
  - intros s r z Hz. eauto.
  - intros s es r z Hz. eauto.
Qed.

Lemma predefs_quiet : quiet predefs.
Proof.
  split; [apply predefs_links |]. intros s p k k' Hk E r z. cbn. intros [[<- <-] | [Hne Hz]]%lookup_insert_Some; [| eauto]. exists k. split; [done |]. unfold rflag in *. by rewrite <- E.
Qed.

Lemma predefs_delete alloc_ok fuel p recurse : along predefs (delete_loop alloc_ok fuel p recurse).
Proof.
  apply delete_along; [apply _ | apply predefs_links | apply predefs_quiet | |].
  - intros s c k f Hf Hk r z. cbn. intros [[<- <-] | [Hne Hz]]%lookup_insert_Some; [| eauto]. exists k. split; [done |]. unfold rflag, has_flag, with_flags, kflags in *. cbn.
    rewrite Z.land_lor_distr_l. destruct Hf as [-> | ->]; change (Z.land _ KEY_PREDEF) with 0 at 2; by rewrite Z.lor_0_r.
  - intros e. intros s a s' [= <- <-] r z Hz. eauto.
Qed.

(** ** What is not about the tree *)

(** Keys may go, but what stays keeps all that is not about the tree. *)
Definition same_rest (s s' : reg) : Prop := forall r k', rs_heap s' !! r = Some k' -> exists k, rs_heap s !! r = Some k /\ rest k' = rest k.

#[export] Instance same_rest_preorder : PreOrder same_rest.
Proof. split; [intros s r k; eauto |]. intros a b c H1 H2 r k Hk. destruct (H2 r k Hk) as (k1 & Hk1 & ->). by apply H1. Qed.

Lemma same_rest_links : links same_rest.
Proof.
  split.
  - intros s p k k' Hk E r z. cbn. intros [[<- <-] | [Hne Hz]]%lookup_insert_Some; eauto.
  - intros s p r z. cbn. intros [Hne Hz]%lookup_delete_Some. eauto.
  - intros s r z Hz. eauto.
  - intros s es r z Hz. eauto.
Qed.

(** * The invariant *)

(** ** The view *)

(** The fields of a key that matter for the tree and for its life. *)
Record core := mkCore {
  c_ref : Z; c_handles : Z; c_name : option oname; c_subs : list Z; c_nb : Z; c_wow : option Z;
  c_vals : list key_value; c_nbv : Z; c_del : bool; c_link : bool; c_share : bool
}.

Definition core_of (k : rkey) : core :=
  mkCore (rk_ref k) (rk_handles k) (rk_name k) (rk_subkeys k) (rk_nb_subkeys k) (rk_wow k)
    (k_values (rk_key k)) (k_nb_values (rk_key k)) (rflag k KEY_DELETED) (rflag k KEY_SYMLINK) (rflag k KEY_WOWSHARE).

(** The values as a key of their own. *)
Definition values_of (x : core) : key := mkKey (c_vals x) (c_nbv x) 0.

Record world := mkWorld { w_keys : gmap Z core; w_open : gmap (Z * Z) Z; w_next : Z; w_root : option Z }.

Definition view (s : reg) : world := mkWorld (core_of <$> rs_heap s) (rs_open s) (rs_next s) (rs_root s).

Lemma view_heap s p k : rs_heap s !! p = Some k -> w_keys (view s) !! p = Some (core_of k).
Proof. intros H. cbn. by rewrite lookup_fmap, H. Qed.

Lemma heap_view s p c : w_keys (view s) !! p = Some c -> exists k, rs_heap s !! p = Some k /\ core_of k = c.
Proof. cbn. rewrite lookup_fmap. destruct (rs_heap s !! p) as [k |]; [| done]. intros [= <-]. eauto. Qed.

Lemma view_size s : size (rs_heap s) = size (w_keys (view s)).
Proof. cbn. by rewrite map_size_fmap. Qed.

(** Replacing the core of a key. *)
Definition put (p : Z) (c : core) (w : world) : world := mkWorld (<[p := c]> (w_keys w)) (w_open w) (w_next w) (w_root w).

Lemma view_put s p k : view (set_heap (<[p := k]> (rs_heap s)) s) = put p (core_of k) (view s).
Proof. unfold view, put. cbn. by rewrite fmap_insert. Qed.

Lemma put_same w p c : w_keys w !! p = Some c -> put p c w = w.
Proof. intros H. destruct w. unfold put. cbn in *. by rewrite insert_id. Qed.

Lemma put_put w p c c' : put p c (put p c' w) = put p c w.
Proof. unfold put. cbn. by rewrite insert_insert_eq. Qed.

(** ** The invariant *)

Section Tree.
Context (casemap : Z -> Z).
Abbreviation low := (lower casemap).

(** Key [c] has name [n] and parent [p]. *)
Definition named (m : gmap Z core) (c : Z) (n : wstr) (par : parent) : Prop :=
  exists x, m !! c = Some x /\ c_name x = Some (mkName n par).

(** The order of subkeys. *)
Definition before (m : gmap Z core) (c d : Z) : Prop :=
  exists n pn l pl, named m c n pn /\ named m d l pl /\ lex_lt (low n) (low l).

Record tree (m : gmap Z core) : Prop := mkTree {
  tr_down p x c : m !! p = Some x -> c ∈ c_subs x -> exists n, named m c n (InKey p);
  tr_up c n p : named m c n (InKey p) -> exists x, m !! p = Some x /\ c ∈ c_subs x;
  tr_par c n par : named m c n par -> par <> NoParent;
  tr_sorted p x : m !! p = Some x -> StronglySorted (before m) (c_subs x);
  tr_names c n p : named m c n (InKey p) -> n <> [] /\ namelen n <= MAX_NAME_LEN * 2;
  tr_room p x : m !! p = Some x -> Z.of_nat (length (c_subs x)) <= c_nb x /\ (c_nb x = 0 \/ MIN_SUBKEYS <= c_nb x);
  tr_del p x : m !! p = Some x -> (c_del x = true <-> c_name x = None) /\ (c_del x = true -> c_subs x = []);
  tr_wow p x c : m !! p = Some x -> c_wow x = Some c -> c ∈ c_subs x;
  tr_share p x n par : m !! p = Some x -> c_name x = Some (mkName n par) -> c_share x = true ->
    exists q y, par = InKey q /\ m !! q = Some y /\ c_link y = false /\ c_share y = false;
  tr_rank : exists rank : Z -> nat, forall c n p, named m c n (InKey p) -> (rank p < rank c)%nat;
  tr_values p x : m !! p = Some x -> key_ok casemap (values_of x)
}.

(** How often a key is open, and how often a request holds it. *)
Definition nopen (o : gmap (Z * Z) Z) (p : Z) : nat := length (filter (fun x => x.2 = p) (map_to_list o)).
Definition nheld (held : list Z) (p : Z) : nat := length (filter (fun q => q = p) held).
Definition linked (x : core) : nat := match c_name x with Some _ => 1 | None => 0 end.

Record inv (held : list Z) (w : world) : Prop := mkInv {
  i_tree : tree (w_keys w);
  i_refs p x : w_keys w !! p = Some x ->
    c_handles x = Z.of_nat (nopen (w_open w) p) /\
    Z.of_nat (nopen (w_open w) p + nheld held p + linked x) <= c_ref x;
  i_open h p : w_open w !! h = Some p -> is_Some (w_keys w !! p);
  i_held p : p ∈ held -> is_Some (w_keys w !! p);
  i_next p : is_Some (w_keys w !! p) -> p < w_next w;
  i_root : exists r n, w_root w = Some r /\ named (w_keys w) r n InDirectory
}.

(** ** Walking up *)

Lemma named_core m c x n par : m !! c = Some x -> c_name x = Some (mkName n par) -> named m c n par.
Proof. by exists x. Qed.

Lemma named_fun m c n par n' par' : named m c n par -> named m c n' par' -> n = n' /\ par = par'.
Proof. intros (x & Hx & Hn) (y & Hy & Hn'). rewrite Hx in Hy. injection Hy as <-. rewrite Hn in Hn'. by injection Hn'. Qed.

(** A key with subkeys has a name. *)
Lemma parent_named m c n q : tree m -> named m c n (InKey q) -> exists l par, named m q l par.
Proof.
  intros Ht Hc. destruct (tr_up m Ht c n q Hc) as (x & Hx & Hs). destruct (tr_del m Ht q x Hx) as [Hd Hs'].
  destruct (c_name x) as [[l par] |] eqn:En; [by exists l, par, x |]. rewrite (Hs' (proj2 Hd eq_refl)) in Hs. by apply elem_of_nil in Hs.
Qed.

(** The keys from a key up to the root. *)
Inductive chain (m : gmap Z core) : Z -> list Z -> Prop :=
  | chain_top p n par : named m p n par -> (forall q, par <> InKey q) -> chain m p [p]
  | chain_up p n q l : named m p n (InKey q) -> chain m q l -> chain m p (p :: l).

Lemma nodup_bound (m : gmap Z core) l : NoDup l -> Forall (fun p => is_Some (m !! p)) l -> (length l <= size m)%nat.
Proof.
  intros Hn Hf. rewrite <- size_dom, <- (size_list_to_set (C := gset Z) l Hn). apply subseteq_size. intros p Hp.
  apply elem_of_list_to_set in Hp. apply elem_of_dom. by apply (proj1 (Forall_forall _ _) Hf).
Qed.

Lemma chain_exists m p n par : tree m -> named m p n par -> exists l, chain m p l /\ (length l <= size m)%nat.
Proof.
  intros Ht. destruct (tr_rank m Ht) as [rank Hr].
  assert (H : forall k p n par, (rank p < k)%nat -> named m p n par ->
    exists l, chain m p l /\ NoDup l /\ Forall (fun q => is_Some (m !! q) /\ (rank q <= rank p)%nat) l).
  { induction k as [| k IH]; intros c l pc Hk Hc; [lia |].
    assert (Hx : is_Some (m !! c)) by (destruct Hc as (x & Hx & _); eauto).
    destruct pc as [| q |]; [by destruct (tr_par m Ht _ _ _ Hc) | |].
    - destruct (parent_named m c l q Ht Hc) as (l' & par' & Hq). pose proof (Hr _ _ _ Hc) as Hlt.
      destruct (IH q l' par' ltac:(lia) Hq) as (up & Hup & Hnd & Hf). exists (c :: up). split_and!; [by eapply chain_up | |].
      + constructor; [| done]. intros Hin. apply (proj1 (Forall_forall _ _) Hf) in Hin as [_ Hin]. lia.
      + constructor; [split; [done | lia] |]. eapply Forall_impl; [exact Hf |]. intros z [Hz Hz']. split; [done | lia].
    - exists [c]. split_and!; [by eapply chain_top | apply NoDup_singleton | by constructor]. }
  intros Hp. destruct (H (S (rank p)) p n par ltac:(lia) Hp) as (l & Hl & Hnd & Hf). exists l. split; [done |].
  apply nodup_bound; [done |]. eapply Forall_impl; [exact Hf |]. by intros q [Hq _].
Qed.

(** ** Simple operations *)

Lemma runs_getk p k s (Q : rkey -> reg -> Prop) : rs_heap s !! p = Some k -> Q k s -> runs (getk p) s Q.
Proof. intros H HQ. exists k, s. split; [| done]. unfold getk. by rewrite H. Qed.

Lemma runs_updk p f k s (Q : unit -> reg -> Prop) :
  rs_heap s !! p = Some k -> Q tt (set_heap (<[p := f k]> (rs_heap s)) s) -> runs (updk p f) s Q.
Proof. intros H HQ. unfold updk. rbind. eapply runs_getk; [exact H |]. by apply runs_modify. Qed.

(** Writing fields that are not part of the view. *)
Lemma runs_updk_quiet p f s (Q : unit -> reg -> Prop) :
  is_Some (w_keys (view s) !! p) -> (forall k, core_of (f k) = core_of k) -> (forall s', view s' = view s -> Q tt s') -> runs (updk p f) s Q.
Proof.
  intros [c Hc] Hf HQ. destruct (heap_view _ _ _ Hc) as (k & Hk & <-). eapply runs_updk; [exact Hk |]. apply HQ.
  rewrite view_put, Hf. by apply put_same.
Qed.

Lemma runs_set_error e s (Q : unit -> reg -> Prop) : (forall s', view s' = view s -> Q tt s') -> runs (set_error e) s Q.
Proof. intros HQ. apply runs_modify. by apply HQ. Qed.

Lemma runs_log es s (Q : unit -> reg -> Prop) : (forall s', view s' = view s -> Q tt s') -> runs (log es) s Q.
Proof. intros HQ. apply runs_modify. by apply HQ. Qed.

Lemma runs_alloc alloc_ok s (Q : bool -> reg -> Prop) : (forall ok s', view s' = view s -> Q ok s') -> runs (alloc alloc_ok) s Q.
Proof. intros HQ. eexists _, _. split; [reflexivity |]. by apply HQ. Qed.

Lemma runs_mem_alloc alloc_ok s (Q : bool -> reg -> Prop) : (forall ok s', view s' = view s -> Q ok s') -> runs (mem_alloc alloc_ok) s Q.
Proof.
  intros HQ. unfold mem_alloc. rbind. apply runs_alloc. intros ok s1 H1. rbind. destruct ok.
  - apply runs_ret, runs_ret. by apply HQ.
  - apply runs_set_error. intros s2 H2. apply runs_ret. apply HQ. congruence.
Qed.

Lemma runs_heap_size s (Q : nat -> reg -> Prop) : Q (size (w_keys (view s))) s -> runs heap_size s Q.
Proof. intros H. exists (size (rs_heap s)), s. split; [done |]. by rewrite view_size. Qed.

Lemma runs_get_error s (Q : Z -> reg -> Prop) : Q (rs_error s) s -> runs get_error s Q.
Proof. by exists (rs_error s), s. Qed.

Lemma runs_get_parent p n par s (Q : option Z -> reg -> Prop) :
  named (w_keys (view s)) p n par -> Q (match par with InKey q => Some q | _ => None end) s -> runs (get_parent p) s Q.
Proof.
  intros (x & Hx & Hn) HQ. destruct (heap_view _ _ _ Hx) as (k & Hk & <-). unfold get_parent. rbind. eapply runs_getk; [exact Hk |].
  rbind. eapply runs_read; [exact Hn |]. by apply runs_ret.
Qed.

(** ** Modification *)

Lemma flag_lor f g d : Z.land g d = 0 -> bit (Z.lor f g) d = bit f d.
Proof. intros H. unfold bit. by rewrite Z.land_lor_distr_l, H, Z.lor_0_r. Qed.

Lemma with_flags_core k f : (forall d, d = KEY_DELETED \/ d = KEY_SYMLINK \/ d = KEY_WOWSHARE -> bit f d = bit (kflags k) d) -> core_of (with_flags f k) = core_of k.
Proof.
  intros H. unfold core_of, rflag, has_flag, kflags, bit in *. cbn. by rewrite !H by tauto.
Qed.

Lemma runs_check_notify p change b s (Q : unit -> reg -> Prop) :
  is_Some (w_keys (view s) !! p) -> (forall s', view s' = view s -> Q tt s') -> runs (check_notify p change b) s Q.
Proof.
  intros [c Hc] HQ. destruct (heap_view _ _ _ Hc) as (k & Hk & _). unfold check_notify. rbind. eapply runs_getk; [exact Hk |].
  rbind. apply runs_log. intros s1 H1. apply runs_updk_quiet; [rewrite H1; eauto | done |]. intros s2 H2. apply HQ. congruence.
Qed.

Lemma runs_make_dirty l p s fuel (Q : unit -> reg -> Prop) :
  chain (w_keys (view s)) p l -> (length l <= fuel)%nat -> (forall s', view s' = view s -> Q tt s') -> runs (make_dirty fuel p) s Q.
Proof.
  intros Hc. remember (w_keys (view s)) as m eqn:Em. revert s fuel Q Em.
  assert (Hstep : forall s n par p, named (w_keys (view s)) p n par -> forall fuel (Q : unit -> reg -> Prop),
    (forall s', view s' = view s -> runs (match par with InKey q => make_dirty fuel q | _ => fret tt end) s' Q) ->
    (forall s', view s' = view s -> Q tt s') -> runs (make_dirty (S fuel) p) s Q).
  { intros s n par p' Hn fuel Q Hup HQ. cbn [make_dirty]. pose proof Hn as (x & Hx & _). destruct (heap_view _ _ _ Hx) as (k & Hk & <-).
    rbind. eapply runs_getk; [exact Hk |]. destruct (rflag k KEY_DIRTY || rflag k KEY_VOLATILE); [by apply runs_ret, HQ |].
    rbind. eapply runs_updk; [exact Hk |].
    match goal with |- runs _ ?s1 _ => assert (Hv : view s1 = view s) end.
    { rewrite view_put, with_flags_core; [by apply put_same |]. intros d Hd. apply flag_lor. by destruct Hd as [-> | [-> | ->]]. }
    rbind. eapply runs_get_parent; [by rewrite Hv |]. specialize (Hup _ Hv). by destruct par. }
  induction Hc as [p n par Hn Hnk | p n q l Hn Hq IH]; intros s fuel Q -> Hf HQ; (destruct fuel as [| fuel]; [cbn in Hf; lia |]);
    apply (Hstep s n _ p Hn); try done; intros s' Hs'.
  - destruct par as [| q |]; [by apply runs_ret, HQ | by destruct (Hnk q) | by apply runs_ret, HQ].
  - apply IH; [by rewrite Hs' | cbn in Hf; lia |]. intros s2 H2. apply HQ. congruence.
Qed.

Lemma runs_notify_parents l p change s fuel (Q : unit -> reg -> Prop) :
  chain (w_keys (view s)) p l -> (length l <= fuel)%nat -> (forall s', view s' = view s -> Q tt s') -> runs (notify_parents fuel p change) s Q.
Proof.
  intros Hc. remember (w_keys (view s)) as m eqn:Em. revert s fuel Q Em.
  induction Hc as [p n par Hn Hnk | p n q l Hn Hq IH]; intros s fuel Q -> Hf HQ; (destruct fuel as [| fuel]; [cbn in Hf; lia |]);
    cbn [notify_parents]; rbind; (eapply runs_get_parent; [exact Hn |]).
  - destruct par as [| q |]; [by apply runs_ret, HQ | by destruct (Hnk q) | by apply runs_ret, HQ].
  - rbind. apply runs_check_notify; [by inversion Hq as [? ? ? (x & Hx & _) | ? ? ? ? (x & Hx & _)]; subst |].
    intros s1 H1. apply IH; [by rewrite H1 | cbn in Hf; lia |]. intros s2 H2. apply HQ. congruence.
Qed.

Lemma runs_touch_key p n par change s (Q : unit -> reg -> Prop) :
  tree (w_keys (view s)) -> named (w_keys (view s)) p n par -> (forall s', view s' = view s -> Q tt s') -> runs (touch_key p change) s Q.
Proof.
  intros Ht Hn HQ. destruct (chain_exists _ _ _ _ Ht Hn) as (l & Hl & Hlen). assert (Hp : is_Some (w_keys (view s) !! p)) by (destruct Hn as (x & Hx & _); eauto).
  unfold touch_key. rbind. apply runs_heap_size. rbind. apply runs_get. rbind. apply runs_updk_quiet; [done | done |]. intros s1 H1.
  rbind. eapply runs_make_dirty; [by rewrite H1 | lia |]. intros s2 H2. rewrite H1 in H2.
  rbind. apply runs_check_notify; [by rewrite H2 |]. intros s3 H3. rewrite H2 in H3.
  eapply runs_notify_parents; [by rewrite H3 | lia |]. intros s4 H4. apply HQ. congruence.
Qed.
End Tree.
