(* ===== verification/RegKeyTree.v ===== *)
(** * Changes of the tree of registry keys

    Searching the subkeys of a key, and what linking, unlinking and renaming a key does to
    the tree. *)

From stdpp Require Import base list gmap.
From Stdlib Require Import ZArith Lia ZifyBool Sorted.
From S2P Require Import Prelude Fallible Atom AtomProofs RegValue RegValueProofs RegKey RegKeyProofs.

Open Scope Z_scope.

Section Tree.
Context (casemap : Z -> Z).
Abbreviation low := (lower casemap).
Abbreviation tree := (tree casemap).
Abbreviation before := (before casemap).

(** ** Searching *)

(** Where a name is among the subkeys of [p], or where it belongs. *)
Inductive place (m : gmap Z core) (p : Z) (name : wstr) (subs : list Z) : option Z * Z -> Prop :=
  | place_found l1 c l2 n : subs = l1 ++ c :: l2 -> named m c n (InKey p) -> low n = low name ->
      place m p name subs (Some c, Z.of_nat (length l1))
  | place_none l1 l2 : subs = l1 ++ l2 ->
      Forall (fun c => exists n, named m c n (InKey p) /\ lex_lt (low n) (low name)) l1 ->
      Forall (fun c => exists n, named m c n (InKey p) /\ lex_lt (low name) (low n)) l2 ->
      place m p name subs (None, Z.of_nat (length l1)).

Definition value_of (n : wstr) : key_value := mkValue n 0 [].

(** The search is that for a value with the same names. *)
Lemma subkey_loop_values heap subs ns name fuel min max :
  Forall2 (fun c n => exists k par, heap !! c = Some k /\ rk_name k = Some (mkName n par)) subs ns ->
  subkey_loop casemap fuel heap subs name min max =
  (fun r : bool * Z => (if r.1 then subs !! Z.to_nat r.2 else None, r.2)) <$> find_loop casemap fuel (map value_of ns) name min max.
Proof.
  intros Hf. revert min max. induction fuel as [| fuel IH]; intros min max; cbn [subkey_loop find_loop]; destruct (min <=? max); try done.
  change (list_lookup (Z.to_nat ((min + max) / 2)) (map value_of ns)) with ((value_of <$> ns) !! Z.to_nat ((min + max) / 2)).
  rewrite list_lookup_fmap. set (i := (min + max) / 2).
  destruct (subs !! Z.to_nat i) as [c |] eqn:Ec.
  - destruct (Forall2_lookup_l _ _ _ _ _ Hf Ec) as (n & En & k & par & Hk & Hn). rewrite En. cbn. rewrite Hk. cbn. rewrite Hn. cbn.
    destruct (compare_names casemap n name =? 0); [cbn; by rewrite Ec |]. destruct (0 <? _); apply IH.
  - assert (En : ns !! Z.to_nat i = None).
    { apply lookup_ge_None. rewrite <- (Forall2_length _ _ _ Hf). by apply lookup_ge_None. }
    by rewrite En.
Qed.

Lemma before_irrefl m c : ~ before m c c.
Proof.
  intros (n & pn & l & pl & H1 & H2 & Hlt). destruct (named_fun _ _ _ _ _ _ H1 H2) as [<- _]. by eapply lex_irrefl.
Qed.

Lemma sorted_nodup m l : StronglySorted (before m) l -> NoDup l.
Proof.
  induction 1 as [| c l Hs IH Hf]; constructor; [| done]. intros Hc. apply (proj1 (Forall_forall _ _) Hf) in Hc. by eapply before_irrefl.
Qed.

Lemma short_name n : namelen n <= MAX_NAME_LEN * 2 -> short n.
Proof. unfold short, namelen, MAX_NAME_LEN. lia. Qed.

(** The names of subkeys, in order. *)
Lemma subs_names m p x :
  tree m -> m !! p = Some x ->
  exists ns, Forall2 (fun c n => named m c n (InKey p)) (c_subs x) ns /\ StronglySorted (vlt casemap) (map value_of ns) /\
    Forall (fun v => short (v_name v)) (map value_of ns).
Proof.
  intros Ht Hx. pose proof (tr_sorted _ m Ht p x Hx) as Hs. pose proof (tr_down _ m Ht p x) as Hd.
  assert (Hall : Forall (fun c => exists n, named m c n (InKey p)) (c_subs x)) by (apply Forall_forall; intros c Hc; eauto).
  clear Hd. induction Hs as [| c l Hs IH Hf].
  { exists []. by repeat constructor. }
  apply Forall_cons in Hall as [[n Hn] Hall]. destruct (IH Hall) as (ns & Hns & Hss & Hsh). exists (n :: ns). split_and!.
  - by constructor.
  - constructor; [done |]. change (map value_of ns) with (value_of <$> ns). apply Forall_fmap, Forall_forall. intros n' Hn'.
    apply list_elem_of_lookup in Hn' as [i Hi]. destruct (Forall2_lookup_r _ _ _ _ _ Hns Hi) as (d & Hd & Hnd).
    destruct (proj1 (Forall_lookup _ _) Hf _ _ Hd) as (a & pa & b & pb & Ha & Hb & Hlt).
    destruct (named_fun _ _ _ _ _ _ Ha Hn) as [-> _]. destruct (named_fun _ _ _ _ _ _ Hb Hnd) as [-> _]. exact Hlt.
  - constructor; [| done]. apply short_name. by apply (tr_names _ m Ht c n p).
Qed.

(** The search, in a part of the heap where keys are in order. *)
Lemma runs_find_subkey_in m p x name s (Q : option Z * Z -> reg -> Prop) :
  tree m -> m ⊆ w_keys (view s) -> m !! p = Some x -> short name ->
  (forall r, place m p name (c_subs x) r -> Q r s) -> runs (find_subkey casemap p name) s Q.
Proof.
  intros Ht Hsub Hx Hsh HQ. destruct (subs_names _ _ _ Ht Hx) as (ns & Hns & Hss & Hall).
  destruct (heap_view _ _ _ (lookup_weaken _ _ _ _ Hx Hsub)) as (k & Hk & <-).
  unfold find_subkey. rbind. eapply runs_getk; [exact Hk |]. rbind. apply runs_get. cbn [c_subs core_of] in *.
  assert (Hlen : length (map value_of ns) = length (rk_subkeys k)) by (by rewrite length_map, (Forall2_length _ _ _ Hns)).
  destruct (find_loop_spec casemap (length (rk_subkeys k)) (map value_of ns) name 0 (Z.of_nat (length (rk_subkeys k)) - 1))
    as (r & Hr & Hl); [done | done | done | lia | lia | lia | lia | intros; lia | |].
  { intros j v Hj. apply lookup_lt_Some in Hj. lia. }
  eapply runs_read.
  { erewrite subkey_loop_values; [by rewrite Hr |]. eapply Forall2_impl; [exact Hns |]. intros c n (z & Hz & Hn).
    destruct (heap_view _ _ _ (lookup_weaken _ _ _ _ Hz Hsub)) as (kc & Hkc & <-). by exists kc, (InKey p). }
  apply HQ. cbn [fst snd]. inversion Hl as [l1 v l2 Hv Hn | l1 l2 Hv H1 H2]; subst; cbn [fst snd].
  - change (map value_of ns) with (value_of <$> ns) in Hv. apply fmap_app_inv in Hv as (ns1 & ns2' & E1 & E2 & ->). cbn in *.
    symmetry in E2; apply fmap_cons_inv in E2 as (n & ns2 & -> & -> & ->). subst l1.
    apply Forall2_app_inv_r in Hns as (s1 & s2 & F1 & F2 & Es). apply Forall2_cons_inv_r in F2 as (c & s3 & Hc & F3 & ->).
    rewrite length_fmap, <- (Forall2_length _ _ _ F1), Nat2Z.id. rewrite Es. rewrite list_lookup_middle by done. by eapply place_found.
  - change (map value_of ns) with (value_of <$> ns) in Hv. apply fmap_app_inv in Hv as (ns1 & ns2 & -> & -> & ->).
    apply Forall2_app_inv_r in Hns as (s1 & s2 & F1 & F2 & ->). rewrite length_fmap, <- (Forall2_length _ _ _ F1).
    apply (place_none _ _ _ _ s1 s2); [done | |].
    + apply Forall_forall. intros c Hc. apply list_elem_of_lookup in Hc as [i Hi].
      destruct (Forall2_lookup_l _ _ _ _ _ F1 Hi) as (n & Hn & Hcn). exists n. split; [done |]. apply (proj1 (Forall_lookup _ _) H1 i (value_of n)). by rewrite list_lookup_fmap, Hn.
    + apply Forall_forall. intros c Hc. apply list_elem_of_lookup in Hc as [i Hi].
      destruct (Forall2_lookup_l _ _ _ _ _ F2 Hi) as (n & Hn & Hcn). exists n. split; [done |]. apply (proj1 (Forall_lookup _ _) H2 i (value_of n)). by rewrite list_lookup_fmap, Hn.
Qed.

Lemma runs_find_subkey p x name s (Q : option Z * Z -> reg -> Prop) :
  tree (w_keys (view s)) -> w_keys (view s) !! p = Some x -> short name ->
  (forall r, place (w_keys (view s)) p name (c_subs x) r -> Q r s) -> runs (find_subkey casemap p name) s Q.
Proof. intros Ht Hx. by apply runs_find_subkey_in. Qed.

(** ** Changes that leave the tree alone *)

(** The same place in the tree; the array may have another size. *)
Record alike (x x' : core) : Prop := mkAlike {
  al_name : c_name x' = c_name x;
  al_subs : c_subs x' = c_subs x;
  al_del : c_del x' = c_del x;
  al_link : c_subs x = [] \/ c_link x' = c_link x;
  al_share : c_share x' = c_share x;
  al_vals : key_ok casemap (values_of x');
  al_room : Z.of_nat (length (c_subs x)) <= c_nb x' /\ (c_nb x' = 0 \/ MIN_SUBKEYS <= c_nb x');
  al_wow : c_wow x' = c_wow x \/ c_wow x' = None
}.

Definition all_alike (m m' : gmap Z core) : Prop := forall p, option_Forall2 alike (m !! p) (m' !! p).

Lemma alike_named m m' c n par : all_alike m m' -> named m c n par <-> named m' c n par.
Proof.
  intros Ha. unfold named. destruct (Ha c) as [x x' H |].
  - split; intros (z & [= <-] & Hn); eexists; (split; [done |]); pose proof (al_name _ _ H); congruence.
  - split; by intros (z & ? & _).
Qed.

Lemma alike_lookup m m' p x' : all_alike m m' -> m' !! p = Some x' -> exists x, m !! p = Some x /\ alike x x'.
Proof. intros Ha Hp. specialize (Ha p). rewrite Hp in Ha. inversion Ha as [x ? H |]; subst. eauto. Qed.

Lemma alike_lookup_1 m m' p x : all_alike m m' -> m !! p = Some x -> exists x', m' !! p = Some x' /\ alike x x'.
Proof. intros Ha Hp. specialize (Ha p). rewrite Hp in Ha. inversion Ha as [? x' H |]; subst. eauto. Qed.

Lemma sorted_impl (R1 R2 : Z -> Z -> Prop) l :
  StronglySorted R1 l -> (forall c d, c ∈ l -> d ∈ l -> R1 c d -> R2 c d) -> StronglySorted R2 l.
Proof.
  induction 1 as [| c l Hs IH Hf]; intros Hr; constructor.
  - apply IH. intros d e Hd He. apply Hr; by right.
  - apply Forall_forall. intros d Hd. apply Hr; [by left | by right |]. by apply (proj1 (Forall_forall _ _) Hf).
Qed.

Lemma tree_alike m m' : all_alike m m' -> tree m -> tree m'.
Proof.
  intros Ha Ht. pose proof (fun c n par => alike_named m m' c n par Ha) as Hn. split.
  - intros p x' c Hp Hc. destruct (alike_lookup _ _ _ _ Ha Hp) as (x & Hx & A). rewrite (al_subs _ _ A) in Hc.
    destruct (tr_down _ m Ht p x c Hx Hc) as [n H]. exists n. by apply Hn.
  - intros c n p H. apply Hn in H. destruct (tr_up _ m Ht c n p H) as (x & Hx & Hc). destruct (alike_lookup_1 _ _ _ _ Ha Hx) as (x' & Hx' & A).
    exists x'. by rewrite (al_subs _ _ A).
  - intros c n par H. apply Hn in H. by apply (tr_par _ m Ht c n par).
  - intros p x' Hp. destruct (alike_lookup _ _ _ _ Ha Hp) as (x & Hx & A). rewrite (al_subs _ _ A).
    eapply sorted_impl; [exact (tr_sorted _ m Ht p x Hx) |]. intros c d _ _ (n & pn & l & pl & H1 & H2 & Hlt). exists n, pn, l, pl. by rewrite <- !Hn.
  - intros c n p H. apply Hn in H. by apply (tr_names _ m Ht c n p).
  - intros p x' Hp. destruct (alike_lookup _ _ _ _ Ha Hp) as (x & Hx & A). rewrite (al_subs _ _ A). apply (al_room _ _ A).
  - intros p x' Hp. destruct (alike_lookup _ _ _ _ Ha Hp) as (x & Hx & A). rewrite (al_subs _ _ A), (al_del _ _ A), (al_name _ _ A).
    by apply (tr_del _ m Ht p x Hx).
  - intros p x' c Hp Hw. destruct (alike_lookup _ _ _ _ Ha Hp) as (x & Hx & A). rewrite (al_subs _ _ A).
    destruct (al_wow _ _ A) as [E | E]; [| congruence]. apply (tr_wow _ m Ht p x c Hx). congruence.
  - intros p x' n par Hp En Hs. destruct (alike_lookup _ _ _ _ Ha Hp) as (x & Hx & A). rewrite (al_name _ _ A) in En. rewrite (al_share _ _ A) in Hs.
    destruct (tr_share _ m Ht p x n par Hx En Hs) as (q & y & -> & Hy & H1 & H2). destruct (alike_lookup_1 _ _ _ _ Ha Hy) as (y' & Hy' & B).
    destruct (tr_up _ m Ht p n q) as (y0 & Hy0 & Hin); [by exists x |]. rewrite Hy in Hy0. injection Hy0 as <-.
    exists q, y'. rewrite (al_share _ _ B). destruct (al_link _ _ B) as [E | ->]; [rewrite E in Hin; by apply elem_of_nil in Hin | done].
  - destruct (tr_rank _ m Ht) as [rank Hr]. exists rank. intros c n p H. apply Hn in H. by apply (Hr c n p).
  - intros p x' Hp. destruct (alike_lookup _ _ _ _ Ha Hp) as (x & Hx & A). apply (al_vals _ _ A).
Qed.

Lemma alike_refl m p x : tree m -> m !! p = Some x -> alike x x.
Proof. intros Ht Hx. split; try done; [by right | by apply (tr_values _ m Ht p x) | by apply (tr_room _ m Ht p x) | by left]. Qed.

Lemma all_alike_put m p x x' : tree m -> m !! p = Some x -> alike x x' -> all_alike m (<[p := x']> m).
Proof.
  intros Ht Hx A q. destruct (decide (q = p)) as [-> | Hne]; [rewrite Hx, lookup_insert_eq; by constructor |].
  rewrite lookup_insert_ne by done. destruct (m !! q) as [y |] eqn:E; constructor. by eapply alike_refl.
Qed.

Lemma tree_put m p x x' : tree m -> m !! p = Some x -> alike x x' -> tree (<[p := x']> m).
Proof. intros Ht Hx A. eapply tree_alike; [| exact Ht]. by eapply all_alike_put. Qed.

(** A deleted key can go. *)
Lemma tree_free m p x : tree m -> m !! p = Some x -> c_name x = None -> c_subs x = [] -> tree (delete p m).
Proof.
  intros Ht Hx Hnm Hsb.
  assert (Hn : forall c n par, named (delete p m) c n par <-> named m c n par).
  { intros c n par. unfold named. split.
    - intros (z & [_ Hz]%lookup_delete_Some & E). eauto.
    - intros (z & Hz & E). exists z. rewrite lookup_delete_ne; [done |]. intros ->. congruence. }
  assert (Hup : forall c n, ~ named m c n (InKey p)).
  { intros c n H. destruct (tr_up _ m Ht c n p H) as (y & Hy & Hc). rewrite Hx in Hy. injection Hy as <-. rewrite Hsb in Hc. by apply elem_of_nil in Hc. }
  split.
  - intros q y c [_ Hq]%lookup_delete_Some Hc. destruct (tr_down _ m Ht q y c Hq Hc) as [n H]. exists n. by apply Hn.
  - intros c n q H%Hn. destruct (tr_up _ m Ht c n q H) as (y & Hy & Hc). exists y. split; [| done]. rewrite lookup_delete_ne; [done |].
    intros <-. by destruct (Hup c n).
  - intros c n par H%Hn. by apply (tr_par _ m Ht c n par).
  - intros q y [_ Hq]%lookup_delete_Some. eapply sorted_impl; [exact (tr_sorted _ m Ht q y Hq) |].
    intros c d _ _ (n & pn & l & pl & H1 & H2 & Hlt). exists n, pn, l, pl. by rewrite !Hn.
  - intros c n q H%Hn. by apply (tr_names _ m Ht c n q).
  - intros q y [_ Hq]%lookup_delete_Some. by apply (tr_room _ m Ht q y).
  - intros q y [_ Hq]%lookup_delete_Some. by apply (tr_del _ m Ht q y).
  - intros q y c [_ Hq]%lookup_delete_Some. by apply (tr_wow _ m Ht q y).
  - intros q y n par [_ Hq]%lookup_delete_Some E Hs. destruct (tr_share _ m Ht q y n par Hq E Hs) as (r & z & -> & Hz & H1 & H2).
    exists r, z. rewrite lookup_delete_ne; [done |]. intros <-. apply (Hup q n). by exists y.
  - destruct (tr_rank _ m Ht) as [rank Hr]. exists rank. intros c n q H%Hn. by apply (Hr c n q).
  - intros q y [_ Hq]%lookup_delete_Some. by apply (tr_values _ m Ht q y).
Qed.

(** ** Changes among the subkeys of a key *)

(** Key [q] gets other subkeys, and [p], which is new or was one of them, the name [new] or
    none. *)
Record edit (m : gmap Z core) (q : Z) (y y' : core) (p : Z) (x' : core) (new : option wstr) : Prop := mkEdit {
  ed_q : m !! q = Some y;
  ed_ne : p <> q;
  ed_old : (m !! p = None /\ c_subs x' = [] /\ c_share x' = false) \/
           (exists x n, m !! p = Some x /\ c_name x = Some (mkName n (InKey q)) /\ c_subs x' = c_subs x /\ c_link x' = c_link x /\ c_share x' = c_share x);
  ed_new : match new with
           | Some n => c_name x' = Some (mkName n (InKey q)) /\ c_del x' = false /\ n <> [] /\ namelen n <= MAX_NAME_LEN * 2 /\ c_del y = false
           | None => c_name x' = None /\ c_del x' = true /\ c_subs x' = []
           end;
  ed_px : Z.of_nat (length (c_subs x')) <= c_nb x' /\ (c_nb x' = 0 \/ MIN_SUBKEYS <= c_nb x');
  ed_wow : forall c, c_wow x' = Some c -> c ∈ c_subs x';
  ed_vals : key_ok casemap (values_of x');
  ed_yname : c_name y' = c_name y;
  ed_ydel : c_del y' = c_del y;
  ed_ylink : c_link y' = c_link y;
  ed_yshare : c_share y' = c_share y;
  ed_yvals : values_of y' = values_of y;
  ed_subs : forall c, c ∈ c_subs y' <-> (c ∈ c_subs y /\ c <> p) \/ (c = p /\ new <> None);
  ed_sorted : StronglySorted (before (<[p := x']> (<[q := y']> m))) (c_subs y');
  ed_room : Z.of_nat (length (c_subs y')) <= c_nb y' /\ (c_nb y' = 0 \/ MIN_SUBKEYS <= c_nb y');
  ed_ywow : forall c, c_wow y' = Some c -> c ∈ c_subs y'
}.

Section Edit.
Context (m : gmap Z core) (Ht : tree m) (q : Z) (y y' : core) (p : Z) (x' : core) (new : option wstr).
Context (He : edit m q y y' p x' new).

Let m' : gmap Z core := <[p := x']> (<[q := y']> m).

Lemma edit_p : m' !! p = Some x'.
Proof using. unfold m'. by rewrite lookup_insert_eq. Qed.

Lemma edit_q : m' !! q = Some y'.
Proof using He. unfold m'. rewrite lookup_insert_ne by (apply (ed_ne _ _ _ _ _ _ _ He)). by rewrite lookup_insert_eq. Qed.

Lemma edit_other r : r <> p -> r <> q -> m' !! r = m !! r.
Proof using. intros Hp Hq. unfold m'. by rewrite !lookup_insert_ne by done. Qed.

Lemma edit_named c n par : named m' c n par <-> (c = p /\ c_name x' = Some (mkName n par)) \/ (c <> p /\ named m c n par).
Proof using He.
  unfold named. destruct (decide (c = p)) as [-> | Hp].
  - rewrite edit_p. split; [intros (z & [= <-] & E); by left | intros [[_ E] | [H _]]; [eauto | done]].
  - destruct (decide (c = q)) as [-> | Hq].
    + rewrite edit_q, (ed_q _ _ _ _ _ _ _ He). pose proof (ed_yname _ _ _ _ _ _ _ He) as E. split.
      * intros (z & [= <-] & Ez). right. split; [done |]. exists y. split; [done | congruence].
      * intros [[H _] | [_ (z & [= <-] & Ez)]]; [done |]. exists y'. split; [done | congruence].
    + rewrite edit_other by done. split; [intros H; by right | by intros [[H _] | [_ H]]].
Qed.

(** Whoever is a child of another key than [q] is not [p]. *)
Lemma edit_not_p r n : named m p n (InKey r) -> r = q.
Proof using He Ht.
  intros (z & Hz & Ez). destruct (ed_old _ _ _ _ _ _ _ He) as [[H _] | (x & l & Hx & Hn & _)]; [congruence |].
  rewrite Hx in Hz. injection Hz as <-. rewrite Hn in Ez. by injection Ez.
Qed.

Lemma edit_child c n : c <> p -> named m c n (InKey p) -> exists x, m !! p = Some x /\ c_subs x' = c_subs x /\ c ∈ c_subs x /\ c_link x' = c_link x /\ c_share x' = c_share x.
Proof using He Ht.
  intros Hc H. destruct (tr_up _ m Ht c n p H) as (x & Hx & Hin).
  destruct (ed_old _ _ _ _ _ _ _ He) as [[H0 _] | (x0 & l & Hx0 & _ & E & E1 & E2)]; [congruence |].
  rewrite Hx in Hx0. injection Hx0 as <-. by exists x.
Qed.

Lemma edit_before r z : r <> p -> r <> q -> m !! r = Some z -> StronglySorted (before m') (c_subs z).
Proof using He Ht.
  intros Hp Hq Hz. eapply sorted_impl; [exact (tr_sorted _ m Ht r z Hz) |]. intros c d Hc Hd (n & pn & l & pl & H1 & H2 & Hlt).
  assert (Hne : forall e, e ∈ c_subs z -> e <> p).
  { intros e Hin ->. destruct (tr_down _ m Ht r z p Hz Hin) as [k Hk]. by apply edit_not_p in Hk. }
  exists n, pn, l, pl. rewrite !edit_named. split_and!; [right; auto | right; auto | done].
Qed.

Lemma edit_same_subs : c_subs x' = [] \/ exists x, m !! p = Some x /\ c_subs x' = c_subs x.
Proof using He.
  destruct (ed_old _ _ _ _ _ _ _ He) as [(_ & H & _) | (x & l & Hx & _ & E & _)]; [by left | right; eauto].
Qed.

Lemma edit_new_name : (exists n, new = Some n /\ c_name x' = Some (mkName n (InKey q))) \/ (new = None /\ c_name x' = None).
Proof using He. pose proof (ed_new _ _ _ _ _ _ _ He) as H. destruct new as [n |]; destruct H as [H _]; [left; eauto | by right]. Qed.

Lemma not_own_parent c n : ~ named m c n (InKey c).
Proof using Ht. intros H. destruct (tr_rank _ m Ht) as [rank Hr]. specialize (Hr _ _ _ H). lia. Qed.

Lemma edit_down r z c : m' !! r = Some z -> c ∈ c_subs z -> exists n, named m' c n (InKey r).
Proof using He Ht.
  intros Hr Hc. destruct (decide (r = p)) as [-> | Hp].
  - rewrite edit_p in Hr. injection Hr as <-. destruct edit_same_subs as [E | (x & Hx & E)]; rewrite E in Hc; [by apply elem_of_nil in Hc |].
    destruct (tr_down _ m Ht p x c Hx Hc) as [n Hn]. exists n. apply edit_named. right. split; [| done]. intros ->. by eapply not_own_parent.
  - destruct (decide (r = q)) as [-> | Hq].
    + rewrite edit_q in Hr. injection Hr as <-. apply (ed_subs _ _ _ _ _ _ _ He) in Hc as [[Hc Hne] | [-> Hn]].
      * destruct (tr_down _ m Ht q y c (ed_q _ _ _ _ _ _ _ He) Hc) as [n H]. exists n. apply edit_named. by right.
      * destruct edit_new_name as [(n & _ & E) | [E _]]; [| done]. exists n. apply edit_named. by left.
    + rewrite edit_other in Hr by done. destruct (tr_down _ m Ht r z c Hr Hc) as [n H]. exists n. apply edit_named. right. split; [| done].
      intros ->. by apply edit_not_p in H.
Qed.

Lemma edit_up c n r : named m' c n (InKey r) -> exists z, m' !! r = Some z /\ c ∈ c_subs z.
Proof using He Ht.
  intros [[-> E] | [Hne H]]%edit_named.
  - destruct edit_new_name as [(l & Hn & El) | [_ El]]; rewrite El in E; [| done]. injection E as <- <-.
    exists y'. split; [apply edit_q |]. apply (ed_subs _ _ _ _ _ _ _ He). right. by rewrite Hn.
  - destruct (decide (r = p)) as [-> | Hp].
    + destruct (edit_child c n Hne H) as (x & Hx & E & Hin & _). exists x'. split; [apply edit_p | by rewrite E].
    + destruct (tr_up _ m Ht c n r H) as (z & Hz & Hin). destruct (decide (r = q)) as [-> | Hq].
      * exists y'. split; [apply edit_q |]. apply (ed_subs _ _ _ _ _ _ _ He). left. rewrite (ed_q _ _ _ _ _ _ _ He) in Hz. by injection Hz as ->.
      * exists z. by rewrite edit_other.
Qed.

Lemma edit_rank : exists rank : Z -> nat, forall c n r, named m' c n (InKey r) -> (rank r < rank c)%nat.
Proof using He Ht.
  destruct (tr_rank _ m Ht) as [rank Hr]. pose proof (ed_new _ _ _ _ _ _ _ He) as Hn. pose proof (ed_ne _ _ _ _ _ _ _ He) as Hpq.
  destruct (ed_old _ _ _ _ _ _ _ He) as [[H0 _] | (x & l & Hx & Hl & _)].
  - exists (fun z => if decide (z = p) then S (rank q) else rank z). intros c n r [[-> E] | [Hne H]]%edit_named.
    + destruct new as [k |]; [| destruct Hn; congruence]. destruct Hn as [Hn _]. rewrite Hn in E. injection E as <- <-.
      rewrite decide_False, decide_True by congruence. lia.
    + rewrite (decide_False _ _ (P := c = p)) by done. rewrite decide_False; [by eapply Hr |]. intros ->.
      destruct (tr_up _ m Ht c n p H) as (z & Hz & _). congruence.
  - exists rank. intros c n r [[-> E] | [Hne H]]%edit_named; [| by eapply Hr].
    destruct new as [k |]; [| destruct Hn; congruence]. destruct Hn as [Hn _]. rewrite Hn in E. injection E as <- <-.
    apply (Hr p l q). by exists x.
Qed.

Lemma edit_share r z n par : m' !! r = Some z -> c_name z = Some (mkName n par) -> c_share z = true ->
  exists t u, par = InKey t /\ m' !! t = Some u /\ c_link u = false /\ c_share u = false.
Proof using He Ht.
  intros Hz En Hs.
  assert (Hold : exists x l, m !! r = Some x /\ c_name x = Some (mkName l par) /\ c_share x = true).
  { destruct (decide (r = p)) as [-> | Hp].
    - rewrite edit_p in Hz. injection Hz as <-. pose proof (ed_new _ _ _ _ _ _ _ He) as Hn. destruct new as [k |]; [| destruct Hn; congruence].
      destruct Hn as [Hn _]. rewrite Hn in En. injection En as <- <-.
      destruct (ed_old _ _ _ _ _ _ _ He) as [(_ & _ & H) | (x & l & Hx & Hl & _ & _ & E)]; [congruence |]. exists x, l. by rewrite <- E.
    - destruct (decide (r = q)) as [-> | Hq].
      + rewrite edit_q in Hz. injection Hz as <-. exists y, n. rewrite <- (ed_yname _ _ _ _ _ _ _ He), <- (ed_yshare _ _ _ _ _ _ _ He).
        by rewrite (ed_q _ _ _ _ _ _ _ He).
      + rewrite edit_other in Hz by done. by exists z, n. }
  destruct Hold as (x & l & Hx & Hl & Hsx). destruct (tr_share _ m Ht r x l par Hx Hl Hsx) as (t & u & -> & Hu & H1 & H2).
  exists t. destruct (decide (t = p)) as [-> | Hp].
  - exists x'. rewrite edit_p. destruct (ed_old _ _ _ _ _ _ _ He) as [[H _] | (x0 & k & Hx0 & _ & _ & E1 & E2)]; [congruence |].
    rewrite Hu in Hx0. injection Hx0 as <-. by rewrite E1, E2.
  - destruct (decide (t = q)) as [-> | Hq].
    + exists y'. rewrite edit_q, (ed_ylink _ _ _ _ _ _ _ He), (ed_yshare _ _ _ _ _ _ _ He). rewrite (ed_q _ _ _ _ _ _ _ He) in Hu. by injection Hu as ->.
    + exists u. by rewrite edit_other.
Qed.

Lemma edit_tree : tree m'.
Proof using He Ht.
  assert (Hsplit : forall r z, m' !! r = Some z -> (r = p /\ z = x') \/ (r = q /\ z = y') \/ (r <> p /\ r <> q /\ m !! r = Some z)).
  { intros r z Hr. destruct (decide (r = p)) as [-> | Hp]; [rewrite edit_p in Hr; injection Hr; auto |].
    destruct (decide (r = q)) as [-> | Hq]; [rewrite edit_q in Hr; injection Hr; auto |]. rewrite edit_other in Hr by done. auto. }
  pose proof (ed_new _ _ _ _ _ _ _ He) as Hnew. pose proof (tr_del _ m Ht q y (ed_q _ _ _ _ _ _ _ He)) as Hyd.
  split; [exact edit_down | exact edit_up | | | | | | | exact edit_share | exact edit_rank |].
  - intros c n par [[-> E] | [Hne H]]%edit_named; [| by apply (tr_par _ m Ht c n par)].
    destruct new as [k |]; [| destruct Hnew; congruence]. destruct Hnew as [Hnew _]. rewrite Hnew in E. by injection E as <- <-.
  - intros r z Hr. destruct (Hsplit r z Hr) as [[-> ->] | [[-> ->] | (Hp & Hq & Hz)]]; [| exact (ed_sorted _ _ _ _ _ _ _ He) | by eapply edit_before].
    destruct edit_same_subs as [-> | (x & Hx & ->)]; [constructor |]. eapply sorted_impl; [exact (tr_sorted _ m Ht p x Hx) |].
    intros c d Hc Hd (n & pn & l & pl & H1 & H2 & Hlt).
    assert (Hnp : forall e, e ∈ c_subs x -> e <> p) by (intros e Hin ->; destruct (tr_down _ m Ht p x p Hx Hin) as [k Hk]; by eapply not_own_parent).
    exists n, pn, l, pl. rewrite !edit_named. split_and!; [right; auto | right; auto | done].
  - intros c n r [[-> E] | [Hne H]]%edit_named; [| by apply (tr_names _ m Ht c n r)].
    destruct new as [k |]; [| destruct Hnew; congruence]. destruct Hnew as (Hnew & _ & H1 & H2 & _). rewrite Hnew in E. by injection E as <- <-.
  - intros r z Hr. destruct (Hsplit r z Hr) as [[-> ->] | [[-> ->] | (Hp & Hq & Hz)]]; [apply (ed_px _ _ _ _ _ _ _ He) | apply (ed_room _ _ _ _ _ _ _ He) | by apply (tr_room _ m Ht r z)].
  - intros r z Hr. destruct (Hsplit r z Hr) as [[-> ->] | [[-> ->] | (Hp & Hq & Hz)]]; [| | by apply (tr_del _ m Ht r z)].
    + destruct new as [k |]; [destruct Hnew as (E & D & _) | destruct Hnew as (E & D & S)]; rewrite E, D; split; try done.
    + rewrite (ed_ydel _ _ _ _ _ _ _ He), (ed_yname _ _ _ _ _ _ _ He). split; [apply Hyd |]. intros D. apply elem_of_nil_inv. intros c Hc.
      apply (ed_subs _ _ _ _ _ _ _ He) in Hc as [[Hc _] | [_ Hc]]; [rewrite (proj2 Hyd D) in Hc; by apply elem_of_nil in Hc |].
      destruct new; [destruct Hnew as (_ & _ & _ & _ & D'); congruence | done].
  - intros r z c Hr. destruct (Hsplit r z Hr) as [[-> ->] | [[-> ->] | (Hp & Hq & Hz)]]; [apply (ed_wow _ _ _ _ _ _ _ He) | apply (ed_ywow _ _ _ _ _ _ _ He) | by apply (tr_wow _ m Ht r z)].
  - intros r z Hr. destruct (Hsplit r z Hr) as [[-> ->] | [[-> ->] | (Hp & Hq & Hz)]]; [apply (ed_vals _ _ _ _ _ _ _ He) | | by apply (tr_values _ m Ht r z)].
    rewrite (ed_yvals _ _ _ _ _ _ _ He). apply (tr_values _ m Ht q y (ed_q _ _ _ _ _ _ _ He)).
Qed.
End Edit.
End Tree.
