(* ===== verification/RegKeyRefs.v ===== *)
(** * References to registry keys

    Taking and giving back references, opening and closing handles, unlinking a key
    from its parent and renaming it, with what each leaves of the invariant. *)

From stdpp Require Import base list gmap.
From Stdlib Require Import ZArith Lia ZifyBool Sorted.
From S2P Require Import Prelude Fallible Atom AtomProofs RegValue RegValueProofs RegKey RegKeyProofs RegKeyTree.

Open Scope Z_scope.
Open Scope fallible_scope.

(** * References and handles *)

Definition cref (n : Z) (x : core) : core :=
  mkCore n (c_handles x) (c_name x) (c_subs x) (c_nb x) (c_wow x) (c_vals x) (c_nbv x) (c_del x) (c_link x) (c_share x).
Definition chandles (n : Z) (x : core) : core :=
  mkCore (c_ref x) n (c_name x) (c_subs x) (c_nb x) (c_wow x) (c_vals x) (c_nbv x) (c_del x) (c_link x) (c_share x).

Definition del (p : Z) (w : world) : world := mkWorld (delete p (w_keys w)) (w_open w) (w_next w) (w_root w).
Definition open_set (o : gmap (Z * Z) Z) (w : world) : world := mkWorld (w_keys w) o (w_next w) (w_root w).

(** A reference is given back. *)
Definition dec (p : Z) (x : core) (w : world) : world := if c_ref x =? 1 then del p w else put p (cref (c_ref x - 1) x) w.

Lemma view_del s p : view (set_heap (delete p (rs_heap s)) s) = del p (view s).
Proof. unfold view, del. cbn. by rewrite fmap_delete. Qed.

Lemma runs_core p x s (Q : rkey -> reg -> Prop) :
  w_keys (view s) !! p = Some x -> (forall k, rs_heap s !! p = Some k -> core_of k = x -> Q k s) -> runs (getk p) s Q.
Proof. intros Hx HQ. destruct (heap_view _ _ _ Hx) as (k & Hk & E). eapply runs_getk; [exact Hk |]. by apply HQ. Qed.

(** Writing the core of a key. *)
Lemma runs_write p f g x s (Q : unit -> reg -> Prop) :
  w_keys (view s) !! p = Some x -> (forall k, core_of k = x -> core_of (f k) = g) -> (forall s', view s' = put p g (view s) -> Q tt s') -> runs (updk p f) s Q.
Proof.
  intros Hx Hf HQ. destruct (heap_view _ _ _ Hx) as (k & Hk & E). eapply runs_updk; [exact Hk |]. apply HQ. by rewrite view_put, Hf.
Qed.

Lemma runs_grab p x s (Q : unit -> reg -> Prop) :
  w_keys (view s) !! p = Some x -> (forall s', view s' = put p (cref (c_ref x + 1) x) (view s) -> Q tt s') -> runs (grab_object p) s Q.
Proof. intros Hx HQ. eapply runs_write; [exact Hx | | exact HQ]. by intros k <-. Qed.

(** ** Giving references back *)

Definition may_release (x : core) : Prop := 1 <= c_ref x /\ (c_ref x = 1 -> c_name x = None /\ c_handles x = 0 /\ c_subs x = []).

Lemma view_refl_put s p x : w_keys (view s) !! p = Some x -> put p x (view s) = view s.
Proof. apply put_same. Qed.

Lemma runs_release_loop alloc_ok fuel p x s (Q : unit -> reg -> Prop) :
  w_keys (view s) !! p = Some x -> may_release x -> (forall s', view s' = dec p x (view s) -> Q tt s') -> runs (release_loop alloc_ok (S fuel) p) s Q.
Proof.
  intros Hx [Hr H1] HQ. cbn [release_loop]. rbind. eapply runs_core; [exact Hx |]. intros k Hk Ek.
  assert (Er : rk_ref k = c_ref x) by (by rewrite <- Ek). rewrite Er. rbind. apply runs_assert; [lia |]. rbind.
  eapply (runs_write p _ (cref (c_ref x - 1) x)); [exact Hx | by intros k' <- |]. intros s1 Hs1. unfold dec in HQ.
  destruct (Z.eqb_spec (c_ref x) 1) as [E1 | Hne].
  - rewrite (proj2 (Z.eqb_eq _ _)) by lia. destruct (H1 E1) as (Hn & Hh & Hsub). assert (Eh : rk_handles k = c_handles x) by (by rewrite <- Ek).
    rbind. apply runs_assert; [lia |].
    assert (Hx1 : w_keys (view s1) !! p = Some (cref (c_ref x - 1) x)) by (rewrite Hs1; cbn; by rewrite lookup_insert_eq).
    rbind. unfold unlink_named_object. rbind. eapply runs_core; [exact Hx1 |]. intros k1 Hk1 Ek1.
    assert (En1 : rk_name k1 = None) by (by apply (f_equal c_name) in Ek1; cbn in Ek1; rewrite Ek1). rewrite En1. apply runs_ret.
    rbind. unfold key_destroy. rbind. eapply runs_getk; [exact Hk1 |].
    assert (Es1 : rk_subkeys k1 = []) by (by apply (f_equal c_subs) in Ek1; cbn in Ek1; rewrite Ek1). rewrite Es1. cbn [release_all].
    rbind. apply runs_ret. rbind. eapply runs_getk; [exact Hk1 |]. apply runs_log. intros s2 Hs2.
    unfold free_object. rbind. eapply runs_core; [rewrite Hs2; exact Hx1 |]. intros k2 _ _. apply runs_modify. apply HQ.
    rewrite view_del, Hs2, Hs1. unfold del, put. cbn. by rewrite delete_insert_eq.
  - rewrite (proj2 (Z.eqb_neq _ _)) by lia. apply runs_ret. by apply HQ.
Qed.

Lemma runs_release alloc_ok p x s (Q : unit -> reg -> Prop) :
  w_keys (view s) !! p = Some x -> may_release x -> (forall s', view s' = dec p x (view s) -> Q tt s') -> runs (release_object alloc_ok p) s Q.
Proof. intros Hx Hm HQ. unfold release_object. rbind. apply runs_heap_size. by eapply runs_release_loop. Qed.

(** ** Counting *)

Lemma nheld_cons p held r : nheld (p :: held) r = ((if decide (p = r) then 1 else 0) + nheld held r)%nat.
Proof. unfold nheld. rewrite filter_cons. by destruct (decide (p = r)). Qed.

Lemma nheld_pos held p : (0 < nheld held p)%nat <-> p ∈ held.
Proof.
  unfold nheld. split.
  - intros H. destruct (filter (fun q => q = p) held) as [| z l] eqn:E; [cbn in H; lia |].
    assert (Hz : z ∈ filter (fun q => q = p) held) by (rewrite E; by left). apply list_elem_of_filter in Hz as [-> Hz]. done.
  - intros H. assert (Hp : p ∈ filter (fun q => q = p) held) by (by apply list_elem_of_filter).
    destruct (filter _ held); [by apply elem_of_nil in Hp | cbn; lia].
Qed.

Lemma nopen_pos o h p : o !! h = Some p -> (0 < nopen o p)%nat.
Proof.
  intros H. unfold nopen. assert (Hp : (h, p) ∈ filter (fun x : (Z * Z) * Z => x.2 = p) (map_to_list o)) by (apply list_elem_of_filter; split; [done | by apply elem_of_map_to_list]).
  destruct (filter _ (map_to_list o)); [by apply elem_of_nil in Hp | cbn; lia].
Qed.

Lemma nopen_insert o h p r : o !! h = None -> nopen (<[h := p]> o) r = ((if decide (p = r) then 1 else 0) + nopen o r)%nat.
Proof.
  intros H. unfold nopen. rewrite (map_to_list_insert o h p H). rewrite filter_cons. cbn [snd]. by destruct (decide (p = r)).
Qed.

Lemma nopen_delete o h p r : o !! h = Some p -> nopen o r = ((if decide (p = r) then 1 else 0) + nopen (delete h o) r)%nat.
Proof.
  intros H. rewrite <- (nopen_insert (delete h o) h p r) by apply lookup_delete_eq. by rewrite insert_delete_id.
Qed.

(** ** The invariant *)

Section Refs.
Context (casemap : Z -> Z) (alloc_ok : nat -> bool) (refusal : reg -> Z -> Z -> Z -> option Z).
Abbreviation tree := (tree casemap).
Abbreviation inv := (inv casemap).
Abbreviation alike := (alike casemap).
Abbreviation all_alike := (all_alike casemap).

(** Only counts have changed, and keys without name may be gone. *)
Record steady (w w' : world) : Prop := mkSteady {
  sd_there r x : w_keys w !! r = Some x -> c_name x <> None -> exists x', w_keys w' !! r = Some x' /\ cref 0 x' = cref 0 x;
  sd_back r x' : w_keys w' !! r = Some x' -> exists x, w_keys w !! r = Some x /\ cref 0 x' = cref 0 x;
  sd_open : w_open w' = w_open w;
  sd_next : w_next w' = w_next w;
  sd_root : w_root w' = w_root w;
  sd_size : (size (w_keys w') <= size (w_keys w))%nat
}.

Lemma steady_refl w : steady w w.
Proof. split; eauto. Qed.

Lemma steady_trans w1 w2 w3 : steady w1 w2 -> steady w2 w3 -> steady w1 w3.
Proof.
  intros A B. split.
  - intros r x Hx Hn. destruct (sd_there _ _ A r x Hx Hn) as (x2 & H2 & E2). destruct (sd_there _ _ B r x2 H2) as (x3 & H3 & E3).
    + apply (f_equal c_name) in E2. cbn in E2. congruence.
    + exists x3. split; [done | congruence].
  - intros r x3 H3. destruct (sd_back _ _ B r x3 H3) as (x2 & H2 & E2). destruct (sd_back _ _ A r x2 H2) as (x1 & H1 & E1). exists x1. split; [done | congruence].
  - rewrite (sd_open _ _ B). apply (sd_open _ _ A).
  - rewrite (sd_next _ _ B). apply (sd_next _ _ A).
  - rewrite (sd_root _ _ B). apply (sd_root _ _ A).
  - pose proof (sd_size _ _ A). pose proof (sd_size _ _ B). lia.
Qed.

Lemma steady_named w w' r n par : steady w w' -> named (w_keys w) r n par <-> named (w_keys w') r n par.
Proof.
  intros A. split.
  - intros (x & Hx & En). destruct (sd_there _ _ A r x Hx ltac:(congruence)) as (x' & Hx' & E). exists x'. split; [done |].
    apply (f_equal c_name) in E. cbn in E. congruence.
  - intros (x' & Hx' & En). destruct (sd_back _ _ A r x' Hx') as (x & Hx & E). exists x. split; [done |]. apply (f_equal c_name) in E. cbn in E. congruence.
Qed.

Lemma put_steady w p x n : w_keys w !! p = Some x -> steady w (put p (cref n x) w).
Proof.
  intros Hx. split; try done.
  - intros r z Hz _. cbn. destruct (decide (r = p)) as [-> | Hne].
    + rewrite lookup_insert_eq. rewrite Hx in Hz. injection Hz as <-. eauto.
    + rewrite lookup_insert_ne by done. eauto.
  - intros r z. cbn. intros [[<- <-] | [Hne Hz]]%lookup_insert_Some; [exists x | exists z]; done.
  - cbn. rewrite map_size_insert_Some by eauto. done.
Qed.

Lemma del_steady w p x : w_keys w !! p = Some x -> c_name x = None -> steady w (del p w).
Proof.
  intros Hx Hn. split; try done.
  - intros r z Hz Hnz. cbn. rewrite lookup_delete_ne; [eauto |]. intros <-. congruence.
  - intros r z. cbn. intros [Hne Hz]%lookup_delete_Some. eauto.
  - cbn. rewrite map_size_delete_Some by eauto. lia.
Qed.

Lemma alike_ref m p x n : tree m -> m !! p = Some x -> alike x (cref n x).
Proof. intros Ht Hx. destruct (alike_refl casemap m p x Ht Hx). by split. Qed.

Lemma alike_linked x x' : alike x x' -> linked x' = linked x.
Proof. intros A. unfold linked. by rewrite (al_name _ _ _ A). Qed.

(** One key changes, and so may what a request holds of it. *)
Lemma inv_put held held' w p x x' :
  inv held w -> w_keys w !! p = Some x -> alike x x' ->
  c_handles x' = Z.of_nat (nopen (w_open w) p) -> Z.of_nat (nopen (w_open w) p + nheld held' p + linked x) <= c_ref x' ->
  (forall r, r <> p -> nheld held' r = nheld held r) -> inv held' (put p x' w).
Proof.
  intros Hi Hx A Hh Hr Hne. split; cbn.
  - eapply tree_put; [apply (i_tree _ _ _ Hi) | exact Hx | done].
  - intros r z [[<- <-] | [Hrp Hz]]%lookup_insert_Some.
    + rewrite (alike_linked _ _ A). done.
    + rewrite Hne by done. by apply (i_refs _ _ _ Hi).
  - intros h r Hr'. apply lookup_insert_is_Some'. right. by apply (i_open _ _ _ Hi h r).
  - intros r Hr'. apply lookup_insert_is_Some'. destruct (decide (p = r)) as [-> | Hpr]; [by left | right].
    apply (i_held _ _ _ Hi). apply nheld_pos. rewrite <- Hne by done. by apply nheld_pos.
  - intros r [-> | Hr']%lookup_insert_is_Some'; apply (i_next _ _ _ Hi); [eauto | done].
  - destruct (i_root _ _ _ Hi) as (r & n & Er & Hn). exists r, n. split; [done |].
    apply (alike_named casemap (w_keys w)); [| done]. eapply all_alike_put; [apply (i_tree _ _ _ Hi) | exact Hx | done].
Qed.

Lemma inv_grab held w p x : inv held w -> w_keys w !! p = Some x -> inv (p :: held) (put p (cref (c_ref x + 1) x) w).
Proof.
  intros Hi Hx. destruct (i_refs _ _ _ Hi p x Hx) as [Hh Hr]. eapply inv_put; [exact Hi | exact Hx | | exact Hh | |].
  - eapply alike_ref; [apply (i_tree _ _ _ Hi) | exact Hx].
  - rewrite nheld_cons, decide_True by done. cbn [c_ref cref]. lia.
  - intros r Hr'. rewrite nheld_cons, decide_False by done. done.
Qed.

Lemma inv_release held w p x : inv (p :: held) w -> w_keys w !! p = Some x -> may_release x /\ inv held (dec p x w) /\ steady w (dec p x w).
Proof.
  intros Hi Hx. destruct (i_refs _ _ _ Hi p x Hx) as [Hh Hr]. rewrite nheld_cons, decide_True in Hr by done.
  pose proof (i_tree _ _ _ Hi) as Ht. destruct (tr_del _ _ Ht p x Hx) as [Hd Hds]. unfold may_release, dec.
  destruct (Z.eqb_spec (c_ref x) 1) as [E | Hne].
  - assert (nopen (w_open w) p = 0 /\ nheld held p = 0 /\ linked x = 0)%nat as (Ho & Hl & Hk) by lia.
    assert (Hn : c_name x = None) by (unfold linked in Hk; by destruct (c_name x)).
    split_and!; [lia | intros _; split_and!; [done | lia | by apply Hds, Hd] | | by eapply del_steady].
    split; cbn.
    + eapply tree_free; [done | exact Hx | done | by apply Hds, Hd].
    + intros r z [Hrp Hz]%lookup_delete_Some. destruct (i_refs _ _ _ Hi r z Hz) as [H1 H2]. rewrite nheld_cons, decide_False in H2 by done. done.
    + intros h r Hr'. rewrite lookup_delete_ne; [by apply (i_open _ _ _ Hi h r) |]. intros <-. apply nopen_pos in Hr'. lia.
    + intros r Hr'. rewrite lookup_delete_ne; [apply (i_held _ _ _ Hi); by right |]. intros <-. apply nheld_pos in Hr'. lia.
    + intros r Hr'. apply (i_next _ _ _ Hi). destruct Hr' as [z [_ Hz]%lookup_delete_Some]. eauto.
    + destruct (i_root _ _ _ Hi) as (r & n & Er & Hn'). exists r, n. split; [done |]. apply (steady_named w (del p w)); [by eapply del_steady | done].
  - split_and!; [lia | lia | | by apply put_steady]. eapply inv_put; [exact Hi | exact Hx | by eapply alike_ref | exact Hh | cbn; lia |].
    intros r Hr'. rewrite nheld_cons, decide_False by done. done.
Qed.

Lemma runs_grab_inv held p s (Q : unit -> reg -> Prop) :
  inv held (view s) -> is_Some (w_keys (view s) !! p) ->
  (forall s', inv (p :: held) (view s') -> steady (view s) (view s') -> Q tt s') -> runs (grab_object p) s Q.
Proof.
  intros Hi [x Hx] HQ. eapply runs_grab; [exact Hx |]. intros s' Hs'. apply HQ; rewrite Hs'; [by apply inv_grab | by apply put_steady].
Qed.

Lemma runs_release_inv held p s (Q : unit -> reg -> Prop) :
  inv (p :: held) (view s) -> (forall s', inv held (view s') -> steady (view s) (view s') -> Q tt s') -> runs (release_object alloc_ok p) s Q.
Proof.
  intros Hi HQ. destruct (i_held _ _ _ Hi p) as [x Hx]; [by left |]. destruct (inv_release _ _ _ _ Hi Hx) as (Hm & Hi' & Hs).
  eapply runs_release; [exact Hx | done |]. intros s' E. apply HQ; by rewrite E.
Qed.

(** ** Handles *)

Lemma runs_get_handle_obj process hkey access s (Q : option Z -> reg -> Prop) :
  inv [] (view s) -> (forall s', inv [] (view s') -> view s' = view s -> Q None s') ->
  (forall p s', rs_open s !! (process, hkey) = Some p -> inv [p] (view s') -> steady (view s) (view s') -> Q (Some p) s') ->
  runs (get_handle_obj refusal process hkey access) s Q.
Proof.
  intros Hi HN HS. assert (Hno : forall e, runs (do _ <- set_error e; fret None) s Q).
  { intros e. rbind. apply runs_set_error. intros s' Hs'. apply runs_ret. apply HN; [by rewrite Hs' | done]. }
  unfold get_handle_obj. rbind. apply runs_get. destruct (rs_open s !! (process, hkey)) as [p |] eqn:E, (refusal s process hkey access) as [e |]; try apply Hno.
  rbind. eapply runs_grab_inv; [done | by eapply (i_open _ _ _ Hi) |]. intros s' Hi' Hs'. apply runs_ret. by apply HS.
Qed.

Lemma runs_get_hkey_obj process hkey access s (Q : option Z -> reg -> Prop) :
  inv [] (view s) -> (forall s', inv [] (view s') -> Q None s') ->
  (forall p x s', rs_open s !! (process, hkey) = Some p -> inv [p] (view s') -> steady (view s) (view s') ->
     w_keys (view s') !! p = Some x -> c_del x = false -> Q (Some p) s') ->
  runs (get_hkey_obj alloc_ok refusal process hkey access) s Q.
Proof.
  intros Hi HN HS. unfold get_hkey_obj. rbind. apply runs_get_handle_obj; [done | |].
  - intros s' Hi' _. apply runs_ret. by apply HN.
  - intros p s' Ho Hi' Hs'. destruct (i_held _ _ _ Hi' p) as [x Hx]; [by left |]. rbind. eapply runs_core; [exact Hx |]. intros k Hk Ek.
    destruct (rflag k KEY_DELETED) eqn:Ed.
    + rbind. apply runs_set_error. intros s1 Hs1. rbind. eapply runs_release_inv; [by rewrite Hs1 |]. intros s2 Hi2 _. apply runs_ret. by apply HN.
    + apply runs_ret. apply (HS p x); [done | done | done | done |]. by rewrite <- Ek.
Qed.

(** The handle the table gives must be free. *)
Definition free_answer (process : Z) (answer : Z + Z) (w : world) : Prop :=
  match answer with inl _ => True | inr h => w_open w !! (process, h) = None end.

Lemma runs_alloc_handle held process p answer s (Q : unit -> reg -> Prop) :
  inv held (view s) -> is_Some (w_keys (view s) !! p) -> free_answer process answer (view s) ->
  (forall s', inv held (view s') -> (forall r n par, named (w_keys (view s)) r n par -> named (w_keys (view s')) r n par) -> Q tt s') ->
  runs (alloc_handle process p answer) s Q.
Proof.
  intros Hi [x Hx] Hf HQ. unfold alloc_handle. destruct answer as [e | h]; cbn in Hf.
  - apply runs_set_error. intros s' E. apply HQ; by rewrite E.
  - rbind. eapply (runs_write p _ (chandles (c_handles x + 1) x)); [exact Hx | by intros k <- |]. intros s1 E1.
    assert (Hx1 : w_keys (view s1) !! p = Some (chandles (c_handles x + 1) x)) by (rewrite E1; cbn; by rewrite lookup_insert_eq).
    rbind. eapply runs_grab; [exact Hx1 |]. intros s2 E2. apply runs_modify.
    set (x' := cref (c_ref x + 1) (chandles (c_handles x + 1) x)).
    assert (Ev : view (set_open (<[(process, h) := p]> (rs_open s2)) s2) = open_set (<[(process, h) := p]> (w_open (view s))) (put p x' (view s))).
    { assert (Eo : rs_open s2 = w_open (view s)) by (change (w_open (view s2) = w_open (view s)); by rewrite E2, E1).
      change (open_set (<[(process, h) := p]> (rs_open s2)) (view s2) = open_set (<[(process, h) := p]> (w_open (view s))) (put p x' (view s))).
      rewrite Eo, E2, E1. unfold x'. by rewrite put_put. }
    pose proof (i_tree _ _ _ Hi) as Ht. destruct (i_refs _ _ _ Hi p x Hx) as [Hh Hr].
    assert (A : alike x x') by (destruct (alike_refl casemap _ p x Ht Hx); by split).
    assert (Hal : all_alike (w_keys (view s)) (<[p := x']> (w_keys (view s)))) by (by eapply all_alike_put).
    apply HQ.
    + rewrite Ev. split; cbn [open_set put w_keys w_open w_next w_root].
      * by eapply tree_put.
      * intros r z [[<- <-] | [Hne Hz]]%lookup_insert_Some; rewrite (nopen_insert _ _ _ _ Hf).
        -- rewrite decide_True by done. rewrite (alike_linked _ _ A).
           change (c_handles x') with (c_handles x + 1). change (c_ref x') with (c_ref x + 1).
           change (w_open (view s)) with (rs_open s) in Hh, Hr. lia.
        -- rewrite decide_False by done. by apply (i_refs _ _ _ Hi).
      * intros g r [[_ <-] | [_ Hg]]%lookup_insert_Some; apply lookup_insert_is_Some'; [by left | right; by apply (i_open _ _ _ Hi g r)].
      * intros r Hr'. apply lookup_insert_is_Some'. right. by apply (i_held _ _ _ Hi).
      * intros r [<- | Hr']%lookup_insert_is_Some'; apply (i_next _ _ _ Hi); [eauto | done].
      * destruct (i_root _ _ _ Hi) as (r & n & Er & Hn). exists r, n. split; [done |]. by apply (alike_named _ _ _ _ _ _ Hal).
    + rewrite Ev. intros r n par Hn. by apply (alike_named _ _ _ _ _ _ Hal).
Qed.
End Refs.

(** * Closing, unlinking and renaming *)

Section Ops.
Context (casemap : Z -> Z) (alloc_ok : nat -> bool).
Abbreviation tree := (tree casemap).
Abbreviation inv := (inv casemap).
Abbreviation alike := (alike casemap).
Abbreviation all_alike := (all_alike casemap).
Abbreviation low := (lower casemap).

(** ** Closing a handle *)

Lemma inv_close w h p x :
  inv [] w -> w_open w !! h = Some p -> w_keys w !! p = Some x ->
  inv [p] (put p (chandles (c_handles x - 1) x) (open_set (delete h (w_open w)) w)).
Proof.
  intros Hi Ho Hx. pose proof (i_tree _ _ _ Hi) as Ht.
  assert (A : alike x (chandles (c_handles x - 1) x)) by (destruct (alike_refl casemap _ p x Ht Hx); by split).
  assert (Hal : all_alike (w_keys w) (<[p := chandles (c_handles x - 1) x]> (w_keys w))) by (by eapply all_alike_put).
  split; cbn [open_set put w_keys w_open w_next w_root].
  - by eapply tree_put.
  - intros r z Hz. destruct (decide (r = p)) as [-> | Hne].
    + rewrite lookup_insert_eq in Hz. injection Hz as <-. destruct (i_refs _ _ _ Hi p x Hx) as [H1 H2].
      rewrite (nopen_delete _ _ _ p Ho), decide_True in H1, H2 by done. rewrite nheld_cons, decide_True by done.
      rewrite (alike_linked casemap _ _ A). cbn [c_handles c_ref chandles]. lia.
    + rewrite lookup_insert_ne in Hz by done. destruct (i_refs _ _ _ Hi r z Hz) as [H1 H2].
      rewrite (nopen_delete _ _ _ r Ho), decide_False in H1, H2 by done. rewrite nheld_cons, decide_False by done. lia.
  - intros g r [_ Hg]%lookup_delete_Some. apply lookup_insert_is_Some'. right. by apply (i_open _ _ _ Hi g r).
  - intros r ->%list_elem_of_singleton. rewrite lookup_insert_eq. eauto.
  - intros r [<- | Hr']%lookup_insert_is_Some'; apply (i_next _ _ _ Hi); [eauto | done].
  - destruct (i_root _ _ _ Hi) as (r & n & Er & Hn). exists r, n. split; [done |]. by apply (alike_named _ _ _ _ _ _ Hal).
Qed.

Lemma runs_close process hkey s (Q : unit -> reg -> Prop) :
  inv [] (view s) -> (forall s', inv [] (view s') -> Q tt s') -> runs (close_key_handle alloc_ok process hkey) s Q.
Proof.
  intros Hi HQ. unfold close_key_handle. rbind. apply runs_get. destruct (rs_open s !! (process, hkey)) as [p |] eqn:Eo.
  2:{ apply runs_set_error. intros s' E. apply HQ. by rewrite E. }
  destruct (i_open _ _ _ Hi (process, hkey) p Eo) as [x Hx]. rbind. eapply runs_core; [exact Hx |]. intros k Hk Ek.
  rbind. apply (runs_mono _ _ (fun _ s' => view s' = view s)).
  { destruct (find_notify process hkey (rk_notify k)); [| by apply runs_ret]. rbind. apply runs_log. intros s1 E1.
    apply runs_updk_quiet; [rewrite E1; eauto | done |]. intros s2 E2. congruence. }
  intros [] s1 E1. rbind. apply runs_modify. set (s2 := set_open _ s1).
  assert (E2 : view s2 = open_set (delete (process, hkey) (w_open (view s))) (view s)).
  { change (open_set (delete (process, hkey) (w_open (view s1))) (view s1) = open_set (delete (process, hkey) (w_open (view s))) (view s)). by rewrite E1. }
  assert (Hx2 : w_keys (view s2) !! p = Some x) by (by rewrite E2).
  rbind. eapply runs_core; [exact Hx2 |]. intros k2 Hk2 Ek2. assert (Eh : rk_handles k2 = c_handles x) by (by rewrite <- Ek2). rewrite Eh.
  destruct (i_refs _ _ _ Hi p x Hx) as [H1 _]. pose proof (nopen_pos (w_open (view s)) _ _ Eo).
  rbind. apply runs_assert; [lia |]. rbind. eapply (runs_write p _ (chandles (c_handles x - 1) x)); [exact Hx2 | by intros k' <- |]. intros s3 E3.
  eapply (runs_release_inv casemap alloc_ok []); [rewrite E3, E2; by apply inv_close |]. intros s4 Hi4 _. by apply HQ.
Qed.

(** ** Unlinking *)

Definition cname (n : option oname) (x : core) : core :=
  mkCore (c_ref x) (c_handles x) n (c_subs x) (c_nb x) (c_wow x) (c_vals x) (c_nbv x) (c_del x) (c_link x) (c_share x).
Definition csubs (l : list Z) (nb : Z) (wow : option Z) (x : core) : core :=
  mkCore (c_ref x) (c_handles x) (c_name x) l nb wow (c_vals x) (c_nbv x) (c_del x) (c_link x) (c_share x).

Definition wow_without (p : Z) (x : core) : option Z := if bool_decide (c_wow x = Some p) then None else c_wow x.

Lemma index_of_app l1 p l2 : p ∉ l1 -> index_of p (l1 ++ p :: l2) = Some (length l1).
Proof.
  intros H. induction l1 as [| c l1 IH]; cbn; [by rewrite Z.eqb_refl |]. apply not_elem_of_cons in H as [Hc H].
  rewrite (proj2 (Z.eqb_neq _ _)) by done. by rewrite IH.
Qed.

Lemma lookup_put_ne p q c w : p <> q -> w_keys (put q c w) !! p = w_keys w !! p.
Proof. intros H. cbn. by rewrite lookup_insert_ne. Qed.

Lemma dec_put_ne p q c x w : p <> q -> dec p x (put q c w) = put q c (dec p x w).
Proof.
  intros H. unfold dec. destruct (c_ref x =? 1); unfold del, put; cbn; f_equal; [by rewrite delete_insert_ne | by rewrite insert_insert_ne].
Qed.

Lemma dec_put_eq p c x w : dec p x (put p c w) = dec p x w.
Proof. unfold dec. destruct (c_ref x =? 1); [unfold del, put; cbn; by rewrite delete_insert_eq | by rewrite put_put]. Qed.

Lemma shrink_room (len nb : Z) : MIN_SUBKEYS < nb -> len - 1 < nb / 2 -> 0 <= len -> len <= Z.max (nb - nb / 3) MIN_SUBKEYS.
Proof. unfold MIN_SUBKEYS. intros. Z.to_euclidean_division_equations. lia. Qed.

(** The view after a key is unlinked from its parent and the link's reference is gone. *)
Definition unlinked (p : Z) (x : core) (q : Z) (y : core) (l : list Z) (nb : Z) (w : world) : world :=
  put q (csubs l nb (wow_without p y) y) (dec p (cname None x) w).

Lemma runs_unlink p x q y n l1 l2 s (Q : unit -> reg -> Prop) :
  w_keys (view s) !! p = Some x -> c_name x = Some (mkName n (InKey q)) -> w_keys (view s) !! q = Some y -> p <> q ->
  c_subs y = l1 ++ p :: l2 -> p ∉ l1 -> may_release (cname None x) ->
  Z.of_nat (length (c_subs y)) <= c_nb y -> (c_nb y = 0 \/ MIN_SUBKEYS <= c_nb y) ->
  (forall s' nb, Z.of_nat (length (l1 ++ l2)) <= nb -> (nb = 0 \/ MIN_SUBKEYS <= nb) ->
     view s' = unlinked p x q y (l1 ++ l2) nb (view s) -> Q tt s') ->
  runs (unlink_named_object alloc_ok (release_object alloc_ok) p) s Q.
Proof.
  intros Hx Hn Hy Hpq Hs Hl1 Hm Hroom Hmin HQ. unfold unlink_named_object. rbind. eapply runs_core; [exact Hx |]. intros k Hk Ek.
  assert (En : rk_name k = c_name x) by (by rewrite <- Ek). rewrite En, Hn. rbind.
  eapply (runs_write p _ (cname None x)); [exact Hx | by intros k' <- |]. intros s1 E1.
  assert (Hx1 : w_keys (view s1) !! p = Some (cname None x)) by (rewrite E1; cbn; by rewrite lookup_insert_eq).
  assert (Hy1 : w_keys (view s1) !! q = Some y) by (rewrite E1, lookup_put_ne by done; done).
  unfold key_unlink_name. cbn [on_parent]. rbind. eapply runs_core; [exact Hy1 |]. intros kq Hkq Ekq.
  assert (Esub : rk_subkeys kq = c_subs y) by (by rewrite <- Ekq). rewrite Esub, Hs. rbind. eapply runs_read; [by apply index_of_app |].
  rbind. eapply (runs_write q _ (csubs (l1 ++ l2) (c_nb y) (c_wow y) y)); [exact Hy1 | |].
  { intros k' <-. cbn in Hs. unfold core_of, csubs. cbn. rewrite Hs. f_equal. rewrite take_app_length. f_equal.
    change (S (length l1)) with (1 + length l1)%nat. rewrite Nat.add_comm, <- drop_drop, drop_app_length. done. }
  intros s2 E2. set (y2 := csubs (l1 ++ l2) (c_nb y) (c_wow y) y) in *.
  assert (Hy2 : w_keys (view s2) !! q = Some y2) by (rewrite E2; cbn; by rewrite lookup_insert_eq).
  rbind. eapply (runs_write q _ (csubs (l1 ++ l2) (c_nb y) (wow_without p y) y)); [exact Hy2 | |].
  { intros k' Ek'. assert (Hw : rk_wow k' = c_wow y) by (by apply (f_equal c_wow) in Ek'). unfold wow_without. rewrite <- Hw.
    unfold y2 in Ek'. unfold core_of, csubs in *. cbn in *. injection Ek'. intros. subst. by f_equal. }
  intros s3 E3. set (y3 := csubs (l1 ++ l2) (c_nb y) (wow_without p y) y) in *.
  assert (Hx3 : w_keys (view s3) !! p = Some (cname None x)) by (rewrite E3, E2, !lookup_put_ne by done; done).
  rbind. eapply runs_release; [exact Hx3 | done |]. intros s4 E4.
  assert (E4' : view s4 = put q y3 (dec p (cname None x) (view s))).
  { rewrite E4, E3, E2, put_put, dec_put_ne, E1, dec_put_eq by done. done. }
  assert (Hy4 : w_keys (view s4) !! q = Some y3) by (rewrite E4'; cbn; by rewrite lookup_insert_eq).
  rbind. eapply runs_core; [exact Hy4 |]. intros k4 Hk4 Ek4. assert (Enb : rk_nb_subkeys k4 = c_nb y) by (by apply (f_equal c_nb) in Ek4).
  assert (Elen : length (rk_subkeys k4) = length (l1 ++ l2)) by (apply (f_equal c_subs) in Ek4; cbn in Ek4; by rewrite Ek4). rewrite Enb, Elen.
  assert (Hlen : Z.of_nat (length (l1 ++ l2)) <= c_nb y) by (rewrite Hs, !length_app in *; cbn in Hroom; lia).
  destruct ((MIN_SUBKEYS <? c_nb y) && _) eqn:Eshrink; [| apply runs_ret; by apply (HQ s4 (c_nb y))].
  rbind. apply runs_alloc. intros ok s5 E5. destruct ok; [| apply runs_ret; apply (HQ s5 (c_nb y)); [done | done | by rewrite E5, E4']].
  eapply (runs_write q _ (csubs (l1 ++ l2) (Z.max (c_nb y - c_nb y / 3) MIN_SUBKEYS) (wow_without p y) y)).
  { rewrite E5. exact Hy4. }
  { intros k' Ek'. unfold y3, core_of, csubs in *. cbn in *. injection Ek'. intros. subst. by f_equal. }
  intros s6 E6. apply (HQ s6 (Z.max (c_nb y - c_nb y / 3) MIN_SUBKEYS)); [apply shrink_room; lia | lia |].
  rewrite E6, E5, E4', put_put. done.
Qed.

(** ** A key leaves the tree *)

Definition cdel (x : core) : core :=
  mkCore (c_ref x) (c_handles x) (c_name x) (c_subs x) (c_nb x) (c_wow x) (c_vals x) (c_nbv x) true (c_link x) (c_share x).

Lemma sorted_middle (R : Z -> Z -> Prop) l1 p l2 : StronglySorted R (l1 ++ p :: l2) -> StronglySorted R (l1 ++ l2).
Proof.
  induction l1 as [| c l1 IH]; cbn; intros H; inversion H as [| ? ? Hs Hf]; subst; [done |]. constructor; [by apply IH |].
  apply Forall_app in Hf as [H1 H2]. apply Forall_cons in H2 as [_ H2]. by apply Forall_app.
Qed.

Lemma nodup_middle l1 (p : Z) l2 : NoDup (l1 ++ p :: l2) -> p ∉ l1 /\ forall c, c ∈ (l1 ++ l2) <-> c ∈ (l1 ++ p :: l2) /\ c <> p.
Proof.
  intros H. apply NoDup_app in H as (_ & Hd & Hn). apply NoDup_cons in Hn as [Hp _].
  assert (H1 : p ∉ l1) by (intros H; apply (Hd p H); by left). split; [done |]. intros c. rewrite !elem_of_app, elem_of_cons. split.
  - intros [H | H]; (split; [tauto |]); by intros ->.
  - tauto.
Qed.

(** A subkey among those of its parent. *)
Lemma subs_split m p n q : tree m -> named m p n (InKey q) ->
  p <> q /\ exists y l1 l2, m !! q = Some y /\ c_subs y = l1 ++ p :: l2 /\ p ∉ l1 /\ (forall c, c ∈ (l1 ++ l2) <-> c ∈ c_subs y /\ c <> p) /\
    StronglySorted (before casemap m) (l1 ++ l2) /\ Z.of_nat (length (c_subs y)) <= c_nb y /\ (c_nb y = 0 \/ MIN_SUBKEYS <= c_nb y).
Proof.
  intros Ht Hn. split; [intros ->; by eapply (not_own_parent casemap m Ht) |]. destruct (tr_up _ m Ht p n q Hn) as (y & Hy & Hp).
  apply list_elem_of_split in Hp as (l1 & l2 & E). pose proof (tr_sorted _ m Ht q y Hy) as Hs. pose proof (sorted_nodup _ _ _ Hs) as Hnd.
  rewrite E in Hs, Hnd. destruct (nodup_middle _ _ _ Hnd) as [H1 H2]. exists y, l1, l2.
  destruct (tr_room _ m Ht q y Hy) as [R1 R2]. split_and!; [done | exact E | done | intros c; rewrite E; apply H2 | by eapply sorted_middle | done | done].
Qed.

Lemma edit_deleted m p x q y n l1 l2 nb r :
  tree m -> m !! p = Some x -> c_name x = Some (mkName n (InKey q)) -> m !! q = Some y -> c_subs x = [] ->
  c_subs y = l1 ++ p :: l2 -> Z.of_nat (length (l1 ++ l2)) <= nb -> (nb = 0 \/ MIN_SUBKEYS <= nb) ->
  edit casemap m q y (csubs (l1 ++ l2) nb (wow_without p y) y) p (cref r (cname None (cdel x))) None.
Proof.
  intros Ht Hx Hn Hy Hs E Hroom Hmin. assert (Hnm : named m p n (InKey q)) by (by exists x).
  destruct (subs_split m p n q Ht Hnm) as (Hpq & y0 & k1 & k2 & Hy0 & E0 & Hk1 & Hmem & Hso & _). rewrite Hy in Hy0. injection Hy0 as <-.
  assert (k1 = l1 /\ k2 = l2) as [-> ->].
  { pose proof (tr_sorted _ m Ht q y Hy) as Hsy. apply sorted_nodup in Hsy. rewrite E in Hsy. apply nodup_middle in Hsy as [Hl1 _].
    pose proof (index_of_app _ _ l2 Hl1) as I1. pose proof (index_of_app _ _ k2 Hk1) as I2. rewrite <- E in I1. rewrite <- E0 in I2.
    assert (length l1 = length k1) by congruence. rewrite E in E0. apply app_inj_1 in E0 as [-> E0]; [| done]. by injection E0 as ->. }
  split; try done.
  - right. exists x, n. done.
  - cbn. split; [rewrite Hs; cbn; pose proof (tr_room _ m Ht p x Hx); rewrite Hs in *; cbn in *; lia | apply (tr_room _ m Ht p x Hx)].
  - intros c Hc. cbn in *. by apply (tr_wow _ m Ht p x c Hx).
  - apply (tr_values _ m Ht p x Hx).
  - intros c. cbn [c_subs csubs]. rewrite Hmem. split; [by left | intros [H | [_ H]]; done].
  - cbn [c_subs csubs]. eapply sorted_impl; [exact Hso |]. intros c d Hc Hd (a & pa & b & pb & H1 & H2 & Hlt). exists a, pa, b, pb.
    apply Hmem in Hc as [_ Hc]. apply Hmem in Hd as [_ Hd].
    assert (Hin : forall e k par, e <> p -> named m e k par ->
      named (<[p := cref r (cname None (cdel x))]> (<[q := csubs (l1 ++ l2) nb (wow_without p y) y]> m)) e k par).
    { intros e k par He (z & Hz & Ez). destruct (decide (e = q)) as [-> | Heq].
      - exists (csubs (l1 ++ l2) nb (wow_without p y) y). rewrite lookup_insert_ne, lookup_insert_eq by done. split; [done |]. rewrite Hy in Hz. by injection Hz as <-.
      - exists z. by rewrite !lookup_insert_ne. }
    split_and!; auto.
  - cbn. intros c Hc. unfold wow_without in Hc. case_bool_decide as Hw; [done |]. apply Hmem. split; [by apply (tr_wow _ m Ht q y c Hy) | congruence].
Qed.

(** What a deleted key leaves. *)
Lemma inv_deleted held w p x q y n l1 l2 :
  inv held w -> w_keys w !! p = Some x -> c_name x = Some (mkName n (InKey q)) -> w_keys w !! q = Some y -> c_subs x = [] ->
  c_subs y = l1 ++ p :: l2 ->
  may_release (cname None (cdel x)) /\
  forall nb, Z.of_nat (length (l1 ++ l2)) <= nb -> (nb = 0 \/ MIN_SUBKEYS <= nb) -> inv held (unlinked p (cdel x) q y (l1 ++ l2) nb w).
Proof.
  intros Hi Hx Hn Hy Hs E. pose proof (i_tree _ _ _ Hi) as Ht. assert (Hnm : named (w_keys w) p n (InKey q)) by (by exists x).
  destruct (i_refs _ _ _ Hi p x Hx) as [Hh Hr]. assert (Hl : linked x = 1%nat) by (unfold linked; by rewrite Hn).
  assert (Hpq : p <> q) by (intros ->; by eapply (not_own_parent casemap _ Ht)).
  split; [split; cbn [c_ref cname cdel]; [lia |]; intros E1; split_and!; [done | cbn; lia | done] |].
  intros nb Hroom Hmin. set (y' := csubs (l1 ++ l2) nb (wow_without p y) y).
  assert (Hed : forall r, tree (<[p := cref r (cname None (cdel x))]> (<[q := y']> (w_keys w)))).
  { intros r. eapply edit_tree; [exact Ht |]. by eapply edit_deleted. }
  assert (Hkeep : forall r z, <[q := y']> (w_keys w) !! r = Some z -> r <> p ->
    c_handles z = Z.of_nat (nopen (w_open w) r) /\ Z.of_nat (nopen (w_open w) r + nheld held r + linked z) <= c_ref z).
  { intros r z [[<- <-] | [Hne Hz]]%lookup_insert_Some _; [apply (i_refs _ _ _ Hi q y Hy) | by apply (i_refs _ _ _ Hi)]. }
  assert (Hroot : forall m', (forall r k par, r <> p -> named (<[q := y']> (w_keys w)) r k par -> named m' r k par) ->
    exists r k, w_root w = Some r /\ named m' r k InDirectory).
  { intros m' Hm'. destruct (i_root _ _ _ Hi) as (r & k & Er & Hk). exists r, k. split; [done |]. apply Hm'.
    - intros ->. destruct (named_fun _ _ _ _ _ _ Hk Hnm) as [_ ?]. done.
    - destruct Hk as (z & Hz & Ez). destruct (decide (r = q)) as [-> | Hne]; [exists y' | exists z]; rewrite ?lookup_insert_eq, ?lookup_insert_ne by done; [| done].
      split; [done |]. rewrite Hy in Hz. by injection Hz as <-. }
  unfold unlinked, dec. cbn [c_ref cname cdel]. fold y'. destruct (Z.eqb_spec (c_ref x) 1) as [E1 | Hne].
  - assert (nopen (w_open w) p = 0 /\ nheld held p = 0)%nat as [Ho Hd] by lia.
    assert (Em : <[q := y']> (delete p (w_keys w)) = delete p (<[p := cref 0 (cname None (cdel x))]> (<[q := y']> (w_keys w)))).
    { by rewrite delete_insert_eq, delete_insert_ne by done. }
    split; cbn [put del w_keys w_open w_next w_root].
    + rewrite Em. eapply tree_free; [apply Hed | by rewrite lookup_insert_eq | done | done].
    + intros r z Hz. rewrite <- delete_insert_ne in Hz by done. apply lookup_delete_Some in Hz as [Hrp Hz]. by apply Hkeep.
    + intros h r Hr'. rewrite <- delete_insert_ne, lookup_delete_ne by (done || (intros <-; apply nopen_pos in Hr'; lia)).
      apply lookup_insert_is_Some'. right. by apply (i_open _ _ _ Hi h r).
    + intros r Hr'. rewrite <- delete_insert_ne, lookup_delete_ne by (done || (intros <-; apply nheld_pos in Hr'; lia)).
      apply lookup_insert_is_Some'. right. by apply (i_held _ _ _ Hi).
    + intros r Hr'. rewrite <- delete_insert_ne in Hr' by done. destruct Hr' as [z [_ Hz]%lookup_delete_Some].
      apply (i_next _ _ _ Hi). apply lookup_insert_Some in Hz as [[<- _] | [_ Hz]]; eauto.
    + apply Hroot. intros r k par Hrp (z & Hz & Ez). exists z. by rewrite <- delete_insert_ne, lookup_delete_ne by done.
  - set (x' := cref (c_ref x - 1) (cname None (cdel x))).
    assert (Em : <[q := y']> (<[p := x']> (w_keys w)) = <[p := x']> (<[q := y']> (w_keys w))) by (by rewrite insert_insert_ne).
    split; cbn [put w_keys w_open w_next w_root]; rewrite ?Em.
    + apply Hed.
    + intros r z [[<- <-] | [Hrp Hz]]%lookup_insert_Some; [| by apply Hkeep]. split; [done |].
      change (linked x') with 0%nat. change (c_ref x') with (c_ref x - 1). lia.
    + intros h r Hr'. rewrite !lookup_insert_is_Some'. right; right. by apply (i_open _ _ _ Hi h r).
    + intros r Hr'. rewrite !lookup_insert_is_Some'. right; right. by apply (i_held _ _ _ Hi).
    + intros r Hr'. apply (i_next _ _ _ Hi). rewrite !lookup_insert_is_Some' in Hr'. destruct Hr' as [<- | [<- | Hr']]; eauto.
    + apply Hroot. intros r k par Hrp (z & Hz & Ez). exists z. by rewrite lookup_insert_ne.
Qed.
End Ops.
