(* ===== verification/RegKeyChange.v ===== *)
(** * Registry keys that are named or deleted

    Linking a new key into the tree and renaming one: where the name belongs among the
    subkeys of the parent.  [delete_key] takes a key, or with [recurse] a whole branch, out
    of the tree and changes nothing else. *)

From stdpp Require Import base list gmap.
From Stdlib Require Import ZArith Lia ZifyBool Sorted.
From S2P Require Import Prelude Fallible Atom AtomProofs RegValue RegValueProofs RegKey RegKeyProofs RegKeyTree RegKeyRefs.

Open Scope Z_scope.
Open Scope fallible_scope.

(** * The keys above a key *)

Lemma chain_fun m p l l' : chain m p l -> chain m p l' -> l = l'.
Proof.
  intros H. revert l'. induction H as [p n par Hn Hk | p n q l Hn Hq IH]; intros l' H'; inversion H' as [? n' par' Hn' Hk' | ? n' q' l2 Hn' Hq']; subst; [done | | |].
  - destruct (named_fun _ _ _ _ _ _ Hn Hn') as [_ ->]. by destruct (Hk q').
  - destruct (named_fun _ _ _ _ _ _ Hn Hn') as [_ <-]. by destruct (Hk' q).
  - destruct (named_fun _ _ _ _ _ _ Hn Hn') as [_ E]. injection E as <-. f_equal. by apply IH.
Qed.

(** Key [r] is [p] or lies below it. *)
Definition below (m : gmap Z core) (p r : Z) : Prop := exists l, chain m r l /\ p ∈ l.

Lemma chain_self m p l : chain m p l -> p ∈ l.
Proof. intros H. inversion H; by left. Qed.

Lemma chain_named m p l : chain m p l -> exists n par, named m p n par.
Proof. intros H. inversion H; eauto. Qed.

(** The keys above [q]. *)
Definition above (m : gmap Z core) (q r : Z) : Prop := exists l, chain m q l /\ r ∈ tail l.

Lemma chain_parent m p n q l : named m p n (InKey q) -> chain m p l -> exists l2, l = p :: l2 /\ chain m q l2.
Proof.
  intros Hn Hl. inversion Hl as [? n' par' Hn' Hk' | ? n' q' l2 Hn' Hq']; subst; destruct (named_fun _ _ _ _ _ _ Hn Hn') as [_ E]; [by destruct (Hk' q) |].
  injection E as <-. eauto.
Qed.

Lemma above_up m p n q r : named m p n (InKey q) -> above m p r -> r = q \/ above m q r.
Proof.
  intros Hn (l & Hl & Hr). destruct (chain_parent _ _ _ _ _ Hn Hl) as (l2 & -> & Hq). cbn in Hr. assert (E : exists ups, l2 = q :: ups) by (inversion Hq; eauto).
  destruct E as [ups ->]. apply elem_of_cons in Hr as [-> | Hr]; [by left | right; by exists (q :: ups)].
Qed.

(** Names that stay keep their place. *)
Lemma chain_earlier m m' r l :
  chain m' r l ->
  (forall c z', m' !! c = Some z' -> exists z, m !! c = Some z /\ (c_name z' = c_name z \/ c_name z' = None)) -> chain m r l.
Proof.
  intros Hl Hn. assert (Hnm : forall c n par, named m' c n par -> named m c n par).
  { intros c n par (z' & Hz' & E). destruct (Hn _ _ Hz') as (z & Hz & [E' | E']); [| congruence]. exists z. split; [done | congruence]. }
  induction Hl as [p n par Hp Hk | p n q l Hp Hq IH]; [eapply chain_top | eapply chain_up]; eauto.
Qed.

Lemma chain_keeps m m' p l : chain m p l -> (forall c n par, c ∈ l -> named m c n par -> named m' c n par) -> chain m' p l.
Proof.
  intros Hl. induction Hl as [p n par Hp Hk | p n q l Hp Hq IH]; intros Hn.
  - eapply chain_top; [apply Hn; [by left | exact Hp] | done].
  - eapply chain_up; [apply Hn; [by left | exact Hp] |]. apply IH. intros c k par Hc. apply Hn. by right.
Qed.

Section Chains.
Context (casemap : Z -> Z).
Abbreviation tree := (tree casemap).

Lemma chain_bound m p l : tree m -> chain m p l -> (length l <= size m)%nat.
Proof.
  intros Ht Hl. destruct (chain_named _ _ _ Hl) as (n & par & Hn). destruct (chain_exists casemap m p n par Ht Hn) as (l' & Hl' & H).
  by rewrite (chain_fun _ _ _ _ Hl Hl').
Qed.

Lemma below_rank m (rank : Z -> nat) p l :
  (forall c n q, named m c n (InKey q) -> (rank q < rank c)%nat) -> chain m p l -> forall r, r ∈ l -> (rank r <= rank p)%nat.
Proof.
  intros Hr Hl. induction Hl as [p n par Hn Hk | p n q l Hn Hq IH]; intros r Hin.
  - apply list_elem_of_singleton in Hin as ->. done.
  - apply elem_of_cons in Hin as [-> | Hin]; [done |]. specialize (IH r Hin). specialize (Hr _ _ _ Hn). lia.
Qed.

(** A parent and the keys above it are not below its subkey. *)
Lemma above_not_below m p n q l : tree m -> named m p n (InKey q) -> chain m q l -> forall r, r ∈ l -> ~ below m p r.
Proof.
  intros Ht Hn Hl r Hr (k & Hk & Hp). destruct (tr_rank _ m Ht) as [rank Hrank].
  pose proof (below_rank m rank q l Hrank Hl r Hr). pose proof (below_rank m rank r k Hrank Hk p Hp). specialize (Hrank _ _ _ Hn). lia.
Qed.
End Chains.

(** * What other keys see of a change *)

(** Who asked for a change of this kind, in the key itself or below it. *)
Definition asked (change : Z) (itself : bool) (n : notify) : bool := (itself || n_subtree n) && negb (Z.land change (n_filter n) =? 0).

(** The notifications of a key when it has changed, or one below it has: who asked has been
    told and is forgotten. *)
Definition hush (change : Z) (itself : bool) (ns : list notify) : list notify :=
  map (fun n => if asked change itself n then mkNotify [] (n_subtree n) (n_filter n) (n_hkey n) (n_process n) else n) ns.

Lemma hush_hush change b ns : hush change b (hush change b ns) = hush change b ns.
Proof.
  unfold hush. rewrite map_map. apply map_ext. intros n. destruct (asked change b n) eqn:E; [| by rewrite E].
  unfold asked in *. cbn. by rewrite E.
Qed.

(** What happens to a key when one below it changes: it may become dirty, and its
    notifications may be told; nothing else. *)
Definition told (change : Z) (k k' : rkey) : Prop := exists f ns, k' = with_notify ns (with_flags f k) /\
  (f = kflags k \/ f = Z.lor (kflags k) KEY_DIRTY) /\ (ns = rk_notify k \/ ns = hush change false (rk_notify k)).

#[export] Instance told_preorder change : PreOrder (told change).
Proof.
  split.
  - intros k. exists (kflags k), (rk_notify k). split; [by destruct k as [? ? ? ? ? ? ? ? [] ? ?] | auto].
  - intros k1 k2 k3 (f1 & n1 & -> & F1 & N1) (f2 & n2 & -> & F2 & N2). exists f2, n2. split; [done |]. cbn in *. split.
    + destruct F2 as [-> | ->], F1 as [-> | ->]; auto. right. by rewrite <- Z.lor_assoc, Z.lor_diag.
    + destruct N2 as [-> | ->], N1 as [-> | ->]; auto. right. apply hush_hush.
Qed.

Lemma flag_dirty k : core_of (with_flags (Z.lor (kflags k) KEY_DIRTY) k) = core_of k.
Proof. apply (with_flags_core (fun c => c)). intros d Hd. apply flag_lor. by destruct Hd as [-> | [-> | ->]]. Qed.

(** Nothing but the keys of [X] changes, except that those of [T] are told. *)
Definition spares (change : Z) (X T : Z -> Prop) (s s' : reg) : Prop := forall r,
  X r \/ rs_heap s' !! r = rs_heap s !! r \/ (T r /\ exists k k', rs_heap s !! r = Some k /\ rs_heap s' !! r = Some k' /\ told change k k').

#[export] Instance spares_preorder change X T : PreOrder (spares change X T).
Proof.
  split; [intros s r; auto |]. intros s1 s2 s3 H1 H2 r. destruct (H1 r) as [? | [E1 | (Ht & k1 & k2 & K1 & K2 & T1)]]; [by left | |].
  - destruct (H2 r) as [? | [E2 | H]]; [by left | right; left; congruence |]. rewrite E1 in H. auto.
  - destruct (H2 r) as [? | [E2 | (_ & k2' & k3 & K2' & K3 & T2)]]; [by left | |].
    + right; right. split; [done |]. exists k1, k2. by rewrite E2.
    + rewrite K2 in K2'. injection K2' as <-. right; right. split; [done |]. exists k1, k3. split_and!; [done | done | by etransitivity].
Qed.

Lemma spares_mono change (X T X' T' : Z -> Prop) s s' :
  spares change X T s s' -> (forall r, X r -> X' r) -> (forall r, T r -> X' r \/ T' r) -> spares change X' T' s s'.
Proof. intros H HX HT r. destruct (H r) as [? | [? | (Ht & ?)]]; [auto | auto |]. destruct (HT r Ht); auto. Qed.

Lemma spares_put change (X T : Z -> Prop) s p k k' : rs_heap s !! p = Some k -> X p \/ (T p /\ told change k k') -> spares change X T s (set_heap (<[p := k']> (rs_heap s)) s).
Proof.
  intros Hk H r. cbn. destruct (decide (r = p)) as [-> | Hne]; [| right; left; by rewrite lookup_insert_ne].
  destruct H as [? | [? ?]]; [by left |]. right; right. split; [done |]. exists k, k'. by rewrite lookup_insert_eq.
Qed.

Lemma get_parent_run p n par s : named (w_keys (view s)) p n par -> get_parent p s = Some (match par with InKey q => Some q | _ => None end, s).
Proof.
  intros Hn. destruct (runs_get_parent p n par s (fun o s' => o = match par with InKey q => Some q | _ => None end /\ s' = s) Hn) as (o & s' & H & -> & ->); done.
Qed.

Lemma dirty_spares change (X T : Z -> Prop) p l : forall s s' fuel, (forall r, r ∈ l -> X r \/ T r) -> chain (w_keys (view s)) p l -> make_dirty fuel p s = Some (tt, s') -> spares change X T s s'.
Proof.
  intros s s' fuel HT Hl. remember (w_keys (view s)) as m eqn:Em. revert s s' fuel HT Em.
  induction Hl as [p n par Hn Hk | p n q l Hn Hq IH]; intros s s' fuel HT -> H; (destruct fuel as [| fuel]; [done |]); cbn [make_dirty] in H;
    apply fbind_some in H as (k & s1 & [Hkey ->]%fread_some & H); (destruct (rflag k KEY_DIRTY || rflag k KEY_VOLATILE); [injection H as <-; reflexivity |]);
    apply fbind_some in H as ([] & s1 & (k2 & s2 & [Hk2 ->]%fread_some & [= <-])%fbind_some & H); rewrite Hkey in Hk2; injection Hk2 as <-;
    set (k' := with_flags (Z.lor (kflags k) KEY_DIRTY) k) in *; set (s1 := set_heap (<[p := k']> (rs_heap s)) s) in *;
    (assert (Ev : view s1 = view s) by (unfold s1; rewrite view_put; unfold k'; rewrite flag_dirty; by apply put_same, view_heap));
    (assert (H1 : spares change X T s s1) by (apply (spares_put _ _ _ _ _ k); [done |]; destruct (HT p) as [? | ?]; [by left | by left | right; split; [done |]];
       exists (Z.lor (kflags k) KEY_DIRTY), (rk_notify k); split; [done | auto]));
    (etransitivity; [exact H1 |]); apply fbind_some in H as (up & s2 & Hup & H);
    rewrite (get_parent_run p n _ s1 ltac:(rewrite Ev; exact Hn)) in Hup; injection Hup as <- <-.
  - destruct par as [| q |]; [| by destruct (Hk q) |]; injection H as <-; reflexivity.
  - eapply IH; [| by rewrite Ev | exact H]. intros r Hr. apply HT. by right.
Qed.

Lemma check_spares change (X T : Z -> Prop) p b s s' : X p \/ (T p /\ b = false) -> check_notify p change b s = Some (tt, s') -> spares change X T s s'.
Proof.
  intros HT H. apply fbind_some in H as (k & s1 & [Hk ->]%fread_some & H). apply fbind_some in H as ([] & s1 & [= <-] & H).
  apply fbind_some in H as (k2 & s2 & [Hk2 ->]%fread_some & [= <-]). cbn in Hk2. rewrite Hk in Hk2. injection Hk2 as <-.
  intros r. cbn. destruct (decide (r = p)) as [-> | Hne]; [| right; left; by rewrite lookup_insert_ne].
  destruct HT as [? | [? ->]]; [by left |]. right; right. split; [done |]. exists k. eexists. rewrite lookup_insert_eq. split_and!; [done | done |].
  exists (kflags k), (hush change false (rk_notify k)). split; [by destruct k as [? ? ? ? ? ? ? ? [] ? ?] | auto].
Qed.

Lemma notify_spares change (X T : Z -> Prop) p l : forall s s' fuel, (forall r, r ∈ tail l -> X r \/ T r) -> chain (w_keys (view s)) p l -> notify_parents fuel p change s = Some (tt, s') -> spares change X T s s'.
Proof.
  intros s s' fuel HT Hl. remember (w_keys (view s)) as m eqn:Em. revert s s' fuel HT Em.
  induction Hl as [p n par Hn Hk | p n q l Hn Hq IH]; intros s s' fuel HT -> H; (destruct fuel as [| fuel]; [done |]); cbn [notify_parents] in H;
    apply fbind_some in H as (up & s1 & Hup & H);
    rewrite (get_parent_run p n _ s Hn) in Hup; injection Hup as <- <-.
  - destruct par as [| q |]; [| by destruct (Hk q) |]; injection H as <-; reflexivity.
  - apply fbind_some in H as ([] & s1 & Hc & H). assert (Hin : q ∈ l) by (inversion Hq; by left).
    assert (Ev : view s1 = view s).
    { destruct (runs_check_notify q change false s (fun _ s2 => view s2 = view s)) as (u & s2 & H2 & E2); [| done |].
      - inversion Hq as [? ? ? (x & Hx & _) | ? ? ? ? (x & Hx & _)]; subst; eauto.
      - rewrite Hc in H2. by injection H2 as _ <-. }
    etransitivity; [eapply (check_spares _ X T); [| exact Hc] |].
    + destruct (HT q); auto.
    + eapply IH; [| by rewrite Ev | exact H]. intros r Hr. apply HT. cbn. by destruct l; [| right].
Qed.

(** A change of [p] is seen by the keys above it. *)
Lemma touch_spares casemap change p n par ups s s' :
  tree casemap (w_keys (view s)) -> named (w_keys (view s)) p n par -> chain (w_keys (view s)) p (p :: ups) -> touch_key p change s = Some (tt, s') ->
  spares change (eq p) (fun r => r ∈ ups) s s'.
Proof.
  intros Ht Hn Hl H. assert (HT : forall r, r ∈ p :: ups -> p = r \/ r ∈ ups) by (intros r [-> | ?]%elem_of_cons; auto).
  apply fbind_some in H as (sz & s0 & [= <- <-] & H). apply fbind_some in H as (s0 & s0' & [= <- <-] & H).
  apply fbind_some in H as ([] & s1 & (k & s2 & [Hk ->]%fread_some & [= <-])%fbind_some & H).
  set (s1 := set_heap _ s) in *. assert (E1 : view s1 = view s) by (unfold s1; rewrite view_put; apply put_same; by rewrite (view_heap _ _ _ Hk)).
  transitivity s1; [apply (spares_put change (eq p) (fun r => r ∈ ups) s p k); [done | by left] |].
  destruct (chain_exists casemap _ p n par Ht Hn) as (l' & Hl' & Hlen). rewrite (chain_fun _ _ _ _ Hl' Hl) in Hlen.
  apply fbind_some in H as ([] & s2 & Hd & H).
  assert (E2 : view s2 = view s).
  { destruct (runs_make_dirty casemap (p :: ups) p s1 (S (size (rs_heap s))) (fun _ s' => view s' = view s1)) as (u & s3 & H3 & E3); [by rewrite E1 | rewrite view_size; lia | done |].
    rewrite Hd in H3. injection H3 as _ <-. congruence. }
  transitivity s2; [eapply dirty_spares; [exact HT | rewrite E1; exact Hl | exact Hd] |].
  apply fbind_some in H as ([] & s3 & Hc & H).
  assert (E3 : view s3 = view s).
  { destruct (runs_check_notify p change true s2 (fun _ s' => view s' = view s2)) as (u & s4 & H4 & E4); [rewrite E2; destruct Hn as (x & Hx & _); eauto | done |].
    rewrite Hc in H4. injection H4 as _ <-. congruence. }
  transitivity s3; [eapply check_spares; [by left | exact Hc] |].
  eapply notify_spares; [| rewrite E3; exact Hl | exact H]. intros r Hr. by right.
Qed.

(** A key is what it is in the tree and the rest. *)
Lemma core_rest k k' : core_of k = core_of k' -> rest k = rest k' -> k = k'.
Proof. destruct k, k'. unfold core_of, rest. cbn. by intros [= <- <- <- <- <- <- _ _ _ _ _] [= <- <- <- <- <-]. Qed.

Lemma same_key s s' r : same_rest s s' -> w_keys (view s') !! r = w_keys (view s) !! r -> rs_heap s' !! r = rs_heap s !! r.
Proof.
  intros Hr. cbn. rewrite !lookup_fmap. destruct (rs_heap s' !! r) as [k' |] eqn:E'.
  - destruct (Hr r k' E') as (k & Hk & E). rewrite Hk. cbn. intros Ec%(inj Some). f_equal. by apply core_rest.
  - by destruct (rs_heap s !! r).
Qed.

(** * Linking *)

Lemma sorted_insert_between (R : Z -> Z -> Prop) l1 p l2 :
  StronglySorted R (l1 ++ l2) -> Forall (fun c => R c p) l1 -> Forall (R p) l2 -> StronglySorted R (l1 ++ p :: l2).
Proof.
  induction l1 as [| c l1 IH]; cbn; intros Hs H1 H2; [by constructor |]. inversion Hs as [| ? ? Hs' Hf]; subst.
  apply Forall_cons in H1 as [Hc H1]. constructor; [by apply IH |]. apply Forall_app in Hf as [F1 F2]. apply Forall_app. split; [done |]. by constructor.
Qed.

(** Taking an element out of a list that was cut in two. *)
Lemma cut_without (p : Z) l1 l2 a b :
  l1 ++ l2 = a ++ p :: b ->
  exists k1 k2, a ++ b = k1 ++ k2 /\ length k1 = (if Nat.ltb (length a) (length l1) then length l1 - 1 else length l1)%nat /\ k1 ⊆ l1 /\ k2 ⊆ l2.
Proof.
  intros E. destruct (Nat.ltb_spec (length a) (length l1)) as [Hlt | Hge].
  - apply app_eq_inv in E as [(k & -> & Ek) | (k & -> & Ek)].
    + destruct k as [| c k]; [rewrite app_nil_r in Hlt; lia |]. injection Ek as <- ->. exists (a ++ k), l2. rewrite app_assoc, !length_app. cbn. split_and!; [done | lia | intros e; rewrite !elem_of_app, elem_of_cons; tauto | done].
    + rewrite length_app in Hlt. lia.
  - apply app_eq_inv in E as [(k & -> & Ek) | (k & -> & ->)].
    + destruct k as [| c k]; [| rewrite length_app in Hge; cbn in Hge; lia]. cbn in Ek. subst l2. exists a, b. rewrite app_nil_r. split_and!; [done | done | done | intros e; rewrite ?elem_of_app, elem_of_cons; tauto].
    + exists l1, (k ++ b). rewrite app_assoc. split_and!; [done | done | done | intros e; rewrite ?elem_of_app, elem_of_cons; tauto].
Qed.

Section Link.
Context (casemap : Z -> Z) (alloc_ok : nat -> bool).
Abbreviation tree := (tree casemap).
Abbreviation inv := (inv casemap).
Abbreviation low := (lower casemap).

(** No subkey of [q] has this name. *)
Definition free_name (m : gmap Z core) (q : Z) (name : wstr) : Prop := forall c n, named m c n (InKey q) -> low n <> low name.

(** The subkeys around the place of a name. *)
Definition around (m : gmap Z core) (q : Z) (name : wstr) (l1 l2 : list Z) : Prop :=
  Forall (fun c => exists n, named m c n (InKey q) /\ lex_lt (low n) (low name)) l1 /\
  Forall (fun c => exists n, named m c n (InKey q) /\ lex_lt (low name) (low n)) l2.

Lemma place_free m q y name r : tree m -> m !! q = Some y -> place casemap m q name (c_subs y) r -> r.1 = None -> free_name m q name.
Proof.
  intros Ht Hy Hp E. inversion Hp as [| l1 l2 Hs H1 H2]; subst; [done |]. intros c n Hc En.
  destruct (tr_up _ _ Ht c n q Hc) as (z & Hz & Hin). rewrite Hy in Hz. injection Hz as <-. rewrite Hs in Hin. apply elem_of_app in Hin as [Hin | Hin].
  - destruct (proj1 (Forall_forall _ _) H1 c Hin) as (k & Hk & Hlt). destruct (named_fun _ _ _ _ _ _ Hc Hk) as [<- _]. rewrite En in Hlt. by eapply lex_irrefl.
  - destruct (proj1 (Forall_forall _ _) H2 c Hin) as (k & Hk & Hlt). destruct (named_fun _ _ _ _ _ _ Hc Hk) as [<- _]. rewrite En in Hlt. by eapply lex_irrefl.
Qed.

Lemma free_place m q name subs r : free_name m q name -> place casemap m q name subs r ->
  exists l1 l2, r = (None, Z.of_nat (length l1)) /\ subs = l1 ++ l2 /\ around m q name l1 l2.
Proof.
  intros Hf Hp. inversion Hp as [l1 c l2 n Hs Hn En | l1 l2 Hs H1 H2]; subst; [by destruct (Hf _ _ Hn) |]. by exists l1, l2.
Qed.

Lemma around_sub m q name l1 l2 k1 k2 : k1 ⊆ l1 -> k2 ⊆ l2 -> around m q name l1 l2 -> around m q name k1 k2.
Proof. unfold around. rewrite !Forall_forall. intros S1 S2 [H1 H2]. split; auto. Qed.

(** A key gets its place among the subkeys of [q]. *)
Lemma edit_placed m q y p x' name k1 k2 nb wow :
  tree m -> m !! q = Some y -> p <> q -> c_del y = false ->
  (m !! p = None /\ c_subs x' = [] /\ c_share x' = false) \/
  (exists x n, m !! p = Some x /\ c_name x = Some (mkName n (InKey q)) /\ c_subs x' = c_subs x /\ c_link x' = c_link x /\ c_share x' = c_share x) ->
  c_name x' = Some (mkName name (InKey q)) -> c_del x' = false -> name <> [] -> namelen name <= MAX_NAME_LEN * 2 ->
  (Z.of_nat (length (c_subs x')) <= c_nb x' /\ (c_nb x' = 0 \/ MIN_SUBKEYS <= c_nb x')) -> (forall c, c_wow x' = Some c -> c ∈ c_subs x') ->
  key_ok casemap (values_of x') ->
  StronglySorted (before casemap m) (k1 ++ k2) -> (forall c, c ∈ (k1 ++ k2) <-> c ∈ c_subs y /\ c <> p) -> around m q name k1 k2 ->
  (Z.of_nat (length (k1 ++ p :: k2)) <= nb /\ (nb = 0 \/ MIN_SUBKEYS <= nb)) -> (forall c, wow = Some c -> c ∈ (k1 ++ p :: k2)) ->
  edit casemap m q y (csubs (k1 ++ p :: k2) nb wow y) p x' (Some name).
Proof.
  intros Ht Hy Hpq Hdel Hold Hn Hd Hne Hlen Hpx Hw Hv Hso Hmem [A1 A2] Hroom Hwow. split; try done.
  - intros c. cbn [c_subs csubs]. rewrite <- Hmem, !elem_of_app, elem_of_cons. split; [| intros [H | [-> _]]; tauto]. intros [H | [-> | H]]; [tauto | by right | tauto].
  - cbn [c_subs csubs]. set (m' := <[p := x']> _).
    assert (Hin : forall e k par, e <> p -> named m e k par -> named m' e k par).
    { intros e k par He (z & Hz & Ez). destruct (decide (e = q)) as [-> | Heq].
      - exists (csubs (k1 ++ p :: k2) nb wow y). unfold m'. rewrite lookup_insert_ne, lookup_insert_eq by done. split; [done |]. rewrite Hy in Hz. by injection Hz as <-.
      - exists z. unfold m'. by rewrite !lookup_insert_ne. }
    assert (Hp : named m' p name (InKey q)) by (exists x'; unfold m'; by rewrite lookup_insert_eq).
    assert (Hnp : forall c, c ∈ (k1 ++ k2) -> c <> p) by (intros c Hc; by apply Hmem in Hc as [_ Hc]).
    apply sorted_insert_between.
    + eapply sorted_impl; [exact Hso |]. intros c d Hc Hd' (a & pa & b & pb & H1 & H2 & Hlt). exists a, pa, b, pb. split_and!; auto.
    + apply Forall_forall. intros c Hc. destruct (proj1 (Forall_forall _ _) A1 c Hc) as (a & Ha & Hlt). exists a, (InKey q), name, (InKey q). split_and!; [apply Hin; [apply Hnp, elem_of_app; tauto | done] | done | done].
    + apply Forall_forall. intros c Hc. destruct (proj1 (Forall_forall _ _) A2 c Hc) as (a & Ha & Hlt). exists name, (InKey q), a, (InKey q). split_and!; [done | apply Hin; [apply Hnp, elem_of_app; tauto | done] | done].
Qed.

(** The invariant after a change among subkeys. *)
Lemma inv_edit held held' w q y y' p x' new next :
  inv held w -> edit casemap (w_keys w) q y y' p x' new -> c_handles y' = c_handles y -> c_ref y' = c_ref y ->
  c_handles x' = Z.of_nat (nopen (w_open w) p) -> Z.of_nat (nopen (w_open w) p + nheld held' p + linked x') <= c_ref x' ->
  p < next -> w_next w <= next -> (forall r, r <> p -> nheld held' r = nheld held r) ->
  inv held' (mkWorld (<[p := x']> (<[q := y']> (w_keys w))) (w_open w) next (w_root w)).
Proof.
  intros Hi He Hyh Hyr Hxh Hxr Hp Hnext Hheld. pose proof (i_tree _ _ _ Hi) as Ht. pose proof (ed_q _ _ _ _ _ _ _ _ He) as Hy.
  assert (Hlk : linked y' = linked y) by (unfold linked; by rewrite (ed_yname _ _ _ _ _ _ _ _ He)).
  split; cbn [w_keys w_open w_next w_root].
  - by eapply edit_tree.
  - intros r z [[<- <-] | [Hrp [[<- <-] | [Hrq Hz]]%lookup_insert_Some]]%lookup_insert_Some; [done | |]; rewrite Hheld by done.
    + rewrite Hlk, Hyh, Hyr. by apply (i_refs _ _ _ Hi).
    + by apply (i_refs _ _ _ Hi).
  - intros h r Hr. rewrite !lookup_insert_is_Some'. right; right. by apply (i_open _ _ _ Hi h r).
  - intros r Hr. rewrite !lookup_insert_is_Some'. destruct (decide (p = r)) as [-> | Hne]; [by left | right; right].
    apply (i_held _ _ _ Hi). apply nheld_pos. rewrite <- Hheld by done. by apply nheld_pos.
  - intros r. rewrite !lookup_insert_is_Some'. intros [<- | [<- | Hr]]; [done | |]; (eapply Z.lt_le_trans; [apply (i_next _ _ _ Hi) | done]); eauto.
  - destruct (i_root _ _ _ Hi) as (r & k & Er & Hk). exists r, k. split; [done |].
    apply (edit_named casemap (w_keys w) q y y' p x' new He). right. split; [| done]. intros ->. destruct Hk as (z & Hz & Ez).
    destruct (ed_old _ _ _ _ _ _ _ _ He) as [[H _] | (x & n & Hx & Hn & _)]; congruence.
Qed.

(** ** Renaming *)

(** What renaming leaves of the keys. *)
Record renamed (p q : Z) (name : wstr) (w w' : world) : Prop := mkRenamed {
  rn_free : free_name (w_keys w) q name;
  rn_name : named (w_keys w') p name (InKey q);
  rn_key x x' : w_keys w !! p = Some x -> w_keys w' !! p = Some x' -> x' = cname (c_name x') x;
  rn_parent y : w_keys w !! q = Some y -> exists l, w_keys w' !! q = Some (csubs l (c_nb y) (c_wow y) y) /\ l ≡ₚ c_subs y;
  rn_other r : r <> p -> r <> q -> w_keys w' !! r = w_keys w !! r;
  rn_open : w_open w' = w_open w
}.

Lemma element_bound name : namelen (path_element name).1 <= namelen name.
Proof.
  unfold namelen. induction name as [| c name IH]; cbn; [done |]. destruct (c =? backslash); cbn in *; lia.
Qed.

(** A name a key may be given: one path element that is not too long. *)
Definition good_name (name : wstr) : Prop := name <> [] /\ backslash ∉ name /\ namelen name <= MAX_NAME_LEN * 2.

Lemma element_whole name : length (path_element name).1 = length name <-> backslash ∉ name.
Proof.
  induction name as [| c name IH]; cbn; [split; [intros _; apply not_elem_of_nil | done] |]. rewrite not_elem_of_cons.
  destruct (Z.eqb_spec c backslash) as [-> | Hc]; cbn; [split; [done | by intros [? _]] |]. rewrite <- IH. split; [intros [= H]; split; congruence | intros [_ ->]; done].
Qed.

Lemma element_self name : backslash ∉ name -> (path_element name).1 = name.
Proof. induction name as [| c name IH]; cbn; [done |]. rewrite not_elem_of_cons. intros [Hc H]. destruct (Z.eqb_spec c backslash); [congruence |]. cbn. by rewrite IH. Qed.

Lemma good_name_test name :
  (Nat.eqb (length (path_element name).1) 0 || negb (Nat.eqb (length (path_element name).1) (length name)) || (MAX_NAME_LEN * 2 <? namelen (path_element name).1)) = false <-> good_name name.
Proof.
  rewrite !orb_false_iff, negb_false_iff, Nat.eqb_eq, Nat.eqb_neq, Z.ltb_ge, element_whole. unfold good_name.
  split; [intros [[H0 Hb] Hl] | intros (H0 & Hb & Hl)]; rewrite element_self in * by done; (split_and!; [| done | done]); [by intros -> | by destruct name].
Qed.

Lemma runs_mem_alloc_exact s (Q : bool -> reg -> Prop) :
  (forall s', view s' = view s -> rs_heap s' = rs_heap s -> rs_log s' = rs_log s -> (alloc_ok (rs_allocs s) = false -> rs_error s' = REG_NO_MEMORY) -> Q (alloc_ok (rs_allocs s)) s') -> runs (mem_alloc alloc_ok) s Q.
Proof.
  intros HQ. unfold mem_alloc. rbind. eexists _, _. split; [reflexivity |]. rbind. destruct (alloc_ok (rs_allocs s)).
  - apply runs_ret, runs_ret. by apply HQ.
  - eexists tt, _. split; [reflexivity |]. apply runs_ret. by apply HQ.
Qed.

(** Why a key with core [x] is not renamed, and the error, in the order of the checks: the name
    is not one for a key; the key is the root, or the parent has the name; the parent keeps
    the key, or would keep the name, for 32-bit programs; there is no memory. *)
Inductive rename_refused (p : Z) (x : core) (name : wstr) (s : reg) : Z -> Prop :=
| refused_name : ~ good_name name -> rename_refused p x name s REG_INVALID_PARAMETER
| refused_root n : good_name name -> c_name x = Some (mkName n InDirectory) -> rename_refused p x name s REG_CANNOT_DELETE
| refused_taken n q : good_name name -> c_name x = Some (mkName n (InKey q)) -> ~ free_name (w_keys (view s)) q name -> rename_refused p x name s REG_CANNOT_DELETE
| refused_wow n q y : good_name name -> c_name x = Some (mkName n (InKey q)) -> free_name (w_keys (view s)) q name -> w_keys (view s) !! q = Some y ->
    c_wow y = Some p \/ is_wow6432node casemap name = true -> rename_refused p x name s REG_INVALID_PARAMETER
| refused_memory n q y : good_name name -> c_name x = Some (mkName n (InKey q)) -> free_name (w_keys (view s)) q name -> w_keys (view s) !! q = Some y ->
    c_wow y <> Some p -> is_wow6432node casemap name = false -> alloc_ok (rs_allocs s) = false -> rename_refused p x name s REG_NO_MEMORY.

(** What renaming does: it is refused with an error and no key changes, or nothing speaks
    against it and the key is renamed, its parent has it in its new place, the keys above are
    told, and nothing else changes. *)
Definition rename_effect (p : Z) (x : core) (name : wstr) (s s' : reg) : Prop :=
  (exists e, rename_refused p x name s e /\ rs_error s' = e /\ rs_heap s' = rs_heap s /\ rs_open s' = rs_open s) \/
  (forall e, ~ rename_refused p x name s e) /\
  exists q n, c_name x = Some (mkName n (InKey q)) /\ renamed p q name (view s) (view s') /\
    spares REG_NOTIFY_CHANGE_NAME (fun r => r = p \/ r = q) (above (w_keys (view s)) q) s s' /\
    exists kp kq l s1, rs_heap s !! p = Some kp /\ rs_heap s !! q = Some kq /\
      rs_heap s1 = <[p := with_name (Some (mkName name (InKey q))) kp]> (<[q := with_subkeys l kq]> (rs_heap s)) /\ rs_log s1 = rs_log s /\
      touch_key p REG_NOTIFY_CHANGE_NAME s1 = Some (tt, s').

Lemma updk_exact p f s s' : updk p f s = Some (tt, s') -> exists k, rs_heap s !! p = Some k /\ s' = set_heap (<[p := f k]> (rs_heap s)) s.
Proof. intros (k & s1 & [Hk ->]%fread_some & [= <-])%fbind_some. eauto. Qed.

Lemma runs_rename_key held p x s new_name (Q : unit -> reg -> Prop) :
  inv held (view s) -> w_keys (view s) !! p = Some x -> c_del x = false ->
  (forall s', inv held (view s') -> rename_effect p x new_name s s' -> Q tt s') ->
  runs (rename_key casemap alloc_ok p new_name) s Q.
Proof.
  intros Hi Hx Hdel HQ. pose proof (i_tree _ _ _ Hi) as Ht.
  assert (Hname : exists n par, c_name x = Some (mkName n par)).
  { destruct (c_name x) as [[n par] |] eqn:E; [eauto |]. destruct (tr_del _ _ Ht p x Hx) as [Hd _]. rewrite (proj2 Hd E) in Hdel. done. }
  destruct Hname as (n & par & En). assert (Hnm : named (w_keys (view s)) p n par) by (by exists x).
  assert (Hfail : forall e, rename_refused p x new_name s e -> runs (set_error e) s Q).
  { intros e Hr. eexists tt, _. split; [reflexivity |]. apply HQ; [done |]. left. by exists e. }
  unfold rename_key. rbind. eapply runs_get_parent; [exact Hnm |].
  destruct (Nat.eqb _ 0 || _ || _) eqn:Ebad; [apply Hfail, refused_name; rewrite <- good_name_test; by rewrite Ebad |]. pose proof (proj1 (good_name_test _) Ebad) as Hgood.
  pose proof Hgood as (Hne & Hslash & Hlen). destruct par as [| q |]; [by destruct (tr_par _ _ Ht p n NoParent) | | by eapply Hfail, refused_root].
  destruct (subs_split casemap _ p n q Ht Hnm) as (Hpq & y & a & b & Hy & Es & Ha & Hmem & Hso & Hroom & Hmin).
  rbind. eapply runs_find_subkey; [done | exact Hy | by apply short_name |]. intros f Hplace. destruct f as [[c |] i]; cbn [fst snd].
  { eapply Hfail, refused_taken; [done | exact En |]. intros Hfr. inversion Hplace as [l1 c' l2 l Es' Hc El |]; subst. by destruct (Hfr c l). }
  pose proof (place_free _ _ _ _ _ Ht Hy Hplace eq_refl) as Hfree. destruct (free_place _ _ _ _ _ Hfree Hplace) as (l1 & l2 & [= ->] & Es' & Har).
  rbind. eapply runs_core; [exact Hy |]. intros kq Hkq Ekq. assert (Ew : rk_wow kq = c_wow y) by (by rewrite <- Ekq). rewrite Ew. destruct (bool_decide (c_wow y = Some p) || _) eqn:Ewow.
  { eapply Hfail, refused_wow; [done | exact En | done | exact Hy |]. apply orb_true_iff in Ewow as [Ewow%bool_decide_eq_true | Ewow]; auto. }
  apply orb_false_iff in Ewow as [Ewow%bool_decide_eq_false Ewow'].
  rbind. apply runs_mem_alloc_exact. intros s1 E1 H1 L1 He1. destruct (alloc_ok (rs_allocs s)) eqn:Eok; cbn [negb].
  2:{ apply runs_ret, HQ; [by rewrite E1 |]. left. exists REG_NO_MEMORY. split_and!; [by eapply refused_memory | by apply He1 | done | by injection E1]. }
  assert (Esub : rk_subkeys kq = c_subs y) by (by rewrite <- Ekq). rewrite Esub, Es. rbind. eapply runs_read; [by apply index_of_app |]. rewrite Nat2Z.id.
  rewrite take_app_length. replace (drop (S (length a)) (a ++ p :: b)) with b
    by (change (S (length a)) with (1 + length a)%nat; by rewrite Nat.add_comm, <- drop_drop, drop_app_length).
  rewrite Es in Es'. destruct (cut_without p l1 l2 a b (eq_sym Es')) as (k1 & k2 & Ek & Elen & S1 & S2). rewrite <- Elen, Ek, take_app_length, drop_app_length.
  set (y' := csubs (k1 ++ p :: k2) (c_nb y) (c_wow y) y). set (x' := cname (Some (mkName new_name (InKey q))) x).
  rbind. eapply runs_mono; [eapply runs_both; [eapply (runs_write q _ y' y s1 (fun _ s' => view s' = put q y' (view s1))); [rewrite E1; exact Hy | by intros k <- | done] | intros u s' H; exact H] |].
  intros [] s2 [E2 (kq2 & Hkq2 & P2)%updk_exact]. rbind.
  eapply runs_mono; [eapply runs_both; [eapply (runs_write p _ x' x s2 (fun _ s' => view s' = put p x' (view s2))); [rewrite E2, E1, lookup_put_ne by done; exact Hx | by intros k <- | done] | intros u s' H; exact H] |].
  intros [] s3 [E3 (kp & Hkp & P3)%updk_exact]. rewrite E2, E1 in E3. rewrite H1 in Hkq2. rewrite Hkq2 in Hkq. injection Hkq as ->.
  assert (Hkp0 : rs_heap s !! p = Some kp) by (rewrite P2 in Hkp; cbn in Hkp; by rewrite lookup_insert_ne, H1 in Hkp).
  assert (Hperm : (k1 ++ p :: k2) ≡ₚ c_subs y) by (by rewrite Es, <- !Permutation_middle, Ek).
  assert (He : edit casemap (w_keys (view s)) q y y' p x' (Some new_name)).
  { apply edit_placed; try done.
    - destruct (c_del y) eqn:Ed; [| done]. destruct (tr_del _ _ Ht q y Hy) as [_ H]. rewrite (H Ed) in Es. by destruct a.
    - right. by exists x, n.
    - by apply (tr_room _ _ Ht p x).
    - intros c Hc. by apply (tr_wow _ _ Ht p x c Hx).
    - by apply (tr_values _ _ Ht p x).
    - by rewrite <- Ek.
    - intros c. rewrite <- Ek. apply Hmem.
    - by eapply around_sub.
    - by rewrite Hperm.
    - intros c Hc. rewrite Hperm. by apply (tr_wow _ _ Ht q y). }
  destruct (i_refs _ _ _ Hi p x Hx) as [Rh Rr].
  assert (Hi3 : inv held (view s3)).
  { rewrite E3. apply (inv_edit held held (view s) q y y' p x' (Some new_name)); try done.
    - unfold linked in *. rewrite En in Rr. exact Rr.
    - apply (i_next _ _ _ Hi). eauto. }
  assert (Hn3 : named (w_keys (view s3)) p new_name (InKey q)) by (rewrite E3; exists x'; cbn; by rewrite lookup_insert_eq).
  destruct (parent_named casemap _ _ _ _ Ht Hnm) as (nq & pq & Hq). destruct (chain_exists casemap _ q nq pq Ht Hq) as (l & Hl & _).
  assert (Hl3 : chain (w_keys (view s3)) p (p :: l)).
  { eapply chain_up; [exact Hn3 |]. eapply chain_keeps; [exact Hl |]. intros c k pc Hc Hk. rewrite E3. apply (edit_named casemap (w_keys (view s)) q y y' p x' (Some new_name) He).
    right. split; [| done]. intros ->. eapply above_not_below; [exact Ht | exact Hnm | exact Hl | exact Hc |]. destruct (chain_exists casemap _ p n _ Ht Hnm) as (lp & Hlp & _).
    exists lp. split; [done | by eapply chain_self]. }
  eapply runs_mono; [eapply runs_both; [eapply (runs_touch_key casemap p new_name (InKey q) REG_NOTIFY_CHANGE_NAME s3 (fun _ s' => view s' = view s3)); [apply (i_tree _ _ _ Hi3) | exact Hn3 | done] | intros u s' H; exact H] |].
  intros [] s4 [E4 R4]. apply HQ; [by rewrite E4 |]. right. split.
  { intros e Hr. destruct Hr as [Hg | k _ Ep | k q' _ Ep Hf | k q' z _ Ep _ Hz Hw | k q' z _ Ep _ Hz _ _ Hmem']; [done | congruence | | | congruence];
      (assert (q' = q) as -> by congruence); [done |]. assert (z = y) as -> by congruence. destruct Hw; congruence. }
  exists q, n. split_and!; [done | rewrite E4, E3; split; cbn [put w_keys w_open]; try done | | exists kp, kq, (k1 ++ p :: k2), s3; split_and!; [done | done | | by rewrite P3, P2 | done]; by rewrite P3, P2; cbn; rewrite H1].
  - rewrite E3 in Hn3. exact Hn3.
  - rewrite lookup_insert_eq. intros z z' Hz [= <-]. by rewrite Hx in Hz; injection Hz as <-.
  - intros z Hz. rewrite Hy in Hz. injection Hz as <-. exists (k1 ++ p :: k2). by rewrite lookup_insert_ne, lookup_insert_eq.
  - intros r Hrp Hrq. by rewrite !lookup_insert_ne.
  - transitivity s1; [intros r; right; left; by rewrite H1 |]. transitivity s2; [rewrite P2; apply (spares_put _ _ _ _ _ kq); [by rewrite H1 | auto] |].
    transitivity s3; [rewrite P3; apply (spares_put _ _ _ _ _ kp); auto |].
    eapply spares_mono; [eapply (touch_spares casemap); [apply (i_tree _ _ _ Hi3) | exact Hn3 | exact Hl3 | exact R4] | intros r <-; by left |].
    intros r Hr. assert (El : exists ups, l = q :: ups) by (inversion Hl; eauto). destruct El as [ups ->]. apply elem_of_cons in Hr as [-> | Hr]; [left; by right | right; by exists (q :: ups)].
Qed.
End Link.

(** * Deleting *)

Section Delete.
Context (casemap : Z -> Z) (alloc_ok : nat -> bool).
Abbreviation tree := (tree casemap).
Abbreviation inv := (inv casemap).

(** What deleting key [p], a subkey of [q], does to the keys. *)
Record deletes (p q : Z) (ok : bool) (w w' : world) : Prop := mkDeletes {
  de_names r z' : w_keys w' !! r = Some z' -> exists z, w_keys w !! r = Some z /\ (c_name z' = c_name z \/ c_name z' = None);
  de_other r z : w_keys w !! r = Some z -> ~ below (w_keys w) p r -> r <> q -> w_keys w' !! r = Some z;
  de_parent y : w_keys w !! q = Some y -> exists y', w_keys w' !! q = Some y' /\
    (exists nb wow, y' = csubs (if ok then filter (fun c => c <> p) (c_subs y) else c_subs y) nb wow y);
  de_gone n par : ok = true -> ~ named (w_keys w') p n par;
  de_open : w_open w' = w_open w;
  de_root : w_root w' = w_root w;
  de_next : w_next w' = w_next w
}.

Lemma csubs_eq y : csubs (c_subs y) (c_nb y) (c_wow y) y = y.
Proof. by destruct y. Qed.

Lemma deletes_nothing p q w : deletes p q false w w.
Proof. split; try done; [eauto |]. intros y Hy. exists y. split; [done |]. exists (c_nb y), (c_wow y). by rewrite csubs_eq. Qed.

(** The keys above a deleted one stay. *)
Lemma deletes_chain p q ok w w' n l : tree (w_keys w) -> named (w_keys w) p n (InKey q) -> deletes p q ok w w' -> chain (w_keys w) q l -> chain (w_keys w') q l.
Proof.
  intros Ht Hn D Hl. eapply chain_keeps; [exact Hl |]. intros c k par Hc (z & Hz & E). destruct (decide (c = q)) as [-> | Hne].
  - destruct (de_parent _ _ _ _ _ D z Hz) as (y' & Hy' & nb & wow & ->). eexists. split; [exact Hy' | done].
  - exists z. split; [| done]. apply (de_other _ _ _ _ _ D); [done | | done]. by eapply above_not_below.
Qed.

Lemma filter_all (p : Z) (l : list Z) : p ∉ l -> filter (fun c => c <> p) l = l.
Proof.
  induction l as [| c l IH]; [done |]. rewrite not_elem_of_cons. intros [Hc Hl]. rewrite filter_cons_True by done. by rewrite IH.
Qed.

Lemma filter_middle (l1 : list Z) (p : Z) l2 : p ∉ l1 -> p ∉ l2 -> filter (fun c => c <> p) (l1 ++ p :: l2) = l1 ++ l2.
Proof. intros H1 H2. rewrite filter_app, filter_cons_False by (intros H; by apply H). by rewrite !filter_all. Qed.

Lemma unlinked_other w p x q y l nb r : r <> p -> r <> q -> w_keys (unlinked p x q y l nb w) !! r = w_keys w !! r.
Proof. intros Hrp Hrq. unfold unlinked. rewrite lookup_put_ne by done. unfold dec. destruct (_ =? 1); cbn; [by rewrite lookup_delete_ne | by rewrite lookup_insert_ne]. Qed.

(** One key is deleted. *)
Lemma unlinked_deletes w p x q y n l1 l2 nb :
  tree (w_keys w) -> w_keys w !! p = Some x -> c_name x = Some (mkName n (InKey q)) -> w_keys w !! q = Some y -> c_subs y = l1 ++ p :: l2 ->
  deletes p q true w (unlinked p (cdel x) q y (l1 ++ l2) nb w).
Proof.
  intros Ht Hx Hn Hy E. assert (Hnm : named (w_keys w) p n (InKey q)) by (by exists x).
  destruct (subs_split casemap _ p n q Ht Hnm) as (Hpq & _).
  assert (Hnd : p ∉ l1 /\ p ∉ l2).
  { pose proof (tr_sorted _ _ Ht q y Hy) as Hs. apply sorted_nodup in Hs. rewrite E in Hs. apply NoDup_app in Hs as (_ & Hd & Hs).
    apply NoDup_cons in Hs as [H2 _]. split; [| done]. intros H. apply (Hd p H). by left. }
  set (y' := csubs (l1 ++ l2) nb (wow_without p y) y).
  assert (Hq : w_keys (unlinked p (cdel x) q y (l1 ++ l2) nb w) !! q = Some y') by (cbn; by rewrite lookup_insert_eq).
  assert (Hp : forall z, w_keys (unlinked p (cdel x) q y (l1 ++ l2) nb w) !! p = Some z -> c_name z = None).
  { intros z. unfold unlinked. rewrite lookup_put_ne by done. unfold dec. destruct (_ =? 1); cbn; [by rewrite lookup_delete_eq |].
    rewrite lookup_insert_eq. by intros [= <-]. }
  assert (Ho : forall r, r <> p -> r <> q -> w_keys (unlinked p (cdel x) q y (l1 ++ l2) nb w) !! r = w_keys w !! r) by (intros r; apply unlinked_other).
  split; try (unfold unlinked, dec; by destruct (_ =? 1)).
  - intros r z' Hz. destruct (decide (r = p)) as [-> | Hrp]; [exists x; split; [done | right; by apply Hp] |].
    destruct (decide (r = q)) as [-> | Hrq]; [rewrite Hq in Hz; injection Hz as <-; exists y; split; [done | by left] |].
    rewrite Ho in Hz by done. exists z'. split; [done | by left].
  - intros r z Hz Hb Hrq. rewrite Ho; [done | | done]. intros ->. apply Hb. destruct (chain_exists casemap _ p n _ Ht Hnm) as (l & Hl & _).
    exists l. split; [done | by eapply chain_self].
  - intros y0 Hy0. rewrite Hy in Hy0. injection Hy0 as <-. exists y'. split; [done |]. exists nb, (wow_without p y). rewrite E, filter_middle by tauto. done.
  - intros k par _ (z & Hz & Ez). rewrite (Hp _ Hz) in Ez. done.
Qed.

(** ** The recursion *)

Lemma chain_closed m r l c n p : chain m r l -> c ∈ l -> named m c n (InKey p) -> p ∈ l.
Proof.
  intros Hl Hc Hn. induction Hl as [r k par Hr Hk | r k q l Hr Hq IH].
  - apply list_elem_of_singleton in Hc as ->. destruct (named_fun _ _ _ _ _ _ Hn Hr) as [_ <-]. by destruct (Hk p).
  - apply elem_of_cons in Hc as [-> | Hc]; right; [| by apply IH]. destruct (named_fun _ _ _ _ _ _ Hn Hr) as [_ E]. injection E as ->. by eapply chain_self.
Qed.

(** Keys below [p] have been deleted. *)
Record pruned (p : Z) (x : core) (w w' : world) : Prop := mkPruned {
  pr_names r z' : w_keys w' !! r = Some z' -> exists z, w_keys w !! r = Some z /\ (c_name z' = c_name z \/ c_name z' = None);
  pr_other r z : w_keys w !! r = Some z -> ~ below (w_keys w) p r -> w_keys w' !! r = Some z;
  pr_self : exists l nb wow, w_keys w' !! p = Some (csubs l nb wow x);
  pr_open : w_open w' = w_open w;
  pr_root : w_root w' = w_root w;
  pr_next : w_next w' = w_next w
}.

Lemma pruned_refl p x w : w_keys w !! p = Some x -> pruned p x w w.
Proof. intros Hx. split; try done; [eauto |]. exists (c_subs x), (c_nb x), (c_wow x). by rewrite csubs_eq. Qed.

Lemma pruned_step p x w w1 c n ok w2 : pruned p x w w1 -> named (w_keys w1) c n (InKey p) -> below (w_keys w) p p -> deletes c p ok w1 w2 -> pruned p x w w2.
Proof.
  intros P Hc Hb D. split.
  - intros r z2 H2. destruct (de_names _ _ _ _ _ D r z2 H2) as (z1 & H1 & E1). destruct (pr_names _ _ _ _ P r z1 H1) as (z & Hz & E). exists z. split; [done |].
    destruct E1 as [-> | E1]; [done | by right].
  - intros r z Hz Hnb. apply (de_other _ _ _ _ _ D); [by apply (pr_other _ _ _ _ P) | | by intros ->].
    intros (l & Hl & Hin). apply Hnb. exists l. split; [eapply chain_earlier; [exact Hl | apply (pr_names _ _ _ _ P)] | by eapply chain_closed].
  - destruct (pr_self _ _ _ _ P) as (l & nb & wow & Hp). destruct (de_parent _ _ _ _ _ D _ Hp) as (y' & Hy' & nb' & wow' & ->). by eexists _, nb', wow'.
  - rewrite (de_open _ _ _ _ _ D). apply (pr_open _ _ _ _ P).
  - rewrite (de_root _ _ _ _ _ D). apply (pr_root _ _ _ _ P).
  - rewrite (de_next _ _ _ _ _ D). apply (pr_next _ _ _ _ P).
Qed.

Lemma pruned_chain p x n par w w' l : tree (w_keys w) -> named (w_keys w) p n par -> w_keys w !! p = Some x -> pruned p x w w' -> chain (w_keys w) p l -> chain (w_keys w') p l.
Proof.
  intros Ht Hn Hx P Hl. eapply chain_keeps; [exact Hl |]. intros c k pc Hc (z & Hz & E). destruct (decide (c = p)) as [-> | Hne].
  - destruct (pr_self _ _ _ _ P) as (l' & nb & wow & Hp). rewrite Hx in Hz. injection Hz as <-. eexists. split; [exact Hp | done].
  - exists z. split; [| done]. apply (pr_other _ _ _ _ P); [done |]. inversion Hl as [| ? n' q l2 Hn' Hq]; subst.
    + by apply list_elem_of_singleton in Hc.
    + apply elem_of_cons in Hc as [-> | Hc]; [done |]. by eapply above_not_below.
Qed.

Lemma pruned_deletes p x q n w w1 : tree (w_keys w) -> w_keys w !! p = Some x -> c_name x = Some (mkName n (InKey q)) -> pruned p x w w1 ->
  (forall ok w2, deletes p q ok w1 w2 -> deletes p q ok w w2).
Proof.
  intros Ht Hx Hn P ok w2 D. assert (Hnm : named (w_keys w) p n (InKey q)) by (by exists x).
  assert (Hb : forall r, below (w_keys w1) p r -> below (w_keys w) p r).
  { intros r (l & Hl & Hin). exists l. split; [eapply chain_earlier; [exact Hl | apply (pr_names _ _ _ _ P)] | done]. }
  assert (Hq : forall y, w_keys w !! q = Some y -> w_keys w1 !! q = Some y).
  { intros y Hy. apply (pr_other _ _ _ _ P); [done |]. destruct (parent_named casemap _ _ _ _ Ht Hnm) as (k & par & Hk).
    destruct (chain_exists casemap _ q k par Ht Hk) as (l & Hl & _). eapply above_not_below; [exact Ht | exact Hnm | exact Hl | by eapply chain_self]. }
  split.
  - intros r z2 H2. destruct (de_names _ _ _ _ _ D r z2 H2) as (z1 & H1 & E1). destruct (pr_names _ _ _ _ P r z1 H1) as (z & Hz & E). exists z. split; [done |].
    destruct E1 as [-> | E1]; [done | by right].
  - intros r z Hz Hnb Hrq. apply (de_other _ _ _ _ _ D); [by apply (pr_other _ _ _ _ P) | auto | done].
  - intros y Hy. by apply (de_parent _ _ _ _ _ D), Hq.
  - apply (de_gone _ _ _ _ _ D).
  - rewrite (de_open _ _ _ _ _ D). apply (pr_open _ _ _ _ P).
  - rewrite (de_root _ _ _ _ _ D). apply (pr_root _ _ _ _ P).
  - rewrite (de_next _ _ _ _ _ D). apply (pr_next _ _ _ _ P).
Qed.

Lemma flag_deleted k : core_of (with_flags (Z.lor (kflags k) KEY_DELETED) k) = cdel (core_of k).
Proof.
  unfold core_of, cdel, rflag, has_flag, kflags. cbn.
  pose proof (flag_lor (k_flags (rk_key k)) KEY_DELETED KEY_SYMLINK eq_refl) as H1. pose proof (flag_lor (k_flags (rk_key k)) KEY_DELETED KEY_WOWSHARE eq_refl) as H2.
  unfold bit in *. rewrite H1, H2. f_equal. rewrite Z.land_lor_distr_l. change (Z.land KEY_DELETED KEY_DELETED) with KEY_DELETED.
  apply negb_true_iff, Z.eqb_neq. intros H. apply Z.lor_eq_0_iff in H as [_ H]. done.
Qed.

(** Predefined keys keep their names. *)
Definition stays_named (s s' : reg) : Prop := forall r k n par,
  rs_heap s !! r = Some k -> rflag k KEY_PREDEF = true -> named (w_keys (view s)) r n par -> named (w_keys (view s')) r n par.

Lemma predef_trans s0 s1 s2 : predefs s0 s1 -> stays_named s0 s1 -> stays_named s1 s2 -> stays_named s0 s2.
Proof.
  intros P K0 K1 r k n par Hk Hp Hn. pose proof (K0 r k n par Hk Hp Hn) as Hn1. destruct Hn1 as (x & Hx & En). destruct (heap_view _ _ _ Hx) as (k1 & Hk1 & _).
  destruct (P r k1 Hk1) as (k0 & Hk0 & E). rewrite Hk in Hk0. injection Hk0 as <-. apply (K1 r k1); [done | congruence | by exists x].
Qed.

(** What the deletion of [p], a subkey of [q], changes at most. *)
Abbreviation deletion := (spares REG_NOTIFY_CHANGE_NAME).

(** Unlinking [p] from [q]. *)
Lemma unlink_deletion p x q y l nb s s1 s2 k (T : Z -> Prop) : rs_heap s !! p = Some k ->
  updk p (fun k => with_flags (Z.lor (kflags k) KEY_DELETED) k) s = Some (tt, s1) -> same_rest s1 s2 -> view s2 = unlinked p x q y l nb (view s) ->
  deletion (fun r => r = p \/ r = q) T s s2.
Proof.
  intros Hk (k0 & s' & [Hk0 ->]%fread_some & [= <-])%fbind_some Hr Ev r. destruct (decide (r = p)) as [-> | Hrp]; [auto |]. destruct (decide (r = q)) as [-> | Hrq]; [auto |].
  right; left. transitivity (rs_heap (set_heap (<[p := with_flags (Z.lor (kflags k0) KEY_DELETED) k0]> (rs_heap s)) s) !! r); [| cbn; by rewrite lookup_insert_ne].
  apply same_key; [done |]. rewrite Ev, unlinked_other, view_put, lookup_put_ne by done. done.
Qed.

(** The key itself, when nothing is below it. *)
Lemma runs_delete_leaf held p x q n s k (Q : bool -> reg -> Prop) :
  inv held (view s) -> w_keys (view s) !! p = Some x -> c_name x = Some (mkName n (InKey q)) -> c_subs x = [] -> rs_heap s !! p = Some k -> rflag k KEY_PREDEF = false ->
  (forall s', inv held (view s') -> deletes p q true (view s) (view s') -> stays_named s s' -> deletion (fun r => r = p \/ r = q) (above (w_keys (view s)) q) s s' ->
     (exists s1, view s1 = view s' /\ touch_key q REG_NOTIFY_CHANGE_NAME s1 = Some (tt, s')) -> Q true s') ->
  runs (do _ <- updk p (fun k => with_flags (Z.lor (kflags k) KEY_DELETED) k);
        do _ <- unlink_named_object alloc_ok (release_object alloc_ok) p;
        do _ <- touch_key q REG_NOTIFY_CHANGE_NAME;
        fret true) s Q.
Proof.
  intros Hi Hx Hn Hs Hk Hpre HQ. pose proof (i_tree _ _ _ Hi) as Ht. assert (Hnm : named (w_keys (view s)) p n (InKey q)) by (by exists x).
  destruct (subs_split casemap _ p n q Ht Hnm) as (Hpq & y & l1 & l2 & Hy & E & Hl1 & _ & _ & Hroom & Hmin).
  destruct (inv_deleted casemap held _ p x q y n l1 l2 Hi Hx Hn Hy Hs E) as [Hm Hi'].
  rbind. eapply runs_mono; [eapply runs_both; [eapply (runs_write p _ (cdel x) x s (fun _ s' => view s' = put p (cdel x) (view s))); [exact Hx | intros ? <-; apply flag_deleted | intros s' H; exact H] | intros u s' H; exact H] |].
  intros [] s1 [E1 R1]. rbind. eapply runs_mono.
  { apply (runs_along same_rest); [apply unlink_along; [apply _ | apply same_rest_links | intros c; apply release_along; [apply _ | apply same_rest_links]] |].
    eapply (runs_unlink casemap alloc_ok p (cdel x) q y n l1 l2 s1 (fun _ s' => exists nb, Z.of_nat (length (l1 ++ l2)) <= nb /\ (nb = 0 \/ MIN_SUBKEYS <= nb) /\ view s' = unlinked p (cdel x) q y (l1 ++ l2) nb (view s1)));
      [rewrite E1; cbn; by rewrite lookup_insert_eq | done | rewrite E1, lookup_put_ne by done; done | done | done | done | done | done | done | eauto]. }
  intros [] s2 [(nb & Hnb & Hnb' & E2) R2].
  assert (E2' : view s2 = unlinked p (cdel x) q y (l1 ++ l2) nb (view s)).
  { rewrite E2, E1. unfold unlinked. by rewrite dec_put_eq. }
  pose proof (Hi' nb Hnb Hnb') as Hi2. rewrite <- E2' in Hi2.
  assert (D : deletes p q true (view s) (view s2)) by (rewrite E2'; by eapply unlinked_deletes).
  destruct (parent_named casemap _ _ _ _ Ht Hnm) as (nq & par & Hq). destruct (chain_exists casemap _ q nq par Ht Hq) as (l & Hl & _).
  pose proof (deletes_chain _ _ _ _ _ _ _ Ht Hnm D Hl) as Hl2. destruct (chain_named _ _ _ Hl2) as (k2 & par2 & Hk2).
  assert (El : exists ups, l = q :: ups) by (inversion Hl; eauto). destruct El as [ups ->].
  rbind. eapply runs_mono; [eapply runs_both; [eapply (runs_touch_key casemap q k2 par2 REG_NOTIFY_CHANGE_NAME s2 (fun _ s' => view s' = view s2)); [apply (i_tree _ _ _ Hi2) | exact Hk2 | done] | intros u s' H; exact H] |].
  intros [] s3 [E3 R3]. apply runs_ret. apply HQ; rewrite ?E3; [done | done | | | by exists s2].
  - intros r kr m pm Hkr Hpr Hrn. rewrite E3, E2'. assert (Hrp : r <> p) by (intros ->; congruence). destruct (decide (r = q)) as [-> | Hrq].
    + destruct Hrn as (z & Hz & Ez). rewrite Hy in Hz. injection Hz as <-. eexists. cbn. by rewrite lookup_insert_eq.
    + destruct Hrn as (z & Hz & Ez). exists z. by rewrite unlinked_other.
  - transitivity s2; [by eapply unlink_deletion |]. eapply spares_mono; [eapply (touch_spares casemap); [apply (i_tree _ _ _ Hi2) | exact Hk2 | exact Hl2 | exact R3] | intros r <-; by right |].
    intros r Hr. right. by exists (q :: ups).
Qed.

Lemma dom_size (m m' : gmap Z core) : (forall r z', m' !! r = Some z' -> is_Some (m !! r)) -> (size m' <= size m)%nat.
Proof.
  intros H. rewrite <- !size_dom. apply subseteq_size. intros r [z Hz]%elem_of_dom. apply elem_of_dom. by eapply H.
Qed.

Lemma deletes_size p q ok w w' : deletes p q ok w w' -> (size (w_keys w') <= size (w_keys w))%nat.
Proof. intros D. apply dom_size. intros r z' H. destruct (de_names _ _ _ _ _ D r z' H) as (z & Hz & _). eauto. Qed.

Lemma pruned_size p x w w' : pruned p x w w' -> (size (w_keys w') <= size (w_keys w))%nat.
Proof. intros P. apply dom_size. intros r z' H. destruct (pr_names _ _ _ _ P r z' H) as (z & Hz & _). eauto. Qed.

(** What [delete_key] does to a key with core [x]. *)
Definition delete_post (p : Z) (x : core) (ok : bool) (w w' : world) : Prop :=
  match c_name x with
  | Some (mkName _ (InKey q)) => deletes p q ok w w'
  | _ => w' = w
  end.

(** What it does in all: predefined keys keep their names, and nothing changes outside the
    branch and the parent but what the keys above are told. *)
Record delete_effect (p : Z) (x : core) (recurse ok : bool) (s s' : reg) : Prop := mkDeleteEffect {
  fx_post : delete_post p x ok (view s) (view s');
  fx_predef : stays_named s s';
  fx_subs : recurse = false -> c_subs x <> [] -> ok = false;
  fx_touch n q : c_name x = Some (mkName n (InKey q)) -> ok = true -> exists s1, view s1 = view s' /\ touch_key q REG_NOTIFY_CHANGE_NAME s1 = Some (tt, s');
  fx_still : recurse = false -> ok = false -> rs_heap s' = rs_heap s;
  fx_spares n q : c_name x = Some (mkName n (InKey q)) -> deletion (fun r => below (w_keys (view s)) p r \/ r = q) (above (w_keys (view s)) q) s s'
}.

Lemma effect_nothing p x recurse s s' : rs_heap s' = rs_heap s -> delete_post p x false (view s) (view s') -> delete_effect p x recurse false s s'.
Proof.
  intros E D. split; [done | | done | done | done |].
  - intros r k n par _ _. unfold view. by rewrite E.
  - intros n q _ r. right; left. by rewrite E.
Qed.

(** Why a key is not deleted: it or a key below it is predefined, or it has subkeys that are
    not to be deleted, or it is the root. *)
Definition delete_blocked (p : Z) (x : core) (recurse : bool) (s : reg) : Prop :=
  (exists r k, below (w_keys (view s)) p r /\ rs_heap s !! r = Some k /\ rflag k KEY_PREDEF = true) \/
  (recurse = false /\ c_subs x <> []) \/ (exists n, c_name x = Some (mkName n InDirectory)).

(** The loop over the subkeys, when deleting each of them is understood. *)
Section Subkeys.
Context (fuel : nat) (held : list Z) (N : nat) (p : Z) (x : core) (q : Z) (n : wstr) (s0 : reg) (l : list Z).
Let w0 := view s0.
Context (Ht0 : tree (w_keys w0)) (Hx0 : w_keys w0 !! p = Some x) (Hn : c_name x = Some (mkName n (InKey q))) (Hl : chain (w_keys w0) p l).
Context (HN : (size (w_keys w0) <= N)%nat) (Hfuel : (N < S fuel + length l)%nat).
Context (IH : forall c z s (Q : bool -> reg -> Prop), inv held (view s) -> w_keys (view s) !! c = Some z -> (size (w_keys (view s)) <= N)%nat ->
  (c_name z = None -> (1 <= fuel)%nat) -> (forall l, chain (w_keys (view s)) c l -> (N < fuel + length l)%nat) ->
  (forall ok s', inv held (view s') -> delete_effect c z true ok s s' -> (ok = false -> delete_blocked c z true s) -> Q ok s') -> runs (delete_loop alloc_ok fuel c true) s Q).

Let subkeys : nat -> R bool :=
  fix subkeys n : R bool :=
    do k <- getk p;
    match n, last (rk_subkeys k) with
    | _, None => fret true
    | O, _ => fread None
    | S n', Some c => do ok <- delete_loop alloc_ok fuel c true; if (ok : bool) then subkeys n' else fret false
    end.

Lemma runs_delete_subkeys k s (Q : bool -> reg -> Prop) :
  inv held (view s) -> pruned p x w0 (view s) -> predefs s0 s -> stays_named s0 s -> deletion (below (w_keys w0) p) (above (w_keys w0) p) s0 s ->
  (forall z, w_keys (view s) !! p = Some z -> (length (c_subs z) <= k)%nat) ->
  (forall ok s', inv held (view s') -> pruned p x w0 (view s') -> predefs s0 s' -> stays_named s0 s' -> deletion (below (w_keys w0) p) (above (w_keys w0) p) s0 s' ->
     (ok = true -> forall z, w_keys (view s') !! p = Some z -> c_subs z = []) -> (ok = false -> delete_blocked p x true s0) -> Q ok s') -> runs (subkeys k) s Q.
Proof using Ht0 Hx0 Hn Hl HN Hfuel IH.
  assert (Hnm : named (w_keys w0) p n (InKey q)) by (by exists x).
  revert s Q. induction k as [| k IHk]; intros s Q Hi P Hpre Hkp Hsp Hk HQ; destruct (pr_self _ _ _ _ P) as (subs & nb & wow & Hp); pose proof (Hk _ Hp) as Hlen; cbn in Hlen; cbn [subkeys];
    rbind; (eapply runs_core; [exact Hp |]); intros rk Hrk Erk; (assert (Es : rk_subkeys rk = subs) by (by apply (f_equal c_subs) in Erk)); rewrite Es.
  - destruct subs; [| cbn in Hlen; lia]. cbn. apply runs_ret. apply HQ; [done.. | | done]. intros _ z Hz. rewrite Hp in Hz. by injection Hz as <-.
  - destruct (last subs) as [c |] eqn:El.
    2:{ apply last_None in El as ->. apply runs_ret. apply HQ; [done.. | | done]. intros _ z Hz. rewrite Hp in Hz. by injection Hz as <-. }
    apply last_Some in El as [subs' ->]. pose proof (i_tree _ _ _ Hi) as Ht.
    destruct (tr_down _ _ Ht p _ c Hp) as [nc Hc]; [apply elem_of_app; right; by left |]. pose proof Hc as (z & Hz & Ez).
    pose proof (pruned_chain p x n _ w0 (view s) l Ht0 Hnm Hx0 P Hl) as Hl'. pose proof (pruned_size _ _ _ _ P) as Hsz.
    rbind. eapply runs_mono.
    { apply (runs_along predefs); [apply predefs_delete |].
      apply (IH c z s (fun ok s' => inv held (view s') /\ delete_effect c z true ok s s' /\ (ok = false -> delete_blocked c z true s)) Hi Hz); [fold w0 in Hsz; lia | congruence | | auto].
      intros l2 Hl2. rewrite (chain_fun _ _ _ _ Hl2 (chain_up _ _ _ _ _ Hc Hl')). cbn. lia. }
    intros ok s1 [(Hi1 & Fx & Hbl) Hpre1]. pose proof (fx_post _ _ _ _ _ _ Fx) as D. unfold delete_post in D. rewrite Ez in D.
    assert (Hpre' : predefs s0 s1) by (by etransitivity). assert (Hkp' : stays_named s0 s1) by (eapply predef_trans; [exact Hpre | done | apply (fx_predef _ _ _ _ _ _ Fx)]).
    assert (Hb : below (w_keys w0) p p) by (exists l; split; [done | by eapply chain_self]).
    assert (Hbc : forall r, below (w_keys (view s)) c r -> below (w_keys w0) p r).
    { intros r (l1 & Hl1 & Hin). exists l1. split; [eapply chain_earlier; [exact Hl1 | apply (pr_names _ _ _ _ P)] | by eapply chain_closed]. }
    assert (Hsp' : deletion (below (w_keys w0) p) (above (w_keys w0) p) s0 s1).
    { etransitivity; [exact Hsp |]. eapply spares_mono; [apply (fx_spares _ _ _ _ _ _ Fx nc p Ez) | intros r [Hr | ->]; auto |].
      intros r (l1 & Hl1 & Hr). right. rewrite (chain_fun _ _ _ _ Hl1 Hl') in Hr. by exists l. }
    assert (P1 : pruned p x w0 (view s1)).
    { by eapply pruned_step. }
    destruct ok.
    + apply IHk; [done.. | | done]. intros z1 Hz1.
      destruct (de_parent _ _ _ _ _ D _ Hp) as (y' & Hy' & nb' & wow' & ->). rewrite Hy' in Hz1. injection Hz1 as <-. cbn [c_subs csubs].
      assert (Hlt : (length (filter (fun d => d <> c) (subs' ++ [c])) < length (subs' ++ [c]))%nat).
      { apply length_filter_lt with c; [apply elem_of_app; right; by left | auto]. }
      lia.
    + apply runs_ret. apply HQ; [done.. |]. intros _. left. destruct (Hbl eq_refl) as [(r & k1 & Hr1 & Hr & Hpd) | [[? _] | [? ?]]]; [| done | congruence].
      destruct (Hpre r k1 Hr) as (k0 & Hk0 & Hpd0). exists r, k0. split_and!; [by apply Hbc | done | congruence].
Qed.
End Subkeys.

Lemma runs_delete_loop fuel held N recurse : forall p x s (Q : bool -> reg -> Prop),
  inv held (view s) -> w_keys (view s) !! p = Some x -> (size (w_keys (view s)) <= N)%nat ->
  (c_name x = None -> (1 <= fuel)%nat) -> (forall l, chain (w_keys (view s)) p l -> (N < fuel + length l)%nat) ->
  (forall ok s', inv held (view s') -> delete_effect p x recurse ok s s' -> (ok = false -> delete_blocked p x recurse s) -> Q ok s') -> runs (delete_loop alloc_ok fuel p recurse) s Q.
Proof.
  revert recurse. induction fuel as [| fuel IH]; intros recurse p x s Q Hi Hx HN Hf Hl HQ.
  { destruct (c_name x) as [[n par] |] eqn:En; [| specialize (Hf eq_refl); lia]. exfalso. pose proof (i_tree _ _ _ Hi) as Ht.
    destruct (chain_exists casemap _ p n par Ht) as (l & Hc & Hlen); [by exists x |]. specialize (Hl l Hc). lia. }
  pose proof (i_tree _ _ _ Hi) as Ht. destruct (tr_del _ _ Ht p x Hx) as [Hd _]. cbn [delete_loop]. rbind. eapply runs_core; [exact Hx |]. intros k Hk Ek.
  assert (Ed : rflag k KEY_DELETED = c_del x) by (by rewrite <- Ek). rewrite Ed.
  destruct (c_del x) eqn:Edel.
  { apply runs_ret. apply HQ; [done | | done]. pose proof (proj1 Hd eq_refl) as En. split; try done; [unfold delete_post; by rewrite En | by intros r ? ? | | congruence].
    intros _ Hs. destruct Hs. by apply (tr_del _ _ Ht p x Hx). }
  destruct (c_name x) as [[n par] |] eqn:En; [| by discriminate (proj2 Hd eq_refl)]. assert (Hnm : named (w_keys (view s)) p n par) by (by exists x).
  rbind. eapply runs_get_parent; [exact Hnm |].
  assert (Hnone : forall e, delete_blocked p x recurse s -> runs (do _ <- set_error e; fret false) s Q).
  { intros e Hb. eexists false, _. split; [reflexivity |]. apply HQ; [done | | done]. apply effect_nothing; [done |]. unfold delete_post. rewrite En. destruct par as [| q |]; try done. apply deletes_nothing. }
  destruct par as [| q |]; [by destruct (tr_par _ _ Ht p n NoParent) | | apply Hnone; right; right; by exists n].
  destruct (chain_exists casemap _ p n _ Ht Hnm) as (l & Hc & _). assert (Hself : below (w_keys (view s)) p p) by (exists l; split; [done | by eapply chain_self]).
  destruct (rflag k KEY_PREDEF) eqn:Epre; [apply Hnone; left; by exists p, k |]. assert (Es : rk_subkeys k = c_subs x) by (by rewrite <- Ek).
  rbind. destruct recurse.
  - eapply (runs_delete_subkeys fuel held N p x q n s l Ht Hx En Hc HN (Hl l Hc)); [| exact Hi | by apply pruned_refl | reflexivity | by intros r ? ? | reflexivity | |].
    + intros c z s0 Q0. by apply IH.
    + intros z Hz. rewrite Hx in Hz. injection Hz as <-. by rewrite Es.
    + intros ok s1 Hi1 P1 Hpre1 Hkp1 Hsp1 Hsub Hbl. assert (Hsp : deletion (fun r => below (w_keys (view s)) p r \/ r = q) (above (w_keys (view s)) q) s s1).
      { eapply spares_mono; [exact Hsp1 | auto |]. intros r Hr. destruct (above_up _ _ _ _ _ Hnm Hr) as [-> | ?]; auto. }
      destruct ok; cbn [negb].
      * destruct (pr_self _ _ _ _ P1) as (l1 & nb & wow & Hp1). pose proof (Hsub eq_refl _ Hp1) as Hnil. cbn in Hnil. subst l1.
        destruct (heap_view _ _ _ Hp1) as (k1 & Hk1 & _). destruct (Hpre1 p k1 Hk1) as (k0 & Hk0 & Ep). rewrite Hk in Hk0. injection Hk0 as <-.
        eapply runs_delete_leaf; [exact Hi1 | exact Hp1 | exact En | done | exact Hk1 | congruence |]. intros s2 Hi2 D Hkp2 Hsp2 Hto. apply HQ; [done | | done]. split; try done.
        -- unfold delete_post. rewrite En. by eapply pruned_deletes.
        -- by eapply predef_trans.
        -- intros n' q' E' _. rewrite En in E'. by injection E' as <- <-.
        -- intros n' q' E'. rewrite En in E'. injection E' as <- <-. etransitivity; [exact Hsp |]. eapply spares_mono; [exact Hsp2 | intros r [-> | ->]; auto |]. intros r (l1 & Hl1 & Hr). right.
           pose proof (pruned_chain p x n _ (view s) (view s1) l Ht Hnm Hx P1 Hc) as Hc1. destruct (chain_parent _ _ _ _ _ Hnm Hc) as (l2 & -> & Hq2).
           destruct (chain_parent _ _ n q _ ltac:(by eexists) Hc1) as (l3 & [= <-] & Hq3). exists l2. by rewrite (chain_fun _ _ _ _ Hl1 Hq3) in Hr.
      * apply runs_ret. apply HQ; [done | | done]. split; try done.
        -- unfold delete_post. rewrite En. eapply pruned_deletes; [exact Ht | exact Hx | exact En | exact P1 | apply deletes_nothing].
        -- intros n' q' E'. rewrite En in E'. by injection E' as <- <-.
  - rewrite Es. destruct (c_subs x) as [| c subs] eqn:Ec.
    + apply runs_ret. cbn [negb]. eapply runs_delete_leaf; [exact Hi | exact Hx | exact En | done | exact Hk | done |]. intros s2 Hi2 D Hkp2 Hsp2 Hto. apply HQ; [done | | done]. split; try done.
      * unfold delete_post. by rewrite En.
      * intros n' q' E' _. rewrite En in E'. by injection E' as <- <-.
      * intros n' q' E'. rewrite En in E'. injection E' as <- <-. eapply spares_mono; [exact Hsp2 | intros r [-> | ->]; auto | auto].
    + rbind. eexists tt, _. split; [reflexivity |]. apply runs_ret. cbn [negb]. apply runs_ret. apply HQ; [done | | intros _; right; left; by rewrite Ec]. apply effect_nothing; [done |]. unfold delete_post. rewrite En. apply deletes_nothing.
Qed.

Lemma runs_delete_key held p x recurse s (Q : bool -> reg -> Prop) :
  inv held (view s) -> w_keys (view s) !! p = Some x ->
  (forall ok s', inv held (view s') -> delete_effect p x recurse ok s s' -> (ok = false -> delete_blocked p x recurse s) -> Q ok s') -> runs (delete_key alloc_ok p recurse) s Q.
Proof.
  intros Hi Hx HQ. unfold delete_key. rbind. apply runs_heap_size. eapply runs_delete_loop; [exact Hi | exact Hx | reflexivity | lia | | done].
  intros l Hl. lia.
Qed.
End Delete.
