(* ===== verification/RegKeyLookup.v ===== *)
(** * Finding registry keys by name

    Lookups end, give back the references they take, and stop at a key that has no subkey
    of the name left, as long as links stay inside the registry and, for a 32-bit program,
    no link lies beside a shared key. *)

From stdpp Require Import base list gmap.
From Stdlib Require Import ZArith Lia ZifyBool Sorted.
From S2P Require Import Prelude Fallible Atom AtomProofs RegValue RegValueProofs RegKey RegKeyProofs RegKeyTree RegKeyRefs RegKeyChange.

Open Scope Z_scope.
Open Scope fallible_scope.

(** ** Errors are left alone *)

Definition same_error (s s' : reg) : Prop := rs_error s' = rs_error s.

#[export] Instance same_error_preorder : PreOrder same_error.
Proof. split; [done |]. intros a b c H1 H2. unfold same_error in *. congruence. Qed.

Lemma updk_same_error p f : along same_error (updk p f).
Proof. apply updk_along. by intros s k. Qed.

Lemma release_same_error alloc_ok p : along same_error (release_object alloc_ok p).
Proof. apply release_along; [apply _ | by split]. Qed.

(** ** Elements of a path *)

Lemma element_split path : exists after, path = (path_element path).1 ++ (path_element path).2 /\ (path_element path).2 = after /\ (after = [] \/ exists r, after = backslash :: r).
Proof.
  eexists. split_and!; [| reflexivity |].
  - induction path as [| c path IH]; cbn; [done |]. destruct (c =? backslash); cbn; [done |]. by rewrite <- IH.
  - induction path as [| c path IH]; cbn; [by left |]. destruct (Z.eqb_spec c backslash) as [-> | _]; cbn; [right; eauto | done].
Qed.

Lemma element_again path : path_element (path_element path).1 = ((path_element path).1, []).
Proof. induction path as [| c path IH]; cbn; [done |]. destruct (c =? backslash) eqn:E; cbn; [done |]. by rewrite E, IH. Qed.

Lemma skip_bound name : (length (skip_backslashes name) <= length name)%nat.
Proof. induction name as [| c name IH]; cbn; [done |]. destruct (c =? backslash); cbn; lia. Qed.

(** What is left after an element is shorter. *)
Lemma rest_bound path : skip_backslashes (path_element path).2 <> [] -> (length (skip_backslashes (path_element path).2) < length path)%nat.
Proof.
  intros Hne. destruct (element_split path) as (after & E & Ea & [-> | [r ->]]); rewrite Ea in *; [done |]. apply (f_equal length) in E. rewrite length_app in E. cbn in *. pose proof (skip_bound r). lia.
Qed.

Lemma lower_nil casemap n t : lower casemap n = lower casemap t -> n <> [] -> t <> [].
Proof. intros E Hn ->. by destruct n. Qed.

Lemma inv_perm casemap held held' w : held ≡ₚ held' -> inv casemap held w -> inv casemap held' w.
Proof.
  intros Hp Hi. assert (E : forall p, nheld held' p = nheld held p) by (intros p; unfold nheld; by rewrite Hp).
  destruct Hi as [H1 H2 H3 H4 H5 H6]. split; try done.
  - intros p x Hx. rewrite E. by apply H2.
  - intros p. rewrite <- Hp. apply H4.
Qed.

(** ** Lookups *)

Section Lookup.
Context (casemap : Z -> Z) (alloc_ok : nat -> bool) (dir_lookup : wstr -> Z -> dir_answer).
Context (dir_errors : forall path attr, dir_lookup path attr <> DirError 0).
Abbreviation tree := (tree casemap).
Abbreviation inv := (inv casemap).
Abbreviation low := (lower casemap).

(** Where a 32-bit program looks on in the parent of a shared key, it finds no link. *)
Definition calm (attr : Z) (m : gmap Z core) : Prop :=
  bit attr OBJ_KEY_WOW64 = true -> forall c x n up d y k,
    m !! c = Some x -> c_name x = Some (mkName n (InKey up)) -> c_share x = true ->
    m !! d = Some y -> c_name y = Some (mkName k (InKey up)) -> c_link y = false.

(** Links lead to nothing but keys. *)
Definition inside (m : gmap Z core) : Prop :=
  forall p x v path rem, m !! p = Some x -> c_link x = true -> v ∈ c_vals x -> bytes_units (v_data v) = backslash :: path ->
    dir_lookup path OBJ_CASE_INSENSITIVE <> DirOther rem.

Section World.
Context (w0 : world) (Ht0 : tree (w_keys w0)) (Hin : inside (w_keys w0)).

(** The key is no link, and has no subkey of the name left. *)
Definition settled (p : Z) (rem : option wstr) : Prop :=
  exists x, w_keys w0 !! p = Some x /\ c_del x = false /\ c_link x = false /\
    (rem = None \/ exists t, rem = Some t /\ namelen t <= MAX_NAME_LEN * 2 /\ path_element t = (t, []) /\ free_name casemap (w_keys w0) p t).

(** Where a lookup may stop. *)
Definition halted (attr : Z) (p : Z) (rem : option wstr) : Prop :=
  settled p rem \/ (empty_name rem = true /\ bit attr OBJ_OPENLINK = true).

(** [k] more rounds are enough. *)
Inductive within (p : Z) (name : option wstr) (k : nat) : Prop :=
  | within_start : (2 * length (default [] name) + 4 <= k)%nat -> within p name k
  | within_plain x : w_keys w0 !! p = Some x -> c_link x = false -> (2 * length (default [] name) + 3 <= k)%nat -> within p name k
  | within_settled : settled p name -> (2 <= k)%nat -> within p name k
  | within_ends x : w_keys w0 !! p = Some x -> c_link x = false ->
      (name = None \/ (c_share x = false /\ exists path, name = Some path /\ free_name casemap (w_keys w0) p (path_element path).1)) ->
      (1 <= k)%nat -> within p name k.

Lemma held_core held p s : steady w0 (view s) -> inv (p :: held) (view s) ->
  exists x r, w_keys w0 !! p = Some x /\ w_keys (view s) !! p = Some (cref r x).
Proof.
  intros Hs Hi. destruct (i_held _ _ _ Hi p) as [x Hx]; [by left |]. destruct (sd_back _ _ Hs p x Hx) as (x0 & H0 & E). exists x0, (c_ref x). split; [done |].
  rewrite Hx. f_equal. destruct x, x0. unfold cref in *. cbn in *. by injection E as -> -> -> -> -> -> -> -> -> ->.
Qed.

Lemma named_there s c n par : steady w0 (view s) -> named (w_keys w0) c n par ->
  exists x r, w_keys w0 !! c = Some x /\ w_keys (view s) !! c = Some (cref r x) /\ c_name x = Some (mkName n par).
Proof.
  intros Hs (x & Hx & En). destruct (sd_there _ _ Hs c x Hx ltac:(congruence)) as (x' & Hx' & E). exists x, (c_ref x'). split_and!; [done | | done].
  rewrite Hx'. f_equal. destruct x, x'. unfold cref in *. cbn in *. by injection E as -> -> -> -> -> -> -> -> -> ->.
Qed.

Lemma alive_named p x : w_keys w0 !! p = Some x -> c_del x = false -> exists n par, named (w_keys w0) p n par /\ c_name x = Some (mkName n par).
Proof using Ht0.
  intros Hx Hd. destruct (tr_del _ _ Ht0 p x Hx) as [H _]. destruct (c_name x) as [[n par] |] eqn:E; [| rewrite (proj2 H eq_refl) in Hd; done].
  exists n, par. split; [by exists x | done].
Qed.

Lemma named_alive p x n par : w_keys w0 !! p = Some x -> named (w_keys w0) p n par -> c_del x = false.
Proof using Ht0.
  intros Hx (z & Hz & E). rewrite Hx in Hz. injection Hz as <-. destruct (tr_del _ _ Ht0 p x Hx) as [H _]. destruct (c_del x); [| done]. rewrite (proj1 H eq_refl) in E. done.
Qed.

Lemma runs_find held p n par t s (Q : option Z * Z -> reg -> Prop) :
  steady w0 (view s) -> inv held (view s) -> named (w_keys w0) p n par -> namelen t <= MAX_NAME_LEN * 2 ->
  (forall i, free_name casemap (w_keys w0) p t -> Q (None, i) s) ->
  (forall c k i, named (w_keys w0) c k (InKey p) -> low k = low t -> Q (Some c, i) s) -> runs (find_subkey casemap p t) s Q.
Proof.
  intros Hs Hi Hp Ht HN HS. pose proof (i_tree _ _ _ Hi) as Htr. destruct (named_there _ _ _ _ Hs Hp) as (x & r & _ & Hx & _).
  eapply runs_find_subkey; [done | exact Hx | by apply short_name |]. intros f Hf. destruct f as [[c |] i].
  - inversion Hf as [l1 c' l2 k Es Hc Ek |]; subst. eapply HS; [by apply (steady_named _ _ _ _ _ Hs) | done].
  - apply HN. intros c k Hc. apply (place_free _ _ _ _ _ _ Htr Hx Hf eq_refl c). by apply (steady_named _ _ _ _ _ Hs).
Qed.

(** The parent of a shared key. *)
Lemma shared_parent p x : w_keys w0 !! p = Some x -> c_del x = false -> c_share x = true ->
  exists n q y k par, named (w_keys w0) p n (InKey q) /\ c_name x = Some (mkName n (InKey q)) /\ w_keys w0 !! q = Some y /\ c_link y = false /\ c_share y = false /\ named (w_keys w0) q k par.
Proof using Ht0.
  intros Hx Hd Hsh. destruct (alive_named p x Hx Hd) as (n & par & Hn & En). destruct (tr_share _ _ Ht0 p x n par Hx En Hsh) as (q & y & -> & Hy & H1 & H2).
  destruct (parent_named casemap _ p n q Ht0 Hn) as (k & par & Hk). by exists n, q, y, k, par.
Qed.

(** How a step of a lookup at a held key ends. *)
Definition moves (held : list Z) (attr p : Z) (k : nat) (r : option Z * option wstr) (s' : reg) : Prop :=
  steady w0 (view s') /\
  match r.1 with
  | None => inv (p :: held) (view s') /\ (rs_error s' = 0 -> halted attr p r.2)
  | Some q => inv (q :: p :: held) (view s') /\ within q r.2 k
  end.

(** How the lookup of a path ends. *)
Definition found (held : list Z) (attr : Z) (path : wstr) (r : option (robj * option wstr)) (s' : reg) : Prop :=
  steady w0 (view s') /\
  match r with
  | None => inv held (view s') /\ rs_error s' <> 0
  | Some (KeyObj q, rem) => inv (q :: held) (view s') /\ halted attr q rem
  | Some (OtherObj, rem) => inv held (view s') /\ exists c path', path = c :: path' /\ dir_lookup path' attr = DirOther rem
  end.

Definition resolves (lookup : wstr -> R (option (robj * option wstr))) : Prop :=
  forall held path s, steady w0 (view s) -> inv held (view s) -> runs (lookup path) s (found held OBJ_CASE_INSENSITIVE path).

Lemma runs_stop held attr p k e name s : steady w0 (view s) -> inv (p :: held) (view s) -> e <> 0 ->
  runs (do _ <- set_error e; fret (None, name)) s (moves held attr p k).
Proof. intros Hs Hi He. rbind. apply runs_modify. apply runs_ret. split; [done |]. by split. Qed.

Lemma runs_grab_move held attr p k c n par name s : steady w0 (view s) -> inv (p :: held) (view s) -> named (w_keys w0) c n par -> within c name k ->
  runs (do _ <- grab_object c; fret (Some c, name)) s (moves held attr p k).
Proof.
  intros Hs Hi Hc Hw. destruct (named_there _ _ _ _ Hs Hc) as (x & r & _ & Hx & _). rbind. eapply (runs_grab_inv casemap); [exact Hi | eauto |]. intros s1 Hi1 Hs1.
  apply runs_ret. split; [by eapply steady_trans | done].
Qed.

Lemma within_link p x name k : w_keys w0 !! p = Some x -> c_link x = true -> within p name (S k) -> (2 * length (default [] name) + 3 <= k)%nat.
Proof.
  intros Hx Hl [H | z Hz Hlz _ | (z & Hz & _ & Hlz & _) _ | z Hz Hlz _ _]; [lia | | |]; rewrite Hx in Hz; injection Hz as <-; congruence.
Qed.

Lemma runs_find_value x rk r s (Q : bool * Z -> reg -> Prop) :
  core_of rk = cref r x -> (exists p, w_keys w0 !! p = Some x) -> (forall f, Q f s) -> runs (fread (find_value casemap (rk_key rk) symlink_str)) s Q.
Proof using Ht0.
  intros Erk [p Hx] HQ. assert (Ev : k_values (rk_key rk) = c_vals x) by (by apply (f_equal c_vals) in Erk). destruct (tr_values _ _ Ht0 p x Hx) as [Hso Hf _ _]. cbn in Hso, Hf. rewrite <- Ev in Hso, Hf.
  unfold find_value.
  destruct (find_loop_spec casemap (length (k_values (rk_key rk))) (k_values (rk_key rk)) symlink_str 0 (Z.of_nat (length (k_values (rk_key rk))) - 1))
    as (f & Ef & _); [done | | unfold short, symlink_str; cbn; lia | lia | lia | lia | lia | intros; lia | |].
  - eapply Forall_impl; [exact Hf |]. intros v. unfold short, namelen, MAX_VALUE_LEN. lia.
  - intros j v Hj. apply lookup_lt_Some in Hj. lia.
  - eapply runs_read; [exact Ef |]. apply HQ.
Qed.

(** The end of following a link to key [q]. *)
Lemma runs_target held attr p q rem name k s :
  steady w0 (view s) -> inv (q :: p :: held) (view s) -> settled q rem -> (empty_name name = false -> empty_name rem = true) -> (2 * length (default [] name) + 3 <= k)%nat ->
  runs (let name := if empty_name name then rem else name in
        do kq <- getk q;
        if rflag kq KEY_WOWSHARE && bit attr OBJ_KEY_WOW64 && bool_decide (name = None) then
          do up <- get_parent q;
          do _ <- release_object alloc_ok q;
          do up <- fread up;
          do _ <- grab_object up;
          fret (Some up, name)
        else fret (Some q, name)) s (moves held attr p k).
Proof using Ht0.
  intros Hs Hi Hset Hne Hk. cbv zeta. set (name' := if empty_name name then rem else name).
  assert (Hw : within q name' k).
  { unfold name'. destruct (empty_name name); [apply within_settled; [done | lia] |]. destruct Hset as (y & Hy & _ & Hl & _). eapply within_plain; [exact Hy | done | lia]. }
  destruct (held_core _ _ _ Hs Hi) as (y & r & Hy & Hyv). rbind. eapply runs_core; [exact Hyv |]. intros kq _ Ekq.
  destruct (rflag kq KEY_WOWSHARE && _ && _) eqn:Esh; [| by apply runs_ret]. apply andb_true_iff in Esh as [Esh Enone]. apply andb_true_iff in Esh as [Esh _].
  apply bool_decide_eq_true in Enone. rewrite Enone.
  assert (Hsh : c_share y = true) by (apply (f_equal c_share) in Ekq; cbn in Ekq; congruence).
  assert (Hd : c_del y = false) by (destruct Hset as (z & Hz & Hd & _); rewrite Hy in Hz; injection Hz as <-; exact Hd).
  destruct (shared_parent q y Hy Hd Hsh) as (n & up & z & l & par & Hn & En & Hz & Hlz & _ & Hup). rbind. eapply runs_get_parent; [by apply (steady_named _ _ _ _ _ Hs) |].
  rbind. eapply (runs_release_inv casemap); [exact Hi |]. intros s1 Hi1 Hs1. rbind. eapply runs_read; [done |].
  eapply runs_grab_move; [by eapply steady_trans | done | exact Hup |]. eapply within_ends; [exact Hz | done | by left | lia].
Qed.

Lemma runs_follow_link lookup held attr p x r rk name k s :
  resolves lookup -> steady w0 (view s) -> inv (p :: held) (view s) -> w_keys w0 !! p = Some x -> c_link x = true -> core_of rk = cref r x ->
  within p name (S k) -> runs (follow_link casemap alloc_ok lookup rk name attr) s (moves held attr p k).
Proof using Ht0 Hin.
  intros Hlk Hs Hi Hx Hl Erk Hw. pose proof (within_link p x name k Hx Hl Hw) as Hk.
  assert (Ev : k_values (rk_key rk) = c_vals x) by (by apply (f_equal c_vals) in Erk).
  unfold follow_link. rbind. eapply runs_find_value; [exact Erk | eauto |]. intros f.
  destruct (if f.1 then _ else None) as [v |] eqn:Efv; [| by apply runs_stop].
  assert (Hv : v ∈ c_vals x) by (rewrite <- Ev; destruct f.1; [by eapply list_elem_of_lookup_2 | done]).
  destruct (bytes_units (v_data v)) as [| c target] eqn:Et; [by apply runs_stop |]. destruct (Z.eqb_spec c backslash) as [-> | _]; [| by apply runs_stop].
  rbind. ruse (Hlk (p :: held) (backslash :: target) s Hs Hi). intros res s1 [Hs1 Hres]. destruct res as [[[q |] rem] |].
  - destruct Hres as [Hi1 [Hset | [_ H]]]; [| done].
    destruct (negb (empty_name name) && negb (empty_name rem)) eqn:Eleft.
    + rbind. eapply (runs_release_inv casemap); [exact Hi1 |]. intros s2 Hi2 Hs2. apply runs_stop; [by eapply steady_trans | done | done].
    + apply runs_target with (rem := rem); try done. intros E. rewrite E in Eleft. cbn in Eleft. by apply negb_false_iff in Eleft.
  - destruct Hres as [Hi1 (c & path' & [= <- <-] & Hdir)]. by destruct (Hin p x v target rem Hx Hl Hv Et).
  - destruct Hres as [Hi1 He]. apply runs_ret. split; [done |]. by split.
Qed.

Lemma within_found p path c n k : named (w_keys w0) c n (InKey p) -> low n = low (path_element path).1 -> within p (Some path) (S k) ->
  (2 * length path + 2 <= k)%nat /\ path <> [].
Proof using Ht0.
  intros Hc En Hw. assert (Hne : path <> []).
  { destruct (tr_names _ _ Ht0 c n p Hc) as [Hn _]. pose proof (lower_nil casemap _ _ En Hn). by intros ->. }
  split; [| done]. destruct Hw as [H | z _ _ H | (z & _ & _ & _ & [Hno | (t & [= <-] & _ & Et & Hf)]) _ | z _ _ [Hno | (_ & t & [= <-] & Hf)] _]; [cbn in H; lia | cbn in H; lia | done | | done |].
  - rewrite Et in En. by destruct (Hf c n).
  - by destruct (Hf c n).
Qed.

Lemma within_shared p x path k : w_keys w0 !! p = Some x -> c_share x = true -> within p (Some path) (S k) ->
  (1 <= k)%nat /\ (skip_backslashes (path_element path).2 = [] \/ (2 * length path + 2 <= k)%nat).
Proof.
  intros Hx Hsh [H1 | z _ _ H1 | (z & _ & _ & _ & [Hno | (t & [= <-] & _ & Et & Hf)]) H1 | z Hz _ [Hno | (Hs & _)] _]; [cbn in H1; lia | cbn in H1; lia | done | | done |].
  - rewrite Et. split; [lia | by left].
  - rewrite Hx in Hz. injection Hz as <-. congruence.
Qed.

(** The subkey found, in the key or beside it when it is shared. *)
Definition element_found (held : list Z) (p : Z) (path : wstr) (k : nat) (f : option Z + Z) (s' : reg) : Prop :=
  steady w0 (view s') /\
  match f with
  | inr up => inv (up :: p :: held) (view s') /\ within up (Some path) k
  | inl None => inv (p :: held) (view s') /\ free_name casemap (w_keys w0) p (path_element path).1
  | inl (Some c) => inv (p :: held) (view s') /\ (exists n par, named (w_keys w0) c n par) /\
      let rest := skip_backslashes (path_element path).2 in
      (rest = [] -> within c None k) /\ (rest <> [] -> (2 * length rest + 4 <= k)%nat)
  end.

Lemma runs_element held attr p x r rk path k s :
  calm attr (w_keys w0) -> steady w0 (view s) -> inv (p :: held) (view s) -> w_keys w0 !! p = Some x -> c_del x = false -> core_of rk = cref r x ->
  within p (Some path) (S k) -> namelen (path_element path).1 <= MAX_NAME_LEN * 2 ->
  runs (do f <- find_subkey casemap p (path_element path).1;
        match f.1 with
        | Some c => fret (inl (Some c))
        | None =>
            if rflag rk KEY_WOWSHARE && bit attr OBJ_KEY_WOW64 then
              do up <- get_parent p;
              do up <- fread up;
              do g <- find_subkey casemap up (path_element path).1;
              match g.1 with
              | Some c => fret (inl (Some c))
              | None => do _ <- grab_object up; fret (inr up)
              end
            else fret (inl None)
        end) s (element_found held p path k).
Proof using Ht0.
  intros Hcalm Hs Hi Hx Hd Erk Hw Hlen. set (rest := skip_backslashes (path_element path).2). destruct (alive_named p x Hx Hd) as (n & par & Hn & En).
  rbind. eapply runs_find; [done | exact Hi | exact Hn | done | |].
  2:{ intros c l i Hc El. cbn [fst]. apply runs_ret. split; [done |]. destruct (within_found p path c l k Hc El Hw) as [Hk Hne].
      split_and!; [done | eauto |]. fold rest. split.
      - intros _. apply within_start. cbn. destruct path; [done | cbn in Hk; lia].
      - intros Hr. pose proof (rest_bound path Hr). fold rest in H. lia. }
  intros i Hfree. cbn [fst]. destruct (rflag rk KEY_WOWSHARE && bit attr OBJ_KEY_WOW64) eqn:Esh; [| by apply runs_ret].
  apply andb_true_iff in Esh as [Esh Ewow]. assert (Hsh : c_share x = true) by (apply (f_equal c_share) in Erk; cbn in Erk; congruence).
  destruct (shared_parent p x Hx Hd Hsh) as (n' & up & y & l & par' & Hn' & En' & Hy & Hly & Hsy & Hup). destruct (within_shared p x path k Hx Hsh Hw) as [Hk Hrest]. fold rest in Hrest.
  rbind. eapply runs_get_parent; [by apply (steady_named _ _ _ _ _ Hs) |]. rbind. eapply runs_read; [done |].
  rbind. eapply runs_find; [done | exact Hi | exact Hup | done | |]; cbn [fst].
  - intros j Hfree'. destruct (named_there _ _ _ _ Hs Hup) as (z & rz & _ & Hz & _). rbind. eapply (runs_grab_inv casemap); [exact Hi | eauto |].
    intros s1 Hi1 Hs1. apply runs_ret. split; [by eapply steady_trans |]. split; [done |]. eapply within_ends; [exact Hy | done | right; eauto | done].
  - intros c lc j Hc El. apply runs_ret. split; [done |]. split_and!; [done | eauto |]. fold rest. split.
    + intros _. pose proof Hc as (z & Hz & Ez). eapply within_ends; [exact Hz | exact (Hcalm Ewow p x n' up c z lc Hx En' Hsh Hz Ez) | by left | done].
    + intros Hr. destruct Hrest as [Hnil | Hrest]; [by destruct Hr |]. pose proof (rest_bound path Hr). fold rest in H. lia.
Qed.

Lemma runs_next_element held attr p x r rk path k s :
  calm attr (w_keys w0) -> steady w0 (view s) -> inv (p :: held) (view s) -> w_keys w0 !! p = Some x -> c_del x = false -> c_link x = false -> core_of rk = cref r x ->
  within p (Some path) (S k) -> runs (next_element casemap p rk path attr) s (moves held attr p k).
Proof using Ht0.
  intros Hcalm Hs Hi Hx Hd Hl Erk Hw. unfold next_element. pose proof (runs_element held attr p x r rk path k s Hcalm Hs Hi Hx Hd Erk Hw) as Hel.
  pose proof (element_again path) as Hag. unfold element_found in Hel. destruct (path_element path) as [tmp after] eqn:Ep. cbn [fst snd] in *.
  destruct (Z.ltb_spec (MAX_NAME_LEN * 2) (namelen tmp)) as [_ | Hlen]; [by apply runs_stop |]. specialize (Hel Hlen).
  set (rest := skip_backslashes after) in *.
  destruct Hel as (f & s1 & Hrun & Hs1 & Hf). apply fbind_some in Hrun as (g & s2 & Hg & Hrun). rbind. exists g, s2. split; [exact Hg |].
  rbind. exists f, s1. split; [exact Hrun |]. clear Hg Hrun g s2. destruct f as [[c |] | up].
  - destruct Hf as (Hi1 & (n & par & Hc) & Hend & Hmore). destruct rest as [| c0 rest'].
    + eapply runs_grab_move; [done | done | exact Hc | by apply Hend].
    + specialize (Hmore ltac:(done)). destruct (named_there _ _ _ _ Hs1 Hc) as (z & rz & Hz & Hzv & Ez). rbind. eapply runs_core; [exact Hzv |]. intros kc _ Ekc. cbv zeta.
      assert (Hin2 : forall w, rk_wow kc = Some w -> exists n par, named (w_keys w0) w n par).
      { intros w Ew. assert (Ewz : c_wow z = Some w) by (apply (f_equal c_wow) in Ekc; cbn in Ekc; congruence).
        destruct (tr_down _ _ Ht0 c z w Hz (tr_wow _ _ Ht0 c z w Hz Ewz)) as [l Hlw]. eauto. }
      assert (Hgo : forall d, (exists n par, named (w_keys w0) d n par) -> runs (do _ <- grab_object d; fret (Some d, Some (c0 :: rest'))) s1 (moves held attr p k)).
      { intros d (l & pl & Hd'). eapply runs_grab_move; [done | done | exact Hd' |]. by apply within_start. }
      destruct (rk_wow kc) as [w |]; [| apply Hgo; eauto]. destruct (bit attr OBJ_KEY_WOW64 && _); [apply Hgo, Hin2; done | apply Hgo; eauto].
  - destruct Hf as [Hi1 Hfree]. destruct rest as [| c0 rest']; [| by apply runs_stop]. apply runs_ret. split; [done |]. split; [done |]. intros _. left.
    exists x. split_and!; [done | done | done |]. right. by exists tmp.
  - apply runs_ret. by split.
Qed.

Lemma runs_key_lookup_name lookup held attr p name k s :
  resolves lookup -> calm attr (w_keys w0) -> steady w0 (view s) -> inv (p :: held) (view s) -> within p name (S k) ->
  runs (key_lookup_name casemap alloc_ok lookup p name attr) s (moves held attr p k).
Proof using Ht0 Hin.
  intros Hlk Hcalm Hs Hi Hw. destruct (held_core _ _ _ Hs Hi) as (x & r & Hx & Hxv). unfold key_lookup_name. rbind. eapply runs_core; [exact Hxv |]. intros rk _ Erk.
  assert (Ed : rflag rk KEY_DELETED = c_del x) by (by apply (f_equal c_del) in Erk). assert (El : rflag rk KEY_SYMLINK = c_link x) by (by apply (f_equal c_link) in Erk).
  rewrite Ed, El. destruct (c_del x) eqn:Edel; [by apply runs_stop |]. destruct (c_link x) eqn:Elink.
  - destruct (empty_name name && bit attr OBJ_OPENLINK) eqn:Eo; [| by eapply runs_follow_link]. apply andb_true_iff in Eo as [E1 E2].
    apply runs_ret. split; [done |]. split; [done |]. intros _. right. by split.
  - destruct name as [path |]; [by eapply runs_next_element |]. apply runs_ret. split; [done |]. split; [done |]. intros _. left. exists x. auto.
Qed.

Lemma within_more p name : ~ within p name 0.
Proof. intros [H | z _ _ H | _ H | z _ _ _ H]; lia. Qed.

Lemma runs_lookup_loop lookup held attr rounds : forall p name s,
  resolves lookup -> calm attr (w_keys w0) -> steady w0 (view s) -> inv (p :: held) (view s) -> within p name rounds ->
  runs (lookup_loop casemap alloc_ok lookup rounds p name attr) s
    (fun r s' => steady w0 (view s') /\ inv (r.1 :: held) (view s') /\ (rs_error s' = 0 -> halted attr r.1 r.2)).
Proof using Ht0 Hin.
  induction rounds as [| k IH]; intros p name s Hlk Hcalm Hs Hi Hw; [by apply within_more in Hw |]. cbn [lookup_loop]. rbind.
  ruse (runs_key_lookup_name lookup held attr p name k s Hlk Hcalm Hs Hi Hw). intros [[q |] name'] s1 [Hs1 H1]; cbn [fst snd] in *.
  - destruct H1 as [Hi1 Hw1]. rbind. eapply (runs_release_inv casemap); [eapply inv_perm; [apply Permutation_swap | exact Hi1] |]. intros s2 Hi2 Hs2.
    apply IH; try done. by eapply steady_trans.
  - destruct H1 as [Hi1 H1]. by apply runs_ret.
Qed.

Lemma runs_lookup_from lookup held attr p name s path :
  resolves lookup -> calm attr (w_keys w0) -> steady w0 (view s) -> inv (p :: held) (view s) ->
  runs (lookup_from casemap alloc_ok lookup p name attr) s (found held attr path).
Proof using Ht0 Hin.
  intros Hlk Hcalm Hs Hi. unfold lookup_from. rbind. apply runs_heap_size. rbind.
  ruse (runs_lookup_loop lookup held attr (2 * (length (default [] name) + size (w_keys (view s))) + 4) p name s); try done; [apply within_start; lia |].
  intros [q rem] s1 (Hs1 & Hi1 & H1); cbn [fst snd] in *. rbind. apply runs_get_error. destruct (Z.eqb_spec (rs_error s1) 0) as [E | Hne]; cbn [negb].
  - apply runs_ret. split; [done |]. split; [done | by apply H1].
  - rbind. eapply runs_mono.
    { apply (runs_along same_error); [apply release_same_error |]. apply (runs_release_inv casemap _ held q s1 (fun _ s' => inv held (view s') /\ steady (view s1) (view s'))); [done |]. auto. }
    intros [] s2 [[Hi2 Hs2] E2]. apply runs_ret. split; [by eapply steady_trans |]. split; [done |]. unfold same_error in E2. congruence.
Qed.

Lemma calm_nested m : calm OBJ_CASE_INSENSITIVE m.
Proof. intros H. done. Qed.

Lemma runs_lookup_path depth : forall held attr path s,
  calm attr (w_keys w0) -> steady w0 (view s) -> inv held (view s) -> runs (lookup_path casemap alloc_ok dir_lookup depth attr path) s (found held attr path).
Proof using Ht0 Hin dir_errors.
  assert (Hno : forall held attr path e s, steady w0 (view s) -> inv held (view s) -> e <> 0 -> runs (do _ <- set_error e; fret None) s (found held attr path)).
  { intros held attr path e s Hs Hi He. rbind. apply runs_modify, runs_ret. split; [done |]. by split. }
  induction depth as [| depth IH]; intros held attr path s Hcalm Hs Hi; (destruct path as [| c path]; cbn [lookup_path]; [by apply Hno |]);
    (destruct (c =? backslash); [| by apply Hno]); [by apply Hno |].
  rbind. apply runs_set_error. intros s1 E1. rewrite <- E1 in Hs, Hi. destruct (dir_lookup path attr) as [e | rem | rem] eqn:Ed.
  - apply Hno; [done | done |]. intros ->. by eapply dir_errors.
  - apply runs_ret. split; [done |]. split; [done |]. eauto.
  - destruct (i_root _ _ _ Hi) as (root & n & Er & Hn). rbind. apply runs_get. rbind. eapply runs_read; [exact Er |].
    rbind. eapply (runs_grab_inv casemap); [exact Hi | destruct Hn as (z & Hz & _); eauto |]. intros s2 Hi2 Hs2.
    apply runs_lookup_from; [| done | by eapply steady_trans | done]. intros held' path' s' Hs' Hi'. apply IH; [apply calm_nested | done | done].
Qed.

Lemma runs_lookup_named held attr root name s :
  calm attr (w_keys w0) -> steady w0 (view s) -> inv held (view s) -> (forall p, root = Some p -> is_Some (w_keys (view s) !! p)) ->
  runs (lookup_named_object casemap alloc_ok dir_lookup root name attr) s
    (fun r s' => steady w0 (view s') /\
       match r with
       | None => inv held (view s')
       | Some (KeyObj q, rem) => inv (q :: held) (view s') /\ (empty_name rem = true \/ settled q rem)
       | Some (OtherObj, _) => inv held (view s')
       end).
Proof using Ht0 Hin dir_errors.
  intros Hcalm Hs Hi Hroot.
  assert (Hweak : forall path (r : option (robj * option wstr)) s', found held attr path r s' -> steady w0 (view s') /\
       match r with None => inv held (view s') | Some (KeyObj q, rem) => inv (q :: held) (view s') /\ (empty_name rem = true \/ settled q rem) | Some (OtherObj, _) => inv held (view s') end).
  { intros path r s' [H1 H2]. split; [done |]. destruct r as [[[q |] rem] |]; [| by destruct H2 | by destruct H2]. destruct H2 as [H2 [H3 | [H3 _]]]; auto. }
  destruct root as [p |]; cbn [lookup_named_object].
  2:{ eapply runs_mono; [by apply runs_lookup_path | apply Hweak]. }
  specialize (Hroot p eq_refl). destruct name as [| c name].
  { rbind. eapply (runs_grab_inv casemap); [exact Hi | done |]. intros s1 Hi1 Hs1. rbind. apply runs_set_error. intros s2 E2. apply runs_ret. rewrite E2.
    split; [by eapply steady_trans |]. split; [done | by left]. }
  destruct (c =? backslash).
  { rbind. apply runs_set_error. intros s1 E1. apply runs_ret. by rewrite E1. }
  rbind. eapply (runs_grab_inv casemap); [exact Hi | done |]. intros s1 Hi1 Hs1. rbind. apply runs_set_error. intros s2 E2.
  eapply runs_mono; [| apply (Hweak [])]. apply runs_lookup_from; [| done | rewrite E2; by eapply steady_trans | by rewrite E2].
  intros held' path' s' Hs' Hi'. apply runs_lookup_path; [apply calm_nested | done | done].
Qed.
End World.
End Lookup.
