(* ===== verification/RegKeyCreate.v ===== *)
(** * Creating and opening registry keys

    A new key is linked where its name belongs; when a later step fails it is taken out
    again.  Every request ends without a fault and keeps the invariant. *)

From stdpp Require Import base list gmap.
From Stdlib Require Import ZArith Lia ZifyBool Sorted.
From S2P Require Import Prelude Fallible Atom AtomProofs RegValue RegValueProofs RegKey RegKeyProofs RegKeyTree RegKeyRefs RegKeyChange RegKeyLookup.

Open Scope Z_scope.
Open Scope fallible_scope.

(** A key as the allocator gives it. *)
Definition fresh : core := mkCore 1 0 None [] 0 None [] 0 false false false.

Definition with_fresh (w : world) : world := mkWorld (<[w_next w := fresh]> (w_keys w)) (w_open w) (w_next w + 1) (w_root w).

Definition bump (w : world) : world := mkWorld (w_keys w) (w_open w) (w_next w + 1) (w_root w).

Lemma runs_alloc_object alloc_ok s (Q : option Z -> reg -> Prop) :
  (forall s', view s' = view s -> Q None s') -> (forall s', view s' = with_fresh (view s) -> Q (Some (w_next (view s))) s') -> runs (alloc_object alloc_ok) s Q.
Proof.
  intros HN HS. unfold alloc_object. rbind. apply runs_mem_alloc. intros ok s1 E1. destruct ok; cbn [negb]; [| by apply runs_ret, HN].
  eexists _, _. split; [reflexivity |]. assert (En : rs_next s1 = w_next (view s)) by (by rewrite <- E1). rewrite En. apply HS.
  unfold with_fresh. rewrite <- E1. unfold view. cbn. rewrite fmap_insert. done.
Qed.

Lemma runs_free p s (Q : unit -> reg -> Prop) : is_Some (w_keys (view s) !! p) -> (forall s', view s' = del p (view s) -> Q tt s') -> runs (free_object p) s Q.
Proof. intros [x Hx] HQ. unfold free_object. rbind. eapply runs_core; [exact Hx |]. intros k _ _. apply runs_modify, HQ, view_del. Qed.

Section Create.
Context (casemap : Z -> Z) (alloc_ok : nat -> bool).
Abbreviation tree := (tree casemap).
Abbreviation inv := (inv casemap).
Abbreviation alike := (alike casemap).
Abbreviation all_alike := (all_alike casemap).
Abbreviation low := (lower casemap).

Lemma next_free held w : inv held w -> w_keys w !! w_next w = None.
Proof. intros Hi. destruct (w_keys w !! w_next w) eqn:E; [| done]. pose proof (i_next _ _ _ Hi (w_next w) ltac:(eauto)). lia. Qed.

Lemma next_not_held held w : inv held w -> w_next w ∉ held.
Proof. intros Hi Hin. destruct (i_held _ _ _ Hi _ Hin) as [x Hx]. rewrite (next_free _ _ Hi) in Hx. done. Qed.

Lemma next_not_open held w : inv held w -> nopen (w_open w) (w_next w) = 0%nat.
Proof.
  intros Hi. destruct (nopen (w_open w) (w_next w)) eqn:E; [done |]. exfalso. unfold nopen in E.
  destruct (filter _ (map_to_list (w_open w))) as [| [h p] l] eqn:Ef; [done |].
  assert (Hp : (h, p) ∈ filter (fun x : (Z * Z) * Z => x.2 = w_next w) (map_to_list (w_open w))) by (rewrite Ef; by left).
  apply list_elem_of_filter in Hp as [Hp Hl]. cbn in Hp. subst p. apply elem_of_map_to_list in Hl. destruct (i_open _ _ _ Hi _ _ Hl) as [x Hx].
  rewrite (next_free _ _ Hi) in Hx. done.
Qed.

Lemma inv_bump held w : inv held w -> inv held (bump w).
Proof. intros [H1 H2 H3 H4 H5 H6]. split; try done. cbn. intros p Hp. specialize (H5 p Hp). lia. Qed.

Lemma del_fresh held w : inv held w -> del (w_next w) (with_fresh w) = bump w.
Proof. intros Hi. unfold del, with_fresh, bump. cbn. by rewrite delete_insert_id by (by eapply next_free). Qed.

(** ** Linking *)

(** The parent [q] of a new key [p]. *)
Record gains (m : gmap Z core) (q p : Z) (t : wstr) (y y' : core) : Prop := mkGains {
  ga_core : exists l1 l2 nb wow, y' = csubs (l1 ++ p :: l2) nb wow y /\ c_subs y = l1 ++ l2 /\ around casemap m q t l1 l2 /\
    Z.of_nat (length (l1 ++ p :: l2)) <= nb /\ MIN_SUBKEYS <= nb /\ (wow = c_wow y \/ wow = Some p)
}.

Lemma runs_link held q y t s w (Q : option parent -> reg -> Prop) :
  inv held w -> view s = with_fresh w -> w_keys w !! q = Some y -> c_del y = false -> namelen t <= MAX_NAME_LEN * 2 -> free_name casemap (w_keys w) q t ->
  (forall s', view s' = with_fresh w -> Q None s') ->
  (forall s' y', gains (w_keys w) q (w_next w) t y y' ->
     view s' = mkWorld (<[w_next w := cref 2 fresh]> (<[q := y']> (w_keys w))) (w_open w) (w_next w + 1) (w_root w) -> Q (Some (InKey q)) s') ->
  runs (key_link_name casemap alloc_ok (w_next w) t (KeyObj q)) s Q.
Proof.
  intros Hi Hv Hy Hd Ht Hfree HN HS. pose proof (i_tree _ _ _ Hi) as Htr. set (p := w_next w) in *. pose proof (next_free _ _ Hi) as Hp. fold p in Hp.
  assert (Hpq : p <> q) by (intros E; rewrite E in Hp; congruence).
  assert (Hyv : w_keys (view s) !! q = Some y) by (rewrite Hv; cbn; by rewrite lookup_insert_ne).
  destruct (tr_room _ _ Htr q y Hy) as [R1 R2]. unfold key_link_name. rbind. eapply runs_core; [exact Hyv |]. intros k _ Ek.
  assert (Esub : rk_subkeys k = c_subs y) by (by rewrite <- Ek). assert (Enb : rk_nb_subkeys k = c_nb y) by (by rewrite <- Ek). rewrite Esub, Enb.
  rbind. apply (runs_mono _ _ (fun ok s' => (ok = false /\ view s' = view s) \/ (ok = true /\ exists nb, Z.of_nat (length (c_subs y)) < nb /\ MIN_SUBKEYS <= nb /\ view s' = put q (csubs (c_subs y) nb (c_wow y) y) (view s)))).
  { destruct (Z.eqb_spec (Z.of_nat (length (c_subs y))) (c_nb y)) as [E | Hne].
    - unfold grow_subkeys. rbind. eapply runs_core; [exact Hyv |]. intros k1 _ Ek1. assert (Enb1 : rk_nb_subkeys k1 = c_nb y) by (by rewrite <- Ek1). rewrite Enb1.
      rbind. apply runs_mem_alloc. intros ok s1 E1. destruct ok; rbind; [| by apply runs_ret, runs_ret; left].
      set (nb := if negb (c_nb y =? 0) then _ else _). eapply (runs_write q _ (csubs (c_subs y) nb (c_wow y) y)); [rewrite E1; exact Hyv | by intros k2 <- |].
      intros s2 E2. apply runs_ret. right. split; [done |]. exists nb. split_and!; [| | by rewrite E2, E1]; unfold nb, MIN_SUBKEYS in *;
        (destruct (Z.eqb_spec (c_nb y) 0) as [E0 | H0]; cbn [negb]; [lia | Z.to_euclidean_division_equations; lia]).
    - apply runs_ret. right. split; [done |]. exists (c_nb y). split_and!; [lia | lia |]. unfold csubs. rewrite put_same; [done |]. rewrite Hyv. by destruct y. }
  intros ok s1 [[-> E1] | (-> & nb & Hnb & Hmin & E1)]; cbn [negb]; [apply runs_ret, HN; by rewrite E1 |].
  set (y1 := csubs (c_subs y) nb (c_wow y) y) in *. set (m1 := <[q := y1]> (w_keys w)).
  assert (A : alike y y1) by (destruct (alike_refl casemap _ q y Htr Hy); split; try done; cbn; lia).
  assert (Ht1 : tree m1) by (by eapply tree_put). assert (Hal : all_alike (w_keys w) m1) by (by eapply all_alike_put).
  assert (Hm1 : w_keys (view s1) = <[p := fresh]> m1).
  { rewrite E1, Hv. unfold put, with_fresh, m1. cbn. by rewrite insert_insert_ne. }
  assert (Hp1 : m1 !! p = None) by (unfold m1; by rewrite lookup_insert_ne).
  rbind. eapply (runs_find_subkey_in casemap m1); [done | rewrite Hm1; by apply insert_subseteq | unfold m1; by rewrite lookup_insert_eq | by apply short_name |].
  intros f Hf. assert (Hfree1 : free_name casemap m1 q t) by (intros c n Hc; apply (Hfree c); by apply (alike_named _ _ _ _ _ _ Hal)).
  destruct (free_place _ _ _ _ _ _ Hfree1 Hf) as (l1 & l2 & -> & Es & Har). change (c_subs y = l1 ++ l2) in Es. cbn [fst snd]. rewrite Nat2Z.id.
  set (y2 := csubs (l1 ++ p :: l2) nb (c_wow y) y).
  rbind. eapply (runs_write q _ y2); [rewrite Hm1, lookup_insert_ne by done; unfold m1; by rewrite lookup_insert_eq | |].
  { intros k2 Ek2. assert (Es2 : rk_subkeys k2 = l1 ++ l2) by (apply (f_equal c_subs) in Ek2; cbn in Ek2; by rewrite Ek2, <- Es).
    rewrite Es2, take_app_length, drop_app_length. transitivity (csubs (l1 ++ p :: l2) (c_nb (core_of k2)) (c_wow (core_of k2)) (core_of k2)); [done |]. by rewrite Ek2. }
  intros s2 E2. assert (Hp2 : w_keys (view s2) !! p = Some fresh) by (rewrite E2, lookup_put_ne, Hm1 by done; by rewrite lookup_insert_eq).
  rbind. eapply runs_grab; [exact Hp2 |]. intros s3 E3. change (c_ref fresh + 1) with 2 in E3.
  assert (Ev3 : forall y', view s3 = put p (cref 2 fresh) (put q y2 (view s1)) -> put q y' (view s3) = mkWorld (<[p := cref 2 fresh]> (<[q := y']> (w_keys w))) (w_open w) (p + 1) (w_root w)).
  { intros y' E. rewrite E, E1, Hv. unfold put, with_fresh. cbn. f_equal. apply map_eq. intros r. destruct (decide (r = p)) as [-> | Hrp].
    - by rewrite lookup_insert_ne, !lookup_insert_eq.
    - destruct (decide (r = q)) as [-> | Hrq]; [by rewrite lookup_insert_eq, lookup_insert_ne, lookup_insert_eq |]. by rewrite !lookup_insert_ne. }
  specialize (fun y' => Ev3 y' ltac:(by rewrite E3, E2)).
  assert (Hq3 : w_keys (view s3) !! q = Some y2) by (rewrite E3, lookup_put_ne, E2 by done; cbn; by rewrite lookup_insert_eq).
  assert (Hga : forall wow, wow = c_wow y \/ wow = Some p -> gains (w_keys w) q p t y (csubs (l1 ++ p :: l2) nb wow y)).
  { intros wow Hw. split. exists l1, l2, nb, wow. split_and!; try done; [| rewrite length_app in *; cbn; rewrite Es, length_app in Hnb; lia].
    unfold around in *. destruct Har as [A1 A2]. split; (eapply Forall_impl; [eassumption |]); intros c (n & Hn & Hlt); exists n; (split; [by apply (alike_named _ _ _ _ _ _ Hal) | done]). }
  rbind. apply (runs_mono _ _ (fun _ s' => s' = s3)).
  { destruct (is_wow6432node casemap t); [| by apply runs_ret]. rbind. eapply runs_core; [exact Hq3 |]. intros k3 _ Ek3.
    destruct (tr_del _ _ Htr q y Hy) as [Hdn _]. destruct (c_name y) as [n |] eqn:En; [| rewrite (proj2 Hdn eq_refl) in Hd; done].
    rbind. eapply runs_read; [| by apply runs_ret]. apply (f_equal c_name) in Ek3. cbn in Ek3. by rewrite Ek3, En. }
  intros wowp s4 ->. rbind. destruct wowp.
  - eapply (runs_write q _ (csubs (l1 ++ p :: l2) nb (Some p) y)); [exact Hq3 | |].
    { intros k4 Ek4. transitivity (csubs (c_subs (core_of k4)) (c_nb (core_of k4)) (Some p) (core_of k4)); [done |]. by rewrite Ek4. }
    intros s5 E5. apply runs_ret. eapply HS; [apply Hga; by right |]. by rewrite E5.
  - apply runs_ret, runs_ret. eapply HS; [apply Hga; by left |]. unfold y2 in Hq3. by rewrite <- Ev3, put_same.
Qed.

Lemma inv_linked held w q y y' t :
  inv (q :: held) w -> w_keys w !! q = Some y -> c_del y = false -> t <> [] -> namelen t <= MAX_NAME_LEN * 2 -> gains (w_keys w) q (w_next w) t y y' ->
  inv (w_next w :: q :: held)
    (mkWorld (<[w_next w := cname (Some (mkName t (InKey q))) (cref 2 fresh)]> (<[q := y']> (w_keys w))) (w_open w) (w_next w + 1) (w_root w)).
Proof.
  intros Hi Hy Hd Hne Hlen [(l1 & l2 & nb & wow & -> & Es & Har & Hroom & Hmin & Hwow)]. pose proof (i_tree _ _ _ Hi) as Ht. pose proof (next_free _ _ Hi) as Hp.
  assert (Hpq : w_next w <> q) by (intros E; rewrite E in Hp; congruence). set (p := w_next w) in *.
  assert (Hps : p ∉ c_subs y).
  { intros Hin. destruct (tr_down _ _ Ht q y p Hy Hin) as (n & x & Hx & _). congruence. }
  apply (inv_edit casemap (q :: held) _ w q y _ p _ (Some t)); try done.
  - apply edit_placed; try done; try (cbn; by auto).
    + cbn. split; [lia | by left].
    + split; cbn; [constructor | constructor | lia | by left].
    + rewrite <- Es. by apply (tr_sorted _ _ Ht q y).
    + intros c. rewrite <- Es. split; [| tauto]. intros Hc. split; [done |]. by intros ->.
    + intros c Hc. destruct Hwow as [-> | ->].
      * pose proof (tr_wow _ _ Ht q y c Hy Hc) as Hin. rewrite Es in Hin. rewrite elem_of_app in *. rewrite elem_of_cons. tauto.
      * injection Hc as <-. apply elem_of_app. right. by left.
  - unfold p. by rewrite (next_not_open _ _ Hi).
  - unfold p. rewrite (next_not_open _ _ Hi), nheld_cons, decide_True by done. pose proof (next_not_held _ _ Hi) as Hh. fold p in Hh |- *.
    destruct (nheld (q :: held) p) eqn:E; [cbn; lia |]. exfalso. apply Hh, nheld_pos. lia.
  - unfold p. lia.
  - unfold p. lia.
  - intros r Hr. by rewrite nheld_cons, decide_False.
Qed.

(** ** Initialising *)

(** A key in its place, with nothing in it. *)
Definition blank (w : world) (p q : Z) (t : wstr) (link : bool) : Prop :=
  exists r h, w_keys w !! p = Some (mkCore r h (Some (mkName t (InKey q))) [] 0 None [] 0 false link false).

Lemma flag_volatile k : core_of (with_flags (Z.lor (kflags k) KEY_VOLATILE) k) = core_of k.
Proof. apply (with_flags_core casemap). intros d Hd. apply flag_lor. by destruct Hd as [-> | [-> | ->]]. Qed.

Definition clink (x : core) : core :=
  mkCore (c_ref x) (c_handles x) (c_name x) (c_subs x) (c_nb x) (c_wow x) (c_vals x) (c_nbv x) (c_del x) true (c_share x).

Lemma flag_symlink k : core_of (with_flags (Z.lor (kflags k) KEY_SYMLINK) k) = clink (core_of k).
Proof.
  unfold core_of, clink, rflag, has_flag, kflags. cbn.
  pose proof (flag_lor (k_flags (rk_key k)) KEY_SYMLINK KEY_DELETED eq_refl) as H1. pose proof (flag_lor (k_flags (rk_key k)) KEY_SYMLINK KEY_WOWSHARE eq_refl) as H2.
  unfold bit in *. rewrite H1, H2. f_equal. rewrite Z.land_lor_distr_l. change (Z.land KEY_SYMLINK KEY_SYMLINK) with KEY_SYMLINK.
  apply negb_true_iff, Z.eqb_neq. intros H. apply Z.lor_eq_0_iff in H as [_ H]. done.
Qed.

Lemma runs_key_init held p q t data s (Q : bool -> reg -> Prop) :
  inv (p :: held) (view s) -> blank (view s) p q t false ->
  (forall ok s' link, inv (p :: held) (view s') -> blank (view s') p q t link -> (forall r, r <> p -> w_keys (view s') !! r = w_keys (view s) !! r) -> w_open (view s') = w_open (view s) -> Q ok s') ->
  runs (key_init alloc_ok p data) s Q.
Proof.
  intros Hi Hb HQ. pose proof (i_tree _ _ _ Hi) as Ht. destruct Hb as (r & h & Hx). set (x := mkCore r h _ _ _ _ _ _ _ _ _) in Hx.
  assert (Hn : named (w_keys (view s)) p t (InKey q)) by (by exists x).
  destruct (parent_named casemap _ p t q Ht Hn) as (n & par & Hq). pose proof Hq as (y & Hy & _).
  unfold key_init. rbind. eapply runs_get_parent; [exact Hn |]. cbn match. rbind.
  eapply (runs_write p _ x); [exact Hx | |].
  { intros k Ek. transitivity (mkCore (c_ref (core_of k)) (c_handles (core_of k)) (c_name (core_of k)) [] 0 None [] 0 false false false); [done |]. by rewrite Ek. }
  intros s1 E1. rewrite put_same in E1 by done.
  assert (HQ1 : forall ok s', view s' = view s -> Q ok s').
  { intros ok s' E. apply (HQ ok s' false); rewrite E; try done. by exists r, h. }
  rbind. apply (runs_mono _ _ (fun _ s' => view s' = view s)).
  { destruct (Nat.eqb _ 0); [by apply runs_ret |]. apply runs_mem_alloc. intros ok s2 E2. congruence. }
  intros ok s2 E2. destruct ok; cbn [negb]; [| by apply runs_ret, HQ1].
  rbind. apply runs_updk_quiet; [rewrite E2; eauto | done |]. intros s3 E3. rewrite E2 in E3.
  set (link := bit (id_options data) REG_OPTION_CREATE_LINK). rbind.
  apply (runs_mono _ _ (fun _ s' => view s' = put p (if link then clink x else x) (view s))).
  { destruct link; [| apply runs_ret; by rewrite put_same]. eapply (runs_write p _ (clink x)); [rewrite E3; exact Hx | intros k <-; apply flag_symlink |]. intros s4 E4. by rewrite E4, E3. }
  intros [] s4 E4.
  assert (HQ4 : forall ok s', view s' = view s4 -> Q ok s').
  { intros ok s' E. apply (HQ ok s' link); rewrite E, E4; try done.
    - destruct (i_refs _ _ _ Hi p x Hx) as [H1 H2]. eapply inv_put; [exact Hi | exact Hx | | destruct link; exact H1 | destruct link; exact H2 | done].
      destruct (alike_refl casemap _ p x Ht Hx). destruct link; split; try done. by left.
    - exists r, h. cbn. rewrite lookup_insert_eq. by destruct link.
    - intros c Hc. by rewrite lookup_put_ne. }
  assert (Hp4 : is_Some (w_keys (view s4) !! p)) by (rewrite E4; cbn; rewrite lookup_insert_eq; eauto).
  destruct (bit (id_options data) REG_OPTION_VOLATILE).
  - rbind. apply runs_updk_quiet; [done | intros k; apply flag_volatile |]. intros s5 E5. by apply runs_ret, HQ4.
  - rbind. assert (Hpq : q <> p) by (intros ->; by apply (not_own_parent casemap _ Ht p t)).
    rbind. eapply runs_core; [rewrite E4, lookup_put_ne by done; exact Hy |]. intros kq _ _. apply runs_ret.
    destruct (rflag kq KEY_VOLATILE).
    + rbind. apply runs_set_error. intros s5 E5. by apply runs_ret, HQ4.
    + rbind. apply runs_updk_quiet; [done | intros k; apply flag_dirty |]. intros s5 E5. by apply runs_ret, HQ4.
Qed.

(** Taking a new key out again. *)
Lemma runs_undo {A} held p q t link s (k : R A) (Q : A -> reg -> Prop) :
  inv (p :: held) (view s) -> blank (view s) p q t link -> p ∉ held -> nopen (w_open (view s)) p = 0%nat -> (forall s', inv held (view s') -> runs k s' Q) ->
  runs (do _ <- unlink_named_object alloc_ok (release_object alloc_ok) p; do _ <- free_object p; k) s Q.
Proof.
  intros Hi (r & h & Hx) Hh Ho HQ. set (x := mkCore r h _ _ _ _ _ _ _ _ _) in Hx. pose proof (i_tree _ _ _ Hi) as Ht.
  assert (Hnm : named (w_keys (view s)) p t (InKey q)) by (by exists x).
  destruct (subs_split casemap _ p t q Ht Hnm) as (Hpq & y & l1 & l2 & Hy & E & Hl1 & _ & _ & Hroom & Hmin).
  destruct (i_refs _ _ _ Hi p x Hx) as [Rh Rr]. assert (Ehn : nheld held p = 0%nat) by (destruct (nheld held p) eqn:En; [done |]; destruct Hh; apply nheld_pos; lia).
  rewrite nheld_cons, decide_True in Rr by done. change (linked x) with 1%nat in Rr. cbn [c_ref c_handles x] in Rh, Rr.
  set (x1 := cref 1 x). set (w1 := put p x1 (view s)).
  assert (Hi1 : inv held w1).
  { eapply inv_put; [exact Hi | exact Hx | by eapply alike_ref | exact Rh | |].
    - change (linked x) with 1%nat. change (c_ref x1) with 1. lia.
    - intros c Hc. by rewrite nheld_cons, decide_False. }
  destruct (inv_deleted casemap held w1 p x1 q y t l1 l2) as [_ Hdel]; [done | cbn; by rewrite lookup_insert_eq | done | unfold w1; by rewrite lookup_put_ne | done | done |].
  rbind. eapply (runs_unlink casemap alloc_ok p x q y t l1 l2); [exact Hx | done | exact Hy | done | done | done | | done | done |].
  { split; cbn; [lia |]. intros ->. lia. }
  intros s2 nb Hnb Hnb' E2. unfold unlinked, dec in E2. cbn [c_ref cname x] in E2. rewrite (proj2 (Z.eqb_neq _ _)) in E2 by lia.
  rbind. apply runs_free; [rewrite E2, lookup_put_ne by done; cbn; rewrite lookup_insert_eq; eauto |]. intros s3 E3. apply HQ. specialize (Hdel nb Hnb Hnb').
  assert (Ew : view s3 = unlinked p (cdel x1) q y (l1 ++ l2) nb w1); [| by rewrite Ew].
  rewrite E3, E2. unfold unlinked, dec. cbn [c_ref cname cdel x1 cref]. change (1 =? 1) with true. cbv iota. unfold del, put, w1. cbn.
  f_equal. rewrite delete_insert_ne, delete_insert_eq by done. f_equal. by rewrite delete_insert_eq.
Qed.

(** ** Creating *)

Context (dir_lookup : wstr -> Z -> dir_answer) (dir_errors : forall path attr, dir_lookup path attr <> DirError 0).
Abbreviation inside := (inside dir_lookup).

(** Key [p] is new below [q]. *)
Record created (w w' : world) (p q : Z) (t : wstr) : Prop := mkCreated {
  cr_new : w_keys w !! p = None;
  cr_free : free_name casemap (w_keys w) q t;
  cr_name : named (w_keys w') p t (InKey q);
  cr_empty x : w_keys w' !! p = Some x -> c_subs x = [] /\ c_vals x = [] /\ c_del x = false /\ c_share x = false;
  cr_others r n par : r <> p -> named (w_keys w) r n par <-> named (w_keys w') r n par;
  cr_open : w_open w' = w_open w
}.

Lemma blank_empty w p q t link x : blank w p q t link -> w_keys w !! p = Some x -> c_subs x = [] /\ c_vals x = [] /\ c_del x = false /\ c_share x = false.
Proof. intros (r & h & H) Hx. rewrite H in Hx. by injection Hx as <-. Qed.

(** The steps from the allocation of a key on. *)
Lemma runs_place held q y t data s :
  inv (q :: held) (view s) -> w_keys (view s) !! q = Some y -> c_del y = false -> t <> [] -> namelen t <= MAX_NAME_LEN * 2 -> free_name casemap (w_keys (view s)) q t ->
  forall s0, view s0 = with_fresh (view s) ->
  let p := w_next (view s) in
  let failed : R (option Z) := do _ <- release_robj alloc_ok (KeyObj q); fret None in
  runs (do l <- key_link_name casemap alloc_ok p t (KeyObj q);
        match l with
        | None => do _ <- free_object p; failed
        | Some l =>
            do _ <- updk p (with_name (Some (mkName t l)));
            do _ <- release_robj alloc_ok (KeyObj q);
            do ok <- key_init alloc_ok p data;
            if (ok : bool) then fret (Some p)
            else do _ <- unlink_named_object alloc_ok (release_object alloc_ok) p; do _ <- free_object p; fret None
        end) s0 (fun o s' => match o with None => inv held (view s') | Some p => inv (p :: held) (view s') /\ created (view s) (view s') p q t end).
Proof.
  intros Hi Hy Hd Hne Hlen Hfree s0 E0 p failed. pose proof (next_free _ _ Hi) as Hp. fold p in Hp. assert (Hpq : p <> q) by (intros E; rewrite E in Hp; congruence).
  pose proof (next_not_held _ _ Hi) as Hh. fold p in Hh. pose proof (next_not_open _ _ Hi) as Ho. fold p in Ho.
  rbind. eapply runs_link; [exact Hi | exact E0 | exact Hy | done | done | done | |]; fold p.
  - intros s1 E1. rbind. apply runs_free; [rewrite E1; cbn; rewrite lookup_insert_eq; eauto |]. intros s2 E2. unfold failed. rbind. cbn [release_robj].
    eapply (runs_release_inv casemap); [rewrite E2, E1; unfold p; rewrite (del_fresh _ _ Hi); by apply inv_bump |]. intros s3 Hi3 _. by apply runs_ret.
  - intros s1 y' Hga E1. pose proof (inv_linked held (view s) q y y' t Hi Hy Hd Hne Hlen Hga) as Hi1. fold p in Hi1, E1.
    set (x := cname (Some (mkName t (InKey q))) (cref 2 fresh)) in Hi1.
    rbind. eapply (runs_write p _ x); [rewrite E1; cbn; by rewrite lookup_insert_eq | by intros k Ek; transitivity (cname (Some (mkName t (InKey q))) (core_of k)); [done | rewrite Ek] |].
    intros s2 E2.
    assert (E2' : view s2 = mkWorld (<[p := x]> (<[q := y']> (w_keys (view s)))) (w_open (view s)) (p + 1) (w_root (view s))).
    { rewrite E2, E1. unfold put. cbn. by rewrite insert_insert_eq. }
    rewrite <- E2' in Hi1. rbind. cbn [release_robj]. eapply (runs_release_inv casemap); [eapply inv_perm; [apply Permutation_swap | exact Hi1] |]. intros s3 Hi3 Hs3.
    assert (Hx2 : w_keys (view s2) !! p = Some x) by (rewrite E2'; cbn; by rewrite lookup_insert_eq).
    destruct (named_there (view s2) s3 p t (InKey q) Hs3) as (z & r & Hz & Hz3 & _); [by exists x |]. rewrite Hx2 in Hz. injection Hz as <-.
    rbind. eapply (runs_key_init held p q t data); [exact Hi3 | by exists r, 0 |]. intros ok s4 link Hi4 Hb4 Hother Hopen.
    assert (Ho4 : nopen (w_open (view s4)) p = 0%nat) by (rewrite Hopen, (sd_open _ _ Hs3), E2'; exact Ho).
    destruct ok.
    + apply runs_ret. split; [done |].
      assert (Hn4 : forall c n par, c <> p -> named (w_keys (view s)) c n par <-> named (w_keys (view s4)) c n par).
      { intros c n par Hc. transitivity (named (w_keys (view s2)) c n par).
        - rewrite E2'. cbn [w_keys]. unfold named. rewrite lookup_insert_ne by done. destruct (decide (c = q)) as [-> | Hcq]; [| by rewrite lookup_insert_ne].
          rewrite lookup_insert_eq. destruct Hga as [(l1 & l2 & nb & wow & -> & _)]. split; intros (v & Ev & En).
          + eexists. split; [reflexivity |]. rewrite Hy in Ev. injection Ev as <-. exact En.
          + exists y. split; [done |]. injection Ev as <-. exact En.
        - rewrite (steady_named _ _ c n par Hs3). unfold named. by rewrite (Hother c Hc). }
      assert (Eo4 : w_open (view s4) = w_open (view s)) by (by rewrite Hopen, (sd_open _ _ Hs3), E2').
      split; [done | done | | intros v Hv; by eapply blank_empty | done | done]. destruct Hb4 as (r4 & h4 & Hx4). eexists. split; [exact Hx4 | done].
    + eapply runs_undo; [exact Hi4 | exact Hb4 | by intros Hin; apply Hh; right | done |]. intros s5 Hi5. by apply runs_ret.
Qed.

(** How creating a key ends: the key is held, and was there before or is new. *)
Definition create_post (held : list Z) (w0 : world) (o : option Z) (s' : reg) : Prop :=
  match o with
  | None => inv held (view s')
  | Some p => inv (p :: held) (view s') /\
      ((rs_error s' = REG_NAME_EXISTS /\ steady w0 (view s')) \/ exists w q t, steady w0 w /\ created w (view s') p q t)
  end.

Lemma runs_create_with_name held root name attr data sd_ok s :
  name <> [] -> inv held (view s) -> inside (w_keys (view s)) -> calm attr (w_keys (view s)) -> (forall p, root = Some p -> is_Some (w_keys (view s) !! p)) ->
  runs (create_object_with_name casemap alloc_ok dir_lookup root name attr data sd_ok) s
    (create_post held (view s)).
Proof using dir_errors.
  intros Hname Hi Hin Hcalm Hroot. unfold create_object_with_name. rbind. apply runs_set_error. intros s1 E1. rewrite <- E1 in *. clear E1 s.
  rename s1 into s. destruct name as [| c0 name']; [done |]. set (name := c0 :: name'). rbind.
  ruse (runs_lookup_named casemap alloc_ok dir_lookup dir_errors (view s) (i_tree _ _ _ Hi) Hin held attr root name s Hcalm (steady_refl _) Hi Hroot).
  intros r s1 [Hs1 Hr]. destruct r as [[o rem] |]; [| by apply runs_ret].
  assert (Hexists : runs (match o with
              | KeyObj p => if bit attr OBJ_OPENIF then do _ <- set_error REG_NAME_EXISTS; fret (Some p) else do _ <- release_object alloc_ok p; do _ <- set_error REG_NAME_COLLISION; fret None
              | OtherObj => do _ <- set_error (if bit attr OBJ_OPENIF then REG_TYPE_MISMATCH else REG_NAME_COLLISION); fret None
              end) s1 (create_post held (view s))).
  { destruct o as [q |].
    - destruct Hr as [Hi1 _]. destruct (bit attr OBJ_OPENIF).
      + rbind. apply runs_modify, runs_ret. split; [done |]. by left.
      + rbind. eapply (runs_release_inv casemap); [exact Hi1 |]. intros s2 Hi2 _. rbind. apply runs_set_error. intros s3 E3. apply runs_ret. cbn [create_post]. by rewrite E3.
    - rbind. apply runs_set_error. intros s2 E2. apply runs_ret. cbn [create_post]. by rewrite E2. }
  destruct rem as [[| c t'] |]; [exact Hexists | | exact Hexists]. clear Hexists. set (t := c :: t').
  assert (Hfailed : forall s2, match o with KeyObj q => inv (q :: held) (view s2) | OtherObj => inv held (view s2) end ->
    runs (do _ <- release_robj alloc_ok o; fret (None : option Z)) s2 (create_post held (view s))).
  { intros s2 H2. rbind. destruct o as [q |]; cbn [release_robj]; [| by apply runs_ret, runs_ret].
    eapply (runs_release_inv casemap); [exact H2 |]. intros s3 Hi3 _. by apply runs_ret. }
  assert (Hr' : match o with KeyObj q => inv (q :: held) (view s1) | OtherObj => inv held (view s1) end) by (destruct o; [by destruct Hr | done]).
  rbind. apply runs_mem_alloc. intros ok s2 E2. destruct ok; cbn [negb]; [| apply Hfailed; by rewrite E2].
  rbind. apply runs_alloc_object; [intros s3 E3; apply Hfailed; by rewrite E3, E2 |]. intros s3 E3. rewrite E2 in E3 |- *. set (p := w_next (view s1)) in *.
  assert (Hp3 : is_Some (w_keys (view s3) !! p)) by (rewrite E3; cbn; rewrite lookup_insert_eq; eauto).
  assert (Hdrop : forall s4, view s4 = with_fresh (view s1) -> runs (do _ <- free_object p; do _ <- release_robj alloc_ok o; fret (None : option Z)) s4 (create_post held (view s))).
  { intros s4 E4. rbind. apply runs_free; [rewrite E4; cbn; rewrite lookup_insert_eq; eauto |]. intros s5 E5. apply Hfailed. rewrite E5, E4. unfold p.
    destruct o; rewrite (del_fresh _ _ Hr'); by apply inv_bump. }
  destruct sd_ok; cbn [negb]; [| by apply Hdrop]. destruct o as [q |].
  - destruct Hr as [Hi1 [Hempty | Hset]]; [done |]. destruct Hset as (y0 & Hy0 & Hd & _ & [Hno | (t0 & [= <-] & Hlen & _ & Hfree)]); [done |].
    destruct (alive_named casemap (view s) (i_tree _ _ _ Hi) q y0 Hy0 Hd) as (n & par & Hn & _).
    destruct (named_there (view s) s1 q n par Hs1 Hn) as (y & ry & Hy & Hy1 & _). rewrite Hy0 in Hy. injection Hy as <-.
    assert (Hfree1 : free_name casemap (w_keys (view s1)) q t) by (intros c1 n1 Hc1; apply (Hfree c1); by apply (steady_named _ _ _ _ _ Hs1)).
    eapply runs_mono; [eapply (runs_place held q (cref ry y0) t data s1); [exact Hi1 | exact Hy1 | exact Hd | done | exact Hlen | exact Hfree1 | exact E3] |].
    intros [p' |] s' Hpost; [| done]. destruct Hpost as [Hi' Hc]. split; [done |]. right. by exists (view s1), q, t.
  - rbind. unfold key_link_name. rbind. apply runs_get. assert (Er : rs_root s3 = w_root (view s1)) by (change (w_root (view s3) = w_root (view s1)); by rewrite E3).
    destruct (i_root _ _ _ Hr) as (r & n & Hroot1 & _). rewrite Er, Hroot1. rbind. apply runs_set_error. intros s4 E4. apply runs_ret. apply Hdrop. by rewrite E4.
Qed.

Lemma runs_create held root name attr data sd_ok s :
  name <> [] -> inv held (view s) -> inside (w_keys (view s)) -> calm attr (w_keys (view s)) -> (forall p, root = Some p -> is_Some (w_keys (view s) !! p)) ->
  runs (create_named_object casemap alloc_ok dir_lookup root name attr data sd_ok) s
    (fun o s' => match o with
                 | None => inv held (view s')
                 | Some p => inv (p :: held) (view s') /\ w_open (view s') = w_open (view s) /\
                     (rs_error s' = REG_NAME_EXISTS \/ exists w w' q t, steady (view s) w /\ created w w' p q t /\ steady w' (view s'))
                 end).
Proof using dir_errors.
  intros Hname Hi Hin Hcalm Hroot. unfold create_named_object. rbind. ruse (runs_create_with_name held root name attr data sd_ok s Hname Hi Hin Hcalm Hroot).
  intros o s1 Ho. destruct o as [p |]; [| by apply runs_ret]. destruct Ho as [Hi1 Hp].
  assert (Hopen : w_open (view s1) = w_open (view s)).
  { destruct Hp as [[_ Hs] | (w & q & t & Hs & Hc)]; [apply (sd_open _ _ Hs) | rewrite (cr_open _ _ _ _ _ Hc); apply (sd_open _ _ Hs)]. }
  destruct (bit attr OBJ_PERMANENT).
  2:{ apply runs_ret. split_and!; [done | done |]. destruct Hp as [[He _] | (w & q & t & Hs & Hc)]; [by left |]. right. exists w, (view s1), q, t. split_and!; [done | done | apply steady_refl]. }
  destruct (i_held _ _ _ Hi1 p) as [x Hx]; [by left |].
  rbind. eapply runs_mono.
  { apply (runs_along same_error); [apply updk_same_error |]. apply (runs_updk_quiet p make_permanent s1 (fun _ s' => view s' = view s1)); [eauto | done | done]. }
  intros [] s2 [E2 Ee2]. rbind. eapply runs_mono.
  { apply (runs_along same_error); [apply updk_same_error |]. apply (runs_grab_inv casemap (p :: held) p s2 (fun _ s' => inv (p :: p :: held) (view s') /\ steady (view s2) (view s'))); [by rewrite E2 | rewrite E2; eauto | auto]. }
  intros [] s3 [[Hi3 Hs3] Ee3]. apply runs_ret. split_and!.
  - destruct Hi3 as [H1 H2 H3 H4 H5 H6]. split; try done; [| intros r Hr; apply H4; by right]. intros r z Hz. specialize (H2 r z Hz). rewrite !nheld_cons in *. destruct (decide (p = r)); lia.
  - by rewrite (sd_open _ _ Hs3), E2.
  - rewrite E2 in Hs3. destruct Hp as [[He _] | (w & q & t & Hs & Hc)]; [left; unfold same_error in *; congruence |]. right. by exists w, (view s1), q, t.
Qed.

Lemma runs_open held root name attr s :
  inv held (view s) -> inside (w_keys (view s)) -> calm attr (w_keys (view s)) -> (forall p, root = Some p -> is_Some (w_keys (view s) !! p)) ->
  runs (open_named_object casemap alloc_ok dir_lookup root name attr) s
    (fun o s' => steady (view s) (view s') /\ match o with None => inv held (view s') | Some p => inv (p :: held) (view s') end).
Proof using dir_errors.
  intros Hi Hin Hcalm Hroot. unfold open_named_object. destruct (65534 <=? namelen name).
  { rbind. apply runs_set_error. intros s1 E1. apply runs_ret. rewrite E1. by split; [apply steady_refl |]. }
  rbind. ruse (runs_lookup_named casemap alloc_ok dir_lookup dir_errors (view s) (i_tree _ _ _ Hi) Hin held attr root name s Hcalm (steady_refl _) Hi Hroot).
  intros r s1 [Hs1 Hr]. destruct r as [[o rem] |]; [| by apply runs_ret]. destruct (empty_name rem); cbn [negb].
  - destruct o as [p |]; [apply runs_ret; by destruct Hr |]. rbind. apply runs_set_error. intros s2 E2. apply runs_ret. by rewrite E2.
  - rbind. apply runs_set_error. intros s2 E2. rewrite <- E2 in *. rbind. destruct o as [p |]; cbn [release_robj]; [| by apply runs_ret, runs_ret].
    destruct Hr as [Hi1 _]. eapply (runs_release_inv casemap); [exact Hi1 |]. intros s3 Hi3 Hs3. apply runs_ret. split; [by eapply steady_trans | done].
Qed.
End Create.
