(* ===== verification/RegKeyRequests.v ===== *)
(** * Requests on registry keys

    Every request ends without a fault and keeps the invariant: creating and opening keys,
    also through the keys of 32-bit programs, deleting, renaming, enumerating, watching and
    closing them, and the requests on the values of a key of the tree. *)

From stdpp Require Import base list gmap sorting.
From Stdlib Require Import ZArith Lia ZifyBool Sorted.
From S2P Require Import Prelude Fallible Atom AtomProofs RegValue RegValueProofs RegValueTheorems RegKey RegKeyProofs RegKeyTree RegKeyRefs RegKeyChange RegKeyLookup RegKeyCreate.

Open Scope Z_scope.
Open Scope fallible_scope.

(** * Keys *)

Section Requests.
Context (casemap : Z -> Z) (alloc_ok : nat -> bool) (refusal : reg -> Z -> Z -> Z -> option Z).
Abbreviation tree := (tree casemap).
Abbreviation inv := (inv casemap).

(** ** Keys of 32-bit programs *)

Lemma runs_grab_wow held p s (Q : Z -> reg -> Prop) :
  inv (p :: held) (view s) -> (forall q s', inv (q :: held) (view s') -> steady (view s) (view s') -> Q q s') -> runs (grab_wow6432node alloc_ok p) s Q.
Proof.
  intros Hi HQ. pose proof (i_tree _ _ _ Hi) as Ht. destruct (i_held _ _ _ Hi p) as [x Hx]; [by left |]. unfold grab_wow6432node.
  rbind. eapply runs_core; [exact Hx |]. intros k _ Ek. assert (Ew : rk_wow k = c_wow x) by (by rewrite <- Ek). rewrite Ew.
  assert (Hself : Q p s) by (apply HQ; [done | apply steady_refl]). destruct (c_wow x) as [w |] eqn:Ewx; [| by apply runs_ret].
  destruct (tr_down _ _ Ht p x w Hx (tr_wow _ _ Ht p x w Hx Ewx)) as (n & y & Hy & _). rbind. eapply runs_core; [exact Hy |]. intros kw _ _.
  destruct (rflag kw KEY_WOWSHARE); [by apply runs_ret |]. rbind. eapply (runs_grab_inv casemap); [exact Hi | eauto |]. intros s1 Hi1 Hs1.
  rbind. eapply (runs_release_inv casemap); [eapply inv_perm; [apply Permutation_swap | exact Hi1] |]. intros s2 Hi2 Hs2. apply runs_ret. apply HQ; [done | by eapply steady_trans].
Qed.

(** Where [get_wow6432node] leads: the state is the same, and the key has a name. *)
Definition leads (s : reg) (r : option Z) (s' : reg) : Prop := s' = s /\ forall w, r = Some w -> exists n par, named (w_keys (view s)) w n par.

Lemma runs_get_wow_step p n par fuel s :
  tree (w_keys (view s)) -> named (w_keys (view s)) p n par -> (forall q, par = InKey q -> runs (get_wow6432node casemap fuel (Some q)) s (leads s)) -> (1 <= fuel)%nat ->
  runs (get_wow6432node casemap (S fuel) (Some p)) s (leads s).
Proof.
  intros Ht Hn Hup Hf. pose proof Hn as (x & Hx & En). cbn [get_wow6432node]. rbind. eapply runs_core; [exact Hx |]. intros k _ Ek.
  assert (Hp : leads s (Some p) s) by (split; [done | intros ? [= <-]; eauto]).
  assert (Ew : rk_wow k = c_wow x) by (by rewrite <- Ek). rewrite Ew. destruct (c_wow x) as [w |] eqn:Ewx.
  { apply runs_ret. split; [done |]. intros ? [= <-]. destruct (tr_down _ _ Ht p x w Hx (tr_wow _ _ Ht p x w Hx Ewx)) as [l' Hl']. eauto. }
  rbind. eapply runs_get_parent; [exact Hn |]. rbind. apply (runs_mono _ _ (fun _ s' => s' = s)).
  { destruct par as [| q |]; try by apply runs_ret. destruct (parent_named casemap _ p n q Ht Hn) as (nq & pq & y & Hy & _). rbind. eapply runs_core; [exact Hy |].
    intros kq _ _. by apply runs_ret. }
  intros mine s1 ->. destruct mine; [by apply runs_ret |]. rbind.
  apply (runs_mono _ _ (fun r s' => leads s r s' /\ (r <> None -> exists q, par = InKey q))).
  { destruct par as [| q |].
    2:{ eapply runs_mono; [by apply Hup |]. eauto. }
    all: destruct fuel as [| fuel]; [lia |]; cbn [get_wow6432node]; by apply runs_ret. }
  intros [w |] s1 [[-> Hw] Hpar]; [| by apply runs_ret]. destruct (Hw w eq_refl) as (nw & pw & z & Hz & _). destruct (Hpar ltac:(done)) as [q ->].
  rbind. eapply runs_read; [rewrite <- Ek in En; exact En |]. cbn [on_name]. rbind.
  eapply (runs_find_subkey casemap); [exact Ht | exact Hz | apply short_name; by apply (tr_names _ _ Ht p n q) |]. intros f Hf'. apply runs_ret. split; [done |]. intros c Ec.
  inversion Hf' as [l1 c2 l2 n2 _ Hc2 _ |]; subst; cbn in Ec; [| done]. injection Ec as <-. eauto.
Qed.

Lemma runs_get_wow p l s : tree (w_keys (view s)) -> chain (w_keys (view s)) p l -> forall fuel, (length l < fuel)%nat ->
  runs (get_wow6432node casemap fuel (Some p)) s (leads s).
Proof.
  intros Ht Hl. induction Hl as [p n par Hn Hk | p n q l Hn Hq IH]; intros [| fuel] Hf; cbn in Hf; try lia; (eapply runs_get_wow_step; [done | exact Hn | | lia]).
  - intros q ->. by destruct (Hk q).
  - intros q' [= <-]. apply IH. lia.
Qed.

Lemma runs_wow_parent p n par access name s (Q : Z -> reg -> Prop) :
  tree (w_keys (view s)) -> named (w_keys (view s)) p n par -> (forall q, is_Some (w_keys (view s) !! q) -> Q q s) -> runs (get_wow6432_parent casemap p access name) s Q.
Proof.
  intros Ht Hn HQ. assert (Hp : is_Some (w_keys (view s) !! p)) by (destruct Hn as (x & Hx & _); eauto). unfold get_wow6432_parent.
  destruct (_ && _); [| by apply runs_ret, HQ]. destruct (chain_exists casemap _ p n par Ht Hn) as (l & Hl & Hlen). rbind. apply runs_heap_size. rbind.
  ruse (runs_get_wow p l s Ht Hl); [lia |]. intros [w |] s1 [-> Hw]; [| by apply runs_ret, HQ]. destruct (Hw w eq_refl) as (nw & pw & z & Hz & _).
  rbind. eapply runs_core; [exact Hz |]. intros k _ _. apply runs_ret. destruct (_ || _); apply HQ; [eauto | done].
Qed.

(** ** Deleting, renaming, enumerating, watching *)

Lemma runs_req_delete process hkey s (Q : unit -> reg -> Prop) :
  inv [] (view s) -> (forall s', inv [] (view s') -> Q tt s') -> runs (req_delete_key alloc_ok refusal process hkey) s Q.
Proof.
  intros Hi HQ. unfold req_delete_key. rbind. apply (runs_get_handle_obj casemap); [done | |].
  - intros s1 Hi1 _. by apply runs_ret, HQ.
  - intros p s1 _ Hi1 _. destruct (i_held _ _ _ Hi1 p) as [x Hx]; [by left |]. rbind. eapply (runs_delete_key casemap); [exact Hi1 | exact Hx |]. intros ok s2 Hi2 _ _.
    eapply (runs_release_inv casemap); [exact Hi2 |]. auto.
Qed.

Lemma runs_req_rename process hkey name s (Q : unit -> reg -> Prop) :
  inv [] (view s) -> (forall s', inv [] (view s') -> Q tt s') -> runs (req_rename_key casemap alloc_ok refusal process hkey name) s Q.
Proof.
  intros Hi HQ. unfold req_rename_key. rbind. apply (runs_get_hkey_obj casemap); [done | |].
  - intros s1 Hi1. by apply runs_ret, HQ.
  - intros p x s1 _ Hi1 _ Hx Hd. rbind. eapply (runs_rename_key casemap); [exact Hi1 | exact Hx | done |]. intros s2 Hi2 _. eapply (runs_release_inv casemap); [exact Hi2 |]. auto.
Qed.

Lemma runs_full_name p l s (Q : wstr -> reg -> Prop) : chain (w_keys (view s)) p l -> forall fuel, (length l <= fuel)%nat -> (forall r, Q r s) -> runs (full_name fuel p) s Q.
Proof.
  intros Hl. revert Q. induction Hl as [p n par (x & Hx & En) Hk | p n q l (x & Hx & En) Hq IH]; intros Q [| fuel] Hf HQ; cbn in Hf; try lia; cbn [full_name]; rbind;
    (eapply runs_core; [exact Hx |]); intros k _ Ek; (assert (Ekn : rk_name k = c_name x) by (by rewrite <- Ek)); rewrite Ekn, En; cbn [on_parent on_name]; rbind.
  - destruct par as [| q |]; [| by destruct (Hk q) |]; apply runs_ret, runs_ret, HQ.
  - apply IH; [lia |]. intros r. by apply runs_ret.
Qed.

Lemma runs_subkey_infos s ps (Q : list (Z * Z) -> reg -> Prop) : Forall (fun c => exists n par, named (w_keys (view s)) c n par) ps -> (forall r, Q r s) -> runs (subkey_infos ps) s Q.
Proof.
  intros Hf. revert Q. induction Hf as [| c ps (n & par & x & Hx & En) _ IH]; intros Q HQ; cbn [subkey_infos]; [by apply runs_ret |].
  rbind. eapply runs_core; [exact Hx |]. intros k _ Ek. rbind. eapply runs_read; [rewrite <- Ek in En; exact En |]. rbind. apply IH. intros r. by apply runs_ret.
Qed.

Lemma runs_enum_key held p x index info_class max_size s (Q : enum_key_reply -> reg -> Prop) :
  inv held (view s) -> w_keys (view s) !! p = Some x -> c_del x = false -> (forall r s', view s' = view s -> Q r s') -> runs (enum_key alloc_ok p index info_class max_size) s Q.
Proof.
  intros Hi Hx Hd HQ. pose proof (i_tree _ _ _ Hi) as Ht. unfold enum_key. rbind. eapply runs_core; [exact Hx |]. intros k _ Ek. assert (Es : rk_subkeys k = c_subs x) by (by rewrite <- Ek). rewrite Es.
  assert (Herr : forall e s', view s' = view s -> runs (do _ <- set_error e; fret no_enum_reply) s' Q).
  { intros e s' E. rbind. apply runs_set_error. intros s2 E2. apply runs_ret, HQ. congruence. }
  destruct (rflag k KEY_PREDEF); [by apply Herr |]. destruct (negb (index =? -1) && _) eqn:Erange; [by apply Herr |].
  assert (Hsub : exists c n par, (if index =? -1 then Some p else c_subs x !! Z.to_nat index) = Some c /\ named (w_keys (view s)) c n par).
  { destruct (Z.eqb_spec index (-1)) as [-> | Hne].
    - destruct (tr_del _ _ Ht p x Hx) as [Hdn _]. destruct (c_name x) as [[n par] |] eqn:En; [| rewrite (proj2 Hdn eq_refl) in Hd; done]. exists p, n, par. split; [done | by exists x].
    - cbn in Erange. destruct (lookup_lt_is_Some_2 (c_subs x) (Z.to_nat index)) as [c Hc]; [lia |]. destruct (tr_down _ _ Ht p x c Hx) as [n Hn]; [by eapply list_elem_of_lookup_2 |]. by exists c, n, (InKey p). }
  destruct Hsub as (c & n & par & Ec & Hn). rbind. eapply runs_read; [exact Ec |]. pose proof Hn as (y & Hy & En). rbind. eapply runs_core; [exact Hy |]. intros kc _ Ekc.
  rbind. eapply runs_read; [rewrite <- Ekc in En; exact En |]. rbind. apply runs_heap_size. cbv zeta. rbind.
  assert (Hinfos : forall Q', (forall r, Q' r s) -> runs (subkey_infos (rk_subkeys kc)) s Q').
  { intros Q' HQ'. apply runs_subkey_infos; [| done]. assert (Ekcs : rk_subkeys kc = c_subs y) by (by rewrite <- Ekc). rewrite Ekcs. apply Forall_forall. intros d Hd'.
    destruct (tr_down _ _ Ht c y d Hy Hd') as [nd Hnd]. eauto. }
  destruct (chain_exists casemap _ c n par Ht Hn) as (l & Hl & Hlen).
  apply (runs_mono _ _ (fun _ s' => view s' = view s)).
  { repeat match goal with |- context [if ?b then _ else _] => destruct b end; try (by apply runs_ret); try (rbind; apply runs_set_error; intros s2 E2; by apply runs_ret).
    - rbind. apply runs_alloc. intros [] s2 E2; [| by apply runs_ret]. rbind. eapply runs_full_name; [rewrite E2; exact Hl | lia |]. intros r. by apply runs_ret.
    - rbind. apply Hinfos. intros r. by apply runs_ret.
    - rbind. apply Hinfos. intros r. by apply runs_ret. }
  intros [[[nm clen] base] |] s2 E2; [| by apply runs_ret, HQ]. rbind.
  apply (runs_mono _ _ (fun _ s' => view s' = view s)).
  { destruct (_ =? 0); [by apply runs_ret |]. destruct (_ <=? 512); [by apply runs_ret |]. apply runs_mem_alloc. intros ok s3 E3. congruence. }
  intros ok s3 E3. by apply runs_ret, HQ.
Qed.

Lemma runs_req_enum process hkey index info_class max_size s (Q : enum_key_reply -> reg -> Prop) :
  inv [] (view s) -> (forall r s', inv [] (view s') -> Q r s') -> runs (req_enum_key alloc_ok refusal process hkey index info_class max_size) s Q.
Proof.
  intros Hi HQ. unfold req_enum_key. rbind. apply (runs_get_hkey_obj casemap); [done | |].
  - intros s1 Hi1. by apply runs_ret, HQ.
  - intros p x s1 _ Hi1 _ Hx Hd. rbind. eapply runs_enum_key; [exact Hi1 | exact Hx | done |]. intros r s2 E2. rbind. eapply (runs_release_inv casemap); [by rewrite E2 |]. intros s3 Hi3 _. by apply runs_ret, HQ.
Qed.

Lemma runs_req_notify process hkey event subtree filter s (Q : unit -> reg -> Prop) :
  inv [] (view s) -> (forall s', inv [] (view s') -> Q tt s') -> runs (req_set_notification alloc_ok refusal process hkey event subtree filter) s Q.
Proof.
  intros Hi HQ. unfold req_set_notification. rbind. apply (runs_get_hkey_obj casemap); [done | |].
  { intros s1 Hi1. by apply runs_ret, HQ. }
  intros p x s1 _ Hi1 _ Hx _. assert (Hp : forall s', view s' = view s1 -> is_Some (w_keys (view s') !! p)) by (intros s' ->; eauto).
  rbind. apply (runs_mono _ _ (fun _ s' => view s' = view s1)).
  2:{ intros [] s2 E2. eapply (runs_release_inv casemap); [by rewrite E2 |]. auto. }
  destruct event as [e |]; [| by apply runs_set_error]. rbind. apply runs_log. intros s2 E2. rbind. eapply runs_core; [rewrite E2; exact Hx |]. intros k _ _.
  rbind. apply (runs_mono _ _ (fun _ s' => view s' = view s1)).
  { destruct (find_notify process hkey (rk_notify k)); [by apply runs_ret |]. rbind. apply runs_mem_alloc. intros ok s3 E3. rbind. rewrite E2 in E3.
    destruct ok; [| by apply runs_ret, runs_ret]. apply runs_updk_quiet; [by apply Hp | done |]. intros s4 E4. apply runs_ret. congruence. }
  intros have s3 E3. rbind. apply (runs_mono _ _ (fun _ s' => view s' = view s1)).
  2:{ intros [] s4 E4. apply runs_log. intros s5 E5. congruence. }
  destruct have; cbn [negb]; [| by apply runs_ret]. rbind. apply runs_alloc. intros ok s4 E4. rewrite E3 in E4. destruct ok.
  2:{ apply runs_set_error. intros s5 E5. congruence. }
  rbind. eapply runs_core; [rewrite E4; exact Hx |]. intros k4 _ _. rbind. apply runs_log. intros s5 E5. rewrite E4 in E5.
  rbind. apply runs_updk_quiet; [by apply Hp | done |]. intros s6 E6. rewrite E5 in E6. rbind. apply runs_log. intros s7 E7. apply runs_set_error. intros s8 E8. congruence.
Qed.

(** ** Creating and opening *)

Context (dir_lookup : wstr -> Z -> dir_answer) (dir_errors : forall path attr, dir_lookup path attr <> DirError 0).
Abbreviation inside := (inside dir_lookup).

Lemma inside_steady w w' : steady w w' -> inside (w_keys w) -> inside (w_keys w').
Proof.
  intros Hs Hin p x v path rem Hx Hl Hv Hb. destruct (sd_back _ _ Hs p x Hx) as (x0 & Hx0 & E). pose proof (f_equal c_link E) as E1. pose proof (f_equal c_vals E) as E2. cbn in E1, E2.
  apply (Hin p x0 v path rem); congruence.
Qed.

Lemma calm_steady attr w w' : steady w w' -> calm attr (w_keys w) -> calm attr (w_keys w').
Proof.
  intros Hs Hc Ha c x n up d y k Hx Hn Hsh Hy Hk. destruct (sd_back _ _ Hs c x Hx) as (x0 & Hx0 & E). destruct (sd_back _ _ Hs d y Hy) as (y0 & Hy0 & E').
  pose proof (f_equal c_share E) as E1. pose proof (f_equal c_name E) as E2. pose proof (f_equal c_link E') as E3. pose proof (f_equal c_name E') as E4. cbn in E1, E2, E3, E4.
  rewrite E3. apply (Hc Ha c x0 n up d y0 k); congruence.
Qed.

Lemma calm_same a b m : bit b OBJ_KEY_WOW64 = bit a OBJ_KEY_WOW64 -> calm a m -> calm b m.
Proof. unfold calm. by intros ->. Qed.

(** The parent of a request, held unless there is none. *)
Lemma runs_request_parent {A} process rootdir (k : option Z -> R A) none s (Q : A -> reg -> Prop) :
  inv [] (view s) -> (forall s', inv [] (view s') -> runs none s' Q) ->
  (forall parent s', inv (option_list parent) (view s') -> steady (view s) (view s') -> (forall p, parent = Some p -> exists n par, named (w_keys (view s')) p n par) -> runs (k parent) s' Q) ->
  runs (do r <- request_parent alloc_ok refusal process rootdir; match r with None => none | Some parent => k parent end) s Q.
Proof.
  intros Hi HN HS. unfold request_parent. rbind. destruct rootdir as [h |].
  - rbind. apply (runs_get_hkey_obj casemap); [done | |].
    + intros s1 Hi1. apply runs_ret. by apply HN.
    + intros p x s1 _ Hi1 Hs1 Hx Hd. apply runs_ret. apply HS; [done | done |]. intros ? [= <-]. pose proof (i_tree _ _ _ Hi1) as Ht.
      destruct (alive_named casemap (view s1) Ht p x Hx Hd) as (n & par & Hn & _). eauto.
  - apply runs_ret. apply HS; [done | apply steady_refl | done].
Qed.

Lemma runs_request_root {A} parent access name (k : option Z -> R A) s (Q : A -> reg -> Prop) :
  tree (w_keys (view s)) -> (forall p, parent = Some p -> exists n par, named (w_keys (view s)) p n par) ->
  (forall root, (forall p, root = Some p -> is_Some (w_keys (view s) !! p)) -> runs (k root) s Q) ->
  runs (do root <- request_root casemap parent access name; k root) s Q.
Proof.
  intros Ht Hp HS. rbind. destruct parent as [p |]; cbn [request_root]; [| by apply runs_ret, HS].
  destruct (Hp p eq_refl) as (n & par & Hn). rbind. eapply runs_wow_parent; [done | exact Hn |]. intros q Hq. apply runs_ret, HS. by intros ? [= <-].
Qed.

Lemma runs_release_opt parent s (Q : unit -> reg -> Prop) : inv (option_list parent) (view s) -> (forall s', inv [] (view s') -> Q tt s') -> runs (release_opt alloc_ok parent) s Q.
Proof. intros Hi HQ. destruct parent as [p |]; cbn [release_opt]; [| by apply runs_ret, HQ]. eapply (runs_release_inv casemap); [exact Hi |]. auto. Qed.

Lemma free_answer_steady process answer w w' : w_open w' = w_open w -> free_answer process answer w -> free_answer process answer w'.
Proof. unfold free_answer. destruct answer; [done |]. by intros ->. Qed.

(** A held key gets a handle and is released. *)
Lemma runs_hand_out held process p answer s (Q : unit -> reg -> Prop) :
  inv (p :: held) (view s) -> free_answer process answer (view s) -> (forall s', inv held (view s') -> Q tt s') ->
  runs (do _ <- alloc_handle process p answer; release_object alloc_ok p) s Q.
Proof.
  intros Hi Hf HQ. rbind. eapply (runs_alloc_handle casemap); [exact Hi | apply (i_held _ _ _ Hi); by left | done |]. intros s1 Hi1 _. eapply (runs_release_inv casemap); [exact Hi1 |]. auto.
Qed.

Lemma runs_predef held k s (Q : unit -> reg -> Prop) : inv held (view s) -> (forall s', inv held (view s') -> view s' = view s -> Q tt s') ->
  runs (if rflag k KEY_PREDEF then set_error REG_PREDEFINED_HANDLE else fret tt) s Q.
Proof. intros Hi HQ. destruct (rflag k KEY_PREDEF); [| by apply runs_ret, HQ]. apply runs_set_error. intros s1 E1. apply HQ; [by rewrite E1 | done]. Qed.

(** What a request for a key may count on. *)
Record admits (process : Z) (attr : Z) (answer : Z + Z) (w : world) : Prop := mkAdmits {
  ad_handle : free_answer process answer w;
  ad_inside : inside (w_keys w);
  ad_calm : calm attr (w_keys w)
}.

Lemma admits_steady process attr answer w w' : steady w w' -> admits process attr answer w -> admits process attr answer w'.
Proof. intros Hs [H1 H2 H3]. split; [by eapply free_answer_steady; [apply (sd_open _ _ Hs) |] | by eapply inside_steady | by eapply calm_steady]. Qed.

Lemma runs_req_open process wow64 rootdir name attr access answer s (Q : unit -> reg -> Prop) :
  inv [] (view s) -> admits process (wow_attr (wow_access wow64 access) attr) answer (view s) -> (forall s', inv [] (view s') -> Q tt s') ->
  runs (req_open_key casemap alloc_ok dir_lookup refusal process wow64 rootdir name attr access answer) s Q.
Proof using dir_errors.
  intros Hi Ha HQ. unfold req_open_key. set (acc := wow_access wow64 access) in *. set (at' := wow_attr acc attr) in *.
  apply runs_request_parent; [done | intros s1 Hi1; by apply runs_ret, HQ |]. intros parent s1 Hi1 Hs1 Hpar.
  apply runs_request_root; [apply (i_tree _ _ _ Hi1) | done |]. intros root Hroot. pose proof (admits_steady _ _ _ _ _ Hs1 Ha) as [Hf1 Hin1 Hc1].
  rbind. ruse (runs_open casemap alloc_ok dir_lookup dir_errors (option_list parent) root name at' s1 Hi1 Hin1 Hc1 Hroot). intros o s2 [Hs2 Ho].
  pose proof (free_answer_steady _ _ _ _ (sd_open _ _ Hs2) Hf1) as Hf2.
  rbind. apply (runs_mono _ _ (fun _ s' => inv (option_list parent) (view s'))); [| intros [] s3 Hi3; by eapply runs_release_opt].
  destruct o as [p |]; [| by apply runs_ret]. rbind.
  apply (runs_mono _ _ (fun q s' => inv (q :: option_list parent) (view s') /\ steady (view s2) (view s'))).
  { destruct (bit acc KEY_WOW64_64KEY); [apply runs_ret; split; [done | apply steady_refl] |]. eapply runs_grab_wow; [exact Ho |]. auto. }
  intros q s3 [Hi3 Hs3]. destruct (i_held _ _ _ Hi3 q) as [x Hx]; [by left |]. rbind. eapply runs_core; [exact Hx |]. intros k _ _.
  rbind. eapply runs_predef; [exact Hi3 |]. intros s4 Hi4 E4. eapply runs_hand_out; [exact Hi4 | rewrite E4; by eapply free_answer_steady; [apply (sd_open _ _ Hs3) |] |]. auto.
Qed.

Lemma runs_req_create process wow64 rootdir name attr options access class sd_ok answer s (Q : unit -> reg -> Prop) :
  inv [] (view s) -> admits process (wow_attr (wow_access wow64 access) attr) answer (view s) -> (forall s', inv [] (view s') -> Q tt s') ->
  runs (req_create_key casemap alloc_ok dir_lookup refusal process wow64 rootdir name attr options access class sd_ok answer) s Q.
Proof using dir_errors.
  intros Hi Ha HQ. unfold req_create_key. rbind. apply runs_get. set (acc := wow_access wow64 access) in *. set (at' := wow_attr acc attr) in *. cbv zeta.
  set (data := mkInit options class (rs_time s)). set (at2 := if bit options REG_OPTION_CREATE_LINK then _ else at').
  assert (Hbit : bit at2 OBJ_KEY_WOW64 = bit at' OBJ_KEY_WOW64).
  { unfold at2. destruct (bit options REG_OPTION_CREATE_LINK); [| done]. rewrite flag_lor by done. unfold bit. by rewrite <- Z.land_assoc. }
  apply runs_request_parent; [done | intros s1 Hi1; by apply runs_ret, HQ |]. intros parent s1 Hi1 Hs1 Hpar.
  apply runs_request_root; [apply (i_tree _ _ _ Hi1) | done |]. intros root Hroot. pose proof (admits_steady _ _ _ _ _ Hs1 Ha) as [Hf1 Hin1 Hc1].
  pose proof (calm_same _ at2 _ Hbit Hc1) as Hc2. rbind.
  apply (runs_mono _ _ (fun o s' => match o with
           | None => inv (option_list parent) (view s')
           | Some p => inv (p :: option_list parent) (view s') /\ free_answer process answer (view s') /\
               (name = [] \/ rs_error s' = REG_NAME_EXISTS \/ exists q t, named (w_keys (view s')) p t (InKey q)) end)).
  { destruct name as [| c name'].
    - ruse (runs_open casemap alloc_ok dir_lookup dir_errors (option_list parent) root [] at2 s1 Hi1 Hin1 Hc2 Hroot). intros [p |] s2 [Hs2 Ho]; [| done].
      split_and!; [done | by eapply free_answer_steady; [apply (sd_open _ _ Hs2) |] | by left].
    - ruse (runs_create casemap alloc_ok dir_lookup dir_errors (option_list parent) root (c :: name') at2 data sd_ok s1); try done. intros [p |] s2 Ho; [| done].
      destruct Ho as (Hi2 & Ho & Hp). split_and!; [done | by eapply free_answer_steady |]. right. destruct Hp as [He | (w & w' & q & t & _ & Hcr & Hs2)]; [by left |].
      right. exists q, t. apply (steady_named _ _ _ _ _ Hs2). apply (cr_name _ _ _ _ _ _ Hcr). }
  intros o s2 Ho. rbind. apply (runs_mono _ _ (fun _ s' => inv (option_list parent) (view s'))); [| intros [] s3 Hi3; by eapply runs_release_opt].
  destruct o as [p |]; [| by apply runs_ret]. destruct Ho as (Hi2 & Hf2 & Hp). rbind. apply runs_get_error.
  destruct (match name with [] => true | _ => rs_error s2 =? REG_NAME_EXISTS end) eqn:Ee.
  - destruct (i_held _ _ _ Hi2 p) as [x Hx]; [by left |]. rbind. eapply runs_core; [exact Hx |]. intros k _ _. rbind. eapply runs_predef; [exact Hi2 |]. intros s3 Hi3 E3.
    rbind. apply (runs_mono _ _ (fun q s' => inv (q :: option_list parent) (view s') /\ steady (view s3) (view s'))).
    { destruct (bit acc KEY_WOW64_64KEY); [apply runs_ret; split; [done | apply steady_refl] |]. eapply runs_grab_wow; [exact Hi3 |]. auto. }
    intros q s4 [Hi4 Hs4]. eapply runs_hand_out; [exact Hi4 | eapply free_answer_steady; [apply (sd_open _ _ Hs4) | by rewrite E3] |]. auto.
  - assert (Hnew : exists q t, named (w_keys (view s2)) p t (InKey q)).
    { destruct Hp as [-> | [He | Hp]]; [done | | done]. destruct name; [done |]. lia. }
    destruct Hnew as (q & t & Hn). rbind. eapply (runs_alloc_handle casemap); [exact Hi2 | apply (i_held _ _ _ Hi2); by left | exact Hf2 |]. intros s3 Hi3 Hnames.
    pose proof (Hnames _ _ _ Hn) as Hn3. pose proof (i_tree _ _ _ Hi3) as Ht3. rbind.
    apply (runs_mono _ _ (fun _ s' => view s' = view s3)).
    { destruct parent as [pp |]; [| by apply runs_ret]. rbind. eapply runs_get_parent; [exact Hn3 |]. rbind. eapply runs_read; [done |].
      destruct (parent_named casemap _ p t q Ht3 Hn3) as (nq & parq & Hq). eapply (runs_touch_key casemap); [exact Ht3 | exact Hq |]. auto. }
    intros [] s4 E4. eapply (runs_release_inv casemap); [rewrite E4; exact Hi3 |]. auto.
Qed.

Lemma runs_req_unload process privileged rootdir name attr s (Q : unit -> reg -> Prop) :
  inv [] (view s) -> inside (w_keys (view s)) -> calm attr (w_keys (view s)) -> (forall s', inv [] (view s') -> Q tt s') ->
  runs (req_unload_registry casemap alloc_ok dir_lookup refusal process privileged rootdir name attr) s Q.
Proof using dir_errors.
  intros Hi Hin Hc HQ. unfold req_unload_registry. destruct privileged; cbn [negb].
  2:{ apply runs_set_error. intros s1 E1. apply HQ. by rewrite E1. }
  apply runs_request_parent; [done | intros s1 Hi1; by apply runs_ret, HQ |]. intros parent s1 Hi1 Hs1 Hpar. rbind.
  ruse (runs_open casemap alloc_ok dir_lookup dir_errors (option_list parent) parent name attr s1); [done | by eapply inside_steady | by eapply calm_steady | |].
  { intros p Hp. destruct (Hpar p Hp) as (n & par & x & Hx & _). eauto. }
  intros o s2 [_ Ho]. rbind. apply (runs_mono _ _ (fun _ s' => inv (option_list parent) (view s'))); [| intros [] s3 Hi3; by eapply runs_release_opt].
  destruct o as [p |]; [| by apply runs_ret]. destruct (i_held _ _ _ Ho p) as [x Hx]; [by left |]. rbind. eapply runs_core; [exact Hx |]. intros k _ _. rbind.
  apply (runs_mono _ _ (fun _ s' => inv (p :: option_list parent) (view s'))); [| intros [] s3 Hi3; eapply (runs_release_inv casemap); [exact Hi3 |]; auto].
  destruct (negb (rk_handles k =? 0)); [apply runs_set_error; intros s3 E3; by rewrite E3 |]. destruct (rk_permanent k); [apply runs_set_error; intros s3 E3; by rewrite E3 |].
  rbind. eapply (runs_delete_key casemap); [exact Ho | exact Hx |]. intros ok s3 Hi3 _ _. by apply runs_ret.
Qed.

(** Loading a file, when reading it into the key is understood. *)
Lemma runs_req_load load process privileged rootdir name attr sd_ok s (Q : unit -> reg -> Prop) :
  (forall p held s', inv (p :: held) (view s') -> runs (load p) s' (fun _ s'' => inv (p :: held) (view s''))) ->
  name <> [] -> inv [] (view s) -> inside (w_keys (view s)) -> calm attr (w_keys (view s)) -> (forall s', inv [] (view s') -> Q tt s') ->
  runs (req_load_registry casemap alloc_ok dir_lookup refusal load process privileged rootdir name attr sd_ok) s Q.
Proof using dir_errors.
  intros Hload Hne Hi Hin Hc HQ. unfold req_load_registry. rbind. apply runs_get. destruct privileged; cbn [negb].
  2:{ apply runs_set_error. intros s1 E1. apply HQ. by rewrite E1. }
  apply runs_request_parent; [done | intros s1 Hi1; by apply runs_ret, HQ |]. intros parent s1 Hi1 Hs1 Hpar. rbind.
  ruse (runs_create casemap alloc_ok dir_lookup dir_errors (option_list parent) parent name attr (mkInit 0 [] (rs_time s)) sd_ok s1); [done | done | by eapply inside_steady | by eapply calm_steady | |].
  { intros p Hp. destruct (Hpar p Hp) as (n & par & x & Hx & _). eauto. }
  intros o s2 Ho. rbind. apply (runs_mono _ _ (fun _ s' => inv (option_list parent) (view s'))); [| intros [] s3 Hi3; by eapply runs_release_opt].
  destruct o as [p |]; [| by apply runs_ret]. destruct Ho as [Ho _]. rbind. ruse (Hload p (option_list parent) s2 Ho). intros [] s3 Hi3. eapply (runs_release_inv casemap); [exact Hi3 |]. auto.
Qed.
End Requests.

(** * Values *)

(** ** What operations on values keep *)

Definition same_flags (s s' : rg) : Prop := k_flags (rg_key s') = k_flags (rg_key s).

#[local] Instance same_flags_preorder : PreOrder same_flags.
Proof. split; [done |]. intros a b c H1 H2. unfold same_flags in *. congruence. Qed.

Lemma get_same_flags : keeps same_flags mget.
Proof. done. Qed.

Lemma modify_same_flags f : (forall s, same_flags s (f s)) -> keeps same_flags (mmodify f).
Proof. by intros H s. Qed.

#[export] Hint Resolve get_same_flags modify_same_flags : c_db.

(** Reading leaves the key alone. *)
Definition same_key (s s' : rg) : Prop := rg_key s' = rg_key s.

#[local] Instance same_key_preorder : PreOrder same_key.
Proof. split; [done |]. intros a b c H1 H2. unfold same_key in *. congruence. Qed.

#[local] Hint Extern 2 (keeps same_key (mmodify _)) => (by intros ?) : c_db.
#[local] Hint Extern 2 (keeps same_key mget) => (by intros ?) : c_db.

Section Values.
Context (casemap : Z -> Z) (alloc_ok : nat -> bool) (refusal : reg -> Z -> Z -> Z -> option Z).
Abbreviation tree := (tree casemap).
Abbreviation inv := (inv casemap).
Abbreviation alike := (alike casemap).
Abbreviation low := (lower casemap).

Lemma alloc_same_flags : keeps same_flags (rg_mem_alloc alloc_ok).
Proof. intros s. unfold rg_mem_alloc, rg_alloc. rewrite bind_run. cbn. by destruct (alloc_ok (rg_allocs s)). Qed.

#[local] Hint Extern 1 (keeps same_flags _) => apply alloc_same_flags : c_db.
#[local] Hint Extern 2 (keeps same_flags (mmodify _)) => (apply modify_same_flags; intros ?; reflexivity) : c_db.

Lemma grow_same_flags : keeps same_flags (grow_values alloc_ok).
Proof. unfold grow_values. keeps_auto. Qed.

#[local] Hint Extern 1 (keeps same_flags _) => apply grow_same_flags : c_db.

Lemma set_same_flags junk name type data : keeps same_flags (set_value casemap alloc_ok junk name type data).
Proof. unfold set_value, insert_value, write_value, RegValue.touch_key. keeps_auto. Qed.

Lemma delete_same_flags name : keeps same_flags (delete_value casemap alloc_ok name).
Proof. unfold delete_value, RegValue.touch_key. keeps_auto; by intros s. Qed.

Lemma alloc_same_key : keeps same_key (rg_mem_alloc alloc_ok).
Proof. intros s. unfold rg_mem_alloc, rg_alloc. rewrite bind_run. cbn. by destruct (alloc_ok (rg_allocs s)). Qed.

#[local] Hint Extern 1 (keeps same_key _) => apply alloc_same_key : c_db.

Lemma get_value_same_key name max_size : keeps same_key (get_value casemap name max_size).
Proof. unfold get_value. keeps_auto. Qed.

Lemma enum_value_same_key i info_class max_size : keeps same_key (enum_value alloc_ok i info_class max_size).
Proof. unfold enum_value. keeps_auto. Qed.

(** Values in order are a map. *)
Lemma sorted_names vs : StronglySorted (vlt casemap) vs -> NoDup (map (fun v => low (v_name v)) vs).
Proof.
  induction 1 as [| v vs Hs IH Hf]; cbn; constructor; [| done]. intros Hin. apply list_elem_of_fmap in Hin as (w & E & Hw).
  apply (proj1 (Forall_forall _ _) Hf) in Hw. unfold vlt in Hw. rewrite E in Hw. by eapply lex_irrefl.
Qed.

Lemma key_represents k : key_ok casemap k -> exists m, represents casemap k m.
Proof.
  intros Hk. exists (list_to_map (map (fun v => (low (v_name v), v)) (k_values k))). split; [done |]. intros n v.
  rewrite <- elem_of_list_to_map.
  - rewrite list_elem_of_fmap. split; [intros (w & [= -> ->] & Hw); done | intros [Hv <-]; eauto].
  - rewrite <- list_fmap_compose. by apply sorted_names, (ko_sorted _ _ Hk).
Qed.

(** An operation that keeps values in order and flags as they are. *)
Definition values_op {A} (op : M rg A) : Prop :=
  forall s, key_ok casemap (rg_key s) -> key_ok casemap (rg_key (op s).2) /\ k_flags (rg_key (op s).2) = k_flags (rg_key s).

Lemma set_value_op junk name type data : short name -> values_op (set_value casemap alloc_ok junk name type data).
Proof.
  intros Hn s Hk. split; [| apply set_same_flags]. destruct (key_represents _ Hk) as [m Hm]. destruct (set_value_spec casemap alloc_ok junk name type data s m Hm Hn) as (m' & _ & H).
  apply H.
Qed.

Lemma delete_value_op name : short name -> values_op (delete_value casemap alloc_ok name).
Proof.
  intros Hn s Hk. split; [| apply delete_same_flags]. destruct (has_flag (rg_key s) KEY_PREDEF) eqn:Ep.
  - unfold delete_value. rewrite bind_run. cbn [mget fst snd]. rewrite Ep. exact Hk.
  - destruct (key_represents _ Hk) as [m Hm]. by destruct (delete_value_spec casemap alloc_ok 0 name s m Hm Hn Ep) as [[H _] _].
Qed.

Lemma reading_op {A} (op : M rg A) : keeps same_key op -> values_op op.
Proof. intros H s Hk. specialize (H s). unfold same_key in H. by rewrite H. Qed.

(** ** In the tree *)

Definition cvals (k : key) (x : core) : core :=
  mkCore (c_ref x) (c_handles x) (c_name x) (c_subs x) (c_nb x) (c_wow x) (k_values k) (k_nb_values k) (c_del x) (c_link x) (c_share x).

Lemma key_ok_flags k x : core_of k = x -> key_ok casemap (values_of x) <-> key_ok casemap (rk_key k).
Proof. intros <-. destruct k as [? ? ? ? ? ? ? ? [vs nb f] ? ?]. split; intros [H1 H2 H3 H4]; by split. Qed.

Lemma runs_touch_all p n par changes s (Q : unit -> reg -> Prop) :
  tree (w_keys (view s)) -> named (w_keys (view s)) p n par -> (forall s', view s' = view s -> Q tt s') -> runs (touch_all p changes) s Q.
Proof.
  revert s Q. induction changes as [| c cs IH]; intros s Q Ht Hn HQ; cbn [touch_all]; [by apply runs_ret, HQ |].
  rbind. eapply (runs_touch_key casemap); [exact Ht | exact Hn |]. intros s1 E1. apply IH; rewrite ?E1; [done | done |]. intros s2 E2. apply HQ. congruence.
Qed.

Lemma runs_on_values {A} held p x (op : M rg A) s (Q : A -> reg -> Prop) :
  inv held (view s) -> w_keys (view s) !! p = Some x -> c_del x = false -> values_op op ->
  (forall a s' k, inv held (view s') -> view s' = put p (cvals k x) (view s) -> Q a s') -> runs (on_values p op) s Q.
Proof.
  intros Hi Hx Hd Hop HQ. pose proof (i_tree _ _ _ Hi) as Ht. unfold on_values. rbind. eapply runs_core; [exact Hx |]. intros k Hk Ek. rbind. apply runs_get. cbv zeta.
  set (s0 := mkRg (rk_key k) (rs_allocs s) (rs_error s) []). destruct (Hop s0) as [Hok Hfl]; [apply (key_ok_flags k x Ek); by apply (tr_values _ _ Ht p x) |].
  set (r := op s0) in *. cbn [rg_key s0] in Hfl. rbind. apply runs_modify. set (s1 := mkReg _ _ _ _ _ _ _ _). change (view s) with (view s1) in *. clearbody s1. clear Hk.
  set (x' := cvals (rg_key r.2) x). rbind. eapply (runs_write p _ x'); [exact Hx | |].
  { intros k1 Ek1. assert (Ef : forall f, rflag (with_key (rg_key r.2) k1) f = rflag k f) by (intros f; unfold rflag, has_flag, with_key; cbn; by rewrite Hfl).
    unfold core_of at 1. rewrite !Ef. unfold x', cvals. rewrite <- Ek1 at 1 2 3 4 5 6. rewrite <- Ek. done. }
  intros s2 E2. destruct (i_refs _ _ _ Hi p x Hx) as [H1 H2].
  assert (A1 : alike x x').
  { destruct (alike_refl casemap _ p x Ht Hx). split; try done. destruct Hok as [O1 O2 O3 O4]. by split. }
  assert (Hi2 : inv held (view s2)) by (rewrite E2; eapply inv_put; done).
  destruct (tr_del _ _ Ht p x Hx) as [Hdn _]. destruct (c_name x) as [[n par] |] eqn:En; [| rewrite (proj2 Hdn eq_refl) in Hd; done].
  rbind. eapply runs_touch_all; [apply (i_tree _ _ _ Hi2) | exists x'; rewrite E2; cbn; rewrite lookup_insert_eq; done |]. intros s3 E3. apply runs_ret.
  eapply HQ; rewrite E3; [done | exact E2].
Qed.

Lemma runs_with_values {A} process hkey access none (op : M rg A) s (Q : A -> reg -> Prop) :
  inv [] (view s) -> values_op op -> (forall a s', inv [] (view s') -> Q a s') -> runs (with_values alloc_ok refusal process hkey access none op) s Q.
Proof.
  intros Hi Hop HQ. unfold with_values. rbind. apply (runs_get_hkey_obj casemap); [done | |].
  - intros s1 Hi1. by apply runs_ret, HQ.
  - intros p x s1 _ Hi1 _ Hx Hd. rbind. eapply runs_on_values; [exact Hi1 | exact Hx | done | done |]. intros a s2 k Hi2 _. rbind.
    eapply (runs_release_inv casemap); [exact Hi2 |]. intros s3 Hi3 _. by apply runs_ret, HQ.
Qed.
End Values.
