(* ===== verification/RegKeyTheorems.v ===== *)
(** * What the tree of registry keys promises

    No sequence of requests makes the tree inconsistent or the server fault; deletion takes
    out exactly a branch; renaming moves exactly one key; a change sets exactly the events of
    the notifications that watch the key itself or, with the keys below, a key above it,
    and each of them once. *)

From stdpp Require Import base list gmap.
From Stdlib Require Import ZArith Lia ZifyBool Sorted.
From S2P Require Import Prelude Fallible Atom AtomProofs RegValue RegValueProofs RegKey RegKeyProofs RegKeyTree RegKeyRefs RegKeyChange RegKeyLookup RegKeyCreate RegKeyRequests.

Open Scope Z_scope.
Open Scope fallible_scope.

(** * Requests, deletion and renaming *)

(** ** Requests *)

Inductive request :=
  | CreateKey (process : Z) (wow64 : bool) (rootdir : option Z) (name : wstr) (attr options access : Z) (class : list Z) (sd_ok : bool) (answer : Z + Z)
  | OpenKey (process : Z) (wow64 : bool) (rootdir : option Z) (name : wstr) (attr access : Z) (answer : Z + Z)
  | DeleteKey (process hkey : Z)
  | RenameKey (process hkey : Z) (name : wstr)
  | EnumKey (process hkey index info_class max_size : Z)
  | WatchKey (process hkey : Z) (event : option Z) (subtree : bool) (filter : Z)
  | UnloadKey (process : Z) (privileged : bool) (rootdir : option Z) (name : wstr) (attr : Z)
  | SetValue (junk process hkey : Z) (req_data : list Z) (name_len type : Z)
  | GetValue (process hkey : Z) (name : wstr) (max_size : Z)
  | EnumValue (process hkey i info_class max_size : Z)
  | DeleteValue (process hkey : Z) (name : wstr)
  | CloseKey (process hkey : Z).

Section Requests.
Context (casemap : Z -> Z) (alloc_ok : nat -> bool) (dir_lookup : wstr -> Z -> dir_answer) (refusal : reg -> Z -> Z -> Z -> option Z).
Abbreviation inv := (inv casemap).

Definition serve (r : request) : R unit :=
  match r with
  | CreateKey process wow64 rootdir name attr options access class sd_ok answer =>
      req_create_key casemap alloc_ok dir_lookup refusal process wow64 rootdir name attr options access class sd_ok answer
  | OpenKey process wow64 rootdir name attr access answer => req_open_key casemap alloc_ok dir_lookup refusal process wow64 rootdir name attr access answer
  | DeleteKey process hkey => req_delete_key alloc_ok refusal process hkey
  | RenameKey process hkey name => req_rename_key casemap alloc_ok refusal process hkey name
  | EnumKey process hkey index info_class max_size => do _ <- req_enum_key alloc_ok refusal process hkey index info_class max_size; fret tt
  | WatchKey process hkey event subtree filter => req_set_notification alloc_ok refusal process hkey event subtree filter
  | UnloadKey process privileged rootdir name attr => req_unload_registry casemap alloc_ok dir_lookup refusal process privileged rootdir name attr
  | SetValue junk process hkey req_data name_len type => set_key_value casemap alloc_ok refusal junk process hkey req_data name_len type
  | GetValue process hkey name max_size => do _ <- get_key_value casemap alloc_ok refusal process hkey name max_size; fret tt
  | EnumValue process hkey i info_class max_size => do _ <- enum_key_value alloc_ok refusal process hkey i info_class max_size; fret tt
  | DeleteValue process hkey name => delete_key_value casemap alloc_ok refusal process hkey name
  | CloseKey process hkey => close_key_handle alloc_ok process hkey
  end.

(** What a request may count on: the handle table gives a free handle, links lead to keys
    only, for a 32-bit program no link lies beside a shared key, and names of values are
    no longer than a request can hold. *)
Definition admissible (r : request) (w : world) : Prop :=
  match r with
  | CreateKey process wow64 _ _ attr _ access _ _ answer => admits dir_lookup process (wow_attr (wow_access wow64 access) attr) answer w
  | OpenKey process wow64 _ _ attr access answer => admits dir_lookup process (wow_attr (wow_access wow64 access) attr) answer w
  | UnloadKey _ _ _ _ attr => inside dir_lookup (w_keys w) /\ calm attr (w_keys w)
  | SetValue _ _ _ req_data name_len _ => short (bytes_units (take (Z.to_nat (name_len / 2 * 2)) req_data))
  | DeleteValue _ _ name => short name
  | _ => True
  end.

(** The registry when its root has been created. *)
Definition start (time : Z) : reg :=
  mkReg {[0 := mkRKey 1 0 true (Some (mkName [0x52; 0x45; 0x47; 0x49; 0x53; 0x54; 0x52; 0x59] InDirectory)) [] [] 0 None (mkKey [] 0 KEY_DIRTY) time []]}
    1 (Some 0) 0 time 0 [] ∅.

(** Whatever requests have been served so far. *)
Inductive history : reg -> Prop :=
  | history_start time : history (start time)
  | history_step s r s' : history s -> admissible r (view s) -> serve r s = Some (tt, s') -> history s'.

Lemma start_inv time : inv [] (view (start time)).
Proof.
  set (x := mkCore 1 0 (Some (mkName [0x52; 0x45; 0x47; 0x49; 0x53; 0x54; 0x52; 0x59] InDirectory)) [] 0 None [] 0 false false false).
  assert (E : view (start time) = mkWorld {[0 := x]} ∅ 1 (Some 0)) by (unfold view, start; cbn; by rewrite map_fmap_singleton).
  rewrite E. clear E.
  assert (Hl : forall p y, ({[0 := x]} : gmap Z core) !! p = Some y -> p = 0 /\ y = x) by (intros p y [<- <-]%lookup_singleton_Some; done).
  assert (Hn : forall c n par, named {[0 := x]} c n par -> c = 0 /\ par = InDirectory) by (intros c n par (y & [-> ->]%Hl & [= _ <-]); done).
  split; cbn [w_keys w_open w_next w_root].
  - split.
    + by intros p y c [-> ->]%Hl ?%elem_of_nil.
    + by intros c n p [_ ?]%Hn.
    + by intros c n par [_ ->]%Hn.
    + intros p y [-> ->]%Hl. constructor.
    + by intros c n p [_ ?]%Hn.
    + intros p y [-> ->]%Hl. by split; [| left].
    + by intros p y [-> ->]%Hl.
    + by intros p y c [-> ->]%Hl.
    + by intros p y n par [-> ->]%Hl.
    + exists (fun _ => O). by intros c n p [_ ?]%Hn.
    + intros p y [-> ->]%Hl. split; cbn; [constructor | constructor | lia | by left].
  - by intros p y [-> ->]%Hl.
  - by intros h p ?%lookup_empty_Some.
  - by intros p ?%elem_of_nil.
  - intros p [y [-> _]%Hl]. lia.
  - exists 0, [0x52; 0x45; 0x47; 0x49; 0x53; 0x54; 0x52; 0x59]. split; [done |]. exists x. by rewrite lookup_singleton_eq.
Qed.

Context (dir_errors : forall path attr, dir_lookup path attr <> DirError 0).

Lemma runs_serve r s : inv [] (view s) -> admissible r (view s) -> runs (serve r) s (fun _ s' => inv [] (view s')).
Proof using dir_errors.
  intros Hi Ha.
  assert (Hv : forall A process hkey access (none : A) op, values_op casemap op -> runs (do _ <- with_values alloc_ok refusal process hkey access none op; fret tt) s (fun _ s' => inv [] (view s'))).
  { intros A process hkey access none op Hop. rbind. eapply (runs_with_values casemap); [exact Hi | exact Hop |]. intros a s1 Hi1. by apply runs_ret. }
  destruct r; cbn [serve admissible] in *.
  - by eapply runs_req_create.
  - by eapply runs_req_open.
  - by eapply runs_req_delete.
  - by eapply runs_req_rename.
  - rbind. eapply runs_req_enum; [exact Hi |]. intros r s1 Hi1. by apply runs_ret.
  - by eapply runs_req_notify.
  - destruct Ha as [H1 H2]. by eapply runs_req_unload.
  - unfold set_key_value. destruct (_ <? name_len); [apply runs_set_error; intros s1 E1; by rewrite E1 |].
    eapply (runs_with_values casemap); [exact Hi | by apply set_value_op |]. done.
  - apply Hv. apply reading_op, get_value_same_key.
  - apply Hv. apply reading_op, enum_value_same_key.
  - eapply (runs_with_values casemap); [exact Hi | by apply delete_value_op |]. done.
  - by eapply runs_close.
Qed.

(** C11: whatever requests create, open, rename, watch, enumerate, unload, delete and close
    registry keys, their values changing in between: keys and parents keep knowing each
    other, subkeys stay in order and in their array, every open key stays allocated, its
    handles are counted and its references cover them, and the next request ends without
    following a dangling pointer. *)
Theorem registry_requests_safe s :
  history s -> inv [] (view s) /\ forall r, admissible r (view s) -> exists s', serve r s = Some (tt, s').
Proof using dir_errors.
  intros H. assert (Hi : inv [] (view s)).
  { induction H as [time | s r s' _ Hi Ha Hr]; [apply start_inv |]. destruct (runs_serve r s Hi Ha) as (u & s2 & H2 & Hi2). rewrite Hr in H2. by injection H2 as <- <-. }
  split; [done |]. intros r Ha. destruct (runs_serve r s Hi Ha) as ([] & s' & Hr & _). eauto.
Qed.

(** ** Deleting *)

(** Nothing below a key that lost its name keeps its own. *)
Lemma below_gone m m' p r : tree casemap m' ->
  (forall c z', m' !! c = Some z' -> exists z, m !! c = Some z /\ (c_name z' = c_name z \/ c_name z' = None)) ->
  (forall n par, ~ named m' p n par) -> below m p r -> forall n par, ~ named m' r n par.
Proof.
  intros Ht Hn Hp (l & Hl & Hin) n par Hr. destruct (chain_exists casemap m' r n par Ht Hr) as (l' & Hl' & _). pose proof (chain_earlier _ _ _ _ Hl' Hn) as Hl2.
  rewrite (chain_fun _ _ _ _ Hl Hl2) in Hin. clear -Hl' Hin Hp. induction Hl' as [r n par Hr Hk | r n q l Hr Hq IH].
  - apply list_elem_of_singleton in Hin as ->. by eapply Hp.
  - apply elem_of_cons in Hin as [-> | Hin]; [by eapply Hp | by apply IH].
Qed.

(** C12: deleting a key, with all keys below it or only when there are none, ends without a
    fault.  It fails exactly when there are subkeys that are not to be deleted, or the key or
    one below it is predefined; without [recurse] nothing then changes.  When it succeeds no key
    of the branch has a name any more, the parent has all its other subkeys left, and touching
    the parent is the last thing done.  Either way
    no predefined key loses its name, no key outside the branch changes but the parent and
    the keys above it, and those above the parent only become dirty and tell who asked for the
    changes of names below them. *)
Theorem delete_key_takes_branch held p x q n recurse s :
  inv held (view s) -> w_keys (view s) !! p = Some x -> c_name x = Some (mkName n (InKey q)) ->
  exists ok s', delete_key alloc_ok p recurse s = Some (ok, s') /\ inv held (view s') /\
    (ok = false <-> (recurse = false /\ c_subs x <> []) \/
       exists r k, below (w_keys (view s)) p r /\ rs_heap s !! r = Some k /\ rflag k KEY_PREDEF = true) /\
    (recurse = false -> ok = false -> rs_heap s' = rs_heap s) /\
    (ok = true -> forall r k par, below (w_keys (view s)) p r -> ~ named (w_keys (view s')) r k par) /\
    (forall r k l par, rs_heap s !! r = Some k -> rflag k KEY_PREDEF = true -> named (w_keys (view s)) r l par -> named (w_keys (view s')) r l par) /\
    (forall y, w_keys (view s) !! q = Some y -> exists y', w_keys (view s') !! q = Some y' /\
       exists nb wow, y' = csubs (if ok then filter (fun c => c <> p) (c_subs y) else c_subs y) nb wow y) /\
    (ok = true -> exists s1, view s1 = view s' /\ touch_key q REG_NOTIFY_CHANGE_NAME s1 = Some (tt, s')) /\
    (forall r, ~ below (w_keys (view s)) p r -> r <> q -> rs_heap s' !! r = rs_heap s !! r \/
       above (w_keys (view s)) q r /\ exists k k', rs_heap s !! r = Some k /\ rs_heap s' !! r = Some k' /\ told REG_NOTIFY_CHANGE_NAME k k').
Proof.
  intros Hi Hx Hn. destruct (runs_delete_key casemap alloc_ok held p x recurse s
    (fun ok s' => inv held (view s') /\ delete_effect p x recurse ok s s' /\ (ok = false -> delete_blocked p x recurse s)) Hi Hx) as (ok & s' & Hr & Hi' & [D Hk Hs Hto Hst Hsp] & Hb); [auto |].
  unfold delete_post in D. rewrite Hn in D.
  assert (Hgone : ok = true -> forall r k par, below (w_keys (view s)) p r -> ~ named (w_keys (view s')) r k par).
  { intros -> r k par Hbe. eapply below_gone; [apply (i_tree _ _ _ Hi') | apply (de_names _ _ _ _ _ D) | | exact Hbe]. intros l pl. by apply (de_gone _ _ _ _ _ D). }
  exists ok, s'. split_and!; [done | done | split | done | done | exact Hk | apply (de_parent _ _ _ _ _ D) | by apply (Hto n q Hn) |].
  - intros E. destruct (Hb E) as [H | [H | [l H]]]; [by right | by left | congruence].
  - intros [[-> H] | (r & k & Hbe & Hrk & Hp)]; [by apply Hs |]. destruct ok; [| done]. exfalso. pose proof Hbe as (l & Hl & _). destruct (chain_named _ _ _ Hl) as (nr & par & Hnr).
    by apply (Hgone eq_refl r nr par Hbe), (Hk r k).
  - intros r Hnb Hrq. destruct (Hsp n q Hn r) as [[? | ?] | ?]; [done | done | auto].
Qed.

(** ** Renaming *)

(** C13: renaming a key ends without a fault.  It is refused exactly when the name is not a
    single path element of allowed length, the key is the root, the parent has a subkey of
    that name, the parent keeps the key or would keep the name for 32-bit programs, or memory
    runs out; the first of these that holds gives the error, and no key changes.  Otherwise
    the key has the new name and the parent the same subkeys in the order of their names;
    then the key is touched, by which keys above become dirty and tell who asked, and nothing
    else has changed. *)
Theorem rename_key_exact held p x name s :
  inv held (view s) -> w_keys (view s) !! p = Some x -> c_del x = false ->
  exists s', rename_key casemap alloc_ok p name s = Some (tt, s') /\ inv held (view s') /\
    ((exists e, rename_refused casemap alloc_ok p x name s e /\ rs_error s' = e /\ rs_heap s' = rs_heap s /\ rs_open s' = rs_open s) \/
     (forall e, ~ rename_refused casemap alloc_ok p x name s e) /\
     exists q n, c_name x = Some (mkName n (InKey q)) /\ renamed casemap p q name (view s) (view s') /\
       spares REG_NOTIFY_CHANGE_NAME (fun r => r = p \/ r = q) (above (w_keys (view s)) q) s s' /\
       exists kp kq l s1, rs_heap s !! p = Some kp /\ rs_heap s !! q = Some kq /\
         rs_heap s1 = <[p := with_name (Some (mkName name (InKey q))) kp]> (<[q := with_subkeys l kq]> (rs_heap s)) /\ rs_log s1 = rs_log s /\
         touch_key p REG_NOTIFY_CHANGE_NAME s1 = Some (tt, s')).
Proof.
  intros Hi Hx Hd. destruct (runs_rename_key casemap alloc_ok held p x s name (fun _ s' => inv held (view s') /\ rename_effect casemap alloc_ok p x name s s') Hi Hx Hd)
    as ([] & s' & Hr & H); [auto |]. by exists s'.
Qed.
End Requests.

(** * Who is told of a change *)

(** The notifications of every key. *)
Definition notes (s : reg) : gmap Z (list notify) := rk_notify <$> rs_heap s.

(** What the notifications of a key do when it changes, or one below it does: the events
    are set and released in their order, and forgotten. *)
Definition wake (change : Z) (itself : bool) (ns : list notify) : list revent :=
  flat_map (fun n => if asked change itself n then flat_map (fun e => [SetEvent e; Released e]) (n_events n) else []) ns.

Lemma wakes_up_asked change itself n : wakes_up change itself n = asked change itself n.
Proof. reflexivity. Qed.

Definition same_notes (s s' : reg) : Prop := rs_log s' = rs_log s /\ notes s' = notes s.

#[local] Instance same_notes_preorder : PreOrder same_notes.
Proof. split; [done |]. intros a b c [H1 H2] [H3 H4]. split; congruence. Qed.

Lemma notes_put s p k k' : rs_heap s !! p = Some k -> rk_notify k' = rk_notify k -> same_notes s (set_heap (<[p := k']> (rs_heap s)) s).
Proof.
  intros Hk E. split; [done |]. unfold notes. cbn. rewrite fmap_insert, E. apply insert_id. by rewrite lookup_fmap, Hk.
Qed.

Lemma make_dirty_notes fuel p : along same_notes (make_dirty fuel p).
Proof. apply make_dirty_along; [apply _ |]. intros s c k f _ Hk. by eapply notes_put. Qed.

Lemma check_notify_exact p change b s s' ns :
  check_notify p change b s = Some (tt, s') -> notes s !! p = Some ns ->
  rs_log s' = rs_log s ++ wake change b ns /\ notes s' = <[p := hush change b ns]> (notes s).
Proof.
  unfold notes. rewrite lookup_fmap. intros H Hns. destruct (rs_heap s !! p) as [k |] eqn:Hk; [| done]. injection Hns as <-.
  apply fbind_some in H as (k1 & s1 & [Hk1 ->]%fread_some & H). rewrite Hk in Hk1. injection Hk1 as <-. apply fbind_some in H as ([] & s2 & [= <-] & H).
  apply fbind_some in H as (k2 & s3 & [Hk2 ->]%fread_some & [= <-]). cbn in *. rewrite Hk in Hk2. injection Hk2 as <-. split; [done |]. by rewrite fmap_insert.
Qed.

Section Notify.
Context (casemap : Z -> Z).

Lemma chain_nodup m p l : tree casemap m -> chain m p l -> NoDup l.
Proof.
  intros Ht Hl. destruct (tr_rank _ _ Ht) as [rank Hr]. induction Hl as [p n par Hn Hk | p n q l Hn Hq IH]; [apply NoDup_singleton |]. constructor; [| done].
  intros Hin. pose proof (below_rank m rank q l Hr Hq p Hin). specialize (Hr _ _ _ Hn). lia.
Qed.

Lemma chain_notes s p l : chain (w_keys (view s)) p l -> forall q, q ∈ l -> exists ns, notes s !! q = Some ns.
Proof.
  intros Hl. induction Hl as [p n par (x & Hx & _) _ | p n q l (x & Hx & _) _ IH]; intros r Hr.
  - apply list_elem_of_singleton in Hr as ->. destruct (heap_view _ _ _ Hx) as (k & Hk & _). exists (rk_notify k). unfold notes. by rewrite lookup_fmap, Hk.
  - apply elem_of_cons in Hr as [-> | Hr]; [| by apply IH]. destruct (heap_view _ _ _ Hx) as (k & Hk & _). exists (rk_notify k). unfold notes. by rewrite lookup_fmap, Hk.
Qed.

Lemma notify_parents_exact change p l : forall s s' fuel, NoDup l -> chain (w_keys (view s)) p l -> notify_parents fuel p change s = Some (tt, s') ->
  rs_log s' = rs_log s ++ flat_map (fun q => wake change false (default [] (notes s !! q))) (tail l) /\
  forall q, notes s' !! q = if decide (q ∈ tail l) then hush change false <$> notes s !! q else notes s !! q.
Proof.
  intros s s' fuel Hnd Hl. remember (w_keys (view s)) as m eqn:Em. revert s s' fuel Hnd Em.
  induction Hl as [p n par Hn Hk | p n q l Hn Hq IH]; intros s s' fuel Hnd -> H; (destruct fuel as [| fuel]; [done |]); cbn [notify_parents] in H.
  - apply fbind_some in H as (up & s1 & Hup & H). destruct (runs_get_parent p n par s (fun o s1 => o = match par with InKey q => Some q | _ => None end /\ s1 = s) Hn) as (o & s2 & H2 & -> & ->); [done |].
    rewrite Hup in H2. injection H2 as -> ->. destruct par as [| q |]; [| by destruct (Hk q) |]; injection H as <-; cbn; rewrite app_nil_r; (split; [done |]); intros q;
      (rewrite decide_False; [done | apply not_elem_of_nil]).
  - apply fbind_some in H as (up & s1 & Hup & H). destruct (runs_get_parent p n (InKey q) s (fun o s1 => o = Some q /\ s1 = s) Hn) as (o & s2 & H2 & -> & ->); [done |].
    rewrite Hup in H2. injection H2 as -> ->. apply fbind_some in H as ([] & s1 & Hc & H). apply NoDup_cons in Hnd as [Hp Hnd].
    destruct (chain_notes s q l Hq q (chain_self _ _ _ Hq)) as [ns Hns]. destruct (check_notify_exact _ _ _ _ _ _ Hc Hns) as [Hlog Hnotes].
    assert (Ev : view s1 = view s).
    { destruct (runs_check_notify q change false s (fun _ s2 => view s2 = view s)) as (u & s2 & H2 & E2); [| done |].
      - destruct (chain_named _ _ _ Hq) as (k & par & x & Hx & _). eauto.
      - rewrite Hc in H2. by injection H2 as _ <-. }
    destruct (IH s1 s' fuel Hnd ltac:(by rewrite Ev) H) as [Hlog2 Hnotes2]. cbn [tail].
    assert (El : exists ups, l = q :: ups) by (inversion Hq; eauto). destruct El as [ups ->]. cbn [tail] in *. apply NoDup_cons in Hnd as [Hqu Hnd].
    assert (Hother : forall r, r <> q -> notes s1 !! r = notes s !! r) by (intros r Hr; by rewrite Hnotes, lookup_insert_ne).
    split.
    + rewrite Hlog2, Hlog. cbn [flat_map]. rewrite Hns, <- app_assoc. cbn [default]. do 2 f_equal. rewrite !flat_map_concat_map. f_equal. apply map_ext_in. intros r Hr.
      rewrite Hother; [done |]. intros ->. apply Hqu. by apply list_elem_of_In.
    + intros r. rewrite Hnotes2. destruct (decide (r ∈ ups)) as [Hr | Hr].
      * rewrite (decide_True (P := r ∈ q :: ups)) by (by right). rewrite Hother; [done |]. by intros ->.
      * destruct (decide (r = q)) as [-> | Hne].
        -- rewrite (decide_True (P := q ∈ q :: ups)) by (by left). by rewrite Hnotes, lookup_insert_eq, Hns.
        -- rewrite (decide_False (P := r ∈ q :: ups)) by (intros [-> | ?]%elem_of_cons; done). by apply Hother.
Qed.

(** C14: changing a key tells exactly those who asked: every notification of the key whose
    filter has the kind of change, and every such notification of a key above it that
    includes the keys below, from the key upwards; each event is set and released once and
    forgotten, and all other notifications stay. *)
Theorem touch_key_tells_watchers p n par ups change s :
  tree casemap (w_keys (view s)) -> named (w_keys (view s)) p n par -> chain (w_keys (view s)) p (p :: ups) ->
  exists s', touch_key p change s = Some (tt, s') /\ view s' = view s /\
    rs_log s' = rs_log s ++ wake change true (default [] (notes s !! p)) ++ flat_map (fun q => wake change false (default [] (notes s !! q))) ups /\
    forall q, notes s' !! q = if decide (q = p) then hush change true <$> notes s !! q
                              else if decide (q ∈ ups) then hush change false <$> notes s !! q else notes s !! q.
Proof.
  intros Ht Hn Hl. pose proof Hn as (x & Hx & _). assert (Hp : forall s', view s' = view s -> is_Some (w_keys (view s') !! p)) by (intros s' ->; eauto).
  pose proof (chain_bound casemap _ _ _ Ht Hl) as Hlen. pose proof (chain_nodup _ _ _ Ht Hl) as Hnd. destruct (chain_notes s p _ Hl p ltac:(by left)) as [ns Hns].
  enough (H : runs (touch_key p change) s (fun _ s' => view s' = view s /\
    rs_log s' = rs_log s ++ wake change true ns ++ flat_map (fun q => wake change false (default [] (notes s !! q))) ups /\
    forall q, notes s' !! q = if decide (q = p) then hush change true <$> notes s !! q
                              else if decide (q ∈ ups) then hush change false <$> notes s !! q else notes s !! q)).
  { destruct H as ([] & s' & H & H1 & H2 & H3). exists s'. rewrite Hns. auto. }
  unfold touch_key. rbind. apply runs_heap_size. rbind. apply runs_get. rbind. eapply runs_mono.
  { apply (runs_both _ _ (fun _ s' => view s' = view s) (fun _ s' => same_notes s s')); [apply runs_updk_quiet; eauto |].
    intros a s' (k & s2 & [Hk ->]%fread_some & [= _ <-])%fbind_some. by eapply notes_put. }
  intros [] s1 [E1 [L1 N1]]. rbind. eapply runs_mono.
  { apply (runs_along same_notes); [apply make_dirty_notes |]. apply (runs_make_dirty casemap (p :: ups) p s1 _ (fun _ s' => view s' = view s)); [by rewrite E1 | lia |]. intros s' ->. done. }
  intros [] s2 [E2 [L2 N2]]. rbind. eapply runs_mono.
  { apply (runs_both _ _ (fun _ s' => view s' = view s) (fun _ s' => rs_log s' = rs_log s2 ++ wake change true ns /\ notes s' = <[p := hush change true ns]> (notes s2))).
    - apply runs_check_notify; [by apply Hp |]. intros s' ->. done.
    - intros [] s' H. apply (check_notify_exact _ _ _ _ _ _ H). by rewrite N2, N1. }
  intros [] s3 [E3 [L3 N3]]. eapply runs_mono.
  { apply (runs_both _ _ (fun _ s' => view s' = view s) (fun _ s' => rs_log s' = rs_log s3 ++ flat_map (fun q => wake change false (default [] (notes s3 !! q))) ups /\
      forall q, notes s' !! q = if decide (q ∈ ups) then hush change false <$> notes s3 !! q else notes s3 !! q)).
    - apply (runs_notify_parents (p :: ups)); [by rewrite E3 | lia |]. intros s' ->. done.
    - intros [] s' H. apply (notify_parents_exact change p (p :: ups) s3 s' (S (size (w_keys (view s)))) Hnd); [by rewrite E3 | exact H]. }
  apply NoDup_cons in Hnd as [Hpu _]. intros [] s4 [E4 [L4 N4]]. split; [done |]. rewrite N2, N1 in N3. split.
  - rewrite L4, L3, L2, L1, <- app_assoc. do 2 f_equal. rewrite !flat_map_concat_map. f_equal. apply map_ext_in. intros q Hq. rewrite N3, lookup_insert_ne; [done |].
    intros <-. apply Hpu. by apply list_elem_of_In.
  - intros q. rewrite N4, N3. destruct (decide (q = p)) as [-> | Hne].
    + rewrite decide_False by done. by rewrite lookup_insert_eq, Hns.
    + by rewrite lookup_insert_ne.
Qed.
End Notify.
