(* ===== verification/RegKeyExamples.v ===== *)
(** * A small registry, and requests that go wrong

    Two keys made by requests, and the theorems of [RegKeyTheorems] at them; then a key
    without a name and a link beside a shared key, both outside what [RegKeyTheorems] asks
    of requests.  [init_registry] makes the keys of a first start, and [check_world] decides
    the invariant of registries of this kind. *)

From stdpp Require Import base list gmap.
From Stdlib Require Import ZArith Lia ZifyBool Ascii String Sorted.
From S2P Require Import Prelude Fallible Atom AtomProofs RegValue RegValueProofs RegKey RegKeyProofs RegKeyTree RegKeyRefs RegKeyChange RegKeyLookup RegKeyCreate RegKeyRequests RegKeyTheorems.

Open Scope Z_scope.
Open Scope fallible_scope.

(** * A small registry *)

Definition units (s : string) : wstr := map (fun c => Z.of_N (N_of_ascii c)) (list_ascii_of_string s).

Definition root_name : wstr := units "REGISTRY".
Definition alpha : wstr := units "Alpha".
Definition beta : wstr := units "Beta".

(** The directory holds the registry under its name. *)
Definition registry_directory (path : wstr) (attr : Z) : dir_answer :=
  let '(e, after) := path_element path in
  if bool_decide (e = root_name) then DirRegistry (match skip_backslashes after with [] => None | rest => Some rest end)
  else DirError REG_NAME_NOT_FOUND.

Lemma registry_directory_errors path attr : registry_directory path attr <> DirError 0.
Proof. unfold registry_directory. destruct (path_element path). by destruct (bool_decide _). Qed.

(** A case mapping with the three levels of the file's: the letters A to Z. *)
Definition ascii_casemap (i : Z) : Z :=
  if i <? 0x100 then 0x100
  else if i =? 0x104 then 0x200
  else if i =? 0x105 then 0x400
  else if i <? 0x200 then 0x300
  else if ((0x201 <=? i) && (i <=? 0x20f)) || ((0x400 <=? i) && (i <=? 0x40a)) then 32 else 0.

Abbreviation yes := (fun _ : nat => true).
(** Handles are never refused for lack of access. *)
Abbreviation never := (fun (_ : reg) (_ _ _ : Z) => @None Z).
Abbreviation run := (serve ascii_casemap yes registry_directory never).

Definition after (r : request) (s : reg) : reg := match run r s with Some (_, s') => s' | None => s end.

Definition make_a : request := CreateKey 1 false None (units "\REGISTRY\Alpha") OBJ_CASE_INSENSITIVE 0 KEY_WOW64_64KEY [] true (inr 4).
Definition make_b : request := CreateKey 1 false (Some 4) beta OBJ_CASE_INSENSITIVE 0 KEY_WOW64_64KEY [] true (inr 8).
Definition watch_a : request := WatchKey 1 4 (Some 77) true (Z.lor REG_NOTIFY_CHANGE_NAME REG_NOTIFY_CHANGE_LAST_SET).

Definition with_a : reg := after make_a (start 0).
Definition with_b : reg := after make_b with_a.
Definition watched : reg := after watch_a with_b.

(** Where there are no links, every lookup is admitted. *)
Lemma no_links_admits process attr answer w :
  map_Forall (fun _ x => c_link x = false) (w_keys w) -> free_answer process answer w -> admits registry_directory process attr answer w.
Proof.
  intros Hn Hf. split; [done | |].
  - intros p x v path rem Hx Hl. by rewrite (Hn p x Hx) in Hl.
  - intros _ c x n up d y k _ _ _ Hy _. exact (Hn d y Hy).
Qed.

Lemma start_history : history ascii_casemap yes registry_directory never (start 0).
Proof. constructor. Qed.

Lemma make_a_admissible : admissible registry_directory make_a (view (start 0)).
Proof. apply no_links_admits; [refine (bool_decide_unpack _ _); vm_compute; exact I | vm_compute; reflexivity]. Qed.

Lemma with_a_history : history ascii_casemap yes registry_directory never with_a.
Proof. eapply (history_step _ _ _ _ (start 0) make_a); [apply start_history | apply make_a_admissible | vm_compute; reflexivity]. Qed.

Lemma with_b_history : history ascii_casemap yes registry_directory never with_b.
Proof.
  eapply (history_step _ _ _ _ with_a make_b); [apply with_a_history | | vm_compute; reflexivity].
  apply no_links_admits; [refine (bool_decide_unpack _ _); vm_compute; exact I | vm_compute; reflexivity].
Qed.

Lemma watched_history : history ascii_casemap yes registry_directory never watched.
Proof. eapply (history_step _ _ _ _ with_b watch_a); [apply with_b_history | exact I | vm_compute; reflexivity]. Qed.

(** Requests and histories keep the invariant. *)
Lemma serve_inv r s s' : inv ascii_casemap [] (view s) -> admissible registry_directory r (view s) -> run r s = Some (tt, s') -> inv ascii_casemap [] (view s').
Proof.
  intros Hi Ha Hr. destruct (runs_serve ascii_casemap yes registry_directory never registry_directory_errors r s Hi Ha) as (u & s2 & H2 & Hi2).
  rewrite Hr in H2. by injection H2 as <- <-.
Qed.

Lemma history_inv s : history ascii_casemap yes registry_directory never s -> inv ascii_casemap [] (view s).
Proof. induction 1 as [time | s r s' _ Hi Ha Hr]; [apply start_inv | by eapply serve_inv]. Qed.

Lemma registry_requests_safe_witness : exists s', run make_b with_a = Some (tt, s').
Proof.
  destruct (registry_requests_safe ascii_casemap yes registry_directory never registry_directory_errors with_a with_a_history) as [_ H].
  apply H. apply no_links_admits; [refine (bool_decide_unpack _ _); vm_compute; exact I | vm_compute; reflexivity].
Defined.

Lemma delete_key_takes_branch_witness : exists s', delete_key yes 1 true with_b = Some (true, s') /\ forall k par, ~ named (w_keys (view s')) 2 k par.
Proof.
  destruct (delete_key_takes_branch ascii_casemap yes [] 1 (default fresh (w_keys (view with_b) !! 1)) 0 alpha true with_b)
    as (ok & s' & Hr & _ & _ & _ & Hgone & _).
  - apply history_inv, with_b_history.
  - vm_compute. reflexivity.
  - vm_compute. reflexivity.
  - assert (E : exists s', delete_key yes 1 true with_b = Some (true, s')) by (eexists; vm_compute; reflexivity). destruct E as [s2 E]. rewrite E in Hr. injection Hr as <- <-.
    exists s2. split; [exact E |]. intros k par. apply (Hgone eq_refl 2 k par). exists [2; 1; 0]. split; [| by right; left].
    eapply (chain_up _ 2 beta 1); [eexists; split; vm_compute; reflexivity |].
    eapply (chain_up _ 1 alpha 0); [eexists; split; vm_compute; reflexivity |].
    eapply (chain_top _ 0 root_name InDirectory); [eexists; split; vm_compute; reflexivity | done].
Defined.

Lemma rename_key_exact_witness : exists s', rename_key ascii_casemap yes 2 (units "Gamma") with_b = Some (tt, s') /\ inv ascii_casemap [] (view s').
Proof.
  destruct (rename_key_exact ascii_casemap yes [] 2 (default fresh (w_keys (view with_b) !! 2)) (units "Gamma") with_b) as (s' & Hr & Hi & _).
  - apply history_inv, with_b_history.
  - vm_compute. reflexivity.
  - vm_compute. reflexivity.
  - exists s'. split; [exact Hr | exact Hi].
Defined.

(** A value set below a watched key tells the watcher. *)
Lemma touch_key_tells_watchers_witness : exists s', touch_key 2 REG_NOTIFY_CHANGE_LAST_SET watched = Some (tt, s') /\ rs_log s' = rs_log watched ++ [SetEvent 77; Released 77].
Proof.
  destruct (touch_key_tells_watchers ascii_casemap 2 beta (InKey 1) [1; 0] REG_NOTIFY_CHANGE_LAST_SET watched) as (s' & Hr & _ & Hlog & _).
  - exact (i_tree _ _ _ (history_inv _ watched_history)).
  - eexists. split; vm_compute; reflexivity.
  - eapply (chain_up _ 2 beta 1); [eexists; split; vm_compute; reflexivity |].
    eapply (chain_up _ 1 alpha 0); [eexists; split; vm_compute; reflexivity |].
    eapply (chain_top _ 0 root_name InDirectory); [eexists; split; vm_compute; reflexivity | done].
  - exists s'. split; [exact Hr |]. rewrite Hlog. vm_compute. reflexivity.
Defined.

(** * Requests that go wrong *)

(** ** Keys without a name *)

Section Nameless.
Context (casemap : Z -> Z) (alloc_ok : nat -> bool) (dir_lookup : wstr -> Z -> dir_answer) (refusal : reg -> Z -> Z -> Z -> option Z).

Lemma nameless_faults root attr data s : alloc_ok (rs_allocs s) = true -> create_named_object casemap alloc_ok dir_lookup root [] attr data true s = None.
Proof.
  intros Ha. unfold create_named_object, create_object_with_name, create_without_name, alloc_object, mem_alloc, alloc, clear_error, set_error, fbind, fmodify, fret. cbn.
  rewrite Ha. cbn. unfold key_init, get_parent, getk, fbind, fread. cbn. by rewrite lookup_insert_eq.
Qed.

(** C39: when memory is there, asking for a key to be loaded under an empty name, or creating
    keys along a path with an empty element first, makes the server follow the null name
    of the new key. *)
Theorem nameless_key_faults load process attr p k rest modif s :
  alloc_ok (rs_allocs s) = true -> rs_heap s !! p = Some k ->
  req_load_registry casemap alloc_ok dir_lookup refusal load process true None [] attr true s = None /\
  create_key_recursive casemap alloc_ok dir_lookup p (backslash :: rest) modif s = None.
Proof.
  intros Ha Hk. split.
  - unfold req_load_registry, fbind, fget. cbn. by rewrite nameless_faults.
  - unfold create_key_recursive. rewrite (fbind_eq _ _ s tt (set_heap (<[p := with_ref (rk_ref k + 1) k]> (rs_heap s)) s)).
    + cbn [Datatypes.length create_loop path_element]. rewrite Z.eqb_refl. unfold fbind. by rewrite nameless_faults.
    + unfold grab_object, updk, fbind, getk, fread. by rewrite Hk.
Qed.
End Nameless.

Lemma nameless_key_faults_witness : create_key_recursive ascii_casemap yes registry_directory 0 (units "\Alpha") 0 (start 0) = None.
Proof.
  destruct (nameless_key_faults ascii_casemap yes registry_directory never (fun _ => fret tt) 1 0 0 (default (mkRKey 0 0 false None [] [] 0 None (mkKey [] 0 0) 0 []) (rs_heap (start 0) !! 0))
    (units "Alpha") 0 (start 0)) as [_ H].
  - reflexivity.
  - vm_compute. reflexivity.
  - exact H.
Defined.

(** ** A link beside a shared key *)

Definition IMAGE_FILE_MACHINE_I386 : Z := 0x14c.
Definition IMAGE_FILE_MACHINE_ARMNT : Z := 0x1c4.
Definition NOT_REGISTRY_FILE : Z := 0xc000015c.

(** Where the classes of the 32-bit programs of a machine are. *)
Definition classes_name (machine : Z) : option wstr :=
  if machine =? IMAGE_FILE_MACHINE_I386 then Some (units "Software\Classes\Wow6432Node")
  else if machine =? IMAGE_FILE_MACHINE_ARMNT then Some (units "Software\Classes\WowAA32Node")
  else None.

Section Init.
Context (casemap : Z -> Z) (alloc_ok : nat -> bool) (dir_lookup : wstr -> Z -> dir_answer) (junk : Z).
(** What loading each of the three registry files does to a key; [None] for a file that
    cannot be opened. *)
Context (files : string -> option (Z -> R unit)).
Abbreviation create := (create_key_recursive casemap alloc_ok dir_lookup).
Abbreviation release := (release_object alloc_ok).

(** The key is remembered for saving, by a reference. *)
Definition load_init_registry_from_file (filename : string) (key : Z) : R bool :=
  let keep (opened : bool) : R bool := do _ <- grab_object key; do _ <- updk key make_permanent; fret opened in
  match files filename with
  | None => keep false
  | Some load => do _ <- load key; do e <- get_error; if e =? NOT_REGISTRY_FILE then fret true else keep true
  end.

Definition add_flag (f : Z) (p : Z) : R unit := updk p (fun k => with_flags (Z.lor (kflags k) f) k).

(** The keys that are shared: those of all machines but the first. *)
Fixpoint share_classes (hklm : Z) (machines : list Z) (time : Z) : R unit :=
  match machines with
  | [] => fret tt
  | machine :: machines' =>
      do _ <- (match classes_name machine with
               | None => fret tt
               | Some name =>
                   do key <- create hklm name time;
                   match key with Some p => do _ <- add_flag KEY_WOWSHARE p; release p | None => fret tt end
               end);
      share_classes hklm machines' time
  end.

(** [init_registry] once the root is made; without one of the three main keys the server
    does not start.  The kind of the prefix and the list of branches to save are left out. *)
Definition init_registry (supported_machines : list Z) (current_user : wstr) : R unit :=
  do s <- fget;
  let time := rs_time s in
  do root <- fread (rs_root s);
  do hklm <- create root (units "Machine") time;
  do hklm <- fread hklm;
  do loaded <- load_init_registry_from_file "system.reg" hklm;
  do _ <- (if loaded then fret tt
           else
             do key <- create hklm (units "System\CurrentControlSet") time;
             match key with
             | Some p =>
                 do _ <- add_flag KEY_SYMLINK p;
                 do _ <- on_values p (set_value casemap alloc_ok junk symlink_str REG_LINK (units_bytes (units "\Registry\Machine\System\ControlSet001")));
                 release p
             | None => fret tt
             end);
  do key <- create root (units "User\.Default") time;
  do key <- fread key;
  do _ <- load_init_registry_from_file "userdef.reg" key;
  do _ <- release key;
  do hkcu <- create root current_user time;
  do hkcu <- fread hkcu;
  do _ <- load_init_registry_from_file "user.reg" hkcu;
  do _ <- share_classes hklm (tail supported_machines) time;
  do key <- create hklm (units "Software\Microsoft\Windows NT\CurrentVersion\Perflib\009") time;
  do _ <- (match key with Some p => do _ <- add_flag KEY_PREDEF p; release p | None => fret tt end);
  do _ <- release hklm;
  release hkcu.
End Init.

(** *** A check of the invariant *)

Fixpoint lex_ltb (a b : list Z) : bool :=
  match a, b with
  | [], _ :: _ => true
  | x :: a', y :: b' => (x <? y) || ((x =? y) && lex_ltb a' b')
  | _, [] => false
  end.

Lemma lex_ltb_lt a b : lex_ltb a b = true -> lex_lt a b.
Proof. revert b. induction a as [| x a IH]; intros [| y b]; cbn; try done. intros H. destruct (Z.ltb_spec x y); [by left | right]. cbn in H. split; [lia | apply IH; by destruct (x =? y)]. Qed.

Fixpoint sortedb (lt : Z -> Z -> bool) (l : list Z) : bool := match l with [] => true | x :: l' => forallb (lt x) l' && sortedb lt l' end.

Section Check.
Context (casemap : Z -> Z) (w : world) (rank : Z -> nat).

Definition name_at (c : Z) : option oname := w_keys w !! c ≫= c_name.

Definition lt_at (c d : Z) : bool :=
  match name_at c, name_at d with Some a, Some b => lex_ltb (lower casemap (on_name a)) (lower casemap (on_name b)) | _, _ => false end.

(** A key that is not deleted and has at most one value. *)
Definition check_key (p : Z) (x : core) : bool :=
  forallb (fun c => match name_at c with Some (mkName _ (InKey q)) => q =? p | _ => false end) (c_subs x) && sortedb lt_at (c_subs x) &&
  (Z.of_nat (List.length (c_subs x)) <=? c_nb x) && ((c_nb x =? 0) || (MIN_SUBKEYS <=? c_nb x)) &&
  negb (c_del x) && (match c_wow x with Some c => bool_decide (c ∈ c_subs x) | None => true end) &&
  (match c_name x with
   | Some (mkName n (InKey q)) =>
       negb (Nat.eqb (List.length n) 0) && (namelen n <=? MAX_NAME_LEN * 2) && Nat.ltb (rank q) (rank p) &&
       match w_keys w !! q with Some y => bool_decide (p ∈ c_subs y) && (negb (c_share x) || (negb (c_link y) && negb (c_share y))) | None => false end
   | Some (mkName _ InDirectory) => negb (c_share x)
   | _ => false
   end) &&
  Nat.leb (List.length (c_vals x)) 1 && forallb (fun v => namelen (v_name v) <=? MAX_VALUE_LEN * 2) (c_vals x) &&
  (Z.of_nat (List.length (c_vals x)) <=? c_nbv x) && ((c_nbv x =? 0) || (MIN_VALUES <=? c_nbv x)) &&
  (c_handles x =? Z.of_nat (nopen (w_open w) p)) && (Z.of_nat (nopen (w_open w) p + 1) <=? c_ref x) && (p <? w_next w).

Definition check_world : bool :=
  forallb (fun kv => check_key kv.1 kv.2) (map_to_list (w_keys w)) && forallb (fun kv => bool_decide (is_Some (w_keys w !! kv.2))) (map_to_list (w_open w)) &&
  match w_root w ≫= name_at with Some (mkName _ InDirectory) => true | _ => false end.

Lemma name_at_named c n par : name_at c = Some (mkName n par) <-> named (w_keys w) c n par.
Proof. unfold name_at, named. rewrite bind_Some. done. Qed.

Lemma sortedb_sorted l : sortedb lt_at l = true -> StronglySorted (before casemap (w_keys w)) l.
Proof.
  induction l as [| c l IH]; cbn; [constructor |]. rewrite andb_true_iff, forallb_forall. intros [Hc Hl]. constructor; [by apply IH |]. apply Forall_forall. intros d Hd.
  specialize (Hc d ltac:(by apply list_elem_of_In)). unfold lt_at in Hc. destruct (name_at c) as [[n pn] |] eqn:Ec; [| done]. destruct (name_at d) as [[l0 pl] |] eqn:Ed; [| done].
  exists n, pn, l0, pl. split_and!; [by apply name_at_named | by apply name_at_named | by apply lex_ltb_lt].
Qed.

Lemma check_key_spec p x : check_key p x = true ->
  (forall c, c ∈ c_subs x -> exists n, named (w_keys w) c n (InKey p)) /\ StronglySorted (before casemap (w_keys w)) (c_subs x) /\
  (Z.of_nat (List.length (c_subs x)) <= c_nb x /\ (c_nb x = 0 \/ MIN_SUBKEYS <= c_nb x)) /\ c_del x = false /\ (forall c, c_wow x = Some c -> c ∈ c_subs x) /\
  ((exists n q y, c_name x = Some (mkName n (InKey q)) /\ (n <> [] /\ namelen n <= MAX_NAME_LEN * 2) /\ (rank q < rank p)%nat /\ w_keys w !! q = Some y /\ p ∈ c_subs y /\
      (c_share x = true -> c_link y = false /\ c_share y = false)) \/
   ((exists n, c_name x = Some (mkName n InDirectory)) /\ c_share x = false)) /\
  key_ok casemap (values_of x) /\ c_handles x = Z.of_nat (nopen (w_open w) p) /\ Z.of_nat (nopen (w_open w) p + 1) <= c_ref x /\ p < w_next w.
Proof.
  unfold check_key. rewrite !andb_true_iff, !forallb_forall, negb_true_iff. intros [[[[[[[[[[[[[H1 H2] H3] H4] H5] H6] H7] H8] H9] H10] H11] H12] H13] H14]. split_and!; try lia; try done.
  - intros c Hc. specialize (H1 c ltac:(by apply list_elem_of_In)). destruct (name_at c) as [[n [| q |]] |] eqn:E; try done. exists n. apply name_at_named. by assert (q = p) as <- by lia.
  - by apply sortedb_sorted.
  - intros c E. rewrite E in H6. by apply bool_decide_eq_true in H6.
  - destruct (c_name x) as [[n [| q |]] |]; [done | left | right | done].
    + destruct (w_keys w !! q) as [y |] eqn:Ey; [| by rewrite andb_false_r in H7]. rewrite !andb_true_iff, bool_decide_eq_true in H7. destruct H7 as [[[Hn Hl] Hr] [Hin Hs]].
      exists n, q, y. split_and!; try done; [by intros -> | lia | lia |]. intros E. rewrite E in Hs. by apply andb_true_iff in Hs as [?%negb_true_iff ?%negb_true_iff].
    + split; [eauto | by apply negb_true_iff].
  - split; cbn; try lia.
    + destruct (c_vals x) as [| v [|]]; [constructor | repeat constructor | done].
    + apply Forall_forall. intros v Hv. specialize (H9 v ltac:(by apply list_elem_of_In)). lia.
Qed.

Lemma check_inv : check_world = true -> inv casemap [] w.
Proof.
  unfold check_world. rewrite !andb_true_iff. intros [[Hk Ho] Hr].
  assert (Hck : forall p x, w_keys w !! p = Some x -> check_key p x = true).
  { intros p x Hx. apply elem_of_map_to_list, list_elem_of_In in Hx. by apply (proj1 (forallb_forall _ _) Hk (p, x)). }
  assert (Hcs := fun p x Hx => check_key_spec p x (Hck p x Hx)). clear Hk Hck.
  split; [split | | | | |].
  - intros p x c Hx. by apply (Hcs p x Hx).
  - intros c n p (x & Hx & En). destruct (Hcs c x Hx) as (_ & _ & _ & _ & _ & [(k & q & y & E & _ & _ & Hy & Hin & _) | [[k E] _]] & _); [| congruence].
    rewrite En in E. injection E as <- <-. eauto.
  - intros c n par (x & Hx & En). destruct (Hcs c x Hx) as (_ & _ & _ & _ & _ & [(k & q & y & E & _) | [[k E] _]] & _); rewrite En in E; injection E as <- ->; done.
  - intros p x Hx. by apply (Hcs p x Hx).
  - intros c n p (x & Hx & En). destruct (Hcs c x Hx) as (_ & _ & _ & _ & _ & [(k & q & y & E & H & _) | [[k E] _]] & _); [| congruence]. rewrite En in E. by injection E as <- <-.
  - intros p x Hx. by apply (Hcs p x Hx).
  - intros p x Hx. destruct (Hcs p x Hx) as (_ & _ & _ & Ed & _ & Hn & _). rewrite Ed. split; [| done]. split; [done |]. destruct Hn as [(k & q & y & E & _) | [[k E] _]]; congruence.
  - intros p x c Hx. by apply (Hcs p x Hx).
  - intros p x n par Hx En Es. destruct (Hcs p x Hx) as (_ & _ & _ & _ & _ & [(k & q & y & E & _ & _ & Hy & _ & H) | [_ E]] & _); [| congruence].
    rewrite En in E. injection E as <- ->. destruct (H Es). by exists q, y.
  - exists rank. intros c n p (x & Hx & En). destruct (Hcs c x Hx) as (_ & _ & _ & _ & _ & [(k & q & y & E & _ & H & _) | [[k E] _]] & _); [| congruence]. rewrite En in E. by injection E as <- <-.
  - intros p x Hx. by apply (Hcs p x Hx).
  - intros p x Hx. destruct (Hcs p x Hx) as (_ & _ & _ & _ & _ & Hn & _ & Hh & Hrf & _). split; [done |]. cbn.
    assert (linked x = 1%nat) as -> by (unfold linked; by destruct Hn as [(k & q & y & -> & _) | [[k ->] _]]). lia.
  - intros h p Hp. apply elem_of_map_to_list, list_elem_of_In in Hp. specialize (proj1 (forallb_forall _ _) Ho _ Hp). by intros ?%bool_decide_eq_true.
  - by intros p ?%elem_of_nil.
  - intros p [x Hx]. by apply (Hcs p x Hx).
  - destruct (w_root w) as [r |]; [| done]. cbn in Hr. destruct (name_at r) as [[n []] |] eqn:E; try done. exists r, n. split; [done |]. by apply name_at_named.
Qed.
End Check.

(** *** The registry of a machine with 32-bit programs *)

(** A 64-bit program makes [CLSID] in the classes a link to the key of that name in
    [Wow6432Node], and no such key is there. *)
Definition clsid_path : wstr := units "\REGISTRY\Machine\Software\Classes\CLSID".
Definition target_path : wstr := units "\REGISTRY\Machine\Software\Classes\Wow6432Node\CLSID".
Definition make_link : request := CreateKey 1 false None clsid_path OBJ_CASE_INSENSITIVE REG_OPTION_CREATE_LINK KEY_WOW64_64KEY [] true (inr 4).
Definition set_link : request := SetValue 0 1 4 (units_bytes symlink_str ++ units_bytes target_path) (namelen symlink_str) REG_LINK.

(** No registry files, an x86-64 machine that runs i386 programs, and a user. *)
Definition first_start : R unit :=
  init_registry ascii_casemap yes registry_directory 0 (fun _ => None) [0x8664; IMAGE_FILE_MACHINE_I386] (units "User\S-1-5-21-0-0-0-1000").

Definition booted : reg := match first_start (start 0) with Some (_, s) => s | None => start 0 end.
Definition with_link : reg := after make_link booted.
Definition trapped : reg := after set_link with_link.

(** A 32-bit program opens [CLSID]. *)
Definition open_clsid : request := OpenKey 2 true None clsid_path OBJ_CASE_INSENSITIVE 0 (inr 4).

(** *** The rounds of a lookup *)

(** Where a lookup is: at a key it holds, with the name left. *)
Definition place_at : Type := Z * option wstr * reg.

Section Rounds.
Context (casemap : Z -> Z) (alloc_ok : nat -> bool) (lookup : wstr -> R (option (robj * option wstr))) (attr : Z).

(** One round of the loop ends, without a fault, and there is another. *)
Definition lookup_round (a b : place_at) : Prop :=
  exists s, key_lookup_name casemap alloc_ok lookup a.1.1 a.1.2 attr a.2 = Some ((Some b.1.1, b.1.2), s) /\ release_object alloc_ok a.1.1 s = Some (tt, b.2).

(** A lookup whose rounds all lead to another has not ended after any number of them. *)
Lemma rounds_never_end (f : nat -> place_at) : (forall i, lookup_round (f i) (f (S i))) ->
  forall n i, lookup_loop casemap alloc_ok lookup n (f i).1.1 (f i).1.2 attr (f i).2 = None.
Proof.
  intros Hf n. induction n as [| n IH]; intros i; [done |]. destruct (Hf i) as (s & H1 & H2). cbn [lookup_loop].
  rewrite (fbind_eq _ _ _ _ _ H1). cbn [fst snd]. rewrite (fbind_eq _ _ _ _ _ H2). apply IH.
Qed.

Definition next_place (a : place_at) : place_at :=
  match key_lookup_name casemap alloc_ok lookup a.1.1 a.1.2 attr a.2 with
  | Some ((Some q, name), s) => match release_object alloc_ok a.1.1 s with Some (_, s') => (q, name, s') | None => a end
  | _ => a
  end.

Definition leads (a : place_at) : bool :=
  match key_lookup_name casemap alloc_ok lookup a.1.1 a.1.2 attr a.2 with
  | Some ((Some _, _), s) => match release_object alloc_ok a.1.1 s with Some _ => true | None => false end
  | _ => false
  end.

Lemma leads_round a : leads a = true -> lookup_round a (next_place a).
Proof.
  unfold leads, lookup_round, next_place. destruct (key_lookup_name _ _ _ _ _ _ _) as [[[[q |] name] s] |] eqn:E1; [| done ..].
  destruct (release_object alloc_ok a.1.1 s) as [[[] s'] |] eqn:E2; [| done]. eauto.
Qed.

(** Rounds that come back to where they were go on for ever. *)
Lemma rounds_return a k d : Nat.iter (k + S d) next_place a = Nat.iter k next_place a ->
  (forall i, (i < k + S d)%nat -> leads (Nat.iter i next_place a) = true) ->
  forall i, lookup_round (Nat.iter i next_place a) (Nat.iter (S i) next_place a).
Proof.
  intros Hret Hr i. induction i as [i IH] using lt_wf_ind. destruct (decide (i < k + S d)%nat) as [Hi | Hi]; [by apply leads_round, Hr |].
  assert (E : forall j, Nat.iter (k + S d + j) next_place a = Nat.iter (k + j) next_place a).
  { intros j. rewrite (Nat.add_comm (k + S d) j), (Nat.add_comm k j), (Nat.iter_add j (k + S d)), (Nat.iter_add j k). by rewrite Hret. }
  pose proof (E (i - (k + S d))%nat) as E0. pose proof (E (S (i - (k + S d)))) as E1.
  replace (k + S d + (i - (k + S d)))%nat with i in E0 by lia. replace (k + S d + S (i - (k + S d)))%nat with (S i) in E1 by lia.
  specialize (IH (k + (i - (k + S d)))%nat ltac:(lia)). rewrite <- (Nat.add_succ_r k (i - (k + S d))) in IH. by rewrite E0, E1.
Qed.
End Rounds.

(** The attributes of a 32-bit program's lookup. *)
Definition attr32 : Z := wow_attr (wow_access true 0) OBJ_CASE_INSENSITIVE.
Definition nested : wstr -> R (option (robj * option wstr)) := lookup_path ascii_casemap yes registry_directory (MAX_LOOKUPS - 1) OBJ_CASE_INSENSITIVE.
Definition begun : reg := match (do _ <- clear_error; grab_object 0) trapped with Some (_, s) => s | None => trapped end.

Lemma trapped_inv : inv ascii_casemap [] (view trapped).
Proof. apply (check_inv _ _ Z.to_nat). vm_compute. reflexivity. Qed.

(** C40: a server that starts without registry files makes the classes of 32-bit programs a
    shared key; then a 64-bit program makes [CLSID] beside it a link to the key [CLSID] in it,
    which is not there.  The registry is then in order, but the request of a 32-bit program to open
    [CLSID] never ends: from the root on, every round of its lookup ends without a fault
    and leads to another one, so that the loop has not ended after any number of rounds. *)
Theorem shared_link_lookup_never_ends :
  first_start (start 0) = Some (tt, booted) /\
  run make_link booted = Some (tt, with_link) /\ run set_link with_link = Some (tt, trapped) /\ inv ascii_casemap [] (view trapped) /\
  (do _ <- clear_error; grab_object 0) trapped = Some (tt, begun) /\
  (exists rounds : nat -> place_at, rounds 0%nat = (0, Some (units "Machine\Software\Classes\CLSID"), begun) /\
     forall i, lookup_round ascii_casemap yes nested attr32 (rounds i) (rounds (S i))) /\
  (forall n, lookup_loop ascii_casemap yes nested n 0 (Some (units "Machine\Software\Classes\CLSID")) attr32 begun = None) /\
  run open_clsid trapped = None.
Proof.
  set (a := (0, Some (units "Machine\Software\Classes\CLSID"), begun)).
  assert (Hr : forall i, lookup_round ascii_casemap yes nested attr32 (Nat.iter i (next_place ascii_casemap yes nested attr32) a) (Nat.iter (S i) (next_place ascii_casemap yes nested attr32) a)).
  { apply (rounds_return _ _ _ _ a 3 1); [vm_compute; reflexivity |]. intros i Hi. do 5 (destruct i as [| i]; [vm_compute; reflexivity |]). lia. }
  split; [vm_compute; reflexivity |]. split; [vm_compute; reflexivity |]. split; [vm_compute; reflexivity |]. split; [apply trapped_inv |]. split; [vm_compute; reflexivity |].
  split; [eexists; split; [| exact Hr]; reflexivity |]. split; [intros n; exact (rounds_never_end _ _ _ _ _ Hr n 0%nat) | vm_compute; reflexivity].
Qed.
